(* ===== verification/_CoqProject ===== *)
-Q . S2P
Prelude.v
Floats.v
Media.v
Loudness.v
Probe.v
Plan.v
Ladder.v
Negotiate.v
Fixtures.v
NegotiateFacts.v
NegotiateTheorems.v
DeliveryTheorems.v
Bench.v
Placement.v
PlacementTheorems.v
Job.v
JobTheorems.v
Segments.v
Playback.v
Registry.v
RegistryTheorems.v
HubPlanning.v
HubTheorems.v
Admission.v
AdmissionTheorems.v
Scheduler.v
SchedulerFacts.v
SchedulerTheorems.v
Utf8.v
Text.v
Ebml.v
EbmlTheorems.v
Subtitles.v
SubtitlesTheorems.v
Names.v
NamesFacts.v
NamesTheorems.v
NamesKeys.v
Subindex.v
SubindexFacts.v
SubindexTheorems.v
SubindexReads.v
SubindexIndex.v
ChapterTheorems.v
Mp4.v
Keyframes.v
KeyframesTheorems.v
ImageSubs.v
ImageSubsTheorems.v
Decode.v
Chroma.v
FloatReal.v
ChromaTheorems.v
ChromaFound.v
Season.v
SeasonFacts.v
SeasonSafety.v
SeasonTheorems.v
SeasonResults.v
Detect.v
DetectTheorems.v
Seek.v
SeekTheorems.v
SeekRestart.v
SeekRestartTheorems.v
Auth.v
AuthTheorems.v
Catalog.v
CatalogTheorems.v
CatalogLink.v
CatalogLinkTheorems.v
Replica.v
ReplicaFacts.v
ReplicaSnapshot.v
Replication.v
ReplicationFacts.v
ReplicationProgress.v
ReplicationTheorems.v
Scan.v
ScanTheorems.v
