(* ===== verification/Prelude.v ===== *)
(** * Kahawai: a verified model of planning, placing and supervising playback

    Kahawai serves films and music to clients that differ in what they play. A
    hub keeps the catalogue and the sessions; mediahosts hold the files;
    transcoders do video work the hub does not. A mediahost reads its files'
    own indexes for what they declare, under a scheduler that keeps background
    work out of the viewers' way, and keeps what it found in a catalogue that
    every hub copies over a link that may break at any point. Episodes of a
    season are compared for the themes they share. When a viewer presses play
    the hub judges each source of the item against the client's capability
    profile and what the fleet can encode, picks the cheapest plan that
    satisfies the client, finds a box to run it, supervises the run and
    restarts it where the viewer seeks. This development models these parts,
    from the bytes of a container to the restart of a session, as executable
    definitions, and proves what each part promises.

    ** The files and what they model

    Paths are under src/crates. Every definition keeps the name it has in the
    source where that is possible; a record field gets a prefix where two
    records share its name. Each component has one file of definitions; where
    the theorems are long they are in a file of their own, [XTheorems].

    - [Prelude]: this header; the [result] type, boolean and option idioms of
      the language, strings as bytes, number printing and parsing, a stable
      sort by a comparison, total preorders as comparisons ([cmp_ok]), and the
      hint database and tactics of the development.
    - [Floats]: f32 and f64 as the language computes them, on primitive floats,
      with the facts about NaN that orders and predictions need.
    - [Media]: kahawai-core media.rs. Streams, client profiles, their defaults
      and strict deserializers, subtitle variants.
    - [Loudness]: kahawai-media loudness.rs, remux/audio.rs. Layouts, the static
      gain of a measurement, the gain an audio chain applies.
    - [Probe]: remux/probe.rs, remux/audio.rs. What the installed elements can
      mux, decode and encode.
    - [Plan]: remux/plan.rs, worker.rs. The remux plan, its summary, modes.
    - [Ladder], [Negotiate]: negotiate.rs. Costs, the styled-subtitle ladder, the
      declared target duration, what a capability admits; then the body of
      [negotiate_for_executors_impl] cut at its own comments into named pieces
      over one [Request] (its argument list), and the forced-loudness wrapper.
    - [Bench]: bench.rs. The benchmark cache, the quarantine, the jobs offered,
      and the loops that measure into the cache; the file is a [Disk].
    - [Placement]: kahawai-playback placement.rs, kahawai-proto lib.rs. Predicted
      pace, the ranking, the choice, the decision, protocol features.
    - [Job]: job.rs, worker.rs, link.proto. One pipeline run and its two
      spellings, command line and wire message.
    - [Segments]: kahawai-core segments.rs. Boundaries named by chapters and the
      bounds on inferred ones.
    - [Playback]: seek.rs, playlist.rs. Parts of a timeline, coalescing seeks,
      when a playlist is ready. [TimelinePart] is the trait of that name, a
      class the part types of the hub are instances of.
    - [Registry]: kahawai-hub registry.rs, sessions/reschedule.rs. The tables
      under placement's locks, the snapshot, reservations, links, drains.
    - [HubPlanning]: sessions/negotiation.rs. Needs, probing the fleet, planning
      with a re-probe, measured loudness, the choice between sources.
    - [Admission]: sessions/admission.rs, mod.rs, start.rs. Reserved and active
      sessions, bulk ends, the idle flag, as a step relation.
    - [Fixtures], [NegotiateFacts]: concrete inputs, the repository's own
      examples evaluated, and the lemmas the negotiation's theorems share.

    - [Scheduler]: kahawai-mediahost scheduler.rs, the configuration of
      kahawai-core media.rs. The queue of background media work as a step
      relation; [SchedulerFacts] is its invariant, seen through a view of the
      state that forgets the order of the queue.
    - [Utf8], [Text]: decoding text and taking strings apart as the standard
      library does, with the lemmas on strings the parsers share.
    - [Names]: kahawai-core names.rs. What a path says: films, episodes, fansub
      names, music, rendition families, the dedup key, revisions. [NamesFacts]
      is the library of plain words, [NamesTheorems] the layouts that read back,
      [NamesKeys] what holds of every name.
    - [Ebml]: kahawai-media subindex.rs, lib.rs. Element ids and sizes, the walk
      over children, chapters, track entries, blocks, and the writers.
    - [Subtitles]: kahawai-media subtitles.rs. SRT, WebVTT and ASS in and out.
    - [Subindex]: subindex.rs. The windowed reader as a state monad, what a
      container declares, the subtitle index, the reads of clusters, the
      assembly of tracks.
    - [SubindexFacts], [SubindexTheorems], [SubindexIndex], [SubindexReads]: two
      small program logics over the reader, [safe] (whatever the source
      delivers) and [pure] (on a file), and the walks proved in them;
      [ChapterTheorems] the merge of chapters.
    - [Mp4], [Keyframes]: subindex.rs. Boxes and tx3g cues; the longest keyframe
      gap of a Matroska, MP4 or AVI file, which bounds the segments of a copy.
    - [ImageSubs]: kahawai-media imagesubs.rs, vobsub_file.rs. Blu-ray and DVD
      subtitles as pictures, the index of a DVD pair and its units taken from
      the packs; [ImageSubsTheorems] their proofs.
    - [Decode], [Chroma], [Season]: kahawai-intro decode.rs, chroma.rs,
      silence.rs, blackframe.rs, season.rs. Windows of an episode, what two
      fingerprints share, quiet runs, the bisection for the first black frame,
      and the passes over a season in a monad with a log of its reads.
      [FloatReal] follows f64 in real arithmetic; [ChromaTheorems],
      [ChromaFound], [SeasonFacts], [SeasonSafety], [SeasonTheorems] and
      [SeasonResults] are their proofs.
    - [Detect]: kahawai-mediahost segments.rs, kahawai-hub
      sessions/catalogue.rs. A detection job from request to result, and its
      projection on the timeline of a rendition.
    - [Seek]: kahawai-hub sessions/seek.rs. How a burst of seek requests becomes
      restarts, as a step relation. [SeekRestart]: one restart, with dispatch.rs
      and start.rs; what the session asks of the outside is its trace.
    - [Auth]: kahawai-hub auth.rs, api.rs. Accounts, refresh families, access
      tokens, the login throttle.
    - [Catalog], [CatalogLink]: kahawai-mediahost catalog.rs, lib.rs. The rows
      and the replay log of one collection, its leases, and what is sent.
    - [Replica]: kahawai-mediadb catalogue.rs. Offers and deltas applied at a
      hub, with every check of a record. [ReplicaFacts] and [ReplicaSnapshot]
      say what one message and one snapshot leave behind.
    - [Replication]: a catalogue, its replica and the link between them as one
      step relation; [ReplicationFacts] is its invariant, [ReplicationProgress]
      what a sync needs to complete, [ReplicationTheorems] the claims.
    - [Scan]: kahawai-mediahost scan.rs, lib.rs. From the walk of a root to the
      rows of the catalogue: companions, identity, inspection, the verdict on a
      known file, the scan as a sequence of looks at a disk that changes and of
      transactions that others interleave with, and the queue of what triggers
      one. [ScanTheorems] are its proofs.

    A locked section of the source is one step, and so is a checkpoint of the
    scheduler, which reads its flags before the lock it yields under; operations the source runs
    outside a lock, such as sending on the idle channel, are steps of their own.
    Maps are finite maps; where the source sorts the entries of a hash map the
    result is proved independent of the iteration order.

    ** What the theorems show

    - Negotiation: what is copied fits the client and its container, what is
      encoded is decodable and targeted at a codec the client and the executor
      share, HDR10 is never shipped raw where it can be tone-mapped, burns and
      subtitle verdicts agree with the plan, every parameter respects its
      ceiling, and the segment length declared to the client holds.
    - Placement and registry: work goes only to boxes that fit it, the ranking
      is a total order that ignores the map's iteration, no interleaving books
      a box beyond its limit (a report of a lower one is taken as it is), and a
      replaced connection cannot disturb the live one.
    - Hub: the box a need reaches has what its plan encodes, decodes and burns
      with, planning terminates for clients without
      a segment cap, constrained encodes run on executors that read the
      constraint, measured gains arrive whole, and the chosen source is the
      best by its key.
    - Sessions: the per-user cap is an invariant of all interleavings, failed
      starts leave no trace, bulk ends are exact.
    - Codecs: both spellings of a job read back to the job, refusals included.
    - Scheduler: capacity and exclusivity hold in all interleavings, permits
      tell the truth, the queue drains, no job waits for a lesser one that was
      not told to yield, a viewer pauses exactly what conflicts, owners take
      turns and a late one gets no arrears, cancelling is exact.
    - Containers: the header walks and the extraction end on any bytes without
      a panic (exact cues apart), the readahead window never shows, a sparse
      cluster walk equals a full scan, written elements and WebVTT documents
      read back, chapters are merged without loss, the keyframe gap is the
      longest step and an MP4's keyframe times are exact.
    - Names: the layouts a library manager writes for episodes, films and music
      read back whole, every guess is well formed, the number taken for an
      episode is never the show's own nor a year, stripping tags is final, the
      dedup key is the words of the title, discs share a family, revisions are
      counted exactly.
    - Image subtitles: no byte sequence makes a decoder panic or loop, a picture
      written as run lengths is decoded back, a unit cut over packs is
      reassembled, and a track keeps every unit that can be read.
    - Replication: a hub that accepted a sync lists exactly the live files of the
      catalogue with what was found about them, whatever scans run and wherever
      the link breaks; a cursor a hub keeps never skips a record; what a
      mediahost is told was accepted it had sent; a catalogue with shippable
      records is accepted whole; and which single record keeps one out.
    - Scan: a scan that completes lists exactly the disk, each file as it was
      seen during the scan unless its root could not be walked, and through the
      replication so does the hub; a second scan of a disk that stands still
      and can be read writes nothing; no trigger is lost; and one
      file whose measuring panics stops the scan of all.
    - Seasons: the analysis ends on any files without a panic, an episode is
      unreadable exactly when a read of it failed, a reported span lies within
      the episode and is what was measured, its edges where the pauses and
      keyframes about them say, a comparison is exactly the longest
      run of matched points, and every episode of a job is answered once.
    - Seeks: while numbers register in order, no intent is lost, none waits for
      ever and none is answered by a restart before it; nothing runs after a teardown, a restart makes at most two starts
      and keeps to what its executor can do.
    - Accounts: a replayed token ends its family, a change of rights ends every
      access token before it, an administrator always remains, a lockout holds.
    - Cache, segments, playback: the cache's invariant and convergence of
      benchmarking, named boundaries within their bounds, seeks and readiness.
    - A few theorems state where the code does less than its comments say:
      [planning_diverges], [short_override_unchecked], [direct_incomplete],
      [text_burn_claim_unplanned], [failed_reschedule_releases_twice],
      [idle_flag_race], [start_outlives_account], [work_class_first_stream],
      [hint_bypasses_turns], [hostile_cue_panics], [cut_film_loses_found],
      [interrupted_walk_answers], [moov_hunt_never_ends],
      [wrapping_box_panics], [short_mdhd_panics],
      [dead_promise_ends_measuring], [parted_twins_stay], [blank_line_cuts_cue],
      [revision_wraps], [attached_index_wraps], [tag_directory_unnames],
      [glued_part_unread], [innermost_dir_names], [substream_aliases],
      [idx_time_wraps], [late_theme_missed], [seek_releases_slot],
      [failed_switch_drops_script], [dispatched_facts_lost],
      [login_outlives_reset], [spelling_unthrottled], [failed_hash_blocks],
      [backslash_blocks], [dropped_root_blocks], [crash_stops_scan],
      [before_epoch_probed].

    ** Parameters

    Code outside the repository is a parameter. [Probe.GStreamer] is the element
    registry and the outcome of trial pipelines; [Fixtures.typical_stack] is an
    instance for the witnesses. [Job.External] is float printing, JSON and file
    reads. The argument parser is the hypothesis [clap_law] of the argv round
    trip: options may come in any order, a value follows its flag, a switch has
    none, a gain may be a negative plain number; a concrete parser that reads the options satisfies it. [Bench] takes
    the library version, the outcome of each write and of each measurement as
    arguments. [HubPlanning] takes the measurement lookup and the availability
    of the tone-map segment. [Subindex.Env] is the source of a reader, any
    bytes or an error for each read, and what its checkpoint and its budget
    say at each; [sane] asks that a read delivers no more than was asked, and
    [honest] that it is a file; [file_env] is one. [Names.Unicode] is the standard
    library's tables of letters and lower case; a theorem that needs more than
    their names says what, such as their agreement with ASCII. The zlib
    decoder, the digest of a root path, the device of a path and the lower
    case of a language name are arguments. [Decode.Pipelines] is the media
    framework and the fingerprinter, what they deliver for a window of a file;
    [SeasonSafety.Sane] is what is asked of it. [Season.Hashing] is the order of
    a hash map, [Detect.FileSystem] the operating system, [Auth.Crypto] the
    password hash, the digest and the token library, [Catalog.MediaJson] the
    text of a stored probe. [Scan.Disk] is what the operating system and the
    media framework answer at one moment of a scan, [Scan.Digests] the hash of
    contents and the text it is taken of. The encoded length of a record on the wire is an
    argument of [CatalogLink].

    ** Bounds and fuel

    Integers are Z with the source's width written where it wraps or saturates;
    wraps are those of a release build, and an index out of range is the error
    [Panic]. [HubPlanning.plan_with_force] takes fuel, because the source calls
    itself with re-probed facts: two steps are enough for every client that
    does not cap its segment length ([planning_terminates]), and for one that
    does no amount is ([planning_diverges]). The loops over a file take fuel
    from its length, with [Diverges] where it runs out: a turn passes a header
    or visits a new position, and the theorems on declaring, extracting and
    measuring show it never does. [Mp4.find_moov] takes fuel as an argument,
    since no amount is enough on a hostile file ([moov_hunt_never_ends]); a scan
    takes it with the file ([Scan.so_turns]). A
    walk over bytes in memory takes their length ([walk_is_run],
    [walk_boxes_ends]). [Scheduler.dispatch] takes the length of the queue: a
    turn admits a job. The bisection of [Season] takes 500 turns
    ([Season.black_fuel]): each end of its bracket widens a bounded number of
    times and between two widenings the gap halves, so [analysis_ends] holds of
    every file. The pages of a catalogue take one turn a record and two more
    ([CatalogLink.produce_fuel]). Everything else is structural.

    ** Not modelled

    Pipelines and the media framework, child processes and sockets, TLS, HTTP
    handlers and the web client are I/O around these decisions. The library
    items of the hub, their matching against providers and their search are SQL
    statements whose meaning is the engine's. The walk of a directory is an
    answer of [Scan.Disk]; the scan over the older link, which sends its rows
    to a hub instead of a catalogue, is not modelled. Memory is not: an allocation always
    succeeds. *)
From Stdlib Require Export ZArith Lia.
From Stdlib Require Import DecimalString DecimalN DecimalFacts.
From Stdlib Require DecimalPos.
From stdpp Require Export base list gmap strings option numbers sorting.
From Stdlib Require Export Sorted.

#[local] Open Scope Z_scope.

(** ** Results of fallible code *)

Inductive result (E A : Type) : Type :=
| Ok (a : A)
| Err (e : E).
Arguments Ok {E A} a.
Arguments Err {E A} e.

Definition rbind {E A B} (r : result E A) (k : A -> result E B) : result E B :=
  match r with Ok a => k a | Err e => Err e end.

(** [anyhow::ensure!(c, e)] followed by the rest of the body. *)
Definition ensure {E A} (c : bool) (e : E) (k : result E A) : result E A :=
  if c then k else Err e.

Definition ok_or {E A} (o : option A) (e : E) : result E A :=
  match o with Some a => Ok a | None => Err e end.

Definition is_ok {E A} (r : result E A) : bool :=
  match r with Ok _ => true | Err _ => false end.

Declare Scope kahawai_scope.
Delimit Scope kahawai_scope with kw.
Notation "'let?' x := r 'in' k" := (rbind r (fun x => k))
  (at level 10, x name, r at level 100, k at level 200)
  : kahawai_scope.
Notation "s =s t" := (String.eqb s t) (at level 70, no associativity) : kahawai_scope.
Notation "x ≟ y" := (bool_decide (x = y)) (at level 70, no associativity) : kahawai_scope.
#[global] Open Scope kahawai_scope.

(** Collect a list of results; the first error wins. *)
Fixpoint collect {E A} (l : list (result E A)) : result E (list A) :=
  match l with
  | [] => Ok []
  | r :: l => let? a := r in let? rest := collect l in Ok (a :: rest)
  end.

(** ** Options, as Rust's combinators *)

Definition is_some {A} (o : option A) : bool :=
  match o with Some _ => true | None => false end.
Definition is_none {A} (o : option A) : bool := negb (is_some o).
Definition is_some_and {A} (f : A -> bool) (o : option A) : bool :=
  match o with Some a => f a | None => false end.
Definition is_none_or {A} (f : A -> bool) (o : option A) : bool :=
  match o with Some a => f a | None => true end.
Definition opt_filter {A} (f : A -> bool) (o : option A) : option A :=
  match o with Some a => if f a then Some a else None | None => None end.
Definition opt_or {A} (o o' : option A) : option A :=
  match o with Some a => Some a | None => o' end.
Definition then_some {A} (b : bool) (a : A) : option A := if b then Some a else None.
Definition unwrap_or {A} (o : option A) (d : A) : A :=
  match o with Some a => a | None => d end.
Definition map_or {A B} (d : B) (f : A -> B) (o : option A) : B :=
  match o with Some a => f a | None => d end.

(** ** Lists, as Rust's iterators *)

Fixpoint position {A} (f : A -> bool) (l : list A) : option nat :=
  match l with
  | [] => None
  | a :: l => if f a then Some 0%nat else S <$> position f l
  end.

(** [iter().enumerate().position(|(i, s)| ..)], counting from [i]. *)
Fixpoint positioni {A} (f : nat -> A -> bool) (i : nat) (l : list A) : option nat :=
  match l with
  | [] => None
  | a :: l => if f i a then Some i else positioni f (S i) l
  end.

Fixpoint rposition {A} (f : A -> bool) (l : list A) : option nat :=
  match l with
  | [] => None
  | a :: l =>
      match rposition f l with
      | Some n => Some (S n)
      | None => if f a then Some 0%nat else None
      end
  end.

(** [iter().max()] / [iter().sum()] on unsigned integers held as [Z]. *)
Definition max_of (l : list Z) : option Z :=
  match l with [] => None | x :: l => Some (fold_left Z.max l x) end.

Definition str_mem (s : string) (l : list string) : bool := existsb (String.eqb s) l.

(** ** Machine integers *)

Definition u32_max : Z := 2 ^ 32 - 1.
Definition u64_max : Z := 2 ^ 64 - 1.
Definition i64_max : Z := 2 ^ 63 - 1.
Definition i64_min : Z := - 2 ^ 63.
(** [as u32] and wrapping arithmetic (the release profile wraps). *)
Definition wrap (w z : Z) : Z := z mod 2 ^ w.
Definition in_range (w z : Z) : Prop := 0 <= z < 2 ^ w.
Definition sat_sub (a b : Z) : Z := Z.max 0 (a - b).
Definition sat_add (w a b : Z) : Z := Z.min (2 ^ w - 1) (a + b).
(** [usize] indices are [nat]; [len().saturating_sub(1)] is [pred]. *)

(** ** Strings: [&str] as its UTF-8 bytes *)

Fixpoint strip_prefix (p s : string) : option string :=
  match p, s with
  | EmptyString, _ => Some s
  | String a p, String b s => if Ascii.eqb a b then strip_prefix p s else None
  | String _ _, EmptyString => None
  end.

Definition starts_with (p s : string) : bool := is_some (strip_prefix p s).

Fixpoint ends_with (p s : string) : bool :=
  (p =s s) || match s with EmptyString => false | String _ s => ends_with p s end.

Fixpoint str_contains (p s : string) : bool :=
  starts_with p s || match s with EmptyString => false | String _ s => str_contains p s end.

(** [str::split(c)]: always at least one piece. *)
Fixpoint split_char (c : Ascii.ascii) (s : string) : list string :=
  match s with
  | EmptyString => [EmptyString]
  | String a s =>
      if Ascii.eqb a c then EmptyString :: split_char c s
      else match split_char c s with
           | [] => [String a EmptyString]
           | w :: ws => String a w :: ws
           end
  end.

(** [str::split_once(c)] / [str::rsplit_once(c)]. *)
Fixpoint split_once (c : Ascii.ascii) (s : string) : option (string * string) :=
  match s with
  | EmptyString => None
  | String a s =>
      if Ascii.eqb a c then Some (EmptyString, s)
      else '(l, r) ← split_once c s; Some (String a l, r)
  end.

Fixpoint rsplit_once (c : Ascii.ascii) (s : string) : option (string * string) :=
  match s with
  | EmptyString => None
  | String a s =>
      match rsplit_once c s with
      | Some (l, r) => Some (String a l, r)
      | None => if Ascii.eqb a c then Some (EmptyString, s) else None
      end
  end.

Fixpoint str_mem_char (c : Ascii.ascii) (s : string) : bool :=
  match s with
  | EmptyString => false
  | String a s => Ascii.eqb a c || str_mem_char c s
  end.

Fixpoint join (sep : string) (l : list string) : string :=
  match l with
  | [] => EmptyString
  | [w] => w
  | w :: ws => (w +:+ sep +:+ join sep ws)
  end.

Definition byte (n : N) : Ascii.ascii := Ascii.ascii_of_N n.

Definition ascii_lower (a : Ascii.ascii) : Ascii.ascii :=
  let n := Ascii.N_of_ascii a in
  if ((65 <=? n) && (n <=? 90))%N then Ascii.ascii_of_N (n + 32) else a.
Fixpoint to_ascii_lowercase (s : string) : string :=
  match s with
  | EmptyString => EmptyString
  | String a s => String (ascii_lower a) (to_ascii_lowercase s)
  end.

(** The UTF-8 encodings of [char::is_whitespace] (Unicode White_Space). *)
Definition white_space : list string :=
  let b1 n := String (byte n) EmptyString in
  let b2 m n := String (byte m) (b1 n) in
  let b3 l m n := String (byte l) (b2 m n) in
  [b1 9%N; b1 10%N; b1 11%N; b1 12%N; b1 13%N; b1 32%N;
   b2 194%N 133%N; b2 194%N 160%N; b3 225%N 154%N 128%N;
   b3 226%N 128%N 128%N; b3 226%N 128%N 129%N; b3 226%N 128%N 130%N;
   b3 226%N 128%N 131%N; b3 226%N 128%N 132%N; b3 226%N 128%N 133%N;
   b3 226%N 128%N 134%N; b3 226%N 128%N 135%N; b3 226%N 128%N 136%N;
   b3 226%N 128%N 137%N; b3 226%N 128%N 138%N; b3 226%N 128%N 168%N;
   b3 226%N 128%N 169%N; b3 226%N 128%N 175%N; b3 226%N 129%N 159%N;
   b3 227%N 128%N 128%N].

(** Strip one leading (resp. trailing) white-space character. *)
Definition trim1_start (s : string) : option string :=
  fold_right (fun w acc => opt_or (strip_prefix w s) acc) None white_space.

Fixpoint trim_start_fuel (fuel : nat) (s : string) : string :=
  match fuel with
  | O => s
  | S fuel =>
      match trim1_start s with
      | Some s' => trim_start_fuel fuel s'
      | None => s
      end
  end.
Definition trim_start (s : string) : string := trim_start_fuel (String.length s) s.

Fixpoint strip_suffix (p s : string) : option string :=
  if p =s s then Some EmptyString
  else match s with
       | EmptyString => None
       | String a s => String a <$> strip_suffix p s
       end.

Definition trim1_end (s : string) : option string :=
  fold_right (fun w acc => opt_or (strip_suffix w s) acc) None white_space.

Fixpoint trim_end_fuel (fuel : nat) (s : string) : string :=
  match fuel with
  | O => s
  | S fuel =>
      match trim1_end s with
      | Some s' => trim_end_fuel fuel s'
      | None => s
      end
  end.
Definition trim_end (s : string) : string := trim_end_fuel (String.length s) s.
Definition trim (s : string) : string := trim_end (trim_start s).

(** [split_ascii_whitespace]: maximal runs without space, tab, LF, FF, CR. *)
Definition is_ascii_ws (a : Ascii.ascii) : bool :=
  let n := Ascii.N_of_ascii a in
  ((n =? 32) || (n =? 9) || (n =? 10) || (n =? 12) || (n =? 13))%N.

Fixpoint words_aux (cur : string) (s : string) : list string :=
  match s with
  | EmptyString => if cur =s EmptyString then [] else [cur]
  | String a s =>
      if is_ascii_ws a
      then (if cur =s EmptyString then [] else [cur]) ++ words_aux EmptyString s
      else words_aux (cur +:+ String a EmptyString) s
  end.
Definition split_ascii_whitespace (s : string) : list string := words_aux EmptyString s.

(** [str::lines]: each line is ended by LF or CR LF; what follows the last LF
    is a line of its own only when it is not empty, and keeps its CR. *)
Definition drop_cr (s : string) : string :=
  unwrap_or (strip_suffix (String (byte 13) EmptyString) s) s.
Fixpoint lines_of (pieces : list string) : list string :=
  match pieces with
  | [] => []
  | [w] => if w =s EmptyString then [] else [w]
  | w :: ws => drop_cr w :: lines_of ws
  end.
Definition lines (s : string) : list string := lines_of (split_char (byte 10) s).

(** ** Decimal numbers *)

(** [to_string] of an unsigned integer. *)
Definition show (z : Z) : string := NilZero.string_of_uint (N.to_uint (Z.to_N z)).

Definition digit (a : Ascii.ascii) : option Z :=
  let n := Ascii.N_of_ascii a in
  if ((48 <=? n) && (n <=? 57))%N then Some (Z.of_N n - 48) else None.

(** The digit loop of [<uN>::from_str]: checked multiply, checked add. *)
Fixpoint parse_digits (maxv acc : Z) (s : string) : option Z :=
  match s with
  | EmptyString => Some acc
  | String a s =>
      d ← digit a;
      if (maxv <? acc * 10) || (maxv <? acc * 10 + d) then None
      else parse_digits maxv (acc * 10 + d) s
  end.

(** [s.parse::<uN>()]: a leading [+] is allowed, the empty string and a lone
    [+] are not. *)
Definition parse_uint (maxv : Z) (s : string) : option Z :=
  match s with
  | EmptyString => None
  | String a r =>
      if Ascii.eqb a (byte 43)
      then (if r =s EmptyString then None else parse_digits maxv 0 r)
      else parse_digits maxv 0 s
  end.

(** ** Shared automation *)

Create HintDb kw.

(** Split the conjunctions of booleans the code's guards are made of. *)
Ltac bsplit :=
  repeat match goal with
  | H : (_ && _)%bool = true |- _ => apply andb_true_iff in H; destruct H
  | H : negb _ = true |- _ => apply negb_true_iff in H
  | H : (_ || _)%bool = false |- _ => apply orb_false_iff in H; destruct H
  | H : negb _ = false |- _ => apply negb_false_iff in H
  end.

(** Turn boolean tests on [Z] in the hypotheses into propositions. *)
Ltac zbool :=
  repeat match goal with
  | H : (_ <? _)%Z = true |- _ => apply Z.ltb_lt in H
  | H : (_ <? _)%Z = false |- _ => apply Z.ltb_ge in H
  | H : (_ <=? _)%Z = true |- _ => apply Z.leb_le in H
  | H : (_ <=? _)%Z = false |- _ => apply Z.leb_gt in H
  | H : (_ =? _)%Z = true |- _ => apply Z.eqb_eq in H
  | H : (_ =? _)%Z = false |- _ => apply Z.eqb_neq in H
  end.

(** Case analysis on the innermost scrutinee of the goal or a hypothesis. *)
Ltac kcase :=
  match goal with
  | |- context [match ?x with _ => _ end] =>
      lazymatch x with
      | context [match _ with _ => _ end] => fail
      | _ => destruct x eqn:?
      end
  end.
Ltac kcase_in H :=
  match type of H with
  | context [match ?x with _ => _ end] =>
      lazymatch x with
      | context [match _ with _ => _ end] => fail
      | _ => destruct x eqn:?
      end
  end.

(** ** Lemmas the components share *)

Lemma is_some_and_spec {A} (f : A -> bool) (o : option A) :
  is_some_and f o = true <-> exists a, o = Some a /\ f a = true.
Proof.
  destruct o as [b|]; simpl; split; try done.
  - intros H. by exists b.
  - by intros (a & [= <-] & H).
  - by intros (a & H & _).
Qed.

Lemma opt_filter_Some {A} (f : A -> bool) (o : option A) (a : A) :
  opt_filter f o = Some a <-> o = Some a /\ f a = true.
Proof.
  destruct o as [b|]; simpl; [|by split; [|intros [? _]]].
  destruct (f b) eqn:Hb; split; try done.
  - by intros [= <-].
  - by intros [[= <-] _].
  - by intros [[= <-] H]; congruence.
Qed.

Lemma then_some_Some {A} (b : bool) (a a' : A) :
  then_some b a = Some a' <-> b = true /\ a = a'.
Proof.
  destruct b; simpl; split; try done.
  - by intros [= <-].
  - by intros [_ ->].
  - by intros [? _].
Qed.

Lemma rbind_Ok {E A B} (r : result E A) (k : A -> result E B) b :
  rbind r k = Ok b <-> exists a, r = Ok a /\ k a = Ok b.
Proof.
  destruct r as [a|e]; simpl; split; try done.
  - intros H. by exists a.
  - by intros (a' & [= <-] & H).
  - by intros (a' & H & _).
Qed.

Lemma str_eqb_spec (s t : string) : reflect (s = t) (s =s t).
Proof. apply String.eqb_spec. Qed.

Lemma str_mem_spec (s : string) (l : list string) : str_mem s l = true <-> s ∈ l.
Proof.
  unfold str_mem. rewrite existsb_exists, list_elem_of_In. split.
  - intros (t & Hin & ->%String.eqb_eq). done.
  - intros Hin. exists s. by rewrite String.eqb_refl.
Qed.

Lemma elem_of_filter_bool {A} (f : A -> bool) (l : list A) (a : A) :
  a ∈ List.filter f l <-> a ∈ l /\ f a = true.
Proof. by rewrite !list_elem_of_In, filter_In. Qed.

Lemma position_Some {A} (f : A -> bool) l n :
  position f l = Some n ->
  exists a, l !! n = Some a /\ f a = true /\
            forall m b, (m < n)%nat -> l !! m = Some b -> f b = false.
Proof.
  revert n. induction l as [|a l IH]; intros n; simpl; [done|].
  destruct (f a) eqn:Hf.
  - intros [= <-]. exists a. repeat split; [done|lia].
  - destruct (position f l) as [n'|]; simpl; [|done]. intros [= <-].
    destruct (IH n' eq_refl) as (b & Hl & Hb & Hmin). exists b. repeat split; try done.
    intros [|m] c Hm Hc; simpl in *; [by simplify_eq|]. apply (Hmin m); [lia|done].
Qed.

Lemma position_None {A} (f : A -> bool) l :
  position f l = None <-> forall a, a ∈ l -> f a = false.
Proof.
  induction l as [|a l IH]; simpl.
  - split; [|done]. intros _ a Ha. by apply not_elem_of_nil in Ha.
  - destruct (f a) eqn:Hf.
    + split; [done|]. intros H. rewrite H in Hf; [done|left].
    + rewrite fmap_None, IH. split; intros H b.
      * intros [->|Hb]%elem_of_cons; [done|by apply H].
      * intros Hb. apply H. by right.
Qed.

Lemma positioni_Some {A} (f : nat -> A -> bool) i l n :
  positioni f i l = Some n ->
  (i <= n)%nat /\ exists a, l !! (n - i)%nat = Some a /\ f n a = true.
Proof.
  revert i. induction l as [|a l IH]; intros i; simpl; [done|].
  destruct (f i a) eqn:Hf.
  - intros [= <-]. split; [lia|]. exists a. by rewrite Nat.sub_diag.
  - intros H. apply IH in H as (Hi & b & Hl & Hb). split; [lia|]. exists b.
    replace (n - i)%nat with (S (n - S i)) by lia. done.
Qed.

Lemma rposition_Some {A} (f : A -> bool) l n :
  rposition f l = Some n ->
  exists a, l !! n = Some a /\ f a = true /\
            forall m b, (n < m)%nat -> l !! m = Some b -> f b = false.
Proof.
  assert (Hnone : forall l, rposition f l = None -> forall b : A, b ∈ l -> f b = false).
  { clear. induction l as [|a l IH]; simpl; intros H b Hb; [by apply not_elem_of_nil in Hb|].
    destruct (rposition f l); [done|]. destruct (f a) eqn:?; [done|].
    apply elem_of_cons in Hb as [->|Hb]; auto. }
  revert n. induction l as [|a l IH]; intros n; simpl; [done|].
  destruct (rposition f l) as [n'|] eqn:Hr.
  - intros [= <-]. destruct (IH n' eq_refl) as (b & Hl & Hb & Hmax). exists b.
    repeat split; try done. intros [|m] c Hm Hc; [lia|]. apply (Hmax m); [lia|done].
  - destruct (f a) eqn:Hf; [|done]. intros [= <-]. exists a. repeat split; try done.
    intros [|m] c Hm Hc; [lia|]. simpl in Hc. apply (Hnone l Hr).
    apply list_elem_of_lookup. eauto.
Qed.

Lemma max_of_spec l m :
  max_of l = Some m -> m ∈ l /\ forall x, x ∈ l -> x <= m.
Proof.
  destruct l as [|a l]; simpl; [done|]. intros [= <-].
  revert a. induction l as [|b l IH]; intros a; simpl.
  - split; [left|]. intros x Hx%list_elem_of_singleton. lia.
  - destruct (IH (Z.max a b)) as [Hin Hmax]. split.
    + apply elem_of_cons in Hin as [->|Hin]; [|by do 2 right].
      destruct (Z.max_spec a b) as [[_ ->]|[_ ->]]; [right; left|left].
    + intros x. rewrite !elem_of_cons. intros [->|[->|Hx]].
      * etrans; [apply (Z.le_max_l a b)|apply Hmax; left].
      * etrans; [apply (Z.le_max_r a b)|apply Hmax; left].
      * apply Hmax. by right.
Qed.

Lemma max_of_None l : max_of l = None <-> l = [].
Proof. by destruct l. Qed.

(** A fact about the integers of a short range, by evaluating each. *)
Lemma z_enum (P : Z -> bool) lo n z :
  forallb (fun k => P (lo + Z.of_nat k)) (seq 0 n) = true -> lo <= z < lo + Z.of_nat n -> P z = true.
Proof.
  rewrite forallb_forall. intros H Hz. specialize (H (Z.to_nat (z - lo))).
  replace (lo + Z.of_nat (Z.to_nat (z - lo))) with z in H by lia. apply H, in_seq. lia.
Qed.
Lemma wrap_small w z : in_range w z -> wrap w z = z.
Proof. intros H. by apply Z.mod_small. Qed.

(** *** [show] and [parse_uint] are inverse *)

Fixpoint digits_val (acc : Z) (d : Decimal.uint) : Z :=
  match d with
  | Decimal.Nil => acc
  | Decimal.D0 d => digits_val (acc * 10) d
  | Decimal.D1 d => digits_val (acc * 10 + 1) d
  | Decimal.D2 d => digits_val (acc * 10 + 2) d
  | Decimal.D3 d => digits_val (acc * 10 + 3) d
  | Decimal.D4 d => digits_val (acc * 10 + 4) d
  | Decimal.D5 d => digits_val (acc * 10 + 5) d
  | Decimal.D6 d => digits_val (acc * 10 + 6) d
  | Decimal.D7 d => digits_val (acc * 10 + 7) d
  | Decimal.D8 d => digits_val (acc * 10 + 8) d
  | Decimal.D9 d => digits_val (acc * 10 + 9) d
  end.

Lemma digits_val_ge d acc : 0 <= acc -> acc <= digits_val acc d.
Proof.
  revert acc. induction d; intros acc Hacc; simpl; try lia;
    (etrans; [|apply IHd]; lia).
Qed.

Lemma digits_val_pos d p :
  digits_val (Zpos p) d = Zpos (Pos.of_uint_acc d p).
Proof.
  revert p. induction d; intros p; simpl; try done;
    rewrite <- IHd; f_equal; lia.
Qed.

Lemma digits_val_N d : digits_val 0 d = Z.of_N (N.of_uint d).
Proof.
  induction d as [|d IHd|d|d|d|d|d|d|d|d|d]; simpl; try done;
    apply (digits_val_pos d).
Qed.

Lemma parse_digits_uint maxv d acc :
  0 <= acc -> digits_val acc d <= maxv ->
  parse_digits maxv acc (NilEmpty.string_of_uint d) = Some (digits_val acc d).
Proof.
  revert acc. induction d; intros acc Hacc Hmax; simpl in *; try done;
  match goal with H : digits_val ?a ?d <= _ |- _ =>
    pose proof (digits_val_ge d a ltac:(lia)) end;
  rewrite (proj2 (Z.ltb_ge _ _)) by lia; rewrite (proj2 (Z.ltb_ge _ _)) by lia; simpl;
  rewrite ?Z.add_0_r; apply IHd; lia.
Qed.

Lemma show_digits z :
  exists d, show z = NilEmpty.string_of_uint d /\ d <> Decimal.Nil /\
            digits_val 0 d = Z.of_N (Z.to_N z).
Proof.
  unfold show, NilZero.string_of_uint.
  assert (N.to_uint (Z.to_N z) <> Decimal.Nil) as Hnil.
  { destruct (Z.to_N z) as [|p]; [done|]. apply DecimalPos.Unsigned.to_uint_nonnil. }
  exists (N.to_uint (Z.to_N z)). split_and!; [|done|].
  - by destruct (N.to_uint (Z.to_N z)).
  - by rewrite digits_val_N, DecimalN.Unsigned.of_to.
Qed.

Lemma string_of_uint_head d a s :
  NilEmpty.string_of_uint d = String a s -> is_some (digit a) = true.
Proof. destruct d; simpl; intros [= <- _]; done. Qed.

Lemma parse_show maxv z : 0 <= z <= maxv -> parse_uint maxv (show z) = Some z.
Proof.
  intros Hz. destruct (show_digits z) as (d & Hs & Hd & Hv). rewrite Hs.
  unfold parse_uint. destruct (NilEmpty.string_of_uint d) as [|a r] eqn:He.
  - by destruct d.
  - pose proof (string_of_uint_head _ _ _ He) as Ha.
    destruct (Ascii.eqb_spec a (byte 43)) as [->|_]; [done|].
    rewrite <- He, parse_digits_uint; [rewrite Hv; f_equal; lia|lia|rewrite Hv; lia].
Qed.

Lemma show_no_char z c : digit c = None -> str_mem_char c (show z) = false.
Proof.
  intros Hc. destruct (show_digits z) as (d & -> & _).
  induction d; cbn [NilEmpty.string_of_uint str_mem_char]; try done;
    rewrite IHd, orb_false_r; apply Ascii.eqb_neq; intros <-; done.
Qed.

(** *** Splitting at the last separator *)

Lemma rsplit_once_fresh c s : str_mem_char c s = false -> rsplit_once c s = None.
Proof.
  induction s as [|a s IH]; simpl; [done|]. intros [Ha Hs]%orb_false_iff.
  by rewrite IH, Ha.
Qed.

Lemma rsplit_once_app c l r :
  str_mem_char c r = false -> rsplit_once c (l +:+ String c r) = Some (l, r).
Proof.
  intros Hr. induction l as [|a l IH]; simpl.
  - by rewrite rsplit_once_fresh, Ascii.eqb_refl.
  - by rewrite IH.
Qed.

(** ** Stable sorting *)

(** [slice::sort_by(cmp)]: a stable sort. Under a total preorder the stable
    sorted permutation is unique, so the algorithm behind it does not matter. *)
Section Sorting.
Context {A : Type} (cmp : A -> A -> comparison).

Definition cmp_le (a b : A) : Prop := cmp a b <> Gt.

Fixpoint sort_insert (a : A) (l : list A) : list A :=
  match l with
  | [] => [a]
  | b :: l =>
      match cmp a b with
      | Gt => b :: sort_insert a l
      | _ => a :: b :: l
      end
  end.
Definition sort_by (l : list A) : list A := fold_right sort_insert [] l.

Lemma sort_insert_perm a l : sort_insert a l ≡ₚ a :: l.
Proof.
  induction l as [|b l IH]; simpl; [done|].
  destruct (cmp a b); try done. rewrite IH. apply Permutation_swap.
Qed.

Lemma sort_by_perm l : sort_by l ≡ₚ l.
Proof.
  induction l as [|a l IH]; simpl; [done|]. by rewrite sort_insert_perm, IH.
Qed.

(** [P] delimits the elements the comparison orders totally. *)
Context (P : A -> Prop).
Hypothesis cmp_total : forall a b, P a -> P b -> cmp a b = Gt -> cmp b a <> Gt.
Hypothesis cmp_trans : forall a b c,
  P a -> P b -> P c -> cmp_le a b -> cmp_le b c -> cmp_le a c.

Lemma sort_insert_sorted a l :
  P a -> Forall P l -> StronglySorted cmp_le l -> StronglySorted cmp_le (sort_insert a l).
Proof.
  intros Ha HP Hl. induction Hl as [|b l Hl IH Hb]; simpl.
  - by repeat constructor.
  - inversion HP as [|? ? Pb Pl]; subst.
    destruct (cmp a b) eqn:Hab.
    + constructor; [by constructor|]. constructor; [by unfold cmp_le; rewrite Hab|].
      rewrite Forall_forall in *. intros c Hc.
      apply (cmp_trans a b c); auto. by unfold cmp_le; rewrite Hab.
    + constructor; [by constructor|]. constructor; [by unfold cmp_le; rewrite Hab|].
      rewrite Forall_forall in *. intros c Hc.
      apply (cmp_trans a b c); auto. by unfold cmp_le; rewrite Hab.
    + constructor; [by apply IH|]. rewrite sort_insert_perm. constructor; [|done].
      by apply cmp_total.
Qed.

Lemma sort_by_sorted l : Forall P l -> StronglySorted cmp_le (sort_by l).
Proof.
  induction 1 as [|a l Ha Hl IH]; simpl; [constructor|].
  apply sort_insert_sorted; try done. by rewrite sort_by_perm.
Qed.

(** When ties identify the elements of the list, the order of the input is
    immaterial. *)
Lemma sort_by_unique l l' :
  (forall a b, a ∈ l -> b ∈ l -> cmp_le a b -> cmp_le b a -> a = b) ->
  Forall P l -> l ≡ₚ l' -> sort_by l = sort_by l'.
Proof.
  intros Hanti HP Hperm. apply (StronglySorted_unique_strong cmp_le).
  - intros a b. rewrite (sort_by_perm l), (sort_by_perm l'), <- Hperm. auto.
  - by apply sort_by_sorted.
  - apply sort_by_sorted. by rewrite <- Hperm.
  - by rewrite !sort_by_perm.
Qed.
End Sorting.

(** [Ordering::then]. *)
Definition cmp_then (c d : comparison) : comparison :=
  match c with Eq => d | _ => c end.

(** [bool]'s order: [false < true]. *)
Definition bool_cmp (a b : bool) : comparison :=
  match a, b with
  | true, false => Gt
  | false, true => Lt
  | _, _ => Eq
  end.

(** A comparator that orders the elements [P] holds of totally. *)
Record cmp_ok {A} (P : A -> Prop) (cmp : A -> A -> comparison) : Prop := mkCmpOk {
  co_anti : forall a b, P a -> P b -> cmp b a = CompOpp (cmp a b);
  co_trans : forall a b c, P a -> P b -> P c -> cmp_le cmp a b -> cmp_le cmp b c -> cmp_le cmp a c;
}.
Arguments co_anti {A P cmp}.
Arguments co_trans {A P cmp}.

Lemma cmp_ok_total {A} (P : A -> Prop) cmp :
  cmp_ok P cmp -> forall a b, P a -> P b -> cmp a b = Gt -> cmp b a <> Gt.
Proof. intros H a b Ha Hb Hab. rewrite (co_anti H a b Ha Hb), Hab. done. Qed.

Lemma cmp_ok_then {A} (P : A -> Prop) c d :
  cmp_ok P c -> cmp_ok P d -> cmp_ok P (fun a b => cmp_then (c a b) (d a b)).
Proof.
  intros Hc Hd. split.
  - intros a b Ha Hb. rewrite (co_anti Hc a b), (co_anti Hd a b) by done. by destruct (c a b).
  - intros x y z Hx Hy Hz. unfold cmp_le.
    pose proof (co_trans Hc x y z Hx Hy Hz) as T1. pose proof (co_trans Hc y z x Hy Hz Hx) as T2.
    pose proof (co_trans Hc z x y Hz Hx Hy) as T3. pose proof (co_trans Hd x y z Hx Hy Hz) as T.
    unfold cmp_le in *.
    rewrite (co_anti Hc x z), (co_anti Hc x y) in * by done.
    rewrite (co_anti Hc y z) in T3 by done.
    destruct (c x y), (c y z), (c x z); simpl in *; try done; intros; auto;
      exfalso; first [by apply T1|by apply T2|by apply T3].
Qed.

Lemma cmp_ok_on {A B} (P : A -> Prop) (Q : B -> Prop) (f : A -> B) c :
  (forall a, P a -> Q (f a)) -> cmp_ok Q c -> cmp_ok P (fun a b => c (f a) (f b)).
Proof.
  intros Hf Hc. split.
  - intros a b Ha Hb. by apply (co_anti Hc); apply Hf.
  - intros x y z Hx Hy Hz. unfold cmp_le. by apply (co_trans Hc); apply Hf.
Qed.

(** [b.cmp(&a)]. *)
Lemma cmp_ok_flip {A} (P : A -> Prop) c : cmp_ok P c -> cmp_ok P (fun a b => c b a).
Proof.
  intros Hc. split.
  - intros a b Ha Hb. by apply (co_anti Hc).
  - intros x y z Hx Hy Hz. unfold cmp_le. intros H1 H2. by apply (co_trans Hc z y x).
Qed.

Lemma cmp_ok_ext {A} (P : A -> Prop) c d :
  (forall a b, P a -> P b -> c a b = d a b) -> cmp_ok P c -> cmp_ok P d.
Proof.
  intros He Hc. split.
  - intros a b Ha Hb. rewrite <- !He by done. by apply (co_anti Hc).
  - intros x y z Hx Hy Hz. unfold cmp_le. rewrite <- !He by done. by apply (co_trans Hc).
Qed.

Lemma bool_cmp_ok : cmp_ok (fun _ => True) bool_cmp.
Proof. split; [by intros [] []|]. unfold cmp_le. by intros [] [] []. Qed.

Lemma nat_cmp_ok : cmp_ok (fun _ => True) Nat.compare.
Proof.
  split; [intros a b _ _; apply Nat.compare_antisym|]. unfold cmp_le. intros x y z _ _ _.
  rewrite !Nat.compare_ngt_iff. lia.
Qed.

Lemma z_cmp_ok : cmp_ok (fun _ => True) Z.compare.
Proof.
  split; [intros a b _ _; apply Z.compare_antisym|]. unfold cmp_le. intros x y z _ _ _.
  rewrite !Z.compare_ngt_iff. lia.
Qed.

(** Strings compare byte by byte. *)
Lemma string_cmp_ok : cmp_ok (fun _ => True) String.compare.
Proof.
  split; [intros a b _ _; rewrite String.compare_antisym; by destruct (String.compare a b)|].
  unfold cmp_le. intros x. induction x as [|a x IH]; intros [|b y] [|c z] _ _ _; simpl; try done.
  unfold Ascii.compare.
  destruct (N.compare_spec (Ascii.N_of_ascii a) (Ascii.N_of_ascii b)),
    (N.compare_spec (Ascii.N_of_ascii b) (Ascii.N_of_ascii c)),
    (N.compare_spec (Ascii.N_of_ascii a) (Ascii.N_of_ascii c)); try done; try lia.
  by apply IH.
Qed.

Lemma sort_by_ok {A} (P : A -> Prop) cmp l :
  cmp_ok P cmp -> Forall P l -> StronglySorted (cmp_le cmp) (sort_by cmp l).
Proof. intros H. apply (sort_by_sorted cmp P); [by apply cmp_ok_total|apply (co_trans H)]. Qed.

Lemma sort_by_head_le {A} (cmp : A -> A -> comparison) l a r b :
  StronglySorted (cmp_le cmp) l -> l = a :: r -> b ∈ r -> cmp a b <> Gt.
Proof.
  intros Hs -> Hb. apply StronglySorted_inv in Hs as [_ Hs].
  rewrite Forall_forall in Hs. by apply Hs.
Qed.

#[export] Hint Resolve sort_by_perm parse_show wrap_small : kw.
