(* ===== verification/Floats.v ===== *)
(** * IEEE-754 arithmetic of [f32] and [f64]

    The code computes paces, gains and playlist spans in binary floating
    point. Values are the Standard Library's [spec_float], so every operation
    below rounds exactly as the machine does (round to nearest, ties to even)
    and evaluates by [vm_compute]. [F64] and [F32] fix precision and exponent
    range; comparisons follow [PartialOrd]: NaN is not comparable. *)
From Stdlib Require Import SpecFloat.
From S2P Require Import Prelude.
#[local] Open Scope Z_scope.

Definition float : Type := spec_float.

Definition is_nan (x : float) : bool :=
  match x with S754_nan => true | _ => false end.
Definition is_finite (x : float) : bool :=
  match x with S754_zero _ | S754_finite _ _ _ => true | _ => false end.

(** [PartialOrd::partial_cmp], [<], [<=], [>], [>=]. *)
Definition partial_cmp (x y : float) : option comparison := SFcompare x y.
Definition flt (x y : float) : bool := SFltb x y.
Definition fle (x y : float) : bool := SFleb x y.
Definition fgt (x y : float) : bool := SFltb y x.
Definition fge (x y : float) : bool := SFleb y x.

(** [f.max(g)] and [f.min(g)]: a NaN operand yields the other one. *)
Definition fmax (x y : float) : float :=
  if is_nan x then y else if is_nan y then x else if flt x y then y else x.
Definition fmin (x y : float) : float :=
  if is_nan x then y else if is_nan y then x else if flt y x then y else x.

Definition fzero : float := S754_zero false.

Section Format.
Context (prec emax : Z).
Definition fadd : float -> float -> float := SFadd prec emax.
Definition fsub : float -> float -> float := SFsub prec emax.
Definition fmul : float -> float -> float := SFmul prec emax.
Definition fdiv : float -> float -> float := SFdiv prec emax.
(** [n as f64]: an integer rounded to nearest. *)
Definition of_int (z : Z) : float := binary_normalize prec emax z 0 false.
(** The float nearest to [m * 10 ^ k]: what a decimal literal denotes. *)
Definition of_decimal (neg : bool) (m : N) (k : Z) : float :=
  let x :=
    match m with
    | N0 => S754_zero false
    | Npos p =>
        if 0 <=? k then binary_normalize prec emax (Zpos p * 10 ^ k) 0 false
        else match 10 ^ (- k) with
             | Zpos q => SFdiv prec emax (S754_finite false p 0) (S754_finite false q 0)
             | _ => S754_nan
             end
    end in
  if neg then SFopp x else x.
(** [x as f32] from a wider format: round to nearest. *)
Definition round_to (x : float) : float :=
  match x with
  | S754_finite s m e => binary_normalize prec emax (cond_Zopp s (Zpos m)) e s
  | _ => x
  end.
End Format.

Module F64.
Definition add := fadd 53 1024.
Definition sub := fsub 53 1024.
Definition mul := fmul 53 1024.
Definition div := fdiv 53 1024.
Definition of_int := of_int 53 1024.
Definition lit := of_decimal 53 1024 false.
Definition lit_neg := of_decimal 53 1024 true.
End F64.

Module F32.
Definition add := fadd 24 128.
Definition mul := fmul 24 128.
Definition div := fdiv 24 128.
Definition of_int := of_int 24 128.
Definition lit := of_decimal 24 128 false.
Definition of_f64 := round_to 24 128.
End F32.

(** [as u64]: toward zero, saturating. *)
Definition as_u64 (x : float) : Z :=
  match x with
  | S754_zero _ | S754_nan => 0
  | S754_infinity neg => if neg then 0 else u64_max
  | S754_finite neg m e =>
      if neg then 0 else Z.min u64_max (if 0 <=? e then Zpos m * 2 ^ e else Zpos m / 2 ^ (- e))
  end.

(** [f64::abs]. *)
Definition fabs (x : float) : float := SFabs x.

(** ** [str::parse::<f64>] *)

Fixpoint take_digits (acc : N) (n : nat) (s : string) : N * nat * string :=
  match s with
  | EmptyString => (acc, n, s)
  | String a s' =>
      match digit a with
      | Some d => take_digits (acc * 10 + Z.to_N d) (S n) s'
      | None => (acc, n, s)
      end
  end.

(** The grammar of the Standard Library: an optional sign, then [inf],
    [infinity] or [nan] in any case, or digits with an optional fraction and
    an optional decimal exponent, with at least one digit in the mantissa. *)
Definition parse_exponent (s : string) : option Z :=
  match s with
  | EmptyString => Some 0
  | String e r =>
      if Ascii.eqb (ascii_lower e) (byte 101) then
        let '(neg, r) :=
          match r with
          | String c r' =>
              if Ascii.eqb c (byte 45) then (true, r')
              else if Ascii.eqb c (byte 43) then (false, r') else (false, r)
          | EmptyString => (false, r)
          end in
        let '(v, n, rest) := take_digits 0 0 r in
        if (n =? 0)%nat || negb (rest =s EmptyString) then None
        else Some (if neg then - Z.of_N v else Z.of_N v)
      else None
  end.

Definition parse_decimal (neg : bool) (s : string) : option float :=
  let '(i, ni, rest) := take_digits 0 0 s in
  let '(m, nf, rest) :=
    match rest with
    | String c r => if Ascii.eqb c (byte 46) then take_digits i 0 r else (i, 0%nat, rest)
    | EmptyString => (i, 0%nat, rest)
    end in
  if (ni + nf =? 0)%nat then None
  else e ← parse_exponent rest;
       Some (of_decimal 53 1024 neg m (e - Z.of_nat nf)).

Definition parse_f64 (s : string) : option float :=
  let '(neg, r) :=
    match s with
    | String c r =>
        if Ascii.eqb c (byte 45) then (true, r)
        else if Ascii.eqb c (byte 43) then (false, r) else (false, s)
    | EmptyString => (false, s)
    end in
  let low := to_ascii_lowercase r in
  if (low =s "inf") || (low =s "infinity") then Some (S754_infinity neg)
  else if low =s "nan" then Some S754_nan
  else parse_decimal neg r.

(** ** The order *)

(** A lexicographic key that [SFcompare] agrees with on every comparable
    value. *)
Definition fkey (x : float) : Z * Z * Z :=
  match x with
  | S754_infinity true => (-2, 0, 0)
  | S754_finite true m e => (-1, - e, Zneg m)
  | S754_zero _ => (0, 0, 0)
  | S754_finite false m e => (1, e, Zpos m)
  | S754_infinity false => (2, 0, 0)
  | S754_nan => (3, 0, 0)
  end.

Definition key_cmp (a b : Z * Z * Z) : comparison :=
  let '(a1, a2, a3) := a in
  let '(b1, b2, b3) := b in
  cmp_then (a1 ?= b1) (cmp_then (a2 ?= b2) (a3 ?= b3)).

Lemma partial_cmp_key x y :
  is_nan x = false -> is_nan y = false -> partial_cmp x y = Some (key_cmp (fkey x) (fkey y)).
Proof.
  intros Hx Hy. unfold partial_cmp.
  destruct x as [sx|[]| |[] mx ex], y as [sy|[]| |[] my ey]; try done; simpl.
  - destruct (Z.compare_spec (- ex) (- ey)), (Z.compare_spec ex ey); try lia; done.
  - by destruct (ex ?= ey).
Qed.

Lemma cmp_then_Eq c d : cmp_then c d = Eq <-> c = Eq /\ d = Eq.
Proof. destruct c; simpl; intuition congruence. Qed.

Lemma key_cmp_antisym a b : key_cmp b a = CompOpp (key_cmp a b).
Proof.
  destruct a as [[a1 a2] a3], b as [[b1 b2] b3]. simpl.
  rewrite (Z.compare_antisym a1 b1), (Z.compare_antisym a2 b2), (Z.compare_antisym a3 b3).
  by destruct (a1 ?= b1), (a2 ?= b2).
Qed.

Lemma key_cmp_trans a b c :
  key_cmp a b <> Gt -> key_cmp b c <> Gt -> key_cmp a c <> Gt.
Proof.
  destruct a as [[a1 a2] a3], b as [[b1 b2] b3], c as [[c1 c2] c3]. simpl.
  destruct (Z.compare_spec a1 b1), (Z.compare_spec b1 c1), (Z.compare_spec a1 c1);
    simpl; try lia; try done;
  destruct (Z.compare_spec a2 b2), (Z.compare_spec b2 c2), (Z.compare_spec a2 c2);
    simpl; try lia; try done;
  destruct (Z.compare_spec a3 b3), (Z.compare_spec b3 c3), (Z.compare_spec a3 c3);
    simpl; try lia; try done.
Qed.

Lemma key_cmp_refl a : key_cmp a a = Eq.
Proof. destruct a as [[a1 a2] a3]. simpl. by rewrite !Z.compare_refl. Qed.

Lemma fle_key x y :
  is_nan x = false -> is_nan y = false ->
  fle x y = true <-> key_cmp (fkey x) (fkey y) <> Gt.
Proof.
  intros Hx Hy. unfold fle, SFleb.
  pose proof (partial_cmp_key x y Hx Hy) as H. unfold partial_cmp in H. rewrite H.
  by destruct (key_cmp _ _).
Qed.

Lemma flt_key x y :
  is_nan x = false -> is_nan y = false ->
  flt x y = true <-> key_cmp (fkey x) (fkey y) = Lt.
Proof.
  intros Hx Hy. unfold flt, SFltb.
  pose proof (partial_cmp_key x y Hx Hy) as H. unfold partial_cmp in H. rewrite H.
  by destruct (key_cmp _ _).
Qed.

Lemma fle_nan x y : fle x y = true -> is_nan x = false /\ is_nan y = false.
Proof. by destruct x as [|[]| |[]], y as [|[]| |[]]. Qed.

Lemma fle_refl x : is_nan x = false -> fle x x = true.
Proof. intros H. apply fle_key; [done..|]. by rewrite key_cmp_refl. Qed.

Lemma fle_trans x y z : fle x y = true -> fle y z = true -> fle x z = true.
Proof.
  intros Hxy Hyz. destruct (fle_nan _ _ Hxy), (fle_nan _ _ Hyz).
  rewrite fle_key in *; try done. by eapply key_cmp_trans.
Qed.

Lemma flt_le x y : is_nan x = false -> is_nan y = false ->
  flt x y = false -> fle y x = true.
Proof.
  intros Hx Hy H. apply fle_key; try done. rewrite key_cmp_antisym.
  destruct (key_cmp (fkey x) (fkey y)) eqn:E; try done.
  apply (flt_key x y Hx Hy) in E. congruence.
Qed.

Lemma flt_fle x y : flt x y = true -> fle x y = true.
Proof. unfold flt, fle, SFltb, SFleb. by destruct (SFcompare x y) as [[]|]. Qed.

Lemma fmin_le_l x y : is_nan x = false -> fle (fmin x y) x = true.
Proof.
  intros Hx. unfold fmin. rewrite Hx. destruct (is_nan y) eqn:Hy; [by apply fle_refl|].
  destruct (flt y x) eqn:H; [by apply flt_fle|by apply fle_refl].
Qed.

Lemma fmin_le_r x y : is_nan y = false -> fle (fmin x y) y = true.
Proof.
  intros Hy. unfold fmin. rewrite Hy. destruct (is_nan x) eqn:Hx; [by apply fle_refl|].
  destruct (flt y x) eqn:H; [by apply fle_refl|by apply flt_le].
Qed.

Lemma fmax_ge_l x y : is_nan x = false -> fle x (fmax x y) = true.
Proof.
  intros Hx. unfold fmax. rewrite Hx. destruct (is_nan y) eqn:Hy; [by apply fle_refl|].
  destruct (flt x y) eqn:H; [by apply flt_fle|by apply fle_refl].
Qed.

Lemma fmin_nan x y : is_nan (fmin x y) = is_nan x && is_nan y.
Proof.
  unfold fmin. destruct (is_nan x) eqn:Hx, (is_nan y) eqn:Hy; simpl; try done.
  by destruct (flt y x).
Qed.

(** ** Where NaN cannot come from

    Rounding never makes a NaN, so a product or quotient of comparable values
    is comparable when neither operand is zero or infinite. *)

Lemma digits_lower m : 2 ^ (Zpos (digits2_pos m) - 1) <= Zpos m.
Proof.
  induction m as [m IH|m IH|]; simpl digits2_pos; [| |done];
    rewrite Pos2Z.inj_succ; replace (Z.succ _ - 1) with (Z.succ (Zpos (digits2_pos m) - 1)) by lia;
    rewrite Z.pow_succ_r; lia.
Qed.

Lemma digits_upper m : Zpos m < 2 ^ Zpos (digits2_pos m).
Proof.
  induction m as [m IH|m IH|]; simpl digits2_pos; [| |done];
    rewrite Pos2Z.inj_succ, Z.pow_succ_r; lia.
Qed.

(** A number below [2 ^ k] has at most [k] digits. *)
Lemma digits_le m k : 0 <= k -> Zpos m < 2 ^ k -> Zpos (digits2_pos m) <= k.
Proof.
  intros Hk H. pose proof (digits_lower m).
  assert (Zpos (digits2_pos m) - 1 < k); [|lia].
  apply (Z.pow_lt_mono_r_iff 2); lia.
Qed.

Lemma shr_1_m r : 0 <= shr_m r -> shr_m (shr_1 r) = shr_m r / 2.
Proof.
  destruct r as [[|[p|p|]|p] r s]; cbn [shr_m shr_1]; try lia; try done; intros _;
    Z.div_mod_to_equations; lia.
Qed.

Lemma div_pow2_pow2 m a b : 0 <= a -> 0 <= b -> m / 2 ^ a / 2 ^ b = m / 2 ^ (a + b).
Proof.
  intros Ha Hb. rewrite Z.pow_add_r by done. apply Z.div_div.
  - apply Z.pow_nonzero; lia.
  - apply Z.pow_pos_nonneg; lia.
Qed.

Lemma iter_shr_m p r : 0 <= shr_m r -> shr_m (@SpecFloat.iter_pos _ shr_1 p r) = shr_m r / 2 ^ Zpos p.
Proof.
  assert (Hnn : forall m k, 0 <= m -> 0 <= k -> 0 <= m / 2 ^ k).
  { intros m k Hm Hk. apply Z.div_pos; [done|]. apply Z.pow_pos_nonneg; lia. }
  revert r. induction p as [p IH|p IH|]; intros r Hr; cbn [SpecFloat.iter_pos].
  - assert (H1 : shr_m (shr_1 r) = shr_m r / 2 ^ 1) by (by apply shr_1_m).
    assert (H2 : 0 <= shr_m (shr_1 r)) by (rewrite H1; apply Hnn; lia).
    rewrite IH, IH, H1 by (rewrite ?IH by done; auto with lia).
    rewrite !div_pow2_pow2 by lia. f_equal. f_equal. lia.
  - rewrite IH, IH by (rewrite ?IH by done; auto with lia).
    rewrite div_pow2_pow2 by lia. f_equal. f_equal. lia.
  - by apply shr_1_m.
Qed.

Lemma shr_record_m m l : shr_m (shr_record_of_loc m l) = m.
Proof. by destruct l as [|[]]. Qed.

Lemma shr_fexp_m prec emax m e l mrs e' :
  0 <= m -> shr_fexp prec emax m e l = (mrs, e') ->
  let n := Z.max 0 (fexp prec emax (Zdigits2 m + e) - e) in
  shr_m mrs = m / 2 ^ n /\ e' = e + n.
Proof.
  intros Hm. unfold shr_fexp, shr. destruct (fexp prec emax (Zdigits2 m + e) - e) as [|p|p];
    intros [= <- <-]; simpl Z.max; rewrite ?iter_shr_m, ?shr_record_m by (by rewrite shr_record_m);
    split; try done; rewrite ?Z.div_1_r; lia.
Qed.

Lemma round_nearest_even_m m l : 0 <= m -> m <= round_nearest_even m l <= m + 1.
Proof. intros Hm. destruct l as [|[]]; simpl; try lia. destruct (Z.even m); lia. Qed.

Lemma shr_fexp_nonneg prec emax m e l mrs e' :
  0 <= m -> shr_fexp prec emax m e l = (mrs, e') -> 0 <= shr_m mrs.
Proof.
  intros Hm H. apply shr_fexp_m in H as [-> _]; [|done].
  apply Z.div_pos; [done|]. apply Z.pow_pos_nonneg; lia.
Qed.

Lemma round_aux_not_nan prec emax s m e l :
  0 <= m -> is_nan (binary_round_aux prec emax s m e l) = false.
Proof.
  intros Hm. unfold binary_round_aux.
  destruct (shr_fexp _ _ m e l) as [r1 e1] eqn:H1. apply shr_fexp_nonneg in H1; [|done].
  destruct (shr_fexp _ _ (round_nearest_even _ _) e1 _) as [r2 e2] eqn:H2.
  pose proof (round_nearest_even_m (shr_m r1) (loc_of_shr_record r1) H1).
  apply shr_fexp_nonneg in H2; [|lia].
  destruct (shr_m r2); [done| |lia]. by destruct (_ <=? _).
Qed.

Lemma binary_round_not_nan prec emax s m e : is_nan (binary_round prec emax s m e) = false.
Proof. unfold binary_round. destruct (shl_align _ _ _). by apply round_aux_not_nan. Qed.

Lemma binary_normalize_not_nan prec emax m e s :
  is_nan (binary_normalize prec emax m e s) = false.
Proof. destruct m; simpl; [done|apply binary_round_not_nan..]. Qed.

Lemma round_to_not_nan prec emax x : is_nan x = false -> is_nan (round_to prec emax x) = false.
Proof. destruct x; try done. intros _. apply binary_normalize_not_nan. Qed.

(** A non-zero finite value. *)
Definition is_normal (x : float) : bool :=
  match x with S754_finite _ _ _ => true | _ => false end.

Lemma mul_not_nan prec emax x y :
  is_nan x = false -> is_normal y = true -> is_nan (fmul prec emax x y) = false.
Proof. destruct x, y; try done. intros _ _. by apply round_aux_not_nan. Qed.

Lemma div_not_nan prec emax x y :
  is_nan x = false -> is_normal y = true -> is_nan (fdiv prec emax x y) = false.
Proof.
  destruct x as [| | |sx mx ex], y as [| | |sy my ey]; try done. intros _ _.
  unfold fdiv, SFdiv. destruct (SFdiv_core_binary _ _ _ _ _ _) as [[q e] l] eqn:E.
  apply round_aux_not_nan. unfold SFdiv_core_binary in E.
  destruct (Z.div_eucl _ _) as [q' r] eqn:D. injection E as <- _ _.
  match type of D with Z.div_eucl ?a _ = _ => set (m := a) in D end.
  replace q' with (m / Zpos my) by (unfold Z.div; by rewrite D).
  apply Z.div_pos; [|done]. subst m. destruct (_ - _); try done. by apply Z.shiftl_nonneg.
Qed.

Lemma iter_xO m p : Zpos (Pos.iter xO m p) = Zpos m * 2 ^ Zpos p.
Proof.
  induction p as [|p IH] using Pos.peano_ind; [simpl; lia|].
  rewrite Pos.iter_succ, Pos2Z.inj_xO, IH, Pos2Z.inj_succ, Z.pow_succ_r by lia. lia.
Qed.

(** One rounding shift of a positive [f32] significand keeps it positive. *)
Lemma shr_fexp_f32 m e l mrs e' k :
  0 < m < 2 ^ k -> 24 <= k -> -149 <= e -> shr_fexp 24 128 m e l = (mrs, e') ->
  0 < shr_m mrs <= m /\ e <= e' <= e + (k - 24).
Proof.
  intros [Hm Hk] H24 He H. apply shr_fexp_m in H as [-> ->]; [|lia].
  destruct m as [|m|m]; try lia. cbn [Zdigits2].
  pose proof (digits_le m k ltac:(lia) Hk). pose proof (digits_lower m) as Hlow.
  unfold fexp, emin. set (n := Z.max 0 _).
  assert (Hn : 0 <= n <= Z.max 0 (Zpos (digits2_pos m) - 24)) by lia.
  assert (0 < 2 ^ n) by (apply Z.pow_pos_nonneg; lia).
  split; [|lia]. split; [|apply Z.div_le_upper_bound; nia].
  apply Z.div_str_pos. split; [done|]. etrans; [|exact Hlow]. apply Z.pow_le_mono_r; lia.
Qed.

(** A [u32] other than zero is a normal [f32]. *)
Lemma f32_of_u32_normal z : 0 < z -> in_range 32 z -> is_normal (F32.of_int z) = true.
Proof.
  unfold in_range. intros H0 [_ Hz]. destruct z as [|m|m]; try lia. unfold F32.of_int, of_int.
  cbn [binary_normalize]. unfold binary_round.
  pose proof (digits_le m 32 ltac:(lia) Hz) as HD. rewrite Z.add_0_r.
  assert (exists mz ez, shl_align m 0 (fexp 24 128 (Zpos (digits2_pos m))) = (mz, ez)
          /\ -149 <= ez <= 0 /\ Zpos mz < 2 ^ 32) as (mz & ez & -> & He & Hmz).
  { unfold shl_align, fexp, emin. destruct (Z.max _ _ - 0) as [|p|p] eqn:E;
      [exists m, 0; split; [done|lia]..|].
    eexists _, _. split; [done|]. split; [lia|]. rewrite iter_xO.
    pose proof (digits_upper m). apply Z.lt_le_trans with (2 ^ (Zpos (digits2_pos m) + Zpos p)).
    - rewrite Z.pow_add_r by lia. apply Z.mul_lt_mono_pos_r; [|done]. by apply Z.pow_pos_nonneg.
    - apply Z.pow_le_mono_r; lia. }
  unfold binary_round_aux.
  destruct (shr_fexp _ _ (Zpos mz) ez _) as [r1 e1] eqn:H1.
  apply (shr_fexp_f32 _ _ _ _ _ 32) in H1 as [Hr1 He1]; [|lia..].
  destruct (shr_fexp _ _ (round_nearest_even _ _) e1 _) as [r2 e2] eqn:H2.
  pose proof (round_nearest_even_m (shr_m r1) (loc_of_shr_record r1) ltac:(lia)).
  apply (shr_fexp_f32 _ _ _ _ _ 33) in H2 as [Hr2 He2]; [|lia..].
  destruct (shr_m r2); [lia| |lia]. by rewrite (proj2 (Z.leb_le e2 (128 - 24))) by lia.
Qed.

#[export] Hint Resolve fle_refl fle_trans fmin_le_l fmin_le_r fmax_ge_l : kw.
