(* ===== verification/Media.v ===== *)
(** * The technical stream model (kahawai-core, src/media.rs)

    What a mediahost reports about a file and what a client says it can play.
    One record per struct of the source, one inductive per enum, fields in the
    source's order; strings are UTF-8 byte strings, [u32]/[u64] are [Z]. *)
From S2P Require Import Prelude Floats.
#[local] Open Scope Z_scope.

(** ** Facts about a file *)

(** [end_ms] is only what the container states. *)
Record Chapter := mkChapter {
  start_ms : Z;
  end_ms : option Z;
  title : option string;
}.

Record Attachment := mkAttachment {
  file_name : string;
  mime_type : string;
  att_offset : Z;
  att_size : Z;
}.

Record ReplayGain := mkReplayGain {
  track_gain_db : option float;
  track_peak : option float;
  album_gain_db : option float;
  album_peak : option float;
  reference_level_db : option float;
}.

(** [ReplayGain::some]: [None] when the file carried no usable number; a
    reference level alone does not count. *)
Definition replay_gain_some (g : ReplayGain) : option ReplayGain :=
  let empty := is_none (track_gain_db g) && is_none (track_peak g)
               && is_none (album_gain_db g) && is_none (album_peak g) in
  then_some (negb empty) g.

Record LocalSeasonArtwork := mkLocalSeasonArtwork {
  season : Z;
  art_path : string;
}.

Record VideoStream := mkVideoStream {
  v_codec : string;
  v_width : Z;
  v_height : Z;
  v_fps : option (Z * Z);
  v_bit_depth : option Z;
  v_interlaced : bool;
  v_hdr : option string;
  v_profile : option string;
  v_level : option string;
  v_bitrate_kbps : option Z;
  v_max_keyframe_interval_ms : option Z;
  v_pixel_aspect_ratio : option (Z * Z);
  v_orientation : option string;
  v_display_width : option Z;
  v_display_height : option Z;
}.

Record AudioStream := mkAudioStream {
  a_codec : string;
  a_channels : Z;
  a_sample_rate : Z;
  a_language : option string;
  a_bitrate_kbps : option Z;
  a_layout : option string;
}.

(** What a subtitle track is for. *)
Record SubtitleVariant := mkSubtitleVariant {
  forced : bool;
  hearing_impaired : bool;
  commentary : bool;
}.
#[global] Instance SubtitleVariant_eq_dec : EqDecision SubtitleVariant.
Proof. solve_decision. Defined.

Definition variant_default : SubtitleVariant := mkSubtitleVariant false false false.

(** One word of [SubtitleVariant::from_words]. *)
Definition variant_add_word (v : SubtitleVariant) (word : string) : SubtitleVariant :=
  let w := to_ascii_lowercase word in
  if str_mem w ["forced"; "foreign"; "signs"]
  then mkSubtitleVariant true (hearing_impaired v) (commentary v)
  else if str_mem w ["sdh"; "cc"; "hi"; "hoh"]
  then mkSubtitleVariant (forced v) true (commentary v)
  else if str_mem w ["commentary"; "commentaries"]
  then mkSubtitleVariant (forced v) (hearing_impaired v) true
  else v.

Definition from_words (words : list string) : SubtitleVariant :=
  fold_left variant_add_word words variant_default.

Definition is_variant_word (word : string) : bool :=
  negb (word =s "hi") && negb (from_words [word] ≟ variant_default).

Definition variant_union (a b : SubtitleVariant) : SubtitleVariant :=
  mkSubtitleVariant (forced a || forced b)
                    (hearing_impaired a || hearing_impaired b)
                    (commentary a || commentary b).

Record SubtitleStream := mkSubtitleStream {
  s_format : string;
  s_language : option string;
  s_title : option string;
  s_variant : SubtitleVariant;
}.

Record SidecarSubtitle := mkSidecarSubtitle {
  x_path_rel : string;
  x_format : string;
  x_language : option string;
  x_track : option Z;
  x_variant : SubtitleVariant;
}.

Record MediaInfo := mkMediaInfo {
  container : option string;
  duration_ms : option Z;
  video : list VideoStream;
  audio : list AudioStream;
  subtitles : list SubtitleStream;
  external_subtitles : list SidecarSubtitle;
  replay_gain : option ReplayGain;
  artwork : option string;
  artwork_images : gmap string string;
  season_artwork : option (list LocalSeasonArtwork);
  nfo : option string;
  sidecar_revision : option string;
  tags : gmap string string;
  attachments : option (list Attachment);
  chapters : option (list Chapter);
  video_geometry_probed : bool;
  video_geometry_error : option string;
}.

(** ** What a client asks for *)

(** What a client needs from [EXT-X-TARGETDURATION]. *)
Inductive TargetDuration :=
| Ignore
| Accurate
| Short (max_secs : Z).
#[global] Instance TargetDuration_eq_dec : EqDecision TargetDuration.
Proof. solve_decision. Defined.

Definition ceiling_secs (t : TargetDuration) : option Z :=
  match t with
  | Short max_secs => Some (Z.max max_secs 1)
  | _ => None
  end.

Record VideoCap := mkVideoCap {
  max_bit_depth : option Z;
  c_codec : string;
  max_profile : option string;
  max_level : option string;
}.

Record CapabilityProfile := mkCapabilityProfile {
  containers : list string;
  p_video : list VideoCap;
  p_audio : list string;
  max_audio_channels : Z;
  max_height : option Z;
  max_fps : option Z;
  hdr : bool;
  max_bandwidth_kbps : option Z;
  ass_render : bool;
  graphics_overlay : bool;
  vtt_render : bool;
  target_duration : TargetDuration;
}.

(** [CapabilityProfile::default]: the profile of a request that sends none. *)
Definition profile_default : CapabilityProfile := {|
  containers := ["mp4"; "webm"];
  p_video := [mkVideoCap None "h264" None None];
  p_audio := ["aac"; "mp3"];
  max_audio_channels := 0;
  max_height := None;
  max_fps := None;
  hdr := false;
  max_bandwidth_kbps := None;
  ass_render := false;
  graphics_overlay := false;
  vtt_render := true;
  target_duration := Ignore;
|}.

(** ** Validation of deserialised fields *)

(** [deserialize_depth_limit], on the decoded [Option<u32>]. *)
Definition deserialize_depth_limit (depth : option Z) : result string (option Z) :=
  match depth with
  | None => Ok None
  | Some d =>
      if (d =? 8) || (d =? 10) || (d =? 12) || (d =? 16) then Ok (Some d)
      else Err "max_bit_depth must be 8, 10, 12 or 16 bits per component"
  end.

(** [deserialize_nonnegative_u32], on the decoded [Option<i64>]. *)
Definition deserialize_nonnegative_u32 (value : option Z) : result string (option Z) :=
  match value with
  | Some v =>
      if 0 <=? v then
        if v <=? u32_max then Ok (Some v) else Err "integer exceeds u32"
      else Ok None
  | None => Ok None
  end.

(** ** Selected streams *)

(** [i.min(len.saturating_sub(1))]: a stale index clamps to the last track. *)
Definition clamp_index {A} (i : nat) (l : list A) : nat := Nat.min i (pred (length l)).

Lemma clamp_index_lookup {A} (i : nat) (l : list A) :
  l <> [] -> is_Some (l !! clamp_index i l).
Proof.
  intros Hl. apply lookup_lt_is_Some. unfold clamp_index.
  destruct l; [done|]. simpl. lia.
Qed.

Lemma clamp_index_None {A} (i : nat) (l : list A) : l !! clamp_index i l = None <-> l = [].
Proof.
  split; [|by intros ->]. intros H. destruct l as [|a l]; [done|].
  by apply eq_None_not_Some in H; destruct H; apply clamp_index_lookup.
Qed.

(** ** Properties of the variant reading *)

Lemma variant_add_word_union v w :
  variant_add_word v w = variant_union v (variant_add_word variant_default w).
Proof.
  unfold variant_add_word, variant_union.
  destruct (str_mem _ ["forced"; _; _]); [by destruct v; simpl; rewrite ?orb_true_r, ?orb_false_r|].
  destruct (str_mem _ ["sdh"; _; _; _]); [by destruct v; simpl; rewrite ?orb_true_r, ?orb_false_r|].
  destruct (str_mem _ ["commentary"; _]); by destruct v; simpl; rewrite ?orb_true_r, ?orb_false_r.
Qed.

Lemma variant_union_assoc a b c :
  variant_union a (variant_union b c) = variant_union (variant_union a b) c.
Proof. unfold variant_union; simpl. by rewrite !orb_assoc. Qed.

Lemma variant_union_default_l v : variant_union variant_default v = v.
Proof. by destruct v. Qed.

Lemma fold_variant_union words v :
  fold_left variant_add_word words v = variant_union v (from_words words).
Proof.
  unfold from_words. revert v. induction words as [|w ws IH]; intros v; simpl.
  - by destruct v as [[] [] []].
  - rewrite IH, (IH (variant_add_word variant_default w)), variant_union_assoc.
    by rewrite <- variant_add_word_union.
Qed.

(** Reading two runs of words is the union of reading each. *)
Lemma from_words_app ws ws' :
  from_words (ws ++ ws') = variant_union (from_words ws) (from_words ws').
Proof. unfold from_words at 1. by rewrite fold_left_app, fold_variant_union. Qed.
