(* ===== verification/Loudness.v ===== *)
(** * Audio layouts and loudness gains (kahawai-media, src/loudness.rs)

    Channel layouts, the set of layouts a source is measured on, the static
    gain of a measurement, and the gain slots a plan carries. The metering
    pipeline itself (GStreamer, ebur128) is not modelled. *)
From S2P Require Import Prelude Floats.
#[local] Open Scope Z_scope.

Record AudioLayout := mkAudioLayout { channels : Z; channel_mask : Z }.
#[global] Instance AudioLayout_eq_dec : EqDecision AudioLayout.
Proof. solve_decision. Defined.

(** [AudioLayout::new]: an unpositioned mono or stereo gets its only mask. *)
Definition layout_new (ch mask : Z) : AudioLayout :=
  mkAudioLayout ch
    (if (ch =? 1) && (mask =? 0) then 0x4
     else if (ch =? 2) && (mask =? 0) then 0x3
     else mask).

(** [u64::from_str_radix(s, 16)]. *)
Definition hex_digit (a : Ascii.ascii) : option Z :=
  let n := Z.of_N (Ascii.N_of_ascii a) in
  if (48 <=? n) && (n <=? 57) then Some (n - 48)
  else if (65 <=? n) && (n <=? 70) then Some (n - 55)
  else if (97 <=? n) && (n <=? 102) then Some (n - 87)
  else None.
Fixpoint parse_hex_digits (acc : Z) (s : string) : option Z :=
  match s with
  | EmptyString => Some acc
  | String a s =>
      d ← hex_digit a;
      if u64_max <? acc * 16 + d then None else parse_hex_digits (acc * 16 + d) s
  end.
Definition parse_hex (s : string) : option Z :=
  match s with
  | EmptyString => None
  | String a r =>
      if Ascii.eqb a (byte 43)
      then (if r =s EmptyString then None else parse_hex_digits 0 r)
      else parse_hex_digits 0 s
  end.

(** [AudioLayout::from_stream]: an unreadable mask is an absent one. *)
Definition layout_from_stream (ch : Z) (mask : option string) : AudioLayout :=
  layout_new ch (unwrap_or ((mask ≫= strip_prefix "0x") ≫= parse_hex) 0).

Record AudioLoudness := mkAudioLoudness { integrated_lufs : float; true_peak_dbtp : float }.
Record AudioLayoutLoudness := mkAudioLayoutLoudness {
  ll_layout : AudioLayout;
  ll_loudness : AudioLoudness;
}.
Record AudioLayoutGain := mkAudioLayoutGain { g_layout : AudioLayout; g_gain_db : float }.

Record AudioLoudnessMeasurement := mkMeasurement {
  m_source : AudioLayout;
  m_layouts : list AudioLayoutLoudness;
}.

(** [AudioLoudnessMeasurement::get]. *)
Definition measurement_get (m : AudioLoudnessMeasurement) (l : AudioLayout) : option AudioLoudness :=
  ll_loudness <$> List.find (fun x => ll_layout x ≟ l) (m_layouts m).

Definition STANDARD_LAYOUTS : list AudioLayout :=
  [mkAudioLayout 8 0xc3f; mkAudioLayout 8 0xff; mkAudioLayout 6 0x3f;
   mkAudioLayout 2 0x3; mkAudioLayout 1 0x4].

Definition MAX_LAYOUT_GAINS : nat := S (length STANDARD_LAYOUTS).

Definition is_side_to_rear_5_1 (source target : AudioLayout) : bool :=
  (source ≟ layout_new 6 0xc0f) && (target ≟ layout_new 6 0x3f).

Definition measured_layouts (source : AudioLayout) : list AudioLayout :=
  source :: List.filter (fun l =>
    (channels l <? channels source)
    || ((channel_mask source =? 0) && (channels l =? channels source))
    || is_side_to_rear_5_1 source l) STANDARD_LAYOUTS.

(** The sort key [(Reverse(channels), channel_mask)]. *)
Definition layout_cmp (a b : AudioLayout) : comparison :=
  cmp_then (channels b ?= channels a) (channel_mask a ?= channel_mask b).

(** [Vec::dedup]: drop an element equal to the one kept before it. *)
Fixpoint dedup (l : list AudioLayout) : list AudioLayout :=
  match l with
  | [] => []
  | a :: l =>
      match dedup l with
      | b :: r => if a ≟ b then b :: r else a :: b :: r
      | [] => [a]
      end
  end.

Definition resolved_measured_layouts (declared decoded : AudioLayout) : list AudioLayout :=
  let layouts := if channel_mask decoded =? 0 then [] else [decoded] in
  dedup (sort_by layout_cmp (layouts ++ tail (measured_layouts declared))).

Definition TARGET_LUFS : float := F64.lit_neg 18 0.
Definition MAX_TRUE_PEAK_DBTP : float := F64.lit_neg 1 0.

(** Static programme gain: the loudness target unless peak headroom is less. *)
Definition gain_db (m : AudioLoudness) : float :=
  fmin (F64.sub TARGET_LUFS (integrated_lufs m))
       (F64.sub MAX_TRUE_PEAK_DBTP (true_peak_dbtp m)).

(** ** The gains a plan carries (remux/audio.rs, [AudioLoudnessGains]) *)

Record AudioLoudnessGains := mkGains {
  exact : list (option AudioLayoutGain);
  stereo_db : option float;
  native_db : option float;
  source_channels : option Z;
}.

(** [Iterator::flatten] over option slots. *)
Definition flatten {A} (l : list (option A)) : list A := omap id l.

(** Exact gains, when any is present, are the whole answer. *)
Definition for_layout (g : AudioLoudnessGains) (l : AudioLayout) : option float :=
  if existsb is_some (exact g) then
    opt_filter is_finite
      (g_gain_db <$> List.find (fun x => g_layout x ≟ l) (flatten (exact g)))
  else
    opt_filter is_finite
      (if channels l =? 2 then stereo_db g
       else if source_channels g ≟ Some (channels l) then native_db g
       else None).

(** ** Lemmas *)

Lemma dedup_elem l x : x ∈ dedup l <-> x ∈ l.
Proof.
  induction l as [|a l IH]; simpl; [done|].
  destruct (dedup l) as [|b r]; rewrite (elem_of_cons l), <- IH; clear IH.
  - rewrite list_elem_of_singleton, elem_of_nil. tauto.
  - case_bool_decide as Hab; rewrite !elem_of_cons; subst; tauto.
Qed.

Lemma resolved_layouts_elem declared decoded l :
  l ∈ resolved_measured_layouts declared decoded <->
  (channel_mask decoded <> 0 /\ l = decoded) \/ l ∈ tail (measured_layouts declared).
Proof.
  unfold resolved_measured_layouts. rewrite dedup_elem, sort_by_perm, elem_of_app.
  destruct (Z.eqb_spec (channel_mask decoded) 0) as [H|H].
  - rewrite elem_of_nil. tauto.
  - rewrite list_elem_of_singleton. tauto.
Qed.

Lemma measured_tail_standard source l :
  l ∈ tail (measured_layouts source) -> l ∈ STANDARD_LAYOUTS /\ channels l <= channels source.
Proof.
  unfold measured_layouts, tail. rewrite list_elem_of_In, filter_In, <- list_elem_of_In.
  intros [Hin Hc]. split; [done|].
  destruct (Z.ltb_spec (channels l) (channels source)); [lia|]. simpl in Hc.
  destruct (Z.eqb_spec (channels l) (channels source)); [lia|].
  rewrite andb_false_r in Hc. simpl in Hc. unfold is_side_to_rear_5_1 in Hc. bsplit.
  repeat match goal with H : bool_decide _ = true |- _ => apply bool_decide_eq_true in H end.
  subst. simpl. lia.
Qed.

(** No layout a plan may resolve to has more channels than the source. *)
Lemma resolved_channels_le source l :
  l ∈ resolved_measured_layouts source source -> channels l <= channels source.
Proof.
  rewrite resolved_layouts_elem. intros [[_ ->]|H]; [lia|].
  by apply measured_tail_standard in H as [_ H].
Qed.

Lemma layout_cmp_total a b : layout_cmp a b = Gt -> layout_cmp b a <> Gt.
Proof.
  unfold layout_cmp. destruct (Z.compare_spec (channels b) (channels a)),
    (Z.compare_spec (channels a) (channels b)); simpl; try lia; try done.
  destruct (Z.compare_spec (channel_mask a) (channel_mask b)),
    (Z.compare_spec (channel_mask b) (channel_mask a)); simpl; try lia; done.
Qed.

Lemma layout_cmp_trans a b c :
  cmp_le layout_cmp a b -> cmp_le layout_cmp b c -> cmp_le layout_cmp a c.
Proof.
  unfold cmp_le, layout_cmp.
  destruct (Z.compare_spec (channels b) (channels a)), (Z.compare_spec (channels c) (channels b)),
    (Z.compare_spec (channels c) (channels a)); simpl; try lia; try done.
  destruct (Z.compare_spec (channel_mask a) (channel_mask b)),
    (Z.compare_spec (channel_mask b) (channel_mask c)),
    (Z.compare_spec (channel_mask a) (channel_mask c)); simpl; try lia; done.
Qed.

Lemma gain_db_bounds m :
  is_nan (F64.sub TARGET_LUFS (integrated_lufs m)) = false ->
  is_nan (F64.sub MAX_TRUE_PEAK_DBTP (true_peak_dbtp m)) = false ->
  fle (gain_db m) (F64.sub TARGET_LUFS (integrated_lufs m)) = true /\
  fle (gain_db m) (F64.sub MAX_TRUE_PEAK_DBTP (true_peak_dbtp m)) = true.
Proof. intros H1 H2. split; [by apply fmin_le_l|by apply fmin_le_r]. Qed.
