(* ===== verification/Probe.v ===== *)
(** * What the media stack can do (kahawai-media, src/remux/probe.rs, audio.rs)

    The installed media stack is not part of the repository: [GStreamer] is the
    interface the code asks it through. On top of it the definitions here are
    the code's own: which encoder wins a preference list, what a segment
    container can carry, which layout an audio encode will produce. *)
From S2P Require Import Prelude Floats Media Loudness.
#[local] Open Scope Z_scope.

(** A caps structure, as far as the code reads it: its name and the set of
    [mpegversion] values ([None] when the field is absent). *)
Record Caps := mkCaps { caps_name : string; mpegversion : option (list Z) }.
#[global] Instance Caps_eq_dec : EqDecision Caps.
Proof. solve_decision. Defined.

(** The registry and the probe pipelines of the installed media stack. *)
Class GStreamer := {
  (** [ElementFactory::find]. *)
  element_exists : string -> bool;
  (** The merged static sink pad templates of an element. *)
  sink_pad_caps : string -> list Caps;
  (** Some [DECODER] factory of rank at least marginal sinks these caps. *)
  decoder_sinks : string -> bool;
  (** The dry-run pipeline of an audio (video) encoder reaches EOS. *)
  audio_dry_run : string -> bool;
  video_dry_run : string -> bool;
  (** The encode-mux-demux-decode probe: decoder, encoder, staged source
      layout, pinned channels and mask; did decoded buffers arrive? *)
  aac_roundtrip : string -> string -> Z * Z -> Z -> option Z -> bool;
  (** The same without a decoder, to EOS only. *)
  aac_encode_run : string -> Z * Z -> Z -> option Z -> bool;
}.

(** ** Encode targets and containers (remux/plan.rs) *)

Inductive VideoTarget := H264 | Hevc | Av1.
Inductive AudioTarget := Aac | Opus.
Inductive SegmentFormat := Ts | Fmp4.
#[global] Instance VideoTarget_eq_dec : EqDecision VideoTarget.
Proof. solve_decision. Defined.
#[global] Instance AudioTarget_eq_dec : EqDecision AudioTarget.
Proof. solve_decision. Defined.
#[global] Instance SegmentFormat_eq_dec : EqDecision SegmentFormat.
Proof. solve_decision. Defined.

Definition video_target_str (t : VideoTarget) : string :=
  match t with H264 => "h264" | Hevc => "hevc" | Av1 => "av1" end.
Definition video_target_of (s : string) : VideoTarget :=
  if s =s "hevc" then Hevc else if s =s "av1" then Av1 else H264.
Definition audio_target_str (t : AudioTarget) : string :=
  match t with Aac => "aac" | Opus => "opus" end.
Definition audio_target_of (s : string) : AudioTarget :=
  if s =s "opus" then Opus else Aac.
Definition segment_format_str (f : SegmentFormat) : string :=
  match f with Ts => "ts" | Fmp4 => "fmp4" end.
Definition segment_format_of (s : string) : SegmentFormat :=
  if s =s "fmp4" then Fmp4 else Ts.

(** ** Codec names *)

Definition slash : Ascii.ascii := byte 47.

(** [codec_to_caps_name]: raw caps names pass through. *)
Definition codec_to_caps_name (kind codec : string) : option string :=
  if str_mem_char slash codec then Some codec
  else if kind =s "video" then
    if codec =s "h264" then Some "video/x-h264"
    else if codec =s "hevc" then Some "video/x-h265"
    else if codec =s "av1" then Some "video/x-av1"
    else if codec =s "vp9" then Some "video/x-vp9"
    else if str_mem codec ["mpeg"; "mpeg1"; "mpeg2"; "mpeg4part2"] then Some "video/mpeg"
    else None
  else if kind =s "audio" then
    if str_mem codec ["aac"; "mp3"; "mpeg-audio"] then Some "audio/mpeg"
    else if codec =s "ac3" then Some "audio/x-ac3"
    else if codec =s "eac3" then Some "audio/x-eac3"
    else if codec =s "dts" then Some "audio/x-dts"
    else if codec =s "opus" then Some "audio/x-opus"
    else if codec =s "flac" then Some "audio/x-flac"
    else if codec =s "truehd" then Some "audio/x-true-hd"
    else if codec =s "vorbis" then Some "audio/x-vorbis"
    else None
  else None.

(** [codec_to_caps]: the version is a field only for the MPEG audio family. *)
Definition codec_to_caps (kind codec : string) : option Caps :=
  name ← codec_to_caps_name kind codec;
  Some (if (kind =s "audio") && str_mem codec ["mp3"; "mpeg-audio"] then mkCaps name (Some [1])
        else if (kind =s "audio") && (codec =s "aac") then mkCaps name (Some [2; 4])
        else mkCaps name None).

(** Intersection of two structures on the fields kept: equal names, and the
    version sets meet unless one side leaves the field open. *)
Definition caps_meet (a b : Caps) : bool :=
  (caps_name a =s caps_name b) &&
  match mpegversion a, mpegversion b with
  | Some x, Some y => existsb (fun v => existsb (Z.eqb v) y) x
  | _, _ => true
  end.

Definition kind_codecs (kind : string) (info : MediaInfo) : list string :=
  if kind =s "video" then map v_codec (video info) else map a_codec (audio info).

(** [source_caps_names]. *)
Definition source_caps_names (kind : string) (info : MediaInfo) : list string :=
  omap (codec_to_caps_name kind) (kind_codecs kind info).

Definition AAC_ENCODERS : list string := ["fdkaacenc"; "avenc_aac"; "voaacenc"].
Definition OPUS_ENCODERS : list string := ["opusenc"].
Definition H264_ENCODERS : list string :=
  ["vah264enc"; "vaapih264enc"; "nvh264enc"; "qsvh264enc"; "vtenc_h264_hw"; "vtenc_h264";
   "x264enc"; "openh264enc"].
Definition HEVC_ENCODERS : list string :=
  ["vah265enc"; "vaapih265enc"; "nvh265enc"; "qsvh265enc"; "vtenc_h265_hw"; "vtenc_h265";
   "x265enc"].
Definition AV1_ENCODERS : list string :=
  ["vaav1enc"; "nvav1enc"; "qsvav1enc"; "svtav1enc"; "rav1enc"; "av1enc"].
Definition SW_VIDEO_ENCODERS : list string :=
  ["x264enc"; "openh264enc"; "x265enc"; "svtav1enc"; "rav1enc"; "av1enc"].

Definition AAC_LAYOUTS : list (Z * Z) := [(8, 0xc3f); (8, 0xff); (6, 0x3f); (2, 0x3); (1, 0x4)].
Definition AAC_DECODERS : list string := ["avdec_aac"; "fdkaacdec"; "faad"].

Section Stack.
Context {gst : GStreamer}.

(** [sink_caps]: a missing factory offers nothing. *)
Definition sink_caps (element : string) : list Caps :=
  if element_exists element then sink_pad_caps element else [].

Definition muxable_caps (format : SegmentFormat) : list Caps :=
  match format with
  | Ts => List.filter (fun s => negb (str_mem (caps_name s) ["video/x-av1"; "video/x-vp9"]))
                      (sink_caps "mpegtsmux")
  | Fmp4 => sink_caps "isofmp4mux"
  end.

Definition muxable_names (format : SegmentFormat) : list string :=
  map caps_name (muxable_caps format).

(** [caps_muxable], on caps that carry no field besides [mpegversion]. *)
Definition caps_muxable (caps : Caps) (format : SegmentFormat) : bool :=
  existsb (caps_meet caps) (muxable_caps format).

Definition sink_compatible (caps : Caps) (format : SegmentFormat) : option string :=
  if negb (caps_muxable caps format) then None
  else if starts_with "video/" (caps_name caps) then Some "video"
  else if starts_with "audio/" (caps_name caps) then Some "audio"
  else None.

Definition can_decode (name : string) : bool := decoder_sinks name.

Definition verified_encoder (l : list string) (dry : string -> bool) : option string :=
  List.find (fun name => element_exists name && dry name) l.

Definition aac_encoder : option string := verified_encoder AAC_ENCODERS audio_dry_run.
Definition opus_encoder : option string := verified_encoder OPUS_ENCODERS audio_dry_run.
(** [verified_video_encoder(list, None)]. *)
Definition verified_video_encoder (l : list string) : option string :=
  List.find (fun name => element_exists name && video_dry_run name) l.
Definition h264_encoder : option string := verified_video_encoder H264_ENCODERS.
Definition hevc_encoder : option string := verified_video_encoder HEVC_ENCODERS.
Definition av1_encoder : option string := verified_video_encoder AV1_ENCODERS.

(** The registration report: codec, element, hardware. *)
Definition encoder_capabilities : list (string * string * bool) :=
  omap (fun '(codec, el) => (fun e => (codec, e, negb (str_mem e SW_VIDEO_ENCODERS))) <$> el)
       [("h264", h264_encoder); ("hevc", hevc_encoder); ("av1", av1_encoder)]
  ++ omap (fun '(codec, el) => (fun e => (codec, e, false)) <$> el)
       [("aac", aac_encoder); ("opus", opus_encoder)].

(** ** Audio layouts an encode produces *)

Definition aac_accepts (enc : string) (source : Z * Z) (ch : Z) (mask : option Z) : bool :=
  match List.find element_exists AAC_DECODERS with
  | Some dec => aac_roundtrip dec enc source ch mask
  | None => (ch <=? 6) && aac_encode_run enc source ch mask
  end.

Definition aac_bound (ch : Z) (ceiling : option Z) : Z :=
  map_or ch (fun c => Z.min c ch) (opt_filter (fun c => 0 <? c) ceiling).

(** The candidates of [aac_input_layout]: the source's own positions, then
    canonical layouts, then bare channel counts. *)
Definition aac_candidates (ch mask : Z) (ceiling : option Z) : list (Z * option Z) :=
  let bound := aac_bound ch ceiling in
  (if negb (mask =? 0) && (ch <=? bound) then [(ch, Some mask)] else [])
  ++ map (fun '(tc, tm) => (tc, Some tm))
       (List.filter (fun '(tc, tm) =>
          (tc <=? bound)
          && ((tc <? ch) || (mask =? 0) || (Z.land tm mask =? tm)
              || is_side_to_rear_5_1 (layout_new ch mask) (layout_new tc tm))) AAC_LAYOUTS)
  ++ map (fun c => (c, None))
       (List.filter (fun c => c <=? bound) (ch :: map fst AAC_LAYOUTS)).

Definition aac_input_layout (enc : string) (ch mask : Z) (ceiling : option Z) : option (Z * option Z) :=
  List.find (fun '(tc, tm) => aac_accepts enc (ch, mask) tc tm) (aac_candidates ch mask ceiling).

Definition opus_output_layout (source : AudioLayout) (ceiling : option Z) : AudioLayout :=
  let bound := Z.min (Z.min (Z.max (unwrap_or ceiling 8) 1) 8) (channels source) in
  let layouts := measured_layouts source in
  let positioned :=
    if channel_mask source =? 0 then
      List.find (fun l => (channels l =? channels source) && negb (channel_mask l =? 0)
                          && (channels l <=? bound)) layouts
    else None in
  match positioned with
  | Some l => l
  | None =>
      unwrap_or (List.find (fun l => (channels l <=? bound) && negb (channel_mask l =? 0)) layouts)
                (layout_new bound 0)
  end.
End Stack.

(** ** Lemmas *)

Create Rewrite HintDb codec.

Lemma video_target_roundtrip t : video_target_of (video_target_str t) = t.
Proof. by destruct t. Qed.
Lemma audio_target_roundtrip t : audio_target_of (audio_target_str t) = t.
Proof. by destruct t. Qed.
Lemma segment_format_roundtrip f : segment_format_of (segment_format_str f) = f.
Proof. by destruct f. Qed.
#[export] Hint Rewrite video_target_roundtrip audio_target_roundtrip segment_format_roundtrip : codec.

Lemma find_pred {A} (f : A -> bool) l a : List.find f l = Some a -> a ∈ l /\ f a = true.
Proof. rewrite list_elem_of_In. apply find_some. Qed.

Section StackFacts.
Context {gst : GStreamer}.

(** MPEG audio layer files and AAC share a caps name; only the version
    keeps the former out of a muxer that takes version 4 alone. *)
Lemma mp3_not_in_mpeg4_muxer format c :
  (forall s, s ∈ muxable_caps format -> caps_name s = "audio/mpeg" -> mpegversion s = Some [4]) ->
  codec_to_caps "audio" "mp3" = Some c -> caps_muxable c format = false.
Proof.
  intros Hm [= <-]. unfold caps_muxable. apply not_true_is_false. intros H.
  apply existsb_exists in H as (s & Hin%list_elem_of_In & H).
  unfold caps_meet in H. cbn [caps_name mpegversion] in H. bsplit.
  match goal with H : String.eqb _ _ = true |- _ => apply String.eqb_eq in H; rename H into Hn end.
  rewrite (Hm s Hin (eq_sym Hn)) in *. done.
Qed.

Lemma aac_input_layout_bound enc ch mask ceiling c m :
  aac_input_layout enc ch mask ceiling = Some (c, m) -> c <= aac_bound ch ceiling.
Proof.
  intros [Hin _]%find_pred. unfold aac_candidates in Hin.
  rewrite !elem_of_app in Hin. destruct Hin as [Hin|[Hin|Hin]].
  - destruct (negb (mask =? 0) && (ch <=? aac_bound ch ceiling)) eqn:E; simpl in Hin.
    + apply list_elem_of_singleton in Hin as [= -> _]. bsplit. zbool. done.
    + by apply elem_of_nil in Hin.
  - apply list_elem_of_In, in_map_iff in Hin as ([tc tm] & [= -> _] & Hin).
    apply filter_In in Hin as [_ Hin]. bsplit. zbool. done.
  - apply list_elem_of_In, in_map_iff in Hin as (tc & [= -> _] & Hin).
    apply filter_In in Hin as [_ Hin]. zbool. done.
Qed.
End StackFacts.
