(* ===== verification/Plan.v ===== *)
(** * Stream plans (kahawai-media, src/remux/plan.rs)

    The per-kind plan every supervisor, the worker command line and the wire
    speak, the codec-only planner, and the verdict text of a plan. *)
From S2P Require Import Prelude Floats Media Loudness Probe.
#[local] Open Scope Z_scope.

(** What happens to one stream kind. *)
Inductive StreamMode := Copy | Encode | Off.
#[global] Instance StreamMode_eq_dec : EqDecision StreamMode.
Proof. solve_decision. Defined.

(** worker.rs: the spelling of a mode. *)
Definition parse_mode (s : string) : StreamMode :=
  if s =s "copy" then Copy else if s =s "encode" then Encode else Off.
Definition mode_arg (m : StreamMode) : string :=
  match m with Copy => "copy" | Encode => "encode" | Off => "off" end.

Record Target := mkTarget { t_video : list string; t_audio : list string }.
Definition WEB_TARGET : Target := mkTarget ["h264"] ["aac"; "mp3"].

Record RemuxPlan := mkPlan {
  rp_video : StreamMode;
  rp_audio : StreamMode;
  rp_audio_track : nat;
  rp_video_track : nat;
  rp_video_kbps : option Z;
  rp_max_height : option Z;
  rp_max_bit_depth : option Z;
  rp_tone_map : bool;
  rp_deinterlace : bool;
  rp_burn_subtitle : option nat;
  rp_burn_ass : option nat;
  rp_max_channels : option Z;
  rp_stereo_gain_db : option float;
  rp_native_gain_db : option float;
  rp_loudness_source_channels : option Z;
  rp_loudness_gains : list (option AudioLayoutGain);
  rp_video_codec : VideoTarget;
  rp_audio_codec : AudioTarget;
  rp_segment_format : SegmentFormat;
}.

(** [\[None; MAX_LAYOUT_GAINS\]]. *)
Definition no_gains : list (option AudioLayoutGain) := repeat None MAX_LAYOUT_GAINS.

(** [RemuxPlan { video, audio, audio_track, video_track, ..Default::default() }]. *)
Definition plan_of_modes (v a : StreamMode) (audio_track video_track : nat) : RemuxPlan := {|
  rp_video := v;
  rp_audio := a;
  rp_audio_track := audio_track;
  rp_video_track := video_track;
  rp_video_kbps := None;
  rp_max_height := None;
  rp_max_bit_depth := None;
  rp_tone_map := false;
  rp_deinterlace := false;
  rp_burn_subtitle := None;
  rp_burn_ass := None;
  rp_max_channels := None;
  rp_stereo_gain_db := None;
  rp_native_gain_db := None;
  rp_loudness_source_channels := None;
  rp_loudness_gains := no_gains;
  rp_video_codec := H264;
  rp_audio_codec := Aac;
  rp_segment_format := Ts;
|}.

Definition DEFAULT_TARGET_DURATION_SECS : Z := 2.
Definition FRAGMENT_TARGET_SECS : Z := 2.

Definition has_video (p : RemuxPlan) : bool := negb (rp_video p ≟ Off).
Definition has_audio (p : RemuxPlan) : bool := negb (rp_audio p ≟ Off).
Definition playable (p : RemuxPlan) : bool := has_video p || has_audio p.

Section Planner.
Context {gst : GStreamer}.

Definition copyable (names : list string) (kind codec : string) (accepted : list string) : bool :=
  str_mem codec accepted
  && is_some_and (fun n => str_mem n names) (codec_to_caps_name kind codec).

(** [codec_to_caps_name(kind, codec).is_some_and(can_decode)]. *)
Definition decodable (kind codec : string) : bool :=
  is_some_and can_decode (codec_to_caps_name kind codec).

Definition plan_streams (info : MediaInfo) (target : Target) (audio_track video_track : nat) : RemuxPlan :=
  let audio_track := clamp_index audio_track (audio info) in
  let video_track := clamp_index video_track (video info) in
  let names := muxable_names Ts in
  let selected_v := video info !! video_track in
  let v :=
    if is_some_and (fun v => copyable names "video" (v_codec v) (t_video target)) selected_v
    then Copy
    else if is_some h264_encoder
            && is_some_and (fun v => decodable "video" (v_codec v)) selected_v
    then Encode
    else Off in
  let selected := audio info !! audio_track in
  let a :=
    if is_some_and (fun a => copyable names "audio" (a_codec a) (t_audio target)) selected
    then Copy
    else if is_some aac_encoder
            && is_some_and (fun a => decodable "audio" (a_codec a)) selected
    then Encode
    else Off in
  plan_of_modes v a audio_track video_track.

(** The closure [kind_summary] of [plan_summary]. *)
Definition kind_summary (names : list string) (kind : string) (codecs : list string)
    (mode : StreamMode) (target_codec : string) : string :=
  match mode with
  | Copy =>
      unwrap_or
        ((fun c => c +:+ " copy") <$>
           List.find (fun c => is_some_and (fun n => str_mem n names) (codec_to_caps_name kind c)) codecs)
        "copy"
  | Encode =>
      unwrap_or (List.find (decodable kind) codecs) kind
      +:+ " → " +:+ target_codec +:+ " (transcoded)"
  | Off =>
      match codecs with
      | [] => "none"
      | c :: _ => c +:+ " dropped (needs transcoder)"
      end
  end.

Definition plan_summary (info : MediaInfo) (plan : RemuxPlan) : string * string :=
  let names := muxable_names Ts in
  (kind_summary names "video" (option_list (v_codec <$> video info !! rp_video_track plan))
     (rp_video plan) (video_target_str (rp_video_codec plan)),
   kind_summary names "audio" (option_list (a_codec <$> audio info !! rp_audio_track plan))
     (rp_audio plan) (audio_target_str (rp_audio_codec plan))).

(** remux/audio.rs: the layout a local audio encode of this plan produces. *)
Definition exact_audio_layout (info : MediaInfo) (plan : RemuxPlan) : option AudioLayout :=
  if negb (rp_audio plan ≟ Encode) then None
  else
    audio ← audio info !! rp_audio_track plan;
    let source := layout_from_stream (a_channels audio) (a_layout audio) in
    output ←
      match rp_audio_codec plan with
      | Aac =>
          encoder ← aac_encoder;
          '(ch, mask) ← aac_input_layout encoder (channels source) (channel_mask source)
                          (rp_max_channels plan);
          mask ← mask;
          Some (layout_new ch mask)
      | Opus => Some (opus_output_layout source (rp_max_channels plan))
      end;
    then_some (existsb (fun l => l ≟ output) (resolved_measured_layouts source source)) output.
End Planner.

(** ** Lemmas *)

Lemma mode_roundtrip m : parse_mode (mode_arg m) = m.
Proof. by destruct m. Qed.
#[export] Hint Rewrite mode_roundtrip : codec.

Section PlannerFacts.
Context {gst : GStreamer}.

(** An exact layout is one the loudness analysis has a gain for, and never
    adds channels to the source. *)
Lemma exact_audio_layout_measured info plan l :
  exact_audio_layout info plan = Some l ->
  exists a, audio info !! rp_audio_track plan = Some a /\
    let source := layout_from_stream (a_channels a) (a_layout a) in
    l ∈ resolved_measured_layouts source source /\ channels l <= channels source.
Proof.
  unfold exact_audio_layout. destruct (negb _); [done|].
  destruct (audio info !! rp_audio_track plan) as [a|]; [|done]. simpl.
  intros H. exists a. split; [done|]. revert H.
  match goal with |- (?o ≫= _) = _ -> _ => destruct o as [out|] end; simpl; [|done].
  intros [Hex ->]%then_some_Some. apply existsb_exists in Hex as (x & Hin & Hx).
  apply bool_decide_eq_true in Hx as ->. apply list_elem_of_In in Hin.
  split; [done|]. apply (resolved_channels_le _ _ Hin).
Qed.

(** The codec-only planner copies exactly what the target accepts and the
    transport-stream muxer carries. *)
Lemma plan_streams_copy info target at_ vt :
  rp_video (plan_streams info target at_ vt) = Copy <->
  exists v, video info !! clamp_index vt (video info) = Some v /\
            copyable (muxable_names Ts) "video" (v_codec v) (t_video target) = true.
Proof.
  unfold plan_streams. simpl. destruct (is_some_and _ _) eqn:E.
  - split; [|done]. intros _. by apply is_some_and_spec.
  - rewrite <- is_some_and_spec, E. by destruct (_ && _).
Qed.
End PlannerFacts.
