(* ===== verification/Ladder.v ===== *)
(** * Client admission and the styled-subtitle ladder
    (kahawai-media, src/negotiate.rs: the helpers of the negotiation)

    The cost order, the fallback ladder for ASS/SSA scripts, the declared
    target duration, and the tests that decide whether a client takes a
    stream as it is. *)
From S2P Require Import Prelude Floats Media Loudness Probe Plan.
#[local] Open Scope Z_scope.

(** Derived [Ord]: the order of the constructors. *)
Inductive Cost := Direct | CopyCost | AudioEncode | VideoEncode | Unplayable.
#[global] Instance Cost_eq_dec : EqDecision Cost.
Proof. solve_decision. Defined.

Definition cost_str (c : Cost) : string :=
  match c with
  | Direct => "direct"
  | CopyCost => "copy"
  | AudioEncode => "audio_encode"
  | VideoEncode => "video_encode"
  | Unplayable => "unplayable"
  end.

Definition cost_rank (c : Cost) : Z :=
  match c with
  | Direct => 0 | CopyCost => 1 | AudioEncode => 2 | VideoEncode => 3 | Unplayable => 4
  end.

Inductive SubtitleTier := Text | Convert | Graphics | Ocr | BurnTier | Unavailable.
#[global] Instance SubtitleTier_eq_dec : EqDecision SubtitleTier.
Proof. solve_decision. Defined.

(** ** The ASS ladder *)

Inductive AssTier := Native | Flatten | Overlay | Burn.
#[global] Instance AssTier_eq_dec : EqDecision AssTier.
Proof. solve_decision. Defined.

Definition ass_tier_str (t : AssTier) : string :=
  match t with
  | Native => "native" | Flatten => "flatten" | Overlay => "overlay" | Burn => "burn"
  end.

(** [AssTier::parse_fallback]: [native] is not a fallback. *)
Definition parse_fallback (s : string) : option AssTier :=
  let s := trim s in
  if s =s "flatten" then Some Flatten
  else if s =s "overlay" then Some Overlay
  else if s =s "burn" then Some Burn
  else None.

Record AssPolicy := mkAssPolicy {
  order : list AssTier;
  ass_burn_capable : bool;
  overlay_ready : bool;
}.

Definition ass_policy_default : AssPolicy := mkAssPolicy [Flatten; Overlay; Burn] false false.

Definition permits (ass : AssPolicy) (profile : CapabilityProfile) (tier : AssTier) : bool :=
  match tier with
  | Native => ass_render profile
  | Flatten => vtt_render profile
  | Overlay => graphics_overlay profile && overlay_ready ass
  | Burn => ass_burn_capable ass
  end.

(** [AssPolicy::choose]. *)
Definition choose (ass : AssPolicy) (profile : CapabilityProfile) : option AssTier :=
  if ass_render profile then Some Native
  else opt_or (List.find (permits ass profile) (order ass))
              (then_some (vtt_render profile) Flatten).

(** [AssPolicy::overlay_reachable]. *)
Definition overlay_reachable (ass : AssPolicy) (profile : CapabilityProfile) : bool :=
  if ass_render profile || negb (graphics_overlay profile) then false
  else choose (mkAssPolicy (order ass) (ass_burn_capable ass) true) profile ≟ Some Overlay.

(** [AssPolicy::parse_order]: the two loops. *)
Definition push_new (out : list AssTier) (t : AssTier) : list AssTier :=
  if existsb (fun u => u ≟ t) out then out else out ++ [t].

Definition push_parsed (out : list AssTier) (part : string) : list AssTier :=
  match parse_fallback part with
  | Some t => push_new out t
  | None => out
  end.

Definition parse_order (value : string) : list AssTier :=
  let out := fold_left push_parsed (split_char (byte 44) value) [] in
  fold_left push_new [Flatten; Overlay; Burn] out.

(** ** The declared target duration *)

Definition UNKNOWN_GAP_TARGET_SECS : Z := 16.

Definition declared_target_secs (mode : TargetDuration) (max_keyframe_gap_ms : option Z)
    (video_is_encoded : bool) : Z :=
  if video_is_encoded then
    Z.max DEFAULT_TARGET_DURATION_SECS
      (match mode with
       | Short max_secs => Z.min max_secs DEFAULT_TARGET_DURATION_SECS
       | _ => 0
       end)
  else
    match mode with
    | Ignore => DEFAULT_TARGET_DURATION_SECS
    | Accurate | Short _ =>
        match max_keyframe_gap_ms with
        | Some gap_ms =>
            let bound_ms := wrap 64 (FRAGMENT_TARGET_SECS * 1000 + gap_ms) in
            Z.max (wrap 32 (wrap 64 (bound_ms + 500) / 1000)) DEFAULT_TARGET_DURATION_SECS
        | None => UNKNOWN_GAP_TARGET_SECS
        end
    end.

(** ** Does the client take this stream? *)

Inductive BurnPick := Embedded (i : nat) | Sidecar (i : nat).
#[global] Instance BurnPick_eq_dec : EqDecision BurnPick.
Proof. solve_decision. Defined.

Definition H264_PROFILES : list string :=
  ["constrained-baseline"; "baseline"; "main"; "high"; "high-10"; "high-4:2:2"; "high-4:4:4"].
Definition HEVC_PROFILES : list string := ["main"; "main-still-picture"; "main-10"].

Definition profile_rank (codec profile : string) : option nat :=
  if codec =s "h264" then position (String.eqb profile) H264_PROFILES
  else if codec =s "hevc" then position (String.eqb profile) HEVC_PROFILES
  else None.

(** ["4.1"] is 41; the sum is [u32] arithmetic. *)
Definition level_num (level : string) : option Z :=
  match split_char (byte 46) level with
  | [] => None
  | ma :: rest =>
      major ← parse_uint u32_max ma;
      minor ← match rest with
              | [] => Some 0
              | mi :: _ => parse_uint u32_max mi
              end;
      Some (wrap 32 (wrap 32 (major * 10) + minor))
  end.

Definition depth_exceeds (cap : VideoCap) (v : VideoStream) : bool :=
  match v_bit_depth v, max_bit_depth cap with
  | Some have, Some mx => mx <? have
  | _, _ => false
  end.
Definition profile_exceeds (codec : string) (cap : VideoCap) (v : VideoStream) : bool :=
  match v_profile v, max_profile cap with
  | Some have, Some mx =>
      match profile_rank codec have, profile_rank codec mx with
      | Some h, Some m => (m <? h)%nat
      | _, _ => false
      end
  | _, _ => false
  end.
Definition level_exceeds (cap : VideoCap) (v : VideoStream) : bool :=
  match v_level v, max_level cap with
  | Some have, Some mx =>
      match level_num have, level_num mx with
      | Some h, Some m => m <? h
      | _, _ => false
      end
  | _, _ => false
  end.

(** Unknown-permissive: a fact only one side states never rejects. *)
Definition cap_admits (codec : string) (cap : VideoCap) (v : VideoStream) : bool :=
  if depth_exceeds cap v then false
  else if profile_exceeds codec cap v then false
  else if level_exceeds cap v then false
  else true.

Definition height_exceeds (profile : CapabilityProfile) (v : VideoStream) : bool :=
  match max_height profile with
  | Some max_h => max_h <? v_height v
  | None => false
  end.
Definition fps_exceeds (profile : CapabilityProfile) (v : VideoStream) : bool :=
  match max_fps profile, v_fps v with
  | Some mx, Some (n, d) => (0 <? d) && (mx <? n / d)
  | _, _ => false
  end.

Definition video_fits (profile : CapabilityProfile) (v : VideoStream) : bool :=
  if negb (existsb (fun c => cap_admits (v_codec v) c v)
             (List.filter (fun c => c_codec c =s v_codec v) (p_video profile)))
  then false
  else if height_exceeds profile v then false
  else if fps_exceeds profile v then false
  else true.

(** [codec_depth_limit]: alternatives; an unrestricted entry admits any depth. *)
Definition codec_depth_limit (profile : CapabilityProfile) (codec : string) : option Z :=
  let caps := List.filter (fun c => c_codec c =s codec) (p_video profile) in
  if existsb (fun c => is_none (max_bit_depth c)) caps then None
  else max_of (omap max_bit_depth caps).

(** ** Does a subtitle need burning in? *)

Definition is_image (format : string) : bool := str_mem format ["pgs"; "vobsub"; "dvdsub"].
Definition is_ass (format : string) : bool := str_mem format ["ass"; "ssa"].

(** [ocr_text.get(i).copied().unwrap_or(false)]. *)
Definition has_ocr (ocr_text : list bool) (i : nat) : bool := unwrap_or (ocr_text !! i) false.

(** An image track without OCR text, as [burn_wanted] and the burn choice ask. *)
Definition burnable_image (ocr_text : list bool) (i : nat) (s : SubtitleStream) : bool :=
  is_image (s_format s) && negb (has_ocr ocr_text i).

Definition burn_wanted (profile : CapabilityProfile) (info : MediaInfo) (burn_capable : bool)
    (ocr_text : list bool) : bool :=
  burn_capable && negb (graphics_overlay profile)
  && is_some (positioni (burnable_image ocr_text) 0 (subtitles info)).

Definition ass_burn_wanted (profile : CapabilityProfile) (info : MediaInfo) (ass : AssPolicy) : bool :=
  (choose ass profile ≟ Some Burn)
  && (existsb (fun s => is_ass (s_format s)) (subtitles info)
      || existsb (fun s => is_ass (x_format s)) (external_subtitles info)).

(** ** Lemmas *)

Lemma push_new_NoDup out t : NoDup out -> NoDup (push_new out t).
Proof.
  unfold push_new. destruct (existsb _ out) eqn:E; [done|]. intros H.
  apply NoDup_app. split; [done|]. split.
  - intros x Hx ->%list_elem_of_singleton. apply not_true_iff_false in E. apply E.
    apply existsb_exists. exists t. split; [by apply list_elem_of_In|].
    by apply bool_decide_eq_true.
  - apply NoDup_singleton.
Qed.

Lemma push_new_elem out t x : x ∈ push_new out t <-> x ∈ out \/ x = t.
Proof.
  unfold push_new. destruct (existsb _ out) eqn:E.
  - split; [by left|]. intros [H| ->]; [done|].
    apply existsb_exists in E as (y & Hy & ->%bool_decide_eq_true).
    by apply list_elem_of_In.
  - by rewrite elem_of_app, list_elem_of_singleton.
Qed.

Lemma fold_push_new_elem l out x :
  x ∈ fold_left push_new l out <-> x ∈ out \/ x ∈ l.
Proof.
  revert out. induction l as [|t l IH]; intros out; simpl.
  - rewrite elem_of_nil. tauto.
  - rewrite IH, push_new_elem, elem_of_cons. tauto.
Qed.

Lemma fold_push_new_NoDup l out : NoDup out -> NoDup (fold_left push_new l out).
Proof.
  revert out. induction l as [|t l IH]; intros out H; simpl; [done|].
  by apply IH, push_new_NoDup.
Qed.

Lemma parse_fallback_not_native s t : parse_fallback s = Some t -> t <> Native.
Proof. unfold parse_fallback. by repeat case_match; intros [= <-]. Qed.

Lemma fold_push_parsed_spec parts out :
  NoDup out -> (forall x, x ∈ out -> x <> Native) ->
  NoDup (fold_left push_parsed parts out)
  /\ (forall x, x ∈ fold_left push_parsed parts out -> x <> Native).
Proof.
  revert out. induction parts as [|p parts IH]; intros out Hd Hn; simpl; [done|].
  apply IH; unfold push_parsed; destruct (parse_fallback p) as [t|] eqn:E; try done.
  - by apply push_new_NoDup.
  - intros x [Hx| ->]%push_new_elem; [by apply Hn|]. by eapply parse_fallback_not_native.
Qed.

(** Whatever the stored preference says, the parsed order is a permutation of
    the three rungs. *)
Lemma parse_order_perm value : parse_order value ≡ₚ [Flatten; Overlay; Burn].
Proof.
  unfold parse_order.
  destruct (fold_push_parsed_spec (split_char (byte 44) value) []) as [Hd Hn].
  { constructor. } { intros x Hx. by apply elem_of_nil in Hx. }
  apply NoDup_Permutation.
  - by apply fold_push_new_NoDup.
  - by apply (bool_decide_unpack _).
  - intros x. rewrite fold_push_new_elem. split; [|by right].
    intros [H|H]; [|done]. specialize (Hn _ H). destruct x; set_solver.
Qed.

Lemma choose_Some ass profile t :
  choose ass profile = Some t ->
  permits ass profile t = true /\ (t = Native \/ t ∈ order ass \/ t = Flatten).
Proof.
  unfold choose. destruct (ass_render profile) eqn:Hr.
  - intros [= <-]. by split; [|left].
  - destruct (List.find _ _) as [u|] eqn:Hf; simpl.
    + intros [= <-]. apply find_pred in Hf as [Hin Hp]. by auto.
    + intros [Hv <-]%then_some_Some. split; [exact Hv|by auto].
Qed.

Lemma choose_None ass profile :
  choose ass profile = None <->
  ass_render profile = false /\ vtt_render profile = false
  /\ forall t, t ∈ order ass -> permits ass profile t = false.
Proof.
  unfold choose. destruct (ass_render profile); [by split; [|intros [??]]|].
  destruct (List.find _ _) as [u|] eqn:Hf; simpl.
  - split; [done|]. intros (_ & _ & H). apply find_pred in Hf as [Hin Hp].
    by rewrite H in Hp.
  - destruct (vtt_render profile); simpl; split; try done; [by intros (_ & ? & _)|].
    intros _. split_and!; try done. intros t Ht%list_elem_of_In.
    by eapply find_none.
Qed.

Lemma codec_depth_limit_Some profile codec d :
  codec_depth_limit profile codec = Some d ->
  (forall c, c ∈ p_video profile -> c_codec c = codec -> exists x, max_bit_depth c = Some x /\ x <= d)
  /\ exists c, c ∈ p_video profile /\ c_codec c = codec /\ max_bit_depth c = Some d.
Proof.
  unfold codec_depth_limit.
  set (caps := List.filter _ _).
  assert (Hcaps : forall c, c ∈ caps <-> c ∈ p_video profile /\ c_codec c = codec).
  { intros c. unfold caps. by rewrite !list_elem_of_In, filter_In, String.eqb_eq. }
  destruct (existsb _ caps) eqn:E; [done|]. intros [Hin Hmax]%max_of_spec. split.
  - intros c Hc Hk. destruct (max_bit_depth c) as [x|] eqn:Hx.
    + exists x. split; [done|]. apply Hmax, list_elem_of_omap. exists c. by rewrite Hcaps.
    + exfalso. apply not_true_iff_false in E. apply E, existsb_exists.
      exists c. split; [by apply list_elem_of_In, Hcaps|]. by rewrite Hx.
  - apply list_elem_of_omap in Hin as (c & Hc & Hx). apply Hcaps in Hc as [Hc Hk]. eauto.
Qed.
