(* ===== verification/Negotiate.v ===== *)
(** * The negotiation engine (kahawai-media, src/negotiate.rs)

    From a client profile, the facts of one source and the targets the
    executors offer to a per-stream plan. The body of
    [negotiate_for_executors_impl] is split at its own comments: admission,
    picks, direct play, burns, one candidate per container, the choice between
    them, the plan, and the verdicts; [negotiate_for_executors_impl] composes
    the pieces in the order of the source. *)
From S2P Require Import Prelude Floats Media Loudness Probe Plan Ladder.
#[local] Open Scope Z_scope.

Record SubtitleVerdict := mkSubtitleVerdict {
  sv_index : nat;
  sv_track_id : option Z;
  sv_format : string;
  sv_language : option string;
  sv_tier : SubtitleTier;
  sv_note : string;
}.

Record SourcePlan := mkSourcePlan {
  sp_direct : bool;
  sp_plan : RemuxPlan;
  sp_burn_sidecar : option nat;
  sp_burn_ass_sidecar : option nat;
  sp_cost : Cost;
  sp_target_duration_secs : Z;
  sp_incomplete : bool;
  sp_video_verdict : string;
  sp_audio_verdict : string;
  sp_subtitles : list SubtitleVerdict;
}.

(** The argument list of the negotiation, in the source's order. *)
Record Request := mkRequest {
  profile : CapabilityProfile;
  info : MediaInfo;
  req_audio_track : nat;
  req_video_track : nat;
  single_part : bool;
  est_kbps : option Z;
  tonemap : bool;
  burn_capable : bool;
  ocr_text : list bool;
  burn_pick : option BurnPick;
  ass : AssPolicy;
  video_targets : list string;
  full_audio_targets : list string;
  local_audio_targets : list string;
  force_audio_encode : bool;
}.

Definition with_force (r : Request) (force : bool) : Request :=
  mkRequest (profile r) (info r) (req_audio_track r) (req_video_track r) (single_part r)
    (est_kbps r) (tonemap r) (burn_capable r) (ocr_text r) (burn_pick r) (ass r)
    (video_targets r) (full_audio_targets r) (local_audio_targets r) force.

(** ** Selected streams and copy admission *)

Definition audio_track (r : Request) : nat := clamp_index (req_audio_track r) (audio (info r)).
Definition video_track (r : Request) : nat := clamp_index (req_video_track r) (video (info r)).
Definition sel_v (r : Request) : option VideoStream := video (info r) !! video_track r.
Definition sel_a (r : Request) : option AudioStream := audio (info r) !! audio_track r.

Definition cap (r : Request) : option Z := max_bandwidth_kbps (profile r).
Definition over_cap (r : Request) : bool :=
  is_some_and (fun c => is_some_and (fun e => c <? e) (est_kbps r)) (cap r).

Definition is_hdr10 (s : VideoStream) : bool := v_hdr s ≟ Some "hdr10".

Definition hdr_veto (r : Request) : bool :=
  tonemap r && negb (hdr (profile r)) && is_some_and is_hdr10 (sel_v r).

Definition v_client_ok (r : Request) : bool :=
  is_some_and (video_fits (profile r)) (sel_v r) && negb (over_cap r) && negb (hdr_veto r).

Definition audio_fits (p : CapabilityProfile) (a : AudioStream) : bool :=
  str_mem (a_codec a) (p_audio p)
  && ((max_audio_channels p =? 0) || (a_channels a <=? max_audio_channels p)).

Definition a_client_ok (r : Request) : bool := is_some_and (audio_fits (profile r)) (sel_a r).

Definition container_ok (r : Request) : bool :=
  is_some_and (fun c => str_mem c (containers (profile r))) (container (info r)).

(** ** The explicit pick *)

Definition picked (r : Request) (p : BurnPick) : option string :=
  match p with
  | Embedded i => s_format <$> subtitles (info r) !! i
  | Sidecar i => x_format <$> external_subtitles (info r) !! i
  end.

Definition honoured_image (r : Request) (p : BurnPick) : bool :=
  match picked r p with
  | Some f =>
      if str_mem f ["pgs"; "dvdsub"]
      then burn_capable r && match p with Embedded _ => true | Sidecar _ => false end
      else if f =s "vobsub" then burn_capable r
      else false
  | None => false
  end.

Definition forced_burn (r : Request) : option BurnPick := opt_filter (honoured_image r) (burn_pick r).

Definition forced_embedded (r : Request) : option nat :=
  match forced_burn r with Some (Embedded i) => Some i | _ => None end.

Definition picked_ass (r : Request) : option BurnPick :=
  opt_filter (fun p => is_some_and is_ass (picked r p)) (burn_pick r).

(** ** Direct play *)

Definition direct (r : Request) : bool :=
  single_part r
  && container_ok r
  && (is_none (sel_v r) || v_client_ok r)
  && (is_none (sel_a r) || a_client_ok r)
  && (is_some (sel_v r) || is_some (sel_a r))
  && negb (burn_wanted (profile r) (info r) (burn_capable r) (ocr_text r))
  && negb (ass_burn_wanted (profile r) (info r) (ass r))
  && is_none (forced_burn r)
  && negb (force_audio_encode r).

(** ** Burns *)

Definition burn_subtitle (r : Request) : option nat :=
  opt_or (forced_embedded r)
    (if negb (graphics_overlay (profile r)) && burn_capable r
     then positioni (burnable_image (ocr_text r)) 0 (subtitles (info r))
     else None).

Definition first_embedded_ass (r : Request) : option nat :=
  position (fun s => is_ass (s_format s)) (subtitles (info r)).
Definition first_sidecar_ass (r : Request) : option nat :=
  position (fun s => is_ass (x_format s)) (external_subtitles (info r)).

(** [(burn_ass_track, burn_ass_file)]: embedded and sidecar exclude each
    other; embedded wins when nothing was picked. *)
Definition burn_ass_choice (r : Request) : option nat * option nat :=
  if negb (ass_burn_wanted (profile r) (info r) (ass r)) then (None, None)
  else
    match picked_ass r with
    | Some (Embedded i) => (Some i, None)
    | Some (Sidecar i) => (None, Some i)
    | None =>
        match first_embedded_ass r with
        | Some i => (Some i, None)
        | None => (None, first_sidecar_ass r)
        end
    end.
Definition burn_ass_track (r : Request) : option nat := fst (burn_ass_choice r).
Definition burn_ass_file (r : Request) : option nat := snd (burn_ass_choice r).

Definition burn_active (r : Request) : bool :=
  is_some (burn_subtitle r) || is_some (forced_burn r)
  || is_some (burn_ass_track r) || is_some (burn_ass_file r).

(** ** One candidate per container *)

Definition v_ladder (f : SegmentFormat) : list VideoTarget :=
  match f with Ts => [H264] | Fmp4 => [H264; Hevc; Av1] end.
Definition a_ladder (f : SegmentFormat) : list AudioTarget :=
  match f with Ts => [Aac] | Fmp4 => [Aac; Opus] end.

(** Client and executor both take this target. *)
Definition v_target_ok (r : Request) (t : VideoTarget) : bool :=
  existsb (fun c => c_codec c =s video_target_str t) (p_video (profile r))
  && existsb (fun e => e =s video_target_str t) (video_targets r).
Definition a_target_ok (r : Request) (targets : list string) (t : AudioTarget) : bool :=
  existsb (fun c => c =s audio_target_str t) (p_audio (profile r))
  && existsb (fun e => e =s audio_target_str t) targets.

Record Candidate := mkCandidate {
  cd_video : StreamMode;
  cd_vt : VideoTarget;
  cd_audio : StreamMode;
  cd_at : AudioTarget;
  cd_dropped : Z;
  cd_cost : Cost;
}.

(** The key is ordered lexicographically: dropped streams, then cost. *)
Definition key_lt (a b : Candidate) : bool :=
  (cd_dropped a <? cd_dropped b)
  || ((cd_dropped a =? cd_dropped b) && (cost_rank (cd_cost a) <? cost_rank (cd_cost b))).

Definition audio_targets_for (r : Request) (v : StreamMode) : list string :=
  if v ≟ Encode then full_audio_targets r else local_audio_targets r.

Section Engine.
Context {gst : GStreamer}.

Definition muxable (format : SegmentFormat) (kind codec : string) : bool :=
  is_some_and (fun c => caps_muxable c format) (codec_to_caps kind codec).

Definition candidate_video (r : Request) (format : SegmentFormat) : StreamMode :=
  if is_some_and (fun s => v_client_ok r && muxable format "video" (v_codec s)
                           && negb (burn_active r)) (sel_v r)
  then Copy
  else if existsb (v_target_ok r) (v_ladder format)
          && is_some_and (fun s => decodable "video" (v_codec s)) (sel_v r)
  then Encode
  else Off.

Definition candidate_audio (r : Request) (format : SegmentFormat) (v : StreamMode) : StreamMode :=
  if negb (force_audio_encode r)
     && is_some_and (fun s => a_client_ok r && muxable format "audio" (a_codec s)) (sel_a r)
  then Copy
  else if existsb (a_target_ok r (audio_targets_for r v)) (a_ladder format)
          && is_some_and (fun s => decodable "audio" (a_codec s)) (sel_a r)
  then Encode
  else Off.

Definition candidate_cost (r : Request) (v a : StreamMode) : Cost :=
  if direct r then Direct
  else if ((v ≟ Off) && (a ≟ Off)) || (is_some (sel_v r) && (v ≟ Off)) then Unplayable
  else if v ≟ Encode then VideoEncode
  else if a ≟ Encode then AudioEncode
  else CopyCost.

Definition candidate (r : Request) (format : SegmentFormat) : Candidate :=
  let v := candidate_video r format in
  let a := candidate_audio r format v in
  {| cd_video := v;
     cd_vt := unwrap_or (List.find (v_target_ok r) (v_ladder format)) H264;
     cd_audio := a;
     cd_at := unwrap_or (List.find (a_target_ok r (audio_targets_for r v)) (a_ladder format)) Aac;
     cd_dropped := if is_some (sel_a r) && (a ≟ Off) then 1 else 0;
     cd_cost := candidate_cost r v a |}.

(** MPEG-TS is a candidate only when what it delivers plays. *)
Definition ts_delivers_h264 (r : Request) (ts : Candidate) : bool :=
  match cd_video ts with
  | Off => true
  | Copy => is_some_and (fun s => v_codec s =s "h264") (sel_v r)
  | Encode => cd_vt ts ≟ H264
  end.

Definition ts_delivers_playable_audio (r : Request) (ts : Candidate) : bool :=
  match cd_audio ts with
  | Off => true
  | Copy => negb (is_some_and (fun s => str_mem (a_codec s) ["opus"; "flac"; "vorbis"]) (sel_a r))
  | Encode => true
  end.

Definition choose_container (r : Request) : SegmentFormat * Candidate :=
  let ts := candidate r Ts in
  let f4 := candidate r Fmp4 in
  if negb (ts_delivers_h264 r ts) || negb (ts_delivers_playable_audio r ts) || key_lt f4 ts
  then (Fmp4, f4)
  else (Ts, ts).

Definition segment_format (r : Request) : SegmentFormat := fst (choose_container r).
Definition chosen (r : Request) : Candidate := snd (choose_container r).

(** ** The [short] override and the plan *)

Definition gap_ms (r : Request) : option Z := sel_v r ≫= v_max_keyframe_interval_ms.

Definition short_override (r : Request) : bool :=
  match ceiling_secs (target_duration (profile r)) with
  | Some ceiling =>
      (cd_video (chosen r) ≟ Copy)
      && (ceiling <? declared_target_secs (target_duration (profile r)) (gap_ms r) false)
  | None => false
  end.

Definition final_video (r : Request) : StreamMode :=
  if short_override r then Encode else cd_video (chosen r).

Definition tone_map (r : Request) : bool :=
  tonemap r && (final_video r ≟ Encode) && is_some_and is_hdr10 (sel_v r).

Definition plan_max_channels (r : Request) : option Z :=
  let mx := max_audio_channels (profile r) in
  if (cd_audio (chosen r) ≟ Encode) && (0 <? mx) then
    Some (map_or mx (fun c => Z.min c mx) (opt_filter (fun c => 0 <? c) (a_channels <$> sel_a r)))
  else None.

Definition build_plan (r : Request) : RemuxPlan :=
  let v := final_video r in
  let encoded := v ≟ Encode in
  {| rp_video := v;
     rp_audio := cd_audio (chosen r);
     rp_audio_track := audio_track r;
     rp_video_track := video_track r;
     rp_video_kbps := then_some encoded (map_or 6000 (fun c => Z.min 6000 c) (cap r));
     rp_max_height := if encoded then max_height (profile r) else None;
     rp_max_bit_depth :=
       if encoded then codec_depth_limit (profile r) (video_target_str (cd_vt (chosen r))) else None;
     rp_tone_map := tone_map r;
     rp_deinterlace := encoded && is_some_and v_interlaced (sel_v r);
     rp_burn_subtitle := opt_filter (fun _ => encoded) (burn_subtitle r);
     rp_burn_ass := opt_filter (fun _ => encoded) (burn_ass_track r);
     rp_max_channels := plan_max_channels r;
     rp_stereo_gain_db := None;
     rp_native_gain_db := None;
     rp_loudness_source_channels := None;
     rp_loudness_gains := no_gains;
     rp_video_codec := cd_vt (chosen r);
     rp_audio_codec := cd_at (chosen r);
     rp_segment_format := segment_format r |}.

Definition final_cost (r : Request) : Cost :=
  let plan := build_plan r in
  if direct r then Direct
  else if negb (playable plan) || (is_some (sel_v r) && (rp_video plan ≟ Off)) then Unplayable
  else if rp_video plan ≟ Encode then VideoEncode
  else if rp_audio plan ≟ Encode then AudioEncode
  else CopyCost.

Definition incomplete (r : Request) : bool :=
  (is_some (sel_v r) && (final_video r ≟ Off))
  || (is_some (sel_a r) && (cd_audio (chosen r) ≟ Off)).

(** ** Verdicts *)

(** The closure [offered]. *)
Definition offered (r : Request) (kind : string) : string :=
  let is_video := kind =s "video" in
  let ladder := if is_video then ["h264"; "hevc"; "av1"] else ["aac"; "opus"] in
  let encoding := final_video r ≟ Encode in
  let offered_targets :=
    if is_video then video_targets r
    else if encoding then full_audio_targets r else local_audio_targets r in
  let have := List.filter (fun t => existsb (fun e => e =s t) offered_targets) ladder in
  let executor := if is_video || encoding then "full transcoder" else "hub" in
  match have with
  | [] => "no " +:+ kind +:+ " encoder on the " +:+ executor
  | _ => executor +:+ " encodes " +:+ join ", " have
  end.

Definition nothing_accepted (r : Request) (source kind : string) : string :=
  source +:+ " → none (client accepts neither the source nor any offered target — "
  +:+ offered r kind +:+ ")".

Definition video_verdict_base (r : Request) : string :=
  let base := fst (plan_summary (info r) (build_plan r)) in
  let base :=
    if direct r then
      match sel_v r with Some s => v_codec s +:+ " direct" | None => "none" end
    else base in
  if (final_video r ≟ Off) && is_some (sel_v r) && negb (v_client_ok r)
  then nothing_accepted r (map_or "video" v_codec (sel_v r)) "video"
  else base.

Definition hdr_suffix (r : Request) : string :=
  if tone_map r then " · hdr10 → sdr (tone-mapped)"
  else match sel_v r with
       | Some s =>
           if is_some (v_hdr s) && negb (hdr (profile r)) && negb (final_video r ≟ Off)
           then " · HDR delivered as-is" else ""
       | None => ""
       end.

Definition fmp4_named (r : Request) : bool := negb (direct r) && (segment_format r ≟ Fmp4).

Definition depth_suffix (r : Request) : string :=
  match sel_v r with
  | Some v =>
      match v_bit_depth v, codec_depth_limit (profile r) (v_codec v) with
      | Some depth, Some limit =>
          if limit <? depth
          then " · " +:+ show depth +:+ "-bit source exceeds client's " +:+ show limit +:+ "-bit limit"
          else ""
      | _, _ => ""
      end
  | None => ""
  end.

Definition video_verdict (r : Request) : string :=
  video_verdict_base r
  +:+ hdr_suffix r
  +:+ (if over_cap r && negb (direct r) && (final_video r ≟ Encode)
       then " · bandwidth cap" else "")
  +:+ (if fmp4_named r && is_some (sel_v r) then " · fmp4 segments" else "")
  +:+ depth_suffix r.

Definition audio_verdict (r : Request) : string :=
  (if (cd_audio (chosen r) ≟ Off) && is_some (sel_a r) && negb (a_client_ok r)
   then nothing_accepted r (map_or "audio" a_codec (sel_a r)) "audio"
   else snd (plan_summary (info r) (build_plan r)))
  +:+ (if fmp4_named r && is_none (sel_v r) then " · fmp4 segments" else "").

(** The tier of one embedded subtitle stream, arm by arm. *)
Definition subtitle_tier (r : Request) (index : nat) (s : SubtitleStream) : SubtitleTier * string :=
  let plan := build_plan r in
  if is_ass (s_format s) then
    if rp_burn_ass plan ≟ Some index then (BurnTier, "burned in (forces the video encode)")
    else if ass_render (profile r) then (Text, "")
    else if choose (ass r) (profile r) ≟ Some Overlay
    then (Graphics, "rasterised overlay — full typesetting, no encode")
    else if is_some (burn_ass_track r) then (Unavailable, "only one track can be burned in")
    else if is_none (choose (ass r) (profile r))
    then (Unavailable,
          "no rung left: client renders neither ASS nor text, and no box can burn it")
    else if head (order (ass r)) ≟ Some Burn
    then (Convert, "flattened to VTT — no box in the fleet can burn ASS")
    else (Convert, "flattened to VTT")
  else if is_image (s_format s) then
    if rp_burn_subtitle plan ≟ Some index then (BurnTier, "burned in (forces the video encode)")
    else if graphics_overlay (profile r) then (Graphics, "")
    else if has_ocr (ocr_text r) index then (Ocr, "served as OCR text — no encode needed")
    else if is_some (burn_subtitle r) then (Unavailable, "only one track can be burned in")
    else if negb (graphics_overlay (profile r))
    then (Unavailable, "burn-in needs a locally-read source (HUB-32b)")
    else (Unavailable, "no OCR text yet and no burn path")
  else if negb (vtt_render (profile r)) then
    if ass_burn_capable (ass r) then (BurnTier, "burned in — the client renders no text")
    else (Unavailable, "client renders no text and no box can burn it in")
  else (Text, "").

Definition subtitle_verdict (r : Request) (index : nat) (s : SubtitleStream) : SubtitleVerdict :=
  let '(tier, note) := subtitle_tier r index s in
  mkSubtitleVerdict index None (s_format s) (s_language s) tier note.

Definition negotiate_for_executors_impl (r : Request) : SourcePlan :=
  {| sp_direct := direct r;
     sp_plan := build_plan r;
     sp_burn_sidecar :=
       match forced_burn r with
       | Some (Sidecar i) => then_some (final_video r ≟ Encode) i
       | _ => None
       end;
     sp_burn_ass_sidecar := opt_filter (fun _ => final_video r ≟ Encode) (burn_ass_file r);
     sp_cost := final_cost r;
     sp_target_duration_secs :=
       declared_target_secs (target_duration (profile r)) (gap_ms r) (final_video r ≟ Encode);
     sp_incomplete := incomplete r;
     sp_video_verdict := video_verdict r;
     sp_audio_verdict := audio_verdict r;
     sp_subtitles := imap (subtitle_verdict r) (subtitles (info r)) |}.

(** ** The forced-loudness wrapper *)

Definition encoded_audio_layout (i : MediaInfo) (plan : RemuxPlan) : option AudioLayout :=
  a ← audio i !! rp_audio_track plan;
  let source := layout_from_stream (a_channels a) (a_layout a) in
  let bound :=
    map_or (channels source) (fun c => Z.min c (channels source))
      (opt_filter (fun c => 0 <? c) (rp_max_channels plan)) in
  List.find (fun l => channels l <=? bound) (resolved_measured_layouts source source).

Definition negotiate_for_executors (r : Request) : SourcePlan :=
  let normal := negotiate_for_executors_impl (with_force r false) in
  if negb (force_audio_encode r) then normal
  else
    let forced := negotiate_for_executors_impl (with_force r true) in
    let video_unchanged :=
      if sp_direct normal then
        if (length (video (info r)) =? 0)%nat
        then rp_video (sp_plan forced) ≟ Off
        else rp_video (sp_plan forced) ≟ Copy
      else rp_video (sp_plan forced) ≟ rp_video (sp_plan normal) in
    let exact_layout_supported :=
      (rp_video (sp_plan normal) ≟ Encode)
      || is_some (exact_audio_layout (info r) (sp_plan forced)) in
    if (rp_audio (sp_plan forced) ≟ Encode) && video_unchanged
       && is_some (encoded_audio_layout (info r) (sp_plan forced))
       && exact_layout_supported
    then forced else normal.

(** [negotiate]: one target list for every executor, nothing forced. *)
Definition negotiate (p : CapabilityProfile) (i : MediaInfo) (at_ vt : nat) (single : bool)
    (kbps : option Z) (tm bc : bool) (ocr : list bool) (pick : option BurnPick)
    (policy : AssPolicy) (targets : list string) : SourcePlan :=
  negotiate_for_executors
    (mkRequest p i at_ vt single kbps tm bc ocr pick policy targets targets targets false).
End Engine.
