(* ===== verification/Fixtures.v ===== *)
(** * Concrete inputs

    A media stack with the templates and decoders of a common installation
    and the small sources, clients and fleets the repository's own tests are
    written on. The witnesses and the regression examples evaluate on them. *)
From S2P Require Import Prelude Floats Media Loudness Probe Plan Ladder Negotiate.
#[local] Open Scope Z_scope.

(** Sink templates of the two muxers, the usual decoders, one software encoder
    per codec; every probe pipeline up to 5.1 works. *)
#[export] Instance typical_stack : GStreamer := {|
  element_exists := fun e =>
    str_mem e ["mpegtsmux"; "isofmp4mux"; "avenc_aac"; "opusenc"; "x264enc"; "x265enc";
               "svtav1enc"; "avdec_aac"];
  sink_pad_caps := fun e =>
    if e =s "mpegtsmux" then
      [mkCaps "video/mpeg" (Some [1; 2; 4]); mkCaps "video/x-h264" None; mkCaps "video/x-h265" None;
       mkCaps "video/x-av1" None; mkCaps "video/x-vp9" None;
       mkCaps "audio/mpeg" (Some [1]); mkCaps "audio/mpeg" (Some [2; 4]);
       mkCaps "audio/x-ac3" None; mkCaps "audio/x-dts" None; mkCaps "audio/x-opus" None]
    else if e =s "isofmp4mux" then
      [mkCaps "video/x-h264" None; mkCaps "video/x-h265" None; mkCaps "video/x-vp9" None;
       mkCaps "video/x-av1" None; mkCaps "audio/mpeg" (Some [4]); mkCaps "audio/x-opus" None;
       mkCaps "audio/x-flac" None; mkCaps "audio/x-ac3" None; mkCaps "audio/x-eac3" None]
    else [];
  decoder_sinks := fun n =>
    str_mem n ["video/x-h264"; "video/x-h265"; "video/x-av1"; "video/x-vp9"; "video/x-vp8";
               "video/mpeg"; "audio/mpeg"; "audio/x-ac3"; "audio/x-eac3"; "audio/x-dts";
               "audio/x-opus"; "audio/x-flac"; "audio/x-vorbis"];
  audio_dry_run := fun _ => true;
  video_dry_run := fun _ => true;
  aac_roundtrip := fun _ _ _ ch _ => ch <=? 6;
  aac_encode_run := fun _ _ ch _ => ch <=? 6;
|}.

Definition vs (codec : string) : VideoStream :=
  mkVideoStream codec 1920 1080 None None false None None None None None None None None None.
Definition vs_hdr (codec h : string) : VideoStream :=
  mkVideoStream codec 1920 1080 None None false (Some h) None None None None None None None None.
Definition vs_gap (codec : string) (gap : option Z) : VideoStream :=
  mkVideoStream codec 1920 1080 None None false None None None None gap None None None None.
Definition au (codec : string) (ch : Z) : AudioStream :=
  mkAudioStream codec ch 48000 None None None.
Definition sub (format : string) : SubtitleStream :=
  mkSubtitleStream format None None variant_default.

Definition media_subs (c : string) (v : option VideoStream) (a : option AudioStream)
    (s : list SubtitleStream) : MediaInfo := {|
  container := Some c; duration_ms := Some 60000; video := option_list v; audio := option_list a;
  subtitles := s; external_subtitles := []; replay_gain := None; artwork := None;
  artwork_images := ∅; season_artwork := None; nfo := None; sidecar_revision := None; tags := ∅;
  attachments := None; chapters := None; video_geometry_probed := false;
  video_geometry_error := None |}.
Definition media (c : string) (v : option VideoStream) (a : option AudioStream) : MediaInfo :=
  media_subs c v a [].

Definition plain_cap (codec : string) : VideoCap := mkVideoCap None codec None None.

(** A client with the given codecs and target-duration mode. *)
Definition client (vid aud : list string) (t : TargetDuration) : CapabilityProfile := {|
  containers := ["mp4"; "webm"]; p_video := map plain_cap vid; p_audio := aud;
  max_audio_channels := 0; max_height := None; max_fps := None; hdr := false;
  max_bandwidth_kbps := None; ass_render := false; graphics_overlay := false;
  vtt_render := true; target_duration := t |}.

Definition chrome : CapabilityProfile := client ["h264"; "hevc"] ["aac"; "mp3"; "opus"] Ignore.

Definition fleet : list string := ["h264"; "hevc"; "av1"; "aac"; "opus"].

(** A request with everything optional left out. *)
Definition request (p : CapabilityProfile) (i : MediaInfo) (single tm : bool)
    (targets : list string) : Request :=
  mkRequest p i 0 0 single None tm true [] None ass_policy_default targets targets targets false.
