(* ===== verification/NegotiateFacts.v ===== *)
(** * What the negotiation guarantees

    Theorems about [Negotiate.negotiate_for_executors_impl] and its wrapper:
    what a copy, an encode, a direct play and a burn imply, how the container
    is chosen, and what the plan's numbers are bounded by. *)
From S2P Require Import Prelude Floats Media Loudness Probe Plan Ladder Negotiate Fixtures.
#[local] Open Scope Z_scope.

(** ** Regression examples (the tests of negotiate.rs) *)

Definition run (p : CapabilityProfile) (i : MediaInfo) (single : bool) : SourcePlan :=
  negotiate_for_executors_impl (request p i single false fleet).

Example decision_direct :
  sp_cost (run chrome (media "mp4" (Some (vs "h264")) (Some (au "aac" 2))) true) = Direct.
Proof. vm_compute. reflexivity. Qed.
Example decision_copy :
  let sp := run chrome (media "matroska" (Some (vs "h264")) (Some (au "aac" 6))) true in
  sp_cost sp = CopyCost /\ rp_video (sp_plan sp) = Copy.
Proof. vm_compute. split; reflexivity. Qed.
Example decision_dts :
  let sp := run chrome (media "matroska" (Some (vs "h264")) (Some (au "dts" 6))) true in
  sp_cost sp = AudioEncode /\ rp_max_channels (sp_plan sp) = None.
Proof. vm_compute. split; reflexivity. Qed.
Example decision_hevc :
  let sp := run chrome (media "matroska" (Some (vs "hevc")) (Some (au "aac" 2))) true in
  rp_video (sp_plan sp) = Copy /\ rp_segment_format (sp_plan sp) = Fmp4.
Proof. vm_compute. split; reflexivity. Qed.
Example decision_no_hevc :
  let sp := run (client ["h264"] ["aac"] Ignore)
                (media "matroska" (Some (vs "hevc")) (Some (au "aac" 2))) true in
  sp_cost sp = VideoEncode /\ rp_video_kbps (sp_plan sp) = Some 6000
  /\ sp_video_verdict sp = "hevc → h264 (transcoded)".
Proof. vm_compute. repeat split; reflexivity. Qed.
Example decision_multi_part :
  sp_cost (run chrome (media "mp4" (Some (vs "h264")) (Some (au "aac" 2))) false) = CopyCost.
Proof. vm_compute. reflexivity. Qed.
Example decision_hevc_tonemap :
  let sp := negotiate_for_executors_impl
    (request (client ["hevc"] ["aac"; "mp3"; "opus"] Ignore)
       (media "matroska" (Some (vs_hdr "hevc" "hdr10")) (Some (au "aac" 2))) true true fleet) in
  sp_cost sp = VideoEncode /\ rp_video_codec (sp_plan sp) = Hevc
  /\ rp_segment_format (sp_plan sp) = Fmp4
  /\ sp_video_verdict sp = "hevc → hevc (transcoded) · hdr10 → sdr (tone-mapped) · fmp4 segments".
Proof. vm_compute. repeat split; reflexivity. Qed.

(** ** Candidates *)

Ltac bdec :=
  repeat match goal with
  | H : bool_decide _ = true |- _ => apply bool_decide_eq_true in H
  | H : bool_decide _ = false |- _ => apply bool_decide_eq_false in H
  end.

Section Facts.
Context {gst : GStreamer}.
Implicit Types r : Request.

Lemma chosen_candidate r : chosen r = candidate r (segment_format r).
Proof. unfold chosen, segment_format, choose_container. by destruct (_ || _). Qed.

(** What a candidate that copies the video has checked. *)
Lemma candidate_copies r f :
  candidate_video r f = Copy ->
  exists v, sel_v r = Some v /\ v_client_ok r = true
    /\ muxable f "video" (v_codec v) = true /\ burn_active r = false.
Proof.
  unfold candidate_video. destruct (is_some_and _ (sel_v r)) eqn:E; [|clear E; by destruct (_ && _)].
  intros _. apply is_some_and_spec in E as (v & Hv & E). bsplit. eauto 6.
Qed.

Lemma candidate_encodes r f :
  candidate_video r f = Encode ->
  exists v, sel_v r = Some v /\ decodable "video" (v_codec v) = true
    /\ existsb (v_target_ok r) (v_ladder f) = true.
Proof.
  unfold candidate_video. destruct (is_some_and _ (sel_v r)); [done|].
  destruct (existsb _ _) eqn:E; simpl; [|done].
  destruct (is_some_and _ (sel_v r)) eqn:D; [|done]. intros _.
  apply is_some_and_spec in D as (v & Hv & D). eauto.
Qed.

Lemma candidate_audio_copies r f m :
  candidate_audio r f m = Copy ->
  force_audio_encode r = false /\
  exists a, sel_a r = Some a /\ a_client_ok r = true /\ muxable f "audio" (a_codec a) = true.
Proof.
  unfold candidate_audio. destruct (negb _ && _) eqn:E; [|clear E; by destruct (_ && _)].
  intros _. bsplit. split; [done|].
  match goal with H : is_some_and _ _ = true |- _ =>
    apply is_some_and_spec in H as (a & Ha & Hm) end. bsplit. eauto.
Qed.

Lemma candidate_audio_encodes r f m :
  candidate_audio r f m = Encode ->
  exists a, sel_a r = Some a /\ decodable "audio" (a_codec a) = true
    /\ existsb (a_target_ok r (audio_targets_for r m)) (a_ladder f) = true.
Proof.
  unfold candidate_audio. destruct (negb _ && _); [done|].
  destruct (existsb _ _) eqn:E; simpl; [|done].
  destruct (is_some_and _ (sel_a r)) eqn:D; [|done]. intros _.
  apply is_some_and_spec in D as (a & Ha & D). eauto.
Qed.

(** The target named beside an admissible ladder is one of its rungs and is
    admissible itself. *)
Lemma find_target {A} (ok : A -> bool) l d :
  existsb ok l = true -> ok (unwrap_or (List.find ok l) d) = true
                         /\ unwrap_or (List.find ok l) d ∈ l.
Proof.
  intros H. destruct (List.find ok l) as [t|] eqn:E; simpl.
  - by apply find_pred in E as [? ?].
  - exfalso. apply existsb_exists in H as (t & Hin & Ht).
    by rewrite (find_none _ _ E t Hin) in Ht.
Qed.

Lemma final_copy r : final_video r = Copy -> candidate_video r (segment_format r) = Copy.
Proof.
  unfold final_video. rewrite chosen_candidate. by destruct (short_override r).
Qed.

Lemma short_override_copy r :
  short_override r = true -> candidate_video r (segment_format r) = Copy.
Proof.
  unfold short_override. destruct (ceiling_secs _); [|done]. rewrite chosen_candidate.
  intros H. bsplit. by bdec.
Qed.

Lemma final_off r :
  final_video r = Off <-> candidate_video r (segment_format r) = Off.
Proof.
  unfold final_video. destruct (short_override r) eqn:E.
  - apply short_override_copy in E. rewrite E. done.
  - by rewrite chosen_candidate.
Qed.

(** A transport-stream choice passed both delivery rules. *)
Lemma chosen_ts r :
  segment_format r = Ts ->
  ts_delivers_h264 r (candidate r Ts) = true
  /\ ts_delivers_playable_audio r (candidate r Ts) = true
  /\ key_lt (candidate r Fmp4) (candidate r Ts) = false.
Proof.
  unfold segment_format, choose_container. destruct (_ || _) eqn:E; [done|].
  intros _. bsplit. auto.
Qed.

(** What "the client takes this stream" means, stated without the code. *)
Definition client_takes_video (p : CapabilityProfile) (v : VideoStream) : Prop :=
  (exists c, c ∈ p_video p /\ c_codec c = v_codec v
     /\ (forall have mx, v_bit_depth v = Some have -> max_bit_depth c = Some mx -> have <= mx)
     /\ (forall have mx h m, v_profile v = Some have -> max_profile c = Some mx ->
          profile_rank (v_codec v) have = Some h -> profile_rank (v_codec v) mx = Some m -> (h <= m)%nat)
     /\ (forall have mx h m, v_level v = Some have -> max_level c = Some mx ->
          level_num have = Some h -> level_num mx = Some m -> h <= m))
  /\ (forall h, max_height p = Some h -> v_height v <= h)
  /\ (forall f n d, max_fps p = Some f -> v_fps v = Some (n, d) -> 0 < d -> n / d <= f).

Definition client_takes_audio (p : CapabilityProfile) (a : AudioStream) : Prop :=
  a_codec a ∈ p_audio p /\ (max_audio_channels p = 0 \/ a_channels a <= max_audio_channels p).

Definition within_cap r : Prop :=
  forall c e, max_bandwidth_kbps (profile r) = Some c -> est_kbps r = Some e -> e <= c.

(** A target both sides have: the client plays it and the executor makes it. *)
Definition shared_target (played : string -> Prop) (offered : list string) (codec : string) : Prop :=
  played codec /\ codec ∈ offered.
Definition plays_video r (codec : string) : Prop := exists c, c ∈ p_video (profile r) /\ c_codec c = codec.
Definition plays_audio r (codec : string) : Prop := codec ∈ p_audio (profile r).

Lemma cap_admits_spec codec c v :
  cap_admits codec c v = true ->
  (forall have mx, v_bit_depth v = Some have -> max_bit_depth c = Some mx -> have <= mx)
  /\ (forall have mx h m, v_profile v = Some have -> max_profile c = Some mx ->
       profile_rank codec have = Some h -> profile_rank codec mx = Some m -> (h <= m)%nat)
  /\ (forall have mx h m, v_level v = Some have -> max_level c = Some mx ->
       level_num have = Some h -> level_num mx = Some m -> h <= m).
Proof.
  unfold cap_admits. destruct (depth_exceeds c v) eqn:Ed; [done|].
  destruct (profile_exceeds codec c v) eqn:Ep; [done|].
  destruct (level_exceeds c v) eqn:El; [done|]. intros _. split_and!.
  - intros have mx Hh Hm. unfold depth_exceeds in Ed. rewrite Hh, Hm in Ed. lia.
  - intros have mx h m Hh Hm Hr Hr'. unfold profile_exceeds in Ep. rewrite Hh, Hm, Hr, Hr' in Ep.
    by apply Nat.ltb_ge.
  - intros have mx h m Hh Hm Hr Hr'. unfold level_exceeds in El. rewrite Hh, Hm, Hr, Hr' in El. lia.
Qed.

Lemma video_fits_takes p v : video_fits p v = true -> client_takes_video p v.
Proof.
  unfold video_fits. destruct (existsb _ _) eqn:E; [|done]. cbn [negb].
  destruct (height_exceeds p v) eqn:Eh; [done|]. destruct (fps_exceeds p v) eqn:Ef; [done|]. intros _.
  split_and!.
  - apply existsb_exists in E as (c & [Hc Hk%String.eqb_eq]%filter_In & Ha).
    exists c. apply list_elem_of_In in Hc. split; [done|]. split; [done|].
    by apply (cap_admits_spec (v_codec v)).
  - intros h Hh. unfold height_exceeds in Eh. rewrite Hh in Eh. lia.
  - intros f n d Hf Hn Hd. unfold fps_exceeds in Ef. rewrite Hf, Hn in Ef.
    rewrite (proj2 (Z.ltb_lt 0 d) Hd) in Ef. simpl in Ef. lia.
Qed.

Lemma audio_fits_takes p a : audio_fits p a = true -> client_takes_audio p a.
Proof.
  unfold audio_fits, client_takes_audio. intros [Hc Hn]%andb_true_iff. split; [by apply str_mem_spec|].
  apply orb_true_iff in Hn as [Hn|Hn]; [left|right]; lia.
Qed.

Lemma over_cap_within r : over_cap r = false -> within_cap r.
Proof.
  unfold over_cap, within_cap, cap. intros H c e Hc He. rewrite Hc, He in H. simpl in H. lia.
Qed.

Lemma hdr_veto_spec r v :
  hdr_veto r = false -> sel_v r = Some v -> tonemap r = true -> hdr (profile r) = false ->
  v_hdr v <> Some "hdr10".
Proof.
  unfold hdr_veto. intros H Hv Ht Hp Hh. rewrite Ht, Hp, Hv in H. simpl in H.
  unfold is_hdr10 in H. by rewrite Hh in H.
Qed.

Lemma existsb_is_mem (l : list string) s : existsb (fun e => e =s s) l = true -> s ∈ l.
Proof.
  intros (e & Hin & ->%String.eqb_eq)%existsb_exists. by apply list_elem_of_In.
Qed.

Lemma v_target_shared r t :
  v_target_ok r t = true -> shared_target (plays_video r) (video_targets r) (video_target_str t).
Proof.
  unfold v_target_ok. intros [H1 H2%existsb_is_mem]%andb_true_iff. split; [|done].
  apply existsb_exists in H1 as (c & Hin & Hc%String.eqb_eq). exists c. by rewrite list_elem_of_In.
Qed.

Lemma a_target_shared r targets t :
  a_target_ok r targets t = true -> shared_target (plays_audio r) targets (audio_target_str t).
Proof. unfold a_target_ok. by intros [H1%existsb_is_mem H2%existsb_is_mem]%andb_true_iff. Qed.

(** The full transcoder encodes the audio of what it encodes the picture of. *)
Lemma audio_targets_decide r m :
  audio_targets_for r m
  = if decide (m = Encode) then full_audio_targets r else local_audio_targets r.
Proof. unfold audio_targets_for. by case_bool_decide; case_decide. Qed.

Lemma burn_inactive r :
  burn_active r = false ->
  burn_subtitle r = None /\ forced_burn r = None /\ burn_ass_track r = None /\ burn_ass_file r = None.
Proof.
  unfold burn_active.
  by destruct (burn_subtitle r), (forced_burn r), (burn_ass_track r), (burn_ass_file r).
Qed.

Lemma v_client_ok_spec r v :
  sel_v r = Some v ->
  v_client_ok r = true <->
  video_fits (profile r) v = true /\ over_cap r = false /\ hdr_veto r = false.
Proof.
  intros Hv. unfold v_client_ok. rewrite Hv. simpl.
  destruct (video_fits _ _), (over_cap r), (hdr_veto r); simpl; intuition congruence.
Qed.

Lemma a_client_ok_spec r a :
  sel_a r = Some a -> a_client_ok r = audio_fits (profile r) a.
Proof. intros Ha. unfold a_client_ok. by rewrite Ha. Qed.

(** ** Burns *)

Lemma forced_burn_picked r p :
  forced_burn r = Some p -> burn_pick r = Some p /\ honoured_image r p = true.
Proof. unfold forced_burn. by rewrite opt_filter_Some. Qed.

Lemma honoured_embedded r i :
  honoured_image r (Embedded i) = true ->
  burn_capable r = true /\
  exists s, subtitles (info r) !! i = Some s /\ is_image (s_format s) = true.
Proof.
  unfold honoured_image. simpl.
  destruct (subtitles (info r) !! i) as [s|]; simpl; [|done].
  unfold is_image, str_mem. simpl. intros H.
  destruct (String.eqb (s_format s) "pgs") eqn:E1; simpl in H.
  { bsplit. split; [done|]. exists s. by rewrite E1. }
  destruct (String.eqb (s_format s) "dvdsub") eqn:E2; simpl in H.
  { bsplit. split; [done|]. exists s. by rewrite E1, E2, !orb_true_r. }
  destruct (String.eqb (s_format s) "vobsub") eqn:E3; [|done].
  split; [done|]. exists s. by rewrite E1, E3.
Qed.

Lemma burn_subtitle_image r i :
  burn_subtitle r = Some i ->
  burn_capable r = true /\
  exists s, subtitles (info r) !! i = Some s /\ is_image (s_format s) = true
    /\ (burn_pick r = Some (Embedded i)
        \/ (graphics_overlay (profile r) = false /\ has_ocr (ocr_text r) i = false)).
Proof.
  unfold burn_subtitle, forced_embedded.
  assert (Hauto : (if negb (graphics_overlay (profile r)) && burn_capable r
     then positioni (burnable_image (ocr_text r)) 0 (subtitles (info r)) else None) = Some i ->
     burn_capable r = true /\ exists s, subtitles (info r) !! i = Some s
       /\ is_image (s_format s) = true
       /\ (burn_pick r = Some (Embedded i)
           \/ (graphics_overlay (profile r) = false /\ has_ocr (ocr_text r) i = false))).
  { destruct (negb _ && _) eqn:E; [|done]. bsplit. intros Hpos.
    apply positioni_Some in Hpos as (_ & s & Hs & Hb). rewrite Nat.sub_0_r in Hs.
    unfold burnable_image in Hb. bsplit. eauto 8. }
  destruct (forced_burn r) as [[j|j]|] eqn:F; simpl; try apply Hauto.
  intros [= ->]. apply forced_burn_picked in F as [Hp Hh].
  apply honoured_embedded in Hh as (Hc & s & Hs & Hi). eauto 8.
Qed.

Lemma burn_ass_track_spec r i :
  burn_ass_track r = Some i ->
  choose (ass r) (profile r) = Some Burn /\ burn_ass_file r = None /\
  exists s, subtitles (info r) !! i = Some s /\ is_ass (s_format s) = true.
Proof.
  unfold burn_ass_track, burn_ass_file, burn_ass_choice, ass_burn_wanted.
  destruct (choose _ _ ≟ _) eqn:Hc; simpl; [|done]. bdec.
  destruct (existsb _ _ || existsb _ _) eqn:Hany; simpl; [|done].
  destruct (picked_ass r) as [[j|j]|] eqn:Hp; simpl; try done.
  - intros [= ->]. unfold picked_ass in Hp. apply opt_filter_Some in Hp as [_ Hp].
    apply is_some_and_spec in Hp as (f & Hf & Hp). simpl in Hf.
    apply fmap_Some in Hf as (s & Hs & ->). eauto.
  - destruct (first_embedded_ass r) as [j|] eqn:He; simpl; [|done].
    intros [= ->]. apply position_Some in He as (s & Hs & Hi & _). eauto.
Qed.

Lemma burn_ass_file_spec r i :
  burn_ass_file r = Some i ->
  choose (ass r) (profile r) = Some Burn /\
  exists s, external_subtitles (info r) !! i = Some s /\ is_ass (x_format s) = true.
Proof.
  unfold burn_ass_file, burn_ass_choice, ass_burn_wanted.
  destruct (choose _ _ ≟ _) eqn:Hc; simpl; [|done]. bdec.
  destruct (existsb _ _ || existsb _ _) eqn:Hany; simpl; [|done].
  destruct (picked_ass r) as [[j|j]|] eqn:Hp; simpl; try done.
  - intros [= ->]. unfold picked_ass in Hp. apply opt_filter_Some in Hp as [_ Hp].
    apply is_some_and_spec in Hp as (f & Hf & Hp). simpl in Hf.
    apply fmap_Some in Hf as (s & Hs & ->). eauto.
  - destruct (first_embedded_ass r) as [j|] eqn:He; simpl; [done|].
    intros H. apply position_Some in H as (s & Hs & Hi & _). eauto.
Qed.

(** Serving the file as it is excludes every burn. *)
Lemma direct_no_burn r : direct r = true -> burn_active r = false.
Proof.
  unfold direct. intros Hd. bsplit.
  match goal with H : burn_wanted _ _ _ _ = false |- _ => rename H into Hb end.
  match goal with H : ass_burn_wanted _ _ _ = false |- _ => rename H into Ha end.
  match goal with H : is_none (forced_burn r) = true |- _ => rename H into Hf end.
  unfold burn_active, burn_subtitle, burn_ass_track, burn_ass_file, burn_ass_choice,
    forced_embedded.
  rewrite Ha. simpl. unfold is_none in Hf. apply negb_true_iff in Hf.
  destruct (forced_burn r); [done|]. simpl. rewrite !orb_false_r.
  unfold burn_wanted in Hb. rewrite (andb_comm (negb _)).
  destruct (burn_capable r && negb _); [|done]. exact Hb.
Qed.
End Facts.

#[export] Hint Resolve candidate_copies candidate_encodes final_copy : kw.
