(* ===== verification/NegotiateTheorems.v ===== *)
(** * The negotiation's theorems

    The properties of [Negotiate.negotiate_for_executors_impl] and of its
    forced-loudness wrapper, each followed by a witness on concrete inputs. *)
From S2P Require Import Prelude Floats Media Loudness Probe Plan Ladder Negotiate Fixtures NegotiateFacts.
#[local] Open Scope Z_scope.

Section Theorems.
Context {gst : GStreamer}.
Implicit Types r : Request.

(** C1: a plan that copies the video copies a stream the client takes as it
    is: it fits a declared capability and the ceilings, the source is within
    the bandwidth cap, no tone-map veto applies, nothing is burned in, the
    chosen container muxes it, and MPEG-TS carries it only when it is
    H.264. *)
Theorem copy_sound r :
  rp_video (sp_plan (negotiate_for_executors_impl r)) = Copy ->
  exists v, sel_v r = Some v
    /\ client_takes_video (profile r) v /\ within_cap r
    /\ (tonemap r = true -> hdr (profile r) = false -> v_hdr v <> Some "hdr10")
    /\ (burn_subtitle r = None /\ forced_burn r = None /\ burn_ass_track r = None
        /\ burn_ass_file r = None)
    /\ muxable (rp_segment_format (sp_plan (negotiate_for_executors_impl r)))
         "video" (v_codec v) = true
    /\ (rp_segment_format (sp_plan (negotiate_for_executors_impl r)) = Ts -> v_codec v = "h264").
Proof.
  simpl. intros Hc%final_copy. pose proof Hc as Hc'.
  apply candidate_copies in Hc as (v & Hv & Hok & Hm & Hb).
  apply (v_client_ok_spec r v Hv) in Hok as (Hf & Ho & Hh).
  exists v. split; [done|]. split; [by apply video_fits_takes|]. split; [by apply over_cap_within|].
  split; [intros ? ?; by eapply hdr_veto_spec|]. split; [by apply burn_inactive|]. split; [done|].
  intros Hts. rewrite Hts in Hc'.
  apply chosen_ts in Hts as (H & _). unfold ts_delivers_h264 in H. simpl in H.
  rewrite Hc', Hv in H. by apply String.eqb_eq in H.
Qed.

(** A plan that copies the audio copies a codec and channel count the
    client declared, into a container that muxes it, never under a forced
    encode, and never puts Opus, FLAC or Vorbis into MPEG-TS. *)
Theorem copy_audio_sound r :
  rp_audio (sp_plan (negotiate_for_executors_impl r)) = Copy ->
  force_audio_encode r = false /\
  exists a, sel_a r = Some a /\ client_takes_audio (profile r) a
    /\ muxable (rp_segment_format (sp_plan (negotiate_for_executors_impl r)))
         "audio" (a_codec a) = true
    /\ (rp_segment_format (sp_plan (negotiate_for_executors_impl r)) = Ts ->
        a_codec a ∉ ["opus"; "flac"; "vorbis"]).
Proof.
  simpl. rewrite chosen_candidate. simpl. intros Hc. pose proof Hc as Hc'.
  apply candidate_audio_copies in Hc as (Hfo & a & Ha & Hok & Hm).
  split; [done|]. exists a. rewrite (a_client_ok_spec r a Ha) in Hok.
  split; [done|]. split; [by apply audio_fits_takes|]. split; [done|].
  intros Hts. rewrite Hts in Hc'.
  apply chosen_ts in Hts as (_ & H & _). unfold ts_delivers_playable_audio in H.
  change (cd_audio (candidate r Ts)) with (candidate_audio r Ts (candidate_video r Ts)) in H.
  rewrite Hc', Ha in H. apply negb_true_iff in H. cbn [is_some_and] in H.
  intros Hin%str_mem_spec. congruence.
Qed.

(** A plan that encodes the video has a selected stream, and unless the
    [short] override forced it the stream is decodable and the target is one
    the client declared and the transcoder offers. *)
Theorem encode_sound r :
  rp_video (sp_plan (negotiate_for_executors_impl r)) = Encode ->
  short_override r = false ->
  exists v, sel_v r = Some v /\ decodable "video" (v_codec v) = true
    /\ shared_target (plays_video r) (video_targets r)
         (video_target_str (rp_video_codec (sp_plan (negotiate_for_executors_impl r))))
    /\ rp_video_codec (sp_plan (negotiate_for_executors_impl r))
         ∈ v_ladder (rp_segment_format (sp_plan (negotiate_for_executors_impl r))).
Proof.
  simpl. unfold final_video. intros H Hs. rewrite Hs, chosen_candidate in H. simpl in H.
  apply candidate_encodes in H as (v & Hv & Hd & Hl). exists v.
  rewrite chosen_candidate. simpl.
  destruct (find_target _ _ H264 Hl) as [Ht Hin]. split_and!; try done. by apply v_target_shared.
Qed.

(** An encoded audio stream is decodable and targets a codec the client
    declared and the executor that runs the plan offers: the full transcoder
    when video encodes, the hub's own worker otherwise. *)
Theorem encode_audio_sound r :
  rp_audio (sp_plan (negotiate_for_executors_impl r)) = Encode ->
  short_override r = false ->
  exists a, sel_a r = Some a /\ decodable "audio" (a_codec a) = true
    /\ shared_target (plays_audio r)
         (if decide (rp_video (sp_plan (negotiate_for_executors_impl r)) = Encode)
          then full_audio_targets r else local_audio_targets r)
         (audio_target_str (rp_audio_codec (sp_plan (negotiate_for_executors_impl r)))).
Proof.
  simpl. unfold final_video. intros H Hs. rewrite Hs, chosen_candidate. simpl.
  rewrite chosen_candidate in H. simpl in H.
  apply candidate_audio_encodes in H as (a & Ha & Hd & Hl). exists a.
  destruct (find_target _ _ Aac Hl) as [Ht _]. apply a_target_shared in Ht.
  by rewrite <- audio_targets_decide.
Qed.

(** MPEG-TS is chosen only for H.264 (copied or as the encode target) or
    for a session without video, and only when the fMP4 candidate neither
    delivers more streams nor is strictly cheaper. *)
Theorem ts_only_h264 r :
  rp_segment_format (sp_plan (negotiate_for_executors_impl r)) = Ts ->
  (rp_video (sp_plan (negotiate_for_executors_impl r)) = Copy ->
     v_codec <$> sel_v r = Some "h264")
  /\ rp_video_codec (sp_plan (negotiate_for_executors_impl r)) = H264
  /\ key_lt (candidate r Fmp4) (candidate r Ts) = false.
Proof.
  simpl. intros Hts. pose proof Hts as Hts'. apply chosen_ts in Hts as (Hv & _ & Hk).
  split_and!; [|by rewrite chosen_candidate, Hts'; simpl; destruct (v_target_ok r H264)|done].
  intros Hc%final_copy. rewrite Hts' in Hc. unfold ts_delivers_h264 in Hv. simpl in Hv.
  rewrite Hc in Hv. apply is_some_and_spec in Hv as (v & -> & Hv).
  by apply String.eqb_eq in Hv; rewrite <- Hv.
Qed.

(** Direct play serves one part in a container the client demuxes, every
    selected stream fits the client unchanged, its cost is [Direct], and no
    burn of any kind is planned beside it. *)
Theorem direct_sound r :
  sp_direct (negotiate_for_executors_impl r) = true ->
  single_part r = true
  /\ (exists c, container (info r) = Some c /\ c ∈ containers (profile r))
  /\ (forall v, sel_v r = Some v -> client_takes_video (profile r) v /\ within_cap r)
  /\ (forall a, sel_a r = Some a -> client_takes_audio (profile r) a)
  /\ sp_cost (negotiate_for_executors_impl r) = Direct
  /\ rp_burn_subtitle (sp_plan (negotiate_for_executors_impl r)) = None
  /\ rp_burn_ass (sp_plan (negotiate_for_executors_impl r)) = None
  /\ sp_burn_sidecar (negotiate_for_executors_impl r) = None
  /\ sp_burn_ass_sidecar (negotiate_for_executors_impl r) = None.
Proof.
  simpl. intros Hd. pose proof (direct_no_burn r Hd) as Hb.
  unfold final_cost. rewrite Hd. unfold burn_active in Hb. unfold direct in Hd. bsplit.
  destruct (burn_subtitle r), (forced_burn r), (burn_ass_track r), (burn_ass_file r); try done.
  split_and!; try done.
  - match goal with H : container_ok r = true |- _ =>
      apply is_some_and_spec in H as (c & Hc & Hm) end.
    exists c. by rewrite <- str_mem_spec.
  - intros v Hv. assert (v_client_ok r = true) as (Hf & Ho & _)%(v_client_ok_spec r v Hv).
    { match goal with H : is_none (sel_v r) || _ = true |- _ =>
        unfold is_none in H; by rewrite Hv in H end. }
    split; [by apply video_fits_takes|by apply over_cap_within].
  - intros a Ha. apply audio_fits_takes. rewrite <- (a_client_ok_spec r a Ha).
    match goal with H : is_none (sel_a r) || _ = true |- _ =>
      unfold is_none in H; by rewrite Ha in H end.
Qed.

(** A burn is claimed only with the video encode that carries it, and
    names a track that exists and is of its kind: an image track (the
    explicit pick, or one the client cannot overlay and OCR does not cover)
    where the display sets can be read, a styled script only when the ladder
    resolves to burning; the embedded and the sidecar script exclude each
    other. *)
Theorem burns_honest r i :
  (rp_burn_subtitle (sp_plan (negotiate_for_executors_impl r)) = Some i ->
     rp_video (sp_plan (negotiate_for_executors_impl r)) = Encode /\ burn_capable r = true
     /\ exists s, subtitles (info r) !! i = Some s /\ is_image (s_format s) = true
          /\ (burn_pick r = Some (Embedded i)
              \/ (graphics_overlay (profile r) = false /\ has_ocr (ocr_text r) i = false)))
  /\ (rp_burn_ass (sp_plan (negotiate_for_executors_impl r)) = Some i ->
     rp_video (sp_plan (negotiate_for_executors_impl r)) = Encode
     /\ choose (ass r) (profile r) = Some Burn
     /\ sp_burn_ass_sidecar (negotiate_for_executors_impl r) = None
     /\ exists s, subtitles (info r) !! i = Some s /\ is_ass (s_format s) = true).
Proof.
  simpl. split; intros [H He]%opt_filter_Some; bdec.
  - apply burn_subtitle_image in H as (Hc & H). auto.
  - apply burn_ass_track_spec in H as (Hc & Hf & H). rewrite Hf. auto.
Qed.

(** C2: with a tone-mapping executor and a client that cannot display HDR, an
    HDR10 picture is never shipped as it is: neither direct nor copied; a
    plan tone-maps exactly when it encodes such a source with the capability
    in hand. *)
Theorem hdr10_never_raw r v :
  tonemap r = true -> hdr (profile r) = false -> sel_v r = Some v -> v_hdr v = Some "hdr10" ->
  sp_direct (negotiate_for_executors_impl r) = false
  /\ rp_video (sp_plan (negotiate_for_executors_impl r)) <> Copy
  /\ (rp_tone_map (sp_plan (negotiate_for_executors_impl r)) = true <->
      rp_video (sp_plan (negotiate_for_executors_impl r)) = Encode).
Proof.
  intros Ht Hp Hv Hh. simpl.
  assert (hdr_veto r = true) as Hveto.
  { unfold hdr_veto. rewrite Ht, Hp, Hv. simpl. by apply bool_decide_eq_true. }
  assert (v_client_ok r = false) as Hok.
  { unfold v_client_ok. by rewrite Hveto, andb_false_r. }
  split_and!.
  - unfold direct. rewrite Hok, Hv. simpl. by rewrite andb_false_r.
  - intros Hc%final_copy%candidate_copies. destruct Hc as (v' & Hv' & Hc & _). congruence.
  - unfold tone_map. rewrite Ht, Hv. simpl.
    replace (is_hdr10 v) with true by (symmetry; by apply bool_decide_eq_true).
    rewrite andb_true_r. by rewrite bool_decide_eq_true.
Qed.

(** Unless a source is refused as unplayable or served directly, its plan
    produces something, and a source with video has its video delivered. *)
Theorem playable_plan r :
  sp_cost (negotiate_for_executors_impl r) <> Unplayable ->
  sp_cost (negotiate_for_executors_impl r) <> Direct ->
  playable (sp_plan (negotiate_for_executors_impl r)) = true
  /\ (sel_v r <> None -> rp_video (sp_plan (negotiate_for_executors_impl r)) <> Off)
  /\ (sp_cost (negotiate_for_executors_impl r) = VideoEncode <->
      rp_video (sp_plan (negotiate_for_executors_impl r)) = Encode).
Proof.
  simpl. unfold final_cost. destruct (direct r); [done|].
  destruct (playable (build_plan r)); simpl; [|done].
  destruct (is_some (sel_v r) && _) eqn:E; [done|]. intros _ _.
  split_and!; [done| |].
  - intros Hs Hoff. rewrite Hoff in E. by destruct (sel_v r).
  - destruct (final_video r ≟ Encode) eqn:E1; bdec; [by rewrite E1|].
    by destruct (cd_audio (chosen r) ≟ Encode).
Qed.

(** The encode parameters respect every ceiling: the bitrate is at most
    6000 kbit/s and at most the client's cap, the channel count is positive,
    at most the client's ceiling and at most the source's own count when that
    is known. *)
Theorem plan_bounds r :
  (forall k, rp_video_kbps (sp_plan (negotiate_for_executors_impl r)) = Some k ->
     k <= 6000 /\ forall c, max_bandwidth_kbps (profile r) = Some c -> k <= c)
  /\ (forall n, rp_max_channels (sp_plan (negotiate_for_executors_impl r)) = Some n ->
     rp_audio (sp_plan (negotiate_for_executors_impl r)) = Encode
     /\ 0 < n <= max_audio_channels (profile r)
     /\ forall a, sel_a r = Some a -> 0 < a_channels a -> n <= a_channels a).
Proof.
  simpl. split.
  - intros k [_ <-]%then_some_Some. unfold cap.
    destruct (max_bandwidth_kbps (profile r)) as [c|]; simpl; (split; [lia|]);
      intros c' [= <-]; lia.
  - intros n. unfold plan_max_channels.
    destruct (_ && (0 <? _)) eqn:E; [|done]. bsplit. bdec. zbool.
    intros [= <-]. split; [done|].
    destruct (sel_a r) as [a|]; simpl; [|split; [lia|done]].
    destruct (Z.ltb_spec 0 (a_channels a)); simpl; (split; [lia|]);
      intros a' [= <-]; lia.
Qed.
End Theorems.

(** ** Witnesses *)

Definition hevc_mkv : Request :=
  request chrome (media "matroska" (Some (vs "hevc")) (Some (au "aac" 2))) true false fleet.
Definition dts_mkv : Request :=
  request (client ["h264"] ["aac"] Ignore)
    (media "matroska" (Some (vs "hevc")) (Some (au "dts" 6))) true false fleet.
Definition h264_mkv : Request :=
  request chrome (media "matroska" (Some (vs "h264")) (Some (au "aac" 6))) true false fleet.
Definition direct_mp4 : Request :=
  request chrome (media "mp4" (Some (vs "h264")) (Some (au "aac" 2))) true false fleet.
Definition hdr10_mkv : Request :=
  request chrome (media "matroska" (Some (vs_hdr "hevc" "hdr10")) (Some (au "aac" 2))) true true fleet.

Lemma copy_sound_witness :
  exists v, sel_v hevc_mkv = Some v /\ v_codec v = "hevc" /\ client_takes_video chrome v.
Proof.
  destruct (copy_sound hevc_mkv) as (v & Hv & Hf & _); [vm_compute; reflexivity|].
  exists v. split; [exact Hv|]. split; [|exact Hf].
  vm_compute in Hv. injection Hv as <-. reflexivity.
Defined.

Lemma copy_audio_sound_witness :
  exists a, sel_a hevc_mkv = Some a /\ client_takes_audio chrome a.
Proof.
  destruct (copy_audio_sound hevc_mkv) as (_ & a & Ha & Hf & _); [vm_compute; reflexivity|].
  exists a. split; [exact Ha|exact Hf].
Defined.

Lemma encode_sound_witness : exists v, sel_v dts_mkv = Some v /\ "h264" ∈ video_targets dts_mkv.
Proof.
  destruct (encode_sound dts_mkv) as (v & Hv & _ & Ht & _);
    [vm_compute; reflexivity|vm_compute; reflexivity|].
  exists v. split; [exact Hv|]. destruct Ht as [_ Ht]. vm_compute in Ht. exact Ht.
Defined.

Lemma encode_audio_sound_witness :
  exists a, sel_a dts_mkv = Some a /\ decodable "audio" (a_codec a) = true.
Proof.
  destruct (encode_audio_sound dts_mkv) as (a & Ha & Hd & _);
    [vm_compute; reflexivity|vm_compute; reflexivity|].
  exists a. split; [exact Ha|exact Hd].
Defined.

Lemma ts_only_h264_witness : v_codec <$> sel_v h264_mkv = Some "h264".
Proof.
  destruct (ts_only_h264 h264_mkv) as (H & _); [vm_compute; reflexivity|].
  apply H. vm_compute. reflexivity.
Defined.

Lemma direct_sound_witness : sp_cost (negotiate_for_executors_impl direct_mp4) = Direct.
Proof.
  destruct (direct_sound direct_mp4) as (_ & _ & _ & _ & H & _); [vm_compute; reflexivity|exact H].
Defined.

Lemma hdr10_never_raw_witness :
  rp_video (sp_plan (negotiate_for_executors_impl hdr10_mkv)) <> Copy.
Proof.
  refine (proj1 (proj2 (hdr10_never_raw hdr10_mkv (vs_hdr "hevc" "hdr10") _ _ _ _)));
    vm_compute; reflexivity.
Defined.

Lemma playable_plan_witness : playable (sp_plan (negotiate_for_executors_impl h264_mkv)) = true.
Proof.
  refine (proj1 (playable_plan h264_mkv _ _)); vm_compute; discriminate.
Defined.

Definition pgs_two : Request :=
  request chrome (media_subs "matroska" (Some (vs "h264")) (Some (au "aac" 2)) [sub "srt"; sub "pgs"])
    true false fleet.

Lemma burns_honest_witness :
  rp_video (sp_plan (negotiate_for_executors_impl pgs_two)) = Encode /\ burn_capable pgs_two = true.
Proof.
  destruct (proj1 (burns_honest pgs_two 1)) as (H & Hb & _); [vm_compute; reflexivity|].
  split; [exact H|exact Hb].
Defined.

(** A stereo client and a 5.1 DTS source: the encode is bounded by two. *)
Definition stereo_client : Request :=
  let p := client ["h264"] ["aac"] Ignore in
  request {| containers := containers p; p_video := p_video p; p_audio := p_audio p;
             max_audio_channels := 2; max_height := None; max_fps := None; hdr := false;
             max_bandwidth_kbps := Some 4000; ass_render := false; graphics_overlay := false;
             vtt_render := true; target_duration := Ignore |}
    (media "matroska" (Some (vs "hevc")) (Some (au "dts" 6))) true false fleet.

Lemma plan_bounds_witness :
  (forall k, rp_video_kbps (sp_plan (negotiate_for_executors_impl stereo_client)) = Some k -> k <= 4000)
  /\ rp_audio (sp_plan (negotiate_for_executors_impl stereo_client)) = Encode.
Proof.
  destruct (plan_bounds stereo_client) as [Hk Hc]. split.
  - intros k Hk'. apply (proj2 (Hk k Hk')). reflexivity.
  - apply (proj1 (Hc 2 ltac:(vm_compute; reflexivity))).
Defined.
