(* ===== verification/DeliveryTheorems.v ===== *)
(** * Declared segment length, subtitle delivery and the forced encode

    The bound [EXT-X-TARGETDURATION] declares and the guarantee a [short]
    client gets, the styled-subtitle ladder, the honesty of subtitle verdicts,
    the forced-loudness wrapper, and the places where the code says more than
    it does. *)
From S2P Require Import Prelude Floats Media Loudness Probe Plan Ladder Negotiate Fixtures NegotiateFacts.
#[local] Open Scope Z_scope.

(** ** The declared target duration *)

(** RFC 8216 compares the duration rounded to the nearest second. *)
Definition nearest_secs (ms : Z) : Z := (ms + 500) / 1000.

Lemma declared_copy_value mode gap :
  mode <> Ignore -> in_range 32 gap ->
  declared_target_secs mode (Some gap) false = Z.max (nearest_secs (2000 + gap)) 2.
Proof.
  intros Hm Hg. unfold declared_target_secs, nearest_secs, in_range in *.
  assert (forall z, 0 <= z < 2 ^ 64 -> wrap 64 z = z) as W64.
  { intros z Hz. by apply wrap_small. }
  unfold FRAGMENT_TARGET_SECS, DEFAULT_TARGET_DURATION_SECS.
  rewrite (W64 (2 * 1000 + gap)) by lia. rewrite W64 by lia.
  rewrite wrap_small; [by destruct mode|].
  unfold in_range. pose proof (Z.div_lt_upper_bound (2 * 1000 + gap + 500) 1000 (2 ^ 32)).
  pose proof (Z.div_pos (2 * 1000 + gap + 500) 1000). lia.
Qed.

Lemma declared_encoded_le max_secs gap :
  declared_target_secs (Short max_secs) gap true <= Z.max 2 max_secs.
Proof. cbn [declared_target_secs]. unfold DEFAULT_TARGET_DURATION_SECS. lia. Qed.

(** For a client that wants the truth, a measured keyframe gap is declared
    without overflow as a bound no copied segment exceeds: a segment is at most
    the fragment target plus the gap, and its rounded length is at most the
    declared value, which is never below two seconds. *)
Theorem declared_bounds_segments mode gap segment_ms :
  mode <> Ignore -> in_range 32 gap -> segment_ms <= FRAGMENT_TARGET_SECS * 1000 + gap ->
  nearest_secs segment_ms <= declared_target_secs mode (Some gap) false
  /\ 2 <= declared_target_secs mode (Some gap) false.
Proof.
  intros Hm Hg Hs. rewrite declared_copy_value by done.
  unfold FRAGMENT_TARGET_SECS, nearest_secs in *. split; [|lia].
  etrans; [|apply Z.le_max_l]. apply Z.div_le_mono; lia.
Qed.

Lemma declared_bounds_segments_witness :
  nearest_secs 10580 <= declared_target_secs Accurate (Some 10430) false.
Proof.
  refine (proj1 (declared_bounds_segments Accurate 10430 10580 _ _ _));
    [discriminate|unfold in_range; lia|unfold FRAGMENT_TARGET_SECS; lia].
Defined.

Section Delivery.
Context {gst : GStreamer}.
Implicit Types r : Request.

(** A [short] client whose source has a deliverable picture is declared a
    target within its ceiling, or two seconds when the ceiling is one: either
    the copied segments fit, or the video is encoded with the code's own
    GOP. *)
Theorem short_guarantee r max_secs v :
  target_duration (profile r) = Short max_secs -> sel_v r = Some v ->
  rp_video (sp_plan (negotiate_for_executors_impl r)) <> Off ->
  sp_target_duration_secs (negotiate_for_executors_impl r) <= Z.max 2 max_secs.
Proof.
  simpl. intros Ht Hv Hoff. unfold final_video in *.
  destruct (short_override r) eqn:Hs.
  - rewrite bool_decide_true by done. rewrite Ht. apply declared_encoded_le.
  - destruct (cd_video (chosen r)) eqn:Hc; [| |done].
    + rewrite bool_decide_false by done. unfold short_override in Hs. rewrite Ht, Hc in Hs.
      cbn [ceiling_secs] in Hs. rewrite bool_decide_true in Hs by done. cbn [andb] in Hs.
      zbool. rewrite Ht. lia.
    + rewrite bool_decide_true by done. rewrite Ht. apply declared_encoded_le.
Qed.

(** ** Subtitle verdicts *)

(** One verdict per embedded subtitle stream, in order; for image and
    styled tracks the tier says "burned in" exactly for the track the plan
    burns, and OCR text or an overlay is claimed only for what the client and
    the caches provide. *)
Theorem subtitle_verdicts_honest r i s :
  subtitles (info r) !! i = Some s -> is_image (s_format s) || is_ass (s_format s) = true ->
  exists sv, sp_subtitles (negotiate_for_executors_impl r) !! i = Some sv
    /\ sv_index sv = i /\ sv_format sv = s_format s
    /\ (sv_tier sv = BurnTier <->
        (is_ass (s_format s) = true
         /\ rp_burn_ass (sp_plan (negotiate_for_executors_impl r)) = Some i)
        \/ (is_ass (s_format s) = false
            /\ rp_burn_subtitle (sp_plan (negotiate_for_executors_impl r)) = Some i))
    /\ (sv_tier sv = Ocr -> has_ocr (ocr_text r) i = true
                            /\ graphics_overlay (profile r) = false).
Proof.
  intros Hs Hk. exists (subtitle_verdict r i s).
  assert (Hl : sp_subtitles (negotiate_for_executors_impl r) !! i
               = Some (subtitle_verdict r i s)) by (simpl; by rewrite list_lookup_imap, Hs).
  split; [exact Hl|]. clear Hl Hs.
  unfold subtitle_verdict. destruct (subtitle_tier r i s) as [tier note] eqn:Ht.
  cbn [sv_index sv_format sv_tier]. split; [done|]. split; [done|].
  unfold subtitle_tier in Ht. change (sp_plan (negotiate_for_executors_impl r)) with (build_plan r).
  destruct (is_ass (s_format s)).
  - destruct (rp_burn_ass (build_plan r) ≟ Some i) eqn:Hb; bdec.
    { injection Ht as <- _. split; [|done]. split; [by left|done]. }
    repeat case_match; injection Ht as <- _; (split; [|done]);
      (split; [done|intros [[_ ?]|[? _]]; done]).
  - rewrite orb_false_r in Hk. rewrite Hk in Ht.
    destruct (rp_burn_subtitle (build_plan r) ≟ Some i) eqn:Hb; bdec.
    { injection Ht as <- _. split; [|done]. split; [by right|done]. }
    destruct (graphics_overlay (profile r));
      [|destruct (has_ocr (ocr_text r) i); [|destruct (is_some (burn_subtitle r))]];
      injection Ht as <- _; (split; [|done]);
      (split; [done|intros [[? _]|[_ ?]]; done]).
Qed.

(** ** The forced-loudness wrapper *)

(** Forcing an audio encode never changes what happens to the picture:
    the result is either the ordinary plan or one with the same video path
    (a copy where the ordinary plan was direct play) whose audio is encoded
    to a layout the loudness analysis measured. *)
Theorem force_preserves_video r :
  let normal := negotiate_for_executors_impl (with_force r false) in
  let result := negotiate_for_executors r in
  result = normal
  \/ (force_audio_encode r = true
      /\ rp_audio (sp_plan result) = Encode
      /\ is_Some (encoded_audio_layout (info r) (sp_plan result))
      /\ (sp_direct normal = false -> rp_video (sp_plan result) = rp_video (sp_plan normal))
      /\ (sp_direct normal = true ->
          rp_video (sp_plan result) = match video (info r) with [] => Off | _ => Copy end)).
Proof.
  unfold negotiate_for_executors. cbn zeta.
  destruct (force_audio_encode r); cbn [negb]; [|by left].
  set (n := negotiate_for_executors_impl (with_force r false)).
  set (f := negotiate_for_executors_impl (with_force r true)).
  destruct ((rp_audio (sp_plan f) ≟ Encode) && _ && _ && _) eqn:E; [|by left].
  right. apply andb_true_iff in E as [E _]. apply andb_true_iff in E as [E Hl].
  apply andb_true_iff in E as [Ha Hv]. apply bool_decide_eq_true in Ha.
  split_and!; [done|done|..].
  - by destruct (encoded_audio_layout _ _).
  - intros Hd. rewrite Hd in Hv. by apply bool_decide_eq_true in Hv.
  - intros Hd. rewrite Hd in Hv. destruct (video (info r)); by apply bool_decide_eq_true in Hv.
Qed.
End Delivery.

(** The stored fallback preference parses to a permutation of the three
    rungs whatever it says; the ladder then picks the first rung the client and
    the fleet permit, so a client that renders text or scripts is never left
    without one. *)
Theorem ladder_total value burn ready p :
  let ass := mkAssPolicy (parse_order value) burn ready in
  parse_order value ≡ₚ [Flatten; Overlay; Burn]
  /\ (ass_render p || vtt_render p = true -> is_Some (choose ass p))
  /\ (choose ass p = None <->
      ass_render p = false /\ vtt_render p = false /\ burn = false
      /\ graphics_overlay p && ready = false).
Proof.
  intros ass. pose proof (parse_order_perm value) as Hp. split; [done|].
  assert (Hnone : choose ass p = None <->
      ass_render p = false /\ vtt_render p = false /\ burn = false
      /\ graphics_overlay p && ready = false).
  { rewrite choose_None. split.
    - intros (Ha & Hv & H). split_and!; try done.
      + apply (H Burn). simpl. rewrite Hp. set_solver.
      + apply (H Overlay). simpl. rewrite Hp. set_solver.
    - intros (Ha & Hv & Hb & Ho). split_and!; try done. intros [] _; done. }
  split; [|exact Hnone]. intros H. apply not_eq_None_Some. intros E.
  apply Hnone in E as (Ha & Hv & _). by rewrite Ha, Hv in H.
Qed.

Lemma ladder_total_witness :
  parse_order "burn, overlay ,burn,native" = [Burn; Overlay; Flatten]
  /\ is_Some (choose (mkAssPolicy (parse_order "burn") true false) chrome).
Proof.
  split; [vm_compute; reflexivity|].
  refine (proj1 (proj2 (ladder_total "burn" true false chrome)) _). vm_compute. reflexivity.
Defined.

(** The hub rasterises an overlay only when the overlay rung would then be
    the one chosen: [overlay_reachable] holds exactly when readiness would make
    [choose] answer [Overlay]. *)
Theorem overlay_reachable_spec value burn ready p :
  overlay_reachable (mkAssPolicy (parse_order value) burn ready) p = true <->
  choose (mkAssPolicy (parse_order value) burn true) p = Some Overlay.
Proof.
  unfold overlay_reachable. simpl. split.
  - destruct (_ || _); [done|]. by rewrite bool_decide_eq_true.
  - intros H. rewrite H. unfold choose in H. destruct (ass_render p); [done|]. simpl.
    destruct (graphics_overlay p) eqn:Hg; simpl; [done|].
    exfalso. destruct (List.find _ _) as [t|] eqn:Hf; simpl in H.
    + injection H as ->. apply find_pred in Hf as [_ Hf]. simpl in Hf. by rewrite Hg in Hf.
    + by apply then_some_Some in H as [_ ?].
Qed.

(** ** Witnesses *)

Definition short_mkv : Request :=
  request (client ["h264"] ["aac"] (Short 6))
    (media "matroska" (Some (vs_gap "h264" (Some 10000))) (Some (au "aac" 2))) true false fleet.

Lemma short_guarantee_witness :
  rp_video (sp_plan (negotiate_for_executors_impl short_mkv)) = Encode
  /\ sp_target_duration_secs (negotiate_for_executors_impl short_mkv) <= 6.
Proof.
  split; [vm_compute; reflexivity|].
  apply (short_guarantee short_mkv 6 (vs_gap "h264" (Some 10000)));
    [reflexivity|vm_compute; reflexivity|vm_compute; discriminate].
Defined.

Definition pgs_mkv : Request :=
  request chrome (media_subs "matroska" (Some (vs "h264")) (Some (au "aac" 2)) [sub "srt"; sub "pgs"])
    true false fleet.

Lemma subtitle_verdicts_honest_witness :
  exists sv, sp_subtitles (negotiate_for_executors_impl pgs_mkv) !! 1%nat = Some sv
             /\ sv_tier sv = BurnTier.
Proof.
  destruct (subtitle_verdicts_honest pgs_mkv 1 (sub "pgs")) as (sv & Hl & _ & _ & Hb & _);
    [reflexivity|reflexivity|].
  exists sv. split; [exact Hl|]. apply Hb. right. split; vm_compute; reflexivity.
Defined.


(** ** Where the code promises more than it does *)

(** A plain text track of a client that renders no text is reported
    "burned in" whenever some executor can burn styled subtitles, although the
    plan burns neither it nor its index: the burns carry image and styled
    tracks only. *)
Theorem text_burn_claim_unplanned {gst : GStreamer} r i s :
  subtitles (info r) !! i = Some s ->
  is_image (s_format s) = false -> is_ass (s_format s) = false ->
  vtt_render (profile r) = false -> ass_burn_capable (ass r) = true ->
  let sp := negotiate_for_executors_impl r in
  sv_tier <$> sp_subtitles sp !! i = Some BurnTier
  /\ rp_burn_subtitle (sp_plan sp) <> Some i /\ rp_burn_ass (sp_plan sp) <> Some i.
Proof.
  intros Hs Hi Ha Hv Hc sp. split_and!.
  - subst sp. simpl. rewrite list_lookup_imap, Hs. simpl. unfold subtitle_verdict, subtitle_tier.
    by rewrite Ha, Hi, Hv, Hc.
  - subst sp. simpl. intros [H _]%opt_filter_Some.
    apply burn_subtitle_image in H as (_ & s' & Hs' & H & _). simplify_eq. congruence.
  - subst sp. simpl. intros [H _]%opt_filter_Some.
    apply burn_ass_track_spec in H as (_ & _ & s' & Hs' & H). simplify_eq. congruence.
Qed.

Definition srt_mkv : Request :=
  let p := client ["h264"] ["aac"] Ignore in
  mkRequest
    {| containers := containers p; p_video := p_video p; p_audio := p_audio p;
       max_audio_channels := 0; max_height := None; max_fps := None; hdr := false;
       max_bandwidth_kbps := None; ass_render := false; graphics_overlay := false;
       vtt_render := false; target_duration := Ignore |}
    (media_subs "matroska" (Some (vs "h264")) (Some (au "aac" 2)) [sub "srt"]) 0 0 true None false
    true [] None (mkAssPolicy (order ass_policy_default) true false) fleet fleet fleet false.

Lemma text_burn_claim_unplanned_witness :
  sv_tier <$> sp_subtitles (negotiate_for_executors_impl srt_mkv) !! 0%nat = Some BurnTier
  /\ rp_video (sp_plan (negotiate_for_executors_impl srt_mkv)) = Copy.
Proof.
  split; [|vm_compute; reflexivity].
  exact (proj1 (text_burn_claim_unplanned srt_mkv 0 (sub "srt") eq_refl eq_refl eq_refl eq_refl
                  eq_refl)).
Defined.

(** The [short] override consults neither the client's targets nor the
    fleet's: with no executor target at all it still answers a video encode. *)
Theorem short_override_unchecked :
  exists r, video_targets r = [] /\ full_audio_targets r = [] /\ local_audio_targets r = []
    /\ rp_video (sp_plan (negotiate_for_executors_impl r)) = Encode
    /\ sp_cost (negotiate_for_executors_impl r) = VideoEncode.
Proof.
  exists (request (client ["h264"] ["aac"] (Short 6))
    (media "matroska" (Some (vs_gap "h264" (Some 10000))) (Some (au "aac" 2))) true false []).
  vm_compute. repeat split; reflexivity.
Qed.

(** A direct play can be reported incomplete, although nothing is
    dropped: [incomplete] reads the container candidate the direct play does
    not use. *)
Theorem direct_incomplete :
  exists r, sp_direct (negotiate_for_executors_impl r) = true
    /\ sp_cost (negotiate_for_executors_impl r) = Direct
    /\ sp_incomplete (negotiate_for_executors_impl r) = true.
Proof.
  exists (request (client ["vp8"] ["opus"] Ignore)
    (media "webm" (Some (vs "vp8")) (Some (au "opus" 2))) true false []).
  vm_compute. repeat split; reflexivity.
Qed.
