(* ===== verification/Bench.v ===== *)
(** * Measured encode speed (kahawai-media, src/bench.rs)

    The benchmark cache of one box: which capabilities are measured, which are
    quarantined after a crash, and which jobs are still to run. The pipelines
    that take a measurement, the clock, the installed GStreamer version and
    whether a write reaches the disk are parameters; the cache file is the
    value it decodes to. *)
From S2P Require Import Prelude Floats Media Loudness Probe.
#[local] Open Scope Z_scope.

Definition REFERENCE_FPS : float := F32.lit 24 0.
Definition SKIP_2160_BELOW : float := F32.lit 1 0.
Definition BENCH_CACHE_VERSION : Z := 2.
Definition TONEMAP_JOB_KEY : string := "@tonemap".
(** [1.0 / (5.0 * REFERENCE_FPS)]. *)
Definition SPEED_FLOOR : float := F32.div (F32.lit 1 0) (F32.mul (F32.lit 5 0) REFERENCE_FPS).

(** Realtime multiples at the two resolutions that matter. *)
Record Speeds := mkSpeeds { s1080 : option float; s2160 : option float }.

Definition speeds_at (s : Speeds) (height : Z) : option float :=
  if 1080 <? height then s2160 s else s1080 s.

(** Both buckets measured, positive and finite. *)
Definition complete (s : Speeds) : bool :=
  forallb (is_some_and (fun v => fgt v fzero && is_finite v)) [s1080 s; s2160 s].

Record BenchResults := mkBenchResults {
  cache_version : Z;
  gst : string;
  encoders : gmap string Speeds;
  tonemap : option Speeds;
  crashes : gmap string Z;
}.

(** [BenchResults { gst: gst_version(), ..Default::default() }]. *)
Definition fresh (version : string) : BenchResults :=
  mkBenchResults BENCH_CACHE_VERSION version ∅ None ∅.

Definition quarantined (r : BenchResults) (key : string) : bool := is_some (crashes r !! key).
Definition encoder_ready (r : BenchResults) (element : string) : bool :=
  is_some_and complete (encoders r !! element) && negb (quarantined r element).
Definition tonemap_ready (r : BenchResults) : bool :=
  is_some_and complete (tonemap r) && negb (quarantined r TONEMAP_JOB_KEY).

Definition with_encoders (r : BenchResults) (e : gmap string Speeds) : BenchResults :=
  mkBenchResults (cache_version r) (gst r) e (tonemap r) (crashes r).
Definition with_tonemap (r : BenchResults) (t : option Speeds) : BenchResults :=
  mkBenchResults (cache_version r) (gst r) (encoders r) t (crashes r).
Definition with_crashes (r : BenchResults) (c : gmap string Z) : BenchResults :=
  mkBenchResults (cache_version r) (gst r) (encoders r) (tonemap r) c.

Definition quarantine (now : Z) (r : BenchResults) (key : string) : BenchResults :=
  with_crashes r (<[key := now]> (crashes r)).
Definition clear_quarantine (r : BenchResults) (key : string) : BenchResults :=
  with_crashes r (delete key (crashes r)).

(** ** Jobs *)

Inductive BenchmarkJob := ToneMap | Encoder (element : string).
#[global] Instance BenchmarkJob_eq_dec : EqDecision BenchmarkJob.
Proof. solve_decision. Defined.

Definition job_args (j : BenchmarkJob) : list string :=
  match j with ToneMap => ["--tonemap"] | Encoder e => ["--only"; e] end.
Definition job_key (j : BenchmarkJob) : string :=
  match j with ToneMap => TONEMAP_JOB_KEY | Encoder e => e end.

Definition needed (j : BenchmarkJob) (cache : BenchResults) : bool :=
  if quarantined cache (job_key j) then false
  else match j with
       | ToneMap => negb (tonemap_ready cache)
       | Encoder e => negb (encoder_ready cache e)
       end.

Definition benchmark_jobs_for (elements : list string) (cached : option BenchResults) : list BenchmarkJob :=
  let offered := ToneMap :: map Encoder elements in
  match cached with
  | Some cache => List.filter (fun j => needed j cache) offered
  | None => offered
  end.

(** The encoders the probe verified, one per codec. *)
Definition benchmark_jobs {G : GStreamer} (cached : option BenchResults) : list BenchmarkJob :=
  benchmark_jobs_for (omap id [h264_encoder; hevc_encoder; av1_encoder]) cached.

(** ** Timing *)

(** A [Duration]: whole seconds and the nanoseconds below one. *)
Record Duration := mkDuration { d_secs : Z; d_nanos : Z }.
Definition is_zero (d : Duration) : bool := (d_secs d =? 0) && (d_nanos d =? 0).
Definition as_secs_f32 (d : Duration) : float :=
  F32.add (F32.of_int (d_secs d)) (F32.div (F32.of_int (d_nanos d)) (F32.of_int 1000000000)).

Definition speed (frames : Z) (wall : Duration) (ran : bool) : option float :=
  if (frames <? 2) || is_zero wall then then_some (ran && (1 <=? frames)) SPEED_FLOOR
  else Some (F32.div (F32.div (F32.of_int (frames - 1)) (as_secs_f32 wall)) REFERENCE_FPS).

(** ** The cache *)

(** The decoded cache file, and how many writes were attempted so far. *)
Record Disk := mkDisk { d_file : option BenchResults; d_writes : nat }.

Definition merge_encoder_measurement (out : BenchResults) (element : string) (measured : Speeds)
    : BenchResults :=
  if complete measured then
    let out := clear_quarantine out element in
    with_encoders out (<[element := measured]> (encoders out))
  else with_encoders out (delete element (encoders out)).

Definition merge_tonemap_measurement (out : BenchResults) (measured : Speeds) : BenchResults :=
  if complete measured then
    let out := clear_quarantine out TONEMAP_JOB_KEY in
    with_tonemap out (Some measured)
  else with_tonemap out None.

(** The two mutations [record_crash] makes before it stores. *)
Definition apply_crash (now : Z) (out : BenchResults) (job : BenchmarkJob) : BenchResults :=
  let out := quarantine now out (job_key job) in
  match job with
  | ToneMap => with_tonemap out None
  | Encoder e => with_encoders out (delete e (encoders out))
  end.

Section Cache.
(** [gst_version()], and whether the n-th write reaches the disk. *)
Context (gst_version : string) (write_ok : nat -> bool).

Definition store (d : Disk) (r : BenchResults) : Disk :=
  mkDisk (if write_ok (d_writes d) then Some r else d_file d) (S (d_writes d)).

Definition load (d : Disk) : option BenchResults * Disk :=
  match d_file d with
  | None => (None, d)
  | Some r =>
      if negb (gst r =s gst_version) || (BENCH_CACHE_VERSION <? cache_version r) then (None, d)
      else if cache_version r <? BENCH_CACHE_VERSION then
        let r := mkBenchResults BENCH_CACHE_VERSION (gst r) (encoders r) (tonemap r) ∅ in
        (Some r, store d r)
      else (Some r, d)
  end.

Definition load_or_fresh (d : Disk) : BenchResults * Disk :=
  let '(r, d) := load d in (unwrap_or r (fresh gst_version), d).

Definition record_crash (now : Z) (d : Disk) (job : BenchmarkJob) : Disk :=
  let '(out, d) := load_or_fresh d in
  store d (apply_crash now out job).

(** The pipelines: an encoder element at a height, the tone-map at a size. *)
Context (measure_encoder : string -> Z -> option float)
        (measure_tonemap : Z -> Z -> option float).

Definition measure_one (el : string) : Speeds :=
  let at_1080 := measure_encoder el 1080 in
  let at_2160 :=
    match at_1080 with
    | Some v =>
        if flt v SKIP_2160_BELOW then Some (F32.div v (F32.lit 4 0)) else measure_encoder el 2160
    | None => measure_encoder el 2160
    end in
  mkSpeeds at_1080 at_2160.

Definition tonemap_speeds : Speeds :=
  mkSpeeds (measure_tonemap 1920 1080) (measure_tonemap 3840 2160).

Definition measure_step (acc : BenchResults * Disk) (el : string) : BenchResults * Disk :=
  let '(out, d) := acc in
  let out := merge_encoder_measurement out el (measure_one el) in
  (out, store d out).

Definition measure_into (init_ok : bool) (elements : list string) (tone : bool) (d : Disk)
    : BenchResults * Disk :=
  let '(out, d) := load_or_fresh d in
  if negb init_ok then (out, d)
  else
    let '(out, d) :=
      if tone then
        let out := merge_tonemap_measurement out tonemap_speeds in (out, store d out)
      else (out, d) in
    fold_left measure_step elements (out, d).

(** [measure]: in memory, encoders first. *)
Definition measure (init_ok : bool) (elements : list string) (tone : bool) : BenchResults :=
  let out := fresh gst_version in
  if negb init_ok then out
  else
    let out := fold_left (fun out el => merge_encoder_measurement out el (measure_one el))
                 elements out in
    if tone then merge_tonemap_measurement out tonemap_speeds else out.
End Cache.

(** ** What the cache guarantees *)

(** Stored means complete, and nothing is both stored and quarantined. *)
Definition cache_wf (r : BenchResults) : Prop :=
  (forall e s, encoders r !! e = Some s -> complete s = true /\ crashes r !! e = None)
  /\ (forall s, tonemap r = Some s -> complete s = true /\ crashes r !! TONEMAP_JOB_KEY = None).

Definition disk_wf (d : Disk) : Prop := from_option cache_wf True (d_file d).

(** GStreamer element names hold letters, digits, [-] and [_] only. *)
Definition job_named (j : BenchmarkJob) : Prop :=
  match j with ToneMap => True | Encoder e => e <> TONEMAP_JOB_KEY end.

Lemma fresh_wf v : cache_wf (fresh v).
Proof. split; [|done]. intros e s H. simpl in H. by rewrite lookup_empty in H. Qed.

Lemma merge_encoder_wf r e s :
  e <> TONEMAP_JOB_KEY -> cache_wf r -> cache_wf (merge_encoder_measurement r e s).
Proof.
  intros He [H1 H2]. unfold merge_encoder_measurement. destruct (complete s) eqn:Hc; split; simpl.
  - intros e' s'. destruct (decide (e = e')) as [->|Hn].
    + rewrite lookup_insert_eq, lookup_delete_eq. by intros [= <-].
    + rewrite lookup_insert_ne, lookup_delete_ne by done. apply H1.
  - intros s' Hs. rewrite lookup_delete_ne by done. by apply H2.
  - intros e' s' [_ H]%lookup_delete_Some. by apply H1.
  - exact H2.
Qed.

Lemma merge_tonemap_wf r s :
  (forall e, is_Some (encoders r !! e) -> e <> TONEMAP_JOB_KEY) ->
  cache_wf r -> cache_wf (merge_tonemap_measurement r s).
Proof.
  intros Hk [H1 H2]. unfold merge_tonemap_measurement. destruct (complete s) eqn:Hc; split; simpl.
  - intros e s' Hs. rewrite lookup_delete_ne by (symmetry; apply Hk; eauto). by apply H1.
  - intros s' [= <-]. by rewrite lookup_delete_eq.
  - exact H1.
  - done.
Qed.

(** No encoder entry sits under the tone-map's key. *)
Definition keys_wf (r : BenchResults) : Prop := encoders r !! TONEMAP_JOB_KEY = None.

Definition good (r : BenchResults) : Prop := cache_wf r /\ keys_wf r.

Lemma apply_crash_good now r j : job_named j -> good r -> good (apply_crash now r j).
Proof.
  intros Hj [[H1 H2] Hk]. destruct j as [|e]; (split; [split|]); simpl in *.
  - intros e s Hs. destruct (decide (TONEMAP_JOB_KEY = e)) as [<-|Hn].
    + unfold keys_wf in Hk. congruence.
    + rewrite lookup_insert_ne by done. by apply H1.
  - done.
  - done.
  - intros e' s [Hn Hs]%lookup_delete_Some. rewrite lookup_insert_ne by done. by apply H1.
  - intros s Hs. rewrite lookup_insert_ne by done. by apply H2.
  - unfold keys_wf in *. simpl. by rewrite lookup_delete_ne.
Qed.

Lemma merge_encoder_good r e s :
  e <> TONEMAP_JOB_KEY -> good r -> good (merge_encoder_measurement r e s).
Proof.
  intros He [Hw Hk]. split; [by apply merge_encoder_wf|].
  unfold keys_wf, merge_encoder_measurement in *.
  destruct (complete s); simpl; [by rewrite lookup_insert_ne|by rewrite lookup_delete_ne].
Qed.

Lemma merge_tonemap_good r s : good r -> good (merge_tonemap_measurement r s).
Proof.
  intros [Hw Hk]. split.
  - apply merge_tonemap_wf; [|done]. intros e [x Hx] ->. unfold keys_wf in Hk. congruence.
  - unfold keys_wf, merge_tonemap_measurement in *. by destruct (complete s).
Qed.

Lemma fresh_good v : good (fresh v).
Proof. split; [apply fresh_wf|]. unfold keys_wf. simpl. apply lookup_empty. Qed.

Lemma needed_spec j r :
  needed j r = true <->
  quarantined r (job_key j) = false
  /\ match j with ToneMap => tonemap_ready r = false | Encoder e => encoder_ready r e = false end.
Proof. unfold needed. destruct (quarantined _ _), j; rewrite ?negb_true_iff; intuition congruence. Qed.

Section Steps.
Context (gst_version : string) (write_ok : nat -> bool).

(** What can happen to one box's cache: a supervisor records a crash, a
    child merges what it measured (any outcome of any pipeline), or a load
    migrates it. *)
Inductive step : Disk -> Disk -> Prop :=
| step_crash now d j :
    job_named j -> step d (record_crash gst_version write_ok now d j)
| step_measure me mt ok els tone d :
    Forall (fun e => e <> TONEMAP_JOB_KEY) els ->
    step d (snd (measure_into gst_version write_ok me mt ok els tone d))
| step_load d : step d (snd (load gst_version write_ok d)).

Definition disk_good (d : Disk) : Prop := from_option good True (d_file d).

Lemma store_good d r : disk_good d -> good r -> disk_good (store write_ok d r).
Proof. unfold disk_good, store. simpl. by destruct (write_ok _). Qed.

Lemma load_good d :
  disk_good d ->
  from_option good True (fst (load gst_version write_ok d))
  /\ disk_good (snd (load gst_version write_ok d)).
Proof.
  unfold load. intros Hd. destruct (d_file d) as [r|] eqn:Hf; [|done].
  assert (good r) as Hr by (unfold disk_good in Hd; by rewrite Hf in Hd).
  destruct (_ || _); [done|]. destruct (_ <? _); [|done]. simpl.
  assert (good (mkBenchResults BENCH_CACHE_VERSION (gst r) (encoders r) (tonemap r) ∅)).
  { destruct Hr as [[H1 H2] Hk]. split; [split|done]; simpl.
    - intros e s Hs. split; [by eapply H1|apply lookup_empty].
    - intros s Hs. split; [by eapply H2|apply lookup_empty]. }
  split; [done|by apply store_good].
Qed.

Lemma load_or_fresh_good d out d' :
  disk_good d -> load_or_fresh gst_version write_ok d = (out, d') -> good out /\ disk_good d'.
Proof.
  intros Hd. unfold load_or_fresh. pose proof (load_good d Hd) as [H1 H2].
  destruct (load gst_version write_ok d) as [r d2]. intros [= <- <-]. split; [|done].
  destruct r; [done|apply fresh_good].
Qed.

Lemma measure_fold_good me els out d :
  Forall (fun e => e <> TONEMAP_JOB_KEY) els -> good out -> disk_good d ->
  let '(out', d') := fold_left (measure_step write_ok me) els (out, d) in
  good out' /\ disk_good d'.
Proof.
  intros H. revert out d. induction H as [|e els He _ IH]; intros out d Ho Hd; simpl; [done|].
  apply IH; [by apply merge_encoder_good|]. by apply store_good; [|apply merge_encoder_good].
Qed.

(** C26: every cache the program can write keeps its invariant: an entry is
    stored only when both resolutions were measured, a quarantined capability
    has no entry, and no encoder sits under the tone-map's key, whatever the
    pipelines answer and whichever writes fail. *)
Theorem cache_invariant d d' : rtc step d d' -> disk_good d -> disk_good d'.
Proof.
  induction 1 as [|d1 d2 d3 Hs _ IH]; [done|]. intros Hd. apply IH. clear IH.
  destruct Hs as [now d j Hj|me mt ok els tone d Hels|d].
  - unfold record_crash. destruct (load_or_fresh _ _ d) as [out d'] eqn:E.
    apply load_or_fresh_good in E as [Ho Hd']; [|done].
    by apply store_good; [|apply apply_crash_good].
  - unfold measure_into. destruct (load_or_fresh _ _ d) as [out d'] eqn:E.
    apply load_or_fresh_good in E as [Ho Hd']; [|done]. destruct ok; [|done]. cbn [negb].
    assert (good (merge_tonemap_measurement out (tonemap_speeds mt))) by (by apply merge_tonemap_good).
    assert (exists o1 d1, (if tone then (merge_tonemap_measurement out (tonemap_speeds mt),
               store write_ok d' (merge_tonemap_measurement out (tonemap_speeds mt)))
             else (out, d')) = (o1, d1) /\ good o1 /\ disk_good d1) as (o1 & d1 & -> & H1 & H2).
    { destruct tone; eexists _, _; split; try done. split; [done|by apply store_good]. }
    pose proof (measure_fold_good me els o1 d1 Hels H1 H2) as H3.
    destruct (fold_left _ els (o1, d1)) as [o3 d3']. apply H3.
  - by apply load_good.
Qed.
End Steps.

(** A cache entry is served exactly when it is stored. *)
Lemma good_ready r e : good r -> encoder_ready r e = is_some (encoders r !! e).
Proof.
  intros [[H _] _]. unfold encoder_ready, quarantined.
  destruct (encoders r !! e) as [s|] eqn:E; [|done]. simpl. by destruct (H e s E) as [-> ->].
Qed.

Lemma benchmark_jobs_elem els r j :
  j ∈ benchmark_jobs_for els (Some r) <->
  (j = ToneMap \/ exists e, j = Encoder e /\ e ∈ els) /\ needed j r = true.
Proof.
  unfold benchmark_jobs_for. rewrite elem_of_filter_bool, elem_of_cons.
  assert (j ∈ map Encoder els <-> exists e, j = Encoder e /\ e ∈ els) as ->; [|done].
  rewrite list_elem_of_In, in_map_iff. setoid_rewrite <- list_elem_of_In.
  split; intros (e & ? & ?); eauto.
Qed.

Lemma needed_ext j r r' :
  crashes r' !! job_key j = crashes r !! job_key j ->
  match j with ToneMap => tonemap r' = tonemap r | Encoder e => encoders r' !! e = encoders r !! e end ->
  needed j r' = needed j r.
Proof.
  intros Hc Hm. unfold needed, quarantined, tonemap_ready, encoder_ready, quarantined.
  destruct j; simpl in *; by rewrite Hc, Hm.
Qed.

Lemma crash_needed now r j j' :
  job_named j -> job_named j' ->
  needed j' (apply_crash now r j) = if decide (j' = j) then false else needed j' r.
Proof.
  intros Hj Hj'. destruct (decide (j' = j)) as [->|Hn].
  - unfold needed, quarantined, apply_crash. by destruct j; simpl; rewrite lookup_insert_eq.
  - apply needed_ext; destruct j as [|e], j' as [|e']; simpl in *; try done;
      rewrite ?lookup_insert_ne, ?lookup_delete_ne by congruence; done.
Qed.

Lemma measured_needed r e s j :
  complete s = true -> e <> TONEMAP_JOB_KEY ->
  needed j (merge_encoder_measurement r e s) = if decide (j = Encoder e) then false else needed j r.
Proof.
  intros Hs He. unfold merge_encoder_measurement. rewrite Hs. destruct (decide (j = Encoder e)) as [->|Hn].
  - unfold needed, quarantined, encoder_ready, quarantined. simpl.
    rewrite lookup_delete_eq, lookup_insert_eq. simpl. by rewrite Hs.
  - apply needed_ext; destruct j as [|e']; simpl; try done;
      rewrite ?lookup_insert_ne, ?lookup_delete_ne by congruence; done.
Qed.

Section Progress.
Context (gst_version : string) (write_ok : nat -> bool).
Hypothesis writes : forall n, write_ok n = true.

Lemma load_store d r :
  gst r = gst_version -> cache_version r = BENCH_CACHE_VERSION ->
  fst (load gst_version write_ok (store write_ok d r)) = Some r.
Proof.
  intros Hg Hv. unfold load, store. simpl. rewrite writes, Hg, Hv, String.eqb_refl. done.
Qed.

Lemma load_or_fresh_current d r d' :
  load_or_fresh gst_version write_ok d = (r, d') ->
  gst r = gst_version /\ cache_version r = BENCH_CACHE_VERSION.
Proof.
  unfold load_or_fresh, load. destruct (d_file d) as [c|]; [|by intros [= <- _]].
  destruct (gst c =s gst_version) eqn:Hg; simpl; [|by intros [= <- _]].
  apply String.eqb_eq in Hg.
  destruct (Z.ltb_spec BENCH_CACHE_VERSION (cache_version c)); [by intros [= <- _]|].
  destruct (Z.ltb_spec (cache_version c) BENCH_CACHE_VERSION); intros [= <- _]; [done|].
  split; [done|]. lia.
Qed.

(** A crash the supervisor records settles its job and no other: the
    next start reads a cache in which the job is neither offered again nor
    served, and every other capability stands as it did. *)
Theorem crash_settles now d j els r :
  job_named j -> fst (load_or_fresh gst_version write_ok d) = r ->
  exists r', fst (load gst_version write_ok (record_crash gst_version write_ok now d j)) = Some r'
    /\ ~ (j ∈ benchmark_jobs_for els (Some r'))
    /\ quarantined r' (job_key j) = true
    /\ forall j', job_named j' -> j' <> j ->
         ((j' ∈ benchmark_jobs_for els (Some r')) <-> (j' ∈ benchmark_jobs_for els (Some r))).
Proof.
  intros Hj Hr. unfold record_crash.
  destruct (load_or_fresh gst_version write_ok d) as [out d'] eqn:E. simpl in Hr. subst out.
  apply load_or_fresh_current in E as [Hg Hv]. exists (apply_crash now r j). split_and!.
  - by apply load_store; destruct j.
  - rewrite benchmark_jobs_elem, crash_needed by done. rewrite decide_True by done. by intros [_ ?].
  - unfold quarantined. by destruct j; simpl; rewrite lookup_insert_eq.
  - intros j' Hj' Hn. rewrite !benchmark_jobs_elem, crash_needed by done.
    by rewrite decide_False by done.
Qed.

(** A complete measurement settles its job: the child that benchmarks one
    encoder leaves a cache in which that encoder is served, no longer offered
    and no longer quarantined, and every other job stands as it did; an
    incomplete one leaves the job to be retried unless it is quarantined. *)
Theorem measurement_settles me mt d el els r :
  el <> TONEMAP_JOB_KEY -> fst (load_or_fresh gst_version write_ok d) = r ->
  exists r', fst (load gst_version write_ok
                    (snd (measure_into gst_version write_ok me mt true [el] false d))) = Some r'
    /\ (complete (measure_one me el) = true ->
        encoder_ready r' el = true /\ ~ (Encoder el ∈ benchmark_jobs_for els (Some r'))
        /\ forall j, j <> Encoder el ->
             ((j ∈ benchmark_jobs_for els (Some r')) <-> (j ∈ benchmark_jobs_for els (Some r))))
    /\ (complete (measure_one me el) = false ->
        encoder_ready r' el = false
        /\ ((Encoder el ∈ benchmark_jobs_for els (Some r')) <->
            el ∈ els /\ quarantined r el = false)).
Proof.
  intros He Hr. unfold measure_into.
  destruct (load_or_fresh gst_version write_ok d) as [out d'] eqn:E. simpl in Hr. subst out.
  apply load_or_fresh_current in E as [Hg Hv]. cbn [negb fold_left measure_step snd].
  exists (merge_encoder_measurement r el (measure_one me el)). split_and!.
  - apply load_store; unfold merge_encoder_measurement; by destruct (complete _).
  - intros Hc. split_and!.
    + unfold merge_encoder_measurement, encoder_ready, quarantined. rewrite Hc. simpl.
      rewrite lookup_insert_eq, lookup_delete_eq. simpl. by rewrite Hc.
    + rewrite benchmark_jobs_elem, measured_needed by done.
      rewrite decide_True by done. by intros [_ ?].
    + intros j Hn. rewrite !benchmark_jobs_elem, measured_needed by done.
      by rewrite decide_False by done.
  - intros Hc. assert (encoder_ready (merge_encoder_measurement r el (measure_one me el)) el = false) as Hf.
    { unfold merge_encoder_measurement, encoder_ready. rewrite Hc. simpl. by rewrite lookup_delete_eq. }
    split; [done|]. rewrite benchmark_jobs_elem, needed_spec.
    unfold merge_encoder_measurement in *. rewrite Hc in *. simpl in *. unfold quarantined in *. simpl.
    split; [intros [[|(e & [= <-] & Hin)] [Hq _]]; done|]. intros [Hin Hq]. eauto 8.
Qed.
End Progress.

(** A run too short to time is the measured floor when the pipeline
    produced a buffer and unmeasured when it did not; from two buffers on a
    non-zero window there is always a number. *)
Theorem speed_measured frames wall ran :
  0 <= frames ->
  (speed frames wall ran = None <->
   (frames < 2 \/ is_zero wall = true) /\ (ran = false \/ frames = 0))
  /\ (frames < 2 -> speed frames wall ran = None \/ speed frames wall ran = Some SPEED_FLOOR)
  /\ complete (mkSpeeds (Some SPEED_FLOOR) (Some SPEED_FLOOR)) = true.
Proof.
  intros H. unfold speed. split; [|split; [|vm_compute; reflexivity]].
  - destruct (Z.ltb_spec frames 2) as [Hf|Hf], (is_zero wall) eqn:Hw; cbn [orb];
      [..|split; [done|intros [[?|?] _]; [lia|done]]];
      (destruct ran; cbn [andb]; [destruct (Z.leb_spec 1 frames)|]; cbn [then_some];
       (split; [intros ?; try done; split; auto; right; lia
               |intros [_ [?|?]]; try done; lia])).
  - intros Hf. rewrite (proj2 (Z.ltb_lt _ _) Hf). cbn [orb]. destruct (_ && _); auto.
Qed.

(** ** Witnesses *)

Definition always (_ : nat) : bool := true.
Definition two_x (_ : string) (_ : Z) : option float := Some (F32.lit 2 0).
Definition no_tonemap (_ _ : Z) : option float := None.
Definition empty_disk : Disk := mkDisk None 0.

Lemma cache_invariant_witness :
  disk_good (record_crash "1.26" always 7
               (snd (measure_into "1.26" always two_x no_tonemap true ["x264enc"] true empty_disk))
               (Encoder "x264enc")).
Proof.
  refine (cache_invariant "1.26" always empty_disk _ _ _); [|exact I].
  eapply rtc_l.
  { apply (step_measure "1.26" always two_x no_tonemap true ["x264enc"] true empty_disk).
    repeat constructor. discriminate. }
  apply rtc_once. apply step_crash. discriminate.
Defined.

Lemma crash_settles_witness :
  exists r', fst (load "1.26" always (record_crash "1.26" always 7 empty_disk (Encoder "svtav1enc")))
             = Some r'
    /\ quarantined r' "svtav1enc" = true.
Proof.
  destruct (crash_settles "1.26" always (fun _ => eq_refl) 7 empty_disk (Encoder "svtav1enc") []
              (fresh "1.26")) as (r' & Hl & _ & Hq & _); [discriminate|reflexivity|].
  exists r'. split; [exact Hl|exact Hq].
Defined.

Lemma measurement_settles_witness :
  exists r', fst (load "1.26" always
                    (snd (measure_into "1.26" always two_x no_tonemap true ["x264enc"] false empty_disk)))
             = Some r'
    /\ encoder_ready r' "x264enc" = true.
Proof.
  destruct (measurement_settles "1.26" always (fun _ => eq_refl) two_x no_tonemap empty_disk
              "x264enc" [] (fresh "1.26")) as (r' & Hl & Hc & _); [discriminate|reflexivity|].
  exists r'. split; [exact Hl|]. apply Hc. vm_compute. reflexivity.
Defined.

Lemma speed_measured_witness :
  speed 1 (mkDuration 5 0) true = Some SPEED_FLOOR \/ speed 1 (mkDuration 5 0) true = None.
Proof.
  destruct (proj1 (proj2 (speed_measured 1 (mkDuration 5 0) true ltac:(lia))) ltac:(lia));
    [right|left]; assumption.
Defined.
