(* ===== verification/Placement.v ===== *)
(** * Placement (kahawai-playback, src/placement.rs; kahawai-proto, src/lib.rs)

    Which executor takes a session, and how fast that is expected to go: the
    work-class key, the pace average, the ranking of the fleet, the predictions
    and the decision. Maps of the source are finite maps; a [HashMap]'s
    iteration order is a parameter of [rank_of], a [BTreeMap] is read in key
    order. *)
From S2P Require Import Prelude Floats Bench.
#[local] Open Scope Z_scope.

(** ** Protocol features (kahawai-proto) *)

Inductive ProtocolFeature :=
| SegmentDetection
| AudioLoudnessScalars
| ExactAudioLoudnessGains
| AudioLoudnessAnalysis
| RetryableSegmentResults
| DiscoveryPriorityHints
| DeepRescan
| RevisionedSubtitles
| ImageSubsWorklists
| ReadinessRunway
| VideoBitDepth.
#[global] Instance ProtocolFeature_eq_dec : EqDecision ProtocolFeature.
Proof. solve_decision. Defined.

Definition PROTOCOL_MINOR : Z := 6.

Definition minimum_minor (f : ProtocolFeature) : Z :=
  match f with
  | DiscoveryPriorityHints => 1
  | DeepRescan => 2
  | RevisionedSubtitles => 3
  | ImageSubsWorklists => 4
  | ReadinessRunway => 5
  | VideoBitDepth => 6
  | _ => 0
  end.

(** [ProtocolFeatures]: the peer's minor version. *)
Definition supports (minor : Z) (f : ProtocolFeature) : bool := minimum_minor f <=? minor.

(** ** Keys and averages *)

Definition ALPHA : float := F64.lit 3 (-1).
Definition LOCAL : string := "local".
Definition SUSTAINS : float := F32.lit 12 (-1).

Definition work_class (height : Z) (src_codec dst_codec : string) (tone_map : bool) : string :=
  (if 1080 <? height then "2160" else "1080") +:+ "|" +:+ src_codec +:+ "|" +:+ dst_codec
  +:+ (if tone_map then "|tm" else "").

Definition blend (prev : option float) (sample : float) : float :=
  match prev with
  | Some prev => F64.add (F64.mul ALPHA sample) (F64.mul (F64.sub (F64.of_int 1) ALPHA) prev)
  | None => sample
  end.

Definition sustains (predicted : option float) : bool := is_none_or (fun p => fge p SUSTAINS) predicted.

Definition element_encodes (element codec : string) : bool :=
  let element := to_ascii_lowercase element in
  if codec =s "h264" then str_contains "264" element
  else if codec =s "hevc" then str_contains "265" element || str_contains "hevc" element
  else if codec =s "av1" then str_contains "av1" element
  else false.

(** ** The snapshot *)

Record PlacementNeed := mkNeed {
  encode_video : bool;
  encode_audio : bool;
  video_caps : list string;
  audio_caps : list string;
  needs_tonemap : bool;
  needs_ass_burn : bool;
  required_protocol_feature : option ProtocolFeature;
  need_video_codec : string;
  need_audio_codec : string;
  need_work_class : option string;
  source_kbps : option Z;
}.

Record Placement := mkPlacement {
  target : option string;
  available : bool;
  predicted : option float;
}.

Record EncoderSpeed := mkEncoderSpeed {
  es_codec : string;
  es_element : string;
  es_hardware : bool;
  speed_1080 : option float;
  speed_2160 : option float;
}.

Record BoxCaps := mkBoxCaps {
  bc_encoders : list EncoderSpeed;
  max_sessions : Z;
  decode_caps : list string;
  bc_tonemap : bool;
  bc_ass_burn : bool;
  tonemap_speed_1080 : option float;
  tonemap_speed_2160 : option float;
}.

Record BoxSnapshot := mkBox {
  box_caps : BoxCaps;
  protocol : Z;
  box_load : nat;
  disabled : bool;
  link_rate : option Z;
}.

Record FleetSnapshot := mkFleet {
  boxes : gmap string BoxSnapshot;
  pace : gmap (string * string) float;
  local_bench : option BenchResults;
  local_video_executor_enabled : bool;
}.

Definition pace_of (f : FleetSnapshot) (module_id class : string) : option float :=
  pace f !! (module_id, class).

(** ** Predictions *)

Definition is_2160 (n : PlacementNeed) : bool :=
  is_some_and (starts_with "2160|") (need_work_class n).

Definition slowest (terms : list float) : option float :=
  fold_left (fun acc v => Some (map_or v (fun a => fmin a v) acc)) terms None.
Definition fastest (terms : list float) : option float :=
  fold_left (fun acc v => Some (map_or v (fun a => fmax a v) acc)) terms None.

(** 0 on the wire is unmeasured. *)
Definition pos (v : float) : option float := then_some (fgt v fzero) v.

(** An empty need takes any codec. *)
Definition codec_wanted (wanted codec : string) : bool := (wanted =s "") || (codec =s wanted).

Definition observed (f : FleetSnapshot) (id : string) (n : PlacementNeed) : option float :=
  class ← need_work_class n; F32.of_f64 <$> pace_of f id class.

Definition encoder_term (caps : BoxCaps) (n : PlacementNeed) : option float :=
  fastest (omap (fun e => (if is_2160 n then speed_2160 e else speed_1080 e) ≫= pos)
             (List.filter (fun e => codec_wanted (need_video_codec n) (es_codec e))
                (bc_encoders caps))).

Definition tonemap_term (caps : BoxCaps) (n : PlacementNeed) : option float :=
  if needs_tonemap n
  then (if is_2160 n then tonemap_speed_2160 caps else tonemap_speed_1080 caps) ≫= pos
  else None.

Definition link_term (b : BoxSnapshot) (n : PlacementNeed) : option float :=
  match source_kbps n, link_rate b with
  | Some kbps, Some bps =>
      then_some (0 <? kbps)
        (F32.div (F32.div (F32.mul (F32.of_int bps) (F32.lit 8 0)) (F32.lit 1000 0))
           (F32.of_int kbps))
  | _, _ => None
  end.

Definition fleet_terms (b : BoxSnapshot) (n : PlacementNeed) : list float :=
  option_list (encoder_term (box_caps b) n)
  ++ option_list (tonemap_term (box_caps b) n)
  ++ option_list (link_term b n).

Definition predict_fleet (f : FleetSnapshot) (id : string) (n : PlacementNeed) : option float :=
  match observed f id n with
  | Some p => Some p
  | None => b ← boxes f !! id; slowest (fleet_terms b n)
  end.

(** A [BTreeMap] iterates in the order of its keys' bytes. *)
Definition btree_iter {A} (m : gmap string A) : list (string * A) :=
  sort_by (fun a b => String.compare (fst a) (fst b)) (map_to_list m).

Definition local_encoder_term (bench : BenchResults) (n : PlacementNeed) : option float :=
  fastest
    (omap (fun '(_, s) => if is_2160 n then s2160 s else s1080 s)
       (List.filter (fun '(element, _) =>
            (need_video_codec n =s "") || element_encodes element (need_video_codec n))
          (List.filter (fun '(element, _) => encoder_ready bench element)
             (btree_iter (encoders bench))))).

Definition local_terms (bench : BenchResults) (n : PlacementNeed) : list float :=
  option_list (local_encoder_term bench n)
  ++ (if needs_tonemap n && tonemap_ready bench
      then option_list (tonemap bench ≫= fun s => if is_2160 n then s2160 s else s1080 s)
      else []).

Definition predict_local (f : FleetSnapshot) (n : PlacementNeed) : option float :=
  match observed f LOCAL n with
  | Some p => Some p
  | None => bench ← local_bench f; slowest (local_terms bench n)
  end.

(** ** The ranking *)

Record Ranked := mkRanked {
  cand_id : string;
  cand_sustains : bool;
  tonemap_fit : bool;
  hardware : bool;
  cand_predicted : option float;
  cand_load : nat;
}.

Definition has_codec (caps : BoxCaps) (codec : string) : bool :=
  existsb (fun e => es_codec e =s codec) (bc_encoders caps).

(** The plan's target, or any encoder of the kind when it names none. *)
Definition encodes_kind (caps : BoxCaps) (any : list string) (codec : string) : bool :=
  if codec =s "" then existsb (has_codec caps) any else has_codec caps codec.

Definition can (caps : BoxCaps) (wanted : list string) : bool :=
  match decode_caps caps with
  | [] => true
  | have => existsb (fun w => str_mem w have) wanted
  end.

(** The body of [filter_map]: [None] on each of its early returns. *)
Definition candidate_of (f : FleetSnapshot) (n : PlacementNeed) (id : string) (b : BoxSnapshot)
    : option Ranked :=
  let caps := box_caps b in
  if (encode_video n && negb (encodes_kind caps ["h264"; "hevc"; "av1"] (need_video_codec n)))
     || (encode_audio n && negb (encodes_kind caps ["aac"; "opus"] (need_audio_codec n)))
  then None
  else if (encode_video n && negb (can caps (video_caps n)))
          || (encode_audio n && negb (can caps (audio_caps n)))
  then None
  else if (0 <? max_sessions caps) && (max_sessions caps <=? Z.of_nat (box_load b)) then None
  else if is_some_and (fun feature => negb (supports (protocol b) feature))
            (required_protocol_feature n)
  then None
  else if needs_ass_burn n && negb (bc_ass_burn caps) then None
  else
    let predicted := predict_fleet f id n in
    Some {| cand_id := id;
            cand_sustains := sustains predicted;
            tonemap_fit := negb (needs_tonemap n) || bc_tonemap caps;
            hardware := existsb (fun e => es_hardware e && codec_wanted (need_video_codec n) (es_codec e))
                          (bc_encoders caps);
            cand_predicted := predicted;
            cand_load := box_load b |}.

(** [rank(b.predicted).partial_cmp(&rank(a.predicted)).unwrap_or(Equal)]. *)
Definition pred_rank (p : option float) : float := unwrap_or p SUSTAINS.
Definition pred_cmp (a b : Ranked) : comparison :=
  unwrap_or (partial_cmp (pred_rank (cand_predicted b)) (pred_rank (cand_predicted a))) Eq.

Definition rank_cmp (a b : Ranked) : comparison :=
  cmp_then (bool_cmp (cand_sustains b) (cand_sustains a))
    (cmp_then (bool_cmp (tonemap_fit b) (tonemap_fit a))
       (cmp_then (bool_cmp (hardware b) (hardware a))
          (cmp_then (pred_cmp a b)
             (cmp_then (Nat.compare (cand_load a) (cand_load b))
                (String.compare (cand_id a) (cand_id b)))))).

Definition eligible_in (f : FleetSnapshot) (n : PlacementNeed) (iteration : list (string * BoxSnapshot))
    : list Ranked :=
  omap (fun '(id, b) => candidate_of f n id b)
    (List.filter (fun '(_, b) => negb (disabled b)) iteration).

(** [rank], for one iteration order of the [HashMap]. *)
Definition rank_of (f : FleetSnapshot) (n : PlacementNeed) (iteration : list (string * BoxSnapshot))
    : list Ranked :=
  sort_by rank_cmp (eligible_in f n iteration).
Definition rank (f : FleetSnapshot) (n : PlacementNeed) : list Ranked :=
  rank_of f n (map_to_list (boxes f)).

Definition choose_box (f : FleetSnapshot) (n : PlacementNeed) : option string :=
  cand_id <$> head (rank f n).

(** ** The decision *)

Definition decide_placement (f : FleetSnapshot) (n : PlacementNeed) : Placement :=
  if negb (encode_video n) then mkPlacement None true None
  else
    let local_enabled := local_video_executor_enabled f in
    let local := if local_enabled then predict_local f n else None in
    match choose_box f n with
    | None => mkPlacement None local_enabled local
    | Some id =>
        let fleet_pred := predict_fleet f id n in
        if local_enabled && negb (sustains fleet_pred) && sustains local && is_some local
        then mkPlacement None true local
        else mkPlacement (Some id) true fleet_pred
    end.
