(* ===== verification/PlacementTheorems.v ===== *)
(** * What placement guarantees

    The ranking is a function of the fleet and not of a map's iteration order,
    a chosen box can do the work, work stays local only when it should, and
    predictions are never NaN and never above a measured component. *)
From S2P Require Import Prelude Floats Bench Placement.
#[local] Open Scope Z_scope.

#[local] Arguments slowest : simpl never.
#[local] Arguments fleet_terms : simpl never.

(** ** Predictions are numbers *)

(** What the hub's tables hold: paces are numbers, link rates are [u64] and
    bitrates [u32]. *)
Definition fleet_ok (f : FleetSnapshot) : Prop :=
  forall k v, pace f !! k = Some v -> is_nan v = false.
Definition need_ok (n : PlacementNeed) : Prop :=
  forall k, source_kbps n = Some k -> in_range 32 k.

Definition is_num (o : option float) : Prop := from_option (fun x => is_nan x = false) True o.

Lemma pos_num v x : pos v = Some x -> is_nan x = false.
Proof.
  unfold pos. intros [H ->]%then_some_Some. unfold fgt in H. apply flt_fle in H.
  by apply fle_nan in H as [_ H].
Qed.

Lemma fmax_num x y : is_nan x = false -> is_nan y = false -> is_nan (fmax x y) = false.
Proof. unfold fmax. intros Hx Hy. rewrite Hx, Hy. by destruct (flt x y). Qed.

Lemma fastest_num l : Forall (fun x => is_nan x = false) l -> is_num (fastest l).
Proof.
  intros H. unfold fastest. assert (is_num None) as Ha by done. revert Ha.
  generalize (@None float). induction H as [|x l Hx _ IH]; intros acc Ha; simpl; [done|].
  apply IH. destruct acc; simpl; [by apply fmax_num|done].
Qed.

Lemma slowest_fold l acc :
  Forall (fun x => is_nan x = false) l -> is_num acc ->
  match fold_left (fun acc v => Some (map_or v (fun a => fmin a v) acc)) l acc with
  | Some m => is_nan m = false /\ (m ∈ l \/ acc = Some m)
              /\ (forall x, x ∈ l -> fle m x = true)
              /\ (forall x, acc = Some x -> fle m x = true)
  | None => l = [] /\ acc = None
  end.
Proof.
  intros H. revert acc. induction H as [|x l Hx Hl IH]; intros acc Ha; simpl.
  - destruct acc as [m|]; [|done]. simpl in Ha. split_and!; [done|by right| |].
    + intros y Hy. by apply not_elem_of_nil in Hy.
    + intros y [= <-]. by apply fle_refl.
  - assert (is_nan (map_or x (fun a => fmin a x) acc) = false) as Hm.
    { destruct acc; simpl in *; [|done]. rewrite fmin_nan, Hx. by rewrite andb_false_r. }
    specialize (IH (Some (map_or x (fun a => fmin a x) acc)) Hm).
    destruct (fold_left _ l _) as [m|]; [|by destruct IH].
    destruct IH as (Hn & Hin & Hle & Hacc). specialize (Hacc _ eq_refl). split_and!; [done| | |].
    + destruct Hin as [Hin|[= Heq]]; [by left; right|]. destruct acc as [a|]; simpl in *.
      * unfold fmin in Heq. simpl in Ha. rewrite Ha, Hx in Heq.
        destruct (flt x a); subst; [left; left|by right].
      * subst. left. left.
    + intros y [->|Hy]%elem_of_cons; [|by apply Hle]. destruct acc as [a|]; simpl in *; [|done].
      eapply fle_trans; [exact Hacc|]. by apply fmin_le_r.
    + intros y [= ->]. simpl in *. eapply fle_trans; [exact Hacc|]. by apply fmin_le_l.
Qed.

(** The slowest term is one of the terms and is below all of them. *)
Lemma slowest_spec l :
  Forall (fun x => is_nan x = false) l ->
  match slowest l with
  | Some m => is_nan m = false /\ m ∈ l /\ forall x, x ∈ l -> fle m x = true
  | None => l = []
  end.
Proof.
  intros H. pose proof (slowest_fold l None H I) as S. unfold slowest.
  destruct (fold_left _ l None); [|tauto]. destruct S as (? & [?|?] & ? & _); [done|done].
Qed.

Lemma omap_forall {A B} (f : A -> option B) (P : B -> Prop) l :
  (forall a b, f a = Some b -> P b) -> Forall P (omap f l).
Proof.
  intros H. apply Forall_forall. intros b (a & _ & Hb)%list_elem_of_omap. eauto.
Qed.

Lemma encoder_term_num caps n : is_num (encoder_term caps n).
Proof.
  apply fastest_num, omap_forall. intros e x. destruct (if is_2160 n then _ else _); simpl; [|done].
  apply pos_num.
Qed.

Lemma tonemap_term_num caps n : is_num (tonemap_term caps n).
Proof.
  unfold tonemap_term. destruct (needs_tonemap n); [|done].
  destruct (if is_2160 n then _ else _) as [v|]; simpl; [|done].
  destruct (pos v) eqn:E; [|done]. by eapply pos_num.
Qed.

Lemma link_term_num b n : need_ok n -> is_num (link_term b n).
Proof.
  intros Hn. unfold link_term. destruct (source_kbps n) as [k|] eqn:Ek; [|done].
  destruct (link_rate b) as [r|]; [|done]. destruct (Z.ltb_spec 0 k); [|done]. simpl.
  apply div_not_nan; [|apply f32_of_u32_normal; [done|by apply Hn]].
  apply div_not_nan; [|by vm_compute]. apply mul_not_nan; [|by vm_compute].
  apply binary_normalize_not_nan.
Qed.

Lemma fleet_terms_num b n : need_ok n -> Forall (fun x => is_nan x = false) (fleet_terms b n).
Proof.
  intros Hn. pose proof (encoder_term_num (box_caps b) n). pose proof (tonemap_term_num (box_caps b) n).
  pose proof (link_term_num b n Hn). unfold fleet_terms.
  destruct (encoder_term _ _), (tonemap_term _ _), (link_term _ _); simpl in *; by repeat constructor.
Qed.

Lemma observed_num f id n : fleet_ok f -> is_num (observed f id n).
Proof.
  intros Hf. unfold observed, pace_of. destruct (need_work_class n) as [c|]; [|done]. simpl.
  destruct (pace f !! (id, c)) eqn:E; [|done]. simpl. apply round_to_not_nan. by eapply Hf.
Qed.

Lemma predict_fleet_num f id n : fleet_ok f -> need_ok n -> is_num (predict_fleet f id n).
Proof.
  intros Hf Hn. pose proof (observed_num f id n Hf) as Ho. unfold predict_fleet.
  destruct (observed f id n); [done|]. destruct (boxes f !! id) as [b|]; simpl; [|done].
  pose proof (slowest_spec _ (fleet_terms_num b n Hn)) as S. destruct (slowest _); [apply S|done].
Qed.

(** A satellite's prediction is the pace observed on exactly this work
    when there is one; otherwise it is the smallest of the encoder, tone-map
    and link terms that were measured, so a chain is never expected to beat its
    narrowest link, and it is absent exactly when nothing was measured. *)
Theorem predict_fleet_spec f id n b :
  need_ok n -> boxes f !! id = Some b ->
  (forall p, observed f id n = Some p -> predict_fleet f id n = Some p)
  /\ (observed f id n = None ->
      match predict_fleet f id n with
      | Some p => p ∈ fleet_terms b n /\ forall t, t ∈ fleet_terms b n -> fle p t = true
      | None => fleet_terms b n = []
      end).
Proof.
  intros Hn Hb. unfold predict_fleet. split; [by intros p ->|]. intros ->. rewrite Hb. simpl.
  pose proof (slowest_spec _ (fleet_terms_num b n Hn)) as S.
  destruct (slowest _); [apply S|done].
Qed.

(** ** The order of candidates *)

Definition ranked_ok (c : Ranked) : Prop := is_num (cand_predicted c).

Lemma pred_rank_num c : ranked_ok c -> is_nan (pred_rank (cand_predicted c)) = false.
Proof. unfold ranked_ok, pred_rank. by destruct (cand_predicted c). Qed.

Lemma key_cmp_ok : cmp_ok (fun _ => True) key_cmp.
Proof.
  split; [intros a b _ _; apply key_cmp_antisym|].
  intros x y z _ _ _. apply key_cmp_trans.
Qed.

Lemma pred_cmp_ok : cmp_ok ranked_ok pred_cmp.
Proof.
  apply (cmp_ok_ext _ (fun a b => key_cmp (fkey (pred_rank (cand_predicted b)))
                                          (fkey (pred_rank (cand_predicted a))))).
  - intros a b Ha Hb. unfold pred_cmp. by rewrite partial_cmp_key by by apply pred_rank_num.
  - apply cmp_ok_flip with (c := fun a b => key_cmp (fkey (pred_rank (cand_predicted a)))
                                             (fkey (pred_rank (cand_predicted b)))).
    by apply (cmp_ok_on _ (fun _ => True) (fun a => fkey (pred_rank (cand_predicted a)))), key_cmp_ok.
Qed.

Lemma rank_cmp_ok : cmp_ok ranked_ok rank_cmp.
Proof.
  assert (Hb : forall g : Ranked -> bool, cmp_ok ranked_ok (fun a b => bool_cmp (g b) (g a))).
  { intros g. apply (cmp_ok_flip ranked_ok (fun a b => bool_cmp (g a) (g b))).
    by apply (cmp_ok_on _ (fun _ => True) g), bool_cmp_ok. }
  unfold rank_cmp. do 3 (apply (cmp_ok_then ranked_ok); [apply Hb|]).
  apply (cmp_ok_then ranked_ok); [apply pred_cmp_ok|]. apply (cmp_ok_then ranked_ok).
  - by apply (cmp_ok_on _ (fun _ => True) cand_load), nat_cmp_ok.
  - by apply (cmp_ok_on _ (fun _ => True) cand_id), string_cmp_ok.
Qed.

Lemma candidate_id f n id b c : candidate_of f n id b = Some c -> cand_id c = id.
Proof. unfold candidate_of. repeat (destruct (_ : bool); [done|]). by intros [= <-]. Qed.

Lemma candidate_predicted f n id b c :
  candidate_of f n id b = Some c -> cand_predicted c = predict_fleet f id n.
Proof. unfold candidate_of. repeat (destruct (_ : bool); [done|]). by intros [= <-]. Qed.

Lemma eligible_elem f n it c :
  c ∈ eligible_in f n it <->
  exists b, (cand_id c, b) ∈ it /\ disabled b = false /\ candidate_of f n (cand_id c) b = Some c.
Proof.
  unfold eligible_in. rewrite list_elem_of_omap. split.
  - intros ([id b] & Hin & Hc). pose proof (candidate_id _ _ _ _ _ Hc) as <-.
    rewrite elem_of_filter_bool, negb_true_iff in Hin. destruct Hin. eauto.
  - intros (b & Hin & Hd & Hc). exists (cand_id c, b). split; [|done].
    by rewrite elem_of_filter_bool, negb_true_iff.
Qed.

Lemma rank_elem f n c :
  c ∈ rank f n <->
  exists b, boxes f !! cand_id c = Some b /\ disabled b = false
            /\ candidate_of f n (cand_id c) b = Some c.
Proof.
  unfold rank, rank_of. rewrite sort_by_perm, eligible_elem. by setoid_rewrite elem_of_map_to_list.
Qed.

Lemma eligible_ok f n it : fleet_ok f -> need_ok n -> Forall ranked_ok (eligible_in f n it).
Proof.
  intros Hf Hn. apply Forall_forall. intros c (b & _ & _ & Hc)%eligible_elem.
  unfold ranked_ok. rewrite (candidate_predicted _ _ _ _ _ Hc). by apply predict_fleet_num.
Qed.

Lemma eligible_perm f n it it' : it ≡ₚ it' -> eligible_in f n it ≡ₚ eligible_in f n it'.
Proof.
  intros H. unfold eligible_in. apply omap_Permutation.
  induction H as [|[id b] l l' _ IH|[i b] [j c] l|l1 l2 l3 _ IH1 _ IH2]; simpl; [done|..].
  - destruct (disabled b); simpl; [done|by constructor].
  - destruct (disabled b), (disabled c); simpl; try done. constructor.
  - by etrans.
Qed.

(** The ranking holds exactly the enabled boxes that fit the need, in the
    preference order of the code, and does not depend on the iteration order of
    the map the boxes are held in: the preference order is total because the
    predictions are numbers and ids break every tie. *)
Theorem rank_spec f n :
  fleet_ok f -> need_ok n ->
  (forall c, c ∈ rank f n <->
     exists b, boxes f !! cand_id c = Some b /\ disabled b = false
               /\ candidate_of f n (cand_id c) b = Some c)
  /\ StronglySorted (cmp_le rank_cmp) (rank f n)
  /\ (forall it, it ≡ₚ map_to_list (boxes f) -> rank_of f n it = rank f n).
Proof.
  intros Hf Hn. split; [intros c; apply rank_elem|]. split.
  - by apply (sort_by_ok ranked_ok), eligible_ok; [apply rank_cmp_ok|..].
  - intros it Hit. apply (sort_by_unique _ ranked_ok).
    + by apply cmp_ok_total, rank_cmp_ok.
    + apply (co_trans rank_cmp_ok).
    + intros a b Ha Hb H1 H2.
      apply eligible_elem in Ha as (x & Hx & _ & Hcx). apply eligible_elem in Hb as (y & Hy & _ & Hcy).
      assert (Hid : cand_id a = cand_id b).
      { pose proof (eligible_ok f n (map_to_list (boxes f)) Hf Hn) as Hok.
        assert (forall c z, candidate_of f n (cand_id c) z = Some c -> ranked_ok c) as Hr.
        { intros c z Hc. unfold ranked_ok. rewrite (candidate_predicted _ _ _ _ _ Hc).
          by apply predict_fleet_num. }
        unfold cmp_le in *. rewrite (co_anti rank_cmp_ok a b) in H2 by eauto.
        assert (rank_cmp a b = Eq) as E by (by destruct (rank_cmp a b)).
        unfold rank_cmp in E. rewrite !cmp_then_Eq in E.
        by apply String.compare_eq_iff, E. }
      rewrite Hit, elem_of_map_to_list in Hx, Hy. rewrite Hid in *. simplify_eq. congruence.
    + by apply eligible_ok.
    + by apply eligible_perm.
Qed.

(** ** The chosen box *)

(** Some encoder of the box produces the wanted codec (any video or audio
    codec of the list when the need names none). *)
Definition produces (caps : BoxCaps) (any : list string) (codec : string) : Prop :=
  exists e, e ∈ bc_encoders caps /\ (if codec =s "" then es_codec e ∈ any else es_codec e = codec).

Definition decodes (caps : BoxCaps) (wanted : list string) : Prop :=
  decode_caps caps = [] \/ exists w, w ∈ wanted /\ w ∈ decode_caps caps.

(** What a box must offer before any work of this need may be sent to it. *)
Definition fits (n : PlacementNeed) (b : BoxSnapshot) : Prop :=
  (encode_video n = true ->
     produces (box_caps b) ["h264"; "hevc"; "av1"] (need_video_codec n)
     /\ decodes (box_caps b) (video_caps n))
  /\ (encode_audio n = true ->
     produces (box_caps b) ["aac"; "opus"] (need_audio_codec n)
     /\ decodes (box_caps b) (audio_caps n))
  /\ (0 < max_sessions (box_caps b) -> Z.of_nat (box_load b) < max_sessions (box_caps b))
  /\ (forall feature, required_protocol_feature n = Some feature -> supports (protocol b) feature = true)
  /\ (needs_ass_burn n = true -> bc_ass_burn (box_caps b) = true).

Lemma has_codec_spec caps c : has_codec caps c = true <-> exists e, e ∈ bc_encoders caps /\ es_codec e = c.
Proof.
  unfold has_codec. rewrite existsb_exists. setoid_rewrite <- list_elem_of_In.
  by setoid_rewrite String.eqb_eq.
Qed.

Lemma encodes_kind_spec caps any c : encodes_kind caps any c = true <-> produces caps any c.
Proof.
  unfold encodes_kind, produces. destruct (c =s ""); [|apply has_codec_spec].
  rewrite existsb_exists. setoid_rewrite has_codec_spec. setoid_rewrite <- list_elem_of_In. split.
  - intros (x & Hx & e & He & <-). eauto.
  - intros (e & He & Hc). eauto.
Qed.

Lemma can_spec caps wanted : can caps wanted = true <-> decodes caps wanted.
Proof.
  unfold can, decodes. destruct (decode_caps caps) as [|d l]; [by split; [left|]|].
  rewrite existsb_exists. setoid_rewrite <- list_elem_of_In. split.
  - intros (w & Hw & H%str_mem_spec). eauto.
  - intros [?|(w & Hw & H%str_mem_spec)]; [done|eauto].
Qed.

Lemma guard_Some {A} (g : bool) (o : option A) :
  is_Some (if g then None else o) <-> g = false /\ is_Some o.
Proof. destruct g; split; [by intros [? ?]|by intros [? _]|done|by intros [_ ?]]. Qed.

Lemma and_guard (b c : bool) (P : Prop) :
  (c = true <-> P) -> (b && negb c = false <-> (b = true -> P)).
Proof. intros <-. destruct b, c; simpl; intuition congruence. Qed.

Lemma candidate_fits f n id b : is_Some (candidate_of f n id b) <-> fits n b.
Proof.
  unfold candidate_of, fits. cbn zeta. rewrite !guard_Some, !orb_false_iff.
  rewrite !(and_guard _ _ _ (encodes_kind_spec _ _ _)), !(and_guard _ _ _ (can_spec _ _)).
  rewrite (and_guard _ _ (bc_ass_burn (box_caps b) = true)) by done.
  assert ((0 <? max_sessions (box_caps b))
            && (max_sessions (box_caps b) <=? Z.of_nat (box_load b)) = false
          <-> (0 < max_sessions (box_caps b) -> Z.of_nat (box_load b) < max_sessions (box_caps b))) as ->.
  { destruct (Z.ltb_spec 0 (max_sessions (box_caps b))),
      (Z.leb_spec (max_sessions (box_caps b)) (Z.of_nat (box_load b))); simpl; intuition (lia || congruence). }
  assert (is_some_and (fun x => negb (supports (protocol b) x)) (required_protocol_feature n) = false
          <-> forall x, required_protocol_feature n = Some x -> supports (protocol b) x = true) as ->.
  { destruct (required_protocol_feature n) as [x|]; simpl; [rewrite negb_false_iff|]; split; try done.
    - by intros H y [= <-].
    - intros H. by apply H. }
  match goal with |- context [is_Some (Some ?c)] => assert (is_Some (Some c)) by eauto end.
  tauto.
Qed.

Lemma choose_box_elem f n id :
  choose_box f n = Some id ->
  exists c b, cand_id c = id /\ head (rank f n) = Some c
    /\ boxes f !! id = Some b /\ disabled b = false /\ candidate_of f n id b = Some c.
Proof.
  unfold choose_box. destruct (rank f n) as [|c l] eqn:E; [done|]. cbn [head fmap option_fmap option_map]. intros [= <-].
  assert (Hc : c ∈ rank f n) by (rewrite E; left). pose proof Hc as (b & Hb & Hd & He)%rank_elem.
  exists c, b. split_and!; done.
Qed.

Lemma choose_box_None f n :
  choose_box f n = None <->
  forall id b, boxes f !! id = Some b -> disabled b = false -> ~ fits n b.
Proof.
  unfold choose_box. rewrite fmap_None. split.
  - intros Hn id b Hb Hd Hf. apply (candidate_fits f n id b) in Hf as [c Hc].
    pose proof (candidate_id _ _ _ _ _ Hc) as Hid.
    assert (c ∈ rank f n) as H by (apply rank_elem; exists b; by rewrite Hid).
    destruct (rank f n); [by apply not_elem_of_nil in H|done].
  - intros H. destruct (rank f n) as [|c l] eqn:E; [done|].
    assert (c ∈ rank f n) as (b & Hb & Hd & Hc)%rank_elem by (rewrite E; left).
    exfalso. eapply H; [done..|]. apply (candidate_fits f n (cand_id c)). eauto.
Qed.

Lemma decide_target f n id :
  target (decide_placement f n) = Some id ->
  encode_video n = true /\ available (decide_placement f n) = true /\ choose_box f n = Some id.
Proof.
  unfold decide_placement. destruct (encode_video n); cbn [negb]; [|done].
  destruct (choose_box f n) as [i|] eqn:E; [|done]. destruct (_ && _ && _ && _); [done|].
  by intros [= ->].
Qed.

Lemma choose_box_fits f n id :
  choose_box f n = Some id -> exists b, boxes f !! id = Some b /\ disabled b = false /\ fits n b.
Proof.
  intros (c & b & _ & _ & Hb & Hd & Hc)%choose_box_elem. exists b.
  split_and!; [done..|]. apply (candidate_fits f n id). eauto.
Qed.

(** C16: work is only ever sent to a box that is enabled, below its session
    limit, able to encode the target and decode the source, and that understands
    every feature the plan needs. *)
Theorem dispatch_sound f n id :
  target (decide_placement f n) = Some id ->
  encode_video n = true /\ available (decide_placement f n) = true
  /\ exists b, boxes f !! id = Some b /\ disabled b = false /\ fits n b.
Proof.
  intros (Hv & Ha & Hc)%decide_target. split_and!; [done..|]. by apply choose_box_fits.
Qed.

(** A placement is unavailable exactly when video must be encoded, no
    enabled box fits and the local executor is off; audio-only work never takes
    a fleet slot. *)
Theorem availability f n :
  (available (decide_placement f n) = false <->
   encode_video n = true /\ local_video_executor_enabled f = false
   /\ forall id b, boxes f !! id = Some b -> disabled b = false -> ~ fits n b)
  /\ (encode_video n = false -> target (decide_placement f n) = None).
Proof.
  rewrite <- choose_box_None. unfold decide_placement. destruct (encode_video n); cbn [negb].
  - split; [|done]. destruct (choose_box f n) as [id|]; [destruct (_ && _ && _ && _)|]; simpl;
      intuition congruence.
  - split; [|done]. simpl. intuition congruence.
Qed.

Lemma rank_head_best f n c c' :
  fleet_ok f -> need_ok n -> head (rank f n) = Some c -> c' ∈ rank f n -> rank_cmp c c' <> Gt.
Proof.
  intros Hf Hn Hh Hc'. destruct (rank_spec f n Hf Hn) as (_ & Hs & _).
  assert (Hin : c ∈ rank f n) by (destruct (rank f n); [done|injection Hh as ->; left]).
  destruct (rank f n) as [|x l] eqn:El; [done|]. cbn [head] in Hh. injection Hh as ->.
  apply elem_of_cons in Hc' as [->|H]; [|by eapply sort_by_head_le].
  assert (ranked_ok c) as Hok.
  { pose proof (eligible_ok f n (map_to_list (boxes f)) Hf Hn) as Ha. rewrite Forall_forall in Ha.
    apply Ha. rewrite <- El in Hin. unfold rank, rank_of in Hin. by rewrite sort_by_perm in Hin. }
  pose proof (co_anti rank_cmp_ok c c Hok Hok). by destruct (rank_cmp c c).
Qed.

Lemma ranked_sustains f n c : c ∈ rank f n -> cand_sustains c = sustains (cand_predicted c).
Proof.
  intros (b & _ & _ & Hx)%rank_elem. unfold candidate_of in Hx.
  repeat (destruct (_ : bool) in Hx; [done|]). by injection Hx as <-.
Qed.

Lemma chosen_sustains f n id c :
  fleet_ok f -> need_ok n -> choose_box f n = Some id -> c ∈ rank f n ->
  sustains (cand_predicted c) = true -> sustains (predict_fleet f id n) = true.
Proof.
  intros Hf Hn (c0 & b & Hid & Hh & Hb & Hd & Hc)%choose_box_elem Hin.
  pose proof (rank_head_best f n c0 c Hf Hn Hh Hin) as Hle.
  assert (Hin0 : c0 ∈ rank f n) by (destruct (rank f n); [done|injection Hh as ->; left]).
  rewrite <- (candidate_predicted _ _ _ _ _ Hc), <- (ranked_sustains f n c0 Hin0),
    <- (ranked_sustains f n c Hin).
  clear -Hle. unfold rank_cmp in Hle. by destruct (cand_sustains c0), (cand_sustains c).
Qed.

(** No eligible box is preferable to the chosen one: if any fitting box
    keeps ahead of the viewer the chosen one does, and if the chosen one cannot
    tone-map what must be tone-mapped, no box as sustaining as it can. *)
Theorem choice_best f n id :
  fleet_ok f -> need_ok n -> choose_box f n = Some id ->
  exists c, c ∈ rank f n /\ cand_id c = id
    /\ forall c', c' ∈ rank f n ->
         rank_cmp c c' <> Gt
         /\ (sustains (cand_predicted c') = true -> sustains (predict_fleet f id n) = true)
         /\ (sustains (cand_predicted c') = sustains (cand_predicted c) ->
             tonemap_fit c' = true -> tonemap_fit c = true).
Proof.
  intros Hf Hn H. pose proof (choose_box_elem f n id H) as (c & b & Hid & Hh & Hb & Hd & Hc).
  exists c. assert (Hin : c ∈ rank f n) by (destruct (rank f n); [done|injection Hh as ->; left]).
  split_and!; try done. intros c' Hc'.
  pose proof (rank_head_best f n c c' Hf Hn Hh Hc') as Hle. split; [done|].
  split; [by apply chosen_sustains|].
  rewrite <- (ranked_sustains f n c Hin), <- (ranked_sustains f n c' Hc'). clear -Hle.
  unfold rank_cmp in Hle.
  by destruct (cand_sustains c), (cand_sustains c'), (tonemap_fit c), (tonemap_fit c').
Qed.

Definition kept_local (p : Placement) : Prop := target p = None /\ available p = true.

(** A video encode is kept on the hub only when its local executor is on
    and either no enabled box fits, or no fitting box is expected to keep ahead
    of the viewer while the hub was measured to. *)
Theorem repatriation f n :
  fleet_ok f -> need_ok n -> encode_video n = true -> kept_local (decide_placement f n) ->
  local_video_executor_enabled f = true
  /\ predicted (decide_placement f n) = predict_local f n
  /\ ((forall id b, boxes f !! id = Some b -> disabled b = false -> ~ fits n b)
      \/ (exists p, predict_local f n = Some p /\ fge p SUSTAINS = true)
         /\ forall c, c ∈ rank f n -> sustains (cand_predicted c) = false).
Proof.
  intros Hf Hn Hv [Ht Ha]. rewrite <- choose_box_None. revert Ht Ha. unfold decide_placement.
  rewrite Hv. cbn [negb]. destruct (choose_box f n) as [id|] eqn:E.
  - destruct (_ && _ && _ && _) eqn:G; [|done]. intros _ _. bsplit.
    match goal with H : local_video_executor_enabled f = true |- _ => rewrite H in * end.
    split; [done|]. split; [done|]. right. split.
    + destruct (predict_local f n) as [p|]; [|done]. by exists p.
    + intros c Hc. apply not_true_iff_false. intros Hs.
      rewrite (chosen_sustains f n id c Hf Hn E Hc Hs) in *. done.
  - simpl. intros _ ->. auto.
Qed.

(** ** Work classes *)

Lemma app_sep_inj (c : Ascii.ascii) a a' b b' :
  str_mem_char c a = false -> str_mem_char c a' = false ->
  (a +:+ String c b)%string = (a' +:+ String c b')%string -> a = a' /\ b = b'.
Proof.
  revert a'. induction a as [|x a IH]; intros [|x' a']; simpl; intros Ha Ha'.
  - by intros [= ->].
  - intros [= -> _]. by rewrite Ascii.eqb_refl in Ha'.
  - intros [= -> _]. by rewrite Ascii.eqb_refl in Ha.
  - apply orb_false_iff in Ha as [_ Ha]. apply orb_false_iff in Ha' as [_ Ha'].
    intros [= -> H]. by destruct (IH a' Ha Ha' H) as [-> ->].
Qed.

Definition pipe : Ascii.ascii := byte 124.

Lemma str_app_nil_r s : (s +:+ "")%string = s.
Proof.
  induction s as [|c s IH]; [done|]. change (String c (s +:+ "")%string = String c s). by rewrite IH.
Qed.

Lemma no_sep_tail c d r : str_mem_char c (d +:+ String c r)%string = true.
Proof.
  induction d as [|x d IH].
  { change (Ascii.eqb c c || str_mem_char c r = true). by rewrite Ascii.eqb_refl. }
  change (Ascii.eqb x c || str_mem_char c (d +:+ String c r)%string = true).
  by rewrite IH, orb_true_r.
Qed.

(** The work-class key is composed without confusion: for codec names
    without a bar it determines the resolution bucket, both codecs and the
    tone-map flag, and the bucket the prediction reads back off the key is the
    one the height put in. *)
Theorem work_class_faithful n h h' src src' dst dst' tm tm' :
  str_mem_char pipe src = false -> str_mem_char pipe src' = false ->
  str_mem_char pipe dst = false -> str_mem_char pipe dst' = false ->
  (work_class h src dst tm = work_class h' src' dst' tm' <->
   (1080 <? h) = (1080 <? h') /\ src = src' /\ dst = dst' /\ tm = tm')
  /\ (need_work_class n = Some (work_class h src dst tm) -> is_2160 n = (1080 <? h)).
Proof.
  intros Hs Hs' Hd Hd'. split.
  - split; [|by intros (E & -> & -> & ->); unfold work_class; rewrite E].
    unfold work_class. intros H. apply (app_sep_inj pipe) in H as [Hr H];
      [|by destruct (1080 <? h)|by destruct (1080 <? h')].
    apply (app_sep_inj pipe) in H as [-> H]; [|done..].
    assert ((1080 <? h) = (1080 <? h')) as -> by (by destruct (1080 <? h), (1080 <? h')).
    destruct tm, tm'; rewrite ?str_app_nil_r in H.
    + by apply (app_sep_inj pipe) in H as [-> _].
    + subst dst'. by rewrite no_sep_tail in Hd'.
    + subst dst. by rewrite no_sep_tail in Hd.
    + by subst.
  - intros H. unfold is_2160. rewrite H. unfold work_class. by destruct (1080 <? h).
Qed.

(** ** Witnesses: the fleets of tests/placement.rs *)

Definition test_caps (hw : bool) (s1080 : Z) : BoxCaps := {|
  bc_encoders := [mkEncoderSpeed "h264" (if hw then "nvh264enc" else "x264enc") hw
                    (Some (F32.of_int s1080))
                    (Some (F32.div (F32.of_int s1080) (F32.lit 3 0)))];
  max_sessions := 2; decode_caps := ["video/x-h265"]; bc_tonemap := false; bc_ass_burn := false;
  tonemap_speed_1080 := None; tonemap_speed_2160 := None |}.

Definition test_need (class : string) : PlacementNeed := {|
  encode_video := true; encode_audio := false; video_caps := ["video/x-h265"]; audio_caps := [];
  needs_tonemap := false; needs_ass_burn := false; required_protocol_feature := None;
  need_video_codec := "h264"; need_audio_codec := ""; need_work_class := Some class;
  source_kbps := None |}.

Definition test_box (caps : BoxCaps) : BoxSnapshot := mkBox caps PROTOCOL_MINOR 0 false None.
Definition hevc_class : string := "1080|hevc|h264".

(** [a_sustaining_box_beats_a_faster_looking_one_that_is_not]. *)
Definition test_fleet : FleetSnapshot := {|
  boxes := {["fast" := test_box (test_caps true 9); "steady" := test_box (test_caps false 2)]};
  pace := {[("fast", hevc_class) := F64.lit 6 (-1); ("steady", hevc_class) := F64.lit 3 0]};
  local_bench := None; local_video_executor_enabled := true |}.

(** The same fleet with only the slow box, and a hub measured at 3x. *)
Definition slow_fleet : FleetSnapshot := {|
  boxes := {["fast" := test_box (test_caps true 9)]};
  pace := {[("fast", hevc_class) := F64.lit 6 (-1); (LOCAL, hevc_class) := F64.lit 3 0]};
  local_bench := None; local_video_executor_enabled := true |}.

Example test_decision :
  target (decide_placement test_fleet (test_need hevc_class)) = Some "steady"
  /\ predicted (decide_placement test_fleet (test_need hevc_class)) = Some (F32.lit 3 0).
Proof. vm_compute. split; reflexivity. Qed.

Lemma test_fleet_ok : fleet_ok test_fleet.
Proof.
  intros k v H. unfold test_fleet, pace in H.
  apply lookup_insert_Some in H as [[_ <-]|[_ H]]; [done|].
  by apply lookup_singleton_Some in H as [_ <-].
Qed.

Lemma slow_fleet_ok : fleet_ok slow_fleet.
Proof.
  intros k v H. unfold slow_fleet, pace in H.
  apply lookup_insert_Some in H as [[_ <-]|[_ H]]; [done|].
  by apply lookup_singleton_Some in H as [_ <-].
Qed.

Lemma test_need_ok : need_ok (test_need hevc_class).
Proof. by intros k H. Qed.

Lemma predict_fleet_spec_witness :
  predict_fleet test_fleet "fast" (test_need hevc_class) = Some (F32.of_f64 (F64.lit 6 (-1))).
Proof.
  apply (predict_fleet_spec test_fleet "fast" (test_need hevc_class) (test_box (test_caps true 9)));
    [exact test_need_ok|vm_compute; reflexivity|vm_compute; reflexivity].
Defined.

Lemma rank_spec_witness :
  rank_of test_fleet (test_need hevc_class) (rev (map_to_list (boxes test_fleet)))
  = rank test_fleet (test_need hevc_class).
Proof.
  apply (rank_spec test_fleet (test_need hevc_class) test_fleet_ok test_need_ok).
  symmetry. apply Permutation_rev.
Defined.

Lemma dispatch_sound_witness :
  target (decide_placement test_fleet (test_need hevc_class)) = Some "steady"
  /\ exists b, boxes test_fleet !! "steady" = Some b /\ fits (test_need hevc_class) b.
Proof.
  assert (target (decide_placement test_fleet (test_need hevc_class)) = Some "steady") as H
    by (vm_compute; reflexivity).
  split; [exact H|].
  destruct (dispatch_sound test_fleet (test_need hevc_class) "steady" H) as (_ & _ & b & Hb & _ & Hf).
  exists b. split; [exact Hb|exact Hf].
Defined.

Lemma availability_witness :
  target (decide_placement test_fleet
            (mkNeed false true [] ["audio/x-dts"] false false None "" "aac" None None)) = None.
Proof. apply availability. reflexivity. Defined.

Lemma choice_best_witness :
  exists c, c ∈ rank test_fleet (test_need hevc_class) /\ cand_id c = "steady".
Proof.
  destruct (choice_best test_fleet (test_need hevc_class) "steady" test_fleet_ok test_need_ok)
    as (c & Hin & Hid & _); [vm_compute; reflexivity|].
  exists c. split; [exact Hin|exact Hid].
Defined.

Lemma repatriation_witness :
  kept_local (decide_placement slow_fleet (test_need hevc_class))
  /\ local_video_executor_enabled slow_fleet = true.
Proof.
  assert (kept_local (decide_placement slow_fleet (test_need hevc_class))) as H
    by (split; vm_compute; reflexivity).
  split; [exact H|].
  exact (proj1 (repatriation slow_fleet (test_need hevc_class) slow_fleet_ok test_need_ok eq_refl H)).
Defined.

Lemma work_class_faithful_witness :
  work_class 1440 "hevc" "h264" true <> work_class 1080 "hevc" "h264" true
  /\ is_2160 (test_need (work_class 1440 "hevc" "h264" true)) = true.
Proof.
  destruct (work_class_faithful (test_need (work_class 1440 "hevc" "h264" true))
              1440 1080 "hevc" "hevc" "h264" "h264" true true) as [H1 H2]; try reflexivity.
  split; [intros H; by apply H1 in H as [H _]|]. apply H2. reflexivity.
Defined.
