(* ===== verification/Job.v ===== *)
(** * Pipeline jobs and their spellings (kahawai-playback, src/job.rs, src/worker.rs)

    A [Job] crosses two boundaries: the worker's command line and the
    [StartSession] message. Both codecs are translated with their conventions
    (0 = unset, burns 1-based, NaN = unmeasured). Paths are UTF-8 strings. The
    text of an [f64], serde_json and the file system are the parameters of
    [External]; [clap] enters only the theorems. *)
From S2P Require Import Prelude Floats Media Loudness Probe Plan.
#[local] Open Scope Z_scope.

Inductive Payload := Bytes (b : string) | Path (p : string).

Record Job := mkJob {
  plan : RemuxPlan;
  part_sizes : list Z;
  job_start_ms : Z;
  sink : option string;
  burn_sets : option Payload;
  burn_ass_payload : option Payload;
  target_duration_secs : option Z;
}.

Record WorkerInvocation := mkInvocation {
  job : Job;
  sockets : list string;
  out_dir : string;
  supervisor_pid : option Z;
}.

Record ArgvLayout := mkArgvLayout {
  l_sockets : list string;
  l_out_dir : string;
  l_burn_sets : option string;
  l_burn_ass : option string;
  l_supervisor_pid : option Z;
}.

(** worker.rs: the command line as the child parses it. *)
Record WorkerArgs := mkArgs {
  w_socket : string;
  w_out_dir : string;
  w_size : Z;
  w_video : string;
  w_audio : string;
  w_audio_track : nat;
  w_video_track : nat;
  w_start_ms : Z;
  w_sink : option string;
  w_parts : list string;
  w_video_kbps : option Z;
  w_max_height : option Z;
  w_max_bit_depth : option Z;
  w_max_channels : option Z;
  w_stereo_gain_db : option float;
  w_native_gain_db : option float;
  w_loudness_source_channels : option Z;
  w_loudness_gains : option string;
  w_tone_map : bool;
  w_deinterlace : bool;
  w_supervisor_pid : option Z;
  w_burn_sub : option nat;
  w_burn_sets : option string;
  w_burn_ass : option nat;
  w_burn_ass_file : option string;
  w_video_codec : string;
  w_audio_codec : string;
  w_container : string;
}.

(** The errors of this file, one per [ensure!] or [context]. *)
Inductive JobError :=
| NoParts
| SocketCount (sockets parts : nat)
| EncodingGains
| PartShape
| PartSize
| ParsingGains
| TooManyGains (n : nat)
| ReadingPayload.

(** [job.part_sizes\[0\]] and [job.part_sizes\[1..\]]; not empty where called. *)
Definition job_size (j : Job) : Z := hd 0 (part_sizes j).
Definition tail_sizes (j : Job) : list Z := tail (part_sizes j).
Definition exact_gains (j : Job) : list AudioLayoutGain := flatten (rp_loudness_gains (plan j)).

(** Pack exact gains into the plan's fixed slots, refusing more than fit. *)
Definition layout_gains (gains : list AudioLayoutGain) : result JobError (list (option AudioLayoutGain)) :=
  ensure (length gains <=? MAX_LAYOUT_GAINS)%nat (TooManyGains (length gains))
    (Ok (map Some gains ++ repeat None (MAX_LAYOUT_GAINS - length gains))).

Definition colon : Ascii.ascii := byte 58.

(** One [--part] value: [<socket>:<size>], split at the last colon. *)
Definition part_value (sock : string) (size : Z) : string := sock +:+ String colon (show size).
Definition parse_part (part : string) : result JobError (string * Z) :=
  let? sp := ok_or (rsplit_once colon part) PartShape in
  let? size := ok_or (parse_uint u64_max (snd sp)) PartSize in
  Ok (fst sp, size).

(** Boundaries of the file the repository does not implement. *)
Class External := {
  (** [f64::to_string]. *)
  f64_to_string : float -> string;
  (** [serde_json::to_string] and [from_str] at [Vec<AudioLayoutGain>]. *)
  json_to_string : list AudioLayoutGain -> option string;
  json_from_str : string -> option (list AudioLayoutGain);
  (** [std::fs::read]. *)
  read_file : string -> option string;
}.

(** ** The command line *)

(** One [push(flag, value)] call. *)
Definition Push : Type := string * option string.
Definition opt_push (flag : string) (value : option string) : list Push :=
  match value with Some v => [(flag, Some v)] | None => [] end.
Definition bool_push (flag : string) (b : bool) : list Push := if b then [(flag, None)] else [].
Definition tokens (p : Push) : list string := fst p :: option_list (snd p).

Definition shown (o : option Z) : option string := show <$> o.
Definition shown_nat (o : option nat) : option string := (fun n => show (Z.of_nat n)) <$> o.

Section Codecs.
Context {ext : External}.

(** The pushes of [to_argv] in order, [gains] being the encoded gains. *)
Definition pushes (j : Job) (l : ArgvLayout) (gains : option string) : list Push :=
  let p := plan j in
  opt_push "--supervisor-pid" (shown (l_supervisor_pid l))
  ++ map (fun '(sock, size) => ("--part", Some (part_value sock size)))
       (combine (tail (l_sockets l)) (tail_sizes j))
  ++ opt_push "--video-kbps" (shown (rp_video_kbps p))
  ++ opt_push "--max-height" (shown (rp_max_height p))
  ++ opt_push "--max-bit-depth" (shown (rp_max_bit_depth p))
  ++ opt_push "--max-channels" (shown (rp_max_channels p))
  ++ opt_push "--stereo-gain-db" (f64_to_string <$> rp_stereo_gain_db p)
  ++ opt_push "--native-gain-db" (f64_to_string <$> rp_native_gain_db p)
  ++ opt_push "--loudness-source-channels" (shown (rp_loudness_source_channels p))
  ++ opt_push "--loudness-gains" gains
  ++ bool_push "--deinterlace" (rp_deinterlace p)
  ++ bool_push "--tone-map" (rp_tone_map p)
  ++ opt_push "--burn-sub" (shown_nat (rp_burn_subtitle p))
  ++ opt_push "--burn-sets" (l_burn_sets l)
  ++ opt_push "--burn-ass" (shown_nat (rp_burn_ass p))
  ++ opt_push "--burn-ass-file" (l_burn_ass l)
  ++ opt_push "--video" (Some (mode_arg (rp_video p)))
  ++ opt_push "--audio" (Some (mode_arg (rp_audio p)))
  ++ opt_push "--video-codec" (Some (video_target_str (rp_video_codec p)))
  ++ opt_push "--audio-codec" (Some (audio_target_str (rp_audio_codec p)))
  ++ opt_push "--container" (Some (segment_format_str (rp_segment_format p)))
  ++ opt_push "--audio-track" (Some (show (Z.of_nat (rp_audio_track p))))
  ++ opt_push "--video-track" (Some (show (Z.of_nat (rp_video_track p))))
  ++ opt_push "--start-ms" (Some (show (job_start_ms j)))
  ++ opt_push "--sink" (sink j).

(** [--loudness-gains] is pushed only when there are gains. *)
Definition encoded_gains (j : Job) : result JobError (option string) :=
  match exact_gains j with
  | [] => Ok None
  | gains => let? s := ok_or (json_to_string gains) EncodingGains in Ok (Some s)
  end.

Definition to_argv (j : Job) (l : ArgvLayout) : result JobError (list string) :=
  ensure (negb (length (part_sizes j) =? 0)%nat) NoParts
    (ensure (length (l_sockets l) =? length (part_sizes j))%nat
       (SocketCount (length (l_sockets l)) (length (part_sizes j)))
       (let? gains := encoded_gains j in
        Ok (["remux-worker"; hd "" (l_sockets l); l_out_dir l; show (job_size j)]
            ++ flat_map tokens (pushes j l gains)))).

Definition parsed_gains (args : WorkerArgs) : result JobError (list AudioLayoutGain) :=
  match w_loudness_gains args with
  | Some s => ok_or (json_from_str s) ParsingGains
  | None => Ok []
  end.

Definition args_plan (args : WorkerArgs) (gains : list (option AudioLayoutGain)) : RemuxPlan := {|
  rp_video := parse_mode (w_video args);
  rp_audio := parse_mode (w_audio args);
  rp_audio_track := w_audio_track args;
  rp_video_track := w_video_track args;
  rp_video_kbps := w_video_kbps args;
  rp_max_height := w_max_height args;
  rp_max_bit_depth := w_max_bit_depth args;
  rp_tone_map := w_tone_map args;
  rp_deinterlace := w_deinterlace args;
  rp_burn_subtitle := w_burn_sub args;
  rp_burn_ass := w_burn_ass args;
  rp_max_channels := w_max_channels args;
  rp_stereo_gain_db := w_stereo_gain_db args;
  rp_native_gain_db := w_native_gain_db args;
  rp_loudness_source_channels := w_loudness_source_channels args;
  rp_loudness_gains := gains;
  rp_video_codec := video_target_of (w_video_codec args);
  rp_audio_codec := audio_target_of (w_audio_codec args);
  rp_segment_format := segment_format_of (w_container args);
|}.

Definition from_args (args : WorkerArgs) : result JobError WorkerInvocation :=
  let? parts := collect (map parse_part (w_parts args)) in
  let? parsed := parsed_gains args in
  let? gains := layout_gains parsed in
  Ok {| job := {| plan := args_plan args gains;
                  part_sizes := w_size args :: map snd parts;
                  job_start_ms := w_start_ms args;
                  sink := w_sink args;
                  burn_sets := Path <$> w_burn_sets args;
                  burn_ass_payload := Path <$> w_burn_ass_file args;
                  target_duration_secs := None |};
        sockets := w_socket args :: map fst parts;
        out_dir := w_out_dir args;
        supervisor_pid := w_supervisor_pid args |}.
End Codecs.

(** ** The wire *)

Record StartSession := mkStartSession {
  ss_session_id : string;
  ss_size : Z;
  ss_video : string;
  ss_audio : string;
  ss_audio_track : Z;
  ss_video_track : Z;
  ss_start_ms : Z;
  ss_sink : string;
  ss_tail_sizes : list Z;
  ss_video_kbps : Z;
  ss_max_height : Z;
  ss_max_bit_depth : Z;
  ss_max_channels : Z;
  ss_stereo_gain_db : option float;
  ss_native_gain_db : option float;
  ss_loudness_source_channels : option Z;
  (** channels, channel_mask, gain_db *)
  ss_loudness_gains : list (Z * Z * float);
  ss_tone_map : bool;
  ss_deinterlace : bool;
  ss_burn_subtitle : Z;
  ss_burn_sets : string;
  ss_burn_ass : Z;
  ss_burn_ass_file : string;
  ss_video_codec : string;
  ss_audio_codec : string;
  ss_container : string;
  ss_target_duration_secs : Z;
}.

(** [n as u32 + 1], 0 for nothing. *)
Definition burn_to_wire (n : option nat) : Z :=
  map_or 0 (fun n => wrap 32 (wrap 32 (Z.of_nat n) + 1)) n.
Definition positive (v : Z) : option Z := then_some (0 <? v) v.
Definition burn_of_wire (n : Z) : option nat := (fun n => Z.to_nat (n - 1)) <$> positive n.
Definition nonempty (s : string) : option string := then_some (negb (s =s "")) s.

Section Wire.
Context {ext : External}.

Definition payload_read (p : Payload) : option string :=
  match p with Bytes b => Some b | Path p => read_file p end.
Definition payload (p : option Payload) : result JobError string :=
  match p with
  | Some p => ok_or (payload_read p) ReadingPayload
  | None => Ok ""
  end.

Definition to_start_session (j : Job) (session_id : string) : result JobError StartSession :=
  let p := plan j in
  ensure (negb (length (part_sizes j) =? 0)%nat) NoParts
    (let? sets := payload (burn_sets j) in
     let? script := payload (burn_ass_payload j) in
     Ok {| ss_session_id := session_id;
           ss_size := job_size j;
           ss_video := mode_arg (rp_video p);
           ss_audio := mode_arg (rp_audio p);
           ss_audio_track := wrap 32 (Z.of_nat (rp_audio_track p));
           ss_video_track := wrap 32 (Z.of_nat (rp_video_track p));
           ss_start_ms := job_start_ms j;
           ss_sink := unwrap_or (sink j) "";
           ss_tail_sizes := tail_sizes j;
           ss_video_kbps := unwrap_or (rp_video_kbps p) 0;
           ss_max_height := unwrap_or (rp_max_height p) 0;
           ss_max_bit_depth := unwrap_or (rp_max_bit_depth p) 0;
           ss_max_channels := unwrap_or (rp_max_channels p) 0;
           ss_stereo_gain_db := Some (unwrap_or (rp_stereo_gain_db p) SpecFloat.S754_nan);
           ss_native_gain_db := Some (unwrap_or (rp_native_gain_db p) SpecFloat.S754_nan);
           ss_loudness_source_channels := Some (unwrap_or (rp_loudness_source_channels p) 0);
           ss_loudness_gains :=
             map (fun g => (channels (g_layout g), channel_mask (g_layout g), g_gain_db g))
               (exact_gains j);
           ss_tone_map := rp_tone_map p;
           ss_deinterlace := rp_deinterlace p;
           ss_burn_subtitle := burn_to_wire (rp_burn_subtitle p);
           ss_burn_sets := sets;
           ss_burn_ass := burn_to_wire (rp_burn_ass p);
           ss_burn_ass_file := script;
           ss_video_codec := video_target_str (rp_video_codec p);
           ss_audio_codec := audio_target_str (rp_audio_codec p);
           ss_container := segment_format_str (rp_segment_format p);
           ss_target_duration_secs := unwrap_or (target_duration_secs j) 0 |}).

Definition wire_gain (g : Z * Z * float) : AudioLayoutGain :=
  let '(ch, mask, gain) := g in mkAudioLayoutGain (layout_new ch mask) gain.

Definition wire_plan (m : StartSession) (gains : list (option AudioLayoutGain)) : RemuxPlan := {|
  rp_video := parse_mode (ss_video m);
  rp_audio := parse_mode (ss_audio m);
  rp_audio_track := Z.to_nat (ss_audio_track m);
  rp_video_track := Z.to_nat (ss_video_track m);
  rp_video_kbps := positive (ss_video_kbps m);
  rp_max_height := positive (ss_max_height m);
  rp_max_bit_depth := positive (ss_max_bit_depth m);
  rp_tone_map := ss_tone_map m;
  rp_deinterlace := ss_deinterlace m;
  rp_burn_subtitle := burn_of_wire (ss_burn_subtitle m);
  rp_burn_ass := burn_of_wire (ss_burn_ass m);
  rp_max_channels := positive (ss_max_channels m);
  rp_stereo_gain_db := opt_filter is_finite (ss_stereo_gain_db m);
  rp_native_gain_db := opt_filter is_finite (ss_native_gain_db m);
  rp_loudness_source_channels := ss_loudness_source_channels m ≫= positive;
  rp_loudness_gains := gains;
  rp_video_codec := video_target_of (ss_video_codec m);
  rp_audio_codec := audio_target_of (ss_audio_codec m);
  rp_segment_format := segment_format_of (ss_container m);
|}.

Definition from_start_session (m : StartSession) : result JobError Job :=
  let? gains := layout_gains (map wire_gain (ss_loudness_gains m)) in
  Ok {| plan := wire_plan m gains;
        part_sizes := ss_size m :: ss_tail_sizes m;
        job_start_ms := ss_start_ms m;
        sink := nonempty (ss_sink m);
        burn_sets := Bytes <$> nonempty (ss_burn_sets m);
        burn_ass_payload := Bytes <$> nonempty (ss_burn_ass_file m);
        target_duration_secs := positive (ss_target_duration_secs m) |}.
End Wire.
