(* ===== verification/JobTheorems.v ===== *)
(** * The job codecs agree in both directions

    What a transcoder reads off the wire is the job the hub sent, what the
    worker reads off its command line is the job its supervisor spelled, and a
    job read off the wire always satisfies the conventions it is sent with. *)
From Stdlib Require Import DecimalString.
From S2P Require Import Prelude Floats Media Loudness Probe Plan Job.
#[local] Open Scope Z_scope.

(** ** Gain slots *)

Lemma flatten_slots {A} (gs : list A) k : flatten (map Some gs ++ repeat None k) = gs.
Proof.
  induction gs as [|g gs IH]; simpl; [|by f_equal].
  induction k as [|k IH]; [done|]. simpl. exact IH.
Qed.

Definition slots (gs : list AudioLayoutGain) : list (option AudioLayoutGain) :=
  map Some gs ++ repeat None (MAX_LAYOUT_GAINS - length gs).

Lemma layout_gains_Ok gs s :
  layout_gains gs = Ok s <-> (length gs <= MAX_LAYOUT_GAINS)%nat /\ s = slots gs.
Proof.
  unfold layout_gains, ensure. destruct (Nat.leb_spec (length gs) MAX_LAYOUT_GAINS); split.
  - intros [= <-]. done.
  - by intros [_ ->].
  - done.
  - intros [? _]. lia.
Qed.

(** ** The wire *)

Definition layout_normal (l : AudioLayout) : Prop := layout_new (channels l) (channel_mask l) = l.

Definition pos_opt (o : option Z) : Prop := from_option (fun v => 0 < v) True o.
Definition finite_opt (o : option float) : Prop := from_option (fun v => is_finite v = true) True o.
Definition nonempty_opt (o : option string) : Prop := from_option (fun s => s <> "") True o.
Definition burn_opt (o : option nat) : Prop := from_option (fun n => Z.of_nat n + 1 < 2 ^ 32) True o.

(** The conventions of the wire: 0, the empty string and NaN mean unset, so a
    job that uses them for something else cannot be told apart. *)
Record plan_wire_ok (p : RemuxPlan) : Prop := {
  wo_audio_track : Z.of_nat (rp_audio_track p) < 2 ^ 32;
  wo_video_track : Z.of_nat (rp_video_track p) < 2 ^ 32;
  wo_kbps : pos_opt (rp_video_kbps p);
  wo_height : pos_opt (rp_max_height p);
  wo_depth : pos_opt (rp_max_bit_depth p);
  wo_channels : pos_opt (rp_max_channels p);
  wo_stereo : finite_opt (rp_stereo_gain_db p);
  wo_native : finite_opt (rp_native_gain_db p);
  wo_source : pos_opt (rp_loudness_source_channels p);
  wo_gains : exists gs, rp_loudness_gains p = slots gs /\ (length gs <= MAX_LAYOUT_GAINS)%nat
                        /\ Forall (fun g => layout_normal (g_layout g)) gs;
  wo_burn_sub : burn_opt (rp_burn_subtitle p);
  wo_burn_ass : burn_opt (rp_burn_ass p);
}.

Record job_wire_ok (j : Job) : Prop := {
  wo_plan : plan_wire_ok (plan j);
  wo_parts : part_sizes j <> [];
  wo_sink : nonempty_opt (sink j);
  wo_target : pos_opt (target_duration_secs j);
}.







Lemma video_target_of_str t : video_target_of (video_target_str t) = t.
Proof. by destruct t. Qed.
Lemma audio_target_of_str t : audio_target_of (audio_target_str t) = t.
Proof. by destruct t. Qed.
Lemma segment_format_of_str t : segment_format_of (segment_format_str t) = t.
Proof. by destruct t. Qed.

Section Wire.
Context {ext : External}.




Lemma layout_new_normal ch mask : layout_normal (layout_new ch mask).
Proof.
  unfold layout_normal, layout_new. cbn [channels channel_mask].
  destruct (ch =? 1) eqn:E1, (ch =? 2) eqn:E2, (mask =? 0) eqn:Em; cbn [andb];
    rewrite ?Em; try done; zbool; lia.
Qed.

(** The message's [u32] fields are [u32]s. *)
Definition msg_u32 (m : StartSession) : Prop :=
  in_range 32 (ss_audio_track m) /\ in_range 32 (ss_video_track m)
  /\ in_range 32 (ss_burn_subtitle m) /\ in_range 32 (ss_burn_ass m).

Lemma positive_ok v : pos_opt (positive v).
Proof. unfold positive. destruct (Z.ltb_spec 0 v); simpl; [done|exact I]. Qed.

Lemma burn_ok v : in_range 32 v -> burn_opt (burn_of_wire v).
Proof.
  unfold burn_of_wire, positive, in_range. destruct (Z.ltb_spec 0 v); simpl; [|done]. lia.
Qed.

(** A message is refused exactly when it carries more exact gains than a
    plan has slots; otherwise the job read off it is one the wire carries
    unchanged, so it can be re-sent without loss. *)
Theorem from_wire_ok m :
  msg_u32 m ->
  match from_start_session m with
  | Ok j => job_wire_ok j
  | Err e => e = TooManyGains (length (ss_loudness_gains m))
             /\ (MAX_LAYOUT_GAINS < length (ss_loudness_gains m))%nat
  end.
Proof.
  intros (Ha & Hv & Hs & Hb). unfold from_start_session.
  destruct (layout_gains (map wire_gain (ss_loudness_gains m))) as [g|e] eqn:E; simpl.
  - apply layout_gains_Ok in E as [Hlen ->]. unfold in_range in Ha, Hv.
    split; [split| | |]; simpl; try apply positive_ok; try (by apply burn_ok); try lia.
    + destruct (ss_stereo_gain_db m) as [x|]; simpl; [|done]. by destruct (is_finite x) eqn:?.
    + destruct (ss_native_gain_db m) as [x|]; simpl; [|done]. by destruct (is_finite x) eqn:?.
    + destruct (ss_loudness_source_channels m); simpl; [apply positive_ok|done].
    + eexists. split; [done|]. split; [done|]. apply Forall_forall.
      intros x Hx. apply list_elem_of_In, in_map_iff in Hx as ([[ch mk] gain] & <- & _).
      apply layout_new_normal.
    + done.
    + unfold nonempty. destruct (String.eqb_spec (ss_sink m) ""); simpl; done.
  - unfold layout_gains, ensure in E. rewrite length_map in E.
    destruct (Nat.leb_spec (length (ss_loudness_gains m)) MAX_LAYOUT_GAINS); [done|].
    by injection E as <-.
Qed.
End Wire.

(** ** The command line

    [clap] generates the parser from the declaration of [WorkerArgs]; here it
    is a function of the tokens. What is relied on is its documented behaviour
    on a command line that uses each declared option at most once ([--part] any
    number of times) and gives no value that is empty or could be taken for an
    option: each field is the value given, or the declared default. A gain's
    value may begin with a hyphen when what follows is a plain number; no other
    text is relied on to pass, [-inf] and [-NaN] among them. *)

Definition value_flags : list string :=
  ["--supervisor-pid"; "--part"; "--video-kbps"; "--max-height"; "--max-bit-depth"; "--max-channels";
   "--stereo-gain-db"; "--native-gain-db"; "--loudness-source-channels"; "--loudness-gains";
   "--burn-sub"; "--burn-sets"; "--burn-ass"; "--burn-ass-file"; "--video"; "--audio";
   "--video-codec"; "--audio-codec"; "--container"; "--audio-track"; "--video-track";
   "--start-ms"; "--sink"].
Definition switch_flags : list string := ["--deinterlace"; "--tone-map"].
(** [allow_negative_numbers = true]. *)
Definition number_flags : list string := ["--stereo-gain-db"; "--native-gain-db"].

Definition hyphen : string := "-".
Definition plain (s : string) : Prop := s <> ""%string /\ starts_with hyphen s = false.
(** Digits, with at most one point between two of them. *)
Fixpoint decimal_text (digit_before point_seen : bool) (s : string) : bool :=
  match s with
  | EmptyString => digit_before
  | String a s =>
      if is_some (digit a) then decimal_text true point_seen s
      else Ascii.eqb a (byte 46) && digit_before && negb point_seen && decimal_text false true s
  end.
Definition negative_number (s : string) : bool :=
  match strip_prefix hyphen s with Some r => decimal_text false false r | None => false end.
(** What [allow_negative_numbers] lets a number's option take. *)
Definition number_text (s : string) : Prop := is_Some (parse_f64 s) /\ (plain s \/ negative_number s = true).

Definition push_ok (p : Push) : Prop :=
  match p with
  | (f, Some v) => f ∈ value_flags /\ (plain v \/ f ∈ number_flags /\ number_text v)
  | (f, None) => f ∈ switch_flags
  end.

Definition singles (ps : list Push) : list string :=
  List.filter (fun f => negb (f =s "--part")) (map fst ps).

Definition flag_value (f : string) (ps : list Push) : option string :=
  List.find (fun p => fst p =s f) ps ≫= snd.
Definition flag_values (f : string) (ps : list Push) : list string :=
  omap snd (List.filter (fun p => fst p =s f) ps).
Definition flag_set (f : string) (ps : list Push) : bool := existsb (fun p => fst p =s f) ps.

(** An [Option<T>] field: absent is fine, present must parse. *)
Definition opt_value {A} (parse : string -> option A) (o : option string) : option (option A) :=
  match o with Some v => Some <$> parse v | None => Some None end.
Definition parse_u32 : string -> option Z := parse_uint u32_max.
Definition parse_usize (s : string) : option nat := Z.to_nat <$> parse_uint u64_max s.

(** The fields of [WorkerArgs] by the attributes of worker.rs. *)
Definition read_args (socket out size : string) (ps : list Push) : option WorkerArgs :=
  let value f := flag_value f ps in
  size ← parse_uint u64_max size;
  audio_track ← parse_usize (unwrap_or (value "--audio-track") "0");
  video_track ← parse_usize (unwrap_or (value "--video-track") "0");
  start_ms ← parse_uint u64_max (unwrap_or (value "--start-ms") "0");
  video_kbps ← opt_value parse_u32 (value "--video-kbps");
  max_height ← opt_value parse_u32 (value "--max-height");
  max_bit_depth ← opt_value parse_u32 (value "--max-bit-depth");
  max_channels ← opt_value parse_u32 (value "--max-channels");
  stereo ← opt_value parse_f64 (value "--stereo-gain-db");
  native ← opt_value parse_f64 (value "--native-gain-db");
  source ← opt_value parse_u32 (value "--loudness-source-channels");
  pid ← opt_value parse_u32 (value "--supervisor-pid");
  burn_sub ← opt_value parse_usize (value "--burn-sub");
  burn_ass ← opt_value parse_usize (value "--burn-ass");
  Some {|
    w_socket := socket; w_out_dir := out; w_size := size;
    w_video := unwrap_or (value "--video") "off"; w_audio := unwrap_or (value "--audio") "off";
    w_audio_track := audio_track; w_video_track := video_track; w_start_ms := start_ms;
    w_sink := value "--sink"; w_parts := flag_values "--part" ps;
    w_video_kbps := video_kbps; w_max_height := max_height; w_max_bit_depth := max_bit_depth;
    w_max_channels := max_channels; w_stereo_gain_db := stereo; w_native_gain_db := native;
    w_loudness_source_channels := source; w_loudness_gains := value "--loudness-gains";
    w_tone_map := flag_set "--tone-map" ps; w_deinterlace := flag_set "--deinterlace" ps;
    w_supervisor_pid := pid; w_burn_sub := burn_sub; w_burn_sets := value "--burn-sets";
    w_burn_ass := burn_ass; w_burn_ass_file := value "--burn-ass-file";
    w_video_codec := unwrap_or (value "--video-codec") "h264";
    w_audio_codec := unwrap_or (value "--audio-codec") "aac";
    w_container := unwrap_or (value "--container") "ts" |}.

Definition clap_law (clap : list string -> option WorkerArgs) : Prop :=
  forall socket out size ps,
    plain socket -> plain out -> plain size -> Forall push_ok ps -> NoDup (singles ps) ->
    clap ("remux-worker" :: socket :: out :: size :: flat_map tokens ps)
    = read_args socket out size ps.

(** *** Reading a push list *)

Lemma flag_value_opt f g o rest :
  flag_value f (opt_push g o ++ rest) = if g =s f then opt_or o (flag_value f rest) else flag_value f rest.
Proof.
  destruct o as [v|]; simpl; [|by destruct (g =s f)]. unfold flag_value. simpl. by destruct (g =s f).
Qed.

Lemma flag_value_last f g o : flag_value f (opt_push g o) = if g =s f then o else None.
Proof. rewrite <- (app_nil_r (opt_push g o)), flag_value_opt. by destruct o, (g =s f). Qed.

Lemma flag_value_bool f g b rest :
  (g =s f) = false -> flag_value f (bool_push g b ++ rest) = flag_value f rest.
Proof. intros H. destruct b; [|done]. unfold flag_value. simpl. by rewrite H. Qed.

Definition part_pushes (l : list (string * Z)) : list Push :=
  map (fun '(sock, size) => ("--part", Some (part_value sock size))) l.

Lemma flag_value_parts f l rest :
  ("--part" =s f) = false -> flag_value f (part_pushes l ++ rest) = flag_value f rest.
Proof.
  intros H. induction l as [|[s z] l IH]; [done|]. unfold flag_value in *. cbn -[String.eqb part_value].
  by rewrite H.
Qed.

Lemma flag_values_opt f g o rest :
  (g =s f) = false -> flag_values f (opt_push g o ++ rest) = flag_values f rest.
Proof. intros H. destruct o; [|done]. unfold flag_values. simpl. by rewrite H. Qed.
Lemma flag_values_opt_last f g o : (g =s f) = false -> flag_values f (opt_push g o) = [].
Proof. intros H. rewrite <- (app_nil_r (opt_push g o)). by rewrite flag_values_opt. Qed.
Lemma flag_values_bool f g b rest :
  (g =s f) = false -> flag_values f (bool_push g b ++ rest) = flag_values f rest.
Proof. intros H. destruct b; [|done]. unfold flag_values. simpl. by rewrite H. Qed.
Lemma flag_values_parts l rest :
  flag_values "--part" (part_pushes l ++ rest)
  = map (fun '(sock, size) => part_value sock size) l ++ flag_values "--part" rest.
Proof.
  induction l as [|[s z] l IH]; [done|]. unfold flag_values in *. cbn -[part_value]. f_equal. exact IH.
Qed.

Lemma flag_set_opt f g o rest :
  (g =s f) = false -> flag_set f (opt_push g o ++ rest) = flag_set f rest.
Proof. intros H. destruct o; [|done]. unfold flag_set. simpl. by rewrite H. Qed.
Lemma flag_set_opt_last f g o : (g =s f) = false -> flag_set f (opt_push g o) = false.
Proof. intros H. rewrite <- (app_nil_r (opt_push g o)). by rewrite flag_set_opt. Qed.
Lemma flag_set_bool f g b rest :
  flag_set f (bool_push g b ++ rest) = (g =s f) && b || flag_set f rest.
Proof. destruct b; [|by rewrite andb_false_r]. unfold flag_set. simpl. by rewrite andb_true_r. Qed.
Lemma flag_set_parts f l rest :
  ("--part" =s f) = false -> flag_set f (part_pushes l ++ rest) = flag_set f rest.
Proof.
  intros H. induction l as [|[s z] l IH]; [done|]. unfold flag_set in *. cbn -[String.eqb part_value].
  by rewrite H.
Qed.

(** *** Well-formed command lines *)

Lemma show_plain z : plain (show z).
Proof.
  unfold plain, starts_with, hyphen. destruct (show_digits z) as (d & -> & Hd & _).
  destruct (NilEmpty.string_of_uint d) as [|a r] eqn:E; [by destruct d|]. split; [done|].
  apply string_of_uint_head in E. cbn [strip_prefix].
  destruct (Ascii.eqb_spec (byte 45) a) as [<-|Hn]; [done|].
  by rewrite (proj2 (Ascii.eqb_neq _ a) Hn : Ascii.eqb (Ascii.Ascii _ _ _ _ _ _ _ _) a = false).
Qed.

Lemma part_value_plain s z : plain s -> plain (part_value s z).
Proof.
  unfold plain, part_value, starts_with, hyphen. destruct s as [|a s]; [by intros []|]. intros [_ H]. split; [done|]. revert H.
  change (String a s +:+ String colon (show z)) with (String a (s +:+ String colon (show z))).
  cbn [strip_prefix]. by destruct (Ascii.eqb _ a).
Qed.

Lemma singles_opt f o rest k :
  sublist (singles rest) k -> sublist (singles (opt_push f o ++ rest)) (f :: k).
Proof.
  intros H. destruct o as [v|]; simpl; [|by constructor].
  unfold singles in *. simpl. destruct (negb _); by constructor.
Qed.
Lemma singles_opt_last f o : sublist (singles (opt_push f o)) [f].
Proof. rewrite <- (app_nil_r (opt_push f o)). apply singles_opt. constructor. Qed.
Lemma singles_bool f b rest k :
  sublist (singles rest) k -> sublist (singles (bool_push f b ++ rest)) (f :: k).
Proof.
  intros H. destruct b; simpl; [|by constructor].
  unfold singles in *. simpl. destruct (negb _); by constructor.
Qed.
Lemma singles_parts l rest : singles (part_pushes l ++ rest) = singles rest.
Proof. induction l as [|[s z] l IH]; [done|]. unfold singles in *. cbn -[part_value]. exact IH. Qed.

Lemma push_ok_opt f o :
  f ∈ value_flags -> (forall v, o = Some v -> plain v \/ f ∈ number_flags /\ number_text v) ->
  Forall push_ok (opt_push f o).
Proof. intros Hf H. destruct o as [v|]; simpl; [|constructor]. constructor; [|constructor]. split; auto. Qed.

Lemma push_ok_shown f o : f ∈ value_flags -> Forall push_ok (opt_push f (shown o)).
Proof.
  intros Hf. apply push_ok_opt; [done|]. intros v. destruct o as [z|]; simpl; [|done].
  intros [= <-]. left. apply show_plain.
Qed.

Lemma push_ok_const f v : f ∈ value_flags -> plain v -> Forall push_ok (opt_push f (Some v)).
Proof. intros Hf Hv. apply push_ok_opt; [done|]. intros w [= <-]. by left. Qed.

Lemma push_ok_bool f b : f ∈ switch_flags -> Forall push_ok (bool_push f b).
Proof. intros H. destruct b; simpl; [|constructor]. constructor; [exact H|constructor]. Qed.

Section Argv.
Context {ext : External}.

Definition u32_opt (o : option Z) : Prop := from_option (fun v => 0 <= v <= u32_max) True o.
Definition usize_ok (n : nat) : Prop := Z.of_nat n <= u64_max.
Definition plain_opt (o : option string) : Prop := from_option plain True o.
(** This gain's text parses back to it, and is one a number's option takes. *)
Definition gain_text (o : option float) : Prop :=
  from_option (fun x => parse_f64 (f64_to_string x) = Some x /\ number_text (f64_to_string x)) True o.

(** The values are of their types, paths and the sink name are not empty and
    could not be taken for options, and the texts of the gains parse back. *)
Record argv_ok (j : Job) (l : ArgvLayout) : Prop := {
  ao_parts : part_sizes j <> [];
  ao_sockets : length (l_sockets l) = length (part_sizes j);
  ao_sizes : Forall (fun z => 0 <= z <= u64_max) (part_sizes j);
  ao_start : 0 <= job_start_ms j <= u64_max;
  ao_u32 : Forall u32_opt [l_supervisor_pid l; rp_video_kbps (plan j); rp_max_height (plan j);
             rp_max_bit_depth (plan j); rp_max_channels (plan j);
             rp_loudness_source_channels (plan j)];
  ao_usize : Forall usize_ok ([rp_audio_track (plan j); rp_video_track (plan j)]
             ++ option_list (rp_burn_subtitle (plan j)) ++ option_list (rp_burn_ass (plan j)));
  ao_plain : Forall plain (l_out_dir l :: l_sockets l);
  ao_plain_opt : Forall plain_opt [l_burn_sets l; l_burn_ass l; sink j];
  ao_stereo : gain_text (rp_stereo_gain_db (plan j));
  ao_native : gain_text (rp_native_gain_db (plan j));
  ao_gains : exists gs, rp_loudness_gains (plan j) = slots gs /\ (length gs <= MAX_LAYOUT_GAINS)%nat
    /\ (gs <> [] -> exists s, json_to_string gs = Some s /\ json_from_str s = Some gs /\ plain s);
}.

Lemma pushes_nodup j l g : NoDup (singles (pushes j l g)).
Proof.
  unfold pushes. fold (part_pushes (combine (tail (l_sockets l)) (tail_sizes j))).
  eapply sublist_NoDup.
  2:{ apply singles_opt. rewrite singles_parts. do 8 apply singles_opt.
      do 2 apply singles_bool. do 12 apply singles_opt. apply singles_opt_last. }
  apply (bool_decide_unpack _). vm_compute. exact I.
Qed.

Lemma pushes_ok j l g :
  argv_ok j l -> (forall s, g = Some s -> plain s) -> Forall push_ok (pushes j l g).
Proof.
  intros [? ? ? ? ? ? Hp Hpo Hst Hna _] Hg.
  assert (In : forall f fs, bool_decide (f ∈ fs) = true -> f ∈ (fs : list string))
    by (intros f fs; apply bool_decide_eq_true).
  assert (Forall push_ok (part_pushes (combine (tail (l_sockets l)) (tail_sizes j)))) as Hparts.
  { apply Forall_map, Forall_forall. intros [s z] Hin. split; [by apply In|]. left.
    apply part_value_plain. apply list_elem_of_In, in_combine_l, list_elem_of_In in Hin.
    inversion Hp as [|? ? _ Hs]; subst. rewrite Forall_forall in Hs. apply Hs.
    destruct (l_sockets l); [done|by right]. }
  assert (Hgain : forall f o, f ∈ value_flags -> f ∈ number_flags -> gain_text o ->
            Forall push_ok (opt_push f (f64_to_string <$> o))).
  { intros f o H1 H2 Ho. apply push_ok_opt; [done|]. intros v. destruct o as [x|]; simpl; [|done].
    intros [= <-]. right. split; [done|]. apply Ho. }
  assert (Hplain : forall f o, f ∈ value_flags -> plain_opt o -> Forall push_ok (opt_push f o)).
  { intros f o H1 H2. apply push_ok_opt; [done|]. intros v ->. by left. }
  assert (Hnat : forall f o, f ∈ value_flags -> Forall push_ok (opt_push f (shown_nat o))).
  { intros f o H1. apply push_ok_opt; [done|]. intros v. destruct o; simpl; [|done].
    intros [= <-]. left. apply show_plain. }
  inversion Hpo as [|? ? Hb1 Hpo1]; subst. inversion Hpo1 as [|? ? Hb2 Hpo2]; subst.
  inversion Hpo2 as [|? ? Hb3 _]; subst.
  unfold pushes. repeat apply Forall_app_2; try exact Hparts;
    try (by apply push_ok_shown, In); try (by apply push_ok_bool, In);
    try (by apply Hgain; [by apply In..|]); try (by apply Hplain; [by apply In|]);
    try (by apply Hnat, In).
  - apply push_ok_opt; [by apply In|]. intros v Hv. left. auto.
  - apply push_ok_const; [by apply In|]. by destruct (rp_video (plan j)).
  - apply push_ok_const; [by apply In|]. by destruct (rp_audio (plan j)).
  - apply push_ok_const; [by apply In|]. by destruct (rp_video_codec (plan j)).
  - apply push_ok_const; [by apply In|]. by destruct (rp_audio_codec (plan j)).
  - apply push_ok_const; [by apply In|]. by destruct (rp_segment_format (plan j)).
  - apply push_ok_const; [by apply In|apply show_plain].
  - apply push_ok_const; [by apply In|apply show_plain].
  - apply push_ok_const; [by apply In|apply show_plain].
Qed.

Lemma opt_or_None {A} (o : option A) : opt_or o None = o.
Proof. by destruct o. Qed.

(** Evaluate one flag on the pushes. *)
Ltac read_flag :=
  unfold pushes;
  match goal with |- context [map _ (combine ?a ?b)] => fold (part_pushes (combine a b)) end;
  repeat first
    [rewrite flag_value_opt; cbn [String.eqb Ascii.eqb Bool.eqb]
    |rewrite flag_value_bool by reflexivity
    |rewrite flag_value_parts by reflexivity];
  rewrite flag_value_last; cbn [String.eqb Ascii.eqb Bool.eqb]; rewrite ?opt_or_None; reflexivity.

Section Flags.
Context (j : Job) (l : ArgvLayout) (g : option string).
Let p := plan j.
Lemma read_pid : flag_value "--supervisor-pid" (pushes j l g) = shown (l_supervisor_pid l).
Proof. read_flag. Qed.
Lemma read_kbps : flag_value "--video-kbps" (pushes j l g) = shown (rp_video_kbps p).
Proof. read_flag. Qed.
Lemma read_height : flag_value "--max-height" (pushes j l g) = shown (rp_max_height p).
Proof. read_flag. Qed.
Lemma read_depth : flag_value "--max-bit-depth" (pushes j l g) = shown (rp_max_bit_depth p).
Proof. read_flag. Qed.
Lemma read_channels : flag_value "--max-channels" (pushes j l g) = shown (rp_max_channels p).
Proof. read_flag. Qed.
Lemma read_stereo : flag_value "--stereo-gain-db" (pushes j l g) = f64_to_string <$> rp_stereo_gain_db p.
Proof. read_flag. Qed.
Lemma read_native : flag_value "--native-gain-db" (pushes j l g) = f64_to_string <$> rp_native_gain_db p.
Proof. read_flag. Qed.
Lemma read_source :
  flag_value "--loudness-source-channels" (pushes j l g) = shown (rp_loudness_source_channels p).
Proof. read_flag. Qed.
Lemma read_gains : flag_value "--loudness-gains" (pushes j l g) = g.
Proof. read_flag. Qed.
Lemma read_burn_sub : flag_value "--burn-sub" (pushes j l g) = shown_nat (rp_burn_subtitle p).
Proof. read_flag. Qed.
Lemma read_burn_sets : flag_value "--burn-sets" (pushes j l g) = l_burn_sets l.
Proof. read_flag. Qed.
Lemma read_burn_ass : flag_value "--burn-ass" (pushes j l g) = shown_nat (rp_burn_ass p).
Proof. read_flag. Qed.
Lemma read_burn_ass_file : flag_value "--burn-ass-file" (pushes j l g) = l_burn_ass l.
Proof. read_flag. Qed.
Lemma read_video : flag_value "--video" (pushes j l g) = Some (mode_arg (rp_video p)).
Proof. read_flag. Qed.
Lemma read_audio : flag_value "--audio" (pushes j l g) = Some (mode_arg (rp_audio p)).
Proof. read_flag. Qed.
Lemma read_video_codec :
  flag_value "--video-codec" (pushes j l g) = Some (video_target_str (rp_video_codec p)).
Proof. read_flag. Qed.
Lemma read_audio_codec :
  flag_value "--audio-codec" (pushes j l g) = Some (audio_target_str (rp_audio_codec p)).
Proof. read_flag. Qed.
Lemma read_container :
  flag_value "--container" (pushes j l g) = Some (segment_format_str (rp_segment_format p)).
Proof. read_flag. Qed.
Lemma read_audio_track :
  flag_value "--audio-track" (pushes j l g) = Some (show (Z.of_nat (rp_audio_track p))).
Proof. read_flag. Qed.
Lemma read_video_track :
  flag_value "--video-track" (pushes j l g) = Some (show (Z.of_nat (rp_video_track p))).
Proof. read_flag. Qed.
Lemma read_start : flag_value "--start-ms" (pushes j l g) = Some (show (job_start_ms j)).
Proof. read_flag. Qed.
Lemma read_sink : flag_value "--sink" (pushes j l g) = sink j.
Proof. read_flag. Qed.
Lemma read_parts :
  flag_values "--part" (pushes j l g)
  = map (fun '(sock, size) => part_value sock size) (combine (tail (l_sockets l)) (tail_sizes j)).
Proof.
  unfold pushes. fold (part_pushes (combine (tail (l_sockets l)) (tail_sizes j))).
  rewrite flag_values_opt by reflexivity. rewrite flag_values_parts.
  rewrite <- (app_nil_r (map _ _)) at 2. f_equal.
  repeat first [rewrite flag_values_opt by reflexivity | rewrite flag_values_bool by reflexivity
               |rewrite flag_values_opt_last by reflexivity]. done.
Qed.
Ltac read_switch :=
  unfold pushes; fold (part_pushes (combine (tail (l_sockets l)) (tail_sizes j)));
  repeat first [rewrite flag_set_opt by reflexivity | rewrite flag_set_bool
               |rewrite flag_set_parts by reflexivity | rewrite flag_set_opt_last by reflexivity];
  cbn [String.eqb Ascii.eqb Bool.eqb andb orb]; rewrite ?orb_false_r; reflexivity.
Lemma read_tone_map : flag_set "--tone-map" (pushes j l g) = rp_tone_map p.
Proof. read_switch. Qed.
Lemma read_deinterlace : flag_set "--deinterlace" (pushes j l g) = rp_deinterlace p.
Proof. read_switch. Qed.
End Flags.

Lemma opt_value_shown o : u32_opt o -> opt_value parse_u32 (shown o) = Some o.
Proof. destruct o as [v|]; simpl; [|done]. intros H. unfold parse_u32. by rewrite parse_show. Qed.
Lemma usize_shown n : usize_ok n -> parse_usize (show (Z.of_nat n)) = Some n.
Proof.
  unfold usize_ok. intros H. unfold parse_usize. rewrite parse_show by lia. simpl.
  by rewrite Nat2Z.id.
Qed.
Lemma opt_value_nat o :
  Forall usize_ok (option_list o) -> opt_value parse_usize (shown_nat o) = Some o.
Proof. destruct o; simpl; [|done]. intros H. inversion H; subst. by rewrite usize_shown. Qed.
Lemma opt_value_gain o : gain_text o -> opt_value parse_f64 (f64_to_string <$> o) = Some o.
Proof. destruct o; simpl; [|done]. by intros [-> _]. Qed.

Lemma parse_part_value sock z :
  0 <= z <= u64_max -> parse_part (part_value sock z) = Ok (sock, z).
Proof.
  intros Hz. unfold parse_part, part_value. rewrite rsplit_once_app by by apply show_no_char.
  simpl. by rewrite parse_show.
Qed.

Lemma collect_parts l :
  Forall (fun p => 0 <= snd p <= u64_max) l ->
  collect (map parse_part (map (fun '(sock, size) => part_value sock size) l)) = Ok l.
Proof.
  induction 1 as [|[s z] l Hz _ IH]; [done|]. cbn [map collect].
  rewrite parse_part_value by done. cbn [rbind]. by rewrite IH.
Qed.

(** The fields the pushes of a well-formed job spell. *)
Definition spelled (j : Job) (l : ArgvLayout) (g : option string) : WorkerArgs :=
  let p := plan j in {|
  w_socket := hd "" (l_sockets l); w_out_dir := l_out_dir l; w_size := job_size j;
  w_video := mode_arg (rp_video p); w_audio := mode_arg (rp_audio p);
  w_audio_track := rp_audio_track p; w_video_track := rp_video_track p;
  w_start_ms := job_start_ms j; w_sink := sink j;
  w_parts := map (fun '(sock, size) => part_value sock size)
               (combine (tail (l_sockets l)) (tail_sizes j));
  w_video_kbps := rp_video_kbps p; w_max_height := rp_max_height p;
  w_max_bit_depth := rp_max_bit_depth p; w_max_channels := rp_max_channels p;
  w_stereo_gain_db := rp_stereo_gain_db p; w_native_gain_db := rp_native_gain_db p;
  w_loudness_source_channels := rp_loudness_source_channels p; w_loudness_gains := g;
  w_tone_map := rp_tone_map p; w_deinterlace := rp_deinterlace p;
  w_supervisor_pid := l_supervisor_pid l; w_burn_sub := rp_burn_subtitle p;
  w_burn_sets := l_burn_sets l; w_burn_ass := rp_burn_ass p; w_burn_ass_file := l_burn_ass l;
  w_video_codec := video_target_str (rp_video_codec p);
  w_audio_codec := audio_target_str (rp_audio_codec p);
  w_container := segment_format_str (rp_segment_format p) |}.

Lemma read_args_pushes j l g :
  argv_ok j l ->
  read_args (hd "" (l_sockets l)) (l_out_dir l) (show (job_size j)) (pushes j l g)
  = Some (spelled j l g).
Proof.
  intros [Hne Hl Hsz Hst Hu Hn _ _ Hs Hna _].
  assert (0 <= job_size j <= u64_max) as Hsize.
  { unfold job_size. destruct (part_sizes j); [done|]. by inversion Hsz. }
  repeat match goal with H : Forall _ (_ :: _) |- _ => inversion H; clear H; subst end.
  cbn [app] in *. repeat match goal with H : Forall _ (_ :: _) |- _ => inversion H; clear H; subst end.
  match goal with H : Forall usize_ok (_ ++ _) |- _ => apply Forall_app in H as [Hb1 Hb2] end.
  unfold read_args. cbv zeta.
  rewrite read_pid, read_kbps, read_height, read_depth, read_channels, read_stereo, read_native,
    read_source, read_gains, read_burn_sub, read_burn_sets, read_burn_ass, read_burn_ass_file,
    read_video, read_audio, read_video_codec, read_audio_codec, read_container, read_audio_track,
    read_video_track, read_start, read_sink, read_parts, read_tone_map, read_deinterlace.
  cbn [unwrap_or].
  rewrite !parse_show, !usize_shown, !opt_value_shown, !opt_value_nat, !opt_value_gain by done.
  reflexivity.
Qed.

(** What the worker runs: the same job, its payloads the files the supervisor
    wrote, and no declared duration, which is the supervisor's business. *)
Definition worker_job (j : Job) (l : ArgvLayout) : Job :=
  mkJob (plan j) (part_sizes j) (job_start_ms j) (sink j)
    (Path <$> l_burn_sets l) (Path <$> l_burn_ass l) None.

Lemma combine_split {A B} (a : list A) (b : list B) :
  length a = length b -> map fst (combine a b) = a /\ map snd (combine a b) = b.
Proof.
  revert b. induction a as [|x a IH]; intros [|y b] H; simpl in *; try done.
  destruct (IH b) as [-> ->]; [lia|done].
Qed.

Lemma from_args_spelled j l g gs :
  argv_ok j l -> rp_loudness_gains (plan j) = slots gs -> (length gs <= MAX_LAYOUT_GAINS)%nat ->
  parsed_gains (spelled j l g) = Ok gs ->
  from_args (spelled j l g)
  = Ok (mkInvocation (worker_job j l) (l_sockets l) (l_out_dir l) (l_supervisor_pid l)).
Proof.
  intros [Hne Hl Hsz _ _ _ _ _ _ _ _] Hgs Hlen Hg. unfold from_args. cbn [w_parts spelled].
  assert (length (tail (l_sockets l)) = length (tail_sizes j)) as Ht.
  { unfold tail_sizes. destruct (l_sockets l), (part_sizes j); simpl in *; lia. }
  rewrite collect_parts.
  2:{ apply Forall_forall. intros [s z] H. apply list_elem_of_In, in_combine_r, list_elem_of_In in H.
      rewrite Forall_forall in Hsz. apply Hsz. unfold tail_sizes in H.
      destruct (part_sizes j); [done|by right]. }
  cbn [rbind]. rewrite Hg. cbn [rbind].
  assert (layout_gains gs = Ok (slots gs)) as -> by (by apply layout_gains_Ok). cbn [rbind].
  destruct (combine_split _ _ Ht) as [-> ->]. unfold worker_job. f_equal. f_equal.
  - f_equal; [|cbn [spelled w_size]; unfold job_size, tail_sizes; by destruct (part_sizes j)].
    unfold args_plan. cbn. rewrite !mode_roundtrip, video_target_of_str, audio_target_of_str,
      segment_format_of_str, <- Hgs. by destruct (plan j).
  - cbn [spelled w_socket]. destruct (l_sockets l); [|done]. by destruct (part_sizes j).
Qed.

(** C22: the worker reads off its command line the job its supervisor spelled
    ([worker_job]: the burn payloads as files, no declared duration), on the
    sockets it was given, whatever colons the socket paths hold, as long as the
    paths and texts are ones the parser takes for values ([argv_ok]). *)
Theorem argv_roundtrip clap j l :
  clap_law clap -> argv_ok j l ->
  exists argv args, to_argv j l = Ok argv /\ clap argv = Some args
    /\ from_args args
       = Ok (mkInvocation (worker_job j l) (l_sockets l) (l_out_dir l) (l_supervisor_pid l)).
Proof.
  intros Hclap Hok. pose proof Hok as [Hne Hl _ _ _ _ Hp _ _ _ (gs & Hgs & Hlen & Hjson)].
  assert (exists g, encoded_gains j = Ok g /\ (forall s, g = Some s -> plain s)
          /\ parsed_gains (spelled j l g) = Ok gs) as (g & Hg & Hgp & Hparse).
  { unfold encoded_gains, exact_gains. rewrite Hgs. unfold slots. rewrite flatten_slots.
    destruct gs as [|x gs]; [by exists None|].
    destruct Hjson as (s & Hs & Hd & Hpl); [done|]. exists (Some s). rewrite Hs.
    split; [done|]. split; [by intros ? [= <-]|]. unfold parsed_gains. cbn. by rewrite Hd. }
  exists (["remux-worker"; hd "" (l_sockets l); l_out_dir l; show (job_size j)]
          ++ flat_map tokens (pushes j l g)), (spelled j l g). split_and!.
  - unfold to_argv, ensure. rewrite Hg, Hl, Nat.eqb_refl. by destruct (part_sizes j).
  - inversion Hp as [|? ? Ho Hs]; subst. cbn [app]. rewrite Hclap.
    + by apply read_args_pushes.
    + destruct (l_sockets l); [by destruct (part_sizes j)|]. by inversion Hs.
    + done.
    + apply show_plain.
    + by apply pushes_ok.
    + apply pushes_nodup.
  - by eapply from_args_spelled.
Qed.

(** The argv is refused exactly for the reasons the code states: no parts,
    a socket count that is not the part count, or gains JSON cannot spell. *)
Theorem to_argv_errors j l :
  match to_argv j l with
  | Ok argv => part_sizes j <> [] /\ length (l_sockets l) = length (part_sizes j)
               /\ argv !! 0%nat = Some "remux-worker"
  | Err NoParts => part_sizes j = []
  | Err (SocketCount a b) => part_sizes j <> [] /\ a = length (l_sockets l)
                             /\ b = length (part_sizes j) /\ a <> b
  | Err EncodingGains => exact_gains j <> [] /\ json_to_string (exact_gains j) = None
  | Err _ => False
  end.
Proof.
  unfold to_argv, ensure. destruct (part_sizes j) as [|z zs] eqn:Hps; [done|].
  cbn [length Nat.eqb negb]. destruct (Nat.eqb_spec (length (l_sockets l)) (S (length zs))); [|done].
  unfold encoded_gains. destruct (exact_gains j) as [|g gs] eqn:Hg; [done|].
  destruct (json_to_string (g :: gs)) eqn:Hj; [done|]. done.
Qed.
End Argv.

(** ** Witnesses *)

(** A parser that satisfies the law: group the tokens by the declaration. *)
Fixpoint group (toks : list string) : option (list Push) :=
  match toks with
  | [] => Some []
  | f :: rest =>
      if str_mem f switch_flags then cons (f, None) <$> group rest
      else match rest with
           | v :: rest => cons (f, Some v) <$> group rest
           | [] => None
           end
  end.
Definition test_clap (argv : list string) : option WorkerArgs :=
  match argv with
  | _ :: socket :: out :: size :: toks => group toks ≫= read_args socket out size
  | _ => None
  end.

Lemma group_tokens ps : Forall push_ok ps -> group (flat_map tokens ps) = Some ps.
Proof.
  assert (Forall (fun f => str_mem f switch_flags = false) value_flags) as Hv by (by repeat constructor).
  rewrite Forall_forall in Hv.
  induction 1 as [|[f [v|]] ps Hp _ IH]; [done|..].
  - change (flat_map tokens ((f, Some v) :: ps)) with (f :: v :: flat_map tokens ps).
    destruct Hp as [Hf _]. cbn [group]. rewrite (Hv f Hf). by rewrite IH.
  - change (flat_map tokens ((f, None) :: ps)) with (f :: flat_map tokens ps).
    simpl in Hp. cbn [group]. rewrite (proj2 (str_mem_spec f switch_flags) Hp). by rewrite IH.
Qed.

Lemma test_clap_law : clap_law test_clap.
Proof. intros socket out size ps _ _ _ Hps _. unfold test_clap. by rewrite group_tokens. Qed.

(** One gain of -3.5 dB, whose texts are known. *)
Definition gain_3_5 : float := F64.lit_neg 35 (-1).
Definition test_gains : list AudioLayoutGain := [mkAudioLayoutGain (layout_new 2 0) gain_3_5].

#[local] Instance test_external : External := {|
  f64_to_string := fun _ => "-3.5";
  json_to_string := fun _ => Some "[gains]";
  json_from_str := fun _ => Some test_gains;
  read_file := fun _ => Some "bytes";
|}.

Definition test_plan : RemuxPlan := {|
  rp_video := Encode; rp_audio := Encode; rp_audio_track := 1; rp_video_track := 0;
  rp_video_kbps := Some 4000; rp_max_height := Some 720; rp_max_bit_depth := None;
  rp_tone_map := true; rp_deinterlace := false; rp_burn_subtitle := Some 0%nat; rp_burn_ass := None;
  rp_max_channels := Some 2; rp_stereo_gain_db := Some gain_3_5; rp_native_gain_db := None;
  rp_loudness_source_channels := Some 6; rp_loudness_gains := slots test_gains;
  rp_video_codec := H264; rp_audio_codec := Aac; rp_segment_format := Ts |}.

Definition test_job : Job :=
  mkJob test_plan [700; 65000] 90000 (Some "hlssink2") (Some (Path "/run/sets")) None (Some 2).
Definition test_layout : ArgvLayout :=
  mkArgvLayout ["/run/s:0"; "/run/s:1"] "/run/out" (Some "/run/sets") None (Some 4711).


Lemma test_argv_ok : argv_ok test_job test_layout.
Proof.
  split; [done|done|..].
  - unfold u64_max. repeat constructor; done.
  - unfold u64_max. simpl. lia.
  - unfold u32_opt, u32_max. repeat constructor; done.
  - unfold usize_ok, u64_max. repeat constructor; done.
  - by repeat constructor.
  - by repeat constructor.
  - split; [by vm_compute|]. split; [by eexists; vm_compute|by right].
  - done.
  - exists test_gains. split_and!; [done|unfold MAX_LAYOUT_GAINS; simpl; lia|]. intros _. exists "[gains]". by repeat split.
Qed.


Definition test_message : StartSession := {|
  ss_session_id := "s1"; ss_size := 700; ss_video := "copy"; ss_audio := "encode";
  ss_audio_track := 0; ss_video_track := 0; ss_start_ms := 0; ss_sink := ""; ss_tail_sizes := [];
  ss_video_kbps := 0; ss_max_height := 0; ss_max_bit_depth := 0; ss_max_channels := 2;
  ss_stereo_gain_db := None; ss_native_gain_db := Some SpecFloat.S754_nan;
  ss_loudness_source_channels := None; ss_loudness_gains := [(2, 0, gain_3_5)];
  ss_tone_map := false; ss_deinterlace := false; ss_burn_subtitle := 3; ss_burn_sets := "";
  ss_burn_ass := 0; ss_burn_ass_file := ""; ss_video_codec := "h264"; ss_audio_codec := "aac";
  ss_container := "ts"; ss_target_duration_secs := 0 |}.

Lemma from_wire_ok_witness :
  exists j, from_start_session test_message = Ok j /\ job_wire_ok j
            /\ rp_burn_subtitle (plan j) = Some 2%nat.
Proof.
  assert (msg_u32 test_message) as Hm by (repeat split; unfold in_range; simpl; lia).
  pose proof (from_wire_ok test_message Hm) as H. eexists. split; [reflexivity|].
  split; [exact H|reflexivity].
Defined.

Lemma argv_roundtrip_witness :
  exists argv args, to_argv test_job test_layout = Ok argv /\ test_clap argv = Some args
    /\ from_args args = Ok (mkInvocation (worker_job test_job test_layout)
                              ["/run/s:0"; "/run/s:1"] "/run/out" (Some 4711)).
Proof. exact (argv_roundtrip test_clap test_job test_layout test_clap_law test_argv_ok). Defined.
