(* ===== verification/Segments.v ===== *)
(** * Chapter boundaries (kahawai-core, src/segments.rs)

    The boundaries a file's chapter titles name, and the bounds a detector's
    answer must keep at the hub's trust boundary. Milliseconds are [u64]. *)
From S2P Require Import Prelude Floats Media.
#[local] Open Scope Z_scope.

Definition DETECTOR_GENERATION : Z := 2.

Record Named := mkNamed { n_kind : string; n_start_ms : Z; n_end_ms : Z }.
#[global] Instance Named_eq_dec : EqDecision Named.
Proof. solve_decision. Defined.

Definition NAMED_RECAP : Z := 1.
Definition NAMED_INTRO : Z := Z.shiftl 1 1.
Definition NAMED_CREDITS : Z := Z.shiftl 1 2.
Definition NAMED_COMPLETE : Z := Z.lor NAMED_INTRO NAMED_CREDITS.

Definition INTRO_MAX_MS : Z := 120000.
Definition RECAP_MAX_MS : Z := 120000.
Definition CREDITS_WINDOW_MS : Z := 450000.
Definition INTRO_WINDOW_LIMIT_MS : Z := 600000.
Definition INTRO_PERCENT_MIN_DURATION_MS : Z := 300000.
Definition END_REFINEMENT_OUTWARD_MS : Z := 2000.
Definition SHARED_REGION_MIN_MS : Z := 15000.
Definition RECAP_MIN_MS : Z := 15000.
Definition BLACK_CREDITS_MIN_MS : Z := 15000.
Definition END_REFINEMENT_INWARD_MS : Z := 5000.
Definition INTRO_START_SNAP_MS : Z := 5000.

Definition head_end (duration_ms : Z) : Z :=
  if INTRO_PERCENT_MIN_DURATION_MS <=? duration_ms
  then Z.min (duration_ms / 4) INTRO_WINDOW_LIMIT_MS
  else duration_ms.

Definition inferred_within_bounds (kind analyzer : string) (start_ms end_ms duration_ms : Z) : bool :=
  if (end_ms <=? start_ms) || (duration_ms <? end_ms) then false
  else
    let length := end_ms - start_ms in
    if (kind =s "recap") && (analyzer =s "blackframe") then
      (start_ms =? 0) && ((RECAP_MIN_MS <=? length) && (length <=? RECAP_MAX_MS))
    else if (kind =s "intro") && (analyzer =s "chromaprint") then
      let head_end := head_end duration_ms in
      let minimum := SHARED_REGION_MIN_MS - END_REFINEMENT_INWARD_MS in
      let raw_region_fits := sat_add 64 start_ms SHARED_REGION_MIN_MS <=? head_end in
      let start_is_representable := (start_ms =? 0) || (INTRO_START_SNAP_MS <=? start_ms) in
      raw_region_fits && start_is_representable
      && (minimum <=? length)
      && (length <=? INTRO_MAX_MS + END_REFINEMENT_OUTWARD_MS)
      && (start_ms <=? head_end)
      && (end_ms <=? Z.min (head_end + END_REFINEMENT_OUTWARD_MS) duration_ms)
    else if (kind =s "credits") && (analyzer =s "blackframe") then
      (end_ms =? duration_ms)
      && (BLACK_CREDITS_MIN_MS <=? length)
      && (sat_sub duration_ms CREDITS_WINDOW_MS <=? start_ms)
    else if (kind =s "credits") && (analyzer =s "chromaprint") then
      (sat_add 64 start_ms SHARED_REGION_MIN_MS <=? duration_ms)
      && (SHARED_REGION_MIN_MS - END_REFINEMENT_INWARD_MS <=? length)
      && (duration_ms / 2 <=? start_ms)
      && (sat_sub duration_ms CREDITS_WINDOW_MS <=? start_ms)
    else false.

(** ** What a title says *)

Definition colon_str : string := ":".

(** The closure [word]: the token is the needle, or continues with a colon. *)
Definition word (w needle : string) : bool :=
  (w =s needle) || is_some_and (starts_with colon_str) (strip_prefix needle w).

Definition has (tokens : list string) (needle : string) : bool :=
  existsb (fun w => word w needle) tokens.

(** [tokens.windows(2).any(|w| w\[0\] == a && word(w\[1\], b))]. *)
Fixpoint phrase (tokens : list string) (a b : string) : bool :=
  match tokens with
  | x :: ((y :: _) as rest) => ((x =s a) && word y b) || phrase rest a b
  | _ => false
  end.

Definition kind_of (title : string) : option string :=
  let t := to_ascii_lowercase (trim title) in
  if starts_with "end of " t || ends_with " end" t || ends_with " start" t then None
  else
    let tokens := split_ascii_whitespace t in
    let has := has tokens in
    let phrase := phrase tokens in
    if has "recap" || has "recaps" || has "previously" then Some "recap"
    else if has "intro" || has "introduction" || has "opening" || has "op"
            || phrase "main" "title" || phrase "main" "titles"
            || phrase "title" "sequence" || phrase "titles" "sequence"
    then Some "intro"
    else if has "credit" || has "credits" || has "ending" || has "outro" || has "closing" || has "ed"
    then Some "credits"
    else None.

Definition bounds (kind : string) : Z * Z :=
  if kind =s "credits" then (SHARED_REGION_MIN_MS, CREDITS_WINDOW_MS)
  else (SHARED_REGION_MIN_MS, INTRO_MAX_MS).

(** ** The named boundaries *)

Definition kinds (chapters : list Chapter) : list (option string) :=
  map (fun c => title c ≫= kind_of) chapters.

(** A candidate whose scan-direction neighbour names the same kind. *)
Definition ambiguous (ks : list (option string)) (i : nat) (kind : string) : bool :=
  if kind =s "credits"
  then (0 <? i)%nat && (ks !! Nat.pred i ≟ Some (Some kind))
  else (ks !! S i ≫= id) ≟ Some kind.

Definition chapter_end (chapters : list Chapter) (duration_ms : Z) (i : nat) (c : Chapter) : Z :=
  let cap := if 0 <? duration_ms then Z.max duration_ms (start_ms c) else u64_max in
  Z.min (unwrap_or (opt_or (end_ms c) (start_ms <$> chapters !! S i)) duration_ms) cap.

(** One iteration of the loop: [None] on each [continue]. *)
Definition candidate_at (chapters : list Chapter) (duration_ms : Z) (i : nat) (c : Chapter)
    : option Named :=
  match kinds chapters !! i ≫= id with
  | None => None
  | Some kind =>
      if ambiguous (kinds chapters) i kind then None
      else
        let end_ms := chapter_end chapters duration_ms i c in
        if end_ms <=? start_ms c then None
        else
          let '(shortest, longest) := bounds kind in
          if negb ((shortest <=? end_ms - start_ms c) && (end_ms - start_ms c <=? longest)) then None
          else Some (mkNamed kind (start_ms c) end_ms)
  end.

Definition candidates (chapters : list Chapter) (duration_ms : Z) : list Named :=
  omap id (imap (candidate_at chapters duration_ms) chapters).

(** [next] for recap and intro, [next_back] for credits. *)
Definition pick (cands : list Named) (kind : string) : option Named :=
  let of_kind := List.filter (fun n => n_kind n =s kind) cands in
  if kind =s "credits" then last of_kind else head of_kind.

Definition named (chapters : list Chapter) (duration_ms : Z) : list Named :=
  let cands := candidates chapters duration_ms in
  sort_by (fun a b => n_start_ms a ?= n_start_ms b)
    (omap (pick cands) ["recap"; "intro"; "credits"]).

Definition kind_bit (kind : string) : Z :=
  if kind =s "recap" then NAMED_RECAP
  else if kind =s "intro" then NAMED_INTRO
  else if kind =s "credits" then NAMED_CREDITS
  else 0.

Definition named_kind_mask (chapters : list Chapter) (duration_ms : Z) : Z :=
  fold_left (fun mask b => Z.lor mask (kind_bit (n_kind b))) (named chapters duration_ms) 0.

(** * What the chapter boundaries guarantee *)

(** ** Regression examples (the tests of segments.rs) *)

Definition at_ (start : Z) (t : string) : Chapter := mkChapter start None (Some t).

Definition andor : list Chapter :=
  [at_ 4000 "Recap"; at_ 69708 "Scene 1"; at_ 69750 "Intro"; at_ 93417 "Scene 2"; at_ 2198667 "Credits"].

Example named_andor :
  named andor 2417270
  = [mkNamed "recap" 4000 69708; mkNamed "intro" 69750 93417; mkNamed "credits" 2198667 2417270].
Proof. vm_compute. reflexivity. Qed.
Example named_end_markers :
  map n_end_ms (named [at_ 0 "Recap"; at_ 64022 "End of Recap"; at_ 470512 "Intro";
                       at_ 512679 "End of Intro"; at_ 2093592 "Credits"] 2142599)
  = [64022; 512679; 2142599].
Proof. vm_compute. reflexivity. Qed.
Example opening_credits :
  map n_kind (named [at_ 0 "Opening Credits"; at_ 60000 "Act 1"] 1200000) = ["intro"].
Proof. vm_compute. reflexivity. Qed.
Example unknown_duration :
  named [mkChapter 30000 (Some 120000) (Some "Intro")] 0 = [mkNamed "intro" 30000 120000].
Proof. vm_compute. reflexivity. Qed.
Example last_credits :
  named [at_ 0 "Part One"; at_ 1200000 "Credits"; at_ 1260000 "Part Two"; at_ 2520000 "End Credits"]
    2580000 = [mkNamed "credits" 2520000 2580000].
Proof. vm_compute. reflexivity. Qed.

(** ** Kinds *)

Definition KINDS : list string := ["recap"; "intro"; "credits"].

Lemma kind_of_kinds t k : kind_of t = Some k -> k ∈ KINDS.
Proof.
  unfold kind_of. set (tl := to_ascii_lowercase (trim t)). clearbody tl.
  destruct (_ || _ || _); [done|]. cbv zeta.
  repeat (destruct (_ : bool); [intros [= <-]; set_solver|]). done.
Qed.

(** ** Candidates *)

Lemma candidates_elem cs d n :
  n ∈ candidates cs d <-> exists i c, cs !! i = Some c /\ candidate_at cs d i c = Some n.
Proof.
  unfold candidates. rewrite list_elem_of_omap. split.
  - intros (o & Ho & Hn). apply list_elem_of_lookup in Ho as [i Ho]. rewrite list_lookup_imap in Ho.
    destruct (cs !! i) as [c|] eqn:E; [|done]. simpl in Ho. injection Ho as <-. eauto.
  - intros (i & c & Hc & Hn). exists (candidate_at cs d i c). split; [|done].
    apply list_elem_of_lookup. exists i. by rewrite list_lookup_imap, Hc.
Qed.

(** What a candidate boundary has been checked for. *)
Definition sound_boundary (cs : list Chapter) (d : Z) (n : Named) : Prop :=
  exists i c, cs !! i = Some c
    /\ (title c ≫= kind_of) = Some (n_kind n) /\ n_start_ms n = start_ms c
    /\ n_end_ms n = chapter_end cs d i c
    /\ fst (bounds (n_kind n)) <= n_end_ms n - n_start_ms n <= snd (bounds (n_kind n))
    /\ ambiguous (kinds cs) i (n_kind n) = false.

Lemma candidate_sound cs d i c n :
  cs !! i = Some c -> candidate_at cs d i c = Some n -> sound_boundary cs d n.
Proof.
  intros Hc. unfold candidate_at. assert (kinds cs !! i = Some (title c ≫= kind_of)) as Hk.
  { unfold kinds. apply list_lookup_fmap_Some. eauto. }
  rewrite Hk. cbn [mbind option_bind]. unfold id at 1.
  destruct (title c ≫= kind_of) as [k|] eqn:Ek; [|done].
  destruct (ambiguous (kinds cs) i k) eqn:Ha; [done|].
  destruct (Z.leb_spec (chapter_end cs d i c) (start_ms c)); [done|].
  destruct (bounds k) as [lo hi] eqn:Hb. destruct (negb _) eqn:Hl; [done|]. bsplit. zbool.
  intros [= <-]. exists i, c. cbn. rewrite Hb. cbn. split_and!; auto.
Qed.

Lemma candidate_start cs d i c n : candidate_at cs d i c = Some n -> n_start_ms n = start_ms c.
Proof.
  unfold candidate_at. destruct (kinds cs !! i ≫= id) as [k|]; [|done].
  destruct (ambiguous _ _ _); [done|]. destruct (_ <=? _); [done|].
  destruct (bounds k). destruct (negb _); [done|]. by intros [= <-].
Qed.

Lemma pick_elem cands k n : pick cands k = Some n -> n ∈ cands /\ n_kind n = k.
Proof.
  unfold pick. intros H.
  assert (n ∈ List.filter (fun x => n_kind x =s k) cands) as Hin.
  { destruct (k =s "credits"); [by apply last_Some_elem_of|]. by apply head_Some_elem_of. }
  apply elem_of_filter_bool in Hin as [Hin Hk]. split; [done|]. by apply String.eqb_eq.
Qed.

Lemma named_elem cs d n : n ∈ named cs d <-> n_kind n ∈ KINDS /\ pick (candidates cs d) (n_kind n) = Some n.
Proof.
  unfold named. rewrite sort_by_perm, list_elem_of_omap. split.
  - intros (k & Hk & Hp). pose proof (pick_elem _ _ _ Hp) as [_ <-]. done.
  - intros [Hk Hp]. eauto.
Qed.

(** The named boundaries come in start order, at most one of each kind, and
    each is a chapter whose title names the kind, running to its stated end, the
    next chapter or the end of the file, and lasting no less and no more than
    the kind allows; with a known duration it never ends past the file unless
    the chapter itself starts there. *)
Theorem named_sound cs d :
  StronglySorted (fun a b => n_start_ms a <= n_start_ms b) (named cs d)
  /\ (forall a b, a ∈ named cs d -> b ∈ named cs d -> n_kind a = n_kind b -> a = b)
  /\ (forall n, n ∈ named cs d ->
        sound_boundary cs d n /\ n_start_ms n < n_end_ms n
        /\ (0 < d -> n_start_ms n <= d -> n_end_ms n <= d)).
Proof.
  split_and!.
  - assert (StronglySorted (cmp_le (fun a b => n_start_ms a ?= n_start_ms b)) (named cs d)) as Hs.
    { apply (sort_by_ok (fun _ => True)); [|by apply Forall_true].
      by apply (cmp_ok_on _ (fun _ => True) n_start_ms), z_cmp_ok. }
    induction Hs as [|a l _ IH Ha]; constructor; [done|].
    eapply Forall_impl; [exact Ha|]. intros b H. exact H.
  - intros a b [_ Ha]%named_elem [_ Hb]%named_elem Hk. rewrite Hk in Ha. congruence.
  - intros n [_ Hp]%named_elem. apply pick_elem in Hp as [Hin _].
    apply candidates_elem in Hin as (i & c & Hc & Hn).
    pose proof (candidate_sound _ _ _ _ _ Hc Hn) as Hs. split; [done|].
    destruct Hs as (i' & c' & _ & _ & Hst & He & [Hlo _] & _). split.
    + unfold bounds, SHARED_REGION_MIN_MS in Hlo. destruct (n_kind n =s "credits"); simpl in Hlo; lia.
    + intros Hd Hsd. rewrite He. unfold chapter_end. rewrite (proj2 (Z.ltb_lt 0 d) Hd). lia.
Qed.

Lemma omap_imap_sorted (cs : list Chapter) (g : nat -> Chapter -> option Named) :
  (forall i c n, cs !! i = Some c -> g i c = Some n -> n_start_ms n = start_ms c) ->
  StronglySorted (fun a b => start_ms a <= start_ms b) cs ->
  StronglySorted (fun a b => n_start_ms a <= n_start_ms b) (omap id (imap g cs)).
Proof.
  intros Hg Hs. revert g Hg. induction Hs as [|c cs Hs IH Hc]; intros g Hg; [constructor|].
  assert (StronglySorted (fun a b => n_start_ms a <= n_start_ms b) (omap id (imap (g ∘ S) cs))) as Ht.
  { apply IH. intros i x n Hx Hn. by apply (Hg (S i)). }
  rewrite imap_cons. destruct (g 0%nat c) as [n|] eqn:E.
  2:{ change (omap id (None :: imap (g ∘ S) cs)) with (omap id (imap (g ∘ S) cs)). exact Ht. }
  change (omap id (Some n :: imap (g ∘ S) cs)) with (n :: omap id (imap (g ∘ S) cs)).
  constructor; [exact Ht|].
  apply Forall_forall. intros m (o & Ho & Hm)%list_elem_of_omap.
  apply list_elem_of_lookup in Ho as [i Ho]. rewrite list_lookup_imap in Ho.
  destruct (cs !! i) as [x|] eqn:Ex; [|done]. simpl in Ho. injection Ho as <-.
  rewrite (Hg 0%nat c n eq_refl E), (Hg (S i) x m Ex Hm). rewrite Forall_forall in Hc.
  apply Hc. apply list_elem_of_lookup. eauto.
Qed.

Lemma filter_sorted {A} (R : A -> A -> Prop) f l :
  StronglySorted R l -> StronglySorted R (List.filter f l).
Proof.
  induction 1 as [|a l _ IH Ha]; simpl; [constructor|]. destruct (f a); [|done].
  constructor; [done|]. rewrite Forall_forall in *. intros x Hx. apply Ha.
  by apply elem_of_filter_bool in Hx as [Hx _].
Qed.

Lemma sorted_last (l : list Named) n m :
  StronglySorted (fun a b => n_start_ms a <= n_start_ms b) l -> last l = Some n -> m ∈ l ->
  n_start_ms m <= n_start_ms n.
Proof.
  induction 1 as [|a l Hs IH Ha]; [done|]. intros Hl Hm. destruct l as [|b l].
  - injection Hl as <-. apply list_elem_of_singleton in Hm as ->. lia.
  - change (last (b :: l) = Some n) in Hl. apply elem_of_cons in Hm as [->|Hm]; [|by apply IH].
    rewrite Forall_forall in Ha. apply Ha. by apply last_Some_elem_of.
Qed.

Lemma sorted_head (l : list Named) n m :
  StronglySorted (fun a b => n_start_ms a <= n_start_ms b) l -> head l = Some n -> m ∈ l ->
  n_start_ms n <= n_start_ms m.
Proof.
  intros Hs Hh Hm. destruct Hs as [|a l _ Ha]; [done|]. injection Hh as ->.
  apply elem_of_cons in Hm as [->|Hm]; [lia|]. rewrite Forall_forall in Ha. by apply Ha.
Qed.

(** In a file whose chapters are in start order, recap and intro are the
    first boundary of their kind and credits the last, so mid-file credits of a
    double episode lose to the ones at the end; a kind is missing only when no
    chapter qualifies. *)
Theorem named_first_last cs d n m :
  StronglySorted (fun a b => start_ms a <= start_ms b) cs ->
  n ∈ named cs d -> m ∈ candidates cs d -> n_kind m = n_kind n ->
  if n_kind n =s "credits" then n_start_ms m <= n_start_ms n else n_start_ms n <= n_start_ms m.
Proof.
  intros Hs [_ Hp]%named_elem Hm Hk. unfold pick in Hp.
  assert (StronglySorted (fun a b => n_start_ms a <= n_start_ms b)
            (List.filter (fun x => n_kind x =s n_kind n) (candidates cs d))) as Hso.
  { apply filter_sorted, omap_imap_sorted; [|done]. intros i c x Hc Hx.
    by eapply candidate_start. }
  assert (m ∈ List.filter (fun x => n_kind x =s n_kind n) (candidates cs d)) as Hin.
  { by rewrite elem_of_filter_bool, String.eqb_eq. }
  destruct (n_kind n =s "credits"); [by eapply sorted_last|by eapply sorted_head].
Qed.

(** A kind bit other than the recap's, intro's or credits' own is not set. *)
Lemma mask_fold l acc i :
  Z.testbit (fold_left (fun mask b => Z.lor mask (kind_bit (n_kind b))) l acc) i
  = Z.testbit acc i || existsb (fun b => Z.testbit (kind_bit (n_kind b)) i) l.
Proof.
  revert acc. induction l as [|b l IH]; intros acc; simpl; [by rewrite orb_false_r|].
  rewrite IH, Z.lor_spec. by rewrite orb_assoc.
Qed.

Definition bit_of (kind : string) : Z := Z.log2 (kind_bit kind).

(** The persisted mask has exactly the bits of the kinds that are named, so
    it says "complete" exactly when the chapters name both intro and credits. *)
Theorem mask_spec cs d :
  (forall k, k ∈ KINDS ->
     (Z.testbit (named_kind_mask cs d) (bit_of k) = true <-> exists n, n ∈ named cs d /\ n_kind n = k))
  /\ (Z.land (named_kind_mask cs d) NAMED_COMPLETE = NAMED_COMPLETE <->
      (exists n, n ∈ named cs d /\ n_kind n = "intro")
      /\ (exists n, n ∈ named cs d /\ n_kind n = "credits")).
Proof.
  assert (H1 : forall k, k ∈ KINDS -> (Z.testbit (named_kind_mask cs d) (bit_of k) = true
            <-> exists n, n ∈ named cs d /\ n_kind n = k)).
  { intros k Hk. unfold named_kind_mask. rewrite mask_fold, Z.bits_0, orb_false_l, existsb_exists.
    setoid_rewrite <- list_elem_of_In. split; intros (n & Hn & Hb); exists n; (split; [done|]).
    - apply named_elem in Hn as [Hkn _]. unfold KINDS in Hk, Hkn.
      rewrite !elem_of_cons, elem_of_nil in Hk, Hkn.
      destruct Hk as [->|[->|[->|[]]]], Hkn as [E|[E|[E|[]]]]; rewrite E in Hb |- *; done.
    - subst k. unfold KINDS in Hk. rewrite !elem_of_cons, elem_of_nil in Hk.
      destruct Hk as [E|[E|[E|[]]]]; by rewrite E. }
  split; [exact H1|].
  assert ("intro" ∈ KINDS /\ "credits" ∈ KINDS) as [Ki Kc]
    by (split; apply list_elem_of_In; simpl; auto).
  rewrite <- (H1 "intro" Ki), <- (H1 "credits" Kc).
  change (bit_of "intro") with 1. change (bit_of "credits") with 2.
  change NAMED_COMPLETE with 6. split.
  - intros H. assert (forall i, Z.testbit (named_kind_mask cs d) i && Z.testbit 6 i = Z.testbit 6 i) as Hb.
    { intros i. by rewrite <- Z.land_spec, H. }
    pose proof (Hb 1) as B1. pose proof (Hb 2) as B2. simpl in B1, B2.
    by rewrite andb_true_r in B1, B2.
  - intros [B1 B2]. apply Z.bits_inj'. intros i Hi. rewrite Z.land_spec.
    destruct (Z.eq_dec i 1) as [->|]; [by rewrite B1|]. destruct (Z.eq_dec i 2) as [->|]; [by rewrite B2|].
    assert (Z.testbit 6 i = false) as ->; [|by rewrite andb_false_r].
    destruct (Z.eq_dec i 0) as [->|]; [done|]. apply Z.bits_above_log2; [lia|].
    change (Z.log2 6) with 2. lia.
Qed.

(** An inferred answer that passes the trust boundary is a non-empty span
    inside the file, of a kind and analyzer the detector has, no longer than
    that kind may be, where recaps start the file, intros lie in the analysed
    head (plus the refinement margin) and credits in the closing window. *)
Theorem inferred_bounds kind analyzer s e d :
  0 <= s -> d < u64_max -> inferred_within_bounds kind analyzer s e d = true ->
  s < e <= d
  /\ ((kind = "recap" /\ s = 0 /\ RECAP_MIN_MS <= e - s <= RECAP_MAX_MS)
      \/ (kind = "intro" /\ s + SHARED_REGION_MIN_MS <= head_end d
          /\ e <= head_end d + END_REFINEMENT_OUTWARD_MS
          /\ 10000 <= e - s <= INTRO_MAX_MS + END_REFINEMENT_OUTWARD_MS)
      \/ (kind = "credits" /\ d - CREDITS_WINDOW_MS <= s
          /\ (e = d \/ s + SHARED_REGION_MIN_MS <= d) /\ 10000 <= e - s <= CREDITS_WINDOW_MS)).
Proof.
  unfold u64_max. intros Hs Hd. unfold inferred_within_bounds.
  destruct ((e <=? s) || (d <? e)) eqn:E0; [done|]. bsplit. zbool.
  assert (head_end d <= d) as Hhe.
  { unfold head_end, INTRO_PERCENT_MIN_DURATION_MS. destruct (Z.leb_spec 300000 d); [|lia].
    pose proof (Z.div_le_upper_bound d 4 d). lia. }
  destruct ((kind =s "recap") && _) eqn:K1; [|destruct ((kind =s "intro") && _) eqn:K2;
    [|destruct ((kind =s "credits") && (analyzer =s "blackframe")) eqn:K3;
      [|destruct ((kind =s "credits") && (analyzer =s "chromaprint")) eqn:K4; [|done]]]];
    intros Hin; bsplit; zbool;
    repeat match goal with H : (_ =s _) = true |- _ => apply String.eqb_eq in H end;
    (split; [lia|]).
  - left. unfold RECAP_MIN_MS, RECAP_MAX_MS in *. split_and!; try done; lia.
  - right. left. unfold sat_add, SHARED_REGION_MIN_MS, END_REFINEMENT_INWARD_MS,
      END_REFINEMENT_OUTWARD_MS, INTRO_MAX_MS in *. split_and!; try done; lia.
  - right. right. unfold sat_sub, BLACK_CREDITS_MIN_MS, CREDITS_WINDOW_MS in *.
    split_and!; try done; try lia; by left.
  - right. right. unfold sat_add, sat_sub, SHARED_REGION_MIN_MS, END_REFINEMENT_INWARD_MS,
      CREDITS_WINDOW_MS in *. split_and!; try done; try lia; right; lia.
Qed.

(** ** Witnesses *)

Lemma named_first_last_witness :
  n_start_ms (mkNamed "credits" 1200000 1260000) <= n_start_ms (mkNamed "credits" 2520000 2580000).
Proof.
  apply (named_first_last [at_ 0 "Part One"; at_ 1200000 "Credits"; at_ 1260000 "Part Two";
           at_ 2520000 "End Credits"] 2580000 (mkNamed "credits" 2520000 2580000)
           (mkNamed "credits" 1200000 1260000)).
  - repeat constructor; simpl; lia.
  - rewrite last_credits. left.
  - vm_compute. left.
  - reflexivity.
Defined.

Lemma inferred_bounds_witness :
  inferred_within_bounds "intro" "chromaprint" 30000 90000 1200000 = true /\ 30000 < 90000 <= 1200000.
Proof.
  assert (inferred_within_bounds "intro" "chromaprint" 30000 90000 1200000 = true) as H
    by (vm_compute; reflexivity).
  split; [exact H|].
  apply (inferred_bounds "intro" "chromaprint" 30000 90000 1200000); [lia|unfold u64_max; lia|exact H].
Defined.
