(* ===== verification/Playback.v ===== *)
(** * Seeking and playlist readiness (kahawai-playback, src/seek.rs, src/playlist.rs)

    Which part of a multi-part timeline a position lives in, how a burst of
    seek intents coalesces, and when a playlist is handed to the client. *)
From S2P Require Import Prelude Floats.
#[local] Open Scope Z_scope.

(** ** Seeking *)

(** The trait [TimelinePart]. *)
Class TimelinePart (P : Type) := {
  base_ms : P -> Z;
  module_id : P -> string;
}.

Definition part_index {P} `{TimelinePart P} (parts : list P) (abs_ms : Z) : nat :=
  unwrap_or (rposition (fun part => base_ms part <=? abs_ms) parts) 0%nat.

Definition reads_from {P} `{TimelinePart P} (start_host : string) (parts : list P) (id : string) : bool :=
  (start_host =s id) || existsb (fun part => module_id part =s id) parts.

Record PendingSeek := mkSeek {
  generation : Z;
  position_ms : Z;
  ps_audio_track : option Z;
  ps_video_track : option Z;
  replan_subs : bool;
}.

Definition merge (prev : option PendingSeek) (next : PendingSeek) : PendingSeek :=
  match prev with
  | Some prev =>
      {| generation := generation next;
         position_ms := position_ms next;
         ps_audio_track := opt_or (ps_audio_track next) (ps_audio_track prev);
         ps_video_track := opt_or (ps_video_track next) (ps_video_track prev);
         replan_subs := replan_subs next || replan_subs prev |}
  | None => next
  end.

(** ** Playlists *)

Definition MAX_RUNWAY_SECS : float := F64.lit 30 0.
Definition FLOOR_RUNWAY_SECS : float := F64.lit 65 (-1).
Definition ENDLIST : string := "#EXT-X-ENDLIST".

Definition runway_secs (target_duration_secs : option Z) : float :=
  match target_duration_secs with
  | Some target =>
      if 0 <? target
      then fmax FLOOR_RUNWAY_SECS (fmin (F64.mul (F64.lit 3 0) (F64.of_int target)) MAX_RUNWAY_SECS)
      else FLOOR_RUNWAY_SECS
  | None => FLOOR_RUNWAY_SECS
  end.

(** [trim_end_matches(',')]. *)
Fixpoint trim_commas (s : string) : string :=
  match s with
  | EmptyString => EmptyString
  | String a s =>
      match trim_commas s with
      | EmptyString => if Ascii.eqb a (byte 44) then EmptyString else String a EmptyString
      | r => String a r
      end
  end.

Definition line_secs (line : string) : option float :=
  (trim_commas <$> strip_prefix "#EXTINF:" line) ≫= parse_f64.

(** [Iterator::sum] starts from -0.0. *)
Definition playlist_span_secs (playlist : string) : float :=
  fold_left F64.add (omap line_secs (lines playlist)) (SpecFloat.S754_zero true).

Definition playlist_text_ready (playlist : string) (target_duration_secs : option Z) : bool :=
  str_contains ENDLIST playlist || fge (playlist_span_secs playlist) (runway_secs target_duration_secs).

(** The file as [read_to_string] gives it; [None] is an error. *)
Definition playlist_ready (file : option string) (target_duration_secs : option Z) : bool :=
  match file with
  | Some text => playlist_text_ready text target_duration_secs
  | None => false
  end.
Definition playlist_finished (file : option string) : bool := is_some_and (str_contains ENDLIST) file.

(** ** Properties *)

(** One part of a test timeline. *)
#[local] Instance pair_part : TimelinePart (Z * string) := {| base_ms := fst; module_id := snd |}.

Section Seek.
Context {P : Type} `{TimelinePart P}.

Lemma rposition_None (f : P -> bool) l : rposition f l = None <-> forall a, a ∈ l -> f a = false.
Proof.
  induction l as [|a l IH]; simpl.
  - split; [|done]. intros _ a Ha. by apply not_elem_of_nil in Ha.
  - destruct (rposition f l) as [n|] eqn:Hr.
    + split; [done|]. intros Hall. exfalso.
      assert (Some n = None) as [=]. apply IH. intros b Hb. apply Hall. by right.
    + destruct (f a) eqn:Hf.
      * split; [done|]. intros Hall. rewrite Hall in Hf; [done|left].
      * split; [|done]. intros _ b [->|Hb]%elem_of_cons; [done|by apply IH].
Qed.

(** A position belongs to the part whose interval holds it: with bases in
    order, the part found starts at or before the position and the next one
    starts after it, a boundary already being the next part; a position before
    the first base or after the last clamps to the first or last part. *)
Theorem part_index_spec (parts : list P) abs_ms :
  parts <> [] -> StronglySorted (fun a b => base_ms a <= base_ms b) parts ->
  exists part, parts !! part_index parts abs_ms = Some part
    /\ (base_ms part <= abs_ms \/ (part_index parts abs_ms = 0%nat
                                   /\ forall p, p ∈ parts -> abs_ms < base_ms p))
    /\ (forall next, parts !! S (part_index parts abs_ms) = Some next ->
        abs_ms < base_ms next)
    /\ (forall i p, parts !! i = Some p -> abs_ms < base_ms p -> (part_index parts abs_ms <= i)%nat).
Proof.
  intros Hne Hs. unfold part_index. destruct (rposition _ parts) as [n|] eqn:E; cbn [unwrap_or].
  - apply rposition_Some in E as (part & Hl & Hb & Hmax). zbool. exists part.
    split_and!; [done|by left| |].
    + intros next Hn. specialize (Hmax (S n) next ltac:(lia) Hn). zbool. lia.
    + intros i p Hi Hp. destruct (Nat.le_gt_cases n i) as [|Hin]; [done|]. exfalso.
      assert (base_ms p <= base_ms part); [|lia]. clear -Hs Hi Hl Hin.
      revert i n Hi Hl Hin. induction Hs as [|a l Hs IH Ha]; intros i n Hi Hl Hlt; [done|].
      destruct n as [|n]; [lia|]. simpl in Hl. destruct i as [|i].
      * injection Hi as ->. rewrite Forall_forall in Ha. apply Ha. apply list_elem_of_lookup. eauto.
      * simpl in Hi. apply (IH i n); [done|done|lia].
  - rewrite rposition_None in E. destruct parts as [|p parts]; [done|]. exists p.
    split_and!; [done|right; split; [done|]|..].
    + intros q Hq. specialize (E q Hq). zbool. lia.
    + intros next Hn. specialize (E next). zbool. destruct (Z.leb_spec (base_ms next) abs_ms); [|lia].
      assert (true = false); [|done]. apply E, list_elem_of_lookup. by exists 1%nat.
    + intros; lia.
Qed.
End Seek.

Lemma opt_or_assoc {A} (a b c : option A) : opt_or a (opt_or b c) = opt_or (opt_or a b) c.
Proof. by destruct a. Qed.

(** The last explicit choice among some intents. *)
Definition last_choice {A} (f : PendingSeek -> option A) (l : list PendingSeek) : option A :=
  fold_left (fun acc s => opt_or (f s) acc) l None.

(** A burst of intents coalesces to one that does not depend on how it was
    grouped: position and generation are the newest intent's, each explicit
    track choice survives until a newer one replaces it, and a changed burn
    pick is never forgotten. *)
Theorem merge_burst (l : list PendingSeek) s :
  let r := fold_left (fun acc x => Some (merge acc x)) (l ++ [s]) None in
  exists m, r = Some m
    /\ generation m = generation s /\ position_ms m = position_ms s
    /\ ps_audio_track m = last_choice ps_audio_track (l ++ [s])
    /\ ps_video_track m = last_choice ps_video_track (l ++ [s])
    /\ replan_subs m = existsb replan_subs (l ++ [s])
    /\ forall a b c, merge (Some (merge (Some a) b)) c = merge (Some a) (merge (Some b) c).
Proof.
  assert (Hall : forall acc l, match fold_left (fun acc x => Some (merge acc x)) l acc with
    | Some m => ps_audio_track m = fold_left (fun o s => opt_or (ps_audio_track s) o) l (acc ≫= ps_audio_track)
             /\ ps_video_track m = fold_left (fun o s => opt_or (ps_video_track s) o) l (acc ≫= ps_video_track)
             /\ replan_subs m = map_or false replan_subs acc || existsb replan_subs l
    | None => l = [] /\ acc = None
    end).
  { intros acc l'. revert acc. induction l' as [|x l' IH]; intros acc; simpl.
    - destruct acc; [|done]. simpl. by rewrite orb_false_r.
    - specialize (IH (Some (merge acc x))). destruct (fold_left _ l' _) as [m|]; [|by destruct IH].
      destruct IH as (-> & -> & ->). destruct acc as [a|]; simpl.
      + split_and!; [done|done|]. by destruct (replan_subs x), (replan_subs a).
      + split_and!; [by destruct (ps_audio_track x)|by destruct (ps_video_track x)|done]. }
  intros r. subst r. specialize (Hall None (l ++ [s])). rewrite fold_left_app in *. simpl in *.
  eexists. split; [done|]. destruct Hall as (Ha & Hv & Hr).
  rewrite Ha, Hv, Hr. unfold last_choice.
  destruct (fold_left (fun acc x => Some (merge acc x)) l None);
    (split_and!; [done|done|done|done|done|]); intros [] [] []; unfold merge; simpl;
    by rewrite !opt_or_assoc, orb_assoc.
Qed.

(** ** Readiness *)

Lemma fmax_le x y z : fle x z = true -> fle y z = true -> fle (fmax x y) z = true.
Proof.
  intros Hx Hy. unfold fmax. destruct (fle_nan _ _ Hx) as [-> _], (fle_nan _ _ Hy) as [-> _].
  by destruct (flt x y).
Qed.

Lemma runway_bounds t :
  fle FLOOR_RUNWAY_SECS (runway_secs t) = true /\ fle (runway_secs t) MAX_RUNWAY_SECS = true.
Proof.
  unfold runway_secs. destruct t as [t|]; [|by vm_compute]. destruct (0 <? t); [|by vm_compute].
  split.
  - by apply fmax_ge_l.
  - apply fmax_le; [by vm_compute|]. by apply fmin_le_r.
Qed.

(** A playlist is never handed over with less than the 6.5 s floor of
    content unless the run has finished, and never held back once it shows 30 s
    or has finished, whatever duration it declares. *)
Theorem readiness_gate playlist t :
  (playlist_text_ready playlist t = true -> str_contains ENDLIST playlist = false ->
   fle FLOOR_RUNWAY_SECS (playlist_span_secs playlist) = true)
  /\ (fle MAX_RUNWAY_SECS (playlist_span_secs playlist) = true -> playlist_text_ready playlist t = true)
  /\ (str_contains ENDLIST playlist = true -> playlist_text_ready playlist t = true).
Proof.
  destruct (runway_bounds t) as [Hlo Hhi]. unfold playlist_text_ready. split_and!.
  - intros H He. rewrite He in H. simpl in H. by eapply fle_trans.
  - intros H. apply orb_true_iff. right. by eapply fle_trans.
  - by intros ->.
Qed.

(** ** Witnesses *)

Definition two_parts : list (Z * string) := [(0, "h1"); (3600000, "h2")].

Lemma part_index_spec_witness :
  part_index two_parts 3600000 = 1%nat /\ two_parts !! part_index two_parts 9000000 = Some (3600000, "h2").
Proof.
  split; [reflexivity|].
  destruct (part_index_spec two_parts 9000000) as (part & Hl & _); [discriminate| |].
  - repeat constructor; simpl; lia.
  - rewrite Hl. vm_compute in Hl. congruence.
Defined.

Definition short_playlist : string :=
  join (String (byte 10) EmptyString) ["#EXTM3U"; "#EXTINF:4.000000,"; "a.ts"; "#EXTINF:2.500000,"; "b.ts"].

Lemma readiness_gate_witness :
  playlist_text_ready short_playlist (Some 2) = true
  /\ playlist_text_ready short_playlist (Some 4) = false
  /\ fle FLOOR_RUNWAY_SECS (playlist_span_secs short_playlist) = true.
Proof.
  split; [vm_compute; reflexivity|]. split; [vm_compute; reflexivity|].
  apply (proj1 (readiness_gate short_playlist (Some 2))); vm_compute; reflexivity.
Defined.
