(* ===== verification/Registry.v ===== *)
(** * The transcoder registry and its reservations (kahawai-hub, src/registry.rs, src/sessions/reschedule.rs)

    The tables placement reads under one set of locks, the snapshot taken from
    them, and the operations that change them: links, capabilities, load,
    drains. A link's sender is identified by its channel. The database writes
    of [set_disabled] happen before the part modelled here. *)
From S2P Require Import Prelude Floats Bench Placement.
#[local] Open Scope Z_scope.

Definition LOCAL_TRANSCODER : string := "local-transcoder".

Record TcLink := mkLink { sender : nat; protocol_minor : Z }.

Record Registry := mkRegistry {
  transcoder_caps : gmap string BoxCaps;
  tc_links : gmap string TcLink;
  tc_load : gmap string nat;
  tc_pace : gmap (string * string) float;
  tc_link_rate : gmap string Z;
  disabled_set : gset string;
  reg_local_bench : option BenchResults;
  local_video_executor : bool;
}.

Definition with_load (r : Registry) (l : gmap string nat) : Registry :=
  mkRegistry (transcoder_caps r) (tc_links r) l (tc_pace r) (tc_link_rate r) (disabled_set r)
    (reg_local_bench r) (local_video_executor r).
Definition with_links (r : Registry) (l : gmap string TcLink) : Registry :=
  mkRegistry (transcoder_caps r) l (tc_load r) (tc_pace r) (tc_link_rate r) (disabled_set r)
    (reg_local_bench r) (local_video_executor r).
Definition with_caps (r : Registry) (c : gmap string BoxCaps) : Registry :=
  mkRegistry c (tc_links r) (tc_load r) (tc_pace r) (tc_link_rate r) (disabled_set r)
    (reg_local_bench r) (local_video_executor r).
Definition with_rates (r : Registry) (l : gmap string Z) : Registry :=
  mkRegistry (transcoder_caps r) (tc_links r) (tc_load r) (tc_pace r) l (disabled_set r)
    (reg_local_bench r) (local_video_executor r).
Definition with_disabled (r : Registry) (d : gset string) : Registry :=
  mkRegistry (transcoder_caps r) (tc_links r) (tc_load r) (tc_pace r) (tc_link_rate r) d
    (reg_local_bench r) (local_video_executor r).
Definition with_pace (r : Registry) (p : gmap (string * string) float) : Registry :=
  mkRegistry (transcoder_caps r) (tc_links r) (tc_load r) p (tc_link_rate r) (disabled_set r)
    (reg_local_bench r) (local_video_executor r).

Definition load_of (r : Registry) (id : string) : nat := unwrap_or (tc_load r !! id) 0%nat.

Definition local_video_executor_enabled_of (r : Registry) : bool :=
  local_video_executor r && negb (bool_decide (LOCAL_TRANSCODER ∈ disabled_set r)).

(** [with_fleet]: only linked boxes that reported capabilities. *)
Definition snapshot (r : Registry) : FleetSnapshot := {|
  boxes := map_imap (fun id c =>
             link ← tc_links r !! id;
             Some (mkBox c (protocol_minor link) (load_of r id)
                     (bool_decide (id ∈ disabled_set r)) (tc_link_rate r !! id)))
             (transcoder_caps r);
  pace := tc_pace r;
  local_bench := reg_local_bench r;
  Placement.local_video_executor_enabled := local_video_executor_enabled_of r |}.

(** ** Queries and reservations *)

Definition pick_transcoder (r : Registry) (n : PlacementNeed) : option string :=
  choose_box (snapshot r) n.

(** [*load.entry(id).or_insert(0) += 1]. *)
Definition take_slot (r : Registry) (id : string) : Registry :=
  with_load r (<[id := S (load_of r id)]> (tc_load r)).

Definition reserve_transcoder (r : Registry) (n : PlacementNeed) : option string * Registry :=
  match choose_box (snapshot r) n with
  | Some winner => (Some winner, take_slot r winner)
  | None => (None, r)
  end.

Definition place (r : Registry) (n : PlacementNeed) : Placement * Registry :=
  let placement := decide_placement (snapshot r) n in
  (placement, match target placement with Some id => take_slot r id | None => r end).

Definition tc_session_ended (r : Registry) (id : string) : Registry :=
  match tc_load r !! id with
  | Some n => with_load r (<[id := Nat.pred n]> (tc_load r))
  | None => r
  end.

(** ** Links, capabilities, drains *)

Definition register_tc_link (r : Registry) (id : string) (minor : Z) (tx : nat) : Registry :=
  with_links r (<[id := mkLink tx minor]> (tc_links r)).

Definition unregister_tc_link_if_current (r : Registry) (id : string) (tx : nat) : bool * Registry :=
  match tc_links r !! id with
  | Some current =>
      if (sender current =? tx)%nat then
        (true, with_rates (with_load (with_links r (delete id (tc_links r))) (delete id (tc_load r)))
                 (delete id (tc_link_rate r)))
      else (false, r)
  | None => (false, r)
  end.

Definition set_transcoder_caps (r : Registry) (id : string) (c : BoxCaps) : Registry :=
  with_caps r (<[id := c]> (transcoder_caps r)).
Definition clear_transcoder_caps (r : Registry) (id : string) : Registry :=
  with_caps r (delete id (transcoder_caps r)).

Definition set_link_rate (r : Registry) (id : string) (bytes_per_sec : Z) : Registry :=
  if bytes_per_sec =? 0 then r else with_rates r (<[id := bytes_per_sec]> (tc_link_rate r)).
Definition set_pace (r : Registry) (id class : string) (multiple : float) : Registry :=
  with_pace r (<[(id, class) := multiple]> (tc_pace r)).

(** The in-memory half of [set_disabled]; [None] is the refusal to drain a
    local executor that is not there. *)
Definition set_disabled (r : Registry) (id : string) (disabled : bool) : option Registry :=
  if (id =s LOCAL_TRANSCODER) && negb (local_video_executor r) then None
  else Some (with_disabled r (if disabled then {[id]} ∪ disabled_set r else disabled_set r ∖ {[id]})).

Definition transcoder_encoders (r : Registry) (id : string) : list string :=
  unwrap_or ((fun c => map es_codec (bc_encoders c)) <$> transcoder_caps r !! id) [].
Definition transcoder_reports_tonemap (r : Registry) (id : string) : bool :=
  is_some_and bc_tonemap (transcoder_caps r !! id).
Definition transcoder_protocol_features (r : Registry) (id : string) : option Z :=
  protocol_minor <$> tc_links r !! id.

(** [send_to_tc_requiring]: the link the message goes to, or the refusal. *)
Definition send_link (r : Registry) (id : string) (required : option ProtocolFeature) : option TcLink :=
  match tc_links r !! id with
  | Some link => if is_none_or (supports (protocol_minor link)) required then Some link else None
  | None => None
  end.

(** ** Rescheduling (sessions/reschedule.rs, sessions/mod.rs)

    What moving one session does to the load table. [ok] is whether the steps
    after the reservation (leases, the new run) succeed. *)

Definition reschedule (r : Registry) (old_tc : string) (n : PlacementNeed) (ok : bool)
    : option string * Registry :=
  let r := tc_session_ended r old_tc in
  match reserve_transcoder r n with
  | (None, r) => (None, r)
  | (Some new_tc, r) => if ok then (Some new_tc, r) else (None, tc_session_ended r new_tc)
  end.

(** [Sessions::end] of a session whose transcoder slot still reads [tc]. *)
Definition end_transcode (r : Registry) (tc : string) : Registry := tc_session_ended r tc.

(** One iteration of [reschedule_for_transcoder]: the sessions nobody can take
    are ended. *)
Definition reschedule_or_end (r : Registry) (old_tc : string) (n : PlacementNeed) (ok : bool)
    : option string * Registry :=
  match reschedule r old_tc n ok with
  | (Some new_tc, r) => (Some new_tc, r)
  | (None, r) => (None, end_transcode r old_tc)
  end.
