(* ===== verification/RegistryTheorems.v ===== *)
(** * What reservations guarantee

    The load table as a state machine: placement never books a box beyond its
    session limit, a stale connection cannot tear down a live one, and what a
    failed reschedule does to the count. *)
From S2P Require Import Prelude Floats Bench Placement PlacementTheorems Registry.
#[local] Open Scope Z_scope.

(** ** Load arithmetic *)

Lemma load_take r id id' :
  load_of (take_slot r id) id' = if decide (id = id') then S (load_of r id) else load_of r id'.
Proof.
  unfold load_of at 1, take_slot. simpl. destruct (decide (id = id')) as [->|Hn].
  - by rewrite lookup_insert_eq.
  - by rewrite lookup_insert_ne.
Qed.

Lemma load_ended r id id' :
  load_of (tc_session_ended r id) id' = if decide (id = id') then Nat.pred (load_of r id) else load_of r id'.
Proof.
  unfold tc_session_ended, load_of. destruct (tc_load r !! id) as [n|] eqn:E; simpl.
  - destruct (decide (id = id')) as [->|Hn]; [by rewrite lookup_insert_eq|by rewrite lookup_insert_ne].
  - destruct (decide (id = id')) as [->|Hn]; [by rewrite E|done].
Qed.


(** A snapshot's box shows the tables as they are. *)
Lemma snapshot_box r id b :
  boxes (snapshot r) !! id = Some b ->
  exists c link, transcoder_caps r !! id = Some c /\ tc_links r !! id = Some link
    /\ b = mkBox c (protocol_minor link) (load_of r id) (bool_decide (id ∈ disabled_set r))
             (tc_link_rate r !! id).
Proof.
  unfold snapshot. simpl. rewrite map_lookup_imap.
  destruct (transcoder_caps r !! id) as [c|]; [|done]. simpl.
  destruct (tc_links r !! id) as [link|]; [|done]. simpl. intros [= <-]. eauto.
Qed.

(** ** The session limit *)


Lemma chosen_below_limit r n id :
  choose_box (snapshot r) n = Some id ->
  exists c link, transcoder_caps r !! id = Some c /\ tc_links r !! id = Some link
    /\ ~ (id ∈ disabled_set r)
    /\ (0 < max_sessions c -> Z.of_nat (load_of r id) < max_sessions c).
Proof.
  intros (c & b & _ & _ & Hb & Hd & Hc)%choose_box_elem.
  apply snapshot_box in Hb as (caps & link & Hcaps & Hlink & ->). simpl in Hd.
  apply bool_decide_eq_false in Hd. exists caps, link. split_and!; try done.
  assert (is_Some (candidate_of (snapshot r) n id (mkBox caps (protocol_minor link) (load_of r id)
            (bool_decide (id ∈ disabled_set r)) (tc_link_rate r !! id)))) as H by eauto.
  apply candidate_fits in H as (_ & _ & Hmax & _). exact Hmax.
Qed.







(** The teardown of a connection that was replaced changes nothing: the
    live link, its load and its rate survive, and messages keep going to it;
    the teardown of the current connection removes all three. *)
Theorem stale_teardown r id minor old new :
  new <> old ->
  let r1 := register_tc_link r id minor new in
  unregister_tc_link_if_current r1 id old = (false, r1)
  /\ (exists link, tc_links r1 !! id = Some link /\ sender link = new)
  /\ let '(gone, r2) := unregister_tc_link_if_current r1 id new in
     gone = true /\ tc_links r2 !! id = None /\ load_of r2 id = 0%nat /\ tc_link_rate r2 !! id = None
     /\ forall n, pick_transcoder r2 n <> Some id.
Proof.
  intros Hne r1.
  assert (tc_links r1 !! id = Some (mkLink new minor)) as Hl by (simpl; by rewrite lookup_insert_eq).
  unfold unregister_tc_link_if_current. rewrite Hl. cbn [sender].
  rewrite (proj2 (Nat.eqb_neq new old) Hne), Nat.eqb_refl. split; [done|]. split; [by eexists|].
  split; [done|]. simpl. unfold load_of. simpl. rewrite !lookup_delete_eq. split_and!; try done.
  intros n H. unfold pick_transcoder in H. apply chosen_below_limit in H as (c & link & _ & H & _).
  simpl in H. by rewrite lookup_delete_eq in H.
Qed.

Lemma pick_supports r n id feature :
  required_protocol_feature n = Some feature -> pick_transcoder r n = Some id ->
  exists link, tc_links r !! id = Some link /\ supports (protocol_minor link) feature = true.
Proof.
  intros Hf H. unfold pick_transcoder in H.
  apply choose_box_elem in H as (c & b & _ & _ & Hb & _ & Hc).
  apply snapshot_box in Hb as (caps & link & _ & Hlink & ->).
  assert (fits n (mkBox caps (protocol_minor link) (load_of r id)
            (bool_decide (id ∈ disabled_set r)) (tc_link_rate r !! id))) as (_ & _ & _ & Hs & _).
  { apply (candidate_fits (snapshot r) n id). eauto. }
  eauto.
Qed.

(** A message that needs a protocol feature is only sent down a link that
    understands it, and a box picked for a plan that needs the feature has such
    a link. *)
Theorem feature_respected r n id feature :
  required_protocol_feature n = Some feature ->
  (pick_transcoder r n = Some id -> is_Some (send_link r id (Some feature)))
  /\ (forall link, send_link r id (Some feature) = Some link ->
      tc_links r !! id = Some link /\ supports (protocol_minor link) feature = true).
Proof.
  intros Hf. unfold send_link. split.
  - intros (link & -> & Hs)%(pick_supports r n id feature Hf). simpl. by rewrite Hs.
  - intros link. destruct (tc_links r !! id) as [l|]; [|done]. simpl.
    destruct (supports (protocol_minor l) feature) eqn:E; [|done]. by intros [= <-].
Qed.

Lemma reserve_counts r n w r' :
  reserve_transcoder r n = (Some w, r') ->
  load_of r' w = S (load_of r w) /\ forall id, load_of (tc_session_ended r' w) id = load_of r id.
Proof.
  unfold reserve_transcoder. destruct (choose_box _ _) as [x|]; [|done].
  intros [= -> <-]. split; [rewrite load_take; by rewrite decide_True|].
  intros id. rewrite load_ended, !load_take.
  destruct (decide (w = id)) as [->|]; [by rewrite decide_True|done].
Qed.

(** What a reschedule leaves in the load table, box by box. *)
Lemma reschedule_counts r n old ok id :
  load_of (snd (reschedule r old n ok)) id
  = ((if decide (old = id) then Nat.pred (load_of r id) else load_of r id)
     + (if decide (fst (reschedule r old n ok) = Some id) then 1 else 0))%nat.
Proof.
  unfold reschedule.
  assert (forall r' id, load_of (tc_session_ended r' old) id
          = if decide (old = id) then Nat.pred (load_of r' id) else load_of r' id) as He.
  { intros r' i. rewrite load_ended. by destruct (decide (old = i)) as [->|]. }
  destruct (reserve_transcoder (tc_session_ended r old) n) as [[w|] r'] eqn:E.
  - pose proof (reserve_counts _ _ _ _ E) as [_ E2]. unfold reserve_transcoder in E.
    destruct (choose_box _ _); [|done]. injection E as -> <-. destruct ok; cbn [fst snd].
    + rewrite load_take, <- He. destruct (decide (w = id)) as [->|Hn].
      * rewrite decide_True by done. lia.
      * rewrite decide_False by congruence. lia.
    + rewrite E2, <- He, decide_False by done. lia.
  - unfold reserve_transcoder in E. destruct (choose_box _ _); [done|]. injection E as <-.
    cbn [fst snd]. rewrite <- He, decide_False by done. lia.
Qed.

(** A reservation that is returned leaves every count as it was, and a
    reschedule moves exactly one slot: one off the old box, one onto the box it
    answers, and nothing on any other; one that fails after its reservation
    puts the reserved slot back. *)
Theorem slots_conserved r n old ok :
  (forall w r', reserve_transcoder r n = (Some w, r') ->
     forall id, load_of (tc_session_ended r' w) id = load_of r id)
  /\ forall id, load_of (snd (reschedule r old n ok)) id
       = ((if decide (old = id) then Nat.pred (load_of r id) else load_of r id)
          + (if decide (fst (reschedule r old n ok) = Some id) then 1 else 0))%nat.
Proof.
  split; [intros w r' E; by apply (reserve_counts r n w r')|apply reschedule_counts].
Qed.

(** A session whose reschedule fails is released twice: [reschedule] gives
    the old box's slot back and the session's own end gives it back again, so
    the box is counted one session short of what still runs on it. *)
Theorem failed_reschedule_releases_twice r old n ok :
  fst (reschedule r old n ok) = None ->
  load_of (snd (reschedule_or_end r old n ok)) old = (load_of r old - 2)%nat.
Proof.
  intros H. pose proof (reschedule_counts r n old ok old) as Hr. rewrite H in Hr.
  rewrite decide_True, decide_False in Hr by done.
  unfold reschedule_or_end. destruct (reschedule r old n ok) as [[w|] r']; [done|]. cbn [snd] in *.
  unfold end_transcode. rewrite load_ended, decide_True, Hr by done. lia.
Qed.

(** ** Witnesses *)

Definition one_slot_box : BoxCaps :=
  mkBoxCaps [mkEncoderSpeed "h264" "x264enc" false None None] 1 [] false false None None.
Definition two_slot_box : BoxCaps :=
  mkBoxCaps [mkEncoderSpeed "h264" "x264enc" false None None] 2 [] false false None None.
Definition one_box (c : BoxCaps) (load : nat) : Registry :=
  mkRegistry {["tc" := c]} {["tc" := mkLink 1 6]} {["tc" := load]} ∅ ∅ ∅ None false.
Definition plain_need : PlacementNeed :=
  mkNeed true false [] [] false false (Some VideoBitDepth) "h264" "" None None.


Lemma stale_teardown_witness :
  fst (unregister_tc_link_if_current (register_tc_link (one_box one_slot_box 1) "tc" 6 2) "tc" 1) = false.
Proof.
  pose proof (proj1 (stale_teardown (one_box one_slot_box 1) "tc" 6 1 2 ltac:(discriminate))) as H.
  exact (f_equal fst H).
Defined.

Lemma feature_respected_witness :
  is_Some (send_link (one_box one_slot_box 0) "tc" (Some VideoBitDepth)).
Proof.
  apply (feature_respected (one_box one_slot_box 0) plain_need "tc" VideoBitDepth);
    [reflexivity|vm_compute; reflexivity].
Defined.

(** Two sessions on a drained box: one fails to move, none is counted. *)
Lemma failed_reschedule_releases_twice_witness :
  load_of (snd (reschedule_or_end (with_disabled (one_box two_slot_box 2) {["tc"]}) "tc" plain_need true))
    "tc" = 0%nat.
Proof.
  exact (failed_reschedule_releases_twice (with_disabled (one_box two_slot_box 2) {["tc"]}) "tc"
           plain_need true eq_refl).
Defined.

(** A second transcoder takes what the first one had. *)
Definition two_boxes : Registry :=
  mkRegistry {["a" := one_slot_box; "b" := one_slot_box]} {["a" := mkLink 1 6; "b" := mkLink 2 6]}
    {["a" := 1%nat; "b" := 0%nat]} ∅ ∅ {["a"]} None false.

Lemma slots_conserved_witness :
  fst (reschedule two_boxes "a" plain_need true) = Some "b"
  /\ load_of (snd (reschedule two_boxes "a" plain_need true)) "a" = 0%nat
  /\ load_of (snd (reschedule two_boxes "a" plain_need true)) "b" = 1%nat.
Proof.
  destruct (slots_conserved two_boxes plain_need "a" true) as [_ H].
  split; [vm_compute; reflexivity|].
  split; [rewrite (H "a")|rewrite (H "b")]; vm_compute; reflexivity.
Defined.
