(* ===== verification/HubPlanning.v ===== *)
(** * Planning a session on the hub (kahawai-hub, src/sessions/negotiation.rs)

    From a negotiation's fixed inputs, the parts of one source and the fleet:
    probing for an executor, planning against what it can do, forcing measured
    loudness, and choosing between sources. The recursion of [plan_with_force]
    takes fuel; the database lookups are the parameters [measurement]. *)
From S2P Require Import Prelude Floats Media Loudness Probe Plan Ladder Negotiate Bench Placement Registry Playback.
#[local] Open Scope Z_scope.

(** ** Sources and tracks *)

(** [FileId::Catalogue(id)] is its id. *)
Record PartSource := mkPart {
  file_id : string;
  head_xxh3 : Z;
  tail_xxh3 : Z;
  part_module_id : string;
  collection_id : string;
  root_token : string;
  part_path_rel : string;
  part_size : Z;
  mtime_unix : Z;
  part_base_ms : Z;
  part_duration_ms : Z;
}.
#[global] Instance PartSource_timeline : TimelinePart PartSource :=
  {| base_ms := part_base_ms; module_id := part_module_id |}.

(** The fields of [tracks::Track] a burn pick reads. *)
Record Track := mkTrack {
  t_module_id : option string;
  t_collection_id : option string;
  t_root_token : option string;
  t_source_path : option string;
  t_stream_index : option Z;
  t_origin : string;
}.

Inductive LoudnessPreference := LoudnessOff | LoudnessEncoded | LoudnessForce.
#[global] Instance LoudnessPreference_eq_dec : EqDecision LoudnessPreference.
Proof. solve_decision. Defined.
Definition loudness_enabled (p : LoudnessPreference) : bool := negb (p ≟ LoudnessOff).
Definition loudness_force (p : LoudnessPreference) : bool := p ≟ LoudnessForce.

(** ** Loudness *)

Definition with_loudness (p : RemuxPlan) (stereo native : option float) (source : option Z)
    (gains : list (option AudioLayoutGain)) : RemuxPlan := {|
  rp_video := rp_video p; rp_audio := rp_audio p; rp_audio_track := rp_audio_track p;
  rp_video_track := rp_video_track p; rp_video_kbps := rp_video_kbps p;
  rp_max_height := rp_max_height p; rp_max_bit_depth := rp_max_bit_depth p;
  rp_tone_map := rp_tone_map p; rp_deinterlace := rp_deinterlace p;
  rp_burn_subtitle := rp_burn_subtitle p; rp_burn_ass := rp_burn_ass p;
  rp_max_channels := rp_max_channels p; rp_stereo_gain_db := stereo; rp_native_gain_db := native;
  rp_loudness_source_channels := source; rp_loudness_gains := gains;
  rp_video_codec := rp_video_codec p; rp_audio_codec := rp_audio_codec p;
  rp_segment_format := rp_segment_format p |}.

Definition layout_gain (m : AudioLayoutLoudness) : AudioLayoutGain :=
  mkAudioLayoutGain (ll_layout m) (gain_db (ll_loudness m)).

(** [plan.loudness_gains.iter_mut().zip(&measured.layouts)] over cleared slots. *)
Definition measured_gains (m : AudioLoudnessMeasurement) : list (option AudioLayoutGain) :=
  let filled := map (fun x => Some (layout_gain x)) (take MAX_LAYOUT_GAINS (m_layouts m)) in
  filled ++ repeat None (MAX_LAYOUT_GAINS - length filled).

Definition stereo_measurement (m : AudioLoudnessMeasurement) : option AudioLoudness :=
  opt_or (measurement_get m (layout_new 2 0x3))
    (opt_filter (fun _ => channels (m_source m) <=? 2) (measurement_get m (m_source m))).

Definition apply_audio_loudness_measurement (p : RemuxPlan) (preference : LoudnessPreference)
    (measured : option AudioLoudnessMeasurement) : RemuxPlan :=
  match measured with
  | Some m =>
      if loudness_enabled preference then
        with_loudness p (gain_db <$> stereo_measurement m)
          (gain_db <$> measurement_get m (m_source m)) (Some (channels (m_source m)))
          (measured_gains m)
      else with_loudness p None None None no_gains
  | None => with_loudness p None None None no_gains
  end.

(** [fill_audio_loudness_gains]; [lookup] is [FileId::audio_loudness]. *)
Definition fill_audio_loudness_gains
    (lookup : string -> nat -> Z -> Z -> result string (option AudioLoudnessMeasurement))
    (parts : list PartSource) (p : RemuxPlan) (preference : LoudnessPreference)
    (known : option AudioLoudnessMeasurement) : result string RemuxPlan :=
  let apply m := apply_audio_loudness_measurement p preference m in
  match parts with
  | [part] =>
      if negb (loudness_enabled preference) || negb (rp_audio p ≟ Encode) then Ok (apply None)
      else if loudness_force preference then Ok (apply known)
      else let? m := lookup (file_id part) (rp_audio_track p) (part_size part) (mtime_unix part) in
           Ok (apply m)
  | _ => Ok (apply None)
  end.

Definition same_video_path (l r : RemuxPlan) : bool :=
  (rp_video l ≟ rp_video r) && (rp_video_track l ≟ rp_video_track r)
  && (rp_video_kbps l ≟ rp_video_kbps r) && (rp_max_height l ≟ rp_max_height r)
  && (rp_tone_map l ≟ rp_tone_map r) && (rp_deinterlace l ≟ rp_deinterlace r)
  && (rp_burn_subtitle l ≟ rp_burn_subtitle r) && (rp_burn_ass l ≟ rp_burn_ass r)
  && (rp_video_codec l ≟ rp_video_codec r) && (rp_segment_format l ≟ rp_segment_format r).

Definition replanned_verdict (p : RemuxPlan) (v a : string) : option (string * string) :=
  then_some (playable p) (v, a).

(** ** What a plan needs *)

Definition loudness_protocol_feature (p : RemuxPlan) : option ProtocolFeature :=
  then_some (existsb is_some (rp_loudness_gains p)) ExactAudioLoudnessGains.
Definition plan_protocol_feature (p : RemuxPlan) : option ProtocolFeature :=
  if (rp_video p ≟ Encode) && is_some (rp_max_bit_depth p) then Some VideoBitDepth
  else loudness_protocol_feature p.

(** [(sum(size) * 8 / duration) as u32]; [None] for an unknown duration. *)
Definition est_kbps_of (parts : list PartSource) (i : MediaInfo) : option Z :=
  (fun d => wrap 32 (wrap 64 (fold_left Z.add (map part_size parts) 0 * 8) / d))
    <$> opt_filter (fun d => 0 <? d) (duration_ms i).

Definition work_class_of (p : RemuxPlan) (i : MediaInfo) : string :=
  if rp_video p ≟ Encode then
    let v := head (video i) in
    work_class (map_or 0 v_height v) (map_or "" v_codec v) (video_target_str (rp_video_codec p))
      (rp_tone_map p)
  else "".

Definition placement_need (p : RemuxPlan) (i : MediaInfo) (parts : list PartSource) (burns_ass : bool)
    : PlacementNeed * string :=
  let class := work_class_of p i in
  (mkNeed (rp_video p ≟ Encode) (rp_audio p ≟ Encode)
     (source_caps_names "video" i) (source_caps_names "audio" i)
     (rp_tone_map p) burns_ass (plan_protocol_feature p)
     (if rp_video p ≟ Encode then video_target_str (rp_video_codec p) else "")
     (if rp_audio p ≟ Encode then audio_target_str (rp_audio_codec p) else "")
     (then_some (negb (class =s "")) class)
     (est_kbps_of parts i),
   class).

(** ** Probing *)

Record ExecutorFacts := mkFacts {
  f_tonemap : bool;
  f_video_targets : list string;
  f_full_audio_targets : list string;
  f_local_audio_targets : list string;
  full_protocol : Z;
  f_burn_capable : bool;
}.

Definition video_encoder_names (targets : list string) : list string :=
  List.filter (fun t => str_mem t ["h264"; "hevc"; "av1"]) targets.
Definition audio_encoder_names (targets : list string) : list string :=
  List.filter (fun t => str_mem t ["aac"; "opus"]) targets.

(** The need a probe asks with. *)
Definition probe_need {gst : GStreamer} (i : MediaInfo) (required : option ProtocolFeature)
    : PlacementNeed :=
  mkNeed true false (source_caps_names "video" i) [] true false required "" "" None None.

Section Probe.
Context {gst : GStreamer}.
(** [remux::tonemap_available()]: the GL segment runs here. *)
Context (tonemap_available : bool).

Definition local_video_encoder_names (r : Registry) : list string :=
  match reg_local_bench r with
  | None => []
  | Some bench =>
      map (fun '(codec, _, _) => codec)
        (List.filter (fun '(_, element, _) => encoder_ready bench element) encoder_capabilities)
  end.
Definition local_tonemap_available (r : Registry) : bool :=
  is_some_and tonemap_ready (reg_local_bench r) && tonemap_available.
Definition local_audio_encoder_names : list string :=
  omap (fun '(codec, element) => (fun _ => codec) <$> element)
    [("aac", aac_encoder); ("opus", opus_encoder)].

Definition probe (r : Registry) (i : MediaInfo) (burn_capable : bool)
    (required : option ProtocolFeature) : ExecutorFacts :=
  let need := probe_need i required in
  match pick_transcoder r need with
  | Some tc =>
      let targets := transcoder_encoders r tc in
      mkFacts (transcoder_reports_tonemap r tc) (video_encoder_names targets)
        (audio_encoder_names targets) local_audio_encoder_names
        (unwrap_or (transcoder_protocol_features r tc) 0) burn_capable
  | None =>
      if local_video_executor_enabled_of r
      then mkFacts (local_tonemap_available r) (local_video_encoder_names r)
             local_audio_encoder_names local_audio_encoder_names PROTOCOL_MINOR burn_capable
      else mkFacts false [] [] local_audio_encoder_names 0 burn_capable
  end.
End Probe.

(** ** The negotiation *)

(** The fields of [Negotiation] that planning reads. *)
Record Negotiation := mkNegotiation {
  n_profile : CapabilityProfile;
  n_loudness : LoudnessPreference;
  n_ass : AssPolicy;
  ocr_set : list (string * string * string * string * Z);
  raster_sources : option (list string);
  burn_row : option Track;
  n_audio_track : Z;
  source_audio_tracks : gmap string Z;
  n_video_track : Z;
}.

Definition audio_track_for (n : Negotiation) (parts : list PartSource) : Z :=
  unwrap_or (p ← head parts; source_audio_tracks n !! file_id p) (n_audio_track n).

Definition pick_for (n : Negotiation) (parts : list PartSource) : option BurnPick :=
  t ← burn_row n;
  p ← head parts;
  if negb ((t_module_id t ≟ Some (part_module_id p)) && (t_collection_id t ≟ Some (collection_id p))
           && (t_root_token t ≟ Some (root_token p)) && (t_source_path t ≟ Some (part_path_rel p)))
  then None
  else
    i ← t_stream_index t;
    let i := Z.to_nat (wrap 64 i) in
    if t_origin t =s "embedded" then Some (Embedded i)
    else if str_mem (t_origin t) ["sidecar"; "downloaded"] then Some (Sidecar i)
    else None.

(** [subtitles::ocr_flags_for]. *)
Definition ocr_flags_for (set : list (string * string * string * string * Z)) (p : PartSource)
    (n_subs : nat) : list bool :=
  map (fun i => existsb (fun x => x ≟ (part_module_id p, collection_id p, root_token p,
                                       part_path_rel p, Z.of_nat i)) set)
    (seq 0 n_subs).

Definition source_ass (n : Negotiation) (parts : list PartSource) : AssPolicy :=
  match raster_sources n with
  | Some sources =>
      mkAssPolicy (order (n_ass n)) (ass_burn_capable (n_ass n))
        (is_some_and (fun p => str_mem (file_id p) sources) (head parts))
  | None => n_ass n
  end.

Definition request_of (n : Negotiation) (parts : list PartSource) (i : MediaInfo) (f : ExecutorFacts)
    (force : bool) : Request :=
  mkRequest (n_profile n) i
    (Z.to_nat (audio_track_for n parts))
    (Z.to_nat (n_video_track n))
    (length parts =? 1)%nat
    (est_kbps_of parts i)
    (f_tonemap f)
    (f_burn_capable f)
    (unwrap_or ((fun p => ocr_flags_for (ocr_set n) p (length (subtitles i))) <$> head parts) [])
    (pick_for n parts)
    (source_ass n parts)
    (f_video_targets f)
    (f_full_audio_targets f)
    (f_local_audio_targets f)
    force.

(** An encode to a constrained bit depth needs an executor that reads the
    constraint. *)
Definition constrained (p : RemuxPlan) : bool := (rp_video p ≟ Encode) && is_some (rp_max_bit_depth p).

Section Planning.
Context {gst : GStreamer} (tonemap_available : bool) (r : Registry).

(** [None] is out of fuel: the function calls itself with re-probed facts. *)
Fixpoint plan_with_force (fuel : nat) (n : Negotiation) (parts : list PartSource) (i : MediaInfo)
    (f : ExecutorFacts) (force : bool) : option SourcePlan :=
  match fuel with
  | O => None
  | S fuel =>
      let selected := negotiate_for_executors (request_of n parts i f force) in
      if constrained (sp_plan selected) && negb (supports (full_protocol f) VideoBitDepth)
      then plan_with_force fuel n parts i
             (probe tonemap_available r i (f_burn_capable f) (Some VideoBitDepth)) force
      else Some selected
  end.

Definition usable_force (ordinary candidate : SourcePlan) : bool :=
  negb (sp_cost candidate ≟ Unplayable) && (rp_audio (sp_plan candidate) ≟ Encode)
  && (rp_video (sp_plan candidate) ≟ rp_video (sp_plan ordinary)).

(** [(ordinary, selected)]. *)
Definition plans_with_probe (fuel : nat) (n : Negotiation) (parts : list PartSource) (i : MediaInfo)
    (burn_capable : bool) (measurement : option AudioLoudnessMeasurement)
    : option (SourcePlan * SourcePlan) :=
  let facts := probe tonemap_available r i burn_capable None in
  ordinary ← plan_with_force fuel n parts i facts false;
  match measurement with
  | None => Some (ordinary, ordinary)
  | Some m =>
      forced ← plan_with_force fuel n parts i facts true;
      if negb (usable_force ordinary forced) then Some (ordinary, ordinary)
      else
        let measured_plan :=
          apply_audio_loudness_measurement (sp_plan forced) LoudnessForce (Some m) in
        let required :=
          if rp_video measured_plan ≟ Encode then loudness_protocol_feature measured_plan else None in
        if is_none_or (supports (full_protocol facts)) required then Some (ordinary, forced)
        else
          exact ← plan_with_force fuel n parts i
                    (probe tonemap_available r i burn_capable required) true;
          Some (ordinary, if usable_force ordinary exact then exact else ordinary)
  end.
End Planning.

(** ** Choosing between sources *)

Record SourceChoiceKey := mkKey { key_incomplete : bool; ordinary_cost : Cost; force_missed : bool }.

Definition source_choice_key (ordinary : SourcePlan) (force_missed : bool) : SourceChoiceKey :=
  mkKey (sp_incomplete ordinary) (sp_cost ordinary) force_missed.

(** The derived order: fields in declaration order. *)
Definition key_cmp_choice (a b : SourceChoiceKey) : comparison :=
  cmp_then (bool_cmp (key_incomplete a) (key_incomplete b))
    (cmp_then (cost_rank (ordinary_cost a) ?= cost_rank (ordinary_cost b))
       (bool_cmp (force_missed a) (force_missed b))).

(** One candidate of the loop: its key from the ordinary plan, the plan that
    would play. *)
Definition candidate_key (n : Negotiation) (measurement : option AudioLoudnessMeasurement)
    (ordinary sp : SourcePlan) : SourceChoiceKey :=
  let normalized := is_some measurement && (rp_audio (sp_plan sp) ≟ Encode) in
  source_choice_key ordinary (loudness_force (n_loudness n) && negb normalized).

(** The loop of [choose_sources]: strictly better replaces the best so far. *)
Fixpoint best_key (i : nat) (best : option (nat * SourceChoiceKey)) (keys : list SourceChoiceKey)
    : option (nat * SourceChoiceKey) :=
  match keys with
  | [] => best
  | k :: keys =>
      let better := is_none_or (fun b => match key_cmp_choice k (snd b) with Lt => true | _ => false end) best in
      best_key (S i) (if better then Some (i, k) else best) keys
  end.
Definition choose_source (keys : list SourceChoiceKey) : option nat := fst <$> best_key 0 None keys.
