(* ===== verification/HubTheorems.v ===== *)
(** * What planning on the hub guarantees

    Loudness gains that reach the worker are the measured ones, the exact needs
    of a plan reach placement, a constrained encode never runs on an executor
    that would ignore the constraint, and the choice between sources is the
    best by the key. *)
From S2P Require Import Prelude Floats Media Loudness Probe Plan Ladder Negotiate Fixtures NegotiateFacts Bench Placement PlacementTheorems Registry RegistryTheorems Playback HubPlanning.
#[local] Open Scope Z_scope.

(** ** Loudness *)

(** route.rs: what the audio chain reads its gain from. *)
Definition gains_of_plan (p : RemuxPlan) : AudioLoudnessGains :=
  mkGains (rp_loudness_gains p) (rp_stereo_gain_db p) (rp_native_gain_db p)
    (rp_loudness_source_channels p).

Lemma flatten_app_nones {A} (l : list (option A)) k : flatten (l ++ repeat None k) = flatten l.
Proof.
  induction l as [|o l IH]; simpl.
  - induction k as [|k IH]; [done|exact IH].
  - unfold flatten, id in *. simpl. destruct o; simpl; [by f_equal|exact IH].
Qed.

Lemma flatten_somes {A B} (g : A -> B) l : flatten (map (fun x => Some (g x)) l) = map g l.
Proof. induction l as [|a l IH]; [done|]. unfold flatten, id in *. simpl. by f_equal. Qed.

Lemma find_layout_gain ms l :
  g_gain_db <$> List.find (fun x => g_layout x ≟ l) (map layout_gain ms)
  = gain_db <$> (ll_loudness <$> List.find (fun x => ll_layout x ≟ l) ms).
Proof.
  induction ms as [|m ms IH]; [done|]. simpl. destruct (ll_layout m ≟ l); [done|exact IH].
Qed.

(** A measurement that fits the plan's slots reaches the worker whole: for
    every layout the gain the audio chain applies is the static gain of exactly
    that layout's measurement, or none; with the preference off, or nothing
    measured, no layout gets any gain. *)
Theorem loudness_exact p pref measured l :
  match measured with
  | Some m =>
      loudness_enabled pref = true -> m_layouts m <> [] ->
      (length (m_layouts m) <= MAX_LAYOUT_GAINS)%nat ->
      for_layout (gains_of_plan (apply_audio_loudness_measurement p pref measured)) l
      = opt_filter is_finite (gain_db <$> measurement_get m l)
  | None => for_layout (gains_of_plan (apply_audio_loudness_measurement p pref measured)) l = None
  end
  /\ (loudness_enabled pref = false ->
      for_layout (gains_of_plan (apply_audio_loudness_measurement p pref measured)) l = None).
Proof.
  assert (Hnone : for_layout (gains_of_plan (with_loudness p None None None no_gains)) l = None).
  { unfold for_layout, gains_of_plan, with_loudness.
    cbn [exact stereo_db native_db source_channels rp_loudness_gains rp_stereo_gain_db
         rp_native_gain_db rp_loudness_source_channels].
    replace (existsb is_some no_gains) with false by (vm_compute; reflexivity).
    by destruct (channels l =? 2), (None ≟ Some (channels l)). }
  split; [|unfold apply_audio_loudness_measurement; intros ->; destruct measured; exact Hnone].
  destruct measured as [m|]; [|exact Hnone]. intros Hp Hne Hlen.
  unfold apply_audio_loudness_measurement. rewrite Hp. unfold for_layout, gains_of_plan.
  cbn [with_loudness rp_loudness_gains exact]. unfold measured_gains.
  rewrite firstn_all2 by done. rewrite flatten_app_nones, flatten_somes, find_layout_gain.
  rewrite existsb_app.
  assert (existsb is_some (map (fun x => Some (layout_gain x)) (m_layouts m)) = true) as ->
    by (by destruct (m_layouts m)).
  reflexivity.
Qed.

(** ** Needs *)

(** C24: the need a plan is placed with carries the plan: a box the work is sent
    to is enabled and below its session limit, has an encoder for the plan's own
    video target and decodes one of the source's video codecs, and likewise for
    audio where audio is encoded; it can burn a styled script the plan burns, and
    speaks the feature a constrained depth or exact gains need. Tone mapping is
    not required of it: it only ranks the boxes. *)
Theorem need_dispatched {gst : GStreamer} r p i parts burns id :
  target (fst (place r (fst (placement_need p i parts burns)))) = Some id ->
  rp_video p = Encode
  /\ exists b, boxes (snapshot r) !! id = Some b
     /\ (exists e, e ∈ bc_encoders (box_caps b) /\ es_codec e = video_target_str (rp_video_codec p))
     /\ (rp_audio p = Encode ->
         (exists e, e ∈ bc_encoders (box_caps b) /\ es_codec e = audio_target_str (rp_audio_codec p))
         /\ decodes (box_caps b) (source_caps_names "audio" i))
     /\ decodes (box_caps b) (source_caps_names "video" i)
     /\ disabled b = false
     /\ (0 < max_sessions (box_caps b) -> Z.of_nat (box_load b) < max_sessions (box_caps b))
     /\ (burns = true -> bc_ass_burn (box_caps b) = true)
     /\ (rp_max_bit_depth p <> None -> supports (protocol b) VideoBitDepth = true)
     /\ (existsb is_some (rp_loudness_gains p) = true -> rp_max_bit_depth p = None ->
         supports (protocol b) ExactAudioLoudnessGains = true).
Proof.
  unfold place. cbn [fst]. intros (Hv & _ & Hc)%decide_target.
  apply choose_box_fits in Hc as (b & Hb & Hdis & F1 & F2 & F3 & F4 & F5).
  unfold placement_need in *. cbn [fst encode_video] in Hv. apply bool_decide_eq_true in Hv.
  cbn [fst encode_video encode_audio need_video_codec need_audio_codec video_caps audio_caps
       required_protocol_feature needs_ass_burn] in *.
  rewrite Hv in *. rewrite (bool_decide_true (Encode = Encode)) in * by done.
  split; [done|]. exists b. split; [done|]. destruct (F1 eq_refl) as [[e [He Hec]] Hd].
  split_and!; try done.
  - exists e. split; [done|]. by destruct (rp_video_codec p).
  - intros Ha. rewrite Ha in F2. destruct (F2 eq_refl) as [[e' [He' Hec']] Hda]. split; [|exact Hda]. exists e'.
    split; [done|]. rewrite bool_decide_true in Hec' by done. by destruct (rp_audio_codec p).
  - intros Hdep. apply F4. unfold plan_protocol_feature. rewrite Hv, bool_decide_true by done.
    by destruct (rp_max_bit_depth p).
  - intros Hg Hdep. apply F4. unfold plan_protocol_feature, loudness_protocol_feature.
    by rewrite Hdep, andb_false_r, Hg.
Qed.


(** ** The encode a constrained depth needs *)

Section Planning.
Context {gst : GStreamer} (tonemap_available : bool).

Lemma wrapper_impl r : exists b, negotiate_for_executors r = negotiate_for_executors_impl (with_force r b).
Proof.
  unfold negotiate_for_executors. cbn zeta. destruct (negb _); [by exists false|].
  destruct (_ && _ && _ && _); [by exists true|by exists false].
Qed.

Lemma no_targets_no_encode r :
  video_targets r = [] -> ceiling_secs (target_duration (profile r)) = None ->
  rp_video (sp_plan (negotiate_for_executors r)) <> Encode.
Proof.
  intros Ht Hc. destruct (wrapper_impl r) as [b ->].
  change (final_video (with_force r b) <> Encode). unfold final_video, short_override.
  change (profile (with_force r b)) with (profile r). rewrite Hc. rewrite chosen_candidate.
  intros (v & _ & _ & H)%candidate_encodes. apply existsb_exists in H as (t & _ & H).
  unfold v_target_ok in H. change (video_targets (with_force r b)) with (video_targets r) in H.
  rewrite Ht in H. by rewrite andb_false_r in H.
Qed.

(** A probe that requires the constraint finds an executor that reads it, or
    offers no video target at all. *)
Lemma probe_constrained reg i bc :
  let f := probe tonemap_available reg i bc (Some VideoBitDepth) in
  supports (full_protocol f) VideoBitDepth = true \/ f_video_targets f = [].
Proof.
  intros f. subst f. unfold probe.
  destruct (pick_transcoder reg (probe_need i (Some VideoBitDepth))) as [tc|] eqn:E.
  - left. apply (pick_supports reg _ tc VideoBitDepth) in E as (link & Hl & Hs); [|done].
    unfold transcoder_protocol_features. cbn [full_protocol]. by rewrite Hl.
  - destruct (local_video_executor_enabled_of reg); [by left|by right].
Qed.

Lemma constrained_encodes p : constrained p = true -> rp_video p = Encode.
Proof. unfold constrained. intros [H _]%andb_true_iff. by apply bool_decide_eq_true in H. Qed.

(** Planning terminates for every client that does not cap its segment
    length: one re-probe is enough, because it finds an executor that reads
    the constraint or withdraws every encode target. *)
Theorem planning_terminates reg n parts i f force fuel :
  ceiling_secs (target_duration (n_profile n)) = None ->
  is_Some (plan_with_force tonemap_available reg (S (S fuel)) n parts i f force).
Proof.
  intros Hc. cbn [plan_with_force]. destruct (_ && _) eqn:E1; [|by eexists].
  set (g := probe _ _ _ _ _). destruct (_ && negb (supports (full_protocol g) _)) eqn:E2; [|by eexists].
  exfalso. bsplit. destruct (probe_constrained reg i (f_burn_capable f)) as [Hp|Hp].
  - subst g. congruence.
  - apply (no_targets_no_encode (request_of n parts i g force)); [exact Hp|exact Hc|].
    by eapply constrained_encodes.
Qed.

(** A plan that encodes to a constrained bit depth was made against an
    executor that reads the constraint: the one asked first, or the one the
    exact probe found. *)
Theorem constrained_plan_executor reg fuel n parts i f force sp :
  plan_with_force tonemap_available reg fuel n parts i f force = Some sp ->
  constrained (sp_plan sp) = true ->
  exists g, (g = f \/ g = probe tonemap_available reg i (f_burn_capable f) (Some VideoBitDepth))
    /\ sp = negotiate_for_executors (request_of n parts i g force)
    /\ supports (full_protocol g) VideoBitDepth = true.
Proof.
  assert (Hbc : forall bc req, f_burn_capable (probe tonemap_available reg i bc req) = bc).
  { intros bc req. unfold probe. destruct (pick_transcoder _ _); [done|].
    by destruct (local_video_executor_enabled_of reg). }
  revert f. induction fuel as [|fuel IH]; intros f; [done|]. cbn [plan_with_force].
  destruct (constrained _ && negb _) eqn:E.
  - intros H Hc. destruct (IH _ H Hc) as (g & Hg & Hsp & Hs). rewrite Hbc in Hg.
    exists g. split_and!; [right; by destruct Hg|done|done].
  - intros [= <-] Hc. exists f. rewrite Hc in E. cbn [andb] in E. apply negb_false_iff in E.
    split_and!; [by left|done|done].
Qed.
End Planning.

(** A hub with no transcoder and no local video executor. *)
Definition empty_registry : Registry := mkRegistry ∅ ∅ ∅ ∅ ∅ ∅ None false.

(** A client that wants segments of at most six seconds and 8-bit H.264. *)
Definition short_8bit_client : CapabilityProfile :=
  let p := client ["h264"] ["aac"] (Short 6) in
  {| containers := containers p; p_video := [mkVideoCap (Some 8) "h264" None None]; p_audio := p_audio p;
     max_audio_channels := 0; max_height := None; max_fps := None; hdr := false;
     max_bandwidth_kbps := None; ass_render := false; graphics_overlay := false;
     vtt_render := true; target_duration := Short 6 |}.

Definition short_negotiation : Negotiation :=
  mkNegotiation short_8bit_client LoudnessOff ass_policy_default [] None None 0 ∅ 0.

(** An 8-bit H.264 file whose keyframes are ten seconds apart. *)
Definition long_gop : MediaInfo :=
  media "matroska"
    (Some (mkVideoStream "h264" 1920 1080 None (Some 8) false None None None None (Some 10000)
             None None None None)) (Some (au "aac" 2)).
Definition one_part : list PartSource := [mkPart "f" 0 0 "host" "c" "r" "a.mkv" 1000000 0 0 60000].

(** With no executor at all, a client that caps its segment length and the
    bit depth of its codec sends planning into unbounded recursion: the override
    encodes with no target offered, the constraint is unsupported, and the exact
    probe returns the same facts. *)
Theorem planning_diverges :
  let f := probe (gst := typical_stack) false empty_registry long_gop true None in
  forall fuel, plan_with_force false empty_registry fuel short_negotiation one_part long_gop f false = None.
Proof.
  assert (Hf : probe (gst := typical_stack) false empty_registry long_gop true None
               = mkFacts false [] [] (local_audio_encoder_names (gst := typical_stack)) 0 true)
    by (vm_compute; reflexivity).
  intros f fuel. subst f. rewrite Hf. induction fuel as [|fuel IH]; [done|].
  cbn [plan_with_force].
  match goal with |- (if ?b then _ else _) = _ => replace b with true by (vm_compute; reflexivity) end.
  change (f_burn_capable _) with true.
  replace (probe (gst := typical_stack) false empty_registry long_gop true (Some VideoBitDepth))
    with (mkFacts false [] [] (local_audio_encoder_names (gst := typical_stack)) 0 true)
    by (vm_compute; reflexivity).
  exact IH.
Qed.

(** ** The class a plan is paced under *)

(** Two angles in one file: a small one first, the picked one in 4K. *)
Definition two_angles : MediaInfo := {|
  container := Some "matroska"; duration_ms := Some 60000;
  video := [mkVideoStream "mpeg2" 720 576 None None false None None None None None None None None None;
            mkVideoStream "hevc" 3840 2160 None None false None None None None None None None None None];
  audio := [au "aac" 2]; subtitles := []; external_subtitles := []; replay_gain := None; artwork := None;
  artwork_images := ∅; season_artwork := None; nfo := None; sidecar_revision := None; tags := ∅;
  attachments := None; chapters := None; video_geometry_probed := false;
  video_geometry_error := None |}.

(** The plan for the second angle. *)
Definition second_angle : Request :=
  let q := request (client ["h264"] ["aac"] Ignore) two_angles true false fleet in
  mkRequest (profile q) (info q) 0 1 true None false true [] None ass_policy_default fleet fleet fleet false.

(** The work class of a plan is read off the first video stream whichever
    one the plan encodes: a 4K encode of a second angle is predicted, and its
    pace is filed, under the class of the small first one. *)
Theorem work_class_first_stream :
  exists p i first chosen,
    p = sp_plan (negotiate_for_executors second_angle) /\ i = info second_angle
    /\ rp_video p = Encode /\ rp_video_track p = 1%nat
    /\ video i !! 0%nat = Some first /\ video i !! 1%nat = Some chosen
    /\ snd (placement_need p i one_part false)
       = work_class (v_height first) (v_codec first) (video_target_str (rp_video_codec p)) (rp_tone_map p)
    /\ snd (placement_need p i one_part false)
       <> work_class (v_height chosen) (v_codec chosen) (video_target_str (rp_video_codec p)) (rp_tone_map p).
Proof.
  do 4 eexists. split; [reflexivity|]. split; [reflexivity|].
  split; [vm_compute; reflexivity|]. split; [vm_compute; reflexivity|].
  split; [reflexivity|]. split; [reflexivity|].
  split; [vm_compute; reflexivity|vm_compute; discriminate].
Qed.

(** ** Choosing a source *)

Lemma choice_cmp_ok : cmp_ok (fun _ => True) key_cmp_choice.
Proof.
  unfold key_cmp_choice. apply (cmp_ok_then (fun _ => True)).
  - by apply (cmp_ok_on _ (fun _ => True) key_incomplete), bool_cmp_ok.
  - apply (cmp_ok_then (fun _ => True)).
    + by apply (cmp_ok_on _ (fun _ => True) (fun k => cost_rank (ordinary_cost k))), z_cmp_ok.
    + by apply (cmp_ok_on _ (fun _ => True) force_missed), bool_cmp_ok.
Qed.

Lemma choice_refl k : cmp_le key_cmp_choice k k.
Proof. intros H. pose proof (co_anti choice_cmp_ok k k I I) as E. by rewrite H in E. Qed.

(** The best so far is the first minimum of the keys seen. *)
Definition first_best (seen : list SourceChoiceKey) (best : option (nat * SourceChoiceKey)) : Prop :=
  match best with
  | None => seen = []
  | Some (j, k) =>
      seen !! j = Some k
      /\ (forall m k', seen !! m = Some k' -> cmp_le key_cmp_choice k k')
      /\ (forall m k', (m < j)%nat -> seen !! m = Some k' -> key_cmp_choice k k' = Lt)
  end.

Lemma lookup_snoc_cases {A} (l : list A) x m y :
  (l ++ [x]) !! m = Some y -> l !! m = Some y \/ (m = length l /\ y = x).
Proof.
  intros [H|[Hm H]]%lookup_app_Some; [by left|]. right.
  apply list_lookup_singleton_Some in H as [Hz ->]. split; [lia|done].
Qed.

Lemma first_best_step seen best k :
  first_best seen best ->
  first_best (seen ++ [k])
    (if is_none_or (fun b => match key_cmp_choice k (snd b) with Lt => true | _ => false end) best
     then Some (length seen, k) else best).
Proof.
  intros H. destruct best as [[j b]|]; simpl.
  2:{ simpl in H. subst seen. simpl. split_and!; [done|..].
      - intros [|m] k' Hk; [|done]. injection Hk as <-. apply choice_refl.
      - lia. }
  destruct H as (Hj & Hle & Hlt). destruct (key_cmp_choice k b) eqn:E.
  - split_and!; [by apply lookup_app_l_Some| |].
    + intros m k' [Hk|[_ ->]]%lookup_snoc_cases; [by eapply Hle|].
      unfold cmp_le. rewrite (co_anti choice_cmp_ok k b I I), E. done.
    + intros m k' Hm Hk. apply (Hlt m); [done|]. rewrite lookup_app_l in Hk; [done|].
      apply lookup_lt_Some in Hj. lia.
  - assert (Hkb : forall m k', seen !! m = Some k' -> key_cmp_choice k k' = Lt).
    { intros m k' Hk. specialize (Hle m k' Hk).
      destruct (key_cmp_choice k k') eqn:Ek; [|done|]; exfalso.
      - apply (co_trans choice_cmp_ok b k' k I I I Hle); [|by rewrite (co_anti choice_cmp_ok k b I I), E].
        unfold cmp_le. by rewrite (co_anti choice_cmp_ok k k' I I), Ek.
      - apply (co_trans choice_cmp_ok b k' k I I I Hle); [|by rewrite (co_anti choice_cmp_ok k b I I), E].
        unfold cmp_le. by rewrite (co_anti choice_cmp_ok k k' I I), Ek. }
    split_and!.
    + by rewrite lookup_app_r, Nat.sub_diag by lia.
    + intros m k' [Hk|[_ ->]]%lookup_snoc_cases; [|apply choice_refl].
      unfold cmp_le. by rewrite (Hkb m k' Hk).
    + intros m k' Hm Hk. rewrite lookup_app_l in Hk by done. by apply (Hkb m).
  - split_and!; [by apply lookup_app_l_Some| |].
    + intros m k' [Hk|[_ ->]]%lookup_snoc_cases; [by eapply Hle|].
      unfold cmp_le. rewrite (co_anti choice_cmp_ok k b I I), E. done.
    + intros m k' Hm Hk. apply (Hlt m); [done|]. rewrite lookup_app_l in Hk; [done|].
      apply lookup_lt_Some in Hj. lia.
Qed.

Lemma best_key_first seen best keys :
  first_best seen best -> first_best (seen ++ keys) (best_key (length seen) best keys).
Proof.
  revert seen best. induction keys as [|k keys IH]; intros seen best H; cbn [best_key].
  - by rewrite app_nil_r.
  - specialize (IH (seen ++ [k]) _ (first_best_step seen best k H)).
    rewrite length_app, <- app_assoc in IH. cbn [length app] in IH. by rewrite Nat.add_1_r in IH.
Qed.

(** The source that plays is the first one with the least key, where a
    complete plan beats an incomplete one, then the cheaper ordinary plan wins,
    and forced loudness only breaks a tie: a missed force never promotes a
    source whose ordinary path costs more. *)
Theorem choose_source_best keys :
  keys <> [] ->
  exists j k, choose_source keys = Some j /\ keys !! j = Some k
    /\ (forall m k', keys !! m = Some k' ->
         cmp_le key_cmp_choice k k'
         /\ (key_incomplete k = true -> key_incomplete k' = true)
         /\ (key_incomplete k = key_incomplete k' ->
             cost_rank (ordinary_cost k) <= cost_rank (ordinary_cost k')))
    /\ (forall m k', (m < j)%nat -> keys !! m = Some k' -> key_cmp_choice k k' = Lt).
Proof.
  intros Hne. pose proof (best_key_first [] None keys eq_refl) as H. cbn [app length] in H.
  unfold choose_source. destruct (best_key 0 None keys) as [[j k]|]; [|by simpl in H].
  destruct H as (Hj & Hle & Hlt). exists j, k. split_and!; [done|done| |done].
  intros m k' Hk. specialize (Hle m k' Hk). split; [done|]. unfold cmp_le, key_cmp_choice in Hle.
  destruct (key_incomplete k), (key_incomplete k'); simpl in Hle; (split; [done|]); try done;
    intros _; destruct (Z.compare_spec (cost_rank (ordinary_cost k)) (cost_rank (ordinary_cost k')));
    simpl in Hle; lia || done.
Qed.

(** ** Witnesses *)

Definition loud_stereo : AudioLoudness := mkAudioLoudness (F64.lit_neg 12 0) (F64.lit_neg 3 0).
Definition stereo_measured : AudioLoudnessMeasurement :=
  mkMeasurement (layout_new 2 0) [mkAudioLayoutLoudness (layout_new 2 0) loud_stereo].

(** The plan of a DTS source for a client of AAC. *)
Definition audio_encode_plan : RemuxPlan :=
  sp_plan (negotiate_for_executors_impl
    (request (client ["h264"] ["aac"] Ignore)
       (media "matroska" (Some (vs "h264")) (Some (au "dts" 2))) true false fleet)).

(** A programme at -12 LUFS is turned down by six decibels. *)
Lemma loudness_exact_witness :
  for_layout (gains_of_plan (apply_audio_loudness_measurement
    audio_encode_plan LoudnessEncoded (Some stereo_measured)))
    (layout_new 2 0)
  = Some (F64.lit_neg 6 0).
Proof.
  rewrite (proj1 (loudness_exact audio_encode_plan LoudnessEncoded
                    (Some stereo_measured) (layout_new 2 0)));
    [vm_compute; reflexivity|reflexivity|discriminate|vm_compute; lia].
Defined.

(** An encode sent to the one linked box. *)
Definition linked_registry : Registry := one_box one_slot_box 0.

Lemma need_dispatched_witness :
  exists b, boxes (snapshot linked_registry) !! "tc" = Some b
    /\ exists e, e ∈ bc_encoders (box_caps b) /\ es_codec e = "h264".
Proof.
  destruct (need_dispatched linked_registry
    (sp_plan (negotiate_for_executors (request_of short_negotiation one_part long_gop
       (probe false empty_registry long_gop true None) false))) long_gop one_part false "tc")
    as (_ & b & Hb & (e & He & Hc) & _); [vm_compute; reflexivity|].
  exists b. split; [exact Hb|]. exists e. split; [exact He|exact Hc].
Defined.

(** A client with no segment cap, the same 8-bit capability. *)
Definition open_negotiation : Negotiation :=
  let p := short_8bit_client in
  mkNegotiation {| containers := containers p; p_video := p_video p; p_audio := p_audio p;
     max_audio_channels := 0; max_height := None; max_fps := None; hdr := false;
     max_bandwidth_kbps := None; ass_render := false; graphics_overlay := false;
     vtt_render := true; target_duration := Accurate |}
    LoudnessOff ass_policy_default [] None None 0 ∅ 0.

Definition ten_bit : MediaInfo :=
  media "matroska"
    (Some (mkVideoStream "hevc" 1920 1080 None (Some 10) false None None None None None
             None None None None)) (Some (au "aac" 2)).

(** The first probe answered an executor that ignores depth constraints. *)
Definition old_executor : ExecutorFacts := mkFacts false ["h264"] ["aac"] ["aac"] 0 true.

Lemma planning_terminates_witness :
  is_Some (plan_with_force false linked_registry 2 open_negotiation one_part ten_bit old_executor false).
Proof.
  exact (planning_terminates false linked_registry open_negotiation one_part ten_bit old_executor
           false 0 eq_refl).
Defined.

Lemma constrained_plan_executor_witness :
  exists g sp, plan_with_force false linked_registry 2 open_negotiation one_part ten_bit old_executor false
               = Some sp /\ constrained (sp_plan sp) = true
    /\ supports (full_protocol g) VideoBitDepth = true
    /\ sp = negotiate_for_executors (request_of open_negotiation one_part ten_bit g false).
Proof.
  destruct (plan_with_force false linked_registry 2 open_negotiation one_part ten_bit old_executor false)
    as [sp|] eqn:E; [|vm_compute in E; discriminate].
  assert (Hc : constrained (sp_plan sp) = true)
    by (vm_compute in E; injection E as <-; vm_compute; reflexivity).
  destruct (constrained_plan_executor false linked_registry 2 open_negotiation one_part ten_bit
              old_executor false sp E Hc) as (g & _ & Hsp & Hs).
  exists g, sp. split; [reflexivity|]. split; [exact Hc|]. split; [exact Hs|exact Hsp].
Defined.

(** The complete second source wins over the cheaper incomplete first. *)
Lemma choose_source_best_witness :
  exists k, [mkKey true CopyCost false; mkKey false VideoEncode false] !! 1%nat = Some k
    /\ key_incomplete k = false.
Proof.
  destruct (choose_source_best [mkKey true CopyCost false; mkKey false VideoEncode false])
    as (j & k & Hj & Hk & _); [discriminate|].
  vm_compute in Hj. injection Hj as <-. exists k. split; [exact Hk|].
  injection Hk as <-. reflexivity.
Defined.
