(* ===== verification/Admission.v ===== *)
(** * Admission and the session table (kahawai-hub, src/sessions/admission.rs, mod.rs, start.rs)

    The maps a session's life goes through: [reserved] while a start is in
    flight, [active] while it plays, and the [idle] flag background work waits
    on. Sends on the [idle] channel happen after the [active] lock is released,
    so they are pending until delivered. The teardown of pipelines, leases and
    logs is not part of this table. *)
From S2P Require Import Prelude Playback.

Section Admission.
Context {P : Type} `{TimelinePart P}.
(** The [max_per_user] the hub is configured with. *)
Context (max_per_user : nat).

(** The fields of [Session] its table is searched by. *)
Record Session := mkSession {
  s_id : string;
  s_user_id : string;
  s_module_id : string;
  s_parts : list P;
}.

Record Sessions := mkSessions {
  reserved : gmap string string;
  active : gmap string Session;
  idle : bool;
  pending : list bool;
}.

Definition sessions_new : Sessions := mkSessions ∅ ∅ true [].

(** [held] of [admit]: the user's reservations, and the user's active sessions
    that are not reserved as well. *)
Definition held (st : Sessions) (user : string) : nat :=
  (length (List.filter (fun '(_, u) => u =s user) (map_to_list (reserved st)))
   + length (List.filter (fun '(_, s) => (s_user_id s =s user)
                                           && is_none (reserved st !! s_id s))
               (map_to_list (active st))))%nat.

Definition with_reserved (st : Sessions) (r : gmap string string) : Sessions :=
  mkSessions r (active st) (idle st) (pending st).

(** [Err n] is [SessionCap { held: n }]. *)
Definition admit_session (st : Sessions) (id user : string) : result nat Sessions :=
  let n := held st user in
  if (max_per_user <=? n)%nat then Err n
  else Ok (with_reserved st (<[id := user]> (reserved st))).

Definition release (st : Sessions) (id : string) : Sessions :=
  with_reserved st (delete id (reserved st)).

(** The end of [start_inner]. *)
Definition activate (st : Sessions) (s : Session) : Sessions :=
  mkSessions (reserved st) (<[s_id s := s]> (active st)) (idle st) (pending st ++ [false]).

(** [Sessions::end]: the removal and the idle send it decides on. *)
Definition end_session (st : Sessions) (id : string) : bool * Sessions :=
  match active st !! id with
  | None => (false, st)
  | Some _ =>
      let active := delete id (active st) in
      (true, mkSessions (reserved st) active (idle st)
               (if decide (active = ∅) then pending st ++ [true] else pending st))
  end.

(** [send_replace] of the [i]-th pending send. *)
Definition deliver (st : Sessions) (i : nat) : Sessions :=
  match pending st !! i with
  | Some b => mkSessions (reserved st) (active st) b (take i (pending st) ++ drop (S i) (pending st))
  | None => st
  end.

(** [end_for_user] and [end_for_module]: the ids first, then each end. *)
Definition ids_where (f : Session -> bool) (st : Sessions) : list string :=
  map s_id (List.filter f (map snd (map_to_list (active st)))).
Definition end_each (st : Sessions) (ids : list string) : Sessions :=
  fold_left (fun st id => snd (end_session st id)) ids st.
Definition end_for_user (st : Sessions) (user : string) : nat * Sessions :=
  let ids := ids_where (fun s => s_user_id s =s user) st in (length ids, end_each st ids).
Definition end_for_module (st : Sessions) (module_id : string) : nat * Sessions :=
  let ids := ids_where (fun s => reads_from (s_module_id s) (s_parts s) module_id) st in
  (length ids, end_each st ids).

(** What interleaves: starts (each mints a fresh id, and activates under its
    own reservation), their guards' drops, ends, and deliveries. *)
Inductive sstep : Sessions -> Sessions -> Prop :=
| ss_admit st id user st' :
    reserved st !! id = None -> active st !! id = None ->
    admit_session st id user = Ok st' -> sstep st st'
| ss_activate st s : reserved st !! s_id s = Some (s_user_id s) -> sstep st (activate st s)
| ss_release st id : sstep st (release st id)
| ss_end st id : sstep st (snd (end_session st id))
| ss_deliver st i : sstep st (deliver st i).
End Admission.
Arguments Session P : clear implicits.
Arguments Sessions P : clear implicits.
