(* ===== verification/AdmissionTheorems.v ===== *)
(** * What admission guarantees

    The per-user cap holds whatever interleaves, a start that fails leaves no
    trace, bulk ends reach exactly the sessions they name, and the [idle] flag
    can be left wrong by two interleaved sends. *)
From S2P Require Import Prelude Playback Admission.

Section Cap.
Context {P : Type} `{TimelinePart P} (max_per_user : nat).
Implicit Types st : Sessions P.

(** Every id that counts against a user: reserved for it, or playing. *)
Definition owned st (user : string) : gset string :=
  dom (filter (fun kv => kv.2 = user) (reserved st))
  ∪ dom (filter (fun kv => s_user_id kv.2 = user) (active st)).

(** Sessions are filed under their own id, and one id has one user. *)
Definition filed st : Prop :=
  forall id s, active st !! id = Some s ->
    s_id s = id /\ forall u, reserved st !! id = Some u -> u = s_user_id s.

Definition capped st : Prop := filed st /\ forall user, (size (owned st user) <= max_per_user)%nat.

Lemma owned_spec st user id :
  id ∈ owned st user <->
  reserved st !! id = Some user \/ exists s, active st !! id = Some s /\ s_user_id s = user.
Proof.
  unfold owned. rewrite elem_of_union, !elem_of_dom. unfold is_Some.
  setoid_rewrite map_lookup_filter_Some. simpl. split.
  - intros [(u & Hu & ->)|Hs]; [by left|by right].
  - intros [Hu|Hs]; [left; by exists user|by right].
Qed.

Lemma keys_filter_NoDup {A} (f : string * A -> bool) (m : gmap string A) :
  NoDup (map fst (List.filter f (map_to_list m))).
Proof.
  pose proof (NoDup_fst_map_to_list m) as Hm. revert Hm.
  generalize (map_to_list m) as l. induction l as [|[i x] l IH]; simpl; intros Hl; [constructor|].
  apply NoDup_cons in Hl as [Hi Hl]. destruct (f (i, x)); simpl; [|by apply IH].
  constructor; [|by apply IH]. intros ([i' x'] & -> & Hin)%list_elem_of_fmap.
  apply Hi. apply elem_of_filter_bool in Hin as [Hin _]. apply list_elem_of_fmap. by exists (i', x').
Qed.

Lemma keys_filter_elem {A} (f : string * A -> bool) (m : gmap string A) id :
  id ∈ map fst (List.filter f (map_to_list m)) <-> exists x, m !! id = Some x /\ f (id, x) = true.
Proof.
  rewrite list_elem_of_fmap. split.
  - intros ([i x] & -> & [Hin Hf]%elem_of_filter_bool). apply elem_of_map_to_list in Hin. eauto.
  - intros (x & Hx & Hf). exists (id, x). split; [done|]. apply elem_of_filter_bool.
    by rewrite elem_of_map_to_list.
Qed.

(** [held] counts every session once, however many maps it is in. *)
Lemma held_owned st user : filed st -> held st user = size (owned st user).
Proof.
  intros Hf. unfold held.
  set (f1 := fun '(_, u) => u =s user).
  set (f2 := fun '(_, s) => _ && _).
  rewrite <- (length_map fst (List.filter f1 _)), <- (length_map fst (List.filter f2 _)), <- length_app.
  rewrite <- (size_list_to_set (C := gset string)).
  - f_equal. apply set_eq. intros id.
    rewrite elem_of_list_to_set, elem_of_app, !keys_filter_elem, owned_spec.
    unfold f1, f2. clear f1 f2. split.
    + intros [(u & Hu & ->%String.eqb_eq)|(s & Hs & [<-%String.eqb_eq _]%andb_true_iff)]; eauto.
    + intros [Hu|(s & Hs & <-)]; [left; exists user; by rewrite String.eqb_refl|].
      destruct (Hf id s Hs) as [Hid Hu]. destruct (reserved st !! id) as [u|] eqn:E.
      * left. exists u. by rewrite (Hu u eq_refl), String.eqb_refl.
      * right. exists s. by rewrite Hid, E, String.eqb_refl.
  - apply NoDup_app. split; [apply keys_filter_NoDup|]. split; [|apply keys_filter_NoDup].
    intros id (u & Hu & _)%keys_filter_elem (s & Hs & Hb)%keys_filter_elem.
    destruct (Hf id s Hs) as [Hid _]. unfold f2 in Hb. rewrite Hid, Hu, andb_false_r in Hb. done.
Qed.

Lemma admit_ok st id user st' :
  admit_session max_per_user st id user = Ok st' ->
  (held st user < max_per_user)%nat /\ st' = with_reserved st (<[id := user]> (reserved st)).
Proof.
  unfold admit_session. destruct (Nat.leb_spec max_per_user (held st user)); [done|].
  by intros [= <-].
Qed.

(** Nothing but an admission makes a user own more. *)
Lemma owned_shrinks st st' user :
  (forall id, id ∈ owned st' user -> id ∈ owned st user) ->
  (size (owned st user) <= max_per_user)%nat -> (size (owned st' user) <= max_per_user)%nat.
Proof. intros Hs Hle. etrans; [|exact Hle]. apply subseteq_size. exact Hs. Qed.

Lemma admit_capped st id user st' :
  reserved st !! id = None -> active st !! id = None ->
  admit_session max_per_user st id user = Ok st' -> capped st -> capped st'.
Proof.
  intros Hr Ha [Hlt ->]%admit_ok [Hf Hc]. rewrite held_owned in Hlt by done. split.
  - intros i s Hs. simpl in Hs. destruct (Hf i s Hs) as [Hi Hu]. split; [done|].
    intros u. simpl. rewrite lookup_insert_ne by congruence. apply Hu.
  - intros user'. destruct (decide (user' = user)) as [->|Hne].
    + transitivity (size ({[id]} ∪ owned st user)).
      * apply subseteq_size. intros i. rewrite elem_of_union, elem_of_singleton, !owned_spec. simpl.
        rewrite lookup_insert_Some. intros [[[-> _]|[_ H']]|H']; auto.
      * rewrite size_union_alt, size_singleton.
        assert (size (owned st user ∖ {[id]}) <= size (owned st user))%nat
          by (apply subseteq_size, subseteq_difference_l; reflexivity). lia.
    + apply (owned_shrinks st); [|done]. intros i. rewrite !owned_spec. simpl.
      rewrite lookup_insert_Some. intros [[[-> ->]|[_ H']]|H']; auto. done.
Qed.

Lemma end_active st id : active (snd (end_session st id)) = delete id (active st).
Proof.
  unfold end_session. destruct (active st !! id) eqn:E; simpl; [done|].
  by rewrite delete_id.
Qed.
Lemma end_reserved st id : reserved (snd (end_session st id)) = reserved st.
Proof. unfold end_session. by destruct (active st !! id). Qed.

Lemma step_capped st st' : sstep max_per_user st st' -> capped st -> capped st'.
Proof.
  intros Hs [Hf Hc]. destruct Hs as [st id user st' Hr Ha Had|st s Hr|st id|st id|st i].
  - by eapply admit_capped.
  - split.
    + intros i s'. simpl. rewrite lookup_insert_Some. intros [[<- <-]|[_ Hs]]; [|by apply Hf].
      split; [done|]. intros u Hu. congruence.
    + intros user. apply (owned_shrinks st); [|done]. intros i. rewrite !owned_spec. simpl.
      intros [Hi|(s' & Hs & Hu)]; [by left|].
      apply lookup_insert_Some in Hs as [[<- <-]|[_ Hs]]; [left; congruence|right; eauto].
  - split.
    + intros i s Hs. destruct (Hf i s Hs) as [Hi Hu]. split; [done|]. intros u.
      simpl. rewrite lookup_delete_Some. intros [_ H']. by apply Hu.
    + intros user. apply (owned_shrinks st); [|done]. intros i. rewrite !owned_spec. simpl.
      rewrite lookup_delete_Some. intros [[_ Hi]|Hi]; auto.
  - split.
    + intros i s. rewrite end_active, end_reserved, lookup_delete_Some. intros [_ Hs]. by apply Hf.
    + intros user. apply (owned_shrinks st); [|done]. intros i.
      rewrite !owned_spec, end_active, end_reserved. intros [Hi|(s & Hs & Hu)]; [by left|].
      apply lookup_delete_Some in Hs as [_ Hs]. right; eauto.
  - unfold deliver. by destruct (pending st !! i).
Qed.

Lemma reachable_capped st : rtc (sstep max_per_user) sessions_new st -> capped st.
Proof.
  intros Hr. assert (capped (sessions_new : Sessions P)) as H0.
  { split; [done|]. intros user. replace (owned sessions_new user) with (∅ : gset string); [rewrite size_empty; lia|].
    symmetry. apply set_eq. intros i. rewrite owned_spec. simpl.
    split; [intros [Hi|(s & Hs & _)]; done|done]. }
  revert H0. induction Hr as [|a b c Hs _ IH]; [done|]. intros Ha. apply IH. by eapply step_capped.
Qed.

(** C15: however starts, abandoned requests, failed starts and ends interleave,
    no user ever holds more than [max_per_user] sessions, counting those still
    starting: the count and the reservation are one critical section. *)
Theorem session_cap st user :
  rtc (sstep max_per_user) sessions_new st ->
  (size (owned st user) <= max_per_user)%nat.
Proof. intros Hr. apply reachable_capped, Hr. Qed.

(** Admission is exact: in every reachable state a start is refused just
    when its user owns [max_per_user] sessions, and the refusal reports that
    number; a start that fails gives its slot back and leaves no trace; one
    that succeeds counts once before and after its reservation is dropped. *)
Theorem admit_exact st id user :
  rtc (sstep max_per_user) sessions_new st ->
  reserved st !! id = None -> active st !! id = None ->
  match admit_session max_per_user st id user with
  | Err n => n = size (owned st user) /\ n = max_per_user
  | Ok st' =>
      (size (owned st user) < max_per_user)%nat
      /\ release st' id = st
      /\ forall s, s_id s = id -> s_user_id s = user ->
           owned (activate st' s) user = {[id]} ∪ owned st user
           /\ owned (release (activate st' s) id) user = {[id]} ∪ owned st user
  end.
Proof.
  intros Hr Hres Hact. apply reachable_capped in Hr as [Hf Hc]. specialize (Hc user).
  destruct (admit_session max_per_user st id user) as [st'|n] eqn:E.
  - apply admit_ok in E as [Hlt ->]. rewrite held_owned in Hlt by done. split; [done|]. split.
    + destruct st. unfold release, with_reserved. simpl in *. by rewrite delete_insert_id.
    + intros s <- <-. split; apply set_eq; intros i;
        rewrite elem_of_union, elem_of_singleton, !owned_spec; simpl.
      * rewrite lookup_insert_Some. setoid_rewrite lookup_insert_Some. split.
        -- intros [[[<- _]|[_ Hi]]|(s' & [[<- <-]|[_ Hs]] & Hu)]; eauto.
        -- intros [->|[Hi|(s' & Hs & Hu)]]; [by left; left| |].
           ++ left. right. split; [congruence|done].
           ++ right. exists s'. split; [right; split; [congruence|done]|done].
      * rewrite delete_insert_id by done. setoid_rewrite lookup_insert_Some. split.
        -- intros [Hi|(s' & [[<- <-]|[_ Hs]] & Hu)]; eauto.
        -- intros [->|[Hi|(s' & Hs & Hu)]]; [right; exists s; by split; [left|]|by left|].
           right. exists s'. split; [right; split; [congruence|done]|done].
  - unfold admit_session in E. destruct (Nat.leb_spec max_per_user (held st user)); [|done].
    injection E as <-. rewrite held_owned in * by done. split; [done|lia].
Qed.
End Cap.

(** ** Ending many sessions *)

Section Bulk.
Context {P : Type} `{TimelinePart P} (max_per_user : nat).
Implicit Types st : Sessions P.

Lemma end_each_state st ids :
  reserved (end_each st ids) = reserved st
  /\ forall id, active (end_each st ids) !! id = if decide (id ∈ ids) then None else active st !! id.
Proof.
  revert st. induction ids as [|i ids IH]; intros st.
  { split; [done|]. intros id. by rewrite decide_False by apply not_elem_of_nil. }
  change (end_each st (i :: ids)) with (end_each (snd (end_session st i)) ids).
  destruct (IH (snd (end_session st i))) as [Hr Ha]. split; [by rewrite Hr, end_reserved|].
  intros id. rewrite Ha, end_active. destruct (decide (id = i)) as [->|Hne].
  - rewrite (decide_True (P := i ∈ i :: ids)) by apply list_elem_of_here.
    rewrite lookup_delete_eq. by case_decide.
  - rewrite lookup_delete_ne by done. destruct (decide (id ∈ ids)) as [Hin|Hni].
    + by rewrite decide_True by (by apply list_elem_of_further).
    + rewrite decide_False; [done|]. rewrite elem_of_cons. by intros [?|?].
Qed.

Lemma ids_where_elem st f id :
  filed st ->
  id ∈ ids_where f st <-> exists s, active st !! id = Some s /\ f s = true.
Proof.
  intros Hf. unfold ids_where. rewrite list_elem_of_fmap. split.
  - intros (s & -> & [Hs Hb]%elem_of_filter_bool).
    apply list_elem_of_fmap in Hs as ([i s'] & -> & Hin). apply elem_of_map_to_list in Hin.
    simpl in *. destruct (Hf i s' Hin) as [-> _]. eauto.
  - intros (s & Hs & Hb). exists s. destruct (Hf id s Hs) as [Hi _]. split; [done|].
    apply elem_of_filter_bool. split; [|done]. apply list_elem_of_fmap. exists (id, s).
    by rewrite elem_of_map_to_list.
Qed.

Lemma end_where_exact st f id :
  filed st ->
  active (end_each st (ids_where f st)) !! id
  = opt_filter (fun s => negb (f s)) (active st !! id).
Proof.
  intros Hf. rewrite (proj2 (end_each_state st _)).
  destruct (active st !! id) as [s|] eqn:E; [|by case_decide].
  unfold opt_filter. destruct (f s) eqn:Hb.
  - rewrite decide_True; [done|]. apply ids_where_elem; eauto.
  - rewrite decide_False; [done|]. intros (s' & Hs & Hb')%ids_where_elem; [congruence|done].
Qed.

(** Ending by user or by mediahost ends exactly the active sessions that
    are the user's, or that read any part from the host; every other session
    keeps playing and no reservation is touched. *)
Theorem bulk_end_exact st key id :
  rtc (sstep max_per_user) sessions_new st ->
  active (snd (end_for_user st key)) !! id
  = opt_filter (fun s => negb (s_user_id s =s key)) (active st !! id)
  /\ active (snd (end_for_module st key)) !! id
     = opt_filter (fun s => negb (reads_from (s_module_id s) (s_parts s) key)) (active st !! id)
  /\ reserved (snd (end_for_user st key)) = reserved st
  /\ reserved (snd (end_for_module st key)) = reserved st.
Proof.
  intros [Hf _]%reachable_capped. unfold end_for_user, end_for_module. cbn [snd].
  rewrite !end_where_exact by done. split_and!; try done; apply end_each_state.
Qed.
End Bulk.

(** ** Where the table promises more than it does *)

(** A part of a timeline, as the fields of the table need it. *)
#[local] Instance unit_part : TimelinePart unit := {| base_ms := fun _ => 0%Z; module_id := fun _ => "" |}.

Definition viewer (id : string) : Session unit := mkSession id "u" "host" [].

Ltac walk step := eapply rtc_l; [step|].

(** The [idle] flag, "true while [active] is empty", can stay wrong: the
    removal and the send are not one critical section, so an end that emptied
    the table may send after a later start, leaving the flag up while a session
    plays and nothing pending. *)
Theorem idle_flag_race :
  exists st : Sessions unit,
    rtc (sstep 2) sessions_new st /\ pending st = [] /\ idle st = true /\ active st <> ∅.
Proof.
  eexists. split.
  - walk ltac:(apply (ss_admit 2 _ "a" "u"); [done|done|reflexivity]).
    walk ltac:(apply (ss_activate 2 _ (viewer "a")); reflexivity).
    walk ltac:(apply (ss_deliver 2 _ 0)).
    walk ltac:(apply (ss_end 2 _ "a")).
    walk ltac:(apply (ss_admit 2 _ "b" "u"); [reflexivity|reflexivity|vm_compute; reflexivity]).
    walk ltac:(apply (ss_activate 2 _ (viewer "b")); vm_compute; reflexivity).
    walk ltac:(apply (ss_deliver 2 _ 1)).
    walk ltac:(apply (ss_deliver 2 _ 0)).
    apply rtc_refl.
  - split; [reflexivity|]. split; [reflexivity|]. vm_compute. discriminate.
Qed.

(** Ending every session of an account misses the ones still starting: a
    start admitted before the account is deleted plays after
    [end_for_user] has returned. *)
Theorem start_outlives_account :
  exists st st' : Sessions unit,
    rtc (sstep 2) sessions_new st
    /\ rtc (sstep 2) (snd (end_for_user st "u")) st'
    /\ exists s, active st' !! "a" = Some s /\ s_user_id s = "u".
Proof.
  eexists. eexists. split.
  - walk ltac:(apply (ss_admit 2 _ "a" "u"); [done|done|reflexivity]). apply rtc_refl.
  - split.
    + walk ltac:(apply (ss_activate 2 _ (viewer "a")); vm_compute; reflexivity). apply rtc_refl.
    + exists (viewer "a"). split; vm_compute; reflexivity.
Qed.

(** ** Witnesses *)

Lemma session_cap_witness :
  (size (owned (with_reserved (sessions_new : Sessions unit) {["a" := "u"]}) "u") <= 1)%nat.
Proof.
  apply (session_cap 1 (with_reserved sessions_new {["a" := "u"]}) "u").
  walk ltac:(apply (ss_admit 1 _ "a" "u"); [reflexivity|reflexivity|reflexivity]). apply rtc_refl.
Defined.

(** The second start of a user allowed one is refused with the count. *)
Lemma admit_exact_witness :
  admit_session 1 (with_reserved (sessions_new : Sessions unit) {["a" := "u"]}) "b" "u" = Err 1%nat
  /\ size (owned (with_reserved (sessions_new : Sessions unit) {["a" := "u"]}) "u") = 1%nat.
Proof.
  assert (Hr : rtc (sstep 1) (sessions_new : Sessions unit) (with_reserved sessions_new {["a" := "u"]})).
  { walk ltac:(apply (ss_admit 1 _ "a" "u"); [reflexivity|reflexivity|reflexivity]). apply rtc_refl. }
  pose proof (admit_exact 1 _ "b" "u" Hr eq_refl eq_refl) as H.
  vm_compute (admit_session _ _ _ _) in H. destruct H as [H _].
  split; [vm_compute; reflexivity|by symmetry].
Defined.

(** A session that plays is ended with its account. *)
Lemma bulk_end_exact_witness :
  let st := activate (with_reserved sessions_new {["a" := "u"]}) (viewer "a") in
  active st !! "a" = Some (viewer "a") /\ active (snd (end_for_user st "u")) !! "a" = None.
Proof.
  intros st. split; [reflexivity|].
  rewrite (proj1 (bulk_end_exact 1 st "u" "a"
    ltac:(walk ltac:(apply (ss_admit 1 _ "a" "u"); [reflexivity|reflexivity|reflexivity]);
          walk ltac:(apply (ss_activate 1 _ (viewer "a")); reflexivity); apply rtc_refl))).
  reflexivity.
Defined.
