(* ===== verification/Scheduler.v ===== *)
(** * The mediahost's admission authority (kahawai-mediahost, src/scheduler.rs; the configuration of kahawai-core, src/media.rs)

    One mutex guards the queue, so each operation is one step on [State].
    A job's [Control] is shared between its queue entry, its permit and the
    task that waits on it; [controls] is the store those references point into,
    addressed by the job's id, which is minted with it. [Instant::now()] is an
    argument, one per call. The counters are u64 that grow by one per job and
    are not expected to wrap. Hash maps are finite maps; every reading of one
    here is proved independent of its order, or is. Labels only reach the log. *)
From S2P Require Import Prelude.

#[local] Open Scope Z_scope.

Inductive Priority :=
| Demand | CatalogFreshness | Attachments | Keyframes | Geometry
| LocalMetadata | Ed2k | SubtitlePrewarm | Segments | Loudness.

(** The declared discriminants; the derived order is theirs. *)
Definition prio (p : Priority) : Z :=
  match p with
  | Demand => 0 | CatalogFreshness => 1 | Attachments => 2 | Keyframes => 3 | Geometry => 4
  | LocalMetadata => 5 | Ed2k => 6 | SubtitlePrewarm => 7 | Segments => 8 | Loudness => 9
  end.

#[export] Instance Priority_eq_dec : EqDecision Priority.
Proof. solve_decision. Defined.

Definition prio_of (n : nat) : option Priority :=
  [Demand; CatalogFreshness; Attachments; Keyframes; Geometry; LocalMetadata; Ed2k;
   SubtitlePrewarm; Segments; Loudness] !! n.
#[export] Program Instance Priority_countable : Countable Priority :=
  inj_countable (fun p => Z.to_nat (prio p)) prio_of _.
Next Obligation. by intros []. Qed.

(** [usize] counts are [nat]. *)
Record Resources := mkResources {
  cpu : nat;
  io : gset string;
  exclusive : gset string;
}.

Definition is_disjoint (X Y : gset string) : bool := bool_decide (X ## Y).

Definition conflicts (r o : Resources) : bool :=
  (negb (cpu r =? 0)%nat && negb (cpu o =? 0)%nat)
  || negb (is_disjoint (io r) (io o))
  || negb (is_disjoint (exclusive r) (exclusive o)).

Definition add_exclusive (r : Resources) (resource : string) : Resources :=
  mkResources (cpu r) (io r) (exclusive r ∪ {[resource]}).

Record Control := mkControl { granted : bool; pause : bool; cancelled : bool }.
Definition control_default : Control := mkControl false false false.
Definition store_granted (b : bool) (c : Control) : Control := mkControl b (pause c) (cancelled c).
Definition store_pause (b : bool) (c : Control) : Control := mkControl (granted c) b (cancelled c).
Definition store_cancelled (b : bool) (c : Control) : Control := mkControl (granted c) (pause c) b.

(** (collection, root token, relative path), and with the hinting owner first. *)
Definition Source : Type := string * string * string.
Definition Hint : Type := string * string * string * string.

Record Pending := mkPending {
  id : Z;
  sequence : Z;
  priority : Priority;
  base_priority : Priority;
  resources_of : Resources;
  owner : option string;
  demand_sources : gset Source;
}.

(** [Active]; its id is the key it is filed under. *)
Record Active := mkActive {
  a_priority : Priority;
  a_base_priority : Priority;
  a_resources : Resources;
  a_owner : option string;
  a_sequence : Z;
  a_demand_sources : gset Source;
}.

Record State := mkState {
  next_id : Z;
  next_sequence : Z;
  cpu_capacity : nat;
  io_capacity : gmap string nat;
  pending : list Pending;
  active : gmap Z Active;
  served : gmap (Priority * option string) Z;
  interactive : gmap Z Resources;
  hints : gmap Hint Z;
  controls : gmap Z Control;
}.

Definition with_pending (st : State) (p : list Pending) : State :=
  mkState (next_id st) (next_sequence st) (cpu_capacity st) (io_capacity st) p (active st)
    (served st) (interactive st) (hints st) (controls st).
Definition with_active (st : State) (a : gmap Z Active) : State :=
  mkState (next_id st) (next_sequence st) (cpu_capacity st) (io_capacity st) (pending st) a
    (served st) (interactive st) (hints st) (controls st).
Definition with_served (st : State) (s : gmap (Priority * option string) Z) : State :=
  mkState (next_id st) (next_sequence st) (cpu_capacity st) (io_capacity st) (pending st)
    (active st) s (interactive st) (hints st) (controls st).
Definition with_interactive (st : State) (i : gmap Z Resources) : State :=
  mkState (next_id st) (next_sequence st) (cpu_capacity st) (io_capacity st) (pending st)
    (active st) (served st) i (hints st) (controls st).
Definition with_hints (st : State) (h : gmap Hint Z) : State :=
  mkState (next_id st) (next_sequence st) (cpu_capacity st) (io_capacity st) (pending st)
    (active st) (served st) (interactive st) h (controls st).
Definition with_controls (st : State) (c : gmap Z Control) : State :=
  mkState (next_id st) (next_sequence st) (cpu_capacity st) (io_capacity st) (pending st)
    (active st) (served st) (interactive st) (hints st) c.

Definition values {K A} `{Countable K} (m : gmap K A) : list A := map snd (map_to_list m).

(** [for x in m.values() { x.control... }]: each entry's own control. *)
Definition for_controls {A} (f : A -> Control -> Control) (m : gmap Z A) (cs : gmap Z Control) :
    gmap Z Control :=
  foldl (fun cs '(i, a) => alter (f a) i cs) cs (map_to_list m).

(** [State::used]. *)
Definition count_io (m : gmap string nat) (domains : gset string) : gmap string nat :=
  foldl (fun m d => <[d := S (default 0%nat (m !! d))]> m) m (elements domains).
Definition used (st : State) : nat * gmap string nat :=
  foldl (fun '(c, m) a => ((c + cpu (a_resources a))%nat, count_io m (io (a_resources a))))
    (0%nat, ∅) (values (active st)).

Definition interrupted (st : State) (r : Resources) : bool :=
  existsb (fun i => conflicts i r) (values (interactive st)).

Definition io_used (st : State) (d : string) : nat := default 0%nat (snd (used st) !! d).
Definition io_cap (st : State) (d : string) : nat := default 1%nat (io_capacity st !! d).

Definition available (st : State) (r : Resources) : bool :=
  if interrupted st r then false
  else if (cpu_capacity st <? fst (used st) + cpu r)%nat then false
  else forallb (fun d => (io_used st d <? io_cap st d)%nat) (elements (io r))
       && forallb (fun a => is_disjoint (exclusive (a_resources a)) (exclusive r))
            (values (active st)).

(** ** Effective priorities, preemption, order *)

(** [hints.retain(|_, expires| *expires > now)]. *)
Definition retain_hints (now : Z) (h : gmap Hint Z) : gmap Hint Z :=
  filter (fun kv => now < snd kv)%Z h.

Definition hinted (h : gmap Hint Z) : gset Source :=
  list_to_set (map (fun '((_, c, r, p), _) => (c, r, p)) (map_to_list h)).

Definition demanded (h : gmap Hint Z) (sources : gset Source) : bool :=
  existsb (fun s => bool_decide (s ∈ hinted h)) (elements sources).

Definition set_priority (p : Priority) (j : Pending) : Pending :=
  mkPending (id j) (sequence j) p (base_priority j) (resources_of j) (owner j) (demand_sources j).
Definition set_a_priority (p : Priority) (a : Active) : Active :=
  mkActive p (a_base_priority a) (a_resources a) (a_owner a) (a_sequence a) (a_demand_sources a).

Definition refresh_demand_priorities (now : Z) (st : State) : State :=
  let h := retain_hints now (hints st) in
  let st := with_hints st h in
  let st := with_pending st
    (map (fun j => set_priority (if demanded h (demand_sources j) then Demand else base_priority j) j)
       (pending st)) in
  with_active st
    ((fun a => set_a_priority
        (if demanded h (a_demand_sources a) then Demand else a_base_priority a) a) <$> active st).

(** What a waiting job asks the running ones for. *)
Record Request := mkRequest {
  rq_priority : Priority;
  rq_cpu : nat;
  rq_cpu_full : bool;
  rq_full_io : gset string;
  rq_exclusive : gset string;
}.

Definition request_of (st : State) (j : Pending) : Request :=
  let r := resources_of j in
  mkRequest (priority j) (cpu r)
    (negb (cpu r =? 0)%nat && (cpu_capacity st <? fst (used st) + cpu r)%nat)
    (filter (fun d => io_cap st d <= io_used st d)%nat (io r))
    (exclusive r).

Definition blocks (q : Request) (a : Active) : bool :=
  (prio (rq_priority q) <? prio (a_priority a))
  && ((rq_cpu_full q && negb (rq_cpu q =? 0)%nat && negb (cpu (a_resources a) =? 0)%nat)
      || negb (is_disjoint (io (a_resources a)) (rq_full_io q))
      || negb (is_disjoint (exclusive (a_resources a)) (rq_exclusive q))).

Definition request_preemption (now : Z) (st : State) : State :=
  let st := refresh_demand_priorities now st in
  let cs := for_controls (fun a => store_pause (interrupted st (a_resources a)))
              (active st) (controls st) in
  let requests := map (request_of st)
    (List.filter (fun j => negb (interrupted st (resources_of j))) (pending st)) in
  let cs := foldl (fun cs q =>
      for_controls (fun a c => if blocks q a then store_pause true c else c) (active st) cs)
    cs requests in
  with_controls st cs.

Definition key3_cmp (a b : Priority * Z * Z) : comparison :=
  let '(p, x, s) := a in
  let '(p', x', s') := b in
  cmp_then (prio p ?= prio p') (cmp_then (x ?= x') (s ?= s')).

Definition Owner : Type := Priority * option string.
Definition owner_key (j : Pending) : Owner := (priority j, owner j).
Definition count_of (sv : gmap Owner Z) (j : Pending) : Z := default 0 (sv !! owner_key j).

(** The loop of [fair_order] over the jobs by age: [next_rank], [rank], [floor]. *)
Record Ranks := mkRanks {
  next_rank : gmap Owner Z;
  rank : gmap nat Z;
  floor : gmap Priority Z;
}.
Definition rank_job (sv : gmap Owner Z) (acc : Ranks) (ij : nat * Pending) : Ranks :=
  let '(index, job) := ij in
  let slot := default 0 (next_rank acc !! owner_key job) in
  let count := count_of sv job in
  mkRanks (<[owner_key job := slot + 1]> (next_rank acc))
    (<[index := slot]> (rank acc))
    (<[priority job := match floor acc !! priority job with
                       | Some low => Z.min low count
                       | None => count
                       end]> (floor acc)).

Definition enumerate {A} (l : list A) : list (nat * A) := imap pair l.

Definition by_age (l : list Pending) : list (nat * Pending) :=
  sort_by (fun a b => key3_cmp (priority (snd a), 0, sequence (snd a))
                               (priority (snd b), 0, sequence (snd b))) (enumerate l).
Definition ranks_of (l : list Pending) (sv : gmap Owner Z) : Ranks :=
  foldl (rank_job sv) (mkRanks ∅ ∅ ∅) (by_age l).

(** A job's position: its priority, its owner's count above the floor plus its
    rank in its owner's queue, its age. *)
Definition order_key (l : list Pending) (sv : gmap Owner Z) (ij : nat * Pending) : Priority * Z * Z :=
  let '(index, job) := ij in
  let rs := ranks_of l sv in
  let low := default 0 (floor rs !! priority job) in
  (priority job, count_of sv job - low + default 0 (rank rs !! index), sequence job).

Definition fair_order (l : list Pending) (sv : gmap Owner Z) : list (nat * Pending) :=
  sort_by (fun a b => key3_cmp (order_key l sv a) (order_key l sv b)) (by_age l).

Definition same_queue (p : Priority) (o : option string) (j : Pending) : bool :=
  bool_decide (priority j = p) && bool_decide (owner j = o).

Definition min_of (l : list Z) : option Z :=
  match l with [] => None | x :: l => Some (fold_left Z.min l x) end.

Definition join_service_level (st : State) (p : Priority) (o : option string) : State :=
  if existsb (same_queue p o) (pending st) then st
  else
    match min_of (map (count_of (served st))
                    (List.filter (fun j => bool_decide (priority j = p)) (pending st))) with
    | None => st
    | Some floor =>
        with_served st (<[(p, o) := Z.max (default 0 (served st !! (p, o))) floor]> (served st))
    end.

(** ** Dispatch *)

(** [Vec::swap_remove]; the source's indices are in range. *)
Definition swap_remove {A} (index : nat) (l : list A) : list A :=
  match last l with
  | None => l
  | Some z => let l' := removelast l in <[index := z]> l'
  end.

Definition activate (j : Pending) : Active :=
  mkActive (priority j) (base_priority j) (resources_of j) (owner j) (sequence j)
    (demand_sources j).

(** The first job of the order whose resources are free. *)
Definition selected (st : State) : option (nat * Pending) :=
  List.find (fun ij => available st (resources_of (snd ij))) (fair_order (pending st) (served st)).

(** The loop's body once a job is selected. *)
Definition admit_job (st : State) (index : nat) (j : Pending) : State :=
  let st := with_pending st (swap_remove index (pending st)) in
  let st := with_served st (<[owner_key j := default 0 (served st !! owner_key j) + 1]> (served st)) in
  let st := with_controls st
    (alter (fun c => store_granted true (store_pause false c)) (id j) (controls st)) in
  with_active st (<[id j := activate j]> (active st)).

Definition dispatch_step (st : State) : option State :=
  '(index, j) ← selected st; Some (admit_job st index j).

Fixpoint dispatch_loop (fuel : nat) (st : State) : State :=
  match fuel with
  | O => st
  | S fuel => match dispatch_step st with Some st' => dispatch_loop fuel st' | None => st end
  end.

(** Every turn of the loop takes a job off the queue, so its length is fuel
    enough ([dispatch_done]). *)
Definition dispatch (now : Z) (st : State) : State :=
  let st := refresh_demand_priorities now st in dispatch_loop (length (pending st)) st.

(** The two calls that end every operation; each reads the clock. *)
Definition settle (now now' : Z) (st : State) : State := dispatch now' (request_preemption now st).

(** ** Operations *)

Definition FALLBACK_DOMAIN : string := "auto:unknown".
(** One hour, in nanoseconds. *)
Definition MAX_DEMAND_HINT_TTL : Z := 60 * 60 * 1000000000.

(** The locked section of [acquire_with_sources]; returns the job's id. *)
Definition acquire_with_sources (now now' : Z) (st : State) (p : Priority) (r : Resources)
    (o : option string) (sources : gset Source) : Z * State :=
  let i := next_id st in
  let s := next_sequence st in
  let st := mkState (i + 1) (s + 1) (cpu_capacity st) (io_capacity st) (pending st) (active st)
              (served st) (interactive st) (hints st) (<[i := control_default]> (controls st)) in
  let st := join_service_level st p o in
  let st := with_pending st (pending st ++ [mkPending i s p p r o sources]) in
  (i, settle now now' st).

Definition acquire (now now' : Z) (st : State) (p : Priority) (r : Resources) (o : option string) :
    Z * State :=
  acquire_with_sources now now' st p r o ∅.

(** [DetectSegments], as far as it is read: the collection, and each episode's
    source (root token, relative path) where it has one. *)
Definition acquire_segments (now now' : Z) (st : State) (r : Resources) (o : option string)
    (collection_id : string) (episodes : list (option (string * string))) : Z * State :=
  acquire_with_sources now now' st Segments r o
    (list_to_set (map (fun '(root, path) => (collection_id, root, path)) (omap (fun e => e) episodes))).

Definition enter_interactive (st : State) (r : Resources) : Z * State :=
  let i := next_id st in
  let st := mkState (i + 1) (next_sequence st) (cpu_capacity st) (io_capacity st) (pending st)
              (active st) (served st) (interactive st) (hints st) (controls st) in
  let st := with_controls st
    (for_controls (fun a c => if conflicts (a_resources a) r then store_pause true c else c)
       (active st) (controls st)) in
  (i, with_interactive st (<[i := r]> (interactive st))).

(** [Drop for InteractiveGuard]. *)
Definition leave_interactive (now now' : Z) (st : State) (i : Z) : State :=
  settle now now' (with_interactive st (delete i (interactive st))).

Definition owned_by (o : string) (x : option string) : bool := bool_decide (x = Some o).

(** [cancel_owner] up to its last two calls. *)
Definition cancel_jobs (st : State) (o : string) : State :=
  let cs := foldl (fun cs j => alter (store_cancelled true) (id j) cs) (controls st)
              (List.filter (fun j => owned_by o (owner j)) (pending st)) in
  let st := with_controls st cs in
  let st := with_pending st (List.filter (fun j => negb (owned_by o (owner j))) (pending st)) in
  let st := with_controls st
    (for_controls (fun a c => if owned_by o (a_owner a)
                              then store_pause true (store_cancelled true c) else c)
       (active st) (controls st)) in
  with_hints st (filter (fun kv => fst (fst (fst (fst kv))) <> o) (hints st)).

Definition cancel_owner (now now' : Z) (st : State) (o : string) : State :=
  settle now now' (cancel_jobs st o).

Definition hint_segment (t now now' : Z) (st : State) (o collection root path : string) (ttl : Z) :
    State :=
  let st := with_hints st
    (<[(o, collection, root, path) := t + Z.min ttl MAX_DEMAND_HINT_TTL]>
       (retain_hints t (hints st))) in
  let key : Source := (collection, root, path) in
  let st := with_pending st
    (map (fun j => if bool_decide (key ∈ demand_sources j) then set_priority Demand j else j)
       (pending st)) in
  let st := with_active st
    ((fun a => if bool_decide (key ∈ a_demand_sources a) then set_a_priority Demand a else a)
       <$> active st) in
  settle now now' st.

Definition yield_job (now now' : Z) (st : State) (i : Z) : State :=
  match active st !! i with
  | None => st
  | Some a =>
      let st := with_active st (delete i (active st)) in
      let st := with_controls st (alter (store_granted false) i (controls st)) in
      let st := with_pending st
        (pending st ++ [mkPending i (a_sequence a) (a_priority a) (a_base_priority a)
                          (a_resources a) (a_owner a) (a_demand_sources a)]) in
      settle now now' st
  end.

Definition finish_job (now now' : Z) (st : State) (i : Z) : State :=
  let st := with_active st (delete i (active st)) in
  let st := match position (fun j => id j =? i) (pending st) with
            | Some index => with_pending st (swap_remove index (pending st))
            | None => st
            end in
  settle now now' st.

(** [wait_async], [wait_blocking]: what the waiting task sees when it looks. *)
Inductive Wait := Cancelled | Granted | Waiting.
Definition wait_poll (st : State) (i : Z) : Wait :=
  match controls st !! i with
  | None => Waiting
  | Some c => if cancelled c then Cancelled else if granted c then Granted else Waiting
  end.

(** [checkpoint] up to its wait: refused, run on, or yield and wait. *)
Definition checkpoint (now now' : Z) (st : State) (i : Z) : Wait * State :=
  match controls st !! i with
  | None => (Waiting, st)
  | Some c =>
      if cancelled c then (Cancelled, st)
      else if negb (pause c) then (Granted, st)
      else let st := yield_job now now' st i in (wait_poll st i, st)
  end.

(** ** Construction *)

Record IoDomainConfig := mkIoDomain {
  iod_name : string;
  iod_roots : list string;
  max_concurrent : nat;
}.
Record SchedulerConfig := mkSchedulerConfig { cpu_slots : nat; io_domains : list IoDomainConfig }.
Definition config_default : SchedulerConfig := mkSchedulerConfig 1 [].

(** A root with its identity. Paths are the normalised ones of the
    configuration, which compare as strings. *)
Record CollectionRoot := mkRoot { token : string; path : string }.

Section Scheduler.
(** SHA-256 in base64, and the device a path is on where the system tells. *)
Context (digest : string -> string) (device : string -> option string).

Definition root_token (path : string) : string :=
  ("root-sha256-" ++ digest ("kahawai-root-path-v1" ++ String (byte 0) path))%string.
Definition resolved_roots (roots : list string) : list CollectionRoot :=
  map (fun p => mkRoot (root_token p) p) roots.

Definition automatic_domain (path : string) : string :=
  match device path with
  | Some dev => ("auto:dev:" ++ dev)%string
  | None => FALLBACK_DOMAIN
  end.

Inductive NewError :=
| NoCpuSlots | EmptyDomainName | NoConcurrency | DuplicateDomain (name : string)
| DuplicateRoot (root : string).

Definition add_roots (key : string) (roots : list string) (m : gmap string string) :
    result NewError (gmap string string) :=
  fold_left (fun r root =>
      let? m := r in ensure (is_none (m !! root)) (DuplicateRoot root) (Ok (<[root := key]> m)))
    roots (Ok m).

Definition config_key (name : string) : string := ("config:" ++ name)%string.

(** The loop over [config.io_domains]: [io_capacity] and [override_roots]. *)
Definition add_domain (acc : gmap string nat * gmap string string) (d : IoDomainConfig) :
    result NewError (gmap string nat * gmap string string) :=
  let '(cap, over) := acc in
  ensure (negb (trim (iod_name d) =s EmptyString)) EmptyDomainName
    (ensure (0 <? max_concurrent d)%nat NoConcurrency
       (ensure (is_none (cap !! config_key (iod_name d))) (DuplicateDomain (iod_name d))
          (let? over := add_roots (config_key (iod_name d)) (iod_roots d) over in
           Ok (<[config_key (iod_name d) := max_concurrent d]> cap, over)))).
Definition add_domains (ds : list IoDomainConfig) :
    result NewError (gmap string nat * gmap string string) :=
  fold_left (fun r d => let? acc := r in add_domain acc d) ds (Ok (∅, ∅)).

Definition or_insert (m : gmap string nat) (d : string) : gmap string nat :=
  match m !! d with Some _ => m | None => <[d := 1%nat]> m end.

Definition add_root (over : gmap string string) (acc : gmap string nat * gmap string string)
    (r : CollectionRoot) : gmap string nat * gmap string string :=
  let '(cap, roots) := acc in
  let domain := default (automatic_domain (path r)) (over !! path r) in
  (or_insert cap domain, <[token r := domain]> roots).

(** [Scheduler::new] over the roots of each collection: [Inner]. *)
Definition scheduler_new (collections : list (list string)) (c : SchedulerConfig) :
    result NewError (State * gmap string string) :=
  ensure (0 <? cpu_slots c)%nat NoCpuSlots
    (let? domains := add_domains (io_domains c) in
     let '(cap, over) := domains in
     let '(cap, roots) := foldl (add_root over) (cap, ∅) (mjoin (map resolved_roots collections)) in
     Ok (mkState 1 1 (cpu_slots c) (or_insert cap FALLBACK_DOMAIN) [] ∅ ∅ ∅ ∅ ∅, roots)).
End Scheduler.

(** [Scheduler::resources]. *)
Definition resources (domains : gmap string string) (roots : list string) (cpu_heavy : bool) :
    Resources :=
  mkResources (if cpu_heavy then 1 else 0)
    (list_to_set (map (fun r => default FALLBACK_DOMAIN (domains !! r)) roots)) ∅.

Definition enter_playback (domains : gmap string string) (st : State) : Z * State :=
  enter_interactive st (resources domains [] true).

(** ** Interleavings *)

(** Jobs ask for at most one CPU slot: [resources] is the only constructor, and
    [exclusive] the only thing callers add to it. *)
Definition feasible (r : Resources) : Prop := (cpu r <= 1)%nat.

(** Any operation at any time. Guards name the ids they were given; the model
    lets any id finish, yield or leave. *)
Inductive step_at (now now' : Z) : State -> State -> Prop :=
| step_acquire st p r o src :
    feasible r -> step_at now now' st (snd (acquire_with_sources now now' st p r o src))
| step_enter st r : step_at now now' st (snd (enter_interactive st r))
| step_leave st i : step_at now now' st (leave_interactive now now' st i)
| step_cancel st o : step_at now now' st (cancel_owner now now' st o)
| step_hint st t o c r p ttl : step_at now now' st (hint_segment t now now' st o c r p ttl)
| step_checkpoint st i : step_at now now' st (snd (checkpoint now now' st i))
| step_finish st i : step_at now now' st (finish_job now now' st i).

Definition step (st st' : State) : Prop := exists now now', step_at now now' st st'.
Definition reachable (st0 st : State) : Prop := rtc step st0 st.

(** Steps in which no hint expires between the two readings of the clock. *)
Definition prompt_step (st st' : State) : Prop := exists now, step_at now now st st'.
