(* ===== verification/SchedulerFacts.v ===== *)
(** * The scheduler's invariant and what each step keeps of it

    A state is seen through its view: who waits for what ([waiting]), who holds
    what ([held]), which viewers are in, and the control flags. Priorities,
    hints and counts only order the queue, so the invariant [Inv] is stated on
    the view; [Settled] says no waiting job could be admitted. *)
From S2P Require Import Prelude Scheduler.

#[local] Open Scope Z_scope.

(** Compare settled states by what was settled, before running the queue. *)
Strategy 100 [settle dispatch request_preemption].

(** ** Maps read through their values *)

Lemma elem_of_values {A} (m : gmap Z A) a : a ∈ values m <-> exists i, m !! i = Some a.
Proof.
  unfold values. rewrite list_elem_of_fmap. split.
  - intros ([i b] & -> & Hin%elem_of_map_to_list). by exists i.
  - intros [i Hi]. exists (i, a). by rewrite elem_of_map_to_list.
Qed.

Lemma values_insert {A} (m : gmap Z A) i a :
  m !! i = None -> values (<[i := a]> m) ≡ₚ a :: values m.
Proof. intros Hi. unfold values. by rewrite map_to_list_insert. Qed.

Lemma existsb_elem {A} (f : A -> bool) l : existsb f l = true <-> exists a, a ∈ l /\ f a = true.
Proof. rewrite existsb_exists. by setoid_rewrite list_elem_of_In. Qed.

Lemma forallb_elem {A} (f : A -> bool) l : forallb f l = true <-> forall a, a ∈ l -> f a = true.
Proof. rewrite forallb_forall. by setoid_rewrite list_elem_of_In. Qed.

Lemma for_controls_lookup {A} (f : A -> Control -> Control) m cs i :
  for_controls f m cs !! i
  = match m !! i with Some a => f a <$> cs !! i | None => cs !! i end.
Proof.
  unfold for_controls.
  assert (forall l : list (Z * A), NoDup l.*1 -> forall cs : gmap Z Control,
    foldl (fun cs '(j, a) => alter (f a) j cs) cs l !! i
    = match (list_to_map l : gmap Z A) !! i with Some a => f a <$> cs !! i | None => cs !! i end)
    as H.
  { clear cs. induction l as [|[j a] l IH]; intros Hnd cs; [done|].
    apply NoDup_cons in Hnd as [Hj Hnd]. cbn [foldl list_to_map foldr]. rewrite IH by done.
    destruct (decide (i = j)) as [->|Hij].
    - rewrite (not_elem_of_list_to_map_1 _ _ Hj). simpl.
      by rewrite lookup_insert_eq, lookup_alter_eq.
    - simpl. rewrite lookup_insert_ne, lookup_alter_ne by done. done. }
  rewrite H by apply NoDup_fst_map_to_list. by rewrite list_to_map_to_list.
Qed.

(** ** The view *)

Definition held (st : State) : gmap Z Resources := a_resources <$> active st.
Definition waiting (st : State) : list (Z * Resources) :=
  map (fun j => (id j, resources_of j)) (pending st).

Definition cpu_held (m : gmap Z Resources) : nat := sum_list_with cpu (values m).
Definition io_held (d : string) (m : gmap Z Resources) : nat :=
  sum_list_with (fun r => if bool_decide (d ∈ io r) then 1%nat else 0%nat) (values m).

Lemma values_held st : values (held st) = map a_resources (values (active st)).
Proof.
  unfold values, held. rewrite map_to_list_fmap. rewrite !map_map.
  induction (map_to_list (active st)) as [|[i a] l IH]; simpl; [done|by f_equal].
Qed.

#[export] Instance sum_list_with_perm {A} (f : A -> nat) :
  Proper (Permutation ==> eq) (sum_list_with f).
Proof. induction 1; simpl; lia. Qed.

Lemma cpu_held_insert (m : gmap Z Resources) i r : m !! i = None -> cpu_held (<[i := r]> m) = (cpu r + cpu_held m)%nat.
Proof. intros Hi. unfold cpu_held. by rewrite values_insert. Qed.
Lemma io_held_insert d (m : gmap Z Resources) i r :
  m !! i = None ->
  io_held d (<[i := r]> m) = ((if bool_decide (d ∈ io r) then 1 else 0) + io_held d m)%nat.
Proof. intros Hi. unfold io_held. by rewrite values_insert. Qed.

(** Fewer holders hold less. *)
Lemma sum_values_subseteq (f : Resources -> nat) (m m' : gmap Z Resources) :
  m' ⊆ m -> (sum_list_with f (values m') <= sum_list_with f (values m))%nat.
Proof.
  intros Hsub. apply map_to_list_submseteq, submseteq_Permutation in Hsub as [k Hk].
  unfold values. rewrite Hk, map_app, sum_list_with_app. lia.
Qed.

(** [used] counts what is held, whatever the order of the map. *)
Lemma count_io_lookup ds m d :
  default 0%nat (count_io m ds !! d)
  = ((if bool_decide (d ∈ ds) then 1 else 0) + default 0%nat (m !! d))%nat.
Proof.
  unfold count_io. rewrite (bool_decide_ext (d ∈ ds) (d ∈ elements ds)) by (by rewrite elem_of_elements).
  revert m. pose proof (NoDup_elements ds) as Hnd. induction Hnd as [|e l He Hl IH]; intros m; [done|].
  cbn [foldl]. rewrite IH. destruct (decide (d = e)) as [->|Hne].
  - rewrite lookup_insert_eq. simpl. rewrite (bool_decide_eq_false_2 (e ∈ l)) by done.
    by rewrite bool_decide_eq_true_2 by left.
  - rewrite lookup_insert_ne by done. f_equal.
    rewrite (bool_decide_ext (d ∈ e :: l) (d ∈ l)); [done|]. rewrite elem_of_cons. naive_solver.
Qed.

Lemma used_spec st :
  fst (used st) = cpu_held (held st) /\ forall d, io_used st d = io_held d (held st).
Proof.
  unfold io_used, used, cpu_held, io_held. rewrite values_held.
  assert (forall l (c : nat) (m : gmap string nat),
    let '(c', m') := foldl (fun '(c, m) a => ((c + cpu (a_resources a))%nat, count_io m (io (a_resources a)))) (c, m) l in
    c' = (c + sum_list_with cpu (map a_resources l))%nat
    /\ forall d, default 0%nat (m' !! d)
       = (sum_list_with (fun r => if bool_decide (d ∈ io r) then 1%nat else 0%nat) (map a_resources l)
          + default 0%nat (m !! d))%nat) as H.
  { induction l as [|a l IH]; intros c m; simpl; [split; [lia|done]|].
    specialize (IH (c + cpu (a_resources a))%nat (count_io m (io (a_resources a)))).
    destruct (foldl _ _ l) as [c' m']. destruct IH as [-> IH]. split; [lia|].
    intros d. rewrite IH, count_io_lookup. lia. }
  specialize (H (values (active st)) 0%nat ∅). destruct (foldl _ _ _) as [c' m'].
  destruct H as [-> H]. split; [done|]. intros d. simpl. rewrite H, lookup_empty. simpl. lia.
Qed.
Lemma used_cpu st : fst (used st) = cpu_held (held st).
Proof. apply used_spec. Qed.
Lemma used_io st d : io_used st d = io_held d (held st).
Proof. apply used_spec. Qed.

Lemma is_disjoint_true X Y : is_disjoint X Y = true <-> X ## Y.
Proof. apply bool_decide_eq_true. Qed.

Lemma interrupted_true st r :
  interrupted st r = true <-> exists i x, interactive st !! i = Some x /\ conflicts x r = true.
Proof.
  unfold interrupted. rewrite existsb_elem. setoid_rewrite elem_of_values. naive_solver.
Qed.

Lemma available_spec st r :
  available st r = true <->
  interrupted st r = false
  /\ (cpu_held (held st) + cpu r <= cpu_capacity st)%nat
  /\ (forall d, d ∈ io r -> (io_held d (held st) < io_cap st d)%nat)
  /\ (forall i a, held st !! i = Some a -> exclusive a ## exclusive r).
Proof.
  unfold available. rewrite used_cpu. destruct (interrupted st r); [naive_solver|].
  destruct (Nat.ltb_spec (cpu_capacity st) (cpu_held (held st) + cpu r)); [split; [done|lia]|].
  rewrite andb_true_iff, !forallb_elem. setoid_rewrite elem_of_elements.
  setoid_rewrite Nat.ltb_lt. setoid_rewrite is_disjoint_true. setoid_rewrite used_io.
  split.
  - intros [Hio Hex]. split_and!; try done. intros i a. unfold held. rewrite lookup_fmap, fmap_Some.
    intros (b & Hb & ->). apply Hex, elem_of_values. by exists i.
  - intros (_ & _ & Hio & Hex). split; [done|]. intros a [i Hi]%elem_of_values.
    apply (Hex i). unfold held. by rewrite lookup_fmap, Hi.
Qed.

(** ** The order is a permutation of the queue *)

Lemma elem_of_enumerate {A} (l : list A) i a : (i, a) ∈ enumerate l <-> l !! i = Some a.
Proof.
  unfold enumerate. rewrite elem_of_lookup_imap. split.
  - intros (j & b & [= -> ->] & H). done.
  - intros H. by exists i, a.
Qed.

Lemma by_age_perm l : by_age l ≡ₚ enumerate l.
Proof. apply sort_by_perm. Qed.
Lemma fair_order_perm l sv : fair_order l sv ≡ₚ enumerate l.
Proof. unfold fair_order. by rewrite sort_by_perm, by_age_perm. Qed.
Lemma elem_of_fair_order l sv i j : (i, j) ∈ fair_order l sv <-> l !! i = Some j.
Proof. by rewrite fair_order_perm, elem_of_enumerate. Qed.

Lemma selected_None st :
  selected st = None <-> forall j, j ∈ pending st -> available st (resources_of j) = false.
Proof.
  unfold selected. split.
  - intros H j [i Hi]%list_elem_of_lookup.
    apply (find_none _ _ H (i, j)). by rewrite <- list_elem_of_In, elem_of_fair_order.
  - intros H. destruct (find _ _) as [[i j]|] eqn:Hf; [|done].
    apply find_some in Hf as [Hin Ha]. simpl in Ha.
    rewrite <- list_elem_of_In, elem_of_fair_order in Hin.
    rewrite H in Ha; [done|]. by apply list_elem_of_lookup_2 in Hin.
Qed.

Lemma selected_Some st i j :
  selected st = Some (i, j) -> pending st !! i = Some j /\ available st (resources_of j) = true.
Proof.
  intros [Hin Ha]%find_some. simpl in Ha.
  by rewrite <- list_elem_of_In, elem_of_fair_order in Hin.
Qed.

Lemma swap_remove_perm {A} (l : list A) i a : l !! i = Some a -> l ≡ₚ a :: swap_remove i l.
Proof.
  intros Hi. unfold swap_remove. destruct (last l) as [z|] eqn:Hz.
  2:{ apply last_None in Hz as ->. done. }
  apply last_Some in Hz as [l' ->]. rewrite removelast_last.
  destruct (decide (i < length l')%nat) as [Hlt|Hge].
  - rewrite lookup_app_l in Hi by done.
    rewrite (insert_take_drop l' i z Hlt). rewrite <- (take_drop_middle l' i a Hi) at 1.
    rewrite <- app_assoc. simpl.
    rewrite <- Permutation_middle. f_equiv. f_equiv. symmetry.
    by rewrite <- Permutation_cons_append.
  - rewrite lookup_app_r in Hi by lia. rewrite list_insert_ge by lia.
    apply list_lookup_singleton_Some in Hi as [_ ->]. by rewrite <- Permutation_cons_append.
Qed.

Lemma swap_remove_length {A} (l : list A) i a :
  l !! i = Some a -> length l = S (length (swap_remove i l)).
Proof. intros H. by rewrite (swap_remove_perm l i a H) at 1. Qed.

(** ** What the steps change of the view *)

Definition same_view (st st' : State) : Prop :=
  next_id st' = next_id st /\ cpu_capacity st' = cpu_capacity st /\ io_capacity st' = io_capacity st
  /\ waiting st' = waiting st /\ held st' = held st /\ interactive st' = interactive st
  /\ controls st' = controls st.

Lemma held_fmap st (f : Active -> Active) :
  (forall a, a_resources (f a) = a_resources a) -> a_resources <$> (f <$> active st) = held st.
Proof.
  intros Hf. unfold held. apply map_eq. intros i. rewrite !lookup_fmap.
  destruct (active st !! i); simpl; [by rewrite Hf|done].
Qed.

Lemma waiting_map (l : list Pending) (f : Pending -> Pending) :
  (forall j, id (f j) = id j /\ resources_of (f j) = resources_of j) ->
  map (fun j => (id j, resources_of j)) (map f l) = map (fun j => (id j, resources_of j)) l.
Proof.
  intros Hf. rewrite map_map. apply map_ext. intros j. by destruct (Hf j) as [-> ->].
Qed.

Lemma refresh_view now st : same_view st (refresh_demand_priorities now st).
Proof.
  unfold same_view. split_and!; try done; unfold refresh_demand_priorities.
  - unfold waiting at 1. simpl. by apply waiting_map.
  - unfold held at 1. simpl. by apply held_fmap.
Qed.

Lemma admit_view st i j :
  pending st !! i = Some j ->
  waiting st ≡ₚ (id j, resources_of j) :: waiting (admit_job st i j)
  /\ held (admit_job st i j) = <[id j := resources_of j]> (held st)
  /\ controls (admit_job st i j)
     = alter (fun c => store_granted true (store_pause false c)) (id j) (controls st).
Proof.
  intros Hi. split_and!; [| |done].
  - unfold waiting. simpl. rewrite (swap_remove_perm _ _ _ Hi) at 1. done.
  - unfold held. simpl. by rewrite fmap_insert.
Qed.

(** ** The invariant *)

Record Inv (st : State) : Prop := mkInv {
  i_cpu_cap : (1 <= cpu_capacity st)%nat;
  i_io_cap : forall d, (1 <= io_cap st d)%nat;
  i_cpu : (cpu_held (held st) <= cpu_capacity st)%nat;
  i_io : forall d, (io_held d (held st) <= io_cap st d)%nat;
  i_excl : forall i j a b, held st !! i = Some a -> held st !! j = Some b -> i <> j ->
           exclusive a ## exclusive b;
  i_feasible : forall i r, (i, r) ∈ waiting st \/ held st !! i = Some r -> feasible r;
  i_nodup : NoDup (waiting st).*1;
  i_apart : forall i, i ∈ (waiting st).*1 -> held st !! i = None;
  i_fresh : forall i, i ∈ (waiting st).*1 \/ is_Some (held st !! i) -> i < next_id st;
  i_viewers : forall i, is_Some (interactive st !! i) -> i < next_id st;
  i_waiting : forall i, i ∈ (waiting st).*1 ->
              exists c, controls st !! i = Some c /\ granted c = false;
  i_held : forall i r, held st !! i = Some r ->
           exists c, controls st !! i = Some c /\ granted c = true
                     /\ (interrupted st r = true -> pause c = true);
}.

(** Taking jobs away and changing what is not in the view keeps the invariant,
    as long as the flags of the jobs that stay follow. *)
Lemma Inv_shrink st st' :
  next_id st <= next_id st' -> cpu_capacity st' = cpu_capacity st ->
  io_capacity st' = io_capacity st -> waiting st' ⊆+ waiting st -> held st' ⊆ held st ->
  (interactive st' = interactive st
   \/ forall i, is_Some (interactive st' !! i) -> i < next_id st') ->
  (forall i c, i ∈ (waiting st').*1 \/ is_Some (held st' !! i) -> controls st !! i = Some c ->
     exists c', controls st' !! i = Some c' /\ granted c' = granted c) ->
  (forall i r c c', held st' !! i = Some r -> controls st !! i = Some c ->
     (interrupted st r = true -> pause c = true) ->
     controls st' !! i = Some c' -> interrupted st' r = true -> pause c' = true) ->
  Inv st -> Inv st'.
Proof.
  intros Hn Hc Hi Hw Hh Hv Hg Hp I.
  assert (Hcap : forall d, io_cap st' d = io_cap st d) by (intros; unfold io_cap; by rewrite Hi).
  assert (Hl : forall i r, held st' !! i = Some r -> held st !! i = Some r)
    by (intros; by eapply lookup_weaken).
  assert (Hwe : forall x, x ∈ waiting st' -> x ∈ waiting st) by (intros; by eapply elem_of_submseteq).
  assert (Hw1 : (waiting st').*1 ⊆+ (waiting st).*1) by (by apply fmap_submseteq).
  assert (Hwi : forall i, i ∈ (waiting st').*1 -> i ∈ (waiting st).*1)
    by (intros; by eapply elem_of_submseteq).
  split.
  - rewrite Hc. apply I.
  - intros d. rewrite Hcap. apply I.
  - rewrite Hc. etrans; [by apply sum_values_subseteq|apply I].
  - intros d. rewrite Hcap. etrans; [by apply sum_values_subseteq|apply I].
  - intros i j a b Ha Hb. apply (i_excl st I); by apply Hl.
  - intros i r [H|H]; apply (i_feasible st I i r); auto.
  - apply submseteq_Permutation in Hw1 as [k Hk]. pose proof (i_nodup st I) as Hnd.
    rewrite Hk in Hnd. by apply NoDup_app in Hnd as [? _].
  - intros i Hin. apply eq_None_not_Some. intros [r Hr%Hl].
    by rewrite (i_apart st I i (Hwi i Hin)) in Hr.
  - intros i Hin. apply (Z.lt_le_trans _ (next_id st)); [|done]. apply (i_fresh st I).
    destruct Hin as [Hin|[r Hr]]; [left; auto|right; eauto].
  - destruct Hv as [Hv|Hv]; [|done]. rewrite Hv. intros i H.
    apply (Z.lt_le_trans _ (next_id st)); [by apply (i_viewers st I)|done].
  - intros i Hin. destruct (i_waiting st I i (Hwi i Hin)) as (c & Hcc & Hgr).
    destruct (Hg i c (or_introl Hin) Hcc) as (c' & Hc' & Hg'). exists c'. by rewrite Hg'.
  - intros i r Hr. destruct (i_held st I i r (Hl i r Hr)) as (c & Hcc & Hgr & Hpa).
    destruct (Hg i c (or_intror (mk_is_Some _ _ Hr)) Hcc) as (c' & Hc' & Hg').
    exists c'. split_and!; [done|congruence|]. by apply (Hp i r c c').
Qed.

Ltac viewers_stay :=
  lazymatch goal with
  | |- interactive _ = interactive _ \/ _ => try (left; reflexivity)
  | _ => idtac
  end.
Ltac shrink st := apply (Inv_shrink st); viewers_stay; try done.

Lemma fst_perm (l k : list (Z * Resources)) : l ≡ₚ k -> l.*1 ≡ₚ k.*1.
Proof. by intros ->. Qed.

Lemma pause_foldl (qs : list Request) (m : gmap Z Active) cs i :
  foldl (fun cs q => for_controls (fun a c => if blocks q a then store_pause true c else c) m cs) cs qs
    !! i
  = match m !! i with
    | Some a => (fun c => if existsb (fun q => blocks q a) qs then store_pause true c else c) <$> cs !! i
    | None => cs !! i
    end.
Proof.
  revert cs. induction qs as [|q qs IH]; intros cs; cbn [foldl existsb].
  - destruct (m !! i); [|done]. by destruct (cs !! i).
  - rewrite IH, for_controls_lookup. destruct (m !! i) as [a|]; [|done].
    destruct (cs !! i) as [c|]; simpl; [|done]. by destruct (blocks q a), (existsb _ qs).
Qed.

Definition requests (st : State) : list Request :=
  map (request_of st) (List.filter (fun j => negb (interrupted st (resources_of j))) (pending st)).

(** The flag a running job is left with by [request_preemption]. *)
Definition asked (st : State) (a : Active) : bool :=
  interrupted st (a_resources a) || existsb (fun q => blocks q a) (requests st).

Lemma preemption_controls now st i :
  controls (request_preemption now st) !! i
  = match active (refresh_demand_priorities now st) !! i with
    | Some a => store_pause (asked (refresh_demand_priorities now st) a) <$> controls st !! i
    | None => controls st !! i
    end.
Proof.
  unfold request_preemption, asked, requests. cbn [controls with_controls].
  rewrite pause_foldl, for_controls_lookup.
  change (controls (refresh_demand_priorities now st)) with (controls st).
  destruct (active (refresh_demand_priorities now st) !! i) as [a|]; [|done].
  destruct (controls st !! i) as [c|]; [|done]. simpl. destruct (existsb _ _); simpl; f_equal.
  - by rewrite orb_true_r.
  - by rewrite orb_false_r.
Qed.

Lemma held_lookup st i r :
  held st !! i = Some r <-> exists a, active st !! i = Some a /\ a_resources a = r.
Proof. unfold held. rewrite lookup_fmap, fmap_Some. naive_solver. Qed.

Lemma refresh_Inv now st : Inv st -> Inv (refresh_demand_priorities now st).
Proof.
  intros I. destruct (refresh_view now st) as (Hn & Hc & Hi & Hw & Hh & Hint & Hct).
  shrink st.
  - by rewrite Hw.
  - by rewrite Hh.
  - intros i c _ H. exists c. by rewrite Hct.
  - intros i r c c' _ Hcc Hp Hc' H. rewrite Hct in Hc'. simplify_eq. auto.
Qed.

Lemma preemption_Inv now st : Inv st -> Inv (request_preemption now st).
Proof.
  intros I. shrink (refresh_demand_priorities now st).
  - intros i c _ Hcc. rewrite preemption_controls.
    change (controls (refresh_demand_priorities now st)) with (controls st) in Hcc. rewrite Hcc.
    destruct (active _ !! i); simpl; eauto.
  - intros i r c c' Hr Hcc Hp. apply held_lookup in Hr as (a & Ha & <-).
    change (active (request_preemption now st)) with (active (refresh_demand_priorities now st)) in Ha.
    rewrite preemption_controls, Ha.
    change (controls (refresh_demand_priorities now st)) with (controls st) in Hcc. rewrite Hcc.
    simpl. intros [= <-] Hin. simpl. unfold asked.
    change (interrupted (request_preemption now st)) with
      (interrupted (refresh_demand_priorities now st)) in Hin. by rewrite Hin.
  - by apply refresh_Inv.
Qed.

Lemma admit_Inv st i j :
  pending st !! i = Some j -> available st (resources_of j) = true -> Inv st ->
  Inv (admit_job st i j).
Proof.
  intros Hi Hav I. destruct (admit_view st i j Hi) as (Hw & Hh & Hc).
  apply available_spec in Hav as (Hint & Hcpu & Hio & Hex).
  pose proof (fst_perm _ _ Hw) as Hw1. rewrite fmap_cons in Hw1. cbn [fst] in Hw1.
  pose proof (i_nodup st I) as Hnd. rewrite Hw1 in Hnd. apply NoDup_cons in Hnd as [Hnew Hnd].
  assert (Hin : id j ∈ (waiting st).*1) by (rewrite Hw1; left).
  pose proof (i_apart st I _ Hin) as Hfree.
  assert (Hold : forall k, k ∈ (waiting (admit_job st i j)).*1 -> k <> id j /\ k ∈ (waiting st).*1).
  { intros k Hk. split; [by intros ->|]. rewrite Hw1. by right. }
  split; try rewrite Hh; try apply I; try done.
  - rewrite cpu_held_insert by done. change (cpu_capacity (admit_job st i j)) with (cpu_capacity st). lia.
  - intros d. rewrite io_held_insert by done. change (io_cap (admit_job st i j) d) with (io_cap st d).
    case_bool_decide as Hd; [specialize (Hio d Hd); lia|apply I].
  - intros k l a b. rewrite !lookup_insert_Some.
    intros [[<- <-]|[Hk Ha]] [[<- <-]|[Hl Hb]] Hne; [done| | |by apply (i_excl st I k l)].
    + symmetry. by apply (Hex l).
    + by apply (Hex k).
  - intros k r. rewrite lookup_insert_Some. intros Hk. apply (i_feasible st I k r).
    rewrite Hw. rewrite elem_of_cons. destruct Hk as [Hk|[[<- <-]|[_ Hk]]]; auto.
  - intros k Hk. destruct (Hold k Hk). rewrite lookup_insert_ne by done. by apply (i_apart st I).
  - intros k Hk. apply (i_fresh st I). destruct Hk as [Hk|[r Hr]]; [left; by apply Hold|].
    apply lookup_insert_Some in Hr as [[<- _]|[_ Hr]]; [by left|right; eauto].
  - intros k Hk. destruct (Hold k Hk) as [Hne Hk']. rewrite Hc, lookup_alter_ne by done.
    by apply (i_waiting st I).
  - intros k r. rewrite Hc. destruct (decide (k = id j)) as [->|Hne].
    + rewrite lookup_insert_eq, lookup_alter_eq. intros [= <-].
      destruct (i_waiting st I _ Hin) as (c & -> & _). simpl. eexists. split_and!; [done|done|].
      simpl. intros H. by change (interrupted st (resources_of j) = true) in H; congruence.
    + rewrite lookup_insert_ne, lookup_alter_ne by done. apply (i_held st I).
Qed.

Lemma dispatch_step_Some st st' :
  dispatch_step st = Some st' ->
  exists i j, selected st = Some (i, j) /\ pending st !! i = Some j
              /\ available st (resources_of j) = true /\ st' = admit_job st i j.
Proof.
  unfold dispatch_step. destruct (selected st) as [[i j]|] eqn:Hs; simpl; [|done].
  intros [= <-]. exists i, j. by pose proof (selected_Some _ _ _ Hs) as [? ?].
Qed.

Lemma loop_ind (Q : State -> Prop) n st :
  (forall st st', Q st -> dispatch_step st = Some st' -> Q st') -> Q st -> Q (dispatch_loop n st).
Proof.
  intros Hstep. revert st. induction n as [|n IH]; intros st Hst; simpl; [done|].
  destruct (dispatch_step st) eqn:Hd; [|done]. apply IH. by eapply Hstep.
Qed.

Lemma dispatch_Inv now st : Inv st -> Inv (dispatch now st).
Proof.
  intros I. unfold dispatch. apply loop_ind; [|by apply refresh_Inv].
  intros st1 st2 I1 (i & j & _ & Hi & Hav & ->)%dispatch_step_Some. by apply admit_Inv.
Qed.

Lemma settle_Inv now now' st : Inv st -> Inv (settle now now' st).
Proof. intros I. by apply dispatch_Inv, preemption_Inv. Qed.

(** How an operation ends: it settles a state that has the invariant. *)
Definition settles (now now' : Z) (st' : State) : Prop :=
  exists st, Inv st /\ st' = settle now now' st.

Lemma settles_intro now now' st : Inv st -> settles now now' (settle now now' st).
Proof. by exists st. Qed.

Lemma join_shape st p o : exists sv, join_service_level st p o = with_served st sv.
Proof.
  unfold join_service_level. destruct (existsb _ _); [exists (served st); by destruct st|].
  destruct (min_of _); [by eexists|exists (served st); by destruct st].
Qed.

Lemma waiting_push st j :
  waiting (with_pending st (pending st ++ [j])) = waiting st ++ [(id j, resources_of j)].
Proof. unfold waiting. simpl. by rewrite map_app. Qed.

(** A job joins the queue under an id nobody uses, its permit not granted. *)
Lemma push_Inv st j c :
  Inv st -> feasible (resources_of j) -> id j < next_id st ->
  id j ∉ (waiting st).*1 -> held st !! id j = None ->
  controls st !! id j = Some c -> granted c = false ->
  Inv (with_pending st (pending st ++ [j])).
Proof.
  intros I Hf Hlt Hnw Hnh Hc Hg.
  assert (Hw : forall k, k ∈ (waiting (with_pending st (pending st ++ [j]))).*1
                         -> k ∈ (waiting st).*1 \/ k = id j).
  { intros k. rewrite waiting_push, fmap_app, elem_of_app. simpl.
    rewrite list_elem_of_singleton. done. }
  split; try apply I.
  - intros i r. rewrite waiting_push, elem_of_app, list_elem_of_singleton.
    intros [[H|[= -> ->]]|H]; [apply (i_feasible st I i); auto|done|apply (i_feasible st I i); auto].
  - rewrite waiting_push, fmap_app. apply NoDup_app. split_and!; [apply I| |apply NoDup_singleton].
    intros k Hk Hk'. apply list_elem_of_singleton in Hk' as ->. done.
  - intros k [Hk| ->]%Hw; [by apply (i_apart st I)|done].
  - intros k [[Hk| ->]%Hw|Hk]; [apply (i_fresh st I); auto|done|apply (i_fresh st I); auto].
  - intros k [Hk| ->]%Hw; [by apply (i_waiting st I)|by exists c].
Qed.

Lemma acquire_settles now now' st p r o src :
  feasible r -> Inv st -> settles now now' (snd (acquire_with_sources now now' st p r o src)).
Proof.
  intros Hf I. unfold acquire_with_sources. cbn [snd]. apply settles_intro.
  match goal with |- context [join_service_level ?s p o] => set (s1 := s) end.
  destruct (join_shape s1 p o) as [sv ->].
  assert (Hw : forall k, k ∈ (waiting st).*1 -> k <> next_id st)
    by (intros k Hk ->; pose proof (i_fresh st I _ (or_introl Hk)); lia).
  assert (Hh : held st !! next_id st = None).
  { apply eq_None_not_Some. intros Hs. pose proof (i_fresh st I _ (or_intror Hs)); lia. }
  apply (push_Inv (with_served s1 sv) _ control_default); try done.
  - shrink st; simpl.
    + lia.
    + intros i c Hi Hc. exists c. split; [|done]. rewrite lookup_insert_ne; [done|].
      intros <-. destruct Hi as [Hi|[x Hx]]; [by apply (Hw _ Hi)|].
      change (held st !! next_id st = Some x) in Hx. congruence.
    + intros i x c c' Hx Hc Hp Hc' Hin. rewrite lookup_insert_ne in Hc'; [simplify_eq; auto|].
      intros <-. change (held st !! next_id st = Some x) in Hx. congruence.
  - simpl. lia.
  - simpl. intros Hk. by apply (Hw _ Hk).
  - simpl. by rewrite lookup_insert_eq.
Qed.

Lemma enter_Inv st r : Inv st -> Inv (snd (enter_interactive st r)).
Proof.
  intros I. unfold enter_interactive. cbn [snd].
  shrink st.
  - simpl. lia.
  - right. cbn [interactive with_interactive with_controls next_id].
    intros i [x [[<- _]|[_ H]]%lookup_insert_Some]; [lia|].
    pose proof (i_viewers st I i ltac:(by exists x)). lia.
  - intros i c _ Hc. simpl. rewrite for_controls_lookup, Hc.
    destruct (active st !! i) as [a|]; simpl; [|by eexists]. eexists. split; [done|].
    by destruct (conflicts _ _).
  - intros i x c c' Hx Hc Hp. apply held_lookup in Hx as (a & Ha & <-). simpl in Ha |- *.
    rewrite for_controls_lookup, Ha, Hc. simpl. intros [= <-].
    intros (k & y & Hk & Hconf)%interrupted_true. simpl in Hk.
    apply lookup_insert_Some in Hk as [[<- <-]|[_ Hk]].
    + assert (conflicts (a_resources a) r = true) as ->; [|done].
      revert Hconf. unfold conflicts, is_disjoint.
      rewrite !(bool_decide_ext (io r ## _) (io (a_resources a) ## io r)) by (split; by symmetry).
      rewrite !(bool_decide_ext (exclusive r ## _) (exclusive (a_resources a) ## exclusive r))
        by (split; by symmetry).
      by rewrite (andb_comm (negb (cpu r =? 0)%nat)).
    + destruct (conflicts (a_resources a) r); [done|]. apply Hp, interrupted_true. eauto.
Qed.

Lemma interrupted_delete st i r :
  interrupted (with_interactive st (delete i (interactive st))) r = true -> interrupted st r = true.
Proof.
  rewrite !interrupted_true. intros (k & x & Hk & Hx). simpl in Hk.
  apply lookup_delete_Some in Hk as [_ Hk]. eauto.
Qed.

Lemma leave_settles now now' st i : Inv st -> settles now now' (leave_interactive now now' st i).
Proof.
  intros I. apply settles_intro. shrink st.
  - right. cbn [interactive with_interactive].
    intros k [x [_ H]%lookup_delete_Some]. apply (i_viewers st I). by exists x.
  - intros k c _ Hc. by exists c.
  - intros k r c c' _ Hc Hp Hc' Hin. simpl in Hc'. simplify_eq.
    by eapply Hp, interrupted_delete.
Qed.

Lemma alter_cancelled (l : list Pending) (cs : gmap Z Control) i :
  exists b : Control -> Control,
    foldl (fun cs j => alter (store_cancelled true) (id j) cs) cs l !! i = b <$> cs !! i
    /\ forall c, granted (b c) = granted c /\ pause (b c) = pause c.
Proof.
  revert cs. induction l as [|j l IH]; intros cs; simpl.
  - exists (fun c => c). by destruct (cs !! i).
  - destruct (IH (alter (store_cancelled true) (id j) cs)) as (b & -> & Hb).
    destruct (decide (i = id j)) as [->|Hne].
    + exists (fun c => b (store_cancelled true c)). rewrite lookup_alter_eq.
      split; [by destruct (cs !! id j)|]. intros c. by destruct (Hb (store_cancelled true c)) as [-> ->].
    + exists b. by rewrite lookup_alter_ne.
Qed.

Lemma filter_submseteq {A} (f : A -> bool) (l : list A) : List.filter f l ⊆+ l.
Proof.
  induction l as [|a l IH]; simpl; [done|].
  destruct (f a); [by apply submseteq_skip|by apply submseteq_cons].
Qed.

Lemma waiting_filter f l :
  map (fun j => (id j, resources_of j)) (List.filter f l)
  ⊆+ map (fun j => (id j, resources_of j)) l.
Proof. by apply fmap_submseteq, filter_submseteq. Qed.

Lemma cancel_settles now now' st o : Inv st -> settles now now' (cancel_owner now now' st o).
Proof.
  intros I. apply settles_intro.
  shrink st; cbn -[for_controls].
  - by apply waiting_filter.
  - intros i c _ Hc. rewrite for_controls_lookup.
    destruct (alter_cancelled (List.filter (fun j => owned_by o (owner j)) (pending st)) (controls st) i)
      as (b & -> & Hb). destruct (Hb c) as [Hg _]. rewrite Hc. simpl.
    destruct (active st !! i) as [a|]; simpl; [|by eexists]. eexists. split; [done|].
    by destruct (owned_by _ _).
  - intros i r c c' Hr Hc Hp. rewrite for_controls_lookup.
    destruct (alter_cancelled (List.filter (fun j => owned_by o (owner j)) (pending st)) (controls st) i)
      as (b & -> & Hb). destruct (Hb c) as [_ Hpc]. rewrite Hc. simpl.
    apply held_lookup in Hr as (a & Ha & <-). simpl in Ha. rewrite Ha. simpl. intros [= <-] Hin.
    destruct (owned_by _ _); [done|]. rewrite Hpc. by apply Hp.
Qed.

Lemma hint_settles t now now' st o c r p ttl : Inv st -> settles now now' (hint_segment t now now' st o c r p ttl).
Proof.
  intros I. apply settles_intro.
  match goal with |- Inv ?s =>
    assert (waiting s = waiting st) as Hw;
    [unfold waiting; cbn [pending with_active with_pending with_hints]; apply waiting_map;
     intros j; by case_bool_decide|];
    assert (held s = held st) as Hh;
    [unfold held at 1; cbn [active with_active with_pending with_hints]; apply (held_fmap st);
     intros a; by case_bool_decide|] end.
  shrink st.
  - by rewrite Hw.
  - by rewrite Hh.
  - intros i x _ Hx. by exists x.
  - intros i x y y' _ Hy Hp Hy' Hin. simpl in Hy'. simplify_eq. auto.
Qed.

Lemma yield_settles now now' st i :
  Inv st -> is_Some (active st !! i) -> settles now now' (yield_job now now' st i).
Proof.
  intros I [a Ha]. unfold yield_job. rewrite Ha.
  assert (Hr : held st !! i = Some (a_resources a)) by (apply held_lookup; eauto).
  destruct (i_held st I i _ Hr) as (c & Hc & _).
  apply settles_intro.
  match goal with |- Inv (with_pending ?s _) => set (s1 := s) end.
  assert (held s1 = delete i (held st)) as Hh by (unfold held; simpl; by rewrite fmap_delete).
  assert (i ∉ (waiting st).*1) as Hnw
    by (intros Hin; by rewrite (i_apart st I i Hin) in Hr).
  apply (push_Inv s1 _ (store_granted false c)); try done.
  - shrink st.
    + rewrite Hh. apply delete_subseteq.
    + intros k c' Hk Hc'. simpl. destruct (decide (k = i)) as [->|Hne].
      * destruct Hk as [Hk|[x Hk]]; [done|]. by rewrite Hh, lookup_delete_eq in Hk.
      * rewrite lookup_alter_ne by done. by exists c'.
    + intros k x c1 c2 Hk Hc1 Hp. simpl. destruct (decide (k = i)) as [->|Hne].
      * by rewrite Hh, lookup_delete_eq in Hk.
      * rewrite lookup_alter_ne by done. intros Hc2 Hin. simplify_eq. auto.
  - apply (i_feasible st I i). by right.
  - apply (i_fresh st I). eauto.
  - simpl. by rewrite Hh, lookup_delete_eq.
  - simpl. by rewrite lookup_alter_eq, Hc.
Qed.

Lemma drop_active_Inv st i : Inv st -> Inv (with_active st (delete i (active st))).
Proof.
  intros I. assert (held (with_active st (delete i (active st))) = delete i (held st)) as Hh
    by (unfold held; simpl; by rewrite fmap_delete).
  shrink st.
  - rewrite Hh. apply delete_subseteq.
  - intros k c _ Hc. by exists c.
  - intros k r c c' _ Hc Hp Hc' Hin. simpl in Hc'. simplify_eq. auto.
Qed.

Lemma finish_settles now now' st i : Inv st -> settles now now' (finish_job now now' st i).
Proof.
  intros I. apply settles_intro. pose proof (drop_active_Inv st i I) as I1.
  destruct (position _ _) as [index|] eqn:Hpos; [|done].
  apply position_Some in Hpos as (j & Hj & _ & _). simpl in Hj.
  refine (Inv_shrink _ _ _ _ _ _ _ _ _ _ I1); viewers_stay; try done.
  - unfold waiting. simpl. rewrite (swap_remove_perm _ _ _ Hj) at 2. simpl.
    by apply submseteq_cons.
  - intros k c _ Hc. by exists c.
  - intros k r c c' _ Hc Hp Hc' Hin. simpl in Hc', Hc. simplify_eq. auto.
Qed.

(** A checkpoint runs on, refuses, or yields. *)
Lemma checkpoint_settles now now' st i :
  Inv st -> snd (checkpoint now now' st i) = st \/ settles now now' (snd (checkpoint now now' st i)).
Proof.
  intros I. unfold checkpoint. destruct (controls st !! i) as [c|]; [|by left].
  destruct (cancelled c); [by left|]. destruct (pause c); [|by left]. cbn [negb snd].
  destruct (active st !! i) as [a|] eqn:Ha.
  - right. apply yield_settles; [done|by exists a].
  - left. unfold yield_job. by rewrite Ha.
Qed.

(** Every operation settles, lets a viewer in, or does nothing. *)
Lemma step_cases now now' st st' :
  step_at now now' st st' -> Inv st ->
  st' = st \/ (exists r, st' = snd (enter_interactive st r)) \/ settles now now' st'.
Proof.
  intros [] I.
  - right; right. by apply acquire_settles.
  - right; left. by exists r.
  - right; right. by apply leave_settles.
  - right; right. by apply cancel_settles.
  - right; right. by apply hint_settles.
  - destruct (checkpoint_settles now now' st0 i I); auto.
  - right; right. by apply finish_settles.
Qed.

Lemma step_Inv st st' : step st st' -> Inv st -> Inv st'.
Proof.
  intros (now & now' & H) I. destruct (step_cases _ _ _ _ H I) as [->|[[r ->]|(s & Is & ->)]].
  - done.
  - by apply enter_Inv.
  - by apply settle_Inv.
Qed.

(** ** Dispatch reaches its fixed point *)

Definition Settled (st : State) : Prop := dispatch_step st = None.

Lemma settled_iff st :
  Settled st <-> forall j, j ∈ pending st -> available st (resources_of j) = false.
Proof.
  unfold Settled, dispatch_step. rewrite <- selected_None.
  destruct (selected st) as [[i j]|]; simpl; [|done]. split; [done|intros [=]].
Qed.

Lemma loop_done n st : (length (pending st) <= n)%nat -> Settled (dispatch_loop n st).
Proof.
  revert st. induction n as [|n IH]; intros st Hn; simpl.
  - apply settled_iff. intros j Hj. destruct (pending st); [by apply not_elem_of_nil in Hj|simpl in Hn; lia].
  - destruct (dispatch_step st) as [st'|] eqn:Hd; [|done]. apply IH.
    apply dispatch_step_Some in Hd as (i & j & _ & Hi & _ & ->). simpl.
    rewrite (swap_remove_length _ _ _ Hi) in Hn. lia.
Qed.

Lemma settle_settled now now' st : Settled (settle now now' st).
Proof. by apply loop_done. Qed.

Lemma interrupted_enter st i r x :
  interactive st !! i = None -> interrupted st x = true ->
  interrupted (with_interactive st (<[i := r]> (interactive st))) x = true.
Proof.
  intros Hi. rewrite !interrupted_true. intros (k & y & Hk & Hy). exists k, y. split; [|done].
  simpl. rewrite lookup_insert_ne; [done|]. intros <-. congruence.
Qed.

Lemma loop_interactive n st :
  interactive (dispatch_loop n st) = interactive st /\ next_id (dispatch_loop n st) = next_id st.
Proof.
  apply (loop_ind (fun s => interactive s = interactive st /\ next_id s = next_id st)); [|done].
  intros s s' Hs (i & j & _ & _ & _ & ->)%dispatch_step_Some. done.
Qed.

Lemma settle_interactive now now' st :
  interactive (settle now now' st) = interactive st /\ next_id (settle now now' st) = next_id st.
Proof.
  unfold settle, dispatch.
  match goal with |- context [dispatch_loop ?n ?s] => destruct (loop_interactive n s) as [-> ->] end.
  done.
Qed.

Lemma enter_settled st r : Inv st -> Settled st -> Settled (snd (enter_interactive st r)).
Proof.
  rewrite !settled_iff. intros I S j Hj. cbn [enter_interactive snd] in Hj |- *. specialize (S j Hj).
  apply not_true_iff_false. intros Hav%available_spec. apply not_true_iff_false in S. apply S.
  apply available_spec. destruct Hav as (Hi & Hrest). split; [|exact Hrest].
  apply not_true_iff_false. intros Ht. apply not_true_iff_false in Hi. apply Hi.
  apply (interrupted_enter _ (next_id st) r) in Ht; [exact Ht|].
  apply eq_None_not_Some. intros Hs%(i_viewers st I). lia.
Qed.

Lemma step_settled st st' : step st st' -> Inv st -> Settled st -> Settled st'.
Proof.
  intros (now & now' & H) I S. destruct (step_cases _ _ _ _ H I) as [->|[[r ->]|(s & _ & ->)]].
  - done.
  - by apply enter_settled.
  - apply settle_settled.
Qed.

Lemma reachable_keeps st0 st :
  Inv st0 -> Settled st0 -> reachable st0 st -> Inv st /\ Settled st.
Proof.
  intros I S H. induction H as [|x y z H _ IH]; [done|].
  apply IH; [by eapply step_Inv|by eapply step_settled].
Qed.

(** ** The initial state *)

Lemma fold_results_inv {A B} (f : A -> B -> result NewError A) (Q : A -> Prop) l a b :
  (forall a x b, Q a -> f a x = Ok b -> Q b) -> Q a ->
  fold_left (fun r x => let? a := r in f a x) l (Ok a) = Ok b -> Q b.
Proof.
  intros Hf. revert a. induction l as [|x l IH]; intros a Ha; simpl.
  - by intros [= <-].
  - destruct (f a x) as [a'|e] eqn:Hx.
    + apply IH. by eapply Hf.
    + assert (fold_left (fun r x => let? a := r in f a x) l (Err e) = Err e) as ->; [|done].
      clear. by induction l as [|y l IH]; simpl.
Qed.

Definition caps_positive (m : gmap string nat) : Prop := forall d n, m !! d = Some n -> (0 < n)%nat.

Lemma or_insert_positive m d : caps_positive m -> caps_positive (or_insert m d).
Proof.
  intros Hm. unfold or_insert. destruct (m !! d) as [n|] eqn:Hd; [done|].
  intros e n. rewrite lookup_insert_Some. intros [[_ <-]|[_ He]]; [lia|by eapply Hm].
Qed.

Section New.
Context (digest : string -> string) (device : string -> option string).

Lemma add_domain_positive acc d acc' :
  caps_positive (fst acc) -> add_domain acc d = Ok acc' -> caps_positive (fst acc').
Proof.
  destruct acc as [cap over]. unfold add_domain, ensure. simpl. intros Hc.
  repeat case_match; try done.
  intros (over' & _ & [= <-])%rbind_Ok. simpl. intros e n.
  rewrite lookup_insert_Some. intros [[_ <-]|[_ He]]; [by apply Nat.ltb_lt|by eapply Hc].
Qed.

Lemma add_root_positive over roots acc :
  caps_positive (fst acc) -> caps_positive (fst (foldl (add_root device over) acc roots)).
Proof.
  revert acc. induction roots as [|r roots IH]; intros [cap m] Hc; simpl; [done|].
  apply IH. simpl. by apply or_insert_positive.
Qed.

Lemma scheduler_new_shape collections c st roots :
  scheduler_new digest device collections c = Ok (st, roots) ->
  (0 < cpu_slots c)%nat /\ cpu_capacity st = cpu_slots c /\ caps_positive (io_capacity st)
  /\ pending st = [] /\ active st = ∅ /\ interactive st = ∅ /\ controls st = ∅ /\ 0 < next_id st.
Proof.
  unfold scheduler_new, ensure. destruct (Nat.ltb_spec 0 (cpu_slots c)); [|done].
  intros ([cap over] & Hd & He)%rbind_Ok.
  apply (fold_results_inv _ (fun acc => caps_positive (fst acc))) in Hd;
    [|intros a x b; apply add_domain_positive|by intros d n H'].
  cbn beta iota in He. destruct (foldl _ _ _) as [cap' roots'] eqn:Hf.
  injection He as <- <-. split_and!; try done; simpl; try lia.
  apply or_insert_positive. change cap' with (fst (cap', roots')). rewrite <- Hf.
  by apply add_root_positive.
Qed.

Lemma scheduler_new_Inv collections c st roots :
  scheduler_new digest device collections c = Ok (st, roots) ->
  Inv st /\ Settled st.
Proof.
  intros (Hc & Hcc & Hio & Hp & Ha & Hi & Hct & Hn)%scheduler_new_shape.
  assert (Hh : held st = ∅) by (unfold held; by rewrite Ha).
  assert (Hw : waiting st = []) by (unfold waiting; by rewrite Hp).
  split.
  - split; rewrite ?Hh, ?Hw, ?Hcc; try done; try lia.
    + intros d. unfold io_cap. destruct (io_capacity st !! d) as [n|] eqn:Hd; simpl; [|lia].
      specialize (Hio d n Hd). lia.
    + change (cpu_held ∅) with 0%nat. lia.
    + intros d. change (io_held d ∅) with 0%nat. lia.
    + intros i r [H|H]; [by apply not_elem_of_nil in H|done].
    + constructor.
    + intros i [H|[x H]]; [by apply not_elem_of_nil in H|done].
    + intros i [x H]. by rewrite Hi in H.
    + intros i H. by apply not_elem_of_nil in H.
  - apply settled_iff. rewrite Hp. intros j H. by apply not_elem_of_nil in H.
Qed.
End New.
