(* ===== verification/SchedulerTheorems.v ===== *)
(** * What the mediahost's scheduler promises

    Safety and progress of every state the operations reach in any
    interleaving, and the order of admission: priority first, owners in turn
    inside one. *)
From S2P Require Import Prelude Scheduler SchedulerFacts.

#[local] Open Scope Z_scope.

(** ** The order *)

Lemma key3_cmp_ok : cmp_ok (fun _ => True) key3_cmp.
Proof.
  apply (cmp_ok_ext _ (fun a b => cmp_then (prio (fst (fst a)) ?= prio (fst (fst b)))
           (cmp_then (snd (fst a) ?= snd (fst b)) (snd a ?= snd b)))).
  { by intros [[]] [[]]. }
  repeat apply cmp_ok_then.
  - apply (cmp_ok_on _ (fun _ => True) (fun a : Priority * Z * Z => prio (fst (fst a))) Z.compare); [done|apply z_cmp_ok].
  - apply (cmp_ok_on _ (fun _ => True) (fun a : Priority * Z * Z => snd (fst a)) Z.compare); [done|apply z_cmp_ok].
  - apply (cmp_ok_on _ (fun _ => True) (fun a : Priority * Z * Z => snd a) Z.compare); [done|apply z_cmp_ok].
Qed.

Lemma sorted_by_key {A} (key : A -> Priority * Z * Z) l :
  StronglySorted (fun a b => key3_cmp (key a) (key b) <> Gt)
    (sort_by (fun a b => key3_cmp (key a) (key b)) l).
Proof.
  apply (sort_by_ok (fun _ => True)); [|by apply Forall_true].
  apply (cmp_ok_on _ (fun _ => True) key key3_cmp); [done|apply key3_cmp_ok].
Qed.

Lemma key3_le p x s p' x' s' :
  key3_cmp (p, x, s) (p', x', s') <> Gt ->
  prio p < prio p' \/ (prio p = prio p' /\ (x < x' \/ (x = x' /\ s <= s'))).
Proof.
  unfold key3_cmp, cmp_then.
  destruct (Z.compare_spec (prio p) (prio p')), (Z.compare_spec x x'), (Z.compare_spec s s');
    try done; lia.
Qed.

Lemma key3_refl k : key3_cmp k k = Eq.
Proof. destruct k as [[p x] s]. unfold key3_cmp, cmp_then. by rewrite !Z.compare_refl. Qed.

Lemma prio_inj p q : prio p = prio q -> p = q.
Proof. by destruct p, q. Qed.

Lemma sorted_split {A} (R : A -> A -> Prop) l1 x l2 y :
  StronglySorted R (l1 ++ x :: l2) -> y ∈ l1 -> R y x.
Proof.
  induction l1 as [|z l1 IH]; simpl; intros Hs Hy; [by apply not_elem_of_nil in Hy|].
  apply StronglySorted_inv in Hs as [Hs Hz]. apply elem_of_cons in Hy as [->|Hy]; [|auto].
  rewrite Forall_app, Forall_cons in Hz. tauto.
Qed.

(** The selected job is the first of the order among the available ones. *)
Lemma selected_least st i j k a :
  selected st = Some (i, j) -> pending st !! k = Some a ->
  available st (resources_of a) = true ->
  key3_cmp (order_key (pending st) (served st) (i, j)) (order_key (pending st) (served st) (k, a)) <> Gt.
Proof.
  intros Hs Hk Ha. unfold selected in Hs.
  apply (elem_of_fair_order _ (served st)) in Hk. revert Hs Hk. unfold fair_order.
  pose proof (sorted_by_key (order_key (pending st) (served st)) (by_age (pending st))) as Hsort.
  induction Hsort as [|x l Hl IH Hx]; cbn [List.find]; [done|]. destruct (available st (resources_of (snd x))) eqn:Hav.
  - intros [= ->] [Heq|Hin]%elem_of_cons; [rewrite <- Heq, key3_refl; done|].
    rewrite Forall_forall in Hx. exact (Hx _ Hin).
  - intros Hf [Heq|Hin]%elem_of_cons; [|auto]. subst x. simpl in Hav. congruence.
Qed.

Lemma selected_priority st i j a :
  selected st = Some (i, j) -> a ∈ pending st -> available st (resources_of a) = true ->
  prio (priority j) <= prio (priority a).
Proof.
  intros Hs [k Hk]%list_elem_of_lookup Ha. pose proof (selected_least _ _ _ _ _ Hs Hk Ha) as H.
  unfold order_key in H. apply key3_le in H. lia.
Qed.

(** *** Ranks: how many of the owner's jobs are older *)

Definition count_key (k : Owner) (l : list (nat * Pending)) : Z :=
  Z.of_nat (length (List.filter (fun ij => bool_decide (owner_key (snd ij) = k)) l)).

Lemma count_key_app k l l' : count_key k (l ++ l') = count_key k l + count_key k l'.
Proof. unfold count_key. rewrite List.filter_app, length_app. lia. Qed.
Lemma count_key_nonneg k l : 0 <= count_key k l.
Proof. unfold count_key. lia. Qed.
Lemma count_key_one k ij :
  count_key k [ij] = if bool_decide (owner_key (snd ij) = k) then 1 else 0.
Proof. unfold count_key. simpl. by case_bool_decide. Qed.

Lemma next_rank_spec sv l acc k :
  default 0 (next_rank (foldl (rank_job sv) acc l) !! k)
  = default 0 (next_rank acc !! k) + count_key k l.
Proof.
  revert acc. induction l as [|[i j] l IH]; intros acc; [unfold count_key; simpl; lia|].
  cbn [foldl]. rewrite IH. change ((i, j) :: l) with ([(i, j)] ++ l).
  rewrite count_key_app, count_key_one. cbn [rank_job next_rank snd]. case_bool_decide as Hk.
  - subst k. rewrite lookup_insert_eq. simpl. lia.
  - rewrite lookup_insert_ne by done. lia.
Qed.

Lemma rank_frame sv l acc i :
  i ∉ l.*1 -> rank (foldl (rank_job sv) acc l) !! i = rank acc !! i.
Proof.
  revert acc. induction l as [|[k j] l IH]; intros acc Hi; [done|].
  rewrite fmap_cons, not_elem_of_cons in Hi. destruct Hi as [Hne Hi]. simpl in Hne.
  cbn [foldl]. rewrite IH by done. cbn [rank_job rank]. by rewrite lookup_insert_ne.
Qed.

Lemma rank_spec_split sv l1 i j l2 :
  NoDup (l1 ++ (i, j) :: l2).*1 ->
  rank (foldl (rank_job sv) (mkRanks ∅ ∅ ∅) (l1 ++ (i, j) :: l2)) !! i
  = Some (count_key (owner_key j) l1).
Proof.
  rewrite fmap_app, fmap_cons. intros (_ & _ & Hnd)%NoDup_app.
  apply NoDup_cons in Hnd as [Hi _]. simpl in Hi.
  rewrite foldl_app. cbn [foldl]. rewrite rank_frame by done. cbn [rank_job rank].
  rewrite lookup_insert_eq, next_rank_spec. simpl. by rewrite lookup_empty.
Qed.

Lemma floor_step sv acc i j :
  floor (rank_job sv acc (i, j)) !! priority j
  = Some (match floor acc !! priority j with
          | Some low => Z.min low (count_of sv j) | None => count_of sv j end).
Proof. apply lookup_insert_eq. Qed.

Lemma floor_spec sv l acc p :
  (forall low j, floor (foldl (rank_job sv) acc l) !! p = Some low -> j ∈ l.*2 -> priority j = p ->
     low <= count_of sv j)
  /\ (forall low, floor acc !! p = Some low ->
      exists low', floor (foldl (rank_job sv) acc l) !! p = Some low' /\ low' <= low).
Proof.
  revert acc. induction l as [|[i j] l IH]; intros acc.
  { split; [intros ? ? _ H; by apply not_elem_of_nil in H|]. intros low Hl. exists low. split; [done|lia]. }
  cbn [foldl]. destruct (IH (rank_job sv acc (i, j))) as [H1 H2]. split.
  - intros low j' Hlow. rewrite fmap_cons. cbn [snd]. intros [->|Hj]%elem_of_cons Hp; [|eauto].
    subst p. destruct (H2 _ (floor_step sv acc i j)) as (low' & Hl & Hle).
    rewrite Hlow in Hl. simplify_eq. destruct (floor acc !! _); lia.
  - intros low Hlow. destruct (decide (priority j = p)) as [<-|Hp].
    + destruct (H2 _ (floor_step sv acc i j)) as (low' & Hl & Hle).
      exists low'. split; [done|]. rewrite Hlow in Hle. lia.
    + apply H2. cbn [rank_job floor]. by rewrite lookup_insert_ne.
Qed.

Lemma enumerate_fst_nodup {A} (l : list A) : NoDup (enumerate l).*1.
Proof.
  apply NoDup_alt. intros u v x. unfold enumerate. rewrite !list_lookup_fmap, !list_lookup_imap.
  destruct (l !! u), (l !! v); simpl; try done. intros [= <-] [= <-]. done.
Qed.

Lemma by_age_nodup l : NoDup (by_age l).*1.
Proof. rewrite by_age_perm. apply enumerate_fst_nodup. Qed.

Lemma rank_at l sv u i j :
  by_age l !! u = Some (i, j) ->
  rank (ranks_of l sv) !! i = Some (count_key (owner_key j) (take u (by_age l))).
Proof.
  intros Hu. unfold ranks_of. pose proof (by_age_nodup l) as Hnd.
  rewrite <- (take_drop_middle _ _ _ Hu) in Hnd at 1.
  rewrite <- (take_drop_middle _ _ _ Hu) at 1. by rewrite rank_spec_split.
Qed.

Lemma count_key_take k l u v ij :
  l !! u = Some ij -> owner_key (snd ij) = k -> (u < v)%nat ->
  count_key k (take u l) + 1 <= count_key k (take v l).
Proof.
  intros Hu Hk Hlt. rewrite <- (take_drop_middle l u ij Hu) at 2.
  pose proof (lookup_lt_Some _ _ _ Hu).
  rewrite take_app, length_take_le by lia. rewrite (take_take).
  replace (v `min` u)%nat with u by lia.
  replace (v - u)%nat with (S (v - S u)) by lia. cbn [take].
  change (ij :: ?x) with ([ij] ++ x). rewrite !count_key_app, count_key_one.
  rewrite bool_decide_eq_true_2 by done. pose proof (count_key_nonneg k (take (v - S u) (drop (S u) l))). lia.
Qed.

(** Two jobs of one owner have different ranks. *)
Lemma rank_distinct l sv i j i' j' :
  l !! i = Some j -> l !! i' = Some j' -> owner_key j = owner_key j' ->
  rank (ranks_of l sv) !! i = rank (ranks_of l sv) !! i' -> i = i'.
Proof.
  rewrite <- !elem_of_enumerate, <- !by_age_perm. rewrite !list_elem_of_lookup.
  intros [u Hu] [v Hv] Hk. rewrite (rank_at _ _ _ _ _ Hu), (rank_at _ _ _ _ _ Hv), Hk.
  intros [= He]. destruct (Nat.lt_trichotomy u v) as [Huv|[Huv|Huv]].
  - pose proof (count_key_take _ _ _ _ _ Hu Hk Huv). simpl in *. lia.
  - subst v. rewrite Hu in Hv. by injection Hv.
  - pose proof (count_key_take _ _ _ _ _ Hv eq_refl Huv). simpl in *. lia.
Qed.

Lemma rank_exists l sv i j :
  l !! i = Some j -> exists u, by_age l !! u = Some (i, j)
    /\ rank (ranks_of l sv) !! i = Some (count_key (owner_key j) (take u (by_age l))).
Proof.
  rewrite <- elem_of_enumerate, <- by_age_perm, list_elem_of_lookup. intros [u Hu].
  exists u. split; [done|]. by apply rank_at.
Qed.

(** The older jobs of the same owner and priority. *)
Definition older (l : list Pending) (a : Pending) : nat :=
  length (List.filter (fun j => bool_decide (owner_key j = owner_key a)
                                && (sequence j <? sequence a)) l).

#[local] Instance filter_perm {A} (f : A -> bool) :
  Proper (Permutation ==> Permutation) (List.filter f).
Proof.
  induction 1 as [|x l l' H IH|x y l|l l' l'' _ IH1 _ IH2]; simpl; try done.
  - destruct (f x); by rewrite ?IH.
  - destruct (f x), (f y); try done. constructor.
  - by rewrite IH1.
Qed.

Lemma filter_snd_enumerate (f : Pending -> bool) l :
  length (List.filter (fun ij => f (snd ij)) (enumerate l)) = length (List.filter f l).
Proof.
  assert (map snd (enumerate l) = l) as Hs.
  { apply list_eq. intros i. unfold enumerate. change (map snd) with (fmap (M := list) (snd (A := nat) (B := Pending))).
    rewrite list_lookup_fmap, list_lookup_imap. by destruct (l !! i). }
  rewrite <- Hs at 2. generalize (enumerate l). clear. intros l.
  induction l as [|[i j] l IH]; simpl; [done|]. destruct (f j); simpl; by rewrite IH.
Qed.

Lemma rank_le_older l sv i a r :
  NoDup (map sequence l) -> l !! i = Some a -> rank (ranks_of l sv) !! i = Some r ->
  0 <= r <= Z.of_nat (older l a).
Proof.
  intros Hnd Hi Hr. destruct (rank_exists l sv i a Hi) as (u & Hu & Hr'). simplify_eq.
  split; [apply count_key_nonneg|]. unfold count_key, older.
  rewrite <- (filter_snd_enumerate (fun j => bool_decide (owner_key j = owner_key a)
                                          && (sequence j <? sequence a)) l).
  apply inj_le. rewrite <- (by_age_perm l). rewrite <- (take_drop u (by_age l)) at 2.
  rewrite List.filter_app, length_app. etrans; [|apply Nat.le_add_r]. apply Nat.eq_le_incl.
  f_equal. apply List.filter_ext_in. intros [k j] Hin. simpl.
  case_bool_decide as Hk; [|done]. simpl. symmetry. apply Z.ltb_lt.
  apply list_elem_of_In in Hin.
  pose proof (sorted_by_key (fun ij : nat * Pending => (priority (snd ij), 0, sequence (snd ij))) (enumerate l)) as Hs.
  change (sort_by _ _) with (by_age l) in Hs. rewrite <- (take_drop_middle _ _ _ Hu) in Hs.
  pose proof (sorted_split _ _ _ _ _ Hs Hin) as Hle. cbn beta iota in Hle. cbn [snd] in Hle.
  change (priority j, owner j) with (owner_key j) in Hk.
  assert (priority j = priority a) as Hp by (unfold owner_key in Hk; congruence).
  rewrite Hp in Hle. apply key3_le in Hle. assert (sequence j <= sequence a) as Hle' by lia.
  destruct (Z.eq_dec (sequence j) (sequence a)) as [He|]; [exfalso|lia].
  apply list_elem_of_lookup in Hin as [v Hv]. apply lookup_take_Some in Hv as [Hv Hlt].
  assert (l !! k = Some j) as Hkj.
  { rewrite <- elem_of_enumerate, <- by_age_perm. by eapply list_elem_of_lookup_2. }
  assert (k = i) as ->.
  { rewrite NoDup_alt in Hnd. apply (Hnd k i (sequence j)); rewrite list_lookup_fmap.
    - by rewrite Hkj.
    - rewrite Hi. simpl. by rewrite He. }
  pose proof (by_age_nodup l) as Hn. rewrite NoDup_alt in Hn.
  assert (v = u); [|lia]. apply (Hn v u i); rewrite list_lookup_fmap; [by rewrite Hv|by rewrite Hu].
Qed.

Lemma bounded_nodup_length (l : list Z) m :
  NoDup l -> (forall z, z ∈ l -> 0 <= z < m) -> Z.of_nat (length l) <= Z.max 0 m.
Proof.
  intros Hnd Hb.
  assert (length (Z.to_nat <$> l) <= length (seq 0 (Z.to_nat m)))%nat as H.
  { apply NoDup_incl_length.
    - apply NoDup_ListNoDup, NoDup_fmap_2_strong; [|done]. intros x y Hx Hy. pose proof (Hb x Hx). pose proof (Hb y Hy). lia.
    - intros n Hn. apply list_elem_of_In, list_elem_of_fmap in Hn as (z & -> & Hz).
      apply in_seq. specialize (Hb z Hz). lia. }
  rewrite length_fmap, length_seq in H. lia.
Qed.

Definition served_count (sv : gmap Owner Z) (k : Owner) : Z := default 0 (sv !! k).
Lemma count_of_served sv j : count_of sv j = served_count sv (owner_key j).
Proof. done. Qed.

(** Of owner [k]'s jobs, those ahead of [a] number at most [a]'s count, with the
    older jobs of [a]'s owner, less [k]'s count, and one. *)
Lemma overtaking l sv l1 ia a l2 (o : option string) :
  NoDup (map sequence l) -> fair_order l sv = l1 ++ (ia, a) :: l2 ->
  count_key (priority a, o) l1
  <= Z.max 0 (count_of sv a + Z.of_nat (older l a) - served_count sv (priority a, o) + 1).
Proof.
  intros Hnd Hf.
  assert (Hl : forall i j, (i, j) ∈ l1 -> l !! i = Some j).
  { intros i j Hj. rewrite <- (elem_of_fair_order l sv), Hf, elem_of_app. by left. }
  assert (Ha : l !! ia = Some a).
  { rewrite <- (elem_of_fair_order l sv), Hf, elem_of_app. right; left. }
  destruct (rank_exists l sv ia a Ha) as (ua & _ & Hra).
  pose proof (rank_le_older l sv ia a _ Hnd Ha Hra) as Hold.
  set (f := fun ij : nat * Pending => bool_decide (owner_key (snd ij) = (priority a, o))).
  set (rk := fun ij : nat * Pending => default 0 (rank (ranks_of l sv) !! fst ij)).
  unfold count_key. fold f. rewrite <- (length_map rk). apply bounded_nodup_length.
  - apply NoDup_fmap_2_strong.
    + intros [i j] [i' j'] [Hi Hk]%elem_of_filter_bool [Hi' Hk']%elem_of_filter_bool He.
      apply bool_decide_eq_true in Hk, Hk'. simpl in Hk, Hk'. apply Hl in Hi, Hi'.
      destruct (rank_exists l sv _ _ Hi) as (u & _ & Hu).
      destruct (rank_exists l sv _ _ Hi') as (u' & _ & Hu').
      unfold rk in He. simpl in He. rewrite Hu, Hu' in He. simpl in He.
      assert (i = i') as <-.
      { apply (rank_distinct l sv i j i' j' Hi Hi'); [by rewrite Hk, Hk'|by rewrite Hu, Hu', He]. }
      rewrite Hi in Hi'. by simplify_eq.
    + apply NoDup_ListNoDup, List.NoDup_filter, NoDup_ListNoDup.
      apply (NoDup_fmap_1 fst). apply (NoDup_app l1.*1 ((ia, a) :: l2).*1).
      rewrite <- fmap_app, <- Hf, fair_order_perm. apply enumerate_fst_nodup.
  - intros z Hz. apply list_elem_of_fmap in Hz as ([i j] & -> & [Hi Hk]%elem_of_filter_bool).
    apply bool_decide_eq_true in Hk. simpl in Hk.
    destruct (rank_exists l sv _ _ (Hl _ _ Hi)) as (u & _ & Hu).
    unfold rk. cbn [fst]. rewrite Hu. cbn [from_option Datatypes.id].
    pose proof (sorted_by_key (order_key l sv) (by_age l)) as Hs. fold (fair_order l sv) in Hs.
    rewrite Hf in Hs. pose proof (sorted_split _ _ _ _ _ Hs Hi) as Hle. unfold order_key in Hle.
    assert (priority j = priority a) as Hp by (unfold owner_key in Hk; congruence).
    rewrite Hp, Hu, Hra in Hle. cbn [from_option Datatypes.id] in Hle. apply key3_le in Hle.
    rewrite !count_of_served in *. rewrite Hk in *. pose proof (count_key_nonneg (priority a, o) (take u (by_age l))). lia.
Qed.

(** ** Theorems *)

Section Theorems.
Context (digest : string -> string) (device : string -> option string).

(** The scheduler as configured, and whatever has happened to it since. *)
Definition running (collections : list (list string)) (c : SchedulerConfig) (st : State) : Prop :=
  exists st0 roots, scheduler_new digest device collections c = Ok (st0, roots) /\ reachable st0 st.

Lemma running_Inv collections c st : running collections c st -> Inv st /\ Settled st.
Proof.
  intros (st0 & roots & [I S]%scheduler_new_Inv & H). by apply (reachable_keeps st0).
Qed.

(** ** Each job has one place in the machine *)

(** The id and the sequence of every job, waiting or running. *)
Definition tickets (st : State) : list (Z * Z) :=
  map (fun j => (id j, sequence j)) (pending st) ++ map (fun '(i, a) => (i, a_sequence a)) (map_to_list (active st)).
Definition clocks (st : State) : Z * Z := (next_id st, next_sequence st).

Lemma tickets_active (m : gmap Z Active) i a :
  m !! i = None ->
  map (fun '(k, x) => (k, a_sequence x)) (map_to_list (<[i := a]> m))
  ≡ₚ (i, a_sequence a) :: map (fun '(k, x) => (k, a_sequence x)) (map_to_list m).
Proof. intros Hi. by rewrite map_to_list_insert. Qed.
Lemma tickets_fmap (l : list Pending) (m : gmap Z Active) (f : Pending -> Pending) (g : Active -> Active) :
  (forall j, id (f j) = id j /\ sequence (f j) = sequence j) -> (forall a, a_sequence (g a) = a_sequence a) ->
  map (fun j => (id j, sequence j)) (map f l) ++ map (fun '(k, x) => (k, a_sequence x)) (map_to_list (g <$> m))
  = map (fun j => (id j, sequence j)) l ++ map (fun '(k, x) => (k, a_sequence x)) (map_to_list m).
Proof.
  intros Hf Hg. f_equal.
  - rewrite map_map. apply map_ext. intros j. by destruct (Hf j) as [-> ->].
  - rewrite map_to_list_fmap, <- list_fmap_compose. apply map_ext. intros [k x]. cbn. by rewrite Hg.
Qed.
Lemma refresh_tickets now st :
  tickets (refresh_demand_priorities now st) = tickets st /\ clocks (refresh_demand_priorities now st) = clocks st.
Proof. split; [|done]. by apply tickets_fmap. Qed.
Definition placed_once (st : State) : Prop := NoDup (tickets st).*1.
Lemma tickets_ids st : (tickets st).*1 = map id (pending st) ++ (map_to_list (active st)).*1.
Proof.
  unfold tickets. rewrite fmap_app. f_equal; rewrite <- list_fmap_compose; [done|]. apply map_ext. by intros [].
Qed.
Lemma waiting_apart st j : placed_once st -> j ∈ pending st -> active st !! id j = None.
Proof.
  unfold placed_once. rewrite tickets_ids. intros (_ & Hd & _)%NoDup_app Hj. apply eq_None_not_Some. intros [a Ha].
  apply (Hd (id j)); [by apply list_elem_of_fmap_2|]. apply list_elem_of_fmap. exists (id j, a). split; [done|]. by apply elem_of_map_to_list.
Qed.
Lemma settle_tickets now now' st :
  placed_once st -> tickets (settle now now' st) ≡ₚ tickets st /\ clocks (settle now now' st) = clocks st.
Proof.
  intros I. unfold settle, dispatch. set (s0 := refresh_demand_priorities now' (request_preemption now st)).
  assert (tickets s0 = tickets st /\ clocks s0 = clocks st) as [Ht Hc].
  { subst s0. destruct (refresh_tickets now' (request_preemption now st)) as [-> ->]. exact (refresh_tickets now st). }
  rewrite <- Ht, <- Hc. apply (loop_ind (fun s => tickets s ≡ₚ tickets s0 /\ clocks s = clocks s0)); [|done].
  intros s s' (Hs & Hcs) (i & j & _ & Hi & Hav & ->)%dispatch_step_Some.
  split; [|done]. rewrite <- Hs. unfold tickets. cbn [admit_job pending active with_active with_controls with_served with_pending].
  rewrite tickets_active.
  - rewrite (swap_remove_perm _ _ _ Hi) at 2. cbn [map app activate a_sequence]. by rewrite Permutation_middle.
  - apply waiting_apart; [|by eapply list_elem_of_lookup_2]. unfold placed_once. by rewrite Hs, Ht.
Qed.

(** What an operation leaves of the jobs there were, and which go; then it settles. *)
Definition leaves (st st' : State) (gone : list (Z * Z)) : Prop :=
  tickets st ≡ₚ gone ++ tickets st' /\ clocks st' = clocks st.
Lemma leaves_settled now now' st s gone : placed_once st -> leaves st s gone -> leaves st (settle now now' s) gone.
Proof.
  intros I [Ht Hc]. destruct (settle_tickets now now' s) as [Hs Hcs].
  { unfold placed_once in *. rewrite Ht, fmap_app in I. by apply NoDup_app in I as (_ & _ & I). }
  split; [by rewrite Hs|by rewrite Hcs].
Qed.
Lemma drop_leaves st i :
  leaves st (with_active st (delete i (active st))) (match active st !! i with Some a => [(i, a_sequence a)] | None => [] end).
Proof.
  split; [|done]. unfold tickets. cbn [pending active with_active]. destruct (active st !! i) as [a|] eqn:Ha.
  - rewrite <- (insert_delete_id (active st) i a Ha) at 1. rewrite tickets_active by apply lookup_delete_eq.
    cbn [app]. by rewrite <- Permutation_middle.
  - by rewrite delete_id.
Qed.
Lemma finish_leaves now now' st i :
  placed_once st -> exists gone, leaves st (finish_job now now' st i) gone /\ forall t, t ∈ gone -> fst t = i.
Proof.
  intros I. unfold finish_job. set (s1 := with_active st (delete i (active st))). destruct (drop_leaves st i) as [H1 Hc]. fold s1 in H1, Hc.
  set (dropped := match active st !! i with Some a => [(i, a_sequence a)] | None => [] end) in *.
  assert (forall t, t ∈ dropped -> fst t = i) as Hd.
  { subst dropped. destruct (active st !! i); [by intros t ->%list_elem_of_singleton|by intros t Ht%not_elem_of_nil]. }
  destruct (position _ _) as [index|] eqn:Hp; [|by exists dropped; split; [apply leaves_settled|]].
  apply position_Some in Hp as (j & Hj & Hji & _). exists (dropped ++ [(id j, sequence j)]). split.
  - apply leaves_settled; [done|]. split; [|done]. rewrite H1, <- app_assoc. f_equiv. unfold tickets. cbn [pending active with_pending].
    by rewrite (swap_remove_perm _ _ _ Hj) at 1.
  - intros t [Ht| ->%list_elem_of_singleton]%elem_of_app; [by apply Hd|]. cbn. by apply Z.eqb_eq.
Qed.
Lemma filter_split (f : Pending -> bool) l : l ≡ₚ List.filter f l ++ List.filter (fun j => negb (f j)) l.
Proof. induction l as [|j l IH]; cbn [List.filter]; [done|]. destruct (f j); cbn [negb app]; [by f_equiv|]. by rewrite <- Permutation_middle, <- IH. Qed.
Lemma cancel_leaves now now' st o :
  placed_once st -> exists gone, leaves st (cancel_owner now now' st o) gone
    /\ forall t, t ∈ gone -> exists j, j ∈ pending st /\ owner j = Some o /\ t = (id j, sequence j).
Proof.
  intros I. exists (map (fun j => (id j, sequence j)) (List.filter (fun j => owned_by o (owner j)) (pending st))). split.
  - apply leaves_settled; [done|]. split; [|done]. unfold tickets. cbn [cancel_jobs pending active with_pending with_controls with_hints].
    rewrite (filter_split (fun j => owned_by o (owner j)) (pending st)) at 1. by rewrite map_app, app_assoc.
  - intros t (j & -> & [Hj Ho]%elem_of_filter_bool)%list_elem_of_fmap. exists j. split_and!; [done| |done]. by apply bool_decide_eq_true in Ho.
Qed.
Lemma hint_leaves t now now' st o c r p ttl : placed_once st -> leaves st (hint_segment t now now' st o c r p ttl) [].
Proof.
  intros I. apply leaves_settled; [done|]. split; [|done]. unfold tickets. cbn [pending active with_pending with_active with_hints app].
  rewrite tickets_fmap; [done| |].
  - intros j. by destruct (bool_decide _).
  - intros a. by destruct (bool_decide _).
Qed.
Lemma yield_leaves now now' st i : placed_once st -> leaves st (yield_job now now' st i) [].
Proof.
  intros I. unfold yield_job. destruct (active st !! i) as [a|] eqn:Ha; [|by split].
  apply leaves_settled; [done|]. split; [|done]. destruct (drop_leaves st i) as [H _]. rewrite H, Ha. unfold tickets.
  cbn [pending active with_pending with_active with_controls app]. rewrite map_app, <- app_assoc. cbn [map app]. by rewrite <- Permutation_middle.
Qed.
Lemma checkpoint_leaves now now' st i : placed_once st -> leaves st (snd (checkpoint now now' st i)) [].
Proof.
  intros I. unfold checkpoint. destruct (controls st !! i) as [c|]; [|by split]. destruct (cancelled c); [by split|].
  destruct (pause c); [by apply yield_leaves|by split].
Qed.
(** A job that asks takes the next id and the next sequence. *)
Lemma acquire_tickets now now' st p r o src :
  placed_once st -> (forall t, t ∈ tickets st -> fst t < next_id st) ->
  tickets (snd (acquire_with_sources now now' st p r o src)) ≡ₚ clocks st :: tickets st
  /\ clocks (snd (acquire_with_sources now now' st p r o src)) = (next_id st + 1, next_sequence st + 1).
Proof.
  intros I Hfresh. unfold acquire_with_sources. cbn [snd].
  match goal with |- context [join_service_level ?s p o] => set (s1 := s) end. destruct (join_shape s1 p o) as [sv ->].
  match goal with |- context [settle now now' ?s] => set (s2 := s) end.
  assert (tickets s2 ≡ₚ clocks st :: tickets st) as Ht.
  { unfold tickets. subst s2 s1. cbn [pending active with_pending with_served]. rewrite map_app, <- app_assoc. cbn [map app].
    by rewrite <- Permutation_middle. }
  destruct (settle_tickets now now' s2) as [Hs Hc].
  - unfold placed_once in *. rewrite Ht. cbn. apply NoDup_cons. split; [|done].
    intros (t & E & Hin)%list_elem_of_fmap. specialize (Hfresh t Hin). cbn in E. lia.
  - by rewrite Hs, Hc.
Qed.

(** No id and no sequence is used twice, and the clocks are past both. *)
Definition Ticketed (st : State) : Prop :=
  NoDup (tickets st).*1 /\ NoDup (tickets st).*2
  /\ forall t, t ∈ tickets st -> fst t < next_id st /\ snd t < next_sequence st.
Lemma leaves_ticketed st st' gone : leaves st st' gone -> Ticketed st -> Ticketed st'.
Proof.
  intros [Ht Hc] (H1 & H2 & H3). unfold clocks in Hc. injection Hc as Hi Hs. unfold Ticketed. rewrite Hi, Hs.
  rewrite Ht, fmap_app in H1, H2. apply NoDup_app in H1 as (_ & _ & H1), H2 as (_ & _ & H2).
  split_and!; [done|done|]. intros t Hin. apply H3. rewrite Ht. apply elem_of_app. by right.
Qed.
Lemma step_tickets st st' :
  step st st' -> Ticketed st -> Ticketed st'
  /\ forall t, t ∈ tickets st -> t ∈ tickets st'
     \/ (exists now now', st' = finish_job now now' st (fst t))
     \/ (exists now now' o j, st' = cancel_owner now now' st o /\ j ∈ pending st /\ owner j = Some o /\ t = (id j, sequence j)).
Proof.
  intros (now & now' & Hs) HT. pose proof (proj1 HT) as I.
  assert (forall gone, leaves st st' gone -> Ticketed st' /\ forall t, t ∈ tickets st -> t ∈ tickets st' \/ t ∈ gone) as Hleaves.
  { intros gone Hl. split; [by eapply leaves_ticketed|]. intros t. destruct Hl as [-> _]. rewrite elem_of_app. tauto. }
  assert (leaves st st' [] -> Ticketed st' /\ forall t, t ∈ tickets st -> t ∈ tickets st'
     \/ (exists now now', st' = finish_job now now' st (fst t))
     \/ (exists now now' o j, st' = cancel_owner now now' st o /\ j ∈ pending st /\ owner j = Some o /\ t = (id j, sequence j))) as Hall.
  { intros [Ht Hin]%Hleaves. split; [done|]. intros t [H|H]%Hin; [by left|by apply not_elem_of_nil in H]. }
  destruct Hs as [st p r o src Hf|st r|st i|st o|st t o c r p ttl|st i|st i].
  - destruct HT as (H1 & H2 & H3). destruct (acquire_tickets now now' st p r o src I (fun t Ht => proj1 (H3 t Ht))) as [Ht Hc].
    clear Hleaves Hall. revert Ht Hc. generalize (snd (acquire_with_sources now now' st p r o src)) as s'. intros s' Ht Hc. unfold clocks in Hc.
    injection Hc as Hi Hq. split; [|intros t Hin; left; rewrite Ht; by right]. unfold Ticketed. rewrite Hi, Hq, Ht. cbn [fmap list_fmap clocks fst snd].
    split_and!.
    + apply NoDup_cons. split; [|done]. intros (t & E & Hin)%list_elem_of_fmap. destruct (H3 t Hin). lia.
    + apply NoDup_cons. split; [|done]. intros (t & E & Hin)%list_elem_of_fmap. destruct (H3 t Hin). lia.
    + intros t Hin. rewrite Ht in Hin. apply elem_of_cons in Hin as [->|Hin]; [cbn; lia|]. destruct (H3 t Hin). lia.
  - split; [|by left]. destruct HT as (H1 & H2 & H3). split_and!; [done|done|]. intros t Hin. destruct (H3 t Hin). cbn. lia.
  - apply Hall. by apply leaves_settled.
  - destruct (cancel_leaves now now' st o I) as (gone & Hl & Hg). destruct (Hleaves gone Hl) as [Ht Hin]. split; [done|].
    intros t [H|H]%Hin; [by left|]. right. right. destruct (Hg t H) as (j & Hj & Ho & E). by exists now, now', o, j.
  - apply Hall. by apply hint_leaves.
  - apply Hall. by apply checkpoint_leaves.
  - destruct (finish_leaves now now' st i I) as (gone & Hl & Hg). destruct (Hleaves gone Hl) as [Ht Hin]. split; [done|].
    intros t [H|H]%Hin; [by left|]. right. left. exists now, now'. by rewrite (Hg t H).
Qed.
Lemma running_ticketed collections c st : running collections c st -> Ticketed st.
Proof.
  intros (st0 & roots & (_ & _ & _ & Hp & Ha & _)%scheduler_new_shape & Hr).
  assert (Ticketed st0) as H0.
  { unfold Ticketed, tickets. rewrite Hp, Ha. cbn. split_and!; [constructor|constructor|by intros t Ht%not_elem_of_nil]. }
  clear Hp Ha. induction Hr as [x|x y z Hs _ IH]; [done|]. apply IH. by apply (step_tickets x y).
Qed.

(** C17: in any interleaving of acquisitions, checkpoints, endings,
    cancellations, hints and viewers, the jobs admitted together fit the CPU
    slots and every storage domain, share no exclusive resource, and one that
    conflicts with a viewer has been asked to stop. Every job has one place, in
    the queue or running, and keeps one from step to step until it ends or is
    cancelled while it waits. *)
Theorem admission_sound collections c st :
  running collections c st ->
  (cpu_held (held st) <= cpu_capacity st)%nat
  /\ (forall d, io_held d (held st) <= io_cap st d)%nat
  /\ (forall i j a b, active st !! i = Some a -> active st !! j = Some b -> i <> j ->
        exclusive (a_resources a) ## exclusive (a_resources b))
  /\ (forall i a, active st !! i = Some a -> interrupted st (a_resources a) = true ->
        exists ctl, controls st !! i = Some ctl /\ pause ctl = true)
  /\ NoDup (tickets st).*1
  /\ (forall st' t, step st st' -> t ∈ tickets st -> t ∈ tickets st'
        \/ (exists now now', st' = finish_job now now' st (fst t))
        \/ (exists now now' o j, st' = cancel_owner now now' st o /\ j ∈ pending st /\ owner j = Some o /\ t = (id j, sequence j))).
Proof.
  intros H. pose proof (running_ticketed _ _ _ H) as T. apply running_Inv in H as [I _]. split_and!; [apply I|apply I| | |apply T|].
  - intros i j a b Ha Hb Hne. apply (i_excl st I i j); [| |done]; apply held_lookup; eauto.
  - intros i a Ha Hin.
    destruct (i_held st I i (a_resources a)) as (ctl & Hc & _ & Hp); [apply held_lookup; eauto|].
    eauto.
  - intros st' t Hs. by apply (step_tickets st st').
Qed.

(** C40: a permit is what it says: no two jobs, waiting or running, share an id
    or a sequence, and the counters are past all of them, so that the next job's
    are new; a waiting job's permit is not granted, a running job's is. *)
Theorem permits_faithful collections c st :
  running collections c st ->
  NoDup (tickets st).*1 /\ NoDup (tickets st).*2
  /\ (forall t, t ∈ tickets st -> fst t < next_id st /\ snd t < next_sequence st)
  /\ (forall j, j ∈ pending st -> active st !! id j = None /\ wait_poll st (id j) <> Granted)
  /\ (forall i a, active st !! i = Some a -> wait_poll st i <> Waiting).
Proof.
  intros H. pose proof (running_ticketed _ _ _ H) as (T1 & T2 & T3). apply running_Inv in H as [I _].
  split_and!; [done|done|done| |].
  - intros j Hj. split; [by apply waiting_apart|]. assert (id j ∈ (waiting st).*1) as Hin.
    { unfold waiting. rewrite <- list_fmap_compose. by apply (list_elem_of_fmap_2 id). }
    destruct (i_waiting st I _ Hin) as (ctl & Hc & Hg). unfold wait_poll. rewrite Hc, Hg. by destruct (cancelled ctl).
  - intros i a Ha. destruct (i_held st I i (a_resources a)) as (ctl & Hc & Hg & _).
    { apply held_lookup; eauto. }
    unfold wait_poll. rewrite Hc, Hg. by destruct (cancelled ctl).
Qed.

Lemma idle_available st r :
  Inv st -> held st = ∅ -> interactive st = ∅ -> feasible r -> available st r = true.
Proof.
  intros I Hh Hi Hf. apply available_spec. rewrite Hh. split_and!.
  - apply not_true_iff_false. intros (k & x & Hk & _)%interrupted_true. by rewrite Hi in Hk.
  - change (cpu_held ∅) with 0%nat. pose proof (i_cpu_cap st I). unfold feasible in Hf. lia.
  - intros d _. change (io_held d ∅) with 0%nat. pose proof (i_io_cap st I d). lia.
  - done.
Qed.

Lemma never_idle st :
  Inv st -> Settled st -> interactive st = ∅ -> active st = ∅ -> pending st = [].
Proof.
  intros I S Hi Ha. destruct (pending st) as [|j l] eqn:Hp; [done|exfalso].
  rewrite settled_iff in S. specialize (S j). rewrite Hp in S.
  rewrite idle_available in S; try done; [by specialize (S ltac:(left))| |].
  - unfold held. by rewrite Ha.
  - apply (i_feasible st I (id j)). left. unfold waiting. rewrite Hp. left.
Qed.

(** A running job ends. *)
Inductive finishing : nat -> State -> State -> Prop :=
| finishing_nil st : finishing 0 st st
| finishing_step n now now' st i st1 st' :
    is_Some (active st !! i) -> st1 = finish_job now now' st i -> finishing n st1 st' ->
    finishing (S n) st st'.

Definition jobs (st : State) : nat := (length (pending st) + size (active st))%nat.

Lemma loop_jobs n st : Inv st -> jobs (dispatch_loop n st) = jobs st.
Proof.
  intros I. apply (loop_ind (fun s => Inv s /\ jobs s = jobs st)); [|done].
  intros s s' [Is Hj] (i & j & _ & Hi & Hav & ->)%dispatch_step_Some.
  split; [by apply admit_Inv|]. rewrite <- Hj. unfold jobs. simpl.
  rewrite (swap_remove_length _ _ _ Hi). rewrite map_size_insert_None; [lia|].
  pose proof (i_apart s Is (id j)) as H. unfold held in H. rewrite lookup_fmap in H.
  destruct (active s !! id j); [|done]. discriminate H. unfold waiting.
  apply list_elem_of_fmap. exists (id j, resources_of j). split; [done|].
  apply list_elem_of_fmap. exists j. split; [done|]. by eapply list_elem_of_lookup_2.
Qed.

Lemma refresh_jobs now st : jobs (refresh_demand_priorities now st) = jobs st.
Proof.
  unfold jobs, refresh_demand_priorities. cbn [pending active with_active with_pending with_hints].
  by rewrite length_map, map_size_fmap.
Qed.

Lemma settle_jobs now now' st : Inv st -> jobs (settle now now' st) = jobs st.
Proof.
  intros I. unfold settle, dispatch. rewrite loop_jobs by (by apply refresh_Inv, preemption_Inv).
  rewrite refresh_jobs. change (jobs (request_preemption now st))
    with (jobs (refresh_demand_priorities now st)). apply refresh_jobs.
Qed.

Lemma not_waiting st i a : Inv st -> active st !! i = Some a -> position (fun j => id j =? i) (pending st) = None.
Proof.
  intros I Ha. apply position_None. intros j Hj. apply Z.eqb_neq. intros <-.
  assert (held st !! id j = None) as H.
  { apply (i_apart st I). unfold waiting. apply list_elem_of_fmap. exists (id j, resources_of j).
    split; [done|]. apply list_elem_of_fmap. by exists j. }
  unfold held in H. by rewrite lookup_fmap, Ha in H.
Qed.

Lemma finish_jobs now now' st i :
  Inv st -> is_Some (active st !! i) -> S (jobs (finish_job now now' st i)) = jobs st.
Proof.
  intros I [a Ha].
  assert (Hp : position (fun j => id j =? i) (pending (with_active st (delete i (active st)))) = None)
    by exact (not_waiting st i a I Ha).
  unfold finish_job. rewrite Hp. rewrite settle_jobs.
  - unfold jobs. cbn [pending active with_active].
    rewrite map_size_delete, Ha. assert (size (active st) <> 0%nat); [|lia].
    intros H%map_size_empty_iff. by rewrite H in Ha.
  - by apply drop_active_Inv.
Qed.

Lemma finish_keeps now now' st i :
  Inv st -> interactive st = ∅ ->
  Inv (finish_job now now' st i) /\ Settled (finish_job now now' st i)
  /\ interactive (finish_job now now' st i) = ∅.
Proof.
  intros I Hi. destruct (finish_settles now now' st i I) as (s & Is & He).
  split_and!; [rewrite He; by apply settle_Inv|rewrite He; apply settle_settled|]. clear s Is He.
  unfold finish_job. destruct (settle_interactive now now'
    match position (fun j => id j =? i) (pending (with_active st (delete i (active st)))) with
    | Some index => with_pending (with_active st (delete i (active st)))
        (swap_remove index (pending (with_active st (delete i (active st)))))
    | None => with_active st (delete i (active st)) end) as [-> _].
  by destruct (position _ _).
Qed.

Lemma finishing_count n st st' :
  finishing n st st' -> Inv st -> Settled st -> interactive st = ∅ ->
  (jobs st' + n = jobs st)%nat /\ Inv st' /\ Settled st' /\ interactive st' = ∅.
Proof.
  induction 1 as [st|n now now' st i st1 st' Hi -> H IH]; intros I S Hint; [split_and!; try done; lia|].
  destruct (finish_keeps now now' st i I Hint) as (I' & S' & Hint').
  destruct (IH I' S' Hint') as (Hj & Hrest). split; [|done].
  pose proof (finish_jobs now now' st i I Hi). lia.
Qed.

Lemma run_out m st :
  jobs st = m -> Inv st -> Settled st -> interactive st = ∅ ->
  exists st', finishing m st st' /\ jobs st' = 0%nat.
Proof.
  revert st. induction m as [|m IH]; intros st Hj I S Hi; [exists st; by split; [constructor|]|].
  destruct (map_choose_or_empty (active st)) as [(i & a & Ha)|He]; cycle 1.
  - pose proof (never_idle st I S Hi He) as Hp. unfold jobs in Hj. rewrite Hp, He in Hj.
    rewrite map_size_empty in Hj. done.
  - destruct (finish_keeps 0 0 st i I Hi) as (I' & S' & Hi').
    pose proof (finish_jobs 0 0 st i I ltac:(by exists a)) as Hf.
    destruct (IH (finish_job 0 0 st i)) as (st' & Hrun & H0); try done; [lia|].
    exists st'. split; [|done]. by econstructor.
Qed.

(** C18: while no viewer is in, as long as running jobs end the queue drains:
    no state on the way has waiting jobs and none running, each ending brings
    the number of jobs down by one, and after as many endings as there are jobs
    nothing is left. *)
Theorem queue_drains collections c st :
  running collections c st -> interactive st = ∅ ->
  (forall n st', finishing n st st' ->
     (jobs st' + n = jobs st)%nat /\ (pending st' <> [] -> active st' <> ∅))
  /\ exists st', finishing (jobs st) st st' /\ pending st' = [] /\ active st' = ∅.
Proof.
  intros [I S]%running_Inv Hi. split.
  - intros n st' H. destruct (finishing_count n st st' H I S Hi) as (Hj & I' & S' & Hi').
    split; [done|]. intros Hp Ha. by apply Hp, never_idle.
  - destruct (run_out (jobs st) st eq_refl I S Hi) as (st' & Hrun & H0). exists st'.
    split; [done|]. unfold jobs in H0. split; [by apply length_zero_iff_nil; lia|].
    apply map_size_empty_iff. lia.
Qed.
End Theorems.

(** ** Preemption *)

(** [a] holds something [r] is short of. *)
Definition contested (st : State) (r a : Resources) : Prop :=
  (cpu r <> 0%nat /\ cpu a <> 0%nat /\ (cpu_capacity st < cpu_held (held st) + cpu r)%nat)
  \/ (exists d, d ∈ io r /\ d ∈ io a /\ (io_cap st d <= io_held d (held st))%nat)
  \/ ~ (exclusive a ## exclusive r).

Lemma is_disjoint_false X Y : negb (is_disjoint X Y) = true <-> exists d, d ∈ X /\ d ∈ Y.
Proof.
  unfold is_disjoint. rewrite negb_true_iff, bool_decide_eq_false. split.
  - intros H. destruct (set_choose_or_empty (X ∩ Y)) as [[d Hd]|He].
    + exists d. set_solver.
    + exfalso. apply H. set_solver.
  - intros (d & Hx & Hy) H. set_solver.
Qed.

Lemma blocks_spec st j a :
  blocks (request_of st j) a = true
  <-> prio (priority j) < prio (a_priority a) /\ contested st (resources_of j) (a_resources a).
Proof.
  unfold blocks, contested, request_of.
  cbn [rq_priority rq_cpu rq_cpu_full rq_full_io rq_exclusive].
  rewrite andb_true_iff, !orb_true_iff, !andb_true_iff, Z.ltb_lt, !is_disjoint_false.
  rewrite !negb_true_iff, !Nat.eqb_neq, Nat.ltb_lt, used_cpu.
  assert ((exists d, d ∈ io (a_resources a) /\ d ∈ filter (fun d => io_cap st d <= io_used st d)%nat (io (resources_of j)))
          <-> exists d, d ∈ io (resources_of j) /\ d ∈ io (a_resources a) /\ (io_cap st d <= io_held d (held st))%nat) as ->.
  { split; intros (d & H); exists d; revert H; rewrite elem_of_filter, used_io; tauto. }
  assert ((exists d, d ∈ exclusive (a_resources a) /\ d ∈ exclusive (resources_of j))
          <-> ~ (exclusive (a_resources a) ## exclusive (resources_of j))) as ->.
  { rewrite <- is_disjoint_false. unfold is_disjoint. by rewrite negb_true_iff, bool_decide_eq_false. }
  tauto.
Qed.

Lemma asked_spec st a :
  asked st a = true <->
  interrupted st (a_resources a) = true
  \/ exists j, j ∈ pending st /\ interrupted st (resources_of j) = false
               /\ prio (priority j) < prio (a_priority a)
               /\ contested st (resources_of j) (a_resources a).
Proof.
  unfold asked, requests. rewrite orb_true_iff, existsb_elem. f_equiv. split.
  - intros (q & (j & -> & Hj)%list_elem_of_fmap & Hb). exists j.
    apply elem_of_filter_bool in Hj as [Hj Hi]. apply negb_true_iff in Hi.
    apply blocks_spec in Hb. tauto.
  - intros (j & Hj & Hi & Hb). exists (request_of st j). split; [|by apply blocks_spec].
    apply list_elem_of_fmap_2, elem_of_filter_bool. by rewrite Hi.
Qed.

(** A job that cannot be admitted and has no viewer in its way has a holder in
    its way. *)
Lemma contested_exists st r :
  Inv st -> available st r = false -> interrupted st r = false -> feasible r ->
  exists i a, active st !! i = Some a /\ contested st r (a_resources a).
Proof.
  intros I Hav Hi Hf.
  assert (Hsum : forall f : Resources -> nat, (0 < sum_list_with f (values (held st)))%nat ->
            exists i a, active st !! i = Some a /\ (0 < f (a_resources a))%nat).
  { intros f Hs. assert (exists x, x ∈ values (held st) /\ (0 < f x)%nat) as (x & Hx & Hfx).
    { revert Hs. generalize (values (held st)). induction l as [|x l IH]; simpl; [lia|].
      intros Hs. destruct (decide (0 < f x)%nat) as [?|?]; [exists x; split; [left|done]|].
      destruct IH as (y & Hy & Hfy); [lia|]. exists y. split; [by right|done]. }
    apply elem_of_values in Hx as [i (a & Ha & <-)%held_lookup]. eauto. }
  destruct (decide (cpu_held (held st) + cpu r <= cpu_capacity st)%nat) as [Hc|Hc].
  2:{ destruct (Hsum cpu) as (i & a & Ha & Hp).
      { change (sum_list_with cpu (values (held st))) with (cpu_held (held st)).
        pose proof (i_cpu_cap st I). unfold feasible in Hf. lia. }
      exists i, a. split; [done|]. left. pose proof (i_cpu st I). lia. }
  destruct (decide (set_Forall (fun d => io_held d (held st) < io_cap st d)%nat (io r))) as [Hd|Hd].
  2:{ apply not_set_Forall_Exists in Hd as (d & Hd & Hge); [|apply _].
      destruct (Hsum (fun r => if bool_decide (d ∈ io r) then 1%nat else 0%nat)) as (i & a & Ha & Hp).
      { change (sum_list_with _ _) with (io_held d (held st)). pose proof (i_io_cap st I d). simpl in Hge. lia. }
      exists i, a. split; [done|]. right; left. exists d. case_bool_decide; [|lia].
      split_and!; [done|done|simpl in Hge; lia]. }
  destruct (decide (map_Forall (fun _ a => exclusive a ## exclusive r) (held st))) as [He|He].
  - exfalso. apply not_true_iff_false in Hav. apply Hav, available_spec. split_and!; try done.
  - apply map_not_Forall in He as (i & x & (a & Ha & <-)%held_lookup & Hx); [|apply _].
    exists i, a. split; [done|]. by right; right.
Qed.

Lemma retain_idem now h : retain_hints now (retain_hints now h) = retain_hints now h.
Proof. unfold retain_hints. apply map_filter_filter_l. naive_solver. Qed.

Lemma refresh_idem now st :
  pending (refresh_demand_priorities now (refresh_demand_priorities now st))
  = pending (refresh_demand_priorities now st)
  /\ active (refresh_demand_priorities now (refresh_demand_priorities now st))
     = active (refresh_demand_priorities now st).
Proof.
  unfold refresh_demand_priorities.
  cbn [pending active hints with_active with_pending with_hints]. rewrite !retain_idem. split.
  - rewrite map_map. by apply map_ext.
  - rewrite <- map_fmap_compose. by apply map_fmap_ext.
Qed.

(** A running job in [j]'s way that is no less urgent, or asked to stop. *)
Definition blamed (st : State) (j : Pending) : Prop :=
  exists i a, active st !! i = Some a /\ contested st (resources_of j) (a_resources a)
    /\ (prio (a_priority a) <= prio (priority j)
        \/ exists c, controls st !! i = Some c /\ pause c = true).

Definition no_inversion_in (st : State) : Prop :=
  forall j, j ∈ pending st -> interrupted st (resources_of j) = false -> blamed st j.

Lemma contested_cong st st' r a :
  held st' = held st -> cpu_capacity st' = cpu_capacity st -> io_capacity st' = io_capacity st ->
  contested st r a -> contested st' r a.
Proof. unfold contested, io_cap. by intros -> -> ->. Qed.

(** Admitting [k] leaves the holders in place and may add [k] to them. *)
Lemma contested_admit st i k r a :
  Inv st -> pending st !! i = Some k -> contested st r a -> contested (admit_job st i k) r a.
Proof.
  intros I Hi. destruct (admit_view st i k Hi) as (Hw & Hh & _).
  assert (held st !! id k = None) as Hf.
  { apply (i_apart st I). rewrite Hw. left. }
  unfold contested. change (cpu_capacity (admit_job st i k)) with (cpu_capacity st).
  change (io_cap (admit_job st i k)) with (io_cap st). rewrite Hh, cpu_held_insert by done.
  intros [(Hr & Ha & Hlt)|[(d & Hd & Hd' & Hle)|Hx]]; [left|right; left|by right; right].
  - split_and!; [done|done|lia].
  - exists d. rewrite io_held_insert by done. split_and!; [done|done|lia].
Qed.

Lemma contested_new st i k r :
  Inv st -> pending st !! i = Some k -> available st (resources_of k) = true ->
  interrupted st r = false -> available st r = true -> available (admit_job st i k) r = false ->
  contested (admit_job st i k) r (resources_of k).
Proof.
  intros I Hi (_ & Hcpuk & _)%available_spec Hint Hav Hnav. destruct (admit_view st i k Hi) as (Hw & Hh & _).
  assert (held st !! id k = None) as Hf.
  { apply (i_apart st I). rewrite Hw. left. }
  apply available_spec in Hav as (_ & Hcpu & Hio & Hex).
  unfold contested. change (cpu_capacity (admit_job st i k)) with (cpu_capacity st).
  change (io_cap (admit_job st i k)) with (io_cap st). rewrite Hh, cpu_held_insert by done.
  apply not_true_iff_false in Hnav. rewrite available_spec in Hnav.
  change (interrupted (admit_job st i k) r) with (interrupted st r) in Hnav.
  change (cpu_capacity (admit_job st i k)) with (cpu_capacity st) in Hnav.
  change (io_cap (admit_job st i k)) with (io_cap st) in Hnav.
  rewrite Hh, cpu_held_insert in Hnav by done.
  destruct (decide (cpu (resources_of k) + cpu_held (held st) + cpu r <= cpu_capacity st)%nat);
    [right|left; lia].
  destruct (decide (exclusive (resources_of k) ## exclusive r)) as [Hdis|]; [left|by right].
  destruct (decide (set_Exists (fun d => d ∈ io (resources_of k) /\ io_cap st d <= io_held d (<[id k := resources_of k]> (held st)))%nat (io r)))
    as [(d & Hd & Hk & Hle)|Hn]; [by exists d|exfalso]. apply Hnav. split_and!; [done|lia| |].
  - intros d Hd. rewrite io_held_insert by done. specialize (Hio d Hd).
    case_bool_decide as Hk; [|lia]. apply Nat.nle_gt. intros Hle. apply Hn. exists d.
    rewrite io_held_insert by done. by rewrite bool_decide_eq_true_2.
  - intros m x [[_ <-]|[_ Hx]]%lookup_insert_Some; [done|by apply (Hex m)].
Qed.

Lemma blamed_admit st i k j :
  Inv st -> pending st !! i = Some k -> blamed st j -> blamed (admit_job st i k) j.
Proof.
  intros I Hi (l & a & Ha & Hc & Hp).
  assert (l <> id k) as Hne.
  { intros ->. assert (held st !! id k = None) as Hf.
    { apply (i_apart st I). destruct (admit_view st i k Hi) as (Hw & _). rewrite Hw. left. }
    unfold held in Hf. by rewrite lookup_fmap, Ha in Hf. }
  exists l, a. cbn [admit_job active controls with_active with_controls with_served with_pending].
  rewrite lookup_insert_ne, lookup_alter_ne by done. split_and!; [done| |done].
  by apply contested_admit.
Qed.

Lemma loop_blamed n st :
  Inv st ->
  (forall j, j ∈ pending st -> interrupted st (resources_of j) = false ->
     available st (resources_of j) = true \/ blamed st j) ->
  forall j, j ∈ pending (dispatch_loop n st) ->
    interrupted (dispatch_loop n st) (resources_of j) = false ->
    available (dispatch_loop n st) (resources_of j) = true \/ blamed (dispatch_loop n st) j.
Proof.
  intros I H.
  apply (loop_ind (fun s => Inv s /\ forall j, j ∈ pending s -> interrupted s (resources_of j) = false ->
     available s (resources_of j) = true \/ blamed s j)); [|done]. clear.
  intros s s' [I H] (i & k & Hs & Hi & Hav & ->)%dispatch_step_Some.
  split; [by apply admit_Inv|]. intros j Hj Hint.
  assert (j ∈ pending s) as Hjs.
  { rewrite (swap_remove_perm _ _ _ Hi). by right. }
  change (interrupted (admit_job s i k) (resources_of j)) with (interrupted s (resources_of j)) in Hint.
  destruct (available (admit_job s i k) (resources_of j)) eqn:Hn; [by left|right].
  destruct (H j Hjs Hint) as [Hja|Hb]; [|by apply blamed_admit].
  exists (id k), (activate k). split_and!.
  - apply lookup_insert_eq.
  - by apply contested_new.
  - left. simpl. by apply (selected_priority s i k j).
Qed.

Lemma settle_blamed now st : Inv st -> no_inversion_in (settle now now st).
Proof.
  intros I j Hj Hint.
  set (s1 := refresh_demand_priorities now (request_preemption now st)).
  assert (I1 : Inv s1) by (by apply refresh_Inv, preemption_Inv).
  pose proof (settle_settled now now st) as S. rewrite settled_iff in S. specialize (S j Hj).
  assert (He : settle now now st = dispatch_loop (length (pending s1)) s1) by reflexivity.
  rewrite He in Hj, Hint, S |- *.
  enough (Hpre : forall j, j ∈ pending s1 -> interrupted s1 (resources_of j) = false ->
            available s1 (resources_of j) = true \/ blamed s1 j).
  { destruct (loop_blamed (length (pending s1)) s1 I1 Hpre j Hj Hint) as [Hav|Hb]; [congruence|done]. }
  clear j Hj Hint S He. intros j Hj Hint.
  destruct (available s1 (resources_of j)) eqn:Hav; [by left|right].
  assert (Hf : feasible (resources_of j)).
  { apply (i_feasible s1 I1 (id j)). left. apply list_elem_of_fmap. exists j. done. }
  destruct (contested_exists s1 _ I1 Hav Hint Hf) as (i & a & Ha & Hc).
  exists i, a. split_and!; [done|done|].
  destruct (Z.le_gt_cases (prio (a_priority a)) (prio (priority j))) as [?|Hlt]; [by left|right].
  set (s0 := refresh_demand_priorities now st).
  destruct (refresh_idem now st) as [Hp Ha0].
  change (pending s1) with (pending (refresh_demand_priorities now s0)) in Hj.
  change (active s1) with (active (refresh_demand_priorities now s0)) in Ha.
  change (pending (refresh_demand_priorities now s0) = pending s0) in Hp.
  change (active (refresh_demand_priorities now s0) = active s0) in Ha0.
  rewrite Hp in Hj. rewrite Ha0 in Ha.
  assert (Has : asked s0 a = true).
  { apply asked_spec. right. exists j. split_and!; [done|done|done|].
    revert Hc. apply contested_cong; try done. unfold held. unfold s1.
    change (active (refresh_demand_priorities now (request_preemption now st)))
      with (active (refresh_demand_priorities now s0)). by rewrite Ha0. }
  destruct (i_held s0 (refresh_Inv now st I) i (a_resources a)) as (c & Hcc & _).
  { apply held_lookup. eauto. }
  exists (store_pause (asked s0 a) c). split; [|by rewrite Has].
  change (controls s1) with (controls (request_preemption now st)).
  rewrite preemption_controls. fold s0. rewrite Ha.
  change (controls s0) with (controls st) in Hcc. by rewrite Hcc.
Qed.

Lemma enter_blamed st r :
  Inv st -> no_inversion_in st -> no_inversion_in (snd (enter_interactive st r)).
Proof.
  intros I H j Hj Hint. cbn [enter_interactive snd] in Hint.
  assert (interrupted st (resources_of j) = false) as Hi.
  { apply not_true_iff_false. intros Ht. apply not_true_iff_false in Hint. apply Hint.
    apply (interrupted_enter _ (next_id st) r) in Ht; [exact Ht|].
    apply eq_None_not_Some. intros Hs%(i_viewers st I). lia. }
  destruct (H j Hj Hi) as (i & a & Ha & Hc & Hp). exists i, a.
  split_and!; [done|by apply (contested_cong st)|].
  destruct Hp as [Hp|(c & Hcc & Hpc)]; [by left|right].
  cbn [enter_interactive snd controls with_interactive with_controls active].
  exists (if conflicts (a_resources a) r then store_pause true c else c).
  split; [by rewrite for_controls_lookup, Ha, Hcc|]. by destruct (conflicts _ _).
Qed.

Lemma prompt_blamed st0 st :
  Inv st0 -> no_inversion_in st0 -> rtc prompt_step st0 st -> no_inversion_in st.
Proof.
  intros I H Hr. induction Hr as [|x y z [now Hs] _ IH]; [done|].
  apply IH; [apply (step_Inv x); [by exists now, now|done]|].
  destruct (step_cases _ _ _ _ Hs I) as [->|[[r ->]|(s & Is & ->)]].
  - done.
  - by apply enter_blamed.
  - by apply settle_blamed.
Qed.

Section Urgency.
Context (digest : string -> string) (device : string -> option string).

(** C25: no inversion: a waiting job that no viewer holds back has, among the
    running jobs that hold what it is short of, one at least as urgent or one
    that has been asked to stop. No hint expires between the two clock readings
    of one operation ([prompt_step]). Priorities do not age: they are those of
    the last look at the hints. *)
Theorem no_priority_inversion collections c st0 roots st j :
  scheduler_new digest device collections c = Ok (st0, roots) -> rtc prompt_step st0 st ->
  j ∈ pending st -> interrupted st (resources_of j) = false ->
  exists i a, active st !! i = Some a /\ contested st (resources_of j) (a_resources a)
    /\ (prio (a_priority a) <= prio (priority j)
        \/ exists c, controls st !! i = Some c /\ pause c = true).
Proof.
  intros Hnew Hr Hj Hi. destruct (scheduler_new_Inv _ _ _ _ _ _ Hnew) as [I _].
  apply scheduler_new_shape in Hnew as (_ & _ & _ & Hp & _).
  refine (prompt_blamed st0 st I _ Hr j Hj Hi). intros k Hk. rewrite Hp in Hk.
  by apply not_elem_of_nil in Hk.
Qed.

(** A running job is asked to stop exactly when a viewer needs what it
    holds, or a waiting job of strictly higher priority that no viewer holds
    back is short of something it holds. *)
Theorem preemption_exact collections c st now i a :
  running digest device collections c st ->
  active (request_preemption now st) !! i = Some a ->
  exists ctl, controls (request_preemption now st) !! i = Some ctl
    /\ (pause ctl = true <->
        interrupted (request_preemption now st) (a_resources a) = true
        \/ exists j, j ∈ pending (request_preemption now st)
             /\ interrupted (request_preemption now st) (resources_of j) = false
             /\ prio (priority j) < prio (a_priority a)
             /\ contested (request_preemption now st) (resources_of j) (a_resources a)).
Proof.
  intros [I _]%running_Inv Ha.
  destruct (i_held _ (refresh_Inv now st I) i (a_resources a)) as (ctl & Hc & _).
  { apply held_lookup. by exists a. }
  exists (store_pause (asked (refresh_demand_priorities now st) a) ctl). split.
  - rewrite preemption_controls.
    change (active (request_preemption now st)) with (active (refresh_demand_priorities now st)) in Ha.
    rewrite Ha. change (controls (refresh_demand_priorities now st)) with (controls st) in Hc.
    by rewrite Hc.
  - exact (asked_spec (refresh_demand_priorities now st) a).
Qed.

(** The job admitted is the first of the order among those whose resources
    are free: none of them is more urgent, and of its own priority none has a
    lower count and rank. *)
Theorem admits_first st st' :
  dispatch_step st = Some st' ->
  exists i j, pending st !! i = Some j /\ available st (resources_of j) = true
    /\ st' = admit_job st i j
    /\ forall k a, pending st !! k = Some a -> available st (resources_of a) = true ->
         prio (priority j) <= prio (priority a)
         /\ (priority j = priority a ->
             snd (fst (order_key (pending st) (served st) (i, j)))
             <= snd (fst (order_key (pending st) (served st) (k, a)))).
Proof.
  intros (i & j & Hs & Hi & Hav & ->)%dispatch_step_Some. exists i, j. split_and!; try done.
  intros k a Hk Ha. pose proof (selected_least _ _ _ _ _ Hs Hk Ha) as H.
  unfold order_key in *. apply key3_le in H. cbn [fst snd]. split; [lia|].
  intros He. rewrite He in H |- *. lia.
Qed.
End Urgency.

(** ** Turns between owners *)

Lemma min_of_spec l m : min_of l = Some m -> m ∈ l /\ forall x, x ∈ l -> m <= x.
Proof.
  destruct l as [|a l]; simpl; [done|]. intros [= <-].
  revert a. induction l as [|b l IH]; intros a; simpl.
  - split; [left|]. intros x Hx%list_elem_of_singleton. lia.
  - destruct (IH (Z.min a b)) as [Hin Hmin]. split.
    + apply elem_of_cons in Hin as [->|Hin]; [|by do 2 right].
      destruct (Z.min_spec a b) as [[_ ->]|[_ ->]]; [left|right; left].
    + intros x. rewrite !elem_of_cons. intros [->|[->|Hx]].
      * etrans; [apply Hmin; left|apply Z.le_min_l].
      * etrans; [apply Hmin; left|apply Z.le_min_r].
      * apply Hmin. by right.
Qed.

Lemma join_level st p o a :
  existsb (same_queue p o) (pending st) = false -> a ∈ pending st -> priority a = p ->
  (forall j, j ∈ pending st -> priority j = p -> count_of (served st) a <= count_of (served st) j) ->
  count_of (served st) a <= served_count (served (join_service_level st p o)) (p, o)
  /\ count_of (served (join_service_level st p o)) a = count_of (served st) a.
Proof.
  intros Hf Ha Hp Hmin. unfold join_service_level. rewrite Hf.
  destruct (min_of _) as [m|] eqn:Hm.
  2:{ exfalso. destruct (map (count_of (served st)) _) eqn:Hl; [|done].
      apply map_eq_nil in Hl. assert (a ∈ List.filter (fun j => priority j ≟ p) (pending st)) as Hin.
      { apply elem_of_filter_bool. by rewrite bool_decide_eq_true_2. }
      rewrite Hl in Hin. by apply not_elem_of_nil in Hin. }
  apply min_of_spec in Hm as [Hin _]. apply list_elem_of_fmap in Hin as (j & -> & Hj).
  apply elem_of_filter_bool in Hj as [Hj Hjp%bool_decide_eq_true].
  specialize (Hmin j Hj Hjp). cbn [served with_served].
  split.
  - unfold served_count. rewrite lookup_insert_eq. cbn [from_option Datatypes.id]. lia.
  - unfold count_of. rewrite lookup_insert_ne; [done|]. intros [= _ Ho].
    apply not_true_iff_false in Hf. apply Hf, existsb_elem. exists a. split; [done|].
    unfold same_queue. by rewrite !bool_decide_eq_true_2.
Qed.

(** An owner that joins a queue where others wait gets one turn, not a
    backlog of them: however many jobs it brings, at most one of them (and one
    more for each older job of the same owner) is ordered before a job of the
    owner that has been served least. *)
Theorem late_joiner_one_turn st p o a l l1 ia l2 :
  existsb (same_queue p o) (pending st) = false -> a ∈ pending st -> priority a = p ->
  (forall j, j ∈ pending st -> priority j = p -> count_of (served st) a <= count_of (served st) j) ->
  NoDup (map sequence l) ->
  fair_order l (served (join_service_level st p o)) = l1 ++ (ia, a) :: l2 ->
  count_key (p, o) l1 <= Z.of_nat (older l a) + 1.
Proof.
  intros Hf Ha Hp Hmin Hnd Ho. destruct (join_level st p o a Hf Ha Hp Hmin) as [Hle Heq].
  pose proof (overtaking _ _ _ _ _ _ o Hnd Ho) as H. rewrite Hp, Heq in H. lia.
Qed.

(** ** Cancellation *)

Definition flag (st : State) (i : Z) : option bool := cancelled <$> controls st !! i.

Lemma settle_flag now now' st i : flag (settle now now' st) i = flag st i.
Proof.
  unfold settle, dispatch.
  transitivity (flag (refresh_demand_priorities now' (request_preemption now st)) i).
  - apply (loop_ind (fun s => flag s i = flag (refresh_demand_priorities now' (request_preemption now st)) i)); [|done].
    intros s s' <- (k & j & _ & _ & _ & ->)%dispatch_step_Some. unfold flag.
    cbn [admit_job controls with_active with_controls with_served with_pending].
    destruct (decide (id j = i)) as [<-|Hne]; [|by rewrite lookup_alter_ne].
    rewrite lookup_alter_eq. by destruct (controls s !! id j).
  - unfold flag. change (controls (refresh_demand_priorities now' (request_preemption now st)))
      with (controls (request_preemption now st)).
    rewrite preemption_controls. destruct (active _ !! i); [|done]. by destruct (controls st !! i).
Qed.

Lemma settle_owner now now' st j :
  j ∈ pending (settle now now' st) -> exists j0, j0 ∈ pending st /\ id j0 = id j /\ owner j0 = owner j.
Proof.
  unfold settle, dispatch.
  set (s1 := refresh_demand_priorities now' (request_preemption now st)).
  assert (forall n, forall k, k ∈ pending (dispatch_loop n s1) -> k ∈ pending s1) as H.
  { intros n. apply (loop_ind (fun s => forall k, k ∈ pending s -> k ∈ pending s1)); [|done].
    intros s s' Hs (i & x & _ & Hi & _ & ->)%dispatch_step_Some k Hk. apply Hs.
    rewrite (swap_remove_perm _ _ _ Hi). by right. }
  intros Hj%H. unfold s1 in Hj.
  apply list_elem_of_fmap in Hj as (j1 & -> & Hj). apply list_elem_of_fmap in Hj as (j0 & -> & Hj).
  by exists j0.
Qed.

Lemma cancelled_fold l (cs : gmap Z Control) j :
  j ∈ l -> is_Some (cs !! id j) ->
  cancelled <$> foldl (fun cs j => alter (store_cancelled true) (id j) cs) cs l !! id j = Some true.
Proof.
  revert cs. induction l as [|k l IH]; intros cs Hj [c Hc]; [by apply not_elem_of_nil in Hj|].
  cbn [foldl]. assert (forall cs' : gmap Z Control, (cancelled <$> cs' !! id j) = Some true ->
    cancelled <$> foldl (fun cs j => alter (store_cancelled true) (id j) cs) cs' l !! id j = Some true) as Hkeep.
  { clear. induction l as [|m l IH]; intros cs' H; [done|]. cbn [foldl]. apply IH.
    destruct (decide (id m = id j)) as [->|Hne]; [|by rewrite lookup_alter_ne].
    rewrite lookup_alter_eq. by destruct (cs' !! id j). }
  apply elem_of_cons in Hj as [->|Hj].
  - apply Hkeep. by rewrite lookup_alter_eq, Hc.
  - apply IH; [done|]. destruct (decide (id k = id j)) as [->|Hne].
    + rewrite lookup_alter_eq, Hc. by eexists.
    + rewrite lookup_alter_ne by done. by exists c.
Qed.

Lemma cancelled_frame l (cs : gmap Z Control) i :
  (forall j, j ∈ l -> id j <> i) ->
  foldl (fun cs j => alter (store_cancelled true) (id j) cs) cs l !! i = cs !! i.
Proof.
  revert cs. induction l as [|k l IH]; intros cs H; [done|]. cbn [foldl]. rewrite IH.
  - rewrite lookup_alter_ne; [done|]. apply H. left.
  - intros j Hj. apply H. by right.
Qed.

(** Cancelling an owner leaves none of its jobs waiting, tells every one of
    them, waiting or running, that it is cancelled, forgets its hints, and does
    not cancel anybody else's running job. *)
Theorem cancel_exact digest device collections c st now now' o st' :
  running digest device collections c st -> st' = cancel_owner now now' st o ->
  (forall j, j ∈ pending st' -> owner j <> Some o)
  /\ (forall j, j ∈ pending st -> owner j = Some o -> wait_poll st' (id j) = Cancelled)
  /\ (forall i a, active st !! i = Some a ->
        (a_owner a = Some o -> fst (checkpoint now now' st' i) = Cancelled)
        /\ (a_owner a <> Some o -> flag st' i = flag st i)).
Proof.
  intros [I _]%running_Inv He. unfold cancel_owner in He. set (s1 := cancel_jobs st o) in He.
  set (cs := foldl (fun cs j => alter (store_cancelled true) (id j) cs) (controls st)
               (List.filter (fun j => owned_by o (owner j)) (pending st))).
  assert (Hp1 : pending s1 = List.filter (fun j => negb (owned_by o (owner j))) (pending st)) by reflexivity.
  assert (Hc1 : controls s1 = for_controls (fun a c => if owned_by o (a_owner a)
      then store_pause true (store_cancelled true c) else c) (active st) cs) by reflexivity.
  clearbody s1.
  assert (Hw : forall j, j ∈ pending st -> held st !! id j = None /\ is_Some (controls st !! id j)).
  { intros j Hj. assert (id j ∈ (waiting st).*1) as Hin.
    { unfold waiting. apply list_elem_of_fmap. exists (id j, resources_of j). split; [done|].
      apply list_elem_of_fmap. by exists j. }
    split; [by apply (i_apart st I)|]. destruct (i_waiting st I _ Hin) as (ctl & Hc & _). by exists ctl. }
  assert (Hpoll : forall i, flag s1 i = Some true -> exists ctl,
    controls st' !! i = Some ctl /\ cancelled ctl = true).
  { intros i H. rewrite He. rewrite <- (settle_flag now now' s1 i) in H. unfold flag in H.
    apply fmap_Some in H as (ctl & Hc & Ht). by exists ctl. }
  split_and!.
  - intros j Hj. rewrite He in Hj. apply settle_owner in Hj as (j0 & Hj0 & _ & <-).
    rewrite Hp1 in Hj0. apply elem_of_filter_bool in Hj0 as [_ Hn]. unfold owned_by in Hn.
    by apply negb_true_iff, bool_decide_eq_false in Hn.
  - intros j Hj Ho. destruct (Hw j Hj) as [Hh Hsome].
    destruct (Hpoll (id j)) as (ctl & Hc & Ht).
    { unfold flag. rewrite Hc1.
      rewrite for_controls_lookup. unfold held in Hh. rewrite lookup_fmap in Hh.
      destruct (active st !! id j); [done|]. apply cancelled_fold; [|done].
      apply elem_of_filter_bool. split; [done|]. by apply bool_decide_eq_true_2. }
    unfold wait_poll. by rewrite Hc, Ht.
  - intros i a Ha. destruct (i_held st I i (a_resources a)) as (ctl & Hc & _);
      [apply held_lookup; by exists a|].
    destruct (alter_cancelled (List.filter (fun j => owned_by o (owner j)) (pending st)) (controls st) i)
      as (b & Hb & _). fold cs in Hb. rewrite Hc in Hb. split.
    + intros Ho. destruct (Hpoll i) as (ctl' & Hc' & Ht).
      { unfold flag. rewrite Hc1.
        rewrite for_controls_lookup, Ha, Hb. simpl. unfold owned_by.
        by rewrite bool_decide_eq_true_2. }
      unfold checkpoint. by rewrite Hc', Ht.
    + intros Ho. rewrite He, settle_flag. unfold flag. rewrite Hc1.
      rewrite for_controls_lookup, Ha. unfold owned_by. rewrite bool_decide_eq_false_2 by done.
      unfold cs. rewrite cancelled_frame; [by destruct (controls st !! i)|].
      intros j Hj <-. apply elem_of_filter_bool in Hj as [Hj _]. destruct (Hw j Hj) as [Hh _].
      unfold held in Hh. by rewrite lookup_fmap, Ha in Hh.
Qed.

(** ** Concrete runs *)

(** One collection on one device, one CPU slot. *)
Definition no_digest (_ : string) : string := EmptyString.
Definition no_device (_ : string) : option string := None.
Definition start : State :=
  match scheduler_new no_digest no_device [["/m"]] config_default with
  | Ok (st, _) => st | Err _ => mkState 0 0 0 ∅ [] ∅ ∅ ∅ ∅ ∅ end%string.
Definition decode : Resources := mkResources 1 {[FALLBACK_DOMAIN]} ∅.
Definition queue_job (p : Priority) (o : string) (st : State) : State :=
  snd (acquire 0 0 st p decode (Some o)).
(** A loudness job runs; a keyframe job and another loudness job wait. *)
Definition busy : State :=
  queue_job Loudness "b" (queue_job Keyframes "a" (queue_job Loudness "a" start)).

Lemma start_new :
  exists roots, scheduler_new no_digest no_device [["/m"%string]] config_default = Ok (start, roots).
Proof. by eexists. Defined.

Lemma queue_job_step p o st : prompt_step st (queue_job p o st).
Proof. exists 0. apply (step_acquire 0 0 st p decode (Some o) ∅). constructor. Defined.

Lemma busy_prompt : rtc prompt_step start busy.
Proof.
  unfold busy. apply (rtc_l _ _ _ _ (queue_job_step Loudness "a" start)).
  apply (rtc_l _ _ _ _ (queue_job_step Keyframes "a" _)).
  apply (rtc_l _ _ _ _ (queue_job_step Loudness "b" _)). apply rtc_refl.
Defined.

Lemma prompt_reachable st0 st : rtc prompt_step st0 st -> reachable st0 st.
Proof.
  intros H. induction H as [x|x y z [now Hs] _ IH]; [apply rtc_refl|].
  apply (rtc_l _ x y z); [by exists now, now|exact IH].
Defined.

Lemma busy_running : running no_digest no_device [["/m"%string]] config_default busy.
Proof.
  destruct start_new as [roots H]. exists start, roots.
  exact (conj H (prompt_reachable _ _ busy_prompt)).
Defined.

Definition m_roots : list (list string) := [["/m"%string]].

(** A loudness job runs and was asked to stop; the keyframe job waits for it. *)
Example busy_view :
  map (fun '(i, a) => (i, a_priority a)) (map_to_list (active busy)) = [(1, Loudness)]
  /\ map (fun j => (id j, priority j)) (pending busy) = [(2, Keyframes); (3, Loudness)]
  /\ pause <$> controls busy !! 1 = Some true.
Proof. by vm_compute. Qed.

Lemma admission_sound_witness : (cpu_held (held busy) <= cpu_capacity busy)%nat /\ NoDup (tickets busy).*1.
Proof.
  destruct (admission_sound no_digest no_device m_roots config_default busy busy_running) as (H & _ & _ & _ & Ht & _). by split.
Defined.

Lemma permits_faithful_witness : tickets busy = [(2, 2); (3, 3); (1, 1)] /\ NoDup (tickets busy).*2.
Proof.
  destruct (permits_faithful no_digest no_device m_roots config_default busy busy_running) as (_ & H & _).
  split; [vm_compute; reflexivity|exact H].
Defined.

Lemma queue_drains_witness :
  exists st', finishing 3 busy st' /\ pending st' = [] /\ active st' = ∅.
Proof.
  assert (jobs busy = 3%nat) as <- by (by vm_compute).
  exact (proj2 (queue_drains no_digest no_device m_roots config_default busy busy_running
                  ltac:(by vm_compute))).
Defined.

Definition waiting_job (n : nat) : Pending :=
  match pending busy !! n with
  | Some j => j
  | None => mkPending 0 0 Demand Demand decode None ∅
  end.

Lemma waiting_job_in n : (n < 2)%nat -> waiting_job n ∈ pending busy.
Proof.
  intros H. apply (list_elem_of_lookup_2 _ n). destruct n as [|[|n]]; [by vm_compute|by vm_compute|lia].
Defined.

Lemma no_priority_inversion_witness :
  exists i a, active busy !! i = Some a
    /\ contested busy (resources_of (waiting_job 0)) (a_resources a)
    /\ (prio (a_priority a) <= prio (priority (waiting_job 0))
        \/ exists c, controls busy !! i = Some c /\ pause c = true).
Proof.
  destruct start_new as [roots H].
  exact (no_priority_inversion no_digest no_device m_roots config_default start roots busy
           (waiting_job 0) H busy_prompt (waiting_job_in 0 ltac:(lia)) ltac:(by vm_compute)).
Defined.

Definition running_job : Active := mkActive Loudness Loudness decode (Some "a"%string) 1 ∅.

Lemma preemption_exact_witness :
  exists ctl, controls (request_preemption 0 busy) !! 1 = Some ctl
    /\ (pause ctl = true <->
        interrupted (request_preemption 0 busy) decode = true
        \/ exists j, j ∈ pending (request_preemption 0 busy)
             /\ interrupted (request_preemption 0 busy) (resources_of j) = false
             /\ prio (priority j) < prio Loudness
             /\ contested (request_preemption 0 busy) (resources_of j) decode).
Proof.
  exact (preemption_exact no_digest no_device m_roots config_default busy 0 1 running_job busy_running
           ltac:(by vm_compute)).
Defined.

(** The running job gone, its slot not yet given away. *)
Definition vacant : State := with_active busy ∅.

Lemma admits_first_witness :
  exists i j, pending vacant !! i = Some j /\ available vacant (resources_of j) = true
    /\ admit_job vacant 0 (waiting_job 0) = admit_job vacant i j
    /\ forall k a, pending vacant !! k = Some a -> available vacant (resources_of a) = true ->
         prio (priority j) <= prio (priority a)
         /\ (priority j = priority a ->
             snd (fst (order_key (pending vacant) (served vacant) (i, j)))
             <= snd (fst (order_key (pending vacant) (served vacant) (k, a)))).
Proof. apply admits_first. by vm_compute. Defined.

Lemma late_joiner_one_turn_witness :
  let l := pending busy ++ [mkPending 7 7 Loudness Loudness decode (Some "c"%string) ∅;
                            mkPending 8 8 Loudness Loudness decode (Some "c"%string) ∅] in
  fair_order l (served (join_service_level busy Loudness (Some "c"%string)))
  = take 1 (fair_order l (served (join_service_level busy Loudness (Some "c"%string))))
    ++ (1%nat, waiting_job 1)
       :: drop 2 (fair_order l (served (join_service_level busy Loudness (Some "c"%string))))
  /\ count_key (Loudness, Some "c"%string)
       (take 1 (fair_order l (served (join_service_level busy Loudness (Some "c"%string)))))
     <= Z.of_nat (older l (waiting_job 1)) + 1.
Proof.
  intros l. split; [by vm_compute|].
  apply (late_joiner_one_turn busy Loudness (Some "c"%string) (waiting_job 1) l _ 1
           (drop 2 (fair_order l (served (join_service_level busy Loudness (Some "c"%string)))))).
  - by vm_compute.
  - apply waiting_job_in. lia.
  - by vm_compute.
  - assert (forallb (fun j => negb (priority j ≟ Loudness)
        || (count_of (served busy) (waiting_job 1) <=? count_of (served busy) j)) (pending busy) = true)
      as H by (by vm_compute).
    rewrite forallb_elem in H. intros j Hj Hp. specialize (H j Hj).
    rewrite (bool_decide_eq_true_2 _ Hp) in H. by apply Z.leb_le.
  - apply (bool_decide_unpack _). by vm_compute.
  - by vm_compute.
Defined.

Lemma cancel_exact_witness :
  Forall (fun j => owner j <> Some "a"%string) (pending (cancel_owner 0 0 busy "a")).
Proof.
  apply Forall_forall.
  exact (proj1 (cancel_exact no_digest no_device m_roots config_default busy 0 0 "a" _ busy_running eq_refl)).
Defined.

(** ** Where turns are not kept *)

(** End the running job. *)
Definition finish_running (st : State) : State :=
  match map_to_list (active st) with (i, _) :: _ => finish_job 0 0 st i | [] => st end.
(** The owners admitted as the running jobs end one by one. *)
Fixpoint admissions (n : nat) (st : State) : list (option string) :=
  match n with
  | O => []
  | S n => map a_owner (values (active st)) ++ admissions n (finish_running st)
  end.

(** A segment job whose one source, [path], is hinted by its owner at once. *)
Definition hinted_job (o path : string) (st : State) : State :=
  hint_segment 0 0 0
    (snd (acquire_segments 0 0 st decode (Some o) "c" [Some ("r"%string, path)]))
    o "c" "r" path 60.

(** A hint moves a waiting job to [Demand] without joining its owner at that
    priority's service level. Owner "a" has had four demand jobs admitted and
    has two waiting when "b" brings three: all three of "b" precede them. *)
Definition demand_queue : State :=
  let st := finish_running (finish_running (finish_running
    (hinted_job "a" "4" (hinted_job "a" "3" (hinted_job "a" "2" (hinted_job "a" "1" start)))))) in
  let st := hinted_job "a" "6" (hinted_job "a" "5" st) in
  hinted_job "b" "9" (hinted_job "b" "8" (hinted_job "b" "7" st)).
Theorem hint_bypasses_turns :
  admissions 6 demand_queue
  = map Some ["a"; "b"; "b"; "b"; "a"; "a"]%string.
Proof. by vm_compute. Qed.
