(* ===== verification/Utf8.v ===== *)
(** * Text decoding as the standard library does it

    Strings are their UTF-8 bytes. [chunk] is one step of the decoder: the
    length of the next character, or of the maximal invalid prefix that one
    replacement character stands for. *)
From S2P Require Import Prelude.

#[local] Open Scope Z_scope.

Notation bytes := (list Z).

Definition is_byte (b : Z) : bool := (0 <=? b) && (b <? 256).
Definition all_bytes (l : bytes) : Prop := Forall (fun b => 0 <= b < 256) l.

Definition char_of (b : Z) : Ascii.ascii := Ascii.ascii_of_N (Z.to_N b).
Definition string_of_bytes (l : bytes) : string :=
  fold_right (fun b s => String (char_of b) s) EmptyString l.
Fixpoint bytes_of_string (s : string) : bytes :=
  match s with
  | EmptyString => []
  | String a s => Z.of_N (Ascii.N_of_ascii a) :: bytes_of_string s
  end.

Definition between (lo hi b : Z) : bool := (lo <=? b) && (b <=? hi).
Definition cont (b : Z) : bool := between 0x80 0xBF b.

(** What the second byte may be after the first, and the character's length. *)
Definition lead (b : Z) : option (nat * (Z -> bool)) :=
  if b <? 0x80 then Some (1%nat, cont)
  else if between 0xC2 0xDF b then Some (2%nat, cont)
  else if b =? 0xE0 then Some (3%nat, between 0xA0 0xBF)
  else if between 0xE1 0xEC b then Some (3%nat, cont)
  else if b =? 0xED then Some (3%nat, between 0x80 0x9F)
  else if between 0xEE 0xEF b then Some (3%nat, cont)
  else if b =? 0xF0 then Some (4%nat, between 0x90 0xBF)
  else if between 0xF1 0xF3 b then Some (4%nat, cont)
  else if b =? 0xF4 then Some (4%nat, between 0x80 0x8F)
  else None.

(** How many of the next [n] bytes continue the character, the first of them
    under [second]. *)
Fixpoint continue_run (n : nat) (second : Z -> bool) (l : bytes) : nat :=
  match n, l with
  | S n, b :: l => if second b then S (continue_run n cont l) else O
  | _, _ => O
  end.

(** [(valid, length)] of the next step; the length is positive. *)
Definition chunk (first : Z) (rest : bytes) : bool * nat :=
  match lead first with
  | None => (false, 1%nat)
  | Some (n, second) =>
      let k := continue_run (n - 1) second rest in
      ((k =? n - 1)%nat, S k)
  end.

Definition REPLACEMENT : bytes := [0xEF; 0xBF; 0xBD].

Fixpoint lossy_fuel (fuel : nat) (l : bytes) : bytes :=
  match fuel, l with
  | S fuel, first :: rest =>
      let '(valid, n) := chunk first rest in
      (if valid then take n l else REPLACEMENT) ++ lossy_fuel fuel (drop n l)
  | _, _ => []
  end.
(** [String::from_utf8_lossy]. *)
Definition from_utf8_lossy (l : bytes) : bytes := lossy_fuel (length l) l.

Fixpoint valid_fuel (fuel : nat) (l : bytes) : bool :=
  match fuel, l with
  | _, [] => true
  | S fuel, first :: rest =>
      let '(valid, n) := chunk first rest in valid && valid_fuel fuel (drop n l)
  | O, _ => false
  end.
(** Whether [std::str::from_utf8] accepts. *)
Definition valid_utf8 (l : bytes) : bool := valid_fuel (length l) l.

(** [b as char], encoded. *)
Definition latin1_char (b : Z) : bytes :=
  if b <? 0x80 then [b] else [Z.lor 0xC0 (Z.shiftr b 6); Z.lor 0x80 (Z.land b 0x3F)].
Definition latin1 (l : bytes) : bytes := mjoin (map latin1_char l).

(** ** What decoding returns is text *)

Lemma chunk_length first rest : (1 <= snd (chunk first rest) <= length (first :: rest))%nat.
Proof.
  unfold chunk. destruct (lead first) as [[n second]|]; simpl; [|lia].
  assert (forall n second l, continue_run n second l <= length l)%nat as H.
  { clear. induction n as [|n IH]; intros second [|b l]; simpl; try lia.
    destruct (second b); [|lia]. specialize (IH cont l). lia. }
  specialize (H (n - 1)%nat second rest). lia.
Qed.

(** A valid step is valid whatever follows it. *)
Lemma continue_run_prefix n second l k :
  continue_run n second l = n -> (n <= k)%nat -> continue_run n second (take k l) = n.
Proof.
  revert second l k. induction n as [|n IH]; intros second [|b l] k; simpl; try done.
  intros H Hk. destruct k as [|k]; [lia|]. simpl. destruct (second b); [|done].
  f_equal. apply IH; [by injection H|lia].
Qed.
Lemma continue_run_app n second l l' :
  continue_run n second l = n -> continue_run n second (l ++ l') = n.
Proof.
  revert second l. induction n as [|n IH]; intros second [|b l]; simpl; try done.
  destruct (second b); [|done]. intros H. f_equal. apply IH. by injection H.
Qed.

Lemma chunk_char first rest :
  fst (chunk first rest) = true ->
  exists tail, take (snd (chunk first rest)) (first :: rest) = first :: tail
    /\ forall l, chunk first (tail ++ l) = (true, S (length tail)).
Proof.
  unfold chunk. destruct (lead first) as [[n second]|]; simpl; [|done]. intros Hn%Nat.eqb_eq.
  exists (take (n - 1) rest). rewrite Hn. split; [done|]. intros l.
  assert (length (take (n - 1) rest) = (n - 1)%nat) as Hlen.
  { rewrite length_take. assert (forall n second l, continue_run n second l <= length l)%nat as H.
    { clear. induction n as [|n IH]; intros second [|b l]; simpl; try lia.
      destruct (second b); [|lia]. specialize (IH cont l). lia. }
    specialize (H (n - 1)%nat second rest). lia. }
  rewrite continue_run_app by (by apply continue_run_prefix). by rewrite Nat.eqb_refl, Hlen.
Qed.

Lemma valid_fuel_more fuel l : (length l <= fuel)%nat -> valid_fuel fuel l = valid_utf8 l.
Proof.
  unfold valid_utf8. remember (length l) as m eqn:Hm. rewrite Hm. revert fuel l Hm.
  induction m as [m IH] using lt_wf_ind. intros fuel [|first rest] Hm Hf; [by destruct fuel|].
  destruct fuel as [|fuel]; [simpl in Hf; lia|]. cbn [valid_fuel length].
  pose proof (chunk_length first rest) as Hc. destruct (chunk first rest) as [v n]. cbn [snd] in Hc.
  destruct v; [|done]. cbn [andb].
  assert (length (drop n (first :: rest)) < m)%nat as Hlt by (rewrite length_drop; simpl in *; lia).
  rewrite (IH _ Hlt fuel) by (try done; rewrite length_drop; simpl in *; lia).
  symmetry. apply (IH _ Hlt); [done|]. rewrite length_drop. simpl in *. lia.
Qed.

Lemma valid_char first rest l :
  fst (chunk first rest) = true ->
  valid_utf8 (take (snd (chunk first rest)) (first :: rest) ++ l) = valid_utf8 l.
Proof.
  intros Hv. destruct (chunk_char first rest Hv) as (tail & -> & Hc).
  unfold valid_utf8 at 1. cbn [app length valid_fuel]. rewrite Hc.
  replace (S (length tail)) with (length (first :: tail)) by done.
  change (first :: tail ++ l) with ((first :: tail) ++ l). rewrite drop_app_length.
  cbn [andb]. apply valid_fuel_more. rewrite length_app. lia.
Qed.

Lemma valid_replacement l : valid_utf8 (REPLACEMENT ++ l) = valid_utf8 l.
Proof. exact (valid_char 0xEF [0xBF; 0xBD] l eq_refl). Qed.

Lemma lossy_valid_fuel fuel l : valid_utf8 (lossy_fuel fuel l) = true.
Proof.
  revert l. induction fuel as [|fuel IH]; intros [|first rest]; try done.
  cbn [lossy_fuel]. destruct (chunk first rest) as [v n] eqn:Hc. destruct v.
  - pose proof (valid_char first rest (lossy_fuel fuel (drop n (first :: rest)))) as H.
    rewrite Hc in H. cbn [fst snd] in H. by rewrite H.
  - by rewrite valid_replacement.
Qed.

(** Lossy decoding always yields text, and leaves text alone. *)
Lemma from_utf8_lossy_valid l : valid_utf8 (from_utf8_lossy l) = true.
Proof. apply lossy_valid_fuel. Qed.

Lemma lossy_id_fuel fuel l : (length l <= fuel)%nat -> valid_utf8 l = true -> lossy_fuel fuel l = l.
Proof.
  revert l. induction fuel as [|fuel IH]; intros [|first rest] Hf; try done; [simpl in Hf; lia|].
  unfold valid_utf8. cbn [valid_fuel length lossy_fuel].
  pose proof (chunk_length first rest) as Hc. destruct (chunk first rest) as [v n]. cbn [snd] in Hc.
  destruct v; [|done]. cbn [andb]. intros Hv.
  assert (length (drop n (first :: rest)) <= length rest)%nat as Hl
    by (rewrite length_drop; simpl; lia).
  rewrite valid_fuel_more in Hv by done.
  rewrite IH; [by rewrite take_drop|simpl in Hf; lia|done].
Qed.
Lemma from_utf8_lossy_id l : valid_utf8 l = true -> from_utf8_lossy l = l.
Proof. by apply lossy_id_fuel. Qed.

Lemma string_of_bytes_app l l' :
  string_of_bytes (l ++ l') = (string_of_bytes l ++ string_of_bytes l')%string.
Proof. induction l as [|b l IH]; simpl; [done|by rewrite IH]. Qed.

Lemma bytes_of_string_of l : all_bytes l -> bytes_of_string (string_of_bytes l) = l.
Proof.
  induction 1 as [|b l Hb _ IH]; simpl; [done|]. f_equal; [|done].
  unfold char_of. rewrite Ascii.N_ascii_embedding; [lia|]. lia.
Qed.

Lemma string_of_bytes_of s : string_of_bytes (bytes_of_string s) = s.
Proof.
  induction s as [|a s IH]; simpl; [done|]. f_equal; [|done].
  unfold char_of. by rewrite N2Z.id, Ascii.ascii_N_embedding.
Qed.
