(* ===== verification/Text.v ===== *)
(** * Text: strings as the standard library takes them apart

    A [&str] is its UTF-8 bytes. An operation that looks for ASCII characters
    only works on the bytes: none of them occurs inside the encoding of another
    character. Where the source asks about characters in general, [chars] cuts
    the bytes into characters. *)
From Stdlib Require Import DecimalString.
From S2P Require Import Prelude.

#[local] Open Scope Z_scope.

(** ** Character classes (ASCII) *)

Definition code (a : Ascii.ascii) : N := Ascii.N_of_ascii a.
Definition is_digit (a : Ascii.ascii) : bool := is_some (digit a).
Definition is_lower (a : Ascii.ascii) : bool := ((97 <=? code a) && (code a <=? 122))%N.
Definition is_upper (a : Ascii.ascii) : bool := ((65 <=? code a) && (code a <=? 90))%N.
Definition is_alphabetic (a : Ascii.ascii) : bool := is_lower a || is_upper a.
Definition is_alphanumeric (a : Ascii.ascii) : bool := is_alphabetic a || is_digit a.
Definition one_of (l : list N) (a : Ascii.ascii) : bool := existsb (N.eqb (code a)) l.

Definition ascii_upper (a : Ascii.ascii) : Ascii.ascii :=
  if is_lower a then Ascii.ascii_of_N (code a - 32) else a.
Fixpoint to_ascii_uppercase (s : string) : string :=
  match s with
  | EmptyString => EmptyString
  | String a s => String (ascii_upper a) (to_ascii_uppercase s)
  end.

(** [s.chars().all(P)] and [s.chars().any(P)] for an ASCII class [P]. *)
Fixpoint str_all (P : Ascii.ascii -> bool) (s : string) : bool :=
  match s with EmptyString => true | String a s => P a && str_all P s end.
Definition str_any (P : Ascii.ascii -> bool) (s : string) : bool := negb (str_all (fun a => negb (P a)) s).

(** ** Cutting *)

(** [split_once] at a substring, [split] at a non-empty one. *)
Fixpoint split_once_str (p s : string) : option (string * string) :=
  match strip_prefix p s with
  | Some rest => Some (EmptyString, rest)
  | None =>
      match s with
      | EmptyString => None
      | String a s => '(l, r) ← split_once_str p s; Some (String a l, r)
      end
  end.
Fixpoint split_str_fuel (fuel : nat) (p s : string) : list string :=
  match fuel with
  | O => [s]
  | S fuel =>
      match split_once_str p s with
      | Some (l, r) => l :: split_str_fuel fuel p r
      | None => [s]
      end
  end.
Definition split_str (p s : string) : list string := split_str_fuel (String.length s) p s.

(** [strip_prefix] and [split_once] at a class, [split] at a class. *)
Definition strip_char (P : Ascii.ascii -> bool) (s : string) : option string :=
  match s with
  | EmptyString => None
  | String a s => if P a then Some s else None
  end.
Fixpoint split_once_by (P : Ascii.ascii -> bool) (s : string) : option (string * string) :=
  match s with
  | EmptyString => None
  | String a s =>
      if P a then Some (EmptyString, s)
      else '(l, r) ← split_once_by P s; Some (String a l, r)
  end.
Fixpoint split_by (P : Ascii.ascii -> bool) (s : string) : list string :=
  match s with
  | EmptyString => [EmptyString]
  | String a s =>
      if P a then EmptyString :: split_by P s
      else match split_by P s with
           | [] => [String a EmptyString]
           | w :: ws => String a w :: ws
           end
  end.
Definition not_empty (s : string) : bool := negb (s =s EmptyString).

(** The longest prefix in a class and the rest. *)
Fixpoint span (P : Ascii.ascii -> bool) (s : string) : string * string :=
  match s with
  | EmptyString => (EmptyString, EmptyString)
  | String a r =>
      if P a then let '(l, r) := span P r in (String a l, r) else (EmptyString, s)
  end.
(** What comes before the longest suffix in a class, and that suffix. *)
Fixpoint span_end (P : Ascii.ascii -> bool) (s : string) : string * string :=
  match s with
  | EmptyString => (EmptyString, EmptyString)
  | String a r =>
      match span_end P r with
      | (EmptyString, t) => if P a then (EmptyString, String a t) else (String a EmptyString, t)
      | (l, t) => (String a l, t)
      end
  end.
(** [trim_start_matches], [trim_end_matches], [trim_matches]. *)
Definition trim_start_by (P : Ascii.ascii -> bool) (s : string) : string := snd (span P s).
Definition trim_end_by (P : Ascii.ascii -> bool) (s : string) : string := fst (span_end P s).
Definition trim_by (P : Ascii.ascii -> bool) (s : string) : string := trim_end_by P (trim_start_by P s).

(** The string without its last byte. *)
Fixpoint init (s : string) : string :=
  match s with
  | EmptyString | String _ EmptyString => EmptyString
  | String a s => String a (init s)
  end.
(** [replace(c, _)] by nothing, and by another character where a class holds. *)
Fixpoint remove_char (c : Ascii.ascii) (s : string) : string :=
  match s with
  | EmptyString => EmptyString
  | String a s => if Ascii.eqb a c then remove_char c s else String a (remove_char c s)
  end.
Fixpoint map_char (f : Ascii.ascii -> Ascii.ascii) (s : string) : string :=
  match s with EmptyString => EmptyString | String a s => String (f a) (map_char f s) end.

(** ** White space *)

(** The length of the white-space character a string starts with, or 0. *)
Definition ws_len (s : string) : nat :=
  match trim1_start s with
  | Some rest => String.length s - String.length rest
  | None => 0
  end.
Definition flush (cur : string) : list string := if cur =s EmptyString then [] else [cur].
(** [split_whitespace]; [skip] bytes of a white-space character are left. *)
Fixpoint words_from (skip : nat) (cur s : string) : list string :=
  match s with
  | EmptyString => flush cur
  | String a r =>
      match skip with
      | S skip => words_from skip cur r
      | O =>
          match ws_len s with
          | S n => flush cur ++ words_from n EmptyString r
          | O => words_from O (cur +:+ String a EmptyString) r
          end
      end
  end.
Definition split_whitespace (s : string) : list string := words_from O EmptyString s.
Fixpoint contains_whitespace (s : string) : bool :=
  match s with
  | EmptyString => false
  | String _ r => (0 <? ws_len s)%nat || contains_whitespace r
  end.

(** ** Characters: a byte that continues nothing and its continuation bytes *)

Definition is_cont (a : Ascii.ascii) : bool := ((128 <=? code a) && (code a <=? 191))%N.
Fixpoint chars (s : string) : list string :=
  match s with
  | EmptyString => []
  | String a s =>
      match chars s with
      | String b r :: cs =>
          if is_cont b then String a (String b r) :: cs else String a EmptyString :: String b r :: cs
      | cs => String a EmptyString :: cs
      end
  end.

(** ** Facts *)

Lemma cons_app a (s t : string) : (String a s +:+ t = String a (s +:+ t))%string.
Proof. reflexivity. Qed.
Lemma empty_app (t : string) : (EmptyString +:+ t = t)%string.
Proof. reflexivity. Qed.
Lemma str_all_app P s t : str_all P (s +:+ t) = str_all P s && str_all P t.
Proof. induction s as [|a s IH]; [done|]. rewrite cons_app. simpl. by rewrite IH, andb_assoc. Qed.
Lemma str_all_impl (P Q : Ascii.ascii -> bool) s :
  (forall a, P a = true -> Q a = true) -> str_all P s = true -> str_all Q s = true.
Proof.
  intros H. induction s as [|a s IH]; simpl; [done|]. intros [Ha Hs]%andb_true_iff. by rewrite (H a Ha), IH.
Qed.
Lemma app_assoc_s (a b c : string) : ((a +:+ b) +:+ c = a +:+ (b +:+ c))%string.
Proof. induction a as [|x a IH]; [done|]. rewrite !cons_app. by f_equal. Qed.
Lemma app_nil_s (a : string) : (a +:+ EmptyString)%string = a.
Proof. induction a as [|x a IH]; [done|]. rewrite cons_app. by f_equal. Qed.
Lemma length_app_s (a b : string) : String.length (a +:+ b) = (String.length a + String.length b)%nat.
Proof. induction a as [|x a IH]; [done|]. rewrite cons_app. simpl. by rewrite IH. Qed.
(** Every byte value, for facts about single characters. *)
Lemma byte_cases (P : Ascii.ascii -> bool) :
  forallb (fun n => P (Ascii.ascii_of_nat n)) (seq 0 256) = true -> forall a, P a = true.
Proof.
  rewrite forallb_forall. intros H a. rewrite <- (Ascii.ascii_nat_embedding a). apply H.
  apply in_seq. pose proof (Ascii.nat_ascii_bounded a). lia.
Qed.
(** Digits and timestamps are none of the characters the parsers look for. *)
Lemma digit_plain c :
  is_digit c = false -> forall s, str_all is_digit s = true -> str_mem_char c s = false.
Proof.
  intros Hc s. induction s as [|a s IH]; simpl; [done|]. intros [Ha Hs]%andb_true_iff.
  rewrite IH by done. destruct (Ascii.eqb_spec a c) as [->|]; [congruence|done].
Qed.
Lemma mem_char_app c s t : str_mem_char c (s +:+ t) = str_mem_char c s || str_mem_char c t.
Proof. induction s as [|a s IH]; [done|]. rewrite cons_app. simpl. by rewrite IH, orb_assoc. Qed.
Lemma show_is_digits z : str_all is_digit (show z) = true.
Proof.
  destruct (show_digits z) as (d & -> & _). induction d; cbn [NilEmpty.string_of_uint str_all]; try done.
Qed.
Lemma show_not_empty z : exists a s, show z = String a s /\ is_digit a = true.
Proof.
  destruct (show_digits z) as (d & -> & Hd & _). destruct d; try done; cbn; eexists _, _; (split; [reflexivity|done]).
Qed.
Lemma parse_uint_digits maxv a s :
  is_digit a = true -> parse_uint maxv (String a s) = parse_digits maxv 0 (String a s).
Proof.
  intros Ha. unfold parse_uint. destruct (Ascii.eqb_spec a (byte 43)) as [->|]; [done|reflexivity].
Qed.
Lemma strip_prefix_Some p s r : strip_prefix p s = Some r -> s = (p +:+ r)%string.
Proof.
  revert s. induction p as [|a p IH]; intros s; simpl; [by intros [= ->]|].
  destruct s as [|b s]; [done|]. destruct (Ascii.eqb_spec a b) as [->|]; [|done].
  by intros ->%IH.
Qed.
Lemma strip_suffix_Some p s r : strip_suffix p s = Some r -> s = (r +:+ p)%string.
Proof.
  revert r. induction s as [|b s IH]; intros r; cbn [strip_suffix].
  - destruct (String.eqb_spec p EmptyString) as [->|]; [by intros [= <-]|done].
  - destruct (String.eqb_spec p (String b s)) as [->|]; [by intros [= <-]|].
    destruct (strip_suffix p s) as [r'|]; [|done]. intros [= <-]. rewrite cons_app. by rewrite <- (IH r').
Qed.
Lemma first_match {A} (f : string -> option A) l :
  fold_right (fun w acc => opt_or (f w) acc) None l = None <-> forall w, w ∈ l -> f w = None.
Proof.
  induction l as [|w l IH]; simpl; [set_solver|]. destruct (f w) eqn:Hw; simpl.
  - split; [done|]. intros H. rewrite (H w) in Hw by left. done.
  - rewrite IH. set_solver.
Qed.
(** A character that starts no white space. *)
Definition starts_word (a : Ascii.ascii) : bool :=
  forallb (fun w => match w with String b _ => negb (Ascii.eqb b a) | EmptyString => false end) white_space.
Lemma trim1_start_word a s : starts_word a = true -> trim1_start (String a s) = None.
Proof.
  unfold starts_word. rewrite forallb_forall. intros H. apply first_match. intros w Hw.
  apply list_elem_of_In, H in Hw. destruct w as [|b w]; [done|]. simpl. by destruct (Ascii.eqb b a).
Qed.
Lemma trim_start_id s : trim1_start s = None -> trim_start s = s.
Proof. unfold trim_start. destruct (String.length s); [done|]. cbn [trim_start_fuel]. by intros ->. Qed.
Lemma trim_end_id s : trim1_end s = None -> trim_end s = s.
Proof. unfold trim_end. destruct (String.length s); [done|]. cbn [trim_end_fuel]. by intros ->. Qed.
Lemma trim_id s : trim1_start s = None -> trim1_end s = None -> trim s = s.
Proof. intros H1 H2. unfold trim. by rewrite trim_start_id, trim_end_id. Qed.
Lemma split_char_fresh c s : str_mem_char c s = false -> split_char c s = [s].
Proof.
  induction s as [|a s IH]; simpl; [done|]. intros [-> Hs]%orb_false_iff. by rewrite IH.
Qed.
Lemma split_char_cut c x y :
  str_mem_char c x = false -> split_char c (x +:+ String c y) = x :: split_char c y.
Proof.
  induction x as [|a x IH]; rewrite ?empty_app, ?cons_app; simpl; [by rewrite Ascii.eqb_refl|].
  intros [Ha Hx]%orb_false_iff. by rewrite Ha, IH.
Qed.
(** Lines taken apart and joined. *)
Lemma split_char_ne c s : split_char c s <> [].
Proof. destruct s as [|a s]; [done|]. cbn [split_char]. by repeat case_match. Qed.
Lemma suffix_split x c t r w :
  (x +:+ String c t = r +:+ w)%string -> (exists t', t = t' +:+ w)%string \/ exists w', w = (w' +:+ String c t)%string.
Proof.
  revert r. induction x as [|a x IH]; intros r; rewrite ?empty_app, ?cons_app.
  - destruct r as [|b r]; [rewrite empty_app; intros <-; right; by exists EmptyString|].
    rewrite cons_app. intros [= _ ->]. left. by exists r.
  - destruct r as [|b r]; [rewrite empty_app; intros <-; right; by exists (String a x)|].
    rewrite cons_app. intros [= _ H]. by apply IH in H.
Qed.
Lemma strip_suffix_app w s : strip_suffix w (s +:+ w) = Some s.
Proof.
  induction s as [|a s IH]; rewrite ?empty_app, ?cons_app.
  - destruct w; cbn [strip_suffix]; by rewrite String.eqb_refl.
  - cbn [strip_suffix]. destruct (String.eqb_spec w (String a (s +:+ w))) as [Hw|_]; [|by rewrite IH].
    apply (f_equal String.length) in Hw. cbn in Hw. rewrite length_app_s in Hw. lia.
Qed.
Lemma first_hit {A} (f : string -> option A) l v r :
  v ∈ l -> f v = Some r -> (forall w, w ∈ l -> w <> v -> f w = None) ->
  fold_right (fun w acc => opt_or (f w) acc) None l = Some r.
Proof.
  intros Hv Hr. induction l as [|w l IH]; intros Hn; [set_solver|]. simpl.
  destruct (String.eqb_spec w v) as [->|Hne]; [by rewrite Hr|].
  rewrite (Hn w) by (left || done). simpl. apply IH; [|set_solver].
  by apply elem_of_cons in Hv as [->|].
Qed.
Lemma split_once_fresh c p x y :
  str_mem_char c x = false -> split_once_str (String c p) (x +:+ (String c p +:+ y)) = Some (x, y).
Proof.
  induction x as [|a x IH]; rewrite ?empty_app; intros Hx.
  - assert (strip_prefix (String c p) (String c p +:+ y) = Some y) as H.
    { generalize (String c p). intros q. induction q as [|b q IH]; rewrite ?empty_app, ?cons_app; [done|].
      cbn [strip_prefix]. by rewrite Ascii.eqb_refl. }
    rewrite cons_app in *. cbn [split_once_str]. by rewrite H.
  - cbn [str_mem_char] in Hx. apply orb_false_iff in Hx as [Ha Hx]. rewrite (cons_app a).
    cbn [split_once_str strip_prefix]. rewrite (Ascii.eqb_sym c a), Ha. by rewrite IH.
Qed.
Lemma contains_app p x y : str_contains p (x +:+ (p +:+ y)) = true.
Proof.
  induction x as [|a x IH]; rewrite ?empty_app, ?cons_app.
  - assert (starts_with p (p +:+ y) = true) as H.
    { unfold starts_with. induction p as [|b p IH]; rewrite ?empty_app, ?cons_app; [done|].
      cbn [strip_prefix]. by rewrite Ascii.eqb_refl. }
    destruct (p +:+ y)%string; cbn [str_contains]; by rewrite H.
  - cbn [str_contains]. by rewrite IH, orb_true_r.
Qed.

(** [{:02}] of an unsigned integer. *)
Definition pad2 (z : Z) : string := if z <? 10 then ("0" ++ show z)%string else show z.
Lemma parse_pad2 maxv z : 0 <= z <= maxv -> parse_uint maxv (pad2 z) = Some z.
Proof.
  intros Hz. unfold pad2. destruct (z <? 10); [|by apply parse_show].
  change ("0" +:+ show z)%string with (String (byte 48) (show z)). rewrite parse_uint_digits by done.
  pose proof (parse_show maxv z Hz) as Hp. destruct (show_not_empty z) as (a & s & Hs & Ha).
  rewrite Hs in *. rewrite parse_uint_digits in Hp by done.
  cbn [parse_digits]. change (digit (byte 48)) with (Some 0). cbn [mbind option_bind].
  replace (maxv <? 0 * 10) with false by (symmetry; apply Z.ltb_ge; lia).
  replace (maxv <? 0 * 10 + 0) with false by (symmetry; apply Z.ltb_ge; lia). exact Hp.
Qed.
Lemma pad2_digits z : str_all is_digit (pad2 z) = true.
Proof. unfold pad2. destruct (z <? 10); by rewrite ?str_all_app, show_is_digits. Qed.
Lemma pad2_head z : exists a s, pad2 z = String a s /\ is_digit a = true.
Proof.
  unfold pad2. destruct (z <? 10); [|apply show_not_empty]. by exists (byte 48), (show z).
Qed.
