(* ===== verification/Ebml.v ===== *)
(** * Matroska elements (kahawai-media, src/subindex.rs, lib.rs)

    The byte level of the subtitle index: element ids and sizes, the walk over
    an element's children, what chapters, track entries and blocks are read as,
    and the writers the exact path re-wraps blocks with. A byte is a [Z] below
    256. A closure that mutates what it captured is a function on that state;
    an error keeps the state reached, as the source's captured variables do. *)
From S2P Require Import Prelude Media Utf8.

#[local] Open Scope Z_scope.

(** [Io] is weather, [Shape] is the file's own fault ([is_io]). [Panic] is a
    slice out of range; [Diverges] a loop that used up its fuel. *)
Inductive Error := Io | Shape | Panic | Diverges.

Definition is_io (e : Error) : bool := match e with Io => true | _ => false end.

Definition EBML_HEADER : Z := 0x1A45DFA3.
Definition SEGMENT : Z := 0x18538067.
Definition SEEK_HEAD : Z := 0x114D9B74.
Definition SEEK : Z := 0x4DBB.
Definition SEEK_ID : Z := 0x53AB.
Definition SEEK_POSITION : Z := 0x53AC.
Definition INFO : Z := 0x1549A966.
Definition TIMESTAMP_SCALE : Z := 0x2AD7B1.
Definition TRACKS : Z := 0x1654AE6B.
Definition TRACK_ENTRY : Z := 0xAE.
Definition TRACK_NUMBER : Z := 0xD7.
Definition TRACK_TYPE : Z := 0x83.
Definition CODEC_ID : Z := 0x86.
Definition CODEC_PRIVATE : Z := 0x63A2.
Definition TRACK_NAME : Z := 0x536E.
Definition FLAG_FORCED : Z := 0x55AA.
Definition FLAG_HEARING_IMPAIRED : Z := 0x55AB.
Definition FLAG_TEXT_DESCRIPTIONS : Z := 0x55AD.
Definition FLAG_COMMENTARY : Z := 0x55AF.
Definition CUES : Z := 0x1C53BB6B.
Definition CUE_POINT : Z := 0xBB.
Definition CUE_TIME : Z := 0xB3.
Definition CUE_TRACK_POSITIONS : Z := 0xB7.
Definition CUE_TRACK : Z := 0xF7.
Definition CUE_CLUSTER_POSITION : Z := 0xF1.
Definition CUE_RELATIVE_POSITION : Z := 0xF0.
Definition ATTACHMENTS : Z := 0x1941A469.
Definition ATTACHED_FILE : Z := 0x61A7.
Definition FILE_NAME : Z := 0x466E.
Definition FILE_MIME : Z := 0x4660.
Definition FILE_DATA : Z := 0x465C.
Definition CHAPTERS : Z := 0x1043A770.
Definition MAX_HEADER_ELEMENT : Z := 4 * 1024 * 1024.
Definition EDITION_ENTRY : Z := 0x45B9.
Definition EDITION_FLAG_HIDDEN : Z := 0x45BD.
Definition EDITION_FLAG_DEFAULT : Z := 0x45DB.
Definition CHAPTER_ATOM : Z := 0xB6.
Definition CHAPTER_TIME_START : Z := 0x91.
Definition CHAPTER_TIME_END : Z := 0x92.
Definition CHAPTER_FLAG_HIDDEN : Z := 0x98.
Definition CHAPTER_FLAG_ENABLED : Z := 0x4598.
Definition CHAPTER_SEGMENT_UID : Z := 0x6E67.
Definition CHAPTER_DISPLAY : Z := 0x80.
Definition CHAP_STRING : Z := 0x85.
Definition CONTENT_ENCODINGS : Z := 0x6D80.
Definition CONTENT_ENCODING : Z := 0x6240.
Definition CONTENT_COMPRESSION : Z := 0x5034.
Definition CONTENT_COMP_ALGO : Z := 0x4254.
Definition CONTENT_COMP_SETTINGS : Z := 0x4255.
Definition CLUSTER : Z := 0x1F43B675.
Definition CLUSTER_TIMESTAMP : Z := 0xE7.
Definition SIMPLE_BLOCK : Z := 0xA3.
Definition BLOCK_GROUP : Z := 0xA0.
Definition BLOCK : Z := 0xA1.
Definition BLOCK_DURATION : Z := 0x9B.

(** ** Ids, sizes, integers *)

(** [u8::leading_zeros]. *)
Definition leading_zeros (b : Z) : nat :=
  if b =? 0 then 8 else (7 - Z.to_nat (Z.log2 b))%nat.

(** Big endian bytes shifted into an accumulator of [w] bits. *)
Definition shift_in (w : Z) (acc : Z) (data : bytes) : Z :=
  fold_left (fun acc b => Z.lor (wrap w (Z.shiftl acc 8)) b) data acc.

Definition ebml_id (buf : bytes) : result Error (Z * nat) :=
  match buf with
  | [] => Err Shape
  | first :: _ =>
      let len := S (leading_zeros first) in
      if (4 <? len)%nat || (length buf <? len)%nat then Err Shape
      else Ok (shift_in 32 0 (take len buf), len)
  end.

(** [0xFFu8.checked_shr(len).unwrap_or(0)]. *)
Definition marker_mask (len : nat) : Z :=
  if (len <? 8)%nat then Z.shiftr 0xFF (Z.of_nat len) else 0.

(** The marker masked off the first byte, then the rest. *)
Definition vint_value (len : nat) (buf : bytes) : Z :=
  match buf with
  | [] => 0
  | first :: _ =>
      shift_in 64 (Z.land first (marker_mask len)) (drop 1 (take len buf))
  end.

Definition ebml_size (buf : bytes) : result Error (option Z * nat) :=
  match buf with
  | [] => Err Shape
  | first :: _ =>
      if first =? 0 then Err Shape
      else
        let len := S (leading_zeros first) in
        if (8 <? len)%nat || (length buf <? len)%nat then Err Shape
        else
          let val := vint_value len buf in
          let all_ones := Z.shiftl 1 (7 * Z.of_nat len) - 1 in
          Ok (if val =? all_ones then None else Some val, len)
  end.

Definition uint (data : bytes) : Z := shift_in 64 0 data.

(** ** Children *)

Section Walk.
Context {S : Type} (f : Z -> bytes -> S -> S * result Error bool).

(** [walk_children], on what is left of [data]; each turn consumes a header,
    so the length of [data] is fuel enough ([walk_children_total]). *)
Fixpoint walk_from (fuel : nat) (data : bytes) (s : S) : S * result Error unit :=
  match data with
  | [] => (s, Ok tt)
  | _ :: _ =>
      match fuel with
      | O => (s, Err Diverges)
      | Datatypes.S fuel =>
          match ebml_id data with
          | Err e => (s, Err e)
          | Ok (id, il) =>
              match ebml_size (drop il data) with
              | Err e => (s, Err e)
              | Ok (None, _) => (s, Err Shape)
              | Ok (Some size, sl) =>
                  let rest := drop (il + sl) data in
                  if Z.of_nat (length rest) <? size then (s, Err Shape)
                  else
                    match f id (take (Z.to_nat size) rest) s with
                    | (s, Err e) => (s, Err e)
                    | (s, Ok false) => (s, Ok tt)
                    | (s, Ok true) => walk_from fuel (drop (Z.to_nat size) rest) s
                    end
              end
          end
      end
  end.

Definition walk_children (data : bytes) (s : S) : S * result Error unit :=
  walk_from (length data) data s.
End Walk.

(** A closure that cannot fail and never stops the walk. *)
Definition visit {S} (g : Z -> bytes -> S -> S) (id : Z) (v : bytes) (s : S) :
    S * result Error bool := (g id v s, Ok true).

(** A closure whose own walk may fail: [inner(..)?; Ok(true)]. *)
Definition then_continue {S} (r : S * result Error unit) : S * result Error bool :=
  match r with (s, Ok _) => (s, Ok true) | (s, Err e) => (s, Err e) end.

(** The state and the verdict as one result: [walk(..)?] and then the state. *)
Definition checked {S} (r : S * result Error unit) : result Error S :=
  match r with (s, Ok _) => Ok s | (_, Err e) => Err e end.

Definition lossy (v : bytes) : string := string_of_bytes (from_utf8_lossy v).

(** ** Content compression *)

Inductive Compression := Zlib | HeaderStrip (prefix : bytes).

Definition compression_of (algo : Z) (settings : bytes) : option Compression :=
  if algo =? 0 then Some Zlib
  else if algo =? 3 then Some (HeaderStrip settings)
  else None.

(** Each walk's error is dropped, what it had read is not. *)
Definition read_algo (v : bytes) : Z * bytes :=
  fst (walk_children (visit (fun id v '(algo, settings) =>
    if id =? CONTENT_COMP_ALGO then (uint v, settings)
    else if id =? CONTENT_COMP_SETTINGS then (algo, v)
    else (algo, settings))) v (0, [])).
Definition read_compression (data : bytes) : option Compression :=
  fst (walk_children (visit (fun id v out =>
    if id =? CONTENT_ENCODING then
      fst (walk_children (visit (fun id v out =>
        if id =? CONTENT_COMPRESSION
        then let '(algo, settings) := read_algo v in compression_of algo settings
        else out)) v out)
    else out)) data None).

(** [inflate] is the zlib decoder: what it inflated to, or nothing. *)
Definition decompress (inflate : bytes -> option bytes) (payload : bytes)
    (how : option Compression) : bytes :=
  match how with
  | Some Zlib => match inflate payload with Some out => out | None => payload end
  | Some (HeaderStrip prefix) => prefix ++ payload
  | None => payload
  end.

(** ** Chapters *)

Record Atom := mkAtom {
  at_start : option Z;
  at_end : option Z;
  at_title : option string;
  at_hidden : bool;
  at_enabled : bool;
  at_linked : bool;
}.
Definition atom_default : Atom := mkAtom None None None false true false.

(** A ChapterDisplay: its last ChapString, trimmed. *)
Definition read_display (v : bytes) (t : option string) : option string * result Error unit :=
  walk_children (visit (fun id s t => if id =? CHAP_STRING then Some (trim (lossy s)) else t)) v t.

Definition atom_field (id : Z) (v : bytes) (a : Atom) : Atom * result Error bool :=
  let '(mkAtom s e t h en l) := a in
  if id =? CHAPTER_TIME_START then (mkAtom (Some (uint v / 1000000)) e t h en l, Ok true)
  else if id =? CHAPTER_TIME_END then (mkAtom s (Some (uint v / 1000000)) t h en l, Ok true)
  else if id =? CHAPTER_FLAG_HIDDEN then (mkAtom s e t (uint v =? 1) en l, Ok true)
  else if id =? CHAPTER_FLAG_ENABLED then (mkAtom s e t h (negb (uint v =? 0)) l, Ok true)
  else if id =? CHAPTER_SEGMENT_UID then (mkAtom s e t h en true, Ok true)
  else if (id =? CHAPTER_DISPLAY) && is_none t then
    let '(t, r) := read_display v t in then_continue (mkAtom s e t h en l, r)
  else (a, Ok true).

Definition nonempty (t : string) : bool := negb (t =s EmptyString).

Definition atom_chapter (a : Atom) : list Chapter :=
  match at_start a with
  | Some start_ms =>
      if negb (at_hidden a) && at_enabled a && negb (at_linked a)
      then [mkChapter start_ms (at_end a) (opt_filter nonempty (at_title a))]
      else []
  | None => []
  end.

(** [collect_atoms] at depth [17 - levels]: past depth 16 it reads nothing. *)
Fixpoint collect_atoms (levels : nat) (data : bytes) (out : list Chapter) :
    list Chapter * result Error unit :=
  match levels with
  | O => (out, Ok tt)
  | S levels =>
      walk_children (fun id atom out =>
        if negb (id =? CHAPTER_ATOM) then (out, Ok true)
        else
          match walk_children atom_field atom atom_default with
          | (_, Err e) => (out, Err e)
          | (a, Ok _) =>
              let out := out ++ atom_chapter a in
              if at_linked a then (out, Ok true)
              else then_continue (collect_atoms levels atom out)
          end) data out
  end.

(** [dedup_by] with the closure of [dedup_chapters]: [kept] is the survivor so
    far; an untitled survivor is swapped for its twin. *)
Definition keep_end (kept next : Chapter) : Chapter :=
  mkChapter (start_ms kept) (opt_or (end_ms kept) (end_ms next)) (title kept).
Definition same_chapter (kept next : Chapter) : option Chapter :=
  if negb (start_ms next =? start_ms kept) then None
  else
    match title kept, title next with
    | None, _ => Some (keep_end next kept)
    | Some t, Some t' => if negb (t' =s t) then None else Some (keep_end kept next)
    | Some _, None => Some (keep_end kept next)
    end.
Fixpoint dedup_from (kept : Chapter) (l : list Chapter) : list Chapter :=
  match l with
  | [] => [kept]
  | next :: l =>
      match same_chapter kept next with
      | Some kept => dedup_from kept l
      | None => kept :: dedup_from next l
      end
  end.
Definition dedup_chapters (l : list Chapter) : list Chapter :=
  match l with [] => [] | c :: l => dedup_from c l end.

Definition edition_flags (edition : bytes) : (bool * bool) * result Error unit :=
  walk_children (visit (fun id v '(hidden, default) =>
    if id =? EDITION_FLAG_HIDDEN then (uint v =? 1, default)
    else if id =? EDITION_FLAG_DEFAULT then (hidden, uint v =? 1)
    else (hidden, default))) edition (false, false).

Definition read_edition (id : Z) (edition : bytes) (s : list Chapter * bool) :
    (list Chapter * bool) * result Error bool :=
  let '(out, out_is_default) := s in
  if negb (id =? EDITION_ENTRY) || out_is_default then (s, Ok true)
  else
    match edition_flags edition with
    | (_, Err e) => (s, Err e)
    | ((hidden, default), Ok _) =>
        if hidden || (negb (bool_decide (out = [])) && negb default) then (s, Ok true)
        else
          match collect_atoms 17 edition [] with
          | (_, Err e) => (s, Err e)
          | (found, Ok _) =>
              ((if bool_decide (found = []) then s else (found, default)), Ok true)
          end
    end.

Definition by_start (a b : Chapter) : comparison := (start_ms a ?= start_ms b)%Z.

Definition read_chapters (data : bytes) : result Error (list Chapter) :=
  let? s := checked (walk_children read_edition data ([], false)) in
  Ok (dedup_chapters (sort_by by_start (fst s))).

(** ** Track entries *)

Record DeclaredSubtitle := mkDeclaredSubtitle {
  ds_name : option string;
  ds_forced : bool;
  ds_hearing_impaired : bool;
  ds_commentary : bool;
}.
Definition declared_default : DeclaredSubtitle := mkDeclaredSubtitle None false false false.

(** [trim_end_matches('\0')]. *)
Fixpoint trim_nuls (s : string) : string :=
  match s with
  | EmptyString => EmptyString
  | String a s =>
      match trim_nuls s with
      | EmptyString => if Ascii.eqb a (byte 0) then EmptyString else String a EmptyString
      | r => String a r
      end
  end.

Definition subtitle_field (id : Z) (v : bytes) (s : Z * DeclaredSubtitle) : Z * DeclaredSubtitle :=
  let '(ttype, mkDeclaredSubtitle n f hi co) := s in
  if id =? TRACK_TYPE then (uint v, mkDeclaredSubtitle n f hi co)
  else if id =? TRACK_NAME then
    let name := trim (trim_nuls (lossy v)) in
    (ttype, mkDeclaredSubtitle (then_some (nonempty name) name) f hi co)
  else if id =? FLAG_FORCED then (ttype, mkDeclaredSubtitle n (negb (uint v =? 0)) hi co)
  else if (id =? FLAG_HEARING_IMPAIRED) || (id =? FLAG_TEXT_DESCRIPTIONS) then
    (ttype, mkDeclaredSubtitle n f (hi || negb (uint v =? 0)) co)
  else if id =? FLAG_COMMENTARY then (ttype, mkDeclaredSubtitle n f hi (negb (uint v =? 0)))
  else s.

Definition SUBTITLE_TYPE : Z := 0x11.

Definition read_subtitle_entry (id : Z) (entry : bytes) (out : list DeclaredSubtitle) :
    list DeclaredSubtitle * result Error bool :=
  if negb (id =? TRACK_ENTRY) then (out, Ok true)
  else
    match walk_children (visit subtitle_field) entry (0, declared_default) with
    | (_, Err e) => (out, Err e)
    | ((ttype, track), Ok _) =>
        (if ttype =? SUBTITLE_TYPE then out ++ [track] else out, Ok true)
    end.
Definition read_subtitle_tracks (data : bytes) : result Error (list DeclaredSubtitle) :=
  checked (walk_children read_subtitle_entry data []).

Record MkvTrack := mkMkvTrack {
  number : Z;
  sub_index : nat;
  codec : string;
  is_ass : bool;
  header : option string;
  private : option bytes;
  compression : option Compression;
}.

Definition is_text (t : MkvTrack) : bool := starts_with "S_TEXT/" (codec t).

Record Entry := mkEntry {
  e_number : Z;
  e_type : Z;
  e_codec : string;
  e_private : option bytes;
  e_compression : option Compression;
}.
Definition entry_field (id : Z) (v : bytes) (e : Entry) : Entry :=
  let '(mkEntry n t c p z) := e in
  if id =? TRACK_NUMBER then mkEntry (uint v) t c p z
  else if id =? TRACK_TYPE then mkEntry n (uint v) c p z
  else if id =? CODEC_ID then mkEntry n t (lossy v) p z
  else if id =? CODEC_PRIVATE then mkEntry n t c (Some v) z
  else if id =? CONTENT_ENCODINGS then mkEntry n t c p (read_compression v)
  else e.

(** ** SeekHead, Info, Cues *)

Definition seek_field (id : Z) (v : bytes) (s : Z * option Z) : Z * option Z :=
  let '(target, position) := s in
  if id =? SEEK_ID then (wrap 32 (uint v), position)
  else if id =? SEEK_POSITION then (target, Some (uint v))
  else s.

(** [checked_add] on u64. *)
Definition checked_add (a b : Z) : option Z := if a + b <=? u64_max then Some (a + b) else None.

(** The promises a SeekHead makes for the [targets] a caller follows. *)
Definition seek_entry (targets : list Z) (segment_start : Z) (id : Z) (seek : bytes)
    (pending : list Z) : list Z * result Error bool :=
  if negb (id =? SEEK) then (pending, Ok true)
  else
    match walk_children (visit seek_field) seek (0, None) with
    | (_, Err e) => (pending, Err e)
    | ((target, position), Ok _) =>
        (if existsb (Z.eqb target) targets
         then match position ≫= checked_add segment_start with
              | Some t => pending ++ [t]
              | None => pending
              end
         else pending, Ok true)
    end.

Definition info_field (id : Z) (v : bytes) (scale : Z) : Z :=
  if id =? TIMESTAMP_SCALE then Z.max (uint v) 1 else scale.

(** (time, cluster position, relative position, track). *)
Definition SubCue : Type := Z * Z * option Z * Z.

Definition cue_position_field (id : Z) (w : bytes) (s : Z * Z * option Z) : Z * Z * option Z :=
  let '(track, cluster, rel) := s in
  if id =? CUE_TRACK then (uint w, cluster, rel)
  else if id =? CUE_CLUSTER_POSITION then (track, uint w, rel)
  else if id =? CUE_RELATIVE_POSITION then (track, cluster, Some (uint w))
  else s.

Definition cue_point_field (wanted : list Z) (id : Z) (v : bytes) (s : Z * list SubCue) :
    (Z * list SubCue) * result Error bool :=
  let '(time, cues) := s in
  if id =? CUE_TIME then ((uint v, cues), Ok true)
  else if id =? CUE_TRACK_POSITIONS then
    match walk_children (visit cue_position_field) v (0, 0, None) with
    | (_, Err e) => (s, Err e)
    | ((track, cluster, rel), Ok _) =>
        ((time, if existsb (Z.eqb track) wanted then cues ++ [(time, cluster, rel, track)] else cues),
         Ok true)
    end
  else (s, Ok true).

Definition cue_entry (wanted : list Z) (id : Z) (point : bytes) (cues : list SubCue) :
    list SubCue * result Error bool :=
  if negb (id =? CUE_POINT) then (cues, Ok true)
  else let '((_, cues), r) := walk_children (cue_point_field wanted) point (0, cues) in
       then_continue (cues, r).

(** ** Blocks *)

Record SubBlock := mkSubBlock {
  track : Z;
  rel_time : Z;
  payload : bytes;
  duration : option Z;
}.

Definition wants (wanted : list Z) (t : Z) : bool := existsb (Z.eqb t) wanted.

(** The variable-length track number, as [block_track] and the head of
    [parse_block] read it; here a zero first byte is nine bytes long. *)
Definition block_number (data : bytes) : option (Z * nat) :=
  match data with
  | [] => None
  | first :: _ =>
      let len := S (leading_zeros first) in
      if (8 <? len)%nat || (length data <? len)%nat then None
      else Some (vint_value len data, len)
  end.
Definition block_track (data : bytes) : option Z := fst <$> block_number data.

(** [i16::from_be_bytes]. *)
Definition i16_be (hi lo : Z) : Z :=
  let v := hi * 256 + lo in if v <? 0x8000 then v else v - 0x10000.

Definition nth_byte (n : nat) (data : bytes) : Z := nth n data 0.

Definition parse_block (data : bytes) (wanted : list Z) : option (Z * Z * nat) :=
  '(t, tl) ← block_number data;
  if negb (wants wanted t) || (length data <? tl + 3)%nat then None
  else
    let flags := nth_byte (tl + 2) data in
    if negb (Z.land flags 0x06 =? 0) then None
    else Some (t, i16_be (nth_byte tl data) (nth_byte (tl + 1) data), (tl + 3)%nat).

Definition sub_block (wanted : list Z) (data : bytes) : option SubBlock :=
  '(t, rel, off) ← parse_block data wanted; Some (mkSubBlock t rel (drop off data) None).

Definition with_duration (d : option Z) (b : SubBlock) : SubBlock :=
  mkSubBlock (track b) (rel_time b) (payload b) d.

Definition group_field (wanted : list Z) (id : Z) (v : bytes) (s : option SubBlock * option Z) :
    option SubBlock * option Z :=
  let '(blk, dur) := s in
  if id =? BLOCK then (match sub_block wanted v with Some b => Some b | None => blk end, dur)
  else if id =? BLOCK_DURATION then (blk, Some (uint v))
  else s.

Definition ClusterScan : Type := Z * list (Z * SubBlock).

Definition cluster_field (wanted : list Z) (id : Z) (body : bytes) (s : ClusterScan) :
    ClusterScan * result Error bool :=
  let '(ts, out) := s in
  if id =? CLUSTER_TIMESTAMP then ((uint body, out), Ok true)
  else if id =? SIMPLE_BLOCK then
    ((ts, out ++ match sub_block wanted body with Some b => [(ts, b)] | None => [] end), Ok true)
  else if id =? BLOCK_GROUP then
    match walk_children (visit (group_field wanted)) body (None, None) with
    | (_, Err e) => (s, Err e)
    | ((blk, dur), Ok _) =>
        ((ts, out ++ match blk with Some b => [(ts, with_duration dur b)] | None => [] end), Ok true)
    end
  else (s, Ok true).

(** [scan_cluster] into an empty list. *)
Definition scan_cluster (data : bytes) (wanted : list Z) : result Error (list (Z * SubBlock)) :=
  let? s := checked (walk_children (cluster_field wanted) data (0, [])) in Ok (snd s).

(** ** Writers *)

(** [u64::to_be_bytes], [n] bytes of it. *)
Fixpoint to_be_bytes (n : nat) (v : Z) : bytes :=
  match n with
  | O => []
  | S n => to_be_bytes n (Z.shiftr v 8) ++ [Z.land v 0xFF]
  end.

Fixpoint skip_zeros (l : bytes) : bytes :=
  match l with b :: l' => if b =? 0 then skip_zeros l' else l | [] => [] end.
(** At most [n] leading zeros. *)
Fixpoint skip_zeros_max (n : nat) (l : bytes) : bytes :=
  match n, l with
  | S n, b :: l' => if b =? 0 then skip_zeros_max n l' else l
  | _, _ => l
  end.

Definition encode_uint (v : Z) : bytes := skip_zeros_max 7 (to_be_bytes 8 v).
Definition encode_size (n : Z) : bytes := 0x01 :: drop 1 (to_be_bytes 8 n).
Definition encode_id (id : Z) : bytes := skip_zeros (to_be_bytes 4 id).
Definition encode_element (id : Z) (body : bytes) : bytes :=
  encode_id id ++ encode_size (Z.of_nat (length body)) ++ body.
