(* ===== verification/EbmlTheorems.v ===== *)
(** * Elements read back what the writers wrote, and walks are folds

    Integers, sizes and ids round trip; the walk over children is a fold over
    the list of the elements the data splits into, so it always ends. *)
From S2P Require Import Prelude Media Utf8 Ebml.

#[local] Open Scope Z_scope.

(** ** Big endian integers *)

Definition be_val (acc : Z) (l : bytes) : Z := fold_left (fun a b => a * 256 + b) l acc.

Lemma lor_low a b : 0 <= b < 256 -> Z.lor (a * 256) b = a * 256 + b.
Proof.
  intros Hb. rewrite <- (Z.add_lor_land (a * 256) b). assert (Z.land (a * 256) b = 0) as ->; [|lia].
  apply Z.bits_inj'. intros i Hi. rewrite Z.land_spec, Z.bits_0.
  destruct (Z.lt_ge_cases i 8) as [H|H].
  - change 256 with (2 ^ 8). by rewrite Z.mul_pow2_bits_low.
  - rewrite (Z.bits_above_log2 b i), andb_false_r; [done|lia|].
    destruct (Z.eq_dec b 0) as [->|]; [simpl; lia|].
    apply (Z.lt_le_trans _ 8); [apply Z.log2_lt_pow2; lia|done].
Qed.

Lemma shift_step w a b :
  8 <= w -> 0 <= b < 256 -> Z.lor (wrap w (Z.shiftl a 8)) b = wrap w (a * 256 + b).
Proof.
  intros Hw Hb. unfold wrap. rewrite Z.shiftl_mul_pow2 by lia. change (2 ^ 8) with 256.
  replace (2 ^ w) with (2 ^ (w - 8) * 256)
    by (change 256 with (2 ^ 8); rewrite <- Z.pow_add_r by lia; f_equal; lia).
  assert (0 < 2 ^ (w - 8)) by (apply Z.pow_pos_nonneg; lia).
  rewrite Z.mul_mod_distr_r by lia. rewrite lor_low by done.
  rewrite (Z.mul_comm (2 ^ (w - 8))), Z.rem_mul_r by lia.
  rewrite Z.div_add_l, (Z.div_small b) by lia. rewrite Z.add_0_r.
  rewrite (Z.add_comm (a * 256)), Z_mod_plus_full, (Z.mod_small b 256) by lia. lia.
Qed.

Lemma wrap_be w acc l : 8 <= w -> wrap w (be_val (wrap w acc) l) = wrap w (be_val acc l).
Proof.
  intros Hw. revert acc. induction l as [|b l IH]; intros acc; simpl; [apply Zmod_mod|].
  rewrite <- (IH (wrap w acc * 256 + b)), <- (IH (acc * 256 + b)). do 2 f_equal.
  unfold wrap. by rewrite <- (Zplus_mod_idemp_l (acc mod _ * 256)), Zmult_mod_idemp_l, Zplus_mod_idemp_l.
Qed.

(** Shifting bytes in computes the big endian value at the accumulator's width. *)
Lemma shift_in_be w acc l :
  8 <= w -> all_bytes l -> l <> [] -> shift_in w acc l = wrap w (be_val acc l).
Proof.
  intros Hw Hl. revert acc. induction Hl as [|b l Hb Hl IH]; intros acc Hne; [done|].
  unfold shift_in. cbn [fold_left]. fold (shift_in w (Z.lor (wrap w (Z.shiftl acc 8)) b) l).
  rewrite shift_step by done. destruct l as [|b' l']; [by simpl|].
  rewrite IH by done. exact (wrap_be w (acc * 256 + b) (b' :: l') Hw).
Qed.

Lemma be_val_app acc l l' : be_val acc (l ++ l') = be_val (be_val acc l) l'.
Proof. unfold be_val. by rewrite fold_left_app. Qed.

Lemma to_be_bytes_length n v : length (to_be_bytes n v) = n.
Proof. revert v. induction n as [|n IH]; intros v; simpl; [done|]. rewrite length_app, IH. simpl. lia. Qed.

Lemma land_255 v : Z.land v 0xFF = v mod 256.
Proof. change 0xFF with (Z.ones 8). by rewrite Z.land_ones. Qed.

Lemma to_be_bytes_all n v : all_bytes (to_be_bytes n v).
Proof.
  revert v. induction n as [|n IH]; intros v; [constructor|]. cbn [to_be_bytes].
  apply Forall_app. split; [apply IH|]. repeat constructor; rewrite land_255.
  - by apply Z.mod_pos_bound.
  - by apply Z.mod_pos_bound.
Qed.

Lemma be_val_to_be n v : be_val 0 (to_be_bytes n v) = v mod 256 ^ Z.of_nat n.
Proof.
  revert v. induction n as [|n IH]; intros v; [by rewrite Z.mod_1_r|].
  cbn [to_be_bytes]. rewrite be_val_app, IH. simpl be_val. unfold be_val. cbn [fold_left].
  rewrite land_255, Z.shiftr_div_pow2 by lia. change (2 ^ 8) with 256.
  rewrite Nat2Z.inj_succ, Z.pow_succ_r by lia.
  rewrite Z.rem_mul_r by lia. lia.
Qed.

Lemma be_val_nonneg acc l : 0 <= acc -> all_bytes l -> 0 <= be_val acc l.
Proof.
  intros Ha Hl. revert acc Ha. induction Hl as [|b l Hb _ IH]; intros acc Ha; simpl; [done|].
  apply IH. lia.
Qed.

Lemma be_val_skip k l : be_val 0 (skip_zeros_max k l) = be_val 0 l.
Proof.
  revert l. induction k as [|k IH]; intros [|b l]; simpl; try done.
  destruct (Z.eqb_spec b 0) as [->|]; [|done]. by rewrite IH.
Qed.

Lemma skip_zeros_max_length k l : (length l - k <= length (skip_zeros_max k l))%nat.
Proof.
  revert l. induction k as [|k IH]; intros [|b l]; simpl; try lia.
  destruct (b =? 0); simpl; [etrans; [|apply IH]; lia|lia].
Qed.

Lemma skip_zeros_max_all k l : all_bytes l -> all_bytes (skip_zeros_max k l).
Proof.
  intros Hl. revert k. induction Hl as [|b l Hb Hl IH]; intros [|k]; simpl; try by constructor.
  destruct (b =? 0); [apply IH|by constructor].
Qed.

(** An unsigned integer written by [encode_uint] is read back by [uint]. *)
Lemma uint_encode v : in_range 64 v -> uint (encode_uint v) = v.
Proof.
  intros Hv. unfold uint, encode_uint. rewrite shift_in_be; [|done| |].
  - rewrite be_val_skip, be_val_to_be. change (256 ^ Z.of_nat 8) with (2 ^ 64).
    unfold wrap. rewrite Zmod_mod. by apply Z.mod_small.
  - apply skip_zeros_max_all, to_be_bytes_all.
  - intros He. pose proof (skip_zeros_max_length 7 (to_be_bytes 8 v)) as H.
    rewrite He, to_be_bytes_length in H. simpl in H. lia.
Qed.

(** ** Sizes and ids *)

Lemma shift_in_small w l : 8 <= w -> all_bytes l -> l <> [] -> be_val 0 l < 2 ^ w -> shift_in w 0 l = be_val 0 l.
Proof.
  intros Hw Hl Hne Hb. rewrite shift_in_be by done. apply Z.mod_small.
  split; [by apply be_val_nonneg|done].
Qed.

Lemma encode_size_bytes n :
  encode_size n = 0x01 :: to_be_bytes 7 n.
Proof. reflexivity. Qed.

Lemma encode_size_length n : length (encode_size n) = 8%nat.
Proof. reflexivity. Qed.

Lemma ebml_size_encode n rest :
  0 <= n < 2 ^ 56 - 1 -> ebml_size (encode_size n ++ rest) = Ok (Some n, 8%nat).
Proof.
  intros Hn. rewrite encode_size_bytes.
  change ((0x01 :: to_be_bytes 7 n) ++ rest) with (0x01 :: (to_be_bytes 7 n ++ rest)).
  unfold ebml_size. change (0x01 =? 0) with false. cbn match.
  change (S (leading_zeros 1)) with 8%nat. rewrite (proj2 (Nat.ltb_ge _ _)) by lia.
  rewrite (proj2 (Nat.ltb_ge _ _)) by (cbn [length]; rewrite length_app, to_be_bytes_length; lia).
  cbn [orb].
  assert (vint_value 8 (0x01 :: (to_be_bytes 7 n ++ rest)) = n) as ->.
  { unfold vint_value. change (Z.land 1 (marker_mask 8)) with 0.
    change (0x01 :: (to_be_bytes 7 n ++ rest)) with ((0x01 :: to_be_bytes 7 n) ++ rest).
    rewrite take_app_le by (cbn [length]; by rewrite to_be_bytes_length).
    rewrite take_ge by (cbn [length]; by rewrite to_be_bytes_length).
    change (drop 1 (0x01 :: to_be_bytes 7 n)) with (to_be_bytes 7 n).
    assert (be_val 0 (to_be_bytes 7 n) = n) as He.
    { rewrite be_val_to_be. change (256 ^ Z.of_nat 7) with (2 ^ 56). apply Z.mod_small. lia. }
    rewrite shift_in_small; [done|done|apply to_be_bytes_all| |rewrite He; lia].
    intros Hnil. pose proof (to_be_bytes_length 7 n) as Hl. by rewrite Hnil in Hl. }
  change (Z.shiftl 1 (7 * Z.of_nat 8) - 1) with (2 ^ 56 - 1).
  by rewrite (proj2 (Z.eqb_neq n (2 ^ 56 - 1))) by lia.
Qed.

(** The ids the format allows: one to four bytes, the first one's leading zeros
    saying how many. *)
Definition valid_id (id : Z) : bool :=
  between 0x80 0xFF id || between 0x4000 0x7FFF id || between 0x200000 0x3FFFFF id
  || between 0x10000000 0x1FFFFFFF id.

Lemma to_be_bytes_front n v :
  to_be_bytes (S n) v = Z.shiftr v (8 * Z.of_nat n) mod 256 :: to_be_bytes n v.
Proof.
  revert v. induction n as [|n IH]; intros v.
  - simpl. by rewrite land_255, Z.shiftr_0_r.
  - change (to_be_bytes (S (S n)) v) with (to_be_bytes (S n) (Z.shiftr v 8) ++ [Z.land v 0xFF]).
    rewrite IH. cbn [app]. rewrite Z.shiftr_shiftr by lia. do 3 f_equal. lia.
Qed.

Lemma leading_zeros_at k b :
  0 <= k <= 7 -> 2 ^ k <= b < 2 ^ (k + 1) -> leading_zeros b = (7 - Z.to_nat k)%nat.
Proof.
  intros Hk Hb. unfold leading_zeros.
  rewrite (proj2 (Z.eqb_neq b 0)) by (pose proof (Z.pow_pos_nonneg 2 k); lia).
  by rewrite (Z.log2_unique b k) by lia.
Qed.

Lemma skip_zeros_be l : be_val 0 (skip_zeros l) = be_val 0 l.
Proof.
  induction l as [|b l IH]; simpl; [done|]. destruct (Z.eqb_spec b 0) as [->|]; [|done]. by rewrite IH.
Qed.

Lemma encode_id_shape id :
  valid_id id = true ->
  exists first rest, encode_id id = first :: rest
    /\ S (leading_zeros first) = length (first :: rest) /\ (length rest <= 3)%nat
    /\ all_bytes (encode_id id).
Proof.
  intros Hv. unfold valid_id, between in Hv.
  rewrite !orb_true_iff, !andb_true_iff, !Z.leb_le in Hv.
  pose proof (to_be_bytes_all 4 id) as Hall. unfold encode_id.
  rewrite !to_be_bytes_front in *. change (to_be_bytes 0 id) with (@nil Z) in *.
  change (8 * Z.of_nat 3) with 24 in *. change (8 * Z.of_nat 2) with 16 in *.
  change (8 * Z.of_nat 1) with 8 in *. change (8 * Z.of_nat 0) with 0 in *.
  rewrite !Z.shiftr_div_pow2 in * by lia.
  set (d3 := id / 2 ^ 24 mod 256) in *. set (d2 := id / 2 ^ 16 mod 256) in *.
  set (d1 := id / 2 ^ 8 mod 256) in *. set (d0 := id / 2 ^ 0 mod 256) in *.
  unfold all_bytes in *. rewrite !Forall_cons in Hall. cbn [skip_zeros].
  assert (H : (d3 = 0 /\ d2 = 0 /\ d1 = 0 /\ 0x80 <= d0 < 0x100)
     \/ (d3 = 0 /\ d2 = 0 /\ 0x40 <= d1 < 0x80) \/ (d3 = 0 /\ 0x20 <= d2 < 0x40)
     \/ 0x10 <= d3 < 0x20).
  { unfold d3, d2, d1, d0. change (2 ^ 24) with 16777216. change (2 ^ 16) with 65536.
    change (2 ^ 8) with 256. change (2 ^ 0) with 1. rewrite Z.div_1_r.
    destruct Hv as [[[Hv|Hv]|Hv]|Hv]; [left|right; left|right; right; left|right; right; right];
      repeat split; try apply Z.mod_small; Z.to_euclidean_division_equations; lia. }
  destruct H as [(-> & -> & -> & H)|[(-> & -> & H)|[(-> & H)|H]]]; cbn [Z.eqb].
  - rewrite (proj2 (Z.eqb_neq d0 0)) by lia. eexists _, _. split; [done|].
    rewrite (leading_zeros_at 7) by lia. repeat constructor; simpl; lia.
  - rewrite (proj2 (Z.eqb_neq d1 0)) by lia. eexists _, _. split; [done|].
    rewrite (leading_zeros_at 6) by lia. repeat constructor; simpl; lia.
  - rewrite (proj2 (Z.eqb_neq d2 0)) by lia. eexists _, _. split; [done|].
    rewrite (leading_zeros_at 5) by lia. repeat constructor; simpl; lia.
  - rewrite (proj2 (Z.eqb_neq d3 0)) by lia. eexists _, _. split; [done|].
    rewrite (leading_zeros_at 4) by lia. repeat constructor; simpl; lia.
Qed.

Lemma ebml_id_encode id rest :
  valid_id id = true -> ebml_id (encode_id id ++ rest) = Ok (id, length (encode_id id)).
Proof.
  intros Hv. destruct (encode_id_shape id Hv) as (first & tail & He & Hlz & Hlen & Hall).
  assert (be_val 0 (encode_id id) = id) as Hbe.
  { unfold encode_id. rewrite skip_zeros_be, be_val_to_be. change (256 ^ Z.of_nat 4) with (2 ^ 32).
    apply Z.mod_small. unfold valid_id, between in Hv.
    rewrite !orb_true_iff, !andb_true_iff, !Z.leb_le in Hv. lia. }
  rewrite He in *. cbn [app]. unfold ebml_id. rewrite Hlz.
  rewrite (proj2 (Nat.ltb_ge _ _)) by (simpl; lia).
  rewrite (proj2 (Nat.ltb_ge _ _)) by (simpl; rewrite length_app; lia). cbn [orb].
  change (first :: tail ++ rest) with ((first :: tail) ++ rest). rewrite take_app_length.
  rewrite shift_in_small; [by rewrite Hbe|done|done|done|].
  rewrite Hbe. unfold valid_id, between in Hv.
  rewrite !orb_true_iff, !andb_true_iff, !Z.leb_le in Hv. lia.
Qed.

(** ** Walks are folds over the children *)

(** The elements [data] splits into, and what ended the splitting. *)
Definition children (data : bytes) : list (Z * bytes) * result Error unit :=
  walk_children (visit (fun id v l => l ++ [(id, v)])) data [].

(** Run a closure over a list of elements. *)
Fixpoint run {S} (f : Z -> bytes -> S -> S * result Error bool) (l : list (Z * bytes))
    (last : result Error unit) (s : S) : S * result Error unit :=
  match l with
  | [] => (s, last)
  | (id, v) :: l =>
      match f id v s with
      | (s, Err e) => (s, Err e)
      | (s, Ok false) => (s, Ok tt)
      | (s, Ok true) => run f l last s
      end
  end.

(** One element off the front. *)
Definition next_child (data : bytes) : result Error (Z * bytes * bytes) :=
  let? i := ebml_id data in
  let? s := ebml_size (drop (snd i) data) in
  match fst s with
  | None => Err Shape
  | Some size =>
      let rest := drop (snd i + snd s) data in
      if Z.of_nat (length rest) <? size then Err Shape
      else Ok (fst i, take (Z.to_nat size) rest, drop (Z.to_nat size) rest)
  end.

Lemma walk_from_step {S} (f : Z -> bytes -> S -> S * result Error bool) fuel data s :
  data <> [] ->
  walk_from f (Datatypes.S fuel) data s
  = match next_child data with
    | Err e => (s, Err e)
    | Ok (id, v, rest) =>
        match f id v s with
        | (s, Err e) => (s, Err e)
        | (s, Ok false) => (s, Ok tt)
        | (s, Ok true) => walk_from f fuel rest s
        end
    end.
Proof.
  intros Hne. destruct data as [|b data]; [done|]. cbn [walk_from]. unfold next_child.
  destruct (ebml_id (b :: data)) as [[id il]|e]; [|done]. cbn [rbind fst snd].
  destruct (ebml_size (drop il (b :: data))) as [[[size|] sl]|e]; [|done|done]. cbn [rbind fst snd].
  by destruct (Z.of_nat (length (drop (il + sl) (b :: data))) <? size).
Qed.

Lemma ebml_id_length data id il : ebml_id data = Ok (id, il) -> (1 <= il <= length data)%nat.
Proof.
  unfold ebml_id. destruct data as [|b l]; [done|].
  destruct (_ || _) eqn:H; [done|]. apply orb_false_iff in H as [_ H%Nat.ltb_ge].
  intros [= _ <-]. lia.
Qed.

Lemma ebml_size_length data size sl :
  ebml_size data = Ok (size, sl) -> (1 <= sl <= length data)%nat.
Proof.
  unfold ebml_size. destruct data as [|b l]; [done|]. destruct (b =? 0); [done|].
  destruct (_ || _) eqn:H; [done|]. apply orb_false_iff in H as [_ H%Nat.ltb_ge].
  intros [= _ <-]. lia.
Qed.

(** An element's body and what follows it are parts of the data; its header
    takes at least two bytes. *)
Lemma next_child_length data id v rest :
  next_child data = Ok (id, v, rest) ->
  (length v + length rest + 2 <= length data)%nat /\ exists head, data = head ++ v ++ rest.
Proof.
  unfold next_child. intros ([id' il] & Hi & H)%rbind_Ok. cbn [fst snd] in H.
  apply rbind_Ok in H as ([osize sl] & Hs & H). cbn [fst snd] in H.
  destruct osize as [size|]; [|done]. destruct (Z.ltb_spec (Z.of_nat (length (drop (il + sl) data))) size); [done|].
  injection H as _ <- <-. apply ebml_id_length in Hi. apply ebml_size_length in Hs.
  rewrite length_drop in Hs. rewrite length_take, !length_drop. rewrite length_drop in *. split; [lia|].
  exists (take (il + sl) data). by rewrite take_drop, take_drop.
Qed.

Lemma walk_from_more {S} (f : Z -> bytes -> S -> S * result Error bool) fuel data s :
  (length data <= fuel)%nat -> walk_from f fuel data s = walk_children f data s.
Proof.
  unfold walk_children. remember (length data) as m eqn:Hm. rewrite Hm. revert fuel data s Hm.
  induction m as [m IH] using lt_wf_ind. intros fuel [|b data] s Hm Hf; [by destruct fuel|].
  destruct fuel as [|fuel]; [simpl in Hf; lia|]. change (length (b :: data)) with (Datatypes.S (length data)).
  rewrite !walk_from_step by done.
  destruct (next_child (b :: data)) as [[[id v] rest]|e] eqn:Hn; [|done].
  destruct (f id v s) as [s' [[]|e]]; [|done|done].
  apply next_child_length in Hn as [Hl _]. simpl in *.
  rewrite (IH (length rest)) by (done || lia). symmetry. apply (IH (length rest)); (done || lia).
Qed.

Lemma walk_step {S} (f : Z -> bytes -> S -> S * result Error bool) data s :
  data <> [] ->
  walk_children f data s
  = match next_child data with
    | Err e => (s, Err e)
    | Ok (id, v, rest) =>
        match f id v s with
        | (s, Err e) => (s, Err e)
        | (s, Ok false) => (s, Ok tt)
        | (s, Ok true) => walk_children f rest s
        end
    end.
Proof.
  intros Hne. rewrite <- (walk_from_more f (Datatypes.S (length data))) by lia.
  rewrite walk_from_step by done.
  destruct (next_child data) as [[[id v] rest]|e] eqn:Hn; [|done].
  destruct (f id v s) as [s' [[]|e]]; [|done|done].
  apply next_child_length in Hn as [Hl _]. apply walk_from_more. lia.
Qed.

Lemma run_visit {S} (g : Z -> bytes -> S -> S) l last s :
  run (visit g) l last s = (fold_left (fun s '(id, v) => g id v s) l s, last).
Proof. revert s. induction l as [|[id v] l IH]; intros s; simpl; [done|]. apply IH. Qed.

Lemma children_step data :
  data <> [] ->
  children data = match next_child data with
                  | Err e => ([], Err e)
                  | Ok (id, v, rest) => ((id, v) :: fst (children rest), snd (children rest))
                  end.
Proof.
  assert (forall n data, (length data <= n)%nat -> forall pre : list (Z * bytes),
    walk_children (visit (fun id v l => l ++ [(id, v)])) data pre
    = (pre ++ fst (children data), snd (children data))) as H.
  { clear. induction n as [|n IH]; intros [|b data] Hn pre; try (simpl in Hn; lia);
      try (by unfold children; simpl; rewrite app_nil_r).
    unfold children. rewrite !walk_step by done.
    destruct (next_child (b :: data)) as [[[id v] rest]|e] eqn:Hc; [|by rewrite app_nil_r].
    apply next_child_length in Hc as [Hl _]. cbn [visit]. simpl in Hl, Hn.
    rewrite !IH by lia. cbn [fst snd]. by rewrite <- app_assoc. }
  intros Hne. unfold children at 1. rewrite walk_step by done.
  destruct (next_child data) as [[[id v] rest]|e]; [|done]. cbn [visit].
  by rewrite (H (length rest) rest) by done.
Qed.

Lemma children_run {S} (f : Z -> bytes -> S -> S * result Error bool) data s :
  walk_children f data s = run f (fst (children data)) (snd (children data)) s.
Proof.
  revert s. remember (length data) as m eqn:Hm. revert data Hm.
  induction m as [m IH] using lt_wf_ind. intros [|b data] Hm s; [done|].
  rewrite walk_step, children_step by done.
  destruct (next_child (b :: data)) as [[[id v] rest]|e] eqn:Hc; [|done].
  apply next_child_length in Hc as [Hl _]. cbn [fst snd run].
  destruct (f id v s) as [s' [[]|e]]; [|done|done].
  apply (IH (length rest)); [simpl in *; lia|done].
Qed.

Lemma walk_visit {S} (g : Z -> bytes -> S -> S) data s :
  walk_children (visit g) data s
  = (fold_left (fun s '(id, v) => g id v s) (fst (children data)) s, snd (children data)).
Proof. by rewrite children_run, run_visit. Qed.

(** The children are parts of the data, in order and apart; what ended the
    splitting is never a lack of fuel. *)
Lemma children_within data :
  (sum_list_with (fun c => S (S (length (snd c)))) (fst (children data)) <= length data)%nat
  /\ snd (children data) <> Err Diverges.
Proof.
  remember (length data) as m eqn:Hm. revert data Hm.
  induction m as [m IH] using lt_wf_ind. intros [|b data] Hm; [simpl; split; [lia|done]|].
  rewrite children_step by done.
  destruct (next_child (b :: data)) as [[[id v] rest]|e] eqn:Hc; cbn [fst snd].
  - apply next_child_length in Hc as [Hl _].
    destruct (IH (length rest) ltac:(simpl in *; lia) rest eq_refl) as [H1 H2].
    split; [|done]. cbn [sum_list_with snd]. simpl in *. lia.
  - split; [simpl; lia|]. intros [= ->]. revert Hc. unfold next_child, ebml_id, ebml_size, rbind.
    repeat case_match; simplify_eq; intros ?; done.
Qed.

Lemma next_child_encode id body rest :
  valid_id id = true -> Z.of_nat (length body) < 2 ^ 56 - 1 ->
  next_child (encode_element id body ++ rest) = Ok (id, body, rest).
Proof.
  intros Hid Hlen. unfold next_child, encode_element. rewrite <- !app_assoc.
  rewrite ebml_id_encode by done. cbn [rbind fst snd].
  rewrite drop_app_length, ebml_size_encode by lia. cbn [rbind fst snd].
  rewrite <- drop_drop, drop_app_length.
  change 8%nat with (length (encode_size (Z.of_nat (length body)))). rewrite drop_app_length.
  destruct (Z.ltb_spec (Z.of_nat (length (body ++ rest))) (Z.of_nat (length body))) as [H|_].
  { rewrite length_app in H. lia. }
  by rewrite Nat2Z.id, take_app_length, drop_app_length.
Qed.

Lemma encode_element_ne id body rest : encode_element id body ++ rest <> [].
Proof.
  unfold encode_element. intros H. apply app_nil in H as [H _]. apply app_nil in H as [_ H].
  apply app_nil in H as [H _]. done.
Qed.

Lemma children_encode id body rest :
  valid_id id = true -> Z.of_nat (length body) < 2 ^ 56 - 1 ->
  children (encode_element id body ++ rest)
  = ((id, body) :: fst (children rest), snd (children rest)).
Proof.
  intros Hid Hlen. rewrite children_step by apply encode_element_ne.
  by rewrite next_child_encode.
Qed.

Fixpoint encode_all (els : list (Z * bytes)) : bytes :=
  match els with [] => [] | (id, body) :: els => encode_element id body ++ encode_all els end.
Definition encodable (e : Z * bytes) : Prop :=
  valid_id (fst e) = true /\ Z.of_nat (length (snd e)) < 2 ^ 56 - 1.

(** Elements written one after another are read back as those elements:
    the same ids, the same bodies, in order, and nothing left. *)
Theorem elements_roundtrip els :
  Forall encodable els -> children (encode_all els) = (els, Ok tt).
Proof.
  induction 1 as [|[id body] els [Hid Hlen] _ IH]; [done|].
  cbn [encode_all]. rewrite children_encode by done. by rewrite IH.
Qed.

Lemma elements_roundtrip_witness :
  children (encode_all [(CLUSTER_TIMESTAMP, [1; 2]); (CLUSTER, []); (SEEK, [7])])
  = ([(CLUSTER_TIMESTAMP, [1; 2]); (CLUSTER, []); (SEEK, [7])], Ok tt).
Proof. apply elements_roundtrip. repeat constructor. Defined.

(** Walking a closure over an element's data is running it over the list of
    its children, to the first that stops or fails, and then failing where the
    splitting did; the walk always ends. *)
Theorem walk_is_run {S} (f : Z -> bytes -> S -> S * result Error bool) data s :
  walk_children f data s = run f (fst (children data)) (snd (children data)) s.
Proof. apply children_run. Qed.
