(* ===== verification/Subtitles.v ===== *)
(** * Text subtitles (kahawai-media, src/subtitles.rs)

    Sidecar files and matroska payloads as cues, cues as WebVTT, ASS scripts
    taken apart and put together. Strings are UTF-8 bytes, so a loop over
    characters that looks for ASCII ones is a loop over bytes; the full lower
    case of the field names agrees with the ASCII one on everything they are
    compared with. The pipelines that feed [extract_embedded] are not here. *)
From S2P Require Import Prelude Utf8 Text.

#[local] Open Scope Z_scope.

Record Cue := mkCue { cue_start : Z; cue_end : Z; cue_text : string }.

Definition is_text_format (format : string) : bool :=
  str_mem format ["srt"; "subrip"; "ass"; "ssa"; "webvtt"; "vtt"; "text"]%string.

Definition LF : Ascii.ascii := byte 10.
Definition CR : Ascii.ascii := byte 13.
Definition COMMA : Ascii.ascii := byte 44.
Definition COLON : Ascii.ascii := byte 58.
Definition lf : string := String LF EmptyString.

(** [char::is_control], on encoded text: C0, DEL, and C1 (two bytes). The line
    structure and tabs stay. *)
Definition keeps_control (b : Z) : bool := (b =? 10) || (b =? 13) || (b =? 9).
Fixpoint drop_controls (l : bytes) : bytes :=
  match l with
  | [] => []
  | b :: l' =>
      if ((b <? 0x20) && negb (keeps_control b)) || (b =? 0x7F) then drop_controls l'
      else
        match l' with
        | b2 :: l2 =>
            if (b =? 0xC2) && between 0x80 0x9F b2 then drop_controls l2
            else b :: drop_controls l'
        | [] => b :: drop_controls l'
        end
  end.

Definition BOM : bytes := [0xEF; 0xBB; 0xBF].
Definition strip_bom (l : bytes) : bytes :=
  if bool_decide (take 3 l = BOM) then drop 3 l else l.

Definition decode_bytes (l : bytes) : bytes :=
  let l := strip_bom l in
  let text := if valid_utf8 l then l else latin1 l in
  if existsb (fun b => (b <? 0x20) && negb (keeps_control b)) text
  then drop_controls text else text.
Definition decode_text (l : bytes) : string := string_of_bytes (decode_bytes l).

(** ** Timestamps *)

(** [{:03}]. *)
Definition pad3 (z : Z) : string := if z <? 100 then ("0" ++ pad2 z)%string else show z.

Definition vtt_ts (ms : Z) : string :=
  let ms := Z.max ms 0 in
  (pad2 (ms / 3600000) ++ ":" ++ pad2 (ms / 60000 mod 60) ++ ":" ++ pad2 (ms / 1000 mod 60)
   ++ "." ++ pad3 (ms mod 1000))%string.

Definition ass_stamp (ms : Z) : string :=
  (show (ms / 3600000) ++ ":" ++ pad2 (ms / 60000 mod 60) ++ ":" ++ pad2 (ms / 1000 mod 60)
   ++ "." ++ pad2 (ms mod 1000 / 10))%string.

(** [rsplit_once([',', '.'])]. *)
Fixpoint rsplit_sep (s : string) : option (string * string) :=
  match s with
  | EmptyString => None
  | String a s =>
      match rsplit_sep s with
      | Some (l, r) => Some (String a l, r)
      | None => if Ascii.eqb a COMMA || Ascii.eqb a (byte 46) then Some (EmptyString, s) else None
      end
  end.

(** [get(..3)]; where that is not a character boundary the three bytes are no
    number either. *)
Definition first3 (s : string) : option string :=
  match s with
  | String a (String b (String c _)) => Some (String a (String b (String c EmptyString)))
  | _ => None
  end.

Definition parse_u64 : string -> option Z := parse_uint u64_max.

(** [((h * 60 + m) * 60 + sec) * 1000 + ms]. *)
Definition hms (h m sec ms : Z) : Z := wrap 64 (((h * 60 + m) * 60 + sec) * 1000 + ms).

Definition parse_timestamp (s : string) : option Z :=
  '(t, ms_part) ← rsplit_sep (trim s);
  ms ← first3 ms_part ≫= parse_u64;
  match split_char COLON t with
  | [h; m; s] =>
      h ← parse_u64 h; m ← parse_u64 m; sec ← parse_u64 s; Some (hms h m sec ms)
  | [m; s] => m ← parse_u64 m; sec ← parse_u64 s; Some (hms 0 m sec ms)
  | _ => None
  end.

Definition ass_ts (s : string) : option Z :=
  '(t, cc) ← rsplit_once (byte 46) (trim s);
  cc ← parse_u64 cc;
  match split_char COLON t with
  | [h; m; s] =>
      h ← parse_u64 h; m ← parse_u64 m; sec ← parse_u64 s; Some (hms h m sec (cc * 10))
  | _ => None
  end.

(** ** Cue text *)

(** What a loop [for c in chars.by_ref()] up to [stop] passes over, and what it
    leaves. *)
Fixpoint until (stop : Ascii.ascii) (s : string) : string * string :=
  match s with
  | EmptyString => (EmptyString, EmptyString)
  | String a s =>
      if Ascii.eqb a stop then (EmptyString, s)
      else let '(l, r) := until stop s in (String a l, r)
  end.

Fixpoint trim_slashes (s : string) : string :=
  match s with
  | String a s' => if Ascii.eqb a (byte 47) then trim_slashes s' else s
  | EmptyString => s
  end.

Definition kept_tag (tag : string) : bool := str_mem (trim_slashes tag) ["i"; "b"; "u"]%string.

(** Each turn consumes a character; the length is fuel enough. *)
Fixpoint clean_fuel (fuel : nat) (s : string) : string :=
  match fuel, s with
  | S fuel, String c s =>
      if Ascii.eqb c (byte 123) then clean_fuel fuel (snd (until (byte 125) s))
      else if Ascii.eqb c (byte 60) then
        let '(tag, s) := until (byte 62) s in
        if kept_tag tag then ("<" ++ tag ++ ">" ++ clean_fuel fuel s)%string else clean_fuel fuel s
      else if Ascii.eqb c (byte 92) then
        match s with
        | String d s' =>
            if Ascii.eqb d (byte 78) || Ascii.eqb d (byte 110) then String LF (clean_fuel fuel s')
            else if Ascii.eqb d (byte 104) then String (byte 32) (clean_fuel fuel s')
            else String c (clean_fuel fuel s)
        | EmptyString => String c (clean_fuel fuel s)
        end
      else String c (clean_fuel fuel s)
  | _, _ => EmptyString
  end.
Definition clean_cue_text (text : string) : string := trim (clean_fuel (String.length text) text).

(** ** SRT and WebVTT *)

(** [replace('\r', _)] by nothing. *)
Fixpoint remove_cr (s : string) : string :=
  match s with
  | EmptyString => EmptyString
  | String a s => if Ascii.eqb a CR then remove_cr s else String a (remove_cr s)
  end.

Definition ARROW : string := "-->".
Definition is_empty (s : string) : bool := s =s EmptyString.

Definition push_cue (start end_ : Z) (text : string) : list Cue :=
  if is_empty text then [] else [mkCue start end_ text].

Definition srt_block (block : string) : list Cue :=
  let ls := lines block in
  let ls := match ls with
            | l :: rest => if is_some (parse_u64 (trim l)) then rest else ls
            | [] => ls
            end in
  match ls with
  | timing :: text =>
      match split_once_str ARROW timing with
      | Some (start, end_) =>
          match parse_timestamp start, parse_timestamp end_ with
          | Some start, Some end_ => push_cue start end_ (clean_cue_text (join lf text))
          | _, _ => []
          end
      | None => []
      end
  | [] => []
  end.
Definition parse_srt (content : string) : list Cue :=
  mjoin (map srt_block (split_str (lf ++ lf) (remove_cr content))).

(** [split_whitespace().next()], or the empty string. *)
Fixpoint until_space (s : string) : string :=
  match trim1_start s with
  | Some _ => EmptyString
  | None => match s with EmptyString => EmptyString | String a s => String a (until_space s) end
  end.
Definition first_word (s : string) : string := until_space (trim_start s).

Definition vtt_block (block : string) : list Cue :=
  let block := trim block in
  if is_empty block || starts_with "WEBVTT" block || starts_with "NOTE" block
     || starts_with "STYLE" block || starts_with "REGION" block then []
  else
    let ls := lines block in
    let ls := match ls with
              | l :: rest => if str_contains ARROW l then ls else rest
              | [] => ls
              end in
    match ls with
    | timing :: text =>
        match split_once_str ARROW timing with
        | Some (start, rest) =>
            match parse_timestamp start, parse_timestamp (first_word rest) with
            | Some start, Some end_ => push_cue start end_ (clean_cue_text (join lf text))
            | _, _ => []
            end
        | None => []
        end
    | [] => []
    end.
Definition parse_vtt (content : string) : list Cue :=
  mjoin (map vtt_block (split_str (lf ++ lf) (remove_cr content))).

(** [as i64], and wrapping i64 addition. *)
Definition to_i64 (z : Z) : Z := wrap 64 (z + 2 ^ 63) - 2 ^ 63.

Definition vtt_cue (shift_ms : Z) (c : Cue) : string :=
  let start := to_i64 (to_i64 (cue_start c) + shift_ms) in
  let end_ := to_i64 (to_i64 (cue_end c) + shift_ms) in
  if end_ <=? 0 then EmptyString
  else (vtt_ts start ++ " --> " ++ vtt_ts end_ ++ lf ++ cue_text c ++ lf ++ lf)%string.
Definition to_vtt (cues : list Cue) (shift_ms : Z) : string :=
  ("WEBVTT" ++ lf ++ lf ++ String.concat EmptyString (map (vtt_cue shift_ms) cues))%string.

(** ** ASS *)

(** [trim_end_matches('\r')]. *)
Fixpoint trim_crs (s : string) : string :=
  match s with
  | EmptyString => EmptyString
  | String a s =>
      match trim_crs s with
      | EmptyString => if Ascii.eqb a CR then EmptyString else String a EmptyString
      | r => String a r
      end
  end.

(** [splitn(n, ',')]. *)
Fixpoint splitn (n : nat) (c : Ascii.ascii) (s : string) : list string :=
  match n with
  | O => []
  | S O => [s]
  | S n => match split_once c s with Some (l, r) => l :: splitn n c r | None => [s] end
  end.

Definition is_section (line : string) : bool := starts_with "[" (trim line).
Definition is_events (line : string) : bool := to_ascii_lowercase (trim line) =s "[events]".
Definition format_fields (fmt : string) : list string :=
  map (fun f => to_ascii_lowercase (trim f)) (split_char COMMA fmt).

Definition field (fields parts : list string) (name : string) : option string :=
  position (String.eqb name) fields ≫= fun i => parts !! i.

Definition AssState : Type := bool * list string * list Cue.
Definition ass_line (s : AssState) (line : string) : AssState :=
  let '(in_events, fields, cues) := s in
  let line := trim_crs line in
  if is_section line then (is_events line, fields, cues)
  else if negb in_events then s
  else
    match strip_prefix "Format:" line with
    | Some fmt => (in_events, format_fields fmt, cues)
    | None =>
        match strip_prefix "Dialogue:" line with
        | None => s
        | Some dialogue =>
            let parts := splitn (length fields) COMMA dialogue in
            match field fields parts "start", field fields parts "end", field fields parts "text" with
            | Some start, Some end_, Some text =>
                match ass_ts start, ass_ts end_ with
                | Some start, Some end_ =>
                    (in_events, fields, cues ++ push_cue start end_ (clean_cue_text text))
                | _, _ => s
                end
            | _, _, _ => s
            end
        end
    end.

Definition by_cue_start (a b : Cue) : comparison := (cue_start a ?= cue_start b)%Z.
Definition parse_ass (content : string) : list Cue :=
  sort_by by_cue_start (snd (fold_left ass_line (lines content) (false, [], []))).

Definition parse (format : string) (content : string) : option (list Cue) :=
  if str_mem format ["srt"; "subrip"]%string then Some (parse_srt content)
  else if str_mem format ["ass"; "ssa"]%string then Some (parse_ass content)
  else if str_mem format ["webvtt"; "vtt"]%string then Some (parse_vtt content)
  else None.

(** A Dialogue line from a payload and its timing. *)
Definition ass_dialogue (raw : string) (start_ms end_ms : Z) : option string :=
  '(_, rest) ← split_once COMMA raw;
  '(layer, rest) ← split_once COMMA rest;
  Some ("Dialogue: " ++ layer ++ "," ++ ass_stamp start_ms ++ "," ++ ass_stamp end_ms ++ ","
        ++ rest)%string.

Record AssFile := mkAssFile {
  af_header : string;
  af_events : list (Z * Z * string);
  af_fields : list string;
  af_in_events : bool;
}.

Definition event_payload (n : nat) (fields parts : list string) : string :=
  let f name := map_or EmptyString trim (field fields parts name) in
  join "," [show (Z.of_nat n); f "layer"; f "style"; f "name"; f "marginl"; f "marginr";
            f "marginv"; f "effect"; default EmptyString (field fields parts "text")]%string.

Definition ass_file_line (s : AssFile) (line : string) : AssFile :=
  let '(mkAssFile header events fields in_events) := s in
  let line := trim_crs line in
  let '(in_events, fields) :=
    if is_section line then (is_events line, fields)
    else match (if in_events then strip_prefix "Format:" line else None) with
         | Some fmt => (in_events, format_fields fmt)
         | None => (in_events, fields)
         end in
  match (if in_events then strip_prefix "Dialogue:" line else None) with
  | None =>
      let header := if bool_decide (events = []) then (header ++ line ++ lf)%string else header in
      mkAssFile header events fields in_events
  | Some dialogue =>
      let parts := splitn (length fields) COMMA dialogue in
      let f name := map_or EmptyString trim (field fields parts name) in
      match fields, ass_ts (f "start"%string), ass_ts (f "end"%string) with
      | _ :: _, Some start, Some end_ =>
          mkAssFile header (events ++ [(start, end_, event_payload (length events) fields parts)])
            fields in_events
      | _, _, _ => mkAssFile header events fields in_events
      end
  end.
Definition ass_file_events (content : string) : string * list (Z * Z * string) :=
  let s := fold_left ass_file_line (lines content) (mkAssFile EmptyString [] [] false) in
  (af_header s, af_events s).

Definition EVENTS_HEADER : string :=
  (lf ++ lf ++ "[Events]" ++ lf
   ++ "Format: Layer, Start, End, Style, Name, MarginL, MarginR, MarginV, Effect, Text")%string.
Definition compose_header (h : string) : string :=
  let out := trim_end h in
  let out := if str_contains "[events]" (to_ascii_lowercase out) then out
             else (out ++ EVENTS_HEADER)%string in
  (out ++ lf)%string.

Record Extracted := mkExtracted { cues : list Cue; ass : option string }.
