(* ===== verification/SubtitlesTheorems.v ===== *)
(** * Subtitles written and read back

    Timestamps, and whole WebVTT documents: what [to_vtt] prints [parse_vtt]
    reads as the same cues, for cues whose text is plain. *)
From Stdlib Require Import DecimalString.
From S2P Require Import Prelude Utf8 Text Subtitles.

#[local] Open Scope Z_scope.

(** ** Strings *)

Definition ts_char (a : Ascii.ascii) : bool := is_digit a || Ascii.eqb a COLON || Ascii.eqb a (byte 46).

Lemma digit_ts a : is_digit a = true -> ts_char a = true.
Proof. unfold ts_char. by intros ->. Qed.

Lemma digits_ts s : str_all is_digit s = true -> str_all ts_char s = true.
Proof. by apply str_all_impl, digit_ts. Qed.

Lemma ts_plain c : ts_char c = false -> forall s, str_all ts_char s = true -> str_mem_char c s = false.
Proof.
  intros Hc s. induction s as [|a s IH]; simpl; [done|]. intros [Ha Hs]%andb_true_iff.
  rewrite IH by done. destruct (Ascii.eqb_spec a c) as [->|]; [congruence|done].
Qed.

(** ** Numbers *)

Lemma pad3_digits z : str_all is_digit (pad3 z) = true.
Proof. unfold pad3. destruct (z <? 100); by rewrite ?str_all_app, ?pad2_digits, ?show_is_digits. Qed.

(** Three digits are a number of three digits. *)
Lemma pad3_reads z : 0 <= z < 1000 -> first3 (pad3 z) ≫= parse_u64 = Some z.
Proof.
  intros Hz.
  assert (forallb (fun n => bool_decide (first3 (pad3 (Z.of_nat n)) ≫= parse_u64 = Some (Z.of_nat n)))
    (seq 0 1000) = true) as H by (vm_compute; reflexivity).
  rewrite forallb_forall in H. specialize (H (Z.to_nat z)). rewrite Z2Nat.id in H by lia.
  apply bool_decide_eq_true in H; [done|]. apply in_seq. lia.
Qed.

(** ** White space *)

Lemma ts_starts_word a : ts_char a = true -> starts_word a = true.
Proof.
  intros H. assert (implb (ts_char a) (starts_word a) = true) as Hi.
  { apply (byte_cases (fun a => implb (ts_char a) (starts_word a))). vm_compute. reflexivity. }
  rewrite H in Hi. exact Hi.
Qed.

Lemma trim1_end_ts s : str_all ts_char s = true -> trim1_end s = None.
Proof.
  intros Hs. apply first_match. intros w Hw. destruct (strip_suffix w s) as [r|] eqn:Hr; [|done].
  apply strip_suffix_Some in Hr. rewrite Hr, str_all_app in Hs. apply andb_true_iff in Hs as [_ Hs].
  assert (forallb (fun w => negb (str_all ts_char w)) white_space = true) as Hf by (vm_compute; reflexivity).
  rewrite forallb_forall in Hf. apply list_elem_of_In, Hf in Hw. by rewrite Hs in Hw.
Qed.

(** ** Separators *)

Lemma rsplit_sep_fresh s : str_all is_digit s = true -> rsplit_sep s = None.
Proof.
  induction s as [|a s IH]; [done|]. cbn [str_all rsplit_sep]. intros [Ha Hs]%andb_true_iff.
  rewrite IH by done. destruct (Ascii.eqb_spec a COMMA) as [->|]; [done|].
  destruct (Ascii.eqb_spec a (byte 46)) as [->|]; done.
Qed.
Lemma rsplit_sep_cut x y : str_all is_digit y = true -> rsplit_sep (x +:+ String (byte 46) y) = Some (x, y).
Proof.
  intros Hy. induction x as [|a x IH]; rewrite ?empty_app, ?cons_app; cbn [rsplit_sep]; [|by rewrite IH].
  by rewrite rsplit_sep_fresh.
Qed.

(** ** Timestamps *)

Definition clock (hs : string) (ms : Z) : string :=
  (hs ++ ":" ++ pad2 (ms / 60000 mod 60) ++ ":" ++ pad2 (ms / 1000 mod 60))%string.

Lemma clock_split hs ms :
  str_all is_digit hs = true ->
  split_char COLON (clock hs ms) = [hs; pad2 (ms / 60000 mod 60); pad2 (ms / 1000 mod 60)].
Proof.
  intros Hh. unfold clock. change (":" +:+ ?s)%string with (String COLON s).
  rewrite split_char_cut by (by apply digit_plain).
  change (":" +:+ ?s)%string with (String COLON s).
  rewrite split_char_cut by (apply digit_plain; [done|apply pad2_digits]).
  by rewrite split_char_fresh by (apply digit_plain; [done|apply pad2_digits]).
Qed.
Lemma clock_all hs ms : str_all is_digit hs = true -> str_all ts_char (clock hs ms) = true.
Proof.
  intros Hh. unfold clock. rewrite !str_all_app.
  rewrite (digits_ts hs Hh), !(digits_ts (pad2 _) (pad2_digits _)). done.
Qed.

Lemma vtt_ts_clock ms :
  0 <= ms -> vtt_ts ms = (clock (pad2 (ms / 3600000)) ms +:+ String (byte 46) (pad3 (ms mod 1000)))%string.
Proof. intros Hms. unfold vtt_ts, clock. rewrite Z.max_l by lia. by rewrite !app_assoc_s. Qed.
Lemma ass_stamp_clock ms :
  ass_stamp ms = (clock (show (ms / 3600000)) ms +:+ String (byte 46) (pad2 (ms mod 1000 / 10)))%string.
Proof. unfold ass_stamp, clock. by rewrite !app_assoc_s. Qed.

Lemma ts_all hs ms fs :
  str_all is_digit hs = true -> str_all is_digit fs = true ->
  str_all ts_char (clock hs ms +:+ String (byte 46) fs) = true.
Proof.
  intros Hh Hf. rewrite str_all_app, clock_all by done. cbn [str_all]. by rewrite digits_ts.
Qed.
Lemma vtt_ts_all ms : 0 <= ms -> str_all ts_char (vtt_ts ms) = true.
Proof. intros H. rewrite vtt_ts_clock by done. apply ts_all; [apply pad2_digits|apply pad3_digits]. Qed.
Lemma vtt_ts_head ms : 0 <= ms -> exists a s, vtt_ts ms = String a s /\ is_digit a = true.
Proof.
  intros H. rewrite vtt_ts_clock by done. unfold clock. destruct (pad2_head (ms / 3600000)) as (a & s & -> & Ha).
  eexists a, _. rewrite !cons_app. done.
Qed.

Lemma trim_ts s : str_all ts_char s = true -> trim s = s.
Proof.
  intros Hs. apply trim_id; [|by apply trim1_end_ts]. destruct s as [|a s]; [by vm_compute|].
  simpl in Hs. apply andb_true_iff in Hs as [Ha _]. by apply trim1_start_word, ts_starts_word.
Qed.

Lemma hms_ms ms r :
  0 <= ms < 2 ^ 64 -> 0 <= r <= ms mod 1000 ->
  hms (ms / 3600000) (ms / 60000 mod 60) (ms / 1000 mod 60) r = ms - ms mod 1000 + r.
Proof.
  intros Hms Hr. unfold hms.
  replace (((ms / 3600000 * 60 + ms / 60000 mod 60) * 60 + ms / 1000 mod 60) * 1000 + r)
    with (ms - ms mod 1000 + r).
  - apply wrap_small. unfold in_range. pose proof (Z.mod_pos_bound ms 1000 ltac:(lia)). pose proof (Z.mod_le ms 1000 ltac:(lia) ltac:(lia)). lia.
  - assert (ms / 3600000 = ms / 1000 / 60 / 60) as -> by (rewrite !Z.div_div by lia; reflexivity).
    assert (ms / 60000 = ms / 1000 / 60) as -> by (rewrite Z.div_div by lia; reflexivity).
    pose proof (Z.div_mod ms 1000 ltac:(lia)).
    pose proof (Z.div_mod (ms / 1000) 60 ltac:(lia)).
    pose proof (Z.div_mod (ms / 1000 / 60) 60 ltac:(lia)). lia.
Qed.

(** The stamp between white space, as the parsers cut it out. *)
Lemma parse_stamp s ms : 0 <= ms < 2 ^ 64 -> trim s = vtt_ts ms -> parse_timestamp s = Some ms.
Proof.
  intros Hms Hs. unfold parse_timestamp. rewrite Hs, vtt_ts_clock by lia.
  rewrite rsplit_sep_cut by apply pad3_digits. cbn [mbind option_bind].
  pose proof (Z.mod_pos_bound ms 1000 ltac:(lia)).
  rewrite pad3_reads by lia. cbn [mbind option_bind]. rewrite clock_split by apply pad2_digits.
  assert (ms / 3600000 < 2 ^ 64) by (apply Z.div_lt_upper_bound; lia).
  pose proof (Z.div_pos ms 3600000 ltac:(lia) ltac:(lia)).
  pose proof (Z.mod_pos_bound (ms / 60000) 60 ltac:(lia)). pose proof (Z.mod_pos_bound (ms / 1000) 60 ltac:(lia)).
  unfold parse_u64. rewrite !parse_pad2 by (unfold u64_max; lia). cbn [mbind option_bind].
  rewrite hms_ms by lia. f_equal. lia.
Qed.

(** A WebVTT timestamp reads back as the millisecond it was printed from,
    and an ASS timestamp as the centisecond it falls in. *)
Theorem timestamps_roundtrip ms :
  0 <= ms < 2 ^ 64 ->
  parse_timestamp (vtt_ts ms) = Some ms /\ ass_ts (ass_stamp ms) = Some (ms - ms mod 10).
Proof.
  intros Hms. split.
  { apply parse_stamp; [done|]. apply trim_ts, vtt_ts_all. lia. }
  unfold ass_ts. rewrite ass_stamp_clock, trim_ts.
  2:{ apply ts_all; [apply show_is_digits|apply pad2_digits]. }
  rewrite rsplit_once_app by (apply digit_plain; [done|apply pad2_digits]). cbn [mbind option_bind].
  pose proof (Z.mod_pos_bound ms 1000 ltac:(lia)).
  assert (ms / 3600000 < 2 ^ 64) by (apply Z.div_lt_upper_bound; lia).
  assert (ms mod 1000 / 10 < 100) by (apply Z.div_lt_upper_bound; lia).
  pose proof (Z.div_pos ms 3600000 ltac:(lia) ltac:(lia)).
  pose proof (Z.div_pos (ms mod 1000) 10 ltac:(lia) ltac:(lia)).
  pose proof (Z.mod_pos_bound (ms / 60000) 60 ltac:(lia)). pose proof (Z.mod_pos_bound (ms / 1000) 60 ltac:(lia)).
  unfold parse_u64. rewrite parse_pad2 by (unfold u64_max; lia). cbn [mbind option_bind].
  rewrite clock_split by apply show_is_digits.
  rewrite parse_show by (unfold u64_max; lia). cbn [mbind option_bind].
  rewrite !parse_pad2 by (unfold u64_max; lia). cbn [mbind option_bind].
  assert (ms mod 10 = ms mod 1000 mod 10) as Hmod.
  { symmetry. rewrite <- (Znumtheory.Zmod_div_mod 10 1000 ms); [done|lia|lia|]. by exists 100. }
  pose proof (Z.div_mod (ms mod 1000) 10 ltac:(lia)). pose proof (Z.mod_pos_bound (ms mod 1000) 10 ltac:(lia)).
  rewrite hms_ms by lia. f_equal. lia.
Qed.

Lemma timestamps_roundtrip_witness :
  parse_timestamp "01:02:03.456" = Some 3723456 /\ ass_ts "1:02:03.45" = Some 3723450.
Proof. apply (timestamps_roundtrip 3723456). split; [discriminate|reflexivity]. Defined.

(** ** WebVTT documents *)

(** No line of it is empty, but for what precedes it. *)
Fixpoint tidy (s : string) : bool :=
  match s with
  | EmptyString => true
  | String a s =>
      negb (Ascii.eqb a LF && match s with EmptyString => true | String b _ => Ascii.eqb b LF end) && tidy s
  end.

(** A text that the document's format leaves alone: not empty, its lines not
    empty, no carriage return, no white space around it, nothing the cleaning
    of cues takes out. *)
Definition plain_text (t : string) : bool :=
  tidy (String LF t) && negb (str_mem_char CR t) && is_none (trim1_end t) && (clean_cue_text t =s t).
Definition plain_cue (c : Cue) : Prop :=
  0 <= cue_start c < 2 ^ 63 /\ 0 < cue_end c < 2 ^ 63 /\ plain_text (cue_text c) = true.

Lemma tidy_app x y : str_mem_char LF x = false -> tidy (x +:+ y) = tidy y.
Proof.
  induction x as [|a x IH]; rewrite ?empty_app, ?cons_app; [done|]. cbn [str_mem_char tidy].
  intros [Ha Hx]%orb_false_iff. by rewrite Ha, IH.
Qed.

Lemma remove_cr_id s : str_mem_char CR s = false -> remove_cr s = s.
Proof.
  induction s as [|a s IH]; [done|]. cbn [str_mem_char remove_cr].
  intros [-> Hs]%orb_false_iff. by rewrite IH.
Qed.

(** Cutting at blank lines. *)
Lemma cut_blank x rest :
  x <> EmptyString -> tidy x = true ->
  split_once_str (lf +:+ lf) (x +:+ (lf +:+ lf +:+ rest)) = Some (x, rest).
Proof.
  change (lf +:+ lf +:+ rest)%string with (String LF (String LF rest)).
  change (lf +:+ lf)%string with (String LF (String LF EmptyString)).
  induction x as [|a x IH]; [done|]. intros _ [Ha Hx]%andb_true_iff. rewrite cons_app.
  assert (strip_prefix (String LF (String LF EmptyString))
    (String a (x +:+ String LF (String LF rest))) = None) as Hn.
  { cbn [strip_prefix]. rewrite (Ascii.eqb_sym LF a). destruct (Ascii.eqb a LF); [|done].
    destruct x as [|b x]; [done|]. rewrite cons_app. rewrite (Ascii.eqb_sym LF b).
    destruct (Ascii.eqb b LF); done. }
  cbn [split_once_str]. rewrite Hn. destruct x as [|b x]; [|by rewrite IH].
  rewrite empty_app. cbn [split_once_str strip_prefix]. by rewrite Ascii.eqb_refl.
Qed.

Lemma split_blank x rest fuel :
  x <> EmptyString -> tidy x = true ->
  split_str_fuel (S fuel) (lf +:+ lf) (x +:+ (lf +:+ lf +:+ rest))
  = x :: split_str_fuel fuel (lf +:+ lf) rest.
Proof. intros H1 H2. cbn [split_str_fuel]. by rewrite cut_blank. Qed.

Lemma join_split s : join lf (split_char LF s) = s.
Proof.
  induction s as [|a s IH]; [done|]. cbn [split_char].
  destruct (split_char LF s) as [|w ws] eqn:Hw.
  { by apply split_char_ne in Hw. }
  destruct (Ascii.eqb_spec a LF) as [->|_].
  - cbn [join] in *. rewrite IH. reflexivity.
  - destruct ws; cbn [join] in *; [by rewrite <- IH|]. rewrite <- IH, cons_app. done.
Qed.

Lemma drop_cr_id w : str_mem_char CR w = false -> drop_cr w = w.
Proof.
  intros H. unfold drop_cr. destruct (strip_suffix _ w) as [r|] eqn:Hr; [|done].
  apply strip_suffix_Some in Hr. rewrite Hr, mem_char_app in H.
  apply orb_false_iff in H as [_ H]. discriminate.
Qed.

Lemma lines_split s :
  str_mem_char CR s = false -> tidy s = true -> s <> EmptyString -> lines s = split_char LF s.
Proof.
  unfold lines. change (byte 10) with LF. induction s as [|a s IH]; [done|]. intros Hc Ht _.
  cbn [str_mem_char tidy] in *. apply orb_false_iff in Hc as [Ha Hc]. apply andb_true_iff in Ht as [Hb Ht].
  destruct s as [|b s].
  { cbn [split_char] in *. rewrite andb_true_r in Hb. apply negb_true_iff in Hb. by rewrite Hb. }
  specialize (IH Hc Ht ltac:(done)). set (s' := String b s) in *. cbn [split_char].
  destruct (split_char LF s') as [|w ws] eqn:Hw; [by apply split_char_ne in Hw|].
  assert (Hmem : str_mem_char CR w = false).
  { rewrite <- (join_split s'), Hw in Hc. destruct ws; cbn [join] in Hc; [done|].
    rewrite mem_char_app in Hc. by apply orb_false_iff in Hc as [? _]. }
  destruct (Ascii.eqb_spec a LF) as [->|_].
  - cbn [lines_of]. by rewrite drop_cr_id, <- IH at 1.
  - destruct ws as [|w' ws]; [done|]. cbn [lines_of] in *. injection IH as _ IH.
    rewrite IH. rewrite drop_cr_id; [done|]. cbn [str_mem_char]. by rewrite Ha.
Qed.

(** *** Ends of strings *)

Definition space : string := String (byte 32) EmptyString.
Lemma space_in : space ∈ white_space.
Proof. apply list_elem_of_In. cbn. tauto. Qed.

Lemma ws_facts w :
  w ∈ white_space ->
  (str_mem_char LF w = true -> w = lf) /\ (str_mem_char (byte 32) w = true -> w = space) /\ w <> EmptyString.
Proof.
  intros Hw. assert (forallb (fun w => (negb (str_mem_char LF w) || (w =s lf))
    && (negb (str_mem_char (byte 32) w) || (w =s space)) && negb (w =s EmptyString)) white_space = true) as H
    by (vm_compute; reflexivity).
  rewrite forallb_forall in H. apply list_elem_of_In, H in Hw.
  apply andb_true_iff in Hw as [[H1 H2]%andb_true_iff H3]. split_and!.
  - intros Hc. rewrite Hc in H1. by apply String.eqb_eq in H1.
  - intros Hc. rewrite Hc in H2. by apply String.eqb_eq in H2.
  - intros ->. discriminate.
Qed.

Lemma trim1_end_space s : trim1_end (s +:+ space) = Some s.
Proof.
  apply (first_hit _ _ space); [apply space_in|apply strip_suffix_app|].
  intros w Hw Hne. destruct (strip_suffix w (s +:+ space)) as [r|] eqn:Hr; [|done].
  apply strip_suffix_Some in Hr. destruct (ws_facts w Hw) as (_ & H2 & H3). exfalso.
  apply suffix_split in Hr as [[t' Ht]|[w' ->]].
  - by destruct t', w.
  - apply Hne, H2. rewrite mem_char_app. cbn. by rewrite orb_true_r.
Qed.

Lemma trim1_end_after x t :
  t <> EmptyString -> trim1_end t = None -> trim1_end (x +:+ String LF t) = None.
Proof.
  intros Hne Ht. apply first_match. intros w Hw.
  destruct (strip_suffix w (x +:+ String LF t)) as [r|] eqn:Hr; [|done]. exfalso.
  apply strip_suffix_Some in Hr. destruct (ws_facts w Hw) as (H1 & _).
  apply suffix_split in Hr as [[t' ->]|[w' ->]].
  - unfold trim1_end in Ht. pose proof (proj1 (first_match _ _) Ht w Hw) as Hn. cbn beta in Hn.
    by rewrite strip_suffix_app in Hn.
  - assert (String LF t = lf -> False) as Hf by (intros [= ->]; done). apply Hf.
    assert (w' +:+ String LF t = lf)%string as Hl.
    { apply H1. rewrite mem_char_app. cbn [str_mem_char]. by rewrite Ascii.eqb_refl, orb_true_r. }
    destruct w' as [|b w']; [done|]. rewrite cons_app in Hl. injection Hl as _ Hl. by destruct w'.
Qed.

Lemma trim1_start_space s : trim1_start (String (byte 32) s) = Some s.
Proof.
  apply (first_hit _ _ space); [apply space_in|reflexivity|].
  intros w Hw Hne. destruct (ws_facts w Hw) as (_ & H2 & H3). destruct w as [|a w]; [done|].
  cbn [strip_prefix]. destruct (Ascii.eqb_spec a (byte 32)) as [->|]; [|done].
  exfalso. by apply Hne, H2.
Qed.

Lemma ts_start s : str_all ts_char s = true -> trim1_start s = None.
Proof.
  destruct s as [|a s]; [by vm_compute|]. cbn [str_all]. intros [Ha _]%andb_true_iff.
  by apply trim1_start_word, ts_starts_word.
Qed.

(** A stamp before and after a space. *)
Lemma trim_before s : s <> EmptyString -> str_all ts_char s = true -> trim (s +:+ space) = s.
Proof.
  intros Hne Hs. unfold trim. rewrite trim_start_id.
  2:{ destruct s as [|a s]; [done|]. rewrite cons_app. cbn [str_all] in Hs.
      apply andb_true_iff in Hs as [Ha _]. by apply trim1_start_word, ts_starts_word. }
  unfold trim_end. rewrite length_app_s, Nat.add_comm. cbn [Nat.add String.length space trim_end_fuel].
  change (String (byte 32) EmptyString) with space. rewrite trim1_end_space.
  destruct (String.length s); [done|]. cbn [trim_end_fuel]. by rewrite trim1_end_ts.
Qed.
Lemma until_space_ts s : str_all ts_char s = true -> until_space s = s.
Proof.
  induction s as [|a s IH]; [by vm_compute|]. intros Hs. cbn [until_space]. rewrite ts_start by done.
  cbn [str_all] in Hs. apply andb_true_iff in Hs as [_ Hs]. by rewrite IH.
Qed.
Lemma first_word_ts s : str_all ts_char s = true -> first_word (String (byte 32) s) = s.
Proof.
  intros Hs. unfold first_word, trim_start. cbn [String.length trim_start_fuel]. rewrite trim1_start_space.
  destruct (String.length s); cbn [trim_start_fuel]; [by apply until_space_ts|].
  rewrite ts_start by done. by apply until_space_ts.
Qed.

(** *** A cue, a document *)

Definition timing (c : Cue) : string :=
  ((vtt_ts (cue_start c) +:+ space) +:+ (ARROW +:+ String (byte 32) (vtt_ts (cue_end c))))%string.
Definition block (c : Cue) : string := (timing c +:+ String LF (cue_text c))%string.

Lemma to_i64_small z : 0 <= z < 2 ^ 63 -> to_i64 z = z.
Proof. intros Hz. unfold to_i64. rewrite wrap_small; [lia|]. unfold in_range. lia. Qed.

Lemma vtt_cue_block c : plain_cue c -> vtt_cue 0 c = (block c +:+ (lf +:+ lf))%string.
Proof.
  intros (Hs & He & _). unfold vtt_cue. rewrite !Z.add_0_r.
  rewrite !(to_i64_small (cue_start c)), !(to_i64_small (cue_end c)) by lia. destruct (Z.leb_spec (cue_end c) 0); [lia|].
  unfold block, timing. rewrite !app_assoc_s. reflexivity.
Qed.

Lemma timing_without c ch :
  plain_cue c -> ts_char ch = false -> str_mem_char ch (String (byte 32) ARROW) = false ->
  str_mem_char ch (timing c) = false.
Proof.
  intros (Hs & He & _) H1 H2. unfold timing. cbn [str_mem_char] in H2.
  apply orb_false_iff in H2 as [H2 H3]. rewrite !mem_char_app.
  cbn [str_mem_char space]. rewrite H3, H2, !(ts_plain ch H1) by (apply vtt_ts_all; lia). done.
Qed.

Lemma plain_text_parts t :
  plain_text t = true ->
  t <> EmptyString /\ tidy t = true /\ tidy (String LF t) = true /\ str_mem_char CR t = false
  /\ trim1_end t = None /\ clean_cue_text t = t.
Proof.
  unfold plain_text. intros [[[H1 H2]%andb_true_iff H3]%andb_true_iff H4]%andb_true_iff.
  apply negb_true_iff in H2. apply String.eqb_eq in H4. split_and!; try done.
  - intros ->. discriminate.
  - cbn [tidy] in H1. by apply andb_true_iff in H1 as [_ ?].
  - destruct (trim1_end t); [discriminate|done].
Qed.

Lemma block_head c : plain_cue c -> exists a s, block c = String a s /\ is_digit a = true.
Proof.
  intros (Hs & _). unfold block, timing. destruct (vtt_ts_head (cue_start c)) as (a & s & -> & Ha); [lia|].
  eexists a, _. rewrite !cons_app. done.
Qed.

Lemma digit_starts_not p a s :
  is_digit a = true -> match p with String b _ => is_digit b | EmptyString => true end = false ->
  starts_with p (String a s) = false.
Proof.
  intros Ha. destruct p as [|b p]; [done|]. intros Hb. unfold starts_with. cbn [strip_prefix].
  destruct (Ascii.eqb_spec b a) as [->|]; [congruence|done].
Qed.

Lemma vtt_block_block c : plain_cue c -> vtt_block (block c) = [c].
Proof.
  intros Hc. pose proof Hc as (Hs & He & Ht). apply plain_text_parts in Ht as (Hne & Htidy & Hlf & Hcr & Hend & Hclean).
  destruct (block_head c Hc) as (a & s & Hb & Ha). unfold vtt_block.
  assert (trim (block c) = block c) as ->.
  { apply trim_id; [rewrite Hb; by apply trim1_start_word, ts_starts_word, digit_ts|].
    unfold block. by apply trim1_end_after. }
  rewrite Hb at 1 2 3 4 5. cbn [is_empty]. rewrite !(digit_starts_not _ a s Ha) by done. cbn [orb].
  assert (lines (block c) = timing c :: lines (cue_text c)) as ->.
  { rewrite !lines_split; try done.
    - unfold block. apply split_char_cut. by apply timing_without.
    - unfold block. rewrite mem_char_app. rewrite timing_without by done. cbn [str_mem_char]. by rewrite Hcr.
    - unfold block. rewrite tidy_app; [done|]. by apply timing_without.
    - by rewrite Hb. }
  unfold timing at 1. rewrite contains_app. unfold timing. unfold ARROW at 1.
  rewrite split_once_fresh.
  2:{ rewrite mem_char_app, ts_plain; [done|done|]. apply vtt_ts_all. lia. }
  rewrite first_word_ts by (apply vtt_ts_all; lia).
  rewrite (parse_stamp _ (cue_start c)), (parse_stamp _ (cue_end c)); [|lia|apply trim_ts, vtt_ts_all; lia|lia|].
  2:{ apply trim_before; [|apply vtt_ts_all; lia]. destruct (vtt_ts_head (cue_start c)) as (? & ? & -> & _); [lia|done]. }
  rewrite lines_split, join_split, Hclean by done. unfold push_cue, is_empty.
  destruct (String.eqb_spec (cue_text c) EmptyString); [done|]. by destruct c.
Qed.

Definition document (cs : list Cue) : string := String.concat EmptyString (map (vtt_cue 0) cs).

Lemma document_cons c cs :
  plain_cue c -> document (c :: cs) = (block c +:+ (lf +:+ lf +:+ document cs))%string.
Proof.
  intros Hc. unfold document. cbn [map]. rewrite (vtt_cue_block c Hc).
  destruct cs as [|c' cs]; [reflexivity|]. cbn [map String.concat]. rewrite empty_app, !app_assoc_s.
  reflexivity.
Qed.

Lemma parse_document fuel cs :
  Forall plain_cue cs -> (length cs <= fuel)%nat ->
  mjoin (map vtt_block (split_str_fuel fuel (lf +:+ lf) (document cs))) = cs.
Proof.
  intros Hcs. revert fuel. induction Hcs as [|c cs Hc _ IH]; intros fuel Hf; [by destruct fuel|].
  destruct fuel as [|fuel]; [simpl in Hf; lia|]. rewrite document_cons by done.
  pose proof Hc as (_ & _ & Ht). apply plain_text_parts in Ht as (Hne & _ & Hlf & _).
  rewrite split_blank.
  - cbn [map mjoin list_join]. rewrite vtt_block_block by done. rewrite IH by (simpl in Hf; lia). done.
  - destruct (block_head c Hc) as (a & s & -> & _). done.
  - unfold block. rewrite tidy_app; [done|]. by apply timing_without.
Qed.

Lemma document_long cs : Forall plain_cue cs -> (length cs <= String.length (document cs))%nat.
Proof.
  induction 1 as [|c cs Hc _ IH]; [simpl; lia|]. rewrite document_cons by done.
  rewrite length_app_s. destruct (block_head c Hc) as (a & s & -> & _).
  rewrite !length_app_s. cbn [String.length length]. lia.
Qed.

Lemma document_cr cs : Forall plain_cue cs -> str_mem_char CR (document cs) = false.
Proof.
  induction 1 as [|c cs Hc _ IH]; [done|]. rewrite document_cons by done.
  rewrite !mem_char_app, IH. unfold block. rewrite mem_char_app, timing_without by done.
  pose proof Hc as (_ & _ & Ht). apply plain_text_parts in Ht as (_ & _ & _ & Hcr & _).
  cbn [str_mem_char]. by rewrite Hcr.
Qed.

(** The WebVTT document written for a list of cues reads back as exactly
    those cues, times and texts, where the texts are plain: no empty lines, no
    white space around them, nothing the cleaning of cues would take out. *)
Theorem vtt_roundtrip cs : Forall plain_cue cs -> parse_vtt (to_vtt cs 0) = cs.
Proof.
  intros Hcs. unfold parse_vtt, to_vtt, split_str. fold (document cs).
  rewrite remove_cr_id by (rewrite !mem_char_app, document_cr by done; done).
  rewrite !length_app_s. cbn [String.length Nat.add]. rewrite split_blank by done.
  cbn [map mjoin list_join]. change (vtt_block "WEBVTT") with (@nil Cue). cbn [app].
  apply parse_document; [done|]. pose proof (document_long cs Hcs). lia.
Qed.

Definition two_lines : string := ("first line" +:+ lf +:+ "second --> <i>line</i>")%string.
Lemma vtt_roundtrip_witness :
  parse_vtt (to_vtt [mkCue 0 1500 "hello"; mkCue 3723456 3730000 two_lines] 0)
  = [mkCue 0 1500 "hello"; mkCue 3723456 3730000 two_lines].
Proof.
  apply vtt_roundtrip. repeat constructor; cbn; try lia; vm_compute; reflexivity.
Defined.

(** Two line breaks in a row pass through the cleaning of an ASS text, and the
    document ends the cue at the empty line they make: the rest is lost. *)
Theorem blank_line_cuts_cue :
  let text := clean_cue_text "above\N\Nbelow" in
  let c := mkCue 0 1000 text in
  text = ("above" +:+ lf +:+ lf +:+ "below")%string
  /\ parse_vtt (to_vtt [c] 0) = [mkCue 0 1000 "above"].
Proof. vm_compute. split; reflexivity. Qed.
