(* ===== verification/Names.v ===== *)
(** * File names (kahawai-core, src/names.rs)

    What a path says about the film, the episode or the track it holds, before
    any provider is asked: the title and year of a film, the season and number
    of an episode in the spellings libraries use, the fansub tokenizer, the
    layout of music. A [u32] is a [Z]; a sum that passes its width wraps, as
    the release profile does. The Unicode tables of the standard library are
    the class [Unicode]; everything else looks at ASCII only. *)
From S2P Require Import Prelude Text.

#[local] Open Scope string_scope.
#[local] Open Scope list_scope.
#[local] Open Scope Z_scope.

(** The tables: a character is its UTF-8 bytes. *)
Class Unicode := {
  char_alphanumeric : string -> bool;   (* char::is_alphanumeric *)
  char_lowercase : string -> string;    (* char::to_lowercase, collected *)
  str_lowercase : string -> string      (* str::to_lowercase *)
}.

Definition ch (n : N) : Ascii.ascii -> bool := one_of [n].
Definition SLASH : Ascii.ascii := byte 47.
Definition DOT : Ascii.ascii := byte 46.
Definition SPACE : Ascii.ascii := byte 32.
Definition DASH : Ascii.ascii := byte 45.
Definition parse_u32 : string -> option Z := parse_uint u32_max.
Definition parse_u16 : string -> option Z := parse_uint (2 ^ 16 - 1).
(** [s.parse::<i64>()]. *)
Definition parse_i64 (s : string) : option Z :=
  match strip_char (ch 45) s with
  | Some r => if r =s EmptyString then None else Z.opp <$> parse_digits (2 ^ 63) 0 r
  | None => parse_uint i64_max s
  end.
Definition slen (s : string) : nat := String.length s.
Definition is_year (z : Z) : bool := (1900 <=? z) && (z <=? 2099).

(** [iter().enumerate().find_map] and the same from the end. *)
Fixpoint find_map {A B} (f : nat -> A -> option B) (i : nat) (l : list A) : option B :=
  match l with
  | [] => None
  | a :: l => match f i a with Some b => Some b | None => find_map f (S i) l end
  end.
Fixpoint rfind_map {A B} (f : nat -> A -> option B) (i : nat) (l : list A) : option B :=
  match l with
  | [] => None
  | a :: l => match rfind_map f (S i) l with Some b => Some b | None => f i a end
  end.

(** ** Films *)

Record MovieGuess := mkMovie { movie_title : string; movie_year : option Z; movie_part : option Z }.

Definition TAGS : list string :=
  ["dual"; "audio"; "dub"; "dubbed"; "sub"; "subbed"; "subs"; "eng"; "uncut"; "ova"; "ona";
   "remaster"; "remastered"; "batch"; "uncensored"].
Definition releaseish (inner : string) : bool :=
  existsb (fun w => str_mem (to_ascii_lowercase w) TAGS)
    (filter not_empty (split_by (fun c => negb (is_alphanumeric c)) inner)).

(** The loop; every round shortens the name. *)
Fixpoint strip_tags (fuel : nat) (out : string) : string :=
  match fuel with
  | O => out
  | S fuel =>
      match rsplit_once (byte 40) out with
      | None => out
      | Some (before, after) =>
          if ends_with ")" out && releaseish (init after)
          then strip_tags fuel (trim_end before)
          else out
      end
  end.
Definition strip_release_tags (name : string) : string :=
  let out := trim_end name in strip_tags (slen out) out.

Definition parse_year_token (tok : string) : option Z :=
  let t := trim_by (one_of [40; 41; 91; 93]%N) tok in
  if negb (slen t =? 4)%nat then None
  else y ← parse_u16 t; then_some (is_year y) y.

Definition MARKERS : list string := ["cd"; "disc"; "disk"].
Definition is_number2 (w : string) : bool :=
  not_empty w && (slen w <=? 2)%nat && str_all is_digit w.
Definition part_of (tok : string) : option Z :=
  let t := to_ascii_lowercase tok in
  match find_map (fun _ marker => opt_filter is_number2 (strip_prefix marker t)) O MARKERS with
  | Some rest => parse_u32 rest
  | None => None
  end.
Definition PARENS : Ascii.ascii -> bool := one_of [40; 41; 91; 93; 45]%N.

(** The part loop: the last part found, and the tokens that stay. *)
Fixpoint take_parts (part : option Z) (tokens : list string) : option Z * list string :=
  match tokens with
  | [] => (part, [])
  | tok :: rest =>
      let t := trim_by PARENS tok in
      match part_of t with
      | Some n => take_parts (Some n) rest
      | None =>
          let keep := let '(p, kept) := take_parts part rest in (p, tok :: kept) in
          match rest with
          | next :: rest' =>
              if str_mem (to_ascii_lowercase t) MARKERS && (slen next <=? 2)%nat && str_all is_digit next
              then take_parts (parse_u32 next) rest'
              else keep
          | [] => keep
          end
      end
  end.

(** The last year that is not the first token, and where it stands. *)
Definition release_year (tokens : list string) : option (nat * Z) :=
  rfind_map (fun i tok => y ← parse_year_token tok; then_some (0 <? i)%nat (i, y)) O tokens.

Definition despace (c : Ascii.ascii) : Ascii.ascii := if one_of [46; 95]%N c then SPACE else c.
Definition OPENERS : Ascii.ascii -> bool := one_of [40; 91; 45; 32]%N.

Definition parse_movie_stem (stem : string) : MovieGuess :=
  let cleaned := map_char despace stem in
  let '(part, tokens) := take_parts None (split_whitespace cleaned) in
  let '(title_end, year) :=
    match release_year tokens with
    | Some (i, y) => (i, Some y)
    | None => (length tokens, None)
    end in
  let title := trim_end_by OPENERS (join " " (take title_end tokens)) in
  mkMovie (if title =s EmptyString then join " " tokens else title) year part.

Definition parse_movie (filename : string) : MovieGuess :=
  let filename := strip_release_tags filename in
  let stem :=
    match rsplit_once DOT filename with
    | Some (s, ext) =>
        if (2 <=? slen ext)%nat && (slen ext <=? 4)%nat && str_all is_alphanumeric ext
           && str_any is_alphabetic ext
        then s else filename
    | None => filename
    end in
  parse_movie_stem stem.

Definition parse_movie_dir (name : string) : MovieGuess := parse_movie_stem (strip_release_tags name).

Definition bare_part (title : string) : option Z :=
  let t := remove_char SPACE (to_ascii_lowercase (trim title)) in
  n ← strip_prefix "part" t;
  if negb (is_number2 n) then None else parse_u32 n.

Definition parse_movie_file (path_rel : string) : option MovieGuess :=
  let pieces := rev (split_char SLASH path_rel) in
  filename ← head pieces;
  let mg := parse_movie filename in
  match bare_part (movie_title mg) with
  | Some n =>
      dir ← pieces !! 1%nat;
      let d := parse_movie_dir dir in
      if movie_title d =s EmptyString then None
      else Some (mkMovie (movie_title d) (movie_year d) (Some n))
  | None => then_some (not_empty (movie_title mg)) mg
  end.

(** ** Renditions *)

(** [std::path::Path] on Unix: the pieces between the slashes of what follows
    the root; empty ones and [.] are no components, unless [.] comes first. *)
Definition has_root (path : string) : bool := starts_with "/" path.
Definition body (path : string) : list string :=
  split_char SLASH (unwrap_or (strip_prefix "/" path) path).
Fixpoint drop_dots (rooted : bool) (rpieces : list string) : list string :=
  match rpieces with
  | [] => []
  | p :: rest =>
      if (p =s EmptyString) || ((p =s ".") && (rooted || negb (bool_decide (rest = []))))
      then drop_dots rooted rest else rpieces
  end.
Definition rpieces (path : string) : list string := drop_dots (has_root path) (rev (body path)).
Definition parent (path : string) : option string :=
  match rpieces path with
  | [] => None
  | _ :: rest =>
      let up := join "/" (rev (drop_dots (has_root path) rest)) in
      Some (if has_root path then "/" +:+ up else up)
  end.
Definition file_name (path : string) : option string :=
  match rpieces path with
  | [] => None
  | p :: _ => if (p =s "..") || (p =s ".") then None else Some p
  end.
Definition file_stem (path : string) : option string :=
  name ← file_name path;
  match rsplit_once DOT name with
  | Some (before, _) => Some (if before =s EmptyString then name else before)
  | None => Some name
  end.

Definition is_number : string -> bool := is_number2.
Definition attached (word : string) : bool :=
  existsb (fun marker => is_some_and is_number (strip_prefix marker word)) MARKERS.
Fixpoint keep_words (words : list string) : list string :=
  match words with
  | [] => []
  | w :: rest =>
      if attached w then keep_words rest
      else match rest with
           | next :: rest' =>
               if str_mem w MARKERS && is_number next then keep_words rest'
               else w :: keep_words rest
           | [] => [w]
           end
  end.
Definition is_bare_part (words : list string) : bool :=
  match words with
  | [w] => is_some_and is_number (strip_prefix "part" w)
  | _ => false
  end.

Section Tables.
  Context {U : Unicode}.

(** [split(|c| !c.is_alphanumeric())] without the empty pieces. *)
Fixpoint runs (cur : string) (cs : list string) : list string :=
  match cs with
  | [] => flush cur
  | c :: cs => if char_alphanumeric c then runs (cur +:+ c) cs else flush cur ++ runs EmptyString cs
  end.

Definition rendition_family_key (path_rel : string) : string :=
  let parent := unwrap_or (parent path_rel) EmptyString in
  let stem := unwrap_or (file_stem path_rel) path_rel in
  let words := map str_lowercase (runs EmptyString (chars stem)) in
  let kept := keep_words words in
  let release := if is_bare_part words || bool_decide (kept = []) then "@parts" else join "-" kept in
  parent +:+ String (byte 10) release.

(** ** The dedup key *)

Fixpoint normalize_go (last_space : bool) (cs : list string) : string :=
  match cs with
  | [] => EmptyString
  | c :: cs =>
      if char_alphanumeric c then char_lowercase c +:+ normalize_go false cs
      else if last_space then normalize_go true cs
      else String SPACE (normalize_go true cs)
  end.
Definition normalize_title (title : string) : string := trim_end (normalize_go true (chars title)).

(** [squash] of the fansub tokenizer. *)
Definition squash (s : string) : string :=
  String.concat EmptyString (map char_lowercase (filter char_alphanumeric (chars s))).

End Tables.

(** ** Music *)

Record MusicGuess := mkMusic {
  music_artist : string; music_album : string; music_album_year : option Z;
  music_disc : option Z; music_track : Z; music_title : string }.

Definition album_of (album_dir : string) : string * option Z :=
  match rsplit_once (byte 40) album_dir with
  | Some (before, after) =>
      if ends_with ")" album_dir then
        match parse_i64 (init after) with
        | Some y => if (1900 <=? y) && (y <? 2100) then (trim before, Some y) else (trim album_dir, None)
        | None => (trim album_dir, None)
        end
      else (trim album_dir, None)
  | None => (trim album_dir, None)
  end.
Definition is_track (s : string) : bool :=
  let t := trim s in not_empty t && (slen t <=? 4)%nat && str_all is_digit t.

Definition parse_music (path_rel : string) : option MusicGuess :=
  '(rest, file) ← rsplit_once SLASH path_rel;
  let '(artist_dir, album_dir) :=
    match rsplit_once SLASH rest with
    | Some (a, d) => (a, d)
    | None => (EmptyString, rest)
    end in
  let stem := match rsplit_once DOT file with Some (s, _) => s | None => file end in
  let '(album, album_year) := album_of album_dir in
  if album =s EmptyString then None else
  let segs := split_str " - " stem in
  num_at ← position is_track segs;
  track ← parse_u32 (trim (nth num_at segs EmptyString));
  let title := trim (join " - " (drop (S num_at) segs)) in
  if title =s EmptyString then None else
  artist ← (if artist_dir =s EmptyString then opt_filter not_empty (trim <$> head segs)
            else Some (trim artist_dir));
  Some (mkMusic artist album album_year None track title).

(** ** Episodes *)

Record EpisodeGuess := mkEpisode {
  show_title : string; show_year : option Z; season : option Z;
  episode : Z; episode_end : option Z; episode_title : option string }.

Definition NON_ALNUM (c : Ascii.ascii) : bool := negb (is_alphanumeric c).
Definition S_ : Ascii.ascii -> bool := one_of [115; 83]%N.
Definition E_ : Ascii.ascii -> bool := one_of [101; 69]%N.
Definition or_else {A} (o : option A) (d : A) : A := unwrap_or o d.

(** [S01E02], and the spans [S01E01E02], [S01E01-E02], [S01E01-02]. *)
Definition parse_sxxeyy (tok : string) : option (Z * Z * option Z) :=
  rest ← strip_char S_ (trim_by NON_ALNUM tok);
  '(s, e) ← split_once_by E_ rest;
  let '(e_first, tail) := span is_digit e in
  if (s =s EmptyString) || (e_first =s EmptyString) || negb (str_all is_digit s) then None else
  first ← parse_u32 e_first;
  let tail := or_else (strip_char (ch 45) tail) tail in
  let tail := or_else (strip_char E_ tail) tail in
  let end_ := opt_filter (fun n => first <? n) (parse_u32 (fst (span is_digit tail))) in
  s ← parse_u32 s;
  Some (s, first, end_).

(** [1x02]. *)
Definition parse_nnxnn (tok : string) : option (Z * Z) :=
  '(s, e) ← split_once_by (one_of [120; 88]%N) (trim_by NON_ALNUM tok);
  if (s =s EmptyString) || (e =s EmptyString) || (2 <? slen s)%nat || (3 <? slen e)%nat then None else
  s ← parse_u32 s; e ← parse_u32 e; Some (s, e).

Definition is_marker (t : string) : bool := is_some (parse_sxxeyy t) || is_some (parse_nnxnn t).

Fixpoint until_char (c : Ascii.ascii) (s : string) : string :=
  match s with
  | EmptyString => EmptyString
  | String a s => if Ascii.eqb a c then EmptyString else String a (until_char c s)
  end.
(** [first] holds at index 0. *)
Fixpoint split_glued (first : bool) (s : string) : string :=
  match s with
  | EmptyString => EmptyString
  | String c s =>
      if Ascii.eqb c DASH && negb first && is_marker (until_char SPACE s)
      then String SPACE (split_glued false s)
      else String c (split_glued false s)
  end.
Definition split_glued_marker (s : string) : string := split_glued true s.

Definition is_season_token (t : string) : bool :=
  match strip_char S_ t with
  | Some d => (1 <=? slen d)%nat && (slen d <=? 2)%nat && str_all is_digit d
  | None => false
  end.
Definition is_episode_token (t : string) : bool :=
  let digits d := (1 <=? slen d)%nat && (slen d <=? 3)%nat && str_all is_digit d in
  match strip_char E_ t with
  | None => false
  | Some rest =>
      match split_once DASH rest with
      | Some (first, tail) => digits first && digits (or_else (strip_char E_ tail) tail)
      | None => digits rest
      end
  end.
Fixpoint join_markers (toks : list string) : list string :=
  match toks with
  | s :: ((e :: rest') as rest) =>
      if is_season_token s && is_episode_token e then (s +:+ e) :: join_markers rest'
      else s :: join_markers rest
  | toks => toks
  end.
Definition join_split_marker (s : string) : string := join " " (join_markers (split_whitespace s)).

(** [s##e##]; the bit 0x20 of a letter is its case. *)
Definition is_trailing_marker (m : string) : bool :=
  match m with
  | String m0 (String m1 (String m2 (String m3 (String m4 (String m5 EmptyString))))) =>
      (N.lor (code m0) 32 =? 115)%N && is_digit m1 && is_digit m2
      && (N.lor (code m3) 32 =? 101)%N && is_digit m4 && is_digit m5
  | _ => false
  end.
Definition split_trailing_marker (s : string) : string :=
  let n := slen s in
  if (n <? 7)%nat then s else
  let m := String.substring (n - 6) 6 s in
  if is_trailing_marker m && is_some_and is_alphanumeric (String.get (n - 7) s)
  then String.substring 0 (n - 6) s +:+ String SPACE m
  else s.

(** Three bare digits, in a scene name only. *)
Definition compact (t : string) : option (Z * Z) :=
  match t with
  | String b0 (String b1 (String b2 EmptyString)) =>
      s ← digit b0; d1 ← digit b1; d2 ← digit b2;
      then_some (negb (s =? 0)) (s, d1 * 10 + d2)
  | _ => None
  end.
Definition last_piece (c : Ascii.ascii) (s : string) : string := List.last (split_char c s) EmptyString.
Definition parse_scene_compact (stem : string) (tokens : list string) : option (nat * Z * Z) :=
  if contains_whitespace stem || str_any (one_of [91; 93; 40; 41]%N) stem || negb (str_mem_char DOT stem)
  then None
  else if negb (str_mem_char DASH (last_piece DOT stem)) then None
  else find_map (fun i t =>
         '(s, e) ← compact t;
         if (length tokens <=? S i)%nat then None else Some (i, s, e)) 1%nat (drop 1 tokens).

Definition is_season_dir (dir : string) : bool :=
  let d := to_ascii_lowercase dir in
  starts_with "season" d || starts_with "staffel" d || starts_with "series " d
  || is_some (parse_u32 (trim d)) || starts_with "specials" d.

Definition stem_of (filename : string) : string :=
  match rsplit_once DOT filename with Some (s, _) => s | None => filename end.
(** The tokens of a stem once the marker stands alone. *)
Definition episode_tokens (stem : string) : list string :=
  split_whitespace (split_trailing_marker (join_split_marker (split_glued_marker (map_char despace stem)))).
Definition lettered (tokens : list string) : option (nat * Z * Z * option Z) :=
  find_map (fun i t =>
    match parse_sxxeyy t with
    | Some (s, e, end_) => Some (i, s, e, end_)
    | None => '(s, e) ← parse_nnxnn t; Some (i, s, e, None)
    end) O tokens.

Definition parse_episode (path_rel : string) : option EpisodeGuess :=
  let parts := rev (split_char SLASH path_rel) in
  filename ← head parts;
  let stem := stem_of filename in
  let tokens := episode_tokens stem in
  '(idx, season, episode, episode_end) ←
    (match lettered tokens with
     | Some found => Some found
     | None => '(i, s, e) ← parse_scene_compact stem tokens; Some (i, s, e, None)
     end);
  let show_guess :=
    match List.find (fun d => negb (is_season_dir d)) (drop 1 parts) with
    | Some dir => parse_movie_dir dir
    | None => parse_movie_dir (join " " (take idx tokens))
    end in
  let title := if movie_title show_guess =s EmptyString then "Unknown Show" else movie_title show_guess in
  let ep_title := trim_end_by OPENERS
    (trim_start_by (one_of [45; 32]%N) (join " " (drop (S idx) tokens))) in
  Some (mkEpisode title (movie_year show_guess) (Some season) episode episode_end
          (then_some (not_empty ep_title) ep_title)).

(** ** Fansub names *)

Definition top_dir (path_rel : string) : option string :=
  match split_char SLASH path_rel with first :: _ :: _ => Some first | _ => None end.

Definition num_range (t : string) : option (Z * Z) :=
  '(a, b) ← split_once DASH t;
  if (a =s EmptyString) || (b =s EmptyString) || (3 <? slen a)%nat || (3 <? slen b)%nat then None else
  if negb (str_all is_digit a) || negb (str_all is_digit b) then None else
  a ← parse_u32 a; b ← parse_u32 b; then_some (a <? b) (a, b).

Definition ROMAN : list string :=
  ["I"; "II"; "III"; "IV"; "V"; "VI"; "VII"; "VIII"; "IX"; "X"; "XI"; "XII"; "XIII"].
Definition roman (t : string) : option Z := (fun n => Z.of_nat (S n)) <$> position (String.eqb t) ROMAN.

Definition lettered_part (t : string) : option string :=
  '(num, tail) ← split_once DASH t;
  let one_letter := match tail with String c EmptyString => is_alphabetic c | _ => false end in
  then_some (one_letter && not_empty num && (slen num <=? 4)%nat && str_all is_digit num) num.

(** The stem without its bracketed groups. *)
Fixpoint strip_groups (depth : nat) (s : string) : string :=
  match s with
  | EmptyString => EmptyString
  | String c s =>
      if one_of [91; 40]%N c then strip_groups (S depth) s
      else if one_of [93; 41]%N c then strip_groups (pred depth) s
      else match depth with
           | O => String (despace c) (strip_groups O s)
           | S _ => strip_groups depth s
           end
  end.
Definition anime_tokens (stem : string) : list string :=
  filter (fun t => negb (t =s "-")) (split_whitespace (strip_groups O stem)).

(** [Some (Some n)]: a season-0 band; [Some None]: a movie. *)
Definition band (base : string) : option (option Z) :=
  let b := to_ascii_uppercase base in
  if b =s "NCOP" then Some (Some 100)
  else if b =s "NCED" then Some (Some 120)
  else if str_mem b ["OVA"; "OAV"; "ONA"; "SP"; "SPECIAL"; "SPECIALS"] then Some (Some 0)
  else if str_mem b ["MOVIE"; "GEKIJOUBAN"] then Some None
  else None.

Record Designator := mkDesignator {
  d_at : nat; d_band : option Z; d_index : Z; d_consumed : option nat; d_span : option Z;
  d_explicit : bool }.

(** The index that follows a bare designator at [i]. *)
Definition next_index (tokens : list string) (i : nat) : option Z * option nat * option Z :=
  match tokens !! S i with
  | Some r =>
      if (slen r <=? 4)%nat && str_all is_digit r && negb (is_year (unwrap_or (parse_u32 r) 0))
      then (parse_u32 r, Some (S i), None)
      else match num_range r with
           | Some (a, b) => (Some a, Some (S i), Some b)
           | None =>
               match roman r with
               | Some n => (Some n, Some (S i), None)
               | None => (Some 1, None, None)
               end
           end
  | None => (Some 1, None, None)
  end.
Definition designator_at (tokens : list string) (i : nat) (t : string) : option Designator :=
  let '(base, digits) := span_end is_digit t in
  band ← band base;
  let '(index, consumed, span_end) :=
    if not_empty digits then (parse_u32 digits, None, None) else next_index tokens i in
  Some (mkDesignator i band (unwrap_or index 1) consumed span_end
          (not_empty digits || is_some consumed)).
Definition designators (tokens : list string) : list Designator :=
  omap (fun '(i, t) => designator_at tokens i t) (imap (fun i t => (i, t)) tokens).
(** The first explicit designator, or else the first. *)
Definition designator (tokens : list string) : option Designator :=
  let all := designators tokens in
  match List.find d_explicit all with Some d => Some d | None => head all end.

(** The digits of an [E01] or [EP01] token. *)
Definition e_number (t : string) : option Z :=
  r ← strip_char E_ t;
  let rest := or_else (strip_char (one_of [112; 80]%N) r) r in
  if (rest =s EmptyString) || (4 <? slen rest)%nat || negb (str_all is_digit rest) then None
  else parse_u32 rest.
Definition e_token (tokens : list string) : option (nat * Z) :=
  find_map (fun i t => n ← e_number t; Some (i, n)) O tokens.

(** A standalone number that may be an episode: not a year. *)
Definition plain_number (t : string) : option Z :=
  let num := match lettered_part t with
             | Some n => n
             | None => hd EmptyString (split_by (one_of [118; 86]%N) t)
             end in
  if (num =s EmptyString) || (4 <? slen num)%nat || negb (str_all is_digit num) then None else
  n ← parse_u32 num;
  if is_year n then None else Some n.
Definition standalone (tokens : list string) (owned : nat) (d : option Designator) (i : nat) (t : string)
    : option (nat * Z * option Z) :=
  if bool_decide ((d ≫= d_consumed) = Some i) then None
  else if (i <? owned)%nat then None
  else match (if (i =? length tokens - 1)%nat then num_range t else None) with
       | Some (a, b) => Some (i, a, Some b)
       | None => n ← plain_number t; Some (i, n, None)
       end.
Definition episode_number (tokens : list string) (owned : nat) (d : option Designator)
    : option (nat * Z * option Z) :=
  match e_token tokens with
  | Some (i, n) => Some (i, n, None)
  | None => rfind_map (standalone tokens owned d) O tokens
  end.

(** The show a file belongs to: the top directory, or what precedes the number. *)
Definition show_of (path_rel title : string) : string * option Z :=
  let g := parse_movie_dir (unwrap_or (top_dir path_rel) title) in
  (if movie_title g =s EmptyString then title else movie_title g, movie_year g).
(** A slot of the season-0 bands. *)
Definition special (path_rel : string) (tokens : list string) (i : nat) (b index : Z) (span : option Z)
    : EpisodeGuess :=
  let title := if (i =? 0)%nat then unwrap_or (top_dir path_rel) "Unknown Show"
               else join " " (take i tokens) in
  let '(show, year) := show_of path_rel title in
  mkEpisode show year (Some 0) (wrap 32 (b + index)) ((fun s => wrap 32 (b + s)) <$> span) None.
Definition absolute (path_rel : string) (tokens : list string) (idx : nat) (n : Z) (end_ : option Z)
    : EpisodeGuess :=
  let title := join " " (take idx tokens) in
  let title := if title =s EmptyString then unwrap_or (top_dir path_rel) "Unknown Show" else title in
  let '(show, year) := show_of path_rel title in
  let ep_title := join " " (drop (S idx) tokens) in
  mkEpisode show year None n end_ (then_some (not_empty ep_title) ep_title).

Section Fansub.
  Context {U : Unicode}.

(** How many tokens the show's own name occupies. *)
Fixpoint covered (w seen : string) (i : nat) (tokens : list string) : nat :=
  match tokens with
  | [] => O
  | t :: ts =>
      let seen := seen +:+ squash t in
      if negb (starts_with seen w) then O
      else if seen =s w then S i
      else covered w seen (S i) ts
  end.
Definition title_tokens (path_rel : string) (tokens : list string) : nat :=
  match top_dir path_rel with
  | Some d =>
      let w := squash (movie_title (parse_movie_dir d)) in
      if w =s EmptyString then O else covered w EmptyString O tokens
  | None => O
  end.

Definition ends_in_digit (t : string) : bool := not_empty (snd (span_end is_digit t)).

(** A path with no standard marker. *)
Definition parse_fansub (path_rel : string) : option EpisodeGuess :=
  filename ← head (rev (split_char SLASH path_rel));
  let tokens := anime_tokens (stem_of filename) in
  let designator := designator tokens in
  let number := episode_number tokens (title_tokens path_rel tokens) designator in
  match designator with
  | Some d =>
      if is_some (d_consumed d) || ends_in_digit (nth (d_at d) tokens EmptyString) then
        b ← d_band d; Some (special path_rel tokens (d_at d) b (d_index d) (d_span d))
      else
        match number with
        | Some (idx, n, end_) => Some (absolute path_rel tokens idx n end_)
        | None => b ← d_band d; Some (special path_rel tokens (d_at d) b (d_index d) (d_span d))
        end
  | None => '(idx, n, end_) ← number; Some (absolute path_rel tokens idx n end_)
  end.

Definition parse_anime (path_rel : string) : option EpisodeGuess :=
  match parse_episode path_rel with
  | Some g =>
      Some (match top_dir path_rel with
            | Some top =>
                let tg := parse_movie_dir top in
                mkEpisode (movie_title tg) (opt_or (movie_year tg) (show_year g)) (season g)
                  (episode g) (episode_end g) (episode_title g)
            | None => g
            end)
  | None => parse_fansub path_rel
  end.

End Fansub.

(** ** Revisions *)

Record Tags := mkTags { version : Z; repack : bool; proper : bool; rerip : bool }.

(** [05v2]: both halves numeric. *)
Definition version_of (token : string) : option Z :=
  '(ep, v) ← split_once_by (one_of [118; 86]%N) token;
  if not_empty ep && str_all is_digit ep && not_empty v && str_all is_digit v then parse_u32 v else None.
Definition read_tag (s : Tags) (token : string) : Tags :=
  if to_ascii_lowercase token =s "repack" then mkTags (version s) true (proper s) (rerip s)
  else if to_ascii_lowercase token =s "rerip" then mkTags (version s) (repack s) (proper s) true
  else if token =s "PROPER" then mkTags (version s) (repack s) true (rerip s)
  else match version_of token with
       | Some n => mkTags (Z.max (version s) n) (repack s) (proper s) (rerip s)
       | None => s
       end.
Definition SEPARATORS : Ascii.ascii -> bool := one_of [46; 95; 45; 91; 93; 40; 41; 32]%N.
Definition release_revision (path_rel : string) : Z :=
  let name := last_piece SLASH path_rel in
  let s := fold_left read_tag (split_by SEPARATORS name) (mkTags 1 false false false) in
  wrap 32 (version s + Z.b2z (repack s) + Z.b2z (proper s) + Z.b2z (rerip s)).
