(* ===== verification/NamesFacts.v ===== *)
(** * File names: words, and what the parsers make of a plain one

    A plain word is made of ASCII letters. No parser sees a number, a marker
    or a year in it, so the layouts built from plain words read back whole. *)
From S2P Require Import Prelude Text Names.

#[local] Open Scope string_scope.
#[local] Open Scope list_scope.
#[local] Open Scope Z_scope.

(** ** Classes *)

Lemma class_fresh (P : Ascii.ascii -> bool) c s :
  P c = false -> str_all P s = true -> str_mem_char c s = false.
Proof.
  intros Hc. induction s as [|a s IH]; simpl; [done|]. intros [Ha Hs]%andb_true_iff.
  rewrite IH by done. destruct (Ascii.eqb_spec a c) as [->|]; [congruence|done].
Qed.
Lemma class_impl (P Q : Ascii.ascii -> bool) :
  forallb (fun n => implb (P (Ascii.ascii_of_nat n)) (Q (Ascii.ascii_of_nat n))) (seq 0 256) = true ->
  forall a, P a = true -> Q a = true.
Proof.
  intros H a Ha. pose proof (byte_cases (fun a => implb (P a) (Q a)) H a) as Hi. cbn beta in Hi.
  by rewrite Ha in Hi.
Qed.
Lemma all_impl (P Q : Ascii.ascii -> bool) s :
  forallb (fun n => implb (P (Ascii.ascii_of_nat n)) (Q (Ascii.ascii_of_nat n))) (seq 0 256) = true ->
  str_all P s = true -> str_all Q s = true.
Proof. intros H. by apply str_all_impl, class_impl. Qed.

Lemma all_join P ws : P SPACE = true -> Forall (fun w => str_all P w = true) ws -> str_all P (join " " ws) = true.
Proof.
  intros Hs. induction 1 as [|w ws Hw Hws IH]; [done|]. destruct ws as [|w' ws]; [done|].
  change (join " " (w :: w' :: ws)) with (w +:+ " " +:+ join " " (w' :: ws)).
  rewrite !str_all_app, Hw, IH. change (str_all P " ") with (P SPACE && true). by rewrite Hs.
Qed.

(** ** Ends of strings *)

Fixpoint last_char (s : string) : option Ascii.ascii :=
  match s with
  | EmptyString => None
  | String a EmptyString => Some a
  | String _ s => last_char s
  end.
Definition ends_on (P : Ascii.ascii -> bool) (s : string) : bool := is_some_and P (last_char s).

Lemma last_char_app s a : last_char (s +:+ String a EmptyString) = Some a.
Proof. induction s as [|b s IH]; [done|]. rewrite cons_app. simpl. rewrite IH. by destruct s. Qed.
Lemma ends_on_app P s t : t <> EmptyString -> ends_on P (s +:+ t) = ends_on P t.
Proof.
  intros Ht. unfold ends_on. f_equal. induction s as [|a s IH]; [done|]. rewrite cons_app. cbn [last_char].
  rewrite IH. destruct s as [|b s]; [|done]. by destruct t.
Qed.
Lemma ends_on_cases P s : ends_on P s = true -> exists x a, s = (x +:+ String a EmptyString) /\ P a = true.
Proof.
  unfold ends_on. induction s as [|a s IH]; [done|]. cbn [last_char]. destruct s as [|b s].
  - intros H. by exists EmptyString, a.
  - intros (x & c & -> & Hc)%IH. by exists (String a x), c.
Qed.
Lemma ends_on_all P s : s <> EmptyString -> str_all P s = true -> ends_on P s = true.
Proof.
  unfold ends_on. induction s as [|a s IH]; [done|]. intros _. cbn [str_all last_char]. intros [Ha Hs]%andb_true_iff.
  destruct s as [|b s]; [done|]. by apply IH.
Qed.
Lemma ends_on_impl (P Q : Ascii.ascii -> bool) s :
  (forall a, P a = true -> Q a = true) -> ends_on P s = true -> ends_on Q s = true.
Proof. unfold ends_on. intros H. destruct (last_char s); simpl; auto. Qed.

Lemma ends_on_join P ws w : w <> EmptyString -> ends_on P (join " " (ws ++ [w])) = ends_on P w.
Proof.
  intros Hw. induction ws as [|v ws IH]; [done|]. destruct ws as [|v' ws].
  - change (join " " ([v] ++ [w])) with (v +:+ " " +:+ w). rewrite ends_on_app by done. by apply ends_on_app.
  - change (join " " ((v :: v' :: ws) ++ [w])) with (v +:+ " " +:+ join " " ((v' :: ws) ++ [w])).
    rewrite <- IH, !ends_on_app; try done. intros H. rewrite H in IH. unfold ends_on in IH at 1. simpl in IH.
    change (join " " ((v' :: ws) ++ [w])) with (join " " (v' :: (ws ++ [w]))) in H.
    destruct (ws ++ [w]) as [|u us] eqn:Hu; [by destruct ws|].
    change (join " " (v' :: u :: us)) with (v' +:+ " " +:+ join " " (u :: us)) in H. by destruct v'.
Qed.

(** ** Trimming *)

Lemma span_end_stop P x a y :
  P a = false -> str_all P y = true -> span_end P (x +:+ String a y) = (x +:+ String a EmptyString, y).
Proof.
  intros Ha Hy.
  assert (span_end P y = (EmptyString, y)) as Hall.
  { induction y as [|b y IH]; [done|]. simpl in Hy. apply andb_true_iff in Hy as [Hb Hy]. simpl.
    by rewrite IH, Hb. }
  induction x as [|b x IH]; rewrite ?cons_app, ?empty_app.
  - cbn [span_end]. by rewrite Hall, Ha.
  - cbn [span_end]. rewrite IH. by destruct x.
Qed.
Lemma trim_end_by_tail P x y :
  ends_on (fun a => negb (P a)) x = true -> str_all P y = true -> trim_end_by P (x +:+ y) = x.
Proof.
  intros (x' & a & -> & Ha%negb_true_iff)%ends_on_cases Hy. unfold trim_end_by.
  rewrite app_assoc_s. change (String a EmptyString +:+ y) with (String a y). by rewrite span_end_stop.
Qed.
Lemma trim_end_by_id P x : ends_on (fun a => negb (P a)) x = true -> trim_end_by P x = x.
Proof. intros H. rewrite <- (app_nil_s x) at 1. by apply trim_end_by_tail. Qed.
Lemma trim_start_by_head P y a x :
  P a = false -> str_all P y = true -> trim_start_by P (y +:+ String a x) = String a x.
Proof.
  intros Ha. unfold trim_start_by. induction y as [|b y IH]; rewrite ?cons_app, ?empty_app; simpl.
  - by rewrite Ha.
  - intros [-> Hy]%andb_true_iff. specialize (IH Hy). destruct (span P (y +:+ String a x)). exact IH.
Qed.
Lemma trim_by_id P w : str_all (fun a => negb (P a)) w = true -> trim_by P w = w.
Proof.
  destruct w as [|a w]; [done|]. intros Hw. unfold trim_by. pose proof Hw as [Ha%negb_true_iff _]%andb_true_iff.
  pose proof (trim_start_by_head P EmptyString a w Ha eq_refl) as H. rewrite empty_app in H. rewrite H.
  apply trim_end_by_id. by apply ends_on_all.
Qed.

Lemma trim1_end_solid s : ends_on is_alphanumeric s = true -> trim1_end s = None.
Proof.
  intros (x & a & -> & Ha)%ends_on_cases. apply first_match. intros w Hw.
  destruct (strip_suffix w (x +:+ String a EmptyString)) as [r|] eqn:Hr; [|done]. exfalso.
  assert (forallb (fun w => negb (w =s EmptyString) && negb (ends_on is_alphanumeric w)) white_space = true) as Hf
    by (vm_compute; reflexivity).
  rewrite forallb_forall in Hf. apply list_elem_of_In, Hf in Hw.
  apply andb_true_iff in Hw as [Hw0 Hw1]. apply strip_suffix_Some in Hr.
  assert (ends_on is_alphanumeric (r +:+ w) = true) as He.
  { rewrite <- Hr. unfold ends_on. by rewrite last_char_app. }
  rewrite ends_on_app in He; [by rewrite He in Hw1|]. intros ->. discriminate.
Qed.
Lemma trim_end_solid s : ends_on is_alphanumeric s = true -> trim_end s = s.
Proof. intros H. by apply trim_end_id, trim1_end_solid. Qed.

(** ** Tokens *)

Definition solid (w : string) : bool := not_empty w && str_all starts_word w.

Lemma words_from_word w cur r :
  str_all starts_word w = true -> words_from O cur (w +:+ r) = words_from O (cur +:+ w) r.
Proof.
  revert cur. induction w as [|a w IH]; intros cur.
  - intros _. by rewrite app_nil_s, empty_app.
  - intros [Ha Hw]%andb_true_iff. rewrite cons_app. cbn [words_from]. unfold ws_len.
    rewrite trim1_start_word by done. rewrite IH by done. by rewrite app_assoc_s.
Qed.
Lemma trim1_start_sp s : trim1_start (String SPACE s) = Some s.
Proof.
  apply (first_hit _ _ (String SPACE EmptyString)).
  - apply list_elem_of_In. cbn. tauto.
  - reflexivity.
  - intros w Hw Hne.
    assert (forallb (fun w => (w =s String SPACE EmptyString) || negb (starts_with (String SPACE EmptyString) w)
      && negb (w =s EmptyString)) white_space = true) as H by (vm_compute; reflexivity).
    rewrite forallb_forall in H. apply list_elem_of_In, H in Hw. clear H.
    destruct (String.eqb_spec w (String SPACE EmptyString)) as [|_]; [done|]. cbn [orb] in Hw.
    destruct w as [|a w]; [done|]. cbn [strip_prefix]. destruct (Ascii.eqb_spec a SPACE) as [->|]; [|done].
    vm_compute in Hw. done.
Qed.
Lemma words_from_space cur r : words_from O cur (String SPACE r) = flush cur ++ words_from O EmptyString r.
Proof.
  cbn [words_from]. unfold ws_len. rewrite trim1_start_sp. cbn [String.length].
  replace (S (String.length r) - String.length r)%nat with 1%nat by lia. done.
Qed.
Lemma flush_solid w : solid w = true -> flush w = [w].
Proof. unfold solid, flush, not_empty. by destruct (w =s EmptyString). Qed.

Lemma split_join ws : Forall (fun w => solid w = true) ws -> split_whitespace (join " " ws) = ws.
Proof.
  unfold split_whitespace. induction 1 as [|w ws Hw Hws IH]; [done|].
  pose proof Hw as [_ Hc]%andb_true_iff. destruct ws as [|w' ws].
  - cbn [join]. rewrite <- (app_nil_s w) at 1. rewrite words_from_word by done.
    rewrite empty_app. cbn [words_from]. by apply flush_solid.
  - change (join " " (w :: w' :: ws)) with (w +:+ String SPACE (join " " (w' :: ws))).
    rewrite words_from_word, empty_app, words_from_space, flush_solid by done. cbn [app]. by f_equal.
Qed.

Lemma join_app ws vs :
  ws <> [] -> vs <> [] -> join " " (ws ++ vs) = (join " " ws +:+ String SPACE (join " " vs)).
Proof.
  intros Hws Hvs. induction ws as [|w ws IH]; [done|]. destruct ws as [|w' ws].
  - by destruct vs.
  - change (join " " ((w :: w' :: ws) ++ vs)) with (w +:+ " " +:+ join " " ((w' :: ws) ++ vs)).
    rewrite IH by done. change (join " " (w :: w' :: ws)) with (w +:+ " " +:+ join " " (w' :: ws)).
    by rewrite !app_assoc_s.
Qed.

(** ** Searching *)

Lemma find_map_app {A B} (f : nat -> A -> option B) l l' i :
  (forall j a, a ∈ l -> f j a = None) -> find_map f i (l ++ l') = find_map f (length l + i) l'.
Proof.
  revert i. induction l as [|a l IH]; intros i H; [done|]. cbn [app find_map length].
  rewrite H by left. rewrite IH by (intros; apply H; by right). f_equal. lia.
Qed.
Lemma rfind_map_none {A B} (f : nat -> A -> option B) l i :
  (forall j a, a ∈ l -> f j a = None) -> rfind_map f i l = None.
Proof.
  revert i. induction l as [|a l IH]; intros i H; [done|]. cbn [rfind_map].
  rewrite IH by (intros; apply H; by right). apply H. left.
Qed.
Lemma rfind_map_app {A B} (f : nat -> A -> option B) l l' i b :
  rfind_map f (length l + i) l' = Some b -> rfind_map f i (l ++ l') = Some b.
Proof.
  revert i. induction l as [|a l IH]; intros i H; [done|]. cbn [app rfind_map length] in *.
  rewrite (IH (S i)); [done|]. by rewrite <- plus_n_Sm.
Qed.

(** ** Plain words *)

Definition plain (w : string) : bool := not_empty w && str_all is_alphabetic w.

Lemma not_empty_spec s : not_empty s = true <-> s <> EmptyString.
Proof. unfold not_empty. destruct (String.eqb_spec s EmptyString); naive_solver. Qed.
Lemma not_empty_ne s : s <> EmptyString -> (s =s EmptyString) = false.
Proof. by destruct s. Qed.

Lemma strip_char_all P Q s r : str_all Q s = true -> strip_char P s = Some r -> str_all Q r = true.
Proof.
  destruct s as [|a s]; [done|]. cbn [strip_char str_all]. intros [_ Hs]%andb_true_iff.
  destruct (P a); [|done]. by intros [= <-].
Qed.
Lemma split_once_by_all P Q s l r :
  str_all Q s = true -> split_once_by P s = Some (l, r) -> str_all Q l = true /\ str_all Q r = true.
Proof.
  revert l. induction s as [|a s IH]; intros l; [done|]. cbn [split_once_by str_all].
  intros [Ha Hs]%andb_true_iff. destruct (P a); [by intros [= <- <-]|].
  destruct (split_once_by P s) as [[l' r']|]; [|done]. cbn. intros [= <- <-].
  destruct (IH l' Hs eq_refl) as [Hl Hr]. cbn [str_all]. by rewrite Ha, Hl.
Qed.
Lemma strip_prefix_all p Q s r : str_all Q s = true -> strip_prefix p s = Some r -> str_all Q r = true.
Proof. intros Hs ->%strip_prefix_Some. rewrite str_all_app in Hs. by apply andb_true_iff in Hs as [_ ?]. Qed.
Lemma lower_letters s : str_all is_alphabetic s = true -> str_all is_alphabetic (to_ascii_lowercase s) = true.
Proof.
  induction s as [|a s IH]; [done|]. cbn [str_all to_ascii_lowercase]. intros [Ha Hs]%andb_true_iff.
  rewrite IH, andb_true_r by done. revert a Ha.
  apply (class_impl is_alphabetic (fun a => is_alphabetic (ascii_lower a))). vm_compute. reflexivity.
Qed.

Lemma letter_not_digit a : is_alphabetic a = true -> is_digit a = false.
Proof.
  intros H. apply negb_true_iff. revert a H. apply (class_impl is_alphabetic (fun a => negb (is_digit a))).
  vm_compute. reflexivity.
Qed.
Lemma letters_parse maxv s : str_all is_alphabetic s = true -> parse_uint maxv s = None.
Proof.
  destruct s as [|a s]; [done|]. cbn [str_all parse_uint]. intros [Ha _]%andb_true_iff.
  destruct (Ascii.eqb_spec a (byte 43)) as [->|_]; [done|]. cbn [parse_digits].
  pose proof (letter_not_digit a Ha) as Hd. unfold is_digit in Hd. by destruct (digit a).
Qed.
Lemma letters_not_digits s : str_all is_alphabetic s = true -> not_empty s && str_all is_digit s = false.
Proof.
  destruct s as [|a s]; [done|]. cbn [str_all]. intros [Ha _]%andb_true_iff. cbn.
  by rewrite letter_not_digit.
Qed.
Lemma letters_number2 s : str_all is_alphabetic s = true -> is_number2 s = false.
Proof.
  intros Hs. apply letters_not_digits in Hs. unfold is_number2.
  destruct (not_empty s); cbn in *; [by rewrite Hs, andb_false_r|done].
Qed.
Lemma letters_span s : str_all is_alphabetic s = true -> span is_digit s = (EmptyString, s).
Proof.
  destruct s as [|a s]; [done|]. cbn [str_all span]. intros [Ha _]%andb_true_iff. by rewrite letter_not_digit.
Qed.

Lemma plain_cases w : plain w = true -> w <> EmptyString /\ str_all is_alphabetic w = true.
Proof. by intros [H%not_empty_spec ?]%andb_true_iff. Qed.
Lemma plain_solid w : plain w = true -> solid w = true.
Proof.
  intros [Hne Hw]%andb_true_iff. apply andb_true_iff. split; [done|]. revert Hw. by apply all_impl; vm_compute.
Qed.
Lemma plain_trim P w :
  forallb (fun n => implb (is_alphabetic (Ascii.ascii_of_nat n)) (negb (P (Ascii.ascii_of_nat n)))) (seq 0 256) = true ->
  plain w = true -> trim_by P w = w.
Proof.
  intros HP [_ Hw]%plain_cases. apply trim_by_id. revert Hw. by apply all_impl.
Qed.

Lemma plain_sxxeyy w : plain w = true -> parse_sxxeyy w = None.
Proof.
  intros Hp. unfold parse_sxxeyy. rewrite plain_trim by (done || (vm_compute; reflexivity)).
  apply plain_cases in Hp as [_ Hw]. destruct (strip_char S_ w) as [rest|] eqn:Hr; [|done]. cbn.
  apply (strip_char_all _ is_alphabetic) in Hr; [|done].
  destruct (split_once_by E_ rest) as [[s e]|] eqn:He; [|done].
  apply (split_once_by_all _ is_alphabetic) in He as [_ He]; [|done]. cbn.
  rewrite letters_span by done. cbn. by rewrite orb_true_r.
Qed.
Lemma plain_nnxnn w : plain w = true -> parse_nnxnn w = None.
Proof.
  intros Hp. unfold parse_nnxnn. rewrite plain_trim by (done || (vm_compute; reflexivity)).
  apply plain_cases in Hp as [_ Hw]. destruct (split_once_by _ w) as [[s e]|] eqn:He; [|done].
  apply (split_once_by_all _ is_alphabetic) in He as [Hs _]; [|done]. cbn.
  destruct (_ || _ || _ || _); [done|]. unfold parse_u32. rewrite (letters_parse _ s) by done. done.
Qed.
Lemma plain_season w : plain w = true -> is_season_token w = false.
Proof.
  intros [_ Hw]%plain_cases. unfold is_season_token. destruct (strip_char S_ w) as [d|] eqn:Hd; [|done].
  apply (strip_char_all _ is_alphabetic), letters_not_digits in Hd; [|done].
  destruct d as [|a d]; [done|]. simpl in *. by rewrite Hd, andb_false_r.
Qed.
Lemma plain_part w : plain w = true -> part_of w = None.
Proof.
  intros [_ Hw]%plain_cases. unfold part_of. replace (find_map _ _ _) with (@None string); [done|].
  symmetry. generalize MARKERS. intros l. generalize O. induction l as [|m l IH]; intros i; [done|].
  cbn [find_map]. replace (opt_filter _ _) with (@None string); [by rewrite IH|].
  destruct (strip_prefix m _) as [r|] eqn:Hr; [|done]. cbn.
  rewrite letters_number2; [done|]. revert Hr. by apply strip_prefix_all, lower_letters.
Qed.
Lemma plain_year w : plain w = true -> parse_year_token w = None.
Proof.
  intros Hp. unfold parse_year_token. rewrite plain_trim by (done || (vm_compute; reflexivity)).
  destruct (negb _); [done|]. unfold parse_u16. rewrite letters_parse; [done|]. by apply plain_cases in Hp as [_ ?].
Qed.
Lemma plain_digits w : plain w = true -> str_all is_digit w = false.
Proof. intros [Hne Hw]%plain_cases. apply letters_not_digits in Hw. apply not_empty_spec in Hne. by rewrite Hne in Hw. Qed.

(** ** Numbers and markers *)

Lemma digits_span d r :
  str_all is_digit d = true ->
  match r with String a _ => is_digit a = false | EmptyString => True end ->
  span is_digit (d +:+ r) = (d, r).
Proof.
  intros Hd Hr. induction d as [|a d IH]; rewrite ?cons_app, ?empty_app.
  - destruct r as [|b r]; [done|]. cbn [span]. by rewrite Hr.
  - cbn [str_all span] in *. apply andb_true_iff in Hd as [-> Hd]. by rewrite IH.
Qed.
Lemma pad2_ne z : pad2 z <> EmptyString.
Proof. destruct (pad2_head z) as (a & s & -> & _). done. Qed.

(** The marker a library writes: [S01E02], or [S01E02-E05] for a span. *)
Definition marker (s e : Z) (end_ : option Z) : string :=
  "S" +:+ pad2 s +:+ "E" +:+ pad2 e +:+ match end_ with Some n => "-E" +:+ pad2 n | None => EmptyString end.

Lemma split_once_by_cut P x a y :
  str_all (fun c => negb (P c)) x = true -> P a = true -> split_once_by P (x +:+ String a y) = Some (x, y).
Proof.
  intros Hx Ha. induction x as [|b x IH]; rewrite ?cons_app, ?empty_app; cbn [split_once_by].
  - by rewrite Ha.
  - cbn [str_all] in Hx. apply andb_true_iff in Hx as [->%negb_true_iff Hx]. by rewrite IH.
Qed.
Lemma digits_not P s :
  forallb (fun n => implb (is_digit (Ascii.ascii_of_nat n)) (negb (P (Ascii.ascii_of_nat n)))) (seq 0 256) = true ->
  str_all is_digit s = true -> str_all (fun c => negb (P c)) s = true.
Proof. intros H. by apply all_impl. Qed.

Lemma trim_by_ends P w :
  match w with String a _ => P a = false | EmptyString => True end ->
  ends_on (fun a => negb (P a)) w = true -> trim_by P w = w.
Proof.
  intros H1 H2. destruct w as [|a w]; [done|]. unfold trim_by.
  pose proof (trim_start_by_head P EmptyString a w H1 eq_refl) as H. rewrite empty_app in H. rewrite H.
  by apply trim_end_by_id.
Qed.

Lemma marker_ends s e end_ : ends_on is_digit (marker s e end_) = true.
Proof.
  unfold marker. destruct end_ as [n|].
  - rewrite <- !app_assoc_s. rewrite ends_on_app by apply pad2_ne.
    apply ends_on_all; [apply pad2_ne|apply pad2_digits].
  - rewrite app_nil_s, <- !app_assoc_s. rewrite ends_on_app by apply pad2_ne.
    apply ends_on_all; [apply pad2_ne|apply pad2_digits].
Qed.

Definition span_ok (e : Z) (end_ : option Z) : Prop :=
  match end_ with Some n => e < n <= u32_max | None => True end.

Lemma parse_marker s e end_ :
  0 <= s <= u32_max -> 0 <= e <= u32_max -> span_ok e end_ ->
  parse_sxxeyy (marker s e end_) = Some (s, e, end_).
Proof.
  intros Hs He Hend. unfold parse_sxxeyy.
  rewrite trim_by_ends; [|reflexivity|].
  2:{ apply ends_on_impl with is_digit; [|apply marker_ends].
      apply (class_impl is_digit (fun a => negb (NON_ALNUM a))). vm_compute. reflexivity. }
  unfold marker. change ("S" +:+ ?x) with (String (byte 83) x). cbn [strip_char].
  change (S_ (byte 83)) with true. cbn [mbind option_bind].
  change ("E" +:+ ?x) with (String (byte 69) x).
  rewrite split_once_by_cut by (done || (apply digits_not; [vm_compute; reflexivity|apply pad2_digits])).
  cbn [mbind option_bind]. rewrite digits_span; [|apply pad2_digits|by destruct end_].
  rewrite !not_empty_ne by apply pad2_ne. rewrite pad2_digits. cbn [orb negb].
  unfold parse_u32. rewrite !parse_pad2 by done. cbn [mbind option_bind].
  destruct end_ as [n|]; cbn [span_ok] in Hend; [|done].
  change ("-E" +:+ ?x) with (String DASH (String (byte 69) x)). cbn [strip_char]. change (ch 45 DASH) with true.
  unfold or_else. cbn [unwrap_or strip_char]. change (E_ (byte 69)) with true. cbn [unwrap_or].
  pose proof (digits_span (pad2 n) EmptyString (pad2_digits n) I) as Hn. rewrite app_nil_s in Hn.
  rewrite Hn. cbn [fst]. rewrite parse_pad2 by lia. cbn. replace (e <? n) with true by lia. done.
Qed.
Lemma marker_head s e end_ : exists r, marker s e end_ = String (byte 83) r.
Proof. unfold marker. eauto. Qed.

Definition marker_char (a : Ascii.ascii) : bool := is_alphanumeric a || Ascii.eqb a DASH.
Lemma digits_marker s : str_all is_digit s = true -> str_all marker_char s = true.
Proof. apply all_impl. vm_compute. reflexivity. Qed.
Lemma marker_chars s e end_ : str_all marker_char (marker s e end_) = true.
Proof.
  unfold marker. rewrite !str_all_app, !(digits_marker _ (pad2_digits _)).
  destruct end_; cbn [app]; rewrite ?str_all_app, ?(digits_marker _ (pad2_digits _)); reflexivity.
Qed.
Lemma marker_season s e end_ : is_season_token (marker s e end_) = false.
Proof.
  unfold is_season_token, marker. change ("S" +:+ ?x) with (String (byte 83) x). cbn [strip_char].
  change (S_ (byte 83)) with true. cbn iota. rewrite !str_all_app. change (str_all is_digit "E") with false.
  by rewrite !andb_false_l, !andb_false_r.
Qed.

(** ** The cleanups leave the layout alone *)

(** Every dash but one inside a marker stands before a space. *)
Fixpoint no_glue (first : bool) (s : string) : bool :=
  match s with
  | EmptyString => true
  | String c s => negb (Ascii.eqb c DASH && negb first && is_marker (until_char SPACE s)) && no_glue false s
  end.
Lemma split_glued_id first s : no_glue first s = true -> split_glued first s = s.
Proof.
  revert first. induction s as [|c s IH]; intros first; [done|]. cbn [no_glue split_glued].
  intros [->%negb_true_iff Hs]%andb_true_iff. by rewrite IH.
Qed.
Lemma no_glue_fresh b x y : str_mem_char DASH x = false -> no_glue b (x +:+ y) = no_glue (b && (x =s "")) y.
Proof.
  revert b. induction x as [|a x IH]; intros b; [by rewrite andb_true_r|].
  cbn [str_mem_char]. intros [Ha Hx]%orb_false_iff. rewrite cons_app. cbn [no_glue]. rewrite Ha, IH by done.
  by rewrite andb_false_r.
Qed.
Lemma no_glue_space x : no_glue false (String DASH (String SPACE x)) = no_glue false x.
Proof. reflexivity. Qed.

Lemma until_space_marker x y :
  str_mem_char SPACE x = false -> until_char SPACE (x +:+ String SPACE y) = x.
Proof.
  induction x as [|a x IH]; rewrite ?cons_app, ?empty_app; [done|]. cbn [str_mem_char until_char].
  intros [-> Hx]%orb_false_iff. by rewrite IH.
Qed.

Lemma join_markers_id ws : Forall (fun w => is_season_token w = false) ws -> join_markers ws = ws.
Proof.
  induction 1 as [|w ws Hw Hws IH]; [done|]. cbn [join_markers]. destruct ws as [|w' ws]; [done|].
  rewrite Hw. cbn [andb]. by rewrite IH.
Qed.

Lemma trailing_marker_digit m : is_trailing_marker m = true -> exists a, String.get 5 m = Some a /\ is_digit a = true.
Proof.
  destruct m as [|a0 [|a1 [|a2 [|a3 [|a4 [|a5 [|? ?]]]]]]]; try done. unfold is_trailing_marker.
  intros [_ H]%andb_true_iff. by exists a5.
Qed.
Lemma get_last s : String.get (String.length s - 1) s = last_char s.
Proof.
  induction s as [|a s IH]; [done|]. cbn [String.length last_char]. destruct s as [|b s]; [done|].
  rewrite <- IH. cbn [String.length]. by rewrite !Nat.sub_succ, !Nat.sub_0_r.
Qed.
Lemma split_trailing_id s : ends_on (fun a => negb (is_digit a)) s = true -> split_trailing_marker s = s.
Proof.
  intros Hs. unfold split_trailing_marker, slen. destruct (String.length s <? 7)%nat eqn:Hn; [done|].
  apply Nat.ltb_ge in Hn. destruct (is_trailing_marker _) eqn:Hm; [|done]. exfalso.
  apply trailing_marker_digit in Hm as (a & Ha & Hd).
  rewrite String.substring_correct1 in Ha by lia.
  replace (5 + (String.length s - 6))%nat with (String.length s - 1)%nat in Ha by lia.
  rewrite get_last in Ha. unfold ends_on in Hs. rewrite Ha in Hs. cbn in Hs. by rewrite Hd in Hs.
Qed.

Lemma trim_end_one_space s : trim1_end s = None -> trim_end (s +:+ " ") = s.
Proof.
  intros Hs. assert (trim1_end (s +:+ " ") = Some s) as H.
  { apply (first_hit _ _ " "); [apply list_elem_of_In; cbn; tauto|apply strip_suffix_app|].
    intros w Hw Hne. destruct (strip_suffix w (s +:+ " ")) as [r|] eqn:Hr; [|done]. exfalso.
    apply strip_suffix_Some, (f_equal last_char) in Hr. rewrite last_char_app in Hr.
    assert (forallb (fun w => (w =s " ") || (negb (w =s "") && negb (ends_on (fun a => Ascii.eqb a SPACE) w)))
      white_space = true) as Hf by (vm_compute; reflexivity).
    rewrite forallb_forall in Hf. apply list_elem_of_In, Hf in Hw.
    destruct (String.eqb_spec w " ") as [|_]; [done|]. apply andb_true_iff in Hw as [Hw0 Hw1].
    assert (ends_on (fun a => Ascii.eqb a SPACE) (r +:+ w) = true) as He by (unfold ends_on; by rewrite <- Hr).
    rewrite ends_on_app in He; [by rewrite He in Hw1|]. intros ->. discriminate. }
  unfold trim_end. rewrite length_app_s, Nat.add_comm. cbn [Nat.add String.length trim_end_fuel]. rewrite H.
  destruct (String.length s); [done|]. cbn [trim_end_fuel]. by rewrite Hs.
Qed.
