(* ===== verification/NamesTheorems.v ===== *)
(** * File names: the layouts that read back

    What a library manager writes for an episode, a film and a track is read
    back whole, for names of plain words. *)
From S2P Require Import Prelude Text Names NamesFacts.

#[local] Open Scope string_scope.
#[local] Open Scope list_scope.
#[local] Open Scope Z_scope.

(** ** Layouts *)

Definition words_ok (ws : list string) : Prop := ws <> [] /\ Forall (fun w => plain w = true) ws.
Definition dash : string := "-".

Definition episode_stem (name : list string) (s e : Z) (end_ : option Z) (title : list string) : string :=
  join " " (name ++ [dash; marker s e end_; dash] ++ title).
Definition episode_path (name : list string) (folder s e : Z) (end_ : option Z) (title : list string)
    (ext : string) : string :=
  join " " name +:+ String SLASH (("Season " +:+ pad2 folder)
    +:+ String SLASH (episode_stem name s e end_ title +:+ String DOT ext)).

Definition name_char (a : Ascii.ascii) : bool := is_alphanumeric a || Ascii.eqb a DASH || Ascii.eqb a SPACE.

Lemma plain_chars ws : Forall (fun w => plain w = true) ws -> Forall (fun w => str_all is_alphabetic w = true) ws.
Proof. intros H. eapply Forall_impl; [exact H|]. by intros w [_ ?]%plain_cases. Qed.
Lemma letters_name ws : Forall (fun w => plain w = true) ws -> str_all name_char (join " " ws) = true.
Proof.
  intros H%plain_chars. apply all_join; [done|]. eapply Forall_impl; [exact H|]. cbn beta. intros w.
  apply all_impl. vm_compute. reflexivity.
Qed.
Lemma marker_name s e end_ : str_all name_char (marker s e end_) = true.
Proof. generalize (marker_chars s e end_). apply all_impl. vm_compute. reflexivity. Qed.

Lemma words_solid ws : Forall (fun w => plain w = true) ws -> Forall (fun w => solid w = true) ws.
Proof. intros H. eapply Forall_impl; [exact H|]. apply plain_solid. Qed.
Lemma marker_solid s e end_ : solid (marker s e end_) = true.
Proof.
  apply andb_true_iff. split; [by destruct (marker_head s e end_) as [r ->]|].
  generalize (marker_chars s e end_). apply all_impl. vm_compute. reflexivity.
Qed.

Lemma words_end ws : words_ok ws -> ends_on is_alphabetic (join " " ws) = true.
Proof.
  intros [Hne Hw]. destruct (exists_last Hne) as (vs & w & ->). apply Forall_app in Hw as [_ Hw].
  inversion Hw as [|? ? Hp _]; subst. apply plain_cases in Hp as [Hp1 Hp2].
  rewrite ends_on_join by done. by apply ends_on_all.
Qed.
Lemma words_start ws : words_ok ws -> exists a r, join " " ws = String a r /\ is_alphabetic a = true.
Proof.
  intros [Hne Hw]. destruct ws as [|w ws]; [done|]. inversion Hw as [|? ? Hp _]; subst.
  apply plain_cases in Hp as [Hp1 Hp2]. destruct w as [|a w]; [done|].
  cbn [str_all] in Hp2. apply andb_true_iff in Hp2 as [Ha _].
  destruct ws as [|w' ws]; [by exists a, w|]. eexists a, _. split; [|done].
  change (join " " (String a w :: w' :: ws)) with (String a w +:+ " " +:+ join " " (w' :: ws)). by rewrite cons_app.
Qed.

Section Episode.
  Context (name title : list string) (s e : Z) (end_ : option Z).
  Hypothesis (Hname : words_ok name) (Htitle : words_ok title).

Let tokens := name ++ [dash; marker s e end_; dash] ++ title.

Lemma tokens_solid : Forall (fun w => solid w = true) tokens.
Proof.
  destruct Hname as [_ Hn], Htitle as [_ Ht].
  apply Forall_app. split; [by apply words_solid|].
  repeat (apply Forall_cons; split; [first [done|apply marker_solid]|]). by apply words_solid.
Qed.

Lemma stem_cut :
  episode_stem name s e end_ title
  = (join " " name +:+ String SPACE (dash +:+ String SPACE (marker s e end_ +:+
      String SPACE (dash +:+ String SPACE (join " " title))))).
Proof.
  destruct Hname as [Hn _], Htitle as [Ht _]. unfold episode_stem.
  rewrite join_app by done. do 2 f_equal. cbn [app join].
  destruct title as [|w ws]; [done|]. reflexivity.
Qed.
Lemma stem_chars : str_all name_char (episode_stem name s e end_ title) = true.
Proof.
  destruct Hname as [_ Hn], Htitle as [_ Ht]. apply all_join; [done|].
  apply Forall_app. split; [|apply Forall_cons; split; [done|apply Forall_cons; split; [apply marker_name|
    apply Forall_cons; split; [done|]]]].
  - eapply Forall_impl; [exact (plain_chars _ Hn)|]. cbn beta. intros w. apply all_impl. vm_compute. reflexivity.
  - eapply Forall_impl; [exact (plain_chars _ Ht)|]. cbn beta. intros w. apply all_impl. vm_compute. reflexivity.
Qed.
Lemma stem_end : ends_on is_alphabetic (episode_stem name s e end_ title) = true.
Proof.
  destruct Htitle as [Hne Ht]. unfold episode_stem. destruct (exists_last Hne) as (vs & w & ->).
  apply Forall_app in Ht as [_ Ht]. inversion Ht as [|? ? Hp _]; subst. apply plain_cases in Hp as [Hp1 Hp2].
  rewrite !app_assoc, ends_on_join by done. by apply ends_on_all.
Qed.

Lemma span_no_marker n : is_marker (String (byte 69) (pad2 n)) = false.
Proof.
  unfold is_marker. rewrite orb_false_iff. split.
  - unfold parse_sxxeyy. rewrite trim_by_ends; [done|done|].
    change (String (byte 69) (pad2 n)) with ("E" +:+ pad2 n). rewrite ends_on_app by apply pad2_ne.
    apply ends_on_impl with is_digit.
    + apply (class_impl is_digit (fun a => negb (NON_ALNUM a))). vm_compute. reflexivity.
    + apply ends_on_all; [apply pad2_ne|apply pad2_digits].
  - unfold parse_nnxnn. rewrite trim_by_id.
    + destruct (split_once_by _ _) as [[l r]|] eqn:Hs; [|done]. exfalso.
      assert (forall P x l r, str_all (fun a => negb (P a)) x = true -> split_once_by P x = Some (l, r) -> False) as H.
      { clear. intros P x. induction x as [|a x IH]; intros l r; [done|]. cbn [str_all split_once_by].
        intros [->%negb_true_iff Hx]%andb_true_iff. destruct (split_once_by P x) as [[l' r']|]; [|done].
        intros _. by apply (IH l' r'). }
      apply H in Hs; [done|]. cbn [str_all]. rewrite digits_not; [done|vm_compute; reflexivity|apply pad2_digits].
    + cbn [str_all]. rewrite digits_not; [done|vm_compute; reflexivity|apply pad2_digits].
Qed.

Lemma stem_no_glue : no_glue true (episode_stem name s e end_ title) = true.
Proof.
  assert (forall ws, Forall (fun w => plain w = true) ws -> str_mem_char DASH (join " " ws) = false) as Hd.
  { intros ws Hw%plain_chars. apply (class_fresh (fun a => is_alphabetic a || Ascii.eqb a SPACE)); [done|].
    apply all_join; [done|]. eapply Forall_impl; [exact Hw|]. cbn beta. intros w. apply all_impl. vm_compute. reflexivity. }
  assert (forall z, str_mem_char DASH (pad2 z) = false) as Hz.
  { intros z. apply (class_fresh is_digit); [done|apply pad2_digits]. }
  destruct Hname as [Hne Hn], Htitle as [_ Ht]. rewrite stem_cut.
  rewrite no_glue_fresh by auto. destruct (join " " name =s "") eqn:Hj.
  { destruct (words_start name Hname) as (a & r & Hr & _). rewrite Hr in Hj. discriminate. }
  cbn [andb]. change (String SPACE (dash +:+ String SPACE ?x)) with (" " +:+ String DASH (String SPACE x)) at 1.
  rewrite no_glue_fresh, no_glue_space by done.
  assert (no_glue false (String SPACE (dash +:+ String SPACE (join " " title))) = true) as Hrest.
  { change (String SPACE (dash +:+ String SPACE ?x)) with (" " +:+ String DASH (String SPACE x)).
    rewrite no_glue_fresh, no_glue_space by done. cbn [andb]. rewrite <- (app_nil_s (join " " title)).
    by rewrite no_glue_fresh by auto. }
  unfold marker. destruct end_ as [n|]; rewrite ?app_nil_s.
  - rewrite !app_assoc_s. rewrite no_glue_fresh by done. rewrite no_glue_fresh by auto.
    rewrite no_glue_fresh by done. rewrite no_glue_fresh by auto. cbn [andb].
    change ("-E" +:+ ?x) with (String DASH (String (byte 69) x)). cbn [no_glue].
    change (String (byte 69) (pad2 n +:+ ?y)) with (String (byte 69) (pad2 n) +:+ y).
    rewrite until_space_marker, span_no_marker.
    2:{ cbn [str_mem_char]. rewrite (class_fresh is_digit); [done|done|apply pad2_digits]. }
    rewrite andb_false_r. cbn [negb andb]. by rewrite !no_glue_fresh by auto.
  - rewrite !app_assoc_s. rewrite no_glue_fresh by done. rewrite no_glue_fresh by auto.
    rewrite no_glue_fresh by done. by rewrite no_glue_fresh by auto.
Qed.

Lemma despace_id x : str_all name_char x = true -> map_char despace x = x.
Proof.
  induction x as [|a x IH]; [done|]. cbn [str_all map_char]. intros [Ha Hx]%andb_true_iff. rewrite IH by done.
  f_equal. apply Ascii.eqb_eq. revert a Ha. apply (class_impl name_char (fun a => Ascii.eqb (despace a) a)).
  vm_compute. reflexivity.
Qed.

Lemma stem_tokens : episode_tokens (episode_stem name s e end_ title) = tokens.
Proof.
  unfold episode_tokens. rewrite despace_id by apply stem_chars.
  unfold split_glued_marker. rewrite split_glued_id by apply stem_no_glue.
  assert (join_split_marker (episode_stem name s e end_ title) = episode_stem name s e end_ title) as ->.
  { unfold join_split_marker, episode_stem. rewrite split_join by apply tokens_solid. f_equal. apply join_markers_id.
    destruct Hname as [_ Hn], Htitle as [_ Ht].
    apply Forall_app. split; [eapply Forall_impl; [exact Hn|apply plain_season]|].
    repeat (apply Forall_cons; split; [first [done|apply marker_season]|]).
    eapply Forall_impl; [exact Ht|apply plain_season]. }
  rewrite split_trailing_id.
  - by apply split_join, tokens_solid.
  - eapply ends_on_impl; [|apply stem_end]. apply (class_impl is_alphabetic (fun a => negb (is_digit a))).
    vm_compute. reflexivity.
Qed.

Lemma tokens_lettered :
  0 <= s <= u32_max -> 0 <= e <= u32_max -> span_ok e end_ ->
  lettered tokens = Some (S (length name), s, e, end_).
Proof.
  intros Hs He Hend. unfold lettered, tokens. rewrite find_map_app.
  - cbn [app find_map]. rewrite parse_marker by done. by rewrite Nat.add_0_r.
  - intros j w Hw. destruct Hname as [_ Hn]. rewrite Forall_forall in Hn. specialize (Hn w Hw).
    by rewrite plain_sxxeyy, plain_nnxnn.
Qed.

End Episode.

(** ** Titles *)

Definition quiet (w : string) : bool :=
  is_none (part_of (trim_by PARENS w)) && negb (str_all is_digit w).

Lemma take_parts_id p ws : Forall (fun w => quiet w = true) ws -> take_parts p ws = (p, ws).
Proof.
  induction 1 as [|w ws Hw Hws IH]; [done|]. cbn [take_parts].
  apply andb_true_iff in Hw as [Hw _]. destruct (part_of _); [done|]. rewrite IH.
  destruct ws as [|w' ws]; [done|]. inversion Hws as [|? ? [_ Hd%negb_true_iff]%andb_true_iff _]; subst.
  by rewrite Hd, andb_false_r.
Qed.
Lemma plain_quiet w : plain w = true -> quiet w = true.
Proof.
  intros Hp. unfold quiet. rewrite plain_trim by (done || (vm_compute; reflexivity)).
  by rewrite plain_part, plain_digits.
Qed.

Lemma cleaned_tokens ws :
  str_all name_char (join " " ws) = true -> Forall (fun w => solid w = true) ws ->
  split_whitespace (map_char despace (join " " ws)) = ws.
Proof. intros H1 H2. rewrite despace_id by done. by apply split_join. Qed.

(** Words and quiet yearless tokens after them: the words are the title. *)
Lemma movie_stem_words ws tail :
  words_ok ws -> tail = [] \/ tail = [dash] ->
  parse_movie_stem (join " " (ws ++ tail)) = mkMovie (join " " ws) None None.
Proof.
  intros Hw Htail. pose proof Hw as [Hne Hp]. unfold parse_movie_stem.
  assert (Forall (fun w => quiet w = true /\ solid w = true /\ parse_year_token w = None
    /\ str_all name_char w = true) (ws ++ tail)) as Hall.
  { apply Forall_app. split.
    - eapply Forall_impl; [exact Hp|]. cbn beta. intros w H. split_and!;
        [by apply plain_quiet|by apply plain_solid|by apply plain_year|].
      apply plain_cases in H as [_ H]. revert H. apply all_impl. vm_compute. reflexivity.
    - destruct Htail as [-> | ->]; [done|]. apply Forall_singleton. by vm_compute. }
  rewrite cleaned_tokens.
  2:{ apply all_join; [done|]. eapply Forall_impl; [exact Hall|]. naive_solver. }
  2:{ eapply Forall_impl; [exact Hall|]. naive_solver. }
  rewrite take_parts_id by (eapply Forall_impl; [exact Hall|]; naive_solver).
  unfold release_year. rewrite rfind_map_none.
  2:{ intros j w Hj. rewrite Forall_forall in Hall. destruct (Hall w Hj) as (_ & _ & -> & _). done. }
  rewrite firstn_all.
  assert (trim_end_by OPENERS (join " " (ws ++ tail)) = join " " ws) as ->.
  { assert (ends_on (fun a => negb (OPENERS a)) (join " " ws) = true) as He.
    { eapply ends_on_impl; [|by apply words_end].
      apply (class_impl is_alphabetic (fun a => negb (OPENERS a))). vm_compute. reflexivity. }
    destruct Htail as [-> | ->]; [rewrite app_nil_r; by apply trim_end_by_id|].
    rewrite join_app by done. by apply trim_end_by_tail. }
  destruct (words_start ws Hw) as (a & r & -> & _). done.
Qed.

Lemma strip_tags_no_paren s :
  trim_end s = s -> str_mem_char (byte 40) s = false -> strip_release_tags s = s.
Proof.
  intros Ht Hp. unfold strip_release_tags. rewrite Ht. destruct (slen s); [done|]. cbn [strip_tags].
  by rewrite rsplit_once_fresh.
Qed.
Lemma trim1_end_dash s : trim1_end (s +:+ dash) = None.
Proof.
  apply first_match. intros w Hw. destruct (strip_suffix w (s +:+ dash)) as [r|] eqn:Hr; [|done]. exfalso.
  apply strip_suffix_Some, (f_equal last_char) in Hr. change dash with (String DASH EmptyString) in Hr.
  rewrite last_char_app in Hr.
  assert (forallb (fun w => negb (w =s EmptyString) && negb (ends_on (fun a => Ascii.eqb a DASH) w)) white_space = true) as Hf
    by (vm_compute; reflexivity).
  rewrite forallb_forall in Hf. apply list_elem_of_In, Hf, andb_true_iff in Hw as [Hw0 Hw1].
  assert (ends_on (fun a => Ascii.eqb a DASH) (r +:+ w) = true) as He by (unfold ends_on; by rewrite <- Hr).
  rewrite ends_on_app in He; [by rewrite He in Hw1|]. intros ->. discriminate.
Qed.

Lemma movie_dir_words ws tail :
  words_ok ws -> tail = [] \/ tail = [dash] ->
  parse_movie_dir (join " " (ws ++ tail)) = mkMovie (join " " ws) None None.
Proof.
  intros Hw Htail. unfold parse_movie_dir. rewrite strip_tags_no_paren; [by apply movie_stem_words| |].
  - destruct Htail as [-> | ->].
    + rewrite app_nil_r. apply trim_end_solid. eapply ends_on_impl; [|by apply words_end].
      apply (class_impl is_alphabetic is_alphanumeric). vm_compute. reflexivity.
    + rewrite join_app by (done || apply Hw). apply trim_end_id.
      change (String SPACE (join " " [dash])) with (" " +:+ dash). rewrite <- app_assoc_s. apply trim1_end_dash.
  - apply (class_fresh name_char); [done|]. apply all_join; [done|]. destruct Hw as [_ Hw].
    apply Forall_app. split; [|by destruct Htail as [-> | ->]; [|apply Forall_singleton]].
    eapply Forall_impl; [exact Hw|]. cbn beta. intros w [_ H]%plain_cases. revert H. apply all_impl. vm_compute. reflexivity.
Qed.

(** C35: The layout [Show/Season 01/Show - S01E02 - Title.ext] is read back:
    whatever plain words the show and the episode are named by, and whatever
    numbers the folder and the marker carry, the guess is exactly the show, the
    season and number of the marker (not of the folder), the end of its span
    and the title. *)
Theorem episode_roundtrip name title folder s e end_ ext :
  words_ok name -> words_ok title ->
  0 <= s <= u32_max -> 0 <= e <= u32_max -> span_ok e end_ ->
  str_mem_char SLASH ext = false -> str_mem_char DOT ext = false ->
  parse_episode (episode_path name folder s e end_ title ext)
  = Some (mkEpisode (join " " name) None (Some s) e end_ (Some (join " " title))).
Proof.
  intros Hn Ht Hs He Hend Hx1 Hx2. unfold parse_episode, episode_path.
  assert (forall x, str_all name_char x = true -> str_mem_char SLASH x = false) as Hsl
    by (intros x; by apply class_fresh).
  rewrite split_char_cut by (apply Hsl, letters_name, Hn).
  rewrite split_char_cut.
  2:{ apply Hsl. rewrite str_all_app. apply andb_true_iff. split; [done|].
      generalize (pad2_digits folder). apply all_impl. vm_compute. reflexivity. }
  rewrite split_char_fresh.
  2:{ rewrite mem_char_app, Hsl by (by apply stem_chars). cbn [orb str_mem_char]. by rewrite Hx1. }
  cbn [rev app head mbind option_bind]. unfold stem_of. rewrite rsplit_once_app by done.
  rewrite stem_tokens by done. rewrite tokens_lettered by done. cbn [mbind option_bind drop List.find].
  change (is_season_dir ("Season " +:+ pad2 folder)) with true. cbn [negb].
  assert ((match (if negb (is_season_dir (join " " name)) then Some (join " " name) else None) with
           | Some dir => parse_movie_dir dir
           | None => parse_movie_dir (join " " (take (S (length name)) (name ++ [dash; marker s e end_; dash] ++ title)))
           end) = mkMovie (join " " name) None None) as ->.
  { destruct (negb _).
    - rewrite <- (app_nil_r name) at 1. by apply movie_dir_words; [|left].
    - rewrite firstn_app, firstn_all2 by lia. replace (S (length name) - length name)%nat with 1%nat by lia.
      apply movie_dir_words; [done|by right]. }
  cbn [movie_title movie_year]. rewrite skipn_app, skipn_all2 by lia.
  replace (S (S (length name)) - length name)%nat with 2%nat by lia. cbn [app drop].
  assert (trim_end_by OPENERS (trim_start_by (one_of [45; 32]%N) (join " " (dash :: title))) = join " " title) as ->.
  { destruct (words_start title Ht) as (a & r & Hr & Ha).
    assert (join " " (dash :: title) = "- " +:+ join " " title) as -> by (destruct Ht as [? _]; by destruct title).
    rewrite Hr, trim_start_by_head by (done || (revert a Ha Hr; intros a Ha _;
      apply negb_true_iff; revert a Ha; apply (class_impl is_alphabetic (fun a => negb (one_of [45; 32]%N a)));
      vm_compute; reflexivity)).
    rewrite <- Hr. apply trim_end_by_id. eapply ends_on_impl; [|by apply words_end].
    apply (class_impl is_alphabetic (fun a => negb (OPENERS a))). vm_compute. reflexivity. }
  destruct (words_start name Hn) as (a & r & -> & _). destruct (words_start title Ht) as (a' & r' & -> & _). done.
Qed.
Lemma episode_roundtrip_witness :
  episode_path ["Star"; "Wars"] 3 1 2 (Some 5) ["That"; "Would"] "mkv"
  = "Star Wars/Season 03/Star Wars - S01E02-E05 - That Would.mkv"
  /\ parse_episode (episode_path ["Star"; "Wars"] 3 1 2 (Some 5) ["That"; "Would"] "mkv")
     = Some (mkEpisode "Star Wars" None (Some 1) 2 (Some 5) (Some "That Would")).
Proof.
  split; [reflexivity|]. apply (episode_roundtrip ["Star"; "Wars"] ["That"; "Would"] 3 1 2 (Some 5) "mkv");
    try (split; [done|]); try (vm_compute; (reflexivity || (split; discriminate))); repeat constructor; vm_compute;
    (reflexivity || discriminate).
Defined.

(** ** Films *)

Definition year_token (y : Z) : string := "(" +:+ show y +:+ ")".
Definition part_tokens (part : option Z) : list string :=
  match part with Some n => [dash; "CD" +:+ show n] | None => [] end.
Definition movie_file (ws : list string) (y : Z) (part : option Z) (ext : string) : string :=
  join " " (ws ++ year_token y :: part_tokens part) +:+ String DOT ext.
Definition extension (ext : string) : bool :=
  (2 <=? slen ext)%nat && (slen ext <=? 4)%nat && str_all is_alphanumeric ext && str_any is_alphabetic ext.

Definition film_char (a : Ascii.ascii) : bool := name_char a || one_of [40; 41]%N a.

Definition year_facts (y : Z) : bool :=
  let t := year_token y in
  quiet t && solid t && str_all film_char t && bool_decide (parse_year_token t = Some y) && negb (str_all is_digit t).
Lemma year_ok y : 1900 <= y <= 2099 -> year_facts y = true.
Proof. intros Hy. apply (z_enum year_facts 1900 200); [vm_compute; reflexivity|lia]. Qed.
Definition cd_facts (n : Z) : bool :=
  let t := "CD" +:+ show n in
  bool_decide (part_of (trim_by PARENS t) = Some n) && solid t && str_all film_char t.
Lemma cd_ok n : 0 <= n <= 99 -> cd_facts n = true.
Proof. intros Hn. apply (z_enum cd_facts 0 100); [vm_compute; reflexivity|lia]. Qed.

Lemma take_parts_app p ws tl :
  Forall (fun w => quiet w = true) ws -> is_some_and (fun t => negb (str_all is_digit t)) (head tl) = true ->
  take_parts p (ws ++ tl) = let '(q, kept) := take_parts p tl in (q, ws ++ kept).
Proof.
  intros Hws Ht. induction Hws as [|w ws Hw Hws IH]; [cbn [app]; by destruct (take_parts p tl)|].
  cbn [app take_parts]. apply andb_true_iff in Hw as [Hw _]. destruct (part_of _); [done|]. rewrite IH.
  assert (is_some_and (fun t => negb (str_all is_digit t)) (head (ws ++ tl)) = true) as Hh.
  { destruct Hws as [|w' ws [_ Hd]%andb_true_iff _]; [done|]. exact Hd. }
  destruct (ws ++ tl) as [|next rest]; [by destruct (take_parts p tl)|]. cbn in Hh. apply negb_true_iff in Hh.
  rewrite Hh, andb_false_r. by destruct (take_parts p tl).
Qed.

Lemma ends_with_last s a : ends_with (String a EmptyString) s = true -> last_char s = Some a.
Proof.
  induction s as [|b s IH]; [done|]. cbn [ends_with]. intros [H|H]%orb_true_iff.
  - apply String.eqb_eq in H. by injection H as <- <-.
  - rewrite <- IH by done. by destruct s.
Qed.

Lemma strip_tags_not_closed s :
  ends_on is_alphanumeric s = true -> strip_release_tags s = s.
Proof.
  intros Hs. unfold strip_release_tags. rewrite trim_end_solid by done. destruct (slen s); [done|].
  cbn [strip_tags]. destruct (rsplit_once _ s) as [[l r]|]; [|done].
  destruct (ends_with ")" s) eqn:He; [|done]. exfalso. apply ends_with_last in He.
  unfold ends_on in Hs. rewrite He in Hs. discriminate.
Qed.

Lemma despace_film x : str_all film_char x = true -> map_char despace x = x.
Proof.
  induction x as [|a x IH]; [done|]. cbn [str_all map_char]. intros [Ha Hx]%andb_true_iff. rewrite IH by done.
  f_equal. apply Ascii.eqb_eq. revert a Ha. apply (class_impl film_char (fun a => Ascii.eqb (despace a) a)).
  vm_compute. reflexivity.
Qed.

Lemma movie_stem_year ws y part :
  words_ok ws -> 1900 <= y <= 2099 -> (forall n, part = Some n -> 0 <= n <= 99) ->
  parse_movie_stem (join " " (ws ++ year_token y :: part_tokens part)) = mkMovie (join " " ws) (Some y) part.
Proof.
  intros Hw Hy Hpart. pose proof Hw as [Hne Hp].
  pose proof (year_ok y Hy) as [[[[Hq Hys]%andb_true_iff Hyc]%andb_true_iff Hyp]%andb_true_iff Hyd]%andb_true_iff.
  apply bool_decide_eq_true in Hyp.
  assert (Forall (fun t => solid t = true /\ str_all film_char t = true) (ws ++ year_token y :: part_tokens part)) as Hall.
  { apply Forall_app. split; [|apply Forall_cons; split; [done|]].
    - eapply Forall_impl; [exact Hp|]. cbn beta. intros w H. split; [by apply plain_solid|].
      apply plain_cases in H as [_ H]. revert H. apply all_impl. vm_compute. reflexivity.
    - destruct part as [n|]; [|done]. apply Forall_cons. split; [done|]. apply Forall_singleton.
      pose proof (cd_ok n (Hpart n eq_refl)) as [[_ ?]%andb_true_iff ?]%andb_true_iff. done. }
  unfold parse_movie_stem. rewrite despace_film.
  2:{ apply all_join; [done|]. eapply Forall_impl; [exact Hall|]. naive_solver. }
  rewrite split_join by (eapply Forall_impl; [exact Hall|]; naive_solver).
  rewrite take_parts_app; [|eapply Forall_impl; [exact Hp|apply plain_quiet]|exact Hyd].
  assert (exists tail, take_parts None (year_token y :: part_tokens part) = (part, year_token y :: tail)
    /\ (tail = [] \/ tail = [dash])) as (tail & -> & Htail).
  { change (year_token y :: part_tokens part) with ([year_token y] ++ part_tokens part).
    destruct part as [n|]; [|exists []; split; [|by left]; apply take_parts_id; by apply Forall_singleton].
    rewrite take_parts_app; [|by apply Forall_singleton|done]. exists [dash]. split; [|by right].
    pose proof (cd_ok n (Hpart n eq_refl)) as [[Hcd%bool_decide_eq_true _]%andb_true_iff _]%andb_true_iff.
    change (part_tokens (Some n)) with ([dash] ++ ["CD" +:+ show n]).
    rewrite take_parts_app; [|by apply Forall_singleton|done]. cbn [take_parts]. by rewrite Hcd. }
  assert (release_year (ws ++ year_token y :: tail) = Some (length ws, y)) as ->.
  { unfold release_year. apply rfind_map_app. cbn [rfind_map]. rewrite Hyp. cbn [mbind option_bind].
    rewrite Nat.add_0_r. destruct ws as [|w ws]; [done|]. by destruct Htail as [-> | ->]. }
  rewrite take_app_length.
  rewrite trim_end_by_id.
  2:{ eapply ends_on_impl; [|by apply words_end].
      apply (class_impl is_alphabetic (fun a => negb (OPENERS a))). vm_compute. reflexivity. }
  destruct (words_start ws Hw) as (a & r & -> & _). done.
Qed.

(** The layout [Title (Year).ext], with [- CDn] for one disc of several, is
    read back: title, year and part, whatever plain words the title has. *)
Theorem movie_roundtrip ws y part ext :
  words_ok ws -> 1900 <= y <= 2099 -> (forall n, part = Some n -> 0 <= n <= 99) -> extension ext = true ->
  parse_movie (movie_file ws y part ext) = mkMovie (join " " ws) (Some y) part.
Proof.
  intros Hw Hy Hpart Hext. unfold parse_movie, movie_file. pose proof Hext as Hext'.
  apply andb_true_iff in Hext' as [[[Hl _]%andb_true_iff Ha]%andb_true_iff _].
  assert (ext <> EmptyString) as Hne by (by destruct ext).
  rewrite strip_tags_not_closed.
  2:{ change (String DOT ext) with ("." +:+ ext). rewrite !ends_on_app by done. by apply ends_on_all. }
  rewrite rsplit_once_app by (by apply (class_fresh is_alphanumeric)).
  unfold extension in Hext. rewrite Hext. by apply movie_stem_year.
Qed.
Lemma movie_roundtrip_witness :
  movie_file ["Blade"; "Runner"] 1982 (Some 2) "avi" = "Blade Runner (1982) - CD2.avi"
  /\ parse_movie (movie_file ["Blade"; "Runner"] 1982 (Some 2) "avi")
     = mkMovie "Blade Runner" (Some 1982) (Some 2).
Proof.
  split; [reflexivity|]. apply (movie_roundtrip ["Blade"; "Runner"] 1982 (Some 2) "avi").
  - split; [done|]. repeat constructor; reflexivity.
  - split; discriminate.
  - intros n [= <-]. split; discriminate.
  - reflexivity.
Defined.

(** ** Music *)

Definition SEP : string := " - ".
Definition music_stem (artist album : list string) (track : Z) (title : list string) : string :=
  join " " artist +:+ SEP +:+ join " " album +:+ SEP +:+ pad2 track +:+ SEP +:+ join " " title.
Definition music_path (artist album : list string) (y track : Z) (title : list string) (ext : string) : string :=
  (join " " artist +:+ String SLASH (join " " album +:+ " " +:+ year_token y))
    +:+ String SLASH (music_stem artist album track title +:+ String DOT ext).

Lemma split_sep x y : str_mem_char DASH x = false -> split_once_str SEP (x +:+ SEP +:+ y) = Some (x, y).
Proof.
  induction x as [|a x IH]; [done|]. cbn [str_mem_char]. intros [Ha Hx]%orb_false_iff. rewrite cons_app.
  assert (strip_prefix SEP (String a (x +:+ SEP +:+ y)) = None) as Hn.
  { change SEP with (String SPACE (String DASH (String SPACE EmptyString))). cbn [strip_prefix].
    destruct (Ascii.eqb SPACE a); [|done]. destruct x as [|b x]; [done|]. cbn [str_mem_char] in Hx.
    apply orb_false_iff in Hx as [Hb _]. rewrite cons_app. cbn [strip_prefix]. by rewrite (Ascii.eqb_sym DASH b), Hb. }
  cbn [split_once_str]. rewrite Hn, IH by done. done.
Qed.
Lemma split_sep_fuel fuel x y :
  str_mem_char DASH x = false -> split_str_fuel (S fuel) SEP (x +:+ SEP +:+ y) = x :: split_str_fuel fuel SEP y.
Proof. intros Hx. cbn [split_str_fuel]. by rewrite split_sep. Qed.
Lemma split_sep_last fuel x : str_mem_char DASH x = false -> split_str_fuel fuel SEP x = [x].
Proof.
  intros Hx. destruct fuel; [done|]. cbn [split_str_fuel].
  assert (split_once_str SEP x = None) as ->; [|done].
  induction x as [|a x IH]; [done|]. cbn [str_mem_char] in Hx. apply orb_false_iff in Hx as [_ Hx].
  cbn [split_once_str]. rewrite IH by done.
  change SEP with (String SPACE (String DASH (String SPACE EmptyString))). cbn [strip_prefix].
  destruct (Ascii.eqb SPACE a); [|done]. destruct x as [|b x]; [done|]. cbn [str_mem_char] in Hx.
  apply orb_false_iff in Hx as [Hb _]. cbn [strip_prefix]. by rewrite (Ascii.eqb_sym DASH b), Hb.
Qed.

Lemma words_trim ws : words_ok ws -> trim (join " " ws) = join " " ws.
Proof.
  intros Hw. destruct (words_start ws Hw) as (a & r & Hr & Ha). apply trim_id.
  - rewrite Hr. apply trim1_start_word. revert a Ha Hr. intros a Ha _. revert a Ha. apply class_impl. vm_compute. reflexivity.
  - apply trim1_end_solid. eapply ends_on_impl; [|by apply words_end]. apply class_impl. vm_compute. reflexivity.
Qed.
Lemma words_no_dash ws : words_ok ws -> str_mem_char DASH (join " " ws) = false.
Proof.
  intros [_ Hw%plain_chars]. apply (class_fresh (fun a => is_alphabetic a || Ascii.eqb a SPACE)); [done|].
  apply all_join; [done|]. eapply Forall_impl; [exact Hw|]. cbn beta. intros w. apply all_impl. vm_compute. reflexivity.
Qed.
Lemma words_no_track ws : words_ok ws -> is_track (join " " ws) = false.
Proof.
  intros Hw. unfold is_track. rewrite words_trim by done. destruct (words_start ws Hw) as (a & r & -> & Ha).
  cbn [str_all]. by rewrite letter_not_digit, andb_false_r.
Qed.

Definition track_facts (n : Z) : bool :=
  is_track (pad2 n) && bool_decide (parse_u32 (trim (pad2 n)) = Some n) && negb (str_mem_char DASH (pad2 n))
  && negb (str_mem_char SLASH (pad2 n)).
Lemma track_ok n : 0 <= n <= 999 -> track_facts n = true.
Proof. intros Hn. apply (z_enum track_facts 0 1000); [vm_compute; reflexivity|lia]. Qed.
Definition album_facts (y : Z) : bool :=
  bool_decide (parse_i64 (init (show y +:+ ")")) = Some y) && negb (str_mem_char (byte 40) (show y +:+ ")"))
  && negb (str_mem_char SLASH (year_token y)).
Lemma album_ok y : 1900 <= y <= 2099 -> album_facts y = true.
Proof. intros Hy. apply (z_enum album_facts 1900 200); [vm_compute; reflexivity|lia]. Qed.

Lemma album_year ws y :
  words_ok ws -> 1900 <= y <= 2099 -> album_of (join " " ws +:+ " " +:+ year_token y) = (join " " ws, Some y).
Proof.
  intros Hw Hy. pose proof (album_ok y Hy) as [[H1%bool_decide_eq_true H2%negb_true_iff]%andb_true_iff _]%andb_true_iff.
  unfold album_of, year_token. rewrite <- app_assoc_s.
  change ("(" +:+ show y +:+ ")") with (String (byte 40) (show y +:+ ")")). rewrite rsplit_once_app by done.
  assert (ends_with ")" ((join " " ws +:+ " ") +:+ String (byte 40) (show y +:+ ")")) = true) as ->.
  { change (String (byte 40) (show y +:+ ")")) with ("(" +:+ show y +:+ ")"). rewrite <- !app_assoc_s.
    generalize (((join " " ws +:+ " ") +:+ "(") +:+ show y). intros x. induction x as [|a x IH]; [done|].
    rewrite cons_app. cbn [ends_with]. by rewrite IH, orb_true_r. }
  rewrite H1. replace ((1900 <=? y) && (y <? 2100)) with true by lia. f_equal.
  unfold trim. destruct (words_start ws Hw) as (a & r & Hr & Ha).
  rewrite trim_start_id.
  - apply trim_end_one_space, trim1_end_solid. eapply ends_on_impl; [|by apply words_end]. apply class_impl. vm_compute. reflexivity.
  - rewrite Hr, cons_app. apply trim1_start_word. clear Hr. revert a Ha. apply class_impl. vm_compute. reflexivity.
Qed.

(** The layout [Artist/Album (Year)/Artist - Album - NN - Title.ext] is read
    back: artist, album, year, track number and title. *)
Theorem music_roundtrip artist album title y track ext :
  words_ok artist -> words_ok album -> words_ok title ->
  1900 <= y <= 2099 -> 0 <= track <= 999 -> str_mem_char SLASH ext = false -> str_mem_char DOT ext = false ->
  parse_music (music_path artist album y track title ext)
  = Some (mkMusic (join " " artist) (join " " album) (Some y) None track (join " " title)).
Proof.
  intros Ha Hb Ht Hy Hk He1 He2. unfold parse_music, music_path.
  assert (forall ws, words_ok ws -> str_mem_char SLASH (join " " ws) = false) as Hsl.
  { intros ws [_ Hw]. apply (class_fresh name_char); [done|by apply letters_name]. }
  pose proof (track_ok track Hk) as [[[Hk1 Hk2%bool_decide_eq_true]%andb_true_iff Hk3%negb_true_iff]%andb_true_iff Hk4%negb_true_iff]%andb_true_iff.
  pose proof (album_ok y Hy) as [_ Hy1%negb_true_iff]%andb_true_iff.
  rewrite rsplit_once_app.
  2:{ unfold music_stem. rewrite !mem_char_app, !Hsl, Hk4 by done. cbn [str_mem_char]. by rewrite He1. }
  cbn [mbind option_bind]. rewrite rsplit_once_app.
  2:{ rewrite !mem_char_app, Hsl by done. by rewrite Hy1. }
  rewrite rsplit_once_app by done. rewrite album_year by done.
  destruct (words_start album Hb) as (a & r & Hr & _). rewrite not_empty_ne by (by rewrite Hr). clear a r Hr.
  change (split_str " - ") with (split_str SEP).
  assert (split_str SEP (music_stem artist album track title)
    = [join " " artist; join " " album; pad2 track; join " " title]) as ->.
  { unfold split_str.
    assert (exists f, String.length (music_stem artist album track title) = S (S (S f))) as [f ->].
    { unfold music_stem. rewrite !length_app_s. cbn [String.length SEP].
      destruct (words_start artist Ha) as (a & r & -> & _). cbn [String.length]. eexists. cbn. rewrite <- !plus_n_Sm. reflexivity. }
    unfold music_stem. rewrite !split_sep_fuel by (by apply words_no_dash || done).
    by rewrite split_sep_last by (by apply words_no_dash). }
  cbn [position]. rewrite !words_no_track, Hk1 by done. cbn [fmap option_fmap option_map mbind option_bind nth].
  rewrite Hk2. cbn [mbind option_bind drop join]. rewrite words_trim by done.
  destruct (words_start title Ht) as (a & r & Hr & _). rewrite not_empty_ne by (by rewrite Hr). clear a r Hr.
  destruct (words_start artist Ha) as (a & r & Hr & _). rewrite not_empty_ne by (by rewrite Hr). clear a r Hr.
  cbn [mbind option_bind]. by rewrite words_trim.
Qed.
Lemma music_roundtrip_witness :
  music_path ["Rotting"; "Christ"] ["Khronos"] 2000 1 ["Thou"; "Art"; "Blind"] "flac"
  = "Rotting Christ/Khronos (2000)/Rotting Christ - Khronos - 01 - Thou Art Blind.flac"
  /\ parse_music (music_path ["Rotting"; "Christ"] ["Khronos"] 2000 1 ["Thou"; "Art"; "Blind"] "flac")
     = Some (mkMusic "Rotting Christ" "Khronos" (Some 2000) None 1 "Thou Art Blind").
Proof.
  split; [reflexivity|].
  apply (music_roundtrip ["Rotting"; "Christ"] ["Khronos"] ["Thou"; "Art"; "Blind"] 2000 1 "flac");
    try (split; [done|]); try (vm_compute; (reflexivity || (split; discriminate))); repeat constructor; vm_compute;
    (reflexivity || discriminate).
Defined.
