(* ===== verification/NamesKeys.v ===== *)
(** * File names: guesses, keys and revisions

    Every guess is well formed, the number of an episode is chosen as the
    tokenizer says, release tags are stripped once and for all, the dedup key is
    the words of the title, the discs of one release share a rendition family,
    a revision counts what the name says. *)
From S2P Require Import Prelude Text Names NamesFacts.

#[local] Open Scope string_scope.
#[local] Open Scope list_scope.
#[local] Open Scope Z_scope.

(** ** Every guess is well formed *)

Lemma digit_bound a d : digit a = Some d -> 0 <= d <= 9.
Proof.
  unfold digit. destruct (_ && _)%N eqn:Hb; [|done]. intros [= <-].
  apply andb_true_iff in Hb as [H1%N.leb_le H2%N.leb_le]. lia.
Qed.
Lemma parse_digits_bound maxv acc s z :
  0 <= acc -> parse_digits maxv acc s = Some z ->
  acc * 10 ^ Z.of_nat (slen s) <= z < (acc + 1) * 10 ^ Z.of_nat (slen s) /\ (acc <= maxv -> z <= maxv).
Proof.
  unfold slen. revert acc. induction s as [|a s IH]; intros acc Hacc.
  - intros [= <-]. cbn [String.length]. lia.
  - cbn [parse_digits String.length]. destruct (digit a) as [d|] eqn:Hd; [|done]. cbn [mbind option_bind].
    pose proof (digit_bound a d Hd) as Hr.
    destruct (_ || _) eqn:Ho; [done|]. apply orb_false_iff in Ho as [_ Ho%Z.ltb_ge].
    intros H. apply IH in H; [|lia]. rewrite Nat2Z.inj_succ, Z.pow_succ_r by lia.
    pose proof (Z.pow_pos_nonneg 10 (Z.of_nat (String.length s)) ltac:(lia) ltac:(lia)) as Hp. destruct H as [H Hm].
    split; [|intros _; by apply Hm]. revert Hp H. generalize (10 ^ Z.of_nat (String.length s)). intros p Hp H. nia.
Qed.
Lemma parse_uint_bound maxv s z : 0 <= maxv -> parse_uint maxv s = Some z -> 0 <= z <= maxv /\ z < 10 ^ Z.of_nat (slen s).
Proof.
  intros Hm. destruct s as [|a r]; [done|]. unfold parse_uint.
  destruct (Ascii.eqb a (byte 43)).
  - destruct (r =s EmptyString); [done|]. intros H%parse_digits_bound; [|lia].
    unfold slen in *. cbn [String.length]. rewrite Nat2Z.inj_succ, Z.pow_succ_r by lia. lia.
  - intros H%parse_digits_bound; [|lia]. lia.
Qed.
Lemma parse_u32_bound s z : parse_u32 s = Some z -> 0 <= z < 2 ^ 32 /\ z < 10 ^ Z.of_nat (slen s).
Proof. intros H%parse_uint_bound; unfold u32_max in *; lia. Qed.
Lemma parse_u32_short s k z : (slen s <= k)%nat -> parse_u32 s = Some z -> 0 <= z < 10 ^ Z.of_nat k.
Proof.
  intros Hk H%parse_u32_bound. pose proof (Z.pow_le_mono_r 10 (Z.of_nat (slen s)) (Z.of_nat k)). lia.
Qed.

Lemma find_map_Some {A B} (f : nat -> A -> option B) i l b :
  find_map f i l = Some b -> exists j a, f j a = Some b.
Proof.
  revert i. induction l as [|a l IH]; intros i; [done|]. cbn [find_map].
  destruct (f i a) eqn:Hf; [intros [= <-]; eauto|apply IH].
Qed.
Lemma rfind_map_Some {A B} (f : nat -> A -> option B) i l b :
  rfind_map f i l = Some b -> exists j a, f j a = Some b.
Proof.
  revert i. induction l as [|a l IH]; intros i; [done|]. cbn [rfind_map].
  destruct (rfind_map f (S i) l) eqn:Hf; [intros [= <-]; eauto|eauto].
Qed.

(** Numbers an episode may carry, and the end of its span. *)
Definition span_in (e : Z) (end_ : option Z) : Prop := forall n, end_ = Some n -> e < n < 2 ^ 32.
Definition u32 (z : Z) : Prop := 0 <= z < 2 ^ 32.

Ltac obind H :=
  match type of H with
  | ?o ≫= _ = Some _ => let E := fresh "E" in destruct o eqn:E; [|done]; cbn [mbind option_bind] in H
  end.

Lemma sxxeyy_bounds t s e end_ : parse_sxxeyy t = Some (s, e, end_) -> u32 s /\ u32 e /\ span_in e end_.
Proof.
  unfold parse_sxxeyy. intros H. obind H. obind H. destruct p as [sd ed]. destruct (span is_digit ed) as [ef tl].
  destruct (_ || _ || _); [done|]. obind H. obind H. injection H as <- <- <-.
  apply parse_u32_bound in E1 as [??], E2 as [??]. split_and!; try done.
  intros n [Hn Hlt]%opt_filter_Some. apply parse_u32_bound in Hn as [? _]. apply Z.ltb_lt in Hlt. lia.
Qed.
Lemma nnxnn_bounds t s e : parse_nnxnn t = Some (s, e) -> u32 s /\ u32 e.
Proof.
  unfold parse_nnxnn. intros H. obind H. destruct p as [sd ed]. destruct (_ || _ || _ || _); [done|].
  obind H. obind H. injection H as <- <-. by apply parse_u32_bound in E0 as [? _], E1 as [? _].
Qed.
Lemma compact_bounds t s e : compact t = Some (s, e) -> 1 <= s <= 9 /\ 0 <= e <= 99.
Proof.
  unfold compact. destruct t as [|a [|b [|c [|? ?]]]]; try done. intros H. obind H. obind H. obind H.
  apply then_some_Some in H as [Hs [= <- <-]]. apply digit_bound in E, E0, E1. lia.
Qed.

Definition wellformed (g : EpisodeGuess) : Prop :=
  u32 (episode g) /\ span_in (episode g) (episode_end g)
  /\ (forall s, season g = Some s -> u32 s)
  /\ (season g = None -> episode g <= 9999 /\ forall n, episode_end g = Some n -> n <= 999).

Lemma parse_episode_wellformed path g : parse_episode path = Some g -> wellformed g.
Proof.
  unfold parse_episode. intros H. obind H. obind H. destruct p as [[[idx s0] e0] end0].
  injection H as <-. unfold wellformed. cbn [episode episode_end season].
  assert (u32 s0 /\ u32 e0 /\ span_in e0 end0) as (Hs & He & Hend).
  { revert E0. destruct (lettered _) as [found|] eqn:Hl.
    - intros [= ->]. unfold lettered in Hl. apply find_map_Some in Hl as (j & t & Ht).
      destruct (parse_sxxeyy t) as [[[s' e'] end']|] eqn:Hp.
      + injection Ht as <- <- <- <-. by apply sxxeyy_bounds in Hp.
      + obind Ht. destruct p as [s' e']. injection Ht as <- <- <- <-. apply nnxnn_bounds in E0 as [? ?].
        by split_and!.
    - intros H. obind H. destruct p as [[i s'] e']. injection H as <- <- <- <-.
      unfold parse_scene_compact in E0. destruct (_ || _ || _); [done|]. destruct (negb _); [done|].
      apply find_map_Some in E0 as (j & t & Ht). obind Ht. destruct p as [s'' e'']. destruct (_ <=? _)%nat; [done|].
      injection Ht as <- <- <-. apply compact_bounds in E0 as [? ?]. unfold u32. split_and!; try lia. by intros ?. }
  split; [done|]. split; [done|]. split; [by intros ? [= <-]|done].
Qed.

Lemma num_range_bounds t a b : num_range t = Some (a, b) -> 0 <= a < b /\ b <= 999.
Proof.
  unfold num_range. intros H. obind H. destruct p as [x y].
  destruct (_ || _ || _ || _) eqn:Hl; [done|].
  destruct (negb (str_all is_digit x) || negb (str_all is_digit y)); [done|]. obind H. obind H.
  apply then_some_Some in H as [Hab [= <- <-]]. apply Z.ltb_lt in Hab.
  apply orb_false_iff in Hl as [[_ Hx%Nat.ltb_ge]%orb_false_iff Hy%Nat.ltb_ge].
  apply (parse_u32_short _ 3) in E0, E1; try done. lia.
Qed.

Lemma next_index_span tokens i index consumed n :
  next_index tokens i = (index, consumed, Some n) -> exists a, index = Some a /\ 0 <= a < n /\ n <= 999.
Proof.
  unfold next_index. destruct (tokens !! S i) as [r|]; [|done].
  destruct (_ && _ && _); [done|]. destruct (num_range r) as [[a b]|] eqn:Hr; [|by destruct (roman r)].
  intros [= <- <- <-]. exists a. apply num_range_bounds in Hr. naive_solver.
Qed.
Lemma band_small base b : band base = Some (Some b) -> 0 <= b <= 120.
Proof. unfold band. repeat case_match; naive_solver lia. Qed.

Lemma designator_in tokens d : designator tokens = Some d -> d ∈ designators tokens.
Proof.
  unfold designator. destruct (List.find d_explicit (designators tokens)) as [d'|] eqn:Hf.
  - intros [= <-]. apply find_some in Hf as [Hf _]. by apply list_elem_of_In.
  - intros H. destruct (designators tokens); [done|]. injection H as <-. left.
Qed.
Lemma designator_spec tokens d :
  designator tokens = Some d -> exists t, designator_at tokens (d_at d) t = Some d /\ tokens !! d_at d = Some t.
Proof.
  intros Hd%designator_in. unfold designators in Hd. apply list_elem_of_omap in Hd as ([i t] & Hin & Ht).
  apply elem_of_lookup_imap in Hin as (j & t' & Hj & Hl). injection Hj as <- <-.
  exists t. assert (d_at d = i) as ->; [|done].
  unfold designator_at in Ht. destruct (span_end is_digit t). obind Ht.
  destruct (if not_empty s0 then _ else _) as [[? ?] ?]. by injection Ht as <-.
Qed.
Lemma designator_span tokens d n :
  designator tokens = Some d -> d_span d = Some n ->
  0 <= d_index d < n /\ n <= 999 /\ forall b, d_band d = Some b -> 0 <= b <= 120.
Proof.
  intros (t & Ht & _)%designator_spec Hn. unfold designator_at in Ht.
  destruct (span_end is_digit t) as [base digits]. obind Ht.
  destruct (if not_empty digits then _ else _) as [[index consumed] sp] eqn:Hi. injection Ht as Hd.
  rewrite <- Hd in Hn |- *. cbn [d_index d_band d_span] in *. subst sp. clear Hd.
  destruct (not_empty digits); [done|]. apply next_index_span in Hi as (a & -> & Ha & Hle). cbn [unwrap_or].
  split; [lia|]. split; [lia|]. intros b ->. by apply band_small in E.
Qed.

Lemma four_digits s n : (4 <? slen s)%nat = false -> parse_u32 s = Some n -> 0 <= n <= 9999.
Proof. intros Hl%Nat.ltb_ge Hn. apply (parse_u32_short _ 4) in Hn; lia. Qed.

Lemma plain_number_spec t n : plain_number t = Some n -> 0 <= n <= 9999 /\ is_year n = false.
Proof.
  unfold plain_number. set (num := match lettered_part t with Some _ => _ | None => _ end). clearbody num.
  destruct ((num =s "") || (4 <? slen num)%nat || negb (str_all is_digit num)) eqn:Hl; [done|].
  apply orb_false_iff in Hl as [[_ Hl]%orb_false_iff _]. intros H. obind H.
  destruct (is_year z) eqn:Hy; [done|]. injection H as <-. split; [by apply (four_digits num)|done].
Qed.
Lemma e_number_spec t n : e_number t = Some n -> 0 <= n <= 9999.
Proof.
  unfold e_number. intros H. obind H. set (rest := or_else _ _) in H. clearbody rest.
  destruct ((rest =s "") || (4 <? slen rest)%nat || negb (str_all is_digit rest)) eqn:Hl; [done|].
  apply orb_false_iff in Hl as [[_ Hl]%orb_false_iff _]. by apply (four_digits rest).
Qed.

Lemma standalone_spec tokens owned d i t j n end_ :
  standalone tokens owned d i t = Some (j, n, end_) ->
  j = i /\ (owned <= i)%nat /\ d ≫= d_consumed <> Some i /\ 0 <= n <= 9999
  /\ match end_ with
     | Some b => i = (length tokens - 1)%nat /\ n < b <= 999
     | None => is_year n = false
     end.
Proof.
  unfold standalone. destruct (bool_decide _) eqn:Hc; [done|]. apply bool_decide_eq_false in Hc.
  destruct (i <? owned)%nat eqn:Ho; [done|]. apply Nat.ltb_ge in Ho.
  destruct (if (i =? length tokens - 1)%nat then num_range t else None) as [[a b]|] eqn:Hr.
  - intros [= <- <- <-]. destruct (i =? length tokens - 1)%nat eqn:Hi; [|done]. apply Nat.eqb_eq in Hi.
    apply num_range_bounds in Hr. split_and!; try done; lia.
  - intros H. obind H. injection H as <- <- <-. apply plain_number_spec in E as [? ?]. split_and!; try done; lia.
Qed.
Lemma rfind_map_spec {A B} (f : nat -> A -> option B) i l b :
  rfind_map f i l = Some b ->
  exists j a, l !! j = Some a /\ f (i + j)%nat a = Some b
    /\ forall k a', (j < k)%nat -> l !! k = Some a' -> f (i + k)%nat a' = None.
Proof.
  revert i. induction l as [|a l IH]; intros i; [done|]. cbn [rfind_map].
  destruct (rfind_map f (S i) l) as [b'|] eqn:Hf.
  - intros [= ->]. destruct (IH (S i) Hf) as (j & a' & Hj & Hb & Hl). exists (S j), a'. split_and!; [done| |].
    + by rewrite <- plus_n_Sm.
    + intros [|k] a'' Hk Ha; [lia|]. rewrite <- plus_n_Sm. apply Hl; [lia|done].
  - intros Ha. exists O, a. rewrite Nat.add_0_r. split_and!; [done..|].
    assert (forall l i, rfind_map f i l = None -> forall k a', l !! k = Some a' -> f (i + k)%nat a' = None) as Hn.
    { clear. induction l as [|a l IH]; intros i; [done|]. cbn [rfind_map].
      destruct (rfind_map f (S i) l) eqn:Hf; [done|]. intros Hfa [|k] a' Hk.
      - injection Hk as <-. by rewrite Nat.add_0_r.
      - rewrite <- plus_n_Sm. by apply (IH (S i)). }
    intros [|k] a' Hk Ha'; [lia|]. rewrite <- plus_n_Sm. by apply (Hn l (S i)).
Qed.

(** Where a fansub name carries no [E01] token, the number taken for the
    episode stands after the tokens of the show's own name, is not the index a
    designator consumed, is no year, is the last candidate of the name; and
    only the name's final token is read as a range. *)
Theorem number_choice tokens owned d i n end_ :
  e_token tokens = None -> episode_number tokens owned d = Some (i, n, end_) ->
  exists t, tokens !! i = Some t /\ (owned <= i)%nat /\ d ≫= d_consumed <> Some i /\ 0 <= n <= 9999
    /\ (forall k t', (i < k)%nat -> tokens !! k = Some t' -> standalone tokens owned d k t' = None)
    /\ match end_ with
       | Some b => i = (length tokens - 1)%nat /\ num_range t = Some (n, b) /\ n < b <= 999
       | None => is_year n = false /\ plain_number t = Some n
       end.
Proof.
  intros He H. unfold episode_number in H. rewrite He in H.
  apply rfind_map_spec in H as (j & t & Ht & Hs & Hl). cbn [Nat.add] in *.
  pose proof (standalone_spec _ _ _ _ _ _ _ _ Hs) as (-> & Ho & Hc & Hn & Hend). exists t. split_and!; try done; try lia.
  unfold standalone in Hs. rewrite bool_decide_eq_false_2 in Hs by done.
  replace (j <? owned)%nat with false in Hs by (symmetry; by apply Nat.ltb_ge).
  destruct (if (j =? length tokens - 1)%nat then num_range t else None) as [[a b]|] eqn:Hr.
  - injection Hs as -> <-. destruct (j =? length tokens - 1)%nat; [|done]. naive_solver.
  - obind Hs. injection Hs as -> <-. done.
Qed.
Lemma number_choice_witness :
  exists t, anime_tokens "[Grp] Gundam 0080 - 01-03" !! 2%nat = Some t
    /\ num_range t = Some (1, 3) /\ 1 < 3 <= 999.
Proof.
  destruct (number_choice (anime_tokens "[Grp] Gundam 0080 - 01-03") 2 None 2 1 (Some 3))
    as (t & Ht & _ & _ & _ & _ & _ & Hr & Hb); [vm_compute; reflexivity|vm_compute; reflexivity|].
  by exists t.
Defined.

Section WellFormed.
  Context {U : Unicode}.

Lemma number_bounds tokens owned d i n end_ :
  episode_number tokens owned d = Some (i, n, end_) ->
  0 <= n <= 9999 /\ forall b, end_ = Some b -> n < b <= 999.
Proof.
  unfold episode_number. destruct (e_token tokens) as [[j m]|] eqn:He.
  - intros [= <- <- <-]. unfold e_token in He. apply find_map_Some in He as (k & t & Ht). obind Ht.
    injection Ht as <- <-. apply e_number_spec in E. by split.
  - intros H. apply rfind_map_Some in H as (j & t & Ht). apply standalone_spec in Ht as (_ & _ & _ & Hn & Hend).
    split; [done|]. intros b ->. by destruct Hend.
Qed.

Lemma special_wellformed path tokens d b :
  designator tokens = Some d -> d_band d = Some b ->
  wellformed (special path tokens (d_at d) b (d_index d) (d_span d)).
Proof.
  intros Hd Hb. unfold special. destruct (show_of path _) as [show year]. unfold wellformed.
  cbn [episode episode_end season]. split_and!.
  - unfold u32, wrap. apply Z.mod_pos_bound. lia.
  - intros n Hn. destruct (d_span d) as [m|] eqn:Hs; [|done]. injection Hn as <-.
    destruct (designator_span _ _ _ Hd Hs) as (Hi & Hm & Hband). specialize (Hband b Hb).
    rewrite !wrap_small by (unfold in_range; lia). lia.
  - intros s [= <-]. unfold u32. lia.
  - done.
Qed.
Lemma absolute_wellformed path tokens owned d i n end_ :
  episode_number tokens owned d = Some (i, n, end_) -> wellformed (absolute path tokens i n end_).
Proof.
  intros (Hn & Hend)%number_bounds. unfold absolute. destruct (show_of path _) as [show year]. unfold wellformed.
  cbn [episode episode_end season]. split_and!; [unfold u32; lia| |done|].
  - intros b Hb%Hend. lia.
  - intros _. split; [lia|]. intros b Hb%Hend. lia.
Qed.

(** Every guess the anime parser makes is well formed: its numbers are
    32-bit, a span ends after it begins (the sum with the band of a special
    cannot wrap there), and under absolute numbering an episode has at most
    four digits and a span ends below 1000. *)
Theorem guess_wellformed path g : parse_anime path = Some g -> wellformed g.
Proof.
  unfold parse_anime. destruct (parse_episode path) as [g0|] eqn:He.
  - apply parse_episode_wellformed in He. intros [= <-]. by destruct (top_dir path).
  - unfold parse_fansub. intros H. obind H.
    destruct (designator _) as [d|] eqn:Hd.
    + destruct (_ || _); [obind H; injection H as <-; by apply special_wellformed|].
      destruct (episode_number _ _ _) as [[[i n] end_]|] eqn:Hn.
      * injection H as <-. by eapply absolute_wellformed.
      * obind H. injection H as <-. by apply special_wellformed.
    + obind H. destruct p as [[i n] end_]. injection H as <-. by eapply absolute_wellformed.
Qed.

End WellFormed.

(** The tables restricted to ASCII, for the witnesses. *)
#[global] Instance ascii_tables : Unicode := {
  char_alphanumeric c := match c with String a EmptyString => is_alphanumeric a | _ => false end;
  char_lowercase := to_ascii_lowercase;
  str_lowercase := to_ascii_lowercase }.

Lemma guess_wellformed_witness :
  Forall wellformed (omap parse_anime
    ["Show/[Grp] Show - 01-02.mkv"; "Kite (Dual-Audio)/Kite Special Edition OVA 1-2 (Eng.-Dub).mkv"]).
Proof.
  set (l := omap _ _). assert (Forall (fun g => exists p, parse_anime p = Some g) l) as H.
  { repeat constructor; [exists "Show/[Grp] Show - 01-02.mkv"|
      exists "Kite (Dual-Audio)/Kite Special Edition OVA 1-2 (Eng.-Dub).mkv"]; vm_compute; reflexivity. }
  eapply Forall_impl; [exact H|]. intros g (p & Hp). exact (guess_wellformed p g Hp).
Defined.

(** ** Release tags *)

Lemma trim1_end_shorter s r : trim1_end s = Some r -> exists w, s = (r +:+ w) /\ (slen r < slen s)%nat.
Proof.
  intros H. assert (exists w, w ∈ white_space /\ strip_suffix w s = Some r) as (w & Hw & Hr).
  { unfold trim1_end in H. induction white_space as [|w l IH]; [done|]. simpl in H.
    destruct (strip_suffix w s) as [r'|] eqn:Hw.
    - injection H as ->. exists w. split; [left|done].
    - destruct (IH H) as (w' & ? & ?). exists w'. split; [by right|done]. }
  apply strip_suffix_Some in Hr as ->. exists w. split; [done|]. unfold slen. rewrite length_app_s.
  assert (forallb (fun w => negb (w =s EmptyString)) white_space = true) as Hf by (vm_compute; reflexivity).
  rewrite forallb_forall in Hf. apply list_elem_of_In, Hf in Hw. destruct w; [done|]. cbn [String.length]. lia.
Qed.
Lemma trim_end_spec s : exists t, s = (trim_end s +:+ t) /\ trim1_end (trim_end s) = None.
Proof.
  unfold trim_end. assert (forall n s, (String.length s <= n)%nat ->
    exists t, s = (trim_end_fuel n s +:+ t) /\ trim1_end (trim_end_fuel n s) = None) as H; [|by apply H].
  clear s. induction n as [|n IH]; intros s Hn.
  - destruct s; [|simpl in Hn; lia]. by exists EmptyString.
  - cbn [trim_end_fuel]. destruct (trim1_end s) as [r|] eqn:Hr; [|exists EmptyString; by rewrite app_nil_s].
    apply trim1_end_shorter in Hr as (w & -> & Hl). unfold slen in Hl.
    destruct (IH r) as (t & Ht & Hnone); [lia|]. exists (t +:+ w). split; [|done]. by rewrite <- app_assoc_s, <- Ht.
Qed.

Lemma rsplit_once_cut c s l r : rsplit_once c s = Some (l, r) -> s = (l +:+ String c r).
Proof.
  revert l. induction s as [|a s IH]; intros l; [done|]. cbn [rsplit_once].
  destruct (rsplit_once c s) as [[l' r']|] eqn:Hs.
  - intros [= <- <-]. rewrite cons_app. f_equal. by apply IH.
  - destruct (Ascii.eqb_spec a c) as [->|]; [|done]. by intros [= <- <-].
Qed.

(** No release tag is left at the end. *)
Definition untagged (out : string) : Prop :=
  forall before after, rsplit_once (byte 40) out = Some (before, after) ->
    ends_with ")" out = true -> releaseish (init after) = false.

Lemma strip_tags_spec fuel out :
  (slen out <= fuel)%nat -> trim1_end out = None ->
  exists t, out = (strip_tags fuel out +:+ t) /\ trim1_end (strip_tags fuel out) = None
    /\ untagged (strip_tags fuel out).
Proof.
  revert out. induction fuel as [|fuel IH]; intros out Hf Ht.
  - destruct out; [|simpl in Hf; lia]. by exists EmptyString.
  - cbn [strip_tags]. destruct (rsplit_once (byte 40) out) as [[before after]|] eqn:Hs.
    2:{ exists EmptyString. rewrite app_nil_s. split_and!; [done..|]. intros b a Hb. congruence. }
    destruct (ends_with ")" out && releaseish (init after)) eqn:Hr.
    + pose proof (rsplit_once_cut _ _ _ _ Hs) as Hout. destruct (trim_end_spec before) as (t & Hb & Hn).
      destruct (IH (trim_end before)) as (t' & Ht' & Hn' & Hu); [|done|].
      { apply (f_equal slen) in Hout, Hb. unfold slen in *. rewrite length_app_s in *. cbn [String.length] in Hout. lia. }
      exists (t' +:+ t +:+ String (byte 40) after). split_and!; [|done|done].
      rewrite <- !app_assoc_s, <- Ht', <- Hb. exact Hout.
    + exists EmptyString. rewrite app_nil_s. split_and!; [done..|]. intros b a Hb He.
      rewrite Hs in Hb. injection Hb as <- <-. by rewrite He in Hr.
Qed.

(** Stripping release tags ends with a beginning of the name that has no
    trailing tag and no trailing white space left; stripping again changes
    nothing. *)
Theorem strip_release_tags_exact name :
  let out := strip_release_tags name in
  (exists rest, name = out +:+ rest) /\ untagged out /\ trim1_end out = None /\ strip_release_tags out = out.
Proof.
  cbn zeta. unfold strip_release_tags at 1 2 3 5. destruct (trim_end_spec name) as (t & Hname & Hn).
  destruct (strip_tags_spec (slen (trim_end name)) (trim_end name)) as (t' & Ht' & Hn' & Hu); [done..|].
  set (out := strip_tags _ _) in *. split_and!; [|done|done|].
  - exists (t' +:+ t). by rewrite <- app_assoc_s, <- Ht'.
  - unfold strip_release_tags. rewrite trim_end_id by done. destruct (slen out); [done|]. cbn [strip_tags].
    destruct (rsplit_once (byte 40) out) as [[b a]|] eqn:Hs; [|done].
    destruct (ends_with ")" out) eqn:He; [|done]. by rewrite (Hu b a Hs He).
Qed.

(** ** The dedup key *)

Section Key.
  Context {U : Unicode}.

(** The words of a title: its maximal runs of alphanumeric characters. *)
Fixpoint title_words (cur : list string) (cs : list string) : list (list string) :=
  let flush := match cur with [] => [] | _ => [cur] end in
  match cs with
  | [] => flush
  | c :: cs => if char_alphanumeric c then title_words (cur ++ [c]) cs else flush ++ title_words [] cs
  end.
Definition lower_word (w : list string) : string := String.concat EmptyString (map char_lowercase w).

(** The lower case of an alphanumeric character ends in no white space. *)
Definition lower_visible (c : string) : Prop :=
  char_alphanumeric c = true -> char_lowercase c <> EmptyString
    /\ forall s, trim1_end (s +:+ char_lowercase c) = None.

Lemma concat_app l l' : String.concat EmptyString (l ++ l') = (String.concat EmptyString l +:+ String.concat EmptyString l').
Proof.
  induction l as [|a l IH]; [done|]. cbn [app]. destruct l as [|b l].
  - cbn [app]. destruct l'; [by rewrite app_nil_s|]. reflexivity.
  - change (String.concat EmptyString (a :: (b :: l) ++ l')) with (a +:+ EmptyString +:+ String.concat EmptyString ((b :: l) ++ l')).
    change (String.concat EmptyString (a :: b :: l)) with (a +:+ EmptyString +:+ String.concat EmptyString (b :: l)).
    rewrite IH. by rewrite !empty_app, app_assoc_s.
Qed.

Definition written (s : string) (ws : list (list string)) : Prop :=
  exists t, s = (join " " (map lower_word ws) +:+ t) /\ (t = "" \/ (t = " " /\ ws <> [])).

(** The loop writes the words with one space between two, and at most one after
    the last. *)
Lemma normalize_go_words cs :
  written (normalize_go true cs) (title_words [] cs)
  /\ forall cur, cur <> [] -> written (lower_word cur +:+ normalize_go false cs) (title_words cur cs).
Proof.
  induction cs as [|c cs [IHt IHf]].
  - split; [exists ""; by split; [|left]|]. intros cur Hc. exists "". split; [|by left]. by destruct cur.
  - cbn [normalize_go title_words]. destruct (char_alphanumeric c).
    + split.
      * specialize (IHf [c] ltac:(done)). exact IHf.
      * intros cur Hc. specialize (IHf (cur ++ [c]) ltac:(by destruct cur)).
        unfold lower_word in IHf at 1. rewrite map_app, concat_app, app_assoc_s in IHf. exact IHf.
    + split; [exact IHt|]. intros cur Hc. destruct IHt as (t & -> & Ht).
      destruct cur as [|c' cur]; [done|]. cbn [app]. destruct (title_words [] cs) as [|w ws].
      * destruct Ht as [-> |[_ ?]]; [|done]. exists " ". split; [done|by right].
      * exists t. split; [|destruct Ht as [?|[? _]]; [by left|by right]].
        cbn [map]. change (join " " (lower_word (c' :: cur) :: lower_word w :: map lower_word ws))
          with (lower_word (c' :: cur) +:+ " " +:+ join " " (lower_word w :: map lower_word ws)).
        by rewrite !app_assoc_s.
Qed.

Lemma title_words_in cs cur :
  Forall (fun c => char_alphanumeric c = true) cur ->
  Forall (fun w => w <> [] /\ Forall (fun c => char_alphanumeric c = true /\ (c ∈ cur \/ c ∈ cs)) w) (title_words cur cs).
Proof.
  revert cur. induction cs as [|c cs IH]; intros cur Hc.
  - destruct cur as [|c cur]; [done|]. apply Forall_singleton. split; [done|].
    rewrite Forall_forall in Hc |- *. intros x Hx. split; [by apply Hc|by left].
  - cbn [title_words]. destruct (char_alphanumeric c) eqn:Ha.
    + eapply Forall_impl; [apply IH; apply Forall_app; split; [done|by apply Forall_singleton]|].
      cbn beta. intros w [Hw Hall]. split; [done|]. eapply Forall_impl; [exact Hall|]. cbn beta. set_solver.
    + apply Forall_app. split.
      * destruct cur as [|c' cur]; [done|]. apply Forall_singleton. split; [done|].
        rewrite Forall_forall in Hc |- *. intros x Hx. split; [by apply Hc|by left].
      * eapply Forall_impl; [by apply IH|]. cbn beta. intros w [Hw Hall]. split; [done|].
        eapply Forall_impl; [exact Hall|]. cbn beta. set_solver.
Qed.

Lemma join_last ws w : exists x, join " " (ws ++ [w]) = (x +:+ w).
Proof.
  destruct ws as [|v ws]; [by exists EmptyString|]. exists (join " " (v :: ws) +:+ " ").
  rewrite join_app by done. by rewrite app_assoc_s.
Qed.

(** The dedup key of a title is its alphanumeric words in lower case with
    one space between two: two titles share a key when they differ only in
    case, in punctuation and in spacing. The tables are asked one thing, that a
    lower-cased letter ends in no white space. *)
Theorem normalize_is_words title :
  Forall lower_visible (chars title) ->
  normalize_title title = join " " (map lower_word (title_words [] (chars title))).
Proof.
  intros Hv. unfold normalize_title. destruct (normalize_go_words (chars title)) as [(t & -> & Ht) _].
  pose proof (title_words_in (chars title) [] ltac:(done)) as Hin.
  set (ws := title_words [] (chars title)) in *. clearbody ws.
  assert (trim1_end (join " " (map lower_word ws)) = None) as Hn.
  { destruct (decide (ws = [])) as [->|Hne]; [by vm_compute|].
    destruct (exists_last Hne) as (vs & w & ->). apply Forall_app in Hin as [_ Hin].
    apply Forall_singleton in Hin as [Hw Hall]. rewrite map_app. cbn [map].
    destruct (join_last (map lower_word vs) (lower_word w)) as [x ->].
    destruct (exists_last Hw) as (u & c & ->). apply Forall_app in Hall as [_ Hc].
    apply Forall_singleton in Hc as [Hc [Hin|Hin]]; [set_solver|].
    rewrite Forall_forall in Hv. destruct (Hv c Hin Hc) as [_ Hend].
    unfold lower_word. rewrite map_app, concat_app. cbn [map String.concat]. rewrite <- app_assoc_s. apply Hend. }
  destruct Ht as [-> |[-> _]]; [rewrite app_nil_s; by apply trim_end_id|by apply trim_end_one_space].
Qed.

End Key.

Lemma normalize_is_words_witness :
  normalize_title "  Heat -- The (Movie)! " = join " " (map lower_word [["H"; "e"; "a"; "t"]; ["T"; "h"; "e"]; ["M"; "o"; "v"; "i"; "e"]])
  /\ normalize_title "  Heat -- The (Movie)! " = "heat the movie".
Proof.
  split; [|vm_compute; reflexivity]. rewrite (normalize_is_words "  Heat -- The (Movie)! "); [vm_compute; reflexivity|].
  apply Forall_forall. intros c _ Hc. cbn in Hc |- *. destruct c as [|a [|? ?]]; try done. split; [done|].
  intros s. apply trim1_end_solid. cbn [to_ascii_lowercase]. unfold ends_on. rewrite last_char_app. cbn.
  revert a Hc. apply (class_impl is_alphanumeric (fun a => is_alphanumeric (ascii_lower a))). vm_compute. reflexivity.
Defined.

(** ** Rendition families *)

Lemma chars_app x y :
  match y with String b _ => is_cont b = false | EmptyString => True end -> chars (x +:+ y) = chars x ++ chars y.
Proof.
  intros Hy.
  assert (forall s, match s with
    | EmptyString => chars s = []
    | String b _ => exists r cs, chars s = String b r :: cs end) as Hhead.
  { induction s as [|b s IH]; [done|]. cbn [chars]. destruct (chars s) as [|[|c r] cs]; [by eexists _, _..|].
    destruct (is_cont c); by eexists _, _. }
  induction x as [|a x IH]; [done|]. rewrite cons_app. cbn [chars]. rewrite IH.
  pose proof (Hhead x) as Hx. destruct x as [|b x].
  - cbn [chars app]. pose proof (Hhead y) as Hc. destruct y as [|b y]; [by rewrite Hc|].
    destruct Hc as (r & cs & ->). by rewrite Hy.
  - destruct Hx as (r & cs & ->). cbn [app]. by destruct (is_cont b).
Qed.
Lemma split_char_last c x w : str_mem_char c w = false -> split_char c (x +:+ String c w) = split_char c x ++ [w].
Proof.
  intros Hw. induction x as [|a x IH]; rewrite ?cons_app, ?empty_app; cbn [split_char].
  - by rewrite Ascii.eqb_refl, split_char_fresh.
  - rewrite IH. destruct (Ascii.eqb a c); [done|]. destruct (split_char c x) eqn:Hs; [by apply split_char_ne in Hs|done].
Qed.

(** What the path library sees of the directory a file is in. *)
Definition dir_rooted (dir : string) : bool := (dir =s "") || has_root dir.
Definition dir_pieces (dir : string) : list string := if dir =s "" then [] else body dir.
Lemma body_file dir file :
  str_mem_char SLASH file = false -> body (dir +:+ String SLASH file) = dir_pieces dir ++ [file].
Proof.
  intros Hf. unfold dir_pieces, body. destruct dir as [|a dir].
  - rewrite empty_app. cbn [strip_prefix String.eqb]. change (strip_prefix "/" (String SLASH file)) with (Some file).
    cbn [unwrap_or app]. by apply split_char_fresh.
  - cbn [String.eqb]. rewrite cons_app. cbn [strip_prefix]. destruct (Ascii.eqb _ a); cbn [unwrap_or];
      [|rewrite <- cons_app]; by apply split_char_last.
Qed.
Lemma root_file dir file : has_root (dir +:+ String SLASH file) = dir_rooted dir.
Proof.
  unfold dir_rooted, has_root, starts_with. destruct dir as [|a dir]; [done|]. rewrite cons_app.
  cbn [strip_prefix String.eqb orb]. by destruct (Ascii.eqb _ a).
Qed.
Definition dir_parent (dir : string) : string :=
  let up := join "/" (rev (drop_dots (dir_rooted dir) (rev (dir_pieces dir)))) in
  if dir_rooted dir then "/" +:+ up else up.

Lemma path_file dir base ext :
  base <> EmptyString -> ext <> EmptyString -> str_mem_char SLASH base = false ->
  str_mem_char SLASH ext = false -> str_mem_char DOT ext = false ->
  let path := dir +:+ String SLASH (base +:+ String DOT ext) in
  parent path = Some (dir_parent dir) /\ file_stem path = Some base.
Proof.
  intros Hb He Hb1 He1 He2. cbn zeta. set (file := base +:+ String DOT ext).
  assert (str_mem_char SLASH file = false) as Hf.
  { unfold file. rewrite mem_char_app, Hb1. cbn [orb str_mem_char]. by rewrite He1. }
  assert (exists a b r, file = String a (String b r)) as (a & b & r & Hab).
  { unfold file. destruct base as [|a [|b base]]; [done|..]; by eexists _, _, _. }
  assert (file <> "..") as Hdd.
  { intros Hd. apply (f_equal last_char) in Hd. unfold file in Hd.
    destruct ext as [|c ext]; [done|].
    assert (ends_on (fun x => negb (Ascii.eqb x DOT)) (base +:+ String DOT (String c ext)) = true) as Hl.
    { change (String DOT (String c ext)) with ("." +:+ String c ext). rewrite !ends_on_app by done.
      apply ends_on_all; [done|]. revert He2. generalize (String c ext). intros s. induction s as [|x s IH]; [done|].
      cbn [str_mem_char str_all]. by intros [-> ?%IH]%orb_false_iff. }
    unfold ends_on in Hl. rewrite Hd in Hl. discriminate. }
  assert (rpieces (dir +:+ String SLASH file) = file :: rev (dir_pieces dir)) as Hr.
  { unfold rpieces. rewrite body_file by done. rewrite rev_app_distr. cbn [rev app drop_dots].
    destruct (String.eqb_spec file EmptyString) as [H0|_]; [rewrite Hab in H0; discriminate|].
    destruct (String.eqb_spec file ".") as [H0|_]; [rewrite Hab in H0; discriminate|done]. }
  split.
  - unfold parent. by rewrite Hr, root_file.
  - unfold file_stem, file_name. rewrite Hr.
    destruct (String.eqb_spec file "..") as [|_]; [done|]. destruct (String.eqb_spec file ".") as [Hd|_];
      [rewrite Hab in Hd; discriminate|]. cbn [orb mbind option_bind]. unfold file.
    rewrite rsplit_once_app by done. by rewrite not_empty_ne.
Qed.

Lemma keep_words_last ws w :
  attached w = true -> is_number w = false -> keep_words (ws ++ [w]) = keep_words ws.
Proof.
  intros Ha Hn. remember (length ws) as n eqn:Hl. revert ws Hl. induction n as [n IH] using lt_wf_ind.
  intros ws Hl. destruct ws as [|x ws]; [cbn [app keep_words]; by rewrite Ha|]. cbn [app keep_words]. destruct (attached x).
  { apply (IH (length ws)); [simpl in Hl; lia|done]. }
  destruct ws as [|y ws].
  - cbn [app]. rewrite Hn, andb_false_r. cbn [keep_words]. by rewrite Ha.
  - cbn [app]. destruct (str_mem x MARKERS && is_number y); [apply (IH (length ws)); [simpl in Hl; lia|done]|].
    change (y :: ws ++ [w]) with ((y :: ws) ++ [w]). f_equal. apply (IH (length (y :: ws))); [simpl in Hl; simpl; lia|done].
Qed.

Section Families.
  Context {U : Unicode}.
Definition ascii (a : Ascii.ascii) : bool := (code a <? 128)%N.
(** The tables on ASCII. *)
  Hypothesis Halnum : forall a, ascii a = true -> char_alphanumeric (String a EmptyString) = is_alphanumeric a.
  Hypothesis Hlower : forall s, str_all ascii s = true -> str_lowercase s = to_ascii_lowercase s.

Lemma runs_cut cur cs c cs' :
  char_alphanumeric c = false -> runs cur (cs ++ c :: cs') = runs cur cs ++ runs EmptyString cs'.
Proof.
  intros Hc. revert cur. induction cs as [|d cs IH]; intros cur; cbn [app runs].
  - by rewrite Hc.
  - destruct (char_alphanumeric d); [apply IH|]. by rewrite IH, app_assoc.
Qed.
Lemma runs_word w cur : str_all is_alphanumeric w = true -> cur +:+ w <> EmptyString -> runs cur (chars w) = [cur +:+ w].
Proof.
  assert (forall a, is_alphanumeric a = true -> ascii a = true /\ is_cont a = false) as Hasc.
  { intros a Ha. split; [|apply negb_true_iff]; revert a Ha.
    - apply class_impl. vm_compute. reflexivity.
    - apply (class_impl is_alphanumeric (fun a => negb (is_cont a))). vm_compute. reflexivity. }
  revert cur. induction w as [|a w IH]; intros cur Hw Hne.
  - cbn [chars runs]. rewrite app_nil_s in *. unfold flush. by rewrite not_empty_ne.
  - cbn [str_all] in Hw. apply andb_true_iff in Hw as [Ha Hw]. destruct (Hasc a Ha) as [Ha1 _].
    change (String a w) with (String a EmptyString +:+ w). rewrite chars_app.
    2:{ destruct w as [|b w]; [done|]. cbn [str_all] in Hw. apply andb_true_iff in Hw as [Hb _]. by destruct (Hasc b Hb). }
    cbn [chars app runs]. rewrite Halnum, Ha by done. rewrite IH; [by rewrite app_assoc_s|done|].
    by destruct cur.
Qed.

(** The discs of one release are one rendition: files of a directory whose
    names differ only in the number of a final [CDn] have the same family. *)
Theorem discs_share_family dir pre sep n m ext :
  str_mem_char SLASH pre = false -> ascii sep = true -> is_alphanumeric sep = false -> Ascii.eqb sep SLASH = false ->
  ext <> EmptyString -> str_mem_char SLASH ext = false -> str_mem_char DOT ext = false ->
  0 <= n <= 99 -> 0 <= m <= 99 ->
  let disc k := dir +:+ String SLASH ((pre +:+ String sep ("CD" +:+ show k)) +:+ String DOT ext) in
  rendition_family_key (disc n) = rendition_family_key (disc m).
Proof.
  intros Hpre Hsep Hsep2 Hsep3 Hne He1 He2 Hn Hm. cbn zeta.
  assert (is_cont sep = false) as Hcont.
  { apply negb_true_iff. clear -Hsep. revert sep Hsep. apply (class_impl ascii (fun a => negb (is_cont a))).
    vm_compute. reflexivity. }
  set (base := fun k => pre +:+ String sep ("CD" +:+ show k)).
  assert (forall k, 0 <= k <= 99 -> rendition_family_key (dir +:+ String SLASH (base k +:+ String DOT ext))
    = (dir_parent dir +:+ String (byte 10)
        (let kept := keep_words (map str_lowercase (runs EmptyString (chars pre))) in
         if bool_decide (kept = []) then "@parts" else join "-" kept))) as Hkey; [|etransitivity; [exact (Hkey n Hn)|symmetry; exact (Hkey m Hm)]].
  intros k Hk. set (word := fun k => "CD" +:+ show k).
  assert (str_all is_alphanumeric (word k) && str_all ascii (word k) && attached (to_ascii_lowercase (word k))
    && negb (is_number (to_ascii_lowercase (word k))) && negb (str_mem_char SLASH (word k)) = true) as Hword.
  { apply (z_enum (fun k => str_all is_alphanumeric (word k) && str_all ascii (word k) && attached (to_ascii_lowercase (word k))
      && negb (is_number (to_ascii_lowercase (word k))) && negb (str_mem_char SLASH (word k))) 0 100); [vm_compute; reflexivity|lia]. }
  apply andb_true_iff in Hword as [[[[Hw1 Hw2]%andb_true_iff Hw3]%andb_true_iff Hw4%negb_true_iff]%andb_true_iff Hw5%negb_true_iff].
  destruct (path_file dir (base k) ext) as [Hparent Hstem]; try done.
  { unfold base. by destruct pre. }
  { unfold base. rewrite mem_char_app, Hpre. cbn [orb str_mem_char]. by rewrite Hsep3. }
  unfold rendition_family_key. rewrite Hparent, Hstem. cbn [unwrap_or].
  assert (runs EmptyString (chars (base k)) = runs EmptyString (chars pre) ++ [word k]) as ->.
  { unfold base. rewrite chars_app by done.
    change (String sep ("CD" +:+ show k)) with (String sep EmptyString +:+ word k). rewrite chars_app by done.
    cbn [chars app]. rewrite runs_cut by (by rewrite Halnum).
    rewrite (runs_word (word k)); [done|done|]. unfold word. rewrite empty_app. discriminate. }
  rewrite map_app. cbn [map]. rewrite Hlower by done. rewrite keep_words_last by done.
  assert (is_bare_part (map str_lowercase (runs EmptyString (chars pre)) ++ [to_ascii_lowercase (word k)]) = false) as ->.
  { destruct (map str_lowercase _) as [|x [|y l]]; done. }
  done.
Qed.

End Families.

Lemma discs_share_family_witness :
  rendition_family_key "Cut A/Movie.REPACK-CD1.avi" = rendition_family_key "Cut A/Movie.REPACK-CD2.avi"
  /\ rendition_family_key "Cut A/Movie.REPACK-CD1.avi" <> rendition_family_key "Cut B/Movie.REPACK-CD1.avi".
Proof.
  split; [|vm_compute; discriminate].
  apply (discs_share_family (U := ascii_tables) (fun a _ => eq_refl) (fun s _ => eq_refl) "Cut A" "Movie.REPACK" DASH 1 2 "avi");
    (reflexivity || discriminate || (split; discriminate)).
Defined.

(** ** Revisions *)

Definition is_repack (t : string) : bool := to_ascii_lowercase t =s "repack".
Definition is_rerip (t : string) : bool := to_ascii_lowercase t =s "rerip".
Definition versions (tokens : list string) : list Z := omap version_of tokens.

Lemma tag_has_no_version t : is_repack t || is_rerip t || (t =s "PROPER") = true -> version_of t = None.
Proof.
  intros H. assert (exists w, w ∈ ["repack"; "rerip"; "proper"] /\ to_ascii_lowercase t = w) as (w & Hw & Ht).
  { apply orb_true_iff in H as [[H|H]%orb_true_iff|H]; apply String.eqb_eq in H.
    - exists "repack". split; [set_solver|done].
    - exists "rerip". split; [set_solver|done].
    - exists "proper". split; [set_solver|by subst]. }
  unfold version_of. destruct (split_once_by _ t) as [[ep v]|] eqn:Hs; [|done]. exfalso.
  assert (forall t ep v, split_once_by (one_of [118; 86]%N) t = Some (ep, v) ->
    str_mem_char (byte 118) (to_ascii_lowercase t) = true) as Hv.
  { clear. induction t as [|a t IH]; intros ep v; [done|]. cbn [split_once_by to_ascii_lowercase str_mem_char].
    destruct (one_of [118; 86]%N a) eqn:Ha.
    - intros _. apply orb_true_iff. left. revert a Ha.
      apply (class_impl (one_of [118; 86]%N) (fun a => Ascii.eqb (ascii_lower a) (byte 118))). vm_compute. reflexivity.
    - intros H. destruct (split_once_by _ t) as [[l r]|]; [|done]. rewrite (IH l r eq_refl). by rewrite orb_true_r. }
  apply Hv in Hs. rewrite Ht in Hs. repeat (apply elem_of_cons in Hw as [->|Hw]; [discriminate|]). by apply elem_of_nil in Hw.
Qed.

Lemma read_tags tokens s :
  fold_left read_tag tokens s
  = mkTags (fold_left Z.max (versions tokens) (version s)) (repack s || existsb is_repack tokens)
      (proper s || existsb (String.eqb "PROPER") tokens) (rerip s || existsb is_rerip tokens).
Proof.
  revert s. induction tokens as [|t tokens IH]; intros s; [by destruct s as [v r p e]; cbn; rewrite !orb_false_r|].
  cbn [fold_left existsb]. rewrite IH. unfold versions. cbn [omap list_omap].
  pose proof (tag_has_no_version t) as Hv. unfold read_tag. change (to_ascii_lowercase t =s "repack") with (is_repack t).
  change (to_ascii_lowercase t =s "rerip") with (is_rerip t). rewrite (String.eqb_sym "PROPER" t).
  destruct (is_repack t) eqn:H1; [|destruct (is_rerip t) eqn:H2; [|destruct (t =s "PROPER") eqn:H3]].
  - rewrite Hv by done. unfold is_repack, is_rerip in *. apply String.eqb_eq in H1. rewrite H1.
    assert ((t =s "PROPER") = false) as ->.
    { destruct (String.eqb_spec t "PROPER") as [->|]; [discriminate|done]. }
    cbn. by rewrite orb_true_r.
  - rewrite Hv by done. unfold is_rerip in *. apply String.eqb_eq in H2.
    assert ((t =s "PROPER") = false) as ->.
    { destruct (String.eqb_spec t "PROPER") as [->|]; [discriminate|done]. }
    cbn. by rewrite orb_true_r.
  - rewrite Hv by done. cbn. by rewrite orb_true_r.
  - destruct (version_of t); cbn; done.
Qed.

Lemma last_piece_file c dir name : str_mem_char c name = false -> last_piece c (dir +:+ String c name) = name.
Proof. intros H. unfold last_piece. rewrite split_char_last by done. apply last_last. Qed.

(** The revision of a release is read off the file name alone: the highest
    [NNvM] version, or 1, and one more for each of the tags REPACK, PROPER (in
    capitals) and RERIP that stands as a token, once each and in any order. *)
Theorem revision_exact dir name :
  str_mem_char SLASH name = false ->
  let tokens := split_by SEPARATORS name in
  release_revision (dir +:+ String SLASH name)
  = wrap 32 (fold_left Z.max (versions tokens) 1 + Z.b2z (existsb is_repack tokens)
      + Z.b2z (existsb (String.eqb "PROPER") tokens) + Z.b2z (existsb is_rerip tokens)).
Proof.
  intros Hn. cbn zeta. unfold release_revision. rewrite last_piece_file by done. rewrite read_tags. done.
Qed.
Lemma revision_exact_witness :
  release_revision "Version 2.0/[Grp] Show - 05v2 REPACK.mkv" = wrap 32 (2 + 1 + 0 + 0).
Proof. exact (revision_exact "Version 2.0" "[Grp] Show - 05v2 REPACK.mkv" eq_refl). Defined.

(** ** Where the code does less than it says *)

(** The sum of a version near the top of its width and a tag wraps: a corrected
    release ranks below every plain one (a debug build panics). *)
Lemma revision_wraps : release_revision "Show - 05v4294967295 REPACK.mkv" = 0.
Proof. vm_compute. reflexivity. Qed.

(** The digits attached to a designator are unbounded, and so is the sum with
    its band: a creditless opening lands among the ordinary specials. *)
Lemma attached_index_wraps :
  episode <$> parse_anime "Show/NCOP4294967290.mkv" = Some 94.
Proof. vm_compute. reflexivity. Qed.

(** A top directory that is nothing but a release tag leaves a show with no
    name; the standard parser, asked alone, would have said so. *)
Lemma tag_directory_unnames :
  show_title <$> parse_anime "(OVA)/Lain - S01E01.mkv" = Some ""
  /\ show_title <$> parse_episode "(OVA)/Lain - S01E01.mkv" = Some "Unknown Show".
Proof. vm_compute. by split. Qed.

(** A glued lettered part is no number. *)
Lemma glued_part_unread : plain_number "03b" = None /\ plain_number "03-b" = Some 3.
Proof. by vm_compute. Qed.

(** The directory nearest the file names the show, not the topmost one. *)
Lemma innermost_dir_names :
  show_title <$> parse_episode "TV/Andor/Season 1/Andor - S01E02.mkv" = Some "Andor".
Proof. by vm_compute. Qed.
