(* ===== verification/Subindex.v ===== *)
(** * The sparse subtitle index (kahawai-media, src/subindex.rs)

    The windowed reader, the walk of a Matroska header for what it declares,
    the index of its subtitle tracks and cues, the reads of its clusters, and
    the assembly of the tracks. Reads happen in order on one reader, so a step
    takes the reader and returns it. Offsets that were read are below the
    file's length and sizes below 2^56, so the sums of the two stay in u64; the
    sums that need not are written with their wrap. *)
From S2P Require Import Prelude Media Utf8 Ebml Subtitles.
#[local] Open Scope Z_scope.

Definition slice (off n : Z) (l : bytes) : bytes := take (Z.to_nat n) (drop (Z.to_nat off) l).
Definition len (l : bytes) : Z := Z.of_nat (length l).

(** [RemuxSource::read_at]: the bytes read into a buffer of the given size, or
    an I/O error; and what stops the n-th read of a walk: its checkpoint's
    error, or the budget's ([Io]). *)
Record Env := mkEnv {
  src_read : Z -> Z -> option bytes;
  weather : nat -> option Error;
}.

Record Reader := mkReader {
  r_len : Z;
  win_start : Z;
  win : bytes;
  reads : nat;
}.
Definition reader_new (size : Z) : Reader := mkReader size 0 [] 0.

Definition M (A : Type) : Type := Reader -> result Error A * Reader.
Definition ret {A} (a : A) : M A := fun r => (Ok a, r).
Definition fail {A} (e : Error) : M A := fun r => (Err e, r).
Definition bind {A B} (m : M A) (k : A -> M B) : M B :=
  fun r => match m r with (Ok a, r) => k a r | (Err e, r) => (Err e, r) end.
(** The outcome of a step as a value: [match r.read_at(..) { Ok .. Err .. }]. *)
Definition attempt {A} (m : M A) : M (result Error A) := fun r => let '(a, r) := m r in (Ok a, r).
Definition lift {A} (x : result Error A) : M A := fun r => (x, r).
Definition get_len : M Z := fun r => (Ok (r_len r), r).
Definition context {A} (o : option A) : M A := lift (ok_or o Shape).
Notation "'let!' x := m 'in' k" := (bind m (fun x => k))
  (at level 10, x pattern, m at level 100, k at level 200) : kahawai_scope.

Definition READAHEAD : Z := 256 * 1024.

Section Subindex.
Context (env : Env).

(** The loop that fills the buffer; every turn adds a byte. *)
Fixpoint fill (fuel : nat) (off want : Z) (got : bytes) : result Error bytes :=
  if want <=? len got then Ok got
  else
    match fuel with
    | O => Err Diverges
    | S fuel =>
        match src_read env (off + len got) (want - len got) with
        | None => Err Io
        | Some [] => Err Shape
        | Some bs => fill fuel off want (got ++ bs)
        end
    end.

Definition in_window (r : Reader) (off end_ : Z) : bool :=
  (win_start r <=? off) && (end_ <=? win_start r + len (win r)).

(** How much to read for [n] bytes at [off]. *)
Definition want_bytes (r : Reader) (off n : Z) : Z :=
  let near := (win_start r <=? off) && (off <=? win_start r + len (win r) + 65536) in
  Z.min (Z.max n (if near then READAHEAD else 4096)) (sat_sub (r_len r) off).

Definition read_at (off n : Z) : M bytes := fun r =>
  let tick := reads r in
  let r := mkReader (r_len r) (win_start r) (win r) (S tick) in
  match weather env tick with
  | Some e => (Err e, r)
  | None =>
      let loaded :=
        if in_window r off (wrap 64 (off + n)) then Ok r
        else
          let want := want_bytes r off n in
          if want <? n then Err Shape
          else
            let? buf := fill (Z.to_nat want) off want [] in
            Ok (mkReader (r_len r) off buf (reads r)) in
      match loaded with
      | Err e => (Err e, r)
      | Ok r =>
          let s := off - win_start r in
          if len (win r) <? s + n then (Err Panic, r) else (Ok (slice s n (win r)), r)
      end
  end.

(** An element's header at [pos]: id, where its body starts, its size. *)
Definition element_head (head : bytes) (pos : Z) : result Error (Z * Z * option Z) :=
  let? i := ebml_id head in
  let? s := ebml_size (drop (snd i) head) in
  Ok (fst i, pos + Z.of_nat (snd i) + Z.of_nat (snd s), fst s).

Definition segment_span : M (option (Z * Z)) :=
  let! flen := get_len in
  let! head := read_at 0 (Z.min 32 flen) in
  match ebml_id head with
  | Err _ => ret None
  | Ok (id, il) =>
      if negb (id =? EBML_HEADER) then ret None
      else
        let! h := lift (element_head head 0) in
        let '(_, body, hsize) := h in
        let! hsize := context hsize in
        let pos := body + hsize in
        let! seg := read_at pos 16 in
        let! s := lift (element_head seg pos) in
        let '(id, start, seg_size) := s in
        if negb (id =? SEGMENT) then fail Shape
        else ret (Some (start, default flen (seg_size ≫= checked_add start)))
  end.

(** ** What a container declares *)

Definition name_at (h : Z * Z * Z) : M string :=
  let '(_, cbody, csize) := h in let! v := read_at cbody csize in ret (lossy v).

Record AttachedFile := mkAttachedFile {
  f_name : string; f_mime : string; f_off : Z; f_len : Z;
}.

(** The children of one AttachedFile; each turn moves past a header. *)
Fixpoint attached_file (fuel : nat) (cpos cend : Z) (f : AttachedFile) : M AttachedFile :=
  if cend <=? cpos then ret f
  else
    match fuel with
    | O => fail Diverges
    | S fuel =>
        let! h := read_at cpos 16 in
        let! e := lift (element_head h cpos) in
        let '(cid, cbody, csize) := e in
        let! csize := context csize in
        let! f :=
          if (cid =? FILE_NAME) && (csize <=? MAX_HEADER_ELEMENT) then
            let! n := name_at (cid, cbody, csize) in
            ret (mkAttachedFile n (f_mime f) (f_off f) (f_len f))
          else if (cid =? FILE_MIME) && (csize <=? MAX_HEADER_ELEMENT) then
            let! n := name_at (cid, cbody, csize) in
            ret (mkAttachedFile (f_name f) n (f_off f) (f_len f))
          else if cid =? FILE_DATA then ret (mkAttachedFile (f_name f) (f_mime f) cbody csize)
          else ret f in
        attached_file fuel (cbody + csize) cend f
    end.

Definition attachment_of (f : AttachedFile) : list Attachment :=
  if 0 <? f_len f then [mkAttachment (f_name f) (f_mime f) (f_off f) (f_len f)] else [].

Fixpoint attached_files (fuel : nat) (pos end_ : Z) (out : list Attachment) : M (list Attachment) :=
  if end_ <=? pos then ret out
  else
    match fuel with
    | O => fail Diverges
    | S fuel' =>
        let! head := read_at pos 16 in
        let! e := lift (element_head head pos) in
        let '(id, ebody, esize) := e in
        let! esize := context esize in
        let! out :=
          if id =? ATTACHED_FILE then
            let! f := attached_file fuel ebody (ebody + esize)
                        (mkAttachedFile EmptyString EmptyString 0 0) in
            ret (out ++ attachment_of f)
          else ret out in
        attached_files fuel' (ebody + esize) end_ out
    end.

(** A loop over offsets of the file reads a header per turn, so the file's
    length is fuel enough ([attached_files_end]). *)
Definition file_fuel : M nat := let! flen := get_len in ret (S (Z.to_nat flen)).
Definition read_attached_files (body size : Z) : M (list Attachment) :=
  let! fuel := file_fuel in attached_files fuel body (body + size) [].

Record Walk := mkWalk {
  w_attachments : option (list Attachment);
  w_chapters : option (list Chapter);
  w_subtitles : option (list DeclaredSubtitle);
  w_pending : list Z;
  w_saw_seekhead : bool;
  w_visited : gset Z;
}.
Definition walk_new : Walk := mkWalk None None None [] false ∅.

Definition visit_pos (p : Z) (w : Walk) : Walk :=
  mkWalk (w_attachments w) (w_chapters w) (w_subtitles w) (w_pending w) (w_saw_seekhead w)
    ({[p]} ∪ w_visited w).
Definition with_pending (p : list Z) (w : Walk) : Walk :=
  mkWalk (w_attachments w) (w_chapters w) (w_subtitles w) p (w_saw_seekhead w) (w_visited w).
Definition vouched (w : Walk) : Walk :=
  mkWalk (w_attachments w) (w_chapters w) (w_subtitles w) (w_pending w) true (w_visited w).
Definition with_attachments (a : list Attachment) (w : Walk) : Walk :=
  mkWalk (Some a) (w_chapters w) (w_subtitles w) (w_pending w) (w_saw_seekhead w) (w_visited w).
Definition with_chapters (c : list Chapter) (w : Walk) : Walk :=
  mkWalk (w_attachments w) (Some c) (w_subtitles w) (w_pending w) (w_saw_seekhead w) (w_visited w).
Definition with_subtitles (s : list DeclaredSubtitle) (w : Walk) : Walk :=
  mkWalk (w_attachments w) (w_chapters w) (Some s) (w_pending w) (w_saw_seekhead w) (w_visited w).

(** [take_pending]: the first promise inside the segment not yet visited; the
    dead ones before it are marked. *)
Fixpoint take_promise (end_ : Z) (pending : list Z) (visited : gset Z) : option Z * gset Z :=
  match pending with
  | [] => (None, visited)
  | p :: pending =>
      if end_ <=? p then take_promise end_ pending ({[p]} ∪ visited)
      else if bool_decide (p ∈ visited) then take_promise end_ pending visited
      else (Some p, visited)
  end.
Definition take_pending (end_ : Z) (w : Walk) : option Z * Walk :=
  let '(o, v) := take_promise end_ (w_pending w) (w_visited w) in
  (o, mkWalk (w_attachments w) (w_chapters w) (w_subtitles w) (w_pending w) (w_saw_seekhead w) v).

(** Weather propagates; a failure of shape is worth what the caller says. *)
Definition settle_shape {A} (r : result Error A) (shape : A) : M A :=
  match r with
  | Ok a => ret a
  | Err Shape => ret shape
  | Err e => fail e
  end.

Definition DECLARE_TARGETS : list Z := [ATTACHMENTS; CHAPTERS; TRACKS; SEEK_HEAD].

(** A SeekHead's promises, kept as far as it parsed; it vouches for the layout
    only when all of it did. *)
Definition follow_seekhead (segment_start : Z) (data : bytes) (w : Walk) : Walk :=
  match walk_children (seek_entry DECLARE_TARGETS segment_start) data (w_pending w) with
  | (p, Ok _) => vouched (with_pending p w)
  | (p, Err _) => with_pending p w
  end.

(** The body of [declare]'s loop after an element's header is read. [CLUSTER]
    is the loop's business. *)
Definition declare_element (segment_start id body size : Z) (w : Walk) : M Walk :=
  if id =? SEEK_HEAD then
    if MAX_HEADER_ELEMENT <? size then ret w
    else
      let! data := attempt (read_at body size) in
      settle_shape (let? data := data in Ok (follow_seekhead segment_start data w)) w
  else if (id =? ATTACHMENTS) && is_none (w_attachments w) then
    let! found := attempt (read_attached_files body size) in
    let! found := settle_shape found [] in
    ret (with_attachments found w)
  else if (id =? CHAPTERS) && is_none (w_chapters w) then
    if size <=? MAX_HEADER_ELEMENT then
      let! data := attempt (read_at body size) in
      let! found := settle_shape
        (let? data := data in
         Ok (match read_chapters data with Ok found => found | Err _ => [] end)) [] in
      ret (with_chapters found w)
    else ret (with_chapters [] w)
  else if (id =? TRACKS) && is_none (w_subtitles w) && (size <=? MAX_HEADER_ELEMENT) then
    let! data := attempt (read_at body size) in
    settle_shape
      (let? data := data in
       Ok (match read_subtitle_tracks data with Ok found => with_subtitles found w | Err _ => w end)) w
  else ret w.

Definition all_found (w : Walk) : bool :=
  is_some (w_attachments w) && is_some (w_chapters w) && is_some (w_subtitles w).

(** What a turn of the loop decides: go on from a position, or stop. *)
Inductive Next := Continue (pos : Z) (w : Walk) | Break (w : Walk).

Definition promise_or_break (end_ : Z) (w : Walk) : Next :=
  match take_pending end_ w with (Some p, w) => Continue p w | (None, w) => Break w end.

Definition declare_turn (segment_start end_ pos : Z) (w : Walk) : M Next :=
  if (end_ <=? pos) || bool_decide (pos ∈ w_visited w) then ret (promise_or_break end_ w)
  else
    let w := visit_pos pos w in
    let! parsed := attempt
      (let! head := read_at pos 16 in
       let! e := lift (element_head head pos) in
       let '(id, body, size) := e in
       let! size := context size in
       ret (id, body, size)) in
    match parsed with
    | Err Shape => ret (promise_or_break end_ w)
    | Err e => fail e
    | Ok (id, body, size) =>
        let! w := declare_element segment_start id body size w in
        let go w := if all_found w then Break w else Continue (body + size) w in
        if id =? CLUSTER then
          match take_pending end_ w with
          | (Some p, w) => ret (Continue p w)
          | (None, w) => if w_saw_seekhead w then ret (Break w) else ret (go w)
          end
        else ret (go w)
    end.

(** Two turns at most per position visited ([declare_ends]). *)
Fixpoint declare_loop (fuel : nat) (segment_start end_ pos : Z) (w : Walk) : M Walk :=
  match fuel with
  | O => fail Diverges
  | S fuel =>
      let! next := declare_turn segment_start end_ pos w in
      match next with
      | Break w => ret w
      | Continue pos w => declare_loop fuel segment_start end_ pos w
      end
  end.

Record Declaration := mkDeclaration {
  d_attachments : list Attachment;
  d_chapters : list Chapter;
  d_subtitles : option (list DeclaredSubtitle);
}.
Definition declaration_default : Declaration := mkDeclaration [] [] None.

Definition declare : M Declaration :=
  let! span := attempt segment_span in
  let! span := settle_shape span None in
  match span with
  | None => ret declaration_default
  | Some (segment_start, segment_end) =>
      let! flen := get_len in
      let end_ := Z.min segment_end flen in
      let! w := declare_loop (2 * Z.to_nat end_ + 2) segment_start end_ segment_start walk_new in
      ret (mkDeclaration (default [] (w_attachments w)) (default [] (w_chapters w)) (w_subtitles w))
  end.
Definition declare_container : M (list Attachment * list Chapter) :=
  let! d := declare in ret (d_attachments d, d_chapters d).
Definition declare_attachments : M (list Attachment) := let! d := declare_container in ret (fst d).
Definition declare_chapters : M (list Chapter) := let! d := declare_container in ret (snd d).

(** ** The index of the subtitle tracks *)

Record MkvIndex := mkMkvIndex {
  segment_start : Z;
  timestamp_scale : Z;
  tracks : list MkvTrack;
  sub_cues : list SubCue;
  first_cluster : option Z;
}.
Definition with_scale (s : Z) (i : MkvIndex) : MkvIndex :=
  mkMkvIndex (segment_start i) s (tracks i) (sub_cues i) (first_cluster i).
Definition with_tracks (t : list MkvTrack) (i : MkvIndex) : MkvIndex :=
  mkMkvIndex (segment_start i) (timestamp_scale i) t (sub_cues i) (first_cluster i).
Definition with_cues (c : list SubCue) (i : MkvIndex) : MkvIndex :=
  mkMkvIndex (segment_start i) (timestamp_scale i) (tracks i) c (first_cluster i).
Definition with_first_cluster (p : Z) (i : MkvIndex) : MkvIndex :=
  mkMkvIndex (segment_start i) (timestamp_scale i) (tracks i) (sub_cues i) (Some p).

Definition mentions_ass (codec : string) : bool :=
  str_contains "ASS" codec || str_contains "SSA" codec.

(** One TrackEntry; [sub_seen] counts the subtitle tracks before it. *)
Definition track_entry (id : Z) (entry : bytes) (s : nat * list MkvTrack) :
    (nat * list MkvTrack) * result Error bool :=
  let '(sub_seen, out) := s in
  if negb (id =? TRACK_ENTRY) then (s, Ok true)
  else
    match walk_children (visit entry_field) entry (mkEntry 0 0 EmptyString None None) with
    | (_, Err e) => (s, Err e)
    | (e, Ok _) =>
        if e_type e =? SUBTITLE_TYPE then
          let ass := mentions_ass (e_codec e) in
          let t := mkMkvTrack (e_number e) sub_seen (e_codec e) ass
                     (if ass then decode_text <$> e_private e else None)
                     (e_private e) (e_compression e) in
          ((S sub_seen, out ++ [t]), Ok true)
        else (s, Ok true)
    end.

Definition INDEX_TARGETS : list Z := [TRACKS; CUES; INFO].

(** One top-level element: what it adds to the index and the promises. *)
Definition index_element (pos id body size : Z) (idx : MkvIndex) (pending : list Z) :
    M (MkvIndex * list Z) :=
  if id =? SEEK_HEAD then
    let! data := read_at body size in
    let! p := lift (checked (walk_children (seek_entry INDEX_TARGETS (segment_start idx)) data pending)) in
    ret (idx, p)
  else if id =? INFO then
    let! data := read_at body size in
    let! s := lift (checked (walk_children (visit info_field) data (timestamp_scale idx))) in
    ret (with_scale s idx, pending)
  else if id =? TRACKS then
    let! data := read_at body size in
    let! s := lift (checked (walk_children track_entry data (O, tracks idx))) in
    ret (with_tracks (snd s) idx, pending)
  else if id =? CUES then
    let! data := read_at body size in
    let wanted := map number (tracks idx) in
    let! c := lift (checked (walk_children (cue_entry wanted) data (sub_cues idx))) in
    ret (with_cues c idx, pending)
  else if (id =? CLUSTER) && is_none (first_cluster idx) then
    ret (with_first_cluster pos idx, pending)
  else ret (idx, pending).

Definition is_empty_list {A} (l : list A) : bool := match l with [] => true | _ => false end.
Definition is_visited (visited : gset Z) (p : Z) : bool := bool_decide (p ∈ visited).

(** Where the walk goes after an element: [None] when an exact pass has
    everything it needs. *)
Definition index_next (id linear : Z) (idx : MkvIndex) (pending : list Z) (visited : gset Z) :
    option Z :=
  if (id =? CLUSTER) && negb (is_empty_list (tracks idx)) && is_some (first_cluster idx)
     && negb (is_empty_list (sub_cues idx)) && forallb (is_visited visited) pending
  then None
  else
    match List.find (fun p => negb (is_visited visited p)) pending with
    | Some next => if is_some (first_cluster idx) then Some next else Some linear
    | None => Some linear
    end.

(** A position is visited once, so [end_] turns are enough ([index_ends]). *)
Fixpoint index_loop (fuel : nat) (end_ pos : Z) (visited : gset Z) (idx : MkvIndex)
    (pending : list Z) : M MkvIndex :=
  if (end_ <=? pos) || is_visited visited pos then ret idx
  else
    match fuel with
    | O => fail Diverges
    | S fuel =>
        let visited := {[pos]} ∪ visited in
        let! head := attempt (read_at pos 16) in
        match head with
        | Err Io | Err Shape => ret idx
        | Err e => fail e
        | Ok head =>
            match element_head head pos with
            | Err _ | Ok (_, _, None) => ret idx
            | Ok (id, body, Some size) =>
                let! s := index_element pos id body size idx pending in
                let '(idx, pending) := s in
                match index_next id (body + size) idx pending visited with
                | None => ret idx
                | Some pos => index_loop fuel end_ pos visited idx pending
                end
            end
        end
    end.

Definition mkv_read_index : M MkvIndex :=
  let! flen := get_len in
  let! head := read_at 0 (Z.min 32 flen) in
  let! h := lift (element_head head 0) in
  let '(id, body, hsize) := h in
  if negb (id =? EBML_HEADER) then fail Shape
  else
    let! hsize := context hsize in
    let pos := body + hsize in
    let! seg := read_at pos 16 in
    let! s := lift (element_head seg pos) in
    let '(id, start, seg_size) := s in
    if negb (id =? SEGMENT) then fail Shape
    else
      let end_ := Z.min (default flen (seg_size ≫= checked_add start)) flen in
      index_loop (S (Z.to_nat end_)) end_ start ∅ (mkMkvIndex start 1000000 [] [] None) [].

(** ** Clusters *)

Definition Blocks : Type := list (Z * SubBlock).

(** Whether a SimpleBlock's peeked payload says it is wanted; what cannot be
    told is read. *)
Definition peek_simple (prefix : bytes) (wanted : list Z) : bool :=
  match block_track prefix with Some t => wants wanted t | None => true end.

(** The same of a BlockGroup, by its first child. *)
Definition peek_group (inner : bytes) (wanted : list Z) : bool :=
  match ebml_id inner with
  | Ok (cid, cil) =>
      if negb (cid =? BLOCK) then true
      else
        match ebml_size (drop cil inner) with
        | Ok (_, csl) =>
            if (length inner <? cil + csl)%nat then true
            else match block_track (drop (cil + csl) inner) with
                 | Some t => wants wanted t
                 | None => true
                 end
        | Err _ => true
        end
  | Err _ => true
  end.

(** A group read on its own, re-wrapped under its cluster's timestamp. *)
Definition wrapped (ts id : Z) (body : bytes) : bytes :=
  encode_element CLUSTER_TIMESTAMP (encode_uint ts) ++ encode_element id body.

Definition sparse_element (head : bytes) (hl : nat) (id body size ts : Z) (wanted : list Z)
    (out : Blocks) : M (Z * Blocks) :=
  let inner := drop hl head in
  if id =? CLUSTER_TIMESTAMP then
    if Z.of_nat hl + size <=? len head then ret (uint (take (Z.to_nat size) inner), out)
    else let! v := read_at body size in ret (uint v, out)
  else if id =? SIMPLE_BLOCK then
    if peek_simple inner wanted then
      let! data := read_at body size in
      ret (ts, out ++ match sub_block wanted data with Some b => [(ts, b)] | None => [] end)
    else ret (ts, out)
  else if id =? BLOCK_GROUP then
    if peek_group inner wanted then
      let! data := read_at body size in
      let! tmp := lift (scan_cluster (wrapped ts BLOCK_GROUP data) wanted) in
      ret (ts, out ++ tmp)
    else ret (ts, out)
  else ret (ts, out).

(** [walk_cluster_sparse] from [p]; [r.len - p] wraps when [p] is past the
    end. Each turn moves past a header it has read. *)
Fixpoint sparse_loop (fuel : nat) (p end_ ts : Z) (wanted : list Z) (out : Blocks) : M Blocks :=
  if end_ <=? p then ret out
  else
    match fuel with
    | O => fail Diverges
    | S fuel =>
        let! flen := get_len in
        let peek_n := Z.min (Z.min 48 (end_ - p)) (wrap 64 (flen - p)) in
        if peek_n <? 2 then ret out
        else
          let! head := read_at p peek_n in
          match ebml_id head with
          | Err _ => ret out
          | Ok (id, il) =>
              match ebml_size (drop il head) with
              | Err _ | Ok (None, _) => ret out
              | Ok (Some size, sl) =>
                  let body := p + Z.of_nat (il + sl) in
                  let! s := sparse_element head (il + sl) id body size ts wanted out in
                  let '(ts, out) := s in
                  sparse_loop fuel (body + size) end_ ts wanted out
              end
          end
    end.
Definition walk_cluster_sparse (body_start body_len : Z) (wanted : list Z) (out : Blocks) : M Blocks :=
  let! fuel := file_fuel in
  sparse_loop fuel body_start (body_start + body_len) 0 wanted out.

(** ** The shared walk *)

(** The first ClusterTimestamp of a cluster's first children; errors are
    dropped. *)
Definition first_timestamp (data : bytes) : Z :=
  fst (walk_children (fun id v ts =>
    if id =? CLUSTER_TIMESTAMP then (uint v, Ok false) else (ts, Ok true)) data 0).

Definition cluster_time (cluster_pos : Z) (cache : gmap Z Z) : M (Z * gmap Z Z) :=
  match cache !! cluster_pos with
  | Some t => ret (t, cache)
  | None =>
      let! head := read_at cluster_pos 64 in
      let! h := lift (element_head head 0) in
      let '(id, hl, _) := h in
      if negb (id =? CLUSTER) then fail Shape
      else
        let ts := first_timestamp (slice hl 16 head) in
        ret (ts, <[cluster_pos := ts]> cache)
  end.

(** One cue of the exact pass. *)
Definition exact_cue (start : Z) (wanted : list Z) (cue : SubCue) (s : Blocks * gmap Z Z) :
    M (Blocks * gmap Z Z) :=
  let '(_, cluster_rel, rel, _) := cue in
  let '(blocks, cache) := s in
  let! cluster_pos := context (checked_add start cluster_rel) in
  let! t := cluster_time cluster_pos cache in
  let '(ts, cache) := t in
  let! head := read_at cluster_pos 16 in
  let! h := lift (element_head head cluster_pos) in
  let '(_, children_at, _) := h in
  let! block_at := context (checked_add children_at (default 0 rel)) in
  let! bh := read_at block_at 16 in
  let! b := lift (element_head bh block_at) in
  let '(bid, body_at, bsize) := b in
  let! bsize := context bsize in
  let! body := read_at body_at bsize in
  let! tmp :=
    if (bid =? BLOCK_GROUP) || (bid =? SIMPLE_BLOCK)
    then lift (scan_cluster (wrapped ts bid body) wanted) else ret [] in
  ret (blocks ++ tmp, cache).

Fixpoint exact_cues (start : Z) (wanted : list Z) (cues : list SubCue) (s : Blocks * gmap Z Z) :
    M (Blocks * gmap Z Z) :=
  match cues with
  | [] => ret s
  | cue :: cues => let! s := exact_cue start wanted cue s in exact_cues start wanted cues s
  end.

(** The header walk over the clusters from [pos]. *)
Fixpoint header_walk (fuel : nat) (pos : Z) (wanted : list Z) (out : Blocks) : M Blocks :=
  let! flen := get_len in
  if flen <=? pos then ret out
  else
    match fuel with
    | O => fail Diverges
    | S fuel =>
        let! head := attempt (read_at pos (Z.min 16 (flen - pos))) in
        match head with
        | Err Io | Err Shape => ret out
        | Err e => fail e
        | Ok head =>
            match element_head head pos with
            | Err _ | Ok (_, _, None) => ret out
            | Ok (id, body, Some size) =>
                let! out := if id =? CLUSTER then walk_cluster_sparse body size wanted out
                            else ret out in
                header_walk fuel (body + size) wanted out
            end
        end
    end.

Definition is_image (want : nat) (t : MkvTrack) : bool :=
  (sub_index t =? want)%nat && negb (is_text t).
Definition wanted_tracks (idx : MkvIndex) (image : option nat) : list Z :=
  map number (List.filter (match image with Some want => is_image want | None => is_text end)
                (tracks idx)).

(** Every subtitle cue has a relative position, and there is one. *)
Definition is_exact (idx : MkvIndex) : bool :=
  negb (is_empty_list (sub_cues idx))
  && forallb (fun '(_, _, rel, _) => is_some rel) (sub_cues idx).

(** The blocks of the wanted tracks; nothing where the walk has no start. *)
Definition collect_blocks (idx : MkvIndex) (wanted : list Z) : M (option Blocks) :=
  if is_exact idx then
    let! s := exact_cues (segment_start idx) wanted (sub_cues idx) ([], ∅) in
    ret (Some (fst s))
  else
    match first_cluster idx with
    | None => ret None
    | Some pos =>
        let! fuel := file_fuel in
        let! out := header_walk fuel pos wanted [] in
        ret (Some out)
    end.

(** [saturating_mul], [saturating_add_signed]. *)
Definition to_ms (scale ticks : Z) : Z := Z.min u64_max (ticks * scale) / 1000000.
Definition add_signed (t d : Z) : Z := Z.max 0 (Z.min u64_max (t + d)).

Context (inflate : bytes -> option bytes).

Record ImageTrack := mkImageTrack {
  im_codec : string;
  im_private : option bytes;
  im_blocks : list (Z * option Z * bytes);
}.

Definition image_block (scale : Z) (t : MkvTrack) (b : Z * SubBlock) : Z * option Z * bytes :=
  let '(ts, b) := b in
  (to_ms scale (add_signed ts (rel_time b)), to_ms scale <$> duration b,
   decompress inflate (payload b) (compression t)).
Definition of_track (t : MkvTrack) (blocks : Blocks) : Blocks :=
  List.filter (fun '(_, b) => track b =? number t) blocks.
Definition by_ms (a b : Z * option Z * bytes) : comparison := (fst (fst a) ?= fst (fst b))%Z.

Definition image_track (idx : MkvIndex) (want : nat) (blocks : Blocks) : option ImageTrack :=
  t ← List.find (is_image want) (tracks idx);
  Some (mkImageTrack (codec t) (private t)
          (sort_by by_ms (map (image_block (timestamp_scale idx) t) (of_track t blocks)))).

(** One block of a text track: its event and its cue. The end is a wrapping
    sum. *)
Definition last_field (raw : string) : string := default EmptyString (last (splitn 9 COMMA raw)).
Definition text_block (scale : Z) (t : MkvTrack) (b : Z * SubBlock) :
    list (Z * Z * string) * list Cue :=
  let '(ts, b) := b in
  let start_ticks := add_signed ts (rel_time b) in
  let start := to_ms scale start_ticks in
  let end_ := match duration b with
              | Some d => to_ms scale (wrap 64 (start_ticks + d))
              | None => start + 3000
              end in
  let raw := decode_text (decompress inflate (payload b) (compression t)) in
  if is_ass t then ([(start, end_, raw)], push_cue start end_ (clean_cue_text (last_field raw)))
  else ([], push_cue start end_ (clean_cue_text raw)).

Definition by_event (a b : Z * Z * string) : comparison := (fst (fst a) ?= fst (fst b))%Z.
Definition ass_script (h : string) (events : list (Z * Z * string)) : string :=
  (compose_header h
   ++ String.concat EmptyString
        (map (fun '(st, en, raw) =>
           match ass_dialogue raw st en with Some line => line ++ lf | None => EmptyString end)
         (sort_by by_event events)))%string.

Definition text_track (scale : Z) (blocks : Blocks) (t : MkvTrack) : nat * Extracted :=
  let parts := map (text_block scale t) (of_track t blocks) in
  let events := mjoin (map fst parts) in
  let cs := sort_by by_cue_start (mjoin (map snd parts)) in
  let h := if is_empty_list events then None else header t in
  (sub_index t, mkExtracted cs ((fun h => ass_script h events) <$> h)).

Record MkvOut := mkMkvOut { o_text : list (nat * Extracted); o_image : option ImageTrack }.
Definition out_nothing : MkvOut := mkMkvOut [] None.

Definition mkv_walk (image : option nat) : M MkvOut :=
  let! idx := mkv_read_index in
  let wanted := wanted_tracks idx image in
  if is_empty_list (tracks idx) || is_empty_list wanted then ret out_nothing
  else
    let! blocks := collect_blocks idx wanted in
    match blocks with
    | None => ret out_nothing
    | Some blocks =>
        match image with
        | Some want => ret (mkMkvOut [] (image_track idx want blocks))
        | None =>
            ret (mkMkvOut (map (text_track (timestamp_scale idx) blocks)
                             (List.filter is_text (tracks idx))) None)
        end
    end.

Definition mkv_extract : M (list (nat * Extracted)) := let! out := mkv_walk None in ret (o_text out).

(** A failed walk is no image track; the first read's failure is the caller's. *)
Definition extract_image_track (sub_index : nat) : M (option ImageTrack) :=
  let! magic := read_at 0 4 in
  if bool_decide (magic <> [0x1A; 0x45; 0xDF; 0xA3]) then ret None
  else
    let! out := attempt (mkv_walk (Some sub_index)) in
    match out with
    | Ok out => ret (o_image out)
    | Err Panic => fail Panic
    | Err Diverges => fail Diverges
    | Err _ => ret None
    end.
End Subindex.

(** * Small Matroska files

    The concrete inputs the theorems on the sparse index are tried at. *)


(** A file whose reads deliver at most [chunk] bytes each. *)
Definition file_env (chunk : Z) (data : bytes) : Env :=
  mkEnv (fun off n => Some (slice off (Z.min n chunk) data)) (fun _ => None).

Fixpoint elements (els : list (Z * bytes)) : bytes :=
  match els with [] => [] | (id, body) :: els => encode_element id body ++ elements els end.

Definition mkv_file (segment : list (Z * bytes)) : bytes :=
  elements [(EBML_HEADER, []); (SEGMENT, elements segment)].

Definition ascii_bytes (s : string) : bytes := bytes_of_string s.

Definition promise (id position : Z) : Z * bytes :=
  (SEEK, elements [(SEEK_ID, encode_id id); (SEEK_POSITION, encode_uint position)]).
Definition chapter (start : Z) (title : string) : Z * bytes :=
  (CHAPTER_ATOM, elements [(CHAPTER_TIME_START, encode_uint start);
     (CHAPTER_DISPLAY, elements [(CHAP_STRING, ascii_bytes title)])]).
Definition chapters_of (l : list (Z * string)) : Z * bytes :=
  (CHAPTERS, elements [(EDITION_ENTRY, elements (map (fun '(s, t) => chapter s t) l))]).

Definition text_entry (n : Z) : Z * bytes :=
  (TRACK_ENTRY, elements [(TRACK_NUMBER, encode_uint n); (TRACK_TYPE, [SUBTITLE_TYPE]);
     (CODEC_ID, ascii_bytes "S_TEXT/UTF8")]).
Definition text_tracks : Z * bytes := (TRACKS, elements [text_entry 2]).

(** A block of track [n], [rel] ticks into its cluster. *)
Definition block_bytes (n rel : Z) (payload : bytes) : bytes := (0x80 + n) :: to_be_bytes 2 rel ++ [0] ++ payload.
Definition subtitle_group (rel dur : Z) (text : string) : Z * bytes :=
  (BLOCK_GROUP, elements [(BLOCK, block_bytes 2 rel (ascii_bytes text)); (BLOCK_DURATION, encode_uint dur)]).
Definition video_block (rel : Z) (n : nat) : Z * bytes := (SIMPLE_BLOCK, block_bytes 1 rel (repeat 7 n)).

Definition talking_cluster : list (Z * bytes) :=
  [(CLUSTER_TIMESTAMP, encode_uint 1000); video_block 0 100; subtitle_group 20 500 "hello";
   video_block 40 100; subtitle_group 600 700 "bye"].

(** Chapters after a cluster, promised by a SeekHead that promises itself too. *)
Definition looped_file : bytes :=
  mkv_file [(SEEK_HEAD, elements [promise SEEK_HEAD 0; promise CHAPTERS 406]);
            (CLUSTER, elements talking_cluster); chapters_of [(0, "Opening"%string)]].

(** A film with one text track and cues by cluster only; the same with a cue
    that gives the block's place, [at_]; positions are from the segment's start. *)
Definition cue (t : Z) (position : list (Z * bytes)) : Z * bytes :=
  (CUES, elements [(CUE_POINT, elements [(CUE_TIME, encode_uint t);
     (CUE_TRACK_POSITIONS, elements ((CUE_TRACK, encode_uint 2) :: position))])]).
Definition film : bytes := mkv_file [text_tracks; (CLUSTER, elements talking_cluster)].
Definition cued_film (cluster at_ : Z) : bytes :=
  mkv_file [text_tracks; cue 1020 [(CUE_CLUSTER_POSITION, to_be_bytes 8 cluster);
                                   (CUE_RELATIVE_POSITION, to_be_bytes 8 at_)];
            (CLUSTER, elements talking_cluster)].
Definition stored : bytes -> option bytes := fun _ => None.
