(* ===== verification/SubindexFacts.v ===== *)
(** * Reading without surprises

    What every read guarantees whatever the source delivers ([safe]), and what
    it returns when the source is a file ([pure]): the readahead window never
    shows. Two small program logics over the reader carry the proofs of the
    walks. *)
From S2P Require Import Prelude Media Utf8 Ebml EbmlTheorems Subtitles Subindex.

#[local] Open Scope Z_scope.

Lemma len_nonneg l : 0 <= len l.
Proof. unfold len. lia. Qed.
Lemma len_app l l' : len (l ++ l') = len l + len l'.
Proof. unfold len. rewrite length_app. lia. Qed.
Lemma len_slice off n l : 0 <= off -> 0 <= n -> off + n <= len l -> len (slice off n l) = n.
Proof. intros. unfold slice, len in *. rewrite length_take, length_drop. lia. Qed.
Lemma slice_slice off n off' n' l :
  0 <= off -> 0 <= n -> 0 <= off' -> 0 <= n' -> off' + n' <= n ->
  slice off' n' (slice off n l) = slice (off + off') n' l.
Proof.
  intros. unfold slice. rewrite skipn_firstn_comm, take_take, drop_drop.
  f_equal; [lia|f_equal; lia].
Qed.
Lemma slice_app off n m l :
  0 <= off -> 0 <= n -> 0 <= m -> slice off n l ++ slice (off + n) m l = slice off (n + m) l.
Proof.
  intros. unfold slice. rewrite Z2Nat.inj_add, Z2Nat.inj_add by lia.
  rewrite <- drop_drop. symmetry.
  rewrite <- (take_drop (Z.to_nat n) (drop (Z.to_nat off) l)) at 1.
  destruct (decide (Z.to_nat n <= length (drop (Z.to_nat off) l))%nat).
  - rewrite take_app_add' by (rewrite length_take; lia). done.
  - rewrite (drop_ge (drop (Z.to_nat off) l) (Z.to_nat n)), app_nil_r, take_nil, app_nil_r by lia.
    rewrite take_take. f_equal. lia.
Qed.
Lemma slice_0 off l : slice off 0 l = [].
Proof. done. Qed.
Lemma all_bytes_slice off n l : all_bytes l -> all_bytes (slice off n l).
Proof. intros H. by apply Forall_take, Forall_drop. Qed.

(** ** Bytes of headers *)

Lemma all_bytes_app l l' : all_bytes (l ++ l') <-> all_bytes l /\ all_bytes l'.
Proof. apply Forall_app. Qed.

Lemma be_val_upper acc l :
  all_bytes l -> 0 <= acc -> be_val acc l < (acc + 1) * 256 ^ Z.of_nat (length l).
Proof.
  intros Hl. revert acc. induction Hl as [|b l Hb _ IH]; intros acc Ha; [simpl; lia|].
  cbn [be_val fold_left length]. fold (be_val (acc * 256 + b) l).
  rewrite Nat2Z.inj_succ, Z.pow_succ_r by lia.
  assert (0 < 256 ^ Z.of_nat (length l)) by (apply Z.pow_pos_nonneg; lia).
  specialize (IH (acc * 256 + b) ltac:(lia)). nia.
Qed.

Lemma shift_in_nonneg w acc l : 8 <= w -> all_bytes l -> l <> [] -> 0 <= shift_in w acc l.
Proof.
  intros Hw Hl Hn. rewrite shift_in_be by done. apply Z.mod_pos_bound. apply Z.pow_pos_nonneg; lia.
Qed.

Lemma uint_range l : all_bytes l -> 0 <= uint l < 2 ^ 64.
Proof.
  intros Hl. unfold uint. destruct l as [|b l]; [by split|].
  rewrite shift_in_be by done. by apply Z.mod_pos_bound.
Qed.

Lemma marker_bits len first :
  0 <= first -> (1 <= len <= 8)%nat -> 0 <= Z.land first (marker_mask len) < 2 ^ (8 - Z.of_nat len).
Proof.
  intros Hf Hl. assert (marker_mask len = Z.ones (8 - Z.of_nat len)) as ->.
  { destruct len as [|[|[|[|[|[|[|[|[|len]]]]]]]]]; try reflexivity; lia. }
  rewrite Z.land_ones by lia. apply Z.mod_pos_bound, Z.pow_pos_nonneg; lia.
Qed.

Lemma vint_range len l : all_bytes l -> (1 <= len <= 8)%nat -> (len <= length l)%nat ->
  0 <= vint_value len l < 2 ^ 56.
Proof.
  intros Hl Hlen Hle. unfold vint_value. destruct l as [|first l]; [simpl in Hle; lia|].
  apply Forall_cons in Hl as [Hf Hl].
  pose proof (marker_bits len first ltac:(lia) Hlen) as Hm.
  destruct len as [|len]; [lia|]. cbn [take drop].
  assert (all_bytes (take len l)) as Ht by (by apply Forall_take).
  assert (length (take len l) = len) as Htl by (rewrite length_take; simpl in Hle; lia).
  set (acc := Z.land first (marker_mask (S len))) in *.
  assert (be_val acc (take len l) < 2 ^ 56) as Hub.
  { eapply Z.lt_le_trans; [apply be_val_upper; [done|lia]|]. rewrite Htl.
    change 256 with (2 ^ 8). rewrite <- Z.pow_mul_r by lia.
    transitivity (2 ^ (8 - Z.of_nat (S len)) * 2 ^ (8 * Z.of_nat len)).
    - apply Z.mul_le_mono_nonneg_r; [apply Z.pow_nonneg; lia|lia].
    - rewrite <- Z.pow_add_r by lia. apply Z.pow_le_mono_r; lia. }
  pose proof (be_val_nonneg acc (take len l) ltac:(lia) Ht) as Hlb.
  change (drop 0 (take len l)) with (take len l).
  destruct (take len l) as [|b t]; [by split|].
  rewrite shift_in_be by done. unfold wrap. rewrite Z.mod_small; lia.
Qed.

Lemma ebml_size_range data size sl :
  all_bytes data -> ebml_size data = Ok (Some size, sl) -> 0 <= size < 2 ^ 56.
Proof.
  intros Hd. unfold ebml_size. destruct data as [|first l]; [done|]. destruct (Z.eqb_spec first 0); [done|].
  destruct (_ || _) eqn:Hb; [done|]. apply orb_false_iff in Hb as [H1%Nat.ltb_ge H2%Nat.ltb_ge].
  pose proof (vint_range _ _ Hd ltac:(split; [|exact H1]; lia) H2) as Hv. revert Hv.
  generalize (vint_value (S (leading_zeros first)) (first :: l)). intros v Hv.
  destruct (v =? _); [done|]. by intros [= <- _].
Qed.

Lemma ebml_id_small data id il : ebml_id data = Ok (id, il) -> (il <= 4)%nat.
Proof.
  unfold ebml_id. destruct data as [|b l]; [done|].
  destruct (_ || _) eqn:H; [done|]. apply orb_false_iff in H as [H%Nat.ltb_ge _].
  intros [= _ <-]. lia.
Qed.
Lemma ebml_size_small data size sl : ebml_size data = Ok (size, sl) -> (sl <= 8)%nat.
Proof.
  unfold ebml_size. destruct data as [|b l]; [done|]. destruct (b =? 0); [done|].
  destruct (_ || _) eqn:H; [done|]. apply orb_false_iff in H as [H%Nat.ltb_ge _].
  intros [= _ <-]. lia.
Qed.

Lemma element_head_spec head pos id body osize :
  element_head head pos = Ok (id, body, osize) -> all_bytes head ->
  pos + 2 <= body <= pos + 12 /\ forall size, osize = Some size -> 0 <= size < 2 ^ 56.
Proof.
  unfold element_head. intros H Hb. apply rbind_Ok in H as ([i il] & Hi & H).
  cbn [fst snd] in H. apply rbind_Ok in H as ([s sl] & Hs & [= <- <- <-]). cbn [fst snd].
  pose proof (ebml_id_length _ _ _ Hi). pose proof (ebml_size_length _ _ _ Hs).
  pose proof (ebml_id_small _ _ _ Hi). pose proof (ebml_size_small _ _ _ Hs). split; [lia|].
  intros size ->. eapply ebml_size_range; [|done]. by apply Forall_drop.
Qed.

Lemma element_head_shape head pos e : element_head head pos = Err e -> e = Shape.
Proof.
  unfold element_head, ebml_id, ebml_size, rbind. repeat case_match; simplify_eq; intros; by simplify_eq.
Qed.

Lemma next_child_bytes data id v rest :
  all_bytes data -> next_child data = Ok (id, v, rest) -> all_bytes v /\ all_bytes rest.
Proof.
  intros Hd Hn. apply next_child_length in Hn as [_ [head ->]].
  apply all_bytes_app in Hd as [_ Hd]. by apply all_bytes_app in Hd.
Qed.

Lemma children_bytes data :
  all_bytes data -> Forall (fun c => all_bytes (snd c)) (fst (children data)).
Proof.
  remember (length data) as m eqn:Hm. revert data Hm.
  induction m as [m IH] using lt_wf_ind. intros [|b data] Hm Hd; [constructor|].
  rewrite children_step by done.
  destruct (next_child (b :: data)) as [[[id v] rest]|e] eqn:Hc; [|constructor].
  destruct (next_child_bytes _ _ _ _ Hd Hc) as [Hv Hr].
  apply next_child_length in Hc as [Hl _]. constructor; [done|].
  apply (IH (length rest)); [simpl in *; lia|done|done].
Qed.

(** A property a closure keeps on bytes holds after its walk. *)
Lemma walk_inv {S} (Q : S -> Prop) (f : Z -> bytes -> S -> S * result Error bool) data s :
  all_bytes data -> Q s -> (forall id v s, all_bytes v -> Q s -> Q (fst (f id v s))) ->
  Q (fst (walk_children f data s)).
Proof.
  intros Hd Hs Hf. rewrite children_run. pose proof (children_bytes data Hd) as Hc.
  revert s Hs. induction Hc as [|[id v] l Hv _ IH]; intros s Hs; simpl; [done|].
  pose proof (Hf id v s Hv Hs) as Hq. destruct (f id v s) as [s' [[]|e]]; simpl in *; auto.
Qed.

(** ** Whatever the source delivers *)

Definition benign (e : Error) : Prop := e = Io \/ e = Shape.

(** A source never delivers more than was asked for, and nothing but bytes; a
    checkpoint fails with an error. *)
Record sane (env : Env) : Prop := mkSane {
  sane_read : forall off n bs, 0 <= n -> src_read env off n = Some bs -> len bs <= n /\ all_bytes bs;
  sane_weather : forall i e, weather env i = Some e -> benign e;
}.

Lemma file_env_sane chunk data : 0 <= chunk -> all_bytes data -> sane (file_env chunk data).
Proof.
  intros Hc Hb. split; [|done]. intros off n bs Hn [= <-]. split; [|by apply all_bytes_slice].
  unfold slice, len. rewrite length_take. lia.
Qed.

Definition rwf (flen : Z) (r : Reader) : Prop :=
  r_len r = flen /\ all_bytes (win r)
  /\ (win r = [] \/ 0 <= win_start r /\ win_start r + len (win r) <= flen).

Lemma reader_new_wf size : rwf size (reader_new size).
Proof. split_and!; [done|constructor|by left]. Qed.

(** A step ends with a result that satisfies [Q] or an error that is a matter
    of weather or shape: it neither panics nor runs out of fuel. *)
Definition safe {A} (flen : Z) (m : M A) (Q : A -> Prop) : Prop :=
  forall r, rwf flen r ->
    rwf flen (snd (m r)) /\ match fst (m r) with Ok a => Q a | Err e => benign e end.

Section Rules.
Context (flen : Z).

Lemma safe_ret {A} (a : A) (Q : A -> Prop) : Q a -> safe flen (ret a) Q.
Proof. by intros H r Hr. Qed.
Lemma safe_fail {A} e (Q : A -> Prop) : benign e -> safe flen (fail e) Q.
Proof. by intros H r Hr. Qed.
Lemma safe_bind {A B} (m : M A) (k : A -> M B) P Q :
  safe flen m P -> (forall a, P a -> safe flen (k a) Q) -> safe flen (bind m k) Q.
Proof.
  intros Hm Hk r Hr. unfold bind. destruct (Hm r Hr) as [Hw Hp].
  destruct (m r) as [[a|e] r']; simpl in *; [by apply Hk|done].
Qed.
Lemma safe_lift {A} (x : result Error A) (Q : A -> Prop) :
  (forall e, x = Err e -> benign e) -> (forall a, x = Ok a -> Q a) -> safe flen (lift x) Q.
Proof. intros He Ha r Hr. split; [done|]. unfold lift. simpl. destruct x; [by apply Ha|by apply He]. Qed.
Lemma safe_len (Q : Z -> Prop) : Q flen -> safe flen get_len Q.
Proof. intros H r Hr. split; [done|]. simpl. by destruct Hr as [-> _]. Qed.
Lemma safe_attempt {A} (m : M A) P (Q : result Error A -> Prop) :
  safe flen m P -> (forall a, P a -> Q (Ok a)) -> (forall e, benign e -> Q (Err e)) ->
  safe flen (attempt m) Q.
Proof.
  intros Hm Ha He r Hr. unfold attempt. destruct (Hm r Hr) as [Hw Hp].
  destruct (m r) as [[a|e] r']; simpl in *; auto.
Qed.
Lemma safe_context {A} (o : option A) (Q : A -> Prop) :
  (forall a, o = Some a -> Q a) -> safe flen (context o) Q.
Proof.
  intros H. apply safe_lift; destruct o; simpl; intros ? [= <-]; [by right|by apply H].
Qed.
Lemma safe_settle {A} (x : result Error A) (d : A) (Q : A -> Prop) :
  match x with Ok a => Q a | Err e => benign e end -> Q d -> safe flen (settle_shape x d) Q.
Proof.
  intros Hx Hd. destruct x as [a|[]]; simpl; try (by apply safe_ret); apply safe_fail; try done; by left.
Qed.
Lemma safe_weaken {A} (m : M A) (P Q : A -> Prop) :
  safe flen m P -> (forall a, P a -> Q a) -> safe flen m Q.
Proof.
  intros Hm Hpq r Hr. destruct (Hm r Hr) as [Hw Hp]. split; [done|].
  destruct (fst (m r)); auto.
Qed.
End Rules.

Section Source.
Context (env : Env) (Hs : sane env) (flen : Z).

Lemma fill_spec fuel off want got :
  len got + Z.of_nat fuel >= want -> all_bytes got ->
  match fill env fuel off want got with
  | Ok d => want <= len d /\ all_bytes d /\ (len got <= want -> len d <= want)
  | Err e => benign e
  end.
Proof.
  revert got. induction fuel as [|fuel IH]; intros got Hf Hg; cbn [fill].
  - destruct (Z.leb_spec want (len got)); [|lia]. split_and!; [done|done|lia].
  - destruct (Z.leb_spec want (len got)); [split_and!; [done|done|lia]|].
    destruct (src_read env _ _) as [[|b bs]|] eqn:Hr; [by right| |by left].
    apply (sane_read env Hs) in Hr as [Hl Hb]; [|lia].
    assert (0 < len (b :: bs)) by (unfold len; simpl; lia).
    specialize (IH (got ++ b :: bs)). rewrite len_app in IH.
    specialize (IH ltac:(lia) ltac:(by apply all_bytes_app)).
    destruct (fill env fuel off want (got ++ b :: bs)); [|done]. naive_solver lia.
Qed.

(** A read returns as many bytes as asked, from inside the file. *)
Lemma read_at_safe off n :
  0 <= off -> 0 <= n -> off + n < 2 ^ 64 ->
  safe flen (read_at env off n)
    (fun d => len d = n /\ all_bytes d /\ (0 < n -> off + n <= flen)).
Proof.
  intros Hoff Hn Hlt r (Hl & Hb & Hw). unfold read_at.
  destruct (weather env (reads r)) as [e|] eqn:He.
  { split; [done|]. by apply (sane_weather env Hs) in He. }
  unfold in_window. rewrite wrap_small by (unfold in_range; lia). cbn [win_start win r_len reads].
  destruct ((win_start r <=? off) && (off + n <=? win_start r + len (win r))) eqn:Hin.
  - apply andb_true_iff in Hin as [H1%Z.leb_le H2%Z.leb_le]. cbn [win_start win r_len reads].
    destruct (Z.ltb_spec (len (win r)) (off - win_start r + n)); [lia|]. cbn [fst snd].
    split; [done|]. split_and!.
    + apply len_slice; lia.
    + by apply all_bytes_slice.
    + intros Hpos. destruct Hw as [Hw|Hw]; [|lia]. rewrite Hw in H2. change (len []) with 0 in H2. lia.
  - set (want := want_bytes _ off n).
    assert (Hwant : want <= sat_sub flen off) by (unfold want, want_bytes; cbn [r_len]; rewrite Hl; lia).
    assert (0 <= want) by (unfold want, want_bytes, sat_sub; cbn [r_len]; unfold READAHEAD; destruct (_ && _); lia).
    destruct (Z.ltb_spec want n) as [Hlt'|Hge]; [split; [done|by right]|].
    pose proof (fill_spec (Z.to_nat want) off want [] ltac:(change (len []) with 0; lia) ltac:(constructor)) as Hf.
    destruct (fill env (Z.to_nat want) off want []) as [d|e]; cbn [rbind]; [|split; [done|done]].
    destruct Hf as (Hd & Hdb & Hdw). specialize (Hdw ltac:(change (len []) with 0; lia)).
    cbn [win_start win r_len reads]. replace (off - off) with 0 by lia.
    destruct (Z.ltb_spec (len d) (0 + n)); [lia|]. cbn [fst snd]. unfold sat_sub in Hwant. split.
    + split_and!; [done|done|]. destruct d as [|b d]; [by left|right].
      split; [done|]. cbn [win win_start]. assert (0 < len (b :: d)) by (unfold len; simpl; lia). lia.
    + split_and!; [apply len_slice; lia|by apply all_bytes_slice|lia].
Qed.

(** A read of at least one byte that is not past any file's end. *)
Lemma header_safe pos (Q : bytes -> Prop) :
  0 <= pos < 2 ^ 63 -> (forall h, all_bytes h -> len h = 16 -> pos + 16 <= flen -> Q h) ->
  safe flen (read_at env pos 16) Q.
Proof.
  intros Hp HQ. eapply safe_weaken; [apply read_at_safe; lia|].
  intros h (Hl & Hb & Hin). apply HQ; [done|done|lia].
Qed.

Lemma element_safe head pos (Q : Z * Z * option Z -> Prop) :
  all_bytes head ->
  (forall id body osize, pos + 2 <= body <= pos + 12 ->
     (forall size, osize = Some size -> 0 <= size < 2 ^ 56) -> Q (id, body, osize)) ->
  safe flen (lift (element_head head pos)) Q.
Proof.
  intros Hb HQ. apply safe_lift.
  - intros e H. right. by eapply element_head_shape.
  - intros [[id body] osize] H. destruct (element_head_spec _ _ _ _ _ H Hb). by apply HQ.
Qed.
End Source.
