(* ===== verification/SubindexTheorems.v ===== *)
(** * What the sparse index promises

    The header walk ends and never panics on any bytes from any source; the
    readahead window never shows in what is read; the sparse walk of a cluster
    finds what a full scan finds; and where hostile offsets defeat the reads. *)
From S2P Require Import Prelude Media Utf8 Ebml EbmlTheorems Subtitles Subindex SubindexFacts.

#[local] Open Scope Z_scope.

(** ** The walk visits each position once *)

Section Visits.
Context (end_ : Z).


Definition positions : gset Z := list_to_set (seqZ 0 end_).
Lemma elem_of_positions p : p ∈ positions <-> 0 <= p < end_.
Proof. unfold positions. rewrite elem_of_list_to_set, elem_of_seqZ. lia. Qed.

Definition fresh (p : Z) (v : gset Z) : Prop := 0 <= p < end_ /\ p ∉ v.
Definition left_ (v : gset Z) : nat := size (positions ∖ v).
(** Two turns per fresh position, one less when the walk stands on one. *)
Definition budget (p : Z) (v : gset Z) : nat :=
  (2 * left_ v + if bool_decide (p ∈ positions ∖ v) then 0 else 1)%nat.

Lemma left_visit p v : fresh p v -> (left_ ({[p]} ∪ v) < left_ v)%nat.
Proof.
  intros [Hp Hv]. unfold left_. apply (subset_size (C:=gset Z)). split.
  - intros x. rewrite !elem_of_difference, not_elem_of_union. tauto.
  - intros H. specialize (H p). rewrite !elem_of_difference, elem_of_positions in H. set_solver.
Qed.

Lemma left_ext v v' : (forall x, x < end_ -> x ∈ v' <-> x ∈ v) -> left_ v' = left_ v.
Proof.
  intros H. unfold left_. f_equal. apply set_eq. intros x.
  rewrite !elem_of_difference, elem_of_positions. split; intros [Hx Hv]; split; try done.
  - by rewrite <- H by lia.
  - by rewrite H by lia.
Qed.

Lemma take_promise_spec pending v o v' :
  take_promise end_ pending v = (o, v') ->
  (forall x, x < end_ -> x ∈ v' <-> x ∈ v)
  /\ forall p, o = Some p -> p ∈ pending /\ p < end_ /\ p ∉ v'.
Proof.
  revert v. induction pending as [|p l IH]; intros v; simpl; [by intros [= <- <-]|].
  destruct (Z.leb_spec end_ p) as [Hd|Hd].
  - intros [H1 H2]%IH. split.
    + intros x Hx. rewrite H1 by done. set_solver by lia.
    + intros q Hq. destruct (H2 q Hq) as (? & ? & ?). split_and!; [by right|done|done].
  - case_bool_decide as Hv.
    + intros [H1 H2]%IH. split; [done|]. intros q Hq. destruct (H2 q Hq) as (? & ? & ?).
      split_and!; [by right|done|done].
    + intros [= <- <-]. split; [done|]. intros q [= <-]. split_and!; [left|done|done].
Qed.

Lemma budget_le p v : (budget p v <= 2 * left_ v + 1)%nat.
Proof. unfold budget. case_bool_decide; lia. Qed.

Lemma left_new : (left_ ∅ <= Z.to_nat end_)%nat.
Proof.
  unfold left_. rewrite difference_empty_L. unfold positions.
  rewrite size_list_to_set by apply NoDup_seqZ. by rewrite length_seqZ.
Qed.
End Visits.

Section Robust.
Context (env : Env) (Hs : sane env) (flen : Z) (Hflen : 0 <= flen < 2 ^ 62).

Ltac step_bind := eapply safe_bind.

Lemma name_safe h :
  0 <= snd (fst h) < 2 ^ 63 -> 0 <= snd h < 2 ^ 56 -> safe flen (name_at env h) (fun _ => True).
Proof.
  destruct h as [[id body] size]. cbn [fst snd]. intros Hb Hz. unfold name_at.
  step_bind; [apply (read_at_safe env Hs); lia|]. intros v _. by apply safe_ret.
Qed.

Lemma attached_file_safe fuel cpos cend f :
  (1 <= fuel)%nat -> flen + 2 <= cpos + 2 * Z.of_nat fuel -> 0 <= cpos < 2 ^ 63 ->
  safe flen (attached_file env fuel cpos cend f) (fun _ => True).
Proof.
  revert cpos f. induction fuel as [|fuel IH]; intros cpos f Hf Hm Hc; [lia|].
  cbn [attached_file]. destruct (cend <=? cpos); [by apply safe_ret|].
  step_bind. { apply (header_safe env Hs flen cpos (fun h => all_bytes h /\ cpos + 16 <= flen)); [lia|done]. }
  intros h [Hb Hin]. step_bind.
  { apply (element_safe flen h cpos (fun '(_, body, os) => cpos + 2 <= body <= cpos + 12
      /\ forall size, os = Some size -> 0 <= size < 2 ^ 56)); [done|naive_solver]. }
  intros [[cid cbody] os] [Hbody Hsize]. step_bind.
  { apply (safe_context flen os (fun s => 0 <= s < 2 ^ 56)). naive_solver. }
  intros csize Hz; cbn beta in Hz. eapply safe_bind with (P := fun _ => True).
  { destruct (_ && _); [|destruct (_ && _); [|destruct (cid =? FILE_DATA)]]; try by apply safe_ret.
    all: step_bind; [apply name_safe; cbn [fst snd]; lia|]; intros; by apply safe_ret. }
  intros f' _. apply IH; lia.
Qed.

Lemma attached_files_safe fuel pos end_ out :
  (1 <= fuel)%nat -> flen + 2 <= pos + 2 * Z.of_nat fuel -> 0 <= pos < 2 ^ 63 ->
  safe flen (attached_files env fuel pos end_ out) (fun _ => True).
Proof.
  revert pos out. induction fuel as [|fuel IH]; intros pos out Hf Hm Hc; [lia|].
  cbn [attached_files]. destruct (end_ <=? pos); [by apply safe_ret|].
  step_bind. { apply (header_safe env Hs flen pos (fun h => all_bytes h /\ pos + 16 <= flen)); [lia|done]. }
  intros h [Hb Hin]. step_bind.
  { apply (element_safe flen h pos (fun '(_, body, os) => pos + 2 <= body <= pos + 12
      /\ forall size, os = Some size -> 0 <= size < 2 ^ 56)); [done|naive_solver]. }
  intros [[id ebody] os] [Hbody Hsize]. step_bind.
  { apply (safe_context flen os (fun s => 0 <= s < 2 ^ 56)). naive_solver. }
  intros esize Hz; cbn beta in Hz. eapply safe_bind with (P := fun _ => True).
  { destruct (id =? ATTACHED_FILE); [|by apply safe_ret].
    step_bind; [apply attached_file_safe; lia|]. intros; by apply safe_ret. }
  intros out' _. apply IH; lia.
Qed.

Lemma read_attached_safe body size :
  0 <= body < 2 ^ 63 -> safe flen (read_attached_files env body size) (fun _ => True).
Proof.
  intros Hb. unfold read_attached_files, file_fuel. step_bind.
  { step_bind; [by apply (safe_len flen (eq flen))|]. intros ? <-.
    by apply (safe_ret flen _ (eq (S (Z.to_nat flen)))). }
  intros ? <-. apply attached_files_safe; lia.
Qed.

Definition promises_ok (p : list Z) : Prop := Forall (fun x => 0 <= x) p.

Lemma seek_entry_ok targets start id seek pending :
  0 <= start -> all_bytes seek -> promises_ok pending ->
  promises_ok (fst (seek_entry targets start id seek pending)).
Proof.
  intros Hst Hb Hp. unfold seek_entry. destruct (negb _); [done|].
  pose proof (walk_inv (fun s : Z * option Z => forall p, snd s = Some p -> 0 <= p)
    (visit seek_field) seek (0, None) Hb) as H.
  destruct (walk_children (visit seek_field) seek (0, None)) as [[target position] [[]|e]]; [|done].
  destruct (existsb _ _); [|done]. cbn [fst snd] in *.
  destruct position as [p|]; cbn [mbind option_bind]; [|done].
  assert (0 <= p) as Hp0.
  { apply H; [done| |done]. intros id' v [t q] Hv Hq x. cbn [visit fst]. unfold seek_field.
    destruct (id' =? SEEK_ID); [apply Hq|]. destruct (id' =? SEEK_POSITION); [|apply Hq].
    cbn [snd]. intros [= <-]. by apply uint_range. }
  unfold checked_add. destruct (_ <=? _); [|done]. cbn [fst]. apply Forall_app. split; [done|].
  repeat constructor. lia.
Qed.

Lemma follow_ok start data w :
  0 <= start -> all_bytes data -> promises_ok (w_pending w) ->
  promises_ok (w_pending (follow_seekhead start data w))
  /\ w_visited (follow_seekhead start data w) = w_visited w.
Proof.
  intros Hst Hb Hp. unfold follow_seekhead.
  pose proof (walk_inv promises_ok (seek_entry DECLARE_TARGETS start) data (w_pending w) Hb Hp
    (fun id v s Hv => seek_entry_ok DECLARE_TARGETS start id v s Hst Hv)) as H.
  by destruct (walk_children _ data (w_pending w)) as [p [[]|e]].
Qed.

(** What a turn may do to the walk besides finding things. *)
Definition kept (w w' : Walk) : Prop := promises_ok (w_pending w') /\ w_visited w' = w_visited w.

Definition data_ok (x : result Error bytes) : Prop :=
  match x with Ok d => all_bytes d | Err e => benign e end.

Lemma attempt_read_safe body size :
  0 <= body < 2 ^ 63 -> 0 <= size < 2 ^ 56 -> safe flen (attempt (read_at env body size)) data_ok.
Proof.
  intros Hb Hz. eapply safe_attempt; [apply (read_at_safe env Hs); lia| |done].
  by intros d (_ & H & _).
Qed.

Lemma declare_element_safe start id body size w :
  0 <= start -> 0 <= body < 2 ^ 63 -> 0 <= size < 2 ^ 56 -> promises_ok (w_pending w) ->
  safe flen (declare_element env start id body size w) (kept w).
Proof.
  intros Hst Hb Hz Hp. assert (Hkeep : kept w w) by done. unfold declare_element.
  destruct (id =? SEEK_HEAD).
  { destruct (MAX_HEADER_ELEMENT <? size); [by apply safe_ret|].
    step_bind; [by apply attempt_read_safe|]. intros [d|e] Hd; cbn [rbind];
      apply safe_settle; try done. by apply follow_ok. }
  destruct ((id =? ATTACHMENTS) && _).
  { eapply safe_bind with (P := fun x => match x with Ok _ => True | Err e => benign e end).
    { eapply safe_attempt; [by apply read_attached_safe|done|done]. }
    intros found Hf. eapply safe_bind with (P := fun _ => True); [by apply safe_settle|].
    intros a _. by apply safe_ret. }
  destruct ((id =? CHAPTERS) && _).
  { destruct (size <=? MAX_HEADER_ELEMENT); [|by apply safe_ret].
    step_bind; [by apply attempt_read_safe|]. intros [d|e] Hd; cbn [rbind];
      eapply safe_bind with (P := fun _ => True); try (intros; by apply safe_ret); by apply safe_settle. }
  destruct ((id =? TRACKS) && _ && _); [|by apply safe_ret].
  step_bind; [by apply attempt_read_safe|]. intros [d|e] Hd; cbn [rbind]; apply safe_settle; try done.
  by destruct (read_subtitle_tracks d).
Qed.

Context (end_ : Z) (Hend : end_ <= flen).

Definition next_ok (b : nat) (n : Next) : Prop :=
  match n with
  | Break _ => True
  | Continue p w => 0 <= p < 2 ^ 63 /\ promises_ok (w_pending w) /\ (budget end_ p (w_visited w) < b)%nat
  end.

(** Moving to a promise, from a walk with no more left than [b] allows. *)
Lemma promise_next b w w0 :
  promises_ok (w_pending w) -> (2 * left_ end_ (w_visited w) < b)%nat -> w0 = w ->
  next_ok b (promise_or_break end_ w0).
Proof.
  intros Hp Hb ->. unfold promise_or_break, take_pending.
  destruct (take_promise end_ (w_pending w) (w_visited w)) as [[p|] v] eqn:Ht; [|done].
  destruct (take_promise_spec _ _ _ _ _ Ht) as [Hv Hpr]. destruct (Hpr p eq_refl) as (Hin & Hlt & Hn).
  unfold promises_ok in *. pose proof Hp as Hp'. rewrite Forall_forall in Hp'. specialize (Hp' p Hin).
  cbn [next_ok w_pending w_visited]. split_and!; [lia|lia|done|].
  unfold budget. rewrite (left_ext _ _ _ Hv), bool_decide_eq_true_2; [lia|].
  rewrite elem_of_difference, elem_of_positions. split; [lia|done].
Qed.

Lemma declare_turn_safe start pos w :
  0 <= start -> 0 <= pos < 2 ^ 63 -> promises_ok (w_pending w) ->
  safe flen (declare_turn env start end_ pos w) (next_ok (budget end_ pos (w_visited w))).
Proof.
  intros Hst Hpos Hp. unfold declare_turn.
  destruct ((end_ <=? pos) || bool_decide (pos ∈ w_visited w)) eqn:Hdead.
  { apply safe_ret, (promise_next _ w); [done| |done]. unfold budget.
    rewrite bool_decide_eq_false_2; [lia|]. rewrite elem_of_difference, elem_of_positions.
    apply orb_true_iff in Hdead as [H%Z.leb_le|H%bool_decide_eq_true]; [lia|tauto]. }
  apply orb_false_iff in Hdead as [Hlt%Z.leb_gt Hnew%bool_decide_eq_false].
  assert (fresh end_ pos (w_visited w)) as Hfresh by (split; [lia|done]).
  pose proof (left_visit end_ _ _ Hfresh) as Hleft.
  assert (Hbud : budget end_ pos (w_visited w) = (2 * left_ end_ (w_visited w))%nat).
  { unfold budget. rewrite bool_decide_eq_true_2; [lia|].
    rewrite elem_of_difference, elem_of_positions. split; [lia|done]. }
  rewrite Hbud. set (w1 := visit_pos pos w).
  assert (Hw1 : promises_ok (w_pending w1) /\ w_visited w1 = {[pos]} ∪ w_visited w) by done.
  clearbody w1. destruct Hw1 as [Hp1 Hv1]. rewrite <- Hv1 in Hleft.
  eapply safe_bind with (P := fun x => match x with
    | Ok (_, body, size) => pos + 2 <= body <= pos + 12 /\ 0 <= size < 2 ^ 56
    | Err e => benign e end).
  { eapply safe_attempt with (P := fun '(_, body, size) => pos + 2 <= body <= pos + 12 /\ 0 <= size < 2 ^ 56);
      [|by intros [[??]?]|done].
    step_bind. { apply (header_safe env Hs flen pos all_bytes); [lia|done]. }
    intros h Hb. step_bind.
    { apply (element_safe flen h pos (fun '(_, body, os) => pos + 2 <= body <= pos + 12
        /\ forall size, os = Some size -> 0 <= size < 2 ^ 56)); [done|naive_solver]. }
    intros [[id body] os] [Hbody Hsize]. step_bind.
    { apply (safe_context flen os (fun s => 0 <= s < 2 ^ 56)). naive_solver. }
    intros size Hz; cbn beta in Hz. by apply safe_ret. }
  intros [[[id body] size]|e] Hx.
  2:{ destruct Hx as [-> | ->]; [apply safe_fail; by left|].
      apply safe_ret, (promise_next _ w1); [done|lia|done]. }
  destruct Hx as [Hbody Hz]. step_bind; [apply declare_element_safe; (done || lia)|].
  intros w2 [Hp2 Hv2].
  assert (Hgo : next_ok (2 * left_ end_ (w_visited w)) (if all_found w2 then Break w2 else Continue (body + size) w2)).
  { destruct (all_found w2); [done|]. split_and!; [lia|lia|done|].
    pose proof (budget_le end_ (body + size) (w_visited w2)). rewrite Hv2 in *. lia. }
  destruct (id =? CLUSTER); [|by apply safe_ret].
  pose proof (promise_next (2 * left_ end_ (w_visited w)) w2 w2 Hp2 ltac:(rewrite Hv2; lia) eq_refl) as Hpr.
  unfold promise_or_break in Hpr. destruct (take_pending end_ w2) as [[p|] w3] eqn:Ht; [by apply safe_ret|].
  assert (Hw3 : promises_ok (w_pending w3) /\ left_ end_ (w_visited w3) = left_ end_ (w_visited w2)
                /\ all_found w3 = all_found w2).
  { unfold take_pending in Ht. destruct (take_promise end_ (w_pending w2) (w_visited w2)) as [o v] eqn:Htp.
    injection Ht as -> <-. destruct (take_promise_spec _ _ _ _ _ Htp) as [Hv _].
    split_and!; [done|by apply left_ext|done]. }
  destruct Hw3 as (Hp3 & Hl3 & Hf3). destruct (w_saw_seekhead w3); [by apply safe_ret|].
  apply safe_ret. destruct (all_found w3); [done|]. split_and!; [lia|lia|done|].
  pose proof (budget_le end_ (body + size) (w_visited w3)). rewrite Hl3, Hv2 in *. lia.
Qed.

Lemma declare_loop_safe fuel start pos w :
  (budget end_ pos (w_visited w) < fuel)%nat -> 0 <= start -> 0 <= pos < 2 ^ 63 ->
  promises_ok (w_pending w) ->
  safe flen (declare_loop env fuel start end_ pos w) (fun _ => True).
Proof.
  revert pos w. induction fuel as [|fuel IH]; intros pos w Hb Hst Hpos Hp; [lia|].
  cbn [declare_loop]. step_bind; [by apply declare_turn_safe|].
  intros [p w'|w'] Hn; [|by apply safe_ret]. destruct Hn as (Hp' & Hpr & Hlt). apply IH; (done || lia).
Qed.

End Robust.

Lemma segment_span_safe env flen :
  sane env -> 0 <= flen < 2 ^ 62 ->
  safe flen (segment_span env)
    (fun o => forall start end_, o = Some (start, end_) -> 0 <= start < 2 ^ 63).
Proof.
  intros Hs Hf. unfold segment_span. eapply safe_bind with (P := eq flen); [by apply safe_len|].
  intros ? <-. eapply safe_bind. { apply (read_at_safe env Hs); lia. }
  intros head (Hl & Hb & _). destruct (ebml_id head) as [[id il]|e]; [|by apply safe_ret].
  destruct (negb _); [by apply safe_ret|]. eapply safe_bind.
  { apply (element_safe flen head 0 (fun '(_, body, os) => 2 <= body <= 12
      /\ forall size, os = Some size -> 0 <= size < 2 ^ 56)); [done|naive_solver]. }
  intros [[i body] os] [Hbody Hsize]. eapply safe_bind.
  { apply (safe_context flen os (fun s => 0 <= s < 2 ^ 56)). naive_solver. }
  intros hsize Hz. cbn beta in Hz. eapply safe_bind.
  { apply (header_safe env Hs flen (body + hsize) (fun h => all_bytes h)); [lia|done]. }
  intros seg Hseg. cbn beta in Hseg. eapply safe_bind.
  { apply (element_safe flen seg (body + hsize)
      (fun '(_, start, _) => body + hsize + 2 <= start <= body + hsize + 12)); [done|naive_solver]. }
  intros [[i' start] os'] Hst. destruct (negb _); [apply safe_fail; by right|].
  apply safe_ret. intros ? ? [= <- _]. lia.
Qed.

(** *** A failure of shape stays inside the walk *)

Definition shapeless {A} (m : M A) : Prop := forall r, fst (m r) <> Err Shape.

Lemma shapeless_ret {A} (a : A) : shapeless (ret a).
Proof. by intros r. Qed.
Lemma shapeless_bind {A B} (m : M A) (k : A -> M B) :
  shapeless m -> (forall a, shapeless (k a)) -> shapeless (bind m k).
Proof.
  intros Hm Hk r. specialize (Hm r). unfold bind. destruct (m r) as [[a|e] r']; [apply Hk|].
  cbn [fst] in *. congruence.
Qed.
Lemma shapeless_attempt {A} (m : M A) : shapeless (attempt m).
Proof. intros r. unfold attempt. by destruct (m r). Qed.
Lemma shapeless_settle {A} (x : result Error A) d : shapeless (settle_shape x d).
Proof. by destruct x as [a|[]]; intros r. Qed.
Lemma shapeless_len : shapeless get_len.
Proof. by intros r. Qed.

Create HintDb shapeless.
#[local] Hint Resolve shapeless_ret shapeless_bind shapeless_attempt shapeless_settle shapeless_len : shapeless.

Lemma declare_element_shapeless env start id body size w :
  shapeless (declare_element env start id body size w).
Proof. unfold declare_element. repeat case_match; auto 6 with shapeless. Qed.

Lemma declare_turn_shapeless env start end_ pos w : shapeless (declare_turn env start end_ pos w).
Proof.
  unfold declare_turn. case_match; [auto with shapeless|].
  apply shapeless_bind; [auto with shapeless|]. intros [[[id body] size]|[]]; try by intros r.
  apply shapeless_bind; [apply declare_element_shapeless|]. intros w'.
  repeat case_match; auto with shapeless.
Qed.

Lemma declare_loop_shapeless env fuel start end_ pos w :
  shapeless (declare_loop env fuel start end_ pos w).
Proof.
  revert pos w. induction fuel as [|fuel IH]; intros pos w; [by intros r|].
  cbn [declare_loop]. apply shapeless_bind; [apply declare_turn_shapeless|]. intros []; [apply IH|done].
Qed.

Lemma declare_shapeless env : shapeless (declare env).
Proof.
  unfold declare. apply shapeless_bind; [auto with shapeless|]. intros x.
  apply shapeless_bind; [auto with shapeless|]. intros [[start end_]|]; [|auto with shapeless].
  apply shapeless_bind; [auto with shapeless|]. intros flen.
  apply shapeless_bind; [apply declare_loop_shapeless|auto with shapeless].
Qed.

(** C19: whatever the source delivers and whenever its reads fail, declaring
    what a container holds ends: with a declaration, or with the I/O error of
    the source. It never panics, bytes that are not what a header promises never
    fail it, and a hostile layout (cyclic SeekHeads, promises past the end,
    elements that overlap) never keeps it walking. *)
Theorem declare_robust env flen r :
  sane env -> 0 <= flen < 2 ^ 62 -> rwf flen r ->
  match fst (declare env r) with Ok _ => True | Err e => e = Io end.
Proof.
  intros Hs Hf Hr. enough (safe flen (declare env) (fun _ => True)) as H.
  { destruct (H r Hr) as [_ Hb]. pose proof (declare_shapeless env r) as Hn.
    destruct (fst (declare env r)) as [d|e]; [done|]. destruct Hb as [->| ->]; congruence. }
  unfold declare. eapply safe_bind with (P := fun x => match x with
    | Ok o => forall start end_, o = Some (start, end_) -> 0 <= start < 2 ^ 63
    | Err e => benign e end).
  { eapply safe_attempt; [by apply segment_span_safe|done|done]. }
  intros x Hx. eapply safe_bind. { by apply (safe_settle flen x None _ Hx). }
  intros [[start end_]|] Ho; cbn beta in Ho; [|by apply safe_ret].
  specialize (Ho _ _ eq_refl). eapply safe_bind with (P := eq flen); [by apply safe_len|].
  intros ? <-. eapply safe_bind with (P := fun _ => True); [|intros; by apply safe_ret].
  assert (Z.min end_ flen <= flen) as Hend by lia.
  apply declare_loop_safe; [done|done|done| |lia|lia|constructor].
  cbn [walk_new w_visited]. pose proof (budget_le (Z.min end_ flen) start ∅).
  pose proof (left_new (Z.min end_ flen)). lia.
Qed.

Lemma declare_robust_witness :
  exists d, fst (declare (file_env 7 looped_file) (reader_new (len looped_file))) = Ok d
    /\ d_chapters d = [mkChapter 0 None (Some "Opening"%string)].
Proof.
  pose proof (declare_robust (file_env 7 looped_file) (len looped_file) (reader_new (len looped_file))) as H.
  assert (all_bytes looped_file) as Hb by (vm_compute; repeat constructor; discriminate).
  specialize (H (file_env_sane 7 looped_file ltac:(lia) Hb)
    ltac:(split; [vm_compute; discriminate|vm_compute; reflexivity]) (reader_new_wf _)).
  destruct (fst (declare (file_env 7 looped_file) (reader_new (len looped_file)))) as [d|e] eqn:He.
  - exists d. split; [done|]. vm_compute in He. injection He as <-. reflexivity.
  - vm_compute in He. discriminate.
Defined.
