(* ===== verification/SubindexReads.v ===== *)
(** * Reading a file through the window

    On a source that is a file, whatever the length of its short reads, the
    reader is the file: [read_at] returns the slice that was asked for, or fails
    past the end, and its readahead never shows ([pure]). From that follows the
    walk of a cluster: skipping the payloads that are not wanted finds what
    scanning the whole cluster finds. *)
From S2P Require Import Prelude Media Utf8 Ebml EbmlTheorems Subtitles Subindex SubindexFacts.

#[local] Open Scope Z_scope.

(** A file read at an offset inside it delivers at least a byte of it, and at
    most what was asked; nothing stops the walk. *)
Record honest (data : bytes) (env : Env) : Prop := mkHonest {
  honest_read : forall off n, 0 <= off < len data -> 0 < n ->
    exists bs, src_read env off n = Some bs /\ bs <> [] /\ len bs <= n
      /\ bs = slice off (len bs) data;
  honest_calm : forall i, weather env i = None;
}.

(** The reader's window is a piece of the file. *)
Definition view (data : bytes) (r : Reader) : Prop :=
  r_len r = len data /\ 0 <= win_start r /\ win r = slice (win_start r) (len (win r)) data.

(** What a read returns. *)
Definition read_spec (data : bytes) (off n : Z) : result Error bytes :=
  if (n =? 0) || (off + n <=? len data) then Ok (slice off n data) else Err Shape.

Definition pure {A} (data : bytes) (m : M A) (x : result Error A) : Prop :=
  forall r, view data r -> fst (m r) = x /\ view data (snd (m r)).

Lemma view_new data : view data (reader_new (len data)).
Proof. done. Qed.

Lemma len_slice_min off n l : 0 <= off -> 0 <= n -> len (slice off n l) = Z.min n (sat_sub (len l) off).
Proof. intros. unfold slice, len, sat_sub. rewrite length_take, length_drop. lia. Qed.

Lemma file_env_honest chunk data : 0 < chunk -> honest data (file_env chunk data).
Proof.
  intros Hc. split; [|done]. intros off n Hoff Hn. cbn. eexists. split; [done|].
  assert (len (slice off (Z.min n chunk) data) = Z.min (Z.min n chunk) (len data - off)) as Hl.
  { rewrite len_slice_min by lia. unfold sat_sub. lia. }
  split_and!; [|lia|].
  - intros H. rewrite H in Hl. change (len []) with 0 in Hl. lia.
  - rewrite Hl. unfold slice. destruct (decide (Z.min n chunk <= len data - off)); [f_equal; lia|].
    rewrite !take_ge; [done| |]; rewrite length_drop; unfold len in *; lia.
Qed.

Section Reads.
Context (env : Env) (data : bytes) (Hh : honest data env).

Lemma fill_pure fuel off want got :
  0 <= off -> off + want <= len data -> got = slice off (len got) data -> len got <= want ->
  want <= len got + Z.of_nat fuel -> fill env fuel off want got = Ok (slice off want data).
Proof.
  intros Ho Hw. revert got. induction fuel as [|fuel IH]; intros got Hg Hl Hf; cbn [fill].
  - destruct (Z.leb_spec want (len got)); [|lia]. by replace want with (len got) by lia; rewrite <- Hg.
  - destruct (Z.leb_spec want (len got)); [by replace want with (len got) by lia; rewrite <- Hg|].
    pose proof (len_nonneg got).
    destruct (honest_read data env Hh (off + len got) (want - len got)) as (bs & -> & Hne & Hle & Hbs);
      [lia|lia|].
    destruct bs as [|b bs]; [done|]. set (d := b :: bs) in *.
    assert (0 < len d) by (unfold d, len; simpl; lia).
    apply IH; rewrite len_app; [|lia|lia].
    rewrite Hg at 1. rewrite Hbs at 1. apply slice_app; lia.
Qed.

Lemma view_within r : view data r -> win r <> [] -> win_start r + len (win r) <= len data.
Proof.
  intros (_ & H0 & Hw) Hne. assert (0 < len (win r)) by (unfold len; destruct (win r); [done|simpl; lia]).
  pose proof (f_equal len Hw) as Hl. rewrite len_slice_min in Hl by lia. unfold sat_sub in Hl. lia.
Qed.

Lemma read_at_pure off n :
  0 <= off -> 0 <= n -> off + n < 2 ^ 64 -> pure data (read_at env off n) (read_spec data off n).
Proof.
  intros Hoff Hn Hlt r Hr. pose proof Hr as (Hl & H0 & Hw). unfold read_at, read_spec.
  rewrite (honest_calm data env Hh). unfold in_window. rewrite wrap_small by (unfold in_range; lia).
  cbn [win_start win r_len reads].
  destruct ((win_start r <=? off) && (off + n <=? win_start r + len (win r))) eqn:Hin.
  - apply andb_true_iff in Hin as [H1%Z.leb_le H2%Z.leb_le]. cbn [win_start win r_len reads].
    destruct (Z.ltb_spec (len (win r)) (off - win_start r + n)); [lia|]. cbn [fst snd]. split; [|done].
    assert ((n =? 0) || (off + n <=? len data) = true) as ->.
    { destruct (Z.eqb_spec n 0); [done|]. apply Z.leb_le. destruct (win r) eqn:Hwin.
      - change (len []) with 0 in H2. lia.
      - pose proof (view_within r Hr). rewrite Hwin in *. specialize (H3 ltac:(done)). lia. }
    rewrite Hw, slice_slice by lia. do 2 f_equal. lia.
  - set (want := want_bytes _ off n).
    assert (Hmax : want <= sat_sub (len data) off) by (unfold want, want_bytes; cbn [r_len]; rewrite Hl; lia).
    assert (Hmin : Z.min n (sat_sub (len data) off) <= want).
    { unfold want, want_bytes; cbn [r_len]; rewrite Hl. destruct (_ && _); lia. }
    unfold sat_sub in *.
    destruct (Z.ltb_spec want n) as [Hlt'|Hge].
    { split; [|done]. destruct (Z.eqb_spec n 0); [lia|]. destruct (Z.leb_spec (off + n) (len data)); [lia|done]. }
    assert (0 <= want) by lia.
    assert (Hfill : fill env (Z.to_nat want) off want [] = Ok (slice off want data)).
    { destruct (Z.eqb_spec want 0) as [->|Hnz]; [by rewrite slice_0|].
      apply fill_pure; [done|lia|by rewrite slice_0|change (len []) with 0; lia..]. }
    rewrite Hfill. cbn [rbind win_start win r_len reads]. replace (off - off) with 0 by lia.
    assert (Hlen : len (slice off want data) = want).
    { rewrite len_slice_min by lia. unfold sat_sub. lia. }
    rewrite Hlen. destruct (Z.ltb_spec want (0 + n)); [lia|]. cbn [fst snd]. split.
    + assert ((n =? 0) || (off + n <=? len data) = true) as ->.
      { destruct (Z.eqb_spec n 0); [done|]. apply Z.leb_le. lia. }
      rewrite slice_slice by lia. do 2 f_equal. lia.
    + split_and!; [done|done|]. cbn [win win_start]. by rewrite Hlen.
Qed.

(** *** Rules *)

Lemma pure_ret {A} (a : A) : pure data (ret a) (Ok a).
Proof. by intros r Hr. Qed.
Lemma pure_lift {A} (x : result Error A) : pure data (lift x) x.
Proof. by intros r Hr. Qed.
Lemma pure_lift_ok {A} (x : result Error A) a : x = Ok a -> pure data (lift x) (Ok a).
Proof. intros ->. apply pure_lift. Qed.
Lemma pure_bind {A B} (m : M A) (k : A -> M B) a x :
  pure data m (Ok a) -> pure data (k a) x -> pure data (bind m k) x.
Proof.
  intros Hm Hk r Hr. unfold bind. destruct (Hm r Hr) as [He Hv].
  destruct (m r) as [[?|?] r']; cbn [fst snd] in *; [|done]. injection He as ->. by apply Hk.
Qed.
Lemma pure_len : pure data get_len (Ok (len data)).
Proof. intros r Hr. split; [|done]. cbn. f_equal. apply Hr. Qed.
Lemma pure_read off n :
  0 <= off -> 0 <= n -> off + n <= len data -> len data < 2 ^ 64 ->
  pure data (read_at env off n) (Ok (slice off n data)).
Proof.
  intros Ho Hn Hl Hd. pose proof (read_at_pure off n Ho Hn ltac:(lia)) as H.
  unfold read_spec in H. destruct (Z.leb_spec (off + n) (len data)); [|lia]. by rewrite orb_true_r in H.
Qed.
End Reads.

(** ** A header seen through a prefix *)

Lemma ebml_id_take k l id il : ebml_id l = Ok (id, il) -> (il <= k)%nat -> ebml_id (take k l) = Ok (id, il).
Proof.
  unfold ebml_id. destruct l as [|b l]; [done|]. destruct (_ || _) eqn:Hb; [done|]. intros [= <- <-] Hk.
  destruct k as [|k]; [lia|]. cbn [take]. apply orb_false_iff in Hb as [-> H%Nat.ltb_ge].
  destruct (Nat.ltb_spec (length (b :: take k l)) (S (leading_zeros b))) as [Hc|_].
  { simpl in *. rewrite length_take in Hc. lia. }
  cbn [orb]. change (b :: take k l) with (take (S k) (b :: l)). by rewrite take_take, Nat.min_l by lia.
Qed.

Lemma vint_value_take k n l : (1 <= n <= k)%nat -> vint_value n (take k l) = vint_value n l.
Proof.
  intros Hn. unfold vint_value. destruct l as [|b l]; [by rewrite take_nil|].
  destruct k as [|k]; [lia|]. cbn [take].
  change (b :: take k l) with (take (S k) (b :: l)). by rewrite take_take, Nat.min_l by lia.
Qed.

Lemma ebml_size_take k l o sl : ebml_size l = Ok (o, sl) -> (sl <= k)%nat -> ebml_size (take k l) = Ok (o, sl).
Proof.
  unfold ebml_size. destruct l as [|b l]; [done|]. destruct (Z.eqb_spec b 0); [done|].
  destruct (_ || _) eqn:Hb; [done|]. intros Ho Hk.
  assert (S (leading_zeros b) = sl) as Hs by congruence.
  rewrite <- (vint_value_take k) in Ho by lia. destruct k as [|k]; [lia|]. cbn [take] in *.
  destruct (Z.eqb_spec b 0); [done|]. apply orb_false_iff in Hb as [-> H%Nat.ltb_ge].
  destruct (Nat.ltb_spec (length (b :: take k l)) (S (leading_zeros b))) as [Hc|_].
  { simpl in *. rewrite length_take in Hc. lia. }
  cbn [orb]. exact Ho.
Qed.

Lemma block_number_take k l : block_number (take k l) = block_number l \/ block_number (take k l) = None.
Proof.
  destruct l as [|b l]; [left; by rewrite take_nil|]. destruct k as [|k]; [by right|]. cbn [take].
  unfold block_number. destruct (Nat.ltb_spec 8 (S (leading_zeros b))); [by left|]. cbn [orb].
  destruct (Nat.ltb_spec (length (b :: take k l)) (S (leading_zeros b))) as [|Hk]; [by right|left].
  simpl in Hk. rewrite length_take in Hk.
  destruct (Nat.ltb_spec (length (b :: l)) (S (leading_zeros b))) as [H'|_]; [simpl in H'; lia|].
  do 2 f_equal. change (b :: take k l) with (take (S k) (b :: l)). apply vint_value_take. lia.
Qed.

(** Two pieces of the same bytes agree on a track number they both hold. *)
Lemma block_track_agree k m l t :
  block_track (take k l) = Some t -> block_number (take m l) = None \/ block_track (take m l) = Some t.
Proof.
  unfold block_track. destruct (block_number_take k l) as [->| ->]; [|done].
  destruct (block_number_take m l) as [->| ->]; [by right|by left].
Qed.

(** The parts of the next element. *)
Lemma next_child_parts s id v rest :
  next_child s = Ok (id, v, rest) -> all_bytes s ->
  exists il sl size, ebml_id s = Ok (id, il) /\ ebml_size (drop il s) = Ok (Some size, sl)
    /\ (2 <= il + sl <= 12)%nat /\ 0 <= size /\ Z.of_nat (il + sl) + size <= len s
    /\ v = slice (Z.of_nat (il + sl)) size s
    /\ rest = drop (Z.to_nat (Z.of_nat (il + sl) + size)) s.
Proof.
  unfold next_child. intros ([id' il] & Hi & H)%rbind_Ok Hb. cbn [fst snd] in H.
  apply rbind_Ok in H as ([osize sl] & Hz & H). cbn [fst snd] in H.
  destruct osize as [size|]; [|done].
  destruct (Z.ltb_spec (Z.of_nat (length (drop (il + sl) s))) size) as [|Hle]; [done|].
  injection H as -> <- <-. exists il, sl, size. rewrite length_drop in Hle.
  pose proof (ebml_size_range _ _ _ (Forall_drop _ il _ Hb) Hz).
  pose proof (ebml_id_length _ _ _ Hi). pose proof (ebml_id_small _ _ _ Hi).
  pose proof (ebml_size_length _ _ _ Hz) as Hl. pose proof (ebml_size_small _ _ _ Hz).
  rewrite length_drop in Hl. unfold slice, len. rewrite Nat2Z.id, drop_drop.
  split_and!; try done; try lia. f_equal. lia.
Qed.

(** ** The walk of a cluster *)

(** A BlockGroup holds one Block. *)
Definition one_block (body : bytes) : Prop :=
  (length (List.filter (fun c => Z.eqb (fst c) BLOCK) (fst (children body))) <= 1)%nat.
Definition groups_of_one (cluster : bytes) : Prop :=
  Forall (fun c => fst c = BLOCK_GROUP -> one_block (snd c)) (fst (children cluster)).

Definition groups_of_oneb (cluster : bytes) : bool :=
  forallb (fun c => negb (fst c =? BLOCK_GROUP)
      || (length (List.filter (fun c => Z.eqb (fst c) BLOCK) (fst (children (snd c)))) <=? 1)%nat)
    (fst (children cluster)).
Lemma groups_of_oneb_true cluster : groups_of_oneb cluster = true -> groups_of_one cluster.
Proof.
  unfold groups_of_oneb, groups_of_one. rewrite forallb_forall, Forall_forall. intros H [id v] Hc. cbn [fst snd]. intros ->.
  apply list_elem_of_In in Hc. specialize (H _ Hc). cbn [fst snd] in *. by apply Nat.leb_le.
Qed.

Lemma encode_uint_length v : (length (encode_uint v) <= 8)%nat.
Proof.
  unfold encode_uint. transitivity (length (to_be_bytes 8 v)); [|by rewrite to_be_bytes_length].
  generalize (to_be_bytes 8 v). generalize 7%nat. intros n.
  induction n as [|n IH]; intros l; [by destruct l|].
  destruct l as [|b l]; [done|]. cbn [skip_zeros_max].
  destruct (b =? 0); [|done]. specialize (IH l). simpl. lia.
Qed.

(** What the fields of a cluster add does not depend on what came before. *)
Lemma cluster_field_out wanted id v ts out :
  cluster_field wanted id v (ts, out)
  = let '((ts', o), r) := cluster_field wanted id v (ts, []) in ((ts', out ++ o), r).
Proof.
  unfold cluster_field. repeat case_match; simplify_eq/=; by rewrite ?app_nil_r.
Qed.
Lemma scan_out wanted s ts out :
  walk_children (cluster_field wanted) s (ts, out)
  = let '((ts', o), r) := walk_children (cluster_field wanted) s (ts, []) in ((ts', out ++ o), r).
Proof.
  rewrite !children_run. generalize (fst (children s)), (snd (children s)). intros l last.
  revert ts out. induction l as [|[id v] l IH]; intros ts out; cbn [run]; [by rewrite app_nil_r|].
  rewrite cluster_field_out.
  destruct (cluster_field wanted id v (ts, [])) as [[ts' o] [[]|e]]; [|done|done].
  rewrite IH, (IH ts' o). destruct (run (cluster_field wanted) l last (ts', [])) as [[ts'' o'] r]. by rewrite app_assoc.
Qed.

(** A block on its own under its cluster's timestamp reads as it does in place. *)
Lemma scan_wrapped wanted ts id v :
  in_range 64 ts -> valid_id id = true -> len v < 2 ^ 55 -> id <> CLUSTER_TIMESTAMP ->
  scan_cluster (wrapped ts id v) wanted
  = match cluster_field wanted id v (ts, []) with
    | ((_, o), Ok _) => Ok o
    | (_, Err e) => Err e
    end.
Proof.
  intros Hts Hid Hv Hne. unfold scan_cluster, wrapped. rewrite children_run.
  rewrite children_encode; [|done|].
  2:{ pose proof (encode_uint_length ts). unfold CLUSTER_TIMESTAMP. lia. }
  rewrite <- (app_nil_r (encode_element id v)), children_encode by (done || unfold len in Hv; lia).
  cbn [fst snd run]. unfold cluster_field at 1. rewrite Z.eqb_refl, uint_encode by done.
  destruct (cluster_field wanted id v (ts, [])) as [[ts' o] [[]|e]]; done.
Qed.

(** *** What the peek rules out *)

Lemma unwanted_block wanted k m q t :
  block_track (take k q) = Some t -> wants wanted t = false -> sub_block wanted (take m q) = None.
Proof.
  intros Ht Hw. unfold sub_block, parse_block.
  destruct (block_track_agree k m q t Ht) as [->|Hm]; [done|].
  unfold block_track in Hm. destruct (block_number (take m q)) as [[t' n]|]; [|done].
  injection Hm as ->. cbn. by rewrite Hw.
Qed.

Lemma ebml_id_inv k l x : ebml_id (take k l) = Ok x -> ebml_id l = Ok x.
Proof.
  unfold ebml_id. destruct l as [|b l]; [by rewrite take_nil|]. destruct k as [|k]; [done|]. cbn [take].
  destruct (Nat.ltb_spec 4 (S (leading_zeros b))); [done|]. cbn [orb].
  destruct (Nat.ltb_spec (length (b :: take k l)) (S (leading_zeros b))) as [|Hk]; [done|].
  simpl in Hk. rewrite length_take in Hk.
  destruct (Nat.ltb_spec (length (b :: l)) (S (leading_zeros b))) as [H'|_]; [simpl in H'; lia|].
  intros <-. do 2 f_equal. change (b :: take k l) with (take (S k) (b :: l)).
  by rewrite take_take, Nat.min_l by lia.
Qed.
Lemma ebml_size_inv k l x : ebml_size (take k l) = Ok x -> ebml_size l = Ok x.
Proof.
  unfold ebml_size. destruct l as [|b l]; [by rewrite take_nil|]. destruct k as [|k]; [done|]. cbn [take].
  destruct (b =? 0); [done|]. destruct (Nat.ltb_spec 8 (S (leading_zeros b))); [done|]. cbn [orb].
  destruct (Nat.ltb_spec (length (b :: take k l)) (S (leading_zeros b))) as [|Hk]; [done|].
  simpl in Hk. rewrite length_take in Hk.
  destruct (Nat.ltb_spec (length (b :: l)) (S (leading_zeros b))) as [H'|_]; [simpl in H'; lia|].
  change (b :: take k l) with (take (S k) (b :: l)). by rewrite vint_value_take by lia.
Qed.

Lemma drop_take n k (l : bytes) : drop n (take k l) = take (k - n) (drop n l).
Proof. apply skipn_firstn_comm. Qed.

Lemma group_without wanted l s :
  List.filter (fun c => Z.eqb (fst c) BLOCK) l = [] ->
  fst (fold_left (fun s '(id, v) => group_field wanted id v s) l s) = fst s.
Proof.
  revert s. induction l as [|[id v] l IH]; intros [blk dur]; simpl; [done|].
  destruct (Z.eqb_spec id BLOCK) as [|Hne]; [done|]. intros H. rewrite IH by done. unfold group_field.
  destruct (Z.eqb_spec id BLOCK); [done|]. by case_match.
Qed.

Lemma cluster_group wanted ts v :
  cluster_field wanted BLOCK_GROUP v (ts, [])
  = match snd (children v) with
    | Err e => ((ts, []), Err e)
    | Ok _ =>
        let '(blk, dur) :=
          fold_left (fun s '(id, v) => group_field wanted id v s) (fst (children v)) (None, None) in
        ((ts, match blk with Some b => [(ts, with_duration dur b)] | None => [] end), Ok true)
    end.
Proof.
  unfold cluster_field. rewrite walk_visit. change (BLOCK_GROUP =? CLUSTER_TIMESTAMP) with false.
  change (BLOCK_GROUP =? SIMPLE_BLOCK) with false. change (BLOCK_GROUP =? BLOCK_GROUP) with true.
  cbv iota. destruct (fold_left _ _ _) as [blk dur]. destruct (snd (children v)); [|done].
  by destruct blk.
Qed.

(** A group the peek skips adds nothing. *)
Lemma peeked_group wanted k m q ts ts' o :
  peek_group (take k q) wanted = false -> one_block (take m q) ->
  cluster_field wanted BLOCK_GROUP (take m q) (ts, []) = ((ts', o), Ok true) -> ts' = ts /\ o = [].
Proof.
  intros Hp Hone. rewrite cluster_group. unfold one_block in Hone.
  destruct (take m q) as [|b0 v0] eqn:Hv; [by intros [= <- <-]|]. rewrite <- Hv in *.
  assert (take m q <> []) as Hne by (by rewrite Hv). clear Hv. rewrite children_step in * by done.
  destruct (next_child (take m q)) as [[[id b] rest]|e] eqn:Hn; [|done]. cbn [fst snd] in *.
  destruct (snd (children rest)) as [[]|]; [|done]. cbn [fold_left List.filter fst] in *.
  unfold next_child in Hn. apply rbind_Ok in Hn as ([id' il] & Hi & Hn). cbn [fst snd] in Hn.
  apply rbind_Ok in Hn as ([osize sl] & Hz & Hn). cbn [fst snd] in Hn.
  destruct osize as [size|]; [|done]. destruct (_ <? size); [done|]. injection Hn as -> Hb Hr.
  apply ebml_id_inv in Hi. rewrite drop_take in Hz. apply ebml_size_inv in Hz.
  unfold peek_group in Hp. destruct (ebml_id (take k q)) as [[cid cil]|] eqn:Hci; [|done].
  apply ebml_id_inv in Hci. rewrite Hci in Hi. injection Hi as -> ->.
  destruct (Z.eqb_spec id BLOCK) as [->|]; [|done]. cbn [negb] in Hp.
  rewrite drop_take in Hp. destruct (ebml_size (take _ (drop il q))) as [[o' csl]|] eqn:Hcz; [|done].
  apply ebml_size_inv in Hcz. rewrite Hcz in Hz. injection Hz as -> ->.
  destruct (_ <? _)%nat; [done|]. rewrite drop_take in Hp.
  destruct (block_track (take (k - (il + sl)) (drop (il + sl) q))) as [t|] eqn:Ht; [|done].
  rewrite drop_take, take_take in Hb.
  assert (sub_block wanted b = None) as Hsb by (rewrite <- Hb; by eapply unwanted_block).
  cbn [length] in Hone. pose proof (group_without wanted (fst (children rest)) (None, None)) as Hg.
  unfold group_field at 2. change (BLOCK =? BLOCK) with true. cbv iota. rewrite Hsb.
  destruct (fold_left _ (fst (children rest)) (None, None)) as [blk dur]. cbn [fst] in Hg.
  rewrite Hg; [by intros [= <- <-]|].
  by destruct (List.filter (fun c => Z.eqb (fst c) BLOCK) (fst (children rest))) as [|c l]; [|simpl in Hone; lia].
Qed.

Lemma drop_slice k n p (l : bytes) :
  0 <= p -> 0 <= k <= n -> drop (Z.to_nat k) (slice p n l) = slice (p + k) (n - k) l.
Proof.
  intros. unfold slice. rewrite drop_take, drop_drop. f_equal; [lia|f_equal; lia].
Qed.

Section Sparse.
Context (env : Env) (data : bytes) (Hh : honest data env).
Context (Hb : all_bytes data) (Hd : len data < 2 ^ 55).
Context (wanted : list Z).

Lemma sparse_element_pure s p k hl id size ts out ts' o :
  0 <= p -> s = slice p (len s) data -> p + len s <= len data -> in_range 64 ts ->
  (hl <= k)%nat -> 0 <= size -> Z.of_nat hl + size <= len s ->
  (id = BLOCK_GROUP -> one_block (take (Z.to_nat size) (drop hl s))) ->
  cluster_field wanted id (take (Z.to_nat size) (drop hl s)) (ts, []) = ((ts', o), Ok true) ->
  pure data (sparse_element env (take k s) hl id (p + Z.of_nat hl) size ts wanted out)
    (Ok (ts', out ++ o)).
Proof.
  intros Hp Hs Hin Hts Hk Hsz Hfit Hone Hf. set (v := take (Z.to_nat size) (drop hl s)) in *.
  assert (Hv : slice (p + Z.of_nat hl) size data = v).
  { unfold v. rewrite Hs, <- slice_slice with (n := len s) by lia. unfold slice at 1. by rewrite Nat2Z.id. }
  assert (Hread : pure data (read_at env (p + Z.of_nat hl) size) (Ok v)).
  { rewrite <- Hv. apply pure_read; (done || lia). }
  assert (Hlv : len v < 2 ^ 55).
  { unfold v, len in *. rewrite length_take, length_drop. lia. }
  unfold sparse_element. rewrite drop_take.
  destruct (Z.eqb_spec id CLUSTER_TIMESTAMP) as [->|Ht].
  { unfold cluster_field in Hf. rewrite Z.eqb_refl in Hf. injection Hf as <- <-. rewrite app_nil_r.
    destruct (Z.leb_spec (Z.of_nat hl + size) (len (take k s))) as [Hle|_].
    - rewrite take_take, Nat.min_l; [apply pure_ret|]. unfold len in Hle. rewrite length_take in Hle. lia.
    - eapply pure_bind; [done|apply pure_ret]. }
  destruct (Z.eqb_spec id SIMPLE_BLOCK) as [->|Hsb].
  { unfold cluster_field in Hf. change (SIMPLE_BLOCK =? CLUSTER_TIMESTAMP) with false in Hf.
    rewrite Z.eqb_refl in Hf. injection Hf as <- <-. cbn [app].
    destruct (peek_simple (take (k - hl) (drop hl s)) wanted) eqn:Hpk.
    - eapply pure_bind; [done|]. apply pure_ret.
    - unfold peek_simple in Hpk. destruct (block_track (take (k - hl) (drop hl s))) eqn:Hbt; [|done].
      unfold v. rewrite (unwanted_block _ _ _ _ _ Hbt Hpk), app_nil_r. apply pure_ret. }
  destruct (Z.eqb_spec id BLOCK_GROUP) as [->|Hg].
  - destruct (peek_group (take (k - hl) (drop hl s)) wanted) eqn:Hpk.
    + eapply pure_bind; [done|]. eapply pure_bind; [apply pure_lift_ok|].
      * by rewrite scan_wrapped, Hf.
      * rewrite cluster_group in Hf. repeat case_match; simplify_eq; apply pure_ret.
    + destruct (peeked_group _ _ _ _ _ _ _ Hpk (Hone eq_refl) Hf) as [-> ->].
      rewrite app_nil_r. apply pure_ret.
  - unfold cluster_field in Hf.
    rewrite !(proj2 (Z.eqb_neq _ _)) in Hf by done. injection Hf as <- <-. rewrite app_nil_r. apply pure_ret.
Qed.

Lemma cluster_field_time id v ts ts' o :
  all_bytes v -> in_range 64 ts -> cluster_field wanted id v (ts, []) = ((ts', o), Ok true) -> in_range 64 ts'.
Proof.
  intros Hv Hts. unfold cluster_field. destruct (id =? CLUSTER_TIMESTAMP).
  { intros [= <- <-]. by apply uint_range. }
  repeat case_match; intros; by simplify_eq.
Qed.

Lemma sparse_loop_pure fuel s p ts out ts' o :
  0 <= p -> s = slice p (len s) data -> p + len s <= len data -> in_range 64 ts ->
  len s <= Z.of_nat fuel -> groups_of_one s ->
  walk_children (cluster_field wanted) s (ts, []) = ((ts', o), Ok tt) ->
  pure data (sparse_loop env fuel p (p + len s) ts wanted out) (Ok (out ++ o)).
Proof.
  revert s p ts out ts' o. induction fuel as [|fuel IH]; intros s p ts out ts' o Hp Hs Hin Hts Hf Hone Hw.
  { assert (s = []) as -> by (destruct s; [done|unfold len in Hf; simpl in Hf; lia]).
    change (len []) with 0. cbn [sparse_loop]. destruct (Z.leb_spec (p + 0) p); [|lia].
    injection Hw as <- <-. rewrite app_nil_r. apply pure_ret. }
  cbn [sparse_loop]. destruct (decide (s = [])) as [->|Hne].
  { change (len []) with 0. destruct (Z.leb_spec (p + 0) p); [|lia].
    injection Hw as <- <-. rewrite app_nil_r. apply pure_ret. }
  rewrite walk_step in Hw by done. unfold groups_of_one in Hone. rewrite children_step in Hone by done.
  destruct (next_child s) as [[[id v] rest]|e] eqn:Hn; [|done].
  assert (all_bytes s) as Hbs by (rewrite Hs; by apply all_bytes_slice).
  destruct (next_child_bytes _ _ _ _ Hbs Hn) as [Hbv _].
  destruct (next_child_parts _ _ _ _ Hn Hbs) as (il & sl & size & Hi & Hz & Hhl & Hsz & Hfit & Hv & Hr).
  pose proof (next_child_length _ _ _ _ Hn) as [Hlen _].
  destruct (cluster_field wanted id v (ts, [])) as [[ts1 o1] [[]|e]] eqn:Hc; [| |done].
  2:{ exfalso. revert Hc. unfold cluster_field. clear. repeat case_match; intros; by simplify_eq. }
  rewrite scan_out in Hw. destruct (walk_children (cluster_field wanted) rest (ts1, [])) as [[ts2 o2] r] eqn:Hw2.
  injection Hw as <- <- ->.
  assert (2 <= len s) by (unfold len; lia).
  destruct (Z.leb_spec (p + len s) p); [lia|].
  eapply pure_bind; [apply pure_len|]. rewrite wrap_small by (unfold in_range; lia).
  set (peek := Z.min (Z.min 48 (p + len s - p)) (len data - p)).
  assert (Hpeek : peek = Z.min 48 (len s)) by (unfold peek; lia). clearbody peek.
  destruct (Z.ltb_spec peek 2); [lia|].
  eapply pure_bind; [apply (pure_read env data Hh); lia|].
  assert (Hhead : slice p peek data = take (Z.to_nat peek) s).
  { rewrite Hs. unfold slice. rewrite take_take. f_equal. lia. }
  assert (il + sl <= Z.to_nat peek)%nat as Hfits by lia.
  rewrite Hhead, (ebml_id_take _ _ _ _ Hi), drop_take by lia.
  rewrite (ebml_size_take _ _ _ _ Hz) by lia.
  cbn [fst snd] in Hone. apply Forall_cons in Hone as [Hone1 Hone2]. cbn [fst snd] in Hone1.
  assert (Hv' : v = take (Z.to_nat size) (drop (il + sl) s)) by (rewrite Hv; unfold slice; by rewrite Nat2Z.id).
  eapply pure_bind.
  { apply (sparse_element_pure s p (Z.to_nat peek)) with (ts' := ts1) (o := o1); try done; by rewrite <- Hv'. }
  replace (p + len s) with (p + Z.of_nat (il + sl) + size + len rest).
  2:{ rewrite Hr. unfold len in *. rewrite length_drop. lia. }
  rewrite app_assoc. apply (IH rest) with (ts' := ts2); try done.
  - lia.
  - assert (len rest = len s - (Z.of_nat (il + sl) + size)) as ->.
    { rewrite Hr. unfold len in *. rewrite length_drop. lia. }
    rewrite Hr. rewrite Hs at 1. rewrite drop_slice by lia. f_equal. lia.
  - rewrite Hr. unfold len in *. rewrite length_drop. lia.
  - by eapply cluster_field_time.
  - unfold len in *. lia.
Qed.
End Sparse.

(** C20: the walk that reads only the headers of a cluster and the blocks of the
    wanted tracks finds exactly the blocks, times and durations a scan of the
    whole cluster finds, whatever the source's short reads and whatever the
    readahead window holds, on a cluster that lies in the file and whose groups
    hold one Block each, where that scan succeeds. *)
Theorem sparse_is_scan env data r body_start body_len wanted out found :
  honest data env -> all_bytes data -> len data < 2 ^ 55 -> view data r ->
  0 <= body_start -> 0 <= body_len -> body_start + body_len <= len data ->
  groups_of_one (slice body_start body_len data) ->
  scan_cluster (slice body_start body_len data) wanted = Ok found ->
  fst (walk_cluster_sparse env body_start body_len wanted out r) = Ok (out ++ found).
Proof.
  intros Hh Hb Hd Hr Hs Hl Hin Hone Hscan.
  enough (pure data (walk_cluster_sparse env body_start body_len wanted out) (Ok (out ++ found))) as H
    by (by apply H).
  set (s := slice body_start body_len data) in *.
  assert (Hls : len s = body_len) by (apply len_slice; lia).
  unfold scan_cluster in Hscan.
  destruct (walk_children (cluster_field wanted) s (0, [])) as [[ts' o] [[]|e]] eqn:Hw; [|done].
  injection Hscan as <-. cbn [snd].
  unfold walk_cluster_sparse, file_fuel. eapply pure_bind.
  { eapply pure_bind; [apply pure_len|apply pure_ret]. }
  rewrite <- Hls. apply (sparse_loop_pure env data Hh Hb Hd wanted) with (ts' := ts'); try done.
  - by rewrite Hls.
  - lia.
  - rewrite Nat2Z.inj_succ, Z2Nat.id by apply len_nonneg. lia.
Qed.

(** C23: on a file, a read whose end fits in 64 bits returns exactly the bytes asked for where the file
    holds them all, and fails as a failure of shape where it does not: the
    readahead window, its reuse and the source's short reads never show, and
    the window stays a piece of the file. *)
Theorem read_at_refines env data r off n :
  honest data env -> view data r -> 0 <= off -> 0 <= n -> off + n < 2 ^ 64 ->
  fst (read_at env off n r) = read_spec data off n /\ view data (snd (read_at env off n r)).
Proof. intros Hh Hr Ho Hn Hl. by apply (read_at_pure env data Hh off n). Qed.

(** The bytes of "hello", read three bytes at a time from a reader whose window
    lies elsewhere; and past the end. *)
Lemma read_at_refines_witness :
  let r := mkReader (len film) 3 (slice 3 5 film) 2 in
  fst (read_at (file_env 3 film) 200 40 r) = read_spec film 200 40
  /\ view film (snd (read_at (file_env 3 film) 200 40 r)).
Proof.
  apply read_at_refines; [by apply file_env_honest| |lia..]. split_and!; [done|cbn; lia|].
  vm_compute. reflexivity.
Defined.

Lemma sparse_is_scan_witness :
  let data := elements talking_cluster in
  exists found, fst (walk_cluster_sparse (file_env 5 data) 0 (len data) [2] []
                      (reader_new (len data))) = Ok ([] ++ found)
    /\ length found = 2%nat.
Proof.
  intros data. eexists. split.
  - apply (sparse_is_scan _ data); [by apply file_env_honest| | |by apply view_new|lia| |lia| |].
    + vm_compute. repeat constructor; discriminate.
    + vm_compute. reflexivity.
    + vm_compute. discriminate.
    + apply groups_of_oneb_true. vm_compute. reflexivity.
    + vm_compute. reflexivity.
  - reflexivity.
Defined.
