(* ===== verification/SubindexIndex.v ===== *)
(** * The index of the subtitle tracks ends

    [mkv_read_index], the header walk over the clusters and a walk without
    exact cues, on any source: each turn visits a new position or passes a
    header, and what the bytes do not keep fails by its shape. *)
From S2P Require Import Prelude Media Utf8 Ebml EbmlTheorems Subtitles Subindex SubindexFacts SubindexTheorems.

#[local] Open Scope Z_scope.

(** ** Walks of parsed bytes fail by shape *)

Lemma children_last data : snd (children data) = Ok tt \/ snd (children data) = Err Shape.
Proof.
  remember (length data) as m eqn:Hm. revert data Hm.
  induction m as [m IH] using lt_wf_ind. intros [|b data] Hm; [by left|].
  rewrite children_step by done.
  destruct (next_child (b :: data)) as [[[id v] rest]|e] eqn:Hc; cbn [fst snd].
  - apply next_child_length in Hc as [Hl _]. apply (IH (length rest)); [simpl in *; lia|done].
  - right. f_equal. revert Hc. unfold next_child, ebml_id, ebml_size, rbind.
    repeat case_match; simplify_eq; intros; by simplify_eq.
Qed.

Definition shaped {A} (x : result Error A) : Prop := match x with Ok _ => True | Err e => e = Shape end.

Lemma walk_shaped {S} (f : Z -> bytes -> S -> S * result Error bool) data s :
  (forall id v s, shaped (snd (f id v s))) -> shaped (snd (walk_children f data s)).
Proof.
  intros Hf. rewrite children_run. destruct (children_last data) as [->| ->];
    generalize (fst (children data)); intros l; revert s; induction l as [|[id v] l IH]; intros s;
    cbn [run]; try done; specialize (Hf id v s); destruct (f id v s) as [s' [[]|e]]; auto.
Qed.
Lemma visit_shaped {S} (g : Z -> bytes -> S -> S) data s : shaped (snd (walk_children (visit g) data s)).
Proof. by apply walk_shaped. Qed.

Lemma checked_benign {S} (x : S * result Error unit) :
  shaped (snd x) -> forall e, checked x = Err e -> benign e.
Proof. destruct x as [s [[]|e]]; cbn; intros H e'; [done|]. intros [= <-]. by right. Qed.

Lemma seek_entry_shaped targets start id v s : shaped (snd (seek_entry targets start id v s)).
Proof.
  unfold seek_entry. destruct (negb _); [done|]. pose proof (visit_shaped seek_field v (0, None)) as H.
  by destruct (walk_children (visit seek_field) v (0, None)) as [[t p] [[]|e]].
Qed.
Lemma track_entry_shaped id v s : shaped (snd (track_entry id v s)).
Proof.
  unfold track_entry. destruct s as [n out]. destruct (negb _); [done|]. cbv zeta.
  match goal with |- context [walk_children (visit entry_field) v ?i] =>
    pose proof (visit_shaped entry_field v i) as H;
    destruct (walk_children (visit entry_field) v i) as [e [[]|x]] end; [|done].
  by destruct (_ =? _).
Qed.
Lemma cue_point_shaped wanted id v s : shaped (snd (cue_point_field wanted id v s)).
Proof.
  unfold cue_point_field. destruct s as [t c]. destruct (id =? CUE_TIME); [done|].
  destruct (_ =? _); [|done]. pose proof (visit_shaped cue_position_field v (0, 0, None)) as H.
  by destruct (walk_children (visit cue_position_field) v (0, 0, None)) as [[[? ?] ?] [[]|e]].
Qed.
Lemma cue_entry_shaped wanted id v s : shaped (snd (cue_entry wanted id v s)).
Proof.
  unfold cue_entry. destruct (negb _); [done|].
  pose proof (walk_shaped (cue_point_field wanted) v (0, s) (cue_point_shaped wanted)) as H.
  by destruct (walk_children (cue_point_field wanted) v (0, s)) as [[? ?] [[]|e]].
Qed.
Lemma cluster_field_shaped wanted id v s : shaped (snd (cluster_field wanted id v s)).
Proof.
  unfold cluster_field. destruct s as [t out]. destruct (id =? CLUSTER_TIMESTAMP); [done|].
  destruct (id =? SIMPLE_BLOCK); [done|]. destruct (id =? BLOCK_GROUP); [|done].
  pose proof (visit_shaped (group_field wanted) v (None, None)) as H.
  by destruct (walk_children (visit (group_field wanted)) v (None, None)) as [[? ?] [[]|e]].
Qed.
Lemma scan_benign data wanted e : scan_cluster data wanted = Err e -> benign e.
Proof.
  unfold scan_cluster.
  pose proof (walk_shaped (cluster_field wanted) data (0, []) (cluster_field_shaped wanted)) as H.
  destruct (walk_children (cluster_field wanted) data (0, [])) as [s [[]|x]]; cbn in *; [done|].
  intros [= <-]. by right.
Qed.

Section Index.
Context (env : Env) (Hs : sane env) (flen : Z) (Hflen : 0 <= flen < 2 ^ 62).

Lemma lift_walk_safe {S} (f : Z -> bytes -> S -> S * result Error bool) data s (Q : S -> Prop) :
  (forall id v s, shaped (snd (f id v s))) -> all_bytes data -> Q s ->
  (forall id v s, all_bytes v -> Q s -> Q (fst (f id v s))) ->
  safe flen (lift (checked (walk_children f data s))) Q.
Proof.
  intros Hsh Hd HQ Hk. apply safe_lift.
  - by apply checked_benign, walk_shaped.
  - intros a. pose proof (walk_inv Q f data s Hd HQ Hk) as H.
    destruct (walk_children f data s) as [s' [[]|e]]; cbn in *; by intros [= <-].
Qed.

(** An index that has a start and promises that are offsets. *)
Definition index_ok (s : MkvIndex * list Z) : Prop :=
  0 <= segment_start (fst s) /\ promises_ok (snd s)
  /\ forall p, first_cluster (fst s) = Some p -> 0 <= p < 2 ^ 62.

Lemma index_element_safe pos id body size idx pending :
  0 <= pos < 2 ^ 62 -> 0 <= body < 2 ^ 63 -> 0 <= size < 2 ^ 56 -> index_ok (idx, pending) ->
  safe flen (index_element env pos id body size idx pending) index_ok.
Proof.
  intros Hpos Hb Hz (Hst & Hp & Hc). cbn [fst snd] in *.
  assert (Hread : safe flen (read_at env body size) all_bytes).
  { eapply safe_weaken; [apply (read_at_safe env Hs); lia|]. by intros d (_ & H & _). }
  unfold index_element. destruct (id =? SEEK_HEAD).
  { eapply safe_bind; [done|]. intros d Hd. cbn beta in Hd.
    eapply safe_bind with (P := promises_ok); [|by intros p Hpp; apply safe_ret].
    apply lift_walk_safe; [apply seek_entry_shaped|done|done|].
    intros i v s Hv Hps. by apply seek_entry_ok. }
  destruct (id =? INFO).
  { eapply safe_bind; [done|]. intros d Hd. cbn beta in Hd.
    eapply safe_bind with (P := fun _ => True); [by apply lift_walk_safe|]. intros s _. by apply safe_ret. }
  destruct (id =? TRACKS).
  { eapply safe_bind; [done|]. intros d Hd. cbn beta in Hd.
    eapply safe_bind with (P := fun _ => True); [|intros s _; by apply safe_ret].
    apply lift_walk_safe; [apply track_entry_shaped|done..]. }
  destruct (id =? CUES).
  { eapply safe_bind; [done|]. intros d Hd. cbn beta in Hd.
    eapply safe_bind with (P := fun _ => True); [|intros s _; by apply safe_ret].
    apply lift_walk_safe; [apply cue_entry_shaped|done..]. }
  destruct (_ && _); apply safe_ret; [|done]. split_and!; [done|done|]. by intros p [= <-].
Qed.

Lemma index_next_ok id linear idx pending visited pos :
  0 <= linear -> promises_ok pending ->
  index_next id linear idx pending visited = Some pos -> 0 <= pos.
Proof.
  intros Hl Hp. unfold index_next. destruct (_ && _); [done|].
  destruct (List.find _ _) as [n|] eqn:Hf; [|by intros [= <-]].
  destruct (is_some _); intros [= <-]; [|done]. apply List.find_some in Hf as [Hin _].
  unfold promises_ok in Hp. rewrite Forall_forall in Hp. apply Hp. by apply list_elem_of_In.
Qed.

Lemma index_loop_safe fuel end_ pos visited idx pending :
  end_ <= flen -> 0 <= pos -> (left_ end_ visited <= fuel)%nat -> index_ok (idx, pending) ->
  safe flen (index_loop env fuel end_ pos visited idx pending)
    (fun idx => forall p, first_cluster idx = Some p -> 0 <= p < 2 ^ 62).
Proof.
  intros Hend. revert pos visited idx pending.
  induction fuel as [|fuel IH]; intros pos visited idx pending Hpos Hf Hok; cbn [index_loop].
  all: destruct ((end_ <=? pos) || is_visited visited pos) eqn:Hdone; [apply safe_ret, Hok|].
  all: apply orb_false_iff in Hdone as [Hlt%Z.leb_gt Hnew%bool_decide_eq_false].
  all: pose proof (left_visit end_ pos visited ltac:(split; [lia|done])); try lia.
  eapply safe_bind with (P := data_ok).
  { eapply safe_attempt; [apply (read_at_safe env Hs); lia| |done]. by intros d (_ & H' & _). }
  intros [head|e] Hh; [|destruct Hh as [-> | ->]; apply safe_ret, Hok].
  destruct (element_head head pos) as [[[id body] [size|]]|e] eqn:He; try apply safe_ret, Hok.
  apply element_head_spec in He as [Hbody Hsize]; [|done]. specialize (Hsize size eq_refl).
  eapply safe_bind; [apply index_element_safe; (done || lia)|]. intros [idx' pending'] Hok'.
  destruct (index_next id (body + size) idx' pending' _) as [p|] eqn:Hn; [|apply safe_ret, Hok'].
  apply IH; [|lia|done]. apply index_next_ok in Hn; [done|lia|apply Hok'].
Qed.

Lemma mkv_read_index_safe :
  safe flen (mkv_read_index env) (fun idx => forall p, first_cluster idx = Some p -> 0 <= p < 2 ^ 62).
Proof.
  unfold mkv_read_index. eapply safe_bind with (P := eq flen); [by apply safe_len|].
  intros ? <-. eapply safe_bind. { apply (read_at_safe env Hs); lia. }
  intros head (_ & Hb & _). eapply safe_bind.
  { apply (element_safe flen head 0 (fun '(_, body, os) => 2 <= body <= 12
      /\ forall size, os = Some size -> 0 <= size < 2 ^ 56)); [done|naive_solver]. }
  intros [[i body] os] [Hbody Hsize]. destruct (negb _); [apply safe_fail; by right|].
  eapply safe_bind. { apply (safe_context flen os (fun s => 0 <= s < 2 ^ 56)). naive_solver. }
  intros hsize Hz. cbn beta in Hz. eapply safe_bind.
  { apply (header_safe env Hs flen (body + hsize) all_bytes); [lia|done]. }
  intros seg Hseg. cbn beta in Hseg. eapply safe_bind.
  { apply (element_safe flen seg (body + hsize)
      (fun '(_, start, _) => body + hsize + 2 <= start <= body + hsize + 12)); [done|naive_solver]. }
  intros [[i' start] os'] Hst. destruct (negb _); [apply safe_fail; by right|].
  apply index_loop_safe; [lia|lia| |].
  - pose proof (left_new (Z.min (default flen (os' ≫= checked_add start)) flen)). lia.
  - split_and!; [cbn; lia|constructor|done].
Qed.

(** ** Clusters *)

Lemma read_block_safe body size :
  0 <= body < 2 ^ 63 -> 0 <= size < 2 ^ 56 -> safe flen (read_at env body size) (fun _ => True).
Proof. intros Hb Hz. eapply safe_weaken; [apply (read_at_safe env Hs); lia|done]. Qed.

Lemma scan_safe data wanted : safe flen (lift (scan_cluster data wanted)) (fun _ => True).
Proof. apply safe_lift; [apply scan_benign|done]. Qed.

Lemma sparse_element_safe head hl id body size ts wanted out :
  0 <= body < 2 ^ 63 -> 0 <= size < 2 ^ 56 ->
  safe flen (sparse_element env head hl id body size ts wanted out) (fun _ => True).
Proof.
  intros Hb Hz. unfold sparse_element.
  destruct (id =? CLUSTER_TIMESTAMP).
  { destruct (_ <=? _); [by apply safe_ret|].
    eapply safe_bind; [by apply read_block_safe|]. intros v _. by apply safe_ret. }
  destruct (id =? SIMPLE_BLOCK).
  { destruct (peek_simple _ _); [|by apply safe_ret].
    eapply safe_bind; [by apply read_block_safe|]. intros v _. by apply safe_ret. }
  destruct (id =? BLOCK_GROUP); [|by apply safe_ret].
  destruct (peek_group _ _); [|by apply safe_ret].
  eapply safe_bind; [by apply read_block_safe|]. intros v _.
  eapply safe_bind; [apply scan_safe|]. intros tmp _. by apply safe_ret.
Qed.

Lemma sparse_loop_safe fuel p end_ ts wanted out :
  (1 <= fuel)%nat -> flen + 2 <= p + 2 * Z.of_nat fuel -> 0 <= p -> end_ < 2 ^ 63 ->
  safe flen (sparse_loop env fuel p end_ ts wanted out) (fun _ => True).
Proof.
  revert p ts out. induction fuel as [|fuel IH]; intros p ts out H1 Hf Hp He; [lia|].
  cbn [sparse_loop]. destruct (Z.leb_spec end_ p); [by apply safe_ret|].
  eapply safe_bind with (P := eq flen); [by apply safe_len|]. intros ? <-. cbv zeta.
  set (peek := Z.min (Z.min 48 (end_ - p)) (wrap 64 (flen - p))).
  assert (peek <= 48) as Hpk by lia. clearbody peek.
  destruct (Z.ltb_spec peek 2); [by apply safe_ret|].
  eapply safe_bind; [apply (read_at_safe env Hs); lia|]. intros head (_ & Hb & Hin).
  destruct (ebml_id head) as [[id il]|e] eqn:Hi; [|by apply safe_ret].
  destruct (ebml_size (drop il head)) as [[[size|] sl]|e] eqn:Hz; [|by apply safe_ret..].
  pose proof (ebml_id_length _ _ _ Hi). pose proof (ebml_size_length _ _ _ Hz).
  pose proof (ebml_id_small _ _ _ Hi). pose proof (ebml_size_small _ _ _ Hz).
  apply ebml_size_range in Hz; [|by apply Forall_drop].
  eapply safe_bind; [apply sparse_element_safe; lia|]. intros [ts' out'] _.
  apply IH; lia.
Qed.

Lemma cluster_safe body size wanted out :
  0 <= body -> body + size < 2 ^ 63 ->
  safe flen (walk_cluster_sparse env body size wanted out) (fun _ => True).
Proof.
  intros Hb Hz. unfold walk_cluster_sparse, file_fuel. eapply safe_bind.
  { eapply safe_bind; [by apply (safe_len flen (eq flen))|]. intros ? <-.
    by apply (safe_ret flen _ (eq (S (Z.to_nat flen)))). }
  intros ? <-. apply sparse_loop_safe; lia.
Qed.

Lemma header_walk_safe fuel pos wanted out :
  flen <= pos + Z.of_nat fuel -> 0 <= pos ->
  safe flen (header_walk env fuel pos wanted out) (fun _ => True).
Proof.
  revert pos out. induction fuel as [|fuel IH]; intros pos out Hf Hp; cbn [header_walk].
  all: eapply safe_bind with (P := eq flen); [by apply safe_len|]; intros ? <-; cbv zeta.
  all: destruct (Z.leb_spec flen pos); [by apply safe_ret|]; try lia.
  eapply safe_bind with (P := data_ok).
  { eapply safe_attempt; [apply (read_at_safe env Hs); lia| |done]. by intros d (_ & H' & _). }
  intros [head|e] Hh; [|by destruct Hh as [-> | ->]; apply safe_ret].
  destruct (element_head head pos) as [[[id body] [size|]]|e] eqn:He; try by apply safe_ret.
  apply element_head_spec in He as [Hbody Hsize]; [|done]. specialize (Hsize size eq_refl).
  eapply safe_bind with (P := fun _ => True).
  { destruct (id =? CLUSTER); [apply cluster_safe; lia|by apply safe_ret]. }
  intros out' _. apply IH; lia.
Qed.

Lemma collect_walk_safe idx wanted :
  is_exact idx = false -> (forall p, first_cluster idx = Some p -> 0 <= p < 2 ^ 62) ->
  safe flen (collect_blocks env idx wanted) (fun _ => True).
Proof.
  intros He Hc. unfold collect_blocks. rewrite He.
  destruct (first_cluster idx) as [p|]; [|by apply safe_ret]. specialize (Hc p eq_refl).
  unfold file_fuel. eapply safe_bind.
  { eapply safe_bind; [by apply (safe_len flen (eq flen))|]. intros ? <-.
    by apply (safe_ret flen _ (eq (S (Z.to_nat flen)))). }
  intros ? <-. eapply safe_bind; [apply header_walk_safe; lia|]. intros o _. by apply safe_ret.
Qed.
End Index.

(** ** Steps that end *)

Definition ends {A} (m : M A) : Prop := forall r, fst (m r) <> Err Diverges.

Lemma ends_ret {A} (a : A) : ends (ret a).
Proof. by intros r. Qed.
Lemma ends_bind {A B} (m : M A) (k : A -> M B) : ends m -> (forall a, ends (k a)) -> ends (bind m k).
Proof.
  intros Hm Hk r. specialize (Hm r). unfold bind. destruct (m r) as [[a|e] r']; [apply Hk|].
  cbn [fst] in *. congruence.
Qed.
Lemma ends_lift {A} (x : result Error A) : (forall e, x = Err e -> benign e) -> ends (lift x).
Proof. intros H r. unfold lift. cbn. intros ->. destruct (H _ eq_refl); done. Qed.
Lemma ends_context {A} (o : option A) : ends (context o).
Proof. apply ends_lift. destruct o; [done|]. intros e [= <-]. by right. Qed.

Section Exact.
Context (env : Env) (Hs : sane env).

Lemma fill_ends fuel off want got :
  want <= len got + Z.of_nat fuel -> fill env fuel off want got <> Err Diverges.
Proof.
  revert got. induction fuel as [|fuel IH]; intros got Hf; cbn [fill];
    (destruct (Z.leb_spec want (len got)); [done|]); [lia|].
  destruct (src_read env _ _) as [[|b bs]|]; [done| |done].
  apply IH. rewrite len_app. unfold len at 2. cbn [length]. lia.
Qed.

Lemma read_at_ends off n : ends (read_at env off n).
Proof.
  intros r. unfold read_at. destruct (weather env (reads r)) as [e|] eqn:He.
  { cbn [fst]. apply (sane_weather env Hs) in He as [-> | ->]; done. }
  destruct (in_window _ _ _).
  { by destruct (_ <? _). }
  set (want := want_bytes _ _ _). destruct (want <? n); [done|].
  pose proof (fill_ends (Z.to_nat want) off want [] ltac:(change (len []) with 0; lia)) as Hf.
  destruct (fill env (Z.to_nat want) off want []) as [d|e]; cbn [rbind].
  - by destruct (_ <? _).
  - cbn [fst]. congruence.
Qed.

Lemma head_ends head pos : ends (lift (element_head head pos)).
Proof. apply ends_lift. intros e H. right. by eapply element_head_shape. Qed.

Lemma exact_cues_ends start wanted cues s : ends (exact_cues env start wanted cues s).
Proof.
  revert s. induction cues as [|[[[t c] rel] trk] cues IH]; intros s; [apply ends_ret|].
  cbn [exact_cues]. apply ends_bind; [|done]. destruct s as [blocks cache]. unfold exact_cue.
  apply ends_bind; [apply ends_context|]. intros cluster_pos. apply ends_bind.
  { unfold cluster_time. destruct (cache !! cluster_pos); [apply ends_ret|].
    apply ends_bind; [apply read_at_ends|]. intros head. apply ends_bind; [apply head_ends|].
    intros [[id hl] os]. by destruct (negb _). }
  intros [ts cache']. apply ends_bind; [apply read_at_ends|]. intros head.
  apply ends_bind; [apply head_ends|]. intros [[id at_] os]. apply ends_bind; [apply ends_context|].
  intros block_at. apply ends_bind; [apply read_at_ends|]. intros bh. apply ends_bind; [apply head_ends|].
  intros [[bid body_at] bsize]. apply ends_bind; [apply ends_context|]. intros size.
  apply ends_bind; [apply read_at_ends|]. intros body. apply ends_bind; [|intros; apply ends_ret].
  destruct (_ || _); [|apply ends_ret]. apply ends_lift, scan_benign.
Qed.
End Exact.

(** Extracting the subtitles of a Matroska file, text or image, ends on any
    bytes from any source, cyclic indexes and overlapping elements included;
    and it can only panic in the pass that trusts the offsets of exact cues. *)
Theorem extract_ends env inflate flen image r :
  sane env -> 0 <= flen < 2 ^ 62 -> rwf flen r ->
  fst (mkv_walk env inflate image r) <> Err Diverges
  /\ (fst (mkv_walk env inflate image r) = Err Panic ->
     exists idx, fst (mkv_read_index env r) = Ok idx /\ is_exact idx = true).
Proof.
  intros Hs Hf Hr. unfold mkv_walk. unfold bind at 1 3.
  pose proof (mkv_read_index_safe env Hs flen Hf r Hr) as [Hr' Hidx].
  destruct (mkv_read_index env r) as [[idx|e] r'] eqn:Hi; cbn [fst snd] in *.
  2:{ destruct Hidx as [-> | ->]; by split. }
  destruct (_ || _); [by split|]. unfold bind at 1 2.
  destruct (is_exact idx) eqn:He.
  - split; [|by exists idx]. unfold collect_blocks. rewrite He.
    pose proof (ends_bind _ (fun s => ret (Some (fst s)))
      (exact_cues_ends env Hs (segment_start idx) (wanted_tracks idx image) (sub_cues idx) ([], ∅))
      (fun _ => ends_ret _) r') as Hn.
    destruct (bind _ _ r') as [[[b|]|e] r'']; cbn [fst] in *; [by destruct image|done|congruence].
  - pose proof (collect_walk_safe env Hs flen Hf idx (wanted_tracks idx image) He Hidx r' Hr') as [_ Hc].
    destruct (collect_blocks env idx (wanted_tracks idx image) r') as [[[b|]|e] r'']; cbn [fst] in *.
    + by destruct image.
    + done.
    + destruct Hc as [-> | ->]; by split.
Qed.

Lemma extract_ends_witness :
  fst (mkv_walk (file_env 9 film) stored None (reader_new (len film))) <> Err Diverges
  /\ (fst (mkv_walk (file_env 9 film) stored None (reader_new (len film))) = Err Panic ->
     exists idx, fst (mkv_read_index (file_env 9 film) (reader_new (len film))) = Ok idx
       /\ is_exact idx = true).
Proof.
  apply (extract_ends _ _ (len film)).
  - apply file_env_sane; [lia|]. vm_compute. repeat constructor; discriminate.
  - split; [vm_compute; discriminate|vm_compute; reflexivity].
  - apply reader_new_wf.
Defined.

(** ** Concrete runs *)

Definition extract (chunk : Z) (data : bytes) : result Error (list (nat * Extracted)) :=
  fst (mkv_extract (file_env chunk data) stored (reader_new (len data))).

(** The header walk over a film and the exact pass over the same film with a
    cue for its first subtitle. *)
Example film_extracted :
  extract 50 film = Ok [(0%nat, mkExtracted [mkCue 1020 1520 "hello"; mkCue 1600 2300 "bye"] None)]
  /\ extract 50 (cued_film 146 124) = Ok [(0%nat, mkExtracted [mkCue 1020 1520 "hello"] None)].
Proof. vm_compute. split; reflexivity. Qed.

(** A cue whose cluster lies near 2^64: the sum with the segment's start is
    checked, the end of the read is not. It wraps into the window, and the
    slice of the window panics. *)
Theorem hostile_cue_panics : extract 50 (cued_film (2 ^ 64 - 60) 0) = Err Panic.
Proof. vm_compute. reflexivity. Qed.

(** A film cut inside the payload of a video block, past its first subtitle:
    the bytes left of the file are computed as [r.len - p] with [p] past the
    end; the read that follows fails and what was found goes with it. *)
Theorem cut_film_loses_found :
  extract 50 (take (length film - 60) film) = Err Shape.
Proof. vm_compute. reflexivity. Qed.

(** A film with one image track, and a walk that its permit stops at the second
    read: the walk's error becomes "no image track". *)
Definition image_film : bytes :=
  mkv_file [(TRACKS, elements [(TRACK_ENTRY, elements [(TRACK_NUMBER, encode_uint 2);
      (TRACK_TYPE, [SUBTITLE_TYPE]); (CODEC_ID, ascii_bytes "S_HDMV/PGS")])]);
    (CLUSTER, elements talking_cluster)].
Definition stopped_at (n : nat) (data : bytes) : Env :=
  mkEnv (src_read (file_env 50 data)) (fun i => if (n <=? i)%nat then Some Io else None).
Definition found_image (x : result Error (option ImageTrack)) : result Error (option nat) :=
  match x with Ok o => Ok (length ∘ im_blocks <$> o) | Err e => Err e end.
Theorem interrupted_walk_answers :
  let r := reader_new (len image_film) in
  found_image (fst (extract_image_track (file_env 50 image_film) stored 0 r)) = Ok (Some 2%nat)
  /\ found_image (fst (extract_image_track (stopped_at 2 image_film) stored 0 r)) = Ok None.
Proof. vm_compute. split; reflexivity. Qed.
