(* ===== verification/ChapterTheorems.v ===== *)
(** * Chapters, as the container declares them

    The sort and the merge of twins at the end of [read_chapters], whatever the
    editions held. *)
From S2P Require Import Prelude Media Utf8 Ebml EbmlTheorems Subtitles Subindex.

#[local] Open Scope Z_scope.

(** What a chapter says, less its end. *)
Definition says (c c' : Chapter) : Prop :=
  start_ms c' = start_ms c /\ (title c = None \/ title c' = title c).
(** Two neighbours that are not one chapter. *)
Definition apart (a b : Chapter) : Prop :=
  start_ms a < start_ms b
  \/ start_ms a = start_ms b /\ exists t t', title a = Some t /\ title b = Some t' /\ t <> t'.

Lemma says_refl c : says c c.
Proof. split; [done|by right]. Qed.
Lemma says_trans a b c : says a b -> says b c -> says a c.
Proof.
  intros [H1 H2] [H3 H4]. split; [congruence|]. destruct H2 as [H2|H2]; [by left|].
  destruct H4 as [H4|H4]; [left|right]; congruence.
Qed.

Lemma same_chapter_says kept next c :
  same_chapter kept next = Some c -> says kept c /\ says next c.
Proof.
  unfold same_chapter. destruct (Z.eqb_spec (start_ms next) (start_ms kept)) as [He|]; [|done]. cbn [negb].
  destruct (title kept) as [t|] eqn:Hk.
  - destruct (title next) as [t'|] eqn:Hn.
    + destruct (String.eqb_spec t' t) as [->|]; [|done]. intros [= <-].
      split; split; cbn; auto; right; congruence.
    + intros [= <-]. split; split; cbn; auto.
  - intros [= <-]. split; split; cbn; auto.
Qed.
Lemma same_chapter_none kept next :
  start_ms kept <= start_ms next -> same_chapter kept next = None -> apart kept next.
Proof.
  intros Hle. unfold same_chapter. destruct (Z.eqb_spec (start_ms next) (start_ms kept)) as [He|Hne]; cbn [negb].
  - destruct (title kept) as [t|] eqn:Hk; [|done]. destruct (title next) as [t'|] eqn:Hn; [|done].
    destruct (String.eqb_spec t' t) as [->|]; [done|]. intros _. right. split; [done|]. eauto.
  - intros _. left. lia.
Qed.

(** The first of a merge says what the survivor it starts from says. *)
Lemma dedup_from_head kept l : exists c l', dedup_from kept l = c :: l' /\ says kept c.
Proof.
  revert kept. induction l as [|next l IH]; intros kept; simpl; [eauto using says_refl|].
  destruct (same_chapter kept next) as [c|] eqn:Hs; [|eauto using says_refl].
  destruct (IH c) as (c' & l' & He & Hc). exists c', l'. split; [done|].
  apply same_chapter_says in Hs as [Hk _]. by eapply says_trans.
Qed.

Lemma apart_says a b b' : apart a b -> says b b' -> apart a b'.
Proof.
  intros [H|(He & t & t' & Ha & Hb & Hn)] [Hs Ht]; [left; lia|]. right. split; [lia|].
  destruct Ht as [Ht|Ht]; [congruence|]. exists t, t'. split_and!; [done|congruence|done].
Qed.

Definition start_le (a b : Chapter) : Prop := start_ms a <= start_ms b.

Lemma dedup_from_apart kept l :
  Sorted start_le (kept :: l) -> Sorted apart (dedup_from kept l).
Proof.
  revert kept. induction l as [|next l IH]; intros kept Hs; simpl; [repeat constructor|].
  inversion Hs as [|? ? Hs' Hr]; subst. inversion Hr as [|? ? Hle]; subst. unfold start_le in Hle.
  destruct (same_chapter kept next) as [c|] eqn:Hc.
  - apply IH. apply same_chapter_says in Hc as [_ [Hst _]]. inversion Hs' as [|? ? Hl Hh]; subst.
    constructor; [done|]. destruct Hh; constructor; unfold start_le in *; lia.
  - constructor; [by apply IH|]. destruct (dedup_from_head next l) as (c & l' & -> & Hsay).
    constructor. eapply apart_says; [|done]. by apply same_chapter_none.
Qed.

Lemma dedup_from_keeps kept l c : c ∈ kept :: l -> exists c', c' ∈ dedup_from kept l /\ says c c'.
Proof.
  revert kept c. induction l as [|next l IH]; intros kept c Hin; simpl.
  - apply list_elem_of_singleton in Hin as ->. exists kept. split; [left|apply says_refl].
  - destruct (same_chapter kept next) as [k|] eqn:Hs.
    + apply same_chapter_says in Hs as [Hk Hn].
      assert (exists d, d ∈ k :: l /\ says c d) as (d & Hd & Hcd).
      { apply elem_of_cons in Hin as [->|[->|Hin]%elem_of_cons].
        - exists k. split; [left|done].
        - exists k. split; [left|done].
        - exists c. split; [by right|apply says_refl]. }
      destruct (IH k d Hd) as (c' & H1 & H2). exists c'. split; [done|by eapply says_trans].
    + apply elem_of_cons in Hin as [->|Hin].
      * exists kept. split; [left|apply says_refl].
      * destruct (IH next c Hin) as (c' & H1 & H2). exists c'. split; [by right|done].
Qed.

(** A merged chapter is one of the list's, but for its end, which is some twin's. *)
Lemma dedup_from_source kept l c :
  c ∈ dedup_from kept l ->
  exists k, k ∈ kept :: l /\ start_ms c = start_ms k /\ title c = title k
    /\ exists k', k' ∈ kept :: l /\ start_ms k' = start_ms k /\ end_ms c = end_ms k'.
Proof.
  revert kept. induction l as [|next l IH]; intros kept Hin; simpl in Hin.
  - apply list_elem_of_singleton in Hin as ->. exists kept. split_and!; [left|done|done|].
    exists kept. split_and!; [left|done|done].
  - destruct (same_chapter kept next) as [m|] eqn:Hs.
    + assert (Hm : exists k, k ∈ [kept; next] /\ start_ms m = start_ms k /\ title m = title k
        /\ start_ms kept = start_ms next /\ exists e, e ∈ [kept; next] /\ end_ms m = end_ms e).
      { unfold same_chapter in Hs.
        destruct (Z.eqb_spec (start_ms next) (start_ms kept)) as [He|]; [cbn [negb] in Hs|done].
        assert (m = keep_end kept next \/ m = keep_end next kept) as [-> | ->].
        { repeat case_match; simplify_eq; auto. }
        - exists kept. split_and!; [left|done|done|done|].
          destruct (end_ms kept) as [e|] eqn:Hk; [exists kept|exists next]; cbn; rewrite Hk;
            (split; [set_solver|done]).
        - exists next. split_and!; [right; left|done|done|done|].
          destruct (end_ms next) as [e|] eqn:Hk; [exists next|exists kept]; cbn; rewrite Hk;
            (split; [set_solver|done]). }
      destruct Hm as (k0 & Hk0 & Hst0 & Ht0 & Hkn & e0 & He0 & Hen0).
      assert (Hsub : forall x, x ∈ [kept; next] -> x ∈ kept :: next :: l) by set_solver.
      assert (Hstart : forall x, x ∈ [kept; next] -> start_ms x = start_ms kept) by set_solver.
      destruct (IH m Hin) as (k & Hk & Hst & Ht & k' & Hk' & Hst' & Hen).
      assert (forall x, x ∈ m :: l -> exists y, y ∈ kept :: next :: l /\ start_ms y = start_ms x
        /\ (title y = title x)) as Hback.
      { intros x [->|Hx]%elem_of_cons; [exists k0; auto|]. exists x. set_solver. }
      destruct (Hback k Hk) as (y & Hy & Hsy & Hty). exists y. split_and!; [done|congruence|congruence|].
      apply elem_of_cons in Hk' as [->|Hk'].
      * exists e0. split_and!; [auto| |congruence].
        rewrite Hsy, <- Hst', Hst0, (Hstart k0), (Hstart e0) by done. done.
      * exists k'. split_and!; [set_solver|congruence|done].
    + apply elem_of_cons in Hin as [->|Hin].
      * exists kept. split_and!; [left|done|done|]. exists kept. split_and!; [left|done|done].
      * destruct (IH next Hin) as (k & Hk & Hst & Ht & k' & Hk' & Hst' & Hen).
        exists k. split_and!; [by right|done|done|]. exists k'. split_and!; [by right|done|done].
Qed.

Lemma by_start_sorted l : Sorted start_le (sort_by by_start l).
Proof.
  apply StronglySorted_Sorted.
  assert (StronglySorted (cmp_le by_start) (sort_by by_start l)) as H.
  { apply (sort_by_sorted by_start (fun _ => True)).
    - unfold by_start. intros a b _ _. destruct (Z.compare_spec (start_ms a) (start_ms b)),
        (Z.compare_spec (start_ms b) (start_ms a)); try done; lia.
    - unfold cmp_le, by_start. intros a b c _ _ _.
      destruct (Z.compare_spec (start_ms a) (start_ms b)), (Z.compare_spec (start_ms b) (start_ms c)),
        (Z.compare_spec (start_ms a) (start_ms c)); try done; lia.
    - by apply Forall_true. }
  induction H as [|c l' Hl IH Hf]; constructor; [done|]. eapply Forall_impl; [done|].
  intros x. unfold cmp_le, by_start, start_le. by destruct (Z.compare_spec (start_ms c) (start_ms x)); try lia.
Qed.

(** The chapters declared are in order of their starts, no two neighbours
    are one chapter (they start apart or bear different titles), every chapter
    the chosen edition holds is there under its start and its title, or under a
    titled twin's where it had none, and each says what one of them says, with
    the end one of its twins states. *)
Theorem chapters_merged data out :
  read_chapters data = Ok out ->
  exists found default,
    walk_children read_edition data ([], false) = ((found, default), Ok tt)
    /\ Sorted apart out
    /\ (forall c, c ∈ found -> exists c', c' ∈ out /\ says c c')
    /\ (forall c, c ∈ out -> exists k, k ∈ found /\ start_ms c = start_ms k /\ title c = title k
          /\ exists k', k' ∈ found /\ start_ms k' = start_ms k /\ end_ms c = end_ms k').
Proof.
  unfold read_chapters. destruct (walk_children read_edition data ([], false)) as [[found d] [[]|e]] eqn:Hw;
    [|done]. cbn [checked rbind fst]. intros [= <-]. exists found, d. split; [done|].
  pose proof (by_start_sorted found) as Hs. pose proof (sort_by_perm by_start found) as Hp.
  unfold dedup_chapters. destruct (sort_by by_start found) as [|k l].
  { apply Permutation_nil_l in Hp. subst found. split_and!; [constructor|set_solver..]. }
  split_and!; [by apply dedup_from_apart| |].
  - intros c Hc. apply dedup_from_keeps. by rewrite Hp.
  - intros c Hc. destruct (dedup_from_source k l c Hc) as (x & Hx & H1 & H2 & y & Hy & H3).
    rewrite Hp in Hx, Hy. eauto 10.
Qed.

Definition twins : bytes := snd (chapters_of [(500000000, "Part A"%string); (0, "Intro"%string);
  (0, "Feature"%string); (0, "Feature"%string)]).
Definition said (start : Z) (t : string) : Chapter := mkChapter start None (Some t).

Lemma chapters_merged_witness :
  exists found default,
    walk_children read_edition twins ([], false) = ((found, default), Ok tt)
    /\ Sorted apart [said 0 "Intro"; said 0 "Feature"; said 500 "Part A"]
    /\ (forall c, c ∈ found -> exists c', c' ∈ [said 0 "Intro"; said 0 "Feature"; said 500 "Part A"] /\ says c c')
    /\ (forall c, c ∈ [said 0 "Intro"; said 0 "Feature"; said 500 "Part A"] ->
          exists k, k ∈ found /\ start_ms c = start_ms k /\ title c = title k
          /\ exists k', k' ∈ found /\ start_ms k' = start_ms k /\ end_ms c = end_ms k').
Proof. apply (chapters_merged twins). vm_compute. reflexivity. Defined.

(** Three atoms on one start, the first and the last of one title: the merge
    compares neighbours only, and both of the twins stay. *)
Theorem parted_twins_stay :
  read_chapters (snd (chapters_of [(0, "Intro"%string); (0, "Feature"%string); (0, "Intro"%string)]))
  = Ok [said 0 "Intro"; said 0 "Feature"; said 0 "Intro"].
Proof. vm_compute. reflexivity. Qed.
