(* ===== verification/Mp4.v ===== *)
(** * MP4 text tracks, and the choice of container (kahawai-media, src/subindex.rs)

    Boxes, sample tables and the tx3g cues of a file, read through the reader
    of [Subindex]. Sizes are the file's own 64-bit claims and are added to
    offsets unchecked, so the sums are written with their wrap and a slice out
    of range is [Panic]. Allocation is not modelled. *)
From S2P Require Import Prelude Media Utf8 Ebml Subtitles Subindex.

#[local] Open Scope Z_scope.

Definition be (l : bytes) : Z := uint l.
(** [slice[a..b]], which panics out of range, and [slice.get(a..b)]. *)
Definition get_range (a b : Z) (l : bytes) : option bytes :=
  if (a <=? b) && (b <=? len l) then Some (slice a (b - a) l) else None.
Definition index_range (a b : Z) (l : bytes) : result Error bytes := ok_or (get_range a b l) Panic.

(** A four-character code. *)
Definition kind (s : string) : bytes := bytes_of_string s.
Definition is_kind (k : bytes) (s : string) : bool := bool_decide (k = kind s).

Section Boxes.
Context {S : Type} (f : bytes -> bytes -> S -> S * result Error unit).

(** [walk_boxes] from [pos]. A turn that does not fail moves forward by a box
    header at least, so the length is fuel enough ([walk_boxes_ends]). *)
Fixpoint boxes_from (fuel : nat) (data : bytes) (pos : Z) (s : S) : S * result Error unit :=
  if len data <? pos + 8 then (s, Ok tt)
  else
    match fuel with
    | O => (s, Err Diverges)
    | Datatypes.S fuel =>
        let size32 := be (slice pos 4 data) in
        let k := slice (pos + 4) 4 data in
        if (size32 =? 1) && (len data <? pos + 16) then (s, Ok tt)
        else
          let '(size, hdr) :=
            if size32 =? 1 then (be (slice (pos + 8) 8 data), 16)
            else if size32 =? 0 then (len data - pos, 8)
            else (size32, 8) in
          let stop := wrap 64 (pos + size) in
          if (size <? hdr) || (len data <? stop) then (s, Ok tt)
          else
            match index_range (pos + hdr) stop data with
            | Err e => (s, Err e)
            | Ok body =>
                match f k body s with
                | (s, Err e) => (s, Err e)
                | (s, Ok _) => boxes_from fuel data stop s
                end
            end
    end.
Definition walk_boxes (data : bytes) (s : S) : S * result Error unit :=
  boxes_from (length data) data 0 s.
End Boxes.

(** [find_box]: its walk's errors are dropped, a panic is not. *)
Definition find_box (data : bytes) (k : string) : result Error (option bytes) :=
  match walk_boxes (fun kind body found =>
          (if is_kind kind k && is_none found then Some body else found, Ok tt)) data None with
  | (found, Ok _) | (found, Err Io) | (found, Err Shape) => Ok found
  | (_, Err e) => Err e
  end.

(** ** Sample tables *)

Definition u32_at (off : Z) (l : bytes) : option Z := be <$> get_range off (off + 4) l.
Definition u64_at (off : Z) (l : bytes) : option Z := be <$> get_range off (off + 8) l.

(** One entry of stts: [cnt] samples of [delta] ticks from [t]. *)
Fixpoint stts_run (cnt : nat) (t delta timescale : Z) : list (Z * Z) * Z :=
  match cnt with
  | O => ([], t)
  | S cnt =>
      let '(rest, t') := stts_run cnt (wrap 64 (t + delta)) delta timescale in
      ((wrap 64 (t * 1000) / Z.max timescale 1, wrap 64 (delta * 1000) / Z.max timescale 1) :: rest, t')
  end.
Fixpoint stts_entries (n : nat) (base : Z) (t timescale : Z) (stts : bytes) : option (list (Z * Z)) :=
  match n with
  | O => Some []
  | S n =>
      cnt ← u32_at base stts;
      delta ← u32_at (base + 4) stts;
      let '(now, t) := stts_run (Z.to_nat cnt) t delta timescale in
      later ← stts_entries n (base + 8) t timescale stts;
      Some (now ++ later)
  end.

Definition sample_size (uniform : Z) (stsz : bytes) (i : Z) : option Z :=
  if negb (uniform =? 0) then Some uniform else u32_at (12 + i * 4) stsz.
Definition chunk_offset (co64 : bool) (offsets : bytes) (i : Z) : option Z :=
  if co64 then u64_at (8 + i * 8) offsets else u32_at (8 + i * 4) offsets.
(** (first chunk, samples per chunk). *)
Definition stsc_entry (stsc : bytes) (i : Z) : option (Z * Z) :=
  let base := 8 + i * 12 in
  first ← u32_at base stsc; per ← u32_at (base + 4) stsc; Some (first, per).

(** The entry in force for [chunk], from [entry] on. *)
Fixpoint advance_entry (fuel : nat) (stsc : bytes) (n_entries chunk entry : Z) : Z :=
  match fuel with
  | O => entry
  | S fuel =>
      if (entry + 1 <? n_entries)
         && is_some_and (fun e => fst e <=? chunk + 1) (stsc_entry stsc (entry + 1))
      then advance_entry fuel stsc n_entries chunk (entry + 1)
      else entry
  end.

Record Sample := mkSample { s_off : Z; s_size : Z; s_start : Z; s_dur : Z }.

(** The samples of one chunk: the rest of [times] with their indices. *)
Fixpoint chunk_samples (per : nat) (off sample count : Z) (times : list (Z * Z))
    (size_of : Z -> option Z) : option (list Sample * Z * list (Z * Z)) :=
  match per, times with
  | S per, (start, dur) :: times' =>
      if count <=? sample then Some ([], sample, times)
      else
        size ← size_of sample;
        '(rest, sample', times'') ←
          chunk_samples per (wrap 64 (off + size)) (sample + 1) count times' size_of;
        Some (mkSample off size start dur :: rest, sample', times'')
  | _, _ => Some ([], sample, times)
  end.

Fixpoint chunks_from (n : nat) (chunk entry sample n_entries count : Z) (co64 : bool)
    (stsc offsets : bytes) (times : list (Z * Z)) (size_of : Z -> option Z) :
    option (list Sample) :=
  match n with
  | O => Some []
  | S n =>
      let entry := advance_entry (Z.to_nat n_entries) stsc n_entries chunk entry in
      '(_, per) ← stsc_entry stsc entry;
      off ← chunk_offset co64 offsets chunk;
      '(now, sample, times) ← chunk_samples (Z.to_nat per) off sample count times size_of;
      later ← chunks_from n (chunk + 1) entry sample n_entries count co64 stsc offsets times size_of;
      Some (now ++ later)
  end.

(** The table once its boxes are found. *)
Definition sample_table (stts stsz stsc offsets : bytes) (co64 : bool) (timescale : Z) :
    option (list Sample) :=
  uniform ← u32_at 4 stsz;
  count ← u32_at 8 stsz;
  n ← u32_at 4 stts;
  times ← stts_entries (Z.to_nat n) 8 0 timescale stts;
  n_entries ← u32_at 4 stsc;
  nchunks ← u32_at 4 offsets;
  chunks_from (Z.to_nat nchunks) 0 0 0 n_entries count co64 stsc offsets times
    (sample_size uniform stsz).

Definition find_offsets (stbl : bytes) : result Error (option (bool * bytes)) :=
  let? co64 := find_box stbl "co64" in
  match co64 with
  | Some b => Ok (Some (true, b))
  | None => let? stco := find_box stbl "stco" in Ok ((fun b => (false, b)) <$> stco)
  end.

Definition mp4_sample_table (stbl : bytes) (timescale : Z) : result Error (option (list Sample)) :=
  let? stts := find_box stbl "stts" in
  let? stsz := find_box stbl "stsz" in
  let? stsc := find_box stbl "stsc" in
  let? offsets := find_offsets stbl in
  Ok (stts ← stts; stsz ← stsz; stsc ← stsc; '(co64, offsets) ← offsets;
      sample_table stts stsz stsc offsets co64 timescale).

(** ** Tracks *)

(** The timescale of an mdhd body; its slices are unchecked. *)
Definition mdhd_timescale (mdhd : bytes) : result Error Z :=
  match mdhd with
  | [] => Err Panic
  | v :: _ => let? b := (if v =? 1 then index_range 20 24 mdhd else index_range 12 16 mdhd) in Ok (be b)
  end.

Definition SUB_HANDLERS : list string := ["text"; "sbtl"; "subt"]%string.
Definition TEXT_FORMATS : list string := ["tx3g"; "text"]%string.

(** A trak body up to its sample table: [None] when it is not a subtitle track
    (and takes no index), [Some None] when nothing can be read of it. *)
Definition trak_table (body : bytes) : result Error (option (option (list Sample))) :=
  let? mdia := find_box body "mdia" in
  match mdia with
  | None => Ok None
  | Some mdia =>
      let? hdlr := find_box mdia "hdlr" in
      match hdlr ≫= get_range 8 12 with
      | None => Ok None
      | Some handler =>
          if negb (existsb (is_kind handler) SUB_HANDLERS) then Ok None
          else
            let? mdhd := find_box mdia "mdhd" in
            match mdhd with
            | None => Ok (Some None)
            | Some mdhd =>
                let? timescale := mdhd_timescale mdhd in
                let? minf := find_box mdia "minf" in
                match minf with
                | None => Ok (Some None)
                | Some minf =>
                    let? stbl := find_box minf "stbl" in
                    match stbl with
                    | None => Ok (Some None)
                    | Some stbl =>
                        let? stsd := find_box stbl "stsd" in
                        let format := default [] (stsd ≫= get_range 12 16) in
                        if negb (existsb (is_kind format) TEXT_FORMATS) then Ok (Some None)
                        else let? t := mp4_sample_table stbl timescale in Ok (Some t)
                    end
                end
            end
      end
  end.

Section Extract.
Context (env : Env).

(** One sample: a two-byte length, then text. A read that fails is skipped. *)
Definition sample_cue (s : Sample) : M (list Cue) :=
  if negb ((2 <=? s_size s) && (s_size s <=? 1048576)) then ret []
  else
    let! data := attempt (read_at env (s_off s) (s_size s)) in
    match data with
    | Err Io | Err Shape => ret []
    | Err e => fail e
    | Ok data =>
        let tlen := be (take 2 data) in
        if (tlen =? 0) || (len data <? 2 + tlen) then ret []
        else ret (push_cue (s_start s) (s_start s + Z.max (s_dur s) 1)
                    (clean_cue_text (decode_text (slice 2 tlen data))))
    end.
Fixpoint sample_cues (l : list Sample) : M (list Cue) :=
  match l with
  | [] => ret []
  | s :: l => let! c := sample_cue s in let! cs := sample_cues l in ret (c ++ cs)
  end.

(** The traks of a moov in order, with their bodies. *)
Definition traks (moov : bytes) : list bytes * result Error unit :=
  walk_boxes (fun k body l => ((if is_kind k "trak" then l ++ [body] else l), Ok tt)) moov [].

Fixpoint trak_cues (sub_seen : nat) (l : list bytes) : M (list (nat * Extracted)) :=
  match l with
  | [] => ret []
  | body :: l =>
      let! t := lift (trak_table body) in
      match t with
      | None => trak_cues sub_seen l
      | Some None => trak_cues (S sub_seen) l
      | Some (Some samples) =>
          let! cs := sample_cues samples in
          let! out := trak_cues (S sub_seen) l in
          ret ((sub_seen, mkExtracted (sort_by by_cue_start cs) None) :: out)
      end
  end.

(** The top level, to the moov box; [bad] is what a size below its header is
    worth. [pos += size] wraps. *)
Fixpoint find_moov (bad : M (option bytes)) (fuel : nat) (pos : Z) : M (option bytes) :=
  let! flen := get_len in
  if flen <? wrap 64 (pos + 8) then ret None
  else
    match fuel with
    | O => fail Diverges
    | S fuel =>
        let! head := read_at env pos 16 in
        let size32 := be (take 4 head) in
        let '(size, hdr) :=
          if size32 =? 1 then (be (slice 8 8 head), 16)
          else if size32 =? 0 then (flen - pos, 8)
          else (size32, 8) in
        if size <? hdr then bad
        else if is_kind (slice 4 4 head) "moov" then
          let! moov := read_at env (pos + hdr) (size - hdr) in ret (Some moov)
        else find_moov bad fuel (wrap 64 (pos + size))
    end.

Definition mp4_extract (fuel : nat) : M (list (nat * Extracted)) :=
  let! moov := find_moov (fail Shape) fuel 0 in
  let! moov := context moov in
  let '(l, r) := traks moov in
  let! out := trak_cues 0 l in
  let! _ := lift r in
  ret out.

(** [extract_sparse] on an opened source: by the magic number; a failed parse
    is no answer. *)
Definition or_nothing {A} (m : M A) : M (option A) :=
  let! a := attempt m in
  match a with
  | Ok a => ret (Some a)
  | Err Panic => fail Panic
  | Err Diverges => fail Diverges
  | Err _ => ret None
  end.
Definition extract_sparse (inflate : bytes -> option bytes) (magic : option bytes) (fuel : nat) :
    M (option (list (nat * Extracted))) :=
  match magic with
  | None => ret None
  | Some magic =>
      if bool_decide (take 4 magic = [0x1A; 0x45; 0xDF; 0xA3]) then or_nothing (mkv_extract env inflate)
      else if is_kind (slice 4 4 magic) "ftyp" then or_nothing (mp4_extract fuel)
      else ret None
  end.
End Extract.
