(* ===== verification/Keyframes.v ===== *)
(** * The longest gap between keyframes (kahawai-media, src/subindex.rs)

    Read from a container's own index: the Cues of a Matroska file, the stss and
    stts of an MP4, the idx1 of an AVI. It bounds the segments of a stream
    copy. Sums and products are written with their wrap; a slice out of range
    is [Panic]. *)
From Stdlib Require Import SpecFloat.
From S2P Require Import Prelude Floats Media Utf8 Text Ebml Subtitles Subindex Mp4.

#[local] Open Scope Z_scope.

(** ** The gap of a timeline *)

(** [windows(2)], each through [g]. *)
Fixpoint adjacent {A} (g : Z -> Z -> A) (l : list Z) : list A :=
  match l with
  | [] => []
  | a :: l' => match l' with [] => [] | b :: _ => g a b :: adjacent g l' end
  end.

Definition gap_ms (times : list Z) (to_ms : Z -> Z) : option Z :=
  match times with
  | _ :: _ :: _ =>
      let sorted := sort_by Z.compare times in
      let gaps := adjacent (fun a b => wrap 64 (to_ms b - to_ms a)) sorted in
      Some (Z.min (default 0 (max_of gaps)) u32_max)
  | _ => None
  end.

(** ** Matroska *)

Record Gap := mkGap {
  g_scale : Z;
  g_video : option Z;
  g_cues : option (Z * Z);
  g_pending : list Z;
  g_saw_seekhead : bool;
}.
Definition gap_new : Gap := mkGap 1000000 None None [] false.

Definition number_and_type (id : Z) (v : bytes) (s : option Z * Z) : option Z * Z :=
  let '(num, ttype) := s in
  if id =? TRACK_NUMBER then (Some (uint v), ttype)
  else if id =? TRACK_TYPE then (num, uint v)
  else s.
Definition video_entry (id : Z) (entry : bytes) (video : option Z) : option Z * result Error bool :=
  if negb (id =? TRACK_ENTRY) then (video, Ok true)
  else
    match walk_children (visit number_and_type) entry (None, 0) with
    | (_, Err e) => (video, Err e)
    | ((num, ttype), Ok _) =>
        (if (ttype =? 1) && is_none video then num else video, Ok true)
    end.

Definition GAP_TARGETS : list Z := [CUES; TRACKS; INFO].

(** What an element adds. *)
Definition gap_element (env : Env) (segment_start id body size : Z) (s : Gap) : M Gap :=
  let '(mkGap scale video cues pending saw) := s in
  if id =? SEEK_HEAD then
    let! data := read_at env body size in
    let! p := lift (checked (walk_children (seek_entry GAP_TARGETS segment_start) data pending)) in
    ret (mkGap scale video cues p true)
  else if id =? INFO then
    let! data := read_at env body size in
    let! scale := lift (checked (walk_children (visit info_field) data scale)) in
    ret (mkGap scale video cues pending saw)
  else if id =? TRACKS then
    let! data := read_at env body size in
    let! video := lift (checked (walk_children video_entry data video)) in
    ret (mkGap scale video cues pending saw)
  else if id =? CUES then ret (mkGap scale video (Some (body, size)) pending saw)
  else ret s.

Definition gap_done (id : Z) (s : Gap) : bool :=
  ((id =? CLUSTER) && g_saw_seekhead s && is_empty_list (g_pending s))
  || (is_some (g_cues s) && is_some (g_video s)).
Definition gap_next (linear : Z) (s : Gap) (visited : gset Z) : Z :=
  default linear (List.find (fun p => negb (is_visited visited p)) (g_pending s)).

(** A position is visited once, so [end_] turns are enough. *)
Fixpoint gap_loop (env : Env) (fuel : nat) (segment_start end_ pos : Z) (visited : gset Z) (s : Gap) : M Gap :=
  if (end_ <=? pos) || is_visited visited pos then ret s
  else
    match fuel with
    | O => fail Diverges
    | S fuel =>
        let visited := {[pos]} ∪ visited in
        let! head := attempt (read_at env pos 16) in
        match head with
        | Err Io | Err Shape => ret s
        | Err e => fail e
        | Ok head =>
            match element_head head pos with
            | Err _ | Ok (_, _, None) => ret s
            | Ok (id, body, Some size) =>
                let! s := gap_element env segment_start id body size s in
                if gap_done id s then ret s
                else gap_loop env fuel segment_start end_ (gap_next (body + size) s visited) visited s
            end
        end
    end.

(** (time, track) of a cue point; the last of each. *)
Definition point_track (id : Z) (w : bytes) (track : option Z) : option Z :=
  if id =? CUE_TRACK then Some (uint w) else track.
Definition point_field (id : Z) (v : bytes) (s : option Z * option Z) :
    (option Z * option Z) * result Error bool :=
  let '(time, track) := s in
  if id =? CUE_TIME then ((Some (uint v), track), Ok true)
  else if id =? CUE_TRACK_POSITIONS then
    match walk_children (visit point_track) v track with
    | (_, Err e) => (s, Err e)
    | (track, Ok _) => ((time, track), Ok true)
    end
  else (s, Ok true).
Definition gap_point (video : option Z) (id : Z) (point : bytes) (times : list Z) :
    list Z * result Error bool :=
  if negb (id =? CUE_POINT) then (times, Ok true)
  else
    match walk_children point_field point (None, None) with
    | (_, Err e) => (times, Err e)
    | ((time, track), Ok _) =>
        let ours := match track, video with Some t, Some v => t =? v | _, _ => true end in
        (match time with Some t => if ours then times ++ [t] else times | None => times end, Ok true)
    end.

Definition ticks_ms (scale ticks : Z) : Z := wrap 64 (ticks * scale) / 1000000.

Definition mkv_max_keyframe_gap (env : Env) : M (option Z) :=
  let! flen := get_len in
  let! head := read_at env 0 (Z.min 32 flen) in
  match ebml_id head with
  | Err _ => ret None
  | Ok (id, il) =>
      if negb (id =? EBML_HEADER) then ret None
      else
        let! h := lift (element_head head 0) in
        let '(_, body, hsize) := h in
        let! hsize := context hsize in
        let pos := body + hsize in
        let! seg := read_at env pos 16 in
        let! sid := lift (ebml_id seg) in
        if negb (fst sid =? SEGMENT) then ret None
        else
          let! s := lift (element_head seg pos) in
          let '(_, start, seg_size) := s in
          let end_ := Z.min (default flen (seg_size ≫= checked_add start)) flen in
          let! s := gap_loop env (S (Z.to_nat end_)) start end_ start ∅ gap_new in
          match g_cues s with
          | None => ret None
          | Some (body, size) =>
              let! data := read_at env body size in
              let! times := lift (checked (walk_children (gap_point (g_video s)) data [])) in
              ret (gap_ms times (ticks_ms (g_scale s)))
          end
  end.

(** ** MP4 *)

(** One entry of stts: the times of its samples that are sync samples, and the
    clock and sample number after it. *)
Fixpoint sync_run (cnt : nat) (t sample delta : Z) (syncs : gset Z) : list Z * Z * Z :=
  match cnt with
  | O => ([], t, sample)
  | S cnt =>
      let '(l, t', s') := sync_run cnt (wrap 64 (t + delta)) (wrap 32 (sample + 1)) delta syncs in
      (if bool_decide (sample ∈ syncs) then t :: l else l, t', s')
  end.
(** The entries of stts from [base], to the first that is cut short. *)
Fixpoint sync_times (n : nat) (base t sample : Z) (stts : bytes) (syncs : gset Z) : list Z :=
  match n with
  | O => []
  | S n =>
      match u32_at base stts, u32_at (base + 4) stts with
      | Some cnt, Some delta =>
          let '(l, t, sample) := sync_run (Z.to_nat cnt) t sample delta syncs in
          l ++ sync_times n (base + 8) t sample stts syncs
      | _, _ => []
      end
  end.

Definition stss_syncs (stss : bytes) (n : Z) : gset Z :=
  list_to_set (omap (fun i => u32_at (8 + i * 4) stss) (seqZ 0 n)).

(** The sample tables of a video trak: [None] where they settle nothing. *)
Definition table_gap (moov stbl : bytes) (timescale : Z) : result Error (option (option Z)) :=
  let? stts := find_box stbl "stts" in
  match stts with
  | None => Ok None
  | Some stts =>
      let? entries := index_range 4 8 stts in
      let? mvex := (if be entries =? 0 then Ok None else find_box moov "mvex") in
      if (be entries =? 0) || is_some mvex then Ok None
      else
        let? stss := find_box stbl "stss" in
        match stss with
        | None => Ok (Some (Some 0))
        | Some stss =>
            let ts := Z.max timescale 1 in
            let? n := index_range 4 8 stss in
            let times := sync_times (Z.to_nat (be entries)) 8 0 1 stts (stss_syncs stss (be n)) in
            Ok (Some (gap_ms times (fun t => wrap 64 (t * 1000) / ts)))
        end
  end.

Definition find_in (o : option bytes) (k : string) : result Error (option bytes) :=
  match o with Some b => find_box b k | None => Ok None end.

Definition trak_gap (moov body : bytes) : result Error (option (option Z)) :=
  let? mdia := find_box body "mdia" in
  let? hdlr := find_in mdia "hdlr" in
  if negb (is_some_and (fun h => is_kind h "vide") (hdlr ≫= get_range 8 12)) then Ok None
  else
    let? mdhd := find_in mdia "mdhd" in
    match mdhd with
    | None => Ok None
    | Some mdhd =>
        let? timescale := mdhd_timescale mdhd in
        let? minf := find_in mdia "minf" in
        let? stbl := find_in minf "stbl" in
        match stbl with
        | None => Ok None
        | Some stbl => table_gap moov stbl timescale
        end
    end.

Definition moov_gap (moov : bytes) : option (option Z) * result Error unit :=
  walk_boxes (fun k body out =>
    if negb (is_kind k "trak") || is_some out then (out, Ok tt)
    else match trak_gap moov body with Ok out => (out, Ok tt) | Err e => (out, Err e) end) moov None.

Definition mp4_max_keyframe_gap (env : Env) (fuel : nat) : M (option Z) :=
  let! moov := find_moov env (ret None) fuel 0 in
  match moov with
  | None => ret None
  | Some moov => let! out := lift (checked (moov_gap moov)) in ret (mjoin out)
  end.

(** ** AVI *)

(** [u32::from_le_bytes]. *)
Definition le (l : bytes) : Z := uint (reverse l).

Record AviHead := mkAviHead {
  a_stream : option nat;
  a_spf : option float;
  a_seen : nat;
}.

(** A stream header, [b] its first 32 bytes or all of it. *)
Definition strh (b : bytes) (h : AviHead) : AviHead :=
  let '(mkAviHead stream spf n) := h in
  if (32 <=? len b) && bool_decide (take 4 b = kind "vids") && is_none stream then
    let scale := F64.of_int (le (slice 20 4 b)) in
    let rate := F64.of_int (le (slice 24 4 b)) in
    mkAviHead (Some n) (if fgt rate fzero then Some (F64.div scale rate) else spf) (S n)
  else mkAviHead stream spf (S n).

(** The RIFF walk to idx1; each turn moves past a chunk header. *)
Fixpoint riff_walk (env : Env) (fuel : nat) (pos : Z) (h : AviHead) : M (option (Z * Z) * AviHead) :=
  let! flen := get_len in
  if flen <? pos + 8 then ret (None, h)
  else
    match fuel with
    | O => fail Diverges
    | S fuel =>
        let! head := read_at env pos 8 in
        let id := take 4 head in
        let size := le (slice 4 4 head) in
        let next := pos + 8 + size + Z.land size 1 in
        if is_kind id "LIST" then
          let! k := read_at env (pos + 8) 4 in
          if is_kind k "hdrl" || is_kind k "strl" then riff_walk env fuel (pos + 12) h
          else riff_walk env fuel next h
        else if is_kind id "strh" then
          let! b := read_at env (pos + 8) (Z.min 32 size) in
          riff_walk env fuel next (strh b h)
        else if is_kind id "idx1" then ret (Some (pos + 8, size), h)
        else riff_walk env fuel next h
    end.

(** One entry of idx1: the frames counted, the keyframes among them. *)
Definition index_entry (tag : bytes) (e : bytes) (s : Z * list Z) : Z * list Z :=
  let '(frames, keyframes) := s in
  let ck := take 4 e in
  if negb (bool_decide (take 2 ck = take 2 tag))
     || negb (is_kind (drop 2 ck) "dc" || is_kind (drop 2 ck) "db") then s
  else
    let flags := le (slice 4 4 e) in
    (frames + 1, if negb (Z.land flags 0x10 =? 0) then keyframes ++ [frames] else keyframes).

(** [chunks_exact(16)]. *)
Fixpoint chunks16 (n : nat) (l : bytes) : list bytes :=
  match n with O => [] | S n => take 16 l :: chunks16 n (drop 16 l) end.

(** The windows of the table; each is sixteen bytes at least. *)
Fixpoint index_windows (env : Env) (fuel : nat) (body off size : Z) (tag : bytes) (s : Z * list Z) :
    M (Z * list Z) :=
  if size <? off + 16 then ret s
  else
    match fuel with
    | O => fail Diverges
    | S fuel =>
        let n := Z.min (16 * 4096) (size - off) / 16 * 16 in
        let! buf := read_at env (body + off) n in
        let s := fold_left (fun s e => index_entry tag e s) (chunks16 (length buf / 16) buf) s in
        index_windows env fuel body (off + n) size tag s
    end.

Definition frame_ms (spf : float) (f : Z) : Z :=
  as_u64 (F64.mul (F64.mul (F64.of_int f) spf) (F64.of_int 1000)).

Definition avi_max_keyframe_gap (env : Env) : M (option Z) :=
  let! flen := get_len in
  let! found := riff_walk env (S (Z.to_nat flen)) 12 (mkAviHead None None 0) in
  let '(idx1, h) := found in
  match idx1, a_stream h, a_spf h with
  | Some (body, size), Some stream, Some spf =>
      let tag := bytes_of_string (pad2 (Z.of_nat stream)) in
      let! s := index_windows env (S (Z.to_nat size)) body 0 size tag (0, []) in
      ret (gap_ms (snd s) (frame_ms spf))
  | _, _, _ => ret None
  end.

(** [max_keyframe_interval_ms] on an opened source, by its first 12 bytes,
    where there are as many. *)
Definition max_keyframe_interval_ms (env : Env) (magic : option bytes) (fuel : nat) : M (option Z) :=
  match magic with
  | None => ret None
  | Some magic =>
      if bool_decide (take 4 magic = [0x1A; 0x45; 0xDF; 0xA3]) then mkv_max_keyframe_gap env
      else if is_kind (slice 4 4 magic) "ftyp" then mp4_max_keyframe_gap env fuel
      else if is_kind (take 4 magic) "RIFF" && is_kind (slice 8 4 magic) "AVI " then avi_max_keyframe_gap env
      else ret None
  end.
