(* ===== verification/KeyframesTheorems.v ===== *)
(** * What the measured keyframe gap means

    The gap is the longest step between neighbouring keyframes; the keyframe
    times of an MP4 are the sums of the durations before its sync samples; the
    walks of a Matroska and an AVI file end on any source. *)
From S2P Require Import Prelude Floats Media Utf8 Ebml EbmlTheorems Subtitles Subindex SubindexFacts SubindexTheorems SubindexReads SubindexIndex Mp4 Keyframes.
#[local] Open Scope Z_scope.

(** ** The gap *)

Lemma z_sorted l : StronglySorted Z.le (sort_by Z.compare l).
Proof.
  assert (StronglySorted (cmp_le Z.compare) (sort_by Z.compare l)) as H.
  { apply (sort_by_ok (fun _ => True)); [apply z_cmp_ok|by apply Forall_true]. }
  induction H as [|a l' Hl IH Hf]; constructor; [done|]. eapply Forall_impl; [done|].
  intros x. unfold cmp_le. by destruct (Z.compare_spec a x); try lia.
Qed.

(** The next later time. *)
Definition next_time (l : list Z) (t u : Z) : Prop :=
  u ∈ l /\ t < u /\ forall w, w ∈ l -> t < w -> u <= w.

Lemma adjacent_next {A} (g : Z -> Z -> A) l t :
  StronglySorted Z.le l -> t ∈ l -> (exists v, v ∈ l /\ t < v) ->
  exists u, next_time l t u /\ g t u ∈ adjacent g l.
Proof.
  induction 1 as [|a l Hs IH Hf]; intros Ht (v & Hv & Hlt); [set_solver|].
  rewrite Forall_forall in Hf.
  assert (Hin : forall x, x ∈ l -> a <= x) by (intros; by apply Hf).
  assert (Hrest : t ∈ l -> (exists v, v ∈ l /\ t < v) ->
    exists u, next_time (a :: l) t u /\ g t u ∈ adjacent g (a :: l)).
  { intros Htl Hvl. destruct (IH Htl Hvl) as (u & (Hu & Htu & Hmin) & Hg). exists u. split.
    - split_and!; [by right|done|]. intros w [->|Hw]%elem_of_cons Htw; [|by apply Hmin].
      specialize (Hin t Htl). lia.
    - destruct l as [|b l]; [set_solver|]. cbn [adjacent] in *. by right. }
  assert (Hvl : v ∈ l).
  { apply elem_of_cons in Hv as [->|]; [|done]. apply elem_of_cons in Ht as [->|Ht]; [lia|].
    specialize (Hin t Ht). lia. }
  apply elem_of_cons in Ht as [->|Ht]; [|eauto].
  destruct l as [|b l]; [set_solver|]. destruct (decide (a = b)) as [->|Hne].
  { apply Hrest; [left|eauto]. }
  exists b. split; [|left]. pose proof (Hin b ltac:(left)). split_and!; [right; left|lia|].
  intros w [->|[->|Hw]%elem_of_cons]%elem_of_cons Haw; [lia|lia|].
  apply StronglySorted_inv in Hs as [_ Hb]. rewrite Forall_forall in Hb. by apply Hb.
Qed.

Lemma adjacent_within {A} (g : Z -> Z -> A) l x :
  StronglySorted Z.le l -> x ∈ adjacent g l -> exists a b, a ∈ l /\ b ∈ l /\ a <= b /\ x = g a b.
Proof.
  induction 1 as [|a l Hs IH Hf]; [set_solver|]. destruct l as [|b l]; [set_solver|].
  cbn [adjacent]. intros [->|Hx]%elem_of_cons.
  - exists a, b. apply Forall_cons in Hf as [Hab _]. split_and!; [left|right; left|done|done].
  - destruct (IH Hx) as (c & d & Hc & Hd & Hcd & He). exists c, d. split_and!; [by right|by right|done|done].
Qed.

(** The measured gap is the longest step between neighbouring keyframes:
    every keyframe but the last is followed by the next within it, and some two
    keyframes are that far apart (where the gap is one 32 bits can hold); two
    keyframes at least are measured. *)
Theorem gap_is_longest times to_ms g :
  gap_ms times to_ms = Some g ->
  (forall t, t ∈ times -> in_range 64 (to_ms t)) ->
  (forall a b, a ∈ times -> b ∈ times -> a <= b -> to_ms a <= to_ms b) ->
  (2 <= length times)%nat
  /\ (forall t, t ∈ times -> (exists v, v ∈ times /\ t < v) ->
       exists u, next_time times t u /\ Z.min (to_ms u - to_ms t) u32_max <= g)
  /\ (exists a b, a ∈ times /\ b ∈ times /\ a <= b /\ g = Z.min (to_ms b - to_ms a) u32_max).
Proof.
  intros Hg Hr Hmono. unfold gap_ms in Hg.
  destruct times as [|t0 [|t1 rest]]; [done|done|]. remember (t0 :: t1 :: rest) as times eqn:Heq.
  pose proof (sort_by_perm Z.compare times) as Hp. pose proof (z_sorted times) as Hs.
  set (l := sort_by Z.compare times) in *. set (step := fun a b => wrap 64 (to_ms b - to_ms a)) in *.
  assert (Hstep : forall a b, a ∈ times -> b ∈ times -> a <= b -> step a b = to_ms b - to_ms a).
  { intros a b Ha Hb Hab. unfold step. apply wrap_small. pose proof (Hr a Ha). pose proof (Hr b Hb).
    pose proof (Hmono a b Ha Hb Hab). unfold in_range in *. lia. }
  assert (Hmem : forall x, x ∈ l <-> x ∈ times) by (intros x; by rewrite Hp).
  assert (Hlen : length l = length times) by (by rewrite Hp).
  destruct (max_of (adjacent step l)) as [m|] eqn:Hm.
  2:{ apply max_of_None in Hm. destruct l as [|a [|b l']]; try done; rewrite Heq in Hlen; done. }
  destruct (max_of_spec _ _ Hm) as [Hin Hmax]. cbn in Hg. injection Hg as <-.
  split_and!; [rewrite Heq; simpl; lia| |].
  - intros t Ht (v & Hv & Hlt).
    destruct (adjacent_next step l t Hs) as (u & (Hu & Htu & Hmin) & Hstp);
      [by apply Hmem|exists v; by rewrite Hmem|].
    exists u. split; [split_and!; [by apply Hmem|done|intros w Hw; apply Hmin; by apply Hmem]|].
    rewrite <- Hstep by (rewrite <- ?Hmem; (done || lia || by apply Hmem)).
    apply Hmax in Hstp. lia.
  - apply adjacent_within in Hin as (a & b & Ha & Hb & Hab & ->); [|done].
    exists a, b. rewrite Hmem in Ha, Hb. split_and!; [done|done|done|]. by rewrite Hstep.
Qed.

Lemma gap_is_longest_witness :
  gap_ms [4000; 0; 1500; 4200] Datatypes.id = Some 2500
  /\ (2 <= length [4000; 0; 1500; 4200])%nat.
Proof.
  pose proof (gap_is_longest [4000; 0; 1500; 4200] Datatypes.id 2500 eq_refl) as H.
  split; [reflexivity|]. apply H.
  - intros t Ht. repeat (apply elem_of_cons in Ht as [->|Ht]; [unfold in_range; cbn; lia|]). set_solver.
  - intros a b _ _ Hab. exact Hab.
Defined.

(** ** The sync samples of an MP4 *)

Definition sum (l : list Z) : Z := fold_right Z.add 0 l.

(** An stts table, its runs written out, its bytes. *)
Definition durations (runs : list (Z * Z)) : list Z :=
  mjoin (map (fun '(cnt, delta) => repeat delta (Z.to_nat cnt)) runs).
Definition stts_bytes (runs : list (Z * Z)) : bytes :=
  to_be_bytes 8 (Z.of_nat (length runs))
  ++ mjoin (map (fun '(cnt, delta) => to_be_bytes 4 cnt ++ to_be_bytes 4 delta) runs).
Definition run_ok (r : Z * Z) : Prop := in_range 32 (fst r) /\ in_range 32 (snd r).

(** The presentation times of the sync samples, sample by sample: sample [k]
    starts where the durations of the samples before it end. *)
Definition sync_reference (t first : Z) (ds : list Z) (syncs : gset Z) : list Z :=
  map (fun k => t + sum (take (Z.to_nat (k - first)) ds))
    (List.filter (fun k => bool_decide (k ∈ syncs)) (seqZ first (Z.of_nat (length ds)))).

Lemma sum_app l l' : sum (l ++ l') = sum l + sum l'.
Proof. induction l as [|a l IH]; simpl; [done|]. lia. Qed.
Lemma sum_nonneg l : Forall (fun d => 0 <= d) l -> 0 <= sum l.
Proof. induction 1; simpl; lia. Qed.

Lemma sync_reference_cons t first d ds syncs :
  sync_reference t first (d :: ds) syncs
  = (if bool_decide (first ∈ syncs) then [t] else []) ++ sync_reference (t + d) (first + 1) ds syncs.
Proof.
  unfold sync_reference. rewrite length_cons, Nat2Z.inj_succ, seqZ_cons by lia.
  replace (Z.pred (Z.succ (Z.of_nat (length ds)))) with (Z.of_nat (length ds)) by lia.
  replace (Z.succ first) with (first + 1) by lia. cbn [List.filter].
  assert (forall l, Forall (fun k => first + 1 <= k) l ->
    map (fun k => t + sum (take (Z.to_nat (k - first)) (d :: ds))) l
    = map (fun k => t + d + sum (take (Z.to_nat (k - (first + 1))) ds)) l) as Hmap.
  { intros l Hl. apply map_ext_in. intros k Hk%list_elem_of_In. rewrite Forall_forall in Hl.
    specialize (Hl k Hk). replace (Z.to_nat (k - first)) with (S (Z.to_nat (k - (first + 1)))) by lia.
    cbn [take]. unfold sum. cbn [fold_right]. lia. }
  assert (Forall (fun k => first + 1 <= k) (List.filter (fun k => bool_decide (k ∈ syncs))
    (seqZ (first + 1) (Z.of_nat (length ds))))) as Hge.
  { apply Forall_forall. intros k Hk%list_elem_of_In. apply List.filter_In in Hk as [Hk _].
    apply list_elem_of_In, elem_of_seqZ in Hk. lia. }
  case_bool_decide; [|by apply Hmap]. cbn [map app]. rewrite (Hmap _ Hge). f_equal.
  rewrite Z.sub_diag. change (Z.to_nat 0) with 0%nat. unfold sum. cbn [take fold_right]. lia.
Qed.

Lemma sync_reference_app t first ds ds' syncs :
  sync_reference t first (ds ++ ds') syncs
  = sync_reference t first ds syncs
    ++ sync_reference (t + sum ds) (first + Z.of_nat (length ds)) ds' syncs.
Proof.
  revert t first. induction ds as [|d ds IH]; intros t first.
  - cbn. by rewrite !Z.add_0_r.
  - cbn [app]. rewrite !sync_reference_cons, IH, <- app_assoc. rewrite length_cons.
    change (sum (d :: ds)) with (d + sum ds).
    replace (t + d + sum ds) with (t + (d + sum ds)) by lia.
    replace (first + 1 + Z.of_nat (length ds)) with (first + Z.of_nat (S (length ds))) by lia. done.
Qed.

Lemma sum_repeat d n : sum (repeat d n) = d * Z.of_nat n.
Proof. induction n as [|n IH]; [simpl; lia|]. cbn [repeat sum fold_right]. fold (sum (repeat d n)). lia. Qed.

Lemma sync_run_reference cnt t sample delta syncs :
  0 <= t -> 0 <= sample -> 0 <= delta ->
  t + delta * Z.of_nat cnt < 2 ^ 64 -> sample + Z.of_nat cnt < 2 ^ 32 ->
  sync_run cnt t sample delta syncs
  = (sync_reference t sample (repeat delta cnt) syncs, t + delta * Z.of_nat cnt, sample + Z.of_nat cnt).
Proof.
  revert t sample. induction cnt as [|cnt IH]; intros t sample Ht Hs Hd Hlt Hls.
  { cbn. by rewrite Z.mul_0_r, !Z.add_0_r. }
  cbn [sync_run repeat]. rewrite !wrap_small by (unfold in_range; nia).
  rewrite IH by nia. rewrite sync_reference_cons.
  replace (t + delta + delta * Z.of_nat cnt) with (t + delta * Z.of_nat (S cnt)) by lia.
  replace (sample + 1 + Z.of_nat cnt) with (sample + Z.of_nat (S cnt)) by lia.
  by case_bool_decide.
Qed.

(** Reading a table piece by piece. *)
Lemma u32_at_mid pre v post :
  in_range 32 v -> u32_at (len pre) (pre ++ to_be_bytes 4 v ++ post) = Some v.
Proof.
  intros Hv. unfold u32_at, get_range. pose proof (len_nonneg pre). pose proof (len_nonneg post).
  assert (len (to_be_bytes 4 v) = 4) as H4 by (unfold len; by rewrite to_be_bytes_length).
  rewrite !len_app, H4. destruct (Z.leb_spec (len pre) (len pre + 4)); [|lia].
  destruct (Z.leb_spec (len pre + 4) (len pre + (4 + len post))); [|lia]. cbn [andb fmap option_map option_fmap].
  f_equal. replace (len pre + 4 - len pre) with 4 by lia. unfold slice.
  replace (Z.to_nat (len pre)) with (length pre) by (unfold len; lia). rewrite drop_app_length.
  rewrite take_app_length' by (by rewrite to_be_bytes_length). unfold be, uint.
  rewrite shift_in_be; [|done|apply to_be_bytes_all|done]. rewrite be_val_to_be.
  change (256 ^ Z.of_nat 4) with (2 ^ 32). unfold in_range in Hv. rewrite Z.mod_small by lia.
  apply wrap_small. unfold in_range. lia.
Qed.

Lemma sync_times_reference runs pre t sample syncs :
  Forall run_ok runs -> 0 <= t -> 0 <= sample ->
  t + sum (durations runs) < 2 ^ 64 -> sample + Z.of_nat (length (durations runs)) < 2 ^ 32 ->
  sync_times (length runs) (len pre) t sample
    (pre ++ mjoin (map (fun '(cnt, delta) => to_be_bytes 4 cnt ++ to_be_bytes 4 delta) runs)) syncs
  = sync_reference t sample (durations runs) syncs.
Proof.
  intros Hr. revert pre t sample. induction Hr as [|[cnt delta] runs [Hc Hd] Hr IH]; intros pre t sample Ht Hs Hlt Hls.
  { done. }
  cbn [fst snd] in Hc, Hd. cbn [length sync_times map mjoin list_join]. rewrite <- app_assoc.
  rewrite u32_at_mid by done.
  assert (len (pre ++ to_be_bytes 4 cnt) = len pre + 4) as Hl4.
  { rewrite len_app. unfold len at 2. by rewrite to_be_bytes_length. }
  rewrite (app_assoc pre), <- Hl4, u32_at_mid by done.
  change (durations ((cnt, delta) :: runs)) with (repeat delta (Z.to_nat cnt) ++ durations runs) in *.
  rewrite sum_app, sum_repeat in Hlt. rewrite length_app, repeat_length in Hls.
  unfold in_range in Hc, Hd.
  assert (0 <= sum (durations runs)).
  { apply sum_nonneg, Forall_forall. clear - Hr. intros d Hd. unfold durations in Hd.
    apply list_elem_of_join in Hd as (l & Hdl & Hl). apply list_elem_of_In, in_map_iff in Hl as ([c e] & <- & He).
    apply list_elem_of_In, repeat_spec in Hdl as ->. rewrite Forall_forall in Hr.
    apply list_elem_of_In, Hr in He as [_ He]. apply He. }
  rewrite sync_run_reference by lia. rewrite sync_reference_app, sum_repeat, repeat_length. f_equal.
  replace (len pre + 8) with (len (((pre ++ to_be_bytes 4 cnt) ++ to_be_bytes 4 delta))).
  2:{ rewrite len_app, Hl4. unfold len at 2. rewrite to_be_bytes_length. lia. }
  rewrite (app_assoc (pre ++ _)). apply IH; lia.
Qed.

(** The keyframe times read from an MP4's tables are the start times of its
    sync samples, in order: for each, the sum of the durations of the samples
    before it, on any table whose clock stays in 64 bits and whose samples are
    numbered in 32. *)
Theorem sync_times_exact runs syncs :
  Forall run_ok runs -> sum (durations runs) < 2 ^ 64 ->
  Z.of_nat (length (durations runs)) < 2 ^ 32 - 1 ->
  sync_times (length runs) 8 0 1 (stts_bytes runs) syncs
  = map (fun k => sum (take (Z.to_nat (k - 1)) (durations runs)))
      (List.filter (fun k => bool_decide (k ∈ syncs)) (seqZ 1 (Z.of_nat (length (durations runs))))).
Proof.
  intros Hr Hs Hl. unfold stts_bytes.
  change 8 with (len (to_be_bytes 8 (Z.of_nat (length runs)))) at 1.
  rewrite sync_times_reference; [reflexivity|done|lia..].
Qed.

Lemma sync_times_exact_witness :
  sync_times 2 8 0 1 (stts_bytes [(3, 40); (2, 1000)]) {[1; 4; 5]} = [0; 120; 1120].
Proof.
  rewrite (sync_times_exact [(3, 40); (2, 1000)] {[1; 4; 5]}).
  - vm_compute. reflexivity.
  - repeat constructor; unfold in_range; cbn; lia.
  - reflexivity.
  - reflexivity.
Defined.

(** ** The walks end *)

Lemma video_entry_shaped id v s : shaped (snd (video_entry id v s)).
Proof.
  unfold video_entry. destruct (negb _); [done|]. pose proof (visit_shaped number_and_type v (None, 0)) as H.
  by destruct (walk_children (visit number_and_type) v (None, 0)) as [[t p] [[]|e]].
Qed.
Lemma point_field_shaped id v s : shaped (snd (point_field id v s)).
Proof.
  unfold point_field. destruct s as [t c]. destruct (id =? CUE_TIME); [done|]. destruct (_ =? _); [|done].
  pose proof (visit_shaped point_track v c) as H.
  by destruct (walk_children (visit point_track) v c) as [p [[]|e]].
Qed.
Lemma gap_point_shaped video id v s : shaped (snd (gap_point video id v s)).
Proof.
  unfold gap_point. destruct (negb _); [done|].
  pose proof (walk_shaped point_field v (None, None) point_field_shaped) as H.
  by destruct (walk_children point_field v (None, None)) as [[t p] [[]|e]].
Qed.

Section Gaps.
Context (env : Env) (Hs : sane env) (flen : Z) (Hflen : 0 <= flen < 2 ^ 62).

(** Promises that are offsets, an index that lies where a read can reach. *)
Definition gap_ok (s : Gap) : Prop :=
  promises_ok (g_pending s)
  /\ forall body size, g_cues s = Some (body, size) -> 0 <= body < 2 ^ 63 /\ 0 <= size < 2 ^ 56.

Lemma read_bytes_safe body size :
  0 <= body < 2 ^ 63 -> 0 <= size < 2 ^ 56 -> safe flen (read_at env body size) all_bytes.
Proof.
  intros Hb Hz. eapply safe_weaken; [apply (read_at_safe env Hs); lia|]. by intros d (_ & H & _).
Qed.

Lemma gap_element_safe start id body size s :
  0 <= start -> 0 <= body < 2 ^ 63 -> 0 <= size < 2 ^ 56 -> gap_ok s ->
  safe flen (gap_element env start id body size s) gap_ok.
Proof.
  intros Hst Hb Hz [Hp Hc]. destruct s as [scale video cues pending saw]. cbn [g_pending g_cues] in *.
  pose proof (read_bytes_safe body size Hb Hz) as Hread. unfold gap_element.
  destruct (id =? SEEK_HEAD).
  { eapply safe_bind; [done|]. intros d Hd. cbn beta in Hd.
    eapply safe_bind with (P := promises_ok); [|intros p Hpp; apply safe_ret; by split].
    apply lift_walk_safe; [apply seek_entry_shaped|done|done|].
    intros i v s Hv Hps. by apply seek_entry_ok. }
  destruct (id =? INFO).
  { eapply safe_bind; [done|]. intros d Hd. cbn beta in Hd.
    eapply safe_bind with (P := fun _ => True); [by apply lift_walk_safe|]. intros x _. apply safe_ret. by split. }
  destruct (id =? TRACKS).
  { eapply safe_bind; [done|]. intros d Hd. cbn beta in Hd.
    eapply safe_bind with (P := fun _ => True); [|intros x _; apply safe_ret; by split].
    apply lift_walk_safe; [apply video_entry_shaped|done..]. }
  destruct (id =? CUES); apply safe_ret; [|by split]. split; [done|]. by intros ? ? [= <- <-].
Qed.

Lemma gap_next_ok linear s visited : 0 <= linear -> promises_ok (g_pending s) -> 0 <= gap_next linear s visited.
Proof.
  intros Hl Hp. unfold gap_next. destruct (List.find _ _) as [n|] eqn:Hf; [|done].
  apply List.find_some in Hf as [Hin _]. unfold promises_ok in Hp. rewrite Forall_forall in Hp.
  apply Hp. by apply list_elem_of_In.
Qed.

Lemma gap_loop_safe fuel start end_ pos visited s :
  end_ <= flen -> 0 <= start -> 0 <= pos -> (left_ end_ visited <= fuel)%nat -> gap_ok s ->
  safe flen (gap_loop env fuel start end_ pos visited s) gap_ok.
Proof.
  intros Hend Hst. revert pos visited s.
  induction fuel as [|fuel IH]; intros pos visited s Hpos Hf Hok; cbn [gap_loop].
  all: destruct ((end_ <=? pos) || is_visited visited pos) eqn:Hdone; [by apply safe_ret|].
  all: apply orb_false_iff in Hdone as [Hlt%Z.leb_gt Hnew%bool_decide_eq_false].
  all: pose proof (left_visit end_ pos visited ltac:(split; [lia|done])); try lia.
  eapply safe_bind with (P := data_ok).
  { eapply safe_attempt; [apply (read_at_safe env Hs); lia| |done]. by intros d (_ & H' & _). }
  intros [head|e] Hh; [|by destruct Hh as [-> | ->]; apply safe_ret].
  destruct (element_head head pos) as [[[id body] [size|]]|e] eqn:He; try by apply safe_ret.
  apply element_head_spec in He as [Hbody Hsize]; [|done]. specialize (Hsize size eq_refl).
  eapply safe_bind; [apply gap_element_safe; (done || lia)|]. intros s' Hok'.
  destruct (gap_done id s'); [by apply safe_ret|].
  apply IH; [|lia|done]. apply gap_next_ok; [lia|apply Hok'].
Qed.

Lemma mkv_gap_safe : safe flen (mkv_max_keyframe_gap env) (fun _ => True).
Proof.
  unfold mkv_max_keyframe_gap. eapply safe_bind with (P := eq flen); [by apply safe_len|].
  intros ? <-. eapply safe_bind; [apply read_bytes_safe; lia|]. intros head Hb. cbn beta in Hb.
  destruct (ebml_id head) as [[id il]|]; [|by apply safe_ret]. destruct (negb _); [by apply safe_ret|].
  eapply safe_bind.
  { apply (element_safe flen head 0 (fun '(_, body, os) => 2 <= body <= 12
      /\ forall size, os = Some size -> 0 <= size < 2 ^ 56)); [done|naive_solver]. }
  intros [[i body] os] [Hbody Hsize]. eapply safe_bind.
  { apply (safe_context flen os (fun s => 0 <= s < 2 ^ 56)). naive_solver. }
  intros hsize Hz. cbn beta in Hz. eapply safe_bind; [apply read_bytes_safe; lia|].
  intros seg Hseg. cbn beta in Hseg. eapply safe_bind with (P := fun _ => True).
  { apply safe_lift; [|done]. intros e He. right. revert He. unfold ebml_id.
    repeat case_match; intros; by simplify_eq. }
  intros sid _. destruct (negb _); [by apply safe_ret|]. eapply safe_bind.
  { apply (element_safe flen seg (body + hsize)
      (fun '(_, start, _) => body + hsize + 2 <= start <= body + hsize + 12)); [done|naive_solver]. }
  intros [[i' start] os'] Hst. eapply safe_bind.
  { apply gap_loop_safe; [lia|lia|lia| |split; [constructor|done]].
    pose proof (left_new (Z.min (default flen (os' ≫= checked_add start)) flen)). lia. }
  intros s [_ Hc]. destruct (g_cues s) as [[cb cs]|]; [|by apply safe_ret].
  destruct (Hc _ _ eq_refl) as [Hcb Hcs]. eapply safe_bind; [by apply read_bytes_safe|].
  intros d Hd. eapply safe_bind with (P := fun _ => True); [|intros; by apply safe_ret].
  apply lift_walk_safe; [apply gap_point_shaped|done..].
Qed.

Lemma le_range l : all_bytes l -> (length l <= 4)%nat -> 0 <= le l < 2 ^ 32.
Proof.
  intros Hl Hn. unfold le, uint. assert (all_bytes (reverse l)) as Hr by (by apply Forall_reverse).
  assert (length (reverse l) <= 4)%nat as Hrn by (by rewrite length_reverse).
  destruct (reverse l) as [|b r]; [by split|]. rewrite shift_in_be by done. set (x := b :: r) in *.
  pose proof (be_val_upper 0 x Hr ltac:(lia)) as Hub. pose proof (be_val_nonneg 0 x ltac:(lia) Hr).
  assert (256 ^ Z.of_nat (length x) <= 256 ^ 4) by (apply Z.pow_le_mono_r; lia).
  rewrite wrap_small; [|unfold in_range; lia]. lia.
Qed.

Lemma riff_walk_safe fuel pos h :
  flen <= pos + 8 * Z.of_nat fuel -> 0 <= pos ->
  safe flen (riff_walk env fuel pos h)
    (fun x => forall body size, fst x = Some (body, size) -> 0 <= body < 2 ^ 63 /\ 0 <= size < 2 ^ 32).
Proof.
  revert pos h. induction fuel as [|fuel IH]; intros pos h Hf Hp; cbn [riff_walk].
  all: eapply safe_bind with (P := eq flen); [by apply safe_len|]; intros ? <-.
  all: destruct (Z.ltb_spec flen (pos + 8)); [by apply safe_ret|]; try lia.
  eapply safe_bind; [apply read_bytes_safe; lia|]. intros head Hb. cbn beta in Hb.
  assert (0 <= le (slice 4 4 head) < 2 ^ 32) as Hsz.
  { apply le_range; [by apply all_bytes_slice|]. unfold slice. rewrite length_take. lia. }
  assert (0 <= Z.land (le (slice 4 4 head)) 1 <= 1) as Hodd.
  { assert (Z.land (le (slice 4 4 head)) 1 = le (slice 4 4 head) mod 2 ^ 1) as ->
      by (by apply (Z.land_ones (le (slice 4 4 head)) 1)).
    pose proof (Z.mod_pos_bound (le (slice 4 4 head)) (2 ^ 1) ltac:(lia)). lia. }
  cbv zeta. destruct (is_kind _ "LIST").
  { eapply safe_bind; [apply read_bytes_safe; lia|]. intros k _. destruct (_ || _); apply IH; lia. }
  destruct (is_kind _ "strh").
  { eapply safe_bind; [apply read_bytes_safe; lia|]. intros b _. apply IH; lia. }
  destruct (is_kind _ "idx1"); [|apply IH; lia].
  apply safe_ret. intros body size [= <- <-]. lia.
Qed.

Lemma index_windows_safe fuel body off size tag s :
  size <= off + 16 * Z.of_nat fuel -> 0 <= off -> 0 <= body < 2 ^ 63 -> size < 2 ^ 32 ->
  safe flen (index_windows env fuel body off size tag s) (fun _ => True).
Proof.
  revert off s. induction fuel as [|fuel IH]; intros off s Hf Ho Hb Hz; cbn [index_windows].
  all: destruct (Z.ltb_spec size (off + 16)); [by apply safe_ret|]; try lia. cbv zeta.
  set (n := Z.min (16 * 4096) (size - off) / 16 * 16).
  assert (16 <= n <= 16 * 4096) as Hn.
  { unfold n. pose proof (Z.div_le_lower_bound (Z.min (16 * 4096) (size - off)) 16 1 ltac:(lia) ltac:(lia)).
    pose proof (Z.mul_div_le (Z.min (16 * 4096) (size - off)) 16 ltac:(lia)). lia. }
  eapply safe_bind with (P := fun _ => True).
  { eapply safe_weaken; [apply (read_at_safe env Hs); lia|done]. }
  intros buf _. apply IH; lia.
Qed.

Lemma avi_gap_safe : safe flen (avi_max_keyframe_gap env) (fun _ => True).
Proof.
  unfold avi_max_keyframe_gap. eapply safe_bind with (P := eq flen); [by apply safe_len|].
  intros ? <-. eapply safe_bind; [apply riff_walk_safe; lia|]. intros [idx1 h] Hi. cbn [fst] in Hi.
  destruct idx1 as [[body size]|]; [|by apply safe_ret]. destruct (Hi _ _ eq_refl) as [Hb Hz].
  destruct (a_stream h); [|by apply safe_ret]. destruct (a_spf h); [|by apply safe_ret].
  eapply safe_bind; [apply index_windows_safe; lia|]. intros x _. by apply safe_ret.
Qed.
End Gaps.

(** Measuring the keyframe gap of a Matroska or an AVI file ends on any
    bytes from any source, with an answer or with an error: it never panics and
    no index keeps it walking. *)
Theorem gap_walks_end env flen r :
  sane env -> 0 <= flen < 2 ^ 62 -> rwf flen r ->
  (forall e, fst (mkv_max_keyframe_gap env r) = Err e -> benign e)
  /\ (forall e, fst (avi_max_keyframe_gap env r) = Err e -> benign e).
Proof.
  intros Hs Hf Hr. destruct (mkv_gap_safe env Hs flen Hf r Hr) as [_ Hm].
  destruct (avi_gap_safe env Hs flen Hf r Hr) as [_ Ha].
  split; intros e He; rewrite He in *; done.
Qed.

(** ** Concrete files *)

Definition video_entry_bytes : Z * bytes :=
  (TRACK_ENTRY, elements [(TRACK_NUMBER, [1]); (TRACK_TYPE, [1])]).
Definition cue_at (t track : Z) : Z * bytes :=
  (CUE_POINT, elements [(CUE_TIME, encode_uint t); (CUE_TRACK_POSITIONS, elements [(CUE_TRACK, [track])])]).
Definition indexed (head : list (Z * bytes)) : bytes :=
  mkv_file (head ++ [(TRACKS, elements [video_entry_bytes]);
    (CUES, elements [cue_at 0 1; cue_at 4000 1; cue_at 5000 1; cue_at 4500 2; cue_at 9500 1]);
    (CLUSTER, elements talking_cluster)]).
Definition measured (data : bytes) : result Error (option Z) :=
  fst (mkv_max_keyframe_gap (file_env 100 data) (reader_new (len data))).

Lemma gap_walks_end_witness :
  (forall e, measured (indexed []) = Err e -> benign e) /\ measured (indexed []) = Ok (Some 4500).
Proof.
  split; [|vm_compute; reflexivity].
  apply (gap_walks_end (file_env 100 (indexed [])) (len (indexed [])) (reader_new (len (indexed [])))).
  - apply file_env_sane; [lia|]. vm_compute. repeat constructor; discriminate.
  - split; [vm_compute; discriminate|vm_compute; reflexivity].
  - apply reader_new_wf.
Defined.

(** A SeekHead that promises Cues past the end of the file ends the walk: the
    Cues that follow it are not measured, nor are those it promises next. *)
Theorem dead_promise_ends_measuring :
  measured (indexed [(SEEK_HEAD, elements [promise CUES 1000000])]) = Ok None
  /\ measured (indexed [(SEEK_HEAD, elements [])]) = Ok (Some 4500).
Proof. vm_compute. split; reflexivity. Qed.

(** * MP4 boxes: what ends, what does not

    The walk of a box's children ends on any bytes; the search for the moov of
    a file does not, on a hostile one. A small text track is read as it was
    written. *)


Section Ends.
Context {S : Type} (f : bytes -> bytes -> S -> S * result Error unit).
Hypothesis f_ends : forall k body s, snd (f k body s) <> Err Diverges.

Lemma boxes_from_ends fuel data pos s :
  0 <= pos -> len data <= pos + 8 * Z.of_nat fuel -> snd (boxes_from f fuel data pos s) <> Err Diverges.
Proof.
  revert pos s. induction fuel as [|fuel IH]; intros pos s Hp Hf; cbn [boxes_from].
  { destruct (Z.ltb_spec (len data) (pos + 8)); [done|lia]. }
  destruct (_ <? pos + 8); [done|]. destruct (_ && _); [done|].
  set (sh := if _ =? 1 then _ else _). assert (8 <= snd sh) as Hh.
  { unfold sh. repeat case_match; cbn; lia. }
  destruct sh as [size hdr]. cbn [snd] in Hh. destruct (_ || _); [done|].
  unfold index_range, get_range. destruct (Z.leb_spec (pos + hdr) (wrap 64 (pos + size))); [|done].
  destruct (_ <=? len data); cbn [andb ok_or]; [|done].
  match goal with |- context [f ?k ?b s] => pose proof (f_ends k b s) as He; destruct (f k b s) as [s' [[]|e]] end.
  - apply IH; lia.
  - cbn [snd] in *. congruence.
Qed.
End Ends.

(** Walking the boxes inside a box ends on any bytes, sizes that run past
    the end or wrap around 2^64 included, where what is done with each ends. *)
Theorem walk_boxes_ends {S} (f : bytes -> bytes -> S -> S * result Error unit) data s :
  (forall k body s, snd (f k body s) <> Err Diverges) -> snd (walk_boxes f data s) <> Err Diverges.
Proof. intros Hf. apply boxes_from_ends; [done|lia|]. unfold len. lia. Qed.

(** ** Boxes written *)

Definition box (k : string) (body : bytes) : bytes := to_be_bytes 4 (8 + len body) ++ kind k ++ body.
Definition large_box (k : string) (size : Z) : bytes := to_be_bytes 4 1 ++ kind k ++ to_be_bytes 8 size.

(** Two samples of text in one chunk at [at_], 1000 ticks a second. *)
Definition text_moov (at_ : Z) : bytes :=
  box "moov" (box "trak" (box "mdia"
    (box "hdlr" (repeat 0 8 ++ kind "sbtl" ++ repeat 0 12)
     ++ box "mdhd" (repeat 0 12 ++ to_be_bytes 4 1000 ++ repeat 0 4)
     ++ box "minf" (box "stbl"
          (box "stsd" (to_be_bytes 8 1 ++ to_be_bytes 4 16 ++ kind "tx3g")
           ++ box "stts" (to_be_bytes 8 1 ++ to_be_bytes 4 2 ++ to_be_bytes 4 1500)
           ++ box "stsz" (to_be_bytes 8 0 ++ to_be_bytes 4 2 ++ to_be_bytes 4 7 ++ to_be_bytes 4 5)
           ++ box "stsc" (to_be_bytes 8 1 ++ to_be_bytes 4 1 ++ to_be_bytes 4 2 ++ to_be_bytes 4 1)
           ++ box "stco" (to_be_bytes 8 1 ++ to_be_bytes 4 at_)))))).
Definition text_payload : bytes :=
  to_be_bytes 2 5 ++ ascii_bytes "hello" ++ to_be_bytes 2 3 ++ ascii_bytes "bye".
Definition text_mp4 : bytes :=
  box "ftyp" (kind "isom" ++ repeat 0 4) ++ box "mdat" text_payload ++ text_moov 24.

Example text_mp4_extracted :
  fst (extract_sparse (file_env 50 text_mp4) stored (Some (take 8 text_mp4)) 10
         (reader_new (len text_mp4)))
  = Ok (Some [(0%nat, mkExtracted [mkCue 0 1500 "hello"; mkCue 1500 3000 "bye"] None)]).
Proof. vm_compute. reflexivity. Qed.

(** ** Hostile sizes *)

(** A box whose 64-bit size leads back to the start of the file. *)
Definition circle_mp4 : bytes := box "ftyp" [] ++ large_box "free" (2 ^ 64 - 8).

(** The sum of the position and the size wraps, and the search for the moov
    starts over: no fuel is enough. *)
Theorem moov_hunt_never_ends bad fuel :
  fst (find_moov (file_env 16 circle_mp4) bad fuel 0 (reader_new (len circle_mp4))) = Err Diverges.
Proof.
  enough (forall n, (n <= fuel)%nat ->
    pure circle_mp4 (find_moov (file_env 16 circle_mp4) bad n 0) (Err Diverges)
    /\ pure circle_mp4 (find_moov (file_env 16 circle_mp4) bad n 8) (Err Diverges)) as H.
  { by apply (H fuel). }
  pose proof (file_env_honest 16 circle_mp4 ltac:(lia)) as Hh.
  induction n as [|n IH]; intros Hn.
  { split; cbn [find_moov]; (eapply pure_bind; [apply pure_len|]); by intros r Hr. }
  destruct IH as [IH0 IH8]; [lia|]. split; cbn [find_moov].
  - eapply pure_bind; [apply pure_len|]. change (len circle_mp4 <? _) with false. cbv iota.
    eapply pure_bind; [apply (pure_read _ _ Hh); vm_compute; done|].
    exact IH8.
  - eapply pure_bind; [apply pure_len|]. change (len circle_mp4 <? _) with false. cbv iota.
    eapply pure_bind; [apply (pure_read _ _ Hh); vm_compute; done|].
    exact IH0.
Qed.

(** Inside a box the same sum passes the check against the end, and the slice
    that follows panics. *)
Theorem wrapping_box_panics :
  find_box (box "free" [] ++ large_box "free" (2 ^ 64 - 8)) "trak" = Err Panic.
Proof. vm_compute. reflexivity. Qed.

(** A media header too short for its timescale panics. *)
Theorem short_mdhd_panics : mdhd_timescale (repeat 0 8) = Err Panic.
Proof. reflexivity. Qed.
