(* ===== verification/ImageSubs.v ===== *)
(** * Image subtitles (kahawai-media, src/imagesubs.rs, src/vobsub_file.rs)

    Blu-ray (PGS) and DVD (VobSub) subtitles as pictures, and the sidecar pair
    of a DVD rip taken apart. A picture is its RGBA bytes; a write outside them
    is [Panic], as is any index out of range. A position in a buffer that is
    only ever compared with the buffer's end is what is left of the buffer.
    Allocation is not modelled, and [to_png] calls an encoder. *)
From Stdlib Require Import SpecFloat.
From S2P Require Import Prelude Floats Utf8 Text Ebml.

#[local] Open Scope Z_scope.

Record ImageObject := mkImage { img_x : Z; img_y : Z; img_w : Z; img_h : Z; img_rgba : bytes }.
Record DisplaySet := mkDisplay { canvas_w : Z; canvas_h : Z; display_objects : list ImageObject }.

(** [u16::from_be_bytes]. *)
Definition be16 (a b : Z) : Z := Z.lor (Z.shiftl a 8) b.
Definition bit (b mask : Z) : bool := negb (Z.land b mask =? 0).

(** ** Pictures *)

Definition CLEAR : bytes := [0; 0; 0; 0].
Definition blank (w h : nat) : bytes := replicate (w * h * 4) 0.
(** [out[o..o + 4].copy_from_slice(px)]. *)
Definition write (o : nat) (px out : bytes) : result Error bytes :=
  if (o + 4 <=? length out)%nat then Ok (take o out ++ px ++ drop (o + 4) out) else Err Panic.

(** ** PGS *)

(** f32 arithmetic on a byte, and [as u8]: towards zero, saturating. *)
Definition f32_sub : float -> float -> float := fsub 24 128.
Definition f32_clamp (lo hi x : float) : float := if flt x lo then lo else if fgt x hi then hi else x.
Definition as_u8 (x : float) : Z :=
  match x with
  | S754_finite false m e => Z.min 255 (if 0 <=? e then Zpos m * 2 ^ e else Zpos m / 2 ^ (- e))
  | S754_infinity false => 255
  | _ => 0
  end.
Definition channel (x : float) : Z := as_u8 (f32_clamp (F32.of_int 0) (F32.of_int 255) x).

(** One palette entry, limited-range BT.709. *)
Definition rgba_of (y cr cb a : Z) : bytes :=
  let fy := F32.of_int y in let fcr := F32.of_int cr in let fcb := F32.of_int cb in
  let c128 := F32.of_int 128 in
  let yl := F32.mul (F32.lit 1164 (-3)) (f32_sub fy (F32.of_int 16)) in
  let r := F32.add yl (F32.mul (F32.lit 1793 (-3)) (f32_sub fcr c128)) in
  let g := f32_sub (f32_sub yl (F32.mul (F32.lit 213 (-3)) (f32_sub fcb c128)))
             (F32.mul (F32.lit 533 (-3)) (f32_sub fcr c128)) in
  let b := F32.add yl (F32.mul (F32.lit 2112 (-3)) (f32_sub fcb c128)) in
  [channel r; channel g; channel b; a].

Record PgsObject := mkPgs { pgs_w : Z; pgs_h : Z; pgs_rle : bytes; declared_len : Z }.
Record PgsDecoder := mkDecoder {
  palettes : gmap Z (list bytes); objects : gmap Z PgsObject; pending : gmap Z PgsObject }.
Definition pgs_default : PgsDecoder := mkDecoder ∅ ∅ ∅.

(** Canvas, palette and the objects to show with where. *)
Record Composition := mkComposition {
  comp_w : Z; comp_h : Z; comp_palette : Z; comp_refs : list (Z * Z * Z) }.

(** The references of a composition segment: [n] of them at most, and as many
    as fit; a cropped one is eight bytes longer. *)
Fixpoint pcs_refs (n : nat) (body : bytes) : list (Z * Z * Z) :=
  match n with
  | O => []
  | S n =>
      match body with
      | i0 :: i1 :: _ :: flags :: x0 :: x1 :: y0 :: y1 :: rest =>
          (be16 i0 i1, be16 x0 x1, be16 y0 y1)
          :: pcs_refs n (if bit flags 0x80 then drop 8 rest else rest)
      | _ => []
      end
  end.
Definition at_ (i : nat) (body : bytes) : Z := nth i body 0.

Definition presentation (body : bytes) (d : PgsDecoder) : PgsDecoder * Composition :=
  let d := if bit (at_ 7 body) 0x80 then mkDecoder ∅ ∅ ∅ else d in
  (d, mkComposition (be16 (at_ 0 body) (at_ 1 body)) (be16 (at_ 2 body) (at_ 3 body)) (at_ 9 body)
        (pcs_refs (Z.to_nat (at_ 10 body)) (drop 11 body))).

Fixpoint entries (body : bytes) (palette : list bytes) : list bytes :=
  match body with
  | i :: y :: cr :: cb :: a :: rest => entries rest (<[Z.to_nat i := rgba_of y cr cb a]> palette)
  | _ => palette
  end.
Definition empty_palette : list bytes := replicate 256 CLEAR.
Definition palette_segment (body : bytes) (d : PgsDecoder) : PgsDecoder :=
  match body with
  | id :: _ :: rest =>
      let palette := entries rest (unwrap_or (palettes d !! id) empty_palette) in
      mkDecoder (<[id := palette]> (palettes d)) (objects d) (pending d)
  | _ => d
  end.

Definition object_segment (body : bytes) (d : PgsDecoder) : PgsDecoder :=
  if (length body <? 4)%nat then d else
  let oid := be16 (at_ 0 body) (at_ 1 body) in
  let seq := at_ 3 body in
  if bit seq 0x80 && (length body <? 11)%nat then d else
  let pending :=
    if bit seq 0x80 then
      let declared := sat_sub (Z.lor (Z.shiftl (at_ 4 body) 16) (be16 (at_ 5 body) (at_ 6 body))) 4 in
      <[oid := mkPgs (be16 (at_ 7 body) (at_ 8 body)) (be16 (at_ 9 body) (at_ 10 body)) (drop 11 body) declared]>
        (pending d)
    else alter (fun p => mkPgs (pgs_w p) (pgs_h p) (pgs_rle p ++ drop 4 body) (declared_len p)) oid (pending d) in
  match (if bit seq 0x40 then pending !! oid else None) with
  | Some done => mkDecoder (palettes d) (<[oid := done]> (objects d)) (delete oid pending)
  | None => mkDecoder (palettes d) (objects d) pending
  end.

(** One segment. *)
Definition segment (seg_type : Z) (body : bytes) (s : PgsDecoder * option Composition)
    : result Error (PgsDecoder * option Composition) :=
  let '(d, comp) := s in
  if seg_type =? 0x16 then
    if (length body <? 11)%nat then Err Shape
    else let '(d, c) := presentation body d in Ok (d, Some c)
  else if seg_type =? 0x14 then Ok (palette_segment body d, comp)
  else if seg_type =? 0x15 then Ok (object_segment body d, comp)
  else Ok (d, comp).

(** The loop over a block; an error leaves what the earlier segments did. *)
Fixpoint segments (fuel : nat) (data : bytes) (s : PgsDecoder * option Composition)
    : (PgsDecoder * option Composition) * result Error unit :=
  match data with
  | seg_type :: s0 :: s1 :: rest =>
      match fuel with
      | O => (s, Err Diverges)
      | S fuel =>
          let size := Z.to_nat (be16 s0 s1) in
          if (length rest <? size)%nat then (s, Err Shape)
          else match segment seg_type (take size rest) s with
               | Err e => (s, Err e)
               | Ok s => segments fuel (drop size rest) s
               end
      end
  | _ => (s, Ok tt)
  end.

(** [run] pixels from [x]; those outside the picture are not written. *)
Fixpoint put (w h : nat) (px : bytes) (run x y : nat) (out : bytes) : result Error (nat * bytes) :=
  match run with
  | O => Ok (x, out)
  | S run =>
      if (x <? w)%nat && (y <? h)%nat then
        let? out := write ((y * w + x) * 4) px out in put w h px run (S x) y out
      else put w h px run (S x) y out
  end.
Definition colour (palette : list bytes) (c : Z) : bytes := unwrap_or (palette !! Z.to_nat c) CLEAR.

Fixpoint rle_loop (w h : nat) (palette : list bytes) (rle : bytes) (x y : nat) (out : bytes)
    : result Error bytes :=
  if (h <=? y)%nat then Ok out else
  match rle with
  | [] => Ok out
  | c :: r =>
      if negb (c =? 0) then
        let? p := put w h (colour palette c) 1 x y out in rle_loop w h palette r (fst p) y (snd p)
      else
        match r with
        | [] => Ok out
        | f :: r =>
            if f =? 0 then rle_loop w h palette r 0 (S y) out
            else
              let short := Z.land f 0x3F in
              if bit f 0x40 then
                match r with
                | [] => Err Shape
                | n :: r =>
                    let run := Z.to_nat (Z.lor (Z.shiftl short 8) n) in
                    if bit f 0x80 then
                      match r with
                      | [] => Err Shape
                      | c :: r =>
                          let? p := put w h (colour palette c) run x y out in
                          rle_loop w h palette r (fst p) y (snd p)
                      end
                    else let? p := put w h (colour palette 0) run x y out in
                         rle_loop w h palette r (fst p) y (snd p)
                end
              else
                let run := Z.to_nat short in
                if bit f 0x80 then
                  match r with
                  | [] => Err Shape
                  | c :: r =>
                      let? p := put w h (colour palette c) run x y out in
                      rle_loop w h palette r (fst p) y (snd p)
                  end
                else let? p := put w h (colour palette 0) run x y out in
                     rle_loop w h palette r (fst p) y (snd p)
        end
  end.
Definition pgs_rle_decode (rle : bytes) (w h : Z) (palette : list bytes) : result Error bytes :=
  let w := Z.to_nat w in let h := Z.to_nat h in
  rle_loop w h palette rle 0 0 (blank w h).

(** The objects a composition shows: known, complete and decodable. *)
Definition show_object (d : PgsDecoder) (palette : list bytes) (r : Z * Z * Z) : option ImageObject :=
  let '(oid, x, y) := r in
  match objects d !! oid with
  | None => None
  | Some obj =>
      if Z.of_nat (length (pgs_rle obj)) <? declared_len obj then None
      else match pgs_rle_decode (pgs_rle obj) (pgs_w obj) (pgs_h obj) palette with
           | Ok rgba => Some (mkImage x y (pgs_w obj) (pgs_h obj) rgba)
           | Err _ => None
           end
  end.
(** A panic inside [pgs_rle_decode] is not an [Err] the source drops. *)
Definition object_panics (d : PgsDecoder) (palette : list bytes) (r : Z * Z * Z) : bool :=
  let '(oid, _, _) := r in
  match objects d !! oid with
  | None => false
  | Some obj =>
      negb (Z.of_nat (length (pgs_rle obj)) <? declared_len obj)
      && match pgs_rle_decode (pgs_rle obj) (pgs_w obj) (pgs_h obj) palette with
         | Err Panic => true
         | _ => false
         end
  end.

Definition feed (data : bytes) (d : PgsDecoder) : PgsDecoder * result Error (option DisplaySet) :=
  match segments (length data) data (d, None) with
  | ((d, _), Err e) => (d, Err e)
  | ((d, None), Ok _) => (d, Ok None)
  | ((d, Some c), Ok _) =>
      let palette := unwrap_or (palettes d !! comp_palette c) empty_palette in
      (d, if existsb (object_panics d palette) (comp_refs c) then Err Panic
          else Ok (Some (mkDisplay (comp_w c) (comp_h c) (omap (show_object d palette) (comp_refs c)))))
  end.

(** ** VobSub: the text header *)

(** [u32::from_str_radix(s, 16)] and its [u64] twin. *)
Definition hex_digit (a : Ascii.ascii) : option Z :=
  match digit a with
  | Some d => Some d
  | None =>
      let n := Z.of_N (code (ascii_lower a)) in
      if (97 <=? n) && (n <=? 102) then Some (n - 87) else None
  end.
Fixpoint hex_digits (maxv acc : Z) (s : string) : option Z :=
  match s with
  | EmptyString => Some acc
  | String a s => d ← hex_digit a; if maxv <? acc * 16 + d then None else hex_digits maxv (acc * 16 + d) s
  end.
Definition parse_radix16 (maxv : Z) (s : string) : option Z :=
  match s with
  | EmptyString => None
  | String a r =>
      if Ascii.eqb a (byte 43) then (if r =s EmptyString then None else hex_digits maxv 0 r)
      else hex_digits maxv 0 s
  end.

Definition rgb_of (v : Z) : bytes := [Z.land (Z.shiftr v 16) 255; Z.land (Z.shiftr v 8) 255; Z.land v 255].
Definition palette_line (rest : string) : list bytes :=
  omap (fun c => rgb_of <$> parse_radix16 u32_max (trim c)) (split_char (byte 44) rest).
Fixpoint first_line {A} (f : string -> option A) (ls : list string) : option A :=
  match ls with
  | [] => None
  | l :: ls => match f l with Some a => Some a | None => first_line f ls end
  end.
Definition vobsub_palette (codec_private : string) : list bytes :=
  unwrap_or (first_line (fun l => palette_line <$> strip_prefix "palette:" (trim l)) (lines codec_private)) [].
Definition vobsub_size (codec_private : string) : option (Z * Z) :=
  first_line (fun l =>
    rest ← strip_prefix "size:" (trim l);
    '(w, h) ← split_once (byte 120) (trim rest);
    w ← parse_uint u32_max (trim w); h ← parse_uint u32_max (trim h); Some (w, h)) (lines codec_private).

(** [f32::round], half away from zero, on what the clamp leaves. *)
Definition f32_round (x : float) : float :=
  match x with
  | S754_finite s m e =>
      if 0 <=? e then x
      else F32.of_int ((if s then -1 else 1) * ((Zpos m + 2 ^ (- e - 1)) / 2 ^ (- e)))
  | _ => x
  end.
Definition rounded (x : float) : Z := as_u8 (f32_round (f32_clamp (F32.of_int 0) (F32.of_int 255) x)).
(** One [0x00YYCrCb] value, limited-range BT.601. *)
Definition dvd_rgb (value : Z) : bytes :=
  let byte_at k := F32.of_int (Z.land (Z.shiftr value k) 0xff) in
  let y := byte_at 16 in let cr := byte_at 8 in let cb := byte_at 0 in
  let c128 := F32.of_int 128 in
  let yl := F32.mul (F32.lit 1164 (-3)) (f32_sub y (F32.of_int 16)) in
  let r := F32.add yl (F32.mul (F32.lit 1596 (-3)) (f32_sub cr c128)) in
  let g := f32_sub (f32_sub yl (F32.mul (F32.lit 392 (-3)) (f32_sub cb c128)))
             (F32.mul (F32.lit 813 (-3)) (f32_sub cr c128)) in
  let b := F32.add yl (F32.mul (F32.lit 2017 (-3)) (f32_sub cb c128)) in
  [rounded r; rounded g; rounded b].
Definition vobsub_dvd_clut (clut : list Z) : list bytes := map dvd_rgb clut.

(** ** VobSub: the unit *)

Record Control := mkControl {
  pal_idx : list Z; alpha : list Z; cx1 : Z; cx2 : Z; cy1 : Z; cy2 : Z; top_at : Z; bot_at : Z }.
Definition control0 : Control := mkControl [0; 0; 0; 0] [0; 0; 0; 0] 0 0 0 0 0 0.
Definition nibbles (a b : Z) : list Z := [Z.shiftr a 4; Z.land a 15; Z.shiftr b 4; Z.land b 15].
Definition high12 (a b : Z) : Z := Z.lor (Z.shiftl a 4) (Z.shiftr b 4).
Definition low12 (a b : Z) : Z := Z.lor (Z.shiftl (Z.land a 15) 8) b.

(** The commands; a record cut short ends the walk. *)
Fixpoint control (spu : bytes) (c : Control) : Control :=
  match spu with
  | [] => c
  | cmd :: r =>
      if (cmd =? 0) || (cmd =? 1) then control r c
      else if cmd =? 2 then c
      else if cmd =? 3 then
        match r with
        | a :: b :: r => control r (mkControl (nibbles a b) (alpha c) (cx1 c) (cx2 c) (cy1 c) (cy2 c) (top_at c) (bot_at c))
        | _ => c
        end
      else if cmd =? 4 then
        match r with
        | a :: b :: r => control r (mkControl (pal_idx c) (nibbles a b) (cx1 c) (cx2 c) (cy1 c) (cy2 c) (top_at c) (bot_at c))
        | _ => c
        end
      else if cmd =? 5 then
        match r with
        | b0 :: b1 :: b2 :: b3 :: b4 :: b5 :: r =>
            control r (mkControl (pal_idx c) (alpha c) (high12 b0 b1) (low12 b1 b2) (high12 b3 b4) (low12 b4 b5)
              (top_at c) (bot_at c))
        | _ => c
        end
      else if cmd =? 6 then
        match r with
        | b0 :: b1 :: b2 :: b3 :: r =>
            control r (mkControl (pal_idx c) (alpha c) (cx1 c) (cx2 c) (cy1 c) (cy2 c) (be16 b0 b1) (be16 b2 b3))
        | _ => c
        end
      else if cmd =? 0xFF then c
      else control r c
  end.

(** The nibble at [n]; past the end, 0. *)
Definition nibble (spu : bytes) (n : nat) : Z :=
  let b := unwrap_or (spu !! (n / 2)%nat) 0 in
  if Nat.even n then Z.shiftr b 4 else Z.land b 15.

(** One code: its value, and where the next one starts. *)
Definition code_at (spu : bytes) (nib : nat) (left : nat) : Z * nat :=
  let read k := nibble spu (nib + k)%nat in
  let v := read 0%nat in
  if negb (v <? 0x4) then (v, (nib + 1)%nat) else
  let v := Z.lor (Z.shiftl v 4) (read 1%nat) in
  if negb (v <? 0x10) then (v, (nib + 2)%nat) else
  let v := Z.lor (Z.shiftl v 4) (read 2%nat) in
  if negb (v <? 0x40) then (v, (nib + 3)%nat) else
  let v := Z.lor (Z.shiftl v 4) (read 3%nat) in
  (if v <? 4 then Z.lor v (Z.shiftl (Z.of_nat left) 2) else v, (nib + 4)%nat).

(** [run] pixels from byte [o] on. *)
Fixpoint paint (px : bytes) (run o : nat) (out : bytes) : result Error bytes :=
  match run with
  | O => Ok out
  | S run => let? out := write o px out in paint px run (o + 4) out
  end.

Section Field.
  Context (spu : bytes) (palette16 : list bytes) (c : Control) (w h : nat).

Definition pixel (color : nat) : bytes :=
  let pi := nth (3 - color) (pal_idx c) 0 in
  let a := nth (3 - color) (alpha c) 0 in
  let rgb := unwrap_or (palette16 !! Z.to_nat pi) [0; 0; 0] in
  [nth 0 rgb 0; nth 1 rgb 0; nth 2 rgb 0; Z.lor (Z.shiftl a 4) a].

(** One field: every other line, from line [y]. A line is left when [x] reaches
    [w], so [w - x] is never negative. *)
Fixpoint field_loop (fuel nib x y : nat) (out : bytes) : result Error bytes :=
  if (h <=? y)%nat || (length spu <=? nib / 2)%nat then Ok out
  else
    match fuel with
    | O => Err Diverges
    | S fuel =>
        let '(v, nib) := code_at spu nib (w - x) in
        let run := Nat.min (Z.to_nat (Z.shiftr v 2)) (w - x) in
        let? out := paint (pixel (Z.to_nat (Z.land v 3))) run ((y * w + x) * 4) out in
        if (w <=? x + run)%nat then field_loop fuel ((nib + 1) / 2 * 2)%nat 0 (y + 2) out
        else field_loop fuel nib (x + run)%nat y out
    end.
Definition field (first start : nat) (out : bytes) : result Error bytes :=
  field_loop (2 * length spu) (start * 2) 0 first out.

End Field.

Definition vobsub_decode (spu : bytes) (palette16 : list bytes) : result Error (option ImageObject) :=
  if (length spu <? 6)%nat then Ok None else
  let ctrl_at := Z.to_nat (be16 (at_ 2 spu) (at_ 3 spu)) in
  if (length spu <=? ctrl_at)%nat then Err Shape else
  let c := control (drop (ctrl_at + 4) spu) control0 in
  if (cx2 c <? cx1 c) || (cy2 c <? cy1 c) || (top_at c =? 0) then Ok None else
  let w := cx2 c - cx1 c + 1 in let h := cy2 c - cy1 c + 1 in
  if (w =? 0) || (h =? 0) || (4096 <? w) || (4096 <? h) then Ok None else
  let wn := Z.to_nat w in let hn := Z.to_nat h in
  let? out := field spu palette16 c wn hn 0 (Z.to_nat (top_at c)) (blank wn hn) in
  let? out := field spu palette16 c wn hn 1 (Z.to_nat (bot_at c)) out in
  Ok (Some (mkImage (cx1 c) (cy1 c) w h out)).

(** ** VobSub: the sidecar pair *)

Record IdxTrack := mkTrack { track_id : Z; language : option string; track_entries : list (Z * Z) }.

Section Idx.
  Context (to_lowercase : string -> string).   (* str::to_lowercase *)

(** The parts of an [id:] line. *)
Definition id_part (s : option string * Z) (part : string) : option string * Z :=
  let '(lang, id) := s in
  let part := trim part in
  match strip_prefix "index:" part with
  | Some n => (lang, unwrap_or (parse_uint u32_max (trim n)) id)
  | None => if negb (part =s EmptyString) && is_none lang then (Some (to_lowercase part), id) else s
  end.
Definition idx_time (h m s ms : Z) : Z := wrap 64 (((h * 60 + m) * 60 + s) * 1000 + ms).
(** A [timestamp:] line: the time and the offset. *)
Definition idx_entry (rest : string) : option (Z * Z) :=
  '(ts, fp) ← split_once (byte 44) rest;
  pos ← strip_prefix "filepos:" (trim fp);
  match split_char (byte 58) (trim ts) with
  | [h; m; s; ms] =>
      h ← parse_uint u64_max h; m ← parse_uint u64_max m;
      s ← parse_uint u64_max s; ms ← parse_uint u64_max ms;
      pos ← parse_radix16 u64_max (trim pos);
      Some (idx_time h m s ms, pos)
  | _ => None
  end.
(** One line; the newest track is the last of the list. *)
Definition idx_line (tracks : list IdxTrack) (line : string) : list IdxTrack :=
  let line := trim line in
  match strip_prefix "id:" line with
  | Some rest =>
      let '(lang, id) := fold_left id_part (split_char (byte 44) rest) (None, wrap 32 (Z.of_nat (length tracks))) in
      tracks ++ [mkTrack id lang []]
  | None =>
      match strip_prefix "timestamp:" line with
      | Some rest =>
          match last tracks, idx_entry rest with
          | Some t, Some e =>
              take (length tracks - 1) tracks ++ [mkTrack (track_id t) (language t) (track_entries t ++ [e])]
          | _, _ => tracks
          end
      | None => tracks
      end
  end.
Definition parse_idx (text : string) : list IdxTrack := fold_left idx_line (lines text) [].

Definition PACK : nat := 2048.

(** [sub.get(at..at + PACK)]; a sum past the width wraps below [at], and the
    range is out of bounds like any other. *)
Definition pack_at (sub : bytes) (at_ : Z) : option bytes :=
  if at_ + Z.of_nat PACK <=? Z.of_nat (length sub) then Some (take PACK (drop (Z.to_nat at_) sub)) else None.

(** The PES packets of one pack, from [p] on: the unit so far and its size. *)
Fixpoint packets (fuel : nat) (pack : bytes) (p : nat) (substream : Z) (s : bytes * Z)
    : result Error (bytes * Z) :=
  if (PACK <? p + 6)%nat then Ok s
  else
    match fuel with
    | O => Err Diverges
    | S fuel =>
        match drop p pack with
        | c0 :: c1 :: c2 :: sid :: l0 :: l1 :: rest =>
            if negb ((c0 =? 0) && (c1 =? 0) && (c2 =? 1)) then Ok s else
            let len := Z.to_nat (be16 l0 l1) in
            if (length rest <? len)%nat then Err Shape else
            let body := take len rest in
            let continue_ s := packets fuel pack (p + 6 + len)%nat substream s in
            if negb (sid =? 0xBD) then continue_ s else
            match body !! 2%nat with
            | None => Err Shape
            | Some hdl =>
                let hdr := (3 + Z.to_nat hdl)%nat in
                if (length body <? hdr)%nat then Err Shape else
                match drop hdr body with
                | [] => continue_ s
                | ss :: frag =>
                    if negb (ss =? substream) then continue_ s else
                    let '(spu, want) := s in
                    match spu with
                    | [] =>
                        match frag with
                        | w0 :: w1 :: _ => continue_ (frag, be16 w0 w1)
                        | _ => Err Shape
                        end
                    | _ => continue_ (spu ++ frag, want)
                    end
                end
            end
        | _ => Err Panic
        end
    end.
Definition one_pack (pack : bytes) (substream : Z) (s : bytes * Z) : result Error (bytes * Z) :=
  match pack with
  | c0 :: c1 :: c2 :: c3 :: _ =>
      if negb ((c0 =? 0) && (c1 =? 0) && (c2 =? 1) && (c3 =? 0xBA)) then Err Shape
      else packets PACK pack (14 + Z.to_nat (Z.land (nth 13 pack 0) 0x07)) substream s
  | _ => Err Panic
  end.
Definition complete (s : bytes * Z) : bool := (0 <? snd s) && (snd s <=? Z.of_nat (length (fst s))).
(** At most [n] packs. *)
Fixpoint gather (n : nat) (sub : bytes) (at_ : Z) (substream : Z) (s : bytes * Z) : result Error (bytes * Z) :=
  match n with
  | O => Ok s
  | S n =>
      if complete s then Ok s
      else
        let? pack := ok_or (pack_at sub at_) Shape in
        let? s := one_pack pack substream s in
        gather n sub (at_ + Z.of_nat PACK) substream s
  end.
Definition assemble_spu (sub : bytes) (at_ : Z) (substream : Z) : result Error bytes :=
  let? s := gather 64 sub at_ substream ([], 0) in
  if complete s then Ok (take (Z.to_nat (snd s)) (fst s)) else Err Shape.

(** The commands of a control block: the unit is dated by the block with a stop. *)
Inductive Commands := Stop | EndOfBlock | Unreadable.
Fixpoint commands (spu : bytes) : Commands :=
  match spu with
  | [] => Unreadable
  | cmd :: r =>
      if (cmd =? 0) || (cmd =? 1) then commands r
      else if cmd =? 2 then Stop
      else if (cmd =? 3) || (cmd =? 4) then
        match r with _ :: _ :: r => commands r | _ => Unreadable end
      else if cmd =? 5 then
        match r with _ :: _ :: _ :: _ :: _ :: _ :: r => commands r | _ => Unreadable end
      else if cmd =? 6 then
        match r with _ :: _ :: _ :: _ :: r => commands r | _ => Unreadable end
      else if cmd =? 0xFF then EndOfBlock
      else Unreadable
  end.
Fixpoint stop_from (n : nat) (spu : bytes) (block : nat) : option Z :=
  match n with
  | O => None
  | S n =>
      match drop block spu with
      | d0 :: d1 :: n0 :: n1 :: rest =>
          match commands rest with
          | Stop => Some (be16 d0 d1 * 1024 / 90)
          | EndOfBlock =>
              let next := Z.to_nat (be16 n0 n1) in
              if (next =? block)%nat then None else stop_from n spu next
          | Unreadable => None
          end
      | _ => None
      end
  end.
Definition spu_stop_ms (spu : bytes) : option Z :=
  match drop 2 spu with
  | c0 :: c1 :: _ => stop_from 64 spu (Z.to_nat (be16 c0 c1))
  | _ => None
  end.

(** A unit that cannot be read is skipped; a panic is not. *)
Fixpoint blocks (sub : bytes) (substream : Z) (es : list (Z * Z)) : result Error (list (Z * option Z * bytes)) :=
  match es with
  | [] => Ok []
  | (start_ms, filepos) :: es =>
      match assemble_spu sub filepos substream with
      | Ok spu => let? rest := blocks sub substream es in Ok ((start_ms, spu_stop_ms spu, spu) :: rest)
      | Err Panic => Err Panic
      | Err Diverges => Err Diverges
      | Err _ => blocks sub substream es
      end
  end.
Definition extract_track (idx_text : string) (sub : bytes) (id : Z) : result Error (list (Z * option Z * bytes)) :=
  let? track := ok_or (List.find (fun t => track_id t =? id) (parse_idx idx_text)) Shape in
  let? bs := blocks sub (0x20 + Z.land (wrap 8 id) 0x1F) (track_entries track) in
  if bool_decide (bs = []) then Err Shape else Ok bs.

End Idx.
