(* ===== verification/ImageSubsTheorems.v ===== *)
(** * Image subtitles: pictures whole, and no panic on any bytes

    Every write of the decoders is inside the picture, whatever the bytes say;
    what a run-length writer spells is painted back exactly; a unit cut into
    the packs of a program stream is put together again. *)
From S2P Require Import Prelude Floats Utf8 Text Ebml ImageSubs.

#[local] Open Scope Z_scope.

(** ** Bytes and pictures *)

Lemma be16_val a b : 0 <= b < 256 -> be16 a b = a * 256 + b.
Proof.
  intros Hb. unfold be16. rewrite <- Z.add_nocarry_lor.
  - rewrite Z.shiftl_mul_pow2 by lia. lia.
  - apply Z.bits_inj'. intros n Hn. rewrite Z.land_spec, Z.bits_0.
    destruct (Z.ltb_spec n 8).
    + by rewrite Z.shiftl_spec_low.
    + rewrite (Z.bits_above_log2 b n), andb_false_r; [done|lia|].
      destruct (decide (b = 0)) as [->|]; [cbn; lia|]. apply Z.log2_lt_pow2; [lia|].
      pose proof (Z.pow_le_mono_r 2 8 n). lia.
Qed.

Definition wide (px : bytes) : Prop := length px = 4%nat.

Lemma write_ok o px out :
  wide px -> (o + 4 <= length out)%nat ->
  write o px out = Ok (take o out ++ px ++ drop (o + 4) out)
  /\ length (take o out ++ px ++ drop (o + 4) out) = length out.
Proof.
  intros Hpx Ho. unfold write, wide in *. rewrite (proj2 (Nat.leb_le _ _) Ho). split; [done|].
  rewrite !length_app, length_take, length_drop, Hpx. lia.
Qed.
(** Writing at the end of what is already painted. *)
Lemma write_next pre px m :
  wide px -> (4 <= m)%nat -> write (length pre) px (pre ++ replicate m 0) = Ok ((pre ++ px) ++ replicate (m - 4) 0).
Proof.
  intros Hpx Hm. destruct (write_ok (length pre) px (pre ++ replicate m 0)) as [-> _]; [done| |].
  - rewrite length_app, length_replicate. lia.
  - rewrite take_app_length, drop_app_add. rewrite drop_replicate. by rewrite app_assoc.
Qed.

Fixpoint stripe (n : nat) (px : bytes) : bytes :=
  match n with O => [] | S n => px ++ stripe n px end.
Lemma stripe_length n px : wide px -> length (stripe n px) = (n * 4)%nat.
Proof. intros Hpx. induction n as [|n IH]; [done|]. cbn [stripe]. rewrite length_app, IH, Hpx. lia. Qed.

Lemma offset_bound w h x y : (x < w)%nat -> (y < h)%nat -> ((y * w + x) * 4 + 4 <= w * h * 4)%nat.
Proof. intros Hx Hy. assert (S y * w <= h * w)%nat by (apply Nat.mul_le_mono_r; lia). lia. Qed.

(** ** PGS: no write outside the picture *)

Lemma put_ok w h px run x y out :
  wide px -> length out = (w * h * 4)%nat ->
  exists out', put w h px run x y out = Ok ((x + run)%nat, out') /\ length out' = (w * h * 4)%nat.
Proof.
  intros Hpx. revert x out. induction run as [|run IH]; intros x out Hout.
  - exists out. cbn. by rewrite Nat.add_0_r.
  - cbn [put]. destruct ((x <? w)%nat && (y <? h)%nat) eqn:Hin.
    + apply andb_true_iff in Hin as [Hx%Nat.ltb_lt Hy%Nat.ltb_lt].
      pose proof (offset_bound w h x y Hx Hy) as Ho.
      destruct (write_ok ((y * w + x) * 4) px out) as [Hw Hl]; [done|lia|]. rewrite Hw. cbn [rbind].
      replace (x + S run)%nat with (S x + run)%nat by lia. apply (IH (S x)). lia.
    + replace (x + S run)%nat with (S x + run)%nat by lia. by apply (IH (S x)).
Qed.

Definition palette_ok (palette : list bytes) : Prop := Forall wide palette.
Lemma colour_wide palette c : palette_ok palette -> wide (colour palette c).
Proof.
  intros H. unfold colour. destruct (palette !! Z.to_nat c) as [px|] eqn:Hp; [|done].
  exact (Forall_lookup_1 _ _ _ _ H Hp).
Qed.

(** What a decoder may answer for a picture of [n] bytes. *)
Definition painted (n : nat) (r : result Error bytes) : Prop :=
  match r with Ok out => length out = n | Err e => e = Shape end.

Lemma rle_loop_ok w h palette rle x y out :
  palette_ok palette -> length out = (w * h * 4)%nat -> painted (w * h * 4) (rle_loop w h palette rle x y out).
Proof.
  intros Hp. remember (length rle) as n eqn:Hn. revert rle Hn x y out.
  induction n as [n IH] using lt_wf_ind. intros rle Hn x y out Hout.
  assert (forall c run r, (length r < n)%nat ->
    painted (w * h * 4) (let? p := put w h (colour palette c) run x y out in rle_loop w h palette r (fst p) y (snd p))) as Hput.
  { intros c run r Hr. destruct (put_ok w h (colour palette c) run x y out) as (out' & -> & Hl);
      [by apply colour_wide|done|]. cbn [rbind fst snd]. by apply (IH (length r)). }
  destruct rle as [|c r]; cbn [rle_loop]; [by case_match|]. destruct (h <=? y)%nat; [done|].
  cbn [length] in Hn. destruct (negb (c =? 0)); [apply Hput; lia|].
  destruct r as [|f r]; [done|]. cbn [length] in Hn.
  destruct (f =? 0); [apply (IH (length r)); [lia|done..]|].
  repeat case_match; subst; cbn [length] in *; first [done | apply Hput; lia].
Qed.

(** ** PGS: what a writer spells is painted *)

(** A run of [n] pixels of colour [c], the shortest way. *)
Definition run_bytes (run : nat * Z) : bytes :=
  let '(n, c) := run in
  let z := Z.of_nat n in
  if (n =? 1)%nat && negb (c =? 0) then [c]
  else if z <? 64 then (if c =? 0 then [0; z] else [0; 0x80 + z; c])
  else if c =? 0 then [0; 0x40 + z / 256; z mod 256] else [0; 0xC0 + z / 256; z mod 256; c].
Definition line_bytes (runs : list (nat * Z)) : bytes := mjoin (map run_bytes runs) ++ [0; 0].

Definition run_ok (run : nat * Z) : Prop := 1 <= Z.of_nat (fst run) < 16384 /\ 0 <= snd run < 256.
Definition run_pixels (palette : list bytes) (run : nat * Z) : bytes := stripe (fst run) (colour palette (snd run)).
Definition line_pixels (palette : list bytes) (runs : list (nat * Z)) : bytes := mjoin (map (run_pixels palette) runs).
Definition line_width (runs : list (nat * Z)) : nat := sum_list_with fst runs.

Lemma put_stripe w h px run x y pre m :
  wide px -> length pre = ((y * w + x) * 4)%nat -> (x + run <= w)%nat -> (y < h)%nat -> (run * 4 <= m)%nat ->
  put w h px run x y (pre ++ replicate m 0) = Ok ((x + run)%nat, (pre ++ stripe run px) ++ replicate (m - run * 4) 0).
Proof.
  intros Hpx. revert x pre m. induction run as [|run IH]; intros x pre m Hpre Hx Hy Hm.
  - cbn. rewrite Nat.add_0_r, Nat.sub_0_r. cbn [stripe]. by rewrite app_nil_r.
  - cbn [put]. rewrite (proj2 (Nat.ltb_lt x w)), (proj2 (Nat.ltb_lt y h)) by lia. cbn [andb].
    rewrite <- Hpre, write_next by (done || lia). cbn [rbind].
    rewrite (IH (S x) (pre ++ px) (m - 4)%nat); [|rewrite length_app, Hpre, Hpx; lia|lia|lia|lia].
    f_equal. f_equal; [lia|]. cbn [stripe]. rewrite <- !app_assoc. do 4 f_equal. lia.
Qed.

(** The flag byte of a run: its length bits and its two flags. *)
Definition flag_facts (base : Z) (z : Z) : bool :=
  (Z.land (base + z) 0x3F =? z) && Bool.eqb (bit (base + z) 0x40) (bit base 0x40)
  && Bool.eqb (bit (base + z) 0x80) (bit base 0x80).
Lemma flag_ok base z : base ∈ [0; 0x40; 0x80; 0xC0] -> 0 <= z < 64 -> flag_facts base z = true.
Proof.
  intros Hb Hz. apply (z_enum (flag_facts base) 0 64); [|lia].
  repeat (apply elem_of_cons in Hb as [->|Hb]; [vm_compute; reflexivity|]). by apply elem_of_nil in Hb.
Qed.
Ltac use_flag base z :=
  let H := fresh in
  assert (flag_facts base z = true) as H by (apply flag_ok; [set_solver|lia]);
  let A := fresh "Hland" in let B := fresh "Hlong" in let C := fresh "Hcol" in
  apply andb_true_iff in H as [[A%Z.eqb_eq B%Bool.eqb_prop]%andb_true_iff C%Bool.eqb_prop];
  vm_compute (bit base _) in B; vm_compute (bit base _) in C.

Section Picture.
  Context (w h : nat) (palette : list bytes).
  Hypothesis Hpal : palette_ok palette.

Lemma rle_run run r x y out :
  run_ok run -> (y < h)%nat ->
  rle_loop w h palette (run_bytes run ++ r) x y out
  = (let? p := put w h (colour palette (snd run)) (fst run) x y out in rle_loop w h palette r (fst p) y (snd p)).
Proof.
  destruct run as [n c]. intros [Hn Hc] Hy. cbn [fst snd] in *. unfold run_bytes.
  assert ((h <=? y)%nat = false) as Hh by (apply Nat.leb_gt; lia).
  destruct ((n =? 1)%nat && negb (c =? 0)) eqn:H1.
  { apply andb_true_iff in H1 as [->%Nat.eqb_eq H1]. cbn [app rle_loop]. by rewrite Hh, H1. }
  set (z := Z.of_nat n) in *. assert (Z.to_nat z = n) as Hzn by lia.
  destruct (z <? 64) eqn:Hz; [apply Z.ltb_lt in Hz|apply Z.ltb_ge in Hz].
  - destruct (c =? 0) eqn:H0.
    + use_flag 0 z. change (0 + z) with z in *. apply Z.eqb_eq in H0 as ->. cbn [app rle_loop]. rewrite Hh.
      change (negb (0 =? 0)) with false. replace (z =? 0) with false by lia. cbn iota.
      by rewrite Hland, Hlong, Hcol, Hzn.
    + use_flag 0x80 z. cbn [app rle_loop]. rewrite Hh. change (negb (0 =? 0)) with false.
      replace (0x80 + z =? 0) with false by lia. cbn iota. by rewrite Hland, Hlong, Hcol, Hzn.
  - assert (0 <= z / 256 < 64) as Hq by (split; [apply Z.div_pos; lia|apply Z.div_lt_upper_bound; lia]).
    assert (Z.to_nat (Z.lor (Z.shiftl (z / 256) 8) (z mod 256)) = n) as Hrun.
    { change (Z.lor (Z.shiftl (z / 256) 8) (z mod 256)) with (be16 (z / 256) (z mod 256)).
      rewrite be16_val by (apply Z.mod_pos_bound; lia). rewrite <- Hzn. f_equal.
      rewrite (Z.div_mod z 256) at 3 by lia. lia. }
    destruct (c =? 0) eqn:H0.
    + use_flag 0x40 (z / 256). apply Z.eqb_eq in H0 as ->. cbn [app rle_loop]. rewrite Hh.
      change (negb (0 =? 0)) with false. replace (0x40 + z / 256 =? 0) with false by lia. cbn iota.
      by rewrite Hlong, Hcol, Hland, Hrun.
    + use_flag 0xC0 (z / 256). cbn [app rle_loop]. rewrite Hh. change (negb (0 =? 0)) with false.
      replace (0xC0 + z / 256 =? 0) with false by lia. cbn iota. by rewrite Hlong, Hcol, Hland, Hrun.
Qed.

(** From [x] on, a line is painted over what is still blank. *)
Lemma rle_line runs r x y pre m :
  Forall run_ok runs -> (y < h)%nat -> length pre = ((y * w + x) * 4)%nat ->
  (x + line_width runs <= w)%nat -> (line_width runs * 4 <= m)%nat ->
  rle_loop w h palette (mjoin (map run_bytes runs) ++ 0 :: 0 :: r) x y (pre ++ replicate m 0)
  = rle_loop w h palette r 0 (S y) ((pre ++ line_pixels palette runs) ++ replicate (m - line_width runs * 4) 0).
Proof.
  intros Hruns Hy. revert x pre m. induction Hruns as [|run runs Hrun Hruns IH]; intros x pre m Hpre Hx Hm.
  - cbn [map mjoin list_join app rle_loop line_width sum_list_with]. rewrite (proj2 (Nat.leb_gt h y)) by lia.
    unfold line_pixels. cbn. by rewrite app_nil_r, Nat.sub_0_r.
  - unfold line_width in *. cbn [sum_list_with] in *.
    change (mjoin (map run_bytes (run :: runs))) with (run_bytes run ++ mjoin (map run_bytes runs)).
    rewrite <- app_assoc, rle_run by done.
    rewrite put_stripe by (done || lia || by apply colour_wide). cbn [rbind fst snd].
    rewrite IH; [|rewrite length_app, stripe_length by (by apply colour_wide); lia|lia|lia].
    change (line_pixels palette (run :: runs)) with (run_pixels palette run ++ line_pixels palette runs).
    unfold run_pixels. rewrite <- !app_assoc. do 5 f_equal. lia.
Qed.

Lemma line_pixels_length runs : length (line_pixels palette runs) = (line_width runs * 4)%nat.
Proof.
  induction runs as [|run runs IH]; [done|].
  change (line_pixels palette (run :: runs)) with (run_pixels palette run ++ line_pixels palette runs).
  unfold line_width in *. cbn [sum_list_with]. rewrite length_app, IH. unfold run_pixels.
  rewrite stripe_length by (by apply colour_wide). lia.
Qed.

Definition lines_ok (lines : list (list (nat * Z))) : Prop :=
  Forall (fun runs => Forall run_ok runs /\ line_width runs = w) lines.

Lemma rle_lines lines y pre m :
  lines_ok lines -> (y + length lines <= h)%nat -> length pre = (y * w * 4)%nat -> (length lines * w * 4 <= m)%nat ->
  rle_loop w h palette (mjoin (map line_bytes lines)) 0 y (pre ++ replicate m 0)
  = Ok (pre ++ mjoin (map (line_pixels palette) lines) ++ replicate (m - length lines * w * 4) 0).
Proof.
  intros Hl. revert y pre m. induction Hl as [|runs lines [Hruns Hwidth] Hl IH]; intros y pre m Hy Hpre Hm.
  - cbn. rewrite Nat.sub_0_r. by case_match.
  - cbn [length] in *. change (mjoin (map line_bytes (runs :: lines))) with (line_bytes runs ++ mjoin (map line_bytes lines)).
    unfold line_bytes at 1. rewrite <- app_assoc. change ([0; 0] ++ ?r) with (0 :: 0 :: r).
    assert (length (runs :: lines) * w = w + length lines * w)%nat as Hmul by (cbn; lia). cbn [length] in Hmul.
    rewrite rle_line by (done || lia).
    rewrite IH; [|lia|rewrite length_app, line_pixels_length, Hwidth; cbn [Nat.mul]; lia|lia].
    change (mjoin (map (line_pixels palette) (runs :: lines)))
      with (line_pixels palette runs ++ mjoin (map (line_pixels palette) lines)).
    rewrite <- !app_assoc. do 5 f_equal. lia.
Qed.

End Picture.

(** A PGS bitmap spelled in runs is painted exactly: line by line, every
    pixel in the colour of its run, for runs of any length the format has. *)
Theorem pgs_roundtrip w h palette lines :
  0 <= w -> 0 <= h -> palette_ok palette ->
  lines_ok (Z.to_nat w) lines -> Z.of_nat (length lines) = h ->
  pgs_rle_decode (mjoin (map line_bytes lines)) w h palette = Ok (mjoin (map (line_pixels palette) lines)).
Proof.
  intros Hw Hh Hp Hl Hn. unfold pgs_rle_decode, blank. set (wn := Z.to_nat w) in *.
  replace (Z.to_nat h) with (length lines) by lia.
  pose proof (rle_lines wn (length lines) palette Hp lines 0 [] (wn * length lines * 4) Hl ltac:(lia) eq_refl ltac:(lia)) as H.
  cbn [app] in H. rewrite H. replace (wn * length lines * 4 - length lines * wn * 4)%nat with 0%nat by lia.
  by rewrite app_nil_r.
Qed.
Lemma pgs_roundtrip_witness :
  mjoin (map line_bytes [[(3%nat, 1); (1%nat, 0)]; [(1%nat, 1); (3%nat, 0)]]) = [0; 0x83; 1; 0; 1; 0; 0; 1; 0; 3; 0; 0]
  /\ pgs_rle_decode [0; 0x83; 1; 0; 1; 0; 0; 1; 0; 3; 0; 0] 4 2 [CLEAR; [255; 255; 255; 255]]
     = Ok (stripe 3 [255; 255; 255; 255] ++ CLEAR ++ [255; 255; 255; 255] ++ stripe 3 CLEAR).
Proof.
  split; [reflexivity|].
  apply (pgs_roundtrip 4 2 [CLEAR; [255; 255; 255; 255]] [[(3%nat, 1); (1%nat, 0)]; [(1%nat, 1); (3%nat, 0)]]);
    try done; repeat constructor; cbn; lia.
Defined.

(** ** The decoder as a whole *)

Lemma pgs_rle_decode_ok rle w h palette :
  palette_ok palette -> painted (Z.to_nat w * Z.to_nat h * 4) (pgs_rle_decode rle w h palette).
Proof. intros Hp. apply rle_loop_ok; [done|]. unfold blank. by rewrite length_replicate. Qed.

(** Palettes hold 256 colours of four bytes. *)
Definition decoder_ok (d : PgsDecoder) : Prop :=
  map_Forall (fun _ p => palette_ok p /\ length p = 256%nat) (palettes d).

Lemma empty_palette_ok : palette_ok empty_palette /\ length empty_palette = 256%nat.
Proof. split; [apply Forall_replicate|]; done. Qed.
Lemma entries_ok body p :
  palette_ok p -> palette_ok (entries body p) /\ length (entries body p) = length p.
Proof.
  remember (length body) as n eqn:Hn. revert body Hn p. induction n as [n IH] using lt_wf_ind. intros body Hn p Hp.
  destruct body as [|i [|y [|cr [|cb [|a rest]]]]]; cbn [entries]; try (by split). cbn [length] in Hn.
  destruct (IH (length rest) ltac:(lia) rest eq_refl (<[Z.to_nat i := rgba_of y cr cb a]> p)) as [H1 H2].
  - by apply Forall_insert.
  - split; [done|]. rewrite H2. apply length_insert.
Qed.
Lemma palette_segment_ok body d : decoder_ok d -> decoder_ok (palette_segment body d).
Proof.
  intros Hd. destruct body as [|id [|v rest]]; try done. unfold decoder_ok, palette_segment. cbn [palettes].
  apply map_Forall_insert_2; [|done].
  assert (palette_ok (unwrap_or (palettes d !! id) empty_palette)
    /\ length (unwrap_or (palettes d !! id) empty_palette) = 256%nat) as [H1 H2].
  { destruct (palettes d !! id) as [p|] eqn:Hp; [exact (Hd id p Hp)|apply empty_palette_ok]. }
  destruct (entries_ok rest _ H1) as [H3 H4]. split; [done|]. by rewrite H4.
Qed.
Lemma object_segment_palettes body d : palettes (object_segment body d) = palettes d.
Proof. unfold object_segment. repeat case_match; done. Qed.

Lemma segment_ok t body d c :
  decoder_ok d ->
  match segment t body (d, c) with Ok (d', _) => decoder_ok d' | Err e => e = Shape end.
Proof.
  intros Hd. unfold segment. destruct (t =? 0x16).
  { destruct (length body <? 11)%nat; [done|]. unfold presentation. by destruct (bit _ _). }
  destruct (t =? 0x14); [by apply palette_segment_ok|].
  destruct (t =? 0x15); [|done]. unfold decoder_ok. by rewrite object_segment_palettes.
Qed.
Lemma segments_ok fuel data d c :
  decoder_ok d -> (length data <= fuel)%nat ->
  match segments fuel data (d, c) with
  | ((d', _), Ok _) => decoder_ok d'
  | ((d', _), Err e) => decoder_ok d' /\ e = Shape
  end.
Proof.
  revert data d c. induction fuel as [|fuel IH]; intros data d c Hd Hf.
  - by destruct data as [|t [|s0 [|s1 rest]]]; [|simpl in Hf; lia..].
  - destruct data as [|t [|s0 [|s1 rest]]]; try done. cbn [segments].
    destruct (length rest <? Z.to_nat (be16 s0 s1))%nat; [done|].
    pose proof (segment_ok t (take (Z.to_nat (be16 s0 s1)) rest) d c Hd) as Hs.
    destruct (segment _ _ _) as [[d' c']|e]; [|by subst].
    apply IH; [done|]. rewrite length_drop. cbn [length] in Hf. lia.
Qed.

(** A picture as large as it says it is. *)
Definition image_ok (i : ImageObject) : Prop :=
  length (img_rgba i) = (Z.to_nat (img_w i) * Z.to_nat (img_h i) * 4)%nat.

(** C36: Feeding the PGS decoder any bytes ends without a panic: with a screen
    whose pictures are as large as they say, with definitions only, or with an
    error for a segment that overruns the block or a composition cut short; the
    decoder's tables stay well formed in each case, so feeding can go on. *)
Theorem feed_safe data d :
  decoder_ok d ->
  decoder_ok (fst (feed data d))
  /\ match snd (feed data d) with
     | Ok (Some set) => Forall image_ok (display_objects set)
     | Ok None => True
     | Err e => e = Shape
     end.
Proof.
  intros Hd. unfold feed. pose proof (segments_ok (length data) data d None Hd ltac:(lia)) as Hs.
  destruct (segments _ _ _) as [[d' [c|]] [u|e]]; cbn [fst snd]; try (by destruct Hs); try by split.
  split; [done|].
  set (palette := unwrap_or (palettes d' !! comp_palette c) empty_palette).
  assert (palette_ok palette) as Hp.
  { unfold palette. destruct (palettes d' !! comp_palette c) as [p|] eqn:Hl; [apply (Hs _ _ Hl)|apply empty_palette_ok]. }
  destruct (existsb (object_panics d' palette) (comp_refs c)) eqn:Hx.
  - exfalso. apply existsb_exists in Hx as ([[oid x] y] & _ & Hx). cbn in Hx.
    destruct (objects d' !! oid) as [o|]; [|done]. apply andb_true_iff in Hx as [_ Hx].
    pose proof (pgs_rle_decode_ok (pgs_rle o) (pgs_w o) (pgs_h o) palette Hp) as Hr.
    destruct (pgs_rle_decode _ _ _ _) as [?|e]; [done|]. cbn in Hr. by subst.
  - apply Forall_forall. intros i Hi. apply list_elem_of_omap in Hi as ([[oid x] y] & _ & Hi). cbn in Hi.
    destruct (objects d' !! oid) as [o|]; [|done]. destruct (_ <? _); [done|].
    pose proof (pgs_rle_decode_ok (pgs_rle o) (pgs_w o) (pgs_h o) palette Hp) as Hr.
    destruct (pgs_rle_decode _ _ _ _) as [out|e]; [|done]. injection Hi as <-. exact Hr.
Qed.

(** A Blu-ray display set: a 4 by 2 white picture at (100, 900). *)
Definition white_set : bytes :=
  [0x16; 0; 19; 7; 128; 4; 56; 0x10; 0; 1; 0x80; 0; 0; 1; 0; 7; 0; 0; 0; 100; 3; 132;
   0x14; 0; 7; 0; 0; 1; 235; 128; 128; 255;
   0x15; 0; 21; 0; 7; 0; 0xC0; 0; 0; 14; 0; 4; 0; 2; 0; 0x84; 1; 0; 0; 0; 0x84; 1; 0; 0;
   0x80; 0; 0].
Lemma feed_safe_witness :
  exists set, snd (feed white_set pgs_default) = Ok (Some set)
    /\ Forall image_ok (display_objects set) /\ map img_x (display_objects set) = [100]
    /\ map img_rgba (display_objects set) = [stripe 8 [254; 254; 254; 255]].
Proof.
  assert (decoder_ok pgs_default) as Hd by apply map_Forall_empty.
  destruct (feed_safe white_set pgs_default Hd) as [_ H].
  eexists. split; [vm_compute; reflexivity|]. split; [exact H|]. by vm_compute.
Defined.

(** ** VobSub *)

Lemma paint_ok px run o out :
  wide px -> (o + run * 4 <= length out)%nat ->
  exists out', paint px run o out = Ok out' /\ length out' = length out.
Proof.
  intros Hpx. revert o out. induction run as [|run IH]; intros o out Ho; [by exists out|]. cbn [paint].
  destruct (write_ok o px out) as [-> Hl]; [done|lia|]. cbn [rbind].
  destruct (IH (o + 4)%nat (take o out ++ px ++ drop (o + 4) out)) as (out' & -> & Hl'); [lia|].
  exists out'. split; [done|]. by rewrite Hl'.
Qed.
Lemma code_at_forward spu nib left : (nib < snd (code_at spu nib left))%nat.
Proof. unfold code_at. repeat case_match; cbn [snd]; lia. Qed.
Lemma pixel_wide palette16 c color : wide (pixel palette16 c color).
Proof. done. Qed.
Lemma align_forward n : (n <= (n + 1) / 2 * 2)%nat.
Proof. pose proof (Nat.div_mod (n + 1) 2). pose proof (Nat.mod_upper_bound (n + 1) 2). lia. Qed.

Section Field.
  Context (spu : bytes) (palette16 : list bytes) (c : Control) (w h : nat).

Lemma field_loop_ok fuel nib x y out :
  (x < w)%nat -> length out = (w * h * 4)%nat -> (2 * length spu <= nib + fuel)%nat ->
  exists out', field_loop spu palette16 c w h fuel nib x y out = Ok out' /\ length out' = (w * h * 4)%nat.
Proof.
  revert nib x y out. induction fuel as [|fuel IH]; intros nib x y out Hx Hout Hf.
  - cbn [field_loop]. assert (length spu <= nib / 2)%nat as Hl by (apply Nat.div_le_lower_bound; lia).
    rewrite (proj2 (Nat.leb_le _ _) Hl), orb_true_r. by exists out.
  - cbn [field_loop]. destruct (h <=? y)%nat eqn:Hy; [by exists out|]. apply Nat.leb_gt in Hy.
    destruct (length spu <=? nib / 2)%nat; [by exists out|]. cbn [orb].
    pose proof (code_at_forward spu nib (w - x)) as Hfwd. destruct (code_at spu nib (w - x)) as [v nib'].
    cbn [snd] in Hfwd. set (run := Nat.min _ (w - x)). assert (x + run <= w)%nat as Hrun by (unfold run; lia).
    destruct (paint_ok (pixel palette16 c (Z.to_nat (Z.land v 3))) run ((y * w + x) * 4) out) as (out' & -> & Hl).
    + apply pixel_wide.
    + rewrite Hout. assert (S y * w <= h * w)%nat by (apply Nat.mul_le_mono_r; lia). lia.
    + cbn [rbind]. pose proof (align_forward nib'). destruct (w <=? x + run)%nat eqn:Hw.
      * apply IH; lia.
      * apply Nat.leb_gt in Hw. apply IH; lia.
Qed.
Lemma field_ok first start out :
  (0 < w)%nat -> length out = (w * h * 4)%nat ->
  exists out', field spu palette16 c w h first start out = Ok out' /\ length out' = (w * h * 4)%nat.
Proof. intros Hw Hout. apply field_loop_ok; [done..|lia]. Qed.
End Field.

(** Decoding a DVD subtitle unit of any bytes ends without a panic: with no
    picture, with one of at most 4096 by 4096 that is as large as it says, or
    with an error exactly when the control offset points past the unit. *)
Theorem vobsub_safe spu palette16 :
  match vobsub_decode spu palette16 with
  | Ok (Some img) => image_ok img /\ 1 <= img_w img <= 4096 /\ 1 <= img_h img <= 4096
  | Ok None => True
  | Err e => e = Shape /\ (6 <= length spu <= Z.to_nat (be16 (at_ 2 spu) (at_ 3 spu)))%nat
  end.
Proof.
  unfold vobsub_decode. destruct (length spu <? 6)%nat eqn:H6; [done|]. apply Nat.ltb_ge in H6.
  destruct (length spu <=? Z.to_nat (be16 (at_ 2 spu) (at_ 3 spu)))%nat eqn:Hc; [by apply Nat.leb_le in Hc|].
  set (c := control _ _). clearbody c.
  destruct ((cx2 c <? cx1 c) || (cy2 c <? cy1 c) || (top_at c =? 0)) eqn:Hg; [done|].
  apply orb_false_iff in Hg as [[Hx%Z.ltb_ge Hy%Z.ltb_ge]%orb_false_iff _].
  set (w := cx2 c - cx1 c + 1) in *. set (h := cy2 c - cy1 c + 1) in *.
  destruct ((w =? 0) || (h =? 0) || (4096 <? w) || (4096 <? h)) eqn:Hs; [done|].
  apply orb_false_iff in Hs as [[_ Hw2%Z.ltb_ge]%orb_false_iff Hh2%Z.ltb_ge].
  destruct (field_ok spu palette16 c (Z.to_nat w) (Z.to_nat h) 0 (Z.to_nat (top_at c)) (blank (Z.to_nat w) (Z.to_nat h)))
    as (out & -> & Hl); [lia|unfold blank; by rewrite length_replicate|]. cbn [rbind].
  destruct (field_ok spu palette16 c (Z.to_nat w) (Z.to_nat h) 1 (Z.to_nat (bot_at c)) out) as (out' & -> & Hl');
    [lia|done|]. cbn [rbind img_w img_h]. split; [exact Hl'|lia].
Qed.

(** ** The sidecar stream *)

(** A PES packet as written: stream id and body. *)
Definition packet_bytes (p : Z * bytes) : bytes :=
  [0; 0; 1; fst p; Z.of_nat (length (snd p)) / 256; Z.of_nat (length (snd p)) mod 256] ++ snd p.
(** The part of a unit a packet carries for a substream, if any. *)
Definition fragment (substream : Z) (p : Z * bytes) : option bytes :=
  if negb (fst p =? 0xBD) then None else
  match drop (3 + Z.to_nat (nth 2 (snd p) 0%Z)) (snd p) with
  | ss :: frag => if ss =? substream then Some frag else None
  | [] => None
  end.
Definition packet_ok (substream : Z) (p : Z * bytes) : Prop :=
  Z.of_nat (length (snd p)) < 2 ^ 16
  /\ (fst p = 0xBD -> (3 + Z.to_nat (nth 2 (snd p) 0%Z) <= length (snd p))%nat)
  /\ (forall f, fragment substream p = Some f -> (2 <= length f)%nat).
Definition add_fragment (s : bytes * Z) (f : bytes) : bytes * Z :=
  match fst s with
  | [] => (f, be16 (nth 0 f 0) (nth 1 f 0))
  | _ => (fst s ++ f, snd s)
  end.

Lemma packets_step fuel pack p substream s q rest :
  drop p pack = packet_bytes q ++ rest -> (p + 6 <= PACK)%nat -> packet_ok substream q ->
  packets (S fuel) pack p substream s
  = packets fuel pack (p + 6 + length (snd q)) substream
      (match fragment substream q with Some f => add_fragment s f | None => s end).
Proof.
  intros Hd Hp (Hlen & Hhdr & Hfrag). cbn [packets]. rewrite (proj2 (Nat.ltb_ge PACK (p + 6)) Hp), Hd.
  destruct q as [sid body]. cbn [packet_bytes fst snd app] in *.
  change (negb ((0 =? 0) && (0 =? 0) && (1 =? 1))) with false. cbn iota.
  rewrite be16_val by (apply Z.mod_pos_bound; lia).
  replace (Z.of_nat (length body) / 256 * 256 + Z.of_nat (length body) mod 256) with (Z.of_nat (length body))
    by (rewrite (Z.div_mod (Z.of_nat (length body)) 256) at 1 by lia; lia).
  rewrite Nat2Z.id. rewrite (proj2 (Nat.ltb_ge (length (body ++ rest)) (length body))) by (rewrite length_app; lia).
  rewrite take_app_length. unfold fragment in *. cbn [fst snd] in *.
  destruct (Z.eqb_spec sid 0xBD) as [->|Hsid]; cbn [negb] in *; [|done].
  specialize (Hhdr eq_refl). destruct body as [|b0 [|b1 [|hdl body']]]; try (simpl in Hhdr; lia).
  set (body := b0 :: b1 :: hdl :: body') in *. change (body !! 2%nat) with (Some hdl). change (nth 2 body 0%Z) with hdl in *.
  cbn beta iota zeta.
  rewrite (proj2 (Nat.ltb_ge (length body) (3 + Z.to_nat hdl)) Hhdr).
  destruct (drop (3 + Z.to_nat hdl) body) as [|ss f]; [done|].
  destruct (ss =? substream); cbn [negb]; [|done]. specialize (Hfrag f eq_refl). destruct s as [[|x spu] want]; [|done].
  destruct f as [|w0 [|w1 f]]; [simpl in Hfrag; lia..|]. done.
Qed.

(** A pack: its header with stuffing, packets, and what ends the walk. *)
Record Pack := mkPack { pk_header : bytes; pk_packets : list (Z * bytes); pk_tail : bytes }.
Definition pack_bytes (k : Pack) : bytes := pk_header k ++ mjoin (map packet_bytes (pk_packets k)) ++ pk_tail k.
Definition pack_ok (substream : Z) (k : Pack) : Prop :=
  take 4 (pk_header k) = [0; 0; 1; 0xBA]
  /\ length (pk_header k) = (14 + Z.to_nat (Z.land (nth 13 (pk_header k) 0%Z) 0x07))%nat
  /\ Forall (packet_ok substream) (pk_packets k)
  /\ ((length (pk_tail k) < 6)%nat \/ take 3 (pk_tail k) <> [0; 0; 1])
  /\ length (pack_bytes k) = PACK.
Definition fragments (substream : Z) (k : Pack) : list bytes := omap (fragment substream) (pk_packets k).

Lemma packets_stop fuel pack p substream s :
  (length (drop p pack) < 6)%nat \/ take 3 (drop p pack) <> [0; 0; 1] -> length pack = PACK ->
  packets (S fuel) pack p substream s = Ok s.
Proof.
  intros Hstop Hlen. cbn [packets]. destruct (PACK <? p + 6)%nat eqn:Hp; [done|]. apply Nat.ltb_ge in Hp.
  assert (6 <= length (drop p pack))%nat as H6 by (rewrite length_drop; lia).
  destruct Hstop as [Hs|Hs]; [lia|].
  destruct (drop p pack) as [|c0 [|c1 [|c2 [|sid [|l0 [|l1 rest]]]]]]; try (simpl in H6; lia).
  destruct ((c0 =? 0) && (c1 =? 0) && (c2 =? 1)) eqn:Hc; [|done]. exfalso. apply Hs.
  apply andb_true_iff in Hc as [[->%Z.eqb_eq ->%Z.eqb_eq]%andb_true_iff ->%Z.eqb_eq]. done.
Qed.

Lemma packets_fold pkts fuel pack p substream s tail :
  drop p pack = mjoin (map packet_bytes pkts) ++ tail -> length pack = PACK -> (length pkts < fuel)%nat ->
  Forall (packet_ok substream) pkts -> (length tail < 6)%nat \/ take 3 tail <> [0; 0; 1] ->
  packets fuel pack p substream s = Ok (fold_left add_fragment (omap (fragment substream) pkts) s).
Proof.
  intros Hd Hlen Hf Hok Htail. revert fuel p s Hd Hf. induction Hok as [|q pkts Hq Hok IH]; intros fuel p s Hd Hf.
  - destruct fuel as [|fuel]; [simpl in Hf; lia|]. apply packets_stop; [|done]. by rewrite Hd.
  - destruct fuel as [|fuel]; [simpl in Hf; lia|].
    change (mjoin (map packet_bytes (q :: pkts))) with (packet_bytes q ++ mjoin (map packet_bytes pkts)) in Hd.
    rewrite <- app_assoc in Hd.
    assert (length (packet_bytes q) = (6 + length (snd q))%nat) as Hq6 by (unfold packet_bytes; by rewrite length_app).
    pose proof (f_equal length Hd) as Hl. rewrite length_drop, length_app in Hl.
    rewrite (packets_step _ _ _ _ _ q _ Hd) by (done || lia). rewrite IH.
    + cbn [omap list_omap]. by destruct (fragment substream q).
    + rewrite <- Nat.add_assoc, <- drop_drop, Hd, <- Hq6. apply drop_app_length.
    + simpl in Hf. lia.
Qed.

Lemma one_pack_fold k substream s :
  pack_ok substream k -> one_pack (pack_bytes k) substream s = Ok (fold_left add_fragment (fragments substream k) s).
Proof.
  intros (Hh & Hl & Hp & Ht & Hlen). unfold one_pack.
  assert (exists r, pack_bytes k = 0 :: 0 :: 1 :: 0xBA :: r) as [r Hr].
  { unfold pack_bytes. rewrite <- (take_drop 4 (pk_header k)), Hh. by eexists. }
  assert (nth 13 (pack_bytes k) 0 = nth 13 (pk_header k) 0%Z) as H13.
  { unfold pack_bytes. apply app_nth1. lia. }
  rewrite Hr. cbn [negb andb Z.eqb]. change (negb _) with false at 1. cbn iota. rewrite <- Hr, H13, <- Hl.
  apply packets_fold with (pk_tail k); try done.
  - unfold pack_bytes. by rewrite drop_app_length.
  - assert (length (pk_packets k) <= length (mjoin (map packet_bytes (pk_packets k))))%nat as Hle.
    { generalize (pk_packets k). intros l. induction l as [|q l IH]; [done|].
      change (mjoin (map packet_bytes (q :: l))) with (packet_bytes q ++ mjoin (map packet_bytes l)).
      rewrite length_app. unfold packet_bytes at 1. rewrite length_app. simpl in *. lia. }
    unfold pack_bytes in Hlen. rewrite !length_app in Hlen. lia.
Qed.

(** Collecting keeps the size the first fragment declared and appends. *)
Lemma add_fragments_more fs spu want :
  spu <> [] -> fold_left add_fragment fs (spu, want) = (spu ++ mjoin fs, want).
Proof.
  revert spu. induction fs as [|f fs IH]; intros spu Hs; [by rewrite app_nil_r|]. cbn [fold_left].
  unfold add_fragment at 2. cbn [fst snd]. destruct spu as [|x spu]; [done|].
  rewrite IH by done. change (mjoin (f :: fs)) with (f ++ mjoin fs). by rewrite app_assoc.
Qed.
(** What has been collected once the fragments spell [acc]. *)
Definition collected (s : bytes * Z) (acc : bytes) : Prop :=
  fst s = acc /\ snd s = match acc with w0 :: w1 :: _ => be16 w0 w1 | _ => 0 end.
Lemma add_fragments fs s acc :
  collected s acc -> Forall (fun f => (2 <= length f)%nat) fs -> (acc = [] \/ (2 <= length acc)%nat) ->
  collected (fold_left add_fragment fs s) (acc ++ mjoin fs).
Proof.
  destruct s as [spu want]. intros [Hs Hw] Hfs Hacc. cbn [fst snd] in *. subst spu.
  destruct acc as [|x acc].
  - destruct fs as [|f fs]; [by split|]. inversion Hfs as [|? ? Hf _]; subst.
    destruct f as [|w0 [|w1 f]]; [simpl in Hf; lia..|]. cbn [fold_left]. unfold add_fragment at 2. cbn [fst].
    rewrite add_fragments_more by done. by split.
  - destruct Hacc as [|Hacc]; [done|]. rewrite add_fragments_more by done.
    destruct acc as [|y acc]; [simpl in Hacc; lia|]. by split.
Qed.

Lemma pack_at_spec pre k rest :
  length (pack_bytes k) = PACK ->
  pack_at (pre ++ pack_bytes k ++ rest) (Z.of_nat (length pre)) = Some (pack_bytes k).
Proof.
  intros Hk. unfold pack_at. rewrite Nat2Z.id, drop_app_length, <- Hk, take_app_length.
  rewrite !length_app. by rewrite (proj2 (Z.leb_le _ _)) by lia.
Qed.

Section Reassembly.
  Context (substream : Z) (w0 w1 : Z) (unit_ : bytes).
Let spu := w0 :: w1 :: unit_.
  Hypothesis Hsize : be16 w0 w1 = Z.of_nat (length spu).

Lemma gather_packs n packs pre post s acc extra :
  Forall (pack_ok substream) packs -> (length packs <= n)%nat ->
  collected s acc -> (acc = [] \/ (2 <= length acc)%nat) ->
  acc ++ mjoin (mjoin (map (fragments substream) packs)) = spu ++ extra ->
  exists s' k, gather n (pre ++ mjoin (map pack_bytes packs) ++ post) (Z.of_nat (length pre)) substream s = Ok s'
    /\ collected s' (take k (spu ++ extra)) /\ (length spu <= k)%nat.
Proof.
  intros Hok. revert n pre s acc. induction Hok as [|k packs Hk Hok IH]; intros n pre s acc Hn Hs Hacc Hall.
  - cbn [map mjoin list_join app] in Hall. rewrite app_nil_r in Hall.
    assert (complete s = true) as Hc.
    { destruct Hs as [Hs1 Hs2]. unfold complete. rewrite Hs1, Hs2, Hall. cbn [app spu]. rewrite Hsize.
      apply andb_true_iff. split; [apply Z.ltb_lt|apply Z.leb_le]; unfold spu; cbn [length app]; rewrite ?length_app; lia. }
    exists s, (length acc). split; [destruct n; cbn [gather]; by rewrite ?Hc|]. rewrite <- Hall, firstn_all. split; [done|].
    apply (f_equal length) in Hall. rewrite length_app in Hall. lia.
  - destruct n as [|n]; [simpl in Hn; lia|]. cbn [gather]. destruct (complete s) eqn:Hc.
    + exists s, (length acc). split; [done|]. rewrite <- Hall, take_app_length. split; [done|].
      destruct Hs as [Hs1 Hs2]. unfold complete in Hc. apply andb_true_iff in Hc as [Hc1%Z.ltb_lt Hc2%Z.leb_le].
      rewrite Hs1 in Hc2. rewrite Hs2 in Hc1, Hc2.
      destruct acc as [|a0 [|a1 acc]]; try lia. cbn [app] in Hall. injection Hall as -> -> Hall. lia.
    + change (mjoin (map pack_bytes (k :: packs))) with (pack_bytes k ++ mjoin (map pack_bytes packs)).
      rewrite <- app_assoc. pose proof Hk as (_ & _ & Hpk & _ & Hlen). rewrite pack_at_spec by done.
      cbn [ok_or rbind]. rewrite one_pack_fold by done. cbn [rbind].
      replace (Z.of_nat (length pre) + Z.of_nat PACK) with (Z.of_nat (length (pre ++ pack_bytes k)))
        by (rewrite length_app, Hlen; lia).
      rewrite app_assoc.
      assert (Forall (fun f => (2 <= length f)%nat) (fragments substream k)) as Hfs.
      { apply Forall_forall. intros f Hf. unfold fragments in Hf. apply list_elem_of_omap in Hf as (q & Hq & Hf).
        rewrite Forall_forall in Hpk. destruct (Hpk q Hq) as (_ & _ & H). by apply H. }
      apply (IH n (pre ++ pack_bytes k) _ (acc ++ mjoin (fragments substream k))).
      * simpl in Hn. lia.
      * by apply add_fragments.
      * destruct (fragments substream k) as [|f fs]; [rewrite app_nil_r; done|]. right.
        inversion Hfs as [|? ? Hf _]; subst. change (mjoin (f :: fs)) with (f ++ mjoin fs). rewrite !length_app. lia.
      * rewrite <- Hall, <- app_assoc. f_equal.
        change (map (fragments substream) (k :: packs)) with (fragments substream k :: map (fragments substream) packs).
        change (mjoin (fragments substream k :: map (fragments substream) packs))
          with (fragments substream k ++ mjoin (map (fragments substream) packs)).
        by rewrite join_app.
Qed.

(** C37: A subtitle unit cut into the packs of a program stream is put together
    again, wherever the stream starts, whatever other streams are interleaved
    and whatever follows the unit's last byte, up to the sixty-four packs a
    walk covers. *)
Theorem spu_reassembled packs pre post extra :
  Forall (pack_ok substream) packs -> (length packs <= 64)%nat ->
  mjoin (mjoin (map (fragments substream) packs)) = spu ++ extra ->
  assemble_spu (pre ++ mjoin (map pack_bytes packs) ++ post) (Z.of_nat (length pre)) substream = Ok spu.
Proof.
  intros Hok Hn Hall. unfold assemble_spu.
  destruct (gather_packs 64 packs pre post ([], 0) [] extra) as (s' & k & -> & [Hs1 Hs2] & Hk); try done; [by left|].
  cbn [rbind]. assert (take k (spu ++ extra) = spu ++ take (k - length spu) extra) as Ht.
  { rewrite take_app. by rewrite (firstn_all2 spu) by lia. }
  rewrite Ht in Hs1, Hs2. cbn [app spu] in Hs2. rewrite Hsize in Hs2.
  assert (complete s' = true) as ->.
  { unfold complete. rewrite Hs1, Hs2. apply andb_true_iff.
    split; [apply Z.ltb_lt|apply Z.leb_le]; rewrite ?length_app; unfold spu; cbn [length]; lia. }
  rewrite Hs1, Hs2, Nat2Z.id. by rewrite take_app_length.
Qed.

End Reassembly.

Definition zeros (n : nat) : bytes := replicate n 0.
(** Two packs: another track and the first bytes of a unit; the rest of it. *)
Definition test_packs : list Pack :=
  [mkPack ([0; 0; 1; 0xBA] ++ zeros 9 ++ [0xF8]) [(0xBD, [0x81; 0x80; 0; 0x21; 9; 9; 9]); (0xBD, [0x81; 0x80; 1; 0; 0x20; 0; 7; 1; 2])]
     (zeros 2006);
   mkPack ([0; 0; 1; 0xBA] ++ zeros 9 ++ [0xF9] ++ zeros 1) [(0xBE, zeros 20); (0xBD, [0x81; 0x80; 0; 0x20; 3; 4; 5; 6])] (zeros 1993)].
Lemma spu_reassembled_witness :
  exists sub, Z.of_nat (length sub) = 3 + 2 * 2048 + 5 /\ assemble_spu sub 3 0x20 = Ok [0; 7; 1; 2; 3; 4; 5].
Proof.
  exists (zeros 3 ++ mjoin (map pack_bytes test_packs) ++ zeros 5). split; [vm_compute; reflexivity|].
  apply (spu_reassembled 0x20 0 7 [1; 2; 3; 4; 5] eq_refl test_packs (zeros 3) (zeros 5) [6]).
  - repeat (apply Forall_cons; split); try done; repeat split; try (vm_compute; reflexivity);
      try (right; vm_compute; discriminate).
    all: repeat (apply Forall_cons; split); try done; repeat split; try (vm_compute; reflexivity);
      try (intros f [= <-]; cbn; lia); try (intros; cbn; lia); intros f H; vm_compute in H; by try injection H as <-; cbn; lia.
  - cbn. lia.
  - vm_compute. reflexivity.
Defined.

(** *** Any bytes *)

Definition readable {A} (r : result Error A) : Prop := match r with Ok _ => True | Err e => e = Shape end.

Lemma packets_safe fuel pack p substream s :
  length pack = PACK -> (PACK <= p + fuel)%nat -> readable (packets fuel pack p substream s).
Proof.
  intros Hlen. revert p s. induction fuel as [|fuel IH]; intros p s Hf.
  - cbn [packets]. rewrite (proj2 (Nat.ltb_lt _ _)) by lia. done.
  - cbn [packets]. destruct (PACK <? p + 6)%nat eqn:Hp; [done|]. apply Nat.ltb_ge in Hp.
    assert (6 <= length (drop p pack))%nat as H6 by (rewrite length_drop; lia).
    destruct (drop p pack) as [|c0 [|c1 [|c2 [|sid [|l0 [|l1 rest]]]]]]; try (simpl in H6; lia).
    destruct (negb _); [done|]. destruct (_ <? _)%nat; [done|].
    assert (forall s, readable (packets fuel pack (p + 6 + Z.to_nat (be16 l0 l1)) substream s)) as Hc by (intros; apply IH; lia).
    destruct (negb (sid =? 0xBD)); [apply Hc|]. destruct (_ !! 2%nat); [|done]. destruct (_ <? _)%nat; [done|].
    destruct (drop _ _) as [|ss frag]; [apply Hc|]. destruct (negb (ss =? substream)); [apply Hc|].
    destruct s as [[|x spu] want]; [|apply Hc]. destruct frag as [|w0 [|w1 frag]]; [done..|apply Hc].
Qed.
Lemma pack_at_length sub at_ pack : 0 <= at_ -> pack_at sub at_ = Some pack -> length pack = PACK.
Proof.
  intros H0. unfold pack_at. destruct (_ <=? _) eqn:Hl; [|done]. apply Z.leb_le in Hl. intros [= <-].
  rewrite length_take, length_drop. lia.
Qed.
Lemma gather_safe n sub at_ substream s : 0 <= at_ -> readable (gather n sub at_ substream s).
Proof.
  revert at_ s. induction n as [|n IH]; intros at_ s H0; [done|]. cbn [gather]. destruct (complete s); [done|].
  destruct (pack_at sub at_) as [pack|] eqn:Hp; [|done]. apply pack_at_length in Hp; [|done]. cbn [ok_or rbind].
  assert (readable (one_pack pack substream s)) as Ho.
  { unfold one_pack. destruct pack as [|c0 [|c1 [|c2 [|c3 pack]]]]; try (exfalso; unfold PACK in Hp; simpl in Hp; lia).
    destruct (negb _); [done|]. apply packets_safe; [done|lia]. }
  destruct (one_pack _ _ _) as [s'|e]; cbn [rbind]; [apply IH; lia|exact Ho].
Qed.
Lemma assemble_safe sub at_ substream : 0 <= at_ -> readable (assemble_spu sub at_ substream).
Proof.
  intros H0. unfold assemble_spu. pose proof (gather_safe 64 sub at_ substream ([], 0) H0) as Hg.
  destruct (gather _ _ _ _ _) as [s|e]; cbn [rbind]; [by case_match|done].
Qed.

(** The blocks are the readable entries, in order. *)
Lemma readable_blocks sub substream es :
  Forall (fun e => 0 <= snd e) es ->
  blocks sub substream es
  = Ok (omap (fun e => match assemble_spu sub (snd e) substream with
                       | Ok spu => Some (fst e, spu_stop_ms spu, spu)
                       | Err _ => None
                       end) es).
Proof.
  induction 1 as [|[t pos] es Hp Hes IH]; [done|]. cbn [blocks omap list_omap fst snd] in *.
  pose proof (assemble_safe sub pos substream Hp) as Ha.
  destruct (assemble_spu sub pos substream) as [spu|e]; [by rewrite IH|]. cbn in Ha. by subst.
Qed.

Lemma hex_digits_nonneg maxv acc s z : 0 <= acc -> hex_digits maxv acc s = Some z -> 0 <= z.
Proof.
  revert acc. induction s as [|a s IH]; intros acc Hacc; cbn [hex_digits]; [by intros [= <-]|].
  destruct (hex_digit a) as [d|] eqn:Hd; [|done]. cbn [mbind option_bind]. destruct (_ <? _); [done|]. apply IH.
  assert (0 <= d) as H; [|lia]. unfold hex_digit in Hd. destruct (digit a) as [d'|] eqn:Hd'.
  - injection Hd as <-. unfold digit in Hd'. destruct (_ && _)%N eqn:Hb; [|done]. injection Hd' as <-.
    apply andb_true_iff in Hb as [H1%N.leb_le _]. lia.
  - cbn zeta in Hd. destruct (_ && _) eqn:Hb; [|done]. injection Hd as <-.
    apply andb_true_iff in Hb as [H1%Z.leb_le _]. lia.
Qed.
Lemma idx_entry_nonneg rest e : idx_entry rest = Some e -> 0 <= snd e.
Proof.
  unfold idx_entry. destruct (split_once _ rest) as [[ts fp]|]; [|done]. cbn [mbind option_bind].
  destruct (strip_prefix _ _) as [pos|]; [|done]. cbn [mbind option_bind].
  destruct (split_char _ _) as [|h [|m [|s [|ms [|? ?]]]]]; try done.
  destruct (parse_uint _ h); [|done]. destruct (parse_uint _ m); [|done]. destruct (parse_uint _ s); [|done].
  destruct (parse_uint _ ms); [|done]. cbn [mbind option_bind]. destruct (parse_radix16 _ _) as [p|] eqn:Hp; [|done].
  intros [= <-]. cbn [snd]. unfold parse_radix16 in Hp. destruct (trim pos) as [|a r]; [done|].
  destruct (Ascii.eqb a (byte 43)); [destruct (r =s EmptyString); [done|]|];
    by eapply (hex_digits_nonneg _ 0), Hp.
Qed.

Section Idx.
  Context (to_lowercase : string -> string).

Definition offsets_ok (t : IdxTrack) : Prop := Forall (fun e => 0 <= snd e) (track_entries t).
Lemma parse_idx_offsets text : Forall offsets_ok (parse_idx to_lowercase text).
Proof.
  unfold parse_idx. assert (forall ls tracks, Forall offsets_ok tracks ->
    Forall offsets_ok (fold_left (idx_line to_lowercase) ls tracks)) as H; [|by apply H].
  induction ls as [|l ls IH]; intros tracks Ht; [done|]. cbn [fold_left]. apply IH. unfold idx_line.
  destruct (strip_prefix "id:" (trim l)) as [rest|].
  - destruct (fold_left _ _ _) as [lang id]. apply Forall_app. split; [done|]. apply Forall_singleton, Forall_nil_2.
  - destruct (strip_prefix "timestamp:" (trim l)) as [rest|]; [|done].
    destruct (last tracks) as [t|] eqn:Hl; [|done]. destruct (idx_entry rest) as [e|] eqn:He; [|done].
    apply Forall_app. split; [by apply Forall_take|]. apply Forall_singleton. unfold offsets_ok. cbn [track_entries].
    apply Forall_app. split; [|apply Forall_singleton, (idx_entry_nonneg rest), He].
    apply last_Some in Hl as [l' ->]. apply Forall_app in Ht as [_ Ht]. rewrite Forall_singleton in Ht. done.
Qed.

(** Extracting a track of a sidecar pair ends without a panic on any text
    and any bytes: with one block for each entry of the index whose unit can be
    read, in the order of the index, or with an error when there is no such
    track or no such unit. *)
Theorem extract_track_exact text sub id :
  match List.find (fun t => track_id t =? id) (parse_idx to_lowercase text) with
  | None => extract_track to_lowercase text sub id = Err Shape
  | Some t =>
      let bs := omap (fun e => match assemble_spu sub (snd e) (0x20 + Z.land (wrap 8 id) 0x1F) with
                               | Ok spu => Some (fst e, spu_stop_ms spu, spu)
                               | Err _ => None
                               end) (track_entries t) in
      extract_track to_lowercase text sub id = if bool_decide (bs = []) then Err Shape else Ok bs
  end.
Proof.
  unfold extract_track. pose proof (parse_idx_offsets text) as Ho.
  destruct (List.find _ _) as [t|] eqn:Hf; [|done]. apply find_some in Hf as [Hf _]. cbn [ok_or rbind].
  rewrite Forall_forall in Ho. rewrite readable_blocks by (apply Ho; by apply list_elem_of_In). done.
Qed.

End Idx.

(** ** Where the code does less than it says *)

(** Track 32 of an index is read from the substream of track 0: the mask keeps
    five bits of the number the doc adds whole. *)
Lemma substream_aliases : 0x20 + Z.land (wrap 8 32) 0x1F = 0x20 + Z.land (wrap 8 0) 0x1F.
Proof. reflexivity. Qed.

(** The time of an entry is computed at 64 bits from fields of 64 bits, with no
    check: an hour count the parser accepts can place the entry at the start. *)
Lemma idx_time_wraps :
  idx_entry "5124095576031:0:0:000, filepos: 0" = Some (3600000 * 5124095576031 - 2 ^ 64, 0).
Proof. vm_compute. reflexivity. Qed.
