(* ===== verification/Decode.v ===== *)
(** * Windows of a media file (kahawai-intro, src/decode.rs, src/fingerprint.rs)

    What the analyzers read of an episode: interleaved samples, the black share
    of its frames, the times of its keyframes, the points of its fingerprint.
    The class [Pipelines] is the media framework and the fingerprinter, which
    are not in the repository: what a pipeline delivers for a window, and an
    answer that may differ at each call, since a file can vanish between two.
    A failed read is an error the analyzers handle; an index out of range is
    [Panicked]. Times are [f64] seconds. *)
From Stdlib Require Import SpecFloat.
From S2P Require Import Prelude Floats Utf8.
#[local] Open Scope Z_scope.

Inductive Trouble := Failed | Panicked | Endless.
#[global] Instance Trouble_eq_dec : EqDecision Trouble.
Proof. solve_decision. Defined.

(** ** What a pipeline delivers *)

(** A decoded audio sample: its caps when they name a rate and a channel count,
    its bytes when it has a buffer. *)
Record AudioSample := mkAudioSample {
  as_caps : option (Z * Z);
  as_data : option bytes;
}.

Inductive VideoFormat := I42010le | I42210le | Y44410le | P01010le | OtherFormat.

(** A decoded picture: its buffer's time in nanoseconds; [v_frame] is what the
    frame maps to, when it does. *)
Record VideoFrame := mkVideoFrame {
  f_width : Z; f_height : Z; f_stride : Z; f_format : VideoFormat; f_luma : bytes;
}.
Record VideoSample := mkVideoSample {
  v_whole : bool;            (* a buffer and caps *)
  v_pts : option Z;
  v_frame : option VideoFrame;
}.

(** An encoded buffer: whether it reached the sink decoded, whether it depends
    on another, its time. *)
Record KeySample := mkKeySample {
  k_raw : bool;
  k_buffer : option (bool * option Z);
}.

Class Pipelines (Media : Type) := {
  (* the samples of a run over a window of nanoseconds, at a moment, and
     whether it reached the end of the stream *)
  run_audio : nat -> Media -> Z -> Z -> list AudioSample * bool;
  run_video : nat -> Media -> Z -> Z -> list VideoSample * bool;
  run_keys : nat -> Media -> Z -> Z -> list KeySample * bool;
  (* the fingerprinter at a rate and channel count *)
  chromaprint : Z -> Z -> list Z -> option (list Z);
  (* f64::powf of the platform *)
  powf : float -> float -> float;
  (* the caller's answer between two reads *)
  between_reads : nat -> option Trouble;
}.

(** ** Nanoseconds *)

(** [(x.max(0.0) * 1e9) as u64], and back. *)
Definition nseconds (x : float) : Z := as_u64 (F64.mul (fmax x fzero) (F64.lit 1 9)).
Definition seconds (ns : Z) : float := F64.div (F64.of_int ns) (F64.lit 1 9).

Section Windows.
Context {Media : Type} `{!Pipelines Media}.

(** ** Audio *)

Record AudioWindow := mkAudioWindow { rate : Z; channels : Z; samples : list Z }.

(** [i16::from_le_bytes]. *)
Definition i16_le (a b : Z) : Z :=
  let v := Z.lor a (Z.shiftl b 8) in if v <? 2 ^ 15 then v else v - 2 ^ 16.
Fixpoint i16s (data : bytes) : list Z :=
  match data with
  | a :: b :: data => i16_le a b :: i16s data
  | _ => []
  end.
Definition on_audio (w : AudioWindow) (s : AudioSample) : AudioWindow :=
  let w :=
    if rate w =? 0 then
      match as_caps s with
      | Some (r, c) => mkAudioWindow (wrap 32 r) (wrap 32 c) (samples w)
      | None => w
      end
    else w in
  match as_data s with
  | None => w
  | Some data => mkAudioWindow (rate w) (channels w) (samples w ++ i16s data)
  end.
Definition audio_window (now : nat) (media : Media) (start end_ : float) : result Trouble AudioWindow :=
  let '(got, ended) := run_audio now media (nseconds start) (nseconds end_) in
  let window := fold_left on_audio got (mkAudioWindow 0 2 []) in
  ensure ended Failed (ensure (negb (rate window =? 0)) Failed (Ok window)).

Definition fingerprint_samples (window : AudioWindow) : result Trouble (list Z) :=
  ok_or (chromaprint (rate window) (channels window) (samples window)) Failed.
Definition fingerprint (now : nat) (media : Media) (start end_ : float) : result Trouble (list Z) :=
  let? window := audio_window now media start end_ in fingerprint_samples window.

(** ** Keyframes *)

Definition key_time (s : KeySample) : option float :=
  if k_raw s then None
  else match k_buffer s with
       | Some (false, Some pts) => Some (seconds pts)
       | _ => None
       end.
Definition keyframes_window (now : nat) (media : Media) (start end_ : float) : result Trouble (list float) :=
  let '(got, ended) := run_keys now media (nseconds start) (nseconds end_) in
  ensure (ended && negb (existsb k_raw got)) Failed
    (Ok (List.filter (fun t => fge t start && fle t end_) (omap key_time got))).

(** ** Luma *)

Definition LEAD_IN : float := F64.lit 2 0.
Record LumaFrame := mkLumaFrame { time : float; black_percentage : float; mean_luma : float }.

Definition luma_shift (format : VideoFormat) : bool * Z :=
  match format with
  | I42010le | I42210le | Y44410le => (true, 2)
  | P01010le => (true, 8)
  | OtherFormat => (false, 0)
  end.

(** [luma\[start..start + n\]]. *)
Definition slice_luma (luma : bytes) (start n : Z) : result Trouble bytes :=
  if start + n <=? Z.of_nat (length luma) then Ok (take (Z.to_nat n) (drop (Z.to_nat start) luma))
  else Err Panicked.
Fixpoint wide_values (shift : Z) (data : bytes) : list Z :=
  match data with
  | a :: b :: data => Z.min 255 (Z.shiftr (Z.lor a (Z.shiftl b 8)) shift) :: wide_values shift data
  | _ => []
  end.
Definition row_values (f : VideoFrame) (row : nat) : result Trouble (list Z) :=
  let '(wide, shift) := luma_shift (f_format f) in
  let row_start := Z.of_nat row * f_stride f in
  if wide then let? d := slice_luma (f_luma f) row_start (f_width f * 2) in Ok (wide_values shift d)
  else slice_luma (f_luma f) row_start (f_width f).
Definition count_black (threshold : Z) (values : list Z) : Z :=
  Z.of_nat (length (List.filter (fun v => v <? threshold) values)).
Definition sum_values (values : list Z) : Z := fold_left Z.add values 0.

Definition luma_frame (threshold : Z) (pts : option Z) (f : VideoFrame) : result Trouble LumaFrame :=
  let? rows := collect (map (row_values f) (seq 0 (Z.to_nat (f_height f)))) in
  let black := sum_values (map (count_black threshold) rows) in
  let total := sum_values (map sum_values rows) in
  let pixels := F64.of_int (f_width f * f_height f) in
  Ok (mkLumaFrame (map_or S754_nan seconds pts)
        (F64.div (F64.mul (F64.lit 100 0) (F64.of_int black)) pixels)
        (F64.div (F64.of_int total) pixels)).
(** What one sample adds: nothing before the window. *)
Definition on_video (start : float) (threshold : Z) (s : VideoSample) : result Trouble (list LumaFrame) :=
  if negb (v_whole s) then Ok []
  else if flt (map_or fzero seconds (v_pts s)) start then Ok []
  else
    let? f := ok_or (v_frame s) Failed in
    let? frame := luma_frame threshold (v_pts s) f in
    Ok [frame].
Definition luma_window (now : nat) (media : Media) (start end_ : float) (threshold : Z)
    : result Trouble (list LumaFrame) :=
  let '(got, ended) := run_video now media (nseconds (F64.sub start LEAD_IN)) (nseconds end_) in
  let? frames := collect (map (on_video start threshold) got) in
  ensure ended Failed (Ok (concat frames)).

End Windows.
