(* ===== verification/Chroma.v ===== *)
(** * What two fingerprints share, silence and black frames (kahawai-intro,
    src/chroma.rs, src/silence.rs, src/blackframe.rs)

    The analyzers below the season: the shared region of two fingerprints, the
    quiet runs of a window, the bisection for the first black frame of the
    credits. A comparison with NaN that the source unwraps is [Panicked]. The
    probe of the bisection is an argument in the monad [probe] of its client,
    as the trait is in the source. *)
From Stdlib Require Import SpecFloat.
From S2P Require Import Prelude Floats Utf8 Segments Decode.
#[local] Open Scope Z_scope.

(** ** The shared region *)

(** [4096.0 / 11025.0 / 3.0]. *)
Definition SAMPLE_DURATION : float := F64.div (F64.div (F64.of_int 4096) (F64.of_int 11025)) (F64.of_int 3).
(** [ms as f64 / 1000.0]. *)
Definition ms_seconds (ms : Z) : float := F64.div (F64.of_int ms) (F64.of_int 1000).
Definition START_SNAP_SECS : float := ms_seconds INTRO_START_SNAP_MS.

Record SearchParams := mkSearch {
  max_point_differences : Z;
  inverted_index_shift : Z;
  max_time_skip : float;
  min_region_duration : float;
}.
Definition search_default : SearchParams := mkSearch 6 2 (F64.lit 35 (-1)) (ms_seconds SHARED_REGION_MIN_MS).

Record Range := mkRange { r_start : float; r_end : float }.
Definition duration (r : Range) : float := F64.sub (r_end r) (r_start r).
Definition valid (r : Range) : bool := fgt (r_end r) fzero.

(** [a.partial_cmp(b).expect(..)] under a sort: with two elements every one is
    compared. *)
Definition unwrap_cmp (a b : float) : comparison := unwrap_or (partial_cmp a b) Eq.
Definition sorts {A} (f : A -> float) (l : list A) : bool :=
  (length l <? 2)%nat || negb (existsb (fun a => is_nan (f a)) l).

Definition keep (best : option Range) (current : Range) : Range :=
  match best with
  | Some b => if fge (duration b) (duration current) then b else current
  | None => current
  end.
(** The pairs of neighbours, from [t] on. *)
Fixpoint contiguous (max_distance t : float) (times : list float) (current : Range) (best : option Range)
    : Range :=
  match times with
  | [] => keep best current
  | next :: times =>
      if fle (F64.sub next t) max_distance
      then contiguous max_distance next times (mkRange (r_start current) next) best
      else contiguous max_distance next times (mkRange next next) (Some (keep best current))
  end.
Definition find_contiguous (times : list float) (max_distance : float) : result Trouble (option Range) :=
  ensure (sorts id times) Panicked
    (Ok match sort_by unwrap_cmp times with
        | [] => None
        | t :: times => Some (contiguous max_distance t times (mkRange t t) None)
        end).

(** The last index of each point. *)
Fixpoint index_from (i : nat) (fingerprint : list Z) (index : gmap Z nat) : gmap Z nat :=
  match fingerprint with
  | [] => index
  | point :: rest => index_from (S i) rest (<[point := i]> index)
  end.
Definition inverted_index (fingerprint : list Z) : gmap Z nat := index_from 0 fingerprint ∅.

(** [u32::count_ones]. *)
Definition count_ones (z : Z) : Z :=
  Z.of_nat (length (List.filter (fun i => Z.testbit z (Z.of_nat i)) (seq 0 32))).

Definition point_time (i : nat) : float := F64.mul (F64.of_int (Z.of_nat i)) SAMPLE_DURATION.

Section Pair.
Context (lhs rhs : list Z) (params : SearchParams).

Definition left_offset (shift : Z) : nat := if shift <? 0 then Z.to_nat (- shift) else 0.
Definition right_offset (shift : Z) : nat := if shift <? 0 then 0 else Z.to_nat shift.
Definition upper (shift : Z) : nat :=
  Z.to_nat (Z.min (Z.of_nat (length lhs)) (Z.of_nat (length rhs)) - Z.abs shift).

(** One aligned pair of points: their times when they agree. *)
Definition matched (shift : Z) (i : nat) : result Trouble (option (float * float)) :=
  let lp := (i + left_offset shift)%nat in
  let rp := (i + right_offset shift)%nat in
  let? l := ok_or (lhs !! lp) Panicked in
  let? r := ok_or (rhs !! rp) Panicked in
  Ok (if max_point_differences params <? count_ones (Z.lxor l r) then None
      else Some (point_time lp, point_time rp)).

Definition contiguous_at_shift (shift : Z) : result Trouble (option (Range * Range)) :=
  let? pairs := collect (map (matched shift) (seq 0 (upper shift))) in
  let times := omap id pairs in
  let? l := find_contiguous (map fst times) (max_time_skip params) in
  match l with
  | None => Ok None
  | Some l =>
      if flt (duration l) (min_region_duration params) then Ok None
      else
        let? r := find_contiguous (map snd times) (max_time_skip params) in
        Ok (pair l <$> r)
  end.

(** The shifts the two indexes suggest, as the set that is then sorted. *)
Definition around : list Z :=
  map (fun k => Z.of_nat k - inverted_index_shift params)
    (seq 0 (Z.to_nat (2 * inverted_index_shift params + 1))).
Definition shift_of (rhs_index : gmap Z nat) (p : Z * nat) (i : Z) : option Z :=
  (fun r : nat => Z.of_nat r - Z.of_nat (snd p)) <$> rhs_index !! wrap 32 (fst p + i).
Definition shifts : gset Z :=
  let rhs_index := inverted_index rhs in
  list_to_set (p ← map_to_list (inverted_index lhs); omap (shift_of rhs_index p) around).

Definition region_at (shift : Z) : result Trouble (option (Range * Range)) :=
  let? found := contiguous_at_shift shift in
  Ok (opt_filter (fun '(l, r) => fgt (r_end l) fzero && fgt (r_end r) fzero) found).
Definition search : result Trouble (list (Range * Range)) :=
  let? found := collect (map region_at (sort_by Z.compare (elements shifts))) in
  Ok (omap id found).

End Pair.

Inductive Select := Longest | Earliest.
#[global] Instance Select_eq_dec : EqDecision Select.
Proof. solve_decision. Defined.

Definition snap (r : Range) : Range :=
  if fle (r_start r) START_SNAP_SECS then mkRange fzero (r_end r) else r.
Definition no_range : Range := mkRange fzero fzero.
(** [min_by] keeps the first of equals. *)
Definition earliest (pairs : list (Range * Range)) : option (Range * Range) :=
  fold_left (fun best p =>
    match best with
    | None => Some p
    | Some b => if flt (r_start (fst p)) (r_start (fst b)) then Some p else best
    end) pairs None.
Definition by_duration (a b : Range) : comparison := unwrap_cmp (duration b) (duration a).
Definition longest (l : list Range) : option Range := head (sort_by by_duration l).

Definition compare_with (lhs rhs : list Z) (params : SearchParams) (select : Select)
    : result Trouble (Range * Range) :=
  let? found := search lhs rhs params in
  match found with
  | [] => Ok (no_range, no_range)
  | _ =>
      match select with
      | Earliest =>
          ensure (sorts (fun p => r_start (fst p)) found) Panicked
            (let? p := ok_or (earliest found) Panicked in Ok (snap (fst p), snap (snd p)))
      | Longest =>
          ensure (sorts duration (map fst found) && sorts duration (map snd found)) Panicked
            (let? l := ok_or (longest (map fst found)) Panicked in
             let? r := ok_or (longest (map snd found)) Panicked in
             Ok (snap l, snap r))
      end
  end.
Definition compare (lhs rhs : list Z) (params : SearchParams) : result Trouble (Range * Range) :=
  compare_with lhs rhs params Longest.

(** ** Silence *)

Section Silence.
Context (window : AudioWindow) (offset threshold minimum : float).

Definition push_run (begin end_ : nat) : list Range :=
  let r := F64.of_int (rate window) in
  let start := F64.div (F64.of_int (Z.of_nat begin)) r in
  let stop := F64.div (F64.of_int (Z.of_nat end_)) r in
  if fge (F64.sub stop start) minimum then [mkRange (F64.add offset start) (F64.add offset stop)] else [].

Definition frame_width : nat := Z.to_nat (Z.max (channels window) 1).
Definition quiet (frame : nat) : bool :=
  forallb (fun s => flt (fabs (F64.of_int s)) threshold)
    (take frame_width (drop (frame * frame_width) (samples window))).
(** The frames from [frame] on, [n] of them. *)
Fixpoint runs (n frame : nat) (run_start : option nat) : list Range :=
  match n with
  | O => match run_start with Some begin => push_run begin frame | None => [] end
  | S n =>
      match quiet frame, run_start with
      | true, None => runs n (S frame) (Some frame)
      | false, Some begin => push_run begin frame ++ runs n (S frame) None
      | _, _ => runs n (S frame) run_start
      end
  end.
Definition frames : nat := (length (samples window) / frame_width)%nat.

End Silence.

Definition detect_samples `{!Pipelines Media} (window : AudioWindow) (offset noise_db minimum : float)
    : list Range :=
  let threshold := F64.mul (powf (F64.lit 10 0) (F64.div noise_db (F64.lit 20 0))) (F64.of_int 32767) in
  runs window offset threshold minimum (frames window) 0 None.
Definition detect `{!Pipelines Media} (now : nat) (media : Media) (start end_ noise_db minimum : float)
    : result Trouble (list Range) :=
  let? window := audio_window now media start end_ in
  Ok (detect_samples window start noise_db minimum).
