(* ===== verification/FloatReal.v ===== *)
(** * f64 arithmetic as real arithmetic

    The value of a float, and how far a rounded operation is from the exact
    one: the library the analyzers' bounds are proved with. A float is [ok] when
    it is the canonical one of its value, as every [f64] of the machine is;
    [close v z] says that [z] is [v] rounded. Infinite results are excluded by
    the bound every lemma asks of the exact value. *)
From Stdlib Require Import SpecFloat Reals Lra.
From S2P Require Import Prelude Floats.
#[local] Open Scope Z_scope.

(** ** Powers of two *)

Definition pow2 (e : Z) : R := powerRZ 2 e.

Lemma pow2_pos e : (0 < pow2 e)%R.
Proof. apply powerRZ_lt. lra. Qed.
Lemma pow2_add a b : pow2 (a + b) = (pow2 a * pow2 b)%R.
Proof. apply powerRZ_add. lra. Qed.
Lemma pow2_IZR k : 0 <= k -> IZR (2 ^ k) = pow2 k.
Proof.
  intros Hk. unfold pow2. destruct (Z_of_nat_complete k Hk) as [n ->]. by rewrite <- pow_powerRZ, <- pow_IZR.
Qed.
Lemma pow2_le a b : a <= b -> (pow2 a <= pow2 b)%R.
Proof.
  intros H. replace b with (a + (b - a)) by lia. rewrite pow2_add, <- (pow2_IZR (b - a)) by lia.
  pose proof (pow2_pos a). assert (1 <= IZR (2 ^ (b - a)))%R; [|nra].
  apply IZR_le. pose proof (Z.pow_pos_nonneg 2 (b - a)). lia.
Qed.
Lemma pow2_lt_inv a b : (pow2 a < pow2 b)%R -> a < b.
Proof. intros H. destruct (Z.lt_ge_cases a b) as [|Hb]; [done|]. apply pow2_le in Hb. lra. Qed.
Lemma pow2_0 : pow2 0 = 1%R.
Proof. done. Qed.
Lemma pow2_neg k : 0 <= k -> pow2 (- k) = (/ IZR (2 ^ k))%R.
Proof.
  intros Hk. rewrite pow2_IZR by done. pose proof (pow2_pos k). apply (Rmult_eq_reg_r (pow2 k)); [|lra].
  rewrite <- pow2_add, Z.add_opp_diag_l, Rinv_l by lra. done.
Qed.
Lemma pow2_shift m k e : 0 <= k -> (IZR (m * 2 ^ k) * pow2 e)%R = (IZR m * pow2 (e + k))%R.
Proof. intros Hk. rewrite mult_IZR, pow2_IZR, pow2_add by done. ring. Qed.

(** ** Values *)

Definition sign (s : bool) : R := if s then (-1)%R else 1%R.
Definition value (x : float) : R :=
  match x with
  | S754_finite s m e => (sign s * (IZR (Zpos m) * pow2 e))%R
  | _ => 0%R
  end.
Definition ok (x : float) : Prop := is_finite x = true /\ valid_binary 53 1024 x = true.

Lemma cond_Zopp_value s m e : (IZR (cond_Zopp s m) * pow2 e)%R = (sign s * (IZR m * pow2 e))%R.
Proof. destruct s; cbn [cond_Zopp sign]; [rewrite opp_IZR|]; ring. Qed.

(** [z] is the non-negative [v] rounded, up to a sign; within one unit of the
    last place. *)
Definition close (v : R) (z : float) : Prop :=
  ok z /\ (Rabs (value z - v) <= Rabs v * pow2 (-52) + pow2 (-1074))%R.

Lemma Zdigits2_spec m : 0 <= m -> 2 ^ (Zdigits2 m - 1) <= m < 2 ^ Zdigits2 m \/ (m = 0 /\ Zdigits2 m = 0).
Proof.
  destruct m as [|p|p]; [by right|intros _; left|lia]. cbn [Zdigits2].
  split; [apply digits_lower|apply digits_upper].
Qed.
Lemma Zdigits2_unique m d : 0 < d -> 2 ^ (d - 1) <= m < 2 ^ d -> Zdigits2 m = d.
Proof.
  intros Hd H. assert (0 < 2 ^ (d - 1)) by (apply Z.pow_pos_nonneg; lia).
  destruct (Zdigits2_spec m ltac:(lia)) as [[H1 H2]|[-> _]]; [|lia].
  assert (0 <= Zdigits2 m) by (by destruct m).
  assert (d - 1 < Zdigits2 m) by (apply (Z.pow_lt_mono_r_iff 2); lia).
  assert (Zdigits2 m - 1 < d) by (apply (Z.pow_lt_mono_r_iff 2); lia). lia.
Qed.
Lemma Zdigits2_le m k : 0 <= m < 2 ^ k -> 0 <= k -> 0 <= Zdigits2 m <= k.
Proof.
  intros H Hk. destruct m as [|p|p]; cbn [Zdigits2]; [lia| |lia]. pose proof (digits_le p k). lia.
Qed.
Lemma Zdigits2_shift p k : Zdigits2 (Zpos (Pos.iter xO p k)) = Zdigits2 (Zpos p) + Zpos k.
Proof.
  apply Zdigits2_unique; [cbn; lia|]. rewrite iter_xO. pose proof (digits_lower p). pose proof (digits_upper p).
  cbn [Zdigits2]. rewrite (Z.pow_add_r 2 (Zpos (digits2_pos p))) by lia.
  replace (Zpos (digits2_pos p) + Zpos k - 1) with (Zpos (digits2_pos p) - 1 + Zpos k) by lia.
  rewrite Z.pow_add_r by lia. assert (0 < 2 ^ Zpos k) by (by apply Z.pow_pos_nonneg). nia.
Qed.

(** ** One rounding *)

Section Round.
Context (m e : Z) (l : location) (v : R).
Hypothesis m_nonneg : 0 <= m.
Hypothesis in_place : (IZR m * pow2 e <= v < (IZR m + 1) * pow2 e)%R.
Hypothesis exact : l = loc_Exact -> v = (IZR m * pow2 e)%R.
Let e1 := fexp 53 1024 (Zdigits2 m + e).
Hypothesis enough : e <= e1.

Lemma first_shift mrs e' :
  shr_fexp 53 1024 m e l = (mrs, e') ->
  e' = e1 /\ (IZR (shr_m mrs) * pow2 e1 <= v < (IZR (shr_m mrs) + 1) * pow2 e1)%R
  /\ 0 <= shr_m mrs < 2 ^ 53 /\ (0 < m -> e1 <> -1074 -> 2 ^ 52 <= shr_m mrs).
Proof.
  intros H. apply shr_fexp_m in H as [Hm ->]; [|done]. fold e1 in Hm |- *.
  replace (Z.max 0 (e1 - e)) with (e1 - e) in * by lia. set (n := e1 - e) in *.
  assert (0 < 2 ^ n) as Hn by (apply Z.pow_pos_nonneg; lia).
  assert (Hdm := Z.div_mod m (2 ^ n) ltac:(lia)). assert (Hmod := Z.mod_pos_bound m (2 ^ n) Hn). rewrite <- Hm in Hdm.
  set (q := shr_m mrs) in *. split; [lia|].
  assert (pow2 e1 = IZR (2 ^ n) * pow2 e)%R as He1.
  { rewrite pow2_IZR, <- pow2_add by lia. f_equal. lia. }
  pose proof (pow2_pos e). split; [|split].
  - rewrite He1. assert (IZR q * IZR (2 ^ n) <= IZR m)%R by (rewrite <- mult_IZR; apply IZR_le; lia).
    assert (IZR m + 1 <= (IZR q + 1) * IZR (2 ^ n))%R by (rewrite <- !plus_IZR, <- mult_IZR; apply IZR_le; lia).
    split; nra.
  - split; [subst q; rewrite Hm; apply Z.div_pos; lia|].
    assert (Zdigits2 m - 53 <= n) by (unfold e1, fexp in *; lia).
    destruct (Zdigits2_spec m m_nonneg) as [[H1 H2]|[-> _]]; [|subst q; rewrite Hm, Z.div_0_l by lia; done].
    subst q. rewrite Hm. apply Z.div_lt_upper_bound; [done|]. rewrite <- Z.pow_add_r by lia.
    eapply Z.lt_le_trans; [done|]. apply Z.pow_le_mono_r; lia.
  - intros Hpos Hne. unfold e1, fexp, emin in Hne. assert (n = Zdigits2 m - 53) as Hn' by (unfold e1, fexp, emin in *; lia).
    destruct (Zdigits2_spec m m_nonneg) as [[H1 H2]|]; [|lia].
    subst q. rewrite Hm. apply Z.div_le_lower_bound; [done|]. rewrite <- Z.pow_add_r by lia.
    by replace (n + 52) with (Zdigits2 m - 1) by lia.
Qed.

Lemma ulp_bound q :
  (IZR q * pow2 e1 <= v)%R -> (0 < m -> e1 <> -1074 -> 2 ^ 52 <= q) ->
  (pow2 e1 <= v * pow2 (-52) + pow2 (-1074))%R.
Proof.
  intros Hq Hbig. assert (0 <= v)%R as Hv.
  { pose proof (pow2_pos e). assert (0 <= IZR m)%R by (by apply IZR_le). nra. }
  pose proof (pow2_pos (-52)). pose proof (pow2_pos (-1074)).
  destruct (decide (e1 = -1074)) as [->|Hne]; [nra|].
  assert (0 < m) as Hm.
  { destruct (decide (m = 0)) as [Hz|]; [|lia]. unfold e1, fexp, emin in Hne, enough.
    rewrite Hz in Hne, enough. cbn [Zdigits2] in *. lia. }
  specialize (Hbig Hm Hne). assert (pow2 e1 = IZR (2 ^ 52) * pow2 e1 * pow2 (-52))%R as ->.
  { rewrite pow2_IZR by done. assert (pow2 52 * pow2 (-52) = 1)%R as H52 by (by rewrite <- pow2_add).
    transitivity (pow2 52 * pow2 (-52) * pow2 e1)%R; [rewrite H52|]; ring. }
  assert (IZR (2 ^ 52) * pow2 e1 <= v)%R; [|nra].
  pose proof (pow2_pos e1). apply IZR_le in Hbig. nra.
Qed.

(** The second shift only carries. *)
Lemma second_shift m2 r2 e2 :
  0 <= m2 <= 2 ^ 53 -> (0 < m -> e1 <> -1074 -> 2 ^ 52 <= m2) -> shr_fexp 53 1024 m2 e1 loc_Exact = (r2, e2) ->
  0 <= shr_m r2 /\ e1 <= e2 <= e1 + 1 /\ (IZR (shr_m r2) * pow2 e2 = IZR m2 * pow2 e1)%R
  /\ (0 < shr_m r2 -> fexp 53 1024 (Zdigits2 (shr_m r2) + e2) = e2).
Proof.
  intros Hm2 Hbig H. apply shr_fexp_m in H as [Hm ->]; [|lia].
  assert (-1074 <= e1) as He1 by (unfold e1, fexp, emin; lia).
  destruct (decide (m2 = 2 ^ 53)) as [->|Hne].
  - assert (Z.max 0 (fexp 53 1024 (Zdigits2 (2 ^ 53) + e1) - e1) = 1) as Hn.
    { change (Zdigits2 (2 ^ 53)) with 54. unfold fexp, emin. lia. }
    rewrite Hn in *. change (2 ^ 53 / 2 ^ 1) with (2 ^ 52) in Hm. rewrite Hm.
    split; [done|]. split; [lia|]. split.
    + change (2 ^ 53) with (2 ^ 52 * 2 ^ 1). rewrite (pow2_shift (2 ^ 52)) by done. by rewrite Z.add_comm.
    + intros _. change (Zdigits2 (2 ^ 52)) with 53. unfold fexp, emin. lia.
  - assert (Zdigits2 m2 <= 53) as Hd by (apply Zdigits2_le; lia).
    assert (Z.max 0 (fexp 53 1024 (Zdigits2 m2 + e1) - e1) = 0) as Hn by (unfold fexp, emin in *; lia).
    rewrite Hn in *. rewrite Z.pow_0_r, Z.div_1_r in Hm. rewrite Hm, Z.add_0_r.
    split; [lia|]. split; [lia|]. split; [done|]. intros Hpos.
    destruct (decide (e1 = -1074)) as [->|Hne']; [unfold fexp, emin; lia|].
    assert (0 < m) as Hm0.
    { destruct (decide (m = 0)) as [Hz|]; [|lia]. unfold e1, fexp, emin in Hne', enough.
      rewrite Hz in Hne', enough. cbn [Zdigits2] in *. lia. }
    specialize (Hbig Hm0 Hne'). rewrite (Zdigits2_unique m2 53) by lia. unfold fexp, emin. lia.
Qed.

Lemma round_aux_close s :
  (v <= pow2 960)%R ->
  let z := binary_round_aux 53 1024 s m e l in
  ok z /\ (Rabs (value z - sign s * v) <= v * pow2 (-52) + pow2 (-1074))%R
  /\ (l = loc_Exact -> e = e1 -> value z = sign s * v)%R.
Proof.
  intros Hv z. subst z. unfold binary_round_aux. destruct (shr_fexp 53 1024 m e l) as [r1 e'] eqn:H1.
  pose proof H1 as Hsame. apply first_shift in H1 as (-> & Hin & Hq & Hbig). pose proof (ulp_bound _ (proj1 Hin) Hbig) as Hulp.
  pose proof (round_nearest_even_m (shr_m r1) (loc_of_shr_record r1) (proj1 Hq)) as Hm2.
  assert (l = loc_Exact -> e = e1 -> round_nearest_even (shr_m r1) (loc_of_shr_record r1) = m) as Hexact.
  { intros -> He. unfold shr_fexp in Hsame. fold e1 in Hsame. rewrite <- He, Z.sub_diag in Hsame. cbn [shr] in Hsame.
    by injection Hsame as <-. }
  set (m2 := round_nearest_even _ _) in *.
  destruct (shr_fexp 53 1024 m2 e1 loc_Exact) as [r2 e2] eqn:H2.
  apply second_shift in H2 as (Hpos & He2 & Hval & Hcan); [|lia|intros; specialize (Hbig ltac:(done) ltac:(done)); lia].
  assert (e2 <= 1024 - 53) as Hfin.
  { destruct (decide (e1 = -1074)) as [Heq|Hne]; [lia|]. assert (52 + e1 < 961); [|lia].
    apply pow2_lt_inv. apply Rle_lt_trans with v.
    - rewrite pow2_add, <- pow2_IZR by done.
      assert (0 < m) as Hm0.
      { destruct (decide (m = 0)) as [Hz|]; [|lia]. unfold e1, fexp, emin in Hne, enough.
        rewrite Hz in Hne, enough. cbn [Zdigits2] in *. lia. }
      specialize (Hbig Hm0 Hne). apply IZR_le in Hbig. pose proof (pow2_pos e1). nra.
    - eapply Rle_lt_trans; [done|]. change 961 with (960 + 1). rewrite pow2_add. change (pow2 1) with (2 * 1)%R.
      pose proof (pow2_pos 960). lra. }
  assert (Rabs (IZR m2 * pow2 e1 - v) <= v * pow2 (-52) + pow2 (-1074))%R as Herr.
  { eapply Rle_trans; [|exact Hulp]. pose proof (pow2_pos e1).
    assert (IZR (shr_m r1) <= IZR m2 <= IZR (shr_m r1) + 1)%R by (rewrite <- plus_IZR; split; apply IZR_le; lia).
    apply Rabs_le. nra. }
  assert (l = loc_Exact -> e = e1 -> IZR m2 * pow2 e1 = v)%R as Hsharp.
  { intros Hl He. rewrite (Hexact Hl He), exact, He by done. done. }
  destruct (shr_m r2) as [|p|p] eqn:Hr2; [| |lia].
  - split; [by split|]. cbn [value]. rewrite <- Hval, Rmult_0_l in Herr, Hsharp.
    split; [|intros Hl He; specialize (Hsharp Hl He); rewrite <- Hsharp; ring].
    replace (0 - sign s * v)%R with (sign s * (0 - v))%R by ring. rewrite Rabs_mult.
    replace (Rabs (sign s)) with 1%R; [lra|]. destruct s; cbn [sign]; [rewrite Rabs_left by lra|rewrite Rabs_right by lra]; lra.
  - rewrite (proj2 (Z.leb_le e2 _) Hfin). split.
    + split; [done|]. cbn [valid_binary]. unfold bounded, canonical_mantissa.
      apply andb_true_iff. split; [|by apply Z.leb_le]. apply Z.eqb_eq. exact (Hcan ltac:(lia)).
    + cbn [value]. rewrite Hval. split.
      * replace (sign s * (IZR m2 * pow2 e1) - sign s * v)%R with (sign s * (IZR m2 * pow2 e1 - v))%R by ring.
        rewrite Rabs_mult. replace (Rabs (sign s)) with 1%R; [lra|].
        destruct s; cbn [sign]; [rewrite Rabs_left by lra|rewrite Rabs_right by lra]; lra.
      * intros Hl He. by rewrite (Hsharp Hl He).
Qed.

End Round.

Lemma Rabs_sign s v : (0 <= v)%R -> Rabs (sign s * v) = v.
Proof.
  intros Hv. destruct s; cbn [sign]; [replace (-1 * v)%R with (- v)%R by ring; rewrite Rabs_Ropp|rewrite Rmult_1_l];
    by apply Rabs_pos_eq.
Qed.

(** ** Sums *)

Lemma binary_round_close s p e :
  (IZR (Zpos p) * pow2 e <= pow2 960)%R ->
  close (sign s * (IZR (Zpos p) * pow2 e)) (binary_round 53 1024 s p e)
  /\ (fexp 53 1024 (Zdigits2 (Zpos p) + e) <= e ->
      value (binary_round 53 1024 s p e) = (sign s * (IZR (Zpos p) * pow2 e))%R).
Proof.
  intros Hv. assert (0 < IZR (Zpos p))%R as Hp by (by apply IZR_lt).
  unfold binary_round, shl_align. set (f := fexp 53 1024 _).
  assert (exists q k, (match f - e with Zneg d => (Pos.iter xO p d, f) | _ => (p, e) end) = (q, k)
    /\ (IZR (Zpos q) * pow2 k = IZR (Zpos p) * pow2 e)%R /\ Zdigits2 (Zpos q) + k = Zdigits2 (Zpos p) + e /\ k <= f
    /\ (f <= e -> k = f)) as (q & k & -> & Hval & Hd & Hk & Hsame).
  { destruct (f - e) as [|d|d] eqn:Hfe; [exists p, e..|].
    1,2: split; [done|]; split; [done|]; split; [done|]; lia.
    exists (Pos.iter xO p d), f. split; [done|]. rewrite Zdigits2_shift, iter_xO, pow2_shift by done.
    split; [do 2 f_equal; lia|]. split; lia. }
  pose proof (pow2_pos k). pose proof (pow2_pos e).
  destruct (round_aux_close (Zpos q) k loc_Exact (IZR (Zpos q) * pow2 k)%R) with s as (Hok & Herr & Hex);
    [done|nra|done| |by rewrite Hval|].
  { rewrite Hd. exact Hk. }
  rewrite Hval in *. split.
  - split; [done|]. by rewrite Rabs_sign by nra.
  - intros Hfe. rewrite Hex; [done..|]. rewrite Hd. by apply Hsame.
Qed.

Lemma close_zero s : close 0 (S754_zero s).
Proof.
  split; [done|]. cbn [value]. rewrite Rminus_0_r, Rabs_R0. pose proof (pow2_pos (-1074)). lra.
Qed.
Lemma binary_normalize_close m e s :
  (Rabs (IZR m * pow2 e) <= pow2 960)%R -> close (IZR m * pow2 e) (binary_normalize 53 1024 m e s)
  /\ (fexp 53 1024 (Zdigits2 m + e) <= e -> value (binary_normalize 53 1024 m e s) = (IZR m * pow2 e)%R).
Proof.
  pose proof (pow2_pos e). destruct m as [|p|p]; cbn [binary_normalize]; intros Hv.
  - rewrite Rmult_0_l. split; [apply close_zero|done].
  - rewrite Rabs_pos_eq in Hv by (assert (0 < IZR (Zpos p))%R by (by apply IZR_lt); nra).
    destruct (binary_round_close false p e Hv) as [Hc Hx]. cbn [sign] in *. by rewrite Rmult_1_l in *.
  - change (Zneg p) with (- Zpos p) in *. rewrite opp_IZR in *.
    replace (- IZR (Zpos p) * pow2 e)%R with (- (IZR (Zpos p) * pow2 e))%R in * by ring.
    rewrite Rabs_Ropp, Rabs_pos_eq in Hv by (assert (0 < IZR (Zpos p))%R by (by apply IZR_lt); nra).
    destruct (binary_round_close true p e Hv) as [Hc Hx]. cbn [sign] in *.
    by replace (-1 * (IZR (Zpos p) * pow2 e))%R with (- (IZR (Zpos p) * pow2 e))%R in * by ring.
Qed.

Lemma shl_align_value m ex ez :
  ez <= ex -> (IZR (Zpos (fst (shl_align m ex ez))) * pow2 ez = IZR (Zpos m) * pow2 ex)%R.
Proof.
  intros H. unfold shl_align. destruct (ez - ex) as [|d|d] eqn:Hd; [|lia|]; cbn [fst].
  - do 2 f_equal. lia.
  - rewrite iter_xO, pow2_shift by done. do 2 f_equal. lia.
Qed.

Lemma ok_zero s : ok (S754_zero s).
Proof. done. Qed.
Lemma close_self x : ok x -> close (value x) x.
Proof.
  intros H. split; [done|]. rewrite Rminus_diag, Rabs_R0.
  pose proof (pow2_pos (-52)). pose proof (pow2_pos (-1074)). pose proof (Rabs_pos (value x)). nra.
Qed.
Lemma ok_opp x : ok x -> ok (SFopp x) /\ value (SFopp x) = (- value x)%R.
Proof.
  intros [H1 H2]. destruct x as [s| | |s m e]; try done; cbn [SFopp value].
  - split; [done|]. by rewrite Ropp_0.
  - split; [done|]. destruct s; cbn [sign negb]; ring.
Qed.

Lemma add_close x y :
  ok x -> ok y -> (Rabs (value x + value y) <= pow2 960)%R -> close (value x + value y) (F64.add x y).
Proof.
  intros Hx Hy Hb. unfold F64.add, fadd. pose proof (proj1 Hx) as Fx. pose proof (proj1 Hy) as Fy.
  destruct x as [s| | |s m e], y as [s'| | |s' m' e']; try done; cbn [SFadd value] in *.
  - rewrite Rplus_0_l. destruct s, s'; apply close_zero.
  - rewrite Rplus_0_l. by apply (close_self (S754_finite s' m' e')).
  - rewrite Rplus_0_r. by apply (close_self (S754_finite s m e)).
  - set (ez := Z.min e e'). set (a := fst _). set (a' := fst _).
    assert ((sign s * (IZR (Zpos m) * pow2 e) + sign s' * (IZR (Zpos m') * pow2 e'))%R
      = (IZR (cond_Zopp s (Zpos a) + cond_Zopp s' (Zpos a')) * pow2 ez)%R) as Heq.
    { rewrite plus_IZR, Rmult_plus_distr_r, !cond_Zopp_value. subst a a'.
      rewrite !shl_align_value by lia. done. }
    rewrite Heq in *. by apply binary_normalize_close.
Qed.
Lemma sub_close x y :
  ok x -> ok y -> (Rabs (value x - value y) <= pow2 960)%R -> close (value x - value y) (F64.sub x y).
Proof.
  intros Hx Hy Hb. destruct (ok_opp y Hy) as [Ho Hv].
  assert (F64.sub x y = F64.add x (SFopp y)) as ->.
  { unfold F64.sub, F64.add, fsub, fadd. destruct Hx as [Fx _], Hy as [Fy _].
    destruct x as [s| | |s m e], y as [s'| | |s' m' e']; try done; [by destruct s, s'|].
    cbn. f_equal. destruct s'; cbn [negb cond_Zopp]; lia. }
  unfold Rminus in *. rewrite <- Hv in *. by apply add_close.
Qed.

(** [n as f64] of an integer that has 53 bits is that integer. *)
Lemma of_int_exact n : Z.abs n < 2 ^ 53 -> ok (F64.of_int n) /\ value (F64.of_int n) = IZR n.
Proof.
  intros Hn. unfold F64.of_int, of_int.
  assert (IZR n * pow2 0 = IZR n)%R as Hv by (rewrite pow2_0; ring).
  destruct (binary_normalize_close n 0 false) as [[Hok _] Hx]; rewrite Hv in *.
  - rewrite <- abs_IZR. apply Rle_trans with (pow2 53); [|by apply pow2_le].
    rewrite <- pow2_IZR by done. apply IZR_le. lia.
  - split; [done|]. apply Hx. assert (Zdigits2 n <= 53); [|unfold fexp, emin; lia].
    destruct n as [|p|p]; [done|..]; cbn [Zdigits2]; apply digits_le; lia.
Qed.

(** ** Products and quotients *)

Lemma canonical s m e : ok (S754_finite s m e) ->
  Zdigits2 (Zpos m) <= 53 /\ -1074 <= e /\ (Zdigits2 (Zpos m) = 53 \/ e = -1074).
Proof.
  intros [_ H]. cbn [valid_binary] in H. apply andb_true_iff in H as [H _]. apply Z.eqb_eq in H.
  unfold fexp, emin in H. cbn [Zdigits2] in *. lia.
Qed.
Lemma sign_xorb s s' : sign (xorb s s') = (sign s * sign s')%R.
Proof. destruct s, s'; cbn [xorb sign]; ring. Qed.

Lemma mul_close x y :
  ok x -> ok y -> (Rabs (value x * value y) <= pow2 960)%R -> close (value x * value y) (F64.mul x y).
Proof.
  intros Hx Hy Hb. unfold F64.mul, fmul. pose proof (proj1 Hx) as Fx. pose proof (proj1 Hy) as Fy.
  destruct x as [s| | |s m e], y as [s'| | |s' m' e']; try done; cbn [SFmul value] in *;
    try (rewrite ?Rmult_0_l, ?Rmult_0_r; apply close_zero).
  apply canonical in Hx as (_ & _ & Hx), Hy as (_ & _ & Hy).
  assert ((sign s * (IZR (Zpos m) * pow2 e) * (sign s' * (IZR (Zpos m') * pow2 e')))%R
    = (sign (xorb s s') * (IZR (Zpos (m * m')) * pow2 (e + e')))%R) as Heq.
  { rewrite sign_xorb, pow2_add, Pos2Z.inj_mul, mult_IZR. ring. }
  rewrite Heq in *. assert (0 < IZR (Zpos (m * m')))%R as Hp by (by apply IZR_lt). pose proof (pow2_pos (e + e')).
  rewrite Rabs_sign in Hb by nra.
  destruct (round_aux_close (Zpos (m * m')) (e + e') loc_Exact (IZR (Zpos (m * m')) * pow2 (e + e'))%R) with (xorb s s')
    as (Hok & Herr & _); [done|nra|done| |done|].
  - assert (Zdigits2 (Zpos m) + Zdigits2 (Zpos m') <= Zdigits2 (Zpos (m * m')) + 1) as Hd.
    { assert (Zdigits2 (Zpos m) + Zdigits2 (Zpos m') - 2 < Zdigits2 (Zpos (m * m'))); [|lia].
      apply (Z.pow_lt_mono_r_iff 2); [done|by cbn|]. cbn [Zdigits2].
      pose proof (digits_lower m). pose proof (digits_lower m'). pose proof (digits_upper (m * m')).
      replace (Zpos (digits2_pos m) + Zpos (digits2_pos m') - 2)
        with (Zpos (digits2_pos m) - 1 + (Zpos (digits2_pos m') - 1)) by lia.
      rewrite Z.pow_add_r by lia. nia. }
    assert (1 <= Zdigits2 (Zpos m)) by (cbn; lia). assert (1 <= Zdigits2 (Zpos m')) by (cbn; lia).
    unfold fexp, emin. lia.
  - split; [done|]. by rewrite Rabs_sign by nra.
Qed.

Lemma new_location_exact n k : new_location n k = loc_Exact -> k = 0.
Proof.
  unfold new_location, new_location_even, new_location_odd.
  destruct (Z.even n), (k =? 0) eqn:Hk; try done; by apply Z.eqb_eq in Hk.
Qed.
Lemma fexp_mono a b : a <= b -> fexp 53 1024 a <= fexp 53 1024 b.
Proof. unfold fexp. lia. Qed.

Lemma div_close x y :
  ok x -> ok y -> is_normal y = true -> (Rabs (value x / value y) <= pow2 960)%R ->
  close (value x / value y) (F64.div x y).
Proof.
  intros Hx Hy Hn Hb. unfold F64.div, fdiv. pose proof (proj1 Hx) as Fx.
  destruct x as [s| | |s m e], y as [s'| | |s' m' e']; try done; cbn [SFdiv value] in *;
    [unfold Rdiv; rewrite Rmult_0_l; apply close_zero|].
  unfold SFdiv_core_binary. set (d := fexp 53 1024 _). set (k := Z.min d (e - e')). set (n := e - e' - k).
  assert (0 <= n) as Hn0 by lia.
  assert ((match n with Z0 => Zpos m | Zpos _ => Z.shiftl (Zpos m) n | Zneg _ => 0 end) = Zpos m * 2 ^ n) as ->.
  { destruct n as [|p|p]; [lia|by rewrite Z.shiftl_mul_pow2|lia]. }
  set (M := Zpos m * 2 ^ n). assert (0 < 2 ^ n) as H2n by (by apply Z.pow_pos_nonneg).
  assert (0 < M) as HM by (unfold M; lia).
  destruct (Z.div_eucl M (Zpos m')) as [q r] eqn:Hdiv.
  pose proof (Z_div_mod M (Zpos m') ltac:(lia)) as HD. rewrite Hdiv in HD. destruct HD as [HD Hr].
  assert (0 <= q) as Hq by nia. assert (0 < IZR (Zpos m'))%R as Hm' by (by apply IZR_lt).
  set (v := (IZR M / IZR (Zpos m') * pow2 k)%R). pose proof (pow2_pos k) as Hk.
  assert (0 <= v)%R as Hv0.
  { unfold v. apply IZR_lt in HM. apply Rmult_le_pos; [|lra]. by apply Rlt_le, Rdiv_lt_0_compat. }
  assert ((sign s * (IZR (Zpos m) * pow2 e) / (sign s' * (IZR (Zpos m') * pow2 e')))%R = (sign (xorb s s') * v)%R) as Heq.
  { unfold v, M. rewrite mult_IZR, pow2_IZR by done. replace e with (n + k + e') by lia. rewrite !pow2_add.
    rewrite sign_xorb. pose proof (pow2_pos e'). destruct s, s'; cbn [sign]; field; lra. }
  rewrite Heq in *. rewrite Rabs_sign in Hb by done.
  assert (IZR M = IZR (Zpos m') * IZR q + IZR r)%R as HMr by (rewrite HD, plus_IZR, mult_IZR; done).
  assert (v = (IZR q + IZR r / IZR (Zpos m')) * pow2 k)%R as Hv.
  { unfold v. rewrite HMr. field. lra. }
  assert (0 <= IZR r / IZR (Zpos m') < 1)%R as Hfrac.
  { assert (0 <= IZR r < IZR (Zpos m'))%R by (split; [apply IZR_le|apply IZR_lt]; lia).
    split; [apply Rmult_le_pos; [lra|]; apply Rlt_le, Rinv_0_lt_compat; lra|].
    apply Rmult_lt_reg_r with (IZR (Zpos m')); [done|]. unfold Rdiv. rewrite Rmult_assoc, Rinv_l by lra. lra. }
  destruct (round_aux_close q k (new_location (Zpos m') r) v) with (xorb s s') as (Hok & Herr & _);
    [done|rewrite Hv; split; nra| | |done|].
  - intros Hl. apply new_location_exact in Hl as ->. rewrite Hv. unfold Rdiv. ring.
  - set (dx := Zdigits2 (Zpos m)) in *. set (dy := Zdigits2 (Zpos m')) in *.
    assert (k <= d) by lia. assert (0 <= Zdigits2 q) by (by destruct q).
    assert (1 <= dx) by (unfold dx; cbn [Zdigits2]; lia). assert (1 <= dy) by (unfold dy; cbn [Zdigits2]; lia).
    assert (2 ^ (dx - 1) <= Zpos m) by apply digits_lower. assert (Zpos m' < 2 ^ dy) by apply digits_upper.
    assert (2 ^ (dx - 1 + n) <= M) by (unfold M; rewrite Z.pow_add_r by lia; nia).
    destruct (decide (1 <= dx + n - dy)) as [Hbig|]; [|etrans; [done|]; apply fexp_mono; lia].
    etrans; [done|]. apply fexp_mono. enough (dx + n - dy - 1 < Zdigits2 q) by lia.
    apply (Z.pow_lt_mono_r_iff 2); [done..|]. destruct (Zdigits2_spec q Hq) as [[_ Hup]|[Hz _]].
    + eapply Z.le_lt_trans; [|exact Hup]. apply Z.lt_succ_r, (Z.mul_lt_mono_pos_r (Zpos m')); [done|].
      apply Z.lt_le_trans with (2 ^ (dx + n - dy - 1) * 2 ^ dy).
      * apply Z.mul_lt_mono_pos_l; [apply Z.pow_pos_nonneg; lia|done].
      * rewrite <- Z.pow_add_r by lia. replace (dx + n - dy - 1 + dy) with (dx - 1 + n) by lia. nia.
    + exfalso. assert (M < Zpos m') by nia. assert (2 ^ dy <= 2 ^ (dx - 1 + n)) by (apply Z.pow_le_mono_r; lia). lia.
  - split; [done|]. by rewrite Rabs_sign by done.
Qed.

(** ** The order *)

Lemma finite_value_pos s m e : (0 < sign s * (IZR (Zpos m) * pow2 e) <-> s = false)%R.
Proof.
  pose proof (pow2_pos e). assert (0 < IZR (Zpos m))%R by (by apply IZR_lt).
  assert (0 < IZR (Zpos m) * pow2 e)%R by nra. destruct s; cbn [sign]; split; intros; try done; lra.
Qed.
(** Of two canonical magnitudes the one with the greater exponent is greater. *)
Lemma magnitude_exponent s s' m m' e e' :
  ok (S754_finite s m e) -> ok (S754_finite s' m' e') -> e < e' -> (IZR (Zpos m) * pow2 e < IZR (Zpos m') * pow2 e')%R.
Proof.
  intros Hx Hy He. apply canonical in Hx as (Hd & He0 & _), Hy as (_ & _ & [Hd'|]); [|lia]. cbn [Zdigits2] in *.
  pose proof (digits_upper m) as Hu. pose proof (digits_lower m') as Hl. rewrite Hd' in Hl.
  assert (Zpos m < 2 ^ 53) as Hm by (eapply Z.lt_le_trans; [exact Hu|]; apply Z.pow_le_mono_r; lia).
  apply IZR_lt in Hm. apply IZR_le in Hl. rewrite pow2_IZR in Hm, Hl by done.
  pose proof (pow2_pos e). pose proof (pow2_pos e'). apply Rlt_le_trans with (pow2 53 * pow2 e)%R; [nra|].
  apply Rle_trans with (pow2 (53 - 1) * pow2 e')%R; [|nra]. rewrite <- !pow2_add. apply pow2_le. lia.
Qed.

Lemma compare_value x y : ok x -> ok y ->
  match partial_cmp x y with
  | Some Lt => (value x < value y)%R
  | Some Eq => value x = value y
  | Some Gt => (value y < value x)%R
  | None => False
  end.
Proof.
  intros Hx Hy. pose proof (proj1 Hx). pose proof (proj1 Hy). unfold partial_cmp.
  destruct x as [s| | |s m e], y as [s'| | |s' m' e']; try done; cbn [SFcompare value].
  - pose proof (finite_value_pos s' m' e'). destruct s'; cbn [sign] in *; [|tauto].
    assert (0 < IZR (Zpos m') * pow2 e')%R by (apply Rmult_lt_0_compat; [by apply IZR_lt|apply pow2_pos]). lra.
  - pose proof (finite_value_pos s m e). destruct s; cbn [sign] in *; [|tauto].
    assert (0 < IZR (Zpos m) * pow2 e)%R by (apply Rmult_lt_0_compat; [by apply IZR_lt|apply pow2_pos]). lra.
  - assert (0 < IZR (Zpos m) * pow2 e)%R by (apply Rmult_lt_0_compat; [by apply IZR_lt|apply pow2_pos]).
    assert (0 < IZR (Zpos m') * pow2 e')%R by (apply Rmult_lt_0_compat; [by apply IZR_lt|apply pow2_pos]).
    destruct s, s'; cbn [sign]; [|lra..|]; destruct (Z.compare_spec e e') as [->|He|He];
      try (pose proof (magnitude_exponent _ _ _ _ _ _ Hx Hy He); lra);
      try (pose proof (magnitude_exponent _ _ _ _ _ _ Hy Hx He); lra);
      fold (Pos.compare m m'); pose proof (pow2_pos e'); destruct (Pos.compare_spec m m') as [->|Hm|Hm]; cbn [CompOpp];
      try done; apply Pos2Z.pos_lt_pos, IZR_lt in Hm; nra.
Qed.

Lemma flt_value x y : ok x -> ok y -> flt x y = true <-> (value x < value y)%R.
Proof.
  intros Hx Hy. pose proof (compare_value x y Hx Hy) as H. unfold flt, SFltb, partial_cmp in *.
  destruct (SFcompare x y) as [[]|]; split; intros; try done; lra.
Qed.
Lemma fle_value x y : ok x -> ok y -> fle x y = true <-> (value x <= value y)%R.
Proof.
  intros Hx Hy. pose proof (compare_value x y Hx Hy) as H. unfold fle, SFleb, partial_cmp in *.
  destruct (SFcompare x y) as [[]|]; split; intros; try done; lra.
Qed.
Lemma flt_cases x y : ok x -> ok y ->
  (flt x y = true /\ (value x < value y)%R) \/ (flt x y = false /\ (value y <= value x)%R).
Proof.
  intros Hx Hy. pose proof (flt_value x y Hx Hy) as H. destruct (flt x y); [left|right]; (split; [done|]); [by apply H|].
  destruct (Rlt_le_dec (value x) (value y)) as [Hl|]; [|done]. by apply H in Hl.
Qed.
Lemma fle_cases x y : ok x -> ok y ->
  (fle x y = true /\ (value x <= value y)%R) \/ (fle x y = false /\ (value y < value x)%R).
Proof.
  intros Hx Hy. pose proof (fle_value x y Hx Hy) as H. destruct (fle x y); [left|right]; (split; [done|]); [by apply H|].
  destruct (Rle_lt_dec (value x) (value y)) as [Hl|]; [|done]. by apply H in Hl.
Qed.

Lemma ok_not_nan x : ok x -> is_nan x = false.
Proof. intros [H _]. by destruct x. Qed.
Lemma fmin_value x y : ok x -> ok y -> ok (fmin x y) /\ value (fmin x y) = Rmin (value x) (value y).
Proof.
  intros Hx Hy. unfold fmin. rewrite (ok_not_nan x), (ok_not_nan y) by done.
  destruct (flt_cases y x) as [[-> H]|[-> H]]; [done..| |]; (split; [done|]); unfold Rmin; destruct (Rle_dec _ _); lra.
Qed.
Lemma fmax_value x y : ok x -> ok y -> ok (fmax x y) /\ value (fmax x y) = Rmax (value x) (value y).
Proof.
  intros Hx Hy. unfold fmax. rewrite (ok_not_nan x), (ok_not_nan y) by done.
  destruct (flt_cases x y) as [[-> H]|[-> H]]; [done..| |]; (split; [done|]); unfold Rmax; destruct (Rle_dec _ _); lra.
Qed.

(** ** Moderate magnitudes

    Below [2 ^ 24] an operation is within a millionth of the exact result. *)

Definition near (v : R) (z : float) : Prop :=
  ok z /\ (v - 1 / 1000000 <= value z <= v + 1 / 1000000)%R.

Lemma close_near v z : close v z -> (-16777216 <= v <= 16777216)%R -> near v z.
Proof.
  intros [Hok H] Hv. split; [done|].
  assert (Rabs v <= 16777216)%R by (apply Rabs_le; lra).
  assert (pow2 (-1074) <= pow2 (-30))%R by (by apply pow2_le).
  change (-30) with (- (30)) in *. rewrite (pow2_neg 30) in * by done. change (-52) with (- (52)) in *.
  rewrite (pow2_neg 52) in H by done. pose proof (Rabs_pos v).
  pose proof (Rle_abs (value z - v)). pose proof (Rle_abs (- (value z - v))). rewrite Rabs_Ropp in *. lra.
Qed.

Lemma moderate v : (-16777216 <= v <= 16777216)%R -> (Rabs v <= pow2 960)%R.
Proof.
  intros H. apply Rle_trans with (pow2 24); [|by apply pow2_le]. rewrite <- pow2_IZR by done. apply Rabs_le. cbn. lra.
Qed.
Lemma add_near x y : ok x -> ok y -> (-16777216 <= value x + value y <= 16777216)%R ->
  near (value x + value y) (F64.add x y).
Proof. intros. apply close_near; [|done]. apply add_close; [done..|]. by apply moderate. Qed.
Lemma sub_near x y : ok x -> ok y -> (-16777216 <= value x - value y <= 16777216)%R ->
  near (value x - value y) (F64.sub x y).
Proof. intros. apply close_near; [|done]. apply sub_close; [done..|]. by apply moderate. Qed.
Lemma mul_near x y : ok x -> ok y -> (-16777216 <= value x * value y <= 16777216)%R ->
  near (value x * value y) (F64.mul x y).
Proof. intros. apply close_near; [|done]. apply mul_close; [done..|]. by apply moderate. Qed.
Lemma div_near x y : ok x -> ok y -> is_normal y = true -> (-16777216 <= value x / value y <= 16777216)%R ->
  near (value x / value y) (F64.div x y).
Proof. intros. apply close_near; [|done]. apply div_close; [done..|]. by apply moderate. Qed.

(** A constant that is an integer. *)
Lemma int_float x n : x = F64.of_int n -> Z.abs n < 2 ^ 53 -> ok x /\ value x = IZR n.
Proof. intros ->. apply of_int_exact. Qed.
Ltac constant n := apply (int_float _ n); [by vm_compute|done].
(** What is given as it stands; [done] would compute the floats to compare them. *)
Ltac same := match goal with |- ?x = ?x => reflexivity | |- _ -> ?x = ?x => intros; reflexivity end.
Ltac given := try solve [assumption | same | intros; first [assumption | match goal with E : S _ = O |- _ => discriminate E end]].
