(* ===== verification/ChromaTheorems.v ===== *)
(** * The shared region, its runs, and silence: proofs

    The best run of matched times against the list of all maximal runs, what a
    comparison of two fingerprints reports, and the quiet runs of a window
    against the maximal ones. *)
From Stdlib Require Import SpecFloat Reals Lra.
From S2P Require Import Prelude Floats Utf8 Segments Decode Chroma FloatReal.
#[local] Open Scope Z_scope.

(** ** Runs of times *)

(** The maximal runs of a sorted list, from the run that began at [start] and
    has reached [t]. *)
Fixpoint maximal_runs (max_distance start t : float) (times : list float) : list Range :=
  match times with
  | [] => [mkRange start t]
  | next :: times =>
      if fle (F64.sub next t) max_distance then maximal_runs max_distance start next times
      else mkRange start t :: maximal_runs max_distance next next times
  end.
Definition runs_of (max_distance : float) (times : list float) : list Range :=
  match sort_by unwrap_cmp times with
  | [] => []
  | t :: times => maximal_runs max_distance t t times
  end.

Definition keep_all (best : option Range) (runs : list Range) : option Range :=
  fold_left (fun best r => Some (keep best r)) runs best.

Lemma contiguous_runs max_distance times start t best :
  Some (contiguous max_distance t times (mkRange start t) best)
  = keep_all best (maximal_runs max_distance start t times).
Proof.
  revert start t best. induction times as [|next times IH]; intros start t best; cbn [contiguous maximal_runs]; [done|].
  destruct (fle _ _); [apply IH|]. by rewrite IH.
Qed.

(** The first of the longest. *)
Definition first_longest (runs : list Range) (r : Range) : Prop :=
  exists pre post, runs = pre ++ r :: post
    /\ Forall (fun r' => flt (duration r') (duration r) = true) pre
    /\ Forall (fun r' => fle (duration r') (duration r) = true) post.

Lemma flt_not_fle x y : flt x y = true -> fle y x = true -> False.
Proof.
  intros Hxy Hyx. destruct (fle_nan _ _ Hyx) as [Hy Hx]. rewrite flt_key in Hxy by done. rewrite fle_key in Hyx by done.
  rewrite key_cmp_antisym, Hxy in Hyx. by cbn in Hyx.
Qed.
Lemma first_longest_unique runs r r' : first_longest runs r -> first_longest runs r' -> r = r'.
Proof.
  intros (pre & post & -> & Hpre & Hpost) (pre' & post' & Heq & Hpre' & Hpost').
  rewrite Forall_forall in Hpre, Hpost, Hpre', Hpost'.
  destruct (app_eq_inv _ _ _ _ Heq) as [(k & E1 & E2)|(k & E1 & E2)];
    (destruct k as [|x k]; [cbn in E2; by injection E2|injection E2 as <- E2]); exfalso.
  - apply (flt_not_fle (duration r') (duration r)); [apply Hpre|apply Hpost']; subst; rewrite elem_of_app, elem_of_cons; auto.
  - apply (flt_not_fle (duration r) (duration r')); [apply Hpre'|apply Hpost]; subst; rewrite elem_of_app, elem_of_cons; auto.
Qed.

Definition lasts (r : Range) : Prop := is_nan (duration r) = false.

Lemma flt_fle_trans x y z : flt x y = true -> fle y z = true -> flt x z = true.
Proof.
  intros Hxy Hyz. assert (fle x y = true) as Hxy' by (by apply flt_fle).
  destruct (fle_nan _ _ Hxy'), (fle_nan _ _ Hyz).
  destruct (flt x z) eqn:Hxz; [done|]. apply flt_le in Hxz; [|done..].
  pose proof (fle_trans _ _ _ Hyz Hxz) as Hyx. rewrite fle_key in Hyx by done. rewrite flt_key in Hxy by done.
  rewrite key_cmp_antisym in Hyx. destruct (key_cmp (fkey x) (fkey y)); [done|by cbn in Hyx|done].
Qed.
Lemma fle_flt_trans x y z : fle x y = true -> flt y z = true -> flt x z = true.
Proof.
  intros Hxy Hyz. assert (fle y z = true) as Hyz' by (by apply flt_fle).
  destruct (fle_nan _ _ Hxy), (fle_nan _ _ Hyz').
  destruct (flt x z) eqn:Hxz; [done|]. apply flt_le in Hxz; [|done..].
  pose proof (fle_trans _ _ _ Hxz Hxy) as Hzy. rewrite fle_key in Hzy by done. rewrite flt_key in Hyz by done.
  rewrite key_cmp_antisym in Hzy. destruct (key_cmp (fkey y) (fkey z)); [done|by cbn in Hzy|done].
Qed.
Lemma fge_false_flt x y : is_nan x = false -> is_nan y = false -> fge x y = false -> flt x y = true.
Proof.
  intros Hx Hy H. destruct (flt x y) eqn:E; [done|]. apply flt_le in E; [|done..].
  unfold fge in H. unfold fle in E. congruence.
Qed.

Lemma keep_all_first runs r seen :
  Forall lasts (seen ++ runs) -> first_longest seen r ->
  exists r', keep_all (Some r) runs = Some r' /\ first_longest (seen ++ runs) r'.
Proof.
  revert r seen. induction runs as [|c runs IH]; intros r seen Hok Hr; [by exists r; rewrite app_nil_r|].
  cbn [keep_all fold_left]. rewrite cons_middle, app_assoc in *. fold (keep_all (Some (keep (Some r) c)) runs).
  pose proof Hr as (pre & post & -> & Hpre & Hpost). rewrite !Forall_app, !Forall_cons in Hok.
  destruct Hok as [[[Hp [Hlr Hpo]] [Hc _]] Hruns].
  apply IH; [by rewrite !Forall_app, !Forall_cons|]. unfold keep.
  destruct (fge (duration r) (duration c)) eqn:Hge.
  - exists pre, (post ++ [c]). split; [by rewrite <- app_assoc|]. split; [done|]. rewrite Forall_app. split; [done|].
    constructor; [exact Hge|done].
  - apply fge_false_flt in Hge; [|done..]. exists (pre ++ r :: post), []. split; [done|]. split; [|done].
    rewrite Forall_app, Forall_cons. split_and!; [|exact Hge|].
    + eapply Forall_impl; [exact Hpre|]. intros r' H. eapply fle_flt_trans; [apply flt_fle; exact H|exact Hge].
    + eapply Forall_impl; [exact Hpost|]. intros r' H. eapply fle_flt_trans; [exact H|exact Hge].
Qed.
Lemma keep_all_longest runs :
  Forall lasts runs -> runs <> [] -> exists r, keep_all None runs = Some r /\ first_longest runs r.
Proof.
  destruct runs as [|c runs]; [done|]. intros Hok _. cbn [keep_all fold_left].
  destruct (keep_all_first runs c [c]) as (r & Hr & Hf); [done| |by exists r].
  by exists [], [].
Qed.

(** Times and the runs between them. *)
Definition moderate_time (t : float) : Prop := ok t /\ (0 <= value t <= 8388609)%R.
Lemma moderate_lasts a b : moderate_time a -> moderate_time b -> lasts (mkRange a b).
Proof.
  intros [Ha Va] [Hb Vb]. unfold lasts, duration. cbn [r_start r_end].
  destruct (sub_near b a) as [Hok _]; [done..|lra|]. by apply ok_not_nan.
Qed.
Lemma maximal_runs_moderate max_distance start t times :
  moderate_time start -> moderate_time t -> Forall moderate_time times ->
  Forall (fun r => moderate_time (r_start r) /\ moderate_time (r_end r)) (maximal_runs max_distance start t times)
  /\ maximal_runs max_distance start t times <> [].
Proof.
  intros Hs Ht Hts. revert start t Hs Ht. induction Hts as [|next times Hn Hts IH]; intros start t Hs Ht;
    cbn [maximal_runs]; [split; [by apply Forall_singleton|done]|].
  destruct (fle _ _); [by apply IH|]. split; [|done]. apply Forall_cons. split; [done|]. by apply IH.
Qed.
Lemma sorts_moderate times : Forall moderate_time times -> sorts Datatypes.id times = true.
Proof.
  intros H. unfold sorts. apply orb_true_iff. right. apply negb_true_iff.
  induction H as [|t times [Ht _] _ IH]; [done|]. cbn [existsb Datatypes.id]. by rewrite ok_not_nan.
Qed.
Lemma sort_moderate times : Forall moderate_time times -> Forall moderate_time (sort_by unwrap_cmp times).
Proof. intros H. by rewrite sort_by_perm. Qed.

(** Of matched times within a fingerprint the analyzer reports the first of
    the longest maximal runs: every run before it is shorter, none after it is
    longer. It panics on none of them and finds nothing only in nothing. *)
Lemma contiguous_best times max_distance :
  Forall moderate_time times ->
  match times with
  | [] => find_contiguous times max_distance = Ok None
  | _ => exists r, find_contiguous times max_distance = Ok (Some r) /\ first_longest (runs_of max_distance times) r
  end.
Proof.
  intros Hts. unfold find_contiguous. rewrite sorts_moderate by done. cbn [ensure].
  destruct times as [|t0 times0] eqn:E; [done|]. rewrite <- E in *. unfold runs_of.
  pose proof (sort_moderate times Hts) as Hs. destruct (sort_by unwrap_cmp times) as [|t ts] eqn:Hnil.
  - exfalso. pose proof (sort_by_perm unwrap_cmp times) as Hp. rewrite Hnil in Hp. by apply Permutation_nil in Hp; subst.
  - rewrite contiguous_runs. apply Forall_cons in Hs as [Ht Hs].
    destruct (maximal_runs_moderate max_distance t t ts Ht Ht Hs) as [Hm Hne].
    destruct (keep_all_longest (maximal_runs max_distance t t ts)) as (r & -> & Hr); [|done|by exists r].
    eapply Forall_impl; [exact Hm|]. intros [a b] [Ha Hb]. by apply moderate_lasts.
Qed.

(** ** Times of points *)

Lemma eighth : ok (F64.lit 125 (-3)) /\ value (F64.lit 125 (-3)) = (1 / 8)%R.
Proof.
  assert (F64.lit 125 (-3) = S754_finite false (2 ^ 52) (-55)) as -> by (by vm_compute). split; [done|].
  cbn [value sign]. change (Zpos (2 ^ 52)) with (2 ^ 52). rewrite pow2_IZR, <- pow2_add by done.
  change (52 + -55) with (- (3)). rewrite pow2_neg by done. cbn. lra.
Qed.
(** A point is 0.1238 seconds; these bounds are enough. *)
Lemma sample_duration : ok SAMPLE_DURATION /\ (1 / 9 <= value SAMPLE_DURATION <= 1 / 8)%R.
Proof.
  assert (ok SAMPLE_DURATION) as Hok by (by vm_compute). split; [done|]. destruct eighth as [H8 V8]. split.
  - pose proof (of_int_exact 1 eq_refl) as [H1 V1]. pose proof (of_int_exact 9 eq_refl) as [H9 V9].
    destruct (div_near (F64.of_int 1) (F64.of_int 9)) as [Hd Vd]; [done..|rewrite V1, V9; lra|]. rewrite V1, V9 in Vd.
    assert (value (F64.add (F64.div (F64.of_int 1) (F64.of_int 9)) (F64.div (F64.of_int 1) (F64.of_int 1000))) <= value SAMPLE_DURATION)%R as H.
    { apply fle_value; [by vm_compute|done|by vm_compute]. }
    pose proof (of_int_exact 1000 eq_refl) as [Hk Vk].
    destruct (div_near (F64.of_int 1) (F64.of_int 1000)) as [Hd' Vd']; [done..|rewrite V1, Vk; lra|]. rewrite V1, Vk in Vd'.
    destruct (add_near (F64.div (F64.of_int 1) (F64.of_int 9)) (F64.div (F64.of_int 1) (F64.of_int 1000))) as [_ Va]; [done..|lra|].
    lra.
  - rewrite <- V8. apply fle_value; [done..|by vm_compute].
Qed.

Definition points_ok (points : list Z) : Prop := Z.of_nat (length points) <= 2 ^ 26.

Lemma point_time_near i : Z.of_nat i <= 2 ^ 26 ->
  ok (point_time i) /\ (0 <= value (point_time i))%R
  /\ (INR i * value SAMPLE_DURATION - 1 / 1000000 <= value (point_time i) <= INR i * value SAMPLE_DURATION + 1 / 1000000)%R.
Proof.
  intros Hi. unfold point_time. destruct sample_duration as [Hs Vs].
  destruct (of_int_exact (Z.of_nat i)) as [Ho Vo]; [lia|]. rewrite <- INR_IZR_INZ in Vo.
  assert (0 <= INR i <= 67108864)%R as Vi by (split; [apply pos_INR|rewrite INR_IZR_INZ; apply IZR_le; lia]).
  assert (0 <= INR i * value SAMPLE_DURATION <= 67108864 * (1 / 8))%R as Vp.
  { split; [apply Rmult_le_pos; lra|apply Rmult_le_compat; lra]. }
  destruct (mul_near (F64.of_int (Z.of_nat i)) SAMPLE_DURATION) as [Hm Vm]; [done..|rewrite Vo; lra|]. rewrite Vo in Vm.
  split; [done|]. split; [|done]. destruct (decide (i = 0%nat)) as [->|Hne].
  { assert (F64.mul (F64.of_int (Z.of_nat 0)) SAMPLE_DURATION = fzero) as -> by (by vm_compute). apply Rle_refl. }
 
  assert (1 <= INR i)%R by (replace 1%R with (INR 1) by done; apply le_INR; lia).
  assert (1 / 9 <= INR i * value SAMPLE_DURATION)%R by (replace (1 / 9)%R with (1 * (1 / 9))%R by lra; apply Rmult_le_compat; lra). lra.
Qed.
Lemma point_time_moderate i : Z.of_nat i <= 2 ^ 26 -> moderate_time (point_time i).
Proof.
  intros Hi. destruct (point_time_near i Hi) as (Ho & H0 & _ & Hu). split; [done|]. split; [done|].
  assert (INR i <= 67108864)%R by (rewrite INR_IZR_INZ; apply IZR_le; lia). destruct sample_duration as [_ Vs].
  pose proof (pos_INR i). assert (INR i * value SAMPLE_DURATION <= 67108864 * (1 / 8))%R by (apply Rmult_le_compat; lra). lra.
Qed.

(** ** One alignment *)

Lemma collect_ok {E A B} (f : A -> result E B) (g : A -> B) l :
  (forall a, a ∈ l -> f a = Ok (g a)) -> collect (map f l) = Ok (map g l).
Proof.
  induction l as [|a l IH]; intros H; [done|]. cbn [map collect]. rewrite (H a) by left. cbn [rbind].
  rewrite IH; [done|]. intros b Hb. apply H. by right.
Qed.

Lemma omap_id_map {A B} (f : A -> option B) l : omap Datatypes.id (map f l) = omap f l.
Proof. induction l as [|a l IH]; [done|]. cbn. unfold Datatypes.id at 1. destruct (f a); cbn; by rewrite <- IH. Qed.

Section Aligned.
Context (lhs rhs : list Z) (params : SearchParams).
Hypothesis lhs_ok : points_ok lhs.
Hypothesis rhs_ok : points_ok rhs.

Definition agree (l r : Z) : bool := negb (max_point_differences params <? count_ones (Z.lxor l r)).
Definition pair_at (shift : Z) (i : nat) : option (float * float) :=
  let lp := (i + left_offset shift)%nat in
  let rp := (i + right_offset shift)%nat in
  if agree (nth lp lhs 0) (nth rp rhs 0) then Some (point_time lp, point_time rp) else None.
(** The times of the aligned points that agree. *)
Definition matches (shift : Z) : list (float * float) := omap (pair_at shift) (seq 0 (upper lhs rhs shift)).

Lemma in_upper shift i : (i < upper lhs rhs shift)%nat ->
  (i + left_offset shift < length lhs)%nat /\ (i + right_offset shift < length rhs)%nat.
Proof. unfold upper, left_offset, right_offset. destruct (Z.ltb_spec shift 0); lia. Qed.

Lemma matched_ok shift i : (i < upper lhs rhs shift)%nat -> matched lhs rhs params shift i = Ok (pair_at shift i).
Proof.
  intros Hi. apply in_upper in Hi as [Hl Hr]. unfold matched, pair_at, agree.
  rewrite (nth_lookup lhs), (nth_lookup rhs).
  destruct (lookup_lt_is_Some_2 lhs _ Hl) as [l ->], (lookup_lt_is_Some_2 rhs _ Hr) as [r ->].
  cbn [ok_or rbind default]. by destruct (_ <? _).
Qed.
Lemma matches_moderate shift :
  Forall (fun p => moderate_time (fst p) /\ moderate_time (snd p)) (matches shift).
Proof.
  apply Forall_forall. intros [a b] H. apply list_elem_of_omap in H as (i & Hi & Hp).
  apply elem_of_seq in Hi. destruct (in_upper shift i) as [Hl Hr]; [lia|]. unfold pair_at in Hp.
  destruct (agree _ _); [|done]. injection Hp as <- <-. unfold points_ok in *.
  split; apply point_time_moderate; lia.
Qed.

(** The first of the longest runs of a list of times, when there is one. *)
Definition longest_run (times : list float) (r : Range) : Prop :=
  times <> [] /\ first_longest (runs_of (max_time_skip params) times) r.
(** What an alignment reports. *)
Definition aligned (shift : Z) (l r : Range) : Prop :=
  longest_run (map fst (matches shift)) l /\ longest_run (map snd (matches shift)) r
  /\ flt (duration l) (min_region_duration params) = false.

Lemma find_longest times : Forall moderate_time times ->
  match find_contiguous times (max_time_skip params) with
  | Ok None => times = []
  | Ok (Some r) => longest_run times r
  | Err _ => False
  end.
Proof.
  intros H. pose proof (contiguous_best times (max_time_skip params) H) as Hb.
  destruct times as [|t times]; [by rewrite Hb|]. destruct Hb as (r & -> & Hr). by split.
Qed.

Lemma contiguous_at_shift_spec shift :
  match contiguous_at_shift lhs rhs params shift with
  | Ok (Some (l, r)) => aligned shift l r
  | Ok None => forall l r, ~ aligned shift l r
  | Err _ => False
  end.
Proof.
  unfold contiguous_at_shift.
  rewrite (collect_ok _ (pair_at shift)) by (intros i Hi; apply elem_of_seq in Hi; apply matched_ok; lia).
  cbn [rbind]. rewrite omap_id_map. fold (matches shift).
  assert (Forall moderate_time (map fst (matches shift)) /\ Forall moderate_time (map snd (matches shift))) as [Hl Hr].
  { split; apply Forall_map; (eapply Forall_impl; [apply matches_moderate|]); by intros ? []. }
  pose proof (find_longest _ Hl) as HL. pose proof (find_longest _ Hr) as HR.
  destruct (find_contiguous (map fst (matches shift)) _) as [[l|]|]; [|cbn [rbind]|done].
  - cbn [rbind]. destruct (flt (duration l) (min_region_duration params)) eqn:Hd.
    + intros l' r' ((_ & Hl') & _ & Hlt). destruct HL as [_ HL]. rewrite (first_longest_unique _ _ _ Hl' HL) in Hlt. congruence.
    + destruct (find_contiguous (map snd (matches shift)) _) as [[r|]|]; [|cbn [rbind]|done].
      * cbn. by split_and!.
      * destruct HL as [Hne _]. cbn. by destruct (matches shift).
  - intros l r ((Hne & _) & _). done.
Qed.
(** A region some suggested alignment shares. *)
Definition shared (l r : Range) : Prop :=
  exists shift, shift ∈ shifts lhs rhs params /\ aligned shift l r /\ valid l = true /\ valid r = true.

Lemma region_at_spec shift :
  exists o, region_at lhs rhs params shift = Ok o
    /\ forall l r, o = Some (l, r) <-> aligned shift l r /\ valid l = true /\ valid r = true.
Proof.
  unfold region_at. pose proof (contiguous_at_shift_spec shift) as H.
  destruct (contiguous_at_shift lhs rhs params shift) as [[[l0 r0]|]|]; [|cbn [rbind opt_filter]|done].
  - cbn [rbind opt_filter]. eexists. split; [done|]. intros l r. split.
    + destruct (fgt (r_end l0) fzero && _) eqn:Hv; [|done]. intros [= <- <-]. by apply andb_true_iff in Hv.
    + intros (((_ & Hl) & (_ & Hr) & _) & Vl & Vr). destruct H as ((_ & Hl0) & (_ & Hr0) & _).
      rewrite (first_longest_unique _ _ _ Hl0 Hl), (first_longest_unique _ _ _ Hr0 Hr). unfold valid in *.
      by rewrite Vl, Vr.
  - exists None. split; [done|]. intros l r. split; [done|]. intros (Ha & _). by destruct (H l r).
Qed.

Lemma search_spec : exists found, search lhs rhs params = Ok found /\ forall l r, (l, r) ∈ found <-> shared l r.
Proof.
  set (region shift := match region_at lhs rhs params shift with Ok o => o | Err _ => None end).
  assert (forall shift, region_at lhs rhs params shift = Ok (region shift)) as Hreg.
  { intros shift. unfold region. by destruct (region_at_spec shift) as (o & -> & _). }
  unfold search. rewrite (collect_ok _ region) by auto. cbn [rbind]. rewrite omap_id_map. eexists. split; [done|].
  intros l r. rewrite list_elem_of_omap. unfold shared. split.
  - intros (shift & Hs & Hr). rewrite sort_by_perm, elem_of_elements in Hs. exists shift. split; [done|].
    destruct (region_at_spec shift) as (o & Ho & Hspec). apply Hspec. rewrite Hreg in Ho. congruence.
  - intros (shift & Hs & Ha). exists shift. rewrite sort_by_perm, elem_of_elements. split; [done|].
    destruct (region_at_spec shift) as (o & Ho & Hspec). apply Hspec in Ha. rewrite Hreg in Ho. congruence.
Qed.

Definition moderate_range (r : Range) : Prop := moderate_time (r_start r) /\ moderate_time (r_end r).
Lemma first_longest_in runs r : first_longest runs r -> r ∈ runs.
Proof. intros (pre & post & -> & _). rewrite elem_of_app, elem_of_cons. auto. Qed.
Lemma longest_run_moderate times r : Forall moderate_time times -> longest_run times r -> moderate_range r.
Proof.
  intros Ht [_ Hr%first_longest_in]. unfold runs_of in Hr. pose proof (sort_moderate times Ht) as Hs.
  destruct (sort_by unwrap_cmp times) as [|t ts]; [by apply elem_of_nil in Hr|]. apply Forall_cons in Hs as [Ht0 Hs].
  destruct (maximal_runs_moderate (max_time_skip params) t t ts Ht0 Ht0 Hs) as [Hm _]. rewrite Forall_forall in Hm. by apply Hm.
Qed.
Lemma shared_moderate l r : shared l r -> moderate_range l /\ moderate_range r.
Proof.
  intros (shift & _ & (Hl & Hr & _) & _). pose proof (matches_moderate shift) as Hm.
  split; (eapply longest_run_moderate; [|eassumption]); apply Forall_map; (eapply Forall_impl; [exact Hm|]); by intros ? [].
Qed.

End Aligned.

(** ** Choosing a region *)

Lemma unwrap_cmp_le x y : is_nan x = false -> is_nan y = false -> unwrap_cmp x y <> Gt <-> fle x y = true.
Proof.
  intros Hx Hy. rewrite fle_key by done. unfold unwrap_cmp. by rewrite partial_cmp_key.
Qed.
Lemma longest_spec l : Forall lasts l -> l <> [] ->
  exists r, longest l = Some r /\ r ∈ l /\ forall r', r' ∈ l -> fle (duration r') (duration r) = true.
Proof.
  intros Hl Hne. unfold longest. pose proof (sort_by_perm by_duration l) as Hp.
  assert (StronglySorted (cmp_le by_duration) (sort_by by_duration l)) as Hs.
  { apply (sort_by_sorted by_duration lasts); [| |done].
    - intros a b Ha Hb. unfold by_duration, unwrap_cmp. rewrite !partial_cmp_key by done. cbn [unwrap_or].
      rewrite (key_cmp_antisym (fkey (duration b))). by destruct (key_cmp _ _).
    - intros a b c Ha Hb Hc. unfold cmp_le, by_duration. rewrite !unwrap_cmp_le by done. intros H1 H2. by eapply fle_trans. }
  destruct (sort_by by_duration l) as [|r rest]; [by apply Permutation_nil_l in Hp|].
  exists r. split; [done|]. assert (r ∈ l) as Hr by (rewrite <- Hp; left). split; [done|]. intros r' Hr'.
  rewrite Forall_forall in Hl. rewrite <- Hp in Hr'. apply elem_of_cons in Hr' as [->|Hr'].
  - apply fle_refl. by apply Hl.
  - inversion Hs as [|? ? _ Hall]; subst. rewrite Forall_forall in Hall. specialize (Hall r' Hr').
    unfold cmp_le, by_duration in Hall. rewrite unwrap_cmp_le in Hall; [done|..]; apply Hl; [|done].
    rewrite <- Hp. by right.
Qed.

Definition pick_earlier (best : option (Range * Range)) (p : Range * Range) : option (Range * Range) :=
  match best with
  | None => Some p
  | Some b => if flt (r_start (fst p)) (r_start (fst b)) then Some p else best
  end.
Definition starts (p : Range * Range) : Prop := is_nan (r_start (fst p)) = false.
Lemma earliest_from l b : starts b -> Forall starts l ->
  exists p, fold_left pick_earlier l (Some b) = Some p /\ p ∈ b :: l
    /\ forall q, q ∈ b :: l -> fle (r_start (fst p)) (r_start (fst q)) = true.
Proof.
  revert b. induction l as [|c l IH]; intros b Hb Hl.
  - exists b. split; [done|]. split; [by left|]. intros q ->%list_elem_of_singleton. by apply fle_refl.
  - apply Forall_cons in Hl as [Hc Hl]. cbn [fold_left pick_earlier].
    destruct (flt (r_start (fst c)) (r_start (fst b))) eqn:Hlt.
    + destruct (IH c Hc Hl) as (p & -> & Hp & Hmin). exists p. split; [done|]. split; [by right|].
      intros q Hq. apply elem_of_cons in Hq as [->|Hq]; [|by apply Hmin].
      apply fle_trans with (r_start (fst c)); [apply Hmin; left|by apply flt_fle].
    + destruct (IH b Hb Hl) as (p & -> & Hp & Hmin). exists p. split; [done|].
      split; [apply elem_of_cons in Hp as [->|]; [left|by right; right]|].
      intros q Hq. rewrite !elem_of_cons in Hq. destruct Hq as [->|[->|Hq]]; [apply Hmin; left| |apply Hmin; by right].
      apply fle_trans with (r_start (fst b)); [apply Hmin; left|]. by apply flt_le.
Qed.
Lemma earliest_spec l : Forall starts l -> l <> [] ->
  exists p, earliest l = Some p /\ p ∈ l /\ forall q, q ∈ l -> fle (r_start (fst p)) (r_start (fst q)) = true.
Proof. destruct l as [|b l]; [done|]. intros H _. apply Forall_cons in H as [Hb Hl]. by apply earliest_from. Qed.

Lemma sorts_lasts {A} (f : A -> float) l : Forall (fun a => is_nan (f a) = false) l -> sorts f l = true.
Proof.
  intros H. unfold sorts. apply orb_true_iff. right. apply negb_true_iff.
  induction H as [|a l Ha _ IH]; [done|]. cbn [existsb]. by rewrite Ha.
Qed.
Lemma moderate_range_lasts r : moderate_range r -> lasts r.
Proof. destruct r as [a b]. intros [Ha Hb]. by apply moderate_lasts. Qed.

(** What is reported of the regions two fingerprints share: for intros and
    credits a longest one on each side, for recaps the earliest pair. *)
Definition reported (share : Range -> Range -> Prop) (sel : Select) (l r : Range) : Prop :=
  match sel with
  | Longest =>
      (exists r', share l r') /\ (exists l', share l' r)
      /\ forall l' r', share l' r' -> fle (duration l') (duration l) = true /\ fle (duration r') (duration r) = true
  | Earliest => share l r /\ forall l' r', share l' r' -> fle (r_start l) (r_start l') = true
  end.

Lemma compare_spec lhs rhs params sel :
  points_ok lhs -> points_ok rhs ->
  exists a b, compare_with lhs rhs params sel = Ok (a, b)
    /\ (((forall l r, ~ shared lhs rhs params l r) /\ a = no_range /\ b = no_range)
        \/ exists l r, a = snap l /\ b = snap r /\ reported (shared lhs rhs params) sel l r).
Proof.
  intros Hl Hr. destruct (search_spec lhs rhs params Hl Hr) as (found & Hs & Hspec).
  unfold compare_with. rewrite Hs. cbn [rbind].
  assert (forall p, p ∈ found -> moderate_range (fst p) /\ moderate_range (snd p)) as Hmod.
  { intros [l r] Hp. apply Hspec in Hp. exact (shared_moderate lhs rhs params Hl Hr l r Hp). }
  destruct found as [|p0 found0] eqn:E.
  - exists no_range, no_range. split; [done|]. left. split; [|done]. intros l r H. apply Hspec in H. by apply elem_of_nil in H.
  - rewrite <- E in *. assert (found <> []) as Hne by (by rewrite E). clear E p0 found0.
    destruct sel; cbn [reported].
    + assert (Forall lasts (map fst found) /\ Forall lasts (map snd found)) as [HL HR].
      { split; apply Forall_map, Forall_forall; intros p Hp; by apply moderate_range_lasts, Hmod. }
      destruct (longest_spec (map fst found) HL) as (l & El & Hin & Hmax); [by destruct found|].
      destruct (longest_spec (map snd found) HR) as (r & Er & Hin' & Hmax'); [by destruct found|].
      rewrite !sorts_lasts by done. cbn [ensure andb]. rewrite El, Er. cbn [ok_or rbind].
      eexists _, _. split; [done|]. right. exists l, r. split_and!; [done..| | |].
      * apply list_elem_of_fmap in Hin as ([l' r'] & -> & Hp). exists r'. by apply Hspec.
      * apply list_elem_of_fmap in Hin' as ([l' r'] & -> & Hp). exists l'. by apply Hspec.
      * intros l' r' H. apply Hspec in H. split; [apply Hmax|apply Hmax'];
          apply list_elem_of_fmap; by exists (l', r').
    + assert (Forall starts found) as HS.
      { apply Forall_forall. intros p Hp. apply ok_not_nan, Hmod, Hp. }
      destruct (earliest_spec found HS Hne) as ([l r] & Ee & Hin & Hmin).
      rewrite sorts_lasts by done. cbn [ensure]. rewrite Ee. cbn [ok_or rbind fst snd].
      eexists _, _. split; [done|]. right. exists l, r. split_and!; [done..|by apply Hspec|].
      intros l' r' H. apply Hspec in H. by apply (Hmin (l', r')).
Qed.

(** Comparing two fingerprints never panics. It reports nothing exactly when
    no suggested alignment shares a region; otherwise, for an intro or credits,
    a region on each side that no shared region outlasts, and for a recap a
    pair of one alignment that no shared region precedes, with a start in the
    first five seconds pulled to zero. *)
Theorem compare_exact lhs rhs params sel :
  points_ok lhs -> points_ok rhs ->
  exists a b, compare_with lhs rhs params sel = Ok (a, b)
    /\ (((forall l r, ~ shared lhs rhs params l r) /\ a = no_range /\ b = no_range)
        \/ exists l r, a = snap l /\ b = snap r /\ reported (shared lhs rhs params) sel l r).
Proof. apply compare_spec. Qed.

(** ** Silence *)

Section Intervals.
Context (q : nat -> bool).

(** The frames [b, e) are quiet, and those beside them are not or are not there. *)
Definition maximal_quiet (n b e : nat) : Prop :=
  (b < e <= n)%nat /\ (forall f, (b <= f < e)%nat -> q f = true)
  /\ (b = 0%nat \/ q (Nat.pred b) = false) /\ (e = n \/ q e = false).

Fixpoint intervals (n frame : nat) (run_start : option nat) : list (nat * nat) :=
  match n with
  | O => match run_start with Some begin => [(begin, frame)] | None => [] end
  | S n =>
      match q frame, run_start with
      | true, None => intervals n (S frame) (Some frame)
      | false, Some begin => (begin, frame) :: intervals n (S frame) None
      | _, _ => intervals n (S frame) run_start
      end
  end.

(** What the scan knows at a frame: the run it is in, if any. *)
Definition scanning (frame : nat) (run_start : option nat) : Prop :=
  match run_start with
  | None => frame = 0%nat \/ q (Nat.pred frame) = false
  | Some b => (b < frame)%nat /\ (forall f, (b <= f < frame)%nat -> q f = true) /\ (b = 0%nat \/ q (Nat.pred b) = false)
  end.

Lemma scanning_after frame n b e :
  scanning frame None -> maximal_quiet n b e -> (frame <= e)%nat -> (frame <= b)%nat.
Proof.
  intros Hs (Hbe & Hq & _) He. destruct (decide (frame <= b)%nat) as [|Hlt]; [done|].
  destruct Hs as [->|Hs]; [lia|]. rewrite Hq in Hs by lia. done.
Qed.
Lemma scanning_begin frame n b b0 e :
  scanning frame (Some b0) -> maximal_quiet n b e -> (frame <= e)%nat -> (b < frame)%nat -> b = b0.
Proof.
  intros (Hlt & Hall & H0) (Hbe & Hq & Hb & _) He Hbf.
  destruct (lt_eq_lt_dec b b0) as [[H|H]|H]; [|done|].
  - destruct H0 as [|H0]; [lia|]. rewrite Hq in H0 by lia. done.
  - destruct Hb as [|Hb]; [lia|]. rewrite Hall in Hb by lia. done.
Qed.

Lemma intervals_spec k frame rs b e :
  scanning frame rs -> (b, e) ∈ intervals k frame rs <-> maximal_quiet (frame + k) b e /\ (frame <= e)%nat.
Proof.
  revert frame rs. induction k as [|k IH]; intros frame rs Hs; cbn [intervals].
  - rewrite Nat.add_0_r. destruct rs as [b0|].
    + rewrite list_elem_of_singleton. split.
      * intros [= -> ->]. destruct Hs as (Hlt & Hall & H0). split; [|lia]. split_and!; auto; lia.
      * intros [Hm He]. pose proof Hm as (Hbe & _). assert (e = frame) as -> by lia.
        by rewrite (scanning_begin frame frame b b0 frame) by (done || lia).
    + split; [by intros ?%elem_of_nil|]. intros [Hm He]. pose proof Hm as (Hbe & _).
      pose proof (scanning_after frame frame b e Hs Hm He). lia.
  - replace (frame + S k)%nat with (S frame + k)%nat by lia. destruct (q frame) eqn:Hq, rs as [b0|].
    + destruct Hs as (Hlt & Hall & H0). assert (scanning (S frame) (Some b0)) as Hs'.
      { split; [lia|]. split; [|done]. intros f Hf. destruct (decide (f = frame)) as [->|]; [done|]. apply Hall. lia. }
      rewrite (IH (S frame) (Some b0) Hs'). split; intros [Hm He]; (split; [done|]); [lia|].
      destruct (decide (e = frame)) as [->|]; [|lia]. destruct Hm as (? & _ & _ & [|Hqe]); [lia|congruence].
    + assert (scanning (S frame) (Some frame)) as Hs'.
      { split; [lia|]. split; [intros f Hf; by replace f with frame by lia|exact Hs]. }
      rewrite (IH (S frame) (Some frame) Hs'). split; intros [Hm He]; (split; [done|]); [lia|].
      pose proof (scanning_after _ _ _ _ Hs Hm He). destruct Hm as (? & _). lia.
    + rewrite elem_of_cons. assert (scanning (S frame) None) as Hs' by (by right).
      rewrite (IH (S frame) None Hs'). split.
      * intros [[= -> ->]|[Hm He]]; [|split; [done|lia]]. destruct Hs as (Hlt & Hall & H0). split; [|lia].
        split_and!; auto; lia.
      * intros [Hm He]. destruct (decide (e = frame)) as [->|]; [left|right; split; [done|lia]].
        pose proof Hm as (Hbe & _). by rewrite (scanning_begin _ _ b b0 _ Hs Hm) by lia.
    + assert (scanning (S frame) None) as Hs' by (by right).
      rewrite (IH (S frame) None Hs'). split; intros [Hm He]; (split; [done|]); [lia|].
      destruct (decide (e = frame)) as [->|]; [|lia]. pose proof (scanning_after _ _ _ _ Hs Hm He). destruct Hm as (? & _). lia.
Qed.

Lemma intervals_sorted k frame rs :
  scanning frame rs ->
  StronglySorted (fun p p' => (snd p < fst p')%nat) (intervals k frame rs)
  /\ Forall (fun p => match rs with Some b0 => (b0 <= fst p)%nat | None => (frame <= fst p)%nat end) (intervals k frame rs).
Proof.
  revert frame rs. induction k as [|k IH]; intros frame rs Hs; cbn [intervals].
  - destruct rs; split; repeat constructor.
  - destruct (q frame) eqn:Hq, rs as [b0|].
    + destruct Hs as (Hlt & Hall & H0). apply (IH (S frame) (Some b0)).
      split; [lia|]. split; [|done]. intros f Hf. destruct (decide (f = frame)) as [->|]; [done|]. apply Hall. lia.
    + apply (IH (S frame) (Some frame)). split; [lia|]. split; [intros f Hf; by replace f with frame by lia|exact Hs].
    + destruct (IH (S frame) None) as [H1 H2]; [by right|]. destruct Hs as (Hlt & _).
      split; constructor; cbn [fst snd]; try done; (eapply Forall_impl; [exact H2|]); intros [b e]; cbn; lia.
    + destruct (IH (S frame) None) as [H1 H2]; [by right|]. split; [done|].
      eapply Forall_impl; [exact H2|]. intros [b e]; cbn; lia.
Qed.

End Intervals.

Lemma runs_intervals window offset threshold minimum n frame rs :
  runs window offset threshold minimum n frame rs
  = concat (map (fun p => push_run window offset minimum (fst p) (snd p)) (intervals (quiet window threshold) n frame rs)).
Proof.
  revert frame rs. induction n as [|n IH]; intros frame rs; cbn [runs intervals].
  - destruct rs; cbn; [by rewrite app_nil_r|done].
  - destruct (quiet window threshold frame), rs; cbn [map concat fst snd]; by rewrite IH.
Qed.

(** The silences of a window are its maximal runs of quiet frames, in order,
    those that last long enough, each once: the scan equals the definition. *)
Theorem silence_exact window offset threshold minimum :
  exists found, runs window offset threshold minimum (frames window) 0 None
      = concat (map (fun p => push_run window offset minimum (fst p) (snd p)) found)
    /\ StronglySorted (fun p p' => (snd p < fst p')%nat) found
    /\ forall b e, (b, e) ∈ found <-> maximal_quiet (quiet window threshold) (frames window) b e.
Proof.
  exists (intervals (quiet window threshold) (frames window) 0 None). split; [apply runs_intervals|].
  assert (scanning (quiet window threshold) 0 None) as Hs by (by left). split; [by apply intervals_sorted|].
  intros b e. rewrite (intervals_spec _ _ _ _ _ _ Hs), Nat.add_0_l. split; [tauto|]. intros H. split; [done|lia].
Qed.
