(* ===== verification/ChromaFound.v ===== *)
(** * What is shared is found: proofs

    A stretch of points two fingerprints have in common is reported whole,
    given that one of its points does not recur behind it and that the stretch
    lies within the shorter fingerprint on both sides; and what happens when it
    does not. *)
From Stdlib Require Import SpecFloat Reals Lra.
From S2P Require Import Prelude Floats Segments Utf8 Decode Chroma FloatReal ChromaTheorems.
#[local] Open Scope Z_scope.

(** ** The inverted index *)

Lemma index_from_spec l : forall i index p n,
  index_from i l index !! p = Some n ->
  (exists k, n = (i + k)%nat /\ l !! k = Some p /\ forall k', (k < k')%nat -> l !! k' <> Some p)
  \/ ((forall k, l !! k <> Some p) /\ index !! p = Some n).
Proof.
  induction l as [|x l IH]; intros i index p n H; [by right|]. cbn [index_from] in H.
  apply IH in H as [(k & -> & Hk & Hlast)|[Hnone Hold]].
  - left. exists (S k). split; [lia|]. split; [done|]. intros [|k'] Hk'; [lia|]. apply Hlast. lia.
  - destruct (decide (x = p)) as [->|Hne].
    + rewrite lookup_insert in Hold. left. exists 0%nat. rewrite decide_True in Hold by done. injection Hold as <-.
      split; [lia|]. split; [done|]. intros [|k'] Hk'; [lia|]. apply Hnone.
    + rewrite lookup_insert_ne in Hold by done. right. split; [|done]. intros [|k]; [cbn; congruence|apply Hnone].
Qed.
Lemma index_from_some l : forall i index p, (exists n, index !! p = Some n) \/ p ∈ l -> exists n, index_from i l index !! p = Some n.
Proof.
  induction l as [|x l IH]; intros i index p H; cbn [index_from].
  - destruct H as [H|H]; [done|by apply elem_of_nil in H].
  - apply IH. destruct (decide (x = p)) as [->|Hne]; [left; exists i; apply lookup_insert_eq|].
    rewrite lookup_insert_ne by done. destruct H as [H|H]; [by left|]. apply elem_of_cons in H as [->|H]; [done|by right].
Qed.
(** The index of a point is its last. *)
Lemma inverted_index_last l k p :
  l !! k = Some p -> (forall k', (k < k')%nat -> l !! k' <> Some p) -> inverted_index l !! p = Some k.
Proof.
  intros Hk Hlast. destruct (index_from_some l 0 ∅ p) as [n Hn]; [right; by apply list_elem_of_lookup_2 with k|].
  unfold inverted_index. rewrite Hn. apply index_from_spec in Hn as [(k' & -> & Hk' & Hlast')|[Hnone _]]; [|by destruct (Hnone k)].
  f_equal. destruct (lt_eq_lt_dec k k') as [[H|H]|H]; [by destruct (Hlast _ H)|lia|by destruct (Hlast' _ H)].
Qed.

(** ** Sorted times *)

Definition before (a b : float) : Prop := ok a /\ ok b /\ (value a <= value b)%R.
Lemma before_fle a b : before a b -> cmp_le unwrap_cmp a b.
Proof. intros (Ha & Hb & H). apply unwrap_cmp_le; [by apply ok_not_nan..|]. by apply fle_value. Qed.
Lemma sort_by_sorted_id l : StronglySorted before l -> sort_by unwrap_cmp l = l.
Proof.
  induction 1 as [|a l Hl IH Ha]; [done|].
  change (sort_by unwrap_cmp (a :: l)) with (sort_insert unwrap_cmp a (sort_by unwrap_cmp l)).
  rewrite IH. destruct l as [|b l]; [done|]. cbn [sort_insert].
  apply Forall_cons in Ha as [Hab _]. apply before_fle in Hab. unfold cmp_le in Hab. by destruct (unwrap_cmp a b).
Qed.

Section Runs.
Context (max_distance : float).

Definition covers (s e : float) (r : Range) : Prop := (value (r_start r) <= value s /\ value e <= value (r_end r))%R.
Lemma first_run start t times :
  StronglySorted before (t :: times) ->
  exists r, r ∈ maximal_runs max_distance start t times /\ r_start r = start /\ (value t <= value (r_end r))%R.
Proof.
  revert t. induction times as [|next times IH]; intros t Hs; cbn [maximal_runs].
  - exists (mkRange start t). split; [by left|]. split; [done|cbn; lra].
  - inversion Hs as [|? ? Hs' Ht]; subst. apply Forall_cons in Ht as [(_ & _ & Htn) _]. destruct (fle _ _).
    + destruct (IH next Hs') as (r & Hr & Hst & He). exists r. split; [done|]. split; [done|lra].
    + exists (mkRange start t). split; [by left|]. split; [done|cbn; lra].
Qed.
(** A chain of close times stays in one run. *)
Inductive chain : float -> list float -> Prop :=
| chain_nil s : chain s []
| chain_cons s t ts : fle (F64.sub t s) max_distance = true -> chain t ts -> chain s (t :: ts).
Lemma last_cons (l : list float) a d : List.last (a :: l) d = List.last l a.
Proof.
  revert a d. induction l as [|b l IH]; intros a d; [done|]. change (List.last (a :: b :: l) d) with (List.last (b :: l) d).
  by rewrite !IH.
Qed.
Lemma chain_one_run start s ss post :
  chain s ss -> maximal_runs max_distance start s (ss ++ post) = maximal_runs max_distance start (List.last ss s) post.
Proof.
  intros H. induction H as [|s t ts Hst Hc IH]; [done|]. cbn [maximal_runs app]. by rewrite Hst, IH, last_cons.
Qed.
Lemma sorted_suffix pre (l : list float) : StronglySorted before (pre ++ l) -> StronglySorted before l.
Proof. induction pre as [|a pre IH]; [done|]. intros H. inversion H; auto. Qed.
Lemma chain_sorted s ss post :
  StronglySorted before (s :: ss ++ post) -> StronglySorted before (List.last ss s :: post).
Proof.
  revert s. induction ss as [|t ss IH]; intros s H; [done|].
  inversion H as [|? ? H' _]; subst. apply IH in H'. by rewrite last_cons.
Qed.

Lemma chain_covered pre s ss post start t :
  StronglySorted before (t :: pre ++ s :: ss ++ post) -> (value start <= value t)%R -> chain s ss ->
  exists r, r ∈ maximal_runs max_distance start t (pre ++ s :: ss ++ post) /\ covers s (List.last ss s) r.
Proof.
  revert start t. induction pre as [|c pre IH]; intros start t Hs Hst Hc; cbn [app maximal_runs].
  - inversion Hs as [|? ? Hs' Ht]; subst. apply Forall_cons in Ht as [(_ & _ & Hts) _].
    rewrite !(chain_one_run _ s ss post Hc). apply chain_sorted in Hs'.
    destruct (fle _ _).
    + destruct (first_run start _ post Hs') as (r & Hr & Hrs & Hre). exists r. split; [done|]. split; [rewrite Hrs; lra|done].
    + destruct (first_run s _ post Hs') as (r & Hr & Hrs & Hre). exists r. split; [by right|]. split; [rewrite Hrs; lra|done].
  - inversion Hs as [|? ? Hs' Ht]; subst. apply Forall_cons in Ht as [(_ & _ & Htc) _]. destruct (fle _ _).
    + apply IH; [done|lra|done].
    + destruct (IH c c Hs' ltac:(lra) Hc) as (r & Hr & Hcov). exists r. split; [by right|done].
Qed.
Lemma runs_covered pre s ss post :
  StronglySorted before (pre ++ s :: ss ++ post) -> chain s ss ->
  exists r, r ∈ runs_of max_distance (pre ++ s :: ss ++ post) /\ covers s (List.last ss s) r.
Proof.
  intros Hs Hc. unfold runs_of. rewrite sort_by_sorted_id by done. destruct pre as [|t pre]; cbn [app] in *.
  - rewrite (chain_one_run _ s ss post Hc). apply chain_sorted in Hs.
    destruct (first_run s _ post Hs) as (r & Hr & Hrs & Hre). exists r. split; [done|]. split; [rewrite Hrs; lra|done].
  - apply chain_covered; [done|lra|done].
Qed.
End Runs.

(** ** The aligned times *)

Lemma time_before i j : (i <= j)%nat -> Z.of_nat j <= 2 ^ 26 -> before (point_time i) (point_time j).
Proof.
  intros Hij Hj. destruct (point_time_near i) as (Hi & _ & Vi); [lia|]. destruct (point_time_near j Hj) as (Hj' & _ & Vj).
  split; [done|]. split; [done|]. destruct (decide (i = j)) as [->|]; [lra|].
  assert (INR i + 1 <= INR j)%R by (rewrite <- S_INR; apply le_INR; lia). destruct sample_duration as [_ Vs].
  assert ((INR i + 1) * value SAMPLE_DURATION <= INR j * value SAMPLE_DURATION)%R by (apply Rmult_le_compat_r; lra). lra.
Qed.

Section Times.
Context (f : nat -> option float) (off : nat).
Hypothesis f_time : forall i t, f i = Some t -> t = point_time (i + off).

Lemma times_sorted n i : Z.of_nat (i + n + off) <= 2 ^ 26 -> StronglySorted before (omap f (seq i n)).
Proof.
  revert i. induction n as [|n IH]; intros i Hn; [constructor|]. cbn [seq omap list_omap].
  assert (StronglySorted before (omap f (seq (S i) n))) as Hs by (apply IH; lia).
  destruct (f i) as [t|] eqn:Hf; [|done]. constructor; [done|]. apply Forall_forall. intros t' Ht'.
  apply list_elem_of_omap in Ht' as (j & Hj & Hf'). apply elem_of_seq in Hj.
  apply f_time in Hf as ->. apply f_time in Hf' as ->. apply time_before; lia.
Qed.
Lemma times_all n i : (forall k, (i <= k < i + n)%nat -> is_some (f k) = true) ->
  omap f (seq i n) = map (fun k => point_time (k + off)) (seq i n).
Proof.
  revert i. induction n as [|n IH]; intros i H; [done|]. cbn [seq omap list_omap map].
  destruct (f i) as [t|] eqn:Hf; [|by specialize (H i ltac:(lia)); rewrite Hf in H].
  rewrite (f_time _ _ Hf). f_equal. apply IH. intros k Hk. apply H. lia.
Qed.
End Times.

(** ** A shared stretch *)

(** [k] points of the left fingerprint from [i] are those of the right from [j],
    within the length both have; one of them is the last of its kind. *)
Record stretch (lhs rhs : list Z) (i j k : nat) : Prop := mkStretch {
  st_common : forall n, (n < k)%nat -> exists p, lhs !! (i + n)%nat = Some p /\ rhs !! (j + n)%nat = Some p;
  st_within : (Nat.max i j + k <= Nat.min (length lhs) (length rhs))%nat;
  st_anchor : exists n p, (n < k)%nat /\ lhs !! (i + n)%nat = Some p /\ in_range 32 p
    /\ (forall n', (i + n < n')%nat -> lhs !! n' <> Some p) /\ (forall n', (j + n < n')%nat -> rhs !! n' <> Some p);
}.
(** Parameters under which [k] points are a region. *)
Record tuned (params : SearchParams) (k : nat) : Prop := mkTuned {
  tu_differences : 0 <= max_point_differences params;
  tu_shift : 0 <= inverted_index_shift params;
  tu_skip : ok (max_time_skip params) /\ (1 <= value (max_time_skip params))%R;
  tu_region : ok (min_region_duration params)
    /\ (1 / 1000 <= value (min_region_duration params) <= INR (Nat.pred k) * value SAMPLE_DURATION - 1 / 100000)%R;
}.

Section Theme.
Context (lhs rhs : list Z) (params : SearchParams) (i j k : nat).
Hypothesis lhs_ok : points_ok lhs.
Hypothesis rhs_ok : points_ok rhs.
Hypothesis theme : stretch lhs rhs i j k.
Hypothesis params_ok : tuned params k.
Let shift := Z.of_nat j - Z.of_nat i.
Let low := Nat.min i j.

Lemma shift_suggested : shift ∈ shifts lhs rhs params.
Proof.
  destruct (st_anchor _ _ _ _ _ theme) as (n & p & Hn & Hp & Hrange & Hl & Hr).
  destruct (st_common _ _ _ _ _ theme n Hn) as (p' & Hp' & Hrp). rewrite Hp in Hp'. injection Hp' as <-.
  unfold shifts. apply elem_of_list_to_set, list_elem_of_bind. exists (p, (i + n)%nat). split.
  - apply list_elem_of_omap. exists 0. split.
    + unfold around. apply list_elem_of_fmap. exists (Z.to_nat (inverted_index_shift params)).
      pose proof (tu_shift _ _ params_ok). split; [lia|]. apply elem_of_seq. lia.
    + unfold shift_of. cbn [fst snd]. rewrite Z.add_0_r, wrap_small by done.
      rewrite (inverted_index_last rhs (j + n) p Hrp Hr). cbn. f_equal. unfold shift. lia.
  - apply elem_of_map_to_list. by apply inverted_index_last.
Qed.

Lemma offsets : (low + left_offset shift = i)%nat /\ (low + right_offset shift = j)%nat /\ (low + k <= upper lhs rhs shift)%nat.
Proof.
  pose proof (st_within _ _ _ _ _ theme). unfold left_offset, right_offset, upper, shift, low.
  destruct (Z.ltb_spec (Z.of_nat j - Z.of_nat i) 0); lia.
Qed.
Lemma theme_pairs n : (low <= n < low + k)%nat ->
  pair_at lhs rhs params shift n = Some (point_time (n + left_offset shift), point_time (n + right_offset shift)).
Proof.
  intros Hn. destruct offsets as (Hi & Hj & _). destruct (st_common _ _ _ _ _ theme (n - low)) as (p & Hl & Hr); [lia|].
  replace (i + (n - low))%nat with (n + left_offset shift)%nat in Hl by lia.
  replace (j + (n - low))%nat with (n + right_offset shift)%nat in Hr by lia.
  unfold pair_at. rewrite !nth_lookup, Hl, Hr. cbn [default]. unfold agree. rewrite Z.lxor_nilpotent.
  pose proof (tu_differences _ _ params_ok). change (count_ones 0) with 0. by rewrite (proj2 (Z.ltb_ge _ _)) by lia.
Qed.

Lemma k_pos : (2 <= k)%nat.
Proof.
  destruct params_ok as [_ _ _ [_ Hr]]. destruct (le_lt_dec 2 k) as [|Hk]; [done|].
  assert (Nat.pred k = 0%nat) as Hz by lia. rewrite Hz in Hr. cbn [INR] in Hr. lra.
Qed.

(** One side of the matches: sorted, with the stretch in the middle. *)
Lemma map_omap {A B C} (g : B -> C) (f : A -> option B) l : map g (omap f l) = omap (fun a => g <$> f a) l.
Proof. induction l as [|a l IH]; [done|]. cbn. destruct (f a); cbn; by rewrite <- IH. Qed.

Section Side.
Context (side : float * float -> float) (off : nat).
Hypothesis side_time : forall n p, pair_at lhs rhs params shift n = Some p -> side p = point_time (n + off).
Hypothesis bounded : Z.of_nat (upper lhs rhs shift + off) <= 2 ^ 26.
Let f n := side <$> pair_at lhs rhs params shift n.

Lemma f_time n t : f n = Some t -> t = point_time (n + off).
Proof. unfold f. intros H. apply fmap_Some in H as (p & Hp & ->). by apply side_time. Qed.
Lemma chain_times n m : Z.of_nat (n + m + off) <= 2 ^ 26 ->
  chain (max_time_skip params) (point_time (n + off)) (map (fun q => point_time (q + off)) (seq (S n) m)).
Proof.
  revert n. induction m as [|m IH]; intros n Hb; cbn [seq map]; constructor; [|apply IH; lia].
  destruct (point_time_near (S n + off)) as (Ha & _ & Va); [lia|]. destruct (point_time_near (n + off)) as (Hb' & _ & Vb); [lia|].
  replace (S n + off)%nat with (S (n + off)) in * by lia. rewrite S_INR in Va. destruct sample_duration as [_ Vs].
  destruct (tu_skip _ _ params_ok) as [Hs Vk].
  assert (near (value (point_time (S (n + off))) - value (point_time (n + off)))
    (F64.sub (point_time (S (n + off))) (point_time (n + off)))) as [Hd Vd] by (apply sub_near; [done..|lra]).
  apply fle_value; [done..|]. lra.
Qed.
Lemma last_times n m : List.last (map (fun q => point_time (q + off)) (seq (S n) m)) (point_time (n + off)) = point_time (n + m + off).
Proof.
  revert n. induction m as [|m IH]; intros n; cbn [seq map]; [by rewrite Nat.add_0_r|].
  rewrite last_cons. rewrite IH. f_equal. lia.
Qed.

Lemma side_covered :
  exists r, r ∈ runs_of (max_time_skip params) (map side (matches lhs rhs params shift))
    /\ covers (point_time (low + off)) (point_time (low + Nat.pred k + off)) r.
Proof.
  unfold matches. rewrite map_omap. fold f. change (fun a => side <$> pair_at lhs rhs params shift a) with f.
  destruct offsets as (Hi & Hj & Hu). pose proof k_pos as Hk. set (u := upper lhs rhs shift) in *.
  replace u with (low + (k + (u - low - k)))%nat by lia.
  assert (StronglySorted before (omap f (seq 0 (low + (k + (u - low - k)))))) as Hsorted.
  { apply (times_sorted f off f_time). lia. }
  rewrite !seq_app, !omap_app in *. cbn [Nat.add] in *.
  rewrite (times_all f off f_time k low) in * by (intros n Hn; unfold f; by rewrite theme_pairs).
  assert (seq low k = low :: seq (S low) (Nat.pred k)) as Hseq.
  { change (low :: seq (S low) (Nat.pred k)) with (seq low (S (Nat.pred k))). f_equal. lia. }
  rewrite Hseq in *. cbn [map app] in *.
  destruct (runs_covered (max_time_skip params) (omap f (seq 0 low)) (point_time (low + off))
    (map (fun q => point_time (q + off)) (seq (S low) (Nat.pred k))) (omap f (seq (low + k) (u - low - k)))) as (r & Hr & Hcov);
    [done|apply chain_times; lia|].
  exists r. split; [done|]. by rewrite last_times in Hcov.
Qed.

(** So the longest run is at least as long as the stretch. *)
Lemma covered_duration r :
  moderate_range r -> covers (point_time (low + off)) (point_time (low + Nat.pred k + off)) r ->
  (value (r_end r) - value (r_start r) >= INR (Nat.pred k) * value SAMPLE_DURATION - 2 / 1000000)%R.
Proof.
  intros _ [Hs He]. destruct offsets as (Hi & Hj & Hu). pose proof k_pos as Hk.
  destruct (point_time_near (low + off)) as (_ & _ & Va); [lia|].
  destruct (point_time_near (low + Nat.pred k + off)) as (_ & _ & Vb); [lia|].
  replace (low + Nat.pred k + off)%nat with (low + off + Nat.pred k)%nat in * by lia.
  rewrite (plus_INR (low + off)) in Vb. lra.
Qed.
End Side.

Lemma offsets_bounded :
  Z.of_nat (upper lhs rhs shift + left_offset shift) <= 2 ^ 26 /\ Z.of_nat (upper lhs rhs shift + right_offset shift) <= 2 ^ 26.
Proof.
  destruct offsets as (Hi & Hj & Hu). pose proof k_pos. unfold points_ok, upper, left_offset, right_offset in *.
  destruct (Z.ltb_spec shift 0); lia.
Qed.

Definition long_enough (r : Range) : Prop :=
  (value (r_end r) - value (r_start r) >= INR (Nat.pred k) * value SAMPLE_DURATION - 1 / 100000)%R.

Lemma duration_near r : moderate_range r -> near (value (r_end r) - value (r_start r)) (duration r).
Proof. intros [[Hs Vs] [He Ve]]. unfold duration. apply sub_near; [done..|lra]. Qed.
Lemma outlasts r r' : moderate_range r -> moderate_range r' -> fle (duration r) (duration r') = true ->
  (value (r_end r) - value (r_start r) - 2 / 1000000 <= value (r_end r') - value (r_start r'))%R.
Proof.
  intros Hr Hr' H. destruct (duration_near r Hr) as [Ho Hv], (duration_near r' Hr') as [Ho' Hv'].
  apply fle_value in H; [|done..]. lra.
Qed.
Lemma first_longest_max runs r r' : Forall moderate_range runs -> first_longest runs r -> r' ∈ runs ->
  fle (duration r') (duration r) = true.
Proof.
  intros Hm (pre & post & -> & Hpre & Hpost) Hr'. rewrite Forall_forall in Hpre, Hpost.
  rewrite elem_of_app, elem_of_cons in Hr'. destruct Hr' as [H|[->|H]]; [by apply flt_fle, Hpre| |by apply Hpost].
  apply fle_refl, moderate_range_lasts. rewrite Forall_forall in Hm. apply Hm. rewrite elem_of_app, elem_of_cons. auto.
Qed.
Lemma side_found side off :
  (forall n p, pair_at lhs rhs params shift n = Some p -> side p = point_time (n + off)) ->
  Z.of_nat (upper lhs rhs shift + off) <= 2 ^ 26 ->
  Forall moderate_time (map side (matches lhs rhs params shift)) ->
  exists r, find_contiguous (map side (matches lhs rhs params shift)) (max_time_skip params) = Ok (Some r)
    /\ longest_run params (map side (matches lhs rhs params shift)) r /\ moderate_range r
    /\ (value (r_end r) - value (r_start r) >= INR (Nat.pred k) * value SAMPLE_DURATION - 4 / 1000000)%R.
Proof.
  intros Hside Hb Hm. destruct (side_covered side off Hside Hb) as (r & Hr & Hcov).
  pose proof (find_longest params _ Hm) as Hf.
  destruct (find_contiguous _ _) as [[l|]|]; [| |done]; [|rewrite Hf in Hr; by apply elem_of_nil in Hr].
  exists l. split; [done|]. split; [done|]. pose proof (longest_run_moderate params _ l Hm Hf) as Hl. split; [done|].
  destruct Hf as [_ Hf]. assert (Forall moderate_range (runs_of (max_time_skip params) (map side (matches lhs rhs params shift)))) as Hall.
  { unfold runs_of in *. pose proof (sort_moderate _ Hm) as Hs. destruct (sort_by unwrap_cmp _) as [|t ts]; [constructor|].
    apply Forall_cons in Hs as [Ht Hs]. by apply maximal_runs_moderate. }
  pose proof (first_longest_max _ l r Hall Hf Hr) as Hle. rewrite Forall_forall in Hall.
  pose proof (outlasts r l (Hall r Hr) Hl Hle). pose proof (covered_duration off Hb r (Hall r Hr) Hcov). lra.
Qed.

Lemma theme_shared : exists l r, shared lhs rhs params l r /\ moderate_range l /\ moderate_range r
  /\ (value (r_end l) - value (r_start l) >= INR (Nat.pred k) * value SAMPLE_DURATION - 4 / 1000000)%R
  /\ (value (r_end r) - value (r_start r) >= INR (Nat.pred k) * value SAMPLE_DURATION - 4 / 1000000)%R.
Proof.
  pose proof (matches_moderate lhs rhs params lhs_ok rhs_ok shift) as Hm. destruct offsets_bounded as [Hb1 Hb2].
  destruct (side_found fst (left_offset shift)) as (l & _ & Hl & Ml & Vl); [|done| |].
  { intros n p Hp. unfold pair_at in Hp. destruct (agree _ _ _); [|done]. by injection Hp as <-. }
  { apply Forall_map. eapply Forall_impl; [exact Hm|]. by intros ? []. }
  destruct (side_found snd (right_offset shift)) as (r & _ & Hr & Mr & Vr); [|done| |].
  { intros n p Hp. unfold pair_at in Hp. destruct (agree _ _ _); [|done]. by injection Hp as <-. }
  { apply Forall_map. eapply Forall_impl; [exact Hm|]. by intros ? []. }
  exists l, r. split; [|done]. exists shift. split; [exact shift_suggested|].
  destruct (tu_region _ _ params_ok) as [Hro [Hr0 Hr1]].
  assert (forall x, moderate_range x -> (value (r_end x) - value (r_start x) >= INR (Nat.pred k) * value SAMPLE_DURATION - 4 / 1000000)%R ->
    valid x = true) as Hvalid.
  { intros x [[_ Vs] [He _]] Hx. apply flt_value; [done..|]. cbn [value fzero]. lra. }
  split; [|by split; apply Hvalid]. split; [done|]. split; [done|].
  destruct (duration_near l Ml) as [Ho Hv]. destruct (flt_cases (duration l) (min_region_duration params)) as [[_ ?]|[? _]]; [done..|lra|done].
Qed.

End Theme.

Lemma snap_keeps r : moderate_range r ->
  (value (r_end r) - value (r_start r) <= value (r_end (snap r)) - value (r_start (snap r)))%R /\ valid (snap r) = valid r.
Proof.
  intros [[_ Vs] _]. unfold snap. destruct (fle _ _); [|split; [lra|done]]. cbn [r_start r_end value fzero]. split; [lra|done].
Qed.

(** A stretch of music two episodes share is found whole. Given a point in
    it that does not recur behind it, the comparison reports on each side a
    region at least as long as the stretch, up to rounding. *)
Theorem theme_found lhs rhs params i j k :
  points_ok lhs -> points_ok rhs -> stretch lhs rhs i j k -> tuned params k ->
  exists a b, compare_with lhs rhs params Longest = Ok (a, b) /\ long_enough k a /\ long_enough k b
    /\ valid a = true /\ valid b = true.
Proof.
  intros Hl Hr Ht Hp. destruct (theme_shared lhs rhs params i j k Hl Hr Ht Hp) as (l & r & Hs & Ml & Mr & Vl & Vr).
  destruct (compare_spec lhs rhs params Longest Hl Hr) as (a & b & Hc & [[Hnone _]|(l' & r' & -> & -> & Hrep)]);
    [by destruct (Hnone l r)|].
  destruct Hrep as ((r1 & Hr1) & (l1 & Hl1) & Hmax). destruct (Hmax l r Hs) as [HL HR].
  pose proof (shared_moderate _ _ _ Hl Hr _ _ Hr1) as [Ml' _]. pose proof (shared_moderate _ _ _ Hl Hr _ _ Hl1) as [_ Mr'].
  pose proof (outlasts l l' Ml Ml' HL). pose proof (outlasts r r' Mr Mr' HR).
  destruct (snap_keeps l' Ml') as [Sl El], (snap_keeps r' Mr') as [Sr Er].
  exists (snap l'), (snap r'). split; [done|]. unfold long_enough. split; [lra|]. split; [lra|].
  rewrite El, Er. destruct Hr1 as (? & _ & _ & -> & _). by destruct Hl1 as (? & _ & _ & _ & ->).
Qed.

(** ** At work *)

(** Points that look like no other. *)
Definition noise (from n : nat) : list Z := map (fun i => (Z.of_nat i * 2654435761) mod 2 ^ 32) (seq from n).
Definition theme_music : list Z := noise 1 150.
Definition one_episode : list Z := noise 1001 3 ++ theme_music ++ noise 2001 7.
Definition other_episode : list Z := noise 3001 10 ++ theme_music.

Lemma search_default_tuned : tuned search_default 150.
Proof.
  destruct (int_float (min_region_duration search_default) 15) as [Hr Vr]; [by vm_compute|done|].
  constructor; cbn [max_point_differences inverted_index_shift search_default]; [lia..| |].
  - split; [by vm_compute|]. destruct (of_int_exact 1 eq_refl) as [H1 V1]. rewrite <- V1.
    apply fle_value; [done|by vm_compute|by vm_compute].
  - split; [done|]. rewrite Vr. cbn [Nat.pred]. destruct sample_duration as [_ Vs].
    replace (INR 149) with 149%R by (by rewrite INR_IZR_INZ). lra.
Qed.
Lemma noise_lookup from n m : (m < n)%nat -> noise from n !! m = Some ((Z.of_nat (from + m) * 2654435761) mod 2 ^ 32).
Proof. intros H. unfold noise. by rewrite list_lookup_fmap, lookup_seq_lt. Qed.
Definition fresh_behind (p : Z) (at_ : nat) (l : list Z) : bool := forallb (fun x => negb (x =? p)) (drop (S at_) l).
Lemma fresh_behind_spec p at_ l : fresh_behind p at_ l = true -> forall n, (at_ < n)%nat -> l !! n <> Some p.
Proof.
  unfold fresh_behind. intros H n Hn Hl. rewrite forallb_forall in H. specialize (H p).
  rewrite Z.eqb_refl in H. discriminate H. apply list_elem_of_In, list_elem_of_lookup. exists (n - S at_)%nat.
  rewrite lookup_drop. by replace (S at_ + (n - S at_))%nat with n by lia.
Qed.
Lemma episodes_stretch : stretch one_episode other_episode 3 10 150.
Proof.
  constructor.
  - intros n Hn. eexists. unfold one_episode, other_episode. split.
    + rewrite lookup_app_r, lookup_app_l by (cbn; lia). cbn [length noise map seq]. replace (3 + n - 3)%nat with n by lia.
      by apply noise_lookup.
    + rewrite lookup_app_r by (cbn; lia). cbn [length noise map seq]. replace (10 + n - 10)%nat with n by lia. by apply noise_lookup.
  - vm_compute. lia.
  - exists 149%nat, ((150 * 2654435761) mod 2 ^ 32). split; [lia|]. split; [by vm_compute|]. split; [by vm_compute|].
    split; apply fresh_behind_spec; by vm_compute.
Qed.
Lemma theme_found_witness :
  points_ok one_episode /\ points_ok other_episode /\ stretch one_episode other_episode 3 10 150 /\ tuned search_default 150
  /\ exists a b, compare_with one_episode other_episode search_default Longest = Ok (a, b) /\ long_enough 150 a /\ long_enough 150 b
    /\ valid a = true /\ valid b = true.
Proof.
  assert (points_ok one_episode /\ points_ok other_episode) as [Hl Hr] by (split; vm_compute; discriminate).
  split; [exact Hl|]. split; [exact Hr|]. split; [exact episodes_stretch|]. split; [exact search_default_tuned|].
  exact (theme_found one_episode other_episode search_default 3 10 150 Hl Hr episodes_stretch search_default_tuned).
Defined.

(** The overlap of two fingerprints is taken to be as long as the shorter one
    less the shift, wherever they overlap: a theme that stands at 150 in a
    fingerprint of 300 points and at 350 in one of 500 is not found. *)
Definition short_episode : list Z := noise 4001 150 ++ theme_music.
Definition long_episode : list Z := noise 4301 350 ++ theme_music.
Lemma late_theme_missed : compare_with short_episode long_episode search_default Longest = Ok (no_range, no_range).
Proof. by vm_compute. Qed.
Lemma late_theme_suggested : 200 ∈ shifts short_episode long_episode search_default.
Proof.
  apply (bool_decide_unpack _). vm_compute. exact I.
Qed.

Lemma compare_exact_witness :
  exists a b, compare_with one_episode other_episode search_default Earliest = Ok (a, b)
    /\ exists l r, a = snap l /\ b = snap r /\ reported (shared one_episode other_episode search_default) Earliest l r.
Proof.
  assert (points_ok one_episode /\ points_ok other_episode) as [Hl Hr] by (split; vm_compute; discriminate).
  destruct (compare_exact one_episode other_episode search_default Earliest Hl Hr) as (a & b & Hc & Hcase).
  exists a, b. split; [exact Hc|]. destruct Hcase as [(_ & -> & _)|Hsome]; [|exact Hsome].
  exfalso. assert (compare_with one_episode other_episode search_default Earliest <> Ok (no_range, b)) as Hne; [|exact (Hne Hc)].
  vm_compute. discriminate.
Defined.

(** * The two sides of an alignment

    With the default gap of 3.5 seconds, whether two matched times belong to one
    run depends on how many points lie between them and not on where they are,
    so the runs of one side are the runs of the other, shifted. *)

Lemma sample_duration_tight : (1238 / 10000 <= value SAMPLE_DURATION <= 1239 / 10000)%R.
Proof.
  destruct (of_int_exact 4096 eq_refl) as [H1 V1], (of_int_exact 11025 eq_refl) as [H2 V2], (of_int_exact 3 eq_refl) as [H3 V3].
  unfold SAMPLE_DURATION.
  destruct (div_near (F64.of_int 4096) (F64.of_int 11025)) as [Hq Vq]; [done..|rewrite V1, V2; lra|]. rewrite V1, V2 in Vq.
  destruct (div_near (F64.div (F64.of_int 4096) (F64.of_int 11025)) (F64.of_int 3)) as [Hd Vd]; [done..|rewrite V3; lra|].
  rewrite V3 in Vd. lra.
Qed.
Lemma skip_default : ok (max_time_skip search_default) /\ value (max_time_skip search_default) = (7 / 2)%R.
Proof.
  assert (max_time_skip search_default = S754_finite false 7881299347898368 (-51)) as -> by (by vm_compute).
  split; [done|]. cbn [value sign]. change (-51) with (- (51)). rewrite pow2_neg by done.
  change (2 ^ 51) with 2251799813685248. lra.
Qed.

(** At most 28 points apart is at most 3.5 seconds apart. *)
Lemma gap_points i j :
  (i <= j)%nat -> Z.of_nat j <= 2 ^ 26 ->
  fle (F64.sub (point_time j) (point_time i)) (max_time_skip search_default) = (j - i <=? 28)%nat.
Proof.
  intros Hij Hj. destruct (point_time_near i) as (Hi & V0 & Vi); [lia|]. destruct (point_time_near j Hj) as (Hj' & W0 & Vj).
  destruct skip_default as [Hs Vs]. pose proof sample_duration_tight as Vd.
  destruct (point_time_moderate j Hj) as [_ Mj], (point_time_moderate i ltac:(lia)) as [_ Mi].
  destruct (sub_near (point_time j) (point_time i)) as [Hn Vn]; [done..|lra|].
  assert (INR j = INR i + INR (j - i))%R as Hd by (rewrite <- plus_INR; f_equal; lia). rewrite Hd in Vj.
  set (g := INR (j - i)) in *. set (d := value SAMPLE_DURATION) in *. set (p := INR i) in *.
  destruct (Nat.leb_spec (j - i) 28) as [Hg|Hg].
  - assert (g <= 28)%R by (unfold g; replace 28%R with (INR 28) by (by rewrite INR_IZR_INZ); by apply le_INR).
    apply fle_value; [done..|]. rewrite Vs. nra.
  - assert (29 <= g)%R by (unfold g; replace 29%R with (INR 29) by (by rewrite INR_IZR_INZ); apply le_INR; lia).
    apply not_true_iff_false. intros Hf. apply fle_value in Hf; [|done..]. rewrite Vs in Hf. nra.
Qed.

(** Two runs over the same points, seen from both sides. *)
Definition same_points (a b : nat) (r r' : Range) : Prop :=
  exists i j, (i <= j)%nat /\ Z.of_nat (j + a) <= 2 ^ 26 /\ Z.of_nat (j + b) <= 2 ^ 26
    /\ r = mkRange (point_time (i + a)) (point_time (j + a)) /\ r' = mkRange (point_time (i + b)) (point_time (j + b)).

Fixpoint climbs (t : nat) (idx : list nat) : Prop :=
  match idx with [] => True | i :: idx => (t <= i)%nat /\ climbs i idx end.
Lemma runs_paired a b idx s t :
  (s <= t)%nat -> climbs t idx ->
  (forall i, i ∈ t :: idx -> Z.of_nat (i + a) <= 2 ^ 26 /\ Z.of_nat (i + b) <= 2 ^ 26) ->
  Forall2 (same_points a b)
    (maximal_runs (max_time_skip search_default) (point_time (s + a)) (point_time (t + a)) (map (fun i => point_time (i + a)) idx))
    (maximal_runs (max_time_skip search_default) (point_time (s + b)) (point_time (t + b)) (map (fun i => point_time (i + b)) idx)).
Proof.
  revert s t. induction idx as [|i idx IH]; intros s t Hst Hc Hb; cbn [map maximal_runs].
  - constructor; [|constructor]. destruct (Hb t) as [Ha Hb']; [left|]. by exists s, t.
  - destruct Hc as [Hti Hc]. destruct (Hb i) as [Hia Hib]; [right; left|]. destruct (Hb t) as [Hta Htb]; [left|].
    rewrite !gap_points by lia. replace (i + a - (t + a))%nat with (i - t)%nat by lia. replace (i + b - (t + b))%nat with (i - t)%nat by lia.
    assert (forall k, k ∈ i :: idx -> Z.of_nat (k + a) <= 2 ^ 26 /\ Z.of_nat (k + b) <= 2 ^ 26) as Hb' by (intros k Hk; apply Hb; by right).
    destruct (_ <=? _)%nat; [apply IH; [lia|done..]|]. constructor; [by exists s, t|]. by apply IH.
Qed.

Definition span (r : Range) : R := (value (r_end r) - value (r_start r))%R.
Lemma same_points_span a b r r' : same_points a b r r' -> (span r - 4 / 1000000 <= span r' <= span r + 4 / 1000000)%R.
Proof.
  intros (i & j & Hij & Ha & Hb & -> & ->). unfold span. cbn [r_start r_end].
  destruct (point_time_near (i + a)) as (_ & _ & V1); [lia|]. destruct (point_time_near (j + a)) as (_ & _ & V2); [lia|].
  destruct (point_time_near (i + b)) as (_ & _ & V3); [lia|]. destruct (point_time_near (j + b)) as (_ & _ & V4); [lia|].
  rewrite !plus_INR in *. lra.
Qed.

Section Sides.
Context (lhs rhs : list Z) (params : SearchParams) (shift : Z).
Hypothesis lhs_ok : points_ok lhs.
Hypothesis rhs_ok : points_ok rhs.
Hypothesis skip : max_time_skip params = max_time_skip search_default.
Let lo := left_offset shift.
Let ro := right_offset shift.

Lemma offsets_within i : (i < upper lhs rhs shift)%nat -> Z.of_nat (i + lo) <= 2 ^ 26 /\ Z.of_nat (i + ro) <= 2 ^ 26.
Proof. intros Hi. apply in_upper in Hi as [Hl Hr]. unfold points_ok in *. unfold lo, ro. lia. Qed.

(** The points that agree, in order. *)
Definition agreeing : list nat :=
  List.filter (fun i => agree params (nth (i + lo) lhs 0) (nth (i + ro) rhs 0)) (seq 0 (upper lhs rhs shift)).
Lemma matches_agreeing : matches lhs rhs params shift = map (fun i => (point_time (i + lo), point_time (i + ro))) agreeing.
Proof.
  unfold matches, agreeing. induction (seq 0 (upper lhs rhs shift)) as [|i l IH]; [done|].
  cbn [omap list_omap List.filter]. unfold pair_at at 1. fold lo ro. destruct (agree params _ _); cbn [map]; by rewrite IH.
Qed.
Lemma filter_climbs (f : nat -> bool) n t k : (t <= k)%nat -> climbs t (List.filter f (seq k n)).
Proof.
  revert t k. induction n as [|n IH]; intros t k Htk; [done|]. cbn [seq List.filter].
  destruct (f k); [split; [done|]|]; apply IH; lia.
Qed.
Lemma agreeing_bound i : i ∈ agreeing -> (i < upper lhs rhs shift)%nat.
Proof. intros Hi. apply list_elem_of_In, filter_In in Hi as [Hi _]. apply in_seq in Hi. lia. Qed.

Lemma climbs_sorted off idx t :
  climbs t idx -> (forall i, i ∈ t :: idx -> Z.of_nat (i + off) <= 2 ^ 26) ->
  StronglySorted before (map (fun i => point_time (i + off)) (t :: idx)).
Proof.
  revert t. induction idx as [|i idx IH]; intros t Hc Hb; [repeat constructor|]. destruct Hc as [Hti Hc].
  assert (StronglySorted before (map (fun i => point_time (i + off)) (i :: idx))) as Hs.
  { apply IH; [done|]. intros j Hj. apply Hb. by right. }
  cbn [map]. constructor; [exact Hs|]. apply Forall_forall. intros x Hx.
  apply (list_elem_of_fmap (fun i => point_time (i + off)) (i :: idx)) in Hx as (j & -> & Hj).
  assert (forall idx t, climbs t idx -> forall k, k ∈ idx -> (t <= k)%nat) as Hle.
  { clear. induction idx as [|i idx IH]; intros t Hc k Hk; [by apply elem_of_nil in Hk|]. destruct Hc as [Hti Hc].
    apply elem_of_cons in Hk as [->|Hk]; [done|]. pose proof (IH i Hc k Hk). lia. }
  apply time_before; [|apply Hb; by right]. pose proof (Hle (i :: idx) t (conj Hti Hc) j Hj). lia.
Qed.
Lemma runs_both :
  Forall2 (same_points lo ro) (runs_of (max_time_skip params) (map fst (matches lhs rhs params shift)))
    (runs_of (max_time_skip params) (map snd (matches lhs rhs params shift))).
Proof.
  rewrite skip, matches_agreeing, !map_map. cbn [fst snd]. pose proof agreeing_bound as Hb.
  pose proof (filter_climbs (fun i => agree params (nth (i + lo) lhs 0) (nth (i + ro) rhs 0)) (upper lhs rhs shift) 0 0 ltac:(lia)) as Hc.
  fold agreeing in Hc. destruct agreeing as [|t idx]; [constructor|]. destruct Hc as [_ Hc].
  assert (forall i, i ∈ t :: idx -> Z.of_nat (i + lo) <= 2 ^ 26 /\ Z.of_nat (i + ro) <= 2 ^ 26) as Hb'.
  { intros i Hi. by apply offsets_within, Hb. }
  unfold runs_of. rewrite !sort_by_sorted_id by (apply climbs_sorted; [done|]; intros i Hi; by apply Hb').
  cbn [map]. by apply runs_paired.
Qed.

Lemma runs_side_moderate (side : float * float -> float) :
  (side = fst \/ side = snd) -> Forall moderate_range (runs_of (max_time_skip params) (map side (matches lhs rhs params shift))).
Proof.
  intros Hside. pose proof (matches_moderate lhs rhs params lhs_ok rhs_ok shift) as Hm.
  assert (Forall moderate_time (map side (matches lhs rhs params shift))) as Ht.
  { apply Forall_map. eapply Forall_impl; [exact Hm|]. intros [x y] [Hx Hy]. by destruct Hside as [->| ->]. }
  unfold runs_of. pose proof (sort_moderate _ Ht) as Hs. destruct (sort_by unwrap_cmp _) as [|t ts]; [constructor|].
  apply Forall_cons in Hs as [Ht0 Hs]. by apply maximal_runs_moderate.
Qed.
Lemma aligned_spans l r : aligned lhs rhs params shift l r -> (span l - 1 / 100000 <= span r <= span l + 1 / 100000)%R.
Proof.
  intros ([_ Hl] & [_ Hr] & _). pose proof runs_both as Hboth.
  pose proof (runs_side_moderate fst (or_introl eq_refl)) as ML. pose proof (runs_side_moderate snd (or_intror eq_refl)) as MR.
  pose proof (first_longest_in _ _ Hl) as Inl. pose proof (first_longest_in _ _ Hr) as Inr.
  destruct (proj1 (list_elem_of_lookup _ _) Inl) as [n Hn]. destruct (Forall2_lookup_l _ _ _ _ _ Hboth Hn) as (r0 & Hr0 & Hs0).
  destruct (proj1 (list_elem_of_lookup _ _) Inr) as [m Hm]. destruct (Forall2_lookup_r _ _ _ _ _ Hboth Hm) as (l0 & Hl0 & Hs1).
  pose proof (same_points_span _ _ _ _ Hs0). pose proof (same_points_span _ _ _ _ Hs1).
  apply list_elem_of_lookup_2 in Hr0, Hl0.
  pose proof (first_longest_max _ _ r0 MR Hr Hr0) as D1. pose proof (first_longest_max _ _ l0 ML Hl Hl0) as D2.
  rewrite Forall_forall in ML, MR.
  apply outlasts in D1; [|by apply MR..]. apply outlasts in D2; [|by apply ML..]. unfold span in *. lra.
Qed.
End Sides.

(** The two sides of an alignment are the same stretch: with the default gap
    they are equally long, up to rounding, wherever the points stand. *)
Theorem sides_agree lhs rhs params shift l r :
  points_ok lhs -> points_ok rhs -> max_time_skip params = max_time_skip search_default ->
  aligned lhs rhs params shift l r -> (span l - 1 / 100000 <= span r <= span l + 1 / 100000)%R.
Proof. intros Hl Hr Hs. by apply aligned_spans. Qed.

Lemma region_15 : ok (min_region_duration search_default) /\ value (min_region_duration search_default) = 15%R.
Proof. constant 15. Qed.
Lemma shared_long lhs rhs l r :
  points_ok lhs -> points_ok rhs -> shared lhs rhs search_default l r ->
  (15 - 1 / 10000 <= span l)%R /\ (15 - 1 / 10000 <= span r)%R.
Proof.
  intros Hl Hr (shift & _ & Ha & _). pose proof (aligned_spans lhs rhs search_default shift Hl Hr eq_refl l r Ha) as Hs.
  destruct Ha as (Hll & _ & Hm). assert (moderate_range l) as Ml.
  { destruct Hll as [_ Hin]. apply first_longest_in in Hin. pose proof (runs_side_moderate lhs rhs search_default shift Hl Hr fst (or_introl eq_refl)) as Hf.
    rewrite Forall_forall in Hf. by apply Hf. }
  destruct (duration_near l Ml) as [Ho Hv]. destruct region_15 as [H15 V15]. fold (span l) in Hv.
  destruct (flt_cases (duration l) (min_region_duration search_default)) as [[Ht _]|[_ Hge]]; [done..|congruence|]. rewrite V15 in Hge. lra.
Qed.
Lemma compare_long lhs rhs a b :
  points_ok lhs -> points_ok rhs -> compare_with lhs rhs search_default Longest = Ok (a, b) -> valid b = true ->
  (15 - 1 / 10000 <= span a)%R /\ (15 - 1 / 10000 <= span b)%R.
Proof.
  intros Hl Hr Hc Hv. destruct (compare_spec lhs rhs search_default Longest Hl Hr) as (a' & b' & Hc' & Hcase).
  rewrite Hc in Hc'. injection Hc' as <- <-. destruct Hcase as [(_ & -> & ->)|(l & r & -> & -> & (r' & Hlr) & (l' & Hl'r) & _)]; [done|].
  pose proof (shared_moderate _ _ _ Hl Hr _ _ Hlr) as [Ml _]. pose proof (shared_moderate _ _ _ Hl Hr _ _ Hl'r) as [_ Mr].
  destruct (shared_long lhs rhs l r' Hl Hr Hlr) as [Sl _], (shared_long lhs rhs l' r Hl Hr Hl'r) as [_ Sr].
  destruct (snap_keeps l Ml) as [Kl _], (snap_keeps r Mr) as [Kr _]. unfold span in *. lra.
Qed.
Lemma sides_agree_witness :
  exists shift l r, aligned one_episode other_episode search_default shift l r /\ (span l - 1 / 100000 <= span r <= span l + 1 / 100000)%R.
Proof.
  destruct theme_found_witness as (Hl & Hr & _ & _ & a & b & Hc & _ & _ & Va & _).
  destruct (compare_spec one_episode other_episode search_default Longest Hl Hr) as (a' & b' & Hc' & Hcase).
  rewrite Hc in Hc'. injection Hc' as <- <-.
  destruct Hcase as [(_ & -> & _)|(l & r & _ & _ & (r' & shift & Hs & Ha & _) & _)]; [discriminate Va|].
  exists shift, l, r'. split; [exact Ha|]. exact (sides_agree one_episode other_episode search_default shift l r' Hl Hr eq_refl Ha).
Defined.

(** ** Where a region ends *)

Lemma run_end_in d start t times r : r ∈ maximal_runs d start t times -> r_end r ∈ t :: times.
Proof.
  revert start t. induction times as [|next times IH]; intros start t Hr; cbn [maximal_runs] in Hr.
  - apply list_elem_of_singleton in Hr as ->. left.
  - destruct (fle _ _); [right; by eapply IH|]. apply elem_of_cons in Hr as [->|Hr]; [left|right; by eapply IH].
Qed.
Lemma longest_run_end params times r : longest_run params times r -> r_end r ∈ times.
Proof.
  intros [_ Hr%first_longest_in]. unfold runs_of in Hr. pose proof (sort_by_perm unwrap_cmp times) as Hp.
  destruct (sort_by unwrap_cmp times) as [|t ts]; [by apply elem_of_nil in Hr|]. apply run_end_in in Hr. by rewrite Hp in Hr.
Qed.
Definition fingerprint_end (points : list Z) : R := (INR (length points) * value SAMPLE_DURATION + 1 / 1000000)%R.
Lemma point_end points i : points_ok points -> (i < length points)%nat -> (value (point_time i) <= fingerprint_end points)%R.
Proof.
  intros Hp Hi. unfold points_ok in Hp. destruct (point_time_near i) as (_ & _ & V); [lia|]. unfold fingerprint_end.
  assert (INR i <= INR (length points))%R by (apply le_INR; lia). pose proof sample_duration_tight.
  assert (INR i * value SAMPLE_DURATION <= INR (length points) * value SAMPLE_DURATION)%R by (apply Rmult_le_compat_r; lra). lra.
Qed.
Lemma shared_ends lhs rhs params l r :
  points_ok lhs -> points_ok rhs -> shared lhs rhs params l r ->
  (value (r_end l) <= fingerprint_end lhs)%R /\ (value (r_end r) <= fingerprint_end rhs)%R.
Proof.
  intros Hl Hr (shift & _ & (Ll & Lr & _) & _).
  apply longest_run_end, list_elem_of_fmap in Ll as ([x y] & El & Hin), Lr as ([x' y'] & Er & Hin').
  cbn [fst snd] in El, Er. subst x y'.
  apply list_elem_of_omap in Hin as (i & Hi & Hp), Hin' as (j & Hj & Hq). apply elem_of_seq in Hi, Hj.
  destruct (in_upper lhs rhs shift i) as [Hli _]; [lia|]. destruct (in_upper lhs rhs shift j) as [_ Hrj]; [lia|].
  unfold pair_at in Hp, Hq. destruct (agree _ _ _) in Hp; [|done]. destruct (agree _ _ _) in Hq; [|done].
  injection Hp as <- _. injection Hq as _ <-. split; by apply point_end.
Qed.
Lemma compare_ends lhs rhs params sel a b :
  points_ok lhs -> points_ok rhs -> compare_with lhs rhs params sel = Ok (a, b) ->
  (value (r_end a) <= fingerprint_end lhs)%R /\ (value (r_end b) <= fingerprint_end rhs)%R.
Proof.
  intros Hl Hr Hc. destruct (compare_spec lhs rhs params sel Hl Hr) as (a' & b' & Hc' & Hcase).
  rewrite Hc in Hc'. injection Hc' as <- <-.
  assert (forall points, 0 <= fingerprint_end points)%R as H0.
  { intros points. unfold fingerprint_end. pose proof (pos_INR (length points)). pose proof sample_duration_tight. nra. }
  assert (forall r, r_end (snap r) = r_end r) as Hsnap by (intros r; unfold snap; by destruct (fle _ _)).
  destruct Hcase as [(_ & -> & ->)|(l & r & -> & -> & Hrep)]; [by split; apply H0|]. rewrite !Hsnap.
  destruct sel; cbn [reported] in Hrep.
  - destruct Hrep as ((r' & Hlr) & (l' & Hl'r) & _).
    destruct (shared_ends lhs rhs params l r' Hl Hr Hlr) as [E1 _], (shared_ends lhs rhs params l' r Hl Hr Hl'r) as [_ E2]. done.
  - destruct Hrep as [Hlr _]. by apply (shared_ends lhs rhs params).
Qed.
