(* ===== verification/Season.v ===== *)
(** * A season's analysis (kahawai-intro, src/season.rs, src/blackframe.rs)

    Windows, the pairwise search, the recap, the credits by black frames and
    the refinement of an end. The analysis is a monad over what it mutates: the
    set of unreadable episodes, the position the black-frame search carries from
    one episode to the next, and, for the theorems, a log of every read. An
    error keeps the state, as a [&mut] does; [catch] is the match on a read's
    result. An elapsed time is an argument. *)
From Stdlib Require Import SpecFloat.
From S2P Require Import Prelude Floats Utf8 Segments Decode Chroma.
#[local] Open Scope Z_scope.

Record BlackFrameParams := mkBlack {
  minimum_percentage : float;
  bf_threshold : Z;
  minimum_credits_duration : float;
  maximum_error : float;
}.
Definition black_default : BlackFrameParams :=
  mkBlack (F64.lit 85 0) 28 (ms_seconds BLACK_CREDITS_MIN_MS) (F64.lit 4 0).

Record Config := mkConfig {
  analysis_percent : float;
  analysis_length_limit : float;
  maximum_intro_duration : float;
  maximum_credits_duration : float;
  search_params : SearchParams;
  black : BlackFrameParams;
  silence_noise_db : float;
  silence_minimum_duration : float;
  adjust_window_inward : float;
  adjust_window_outward : float;
  end_snap_threshold : float;
  adjust_on_silence : bool;
  snap_to_keyframe : bool;
  anime : bool;
  scan_recap : bool;
  recap_card_minimum_duration : float;
  minimum_recap_duration : float;
  maximum_recap_duration : float;
}.
(** [Config { anime, ..Default::default() }]. *)
Definition config_default (anime : bool) : Config := {|
  analysis_percent := F64.lit 25 (-2);
  analysis_length_limit := ms_seconds INTRO_WINDOW_LIMIT_MS;
  maximum_intro_duration := ms_seconds INTRO_MAX_MS;
  maximum_credits_duration := ms_seconds CREDITS_WINDOW_MS;
  search_params := search_default;
  black := black_default;
  silence_noise_db := F64.lit_neg 50 0;
  silence_minimum_duration := F64.lit 33 (-2);
  adjust_window_inward := ms_seconds END_REFINEMENT_INWARD_MS;
  adjust_window_outward := ms_seconds END_REFINEMENT_OUTWARD_MS;
  end_snap_threshold := F64.lit 2 0;
  adjust_on_silence := true;
  snap_to_keyframe := true;
  anime := anime;
  scan_recap := true;
  recap_card_minimum_duration := F64.lit 3 0;
  minimum_recap_duration := ms_seconds RECAP_MIN_MS;
  maximum_recap_duration := ms_seconds RECAP_MAX_MS;
|}.
(** [1e-3]. *)
Definition EPSILON : float := F64.lit 1 (-3).
(** [f64::MAX]. *)
Definition f64_max : float := S754_finite false (2 ^ 53 - 1) 971.

(** The order a hash map is walked in: each entry once. *)
Class Hashing := {
  iterate : gmap nat Range -> list (nat * Range);
  iterate_entries : forall m, iterate m ≡ₚ map_to_list m;
}.

Section Season.
Context {Media : Type} `{!Pipelines Media} `{!Hashing}.

Record Episode := mkEpisode {
  media : Media;
  ep_name : string;
  ep_duration : float;
  ep_id : string;
  episode_number : option Z;
}.
Definition episode_new (media : Media) (name : string) (duration : float) : Episode :=
  mkEpisode media name duration "" None.

Definition can_compare (a b : Episode) : bool :=
  is_none (episode_number a) || negb (episode_number a ≟ episode_number b).

(** [5.0 * 60.0]. *)
Definition FIVE_MINUTES : float := F64.mul (F64.lit 5 0) (F64.lit 60 0).
Definition intro_window (cfg : Config) (e : Episode) : float * float :=
  let by_percent :=
    if fge (ep_duration e) FIVE_MINUTES then F64.mul (ep_duration e) (analysis_percent cfg)
    else ep_duration e in
  (fzero, fmin by_percent (analysis_length_limit cfg)).
Definition credits_window (cfg : Config) (e : Episode) : float * float :=
  let start := fmax (F64.sub (ep_duration e) (fmin (ep_duration e) (maximum_credits_duration cfg))) fzero in
  (start, ep_duration e).

(** ** The monad *)

Record St := mkSt {
  clock : nat;
  reads : list (Media * bool);
  unreadable : gset nat;
  search_start : float;
}.
Definition M (A : Type) : Type := St -> result Trouble A * St.
Definition ret {A} (a : A) : M A := fun s => (Ok a, s).
Definition lift {A} (r : result Trouble A) : M A := fun s => (r, s).
Definition bind {A B} (m : M A) (k : A -> M B) : M B := fun s =>
  match m s with
  | (Ok a, s) => k a s
  | (Err e, s) => (Err e, s)
  end.
#[local] Notation "'let^' x := m 'in' k" := (bind m (fun x => k))
  (at level 10, x name, m at level 100, k at level 200).

Definition tick (s : St) : St := mkSt (S (clock s)) (reads s) (unreadable s) (search_start s).
Definition between : M unit := fun s =>
  (match between_reads (clock s) with None => Ok tt | Some e => Err e end, tick s).
(** A read of an episode's bytes. *)
Definition read {A} (m : Media) (f : nat -> result Trouble A) : M A := fun s =>
  let r := f (clock s) in
  (r, mkSt (S (clock s)) (reads s ++ [(m, is_ok r)]) (unreadable s) (search_start s)).
Definition catch {A} (m : M A) : M (result Trouble A) := fun s =>
  match m s with
  | (Ok a, s) => (Ok (Ok a), s)
  | (Err Failed, s) => (Ok (Err Failed), s)
  | (Err e, s) => (Err e, s)
  end.
Definition mark (i : nat) : M unit := fun s =>
  (Ok tt, mkSt (clock s) (reads s) ({[i]} ∪ unreadable s) (search_start s)).
Definition get_search_start : M float := fun s => (Ok (search_start s), s).
Definition set_search_start (x : float) : M unit := fun s =>
  (Ok tt, mkSt (clock s) (reads s) (unreadable s) x).

(** ** Credits by black frames *)

Section BlackFrames.
Context (params : BlackFrameParams) (probe : float -> float -> M (list float)).

Fixpoint search_start_loop (fuel : nat) (duration max_search_start step search_start : float) : M float :=
  if flt search_start max_search_start then
    match fuel with
    | O => lift (Err Endless)
    | S fuel =>
        let scan_time := F64.sub duration search_start in
        let^ frames := probe (F64.sub scan_time (F64.lit 1 0)) scan_time in
        if (length frames <? 3)%nat then ret search_start
        else search_start_loop fuel duration max_search_start step (F64.add search_start step)
    end
  else ret max_search_start.
Definition find_search_start (fuel : nat) (duration credits_start : float) : M float :=
  search_start_loop fuel duration (F64.sub duration credits_start)
    (F64.mul (F64.lit 2 0) (minimum_credits_duration params))
    (F64.mul (F64.lit 3 0) (minimum_credits_duration params)).

(** The bracket, as distances from the end of the file. *)
Record Bracket := mkBracket {
  upper_limit : float; lower_limit : float; b_start : float; b_end : float; first_black : option float;
}.
Definition search_distance : float := F64.mul (F64.lit 2 0) (minimum_credits_duration params).
Definition half_distance : float := F64.mul (F64.lit 5 (-1)) search_distance.
Definition bracket_new (duration credits_start initial_start : float) : Bracket :=
  let upper := fmin initial_start (F64.sub duration credits_start) in
  let lower := fmax (F64.sub initial_start search_distance) (minimum_credits_duration params) in
  mkBracket upper lower upper lower None.
Definition midpoint (b : Bracket) : float := F64.div (F64.add (b_start b) (b_end b)) (F64.lit 2 0).
(** One turn on what the probe saw. *)
Definition no_black (b : Bracket) : Bracket :=
  let mid := midpoint b in
  if flt (F64.sub mid (lower_limit b)) (maximum_error params) then
    let lower := fmax (F64.sub (lower_limit b) half_distance) (minimum_credits_duration params) in
    mkBracket (upper_limit b) lower (F64.sub mid (F64.lit 2 0)) lower (first_black b)
  else mkBracket (upper_limit b) (lower_limit b) (F64.sub mid (F64.lit 2 0)) (b_end b) (first_black b).
Definition some_black (duration credits_start first : float) (b : Bracket) : Bracket :=
  let mid := midpoint b in
  let first_black := Some (F64.add first (F64.sub duration mid)) in
  if flt (F64.sub (upper_limit b) mid) (maximum_error params) then
    let upper := fmin (F64.add (upper_limit b) half_distance) (F64.sub duration credits_start) in
    mkBracket upper (lower_limit b) upper mid first_black
  else mkBracket (upper_limit b) (lower_limit b) (b_start b) mid first_black.
Fixpoint bisect (fuel : nat) (duration credits_start : float) (b : Bracket) : M Bracket :=
  if fgt (F64.sub (b_start b) (b_end b)) (maximum_error params) then
    match fuel with
    | O => lift (Err Endless)
    | S fuel =>
        let scan_time := F64.sub duration (midpoint b) in
        let^ frames := probe scan_time (F64.add scan_time (F64.lit 2 0)) in
        bisect fuel duration credits_start
          match frames with
          | [] => no_black b
          | first :: _ => some_black duration credits_start first b
          end
    end
  else ret b.
Definition find_credits (fuel : nat) (duration credits_start initial_start : float) : M (option Range) :=
  let^ b := bisect fuel duration credits_start (bracket_new duration credits_start initial_start) in
  ret match first_black b with
      | Some t => if fgt t fzero then Some (mkRange t duration) else None
      | None => None
      end.

End BlackFrames.

(** The probe backed by the decoder. *)
Definition decode_probe (m : Media) (params : BlackFrameParams) (start end_ : float) : M (list float) :=
  let^ frames := read m (fun now => luma_window now m start end_ (bf_threshold params)) in
  ret (map (fun f => fmax (F64.sub (time f) start) fzero)
         (List.filter (fun f => fge (black_percentage f) (minimum_percentage params)) frames)).

(** Turns of either loop; the default parameters never need them all. *)
Definition black_fuel : nat := 500.
Definition black_frame_credits (cfg : Config) (e : Episode) : M (option Range) :=
  if fle (ep_duration e) fzero then ret None
  else
    let '(credits_start, _) := credits_window cfg e in
    let probe := decode_probe (media e) (black cfg) in
    let^ position := get_search_start in
    let^ _ := if fgt position (F64.sub (ep_duration e) credits_start) then set_search_start fzero else ret tt in
    let^ position := get_search_start in
    let^ _ :=
      if flt position (minimum_credits_duration (black cfg)) then
        let^ position := find_search_start (black cfg) probe black_fuel (ep_duration e) credits_start in
        set_search_start position
      else ret tt in
    let^ position := get_search_start in
    let^ found := find_credits (black cfg) probe black_fuel (ep_duration e) credits_start position in
    let^ _ :=
      match found with
      | Some credit =>
          set_search_start (F64.add (F64.sub (ep_duration e) (r_start credit)) (minimum_credits_duration (black cfg)))
      | None => ret tt
      end in
    ret found.

(** ** Refining an end *)

Definition to_start (cfg : Config) (start : float) : float :=
  if flt start fzero || fle start (F64.add (end_snap_threshold cfg) EPSILON) then fzero else start.
(** The first pause of the window that is long enough. *)
Definition first_pause (cfg : Config) (window : Range) (found : list Range) : option Range :=
  List.find (fun r => flt (r_start r) (r_end window) && flt (r_start window) (r_end r)
                      && fge (duration r) (silence_minimum_duration cfg)
                      && fge (r_start r) (r_start window)) found.
(** [min_by] on the distance: the first of equals; a NaN is unwrapped. *)
Definition distance (end_ a : float) : float := fabs (F64.sub a end_).
Definition nearest (end_ : float) (keyframes : list float) : result Trouble (option float) :=
  ensure (sorts (distance end_) keyframes) Panicked
    (Ok (fold_left (fun best a =>
           match best with
           | None => Some a
           | Some b => if flt (distance end_ a) (distance end_ b) then Some a else best
           end) keyframes None)).

Definition refine_silence (cfg : Config) (e : Episode) (index : nat) (window : Range) (end_ : float) : M float :=
  if adjust_on_silence cfg then
    let^ found := catch (read (media e) (fun now =>
      detect now (media e) (r_start window) (r_end window) (silence_noise_db cfg) (F64.lit 1 (-1)))) in
    match found with
    | Ok found => ret (map_or end_ r_start (first_pause cfg window found))
    | Err _ => let^ _ := mark index in ret end_
    end
  else ret end_.
Definition refine_keyframe (cfg : Config) (e : Episode) (index : nat) (window : Range) (end_ : float) : M float :=
  if snap_to_keyframe cfg then
    let^ found := catch (read (media e) (fun now =>
      keyframes_window now (media e) (r_start window) (r_end window))) in
    match found with
    | Ok keyframes => let^ near := lift (nearest end_ keyframes) in ret (unwrap_or near end_)
    | Err _ => let^ _ := mark index in ret end_
    end
  else ret end_.
Definition refinement_window (cfg : Config) (duration end_ : float) : Range :=
  mkRange (fmax (F64.sub end_ (adjust_window_inward cfg)) fzero)
          (fmin (F64.add end_ (adjust_window_outward cfg)) duration).
Definition adjust (cfg : Config) (e : Episode) (region : Range) (index : nat) : M Range :=
  let start := to_start cfg (r_start region) in
  let^ end_ :=
    if fge (r_end region) (F64.sub (F64.sub (ep_duration e) (end_snap_threshold cfg)) EPSILON)
    then ret (ep_duration e)
    else
      let window := refinement_window cfg (ep_duration e) (r_end region) in
      let^ end_ := refine_silence cfg e index window (r_end region) in
      refine_keyframe cfg e index window end_ in
  ret (if fge start end_ then region else mkRange start end_).

(** ** The pairwise search *)

Inductive Mode := Intro | Credits.
#[local] Instance Mode_eq_dec : EqDecision Mode.
Proof. solve_decision. Defined.

Section Pass.
Context (episodes : list Episode) (cfg : Config).

Definition windows_for (mode : Mode) : list (float * float) :=
  map (fun e => match mode with Intro => intro_window cfg e | Credits => credits_window cfg e end) episodes.

(** The indices of the season are in range ([queue_in_range]). *)
Definition comparable (i j : nat) : bool :=
  match episodes !! i, episodes !! j with
  | Some a, Some b => can_compare a b
  | _, _ => false
  end.
Definition indices : list nat := seq 0 (length episodes).
Definition abs_diff (i j : nat) : nat := (i - j + (j - i))%nat.
(** [min_by_key] keeps the first of equals. *)
Definition neighbour (first : nat) (queue : list nat) : option nat :=
  fold_left (fun best i =>
    match best with
    | None => Some i
    | Some b => if (abs_diff i first <? abs_diff b first)%nat then Some i else best
    end)
    (List.filter (fun i => negb (bool_decide (i ∈ queue)) && comparable first i) indices) None.
Definition search_queue (wanted : list nat) : list nat :=
  match wanted with
  | [] => []
  | first :: _ =>
      if existsb (fun i => negb (i =? first)%nat && comparable first i) wanted then wanted
      else match neighbour first wanted with
           | Some n => wanted ++ [n]
           | None => wanted
           end
  end.

Fixpoint fingerprints (windows : list (float * float)) (wanted : list nat) (prints : gmap nat (list Z))
    : M (gmap nat (list Z)) :=
  match wanted with
  | [] => ret prints
  | i :: wanted =>
      let^ _ := between in
      let^ window := lift (ok_or (windows !! i) Panicked) in
      let^ e := lift (ok_or (episodes !! i) Panicked) in
      let^ points := catch (read (media e) (fun now => fingerprint now (media e) (fst window) (snd window))) in
      let^ points :=
        match points with
        | Ok points => ret points
        | Err _ => let^ _ := mark i in ret []
        end in
      fingerprints windows wanted (<[i := points]> prints)
  end.

Section Regions.
Context (mode : Mode) (windows : list (float * float)) (prints : gmap nat (list Z))
        (params : SearchParams) (select : Select) (refine : bool).

Definition shifted (by_ : float) (r : Range) : Range :=
  mkRange (F64.add (r_start r) by_) (F64.add (r_end r) by_).
Definition maximum (remaining : nat) : result Trouble float :=
  match mode with
  | Intro => Ok (if select ≟ Earliest then maximum_recap_duration cfg else maximum_intro_duration cfg)
  | Credits =>
      let? e := ok_or (episodes !! remaining) Panicked in
      let? w := ok_or (windows !! remaining) Panicked in
      Ok (F64.sub (F64.sub (ep_duration e) (fst w)) (F64.lit 1 0))
  end.
(** What the answer for one side of a matched pair does. *)
Definition offer (current : nat) (queue : list nat) (found : gmap nat Range) (p : nat * Range)
    : result Trouble (gmap nat Range) :=
  let '(index, range) := p in
  if negb (index =? current)%nat && negb (bool_decide (index ∈ queue)) then Ok found
  else
    let? e := ok_or (episodes !! index) Panicked in
    if (mode ≟ Credits) && flt (r_start range) (F64.div (ep_duration e) (F64.lit 2 0)) then Ok found
    else
      match found !! index with
      | Some saved => if fge (duration saved) (duration range) then Ok found else Ok (<[index := range]> found)
      | None => Ok (<[index := range]> found)
      end.
(** One candidate: [None] goes on to the next. *)
Definition compare_pair (current remaining : nat) (queue : list nat) (found : gmap nat Range)
    : result Trouble (option (gmap nat Range)) :=
  if negb (comparable current remaining) then Ok None
  else
    let? cur := ok_or (prints !! current) Panicked in
    let? other := ok_or (prints !! remaining) Panicked in
    let? sides := compare_with cur other params select in
    let '(lhs, rhs) := sides in
    let? maximum := maximum remaining in
    if negb (valid rhs) || fgt (duration rhs) maximum then Ok None
    else
      let? sides :=
        match mode with
        | Intro => Ok (lhs, rhs)
        | Credits =>
            let? wc := ok_or (windows !! current) Panicked in
            let? wr := ok_or (windows !! remaining) Panicked in
            Ok (shifted (fst wc) lhs, shifted (fst wr) rhs)
        end in
      let? found := offer current queue found (current, fst sides) in
      let? found := offer current queue found (remaining, snd sides) in
      Ok (Some found).
Fixpoint compare_all (current : nat) (comparisons queue : list nat) (found : gmap nat Range)
    : result Trouble (gmap nat Range) :=
  match comparisons with
  | [] => Ok found
  | remaining :: comparisons =>
      let? answer := compare_pair current remaining queue found in
      match answer with
      | Some found => Ok found
      | None => compare_all current comparisons queue found
      end
  end.
(** The earlier episodes an unanswered one may borrow. *)
Definition borrowed (all : list nat) (current : nat) (queue : list nat) (found : gmap nat Range) : list nat :=
  List.filter (fun i => is_none (found !! current) && negb (i =? current)%nat && negb (bool_decide (i ∈ queue))) all.
Fixpoint regions (all queue : list nat) (found : gmap nat Range) : M (gmap nat Range) :=
  match queue with
  | [] => ret found
  | current :: queue =>
      let^ found := lift (compare_all current (queue ++ borrowed all current queue found) queue found) in
      let^ found :=
        match (if refine then found !! current else None) with
        | None => ret found
        | Some range =>
            let^ e := lift (ok_or (episodes !! current) Panicked) in
            let^ range := adjust cfg e range current in
            ret (<[current := range]> found)
        end in
      regions all queue found
  end.
Definition search_regions (queue : list nat) : M (gmap nat Range) := regions queue queue ∅.

End Regions.

(** ** The recap *)

Definition recap_boundary (e : Episode) (intro_start : option float) : float :=
  fmin (fmin (ep_duration e) (maximum_recap_duration cfg))
       (map_or f64_max (fun s => F64.add s (end_snap_threshold cfg)) intro_start).
Definition last_black (minimum boundary : float) (frames : list LumaFrame) : option float :=
  fold_left (fun best f => Some (map_or (time f) (fun b => fmax b (time f)) best))
    (List.filter (fun f => fge (black_percentage f) (minimum_percentage (black cfg))
                           && fge (time f) minimum && fle (time f) boundary) frames) None.
Definition recap_end (intro_start : option float) (end_ : float) : float :=
  map_or end_ (fun s => fmin end_ s) intro_start.
Fixpoint recap_cards (intros : gmap nat Range) (cards : list (nat * Range)) (found : gmap nat Range)
    : M (gmap nat Range) :=
  match cards with
  | [] => ret found
  | (i, card) :: cards =>
      let^ _ := between in
      let^ e := lift (ok_or (episodes !! i) Panicked) in
      let intro_start := r_start <$> intros !! i in
      let boundary := recap_boundary e intro_start in
      let minimum := fmax (minimum_recap_duration cfg) (r_end card) in
      if fle boundary minimum then recap_cards intros cards found
      else
        let^ frames := catch (read (media e) (fun now =>
          luma_window now (media e) fzero boundary (bf_threshold (black cfg)))) in
        match frames with
        | Err _ => let^ _ := mark i in recap_cards intros cards found
        | Ok frames =>
            recap_cards intros cards
              match last_black minimum boundary frames with
              | None => found
              | Some end_ =>
                  let end_ := recap_end intro_start end_ in
                  if fgt end_ (minimum_recap_duration cfg) then <[i := mkRange fzero end_]> found else found
              end
        end
  end.
Definition card_params : SearchParams :=
  mkSearch (max_point_differences (search_params cfg)) (inverted_index_shift (search_params cfg))
    (max_time_skip (search_params cfg)) (recap_card_minimum_duration cfg).
Definition recaps (windows : list (float * float)) (prints : gmap nat (list Z)) (intros : gmap nat Range)
    : M (gmap nat Range) :=
  let^ cards := search_regions Intro windows prints card_params Earliest false (search_queue indices) in
  recap_cards intros (iterate cards) ∅.

(** ** The season *)

#[local] Notation Answers := (gmap nat (Range * string)).
Definition record_one (source : string) (credits : Answers) (p : nat * Range) : Answers :=
  let '(i, range) := p in
  match credits !! i with
  | Some _ => credits
  | None => <[i := (range, source)]> credits
  end.
Definition record (found : gmap nat Range) (source : string) (credits : Answers) : Answers :=
  fold_left (record_one source) (iterate found) credits.

Definition single : bool := negb (existsb (fun i => comparable 0 i) (seq 1 (length episodes - 1))).
Definition credits_regions (wanted : list nat) : M (gmap nat Range) :=
  if bool_decide (wanted = []) || single then ret ∅
  else
    let windows := windows_for Credits in
    let queue := search_queue wanted in
    let^ prints := fingerprints windows queue ∅ in
    search_regions Credits windows prints (search_params cfg) Longest true queue.
Fixpoint black_pass (i : nat) (es : list Episode) (credits : Answers) : M Answers :=
  match es with
  | [] => ret credits
  | e :: es =>
      match credits !! i with
      | Some _ => black_pass (S i) es credits
      | None =>
          let^ _ := between in
          let^ found := catch (black_frame_credits cfg e) in
          match found with
          | Ok (Some range) => black_pass (S i) es (<[i := (range, "blackframe"%string)]> credits)
          | Ok None => black_pass (S i) es credits
          | Err _ => let^ _ := mark i in black_pass (S i) es credits
          end
      end
  end.

Record EpisodeSegments := mkSegments {
  seg_name : string;
  seg_id : string;
  seg_duration : float;
  recap : option Range;
  intro : option Range;
  credits : option Range;
  credits_source : option string;
  seg_unreadable : bool;
}.
Definition segments_of (recaps intros : gmap nat Range) (answers : Answers) (unreadable : gset nat)
    (i : nat) (e : Episode) : EpisodeSegments :=
  mkSegments (ep_name e) (ep_id e) (ep_duration e) (recaps !! i) (intros !! i)
    (fst <$> answers !! i) (snd <$> answers !! i) (bool_decide (i ∈ unreadable)).

(** The body of [analyze] after the clock is read. *)
Definition analysis : M (list EpisodeSegments) :=
  let windows := windows_for Intro in
  let^ prints := if single then ret ∅ else fingerprints windows indices ∅ in
  let^ intros := search_regions Intro windows prints (search_params cfg) Longest true (search_queue indices) in
  let^ recaps := if scan_recap cfg then recaps windows prints intros else ret ∅ in
  let^ credits :=
    if anime cfg then
      let^ found := credits_regions indices in ret (record found "chromaprint" ∅)
    else ret ∅ in
  let^ _ := set_search_start fzero in
  let^ credits := black_pass 0 episodes credits in
  let^ credits :=
    if anime cfg then ret credits
    else
      let^ found := credits_regions (List.filter (fun i => is_none (credits !! i)) indices) in
      ret (record found "chromaprint" credits) in
  fun s => (Ok (imap (segments_of recaps intros credits (unreadable s)) episodes), s).

Definition start_state : St := mkSt 0 [] ∅ fzero.
Record SeasonReport := mkReport { report_episodes : list EpisodeSegments; report_seconds : float }.
Definition analyze (elapsed : float) : result Trouble SeasonReport :=
  let? episodes := fst (analysis start_state) in Ok (mkReport episodes elapsed).

End Pass.

(** ** Local files *)

(** A path: the name of its file, and its running time when the prober reads it. *)
Record ProbedPath := mkProbed { p_media : Media; p_file_name : string; p_duration_ms : option Z }.
Definition episode_probe (p : ProbedPath) : option Episode :=
  (fun ms => episode_new (p_media p) (p_file_name p) (ms_seconds ms)) <$> p_duration_ms p.
Definition unprobeable_row (p : ProbedPath) : EpisodeSegments :=
  mkSegments (p_file_name p) "" fzero None None None None true.
(** [Vec::insert]. *)
Definition insert_at (index : nat) (row : EpisodeSegments) (rows : list EpisodeSegments) : list EpisodeSegments :=
  take index rows ++ row :: drop index rows.
Definition insert_row (rows : list EpisodeSegments) (r : nat * EpisodeSegments) : list EpisodeSegments :=
  insert_at (Nat.min (fst r) (length rows)) (snd r) rows.
Definition unprobeable (paths : list ProbedPath) : list (nat * EpisodeSegments) :=
  omap id (imap (fun i p => if is_none (episode_probe p) then Some (i, unprobeable_row p) else None) paths).
Definition analyze_paths (cfg : Config) (elapsed : float) (paths : list ProbedPath) : result Trouble SeasonReport :=
  let episodes := omap episode_probe paths in
  if bool_decide (episodes = []) then Err Failed
  else
    let? report := analyze episodes cfg elapsed in
    Ok (mkReport (fold_left insert_row (unprobeable paths) (report_episodes report)) (report_seconds report)).

End Season.
