(* ===== verification/SeasonFacts.v ===== *)
(** * Facts about a season's analysis: its program logic and the bisection

    [sat m P Q X]: from a state [P] holds of, [m] answers with [Q] or stops
    with [X]. The bracket of the bisection is followed in real arithmetic: each
    end widens a bounded number of times, and between two widenings the gap
    halves. *)
From Stdlib Require Import SpecFloat Reals Lra.
From S2P Require Import Prelude Floats Utf8 Segments Decode Chroma FloatReal Season.
#[local] Open Scope Z_scope.

Section Logic.
Context {Media : Type} `{!Pipelines Media}.

Definition sat {A} (m : M (Media := Media) A) (P : St -> Prop) (Q : A -> St -> Prop) (X : Trouble -> St -> Prop) : Prop :=
  forall s, P s -> match m s with (Ok a, s) => Q a s | (Err e, s) => X e s end.

Lemma sat_ret {A} (a : A) (P : St -> Prop) (Q : A -> St -> Prop) X :
  (forall s, P s -> Q a s) -> sat (ret a) P Q X.
Proof. intros H s Hs. by apply H. Qed.
Lemma sat_bind {A B} (m : M A) (k : A -> M B) P R Q X :
  sat m P R X -> (forall a, sat (k a) (R a) Q X) -> sat (bind m k) P Q X.
Proof.
  intros Hm Hk s Hs. specialize (Hm s Hs). unfold bind. destruct (m s) as [[a|e] s']; [|done]. by apply Hk.
Qed.
Lemma sat_lift {A} (r : result Trouble A) P Q X :
  (forall s, P s -> match r with Ok a => Q a s | Err e => X e s end) -> sat (lift r) P Q X.
Proof. intros H s Hs. unfold lift. by destruct r; apply H. Qed.
Lemma sat_weaken {A} (m : M A) (P P' : St -> Prop) (Q Q' : A -> St -> Prop) (X X' : Trouble -> St -> Prop) :
  sat m P' Q' X' -> (forall s, P s -> P' s) -> (forall a s, Q' a s -> Q a s) -> (forall e s, X' e s -> X e s) ->
  sat m P Q X.
Proof. intros Hm HP HQ HX s Hs. specialize (Hm s (HP s Hs)). destruct (m s) as [[a|e] s']; auto. Qed.
Lemma sat_pre {A} (m : M A) (P P' : St -> Prop) Q X :
  sat m P' Q X -> (forall s, P s -> P' s) -> sat m P Q X.
Proof. intros Hm HP. by eapply sat_weaken. Qed.
(** A pure fact about the state before. *)
Lemma sat_pure {A} (m : M A) (F : Prop) (P : St -> Prop) Q X :
  (forall s, P s -> F) -> (F -> sat m P Q X) -> sat m P Q X.
Proof. intros HF Hm s Hs. by apply Hm; [eapply HF|]. Qed.
Lemma sat_and {A} (m : M A) (F : Prop) (P : St -> Prop) Q X : (F -> sat m P Q X) -> sat m (fun s => F /\ P s) Q X.
Proof. intros Hm s [HF Hs]. by apply Hm. Qed.
Lemma sat_catch {A} (m : M A) P (Q : result Trouble A -> St -> Prop) X :
  sat m P (fun a s => Q (Ok a) s) (fun e s => if bool_decide (e = Failed) then Q (Err Failed) s else X e s) ->
  sat (catch m) P Q X.
Proof.
  intros Hm s Hs. specialize (Hm s Hs). unfold catch. destruct (m s) as [[a|[]] s']; done.
Qed.
Lemma sat_if {A} (b : bool) (m n : M A) P Q X :
  (b = true -> sat m P Q X) -> (b = false -> sat n P Q X) -> sat (if b then m else n) P Q X.
Proof. destruct b; auto. Qed.

End Logic.

(** ** The constants of the default parameters *)

Lemma credits_minimum : ok (minimum_credits_duration black_default) /\ value (minimum_credits_duration black_default) = 15%R.
Proof. constant 15. Qed.
Lemma distance_30 : ok (search_distance black_default) /\ value (search_distance black_default) = 30%R.
Proof. constant 30. Qed.
Lemma half_15 : ok (half_distance black_default) /\ value (half_distance black_default) = 15%R.
Proof. constant 15. Qed.
Lemma error_4 : ok (maximum_error black_default) /\ value (maximum_error black_default) = 4%R.
Proof. constant 4. Qed.
Lemma lit_2 : ok (F64.lit 2 0) /\ value (F64.lit 2 0) = 2%R.
Proof. constant 2. Qed.
Lemma lit_1 : ok (F64.lit 1 0) /\ value (F64.lit 1 0) = 1%R.
Proof. constant 1. Qed.
Lemma normal_2 : is_normal (F64.lit 2 0) = true.
Proof. done. Qed.

(** ** The bracket *)

Section Bracket.
Context (dur cs : float).
Let cap := F64.sub dur cs.

Record bracket_ok (b : Bracket) : Prop := mkBracketOk {
  bo_upper : ok (upper_limit b); bo_lower : ok (lower_limit b); bo_start : ok (b_start b); bo_end : ok (b_end b);
  bo_capped : (value (upper_limit b) <= value cap)%R;
  bo_floor : (15 <= value (lower_limit b) <= value (b_end b))%R;
  bo_under : (value (b_start b) <= value (upper_limit b))%R;
  bo_gap : (value (b_start b) - value (b_end b) <= 31)%R;
  bo_range : (value (b_end b) <= 1000 /\ -1000 <= value (b_start b))%R;
}.
Definition running (b : Bracket) : bool := fgt (F64.sub (b_start b) (b_end b)) (maximum_error black_default).

(** [nu] and [nl] widenings are left at most; [ng] halvings close the gap. *)
Definition gap_bound (ng : nat) : R :=
  (match ng with O => 0 | S O => 76 / 10 | S (S O) => 15 | S (S (S O)) => 298 / 10 | _ => 59 end)%R.
Record left_over (nu nl ng : nat) (b : Bracket) : Prop := mkLeftOver {
  lo_up : (value cap - value (upper_limit b) <= 14 * INR nu)%R;
  lo_cap : nu = O -> upper_limit b = cap;
  lo_down : (value (lower_limit b) - 15 <= 14 * INR nl)%R;
  lo_gap : match ng with O => running b = false | _ => (value (b_start b) - value (b_end b) <= gap_bound ng)%R end;
  lo_halvings : (ng <= 4)%nat;
}.
Definition measure (nu nl ng : nat) : nat := (5 * (nu + nl) + ng)%nat.

Hypothesis cap_ok : ok cap.
Hypothesis cap_range : (-1000 <= value cap <= 1000)%R.

Lemma running_gap b : bracket_ok b -> running b = true -> (value (b_start b) - value (b_end b) >= 4 - 1 / 1000000)%R.
Proof.
  intros [] H. unfold running in H. change (fgt ?x ?y) with (flt y x) in H.
  destruct (sub_near (b_start b) (b_end b)) as [Hok Hv]; [done..|lra|].
  pose proof error_4 as [H4 V4]. apply flt_value in H; [|done..]. rewrite V4 in H. lra.
Qed.
Lemma stopped_gap b : bracket_ok b -> running b = false -> (value (b_start b) - value (b_end b) <= 4 + 1 / 1000000)%R.
Proof.
  intros [] H. unfold running in H. change (fgt ?x ?y) with (flt y x) in H.
  destruct (sub_near (b_start b) (b_end b)) as [Hok Hv]; [done..|lra|].
  pose proof error_4 as [H4 V4]. destruct (flt_cases (maximum_error black_default) (F64.sub (b_start b) (b_end b)))
    as [[? ?]|[_ Hle]]; [done..|congruence|]. rewrite V4 in Hle. lra.
Qed.
Lemma small_gap_stops b : bracket_ok b -> (value (b_start b) - value (b_end b) <= 39 / 10)%R -> running b = false.
Proof.
  intros Hb H. destruct (running b) eqn:E; [|done]. pose proof (running_gap b Hb E). lra.
Qed.

Lemma midpoint_near b :
  bracket_ok b -> running b = true ->
  ok (midpoint b) /\
  ((value (b_start b) + value (b_end b)) / 2 - 2 / 1000000 <= value (midpoint b)
   <= (value (b_start b) + value (b_end b)) / 2 + 2 / 1000000)%R.
Proof.
  intros Hb H. pose proof (running_gap b Hb H). destruct Hb. unfold midpoint. pose proof lit_2 as [H2 V2].
  destruct (add_near (b_start b) (b_end b)) as [Ho Hv]; [done..|lra|].
  destruct (div_near (F64.add (b_start b) (b_end b)) (F64.lit 2 0)) as [Ho' Hv']; [done..|rewrite V2; lra|].
  split; [done|]. rewrite V2 in Hv'. lra.
Qed.

Lemma gap_halved b ng :
  bracket_ok b -> (1 <= ng <= 4)%nat -> (value (b_start b) - value (b_end b) <= gap_bound ng / 2 + 1 / 100000)%R ->
  match Nat.pred ng with O => running b = false
  | _ => (value (b_start b) - value (b_end b) <= gap_bound (Nat.pred ng))%R end.
Proof.
  intros Hb Hng Hg. destruct ng as [|[|[|[|[|ng]]]]]; [lia| | | | |lia]; cbn [Nat.pred gap_bound] in *;
    [apply small_gap_stops; [done|]|..]; lra.
Qed.
Lemma gap_now b nu nl ng : left_over nu nl ng b -> running b = true ->
  (1 <= ng <= 4)%nat /\ (value (b_start b) - value (b_end b) <= gap_bound ng)%R.
Proof. intros [] H. destruct ng; [congruence|]. split; [lia|done]. Qed.

Lemma no_black_step b nu nl ng :
  bracket_ok b -> left_over nu nl ng b -> running b = true ->
  bracket_ok (no_black black_default b) /\
  exists nu' nl' ng', left_over nu' nl' ng' (no_black black_default b) /\ (measure nu' nl' ng' < measure nu nl ng)%nat.
Proof.
  intros Hb Hl Hr. pose proof (running_gap b Hb Hr) as Hgap. pose proof (midpoint_near b Hb Hr) as [Hm Vm].
  pose proof (gap_now b nu nl ng Hl Hr) as [Hng Hg]. pose proof lit_2 as [H2 V2].
  pose proof error_4 as [H4 V4]. pose proof half_15 as [H15 V15]. pose proof credits_minimum as [Hc Vc].
  assert (near (value (midpoint b) - 2) (F64.sub (midpoint b) (F64.lit 2 0))) as [Hs Vs].
  { rewrite <- V2. destruct Hb. apply sub_near; [done..|rewrite V2; lra]. }
  assert (near (value (midpoint b) - value (lower_limit b)) (F64.sub (midpoint b) (lower_limit b))) as [Hd Vd].
  { destruct Hb. apply sub_near; [done..|lra]. }
  assert (near (value (lower_limit b) - 15) (F64.sub (lower_limit b) (half_distance black_default))) as [Hw Vw].
  { rewrite <- V15. destruct Hb. apply sub_near; [done..|rewrite V15; lra]. }
  unfold no_black. set (lower := fmax _ _).
  destruct (fmax_value (F64.sub (lower_limit b) (half_distance black_default)) (minimum_credits_duration black_default))
    as [Hlo Vlo]; [done..|]. fold lower in Hlo, Vlo. rewrite Vc in Vlo.
  destruct (flt_cases (F64.sub (midpoint b) (lower_limit b)) (maximum_error black_default)) as [[-> Hlt]|[-> Hge]];
    [done..| |].
  - assert (bracket_ok (mkBracket (upper_limit b) lower (F64.sub (midpoint b) (F64.lit 2 0)) lower (first_black b))) as Hb'.
    { destruct Hb. rewrite V4 in Hlt. unfold Rmax in Vlo. destruct (Rle_dec _ _);
      constructor; cbn [upper_limit lower_limit b_start b_end]; given; lra. }
    split; [done|]. rewrite V4 in Hlt. destruct Hl, nl as [|nl].
    + exists nu, 0%nat, 0%nat. split; [|unfold measure; lia]. constructor; cbn [upper_limit lower_limit b_start b_end]; given; try lia.
      * cbn [INR] in *. unfold Rmax in Vlo. destruct (Rle_dec _ _); lra.
      * apply small_gap_stops; [done|]. cbn [b_start b_end INR] in *. unfold Rmax in Vlo. destruct Hb, (Rle_dec _ _); lra.
    + exists nu, nl, 3%nat. split; [|unfold measure; lia]. rewrite S_INR in *. pose proof (pos_INR nl).
      constructor; cbn [upper_limit lower_limit b_start b_end gap_bound]; given; try lia;
        unfold Rmax in Vlo; destruct Hb, (Rle_dec _ _); lra.
  - assert (bracket_ok (mkBracket (upper_limit b) (lower_limit b) (F64.sub (midpoint b) (F64.lit 2 0)) (b_end b) (first_black b))) as Hb'.
    { destruct Hb. constructor; cbn [upper_limit lower_limit b_start b_end]; given; lra. }
    split; [done|]. exists nu, nl, (Nat.pred ng). split; [|unfold measure; lia].
    destruct Hl. constructor; cbn [upper_limit lower_limit b_start b_end]; given; try lia.
    apply (gap_halved _ ng Hb' Hng). cbn [b_start b_end]. lra.
Qed.

Lemma some_black_step first b nu nl ng :
  bracket_ok b -> left_over nu nl ng b -> running b = true ->
  bracket_ok (some_black black_default dur cs first b) /\
  exists nu' nl' ng', left_over nu' nl' ng' (some_black black_default dur cs first b)
    /\ (measure nu' nl' ng' < measure nu nl ng)%nat.
Proof.
  intros Hb Hl Hr. pose proof (running_gap b Hb Hr) as Hgap. pose proof (midpoint_near b Hb Hr) as [Hm Vm].
  pose proof (gap_now b nu nl ng Hl Hr) as [Hng Hg].
  pose proof error_4 as [H4 V4]. pose proof half_15 as [H15 V15].
  assert (near (value (upper_limit b) - value (midpoint b)) (F64.sub (upper_limit b) (midpoint b))) as [Hd Vd].
  { destruct Hb. apply sub_near; [done..|lra]. }
  assert (near (value (upper_limit b) + 15) (F64.add (upper_limit b) (half_distance black_default))) as [Hw Vw].
  { rewrite <- V15. destruct Hb. apply add_near; [done..|rewrite V15; lra]. }
  unfold some_black. fold cap. set (upper := fmin _ cap). set (t := Some _).
  destruct (fmin_value (F64.add (upper_limit b) (half_distance black_default)) cap) as [Hup Vup]; [done..|].
  fold upper in Hup, Vup.
  destruct (flt_cases (F64.sub (upper_limit b) (midpoint b)) (maximum_error black_default)) as [[Hf Hlt]|[-> Hge]];
    [done..| |].
  - rewrite Hf. assert (bracket_ok (mkBracket upper (lower_limit b) upper (midpoint b) t)) as Hb'.
    { destruct Hb. rewrite V4 in Hlt. unfold Rmin in Vup. destruct (Rle_dec _ _);
      constructor; cbn [upper_limit lower_limit b_start b_end]; given; lra. }
    split; [done|]. rewrite V4 in Hlt.
    assert ((value cap < value (F64.add (upper_limit b) (half_distance black_default)))%R -> upper = cap) as Hcap.
    { intros H. unfold upper, fmin. rewrite !ok_not_nan by done. by rewrite (proj2 (flt_value _ _ cap_ok Hw) H). }
    destruct Hl, nu as [|nu].
    + exists 0%nat, nl, 0%nat. split; [|unfold measure; lia]. specialize (lo_cap0 eq_refl). rewrite lo_cap0 in *.
      assert (upper = cap) as Hu by (apply Hcap; destruct Hb; lra).
      constructor; cbn [upper_limit lower_limit b_start b_end]; given; try lia; [rewrite Hu; cbn [INR]; lra|].
      unfold running. cbn [b_start b_end]. rewrite Hu. change (fgt ?x ?y) with (flt y x).
      destruct (flt_cases (maximum_error black_default) (F64.sub cap (midpoint b))) as [[_ ?]|[-> _]]; [done..|lra|done].
    + destruct (Rlt_le_dec (value cap) (value (F64.add (upper_limit b) (half_distance black_default)))) as [Hc|Hc].
      * exists 0%nat, nl, 3%nat. split; [|unfold measure; lia]. rewrite (Hcap Hc) in *.
        constructor; cbn [upper_limit lower_limit b_start b_end gap_bound]; given; try lia; [cbn [INR]; lra|].
        destruct Hb; lra.
      * exists nu, nl, 3%nat. split; [|unfold measure; lia]. rewrite S_INR in *. rewrite Rmin_left in Vup by done.
        constructor; cbn [upper_limit lower_limit b_start b_end gap_bound]; given; try lia; [lra| |destruct Hb; lra].
        intros ->. cbn [INR] in *. lra.
  - assert (bracket_ok (mkBracket (upper_limit b) (lower_limit b) (b_start b) (midpoint b) t)) as Hb'.
    { destruct Hb. constructor; cbn [upper_limit lower_limit b_start b_end]; given; lra. }
    split; [done|]. exists nu, nl, (Nat.pred ng). split; [|unfold measure; lia].
    destruct Hl. constructor; cbn [upper_limit lower_limit b_start b_end]; given; try lia.
    apply (gap_halved _ ng Hb' Hng). cbn [b_start b_end]. lra.
Qed.

End Bracket.

(** ** The loops end *)

Section Loops.
Context {Media : Type} `{!Pipelines Media}.
Context (dur cs : float) (probe : float -> float -> M (Media := Media) (list float)).
Context (P : St (Media := Media) -> Prop) (X : Trouble -> St (Media := Media) -> Prop).
Let cap := F64.sub dur cs.

(** A probed time is within the two seconds it was looked for in. *)
Definition seen (t : float) : Prop := ok t /\ (0 <= value t <= 2 + 1 / 100000)%R.
Hypothesis probe_keeps : forall a b, sat (probe a b) P (fun _ s => P s) X.
Hypothesis probe_seen : forall a b, ok a -> (-1 <= value a <= 4500000)%R -> near (value a + 2) b ->
  sat (probe a b) P (fun l s => P s /\ Forall seen l) X.
Hypothesis dur_ok : ok dur.
Hypothesis dur_range : (0 <= value dur <= 4194304)%R.
Hypothesis cap_ok : ok cap.
Hypothesis cap_range : (-1000 <= value cap <= 500)%R.
Hypothesis cap_dur : (value cap <= value dur + 1 / 100000)%R.

(** Where credits may start: fifteen seconds before the end at the latest, and
    a second into the window, since a probe is never at its edge. *)
Definition credits_at (t : float) : Prop :=
  ok t /\ (value dur - value cap + 1 <= value t <= value dur - 15 + 1 / 10000)%R.
Definition black_ok (b : Bracket) : Prop := forall t, first_black b = Some t -> credits_at t.

Lemma some_black_ok first b :
  bracket_ok dur cs b -> running b = true -> seen first -> black_ok b ->
  black_ok (some_black black_default dur cs first b).
Proof.
  intros Hb Hr [Hf Vf] _ t Ht.
  assert (F64.add first (F64.sub dur (midpoint b)) = t) as <-.
  { unfold some_black in Ht. destruct (flt _ _) in Ht; cbn [first_black] in Ht; congruence. }
  pose proof (running_gap dur cs b Hb Hr) as Hgap. pose proof (midpoint_near dur cs b Hb Hr) as [Hm Vm].
  destruct Hb. fold cap in bo_capped0.
  destruct (sub_near dur (midpoint b)) as [Hs Vs]; [done..|lra|].
  destruct (add_near first (F64.sub dur (midpoint b))) as [Ha Va]; [done..|lra|]. split; [done|lra].
Qed.
Lemma no_black_ok b : black_ok b -> black_ok (no_black black_default b).
Proof. intros H t Ht. apply H. unfold no_black in Ht. by destruct (flt _ _) in Ht. Qed.

Lemma bisect_ends fuel b nu nl ng :
  bracket_ok dur cs b -> left_over dur cs nu nl ng b -> black_ok b -> (measure nu nl ng <= fuel)%nat ->
  sat (bisect black_default probe fuel dur cs b) P (fun b' s => P s /\ black_ok b') X.
Proof.
  revert b nu nl ng. induction fuel as [|fuel IH]; intros b nu nl ng Hb Hl Ht Hf; cbn [bisect];
    fold (running b); destruct (running b) eqn:Hr; try (by apply sat_ret).
  - pose proof (gap_now dur cs b nu nl ng Hl Hr). unfold measure in Hf. lia.
  - pose proof (midpoint_near dur cs b Hb Hr) as [Hm Vm].
    assert (near (value dur - value (midpoint b)) (F64.sub dur (midpoint b))) as [Hs Vs].
    { destruct Hb. apply sub_near; [done..|]. fold cap in bo_capped0. lra. }
    pose proof lit_2 as [H2 V2].
    apply sat_bind with (fun l s => P s /\ Forall seen l).
    { pose proof (running_gap dur cs b Hb Hr). apply probe_seen; [done|destruct Hb; fold cap in bo_capped0; lra|]. rewrite <- V2. apply add_near; [done..|]. rewrite V2. destruct Hb. fold cap in bo_capped0. lra. }
    intros l. eapply sat_pure; [by intros s [_ Hl']; exact Hl'|]. intros Hseen.
    eapply sat_pre; [|by intros s [Hs' _]; exact Hs']. destruct l as [|first l].
    + destruct (no_black_step dur cs b nu nl ng Hb Hl Hr) as (Hb' & nu' & nl' & ng' & Hl' & Hlt).
      apply (IH _ nu' nl' ng'); [done..|by apply no_black_ok|lia].
    + destruct (some_black_step dur cs cap_ok ltac:(fold cap; lra) first b nu nl ng Hb Hl Hr) as (Hb' & nu' & nl' & ng' & Hl' & Hlt).
      apply (IH _ nu' nl' ng'); [done..| |lia]. apply some_black_ok; [done..|by inversion Hseen|done].
Qed.

Lemma bracket_new_ok init :
  ok init -> (-1 <= value init <= 500)%R ->
  bracket_ok dur cs (bracket_new black_default dur cs init)
  /\ exists nu nl ng, left_over dur cs nu nl ng (bracket_new black_default dur cs init) /\ (measure nu nl ng <= black_fuel)%nat.
Proof.
  intros Hi Vi. pose proof distance_30 as [H30 V30]. pose proof credits_minimum as [Hc Vc].
  unfold bracket_new. fold cap. destruct (fmin_value init cap Hi cap_ok) as [Hu Vu].
  assert (near (value init - 30) (F64.sub init (search_distance black_default))) as [Hd Vd].
  { rewrite <- V30. apply sub_near; [done..|]. rewrite V30. lra. }
  destruct (fmax_value (F64.sub init (search_distance black_default)) (minimum_credits_duration black_default) Hd Hc) as [Hl Vl].
  rewrite Vc in Vl. set (upper := fmin _ _) in *. set (lower := fmax _ _) in *.
  assert (bracket_ok dur cs (mkBracket upper lower upper lower None)) as Hb.
  { unfold Rmin in Vu. unfold Rmax in Vl. destruct (Rle_dec (value init) _), (Rle_dec (value _) 15);
      constructor; cbn [upper_limit lower_limit b_start b_end]; given; fold cap; lra. }
  split; [done|].
  assert (exists nu, (value cap - value upper <= 14 * INR nu)%R /\ (nu = O -> upper = cap) /\ (nu <= 36)%nat) as (nu & Hnu1 & Hnu2 & Hnu3).
  { destruct (Rlt_le_dec (value cap) (value init)) as [Hlt|Hle].
    - exists 0%nat. assert (upper = cap) as Heq.
      { unfold upper, fmin. rewrite !ok_not_nan by done. by rewrite (proj2 (flt_value _ _ cap_ok Hi) Hlt). }
      rewrite Heq. split; [cbn [INR]; lra|]. split; [done|lia].
    - exists 36%nat. rewrite Rmin_left in Vu by done. replace (INR 36) with 36%R by (rewrite INR_IZR_INZ; done).
      split; [lra|]. split; [done|lia]. }
  exists nu, 33%nat, 4%nat. split; [|unfold measure, black_fuel; lia].
  constructor; cbn [upper_limit lower_limit b_start b_end gap_bound]; given; try lia.
  - replace (INR 33) with 33%R by (rewrite INR_IZR_INZ; done). unfold Rmax in Vl. destruct (Rle_dec _ _); lra.
  - destruct Hb. cbn [b_start b_end] in *. lra.
Qed.

Lemma find_credits_ends init :
  ok init -> (-1 <= value init <= 500)%R ->
  sat (find_credits black_default probe black_fuel dur cs init) P
    (fun r s => P s /\ forall range, r = Some range ->
       r_end range = dur /\ fgt (r_start range) fzero = true /\ credits_at (r_start range)) X.
Proof.
  intros Hi Vi. destruct (bracket_new_ok init Hi Vi) as (Hb & nu & nl & ng & Hl & Hf).
  unfold find_credits. eapply sat_bind; [by apply (bisect_ends _ _ nu nl ng)|].
  intros b. apply sat_ret. intros s [Hs Hok]. split; [done|]. intros range Hr.
  destruct (first_black b) as [t|] eqn:Ht; [|done]. destruct (fgt t fzero) eqn:Hpos; [|done]. injection Hr as <-.
  split; [done|]. split; [done|]. by apply Hok.
Qed.

(** The step of the search for a start is thirty seconds. *)
Lemma search_start_ends fuel start :
  ok start -> (0 <= value start)%R -> (value cap - value start <= 29 * INR fuel)%R ->
  sat (search_start_loop probe fuel dur cap (search_distance black_default) start) P
    (fun r s => P s /\ ok r /\ (value r <= value cap)%R /\ (0 <= value r \/ r = cap)%R) X.
Proof.
  pose proof distance_30 as [H30 V30]. pose proof lit_1 as [H1 V1].
  revert start. induction fuel as [|fuel IH]; intros start Hs Vs Hf; cbn [search_start_loop];
    destruct (flt_cases start cap) as [[-> Hlt]|[-> Hge]]; try done;
    try (apply sat_ret; intros s HP; split_and!; auto; by right || lra).
  - cbn [INR] in Hf. lra.
  - rewrite S_INR in Hf. eapply sat_bind; [apply probe_keeps|]. intros frames. apply sat_if; intros _.
    + apply sat_ret. intros s HP. split_and!; [done..|lra|by left].
    + destruct (add_near start (search_distance black_default)) as [Ha Va]; [done..|rewrite V30; lra|].
      rewrite V30 in Va. apply IH; [done|lra..].
Qed.

End Loops.
