(* ===== verification/SeasonSafety.v ===== *)
(** * A season is analysed: proofs

    What the framework is assumed to deliver ([Sane]), and that with it no read
    panics; then the whole analysis as one invariant: it ends, and the set of
    unreadable episodes is exactly the episodes with a failed read. *)
From Stdlib Require Import SpecFloat Reals Lra.
From S2P Require Import Prelude Floats Utf8 Segments Decode Chroma FloatReal ChromaTheorems Season SeasonFacts.
#[local] Open Scope Z_scope.

(** A mapped picture has its rows. *)
Definition plane_ok (f : VideoFrame) : Prop :=
  0 <= f_width f /\ 0 <= f_stride f
  /\ forall row, Z.of_nat row < f_height f ->
     Z.of_nat row * f_stride f + (if fst (luma_shift (f_format f)) then f_width f * 2 else f_width f)
       <= Z.of_nat (length (f_luma f)).

(** Documented behaviour of the framework: a mapped picture covers its plane, a
    run delivers nothing past the window it was sent to, times are not
    negative, a window is at most a pebibyte of samples and its fingerprint at
    most 2^26 points. The
    caller's answer between reads is an error or none. *)
Class Sane (Media : Type) `{!Pipelines Media} := {
  sane_plane : forall now m a b s f, s ∈ fst (run_video now m a b) -> v_frame s = Some f -> plane_ok f;
  sane_video : forall now m a b s t, s ∈ fst (run_video now m a b) -> v_pts s = Some t -> 0 <= t <= b;
  sane_keys : forall now m a b s d t, s ∈ fst (run_keys now m a b) -> k_buffer s = Some (d, Some t) -> 0 <= t <= b;
  sane_audio : forall now m a b, Z.of_nat (length (concat (map (fun s => default [] (as_data s)) (fst (run_audio now m a b))))) <= 2 ^ 50;
  sane_points : forall r c l points, chromaprint r c l = Some points -> points_ok points;
  sane_between : forall now, between_reads now = None \/ between_reads now = Some Failed;
}.

(** ** No read panics *)

Definition tame {A} (r : result Trouble A) : Prop :=
  match r with Err Panicked | Err Endless => False | _ => True end.
Lemma tame_bind {A B} (r : result Trouble A) (k : A -> result Trouble B) :
  tame r -> (forall a, r = Ok a -> tame (k a)) -> tame (rbind r k).
Proof. destruct r as [a|[]]; cbn; auto. Qed.
Lemma tame_ensure {A} c (k : result Trouble A) : (c = true -> tame k) -> tame (ensure c Failed k).
Proof. destruct c; cbn; auto. Qed.
Lemma tame_ok_or {A} (o : option A) : tame (ok_or o Failed).
Proof. by destruct o. Qed.
Lemma tame_collect {A B} (f : A -> result Trouble B) l : (forall a, a ∈ l -> tame (f a)) -> tame (collect (map f l)).
Proof.
  induction l as [|a l IH]; intros H; [done|]. cbn [map collect].
  apply tame_bind; [apply H; left|]. intros b _. apply tame_bind; [|done]. apply IH. intros x Hx. apply H. by right.
Qed.
Lemma collect_in {A B} (f : A -> result Trouble B) l bs b :
  collect (map f l) = Ok bs -> b ∈ bs -> exists a, a ∈ l /\ f a = Ok b.
Proof.
  revert bs. induction l as [|a l IH]; intros bs H Hb; cbn [map collect] in H.
  - injection H as <-. by apply elem_of_nil in Hb.
  - destruct (f a) as [c|] eqn:Hf; [|done]. cbn [rbind] in H. destruct (collect (map f l)) as [cs|] eqn:Hc; [|done].
    injection H as <-. apply elem_of_cons in Hb as [->|Hb]; [exists a; split; [left|done]|].
    destruct (IH cs eq_refl Hb) as (x & Hx & Hfx). exists x. split; [by right|done].
Qed.

Section Reads.
Context {Media : Type} `{!Pipelines Media} `{!Sane Media}.

Lemma row_values_tame f row : plane_ok f -> Z.of_nat row < f_height f -> tame (row_values f row).
Proof.
  intros (Hw & Hs & Hp) Hr. specialize (Hp row Hr). unfold row_values. destruct (luma_shift (f_format f)) as [[] shift];
    cbn [fst] in Hp; unfold slice_luma; rewrite (proj2 (Z.leb_le _ _)) by lia; done.
Qed.
Lemma luma_frame_tame threshold pts f : plane_ok f -> tame (luma_frame threshold pts f).
Proof.
  intros Hp. unfold luma_frame. apply tame_bind; [|done]. apply tame_collect. intros row Hr.
  apply elem_of_seq in Hr. apply row_values_tame; [done|lia].
Qed.
Lemma luma_window_tame now m a b threshold : tame (luma_window now m a b threshold).
Proof.
  unfold luma_window. pose proof (sane_plane now m (nseconds (F64.sub a LEAD_IN)) (nseconds b)) as Hp.
  destruct (run_video _ _ _ _) as [got ended]. cbn [fst] in Hp. apply tame_bind; [|intros; by apply tame_ensure].
  apply tame_collect. intros s Hs. unfold on_video. destruct (v_whole s); [|done]. cbn [negb]. destruct (flt _ _); [done|].
  destruct (v_frame s) as [f|] eqn:Hf; [|done]. cbn [ok_or rbind]. apply tame_bind; [|done].
  apply luma_frame_tame. by eapply Hp.
Qed.
Lemma audio_window_tame now m a b : tame (audio_window now m a b).
Proof.
  unfold audio_window. destruct (run_audio _ _ _ _) as [got ended]. apply tame_ensure. intros _. by apply tame_ensure.
Qed.
Lemma fingerprint_tame now m a b : tame (fingerprint now m a b).
Proof. unfold fingerprint. apply tame_bind; [apply audio_window_tame|]. intros w _. apply tame_ok_or. Qed.
Lemma fingerprint_points now m a b points : fingerprint now m a b = Ok points -> points_ok points.
Proof.
  unfold fingerprint. destruct (audio_window now m a b) as [w|]; [|done]. cbn [rbind]. unfold fingerprint_samples.
  destruct (chromaprint _ _ _) as [ps|] eqn:Hc; [|done]. intros [= <-]. by eapply sane_points.
Qed.
Lemma detect_tame now m a b noise minimum : tame (detect now m a b noise minimum).
Proof. unfold detect. apply tame_bind; [apply audio_window_tame|done]. Qed.
Lemma keyframes_tame now m a b : tame (keyframes_window now m a b).
Proof. unfold keyframes_window. destruct (run_keys _ _ _ _) as [got ended]. by apply tame_ensure. Qed.

(** ** Times *)

Lemma giga : ok (F64.lit 1 9) /\ value (F64.lit 1 9) = 1000000000%R.
Proof. constant 1000000000. Qed.
Lemma giga_normal : is_normal (F64.lit 1 9) = true.
Proof. by vm_compute. Qed.

Lemma seconds_near t : 0 <= t <= 8000000000000000 -> near (IZR t / 1000000000) (seconds t) /\ (0 <= value (seconds t))%R.
Proof.
  intros Ht. unfold seconds. destruct giga as [Hg Vg]. destruct (of_int_exact t) as [Ho Vo]; [lia|].
  assert (0 <= IZR t <= 8000000000000000)%R as Vt by (split; apply IZR_le; lia).
  assert (near (IZR t / 1000000000) (F64.div (F64.of_int t) (F64.lit 1 9))) as Hn.
  { rewrite <- Vo, <- Vg. apply div_near; [done..|apply giga_normal|]. rewrite Vo, Vg. lra. }
  split; [done|]. destruct (decide (t = 0)) as [->|Hne].
  - assert (F64.div (F64.of_int 0) (F64.lit 1 9) = fzero) as -> by (by vm_compute). apply Rle_refl.
  - destruct (div_close (F64.of_int t) (F64.lit 1 9)) as [_ Hc]; [done..|apply giga_normal| |].
    { apply moderate. rewrite Vo, Vg. lra. }
    rewrite Vo, Vg in Hc. assert (1 <= IZR t)%R by (apply IZR_le; lia).
    rewrite (Rabs_pos_eq (IZR t / 1000000000)) in Hc by lra.
    pose proof (Rle_abs (- (value (F64.div (F64.of_int t) (F64.lit 1 9)) - IZR t / 1000000000))) as Ha. rewrite Rabs_Ropp in Ha.
    assert (pow2 (-1074) <= pow2 (-52))%R as Htiny by (by apply pow2_le).
    change (-52) with (- (52)) in *. rewrite (pow2_neg 52) in * by done. change (2 ^ 52) with 4503599627370496 in *. lra.
Qed.

(** What is asked for in seconds and delivered in nanoseconds. *)
Lemma as_u64_floor x : ok x -> 0 <= as_u64 x /\ (IZR (as_u64 x) <= Rmax (value x) 0)%R.
Proof.
  intros [Hf _]. pose proof (Rmax_r (value x) 0) as H0. destruct x as [s| | |[] m e]; try done; cbn [as_u64]; [done..|].
  split.
  - apply Z.min_glb; [done|]. assert (0 <= 2 ^ e) by (apply Z.pow_nonneg; lia).
    destruct (Z.leb_spec 0 e); [nia|]. apply Z.div_pos; [done|]. apply Z.pow_pos_nonneg; lia.
  - eapply Rle_trans; [|apply Rmax_l]. cbn [value sign]. rewrite Rmult_1_l.
    eapply Rle_trans; [apply IZR_le, Z.le_min_r|]. destruct (Z.leb_spec 0 e).
    + rewrite mult_IZR, pow2_IZR by done. lra.
    + assert (Zpos m / 2 ^ (- e) * 2 ^ (- e) <= Zpos m) as Hd.
      { rewrite Z.mul_comm. apply Z.mul_div_le. apply Z.pow_pos_nonneg; lia. }
      apply IZR_le in Hd. rewrite mult_IZR, pow2_IZR in Hd by lia. pose proof (pow2_pos e). pose proof (pow2_pos (- e)).
      assert (pow2 (- e) * pow2 e = 1)%R as Hone by (rewrite <- pow2_add; by rewrite Z.add_opp_diag_l).
      set (q := IZR (Zpos m / 2 ^ (- e))) in *. replace q with (q * pow2 (- e) * pow2 e)%R by (rewrite Rmult_assoc, Hone; lra).
      by apply Rmult_le_compat_r; [lra|].
Qed.
Lemma nseconds_bound x : ok x -> (-1000 <= value x <= 5000000)%R ->
  0 <= nseconds x /\ (IZR (nseconds x) / 1000000000 <= Rmax (value x) 0 + 1 / 1000000)%R /\ nseconds x <= 6000000000000000.
Proof.
  intros Hx Vx. unfold nseconds. destruct giga as [Hg Vg].
  destruct (fmax_value x fzero Hx ltac:(done)) as [Hm Vm]. cbn [value fzero] in Vm.
  assert (0 <= Rmax (value x) 0 <= 5000000)%R as HR.
  { unfold Rmax. destruct (Rle_dec _ _); lra. }
  assert (close (value (fmax x fzero) * value (F64.lit 1 9)) (F64.mul (fmax x fzero) (F64.lit 1 9))) as [Ho Hc].
  { apply mul_close; [done..|]. rewrite Vg, Vm. apply Rle_trans with (pow2 53); [|by apply pow2_le].
    rewrite <- (pow2_IZR 53) by done. apply Rabs_le. cbn. lra. }
  rewrite Vg, Vm in Hc. rewrite (Rabs_pos_eq (Rmax (value x) 0 * 1000000000)) in Hc by lra.
  set (p := F64.mul (fmax x fzero) (F64.lit 1 9)) in *.
  pose proof (Rle_abs (value p - Rmax (value x) 0 * 1000000000)) as Ha.
  assert (pow2 (-1074) <= pow2 (-52))%R as Htiny by (by apply pow2_le).
  change (-52) with (- (52)) in *. rewrite (pow2_neg 52) in * by done. change (2 ^ 52) with 4503599627370496 in *.
  assert (value p <= Rmax (value x) 0 * 1000000000 + 10)%R as Hp by lra.
  destruct (as_u64_floor p Ho) as [Hn Hf]. assert (Rmax (value p) 0 <= Rmax (value x) 0 * 1000000000 + 10)%R as Hq.
  { apply Rmax_lub; [done|lra]. }
  split; [done|]. split; [lra|]. apply le_IZR. lra.
Qed.

Lemma luma_window_times now m a b threshold frames f :
  luma_window now m a b threshold = Ok frames -> f ∈ frames ->
  time f = S754_nan \/ exists t, 0 <= t <= nseconds b /\ time f = seconds t.
Proof.
  unfold luma_window. pose proof (sane_video now m (nseconds (F64.sub a LEAD_IN)) (nseconds b)) as Hv.
  destruct (run_video _ _ _ _) as [got ended]. cbn [fst] in Hv.
  destruct (collect (map (on_video a threshold) got)) as [fss|] eqn:Hc; [|done]. cbn [rbind]. destruct ended; [|done].
  cbn [ensure]. intros [= <-] Hf. apply list_elem_of_In, in_concat in Hf as (fs & Hfs & Hf). apply list_elem_of_In in Hf, Hfs.
  destruct (collect_in _ _ _ _ Hc Hfs) as (s & Hs & Hon). unfold on_video in Hon.
  destruct (negb (v_whole s)); [injection Hon as <-; by apply elem_of_nil in Hf|].
  destruct (flt _ _); [injection Hon as <-; by apply elem_of_nil in Hf|].
  destruct (v_frame s) as [vf|]; [|done]. cbn [ok_or rbind] in Hon.
  destruct (luma_frame threshold (v_pts s) vf) as [lf|] eqn:Hl; [|done]. cbn [rbind] in Hon. injection Hon as <-.
  apply list_elem_of_singleton in Hf as ->. unfold luma_frame in Hl. destruct (collect (map (row_values vf) _)); [|done]. cbn [rbind] in Hl. injection Hl as <-.
  cbn [time]. destruct (v_pts s) as [t|] eqn:Ht; [right|by left]. exists t. split; [by eapply Hv|done].
Qed.

Lemma probed_seen a b t :
  ok a -> (-1 <= value a <= 4500000)%R -> near (value a + 2) b ->
  t = S754_nan \/ (exists ns, 0 <= ns <= nseconds b /\ t = seconds ns) -> seen (fmax (F64.sub t a) fzero).
Proof.
  intros Ha Va [Hb Vb] Ht. destruct Ht as [->|(ns & Hns & ->)].
  - assert (fmax (F64.sub S754_nan a) fzero = fzero) as -> by (by destruct a). split; [done|]. cbn [value fzero]. lra.
  - destruct (nseconds_bound b Hb) as (_ & Hb1 & Hb2); [lra|]. destruct (seconds_near ns) as [[Ho Vo] _]; [lia|].
    assert (0 <= IZR ns)%R by (apply IZR_le; lia). assert (IZR ns <= IZR (nseconds b))%R by (apply IZR_le; lia).
    assert (Rmax (value b) 0 <= 5000000)%R by (apply Rmax_lub; lra).
    destruct (sub_near (seconds ns) a) as [Hs Vs]; [done..|lra|].
    destruct (fmax_value (F64.sub (seconds ns) a) fzero Hs ltac:(done)) as [Hm Vm]. split; [done|]. rewrite Vm. cbn [value fzero].
    split; [apply Rmax_r|]. rewrite Rmax_left in Hb1 by lra. apply Rmax_lub; lra.
Qed.
End Reads.

(** ** The invariant *)

Section Analysis.
Context {Media : Type} `{!Pipelines Media} `{!Sane Media} `{Hashed : !Hashing}.
Context (episodes : list (Episode (Media := Media))) (is_anime : bool).
Let cfg := config_default is_anime.

(** A running time of at most 48 days. *)
Definition episode_ok (e : Episode (Media := Media)) : Prop :=
  ok (ep_duration e) /\ (0 <= value (ep_duration e) <= 4194304)%R.
Hypothesis episodes_ok : Forall episode_ok episodes.

(** The marks are the failed reads, but for one episode: of episodes that do
    not share a file. *)
Definition exact_but (except : option nat) (s : St (Media := Media)) : Prop :=
  NoDup (map media episodes) ->
  forall i e, episodes !! i = Some e -> except <> Some i -> i ∈ unreadable s <-> (media e, false) ∈ reads s.
Definition position_ok (s : St (Media := Media)) : Prop := ok (search_start s) /\ (-1 <= value (search_start s) <= 500)%R.
Definition Inv (s : St (Media := Media)) : Prop := exact_but None s /\ position_ok s.
(** A read of episode [i] has failed and is not yet marked. *)
Definition Pending (i : nat) (s : St (Media := Media)) : Prop :=
  exact_but (Some i) s /\ position_ok s /\ forall e, episodes !! i = Some e -> (media e, false) ∈ reads s.
(** The only way to stop is the caller's. *)
Definition Stop (e : Trouble) (_ : St (Media := Media)) : Prop :=
  e = Failed /\ exists now, between_reads now = Some Failed.

Lemma media_distinct i j ei ej :
  NoDup (map media episodes) -> episodes !! i = Some ei -> episodes !! j = Some ej -> media ei = media ej -> i = j.
Proof.
  intros Hnd Hi Hj Hm. eapply (proj1 (NoDup_alt _) Hnd i j (media ei)).
  - rewrite list_lookup_fmap. by rewrite Hi.
  - rewrite list_lookup_fmap, Hj. cbn. by rewrite Hm.
Qed.

Lemma sat_between : sat between Inv (fun _ => Inv) Stop.
Proof.
  intros s Hs. unfold between. destruct (sane_between (clock s)) as [Hbet|Hbet]; rewrite Hbet; [exact Hs|].
  split; [done|]. by exists (clock s).
Qed.
Lemma sat_read_told {A} i e (f : nat -> result Trouble A) :
  episodes !! i = Some e -> (forall now, tame (f now)) ->
  sat (read (media e) f) Inv (fun a s => Inv s /\ exists now, f now = Ok a)
    (fun err s => err = Failed /\ Pending i s /\ exists now err, f now = Err err).
Proof.
  intros He Hf s [Hex Hp]. unfold read. destruct (f (clock s)) as [a|err] eqn:Hr; cbn [is_ok].
  - split; [|by exists (clock s)]. split; [|exact Hp]. intros Hnd j ej Hj _. cbn [unreadable reads].
    rewrite elem_of_app, list_elem_of_singleton. rewrite (Hex Hnd j ej Hj) by done. intuition congruence.
  - pose proof (Hf (clock s)) as Ht. rewrite Hr in Ht. destruct err; try done. split; [done|].
    split; [|by exists (clock s), Failed]. split; [|split; [exact Hp|]].
    + intros Hnd j ej Hj Hne. cbn [unreadable reads]. rewrite elem_of_app, list_elem_of_singleton. rewrite (Hex Hnd j ej Hj) by done.
      split; [auto|]. intros [H|H]; [done|]. injection H as H. destruct Hne. f_equal. by eapply media_distinct.
    + intros e' He'. cbn [reads]. rewrite elem_of_app, list_elem_of_singleton. right. congruence.
Qed.
Lemma sat_read {A} i e (f : nat -> result Trouble A) :
  episodes !! i = Some e -> (forall now, tame (f now)) ->
  sat (read (media e) f) Inv (fun a s => Inv s /\ exists now, f now = Ok a) (fun err s => err = Failed /\ Pending i s).
Proof.
  intros He Hf. eapply sat_weaken; [by apply (sat_read_told i e f He Hf)|done..|]. by intros err s (-> & Hp & _).
Qed.
Lemma sat_mark i : sat (mark i) (Pending i) (fun _ => Inv) Stop.
Proof.
  intros s (Hex & Hp & Hf). unfold mark. split; [|exact Hp]. intros Hnd j ej Hj _. cbn [unreadable reads].
  rewrite elem_of_union, elem_of_singleton. destruct (decide (j = i)) as [->|Hne].
  - split; [intros _; by apply Hf|by left].
  - rewrite (Hex Hnd j ej Hj) by congruence. intuition congruence.
Qed.
(** A read whose failure is marked. *)
Lemma sat_reading {A} i e (f : nat -> result Trouble A) :
  episodes !! i = Some e -> (forall now, tame (f now)) ->
  sat (catch (read (media e) f)) Inv
    (fun r s => match r with
                | Ok a => Inv s /\ (exists now, f now = Ok a)
                | Err _ => Pending i s /\ (exists now err, f now = Err err)
                end) Stop.
Proof.
  intros He Hf. apply sat_catch. eapply sat_weaken; [by apply (sat_read_told i e f He Hf)|done|done|].
  intros err s [-> Hp]. by rewrite bool_decide_true.
Qed.
Lemma sat_attempt {A} i e (f : nat -> result Trouble A) :
  episodes !! i = Some e -> (forall now, tame (f now)) ->
  sat (catch (read (media e) f)) Inv
    (fun r s => match r with Ok a => Inv s /\ (exists now, f now = Ok a) | Err _ => Pending i s end) Stop.
Proof.
  intros He Hf. eapply sat_weaken; [by apply (sat_reading i e f He Hf)|done| |done].
  intros [a|err] s; [done|]. by intros [Hp _].
Qed.
Lemma sat_lift_ok {A} (a : A) (P : St (Media := Media) -> Prop) (X : Trouble -> St (Media := Media) -> Prop) :
  sat (lift (Ok a)) P (fun b s => b = a /\ P s) X.
Proof. by intros s Hs. Qed.

(** ** Refining *)

(** A time the analysis has computed. *)
Definition sound_time (t : float) : Prop := ok t /\ (-1 <= value t <= 12600000)%R.
Definition sound_range (r : Range) : Prop := sound_time (r_start r) /\ sound_time (r_end r).

Lemma abs_not_nan x : is_nan (fabs x) = is_nan x.
Proof. by destruct x. Qed.
Lemma normal_of_value x : ok x -> (value x <> 0)%R -> is_normal x = true.
Proof. intros [H _] Hv. by destruct x as [s| | |s m e]. Qed.

Lemma push_run_sound window offset minimum b e r :
  ok offset -> (-1000 <= value offset <= 12600000)%R -> 0 < rate window < 2 ^ 32 ->
  Z.of_nat b <= 2 ^ 50 -> Z.of_nat e <= 2 ^ 50 ->
  r ∈ push_run window offset minimum b e -> ok (r_start r) /\ ok (r_end r).
Proof.
  intros Ho Vo Hr Hb He Hin. unfold push_run in Hin. destruct (fge _ _); [|by apply elem_of_nil in Hin].
  apply list_elem_of_singleton in Hin as ->. cbn [r_start r_end].
  destruct (of_int_exact (rate window)) as [Hro Vr]; [lia|].
  assert (1 <= IZR (rate window))%R as Hr1 by (apply IZR_le; lia).
  assert (forall n, Z.of_nat n <= 2 ^ 50 ->
    ok (F64.add offset (F64.div (F64.of_int (Z.of_nat n)) (F64.of_int (rate window))))) as Hadd; [|by split; apply Hadd].
  intros n Hn. destruct (of_int_exact (Z.of_nat n)) as [Hno Vn]; [lia|].
  assert (0 <= IZR (Z.of_nat n) <= 1125899906842624)%R as Hn0 by (split; apply IZR_le; lia).
  assert (0 <= IZR (Z.of_nat n) / IZR (rate window) <= 1125899906842624)%R as Hq.
  { split; [apply Rmult_le_pos; [lra|]; apply Rlt_le, Rinv_0_lt_compat; lra|].
    apply Rmult_le_reg_r with (IZR (rate window)); [lra|]. unfold Rdiv. rewrite Rmult_assoc, Rinv_l by lra. nra. }
  assert (9007199254740992 <= pow2 960)%R as H960.
  { apply Rle_trans with (pow2 53); [|by apply pow2_le]. rewrite <- pow2_IZR by done. apply IZR_le. lia. }
  destruct (div_close (F64.of_int (Z.of_nat n)) (F64.of_int (rate window))) as [Hd Hc]; [done..| | |].
  { apply normal_of_value; [done|]. rewrite Vr. lra. }
  { rewrite Vn, Vr. rewrite Rabs_pos_eq by lra. lra. }
  rewrite Vn, Vr in Hc. rewrite (Rabs_pos_eq (IZR (Z.of_nat n) / IZR (rate window))) in Hc by lra.
  assert (pow2 (-52) <= 1)%R as Hp1 by (change 1%R with (pow2 0); by apply pow2_le).
  assert (pow2 (-1074) <= 1)%R as Hp2 by (change 1%R with (pow2 0); by apply pow2_le).
  pose proof (pow2_pos (-52)) as Hp3.
  set (d := F64.div _ _) in *. set (q := (IZR (Z.of_nat n) / IZR (rate window))%R) in *.
  assert (q * pow2 (-52) <= q)%R as Hq' by nra.
  pose proof (Rle_abs (value d - q)) as Ha. pose proof (Rle_abs (- (value d - q))) as Ha'. rewrite Rabs_Ropp in Ha'.
  apply add_close; [done..|]. apply Rabs_le. lra.
Qed.

(** ** What the reads deliver *)

Lemma runs_from window offset threshold minimum n frame rs r :
  r ∈ runs window offset threshold minimum n frame rs -> (forall b, rs = Some b -> (b <= frame)%nat) ->
  exists b e, (b <= frame + n)%nat /\ (e <= frame + n)%nat /\ r ∈ push_run window offset minimum b e.
Proof.
  revert frame rs. induction n as [|n IH]; intros frame rs Hin Hrs; cbn [runs] in Hin.
  - destruct rs as [b|]; [|by apply elem_of_nil in Hin]. exists b, frame. specialize (Hrs b eq_refl). split_and!; [lia..|done].
  - assert (forall rs', (forall b, rs' = Some b -> (b <= frame)%nat) -> r ∈ runs window offset threshold minimum n (S frame) rs' ->
      exists b e, (b <= frame + S n)%nat /\ (e <= frame + S n)%nat /\ r ∈ push_run window offset minimum b e) as Hnext.
    { intros rs' Hrs' Hr. destruct (IH (S frame) rs' Hr) as (b & e & Hb & He & Hp).
      - intros b Hb. specialize (Hrs' b Hb). lia.
      - exists b, e. split_and!; [lia..|done]. }
    destruct (quiet _ _ _), rs as [b|].
    + by apply (Hnext (Some b)).
    + apply (Hnext (Some frame)); [|done]. intros ? [= <-]. lia.
    + apply elem_of_app in Hin as [Hin|Hin]; [|by apply (Hnext None)]. exists b, frame. specialize (Hrs b eq_refl). split_and!; [lia..|done].
    + by apply (Hnext None).
Qed.
Lemma i16s_length data : (length (i16s data) <= length data)%nat.
Proof.
  assert (forall n data, (length data <= n)%nat -> (length (i16s data) <= length data)%nat) as Hn; [|by apply (Hn (length data))].
  clear data. induction n as [|n IH]; intros [|a [|b data]] Hd; cbn [i16s length] in *; try lia. specialize (IH data). lia.
Qed.
Lemma on_audio_fold got w :
  0 <= rate w < 2 ^ 32 ->
  let w' := fold_left on_audio got w in
  0 <= rate w' < 2 ^ 32
  /\ (length (samples w') <= length (samples w) + length (concat (map (fun s => default [] (as_data s)) got)))%nat.
Proof.
  revert w. induction got as [|s got IH]; intros w Hw; cbn [fold_left map concat]; [cbn [length]; lia|].
  assert (0 <= rate (on_audio w s) < 2 ^ 32
    /\ (length (samples (on_audio w s)) <= length (samples w) + length (default [] (as_data s)))%nat) as [Hr Hl].
  { unfold on_audio. assert (forall z, 0 <= wrap 32 z < 2 ^ 32) as Hwrap by (intros; apply Z.mod_pos_bound; lia).
    destruct (rate w =? 0), (as_caps s) as [[r c]|], (as_data s) as [d|]; cbn [rate samples length];
      rewrite ?length_app; try pose proof (i16s_length d); (split; [by try apply Hwrap|]); cbv [from_option Datatypes.id] in *; cbn [length] in *; lia. }
  destruct (IH (on_audio w s) Hr) as [Hr' Hl']. split; [done|]. rewrite length_app. lia.
Qed.
Lemma audio_window_bound now m a b w :
  audio_window now m a b = Ok w -> 0 < rate w < 2 ^ 32 /\ Z.of_nat (length (samples w)) <= 2 ^ 50.
Proof.
  unfold audio_window. pose proof (sane_audio now m (nseconds a) (nseconds b)) as Ha.
  destruct (run_audio _ _ _ _) as [got ended]. cbn [fst] in Ha. destruct ended; [|done]. cbn [ensure].
  destruct (on_audio_fold got (mkAudioWindow 0 2 [])) as [Hr Hl]; [done|]. cbn [samples length] in Hl.
  destruct (Z.eqb_spec (rate (fold_left on_audio got (mkAudioWindow 0 2 []))) 0) as [|Hne]; [done|]. cbn [negb ensure].
  intros [= <-]. lia.
Qed.
Lemma detect_sound now m a b noise minimum found r :
  ok a -> (-1000 <= value a <= 12600000)%R -> detect now m a b noise minimum = Ok found -> r ∈ found ->
  ok (r_start r) /\ ok (r_end r).
Proof.
  intros Ha Va Hd Hr. unfold detect in Hd. destruct (audio_window now m a b) as [w|] eqn:Hw; [|done]. injection Hd as <-.
  destruct (audio_window_bound _ _ _ _ _ Hw) as [Hrate Hlen]. unfold detect_samples in Hr.
  destruct (runs_from _ _ _ _ _ _ _ _ Hr) as (bg & en & Hbg & Hen & Hp); [done|].
  assert (frames w <= length (samples w))%nat.
  { unfold frames. apply Nat.Div0.div_le_upper_bound. unfold frame_width. destruct (Z.to_nat (Z.max (channels w) 1)) eqn:E; lia. }
  eapply push_run_sound; [| |exact Hrate| | |exact Hp]; [done..|lia|lia].
Qed.
Lemma keyframes_sound now m a b found t :
  ok b -> (-1000 <= value b <= 5000000)%R -> keyframes_window now m a b = Ok found -> t ∈ found ->
  ok t /\ (0 <= value t)%R /\ fge t a = true /\ fle t b = true.
Proof.
  intros Hb Vb Hk Ht. unfold keyframes_window in Hk. pose proof (sane_keys now m (nseconds a) (nseconds b)) as Hs.
  destruct (run_keys _ _ _ _) as [got ended]. cbn [fst] in Hs. destruct (ended && _); [|done]. cbn [ensure] in Hk. injection Hk as <-.
  apply list_elem_of_In, filter_In in Ht as [Ht Hab]. apply andb_true_iff in Hab as [Hta Htb].
  apply list_elem_of_In, list_elem_of_omap in Ht as (s & Hin & Hks). unfold key_time in Hks. destruct (k_raw s); [done|].
  destruct (k_buffer s) as [[[] [p|]]|] eqn:Hkb; try done. injection Hks as <-.
  destruct (nseconds_bound b Hb Vb) as (_ & _ & Hn). specialize (Hs s false p Hin Hkb).
  destruct (seconds_near p) as [[Hok _] Hpos]; [lia|]. by split_and!.
Qed.

(** ** The refined end *)

Lemma lit_5 : ok (adjust_window_inward cfg) /\ value (adjust_window_inward cfg) = 5%R.
Proof. constant 5. Qed.
Lemma outward_2 : ok (adjust_window_outward cfg) /\ value (adjust_window_outward cfg) = 2%R.
Proof. constant 2. Qed.
Lemma fge_fle x y : fge x y = fle y x.
Proof. done. Qed.

Definition in_window (w : Range) (t : float) : Prop := fge t (r_start w) = true /\ fle t (r_end w) = true.

(** The search's window about an end: five seconds before it and two after,
    within the file. *)
Definition about_end (e : Episode (Media := Media)) (end_ : float) : Range :=
  mkRange (fmax (F64.sub end_ (F64.lit 5 0)) fzero) (fmin (F64.add end_ (F64.lit 2 0)) (ep_duration e)).
(** Two seconds from the file's own edges, and a millisecond. *)
Definition near_start (start : float) : bool := fle start (F64.add (F64.lit 2 0) EPSILON).
Definition near_end (e : Episode (Media := Media)) (end_ : float) : bool :=
  fge end_ (F64.sub (F64.sub (ep_duration e) (F64.lit 2 0)) EPSILON).
(** A pause of a third of a second that starts in the window. *)
Definition pause_in (w r : Range) : Prop :=
  fle (r_start w) (r_start r) = true /\ flt (r_start r) (r_end w) = true
  /\ flt (r_start w) (r_end r) = true /\ fle (F64.lit 33 (-2)) (duration r) = true.
(** The start of the first pause, or the end as it was. *)
Inductive quiet_end (w : Range) (end_ : float) : list Range -> float -> Prop :=
  | quiet_first before r after :
      Forall (fun r => ~ pause_in w r) before -> pause_in w r -> quiet_end w end_ (before ++ r :: after) (r_start r)
  | quiet_none found : Forall (fun r => ~ pause_in w r) found -> quiet_end w end_ found end_.
(** The nearest keyframe, the first of equals, or the end as it was. *)
Inductive key_end (end_ : float) : list float -> float -> Prop :=
  | key_none : key_end end_ [] end_
  | key_nearest before k after :
      Forall (fun a => flt (fabs (F64.sub k end_)) (fabs (F64.sub a end_)) = true) before ->
      Forall (fun a => flt (fabs (F64.sub a end_)) (fabs (F64.sub k end_)) = false) after ->
      key_end end_ (before ++ k :: after) k.
(** What a reading of the file says of an end, which a failed one leaves. *)
Definition told {A} (reading : nat -> result Trouble A) (says : A -> float -> Prop) (end_ t : float) : Prop :=
  (exists now found, reading now = Ok found /\ says found t) \/ ((exists now err, reading now = Err err) /\ t = end_).
(** Where an end settles: at the file's, or at the pause and then the keyframe
    that the file has about it. *)
Definition settled (e : Episode (Media := Media)) (end_ t : float) : Prop :=
  if near_end e end_ then t = ep_duration e
  else
    let w := about_end e end_ in
    exists mid,
      told (fun now => detect now (media e) (r_start w) (r_end w) (F64.lit_neg 50 0) (F64.lit 1 (-1)))
        (quiet_end w end_) end_ mid
      /\ told (fun now => keyframes_window now (media e) (r_start w) (r_end w)) (fun keys => key_end mid keys) mid t.
(** A region with its edges settled, unless that turns it around. *)
Definition refined (e : Episode (Media := Media)) (region r : Range) : Prop :=
  exists end_, settled e (r_end region) end_
  /\ let start := if near_start (r_start region) then fzero else r_start region in
     r = if fge start end_ then region else mkRange start end_.

Lemma about_window e end_ : refinement_window cfg (ep_duration e) end_ = about_end e end_.
Proof.
  unfold refinement_window, about_end.
  assert (adjust_window_inward cfg = F64.lit 5 0) as -> by (by vm_compute).
  by assert (adjust_window_outward cfg = F64.lit 2 0) as -> by (by vm_compute).
Qed.
Lemma start_settled start : ok start -> to_start cfg start = if near_start start then fzero else start.
Proof.
  intros Hs. unfold to_start, near_start. change (end_snap_threshold cfg) with (F64.lit 2 0).
  destruct (fle start _) eqn:Hle; [by rewrite orb_true_r|]. destruct (flt start fzero) eqn:Hlt; [|done].
  assert (ok (F64.add (F64.lit 2 0) EPSILON) /\ (0 <= value (F64.add (F64.lit 2 0) EPSILON))%R) as [Ho Vo].
  { split; [by vm_compute|]. assert (exists m e, F64.add (F64.lit 2 0) EPSILON = S754_finite false m e) as (m & ex & ->).
    { eexists _, _. by vm_compute. }
    cbn [value sign]. pose proof (pow2_pos ex). assert (0 <= IZR (Zpos m))%R by (by apply IZR_le). nra. }
  assert (fle start (F64.add (F64.lit 2 0) EPSILON) = true); [|congruence].
  apply flt_value in Hlt; [|done..]. apply fle_value; [done..|]. cbn [value fzero] in Hlt. lra.
Qed.
Lemma first_pause_quiet w end_ found : quiet_end w end_ found (map_or end_ r_start (first_pause cfg w found)).
Proof.
  assert (forall r, (flt (r_start r) (r_end w) && flt (r_start w) (r_end r)
      && fge (duration r) (silence_minimum_duration cfg) && fge (r_start r) (r_start w)) = true <-> pause_in w r) as Hp.
  { intros r. unfold pause_in. rewrite !andb_true_iff. change (fge (r_start r) (r_start w)) with (fle (r_start w) (r_start r)).
    change (fge (duration r) (silence_minimum_duration cfg)) with (fle (F64.lit 33 (-2)) (duration r)). tauto. }
  unfold first_pause. set (f := fun r : Range => _). assert (forall r, f r = true <-> pause_in w r) as Hf by exact Hp.
  clearbody f. clear Hp. induction found as [|r found IH]; cbn [List.find map_or]; [by constructor|].
  destruct (f r) eqn:Hr; cbn [map_or]; [apply (quiet_first w end_ []); [done|by apply Hf]|].
  assert (~ pause_in w r) as Hn by (rewrite <- Hf, Hr; done).
  destruct IH as [before r' after Hb Hr'|found Hb].
  - apply (quiet_first w end_ (r :: before)); [by constructor|done].
  - apply quiet_none. by constructor.
Qed.

Lemma window_sound dur end_ :
  ok dur -> (0 <= value dur <= 4194304)%R -> sound_time end_ ->
  let w := refinement_window cfg dur end_ in
  (ok (r_start w) /\ (0 <= value (r_start w) <= 12600000)%R) /\ (ok (r_end w) /\ (0 <= value (r_end w) <= 4194304)%R).
Proof.
  intros Hd Vd [He Ve] w. destruct lit_5 as [H5 V5], outward_2 as [H2 V2]. unfold w, refinement_window. cbn [r_start r_end].
  destruct (sub_near end_ (adjust_window_inward cfg)) as [Hs Vs]; [done..|rewrite V5; lra|].
  destruct (add_near end_ (adjust_window_outward cfg)) as [Ha Va]; [done..|rewrite V2; lra|]. rewrite V5 in Vs. rewrite V2 in Va.
  destruct (fmax_value (F64.sub end_ (adjust_window_inward cfg)) fzero Hs ltac:(done)) as [Hm Vm].
  destruct (fmin_value (F64.add end_ (adjust_window_outward cfg)) dur Ha Hd) as [Hn Vn]. cbn [value fzero] in Vm.
  unfold Rmax in Vm. unfold Rmin in Vn. split; (split; [done|]); destruct (Rle_dec _ 0), (Rle_dec _ (value dur)); lra.
Qed.
Lemma in_window_sound dur end_ t :
  ok dur -> (0 <= value dur <= 4194304)%R -> sound_time end_ -> ok t ->
  in_window (refinement_window cfg dur end_) t -> sound_time t.
Proof.
  intros Hd Vd He Ht [Hlo Hhi]. destruct (window_sound dur end_ Hd Vd He) as [[Hs Vs] [Hn Vn]].
  rewrite fge_fle in Hlo. apply fle_value in Hlo, Hhi; [|done..]. split; [done|]. lra.
Qed.

Lemma distance_ok end_ k : sound_time end_ -> sound_time k -> ok (distance end_ k).
Proof.
  intros [He Ve] [Hk Vk]. unfold distance. destruct (sub_near k end_) as [Hs _]; [done..|lra|].
  destruct Hs as [Hf Hb]. by destruct (F64.sub k end_) as [| | |[] ? ?].
Qed.
(** The fold of [min_by]: its start, or the first of the nearest. *)
Lemma nearest_fold end_ l b :
  sound_time end_ -> sound_time b -> Forall sound_time l ->
  exists k, fold_left (fun best a => match best with
      | None => Some a | Some b => if flt (distance end_ a) (distance end_ b) then Some a else best end) l (Some b) = Some k
    /\ exists before after, b :: l = before ++ k :: after
       /\ Forall (fun a => flt (distance end_ k) (distance end_ a) = true) before
       /\ Forall (fun a => flt (distance end_ a) (distance end_ k) = false) after.
Proof.
  intros He. revert b. induction l as [|a l IH]; intros b Hb Hl; cbn [fold_left]; [exists b; split; [done|]; by exists [], []|].
  apply Forall_cons in Hl as [Ha Hl]. pose proof (distance_ok _ _ He Ha) as Oa. pose proof (distance_ok _ _ He Hb) as Ob.
  destruct (flt (distance end_ a) (distance end_ b)) eqn:Hab.
  - destruct (IH a Ha Hl) as (k & Hk & before & after & Heq & Hbe & Haf). exists k. split; [done|].
    exists (b :: before), after. split; [by rewrite Heq|]. split; [|done]. constructor; [|done].
    destruct before as [|a' before]; [by injection Heq as -> _|]. injection Heq as <- _. apply Forall_cons in Hbe as [Hka _].
    exact (flt_fle_trans _ _ _ Hka (flt_fle _ _ Hab)).
  - destruct (IH b Hb Hl) as (k & Hk & before & after & Heq & Hbe & Haf). exists k. split; [done|].
    destruct before as [|b' before]; injection Heq as <- Heq.
    + exists [], (a :: l). split; [done|]. split; [done|]. constructor; [done|by rewrite Heq].
    + apply Forall_cons in Hbe as [Hkb Hbe]. exists (b :: a :: before), after. split; [by rewrite Heq|]. split; [|done].
      constructor; [done|]. constructor; [|done].
      assert (sound_time k) as Hks by (rewrite Forall_forall in Hl; apply Hl; rewrite Heq; apply elem_of_app; right; left).
      pose proof (distance_ok _ _ He Hks) as Ok. apply flt_value; [done..|]. apply flt_value in Hkb; [|done..].
      assert (~ (value (distance end_ a) < value (distance end_ b))%R) by (rewrite <- flt_value by done; by rewrite Hab). lra.
Qed.
Lemma nearest_spec end_ keyframes :
  sound_time end_ -> Forall sound_time keyframes ->
  exists o, nearest end_ keyframes = Ok o /\ key_end end_ keyframes (unwrap_or o end_).
Proof.
  intros He Hk. unfold nearest. rewrite sorts_lasts; cbn [ensure].
  - destruct keyframes as [|k l]; [eexists; split; [done|constructor]|]. apply Forall_cons in Hk as [Hk Hl].
    cbn [fold_left]. destruct (nearest_fold end_ l k He Hk Hl) as (n & -> & before & after & -> & Hb & Ha).
    eexists. split; [done|]. by constructor.
  - eapply Forall_impl; [exact Hk|]. intros k Hs. by apply ok_not_nan, distance_ok.
Qed.

Section Adjust.
Context (i : nat) (e : Episode (Media := Media)) (region : Range).
Hypothesis here : episodes !! i = Some e.
Hypothesis region_sound : sound_range region.
Let window := about_end e (r_end region).
Definition end_ok (t : float) : Prop := sound_time t /\ (t = r_end region \/ in_window window t).
Definition pauses := told (fun now => detect now (media e) (r_start window) (r_end window) (F64.lit_neg 50 0) (F64.lit 1 (-1)))
  (quiet_end window (r_end region)) (r_end region).
Definition keys (mid : float) :=
  told (fun now => keyframes_window now (media e) (r_start window) (r_end window)) (fun keys => key_end mid keys) mid.

Lemma episode_here : episode_ok e.
Proof. eapply Forall_lookup_1; [exact episodes_ok|exact here]. Qed.

Lemma window_here :
  (ok (r_start window) /\ (0 <= value (r_start window) <= 12600000)%R) /\ (ok (r_end window) /\ (0 <= value (r_end window) <= 4194304)%R).
Proof.
  destruct episode_here as [Hd Vd]. destruct region_sound as [_ He]. unfold window. rewrite <- about_window. by apply window_sound.
Qed.
Lemma in_window_here t : ok t -> in_window window t -> sound_time t.
Proof.
  intros Ht Hw. destruct episode_here as [Hd Vd]. destruct region_sound as [_ He]. unfold window in Hw.
  rewrite <- about_window in Hw. by eapply in_window_sound.
Qed.

Lemma refine_silence_ok :
  sat (refine_silence cfg e i window (r_end region)) Inv (fun t s => (end_ok t /\ pauses t) /\ Inv s) Stop.
Proof.
  destruct window_here as [[Hs Vs] [Hn Vn]].
  assert (end_ok (r_end region)) as Hself by (split; [apply region_sound|by left]).
  unfold refine_silence. cbn [adjust_on_silence cfg]. eapply sat_bind.
  { apply (sat_reading i e); [done|]. intros now. apply detect_tame. }
  intros [found|err].
  - intros s [Hs' [now Hfound]]. cbn. split; [|done].
    split; [|left; exists now, found; split; [exact Hfound|apply first_pause_quiet]].
    destruct (first_pause cfg window found) as [r|] eqn:Hr; [|done].
    cbn [map_or]. apply List.find_some in Hr as [Hin Hc]. apply list_elem_of_In in Hin.
    apply andb_true_iff in Hc as [Hc Hlo]. apply andb_true_iff in Hc as [Hc _]. apply andb_true_iff in Hc as [Hhi _].
    eapply detect_sound in Hfound as [Hok _]; [|done|lra|exact Hin].
    assert (in_window window (r_start r)) as Hw by (split; [done|by apply flt_fle]).
    split; [|by right]. by apply in_window_here.
  - eapply sat_bind with (R := fun _ s => pauses (r_end region) /\ Inv s); [|intros []; by apply sat_ret; intros s [Hp Hi]].
    intros s [Hp Hf]. pose proof (sat_mark i s Hp) as Hm. destruct (mark i s) as [[[]|]]; [|done].
    split; [|done]. by right.
Qed.
Lemma refine_keyframe_ok t :
  end_ok t -> sat (refine_keyframe cfg e i window t) Inv (fun t' s => (end_ok t' /\ keys t t') /\ Inv s) Stop.
Proof.
  intros Ht. destruct window_here as [[Hs Vs] [Hn Vn]].
  unfold refine_keyframe. cbn [snap_to_keyframe cfg]. eapply sat_bind.
  { apply (sat_reading i e); [done|]. intros now. apply keyframes_tame. }
  intros [found|err].
  - intros s [Hs' [now Hfound]].
    assert (forall k, k ∈ found -> end_ok k) as Hk.
    { intros k Hin. pose proof Hfound as Hk. eapply keyframes_sound in Hk as (Hok & _ & Hlo & Hhi); [|done|lra|exact Hin].
      assert (in_window window k) as Hw by done. split; [|by right]. by apply in_window_here. }
    destruct (nearest_spec t found) as (o & Ho & Hend); [by apply Ht|apply Forall_forall; intros k Hink; by apply Hk|].
    unfold bind, lift. rewrite Ho. cbn. split; [|done]. split; [|left; by exists now, found].
    destruct Hend as [|before k after _ _]; [done|]. apply Hk, elem_of_app. right. left.
  - eapply sat_bind with (R := fun _ s => keys t t /\ Inv s); [|intros []; by apply sat_ret; intros s [Hp Hi]].
    intros s [Hp Hf]. pose proof (sat_mark i s Hp) as Hm. destruct (mark i s) as [[[]|]]; [|done].
    split; [|done]. by right.
Qed.
(** Wherever an end settles is the end of the file or about where it was. *)
Lemma settled_within t :
  settled e (r_end region) t -> t = ep_duration e \/ t = r_end region \/ in_window window t.
Proof.
  unfold settled. destruct (near_end e (r_end region)); [by left|]. fold window. intros (mid & Hmid & Ht). right.
  assert (mid = r_end region \/ in_window window mid) as Hm.
  { destruct Hmid as [(now & found & _ & Hq)|[_ ->]]; [|by left].
    destruct Hq as [before r after _ (H1 & H2 & _)|]; [right|by left]. split; [done|by apply flt_fle]. }
  destruct Ht as [(now & found & Hk & Hend)|[_ ->]]; [|done]. destruct Hend as [|before k after _ _]; [done|right].
  destruct window_here as [_ [Hn Vn]].
  eapply keyframes_sound in Hk as (_ & _ & Hlo & Hhi); [by split|done|lra|]. apply elem_of_app. right. left.
Qed.
(** An end settles as the file says, and a range that this turns around stays
    as it was. *)
Lemma adjust_ok :
  sat (adjust cfg e region i) Inv (fun r s => (sound_range r /\ refined e region r) /\ Inv s) Stop.
Proof.
  destruct episode_here as [Hd Vd], region_sound as [Hst He]. unfold adjust.
  eapply sat_bind with (R := fun t s => (sound_time t /\ settled e (r_end region) t) /\ Inv s).
  - unfold settled. change (fge (r_end region) _) with (near_end e (r_end region)).
    destruct (near_end e (r_end region)); [apply sat_ret; intros s Hs; split; [|done]; split; [split; [done|lra]|done]|].
    rewrite about_window. fold window.
    eapply sat_bind; [apply refine_silence_ok|]. intros mid s [[Ht Hp] Hs].
    pose proof (refine_keyframe_ok mid Ht s Hs) as Hk. destruct (refine_keyframe cfg e i window mid s) as [[t'|err] s']; [|done].
    destruct Hk as [[[Hk1 _] Hk2] Hk3]. split; [|done]. split; [done|]. by exists mid.
  - intros t s [[Ht Hc] Hs]. cbn. split; [|done]. rewrite start_settled by apply Hst.
    split; [|by exists t].
    assert (sound_time (if near_start (r_start region) then fzero else r_start region)) as Hto.
    { destruct (near_start _); [|done]. split; [done|]. cbn [value fzero]. lra. }
    by destruct (fge _ t).
Qed.
End Adjust.
End Analysis.
