(* ===== verification/SeasonTheorems.v ===== *)
(** * The season's passes: proofs

    Each pass of the analysis against the invariant of SeasonSafety.v: the
    credits by black frames, the pairwise search, the recap, and the whole. *)
From Stdlib Require Import SpecFloat Reals Lra.
From S2P Require Import Prelude Floats Utf8 Segments Decode Chroma FloatReal ChromaTheorems Season SeasonFacts SeasonSafety.
#[local] Open Scope Z_scope.

Section Passes.
Context {Media : Type} `{!Pipelines Media} `{!Sane Media} `{Hashed : !Hashing}.
Context (episodes : list (Episode (Media := Media))) (is_anime : bool).
Let cfg := config_default is_anime.
Hypothesis episodes_ok : Forall episode_ok episodes.
#[local] Notation Inv := (Inv episodes).
#[local] Notation Pending := (Pending episodes).

(** A failed read of episode [i] stops a pass over it. *)
Definition Gives_up (i : nat) (err : Trouble) (s : St (Media := Media)) : Prop := err = Failed /\ Pending i s.

(** ** Credits by black frames *)

Section Black.
Context (i : nat) (e : Episode (Media := Media)).
Hypothesis here : episodes !! i = Some e.

Lemma probe_reads a b :
  sat (decode_probe (media e) (black cfg) a b) Inv
    (fun l s => Inv s /\ forall t, t ∈ l -> exists f, t = fmax (F64.sub (time f) a) fzero
       /\ (time f = S754_nan \/ exists ns, 0 <= ns <= nseconds b /\ time f = seconds ns)) (Gives_up i).
Proof.
  unfold decode_probe. eapply sat_bind.
  { apply (sat_read episodes i e); [done|]. intros now. apply luma_window_tame. }
  intros frames s [Hs [now Hf]]. cbn. split; [done|]. intros t Ht.
  apply list_elem_of_fmap in Ht as (f & -> & Hin). apply list_elem_of_In, filter_In in Hin as [Hin _].
  exists f. split; [done|]. eapply luma_window_times; [exact Hf|by apply list_elem_of_In].
Qed.
Lemma probe_keeps a b : sat (decode_probe (media e) (black cfg) a b) Inv (fun _ s => Inv s) (Gives_up i).
Proof. eapply sat_weaken; [apply probe_reads|done| |done]. by intros l s [Hs _]. Qed.
Lemma probe_sees a b :
  ok a -> (-1 <= value a <= 4500000)%R -> near (value a + 2) b ->
  sat (decode_probe (media e) (black cfg) a b) Inv (fun l s => Inv s /\ Forall seen l) (Gives_up i).
Proof.
  intros Ha Va Hb. eapply sat_weaken; [apply probe_reads|done| |done]. intros l s [Hs Hl]. split; [done|].
  apply Forall_forall. intros t Ht. destruct (Hl t Ht) as (f & -> & Hf). by apply (probed_seen a b).
Qed.

Let start := fst (credits_window cfg e).
Let cap := F64.sub (ep_duration e) start.
Lemma lit_450 : ok (maximum_credits_duration cfg) /\ value (maximum_credits_duration cfg) = 450%R.
Proof. constant 450. Qed.
Lemma lit_45 : ok (F64.mul (F64.lit 3 0) (minimum_credits_duration black_default))
  /\ value (F64.mul (F64.lit 3 0) (minimum_credits_duration black_default)) = 45%R.
Proof. constant 45. Qed.

Lemma here_ok : episode_ok e.
Proof. eapply Forall_lookup_1; [exact episodes_ok|exact here]. Qed.
Lemma window_cap :
  ok start /\ (0 <= value start <= value (ep_duration e) + 1 / 100000)%R /\ ok cap
  /\ (-1 / 1000 <= value cap <= 450 + 1 / 1000)%R /\ (value cap <= value (ep_duration e) + 1 / 100000)%R
  /\ near (value (ep_duration e) - value start) cap.
Proof.
  destruct here_ok as [Hd Vd], lit_450 as [H4 V4].
  destruct (fmin_value (ep_duration e) (maximum_credits_duration cfg) Hd H4) as [Hm Vm]. rewrite V4 in Vm.
  destruct (sub_near (ep_duration e) (fmin (ep_duration e) (maximum_credits_duration cfg))) as [Hs Vs]; [done..| |].
  { unfold Rmin in Vm. destruct (Rle_dec _ _); lra. }
  destruct (fmax_value _ fzero Hs ltac:(done)) as [Hx Vx].
  change (fmax (F64.sub (ep_duration e) (fmin (ep_duration e) (maximum_credits_duration cfg))) fzero) with start in Hx, Vx.
  cbn [value fzero] in Vx.
  assert (0 <= value start <= value (ep_duration e) + 1 / 100000)%R as Vstart.
  { unfold Rmin in Vm. unfold Rmax in Vx. destruct (Rle_dec _ 450), (Rle_dec _ 0); lra. }
  destruct (sub_near (ep_duration e) start) as [Hc Vc]; [done..|lra|]. fold cap in Hc, Vc.
  split_and!; [done|lra|lra|done| | |lra|by split];
    unfold Rmin in Vm; unfold Rmax in Vx; destruct (Rle_dec _ 450), (Rle_dec _ 0); lra.
Qed.

(** Credits run to the end of the episode; they start in its last 450 seconds
    (by more than the rounding of a float) and fifteen seconds before the end at
    the latest. *)
Definition black_range (r : Range) : Prop :=
  r_end r = ep_duration e /\ ok (r_start r) /\ (0 < value (r_start r))%R
  /\ (value (ep_duration e) - 450 + 9 / 10 <= value (r_start r) <= value (ep_duration e) - 15 + 1 / 10000)%R.

Lemma set_position x : ok x -> (-1 <= value x <= 500)%R -> sat (set_search_start (Media := Media) x) Inv (fun _ => Inv) (Gives_up i).
Proof. intros Hx Vx s [Hex _]. split; [exact Hex|]. done. Qed.
Lemma get_position :
  sat (get_search_start (Media := Media)) Inv (fun x s => (ok x /\ (-1 <= value x <= 500)%R) /\ Inv s) (Gives_up i).
Proof. intros s [Hex [Ho Hv]]. done. Qed.
(** A position carried from one episode to the next is used, or replaced, and
    what it becomes is a position again. *)
Lemma black_frame_ok :
  sat (black_frame_credits cfg e) Inv (fun r s => (forall range, r = Some range -> black_range range) /\ Inv s) (Gives_up i).
Proof.
  destruct here_ok as [Hd Vd], window_cap as (Hs & Vs & Hc & Vc & Vcd & [_ Vcap]). pose proof credits_minimum as [H15 V15].
  destruct lit_45 as [H45 V45].
  unfold black_frame_credits. destruct (fle (ep_duration e) fzero); [by apply sat_ret|].
  change (credits_window cfg e) with (start, ep_duration e). cbv iota beta. fold cap.
  eapply sat_bind; [apply get_position|]. intros p0.
  eapply sat_bind with (R := fun _ => Inv).
  { apply sat_and; intros [Hp0 Vp0]. destruct (fgt p0 cap); [|by apply sat_ret]. apply set_position; [done|]. cbn [value fzero]. lra. }
  intros _. eapply sat_bind; [apply get_position|]. intros p1.
  eapply sat_bind with (R := fun _ => Inv).
  { apply sat_and; intros [Hp1 Vp1]. destruct (flt p1 _); [|by apply sat_ret]. eapply sat_bind.
    - apply search_start_ends; [by intros; apply probe_keeps|done| |exact H45| |]; fold cap;
        change (minimum_credits_duration (black cfg)) with (minimum_credits_duration black_default); rewrite ?V45; [lra..|].
      unfold black_fuel. rewrite INR_IZR_INZ. change (Z.of_nat 500) with 500. lra.
    - intros p s (Hs' & Hp & Vp & Hp'). fold cap in Vp, Hp'. apply set_position; [done| |done]. destruct Hp' as [Hp'| ->]; lra. }
  intros _. eapply sat_bind; [apply get_position|]. intros p. apply sat_and; intros [Hp Vp].
  eapply sat_bind.
  { apply find_credits_ends; fold cap; try done; try lra. intros. by apply probe_sees. }
  intros found s [Hinv Hfound]. fold cap in Hfound.
  assert (forall range, found = Some range -> black_range range) as Hb.
  { intros range Hr. destruct (Hfound range Hr) as (He & Hpos & Ho & Vo). split; [done|]. split; [done|].
    apply flt_value in Hpos; [|done..]. cbn [value fzero] in Hpos. fold cap in Vo. split; [done|]. lra. }
  destruct found as [credit|]; [|by split].
  destruct (Hb credit eq_refl) as (He & Ho & V0 & Vo).
  destruct (sub_near (ep_duration e) (r_start credit)) as [Hs1 Vs1]; [done..|lra|].
  destruct (add_near (F64.sub (ep_duration e) (r_start credit)) (minimum_credits_duration (black cfg))) as [Hs2 Vs2]; [done..| |].
  { change (minimum_credits_duration (black cfg)) with (minimum_credits_duration black_default). rewrite V15. lra. }
  change (minimum_credits_duration (black cfg)) with (minimum_credits_duration black_default) in Hs2, Vs2. rewrite V15 in Vs2.
  split; [done|]. apply (set_position (F64.add (F64.sub (ep_duration e) (r_start credit))
    (minimum_credits_duration black_default))); [done|lra|done].
Qed.
End Black.

(** ** The queue *)

Lemma comparable_range i j : comparable episodes i j = true -> (i < length episodes)%nat /\ (j < length episodes)%nat.
Proof.
  unfold comparable. destruct (episodes !! i) eqn:Hi, (episodes !! j) eqn:Hj; try done.
  intros _. split; by eapply lookup_lt_Some.
Qed.
Lemma neighbour_spec first queue n :
  neighbour episodes first queue = Some n -> comparable episodes first n = true /\ n ∉ queue.
Proof.
  unfold neighbour. set (candidates := List.filter _ _). intros Hn.
  assert (forall l o, fold_left (fun best i => match best with None => Some i
    | Some b => if (abs_diff i first <? abs_diff b first)%nat then Some i else best end) l o = Some n -> o = Some n \/ n ∈ l) as Hfold.
  { induction l as [|a l IH]; intros o Ho; cbn [fold_left] in Ho; [by left|].
    apply IH in Ho as [Ho|Ho]; [|right; by right]. destruct o as [b|]; [|right; injection Ho as ->; left].
    destruct (_ <? _)%nat; [right; injection Ho as ->; left|by left]. }
  apply Hfold in Hn as [Hn|Hn]; [done|]. apply list_elem_of_In, filter_In in Hn as [_ Hn].
  apply andb_true_iff in Hn as [Hq Hc]. apply negb_true_iff, bool_decide_eq_false in Hq. done.
Qed.
(** Every index of a queue is in range, and none comes twice. *)
Lemma queue_in_range wanted :
  NoDup wanted -> (forall i, i ∈ wanted -> (i < length episodes)%nat) ->
  NoDup (search_queue episodes wanted) /\ forall i, i ∈ search_queue episodes wanted -> (i < length episodes)%nat.
Proof.
  intros Hnd Hr. unfold search_queue. destruct wanted as [|first rest]; [done|]. set (wanted := first :: rest) in *.
  destruct (existsb _ wanted); [done|]. destruct (neighbour episodes first wanted) as [n|] eqn:Hn; [|done].
  apply neighbour_spec in Hn as [Hc Hq]. apply comparable_range in Hc as [_ Hc]. split.
  - apply NoDup_app. split; [done|]. split; [|apply NoDup_singleton]. intros x Hx ->%list_elem_of_singleton. done.
  - intros i [Hi|Hi]%elem_of_app; [by apply Hr|]. by apply list_elem_of_singleton in Hi as ->.
Qed.
Lemma queue_wanted wanted i : i ∈ wanted -> i ∈ search_queue episodes wanted.
Proof.
  intros Hi. unfold search_queue. destruct wanted as [|first rest]; [done|].
  destruct (existsb _ _); [done|]. destruct (neighbour _ _ _); [|done]. apply elem_of_app. by left.
Qed.
Lemma indices_range i : i ∈ indices episodes <-> (i < length episodes)%nat.
Proof. unfold indices. rewrite elem_of_seq. lia. Qed.
Lemma indices_nodup : NoDup (indices episodes).
Proof. apply NoDup_seq. Qed.
Lemma index_lookup i : (i < length episodes)%nat -> exists e, episodes !! i = Some e.
Proof. apply lookup_lt_is_Some_2. Qed.

(** ** Fingerprints *)

Definition window_of (mode : Mode) (e : Episode (Media := Media)) : float * float :=
  match mode with Intro => intro_window cfg e | Credits => credits_window cfg e end.
(** The points of an episode: the fingerprint of its window, or none when that
    could not be read. *)
Definition taken (mode : Mode) (i : nat) (points : list Z) : Prop :=
  exists e, episodes !! i = Some e
    /\ (points = [] \/ exists now, fingerprint now (media e) (fst (window_of mode e)) (snd (window_of mode e)) = Ok points).
Definition prints_ok (mode : Mode) (prints : gmap nat (list Z)) : Prop :=
  forall i points, prints !! i = Some points -> taken mode i points.
Lemma taken_points mode i points : taken mode i points -> points_ok points.
Proof. intros (e & _ & [->|(now & Hf)]); [done|by eapply fingerprint_points]. Qed.

Lemma fingerprints_ok mode wanted prints :
  (forall i, i ∈ wanted -> (i < length episodes)%nat) -> prints_ok mode prints ->
  sat (fingerprints episodes (windows_for episodes cfg mode) wanted prints) Inv
    (fun prints' s => (prints_ok mode prints' /\ (forall i, i ∈ wanted \/ is_Some (prints !! i) -> is_Some (prints' !! i))) /\ Inv s) Stop.
Proof.
  revert prints. induction wanted as [|i wanted IH]; intros prints Hr Hp; cbn [fingerprints].
  - apply sat_ret. intros s Hs. split; [|done]. split; [done|]. intros i [Hi|Hi]; [by apply elem_of_nil in Hi|done].
  - destruct (index_lookup i) as [e He]; [apply Hr; left|].
    assert (windows_for episodes cfg mode !! i = Some (window_of mode e)) as ->
      by (unfold windows_for; by rewrite list_lookup_fmap, He).
    rewrite He. cbn [ok_or]. eapply sat_bind; [apply sat_between|]. intros [].
    eapply sat_bind; [apply sat_lift_ok|]. intros w. apply sat_and; intros ->.
    eapply sat_bind; [apply sat_lift_ok|]. intros e'. apply sat_and; intros ->.
    eapply sat_bind; [apply (sat_attempt episodes i e); [done|]; intros now; apply fingerprint_tame|]. intros points.
    eapply sat_bind with (R := fun points s => taken mode i points /\ Inv s).
    + destruct points as [points|err].
      * intros s [Hs [now Hf]]. cbn. split; [|done]. exists e. split; [done|]. right. by exists now.
      * eapply sat_bind; [apply sat_mark|]. intros []. apply sat_ret. intros s Hs. split; [|done]. exists e. split; [done|by left].
    + intros pts. apply sat_and; intros Hpts. eapply sat_weaken; [apply IH|done| |done].
      * intros j Hj. apply Hr. by right.
      * intros j points' Hj. apply lookup_insert_Some in Hj as [[<- <-]|[_ Hj]]; [done|by eapply Hp].
      * intros prints' s [[Hp' Hin] Hs]. split; [|done]. split; [done|]. intros j [Hj|Hj].
        -- apply elem_of_cons in Hj as [->|Hj]; [apply Hin; right; rewrite lookup_insert; by destruct (decide (i = i))|apply Hin; by left].
        -- apply Hin. right. destruct (decide (i = j)) as [->|Hne]; [by rewrite lookup_insert_eq|by rewrite lookup_insert_ne].
Qed.

(** ** The pairwise search *)

Lemma compare_sound lhs rhs params sel a b :
  points_ok lhs -> points_ok rhs -> compare_with lhs rhs params sel = Ok (a, b) -> moderate_range a /\ moderate_range b.
Proof.
  intros Hl Hr Hc. destruct (compare_spec lhs rhs params sel Hl Hr) as (a' & b' & Hc' & Hcase).
  rewrite Hc in Hc'. injection Hc' as <- <-.
  assert (moderate_range no_range) as Hno by (split; (split; [done|]); cbn [no_range r_start r_end value fzero]; lra).
  assert (forall r, moderate_range r -> moderate_range (snap r)) as Hsnap.
  { intros r [Hs He]. unfold snap. destruct (fle _ _); [|done]. split; [split; [done|]; cbn [r_start value fzero]; lra|done]. }
  destruct Hcase as [(_ & -> & ->)|(l & r & -> & -> & Hrep)]; [done|].
  destruct sel; cbn [reported] in Hrep.
  - destruct Hrep as ((r' & Hlr) & (l' & Hl'r) & _). apply shared_moderate in Hlr as [Hml _], Hl'r as [_ Hmr]; [|done..].
    split; by apply Hsnap.
  - destruct Hrep as [Hlr _]. apply shared_moderate in Hlr as [Hml Hmr]; [|done..]. split; by apply Hsnap.
Qed.

Section Search.
Context (mode : Mode) (prints : gmap nat (list Z)) (params : SearchParams) (sel : Select) (refine : bool) (all : list nat).
Let windows := windows_for episodes cfg mode.
Hypothesis all_range : forall i, i ∈ all -> (i < length episodes)%nat.
Hypothesis prints_fine : prints_ok mode prints.
Hypothesis prints_full : forall i j, i ∈ all -> j ∈ all -> i <> j -> comparable episodes i j = true ->
  is_Some (prints !! i) /\ is_Some (prints !! j).

(** A side of a pair, on the clock of its file. *)
Definition placed (i : nat) (e : Episode (Media := Media)) (r : Range) : Range :=
  match mode with Intro => r | Credits => shifted (fst (credits_window cfg e)) r end.
Definition limit (e : Episode (Media := Media)) : float :=
  match mode with
  | Intro => if sel ≟ Earliest then maximum_recap_duration cfg else maximum_intro_duration cfg
  | Credits => F64.sub (F64.sub (ep_duration e) (fst (credits_window cfg e))) (F64.lit 1 0)
  end.
(** [r] is what episode [i] has in common with another it can be compared to:
    its side of the pair the comparison of the two fingerprints reports. *)
Definition paired (i : nat) (e : Episode (Media := Media)) (r : Range) : Prop :=
  exists current remaining other prints_cur prints_rem left right,
    current <> remaining /\ comparable episodes current remaining = true
    /\ prints !! current = Some prints_cur /\ prints !! remaining = Some prints_rem
    /\ compare_with prints_cur prints_rem params sel = Ok (left, right)
    /\ valid right = true /\ episodes !! remaining = Some other /\ fgt (duration right) (limit other) = false
    /\ ((i = current /\ r = placed i e left) \/ (i = remaining /\ r = placed i e right)).
Definition origin (i : nat) (r : Range) : Prop :=
  exists e, episodes !! i = Some e /\ sound_range r /\ paired i e r
    /\ (mode = Credits -> flt (r_start r) (F64.div (ep_duration e) (F64.lit 2 0)) = false).
(** An answer: a shared region, refined where the pass refines. *)
Definition answer (i : nat) (r : Range) : Prop :=
  sound_range r /\ if refine then exists e raw, episodes !! i = Some e /\ origin i raw /\ refined e raw r else origin i r.
(** Who waits has what it shares, who does not its answer. *)
Definition good (waiting : list nat) (found : gmap nat Range) : Prop :=
  forall i r, found !! i = Some r -> if bool_decide (i ∈ waiting) then origin i r else answer i r.

Lemma origin_sound i r : origin i r -> sound_range r.
Proof. by intros (e & He & Hs & Hp). Qed.
Lemma good_insert waiting found i r : i ∈ waiting -> good waiting found -> origin i r -> good waiting (<[i := r]> found).
Proof.
  intros Hw Hg Ho j r' Hj. apply lookup_insert_Some in Hj as [[<- <-]|[_ Hj]]; [by rewrite bool_decide_true|by apply Hg].
Qed.
(** What a pass has found for [current] becomes its answer. *)
Lemma good_settle current queue found found' :
  current ∉ queue -> good (current :: queue) found ->
  (forall r, found !! current = Some r -> forall r', found' !! current = Some r' -> answer current r') ->
  (is_Some (found' !! current) -> is_Some (found !! current)) ->
  (forall j, j <> current -> found' !! j = found !! j) -> good queue found'.
Proof.
  intros Hc Hg Ha Hs Heq i r Hi. destruct (decide (i = current)) as [->|Hne].
  - rewrite bool_decide_false by done. destruct (Hs ltac:(by eexists)) as [r0 Hr0]. by eapply Ha.
  - rewrite Heq in Hi by done. specialize (Hg i r Hi). rewrite (bool_decide_ext _ (i ∈ queue)) in Hg; [done|].
    rewrite elem_of_cons. intuition congruence.
Qed.

Lemma offer_ok current queue found i e r :
  episodes !! i = Some e -> sound_range r -> paired i e r -> good (current :: queue) found ->
  exists found', offer episodes mode current queue found (i, r) = Ok found' /\ good (current :: queue) found'.
Proof.
  intros He Hs Hp Hg. unfold offer.
  destruct (negb (i =? current)%nat && _) eqn:Hhere; [by eexists|].
  assert (i ∈ current :: queue) as Hw.
  { apply elem_of_cons. destruct (Nat.eqb_spec i current) as [->|]; [by left|right]. cbn [negb andb] in Hhere.
    apply negb_false_iff, bool_decide_eq_true in Hhere. done. }
  rewrite He. cbn [ok_or rbind].
  destruct ((mode ≟ Credits) && flt (r_start r) (F64.div (ep_duration e) (F64.lit 2 0))) eqn:Hhalf; [by eexists|].
  assert (origin i r) as Ho.
  { exists e. split_and!; [done..|]. intros ->. by destruct (flt _ _). }
  destruct (found !! i) as [saved|]; [destruct (fge _ _)|]; eexists; (split; [done|]); [done|..]; by apply good_insert.
Qed.

Lemma window_at i e : episodes !! i = Some e ->
  windows !! i = Some (match mode with Intro => intro_window cfg e | Credits => credits_window cfg e end).
Proof. intros He. unfold windows, windows_for. by rewrite list_lookup_fmap, He. Qed.
Lemma placed_sound i e r : episodes !! i = Some e -> moderate_range r -> sound_range (placed i e r).
Proof.
  intros He [[Hs Vs] [Hn Vn]]. unfold placed, sound_range. destruct mode.
  - split; (split; [done|lra]).
  - destruct (window_cap i e He) as (Hw & Vw & _). destruct (here_ok i e He) as [_ Vd].
    unfold shifted. cbn [r_start r_end].
    destruct (add_near (r_start r) (fst (credits_window cfg e))) as [H1 V1]; [done..|lra|].
    destruct (add_near (r_end r) (fst (credits_window cfg e))) as [H2 V2]; [done..|lra|]. split; (split; [done|lra]).
Qed.

Lemma compare_pair_ok current remaining queue found :
  current ∈ all -> remaining ∈ all -> current <> remaining -> good (current :: queue) found ->
  exists o, compare_pair episodes cfg mode windows prints params sel current remaining queue found = Ok o
    /\ forall found', o = Some found' -> good (current :: queue) found'.
Proof.
  intros Hc Hr Hne Hg. unfold compare_pair. destruct (comparable episodes current remaining) eqn:Hcmp; cbn [negb]; [|by eexists].
  destruct (prints_full current remaining) as [[pc Hpc] [pr Hpr]]; [done..|]. rewrite Hpc, Hpr. cbn [ok_or rbind].
  destruct (index_lookup current) as [ec Hec]; [by apply all_range|]. destruct (index_lookup remaining) as [er Her]; [by apply all_range|].
  pose proof (taken_points _ _ _ (prints_fine _ _ Hpc)) as Fc. pose proof (taken_points _ _ _ (prints_fine _ _ Hpr)) as Fr.
  destruct (compare_spec pc pr params sel) as (a & b & Hcw & _); [done..|]. rewrite Hcw. cbn [rbind].
  destruct (compare_sound pc pr params sel a b) as [Ma Mb]; [done..|].
  assert (maximum episodes cfg mode windows sel remaining = Ok (limit er)) as ->.
  { unfold maximum, limit. pose proof (window_at remaining er Her) as Hw. destruct mode; [done|]. rewrite Her. cbn [ok_or rbind]. by rewrite Hw. }
  cbn [rbind]. destruct (negb (valid b) || _) eqn:Hv; [by eexists|]. apply orb_false_iff in Hv as [Hv Hlim]. apply negb_false_iff in Hv.
  assert (forall r, match mode with Intro => Ok (a, b) | Credits =>
      let? wc := ok_or (windows !! current) Panicked in
      let? wr := ok_or (windows !! remaining) Panicked in
      Ok (shifted (fst wc) a, shifted (fst wr) b) end = r ->
      r = Ok (placed current ec a, placed remaining er b) :> result Trouble _) as Hplaced.
  { intros r <-. unfold placed. pose proof (window_at _ _ Hec) as Hwc. pose proof (window_at _ _ Her) as Hwr.
    destruct mode; [done|]. rewrite Hwc, Hwr. done. }
  rewrite (Hplaced _ eq_refl). cbn [rbind fst snd].
  destruct (offer_ok current queue found current ec (placed current ec a)) as (f1 & Hf1 & G1); [done|by apply placed_sound| |done|].
  { exists current, remaining, er, pc, pr, a, b. split_and!; auto. }
  rewrite Hf1. cbn [rbind].
  destruct (offer_ok current queue f1 remaining er (placed remaining er b)) as (f2 & Hf2 & G2); [done|by apply placed_sound| |done|].
  { exists current, remaining, er, pc, pr, a, b. split_and!; auto. }
  rewrite Hf2. eexists. split; [done|]. by intros ? [= <-].
Qed.
Lemma compare_all_ok current comparisons queue found :
  current ∈ all -> (forall j, j ∈ comparisons -> j ∈ all /\ current <> j) -> good (current :: queue) found ->
  exists found', compare_all episodes cfg mode windows prints params sel current comparisons queue found = Ok found'
    /\ good (current :: queue) found'.
Proof.
  intros Hc Hin Hg. induction comparisons as [|j comparisons IH]; cbn [compare_all]; [by eexists|].
  destruct (Hin j) as [Hj Hne]; [left|]. destruct (compare_pair_ok current j queue found) as (o & -> & Ho); [done..|].
  cbn [rbind]. destruct o as [f|]; [eexists; split; [done|by apply Ho]|]. apply IH. intros k Hk. apply Hin. by right.
Qed.
Lemma regions_ok queue found :
  NoDup queue -> (forall i, i ∈ queue -> i ∈ all) -> good queue found ->
  sat (regions episodes cfg mode windows prints params sel refine all queue found) Inv
    (fun found' s => good [] found' /\ Inv s) Stop.
Proof.
  revert found. induction queue as [|current queue IH]; intros found Hnd Hin Hg; cbn [regions]; [by apply sat_ret|].
  apply NoDup_cons in Hnd as [Hcur Hnd].
  destruct (compare_all_ok current (queue ++ borrowed all current queue found) queue found) as (f & -> & Hf); [apply Hin; left| |done|].
  { intros j [Hj|Hj]%elem_of_app; [split; [apply Hin; by right|]; by intros ->|].
    apply list_elem_of_In, filter_In in Hj as [Hj Hc]. apply list_elem_of_In in Hj. split; [done|]. intros ->.
    apply andb_true_iff in Hc as [Hc _]. apply andb_true_iff in Hc as [_ Hc]. by rewrite Nat.eqb_refl in Hc. }
  eapply sat_bind; [apply sat_lift_ok|]. intros f'. apply sat_and; intros ->.
  eapply sat_bind with (R := fun f s => good queue f /\ Inv s).
  - destruct refine eqn:Hrefine; [destruct (f !! current) as [range|] eqn:Hr|].
    + pose proof (Hf _ _ Hr) as Ho. rewrite bool_decide_true in Ho by left. destruct Ho as (e & He & Hsr & Hp). rewrite He. cbn [ok_or].
      eapply sat_bind; [apply sat_lift_ok|]. intros e'. apply sat_and; intros ->.
      eapply sat_bind; [by apply (adjust_ok episodes is_anime episodes_ok current e range)|].
      intros r. apply sat_and; intros [Hsr' Href]. apply sat_ret. intros s Hs. split; [|done].
      apply (good_settle current queue f); [done..| | |].
      * intros r0 _ r'. rewrite lookup_insert_eq. intros [= <-]. split; [done|]. rewrite Hrefine. exists e, range. split_and!; [done|by exists e|done].
      * by rewrite Hr.
      * intros j Hj. by rewrite lookup_insert_ne.
    + apply sat_ret. intros s Hs. split; [|done]. apply (good_settle current queue f); [done..| | |done]; rewrite Hr; [done|by intros []].
    + apply sat_ret. intros s Hs. split; [|done]. apply (good_settle current queue f); [done..| | |done]; [|done].
      intros r Hr r' Hr'. rewrite Hr in Hr'. injection Hr' as <-. pose proof (Hf _ _ Hr) as Ho. rewrite bool_decide_true in Ho by left.
      split; [by eapply origin_sound|]. by rewrite Hrefine.
  - intros f'. apply sat_and; intros Hf'. apply IH; [done| |done]. intros i Hi. apply Hin. by right.
Qed.
End Search.

(** ** The recap *)

Lemma huge : ok f64_max /\ (100000000 <= value f64_max)%R.
Proof.
  split; [by vm_compute|]. unfold f64_max. cbn [value sign]. assert (pow2 0 <= pow2 971)%R as H0 by (by apply pow2_le).
  rewrite pow2_0 in H0. change (IZR (Zpos (2 ^ 53 - 1))) with 9007199254740991%R. nra.
Qed.
Lemma lit_120 : ok (maximum_recap_duration cfg) /\ value (maximum_recap_duration cfg) = 120%R.
Proof. constant 120. Qed.
Lemma lit_15 : ok (minimum_recap_duration cfg) /\ value (minimum_recap_duration cfg) = 15%R.
Proof. constant 15. Qed.
Lemma snap_2 : ok (end_snap_threshold cfg) /\ value (end_snap_threshold cfg) = 2%R.
Proof. constant 2. Qed.

(** A recap starts the file; it lasts over fifteen seconds and at most two
    minutes, and ends within the episode and before its intro. *)
Definition recap_ok (intros : gmap nat Range) (i : nat) (r : Range) : Prop :=
  exists e, episodes !! i = Some e /\ r_start r = fzero /\ ok (r_end r)
    /\ (15 < value (r_end r) <= 120)%R /\ (value (r_end r) <= value (ep_duration e))%R
    /\ forall intro, intros !! i = Some intro -> (value (r_end r) <= value (r_start intro))%R.

Lemma boundary_sound (e : Episode (Media := Media)) start :
  episode_ok e -> (forall s, start = Some s -> sound_time s) ->
  ok (recap_boundary cfg e start) /\ (-1 <= value (recap_boundary cfg e start) <= 120)%R
  /\ (value (recap_boundary cfg e start) <= value (ep_duration e))%R.
Proof.
  intros [Hd Vd] Hs. destruct lit_120 as [H1 V1], snap_2 as [H2 V2], huge as [Hh Vh]. unfold recap_boundary.
  destruct (fmin_value (ep_duration e) (maximum_recap_duration cfg)) as [Hm Vm]; [done..|]. rewrite V1 in Vm.
  assert (ok (map_or f64_max (fun s => F64.add s (end_snap_threshold cfg)) start)
    /\ (0 <= value (map_or f64_max (fun s => F64.add s (end_snap_threshold cfg)) start))%R) as [Ho Vo].
  { destruct start as [s|]; cbn [map_or]; [|split; [done|lra]]. destruct (Hs s eq_refl) as [Hso Vso].
    destruct (add_near s (end_snap_threshold cfg)) as [Ha Va]; [done..|rewrite V2; lra|]. rewrite V2 in Va. split; [done|lra]. }
  set (b := map_or _ _ start) in *.
  destruct (fmin_value (fmin (ep_duration e) (maximum_recap_duration cfg)) b Hm Ho) as [Hn Vn]. split; [done|]. rewrite Vn, Vm.
  unfold Rmin. destruct (Rle_dec _ 120), (Rle_dec _ (value b)); lra.
Qed.
Lemma last_black_spec minimum boundary frames end_ :
  ok minimum -> ok boundary -> Forall (fun f => is_nan (time f) = true \/ ok (time f)) frames ->
  last_black cfg minimum boundary frames = Some end_ ->
  ok end_ /\ (value minimum <= value end_ <= value boundary)%R.
Proof.
  intros Hm Hb Hf. unfold last_black. set (fine := fun t => ok t /\ (value minimum <= value t <= value boundary)%R).
  assert (Forall (fun f => fine (time f)) (List.filter (fun f => fge (black_percentage f) (minimum_percentage (black cfg))
     && fge (time f) minimum && fle (time f) boundary) frames)) as Hl.
  { apply Forall_forall. intros f Hin. apply list_elem_of_In, filter_In in Hin as [Hin Hc]. apply list_elem_of_In in Hin.
    apply andb_true_iff in Hc as [Hc Hhi]. apply andb_true_iff in Hc as [_ Hlo].
    rewrite Forall_forall in Hf. destruct (Hf f Hin) as [Hn|Ho]; [by destruct (fle_nan _ _ Hhi); congruence|].
    rewrite fge_fle in Hlo. apply fle_value in Hlo, Hhi; [|done..]. split; [done|lra]. }
  generalize (List.filter (fun f => fge (black_percentage f) (minimum_percentage (black cfg))
     && fge (time f) minimum && fle (time f) boundary) frames) Hl. clear Hl. intros l Hl.
  assert (forall o, (forall b, o = Some b -> fine b) ->
    fold_left (fun best f => Some (map_or (time f) (fun b => fmax b (time f)) best)) l o = Some end_ -> fine end_) as Hfold.
  { induction Hl as [|f l Hft Hl IH]; intros o Ho Hend; cbn [fold_left] in Hend; [by apply Ho|].
    eapply IH; [|exact Hend]. intros b [= <-]. destruct o as [b|]; cbn [map_or]; [|done].
    destruct (Ho b eq_refl) as [Hbo Vbo], Hft as [Hto Vto]. destruct (fmax_value b (time f) Hbo Hto) as [Hx Vx].
    split; [done|]. rewrite Vx. unfold Rmax. destruct (Rle_dec _ _); lra. }
  by apply Hfold.
Qed.

Definition cards_ok (cards : list (nat * Range)) : Prop :=
  forall i r, (i, r) ∈ cards -> (i < length episodes)%nat /\ sound_range r.
Lemma recap_cards_ok (intros : gmap nat Range) cards found :
  (forall i r, intros !! i = Some r -> sound_range r) -> cards_ok cards -> (forall i r, found !! i = Some r -> recap_ok intros i r) ->
  sat (recap_cards episodes cfg intros cards found) Inv
    (fun found' s => (forall i r, found' !! i = Some r -> recap_ok intros i r) /\ Inv s) Stop.
Proof.
  intros Hin. revert found. induction cards as [|[i card] cards IH]; intros found Hc Hf; cbn [recap_cards]; [by apply sat_ret|].
  assert (cards_ok cards) as Hc' by (intros j r Hj; apply (Hc j r); by right).
  destruct (Hc i card) as [Hi [_ [Hce Vce]]]; [left|]. destruct (index_lookup i Hi) as [e He]. rewrite He. cbn [ok_or].
  eapply sat_bind; [apply sat_between|]. intros []. eapply sat_bind; [apply sat_lift_ok|]. intros e'. apply sat_and; intros ->.
  set (start := r_start <$> intros !! i).
  assert (forall s, start = Some s -> sound_time s) as Hstart.
  { intros s Hs. unfold start in Hs. destruct (intros !! i) as [r|] eqn:Hr; [|done]. injection Hs as <-. by destruct (Hin i r Hr). }
  destruct (boundary_sound e start (here_ok i e He) Hstart) as (Hb & Vb & Vbd). destruct lit_15 as [H15 V15].
  set (boundary := recap_boundary cfg e start) in *.
  destruct (fmax_value (minimum_recap_duration cfg) (r_end card)) as [Hm Vm]; [done..|].
  set (minimum := fmax _ (r_end card)) in *.
  destruct (fle boundary minimum); [by apply IH|].
  eapply sat_bind; [apply (sat_attempt episodes i e); [done|]; intros now; apply luma_window_tame|].
  intros [frames|err]; [|eapply sat_bind; [apply sat_mark|]; intros []; by apply IH].
  intros s [Hs [now Hlw]]. apply IH; [done| |done].
  destruct (last_black cfg minimum boundary frames) as [end_|] eqn:Hlast; [|done].
  apply last_black_spec in Hlast as [Hend Vend]; [|done..|].
  2:{ apply Forall_forall. intros f Hfr. destruct (luma_window_times _ _ _ _ _ _ _ Hlw Hfr) as [->|(t & Ht & ->)]; [by left|right].
      destruct (nseconds_bound boundary Hb) as (_ & _ & Hns); [lra|]. destruct (seconds_near t) as [[Ho _] _]; [lia|done]. }
  destruct (fgt _ _) eqn:Hgt; [|done]. intros j r Hj. apply lookup_insert_Some in Hj as [[<- <-]|[_ Hj]]; [|by apply Hf].
  assert (ok (recap_end start end_) /\ (value (recap_end start end_) <= value end_)%R
    /\ forall s, start = Some s -> (value (recap_end start end_) <= value s)%R) as (Ho & Vo & Vs).
  { unfold recap_end. destruct start as [s0|]; cbn [map_or]; [|by split_and!; [|lra|]]. destruct (Hstart s0 eq_refl) as [Hs0 _].
    destruct (fmin_value end_ s0 Hend Hs0) as [Hx Vx]. rewrite Vx. split; [done|]. split; [apply Rmin_l|]. intros ? [= <-]. apply Rmin_r. }
  apply flt_value in Hgt; [|done..]. rewrite V15 in Hgt.
  exists e. cbn [r_start r_end]. split_and!; [done..|lra|lra|lra|]. intros intro Hi'. apply Vs. unfold start. by rewrite Hi'.
Qed.

(** ** Recording *)

Lemma iterate_keys (m : gmap nat Range) : NoDup (map fst (iterate m)).
Proof. rewrite iterate_entries. apply NoDup_fst_map_to_list. Qed.
Lemma iterate_in (m : gmap nat Range) i r : (i, r) ∈ iterate m <-> m !! i = Some r.
Proof. rewrite iterate_entries. apply elem_of_map_to_list. Qed.

(** What a search found is an episode's answer when it had none. *)
Lemma record_fold source i l (m : gmap nat (Range * string)) :
  NoDup (map fst l) ->
  fold_left (record_one source) l m !! i
  = match m !! i with
    | Some a => Some a
    | None => (fun p => (snd p, source)) <$> List.find (fun p : nat * Range => (fst p =? i)%nat) l
    end.
Proof.
  revert m. induction l as [|[j r] l IH]; intros m Hnd; cbn [fold_left]; [by destruct (m !! i)|].
  cbn [map fst] in Hnd. apply NoDup_cons in Hnd as [Hj Hnd]. rewrite IH by done. cbn [List.find fst record_one].
  destruct (Nat.eqb_spec j i) as [->|Hne].
  - destruct (m !! i) eqn:Hm; [by rewrite Hm|]. by rewrite lookup_insert_eq.
  - destruct (m !! j); [done|]. by rewrite lookup_insert_ne.
Qed.
Lemma record_lookup found source (answers : gmap nat (Range * string)) i :
  record found source answers !! i
  = match answers !! i with Some a => Some a | None => (fun r => (r, source)) <$> found !! i end.
Proof.
  unfold record. rewrite record_fold by apply iterate_keys. destruct (answers !! i); [done|].
  destruct (List.find _ _) as [[j r]|] eqn:Hf.
  - apply List.find_some in Hf as [Hin Hj]. apply Nat.eqb_eq in Hj. cbn [fst] in Hj. subst j.
    apply list_elem_of_In, iterate_in in Hin. by rewrite Hin.
  - destruct (found !! i) as [r|] eqn:Hr; [|done]. apply iterate_in, list_elem_of_In in Hr.
    eapply List.find_none in Hf; [|exact Hr]. cbn [fst] in Hf. by rewrite Nat.eqb_refl in Hf.
Qed.

(** ** The whole analysis *)

Lemma good_sound mode prints params sel refine found i r :
  good mode prints params sel refine [] found -> found !! i = Some r -> sound_range r /\ (i < length episodes)%nat.
Proof.
  intros Hg Hr. destruct (Hg i r Hr) as [Hs Ha]. split; [done|].
  destruct refine; [destruct Ha as (e & raw & He & _)|destruct Ha as (e & He & _)]; by eapply lookup_lt_Some.
Qed.
Lemma search_ok mode wanted prints params sel refine :
  NoDup wanted -> (forall i, i ∈ wanted -> (i < length episodes)%nat) -> prints_ok mode prints ->
  (forall i j, i ∈ wanted -> j ∈ wanted -> i <> j -> comparable episodes i j = true -> is_Some (prints !! i) /\ is_Some (prints !! j)) ->
  sat (search_regions episodes cfg mode (windows_for episodes cfg mode) prints params sel refine wanted) Inv
    (fun found s => good mode prints params sel refine [] found /\ Inv s) Stop.
Proof.
  intros Hnd Hr Hp Hfull. by apply regions_ok.
Qed.

(** No episode of the season can be compared to another. *)
Lemma single_spec i j :
  single episodes = true -> i <> j -> comparable episodes i j = true -> False.
Proof.
  unfold single. intros Hs Hne Hc. apply negb_true_iff in Hs. pose proof (comparable_range i j Hc) as [Hi Hj].
  assert (forall k, (0 < k < length episodes)%nat -> comparable episodes 0 k = false) as Hnone.
  { intros k Hk. apply not_true_iff_false. intros Hk'. assert (existsb (fun i => comparable episodes 0 i) (seq 1 (length episodes - 1)) = true); [|congruence].
    apply existsb_exists. exists k. split; [|done]. apply in_seq. lia. }
  destruct (index_lookup 0) as [e0 H0]; [lia|]. destruct (index_lookup i Hi) as [ei Hei], (index_lookup j Hj) as [ej Hej].
  assert (forall k e, episodes !! k = Some e -> (0 < k)%nat -> episode_number e0 <> None /\ episode_number e = episode_number e0) as Hsame.
  { intros k e Hk Hk0. pose proof (Hnone k ltac:(split; [lia|by eapply lookup_lt_Some])) as Hf. unfold comparable in Hf. rewrite H0, Hk in Hf.
    unfold can_compare in Hf. apply orb_false_iff in Hf as [Hf1 Hf2]. apply negb_false_iff, bool_decide_eq_true in Hf2.
    split; [by destruct (episode_number e0)|done]. }
  unfold comparable in Hc. rewrite Hei, Hej in Hc. unfold can_compare in Hc.
  assert (episode_number ei <> None /\ episode_number ej = episode_number ei) as [Hn Heq].
  { destruct (decide (i = 0%nat)) as [->|Hi0].
    - rewrite H0 in Hei. injection Hei as <-. apply (Hsame j); [done|lia].
    - destruct (Hsame i ei Hei) as [Hn He]; [lia|]. destruct (decide (j = 0%nat)) as [->|Hj0].
      + rewrite H0 in Hej. injection Hej as <-. by rewrite He.
      + destruct (Hsame j ej Hej) as [_ He']; [lia|]. by rewrite He, He'. }
  apply orb_true_iff in Hc as [Hc|Hc]; [by destruct (episode_number ei)|]. rewrite Heq in Hc. apply negb_true_iff, bool_decide_eq_false in Hc. done.
Qed.

(** An episode's credits, by the search or by black frames. *)
Definition credits_ok (i : nat) (a : Range * string) : Prop :=
  (snd a = "chromaprint"%string /\ exists prints, prints_ok Credits prints /\ answer Credits prints (search_params cfg) Longest true i (fst a))
  \/ (snd a = "blackframe"%string /\ exists e, episodes !! i = Some e /\ black_range e (fst a)).
Definition all_credits_ok (m : gmap nat (Range * string)) : Prop := forall i a, m !! i = Some a -> credits_ok i a.

Lemma credits_regions_ok wanted :
  NoDup wanted -> (forall i, i ∈ wanted -> (i < length episodes)%nat) ->
  sat (credits_regions episodes cfg wanted) Inv
    (fun found s => (exists prints, prints_ok Credits prints /\ good Credits prints (search_params cfg) Longest true [] found) /\ Inv s) Stop.
Proof.
  intros Hnd Hr. unfold credits_regions. destruct (_ || _).
  - apply sat_ret. intros s Hs. split; [|done]. exists ∅. split; intros i r Hi; by rewrite lookup_empty in Hi.
  - destruct (queue_in_range wanted Hnd Hr) as [Hq Hqr].
    eapply sat_bind; [apply fingerprints_ok; [done|]; intros i p Hi; by rewrite lookup_empty in Hi|].
    intros prints. apply sat_and; intros [Hp Hfull].
    eapply sat_weaken; [apply (search_ok Credits _ prints)|done| |done].
    + done.
    + done.
    + done.
    + intros i j Hi Hj _ _. split; apply Hfull; by left.
    + intros found s [Hg Hs]. split; [|done]. by exists prints.
Qed.
Lemma record_ok found m prints :
  all_credits_ok m -> prints_ok Credits prints -> good Credits prints (search_params cfg) Longest true [] found -> all_credits_ok (record found "chromaprint" m).
Proof.
  intros Hm Hp Hg i a Ha. rewrite record_lookup in Ha. destruct (m !! i) as [a'|] eqn:Hi; [injection Ha as <-; by apply Hm|].
  destruct (found !! i) as [r|] eqn:Hr; [|done]. injection Ha as <-. left. split; [done|]. exists prints. split; [done|]. by apply Hg.
Qed.
Lemma black_pass_ok i es m :
  drop i episodes = es -> all_credits_ok m ->
  sat (black_pass cfg i es m) Inv (fun m' s => all_credits_ok m' /\ Inv s) Stop.
Proof.
  revert i m. induction es as [|e es IH]; intros i m Hd Hm; cbn [black_pass]; [by apply sat_ret|].
  assert (drop (S i) episodes = es) as Hd' by (by rewrite <- (drop_drop episodes i 1), Nat.add_comm, Hd || (rewrite <- Nat.add_1_r, <- drop_drop, Hd; done)).
  assert (episodes !! i = Some e) as He by (rewrite <- (Nat.add_0_r i), <- lookup_drop, Hd; done).
  destruct (m !! i) eqn:Hmi; [by apply IH|].
  eapply sat_bind; [apply sat_between|]. intros [].
  eapply sat_bind with (R := fun r s => match r with Ok r => (forall range, r = Some range -> black_range e range) /\ Inv s | Err _ => Pending i s end).
  { apply sat_catch. eapply sat_weaken; [by apply (black_frame_ok i e)|done|by intros|]. intros err s [-> Hp]. by rewrite bool_decide_true. }
  intros [[range|]|err].
  - apply sat_and; intros Hb. apply IH; [done|]. intros j a Ha. apply lookup_insert_Some in Ha as [[<- <-]|[_ Ha]]; [|by apply Hm].
    right. split; [done|]. exists e. split; [done|]. by apply Hb.
  - apply sat_and; intros _. by apply IH.
  - eapply sat_bind; [apply sat_mark|]. intros []. by apply IH.
Qed.

(** The shared regions of a mode's windows. *)
Definition shared_answers (mode : Mode) (sel : Select) (params : SearchParams) (found : gmap nat Range) : Prop :=
  exists prints, prints_ok mode prints /\ good mode prints params sel true [] found.
Definition outcome (intros recaps : gmap nat Range) (answers : gmap nat (Range * string)) : Prop :=
  shared_answers Intro Longest (search_params cfg) intros
  /\ (forall i r, recaps !! i = Some r -> recap_ok intros i r)
  /\ all_credits_ok answers.

Lemma recaps_ok prints intros :
  prints_ok Intro prints ->
  (forall i j, i <> j -> comparable episodes i j = true -> is_Some (prints !! i) /\ is_Some (prints !! j)) ->
  (forall i r, intros !! i = Some r -> sound_range r) ->
  sat (recaps episodes cfg (windows_for episodes cfg Intro) prints intros) Inv
    (fun found s => (forall i r, found !! i = Some r -> recap_ok intros i r) /\ Inv s) Stop.
Proof.
  intros Hp Hfull Hin. unfold recaps.
  destruct (queue_in_range (indices episodes) indices_nodup (fun i => proj1 (indices_range i))) as [Hq Hqr].
  eapply sat_bind; [apply (search_ok Intro); auto|].
  intros cards. apply sat_and; intros Hg. apply recap_cards_ok; [done| |].
  - intros i r Hi. apply iterate_in in Hi. apply (good_sound _ _ _ _ _ _ _ _ Hg) in Hi as [Hs Hlt]. done.
  - intros i r Hi. by rewrite lookup_empty in Hi.
Qed.

Lemma analysis_outcome :
  sat (analysis episodes cfg) Inv
    (fun rows s => Inv s /\ exists intros recaps answers,
       outcome intros recaps answers /\ rows = imap (segments_of recaps intros answers (unreadable s)) episodes) Stop.
Proof.
  unfold analysis. set (windows := windows_for episodes cfg Intro).
  destruct (queue_in_range (indices episodes) indices_nodup (fun i => proj1 (indices_range i))) as [Hq Hqr].
  eapply sat_bind with (R := fun prints s => (prints_ok Intro prints /\ forall i j, i <> j -> comparable episodes i j = true ->
     is_Some (prints !! i) /\ is_Some (prints !! j)) /\ Inv s).
  { destruct (single episodes) eqn:Hsingle.
    - apply sat_ret. intros s Hs. split; [|done]. split; [intros i p Hi; by rewrite lookup_empty in Hi|].
      intros i j Hne Hc. by destruct (single_spec i j).
    - eapply sat_weaken; [apply fingerprints_ok|done| |done].
      + intros i. apply indices_range.
      + intros i p Hi. by rewrite lookup_empty in Hi.
      + intros prints s [[Hp Hfull] Hs]. split; [|done]. split; [done|]. intros i j _ Hc.
        destruct (comparable_range i j Hc) as [Hi Hj]. split; apply Hfull; left; by apply indices_range. }
  intros prints. apply sat_and; intros [Hp Hfull].
  eapply sat_bind; [apply (search_ok Intro _ prints); auto|]. intros intros. apply sat_and; intros Hg.
  assert (forall i r, intros !! i = Some r -> sound_range r) as Hsound by (intros i r Hi; by eapply good_sound).
  eapply sat_bind; [cbn [scan_recap cfg]; by apply (recaps_ok prints intros)|]. intros recaps. apply sat_and; intros Hrec.
  eapply sat_bind with (R := fun m s => all_credits_ok m /\ Inv s).
  { destruct (anime cfg).
    - eapply sat_bind; [apply (credits_regions_ok _ indices_nodup); intros i; apply indices_range|]. intros found.
      apply sat_and; intros (prints' & Hp' & Hg'). apply sat_ret. intros s Hs. split; [|done]. eapply record_ok; [|exact Hp'|exact Hg'].
      intros i a Ha. by rewrite lookup_empty in Ha.
    - apply sat_ret. intros s Hs. split; [|done]. intros i a Ha. by rewrite lookup_empty in Ha. }
  intros m. apply sat_and; intros Hm. eapply sat_bind with (R := fun _ => Inv).
  { intros s [Hex _]. split; [exact Hex|]. split; [done|]. cbn [search_start value fzero]. lra. }
  intros _. eapply sat_bind; [by apply (black_pass_ok 0 episodes m)|]. intros m'. apply sat_and; intros Hm'.
  eapply sat_bind with (R := fun m s => all_credits_ok m /\ Inv s).
  { destruct (anime cfg); [by apply sat_ret|].
    eapply sat_bind; [apply credits_regions_ok|].
    - apply NoDup_ListNoDup, List.NoDup_filter, NoDup_ListNoDup, indices_nodup.
    - intros i Hi. apply list_elem_of_In, filter_In in Hi as [Hi _]. apply list_elem_of_In in Hi. by apply indices_range.
    - intros found. apply sat_and; intros (prints' & Hp' & Hg'). apply sat_ret. intros s Hs. split; [|done].
      by eapply record_ok. }
  intros answers. apply sat_and; intros Ha s Hs. split; [done|]. exists intros, recaps, answers. split; [|done].
  split; [by exists prints|done].
Qed.
End Passes.
