(* ===== verification/SeasonResults.v ===== *)
(** * A season's report: theorems

    What the analysis promises, from any pipelines that behave as [Sane] says:
    it ends, what is unreadable is marked, what it reports is what it measured,
    and the rows of a list of files come in the order of the files. *)
From Stdlib Require Import SpecFloat Reals Lra.
From S2P Require Import Prelude Floats Utf8 Segments Decode Chroma FloatReal ChromaTheorems Season SeasonFacts SeasonSafety SeasonTheorems.
#[local] Open Scope Z_scope.

Section Results.
Context {Media : Type} `{!Pipelines Media} `{Hashed : !Hashing}.

Lemma start_inv (episodes : list (Episode (Media := Media))) : Inv episodes start_state.
Proof.
  split.
  - intros _ i e _ _. cbn [start_state unreadable reads]. split; intros Hi; [by apply not_elem_of_empty in Hi|by apply elem_of_nil in Hi].
  - split; [done|]. cbn [start_state search_start value fzero]. lra.
Qed.

Lemma analysis_from (episodes : list (Episode (Media := Media))) cfg rows s :
  analysis episodes cfg start_state = (Ok rows, s) ->
  exists recaps intros answers, rows = imap (segments_of recaps intros answers (unreadable s)) episodes.
Proof.
  intros Ha.
  assert (forall {A} (m : M (Media := Media) A), sat m (fun _ => True) (fun _ _ => True) (fun _ _ => True)) as Htriv.
  { intros A m st _. destruct (m st) as [r st']. by destruct r. }
  assert (sat (analysis episodes cfg) (fun _ => True)
    (fun rows s => exists recaps intros answers, rows = imap (segments_of recaps intros answers (unreadable s)) episodes)
    (fun _ _ => True)) as Hsat.
  { unfold analysis. do 7 (eapply sat_bind; [apply Htriv|]; intros ?). intros st _. by eexists _, _, _. }
  specialize (Hsat start_state I). by rewrite Ha in Hsat.
Qed.
Lemma row_of (f : nat -> Episode (Media := Media) -> EpisodeSegments) (episodes : list (Episode (Media := Media))) i row :
  imap f episodes !! i = Some row -> exists e, episodes !! i = Some e /\ row = f i e.
Proof. rewrite list_lookup_imap. destruct (episodes !! i) as [e|]; [|done]. intros [= <-]. by exists e. Qed.

(** A search's answers fill the gaps of what is recorded, with their
    source, and change no answer there. *)
Theorem gaps_filled found source (answers : gmap nat (Range * string)) i :
  record found source answers !! i
  = match answers !! i with Some a => Some a | None => (fun r => (r, source)) <$> found !! i end.
Proof. apply record_lookup. Qed.

Context `{!Sane Media}.

Lemma analysis_spec (episodes : list (Episode (Media := Media))) is_anime :
  Forall episode_ok episodes ->
  match analysis episodes (config_default is_anime) start_state with
  | (Ok rows, s) => Inv episodes s /\ exists intros recaps answers,
      outcome episodes is_anime intros recaps answers /\ rows = imap (segments_of recaps intros answers (unreadable s)) episodes
  | (Err e, _) => e = Failed /\ exists now, between_reads now = Some Failed
  end.
Proof. intros Hok. exact (analysis_outcome episodes is_anime Hok start_state (start_inv episodes)). Qed.

(** C39: The analysis of a season ends without a panic, with a row for each
    episode; no failed read ends it, only an error of the caller's between two
    reads. *)
Theorem analysis_ends (episodes : list (Episode (Media := Media))) is_anime :
  Forall episode_ok episodes ->
  match fst (analysis episodes (config_default is_anime) start_state) with
  | Ok rows => length rows = length episodes
  | Err e => e = Failed /\ exists now, between_reads now = Some Failed
  end.
Proof.
  intros Hok. pose proof (analysis_spec episodes is_anime Hok) as Hs.
  destruct (analysis _ _ _) as [[rows|e] s]; cbn [fst]; [|done]. destruct Hs as (_ & intros & recaps & answers & _ & ->).
  apply length_imap.
Qed.

(** An episode's row is marked unreadable exactly when a read of its bytes
    failed, whichever pass the read was for. *)
Theorem unreadable_exact (episodes : list (Episode (Media := Media))) is_anime rows s i e row :
  Forall episode_ok episodes -> NoDup (map media episodes) ->
  analysis episodes (config_default is_anime) start_state = (Ok rows, s) ->
  episodes !! i = Some e -> rows !! i = Some row ->
  seg_unreadable row = true <-> (media e, false) ∈ reads s.
Proof.
  intros Hok Hnd Ha He Hrow. pose proof (analysis_spec episodes is_anime Hok) as Hs. rewrite Ha in Hs.
  destruct Hs as ([Hex _] & intros & recaps & answers & _ & ->). apply row_of in Hrow as (e' & He' & ->).
  cbn [segments_of seg_unreadable]. rewrite bool_decide_eq_true. by apply Hex.
Qed.

Lemma rows_sound_spec (episodes : list (Episode (Media := Media))) is_anime rows s i e row :
  Forall episode_ok episodes ->
  analysis episodes (config_default is_anime) start_state = (Ok rows, s) ->
  episodes !! i = Some e -> rows !! i = Some row ->
  (forall r, intro row = Some r -> exists prints, prints_ok episodes is_anime Intro prints /\ answer episodes is_anime Intro prints search_default Longest true i r)
  /\ (forall r, recap row = Some r ->
        r_start r = fzero /\ ok (r_end r) /\ (15 < value (r_end r) <= 120)%R /\ (value (r_end r) <= value (ep_duration e))%R
        /\ forall intro', intro row = Some intro' -> (value (r_end r) <= value (r_start intro'))%R)
  /\ (forall r, credits row = Some r ->
        (credits_source row = Some "chromaprint"%string
         /\ exists prints, prints_ok episodes is_anime Credits prints /\ answer episodes is_anime Credits prints search_default Longest true i r)
        \/ (credits_source row = Some "blackframe"%string /\ black_range e r)).
Proof.
  intros Hok Ha He Hrow. pose proof (analysis_spec episodes is_anime Hok) as Hs. rewrite Ha in Hs.
  destruct Hs as (_ & intros & recaps & answers & ((prints & Hp & Hg) & Hrec & Hcred) & ->).
  apply row_of in Hrow as (e' & He' & ->). rewrite He in He'. injection He' as <-.
  cbn [segments_of intro recap credits credits_source]. split_and!.
  - intros r Hr. exists prints. split; [done|]. by apply Hg.
  - intros r Hr. destruct (Hrec i r Hr) as (e' & He' & H1 & H2 & H3 & H4 & H5). rewrite He in He'. injection He' as <-. done.
  - intros r Hr. destruct (answers !! i) as [a|] eqn:Hi; [|done]. injection Hr as <-. cbn.
    destruct (Hcred i a Hi) as [(Hsrc & Hc)|(Hsrc & e' & He' & Hb)]; [left|right]; (split; [by rewrite Hsrc|]); [done|].
    rewrite He in He'. by injection He' as <-.
Qed.
(** C38: What a row reports. An intro is a region that the fingerprints of the
    windows of this episode and of one it can be compared to share, its edges
    settled: two seconds from the file's own they are the file's, elsewhere the
    end is where the first pause about it starts, then at the keyframe nearest
    to that, as far as the file could be read for them; a recap runs from the
    start of the file for fifteen seconds to two minutes and ends before the
    intro; credits are such a region of the back half, or run from a black
    frame in the last 450 seconds to the end. *)
Theorem rows_sound (episodes : list (Episode (Media := Media))) is_anime rows s i e row :
  Forall episode_ok episodes ->
  analysis episodes (config_default is_anime) start_state = (Ok rows, s) ->
  episodes !! i = Some e -> rows !! i = Some row ->
  (forall r, intro row = Some r -> exists prints, prints_ok episodes is_anime Intro prints /\ answer episodes is_anime Intro prints search_default Longest true i r)
  /\ (forall r, recap row = Some r ->
        r_start r = fzero /\ ok (r_end r) /\ (15 < value (r_end r) <= 120)%R /\ (value (r_end r) <= value (ep_duration e))%R
        /\ forall intro', intro row = Some intro' -> (value (r_end r) <= value (r_start intro'))%R)
  /\ (forall r, credits row = Some r ->
        (credits_source row = Some "chromaprint"%string
         /\ exists prints, prints_ok episodes is_anime Credits prints /\ answer episodes is_anime Credits prints search_default Longest true i r)
        \/ (credits_source row = Some "blackframe"%string /\ black_range e r)).
Proof. apply rows_sound_spec. Qed.
End Results.

(** ** A list of files *)

Section Paths.
Context {Media : Type} `{!Pipelines Media} `{Hashed : !Hashing}.

(** The rows of the files, each in its file's place. *)
Fixpoint in_place (paths : list (ProbedPath (Media := Media))) (rows : list EpisodeSegments) : list EpisodeSegments :=
  match paths with
  | [] => rows
  | p :: paths =>
      match episode_probe p, rows with
      | None, _ => unprobeable_row p :: in_place paths rows
      | Some _, row :: rows => row :: in_place paths rows
      | Some _, [] => []
      end
  end.
Lemma insert_in_place (paths : list (ProbedPath (Media := Media))) k pre rows :
  length pre = k -> length rows = length (omap episode_probe paths) ->
  fold_left insert_row
    (omap Datatypes.id (imap (fun i p => if is_none (episode_probe p) then Some ((k + i)%nat, unprobeable_row p) else None) paths))
    (pre ++ rows)
  = pre ++ in_place paths rows.
Proof.
  revert k pre rows. induction paths as [|p paths IH]; intros k pre rows Hk Hlen; [done|].
  assert (forall row, fold_left insert_row
    (omap Datatypes.id (imap (fun i q => if is_none (episode_probe q) then Some ((k + S i)%nat, unprobeable_row q) else None) paths))
    ((pre ++ [row]) ++ (if is_none (episode_probe p) then rows else tail rows))
    = (pre ++ [row]) ++ in_place paths (if is_none (episode_probe p) then rows else tail rows)) as Hnext.
  { intros row. rewrite <- (IH (S k) (pre ++ [row])).
    - do 2 f_equal. apply imap_ext. intros i q _. by rewrite Nat.add_succ_comm.
    - rewrite length_app. cbn [length]. lia.
    - destruct (episode_probe p) eqn:Hp; cbn [is_none]; cbn [omap list_omap] in Hlen; rewrite Hp in Hlen; [|done].
      destruct rows; [done|]. cbn [tail length is_none] in *. by injection Hlen. }
  cbn [imap omap list_omap in_place]. unfold compose. cbn [omap list_omap] in Hlen. rewrite Nat.add_0_r.
  destruct (episode_probe p) as [e|] eqn:Hp; unfold is_none in *; cbn [is_some negb] in *.
  - destruct rows as [|row rows]; [done|]. cbn [tail] in Hnext. specialize (Hnext row).
    cbn [Datatypes.id]. rewrite <- !app_assoc in Hnext. cbn [app] in Hnext. exact Hnext.
  - cbn [Datatypes.id fold_left]. specialize (Hnext (unprobeable_row p)). rewrite <- !app_assoc in Hnext. cbn [app] in Hnext.
    assert (insert_row (pre ++ rows) (k, unprobeable_row p) = pre ++ unprobeable_row p :: rows) as ->; [|exact Hnext].
    unfold insert_row, insert_at. cbn [fst snd]. rewrite Nat.min_l by (rewrite length_app; lia).
    by rewrite <- Hk, take_app_length, drop_app_length.
Qed.

(** A row that belongs to a file. *)
Definition row_for (p : ProbedPath (Media := Media)) (row : EpisodeSegments) : Prop :=
  seg_name row = p_file_name p
  /\ match p_duration_ms p with
     | None => row = unprobeable_row p
     | Some ms => seg_duration row = ms_seconds ms
     end.
Lemma in_place_rows paths rows :
  Forall2 (fun e row => seg_name row = ep_name e /\ seg_duration row = ep_duration e) (omap episode_probe paths) rows ->
  Forall2 row_for paths (in_place paths rows).
Proof.
  revert rows. induction paths as [|p paths IH]; intros rows Hr; cbn [in_place omap list_omap] in *; [by inversion Hr|].
  unfold episode_probe at 1 in Hr. unfold episode_probe at 1. destruct (p_duration_ms p) as [ms|] eqn:Hp; cbn [fmap option_fmap option_map] in *.
  - inversion Hr as [|? row ? rows' [Hn Hd] Hrest]; subst. constructor; [|by apply IH]. split; [exact Hn|]. rewrite Hp. exact Hd.
  - constructor; [|by apply IH]. split; [done|]. by rewrite Hp.
Qed.

(** The report on a list of files has a row for each file, in the order of
    the list: a file that could not be probed has its own row, unreadable, where
    it stood, and moves no other. *)
Theorem rows_in_place cfg elapsed (paths : list (ProbedPath (Media := Media))) report :
  analyze_paths cfg elapsed paths = Ok report ->
  Forall2 row_for paths (report_episodes report) /\ report_seconds report = elapsed.
Proof.
  unfold analyze_paths, analyze. intros Ha. destruct (bool_decide _); [done|].
  destruct (analysis (omap episode_probe paths) cfg start_state) as [[rows|] s] eqn:Hs; [|done]. cbn [fst rbind report_episodes report_seconds] in Ha.
  injection Ha as <-. split; [|done]. cbn [report_episodes]. apply analysis_from in Hs as (rs & is_ & answers & ->).
  assert (fold_left insert_row (unprobeable paths) (imap (segments_of rs is_ answers (unreadable s)) (omap episode_probe paths))
    = in_place paths (imap (segments_of rs is_ answers (unreadable s)) (omap episode_probe paths))) as ->
    by (apply (insert_in_place paths 0 []); [done|apply length_imap]).
  apply in_place_rows.
  apply Forall2_same_length_lookup. split; [by rewrite length_imap|]. intros i e row He Hrow.
  apply row_of in Hrow as (e' & He' & ->). rewrite He in He'. by injection He' as <-.
Qed.
End Paths.

(** ** A season to try it on *)

(** Two episodes of ten minutes: the sound of neither can be read; the first
    shows one black picture at the end of whatever is asked for, the second
    cannot be decoded. *)
Definition black_picture (t : Z) : VideoSample :=
  mkVideoSample true (Some t) (Some (mkVideoFrame 1 1 1 OtherFormat [0])).
#[local] Instance demo_pipelines : Pipelines nat := {|
  run_audio := fun _ _ _ _ => ([], false);
  run_video := fun _ m _ b => if (m =? 0)%nat && (0 <=? b) then ([black_picture b], true) else ([], false);
  run_keys := fun _ _ _ _ => ([], false);
  chromaprint := fun _ _ _ => None;
  powf := fun x _ => x;
  between_reads := fun _ => None;
|}.
#[local] Instance demo_sane : Sane nat.
Proof.
  assert (forall now m a b s, s ∈ fst (run_video now m a b) -> s = black_picture b /\ 0 <= b) as Hv.
  { intros now m a b s Hs. cbn in Hs. destruct (m =? 0)%nat, (Z.leb_spec 0 b); cbn in Hs; try by apply elem_of_nil in Hs.
    by apply list_elem_of_singleton in Hs. }
  split.
  - intros now m a b s f Hs Hf. destruct (Hv _ _ _ _ _ Hs) as [-> _]. injection Hf as <-. split; [done|]. split; [done|].
    intros row Hrow. cbn in *. lia.
  - intros now m a b s t Hs Ht. destruct (Hv _ _ _ _ _ Hs) as [-> Hb]. injection Ht as <-. lia.
  - intros now m a b s d t Hs _. by apply elem_of_nil in Hs.
  - done.
  - done.
  - by left.
Qed.
#[local] Instance demo_hashing : Hashing := {| iterate := map_to_list; iterate_entries m := reflexivity (map_to_list m) |}.

Definition demo_season : list (Episode (Media := nat)) :=
  [episode_new 0%nat "e1.mkv" (F64.lit 600 0); episode_new 1%nat "e2.mkv" (F64.lit 600 0)].
Definition demo_result := analysis demo_season (config_default false) start_state.
Definition demo_rows : list EpisodeSegments := match fst demo_result with Ok rows => rows | Err _ => [] end.
Lemma demo_ok : Forall episode_ok demo_season /\ NoDup (map media demo_season).
Proof.
  assert (ok (F64.lit 600 0) /\ value (F64.lit 600 0) = 600%R) as [Ho Vo] by constant 600.
  split; [|apply (bool_decide_unpack _); by vm_compute].
  repeat constructor; cbn [ep_duration episode_new]; try apply Ho; rewrite Vo; lra.
Qed.
Lemma demo_runs : analysis demo_season (config_default false) start_state = (Ok demo_rows, snd demo_result).
Proof. vm_compute. reflexivity. Qed.
Lemma demo_first : exists row, demo_rows !! 0%nat = Some row /\ credits_source row = Some "blackframe"%string /\ seg_unreadable row = true.
Proof. eexists. split; [vm_compute; reflexivity|]. by vm_compute. Qed.

Lemma analysis_ends_witness : exists rows, fst demo_result = Ok rows /\ length rows = 2%nat.
Proof.
  destruct demo_ok as [Hok Hnd]. pose proof (analysis_ends demo_season false Hok) as He.
  exists demo_rows. split; [exact (f_equal fst demo_runs)|]. change (fst (analysis demo_season (config_default false) start_state)) with (fst demo_result) in He.
  rewrite (f_equal fst demo_runs : fst demo_result = _) in He. exact He.
Defined.
Lemma unreadable_exact_witness : (1%nat, false) ∈ reads (snd demo_result).
Proof.
  destruct demo_ok as [Hok Hnd].
  apply (unreadable_exact demo_season false demo_rows (snd demo_result) 1 (episode_new 1%nat "e2.mkv" (F64.lit 600 0))
    (nth 1 demo_rows (unprobeable_row (mkProbed 0%nat "" None))) Hok Hnd demo_runs); [done|by vm_compute|by vm_compute].
Defined.
Lemma rows_sound_witness :
  exists row r, demo_rows !! 0%nat = Some row /\ credits row = Some r /\ (0 < value (r_start r))%R.
Proof.
  destruct demo_ok as [Hok Hnd]. destruct demo_first as (row & Hrow & Hsrc & _).
  destruct (rows_sound demo_season false demo_rows (snd demo_result) 0 (episode_new 0%nat "e1.mkv" (F64.lit 600 0)) row Hok demo_runs eq_refl Hrow)
    as (_ & _ & Hc).
  destruct (credits row) as [r|] eqn:Hr.
  - exists row, r. split; [done|]. split; [done|]. destruct (Hc r eq_refl) as [[Hs _]|[_ (_ & _ & Hb & _)]]; [congruence|exact Hb].
  - exfalso. assert (row = nth 0 demo_rows row) as Hn by (by rewrite (nth_lookup demo_rows), Hrow).
    rewrite Hn in Hr. revert Hr. clear. vm_compute. discriminate.
Defined.
Definition demo_paths : list (ProbedPath (Media := nat)) :=
  [mkProbed 0%nat "e1.mkv" (Some 600000); mkProbed 7%nat "e2.part" None; mkProbed 1%nat "e3.mkv" (Some 600000)].
Lemma rows_in_place_witness : exists report, analyze_paths (config_default false) fzero demo_paths = Ok report
  /\ map seg_name (report_episodes report) = ["e1.mkv"; "e2.part"; "e3.mkv"]%string.
Proof.
  destruct (analyze_paths (config_default false) fzero demo_paths) as [report|] eqn:Hr; [|revert Hr; by vm_compute].
  exists report. split; [done|]. destruct (rows_in_place (config_default false) fzero demo_paths report Hr) as [Hrows _].
  inversion Hrows as [|? ? ? ? [N1 _] Hr1]; subst. inversion Hr1 as [|? ? ? ? [N2 _] Hr2]; subst.
  inversion Hr2 as [|? ? ? ? [N3 _] Hr3]; subst. inversion Hr3; subst. cbn [map]. by rewrite N1, N2, N3.
Defined.
