(* ===== verification/Detect.v ===== *)
(** * Segment detection between a hub and a mediahost (kahawai-mediahost,
    src/segments.rs and [resolve_rel] of src/serve.rs; kahawai-hub,
    src/sessions/catalogue.rs [rendition_segments])

    A job names exact files; the mediahost resolves and checks them, has the
    season analysed, and answers in milliseconds; the hub keeps the answer as a
    fact about the file and projects it on the playback timeline. The class
    [FileSystem] is the operating system: canonical paths, what a path is, and
    its metadata before and after the analysis. A failure of the whole job is
    [Failed]; its text is an argument. *)
From Stdlib Require Import SpecFloat.
From S2P Require Import Prelude Floats Utf8 Media Segments Playback HubPlanning Scheduler Names Decode Chroma Season.
#[local] Open Scope Z_scope.

(** ** Milliseconds *)

(** [Duration::try_from_secs_f64], in nanoseconds: rounded to the nearest, ties
    to the even one. *)
Definition round_half_even (n d : Z) : Z :=
  let q := n / d in
  let r := n mod d in
  match 2 * r ?= d with
  | Lt => q
  | Gt => q + 1
  | Eq => if Z.even q then q else q + 1
  end.
Definition try_from_secs_f64 (x : float) : option Z :=
  match x with
  | S754_zero _ => Some 0
  | S754_finite false m e =>
      if 2 ^ 64 <=? Zpos m * 2 ^ Z.max e 0 / 2 ^ Z.max (- e) 0 then None
      else Some (round_half_even (Zpos m * 2 ^ Z.max e 0 * 1000000000) (2 ^ Z.max (- e) 0))
  | _ => None
  end.
(** [Milliseconds::from_seconds], and back. *)
Definition from_seconds (x : float) : result Trouble Z :=
  let? nanos := ok_or (try_from_secs_f64 x) Failed in
  let rounded := (nanos + 500000) / 1000000 in
  ensure (rounded <=? u64_max) Failed (Ok rounded).
Definition as_seconds (ms : Z) : float := ms_seconds ms.

Definition range_new (start end_ : Z) : result Trouble (Z * Z) := ensure (start <? end_) Failed (Ok (start, end_)).
Definition range_from_seconds (r : Range) : result Trouble (Z * Z) :=
  let? start := from_seconds (r_start r) in
  let? end_ := from_seconds (r_end r) in
  range_new start end_.
Definition ending_at (r : Range) (end_ : Z) : result Trouble (Z * Z) :=
  let? start := from_seconds (r_start r) in range_new start end_.

(** ** Messages *)

Record SourcePath := mkSource { sp_root_token : string; sp_path_rel : string }.
#[global] Instance SourcePath_eq_dec : EqDecision SourcePath.
Proof. solve_decision. Defined.
Record SegmentEpisode := mkSegmentEpisode {
  item_id : string;
  source : option SourcePath;
  expected_size : Z;
  expected_mtime_unix : Z;
  duration_ms : Z;
}.
Record DetectSegments := mkDetect {
  request_id : string;
  detector : Z;
  ds_collection_id : string;
  ds_anime : bool;
  ds_episodes : list SegmentEpisode;
}.
Record DetectedSegment := mkDetected { kind : string; start_ms : Z; end_ms : Z; analyzer : string }.
Record SegmentEpisodeResult := mkEpisodeResult {
  res_item_id : string;
  res_source : option SourcePath;
  observed_size : Z;
  observed_mtime_unix : Z;
  res_unreadable : bool;
  res_error : string;
  segments : list DetectedSegment;
  retryable : bool;
}.
Record SegmentDetectionResult := mkDetection {
  det_request_id : string;
  det_detector : Z;
  elapsed_ms : Z;
  det_episodes : list SegmentEpisodeResult;
  det_error : string;
  det_collection_id : string;
}.
Record SegmentDetectionAccepted := mkAccepted {
  acc_request_id : string; acc_state : string; acc_error : string; unsupported : bool;
}.

Definition segment (kind : string) (range : Z * Z) (analyzer : string) : DetectedSegment :=
  mkDetected kind (fst range) (snd range) analyzer.
Definition preflight_failure (e : SegmentEpisode) (size mtime : Z) (error : string) : SegmentEpisodeResult :=
  mkEpisodeResult (item_id e) (source e) size mtime true error [] false.
Definition failed (job : DetectSegments) (error : string) : SegmentDetectionResult :=
  mkDetection (request_id job) (detector job) 0
    (map (fun e => mkEpisodeResult (item_id e) (source e) (expected_size e) (expected_mtime_unix e) true error [] true)
       (ds_episodes job))
    error (ds_collection_id job).

(** ** Files *)

Class FileSystem := {
  canonicalize : string -> result string string;
  is_file : string -> bool;
  (* before and after the analysis: size, and the seconds since the epoch of
     the last change, where the system tells *)
  metadata : bool -> string -> result string (Z * option Z);
  digest : string -> string;
}.
Record CollectionConfig := mkCollection { col_name : string; media_type : string; roots : list string }.

(** [Path::join] and the components [Path::starts_with] compares, of canonical
    paths. *)
Definition slash : Ascii.ascii := byte 47.
Definition path_join (root rel : string) : string :=
  match rel with
  | String c _ => if Ascii.eqb c slash then rel else (root ++ String slash rel)%string
  | EmptyString => (root ++ String slash "")%string
  end.
Definition components (p : string) : list string := List.filter (fun c => negb (c =s "")) (split_char slash p).
Fixpoint is_prefix (p l : list string) : bool :=
  match p, l with
  | [], _ => true
  | a :: p, b :: l => (a =s b) && is_prefix p l
  | _, [] => false
  end.
Definition path_starts_with (p root : string) : bool := is_prefix (components root) (components p).

(** [duration.as_secs() as i64], zero before the epoch. *)
Definition mtime_unix (modified : option Z) : Z :=
  match modified with
  | Some s => if s <? 0 then 0 else let v := wrap 64 s in if v <? 2 ^ 63 then v else v - 2 ^ 64
  | None => 0
  end.

Section Mediahost.
Context `{!FileSystem, !Unicode}.

Definition resolve_rel (collections : list CollectionConfig) (collection_id root_token path_rel : string)
    : result string string :=
  let? col := ok_or (List.find (fun c => col_name c =s collection_id) collections) ("unknown collection " ++ collection_id)%string in
  ensure (negb (root_token =s "")) "exact source has an empty root token"%string
    (let? configured := ok_or (List.find (fun r => token r =s root_token) (resolved_roots digest (roots col)))
       ("unknown root token " ++ root_token ++ " in collection " ++ collection_id)%string in
     match canonicalize (path configured) with
     | Err e => Err ("root unavailable: " ++ path configured ++ ": " ++ e)%string
     | Ok root =>
         match canonicalize (path_join root path_rel) with
         | Ok candidate =>
             ensure (path_starts_with candidate root && is_file candidate)
               ("path not found or outside exact collection root: " ++ path_rel)%string (Ok candidate)
         | Err _ => Err ("path not found or outside exact collection root: " ++ path_rel)%string
         end
     end).

(** ** Before the analysis *)

Record Prepared := mkPrepared { p_request : SegmentEpisode; p_path : string }.

(** One turn of the loop: the episode is prepared, or its failure is noted. *)
Definition preflight (collections : list CollectionConfig) (collection_id : string) (e : SegmentEpisode)
    : result Trouble (Prepared + SegmentEpisodeResult) :=
  let? src := ok_or (source e) Failed in
  Ok match resolve_rel collections collection_id (sp_root_token src) (sp_path_rel src) with
     | Err error => inr (preflight_failure e 0 0 error)
     | Ok path =>
         match metadata false path with
         | Err error => inr (preflight_failure e 0 0 ("source metadata unavailable: " ++ error)%string)
         | Ok (size, modified) =>
             let mtime := mtime_unix modified in
             if negb (size =? expected_size e) || negb (mtime =? expected_mtime_unix e)
             then inr (preflight_failure e size mtime "source revision changed before analysis")
             else inl (mkPrepared e path)
         end
     end.

Definition season_episode (anime : bool) (p : Prepared) : Season.Episode (Media := string) :=
  let name := map_or "" sp_path_rel (source (p_request p)) in
  Season.mkEpisode (p_path p) name (as_seconds (duration_ms (p_request p))) (item_id (p_request p))
    (Names.episode <$> (if anime then parse_anime name else parse_episode name)).

Definition SEGMENT_COMPARISON_INSUFFICIENT : string := "fewer than two readable episodes remain".
Definition insufficient (p : Prepared) : SegmentEpisodeResult :=
  let e := p_request p in
  mkEpisodeResult (item_id e) (source e) (expected_size e) (expected_mtime_unix e) true SEGMENT_COMPARISON_INSUFFICIENT [] true.

(** ** After it *)

(** What the file has become: its size and time, and what is wrong with it. *)
Definition stale (p : Prepared) : Z * Z * option string :=
  match metadata true (p_path p) with
  | Ok (size, modified) =>
      let mtime := mtime_unix modified in
      (size, mtime,
       if negb (size =? expected_size (p_request p)) || negb (mtime =? expected_mtime_unix (p_request p))
       then Some "source revision changed during analysis"%string else None)
  | Err error => (0, 0, Some ("source vanished after analysis: " ++ error)%string)
  end.
Definition boundary (kind analyzer : string) (range : result Trouble (Z * Z)) : result Trouble (list DetectedSegment) :=
  let? r := range in Ok [segment kind r analyzer].
Definition boundaries (p : Prepared) (answer : EpisodeSegments) : result Trouble (list DetectedSegment) :=
  let? recap := match recap answer with
                | Some r => boundary "recap" "blackframe" (range_from_seconds r) | None => Ok [] end in
  let? intro := match intro answer with
                | Some r => boundary "intro" "chromaprint" (range_from_seconds r) | None => Ok [] end in
  let? credits :=
    match credits answer with
    | Some r =>
        let analyzer := unwrap_or (credits_source answer) "chromaprint"%string in
        boundary "credits" analyzer
          (if analyzer =s "blackframe" then ending_at r (duration_ms (p_request p)) else range_from_seconds r)
    | None => Ok []
    end in
  Ok (recap ++ intro ++ credits).
Definition episode_result (pa : Prepared * EpisodeSegments) : result Trouble SegmentEpisodeResult :=
  let '(p, answer) := pa in
  let '(size, mtime, stale_error) := stale p in
  let? segments := if is_some stale_error then Ok [] else boundaries p answer in
  let unreadable := seg_unreadable answer || is_some stale_error in
  let error := match stale_error with
               | Some error => error
               | None => if seg_unreadable answer then "segment analyzer could not read source"%string else ""%string
               end in
  Ok (mkEpisodeResult (item_id (p_request p)) (source (p_request p)) size mtime unreadable error segments false).

Context `{!Pipelines string} `{!Hashing}.

Definition analyze (collections : list CollectionConfig) (elapsed : float) (job : DetectSegments)
    : result Trouble SegmentDetectionResult :=
  ensure (2 <=? length (ds_episodes job))%nat Failed
    (let? checked := collect (map (preflight collections (ds_collection_id job)) (ds_episodes job)) in
     let prepared := omap (fun c => match c with inl p => Some p | inr _ => None end) checked in
     let failures := omap (fun c => match c with inl _ => None | inr r => Some r end) checked in
     let episodes := map (season_episode (ds_anime job)) prepared in
     if single episodes then
       Ok (mkDetection (request_id job) (detector job) 0 (failures ++ map insufficient prepared) "" (ds_collection_id job))
     else
       let? report := Season.analyze episodes (Season.config_default (ds_anime job)) elapsed in
       let? results := collect (map episode_result (zip prepared (report_episodes report))) in
       let? elapsed_ms := from_seconds (report_seconds report) in
       Ok (mkDetection (request_id job) (detector job) elapsed_ms (results ++ failures) "" (ds_collection_id job))).

(** One turn of [run]: what is sent at once, and the answer of a job that was
    taken on. A panic of the analysis is an error of its task. *)
Definition run_job (text : Trouble -> string) (unsupported_text : string)
    (collections : list CollectionConfig) (elapsed : float) (job : DetectSegments)
    : SegmentDetectionAccepted * option SegmentDetectionResult :=
  if negb (detector job =? DETECTOR_GENERATION) then
    (mkAccepted (request_id job) "rejected" unsupported_text true, None)
  else
    (mkAccepted (request_id job) "queued" "" false,
     Some match analyze collections elapsed job with
          | Ok result => result
          | Err e => failed job (text e)
          end).

End Mediahost.

(** ** On the hub *)

(** What [rendition_segments] reads of a file and of a rendition. *)
Record FileInfo := mkFile { fi_id : string; fi_mtime : option Z; fi_chapters : option (list Chapter) }.
Record PlaybackRendition := mkRendition { files : list FileInfo; segment_facts : gmap string SegmentDetectionResult }.
Record Segment := mkSegment { s_kind : string; s_start_ms : Z; s_end_ms : Z; s_source : string }.

(** The result a fact holds for the very bytes of a part. *)
Definition fact_for (part : PartSource) (file : FileInfo) (fact : SegmentDetectionResult) : option SegmentEpisodeResult :=
  match det_episodes fact with
  | [result] =>
      if (det_detector fact =? DETECTOR_GENERATION) && (det_collection_id fact =s collection_id part)
         && (det_error fact =s "") && negb (res_unreadable result) && negb (retryable result) && (res_error result =s "")
         && (observed_size result =? part_size part)
         && bool_decide (fi_mtime file = Some (observed_mtime_unix result))
         && match res_source result with
            | Some s => (sp_root_token s =s HubPlanning.root_token part) && (sp_path_rel s =s part_path_rel part)
            | None => false
            end
      then Some result else None
  | _ => None
  end.
Definition within (part : PartSource) (s : DetectedSegment) : bool :=
  inferred_within_bounds (kind s) (analyzer s) (start_ms s) (end_ms s) (part_duration_ms part).
Notation Found := (gmap string (Z * Z * string)).
Definition inferred (part : PartSource) (result : option SegmentEpisodeResult) : Found :=
  fold_left (fun found s => if within part s then <[kind s := (start_ms s, end_ms s, analyzer s)]> found else found)
    (map_or [] segments result) ∅.
(** Chapter names outrank what was inferred. *)
Definition with_chapters (part : PartSource) (file : FileInfo) (found : Found) : Found :=
  fold_left (fun found s => <[n_kind s := (n_start_ms s, n_end_ms s, "chapter"%string)]> found)
    (map_or [] (fun chapters => named chapters (part_duration_ms part)) (fi_chapters file)) found.
(** [checked_add] and the conversion to [i64]. *)
Definition placed_ms (base ms : Z) : option Z :=
  if (base + ms <=? u64_max) && (base + ms <=? i64_max) then Some (base + ms) else None.
Definition on_timeline (part : PartSource) (entry : string * (Z * Z * string)) : option Segment :=
  let '(kind, (start, end_, source)) := entry in
  s ← placed_ms (part_base_ms part) start;
  e ← placed_ms (part_base_ms part) end_;
  Some (mkSegment kind s e source).
Definition part_segments (r : PlaybackRendition) (part : PartSource) : list Segment :=
  match List.find (fun f => file_id part =s fi_id f) (files r) with
  | None => []
  | Some file =>
      let found := inferred part (segment_facts r !! fi_id file ≫= fact_for part file) in
      omap (on_timeline part) (Placement.btree_iter (with_chapters part file found))
  end.
Definition segment_order (a b : Segment) : comparison :=
  match s_start_ms a ?= s_start_ms b with Eq => s_end_ms a ?= s_end_ms b | c => c end.
Definition rendition_segments (r : PlaybackRendition) (parts : list PartSource) : list Segment :=
  sort_by segment_order (concat (map (part_segments r) parts)).
