(* ===== verification/DetectTheorems.v ===== *)
(** * What the mediahost answers and the hub accepts: proofs

    The answers of a season as spans in real arithmetic, their rounding to
    milliseconds, and the job as a whole: every episode has one result, and the
    hub's bounds hold of what was found by black frames. *)
From Stdlib Require Import SpecFloat Reals Lra.
From S2P Require Import Prelude Floats Utf8 Media Segments Playback HubPlanning Scheduler Names NamesKeys Decode Chroma FloatReal ChromaTheorems ChromaFound Season SeasonFacts SeasonSafety SeasonTheorems SeasonResults Detect.
#[local] Open Scope Z_scope.

(** ** Milliseconds *)

Lemma round_half_even_near n d : 0 <= n -> 0 < d -> 0 <= round_half_even n d /\ 2 * Z.abs (round_half_even n d * d - n) <= d.
Proof.
  intros Hn Hd. unfold round_half_even. pose proof (Z.div_mod n d ltac:(lia)) as Hq. pose proof (Z.mod_pos_bound n d Hd) as Hr.
  pose proof (Z.div_pos n d Hn Hd). set (q := n / d) in *. set (r := n mod d) in *.
  destruct (Z.compare_spec (2 * r) d); [destruct (Z.even q)|..]; split; lia.
Qed.
Lemma try_from_near x :
  ok x -> (0 <= value x <= 16777216)%R ->
  exists nanos, try_from_secs_f64 x = Some nanos /\ 0 <= nanos
    /\ (value x * 1000000000 - 1 / 2 <= IZR nanos <= value x * 1000000000 + 1 / 2)%R.
Proof.
  intros [Hf _] Vx. destruct x as [s| | |[] m e]; try done.
  - exists 0. cbn [value]. split; [done|]. split; [done|lra].
  - exfalso. cbn [value sign] in Vx. pose proof (pow2_pos e). assert (0 < IZR (Zpos m))%R by (by apply IZR_lt). nra.
  - cbn [value sign] in *. rewrite Rmult_1_l in *. unfold try_from_secs_f64.
    set (d := 2 ^ Z.max (- e) 0). set (n := Zpos m * 2 ^ Z.max e 0). assert (0 < d) as Hd by (apply Z.pow_pos_nonneg; lia).
    assert (0 < n) as Hn by (apply Z.mul_pos_pos; [done|apply Z.pow_pos_nonneg; lia]).
    assert (IZR n = IZR (Zpos m) * pow2 e * IZR d)%R as Hv.
    { unfold n, d. rewrite mult_IZR, !pow2_IZR by lia. rewrite Rmult_assoc, <- pow2_add. f_equal. f_equal. lia. }
    set (v := (IZR (Zpos m) * pow2 e)%R) in *. assert (0 < IZR d)%R as Hd' by (by apply IZR_lt).
    assert (n / d < 2 ^ 64) as Hsmall.
    { apply Z.div_lt_upper_bound; [done|]. apply lt_IZR. rewrite mult_IZR, Hv. assert (16777216 < IZR (2 ^ 64))%R by (apply IZR_lt; lia). nra. }
    rewrite (proj2 (Z.leb_gt _ _)) by done.
    destruct (round_half_even_near (n * 1000000000) d) as [H0 Hr]; [lia|done|]. eexists. split; [done|]. split; [done|].
    set (q := round_half_even (n * 1000000000) d) in *.
    assert (2 * (IZR q * IZR d - IZR n * 1000000000) <= IZR d)%R as H1.
    { rewrite <- !mult_IZR, <- minus_IZR, <- mult_IZR. apply IZR_le. lia. }
    assert (- IZR d <= 2 * (IZR q * IZR d - IZR n * 1000000000))%R as H2.
    { rewrite <- !mult_IZR, <- minus_IZR, <- mult_IZR, <- opp_IZR. apply IZR_le. lia. }
    rewrite Hv in H1, H2. split; apply Rmult_le_reg_r with (IZR d); [done|lra|done|lra].
Qed.
Lemma from_seconds_near x :
  ok x -> (0 <= value x <= 16777216)%R ->
  exists ms, from_seconds x = Ok ms /\ 0 <= ms /\ (value x * 1000 - 51 / 100 <= IZR ms <= value x * 1000 + 51 / 100)%R.
Proof.
  intros Hx Vx. destruct (try_from_near x Hx Vx) as (nanos & Ht & H0 & Hn). unfold from_seconds. rewrite Ht. cbn [ok_or rbind].
  pose proof (Z.div_mod (nanos + 500000) 1000000 ltac:(done)) as Hd. pose proof (Z.mod_pos_bound (nanos + 500000) 1000000 ltac:(done)) as Hm.
  pose proof (Z.div_pos (nanos + 500000) 1000000 ltac:(lia) ltac:(done)) as Hp. set (ms := (nanos + 500000) / 1000000) in *.
  assert (IZR nanos <= 17000000000000000)%R as Hbig by lra. apply le_IZR in Hbig.
  rewrite (proj2 (Z.leb_le _ _)) by (unfold u64_max; lia). exists ms. split; [done|]. split; [done|].
  assert (1000000 * ms <= nanos + 500000) as H1 by lia. assert (nanos + 500000 <= 1000000 * ms + 999999) as H2 by lia.
  apply IZR_le in H1, H2. rewrite !plus_IZR, !mult_IZR in *. lra.
Qed.

(** Running times of at most 46 days. *)
Definition duration_fits (ms : Z) : Prop := 0 <= ms <= 4000000000.
Lemma ms_seconds_near ms : duration_fits ms ->
  near (IZR ms / 1000) (ms_seconds ms) /\ (0 <= value (ms_seconds ms) <= 4194304)%R.
Proof.
  intros Hms. unfold duration_fits in Hms. unfold ms_seconds. destruct (of_int_exact ms) as [Hi Vi]; [lia|].
  destruct (of_int_exact 1000 eq_refl) as [H1 V1]. assert (0 <= IZR ms <= 4000000000)%R as Vm by (split; apply IZR_le; lia).
  assert (near (IZR ms / 1000) (F64.div (F64.of_int ms) (F64.of_int 1000))) as Hn.
  { rewrite <- Vi, <- V1. apply div_near; [done..|]. rewrite Vi, V1. lra. }
  split; [done|]. destruct Hn as [_ Vn]. split; [|lra]. destruct (decide (ms = 0)) as [->|Hne].
  - assert (F64.div (F64.of_int 0) (F64.of_int 1000) = fzero) as -> by (by vm_compute). apply Rle_refl.
  - assert (1 <= IZR ms)%R by (apply IZR_le; lia). lra.
Qed.
Lemma half_nonneg ms : duration_fits ms ->
  ok (F64.div (ms_seconds ms) (F64.lit 2 0)) /\ (0 <= value (F64.div (ms_seconds ms) (F64.lit 2 0)))%R.
Proof.
  intros Hms. destruct (ms_seconds_near ms Hms) as [[Ho Vo] Vr]. destruct lit_2 as [H2 V2].
  destruct (div_near (ms_seconds ms) (F64.lit 2 0)) as [Hd Vd]; [done..|rewrite V2; lra|]. rewrite V2 in Vd. split; [done|].
  destruct (decide (ms = 0)) as [->|Hne].
  - assert (F64.div (ms_seconds 0) (F64.lit 2 0) = fzero) as -> by (by vm_compute). apply Rle_refl.
  - unfold duration_fits in Hms. assert (1 <= IZR ms)%R by (apply IZR_le; lia). lra.
Qed.

(** ** Spans of answers *)

Lemma quarter : ok (F64.lit 25 (-2)) /\ value (F64.lit 25 (-2)) = (1 / 4)%R.
Proof.
  assert (F64.lit 25 (-2) = S754_finite false 4503599627370496 (-54)) as -> by (by vm_compute).
  split; [done|]. cbn [value sign]. change (-54) with (- (54)). rewrite pow2_neg by done. change (2 ^ 54) with 18014398509481984. lra.
Qed.
Lemma epsilon_small : ok EPSILON /\ (0 <= value EPSILON <= 1 / 100)%R.
Proof.
  assert (EPSILON = S754_finite false 4611686018427388 (-62)) as -> by (by vm_compute).
  split; [by vm_compute|]. cbn [value sign]. change (-62) with (- (62)). rewrite pow2_neg by done.
  change (2 ^ 62) with 4611686018427387904. lra.
Qed.

Section Spans.
Context {Media : Type} `{!Pipelines Media} `{!Sane Media}.
Context (episodes : list (Episode (Media := Media))) (is_anime : bool).
Let cfg := config_default is_anime.

(** Documented of the fingerprinter and of a run over a window: the points of a
    window span no more than the window and a second. *)
Definition fingerprints_fit : Prop :=
  forall now (m : Media) a b points, fingerprint now m a b = Ok points ->
    (fingerprint_end points <= Rmax (value b - value a) 0 + 1)%R.
Hypothesis fits : fingerprints_fit.
Hypothesis episodes_ok : Forall episode_ok episodes.

Section One.
Context (i : nat) (e : Episode (Media := Media)) (ms : Z).
Hypothesis here : episodes !! i = Some e.
Hypothesis duration_ms_fits : duration_fits ms.
Hypothesis duration_is : ep_duration e = ms_seconds ms.

Lemma window_within mode :
  let w := window_of is_anime mode e in
  (0 <= value (fst w))%R /\ (value (fst w) + Rmax (value (snd w) - value (fst w)) 0 <= value (ep_duration e) + 1 / 10000)%R.
Proof.
  destruct (ms_seconds_near ms duration_ms_fits) as [[Ho _] Vd]. rewrite <- duration_is in Ho, Vd.
  unfold window_of. destruct mode; cbn [intro_window credits_window fst snd].
  - split; [apply Rle_refl|]. cbn [value fzero]. rewrite Rplus_0_l, Rminus_0_r.
    destruct quarter as [Hq Vq]. set (p := if fge _ _ then _ else _).
    assert (ok p /\ (value p <= value (ep_duration e) + 1 / 10000)%R) as [Hp Vp].
    { unfold p. destruct (fge _ _); [|split; [done|lra]].
      destruct (mul_near (ep_duration e) (F64.lit 25 (-2))) as [Hm Vm]; [done..|rewrite Vq; lra|]. rewrite Vq in Vm. split; [exact Hm|].
      change (analysis_percent (config_default is_anime)) with (F64.lit 25 (-2)). lra. }
    assert (ok (analysis_length_limit cfg)) as Hl by (by vm_compute). destruct (fmin_value p (analysis_length_limit cfg) Hp Hl) as [_ Vm].
    change (analysis_length_limit (config_default is_anime)) with (analysis_length_limit cfg). rewrite Vm.
    apply Rmax_lub; [eapply Rle_trans; [apply Rmin_l|lra]|lra].
  - destruct (window_cap episodes is_anime episodes_ok i e here) as (_ & Vs & _).
    unfold Rmax. destruct (Rle_dec _ 0); cbn [fst credits_window] in Vs; lra.
Qed.

(** A shared region lies within the file up to a second, and is fifteen
    seconds long. *)
Lemma origin_span mode prints r :
  prints_ok episodes is_anime mode prints -> origin episodes is_anime mode prints search_default Longest i r ->
  ok (r_start r) /\ ok (r_end r) /\ (0 <= value (r_start r))%R /\ (value (r_start r) + 14 <= value (r_end r))%R
  /\ (value (r_end r) <= value (ep_duration e) + 101 / 100)%R.
Proof.
  intros Hp (e' & He' & [[Hs Vs] [He Ve]] & (c & rem & other & pc & pr & left & right & _ & _ & Hpc & Hpr & Hcw & Hv & _ & _ & Hside) & Hhalf).
  rewrite here in He'. injection He' as <-.
  pose proof (taken_points _ _ _ _ _ (Hp _ _ Hpc)) as Fc. pose proof (taken_points _ _ _ _ _ (Hp _ _ Hpr)) as Fr.
  destruct (compare_sound pc pr search_default Longest left right Fc Fr Hcw) as [ML MR].
  destruct (compare_long pc pr left right Fc Fr Hcw Hv) as [SL SR].
  destruct (compare_ends pc pr search_default Longest left right Fc Fr Hcw) as [EL ER].
  destruct (ms_seconds_near ms duration_ms_fits) as [[Hdo _] Vd]. rewrite <- duration_is in Hdo, Vd.
  destruct (window_within mode) as [W0 W1].
  assert (forall pts, prints !! i = Some pts -> (fingerprint_end pts <= Rmax (value (snd (window_of is_anime mode e)) - value (fst (window_of is_anime mode e))) 0 + 1)%R) as Hfit.
  { intros pts Hpts. destruct (Hp _ _ Hpts) as (e' & He' & Hcase). rewrite here in He'. injection He' as <-.
    destruct Hcase as [->|(now & Hf)]; [|by eapply fits]. unfold fingerprint_end. cbn [length INR].
    pose proof (Rmax_r (value (snd (window_of is_anime mode e)) - value (fst (window_of is_anime mode e))) 0). lra. }
  assert (exists side, r = placed is_anime mode i e side /\ moderate_range side /\ (15 - 1 / 10000 <= span side)%R
    /\ (value (r_end side) <= Rmax (value (snd (window_of is_anime mode e)) - value (fst (window_of is_anime mode e))) 0 + 1)%R) as (side & -> & [[Hso Vso] [Heo Veo]] & Sp & Ee).
  { destruct Hside as [[-> ->]|[-> ->]]; eexists; (split; [reflexivity|]); (split; [assumption|]); (split; [assumption|]);
      (eapply Rle_trans; [eassumption|by apply Hfit]). }
  unfold span in Sp. unfold placed in *. destruct mode.
  - cbn [window_of fst] in W0, W1, Ee. change (value (fst (intro_window (config_default is_anime) e))) with 0%R in *. split_and!; [done|done|lra|lra|lra].
  - cbn [window_of] in W0, W1, Ee. unfold shifted in *. cbn [r_start r_end] in *.
    destruct (window_cap episodes is_anime episodes_ok i e here) as (Hwo & Vw & _).
    destruct (add_near (r_start side) (fst (credits_window (config_default is_anime) e))) as [H1 V1]; [done..|lra|].
    destruct (add_near (r_end side) (fst (credits_window (config_default is_anime) e))) as [H2 V2]; [done..|lra|].
    specialize (Hhalf eq_refl). destruct (half_nonneg ms duration_ms_fits) as [Hho Vh]. rewrite <- duration_is in Hho, Vh.
    destruct (flt_cases (F64.add (r_start side) (fst (credits_window (config_default is_anime) e))) (F64.div (ep_duration e) (F64.lit 2 0))) as [[Hlt _]|[_ Hge]];
      [done..|congruence|]. split_and!; [done|done|lra|lra|lra].
Qed.

(** Refining keeps most of it. *)
Lemma answer_span mode prints r :
  prints_ok episodes is_anime mode prints -> answer episodes is_anime mode prints search_default Longest true i r ->
  ok (r_start r) /\ ok (r_end r) /\ (0 <= value (r_start r))%R /\ (value (r_start r) + 8 <= value (r_end r))%R
  /\ (value (r_end r) <= 12600000)%R.
Proof.
  intros Hp ([[Hs Vs] [He Ve]] & e' & raw & He' & Ho & Href). rewrite here in He'. injection He' as <-.
  destruct (origin_span mode prints raw Hp Ho) as (Hrs & Hre & R0 & R14 & Rend).
  assert (sound_range raw) as Hraw by (by destruct Ho as (? & _ & Hsr & _)).
  destruct Href as (t & Hend & ->). apply (settled_within episodes is_anime episodes_ok i e raw here Hraw) in Hend.
  destruct (fge _ t) eqn:Hlt; [split_and!; [done|done|lra..]|]. cbn [r_start r_end] in *.
  split; [done|]. split; [done|].
  assert (0 <= value (if near_start (r_start raw) then fzero else r_start raw) <= value (r_start raw))%R as V0.
  { destruct (near_start _); cbn [value fzero]; lra. }
  destruct (ms_seconds_near ms duration_ms_fits) as [[Hdo _] Vd]. rewrite <- duration_is in Hdo, Vd.
  split; [lra|]. split; [|lra]. destruct Hend as [->|[->|[Hlo _]]]; [lra|lra|].
  rewrite fge_fle in Hlo. rewrite <- (about_window is_anime) in Hlo. unfold refinement_window in Hlo. cbn [r_start] in Hlo.
  destruct (lit_5 is_anime) as [H5 V5]. destruct (sub_near (r_end raw) (adjust_window_inward (config_default is_anime))) as [Hsb Vsb]; [done..|rewrite V5; lra|].
  destruct (fmax_value _ fzero Hsb ltac:(done)) as [Hx Vx]. apply fle_value in Hlo; [|done..]. rewrite Vx in Hlo. rewrite V5 in Vsb.
  pose proof (Rmax_l (value (F64.sub (r_end raw) (adjust_window_inward (config_default is_anime)))) (value fzero)). lra.
Qed.
End One.
End Spans.

(** ** Boundaries *)

Lemma range_ok r :
  ok (r_start r) -> ok (r_end r) -> (0 <= value (r_start r))%R -> (value (r_start r) + 8 <= value (r_end r))%R ->
  (value (r_end r) <= 12600000)%R -> exists range, range_from_seconds r = Ok range.
Proof.
  intros Hs He V0 V8 Vb. unfold range_from_seconds.
  destruct (from_seconds_near (r_start r) Hs) as (s & -> & _ & Ns); [lra|].
  destruct (from_seconds_near (r_end r) He) as (t & -> & _ & Nt); [lra|]. cbn [rbind]. unfold range_new.
  assert (s < t) as Hst by (apply lt_IZR; lra). rewrite (proj2 (Z.ltb_lt _ _)) by done. by eexists.
Qed.
Lemma recap_range r ms dur :
  duration_fits ms -> dur = ms_seconds ms ->
  r_start r = fzero -> ok (r_end r) -> (15 < value (r_end r) <= 120)%R -> (value (r_end r) <= value dur)%R ->
  exists range, range_from_seconds r = Ok range /\ inferred_within_bounds "recap" "blackframe" (fst range) (snd range) ms = true.
Proof.
  intros Hms -> Hs He Ve Vd. destruct (ms_seconds_near ms Hms) as [[_ Vms] _]. unfold range_from_seconds. rewrite Hs.
  change (from_seconds fzero) with (Ok 0 : result Trouble Z). cbn [rbind].
  destruct (from_seconds_near (r_end r) He) as (t & -> & _ & Nt); [lra|]. cbn [rbind]. unfold range_new.
  assert (15000 <= t) as H15 by (apply Z.lt_pred_le, lt_IZR; change (Z.pred 15000) with 14999; lra).
  assert (t <= 120000) as H120 by (apply Z.lt_succ_r, lt_IZR; change (Z.succ 120000) with 120001; lra).
  assert (t <= ms) as Hle by (apply Z.lt_succ_r, lt_IZR; rewrite succ_IZR; lra).
  rewrite (proj2 (Z.ltb_lt _ _)) by lia. eexists. split; [done|]. cbn [fst snd]. unfold inferred_within_bounds.
  rewrite (proj2 (Z.leb_gt _ _)), (proj2 (Z.ltb_ge _ _)) by lia. cbn [orb String.eqb Ascii.eqb Bool.eqb andb Z.eqb].
  unfold RECAP_MIN_MS, RECAP_MAX_MS. rewrite !(proj2 (Z.leb_le _ _)) by lia. done.
Qed.
Lemma credits_range {Media} (e : Episode (Media := Media)) r ms :
  duration_fits ms -> ep_duration e = ms_seconds ms -> black_range e r ->
  exists range, ending_at r ms = Ok range /\ inferred_within_bounds "credits" "blackframe" (fst range) (snd range) ms = true.
Proof.
  intros Hms Hdur (_ & Hs & V0 & Vs). rewrite Hdur in Vs. destruct (ms_seconds_near ms Hms) as [[_ Vms] Vr]. unfold ending_at.
  destruct (from_seconds_near (r_start r) Hs) as (s & -> & S0 & Ns); [lra|]. cbn [rbind]. unfold range_new.
  assert (s <= ms - 15000) as Hle by (apply Z.lt_succ_r, lt_IZR; rewrite succ_IZR, minus_IZR; lra).
  assert (ms - 450000 <= s) as Hge by (apply le_IZR; rewrite minus_IZR; lra).
  rewrite (proj2 (Z.ltb_lt _ _)) by lia. eexists. split; [done|]. cbn [fst snd]. unfold inferred_within_bounds.
  rewrite (proj2 (Z.leb_gt _ _)), (proj2 (Z.ltb_ge _ _)) by lia. cbn [orb String.eqb Ascii.eqb Bool.eqb andb].
  rewrite Z.eqb_refl. unfold BLACK_CREDITS_MIN_MS, CREDITS_WINDOW_MS, sat_sub. rewrite !(proj2 (Z.leb_le _ _)) by lia. done.
Qed.

Section Job.
Context `{!FileSystem, !Unicode} `{!Pipelines string} `{!Sane string} `{Hashed : !Hashing}.
Hypothesis fits : fingerprints_fit (Media := string).

(** A segment of an episode: where black frames answered, one the hub accepts. *)
Definition acceptable (ms : Z) (s : DetectedSegment) : Prop :=
  analyzer s = "blackframe"%string -> inferred_within_bounds (kind s) (analyzer s) (start_ms s) (end_ms s) ms = true.

Lemma boundaries_ok is_anime (prepared : list Prepared) rows s i p row :
  Forall (fun p => duration_fits (duration_ms (p_request p))) prepared ->
  analysis (map (season_episode is_anime) prepared) (Season.config_default is_anime) start_state = (Ok rows, s) ->
  prepared !! i = Some p -> rows !! i = Some row ->
  exists segs, boundaries p row = Ok segs /\ Forall (acceptable (duration_ms (p_request p))) segs /\ NoDup (map kind segs).
Proof.
  intros Hfit Ha Hp Hrow. set (episodes := map (season_episode is_anime) prepared) in *.
  assert (Forall episode_ok episodes) as Hok.
  { apply Forall_map. eapply Forall_impl; [exact Hfit|]. intros q Hq. destruct (ms_seconds_near _ Hq) as [[Ho _] Vd]. done. }
  assert (episodes !! i = Some (season_episode is_anime p)) as He by (unfold episodes; by rewrite list_lookup_fmap, Hp).
  pose proof (Forall_lookup_1 _ _ _ _ Hfit Hp) as Hms. cbn beta in Hms.
  destruct (rows_sound_spec episodes is_anime rows s i (season_episode is_anime p) row Hok Ha He Hrow) as (Hintro & Hrecap & Hcredits).
  assert (forall mode prints r, prints_ok episodes is_anime mode prints -> answer episodes is_anime mode prints search_default Longest true i r ->
    exists range, range_from_seconds r = Ok range) as Hshared.
  { intros mode prints r Hpr Hans.
    destruct (answer_span episodes is_anime fits Hok i (season_episode is_anime p) (duration_ms (p_request p)) He Hms eq_refl mode prints r Hpr Hans)
      as (H1 & H2 & H3 & H4 & H5). by apply range_ok. }
  unfold boundaries. set (ms := duration_ms (p_request p)) in *.
  assert (exists segs, match recap row with Some r => boundary "recap" "blackframe" (range_from_seconds r) | None => Ok [] end = Ok segs
    /\ Forall (acceptable ms) segs /\ (map kind segs = [] \/ map kind segs = ["recap"%string])) as (s1 & -> & F1 & K1).
  { destruct (recap row) as [r|]; [|exists []; by split_and!; [| |left]]. destruct (Hrecap r eq_refl) as (H1 & H2 & H3 & H4 & _).
    destruct (recap_range r ms (ms_seconds ms) Hms eq_refl H1 H2 H3 H4) as (range & Hr & Hb). unfold boundary. rewrite Hr.
    eexists. split; [done|]. split; [|by right]. apply Forall_singleton. by intros _. }
  assert (exists segs, match intro row with Some r => boundary "intro" "chromaprint" (range_from_seconds r) | None => Ok [] end = Ok segs
    /\ Forall (acceptable ms) segs /\ (map kind segs = [] \/ map kind segs = ["intro"%string])) as (s2 & -> & F2 & K2).
  { destruct (intro row) as [r|]; [|exists []; by split_and!; [| |left]]. destruct (Hintro r eq_refl) as (prints & Hpr & Hans).
    destruct (Hshared _ _ _ Hpr Hans) as (range & Hr). unfold boundary. rewrite Hr. eexists. split; [done|]. split; [|by right]. by apply Forall_singleton. }
  assert (forall s3, Forall (acceptable ms) s3 -> map kind s3 = [] \/ map kind s3 = ["credits"%string] ->
    Forall (acceptable ms) (s1 ++ s2 ++ s3) /\ NoDup (map kind (s1 ++ s2 ++ s3))) as Hall.
  { intros s3 F3 K3. split; [by repeat (apply Forall_app; split)|]. rewrite !map_app.
    destruct K1 as [->| ->], K2 as [->| ->], K3 as [->| ->]; apply (bool_decide_unpack _); by vm_compute. }
  cbn [rbind]. destruct (credits row) as [r|]; cycle 1.
  { cbn [rbind]. eexists. split; [done|]. apply Hall; [done|by left]. }
  destruct (Hcredits r eq_refl) as [[-> (prints & Hpr & Hans)]|[-> Hblack]]; cbn [unwrap_or].
  - change ("chromaprint" =s "blackframe") with false. cbv iota. destruct (Hshared _ _ _ Hpr Hans) as (range & Hr). unfold boundary. rewrite Hr.
    cbn [rbind]. eexists. split; [done|]. apply Hall; [by apply Forall_singleton|by right].
  - change ("blackframe" =s "blackframe") with true. cbv iota. destruct (credits_range (season_episode is_anime p) r ms Hms eq_refl Hblack) as (range & Hr & Hb).
    unfold boundary. rewrite Hr. cbn [rbind]. eexists. split; [done|]. apply Hall; [|by right].
    apply Forall_singleton. by intros _.
Qed.

(** ** The job *)

Lemma collect_each {A B} (f : A -> result Trouble B) (P : A -> B -> Prop) l :
  (forall a, a ∈ l -> exists b, f a = Ok b /\ P a b) -> exists bs, collect (map f l) = Ok bs /\ Forall2 P l bs.
Proof.
  induction l as [|a l IH]; intros Hl; [by exists []|]. destruct (Hl a) as (b & Hb & Pb); [left|].
  destruct IH as (bs & Hbs & Pbs); [intros x Hx; apply Hl; by right|]. exists (b :: bs). cbn [map collect]. rewrite Hb. cbn [rbind].
  rewrite Hbs. cbn [rbind]. split; [done|by constructor].
Qed.
(** What becomes of an episode before the analysis keeps its identity. *)
Definition checked_as (e : SegmentEpisode) (c : Prepared + SegmentEpisodeResult) : Prop :=
  match c with
  | inl p => p_request p = e
  | inr r => res_item_id r = item_id e /\ res_source r = source e /\ segments r = []
  end.
Lemma preflight_checked collections cid e :
  is_some (source e) = true -> exists c, preflight collections cid e = Ok c /\ checked_as e c.
Proof.
  intros Hs. unfold preflight. destruct (source e) as [src|] eqn:Hsrc; [|done]. cbn [ok_or rbind]. eexists. split; [reflexivity|].
  destruct (resolve_rel _ _ _ _) as [path|]; [|by split_and!].
  destruct (metadata false path) as [[size modified]|]; [|by split_and!]. destruct (_ || _); [by split_and!|done].
Qed.
(** A result that belongs to an episode of the job. *)
Definition result_for (e : SegmentEpisode) (r : SegmentEpisodeResult) : Prop :=
  res_item_id r = item_id e /\ res_source r = source e /\ Forall (acceptable (duration_ms e)) (segments r)
  /\ NoDup (map kind (segments r)).
Definition prepared_of (checked : list (Prepared + SegmentEpisodeResult)) : list Prepared :=
  omap (fun c => match c with inl p => Some p | inr _ => None end) checked.
Definition failures_of (checked : list (Prepared + SegmentEpisodeResult)) : list SegmentEpisodeResult :=
  omap (fun c => match c with inl _ => None | inr r => Some r end) checked.
(** Results for those prepared, with the failures, are a result for each. *)
Lemma results_for episodes checked results :
  Forall2 checked_as episodes checked -> Forall2 (fun p r => result_for (p_request p) r) (prepared_of checked) results ->
  exists answers, Forall2 result_for episodes answers /\ results ++ failures_of checked ≡ₚ answers.
Proof.
  intros Hc. revert results. induction Hc as [|e c episodes checked He Hc IH]; intros results Hr.
  - inversion Hr; subst. by exists [].
  - unfold prepared_of, failures_of in *. cbn [omap list_omap] in *. destruct c as [p|f].
    + inversion Hr as [|? r ? results' Hpr Hrest]; subst. destruct (IH _ Hrest) as (answers & Ha & Hperm).
      exists (r :: answers). split; [constructor; [|done]; cbn in He; by rewrite He in Hpr|]. cbn [app]. by constructor.
    + destruct (IH _ Hr) as (answers & Ha & Hperm). exists (f :: answers). split.
      * constructor; [|done]. destruct He as (H1 & H2 & H3). split; [done|]. split; [done|]. rewrite H3. split; constructor.
      * rewrite <- Hperm. symmetry. apply Permutation_middle.
Qed.
Lemma prepared_requests episodes checked p :
  Forall2 checked_as episodes checked -> p ∈ prepared_of checked -> p_request p ∈ episodes.
Proof.
  intros Hc. induction Hc as [|e c episodes checked He Hc IH]; intros Hp; [by apply elem_of_nil in Hp|].
  unfold prepared_of in *. cbn [omap list_omap] in Hp. destruct c as [q|f]; [|right; by apply IH].
  apply elem_of_cons in Hp as [->|Hp]; [cbn in He; rewrite He; left|right; by apply IH].
Qed.
Lemma episode_result_for is_anime prepared rows s i p row :
  Forall (fun p => duration_fits (duration_ms (p_request p))) prepared ->
  analysis (map (season_episode is_anime) prepared) (Season.config_default is_anime) start_state = (Ok rows, s) ->
  prepared !! i = Some p -> rows !! i = Some row ->
  exists r, episode_result (p, row) = Ok r /\ result_for (p_request p) r.
Proof.
  intros Hfit Ha Hp Hrow. destruct (boundaries_ok is_anime prepared rows s i p row Hfit Ha Hp Hrow) as (segs & Hb & Hacc & Hk).
  unfold episode_result. destruct (stale p) as [[size mtime] stale_error].
  destruct (is_some stale_error); [|rewrite Hb]; cbn [rbind]; eexists; (split; [reflexivity|]); split_and!; try done; by constructor.
Qed.

(** A job of files with known running times is answered: each episode has
    exactly one result, under its own item and source, whatever could not be
    read, resolved or compared; only the caller's error between two reads makes
    it fail. Every boundary found by black frames keeps the bounds the hub
    checks. *)
Theorem job_answered collections elapsed job ms :
  (2 <= length (ds_episodes job))%nat ->
  Forall (fun e => is_some (source e) = true /\ duration_fits (duration_ms e)) (ds_episodes job) ->
  from_seconds elapsed = Ok ms ->
  match analyze collections elapsed job with
  | Ok result => exists answers, Forall2 result_for (ds_episodes job) answers /\ det_episodes result ≡ₚ answers
  | Err e => e = Failed /\ exists now, between_reads now = Some Failed
  end.
Proof.
  intros Htwo Heps Helapsed. unfold analyze. rewrite (proj2 (Nat.leb_le _ _)) by done. cbn [ensure].
  destruct (collect_each (preflight collections (ds_collection_id job)) checked_as (ds_episodes job)) as (checked & -> & Hc).
  { intros e He. rewrite Forall_forall in Heps. destruct (Heps e He) as [Hs _]. by apply preflight_checked. }
  cbn [rbind]. fold (prepared_of checked) (failures_of checked).
  assert (Forall (fun p => duration_fits (duration_ms (p_request p))) (prepared_of checked)) as Hfit.
  { apply Forall_forall. intros p Hp. rewrite Forall_forall in Heps. by apply Heps, (prepared_requests _ checked). }
  destruct (single _).
  - destruct (results_for (ds_episodes job) checked (map insufficient (prepared_of checked)) Hc) as (answers & Ha & Hperm).
    { apply Forall2_same_length_lookup. split; [by rewrite length_map|]. intros i p r Hp Hr. rewrite list_lookup_fmap, Hp in Hr.
      injection Hr as <-. split; [done|]. split; [done|]. split; constructor. }
    exists answers. split; [done|]. cbn [det_episodes]. rewrite Permutation_app_comm. exact Hperm.
  - pose proof (analysis_spec (map (season_episode (ds_anime job)) (prepared_of checked)) (ds_anime job)) as Hs.
    unfold Season.analyze.
    destruct (analysis _ _ _) as [[rows|err] s] eqn:Ha; cbn [fst rbind report_episodes report_seconds]; cycle 1.
    { apply Hs. apply Forall_map. eapply Forall_impl; [exact Hfit|]. intros q Hq. by destruct (ms_seconds_near _ Hq) as [[Ho _] Vd]. }
    assert (length rows = length (prepared_of checked)) as Hlen.
    { apply analysis_from in Ha as (? & ? & ? & ->). by rewrite length_imap, length_map. }
    destruct (collect_each episode_result (fun pa r => result_for (p_request (fst pa)) r) (zip (prepared_of checked) rows)) as (results & -> & Hres).
    { intros [p row] Hin. apply list_elem_of_lookup in Hin as [i Hi]. apply lookup_zip_with_Some in Hi as (p' & row' & [= -> ->] & Hp & Hrow).
      by apply (episode_result_for (ds_anime job) (prepared_of checked) rows s i). }
    cbn [rbind]. rewrite Helapsed. cbn [rbind det_episodes].
    apply (results_for (ds_episodes job) checked); [done|]. apply Forall2_same_length_lookup.
    pose proof (Forall2_length _ _ _ Hres) as Hl. rewrite length_zip_with in Hl. split; [lia|]. intros i p r Hp Hr.
    destruct (lookup_lt_is_Some_2 rows i) as [row Hrow]; [apply lookup_lt_Some in Hp; lia|].
    apply (Forall2_lookup_lr _ _ _ i (p, row) r Hres); [|done]. apply lookup_zip_with_Some. by exists p, row.
Qed.
End Job.

(** ** On the hub *)

Section Hub.
Context (part : PartSource) (file : FileInfo).

Lemma fold_insert_lookup {A} (accepts : A -> bool) (key : A -> string) (val : A -> Z * Z * string) l (m : gmap string (Z * Z * string)) k :
  NoDup (map key l) ->
  fold_left (fun found s => if accepts s then <[key s := val s]> found else found) l m !! k
  = match List.find (fun s => accepts s && (key s =s k)) l with Some s => Some (val s) | None => m !! k end.
Proof.
  revert m. induction l as [|s l IH]; intros m Hnd; cbn [fold_left List.find]; [done|].
  cbn [map] in Hnd. apply NoDup_cons in Hnd as [Hs Hnd]. rewrite IH by done.
  destruct (accepts s) eqn:Ha; cbn [andb]; [|done].
  destruct (String.eqb_spec (key s) k) as [<-|Hne]; [|by rewrite lookup_insert_ne].
  destruct (List.find _ l) as [s'|] eqn:Hf; [|by rewrite lookup_insert_eq].
  apply List.find_some in Hf as [Hin Hk]. apply andb_true_iff in Hk as [_ Hk]. apply String.eqb_eq in Hk.
  destruct Hs. rewrite <- Hk. apply list_elem_of_fmap. exists s'. split; [done|]. by apply list_elem_of_In.
Qed.

Lemma named_kinds chapters d : NoDup (map n_kind (named chapters d)).
Proof.
  unfold named. rewrite sort_by_perm.
  assert (forall ks, NoDup ks -> NoDup (map n_kind (omap (pick (candidates chapters d)) ks))
    /\ forall k, k ∈ map n_kind (omap (pick (candidates chapters d)) ks) -> k ∈ ks) as Hks.
  { induction ks as [|k ks IH]; intros Hnd; [split; [constructor|done]|]. apply NoDup_cons in Hnd as [Hk Hnd].
    destruct (IH Hnd) as [Hn Hin]. cbn [omap list_omap]. destruct (pick (candidates chapters d) k) as [n|] eqn:Hp.
    - apply pick_elem in Hp as [_ <-]. cbn [map]. split; [constructor; [|done]; intros Hx; by apply Hk, Hin|].
      intros x Hx. apply elem_of_cons in Hx as [->|Hx]; [left|right; by apply Hin].
    - split; [done|]. intros x Hx. right. by apply Hin. }
  apply Hks. apply (bool_decide_unpack _). by vm_compute.
Qed.
Lemma chapters_lookup found k :
  with_chapters part file found !! k
  = match List.find (fun n => n_kind n =s k) (map_or [] (fun chapters => named chapters (part_duration_ms part)) (fi_chapters file)) with
    | Some n => Some (n_start_ms n, n_end_ms n, "chapter"%string)
    | None => found !! k
    end.
Proof.
  apply (fold_insert_lookup (fun _ => true) n_kind (fun s => (n_start_ms s, n_end_ms s, "chapter"%string))).
  destruct (fi_chapters file) as [chapters|]; [apply named_kinds|constructor].
Qed.
Lemma inferred_lookup res k :
  NoDup (map kind (segments res)) ->
  inferred part (Some res) !! k
  = match List.find (fun s => within part s && (kind s =s k)) (segments res) with
    | Some s => Some (start_ms s, end_ms s, analyzer s)
    | None => None
    end.
Proof.
  intros Hnd. unfold inferred. cbn [map_or].
  rewrite (fold_insert_lookup (within part) kind (fun s => (start_ms s, end_ms s, analyzer s)) _ ∅ k Hnd). by rewrite lookup_empty.
Qed.
Lemma inferred_within o k a : inferred part o !! k = Some a ->
  inferred_within_bounds k (snd a) (fst (fst a)) (snd (fst a)) (part_duration_ms part) = true.
Proof.
  unfold inferred.
  assert (forall l (m : gmap string (Z * Z * string)),
    (forall k a, m !! k = Some a -> inferred_within_bounds k (snd a) (fst (fst a)) (snd (fst a)) (part_duration_ms part) = true) ->
    forall k a, fold_left (fun found s => if within part s then <[kind s := (start_ms s, end_ms s, analyzer s)]> found else found) l m !! k = Some a ->
    inferred_within_bounds k (snd a) (fst (fst a)) (snd (fst a)) (part_duration_ms part) = true) as Hfold.
  { induction l as [|s l IH]; intros m Hm k' a' Ha; cbn [fold_left] in Ha; [by eapply Hm|]. eapply IH; [|exact Ha].
    destruct (within part s) eqn:Hw; [|done]. intros k0 a0 H0. apply lookup_insert_Some in H0 as [[<- <-]|[_ H0]]; [exact Hw|by eapply Hm]. }
  intros Ha. eapply Hfold; [|exact Ha]. intros k0 a0 H0. by rewrite lookup_empty in H0.
Qed.
End Hub.

Lemma part_segments_elem r part s :
  s ∈ part_segments r part <-> exists file entry,
    List.find (fun f => file_id part =s fi_id f) (files r) = Some file
    /\ with_chapters part file (inferred part (segment_facts r !! fi_id file ≫= fact_for part file)) !! fst entry = Some (snd entry)
    /\ on_timeline part entry = Some s.
Proof.
  unfold part_segments. destruct (List.find _ _) as [file|].
  - rewrite list_elem_of_omap. split.
    + intros (entry & Hin & Ht). exists file, entry. split; [done|]. split; [|done]. unfold Placement.btree_iter in Hin.
      rewrite sort_by_perm in Hin. destruct entry as [k a]. by apply elem_of_map_to_list in Hin.
    + intros (file' & entry & [= <-] & Hl & Ht). exists entry. split; [|done]. unfold Placement.btree_iter.
      rewrite sort_by_perm. destruct entry as [k a]. by apply elem_of_map_to_list.
  - split; [by intros Hs%elem_of_nil|]. by intros (? & ? & ? & _).
Qed.
Lemma rendition_elem r parts s : s ∈ rendition_segments r parts <-> exists part, part ∈ parts /\ s ∈ part_segments r part.
Proof.
  unfold rendition_segments. rewrite sort_by_perm, list_elem_of_In, in_concat. split.
  - intros (l & Hl & Hs). apply in_map_iff in Hl as (part & <- & Hp). exists part. by rewrite !list_elem_of_In.
  - intros (part & Hp & Hs). exists (part_segments r part). split; [apply in_map_iff; exists part; split; [done|by apply list_elem_of_In]|by apply list_elem_of_In].
Qed.

(** What the hub projects on the timeline of a playback: each segment is a
    chapter a title names, or an inferred boundary within the detector's bounds
    for its file, moved by the start of its part; they come in order. *)
Theorem projection_sound r parts :
  StronglySorted (fun a b => segment_order a b <> Gt) (rendition_segments r parts)
  /\ forall s, s ∈ rendition_segments r parts -> exists part start end_,
       part ∈ parts /\ s_start_ms s = part_base_ms part + start /\ s_end_ms s = part_base_ms part + end_ /\ s_end_ms s <= i64_max
       /\ ((s_source s = "chapter"%string
            /\ exists file chapters n, file ∈ files r /\ fi_id file = file_id part /\ fi_chapters file = Some chapters
                 /\ n ∈ named chapters (part_duration_ms part) /\ s_kind s = n_kind n /\ start = n_start_ms n /\ end_ = n_end_ms n)
           \/ inferred_within_bounds (s_kind s) (s_source s) start end_ (part_duration_ms part) = true).
Proof.
  split.
  - apply sort_by_sorted with (P := fun _ => True); [..|by apply Forall_forall].
    + intros x y _ _. unfold cmp_le, segment_order.
      destruct (Z.compare_spec (s_start_ms x) (s_start_ms y)), (Z.compare_spec (s_start_ms y) (s_start_ms x)),
        (Z.compare_spec (s_end_ms x) (s_end_ms y)), (Z.compare_spec (s_end_ms y) (s_end_ms x)); first [done | exfalso; lia].
    + intros x y z _ _ _. unfold cmp_le, segment_order.
      destruct (Z.compare_spec (s_start_ms x) (s_start_ms y)), (Z.compare_spec (s_start_ms y) (s_start_ms z)),
        (Z.compare_spec (s_start_ms x) (s_start_ms z)), (Z.compare_spec (s_end_ms x) (s_end_ms y)), (Z.compare_spec (s_end_ms y) (s_end_ms z)),
        (Z.compare_spec (s_end_ms x) (s_end_ms z)); first [done | exfalso; lia].
  - intros s Hs. apply rendition_elem in Hs as (part & Hp & Hs). apply part_segments_elem in Hs as (file & [k [[start end_] src]] & Hfile & Hl & Ht).
    cbn [fst snd] in Hl. cbn [on_timeline] in Ht. unfold placed_ms in Ht.
    destruct ((part_base_ms part + start <=? u64_max) && _) in Ht; [|done].
    destruct ((part_base_ms part + end_ <=? u64_max) && _) eqn:Hs2 in Ht; [|done]. cbn [mbind option_bind] in Ht. injection Ht as <-. exists part, start, end_. cbn [s_start_ms s_end_ms s_kind s_source].
    apply andb_true_iff in Hs2 as [_ Hs2%Z.leb_le]. split_and!; [done..|].
    rewrite chapters_lookup in Hl. apply List.find_some in Hfile as [Hfile Hid]. apply String.eqb_eq in Hid.
    destruct (List.find _ _) as [n|] eqn:Hn; [left|right; by apply inferred_within in Hl].
    injection Hl as <- <- <-. split; [done|]. apply List.find_some in Hn as [Hn Hk]. apply String.eqb_eq in Hk.
    destruct (fi_chapters file) as [chapters|] eqn:Hc; [|done]. exists file, chapters, n. rewrite !list_elem_of_In. by split_and!.
Qed.

(** Nothing a mediahost finds by black frames is lost on the way: when the
    hub holds the result of a file for the very bytes it plays and no chapter
    names the same kind, the boundary is on the timeline, moved by the start of
    its part. *)
Theorem black_projected r parts part file fact res e seg :
  part ∈ parts -> List.find (fun f => file_id part =s fi_id f) (files r) = Some file ->
  segment_facts r !! fi_id file = Some fact -> fact_for part file fact = Some res ->
  result_for e res -> duration_ms e = part_duration_ms part ->
  seg ∈ segments res -> analyzer seg = "blackframe"%string ->
  (forall chapters n, fi_chapters file = Some chapters -> n ∈ named chapters (part_duration_ms part) -> n_kind n <> kind seg) ->
  part_base_ms part + end_ms seg <= i64_max ->
  mkSegment (kind seg) (part_base_ms part + start_ms seg) (part_base_ms part + end_ms seg) "blackframe" ∈ rendition_segments r parts.
Proof.
  intros Hp Hfile Hfact Hfor (_ & _ & Hacc & Hnd) Hdur Hseg Hblack Hchap Hbase.
  apply rendition_elem. exists part. split; [done|]. apply part_segments_elem. exists file, (kind seg, (start_ms seg, end_ms seg, "blackframe"%string)).
  split; [done|]. rewrite Forall_forall in Hacc. pose proof (Hacc seg Hseg Hblack) as Hbounds. rewrite Hdur in Hbounds.
  cbn [fst snd]. split.
  - rewrite chapters_lookup. rewrite Hfact. cbn [mbind option_bind]. rewrite Hfor.
    destruct (List.find _ (map_or _ _ _)) as [n|] eqn:Hn.
    + apply List.find_some in Hn as [Hn Hk]. apply String.eqb_eq in Hk. destruct (fi_chapters file) as [chapters|] eqn:Hc; [|done].
      apply list_elem_of_In in Hn. by destruct (Hchap chapters n eq_refl Hn).
    + rewrite inferred_lookup by done. destruct (List.find _ (segments res)) as [s|] eqn:Hs.
      * apply List.find_some in Hs as [Hs Hk]. apply andb_true_iff in Hk as [_ Hk]. apply String.eqb_eq in Hk. apply list_elem_of_In in Hs.
        assert (s = seg) as ->; [|by rewrite Hblack].
        apply list_elem_of_lookup in Hs as [i Hi], Hseg as [j Hj].
        assert (i = j) as <- by (eapply (proj1 (NoDup_alt _) Hnd i j (kind s)); rewrite list_lookup_fmap; [by rewrite Hi|rewrite Hj; cbn; by rewrite Hk]).
        congruence.
      * apply list_elem_of_In in Hseg. eapply List.find_none in Hs; [|exact Hseg]. unfold within in Hs. by rewrite Hbounds, String.eqb_refl in Hs.
  - cbn [on_timeline]. unfold placed_ms. assert (start_ms seg < end_ms seg) as Hlt.
    { unfold inferred_within_bounds in Hbounds. destruct (Z.leb_spec (end_ms seg) (start_ms seg)); [done|done]. }
    unfold i64_max, u64_max in *. rewrite !(proj2 (Z.leb_le _ _)) by lia. done.
Qed.

(** ** A job to try it on *)

(** Two episodes of a show on one root; the first shows a black picture at the
    end of whatever is asked for, nothing else can be read. *)
#[local] Instance job_files : FileSystem := {|
  canonicalize := fun p => Ok p; is_file := fun _ => true; metadata := fun _ _ => Ok (100, Some 5); digest := fun s => s |}.
#[local] Instance job_pipelines : Pipelines string := {|
  run_audio := fun _ _ _ _ => ([], false);
  run_video := fun _ m _ b => if (m =s "/media/Show/S01E01.mkv") && (0 <=? b) then ([black_picture b], true) else ([], false);
  run_keys := fun _ _ _ _ => ([], false);
  chromaprint := fun _ _ _ => None;
  powf := fun x _ => x;
  between_reads := fun _ => None;
|}.
#[local] Instance job_sane : Sane string.
Proof.
  assert (forall now m a b s, s ∈ fst (run_video now m a b) -> s = black_picture b /\ 0 <= b) as Hv.
  { intros now m a b s Hs. cbn [run_video job_pipelines] in Hs. destruct (m =s _), (Z.leb_spec 0 b); cbn in Hs; try by apply elem_of_nil in Hs.
    by apply list_elem_of_singleton in Hs. }
  split.
  - intros now m a b s f Hs Hf. destruct (Hv _ _ _ _ _ Hs) as [-> _]. injection Hf as <-. split; [done|]. split; [done|].
    intros row Hrow. cbn in *. lia.
  - intros now m a b s t Hs Ht. destruct (Hv _ _ _ _ _ Hs) as [-> Hb]. injection Ht as <-. lia.
  - intros now m a b s d t Hs _. by apply elem_of_nil in Hs.
  - done.
  - done.
  - by left.
Qed.
#[local] Instance job_hashing : Hashing := {| iterate := map_to_list; iterate_entries m := reflexivity (map_to_list m) |}.

Definition demo_collections : list CollectionConfig := [mkCollection "shows" "series" ["/media"%string]].
Definition demo_token : string := Scheduler.root_token digest "/media".
Definition demo_episode (item rel : string) : SegmentEpisode := mkSegmentEpisode item (Some (mkSource demo_token rel)) 100 5 600000.
Definition demo_job : DetectSegments :=
  mkDetect "r1" 2 "shows" false [demo_episode "one" "Show/S01E01.mkv"; demo_episode "two" "Show/S01E02.mkv"].
Lemma demo_fits : fingerprints_fit (Media := string).
Proof. intros now m a b points Hf. unfold fingerprint, audio_window in Hf. cbn [run_audio job_pipelines ensure rbind] in Hf. done. Qed.
Lemma job_answered_witness :
  exists result answers, analyze demo_collections fzero demo_job = Ok result
    /\ Forall2 result_for (ds_episodes demo_job) answers /\ det_episodes result ≡ₚ answers.
Proof.
  assert (Forall (fun e => is_some (source e) = true /\ duration_fits (duration_ms e)) (ds_episodes demo_job)) as He.
  { repeat constructor; cbn; lia. }
  pose proof (job_answered demo_fits demo_collections fzero demo_job 0 ltac:(cbn; lia) He eq_refl) as Hj.
  destruct (analyze demo_collections fzero demo_job) as [result|err]; [|destruct Hj as (_ & now & Hn); discriminate Hn].
  destruct Hj as (answers & Ha & Hp). by exists result, answers.
Defined.

Definition demo_answer : SegmentDetectionResult :=
  match analyze demo_collections fzero demo_job with Ok result => result | Err e => failed demo_job "" end.
Definition stored_first : SegmentEpisodeResult := nth 0 (det_episodes demo_answer) (preflight_failure (demo_episode "" "") 0 0 "").
(** The first can be read in pictures but not in sound, so it is marked; a hub
    holds the same boundary from a run that could read both. *)
Definition demo_stored : SegmentEpisodeResult :=
  mkEpisodeResult (res_item_id stored_first) (res_source stored_first) (observed_size stored_first) (observed_mtime_unix stored_first)
    false "" (segments stored_first) false.
Definition demo_part : PartSource := mkPart "f1" 0 0 "host" "shows" demo_token "Show/S01E01.mkv" 100 5 0 600000.
Definition demo_file : FileInfo := mkFile "f1" (Some 5) None.
Definition demo_fact : SegmentDetectionResult := mkDetection "r1" 2 0 [demo_stored] "" "shows".
Definition demo_rendition : PlaybackRendition := mkRendition [demo_file] {["f1"%string := demo_fact]}.
Lemma black_projected_witness :
  exists start, mkSegment "credits" start 600000 "blackframe" ∈ rendition_segments demo_rendition [demo_part].
Proof.
  destruct (segments stored_first) as [|seg rest] eqn:Hs; [revert Hs; vm_compute; discriminate|].
  assert (kind seg = "credits"%string /\ analyzer seg = "blackframe"%string /\ end_ms seg = 600000) as (Hk & Ha & Hend).
  { assert (seg = nth 0 (segments stored_first) seg) as -> by (by rewrite Hs). clear Hs. vm_compute. done. }
  assert (result_for (demo_episode "one" "Show/S01E01.mkv") demo_stored) as Hfor.
  { split; [by vm_compute|]. split; [by vm_compute|]. split; [|apply (bool_decide_unpack _); by vm_compute].
    apply Forall_forall. intros x Hx. change (segments demo_stored) with (segments stored_first) in Hx. apply list_elem_of_In in Hx.
    assert (forallb (fun x => inferred_within_bounds (kind x) (analyzer x) (start_ms x) (end_ms x) 600000) (segments stored_first) = true) as Hall by (by vm_compute).
    rewrite forallb_forall in Hall. intros _. exact (Hall x Hx). }
  exists (part_base_ms demo_part + start_ms seg). rewrite <- Hk. change 600000 with (part_base_ms demo_part + 600000). rewrite <- Hend.
  apply (black_projected demo_rendition [demo_part] demo_part demo_file demo_fact demo_stored (demo_episode "one" "Show/S01E01.mkv") seg).
  - left.
  - by vm_compute.
  - by vm_compute.
  - by vm_compute.
  - exact Hfor.
  - done.
  - change (segments demo_stored) with (segments stored_first). rewrite Hs. left.
  - exact Ha.
  - intros chapters n Hc. discriminate Hc.
  - rewrite Hend. by vm_compute.
Defined.
