(* ===== verification/Seek.v ===== *)
(** * Seek-restarts of a live session (kahawai-hub, src/sessions/seek.rs)

    How a burst of seek requests becomes restarts: each request takes a
    generation, registers its intent and spawns an executor; executors are
    serialised by [seek_lock], take whatever intent is pending, and publish the
    outcome under its generation; the requests wait for a generation that
    covers theirs. The restart itself is an arbitrary outcome here; its steps
    are in [SeekRestart]. *)
From S2P Require Import Prelude Playback.
#[local] Open Scope Z_scope.

Notation Outcome := (result string Z).

(** What a request inside [Sessions::seek] is doing. Between the generation
    and the registration there is no await: only another thread gets in. *)
Inductive Client :=
| Fetched (next : PendingSeek)
| Waiting (my_gen : Z)
| Answered (outcome : Outcome).

(** The fields of [Session] a seek reads, and what its tasks hold. The last two
    record history: the intents in the order they were registered, and how many
    of them executors have taken. The counter is a [u64] no session exhausts. *)
Record Seeks := mkSeeks {
  seek_gen : Z;
  pending_seek : option PendingSeek;
  executors : nat;                        (* spawned, waiting for [seek_lock] *)
  running : option (PendingSeek * bool);  (* holds it; whether its restart is polled *)
  seek_done : Z * Outcome;
  seek_ended : bool;
  torn_down : bool;
  run_slot : bool;                        (* [Mode::Remux] holds a run *)
  clients : gmap nat Client;
  intents : list PendingSeek;
  taken : nat;
}.

Definition seeks_new : Seeks :=
  mkSeeks 0 None 0 None (0, Ok 0) false false true ∅ [] 0.

Definition SESSION_ENDED : string := "session ended during seek".
Definition NOT_SETTLED : string := "seek restart did not settle within 60s".

(** [seek_gen.fetch_add(1) + 1]. *)
Definition fetch_gen (st : Seeks) (id : nat) (position : Z) (audio video : option Z) (replan : bool) : Seeks :=
  let generation := seek_gen st + 1 in
  mkSeeks generation (pending_seek st) (executors st) (running st) (seek_done st) (seek_ended st)
    (torn_down st) (run_slot st)
    (<[id := Fetched (mkSeek generation position audio video replan)]> (clients st)) (intents st) (taken st).

(** The registration under the lock of [pending_seek], and the spawn. *)
Definition register (st : Seeks) (id : nat) (next : PendingSeek) : Seeks :=
  mkSeeks (seek_gen st) (Some (merge (pending_seek st) next)) (S (executors st)) (running st) (seek_done st)
    (seek_ended st) (torn_down st) (run_slot st) (<[id := Waiting (generation next)]> (clients st))
    (intents st ++ [next]) (taken st).

(** An executor gets the lock and takes the newest intent, if any is left. A
    restart of an ended session is never polled. *)
Definition take_intent (st : Seeks) : Seeks :=
  match pending_seek st with
  | None =>
      mkSeeks (seek_gen st) None (Nat.pred (executors st)) None (seek_done st) (seek_ended st) (torn_down st)
        (run_slot st) (clients st) (intents st) (taken st)
  | Some todo =>
      mkSeeks (seek_gen st) None (Nat.pred (executors st)) (Some (todo, negb (seek_ended st))) (seek_done st)
        (seek_ended st) (torn_down st) (run_slot st) (clients st) (intents st) (length (intents st))
  end.

(** The restart ends its run or installs the next. *)
Definition swap_run (st : Seeks) (run : bool) : Seeks :=
  mkSeeks (seek_gen st) (pending_seek st) (executors st) (running st) (seek_done st) (seek_ended st)
    (torn_down st) run (clients st) (intents st) (taken st).

(** [until_session_ends] and the publication: the lock is released. *)
Definition publish (st : Seeks) (todo : PendingSeek) (live : bool) (outcome : Outcome) : Seeks :=
  mkSeeks (seek_gen st) (pending_seek st) (executors st) None
    (generation todo, if live then outcome else Err SESSION_ENDED) (seek_ended st) (torn_down st)
    (run_slot st) (clients st) (intents st) (taken st).

Definition with_client (st : Seeks) (id : nat) (c : option Client) : Seeks :=
  mkSeeks (seek_gen st) (pending_seek st) (executors st) (running st) (seek_done st) (seek_ended st)
    (torn_down st) (run_slot st) (partial_alter (fun _ => c) id (clients st)) (intents st) (taken st).
(** [Sessions::end]: the flag first, the teardown under [seek_lock]. *)
Definition end_seeks (st : Seeks) : Seeks :=
  mkSeeks (seek_gen st) (pending_seek st) (executors st) (running st) (seek_done st) true
    (torn_down st) (run_slot st) (clients st) (intents st) (taken st).
Definition tear_down (st : Seeks) : Seeks :=
  mkSeeks (seek_gen st) (pending_seek st) (executors st) (running st) (seek_done st) (seek_ended st)
    true false (clients st) (intents st) (taken st).

Definition nobody_fetched (st : Seeks) : Prop := forall id s, clients st !! id <> Some (Fetched s).

(** What the executor tasks do. *)
Inductive executor_step : Seeks -> Seeks -> Prop :=
| es_take st : (0 < executors st)%nat -> running st = None -> executor_step st (take_intent st)
| es_publish st todo live outcome :
    running st = Some (todo, live) -> executor_step st (publish st todo live outcome).

(** What happens without a new request. *)
Inductive quiet_step : Seeks -> Seeks -> Prop :=
| qs_executor st st' : executor_step st st' -> quiet_step st st'
| qs_swap st todo run : running st = Some (todo, true) -> quiet_step st (swap_run st run)
| qs_answer st id my_gen :
    clients st !! id = Some (Waiting my_gen) -> my_gen <= fst (seek_done st) ->
    quiet_step st (with_client st id (Some (Answered (snd (seek_done st)))))
| qs_timeout st id my_gen :
    clients st !! id = Some (Waiting my_gen) ->
    quiet_step st (with_client st id (Some (Answered (Err NOT_SETTLED))))
| qs_disconnect st id my_gen :
    clients st !! id = Some (Waiting my_gen) -> quiet_step st (with_client st id None)
| qs_end st : quiet_step st (end_seeks st)
| qs_teardown st : seek_ended st = true -> running st = None -> quiet_step st (tear_down st).

(** Everything; [serialized] is whether a request takes its generation and
    registers before another takes one. *)
Inductive seek_step (serialized : bool) : Seeks -> Seeks -> Prop :=
| sk_fetch st id position audio video replan :
    clients st !! id = None -> (serialized = true -> nobody_fetched st) ->
    seek_step serialized st (fetch_gen st id position audio video replan)
| sk_register st id next :
    clients st !! id = Some (Fetched next) -> seek_step serialized st (register st id next)
| sk_quiet st st' : quiet_step st st' -> seek_step serialized st st'.

(** A batch of intents, coalesced in order. *)
Definition coalesce (l : list PendingSeek) : option PendingSeek :=
  fold_left (fun acc next => Some (merge acc next)) l None.
