(* ===== verification/SeekTheorems.v ===== *)
(** * What a seeking client is promised

    While requests register in the order of their generations, no intent is
    lost and no request is left waiting; when two registrations cross, one
    request waits for a generation nobody will publish. *)
From S2P Require Import Prelude Playback Seek.
#[local] Open Scope Z_scope.

(** ** Coalescing *)

Lemma coalesce_snoc l s : coalesce (l ++ [s]) = Some (merge (coalesce l) s).
Proof. unfold coalesce. by rewrite fold_left_app. Qed.
Lemma merge_generation p s : generation (merge p s) = generation s.
Proof. by destruct p. Qed.
Lemma merge_position p s : position_ms (merge p s) = position_ms s.
Proof. by destruct p. Qed.

(** ** The invariant of serialised registration *)

(** Intents are numbered in the order they registered; what is pending is the
    coalesced rest; what runs is the coalesced batch that starts after the last
    published generation; and whoever has something to run is on its way. *)
Record seeks_inv (st : Seeks) : Prop := {
  inv_numbered : forall i s, intents st !! i = Some s -> generation s = Z.of_nat i + 1;
  inv_taken : (taken st <= length (intents st))%nat;
  inv_pending : pending_seek st = coalesce (drop (taken st) (intents st));
  inv_running : match running st with
    | Some (todo, _) => exists lo, (lo < taken st)%nat /\ fst (seek_done st) = Z.of_nat lo
        /\ coalesce (take (taken st - lo) (drop lo (intents st))) = Some todo
    | None => fst (seek_done st) = Z.of_nat (taken st)
    end;
  inv_executor : pending_seek st <> None -> (0 < executors st)%nat;
  inv_waiting : forall id g, clients st !! id = Some (Waiting g) -> g <= Z.of_nat (length (intents st));
  inv_fetched : forall id s, clients st !! id = Some (Fetched s) ->
    generation s = Z.of_nat (length (intents st)) + 1 /\ seek_gen st = generation s;
  inv_idle_gen : nobody_fetched st -> seek_gen st = Z.of_nat (length (intents st));
  inv_one : forall id s id' s', clients st !! id = Some (Fetched s) -> clients st !! id' = Some (Fetched s') ->
    id = id';
}.

Lemma new_inv : seeks_inv seeks_new.
Proof. split; simpl; try done; try (intros id s; by rewrite ?lookup_empty, ?lookup_nil). Qed.

(** A batch ends with the newest intent taken. *)
Lemma batch_generation st lo todo :
  (forall i s, intents st !! i = Some s -> generation s = Z.of_nat i + 1) ->
  (lo < taken st)%nat -> (taken st <= length (intents st))%nat ->
  coalesce (take (taken st - lo) (drop lo (intents st))) = Some todo ->
  exists newest, intents st !! Nat.pred (taken st) = Some newest
    /\ generation todo = Z.of_nat (taken st) /\ position_ms todo = position_ms newest.
Proof.
  intros Hn Hlo Hle H.
  destruct (lookup_lt_is_Some_2 (intents st) (Nat.pred (taken st))) as [newest Hnew]; [lia|].
  assert (Hb : take (taken st - lo) (drop lo (intents st))
               = take (Nat.pred (taken st) - lo) (drop lo (intents st)) ++ [newest]).
  { replace (taken st - lo)%nat with (S (Nat.pred (taken st) - lo)) by lia.
    apply take_S_r. rewrite lookup_drop. by replace (lo + _)%nat with (Nat.pred (taken st)) by lia. }
  rewrite Hb, coalesce_snoc in H. injection H as <-. exists newest.
  rewrite merge_generation, merge_position, (Hn _ _ Hnew). split_and!; [done|lia|done].
Qed.

Ltac client_cases :=
  match goal with
  | H : <[?i := _]> _ !! ?j = Some _ |- _ =>
      rewrite lookup_insert_Some in H; destruct H as [[<- H]|[? H]]; [try discriminate H; simplify_eq|]
  | H : partial_alter _ ?i _ !! ?j = Some _ |- _ =>
      destruct (decide (i = j)) as [<-|?];
      [rewrite lookup_partial_alter_eq in H; simplify_eq|rewrite lookup_partial_alter_ne in H by done]
  end.

(** Clients that answer, give up or go away change nothing else. *)
Lemma client_inv st id g c :
  seeks_inv st -> clients st !! id = Some (Waiting g) -> (forall s, c <> Some (Fetched s)) ->
  (forall g', c <> Some (Waiting g')) -> seeks_inv (with_client st id c).
Proof.
  intros [] Hid Hc Hw. split; simpl; try done.
  - intros id' g' H. client_cases; [by destruct (Hw g')|eauto].
  - intros id' s H. client_cases; [by destruct (Hc s)|eauto].
  - intros Hn. apply inv_idle_gen0. intros id' s H. apply (Hn id' s). simpl.
    rewrite lookup_partial_alter_ne; [done|]. congruence.
  - intros i s i' s' H H'. repeat client_cases; try (by destruct (Hc s)); try (by destruct (Hc s')). eauto.
Qed.

Lemma executor_inv st st' : executor_step st st' -> seeks_inv st -> seeks_inv st'.
Proof.
  intros Hs []. destruct Hs as [st Hex Hrun|st todo live o Hrun]; rewrite Hrun in inv_running0.
  - unfold take_intent. destruct (pending_seek st) as [todo|] eqn:Hp; split; simpl; try done.
    + by rewrite drop_all.
    + exists (taken st). split_and!; [|done|].
      * destruct (Nat.lt_ge_cases (taken st) (length (intents st))) as [|Hge]; [done|].
        rewrite drop_ge in inv_pending0 by lia. done.
      * rewrite take_ge; [done|]. rewrite length_drop. lia.
  - destruct inv_running0 as (lo & Hlo & Hd & Hb). split; simpl; try done.
    by destruct (batch_generation _ _ _ inv_numbered0 Hlo inv_taken0 Hb) as (? & _ & -> & _).
Qed.

Lemma quiet_inv st st' : quiet_step st st' -> seeks_inv st -> seeks_inv st'.
Proof.
  destruct 1 as [st st' H|st todo run H|st id g H _|st id g H|st id g H|st|st _ _]; intros Hi.
  - by apply (executor_inv _ _ H).
  - by destruct Hi; split.
  - by apply (client_inv _ _ _ _ Hi H).
  - by apply (client_inv _ _ _ _ Hi H).
  - by apply (client_inv _ _ _ _ Hi H).
  - by destruct Hi; split.
  - by destruct Hi; split.
Qed.

Lemma fetch_inv st id p a v r :
  clients st !! id = None -> nobody_fetched st -> seeks_inv st -> seeks_inv (fetch_gen st id p a v r).
Proof.
  intros Hid Hn []. split; simpl; try done.
  - intros id' g H. client_cases. eauto.
  - intros id' s H. client_cases; [|by destruct (Hn id' s)]. simpl. by rewrite (inv_idle_gen0 Hn).
  - intros H. exfalso. eapply (H id). simpl. by rewrite lookup_insert_eq.
  - intros i s i' s' H H'. repeat client_cases; try done;
      first [by destruct (Hn _ _ H)|by destruct (Hn _ _ H')].
Qed.

Lemma register_inv st id next :
  clients st !! id = Some (Fetched next) -> seeks_inv st -> seeks_inv (register st id next).
Proof.
  intros Hid []. destruct (inv_fetched0 _ _ Hid) as [Hg Hs].
  assert (Hlen : length (intents st ++ [next]) = S (length (intents st))) by (rewrite length_app; simpl; lia).
  split; cbn [register seek_gen pending_seek executors running seek_done clients intents taken]; rewrite ?Hlen.
  - intros i s [H|[Hi H]]%lookup_app_Some; [by apply inv_numbered0|].
    apply list_lookup_singleton_Some in H as [H ->]. rewrite Hg. lia.
  - lia.
  - rewrite drop_app_le by done. by rewrite coalesce_snoc, <- inv_pending0.
  - destruct (running st) as [[todo live]|]; [|done]. destruct inv_running0 as (lo & Hlo & Hd & Hb).
    exists lo. split_and!; [done|done|]. rewrite drop_app_le by lia. rewrite take_app_le; [done|].
    rewrite length_drop. lia.
  - lia.
  - intros id' g H. client_cases; [lia|]. specialize (inv_waiting0 _ _ H). lia.
  - intros id' s H. client_cases. assert (id = id') by eauto. by subst.
  - intros _. lia.
  - intros i s i' s' H H'. repeat client_cases. eauto.
Qed.

Lemma seek_inv st st' : seek_step true st st' -> seeks_inv st -> seeks_inv st'.
Proof.
  destruct 1 as [st id p a v r Hid Hn|st id next Hid|st st' H]; intros Hi.
  - apply fetch_inv; [done|by apply Hn|done].
  - by apply register_inv.
  - by apply (quiet_inv _ _ H).
Qed.
Lemma seeks_reach st : rtc (seek_step true) seeks_new st -> seeks_inv st.
Proof.
  intros H. remember seeks_new as st0 eqn:E. assert (seeks_inv st0) as Hi by (subst; apply new_inv).
  clear E. induction H as [|? ? ? Hs _ IH]; [done|]. by apply IH, (seek_inv _ _ Hs).
Qed.

(** ** What a request gets *)

(** What a quiet step does to a request that waits. *)
Lemma quiet_client st st' id g :
  quiet_step st st' -> clients st !! id = Some (Waiting g) ->
  clients st' !! id = Some (Waiting g) \/ clients st' !! id = None
  \/ clients st' !! id = Some (Answered (Err NOT_SETTLED))
  \/ g <= fst (seek_done st) /\ clients st' !! id = Some (Answered (snd (seek_done st))).
Proof.
  intros Hs Hw. assert (forall i c, clients (with_client st i c) !! id = if decide (id = i) then c else Some (Waiting g)) as Hc.
  { intros i c. cbn [with_client clients]. destruct (decide (id = i)) as [->|Hne];
      [by rewrite lookup_partial_alter_eq|by rewrite lookup_partial_alter_ne, Hw]. }
  destruct Hs as [st st' He|st todo run _|st i g' Hi Hg|st i g' Hi|st i g' Hi|st|st _ _]; try (by left).
  - left. destruct He; unfold take_intent; [destruct (pending_seek _)|]; done.
  - rewrite Hc. destruct (decide _) as [->|]; [|by left]. rewrite Hw in Hi. injection Hi as <-. by right; right; right.
  - rewrite Hc. destruct (decide _); [by right; right; left|by left].
  - rewrite Hc. destruct (decide _); [by right; left|by left].
Qed.

(** C27: While requests register in the order of their generations, a restart
    runs exactly the intents registered since the previous restart took its:
    it goes where the newest of them asked, with the last explicit choice of
    each track, and re-plans when one of them changed the burned subtitle. What
    it publishes can answer every request that waits whose intent it or a
    restart before it took; and it answers no request whose intent was
    registered after it took its own. *)
Theorem seeks_covered st todo live :
  rtc (seek_step true) seeks_new st -> running st = Some (todo, live) ->
  exists before batch newest after, intents st = before ++ (batch ++ [newest]) ++ after
    /\ fst (seek_done st) = Z.of_nat (length before)
    /\ generation todo = generation newest /\ position_ms todo = position_ms newest
    /\ ps_audio_track todo = last_choice ps_audio_track (batch ++ [newest])
    /\ ps_video_track todo = last_choice ps_video_track (batch ++ [newest])
    /\ replan_subs todo = existsb replan_subs (batch ++ [newest])
    /\ forall outcome id s, let st' := publish st todo live outcome in
       clients st !! id = Some (Waiting (generation s)) ->
       (s ∈ before ++ (batch ++ [newest]) ->
          quiet_step st' (with_client st' id (Some (Answered (if live then outcome else Err SESSION_ENDED)))))
       /\ (s ∈ after -> (if live then outcome else Err SESSION_ENDED) <> Err NOT_SETTLED ->
          forall st2, quiet_step st' st2 -> clients st2 !! id <> Some (Answered (if live then outcome else Err SESSION_ENDED))).
Proof.
  intros H%seeks_reach Hrun. destruct H. rewrite Hrun in inv_running0. destruct inv_running0 as (lo & Hlo & Hd & Hb).
  set (batch := take (taken st - lo) (drop lo (intents st))) in *.
  assert (Hsplit : intents st = take lo (intents st) ++ batch ++ drop (taken st) (intents st)).
  { rewrite <- (take_drop lo (intents st)) at 1. f_equal. unfold batch.
    rewrite <- (take_drop (taken st - lo) (drop lo (intents st))) at 1. f_equal.
    rewrite drop_drop. f_equal. lia. }
  assert (Hlen : length batch = (taken st - lo)%nat) by (unfold batch; rewrite length_take, length_drop; lia).
  destruct batch as [|newest b _] using rev_ind; [done|].
  destruct (merge_burst b newest) as (m & Hm & Hg & Hp & Ha & Hv & Hr & _).
  unfold coalesce in Hb. rewrite Hb in Hm. injection Hm as <-.
  exists (take lo (intents st)), b, newest, (drop (taken st) (intents st)).
  assert (Hlow : length (take lo (intents st)) = lo) by (rewrite length_take; lia).
  assert (Hnew : generation todo = Z.of_nat (taken st)).
  { rewrite Hg. rewrite length_app in Hlen. cbn in Hlen.
    rewrite (inv_numbered0 (taken st - 1)%nat newest); [lia|]. rewrite Hsplit, lookup_app_r by lia.
    rewrite Hlow, lookup_app_l by (rewrite length_app; cbn; lia). rewrite lookup_app_r by lia.
    replace (taken st - 1 - lo - length b)%nat with 0%nat by lia. done. }
  split_and!; try done; [by rewrite Hlow|]. intros outcome id s st' Hw. split.
  - intros Hin. apply (qs_answer st' id (generation s)); [exact Hw|]. cbn [st' publish seek_done fst]. rewrite Hnew.
    apply list_elem_of_lookup in Hin as [k Hk]. pose proof (lookup_lt_Some _ _ _ Hk) as Hlt.
    rewrite !length_app, Hlow in Hlt. rewrite length_app in Hlen. cbn in Hlt, Hlen.
    rewrite (inv_numbered0 k s); [lia|]. rewrite Hsplit, app_assoc. by apply lookup_app_l_Some.
  - intros Hin Hne st2 Hs Hans. apply list_elem_of_lookup in Hin as [k Hk]. rewrite lookup_drop in Hk.
    pose proof (inv_numbered0 _ _ Hk) as Hgs.
    destruct (quiet_client st' st2 id (generation s) Hs Hw) as [E|[E|[E|[Hle E]]]]; rewrite Hans in E; simplify_eq.
    cbn [st' publish seek_done fst] in Hle. lia.
Qed.




(** ** Teardown *)

Record teardown_inv (st : Seeks) : Prop := {
  td_ended : torn_down st = true -> seek_ended st = true;
  td_dead : torn_down st = true -> forall todo live, running st = Some (todo, live) -> live = false;
  td_slot : torn_down st = true -> run_slot st = false;
}.

Lemma quiet_teardown st st' : quiet_step st st' -> teardown_inv st -> teardown_inv st'.
Proof.
  destruct 1 as [st st' He|st todo run Hr|st i g _ _|st i g _|st i g _|st|st Hend Hrun]; intros [];
    try by split.
  - destruct He as [st Hex Hrun|st todo live o Hrun]; [|by split].
    unfold take_intent. destruct (pending_seek st); split; simpl; try done.
    intros Ht t l [= <- <-]. by rewrite td_ended0.
  - split; simpl; try done. intros Ht. by specialize (td_dead0 Ht _ _ Hr).
  - split; simpl; try done. intros _ t l. by rewrite Hrun.
Qed.

(** C29: Once a session is torn down no worker of it runs: the teardown waits
    for the restart that holds the lock, and a restart that gets the lock later
    is never polled. *)
Theorem no_run_after_teardown serialized st :
  rtc (seek_step serialized) seeks_new st -> torn_down st = true ->
  run_slot st = false /\ forall todo live, running st = Some (todo, live) -> live = false.
Proof.
  intros H Ht. assert (Hi : teardown_inv st).
  { clear Ht. remember seeks_new as st0 eqn:E. assert (teardown_inv st0) as Hi by (subst; by split).
    clear E. induction H as [|? ? ? Hs _ IH]; [done|]. apply IH.
    destruct Hs as [st id p a v r _ _|st id next _|st st' Hq];
      [by destruct Hi; split|by destruct Hi; split|by apply (quiet_teardown _ _ Hq)]. }
  destruct Hi. split; [by apply td_slot0|by apply td_dead0].
Qed.

(** ** Crossing registrations *)

Definition older : PendingSeek := mkSeek 1 10000 None None false.
Definition newer : PendingSeek := mkSeek 2 20000 None None false.
(** Two requests take generations one and two and register in the other order;
    both executors have run. *)
Definition crossed : Seeks :=
  let st := fetch_gen seeks_new 1 10000 None None false in
  let st := fetch_gen st 2 20000 None None false in
  let st := register (register st 2 newer) 1 older in
  take_intent (publish (take_intent st) older true (Ok 0)).

Lemma crossed_reached : rtc (seek_step false) seeks_new crossed.
Proof.
  eapply rtc_l; [by apply (sk_fetch false seeks_new 1 10000 None None false)|].
  eapply rtc_l; [by apply (sk_fetch false _ 2 20000 None None false)|].
  eapply rtc_l; [by apply (sk_register false _ 2 newer)|].
  eapply rtc_l; [by apply (sk_register false _ 1 older)|].
  eapply rtc_l; [apply sk_quiet, qs_executor, es_take; [by vm_compute; lia|done]|].
  eapply rtc_l; [by apply sk_quiet, qs_executor, (es_publish _ older true (Ok 0))|].
  eapply rtc_l; [|reflexivity]. apply sk_quiet, qs_executor, es_take; [by vm_compute; lia|done].
Qed.

(** When two requests take their generations in one order and register in
    the other, the older intent replaces the newer: the restart goes to the
    older position and publishes the older generation, and the newer request is
    never answered with an outcome, only by its timeout, whatever happens short
    of a new seek. *)
Theorem crossed_seek_strands :
  exists st, rtc (seek_step false) seeks_new st
    /\ intents st = [newer; older] /\ seek_done st = (generation older, Ok 0)
    /\ clients st !! 2%nat = Some (Waiting (generation newer))
    /\ forall st', rtc quiet_step st st' ->
       clients st' !! 2%nat = Some (Waiting (generation newer))
       \/ clients st' !! 2%nat = Some (Answered (Err NOT_SETTLED)) \/ clients st' !! 2%nat = None.
Proof.
  exists crossed. split; [apply crossed_reached|]. split_and!; [done|done|done|].
  intros st' H.
  assert (Hj : executors crossed = 0%nat /\ running crossed = None /\ fst (seek_done crossed) = 1
    /\ clients crossed !! 2%nat = Some (Waiting 2)) by done.
  assert (forall st, rtc quiet_step st st' ->
    executors st = 0%nat /\ running st = None /\ fst (seek_done st) = 1
    /\ (clients st !! 2%nat = Some (Waiting 2) \/ clients st !! 2%nat = Some (Answered (Err NOT_SETTLED))
        \/ clients st !! 2%nat = None) ->
    clients st' !! 2%nat = Some (Waiting 2) \/ clients st' !! 2%nat = Some (Answered (Err NOT_SETTLED))
       \/ clients st' !! 2%nat = None) as Hstuck; [|apply (Hstuck _ H); naive_solver].
  clear. induction 1 as [|st x z Hs _ IH]; [naive_solver|]. intros (He & Hr & Hd & Hc). apply IH.
  destruct Hs as [st x Hx|st todo run Hx|st i g Hi Hg|st i g Hi|st i g Hi|st|st _ _]; simpl; try done;
    try congruence.
  - destruct Hx; [lia|congruence].
  - destruct (decide (i = 2%nat)) as [->|]; [|by rewrite lookup_partial_alter_ne].
    rewrite Hi in Hc. destruct Hc as [[= ->]|[?|?]]; [lia|done|done].
  - destruct (decide (i = 2%nat)) as [->|]; [rewrite lookup_partial_alter_eq|rewrite lookup_partial_alter_ne by done];
      naive_solver.
  - destruct (decide (i = 2%nat)) as [->|]; [rewrite lookup_partial_alter_eq|rewrite lookup_partial_alter_ne by done];
      naive_solver.
Qed.

(** ** Witnesses *)

(** One request whose restart is about to run. *)
Definition registered : Seeks := register (fetch_gen seeks_new 1 10000 None None false) 1 older.
Lemma registered_reached : rtc (seek_step true) seeks_new registered.
Proof.
  eapply rtc_l; [apply (sk_fetch true seeks_new 1 10000 None None false); [done|by intros _ id s]|].
  eapply rtc_l; [by apply (sk_register true _ 1 older)|]. reflexivity.
Qed.

Lemma seeks_covered_witness :
  running (take_intent registered) = Some (older, true)
  /\ exists before batch newest after, intents (take_intent registered) = before ++ (batch ++ [newest]) ++ after
      /\ 0 = Z.of_nat (length before) /\ 10000 = position_ms newest.
Proof.
  split; [reflexivity|].
  destruct (seeks_covered (take_intent registered) older true) as (b & l & n & a & Hi & Hb & _ & Hp & _).
  - eapply rtc_r; [apply registered_reached|]. apply sk_quiet, qs_executor, es_take; [by vm_compute; lia|done].
  - reflexivity.
  - exists b, l, n, a. done.
Defined.


Lemma no_run_after_teardown_witness :
  let st := tear_down (end_seeks registered) in torn_down st = true /\ run_slot st = false.
Proof.
  split; [reflexivity|].
  apply (no_run_after_teardown true (tear_down (end_seeks registered))); [|reflexivity].
  eapply rtc_r; [eapply rtc_r; [apply registered_reached|apply sk_quiet, qs_end]|].
  by apply sk_quiet, qs_teardown.
Defined.
