(* ===== verification/SeekRestart.v ===== *)
(** * One seek-restart (kahawai-hub, src/sessions/seek.rs, dispatch.rs, start.rs, negotiation.rs)

    What [execute_seek] does once it holds the lock: re-planning against the
    executor the session already has, ending the old run, opening leases, one
    start and its sink fallback. The mutable fields of the session, the registry
    and the lease table are the state; what the session asked of the outside is
    its trace, and the answers may depend on all of it. *)
From S2P Require Import Prelude Media Loudness Probe Plan Ladder Negotiate Bench Placement Registry Playback HubPlanning Text.
#[local] Open Scope Z_scope.

(** ** Facts of a worker (kahawai-media, src/facts.rs) *)

Record Fact := mkFact { fact_kind : string; fact_detail : string }.

Definition push_fact (slot detail : string) : string :=
  if str_contains detail slot then slot else (slot ++ " · " ++ detail)%string.
Definition fold_fact (v : string * string) (f : Fact) : string * string :=
  let '(video, audio) := v in
  if fact_kind f =s "audio" then (video, push_fact audio (fact_detail f))
  else if fact_kind f =s "video" then (push_fact video (fact_detail f), audio)
  else (video, audio).
Definition fold_facts (verdict : option (string * string)) (facts : list Fact) : option (string * string) :=
  (fun v => fold_left fold_fact facts v) <$> verdict.

(** ** The session *)

Inductive Mode := Direct | Remux | Transcode (transcoder : string).

Record Burns := mkBurns {
  burn_pick : option BurnPick;
  burn_sets : option string;
  burn_ass_text : option string;
}.
(** The fields a seek changes. *)
Record Live := mkLive {
  plan : option RemuxPlan;
  verdict : option (string * string);
  sub_verdicts : list SubtitleVerdict;
  needs : PlacementNeed;
  current_part : nat;
  sink : string;
  burns : Burns;
  run : bool;
}.
(** The fields it reads. *)
Record Fixed := mkFixed {
  mode : Mode;
  s_info : MediaInfo;
  s_profile : CapabilityProfile;
  s_parts : list PartSource;
  s_loudness : LoudnessPreference;
  force_loudness : bool;
  s_ass : AssPolicy;
  s_target_duration_secs : Z;
  s_ocr_set : list (string * string * string * string * Z);
}.

Record Attempt := mkAttempt {
  a_executor : option string;
  a_plan : RemuxPlan;
  a_target_duration_secs : Z;
  a_part : nat;
  a_local_ms : Z;
  a_sink : string;
  a_burns : option string * option string;
}.
Inductive Effect :=
| EndRun
| EndSession (transcoder : string)
| OpenLeases (from : nat)
| Start (a : Attempt).
Inductive Ready := IsReady (facts : list Fact) | Rejected (error : string) | Silent.

Record World := mkWorld {
  live : Live;
  registry : Registry;
  tc_leases : option nat;    (* the part the held leases start at *)
  trace : list Effect;
}.

(** ** Picking a subtitle *)

(** [tracks::Track] with its format. *)
Record SubTrack := mkSubTrack { st_track : Track; st_format : string }.
Inductive SeekError := NoSuchTrack (track : Z) | Refused (why : string).

Section Pick.
(** [Session::catalogue_track], [Subtitles::ass_for_burn], and [extract_ref]
    followed by [image_sets]. *)
Context (catalogue_track : Z -> option SubTrack) (ass_for_burn : SubTrack -> option string)
        (image_sets : SubTrack -> result string (option string)).

Definition is_ass_format (format : string) : bool := str_mem format ["ass"; "ssa"].
Definition new_pick (t : SubTrack) (part : PartSource) : option BurnPick :=
  let track := st_track t in
  if (is_image (st_format t) || is_ass_format (st_format t))
     && (t_module_id track ≟ Some (part_module_id part)) && (t_collection_id track ≟ Some (collection_id part))
     && (t_root_token track ≟ Some (root_token part)) && (t_source_path track ≟ Some (part_path_rel part))
  then
    let i := Z.to_nat (wrap 64 (unwrap_or (t_stream_index track) 0)) in
    if t_origin track =s "embedded" then Some (Embedded i)
    else if str_mem (t_origin track) ["sidecar"; "downloaded"] then Some (Sidecar i)
    else None
  else None.
Definition already_burning (plan : option RemuxPlan) (pick : option BurnPick) : bool :=
  match pick with
  | Some (Embedded i) =>
      is_some_and (fun p => (rp_burn_subtitle p ≟ Some i) || (rp_burn_ass p ≟ Some i)) plan
  | _ => false
  end.

(** The head of [Sessions::seek]: whether the restart re-plans, and the burn
    fields as far as they were written. *)
Definition switch_pick (b : Burns) (t : SubTrack) (pick : option BurnPick) : result SeekError bool * Burns :=
  let is_ass := is_ass_format (st_format t) in
  match (match pick with
         | Some (Sidecar _) =>
             if is_ass then match ass_for_burn t with Some text => Ok (Some text) | None => Err (Refused "no script") end
             else Ok None
         | _ => Ok None
         end) with
  | Err e => (Err e, b)
  | Ok text =>
      let b := mkBurns (burn_pick b) (burn_sets b) text in
      match (match pick with
             | Some _ =>
                 if is_ass then Ok None
                 else match image_sets t with
                      | Ok (Some sets) => Ok (Some sets)
                      | Ok None => Err (Refused "no display sets")
                      | Err e => Err (Refused e)
                      end
             | None => Ok None
             end) with
      | Err e => (Err e, b)
      | Ok sets => (Ok true, mkBurns pick sets (burn_ass_text b))
      end
  end.
Definition pick_subtitle (plan : option RemuxPlan) (parts : list PartSource) (b : Burns)
    (subtitle_track : option Z) : result SeekError bool * Burns :=
  match subtitle_track with
  | None => (Ok false, b)
  | Some tid =>
      if tid =? 0 then
        match burn_pick b with
        | Some _ => (Ok true, mkBurns None None None)
        | None => (Ok false, b)
        end
      else
        match catalogue_track tid with
        | None => (Err (NoSuchTrack tid), b)
        | Some t =>
            match head parts with
            | None => (Err (Refused "session has no parts"), b)
            | Some part =>
                let pick := new_pick t part in
                if (is_image (st_format t) || is_ass_format (st_format t)) && is_none pick
                then (Err (Refused "not part of the playing source"), b)
                else if already_burning plan pick then (Ok false, mkBurns pick (burn_sets b) (burn_ass_text b))
                else if pick ≟ burn_pick b then (Ok false, b)
                else switch_pick b t pick
            end
        end
  end.
End Pick.

(** ** The restart *)

Section Restart.
Context {gst : GStreamer} (tonemap_available ass_burn_available : bool).
(** [Registry::is_connected], [ByteSources::reads_locally], the measured
    loudness of a file, and the answers to the session's requests: the error of
    opening leases, the end of a local start, the answer to a dispatch. *)
Context (is_connected reads_locally : string -> bool)
        (audio_loudness : string -> nat -> Z -> Z -> result string (option AudioLoudnessMeasurement))
        (opens : list Effect -> option string)
        (local_starts : list Effect -> result string (list Fact))
        (remote_starts : list Effect -> Ready).
Context (s : Fixed).

Definition M (A : Type) : Type := World -> result string A * World.
Definition ret {A} (a : A) : M A := fun w => (Ok a, w).
Definition lift {A} (r : result string A) : M A := fun w => (r, w).
Definition bind {A B} (m : M A) (k : A -> M B) : M B := fun w =>
  match m w with
  | (Ok a, w) => k a w
  | (Err e, w) => (Err e, w)
  end.
#[local] Notation "'let^' x := m 'in' k" := (bind m (fun x => k))
  (at level 200, x pattern, m at level 100, k at level 200).
Definition catch {A} (m : M A) : M (result string A) := fun w => let (r, w) := m w in (Ok r, w).
Definition effect (e : Effect) : M unit := fun w =>
  (Ok tt, mkWorld (live w) (registry w) (tc_leases w) (trace w ++ [e])).
Definition get {A} (f : World -> A) : M A := fun w => (Ok (f w), w).
Definition set_live (f : Live -> Live) : M unit := fun w =>
  (Ok tt, mkWorld (f (live w)) (registry w) (tc_leases w) (trace w)).
Definition set_leases (l : option nat) : M unit := fun w =>
  (Ok tt, mkWorld (live w) (registry w) l (trace w)).
Definition session_ended (tc : string) : M unit := fun w =>
  (Ok tt, mkWorld (live w) (tc_session_ended (registry w) tc) (tc_leases w) (trace w)).

Definition with_sink (sink : string) (l : Live) : Live :=
  mkLive (plan l) (verdict l) (sub_verdicts l) (needs l) (current_part l) sink (burns l) (run l).
Definition with_run (run : bool) (l : Live) : Live :=
  mkLive (plan l) (verdict l) (sub_verdicts l) (needs l) (current_part l) (sink l) (burns l) run.
Definition with_part (idx : nat) (l : Live) : Live :=
  mkLive (plan l) (verdict l) (sub_verdicts l) (needs l) idx (sink l) (burns l) (run l).
Definition with_verdict (v : option (string * string)) (l : Live) : Live :=
  mkLive (plan l) v (sub_verdicts l) (needs l) (current_part l) (sink l) (burns l) (run l).
Definition with_replan (p : RemuxPlan) (v : string * string) (subs : list SubtitleVerdict) (n : PlacementNeed)
    (l : Live) : Live :=
  mkLive (Some p) (Some v) subs n (current_part l) (sink l) (burns l) (run l).

(** *** Re-planning *)

Record SeekFacts := mkSeekFacts {
  sf_tonemap : bool;
  sf_video_targets : list string;
  sf_full_audio_targets : list string;
  sf_local_audio_targets : list string;
  sf_ass_burn : bool;
  sf_protocol : Z;
}.
Definition local_video_executor_for (r : Registry) (p : RemuxPlan) : bool :=
  local_video_executor_enabled_of r || (local_video_executor r && (rp_video p ≟ Encode)).
Definition transcoder_reports_ass_burn (r : Registry) (id : string) : bool :=
  is_some_and bc_ass_burn (transcoder_caps r !! id).
Definition seek_facts (r : Registry) (local_video : bool) : SeekFacts :=
  match mode s with
  | Transcode tc =>
      let all := transcoder_encoders r tc in
      let audio := audio_encoder_names all in
      mkSeekFacts (transcoder_reports_tonemap r tc) (video_encoder_names all) audio audio
        (transcoder_reports_ass_burn r tc) (unwrap_or (transcoder_protocol_features r tc) 0)
  | _ =>
      let audio := local_audio_encoder_names in
      mkSeekFacts (local_video && tonemap_available) (if local_video then local_video_encoder_names r else [])
        audio audio (local_video && ass_burn_available) PROTOCOL_MINOR
  end.
Definition seek_burn_capable (b : Burns) : bool :=
  is_some (burn_sets b)
  || is_some_and (fun p => is_connected (part_module_id p) || reads_locally (part_module_id p)) (head (s_parts s)).
Definition seek_request (f : SeekFacts) (b : Burns) (want_audio want_video : nat) (force : bool) : Request :=
  mkRequest (s_profile s) (s_info s) want_audio want_video (length (s_parts s) =? 1)%nat None
    (sf_tonemap f) (seek_burn_capable b)
    (unwrap_or ((fun p => ocr_flags_for (s_ocr_set s) p (length (subtitles (s_info s)))) <$> head (s_parts s)) [])
    (burn_pick b)
    (mkAssPolicy (order (s_ass s)) (sf_ass_burn f) (overlay_ready (s_ass s)))
    (sf_video_targets f) (sf_full_audio_targets f) (sf_local_audio_targets f) force.
Definition feature_missing (f : SeekFacts) (p : RemuxPlan) : bool :=
  is_some_and (fun feature => negb (supports (sf_protocol f) feature)) (plan_protocol_feature p).
Definition fill_verdict_track_ids (subs : list SubtitleVerdict) : list SubtitleVerdict :=
  match s_parts s with
  | [] => subs
  | _ => map (fun v => mkSubtitleVerdict (sv_index v) (Some (Z.of_nat (sv_index v) + 1)) (sv_format v)
                         (sv_language v) (sv_tier v) (sv_note v)) subs
  end.
Definition seek_measurement (want_audio : nat) : result string (option AudioLoudnessMeasurement) :=
  match s_parts s with
  | [part] =>
      if force_loudness s then audio_loudness (file_id part) want_audio (part_size part) (mtime_unix part)
      else Ok None
  | _ => Ok None
  end.
(** The negotiated plan with its gains. *)
Definition seek_plan (f : SeekFacts) (b : Burns) (want_audio want_video : nat)
    (m : option AudioLoudnessMeasurement) (force : bool) : result string (SourcePlan * RemuxPlan) :=
  let sp := negotiate_for_executors (seek_request f b want_audio want_video force) in
  let? p := fill_audio_loudness_gains audio_loudness (s_parts s) (sp_plan sp) (s_loudness s) m in
  Ok (sp, p).
(** What the executor does not understand is given up, if it is optional. *)
Definition compatible_plan (f : SeekFacts) (b : Burns) (want_audio want_video : nat)
    (m : option AudioLoudnessMeasurement) : result string (SourcePlan * RemuxPlan) :=
  let? planned := seek_plan f b want_audio want_video m (is_some m) in
  if feature_missing f (snd planned) then
    let? planned := if is_some m then seek_plan f b want_audio want_video m false else Ok planned in
    let '(sp, p) := planned in
    Ok (sp, if feature_missing f p then apply_audio_loudness_measurement p LoudnessOff None else p)
  else Ok planned.
Definition NEEDS_BIT_DEPTH : string := "selected track requires a transcoder that enforces the client's bit-depth limit (protocol 4.6)".
Definition replan (r : Registry) (p : RemuxPlan) (b : Burns) (want_audio want_video : nat)
    : result string (RemuxPlan * (string * string) * list SubtitleVerdict * PlacementNeed) :=
  let f := seek_facts r (local_video_executor_for r p) in
  let? m := seek_measurement want_audio in
  let? planned := compatible_plan f b want_audio want_video m in
  let '(sp, p) := planned in
  ensure (negb (feature_missing f p)) NEEDS_BIT_DEPTH (
  let? v := ok_or (replanned_verdict p (sp_video_verdict sp) (sp_audio_verdict sp)) "no playable streams"%string in
  let burns_ass := is_some (rp_burn_ass p) || is_some (burn_ass_text b) in
  Ok (p, v, fill_verdict_track_ids (sp_subtitles sp),
      fst (placement_need p (s_info s) (s_parts s) burns_ass))).

(** *** Starting *)

Definition FALLBACK_SINK : string := "hlssink2".
Definition open_part_leases (from : nat) : M unit := fun w =>
  let w' := mkWorld (live w) (registry w) (tc_leases w) (trace w ++ [OpenLeases from]) in
  match opens (trace w') with
  | Some e => (Err e, w')
  | None => (Ok tt, w')
  end.
Definition attempt (executor : option string) (p : RemuxPlan) (idx : nat) (local_ms : Z) (sink : string)
    (w : World) : Attempt :=
  mkAttempt executor p (s_target_duration_secs s) idx local_ms sink
    (burn_sets (burns (live w)), burn_ass_text (burns (live w))).
Definition start_local (p : RemuxPlan) (idx : nat) (local_ms : Z) (sink : string) : M (list Fact) := fun w =>
  let w' := mkWorld (live w) (registry w) (tc_leases w) (trace w ++ [Start (attempt None p idx local_ms sink w)]) in
  (local_starts (trace w'), w').
(** [start_transcode]: the leases are registered for the time of the start, and
    kept when the transcoder is ready. *)
Definition start_transcode (tc : string) (p : RemuxPlan) (idx : nat) (local_ms : Z) (sink : string)
    : M (list Fact) :=
  let^ _ := set_leases (Some idx) in
  let^ r := get registry in
  match send_link r tc (plan_protocol_feature p) with
  | None => let^ _ := set_leases None in lift (Err "transcoder not connected or too old"%string)
  | Some _ =>
      let^ a := get (attempt (Some tc) p idx local_ms sink) in
      let^ _ := effect (Start a) in
      let^ answer := get (fun w => remote_starts (trace w)) in
      match answer with
      | IsReady facts => ret facts
      | Rejected e => let^ _ := set_leases None in lift (Err e)
      | Silent =>
          let^ _ := effect (EndSession tc) in
          let^ _ := set_leases None in lift (Err "transcoder produced no playlist in time"%string)
      end
  end.
(** One start, and one more on the fallback sink over fresh leases. *)
Definition with_fallback (start : string -> M (list Fact)) (p : RemuxPlan) (idx : nat) : M (list Fact) :=
  let^ sink := get (fun w => sink (live w)) in
  let^ first := catch (start sink) in
  match first with
  | Ok facts => ret facts
  | Err e =>
      if negb (sink =s FALLBACK_SINK) && (rp_segment_format p ≟ Ts) then
        let^ _ := open_part_leases idx in
        let^ facts := start FALLBACK_SINK in
        let^ _ := set_live (with_sink FALLBACK_SINK) in
        ret facts
      else lift (Err e)
  end.
Definition restart_local (p : RemuxPlan) (idx : nat) (local_ms : Z) : M unit :=
  let^ old := get (fun w => run (live w)) in
  let^ _ := (if old then let^ _ := set_live (with_run false) in effect EndRun else ret tt) in
  let^ _ := open_part_leases idx in
  let^ facts := with_fallback (start_local p idx local_ms) p idx in
  let^ v := get (fun w => verdict (live w)) in
  let^ _ := set_live (with_verdict (fold_facts v facts)) in
  set_live (with_run true).
Definition restart_remote (tc : string) (p : RemuxPlan) (idx : nat) (local_ms : Z) : M unit :=
  let^ _ := effect (EndSession tc) in
  let^ _ := session_ended tc in
  let^ held := get tc_leases in
  let^ _ := set_leases None in
  let^ _ := (if held ≟ Some idx then ret tt else open_part_leases idx) in
  let^ _ := with_fallback (start_transcode tc p idx local_ms) p idx in
  ret tt.

(** *** The whole *)

Definition wants_replan (p : RemuxPlan) (todo : PendingSeek) : bool :=
  let want_audio := map_or (rp_audio_track p) Z.to_nat (ps_audio_track todo) in
  let want_video := map_or (rp_video_track p) Z.to_nat (ps_video_track todo) in
  negb (want_audio =? rp_audio_track p)%nat || negb (want_video =? rp_video_track p)%nat || replan_subs todo.
Definition settle_plan (p : RemuxPlan) (todo : PendingSeek) : M RemuxPlan :=
  if wants_replan p todo then
    let^ r := get registry in
    let^ b := get (fun w => burns (live w)) in
    let^ planned := lift (replan r p b (map_or (rp_audio_track p) Z.to_nat (ps_audio_track todo))
                            (map_or (rp_video_track p) Z.to_nat (ps_video_track todo))) in
    let '(p, v, subs, n) := planned in
    let^ _ := set_live (with_replan p v subs n) in
    ret p
  else ret p.
Definition execute_seek (todo : PendingSeek) : M Z :=
  let^ p := get (fun w => plan (live w)) in
  let^ p := lift (ok_or p "session has no restartable pipeline"%string) in
  let^ p := settle_plan p todo in
  let idx := part_index (s_parts s) (position_ms todo) in
  let^ part := lift (ok_or (s_parts s !! idx) "session has no parts"%string) in
  let local_ms := sat_sub (position_ms todo) (part_base_ms part) in
  let^ _ := set_live (with_part idx) in
  let^ _ := match mode s with
            | Remux => restart_local p idx local_ms
            | Transcode tc => restart_remote tc p idx local_ms
            | Direct => lift (Err "direct sessions seek with range requests"%string)
            end in
  ret (part_base_ms part).

End Restart.
