(* ===== verification/SeekRestartTheorems.v ===== *)
(** * What a seek-restart guarantees

    The worker's facts are folded in once; a restart makes at most two starts
    and remembers the sink that worked; a re-plan stays within what the executor
    of the session can do. And what it does not keep: the slot of a dispatched
    session, and the burned script when a switch fails half way. *)
From S2P Require Import Prelude Media Loudness Probe Plan Ladder Negotiate NegotiateFacts Bench Placement Registry.
From S2P Require Import RegistryTheorems Playback HubPlanning HubTheorems Text Fixtures SeekRestart.
#[local] Open Scope Z_scope.

(** ** Facts *)

Lemma starts_with_app p s t : starts_with p s = true -> starts_with p (s +:+ t) = true.
Proof.
  unfold starts_with. revert s. induction p as [|a p IH]; intros [|b s]; rewrite ?cons_app; cbn [strip_prefix];
    try done. destruct (Ascii.eqb a b); [apply IH|done].
Qed.
Lemma contains_app_l p s t : str_contains p s = true -> str_contains p (s +:+ t) = true.
Proof.
  induction s as [|a s IH]; rewrite ?cons_app; cbn [str_contains].
  - destruct p; [by destruct t|done].
  - intros [H|H]%orb_true_iff; apply orb_true_iff; [left|right; by apply IH].
    rewrite <- cons_app. by apply starts_with_app.
Qed.

Lemma push_fact_has d slot : str_contains d (push_fact slot d) = true.
Proof.
  unfold push_fact. destruct (str_contains d slot) eqn:E; [done|].
  rewrite <- (app_nil_s d) at 2. rewrite <- app_assoc_s. apply contains_app.
Qed.
Lemma push_fact_keeps d d' slot : str_contains d slot = true -> str_contains d (push_fact slot d') = true.
Proof. intros H. unfold push_fact. destruct (str_contains d' slot); [done|]. by apply contains_app_l. Qed.
Lemma push_fact_known d slot : str_contains d slot = true -> push_fact slot d = slot.
Proof. unfold push_fact. by intros ->. Qed.

(** The slot of a fact's kind tells it. *)
Definition told (v : string * string) (f : Fact) : Prop :=
  (fact_kind f = "audio" -> str_contains (fact_detail f) (snd v) = true)
  /\ (fact_kind f = "video" -> str_contains (fact_detail f) (fst v) = true).

Lemma fold_fact_tells v f : told (fold_fact v f) f.
Proof.
  destruct v as [vid aud]. unfold fold_fact, told.
  destruct (str_eqb_spec (fact_kind f) "audio") as [->|Ha]; [split; [|done]; intros _; apply push_fact_has|].
  destruct (str_eqb_spec (fact_kind f) "video") as [->|Hv]; [split; [done|]; intros _; apply push_fact_has|].
  by split.
Qed.
Lemma fold_fact_keeps v f g : told v g -> told (fold_fact v f) g.
Proof.
  destruct v as [vid aud]. unfold fold_fact, told. intros [Ha Hv].
  destruct (fact_kind f =s "audio"); [|destruct (fact_kind f =s "video")]; simpl; split; intros H;
    try (by apply push_fact_keeps; auto); auto.
Qed.
Lemma fold_fact_known v f : told v f -> fold_fact v f = v.
Proof.
  destruct v as [vid aud]. unfold fold_fact, told. intros [Ha Hv].
  destruct (str_eqb_spec (fact_kind f) "audio"); [by rewrite push_fact_known by auto|].
  destruct (str_eqb_spec (fact_kind f) "video"); [by rewrite push_fact_known by auto|done].
Qed.
Lemma fold_tells fs v g : told v g \/ g ∈ fs -> told (fold_left fold_fact fs v) g.
Proof.
  revert v. induction fs as [|f fs IH]; intros v [H|H]; simpl; [done|set_solver|..]; apply IH.
  - left. by apply fold_fact_keeps.
  - apply elem_of_cons in H as [->|]; [left; apply fold_fact_tells|by right].
Qed.
Lemma fold_known fs v : (forall f, f ∈ fs -> told v f) -> fold_left fold_fact fs v = v.
Proof.
  induction fs as [|f fs IH]; intros H; simpl; [done|].
  rewrite fold_fact_known by (apply H; left). apply IH. intros g Hg. apply H. by right.
Qed.

(** Folding a worker's facts into the verdict tells each of them in the
    slot of its kind, and a restart that learns the same facts again changes
    nothing. *)
Theorem facts_fold_once verdict facts :
  fold_facts (fold_facts verdict facts) facts = fold_facts verdict facts
  /\ forall v f, fold_facts verdict facts = Some v -> f ∈ facts -> told v f.
Proof.
  destruct verdict as [v|]; [|done]. unfold fold_facts. simpl. split.
  - f_equal. apply fold_known. intros f Hf. apply fold_tells. by right.
  - intros w f [= <-] Hf. apply fold_tells. by right.
Qed.

(** ** The starts of a restart *)

Definition starts (l : list Effect) : list Attempt :=
  omap (fun e => match e with Start a => Some a | _ => None end) l.
Lemma starts_app l l' : starts (l ++ l') = starts l ++ starts l'.
Proof. apply omap_app. Qed.

Section Restart.
Context {gst : GStreamer} (tonemap_available ass_burn_available : bool).
Context (is_connected reads_locally : string -> bool)
        (audio_loudness : string -> nat -> Z -> Z -> result string (option AudioLoudnessMeasurement))
        (opens : list Effect -> option string)
        (local_starts : list Effect -> result string (list Fact))
        (remote_starts : list Effect -> Ready).
Context (s : Fixed).
#[local] Notation "'let^' x := m 'in' k" := (bind m (fun x => k))
  (at level 200, x pattern, m at level 100, k at level 200).
Notation execute := (execute_seek tonemap_available ass_burn_available is_connected reads_locally audio_loudness
                       opens local_starts remote_starts s).

(** What a step keeps of the world, and the starts it adds. *)
Record grows (w w' : World) (l : list Attempt) : Prop := {
  g_trace : exists new, trace w' = trace w ++ new /\ starts new = l;
  g_plan : plan (live w') = plan (live w);
  g_burns : burns (live w') = burns (live w);
}.
Lemma grows_refl w : grows w w [].
Proof. split; [exists []; by rewrite app_nil_r|done|done]. Qed.
Lemma grows_trans w w' w'' l l' : grows w w' l -> grows w' w'' l' -> grows w w'' (l ++ l').
Proof.
  intros [(n & Ht & <-) Hp Hb] [(n' & Ht' & <-) Hp' Hb']. split; [|congruence|congruence].
  exists (n ++ n'). by rewrite Ht', Ht, app_assoc, starts_app.
Qed.
Lemma grows_one w w' e : trace w' = trace w ++ [e] -> plan (live w') = plan (live w) ->
  burns (live w') = burns (live w) -> grows w w' (starts [e]).
Proof. split; eauto. Qed.

Lemma open_grows from w r w' :
  open_part_leases opens from w = (r, w') ->
  grows w w' [] /\ registry w' = registry w /\ tc_leases w' = tc_leases w /\ live w' = live w.
Proof.
  unfold open_part_leases. destruct (opens _); intros [= <- <-]; (split; [|done]);
    by apply (grows_one w _ (OpenLeases from)).
Qed.

(** One start adds itself, or nothing when there is no link to send it on. *)
Definition at_most (a : Attempt) (l : list Attempt) : Prop := l = [] \/ l = [a].
Lemma start_local_grows p idx ms sink w r w' :
  start_local local_starts s p idx ms sink w = (r, w') ->
  grows w w' [attempt s None p idx ms sink w] /\ registry w' = registry w /\ live w' = live w.
Proof.
  unfold start_local. intros [= <- <-]. split; [|done].
  by apply (grows_one w _ (Start (attempt s None p idx ms sink w))).
Qed.
Lemma start_transcode_grows tc p idx ms sink w r w' :
  start_transcode remote_starts s tc p idx ms sink w = (r, w') ->
  exists l, at_most (attempt s (Some tc) p idx ms sink w) l /\ grows w w' l
    /\ registry w' = registry w /\ live w' = live w
    /\ (is_ok r = true -> l = [attempt s (Some tc) p idx ms sink w] /\ tc_leases w' = Some idx).
Proof.
  unfold start_transcode, bind, set_leases, get, effect, lift, ret, at_most. simpl.
  set (a := attempt s (Some tc) p idx ms sink w).
  destruct (send_link _ _ _).
  - destruct (remote_starts _); intros [= <- <-]; exists [a]; (split_and!; [by right| |done|done|by try done]);
      (split; [simpl; eexists; rewrite <- ?app_assoc; by split|done|done]).
  - intros [= <- <-]. exists []. split_and!; [by left| |done|done|done].
    split; [exists []; by rewrite app_nil_r|done|done].
Qed.

(** The shape of a restart: the first start, and the one on the fallback. *)
Definition restarted (executor : option string) (p : RemuxPlan) (idx : nat) (ms : Z) (w w' : World) (ok : bool)
    (first second : list Attempt) : Prop :=
  let a sink := attempt s executor p idx ms sink w in
  at_most (a (sink (live w))) first
  /\ (second = [] \/ (second = [a FALLBACK_SINK] /\ sink (live w) <> FALLBACK_SINK /\ rp_segment_format p = Ts))
  /\ (ok = true -> (first = [a (sink (live w))] /\ second = [] /\ sink (live w') = sink (live w))
                   \/ (second = [a FALLBACK_SINK] /\ sink (live w') = FALLBACK_SINK))
  /\ (ok = true -> is_some executor = true -> tc_leases w' = Some idx).

Lemma fallback_grows (executor : option string) start p idx ms w r w' :
  (forall sink w r w', start sink w = (r, w') -> exists l, at_most (attempt s executor p idx ms sink w) l /\ grows w w' l
     /\ registry w' = registry w /\ live w' = live w
     /\ (is_ok r = true -> l = [attempt s executor p idx ms sink w]
         /\ (is_some executor = true -> tc_leases w' = Some idx))) ->
  with_fallback opens start p idx w = (r, w') ->
  exists first second, grows w w' (first ++ second) /\ registry w' = registry w
    /\ restarted executor p idx ms w w' (is_ok r) first second.
Proof.
  intros Hstart. unfold with_fallback, bind, get, catch, set_live, lift, ret.
  destruct (start (sink (live w)) w) as [r1 w1] eqn:E1.
  destruct (Hstart _ _ _ _ E1) as (l1 & Hm1 & Hg1 & Hr1 & Hl1 & Hok1).
  destruct r1 as [facts|e].
  { intros [= <- <-]. exists l1, []. rewrite app_nil_r. split_and!; [done|done|]. split_and!; [done|by left|..].
    - intros _. left. rewrite Hl1. split; [by apply Hok1|done].
    - intros _. by apply Hok1. }
  destruct (_ && _) eqn:Hc.
  2: { intros [= <- <-]. exists l1, []. rewrite app_nil_r. split_and!; [done|done|]. by split_and!; [|left| |]. }
  apply andb_true_iff in Hc as [Hs Hts]. apply negb_true_iff in Hs.
  assert (Hsink : sink (live w) <> FALLBACK_SINK) by (by destruct (str_eqb_spec (sink (live w)) FALLBACK_SINK)).
  apply bool_decide_eq_true in Hts.
  destruct (open_part_leases opens idx w1) as [r2 w2] eqn:E2.
  destruct (open_grows _ _ _ _ E2) as (Hg2 & Hr2 & _ & Hl2).
  assert (Hg12 : grows w w2 l1) by (rewrite <- (app_nil_r l1); eauto using grows_trans).
  destruct r2 as [|e2].
  2: { intros [= <- <-]. exists l1, []. rewrite app_nil_r. split_and!; [done|congruence|]. by split_and!; [|left| |]. }
  destruct (start FALLBACK_SINK w2) as [r3 w3] eqn:E3.
  destruct (Hstart _ _ _ _ E3) as (l3 & Hm3 & Hg3 & Hr3 & Hl3 & Hok3).
  assert (Hatt : attempt s executor p idx ms FALLBACK_SINK w2 = attempt s executor p idx ms FALLBACK_SINK w).
  { unfold attempt. by rewrite Hl2, Hl1. }
  rewrite Hatt in *.
  assert (Hsecond : l3 = [] \/ (l3 = [attempt s executor p idx ms FALLBACK_SINK w] /\ sink (live w) <> FALLBACK_SINK
                                /\ rp_segment_format p = Ts)) by (destruct Hm3 as [->| ->]; [by left|by right]).
  assert (Hg : grows w w3 (l1 ++ l3)) by eauto using grows_trans.
  destruct r3 as [facts|e3]; intros [= <- <-]; exists l1, l3.
  - split_and!; [by destruct Hg; split|simpl; congruence|]. split_and!; [done|done|..].
    + intros _. right. split; [by apply Hok3|done].
    + intros _. by apply Hok3.
  - split_and!; [done|congruence|]. by split_and!.
Qed.

Lemma restarted_from executor p idx ms w w1 w2 w' ok first second :
  burns (live w) = burns (live w1) -> sink (live w) = sink (live w1) ->
  sink (live w') = sink (live w2) -> tc_leases w' = tc_leases w2 ->
  restarted executor p idx ms w1 w2 ok first second -> restarted executor p idx ms w w' ok first second.
Proof.
  unfold restarted, attempt. intros -> -> -> ->. done.
Qed.

Definition executor_of : option string := match mode s with Transcode tc => Some tc | _ => None end.

Lemma restart_local_grows p idx ms w r w' :
  restart_local opens local_starts s p idx ms w = (r, w') ->
  exists first second, grows w w' (first ++ second) /\ registry w' = registry w
    /\ restarted None p idx ms w w' (is_ok r) first second.
Proof.
  intros H. unfold restart_local, bind, get, set_live, effect, ret in H.
  assert (exists w1, grows w w1 [] /\ registry w1 = registry w /\ sink (live w1) = sink (live w)
            /\ (let^ _ := open_part_leases opens idx in
                let^ facts := with_fallback opens (start_local local_starts s p idx ms) p idx in
                let^ v := get (fun w => verdict (live w)) in
                let^ _ := set_live (with_verdict (fold_facts v facts)) in
                set_live (with_run true)) w1 = (r, w')) as (w1 & Hg1 & Hr1 & Hs1 & H1).
  { destruct (run (live w)); [|by exists w; split_and!; [apply grows_refl|..]].
    eexists. split_and!; [| | |exact H]; [|done|done]. by apply (grows_one w _ EndRun). }
  clear H. unfold bind in H1. destruct (open_part_leases opens idx w1) as [ro w2] eqn:E2.
  destruct (open_grows _ _ _ _ E2) as (Hg2 & Hr2 & _ & Hl2).
  pose proof (grows_trans _ _ _ _ _ Hg1 Hg2) as Hg12. simpl in Hg12.
  destruct ro as [|e].
  2: { injection H1 as <- <-. exists [], []. split_and!; [done|congruence|]. by split_and!; [left|left| |]. }
  destruct (with_fallback _ _ _ _ w2) as [rf w3] eqn:E3.
  eapply (fallback_grows None _ p idx ms) in E3 as (first & second & Hg3 & Hr3 & Hres).
  2: { intros sk v r0 v' (Hg & Hr & Hl)%start_local_grows. eexists. split_and!; [by right|exact Hg|done|done|done]. }
  pose proof (grows_trans _ _ _ _ _ Hg12 Hg3) as Hg. simpl in Hg. exists first, second.
  assert (Hb2 : burns (live w) = burns (live w2)) by (by destruct Hg12).
  assert (Hs2 : sink (live w) = sink (live w2)) by congruence.
  destruct rf as [facts|e]; injection H1 as <- <-.
  - split_and!; [by destruct Hg; split|simpl; congruence|].
    by apply (restarted_from _ _ _ _ _ w2 w3).
  - split_and!; [done|congruence|]. by apply (restarted_from _ _ _ _ _ w2 w3).
Qed.

Lemma restart_remote_grows tc p idx ms w r w' :
  restart_remote opens remote_starts s tc p idx ms w = (r, w') ->
  exists first second, grows w w' (first ++ second) /\ registry w' = tc_session_ended (registry w) tc
    /\ restarted (Some tc) p idx ms w w' (is_ok r) first second.
Proof.
  intros H. unfold restart_remote, bind at 1 2 3 4, get, set_leases, effect, session_ended in H.
  set (w1 := mkWorld _ _ None _) in H.
  assert (Hg1 : grows w w1 []) by (by apply (grows_one w _ (EndSession tc))).
  assert (Hr1 : registry w1 = tc_session_ended (registry w) tc) by done.
  assert (exists r2 w2, (if tc_leases w ≟ Some idx then ret tt else open_part_leases opens idx) w1 = (r2, w2)
            /\ grows w1 w2 [] /\ registry w2 = registry w1 /\ live w2 = live w1) as (r2 & w2 & E2 & Hg2 & Hr2 & Hl2).
  { destruct (tc_leases w ≟ Some idx); [by exists (Ok tt), w1; split_and!; [|apply grows_refl|..]|].
    destruct (open_part_leases opens idx w1) as [r2 w2] eqn:E2. destruct (open_grows _ _ _ _ E2) as (? & ? & _ & ?).
    by exists r2, w2. }
  unfold bind in H. simpl in H. rewrite E2 in H.
  pose proof (grows_trans _ _ _ _ _ Hg1 Hg2) as Hg12. simpl in Hg12.
  destruct r2 as [[]|e].
  2: { injection H as <- <-. exists [], []. split_and!; [done|congruence|]. by split_and!; [left|left| |]. }
  destruct (with_fallback _ _ _ _ w2) as [rf w3] eqn:E3.
  eapply (fallback_grows (Some tc) _ p idx ms) in E3 as (first & second & Hg3 & Hr3 & Hres).
  2: { intros sk v r0 v' (l & Hm & Hg & Hr & Hl & Hok)%start_transcode_grows. exists l. split_and!; try done.
       intros Hr0. destruct (Hok Hr0). auto. }
  pose proof (grows_trans _ _ _ _ _ Hg12 Hg3) as Hg. simpl in Hg. exists first, second.
  assert (Hb2 : burns (live w) = burns (live w2)) by (by destruct Hg12).
  assert (Hs2 : sink (live w) = sink (live w2)) by (by rewrite Hl2).
  destruct rf as [facts|e]; injection H as <- <-; (split_and!; [done|congruence|]);
    by apply (restarted_from _ _ _ _ _ w2 w3).
Qed.

(** *** The whole restart *)

Lemma settle_plan_spec p todo w r w' :
  settle_plan tonemap_available ass_burn_available is_connected reads_locally audio_loudness s p todo w = (r, w') ->
  trace w' = trace w /\ registry w' = registry w /\ tc_leases w' = tc_leases w
  /\ burns (live w') = burns (live w) /\ sink (live w') = sink (live w) /\ run (live w') = run (live w)
  /\ (forall p', r = Ok p' -> plan (live w) = Some p -> plan (live w') = Some p').
Proof.
  unfold settle_plan, bind, get, lift, ret, set_live. destruct (wants_replan p todo).
  - destruct (replan _ _ _ _ _ _ _ _ _ _ _) as [[[[p' v] subs] n]|e]; intros [= <- <-]; split_and!; try done.
    intros p0 [= <-] _. done.
  - intros [= <- <-]. split_and!; try done. by intros p' [= <-].
Qed.

(** What a seek to [todo] may make of the world [w]: [first] and [second] are
    its starts, [r] its answer. *)
Definition bounded_seek (todo : PendingSeek) (w w' : World) (r : result string Z) (first second : list Attempt)
    : Prop :=
  let idx := part_index (s_parts s) (position_ms todo) in
  (length first <= 1)%nat /\ (length second <= 1)%nat
  /\ (forall a, a ∈ first ++ second ->
        plan (live w') = Some (a_plan a) /\ a_executor a = executor_of /\ a_part a = idx
        /\ a_target_duration_secs a = s_target_duration_secs s
        /\ a_burns a = (burn_sets (burns (live w)), burn_ass_text (burns (live w))))
  /\ (forall a, a ∈ first -> a_sink a = sink (live w))
  /\ (forall a, a ∈ second -> a_sink a = FALLBACK_SINK /\ sink (live w) <> FALLBACK_SINK
                             /\ rp_segment_format (a_plan a) = Ts)
  /\ (forall base, r = Ok base -> exists part a, s_parts s !! idx = Some part /\ base = part_base_ms part
        /\ last (first ++ second) = Some a /\ a_sink a = sink (live w')
        /\ a_local_ms a = sat_sub (position_ms todo) base
        /\ (mode s <> Remux -> tc_leases w' = Some idx)).

Lemma bounded_none todo w w' e : bounded_seek todo w w' (Err e) [] [].
Proof. split_and!; simpl; try lia; set_solver. Qed.

Lemma bounded_main todo w w2 w' (rr : result string unit) r p part first second :
  let idx := part_index (s_parts s) (position_ms todo) in
  let ms := sat_sub (position_ms todo) (part_base_ms part) in
  s_parts s !! idx = Some part -> plan (live w2) = Some p ->
  burns (live w2) = burns (live w) -> sink (live w2) = sink (live w) ->
  (mode s <> Remux -> is_some executor_of = true) ->
  grows w2 w' (first ++ second) -> restarted executor_of p idx ms w2 w' (is_ok rr) first second ->
  r = match rr with Ok _ => Ok (part_base_ms part) | Err e => Err e end ->
  bounded_seek todo w w' r first second.
Proof.
  intros idx ms Hpart Hp2 Hb2 Hs2 Hex [_ Hpl _] (Hf & Hsec & Hok & Hlease) ->.
  assert (Hp' : plan (live w') = Some p) by (by rewrite Hpl). unfold bounded_seek. cbn zeta. fold idx.
  rewrite Hs2 in *. split_and!.
  - destruct Hf as [->| ->]; simpl; lia.
  - destruct Hsec as [->|[-> _]]; simpl; lia.
  - intros a Ha. assert (exists k, a = attempt s executor_of p idx ms k w2) as [k ->].
    { destruct Hf as [->| ->], Hsec as [->|[-> _]]; set_solver. }
    unfold attempt. cbn [a_plan a_executor a_part a_target_duration_secs a_burns]. by rewrite Hb2.
  - intros a Ha. destruct Hf as [->| ->]; set_solver.
  - intros a Ha. destruct Hsec as [->|(-> & ? & ?)]; [set_solver|]. apply list_elem_of_singleton in Ha as ->. done.
  - intros base Hr. destruct rr as [u|e]; [|done]. injection Hr as <-.
    assert (Hlast : exists k, last (first ++ second) = Some (attempt s executor_of p idx ms k w2)
                            /\ k = sink (live w')).
    { destruct (Hok eq_refl) as [(-> & -> & ->)|[-> ->]]; [by eexists|]. rewrite last_snoc. by eexists. }
    destruct Hlast as (k & Hla & ->). eexists part, _. split_and!; [done|done|exact Hla|done|done|].
    intros Hm. by apply Hlease; [|apply Hex].
Qed.

Lemma seek_restart_bounded_spec todo w r w' :
  execute todo w = (r, w') ->
  exists new first second, trace w' = trace w ++ new /\ starts new = first ++ second
    /\ bounded_seek todo w w' r first second.
Proof.
  intros H. unfold execute_seek, bind at 1 2, get, lift in H.
  assert (Hnone : forall e, r = Err e -> trace w' = trace w -> exists new first second,
    trace w' = trace w ++ new /\ starts new = first ++ second /\ bounded_seek todo w w' r first second).
  { intros e -> ->. exists [], [], []. rewrite app_nil_r. split_and!; [done|done|apply bounded_none]. }
  destruct (plan (live w)) as [p0|] eqn:Hp0; simpl in H; [|injection H as <- <-; by eapply Hnone].
  unfold bind at 1 in H. destruct (settle_plan _ _ _ _ _ _ _ _ w) as [rs w1] eqn:Es.
  destruct (settle_plan_spec _ _ _ _ _ Es) as (Ht1 & Hr1 & Hl1 & Hb1 & Hs1 & _ & Hp1).
  destruct rs as [p|e]; [|injection H as <- <-; by eapply Hnone]. specialize (Hp1 p eq_refl Hp0).
  unfold bind at 1 in H. set (idx := part_index _ _) in H.
  destruct (s_parts s !! idx) as [part|] eqn:Hpart; simpl in H; [|injection H as <- <-; by eapply Hnone].
  unfold bind, set_live, ret, lift in H. simpl in H. set (w2 := mkWorld _ _ _ _) in H.
  set (ms := sat_sub (position_ms todo) (part_base_ms part)) in *.
  assert (Hmain : forall (rr : result string unit) w3 first second, grows w2 w3 (first ++ second) ->
    restarted executor_of p idx ms w2 w3 (is_ok rr) first second -> (mode s <> Remux -> is_some executor_of = true) ->
    (match rr with Ok _ => (Ok (part_base_ms part), w3) | Err e => (Err e, w3) end) = (r, w') ->
    exists new first second, trace w' = trace w ++ new /\ starts new = first ++ second
      /\ bounded_seek todo w w' r first second).
  { intros rr w3 first second Hg Hres Hex Hr. assert (w3 = w') as <- by (by destruct rr; injection Hr).
    pose proof Hg as [(new & Htr & Hst) _ _]. exists new, first, second.
    split_and!; [by rewrite Htr; simpl; rewrite Ht1|done|].
    apply (bounded_main todo w w2 w3 rr r p part); try done. by destruct rr; injection Hr as <-. }
  destruct (mode s) as [| |tc] eqn:Hm.
  - injection H as <- <-. by eapply Hnone.
  - destruct (restart_local _ _ _ _ _ _ w2) as [rr w3] eqn:E.
    destruct (restart_local_grows _ _ _ _ _ _ E) as (first & second & Hg & _ & Hres).
    apply (Hmain rr w3 first second Hg); [|done|by destruct rr]. unfold executor_of. by rewrite Hm.
  - destruct (restart_remote _ _ _ _ _ _ _ w2) as [rr w3] eqn:E.
    destruct (restart_remote_grows _ _ _ _ _ _ _ E) as (first & second & Hg & _ & Hres).
    apply (Hmain rr w3 first second Hg); [| |by destruct rr]; unfold executor_of; by rewrite Hm.
Qed.

(** One seek makes at most two starts: the first on the sink the session
    knows to work, and only when that fails on MPEG-TS one more on the fallback
    sink; both run the plan the session then has, from the part the position
    lies in, with the target duration it declared at its start. A seek that
    succeeds answers the base of that part and remembers the sink that worked. *)
Theorem seek_restart_bounded todo w r w' :
  execute todo w = (r, w') ->
  exists new first second, trace w' = trace w ++ new /\ starts new = first ++ second
    /\ bounded_seek todo w w' r first second.
Proof. apply seek_restart_bounded_spec. Qed.

(** *** Re-planning *)

(** Loudness touches the gains only. *)
Definition same_but_gains (p p' : RemuxPlan) : Prop :=
  p' = with_loudness p (rp_stereo_gain_db p') (rp_native_gain_db p') (rp_loudness_source_channels p')
         (rp_loudness_gains p').
Lemma gains_refl p : same_but_gains p p.
Proof. by destruct p. Qed.
Lemma gains_applied p q pref m : same_but_gains p q -> same_but_gains p (apply_audio_loudness_measurement q pref m).
Proof.
  unfold same_but_gains, apply_audio_loudness_measurement. intros ->.
  destruct m; [destruct (loudness_enabled pref)|]; done.
Qed.
Lemma gains_filled parts p pref m q :
  fill_audio_loudness_gains audio_loudness parts p pref m = Ok q -> same_but_gains p q.
Proof.
  unfold fill_audio_loudness_gains. cbv zeta. pose proof (gains_refl p) as Hp.
  assert (Hap : forall m0, Ok (E := string) (apply_audio_loudness_measurement p pref m0) = Ok q -> same_but_gains p q).
  { intros m0 H. assert (apply_audio_loudness_measurement p pref m0 = q) as <- by congruence. by apply gains_applied. }
  destruct parts as [|part [|]]; [apply Hap| |apply Hap].
  destruct (_ || _); [apply Hap|]. destruct (loudness_force pref); [apply Hap|].
  intros (x & _ & H)%rbind_Ok. by apply (Hap x).
Qed.

Lemma compatible_plan_negotiated f b wa wv m sp p :
  compatible_plan is_connected reads_locally audio_loudness s f b wa wv m = Ok (sp, p) ->
  exists force, sp = negotiate_for_executors_impl (seek_request is_connected reads_locally s f b wa wv force)
    /\ same_but_gains (sp_plan sp) p.
Proof.
  assert (Hplan : forall force sp p, seek_plan is_connected reads_locally audio_loudness s f b wa wv m force = Ok (sp, p) ->
    (exists force, sp = negotiate_for_executors_impl (seek_request is_connected reads_locally s f b wa wv force))
    /\ same_but_gains (sp_plan sp) p).
  { intros force sp0 p0 (q & Hq%gains_filled & [= <- <-])%rbind_Ok. split; [|done].
    destruct (wrapper_impl (seek_request is_connected reads_locally s f b wa wv force)) as [b0 ->].
    by exists b0. }
  intros ((sp0 & p0) & H0%Hplan & H)%rbind_Ok. simpl in H. destruct (feature_missing f p0).
  - apply rbind_Ok in H as ((sp1 & p1) & H1 & H).
    assert (H1' : (exists force, sp1 = negotiate_for_executors_impl (seek_request is_connected reads_locally s f b wa wv force))
      /\ same_but_gains (sp_plan sp1) p1) by (destruct (is_some m); [by apply Hplan in H1|by injection H1 as <- <-]).
    destruct H1' as [[force ->] Hg]. injection H as <- <-. exists force. split; [done|].
    destruct (feature_missing f p1); [by apply (gains_applied _ p1 LoudnessOff None)|done].
  - injection H as <- <-. destruct H0 as [[force ->] Hg]. by exists force.
Qed.

Lemma chosen_burn_capable a profile : choose a profile = Some Burn -> ass_burn_capable a = true.
Proof.
  unfold choose. destruct (ass_render profile); [done|].
  destruct (List.find _ _) as [t|] eqn:E; simpl; [|by destruct (vtt_render profile)].
  intros [= ->]. apply find_some in E as [_ E]. by simpl in E.
Qed.

(** C30: A track switch plans within what the session's executor can do: the
    plan is playable and needs no feature the executor lacks, an encode targets
    a codec it offers (unless a client's bound on segments forced it), tone
    mapping and burned scripts only where it has them; and the placement needs
    kept for a later move are those of this plan. *)
Theorem replan_within_executor r p b want_audio want_video p' v subs n :
  replan tonemap_available ass_burn_available is_connected reads_locally audio_loudness s
    r p b want_audio want_video = Ok (p', v, subs, n) ->
  let f := seek_facts tonemap_available ass_burn_available s r (local_video_executor_for r p) in
  playable p' = true
  /\ (forall feature, plan_protocol_feature p' = Some feature -> supports (sf_protocol f) feature = true)
  /\ (rp_video p' = Encode -> ceiling_secs (target_duration (s_profile s)) = None ->
      exists stream, stream ∈ video (s_info s) /\ decodable "video" (v_codec stream) = true
        /\ video_target_str (rp_video_codec p') ∈ sf_video_targets f)
  /\ (rp_tone_map p' = true -> sf_tonemap f = true)
  /\ (is_some (rp_burn_ass p') = true -> sf_ass_burn f = true)
  /\ n = fst (placement_need p' (s_info s) (s_parts s) (is_some (rp_burn_ass p') || is_some (burn_ass_text b))).
Proof.
  unfold replan. cbn zeta. set (f := seek_facts _ _ _ _ _).
  intros (m & _ & ((sp & q) & Hq & H)%rbind_Ok)%rbind_Ok.
  unfold ensure in H. destruct (feature_missing f q) eqn:Hfeat; [done|].
  apply rbind_Ok in H as (v0 & Hv & [= -> <- <- <-]).
  destruct (compatible_plan_negotiated _ _ _ _ _ _ _ Hq) as (force & -> & Hg).
  set (rq := seek_request is_connected reads_locally s f b want_audio want_video force) in *.
  unfold same_but_gains in Hg. split_and!.
  - unfold replanned_verdict, then_some in Hv. by destruct (playable p').
  - intros feature Hpf. unfold feature_missing in Hfeat. rewrite Hpf in Hfeat. simpl in Hfeat.
    by apply negb_false_iff in Hfeat.
  - intros He Hc. rewrite Hg in He |- *. simpl in *. unfold final_video in He.
    assert (short_override rq = false) as Hs by (unfold short_override; change (profile rq) with (s_profile s); by rewrite Hc).
    rewrite Hs, chosen_candidate in He. simpl in He. apply candidate_encodes in He as (st & Hst & Hd & Hl).
    exists st. split_and!; [by eapply list_elem_of_lookup_2|done|]. rewrite chosen_candidate. simpl.
    destruct (find_target _ _ H264 Hl) as [Ht _]. by apply v_target_shared in Ht as [_ Ht].
  - rewrite Hg. simpl. unfold tone_map. by intros [[Ht _]%andb_true_iff _]%andb_true_iff.
  - rewrite Hg. simpl. intros Hb. destruct (burn_ass_track rq) as [i|] eqn:E; [|done].
    apply burn_ass_track_spec in E as (Hc%chosen_burn_capable & _). done.
  - done.
Qed.

(** ** What a seek does not keep *)

(** A seek of a dispatched session that succeeds leaves the session on its
    transcoder, with the leases it reads through, and one slot of that
    transcoder given back: the load no longer counts the session. *)
Theorem seek_releases_slot tc todo w base w' :
  mode s = Transcode tc -> execute todo w = (Ok base, w') ->
  load_of (registry w') tc = Nat.pred (load_of (registry w) tc)
  /\ tc_leases w' = Some (part_index (s_parts s) (position_ms todo))
  /\ exists a, Start a ∈ trace w' /\ a_executor a = Some tc.
Proof.
  intros Hm H. destruct (seek_restart_bounded_spec _ _ _ _ H) as (new & first & second & Htr & Hst & Hb).
  destruct Hb as (_ & _ & Hall & _ & _ & Hok). destruct (Hok _ eq_refl) as (part & a & _ & _ & Hla & _ & _ & Hle).
  split_and!; [|by apply Hle; rewrite Hm|].
  - unfold execute_seek, bind, get, lift, set_live, ret in H.
    destruct (plan (live w)) as [p0|]; [|done]. cbn [ok_or] in H.
    destruct (settle_plan _ _ _ _ _ _ _ _ w) as [[p|e] w1] eqn:Es; [|done].
    destruct (settle_plan_spec _ _ _ _ _ Es) as (_ & Hr & _).
    destruct (s_parts s !! _) as [part'|]; [|done]. cbn [ok_or] in H. rewrite Hm in H.
    destruct (restart_remote _ _ _ _ _ _ _ _) as [[u|e] w3] eqn:E; [|done]. injection H as _ <-.
    apply restart_remote_grows in E as (_ & _ & _ & Hr' & _). rewrite Hr', load_ended, decide_True by done.
    simpl. by rewrite Hr.
  - exists a. assert (Ha : a ∈ first ++ second) by (by apply last_Some_elem_of in Hla).
    split; [|by rewrite (proj1 (proj2 (Hall a Ha))); unfold executor_of; rewrite Hm].
    rewrite Htr, elem_of_app. right. rewrite <- Hst in Ha. unfold starts in Ha.
    apply list_elem_of_omap in Ha as ([| | |a'] & Hin & [= ->]). done.
Qed.
End Restart.

(** A switch from a burned script file to an image track whose display sets
    are not to be had is refused, and drops the script: the session keeps the
    pick of the file it no longer has the text of. *)
Theorem failed_switch_drops_script catalogue_track ass_for_burn image_sets plan parts b tid t part pick :
  tid <> 0 -> catalogue_track tid = Some t -> head parts = Some part ->
  is_image (st_format t) = true -> new_pick t part = Some pick ->
  already_burning plan (Some pick) = false -> Some pick <> burn_pick b -> image_sets t = Ok None ->
  pick_subtitle catalogue_track ass_for_burn image_sets plan parts b (Some tid)
    = (Err (Refused "no display sets"), mkBurns (burn_pick b) (burn_sets b) None).
Proof.
  intros Htid Ht Hpart Himg Hpick Hal Hne Hsets. unfold pick_subtitle.
  assert (is_ass_format (st_format t) = false) as Hass.
  { pose proof Himg as Hin. apply str_mem_spec in Hin. unfold is_ass_format.
    repeat (apply elem_of_cons in Hin as [->|Hin]; [done|]). by apply not_elem_of_nil in Hin. }
  rewrite (proj2 (Z.eqb_neq _ _) Htid), Ht, Hpart, Hpick, Himg, Hal. simpl.
  rewrite bool_decide_eq_false_2 by done. unfold switch_pick. rewrite Hass, Hsets. by destruct pick.
Qed.

(** ** Witnesses *)

Definition hevc_film : MediaInfo := media "mkv" (Some (vs "hevc")) (Some (au "aac" 2)).
Definition h264_client : CapabilityProfile := client ["h264"] ["aac"] Ignore.
Definition no_burns : Burns := mkBurns None None None.
Definition no_measurement (_ : string) (_ : nat) (_ _ : Z) : result string (option AudioLoudnessMeasurement) := Ok None.
Definition dispatched : Fixed :=
  mkFixed (Transcode "tc") hevc_film h264_client one_part LoudnessOff false ass_policy_default 6 [].
Definition film_plan : RemuxPlan :=
  sp_plan (negotiate h264_client hevc_film 0 0 true None false false [] None ass_policy_default ["h264"]).
(** It plays on a box of one session, which counts it. *)
Definition playing : World :=
  mkWorld (mkLive (Some film_plan) (Some ("hevc → h264 (transcoded)", "aac copy")) [] plain_need 0 "" no_burns true)
    (one_box one_slot_box 1) (Some 0%nat) [].
Definition to_half : PendingSeek := mkSeek 1 30000 None None false.
Definition seek_it (remote : list Effect -> Ready) : result string Z * World :=
  execute_seek (gst := typical_stack) false false (fun _ => true) (fun _ => true) no_measurement (fun _ => None)
    (fun _ => Err "no local start"%string) remote dispatched to_half playing.

(** The first start is rejected, the second works. *)
Definition second_works (l : list Effect) : Ready :=
  if (length (starts l) =? 1)%nat then Rejected "crashed" else IsReady [].
Lemma seek_restart_bounded_witness :
  sink (live (snd (seek_it second_works))) = FALLBACK_SINK
  /\ exists new first second, trace (snd (seek_it second_works)) = new /\ starts new = first ++ second
     /\ length second = 1%nat.
Proof.
  split; [vm_compute; reflexivity|].
  destruct (seek_restart_bounded (gst := typical_stack) false false (fun _ => true) (fun _ => true) no_measurement
    (fun _ => None) (fun _ => Err "no local start"%string) second_works dispatched to_half playing
    (fst (seek_it second_works)) (snd (seek_it second_works))) as (new & first & second & Htr & Hst & Hb).
  { vm_compute. reflexivity. }
  exists new, first, second. split; [exact Htr|]. split; [exact Hst|].
  destruct Hb as (H1 & H2 & _). assert (length (starts new) = 2%nat) as Hlen.
  { replace new with (trace (snd (seek_it second_works))) by exact Htr. vm_compute. reflexivity. }
  rewrite Hst, length_app in Hlen. lia.
Defined.

(** The transcoder of one session has one, and is given another. *)
Lemma seek_releases_slot_witness :
  load_of (registry (snd (seek_it (fun _ => IsReady [])))) "tc" = 0%nat
  /\ fst (reserve_transcoder (registry (snd (seek_it (fun _ => IsReady [])))) plain_need) = Some "tc".
Proof.
  split; [|vm_compute; reflexivity].
  refine (proj1 (seek_releases_slot (gst := typical_stack) false false (fun _ => true) (fun _ => true) no_measurement
    (fun _ => None) (fun _ => Err "no local start"%string) (fun _ => IsReady []) dispatched "tc" to_half playing 0 _
    eq_refl _)).
  vm_compute. reflexivity.
Defined.

Lemma replan_within_executor_witness :
  exists p v subs n,
    replan (gst := typical_stack) false false (fun _ => true) (fun _ => true) no_measurement dispatched
      (one_box one_slot_box 1) film_plan no_burns 0 0 = Ok (p, v, subs, n)
    /\ rp_video p = Encode /\ playable p = true.
Proof.
  destruct (replan (gst := typical_stack) false false (fun _ => true) (fun _ => true) no_measurement dispatched
      (one_box one_slot_box 1) film_plan no_burns 0 0) as [[[[p v] subs] n]|e] eqn:E; [|vm_compute in E; discriminate].
  exists p, v, subs, n. split; [reflexivity|].
  split; [vm_compute in E; injection E as <- _ _ _; reflexivity|].
  exact (proj1 (replan_within_executor (gst := typical_stack) _ _ _ _ _ _ _ _ _ _ _ _ _ _ _ E)).
Defined.

Definition burning_file : Burns := mkBurns (Some (Sidecar 0)) None (Some "script").
Definition pgs_track : SubTrack :=
  mkSubTrack (mkTrack (Some "host") (Some "c") (Some "r") (Some "a.mkv") (Some 0) "embedded") "pgs".
Lemma failed_switch_drops_script_witness :
  snd (pick_subtitle (fun _ => Some pgs_track) (fun _ => None) (fun _ => Ok None) None one_part burning_file (Some 4))
    = mkBurns (Some (Sidecar 0)) None None.
Proof.
  rewrite (failed_switch_drops_script (fun _ => Some pgs_track) (fun _ => None) (fun _ => Ok None) None one_part
    burning_file 4 pgs_track (List.hd (mkPart "" 0 0 "" "" "" "" 0 0 0 0) one_part) (Embedded 0)); done.
Defined.

(** What the worker of a dispatched session tells on a restart is not folded
    into the verdict. *)
Lemma dispatched_facts_lost :
  verdict (live (snd (seek_it (fun _ => IsReady [mkFact "audio" "7.1 → 5.1"]))))
  = Some ("hevc → h264 (transcoded)"%string, "aac copy"%string).
Proof. vm_compute. reflexivity. Qed.
