(* ===== verification/Auth.v ===== *)
(** * Accounts, refresh families and the login throttle (kahawai-hub, src/auth.rs, src/api.rs)

    The two tables as maps from their primary keys, each statement as the change
    it makes under SQLite's write lock: a transaction is one step. Argon2,
    SHA-256 and the JWT library are the class [Crypto]; random identifiers,
    secrets and the clock are arguments. *)
From S2P Require Import Prelude Text.
#[local] Open Scope Z_scope.

Definition ACCESS_TTL_SECS : Z := 15 * 60.
Definition REFRESH_TTL_SECS : Z := 30 * 24 * 3600.
Definition MIN_PASSWORD_CHARS : nat := 12.
Definition ACCESS_TOKEN_ISSUER : string := "urn:kahawai:hub".
Definition ACCESS_TOKEN_AUDIENCE : string := "urn:kahawai:api".
Definition ACCESS_TOKEN_TYPE : string := "access".

Record Claims := mkClaims {
  sub : string;
  cl_username : string;
  cl_admin : bool;
  cl_auth_version : Z;
  exp : Z;
  iss : string;
  aud : string;
  token_type : string;
}.

Class Crypto := {
  sha256_hex : string -> string;
  argon2 : string -> string -> string;             (* salt, password *)
  verify_password : string -> string -> bool;      (* password, hash *)
  jwt_encode : Claims -> string;
  jwt_decode : Z -> string -> option Claims;       (* signature, expiry, issuer, audience *)
  chars_count : string -> nat;                     (* of UTF-8 text *)
}.

(** ** Tables *)

Record User := mkUser {
  username : string;
  password_hash : string;
  is_admin : bool;
  auth_version : Z;
}.
Record Family := mkFamily {
  user_id : string;
  current_token_hash : string;
  previous_token_hash : option string;
  expires_at : Z;
  revoked_at : option Z;
}.
Record Db := mkDb { users : gmap string User; families : gmap string Family }.

Definition with_users (db : Db) (u : gmap string User) : Db := mkDb u (families db).
Definition with_families (db : Db) (f : gmap string Family) : Db := mkDb (users db) f.
Definition admins (db : Db) : nat :=
  length (List.filter (fun '(_, u) => is_admin u) (map_to_list (users db))).
Definition find_user (db : Db) (name : string) : option (string * User) :=
  List.find (fun '(_, u) => username u =s name) (map_to_list (users db)).

Section Auth.
Context {crypto : Crypto}.

(** ** Tokens *)

Definition dot : Ascii.ascii := byte 46.
Definition make_refresh_token (family_id secret : string) : string * string :=
  let token := ("v1." ++ family_id ++ "." ++ secret)%string in (token, sha256_hex token).
Definition is_lower_hex (s : string) (len : nat) : bool :=
  (String.length s =? len)%nat
  && str_all (fun c => let n := Ascii.N_of_ascii c in
                       ((48 <=? n)%N && (n <=? 57)%N) || ((97 <=? n)%N && (n <=? 102)%N)) s.
Definition parse_refresh_token (token : string) : option (string * string) :=
  match split_char dot token with
  | [v; family_id; secret] =>
      if (v =s "v1") && is_lower_hex family_id 32 && is_lower_hex secret 64
      then Some (family_id, sha256_hex token) else None
  | _ => None
  end.

Record TokenPair := mkTokens { access_token : string; refresh_token : string; expires_in : Z }.
Definition issue_access_token (now : Z) (id name : string) (admin : bool) (version : Z) : string :=
  jwt_encode (mkClaims id name admin version (now + ACCESS_TTL_SECS) ACCESS_TOKEN_ISSUER ACCESS_TOKEN_AUDIENCE
                ACCESS_TOKEN_TYPE).
(** [UNIQUE (current_token_hash)], but for the row of [family_id]; the insertion
    also needs its account to exist ([REFERENCES users], enforced). *)
Definition hash_taken (db : Db) (family_id hash : string) : bool :=
  existsb (fun '(id, f) => negb (id =s family_id) && (current_token_hash f =s hash)) (map_to_list (families db)).
Inductive AuthError :=
| Internal | InvalidCredentials | UsernameRequired | PasswordTooShort | AlreadyCompleted | UsernameTaken
| NoSuchUserNamed | InvalidRefresh | Rejected.
Definition issue_tokens (db : Db) (now : Z) (family_id secret : string) (id : string) (u : User)
    : result AuthError TokenPair * Db :=
  let access := issue_access_token now id (username u) (is_admin u) (auth_version u) in
  let '(token, hash) := make_refresh_token family_id secret in
  if is_none (users db !! id) || is_some (families db !! family_id) || hash_taken db family_id hash then (Err Internal, db)
  else (Ok (mkTokens access token ACCESS_TTL_SECS),
        with_families db (<[family_id := mkFamily id hash None (now + REFRESH_TTL_SECS) None]> (families db))).

(** ** Accounts *)

Definition validate_credentials (name password : string) : result AuthError string :=
  let name := trim name in
  if name =s "" then Err UsernameRequired
  else if (chars_count password <? MIN_PASSWORD_CHARS)%nat then Err PasswordTooShort
  else Ok name.
(** The primary key and [UNIQUE (username)]. *)
Definition insert_user (db : Db) (id : string) (u : User) : option Db :=
  if is_some (users db !! id) || is_some (find_user db (username u)) then None
  else Some (with_users db (<[id := u]> (users db))).
Definition complete_setup (db : Db) (id salt name password : string) : result AuthError unit * Db :=
  match validate_credentials name password with
  | Err e => (Err e, db)
  | Ok name =>
      if negb (size (users db) =? 0)%nat then (Err AlreadyCompleted, db)
      else match insert_user db id (mkUser name (argon2 salt password) true 1) with
           | Some db => (Ok tt, db)
           | None => (Err Internal, db)
           end
  end.
Definition create_user (db : Db) (id salt name password : string) (admin : bool) : result AuthError string * Db :=
  match validate_credentials name password with
  | Err e => (Err e, db)
  | Ok name =>
      match insert_user db id (mkUser name (argon2 salt password) admin 1) with
      | Some db => (Ok id, db)
      | None => (Err UsernameTaken, db)
      end
  end.

Inductive SetAdmin := Changed | Unchanged | SetNoSuchUser | SetLastAdmin.
Definition set_admin (db : Db) (id : string) (admin : bool) : SetAdmin * Db :=
  match users db !! id with
  | None => (SetNoSuchUser, db)
  | Some u =>
      if eqb (is_admin u) admin then (Unchanged, db)
      else if admin || (1 <? admins db)%nat then
        (Changed, with_users db (<[id := mkUser (username u) (password_hash u) admin (auth_version u + 1)]> (users db)))
      else (SetLastAdmin, db)
  end.
Inductive DeleteUser := Deleted (name : string) | NoSuchUser | LastAdmin.
Definition delete_user (db : Db) (id : string) : DeleteUser * Db :=
  match users db !! id with
  | None => (NoSuchUser, db)
  | Some u =>
      if negb (is_admin u) || (1 <? admins db)%nat then
        (Deleted (username u),
         mkDb (delete id (users db)) (filter (fun '(_, f) => user_id f <> id) (families db)))
      else (LastAdmin, db)
  end.
Definition reset_password (db : Db) (now : Z) (salt name password : string) : result AuthError unit * Db :=
  match validate_credentials name password with
  | Err e => (Err e, db)
  | Ok name =>
      match find_user db name with
      | None => (Err NoSuchUserNamed, db)
      | Some (id, u) =>
          (Ok tt,
           mkDb (<[id := mkUser (username u) (argon2 salt password) (is_admin u) (auth_version u + 1)]> (users db))
             ((fun f => if user_id f =s id
                        then mkFamily (user_id f) (current_token_hash f) (previous_token_hash f) (expires_at f) (Some now)
                        else f) <$> families db))
      end
  end.

(** ** Sessions of an account *)

(** The statement that reads the account, and the check of its password: it ends
    before the one that inserts the family starts. *)
Definition login_select (db : Db) (name password : string) : result AuthError (string * User) :=
  match find_user db (trim name) with
  | None => Err InvalidCredentials
  | Some (id, u) => if verify_password password (password_hash u) then Ok (id, u) else Err InvalidCredentials
  end.
(** Undisturbed between the two. *)
Definition login (db : Db) (now : Z) (family_id secret name password : string) : result AuthError TokenPair * Db :=
  match login_select db name password with
  | Err e => (Err e, db)
  | Ok (id, u) => issue_tokens db now family_id secret id u
  end.

Definition names_token (f : Family) (hash : string) : bool :=
  (current_token_hash f =s hash) || (previous_token_hash f ≟ Some hash).
Definition active (f : Family) (now : Z) : bool := is_none (revoked_at f) && (now <=? expires_at f).
Definition rotate (f : Family) (now : Z) (next_hash : string) : Family :=
  mkFamily (user_id f) next_hash (Some (current_token_hash f)) (now + REFRESH_TTL_SECS) (revoked_at f).
Definition revoke (f : Family) (now : Z) : Family :=
  mkFamily (user_id f) (current_token_hash f) (previous_token_hash f) (expires_at f) (Some now).
Definition refresh (db : Db) (now : Z) (secret token : string) : result AuthError TokenPair * Db :=
  match parse_refresh_token token with
  | None => (Err InvalidRefresh, db)
  | Some (family_id, presented) =>
      let '(next_token, next_hash) := make_refresh_token family_id secret in
      match families db !! family_id with
      | None => (Err InvalidRefresh, db)
      | Some f =>
          if names_token f presented && active f now then
            if hash_taken db family_id next_hash then (Err Internal, db)
            else match users db !! user_id f with
                 | None => (Err Internal, db)
                 | Some u =>
                     (Ok (mkTokens (issue_access_token now (user_id f) (username u) (is_admin u) (auth_version u))
                            next_token ACCESS_TTL_SECS),
                      with_families db (<[family_id := rotate f now next_hash]> (families db)))
                 end
          else if active f now && negb (names_token f presented) then
            (Err InvalidRefresh, with_families db (<[family_id := revoke f now]> (families db)))
          else (Err InvalidRefresh, db)
      end
  end.
Definition logout (db : Db) (now : Z) (id token : string) : Db :=
  match parse_refresh_token token with
  | None => db
  | Some (family_id, hash) =>
      match families db !! family_id with
      | Some f =>
          if (user_id f =s id) && (current_token_hash f =s hash) && is_none (revoked_at f)
          then with_families db (<[family_id := revoke f now]> (families db)) else db
      | None => db
      end
  end.
(** The pruning of [Auth::new]. *)
Definition prune_families (db : Db) (now : Z) : Db :=
  with_families db (filter (fun '(_, f) => now <= expires_at f) (families db)).

Definition authenticate (db : Db) (now : Z) (bearer : string) : result AuthError Claims :=
  match jwt_decode now bearer with
  | None => Err Rejected
  | Some token =>
      ensure (token_type token =s ACCESS_TOKEN_TYPE) Rejected (
      let? u := ok_or (users db !! sub token) Rejected in
      ensure (cl_auth_version token =? auth_version u) Rejected (
      Ok (mkClaims (sub token) (username u) (is_admin u) (auth_version u) (exp token) (iss token) (aud token)
            (token_type token))))
  end.

End Auth.

(** ** The throttle *)

(** Instants are nanoseconds on the monotonic clock. *)
Record ThrottleEntry := mkEntry { fails : Z; locked_until : option Z; last_fail : Z }.
Notation Throttle := (gmap string ThrottleEntry).
Definition SECOND : Z := 1000000000.
Definition LOCK_BASE_SECS : Z := 30.
Definition LOCK_CAP_SECS : Z := 900.
Definition locked (t : Throttle) (key : string) (now : Z) : option Z :=
  e ← t !! key;
  until ← locked_until e;
  then_some (now <=? until) (until - now).
Definition lock_secs (fails threshold : Z) : Z :=
  Z.min (Z.shiftl LOCK_BASE_SECS (Z.min (fails - threshold) 16)) LOCK_CAP_SECS.
Definition throttle_prune (t : Throttle) (now : Z) : Throttle :=
  if (4096 <? size t)%nat then filter (fun '(_, e) => now - 3600 * SECOND < last_fail e) t else t.
Definition fail (t : Throttle) (key : string) (threshold now : Z) : option Z * Throttle :=
  let t := throttle_prune t now in
  let e := unwrap_or (t !! key) (mkEntry 0 None now) in
  let n := wrap 32 (fails e + 1) in
  if threshold <=? n then
    let lock := lock_secs n threshold in
    (Some lock, <[key := mkEntry n (Some (now + lock * SECOND)) now]> t)
  else (None, <[key := mkEntry n (locked_until e) now]> t).
Definition clear (t : Throttle) (key : string) : Throttle := delete key t.

(** ** The login request (api.rs) *)

Section Login.
Context {crypto : Crypto}.

Definition THROTTLE_USER_AFTER : Z := 5.
Definition THROTTLE_IP_AFTER : Z := 20.
Definition user_key (to_lowercase : string -> string) (name : string) : string := ("u:" ++ to_lowercase name)%string.
Definition ip_key (ip : option string) : option string := (fun i => "ip:" ++ i)%string <$> ip.
Inductive LoginAnswer := SetupRequired | OriginRefused | LoginThrottled (retry_after : Z) | LoggedIn (t : TokenPair) | BadCredentials.
(** Which lock an attempt meets. *)
Definition login_locked (to_lowercase : string -> string) (t : Throttle) (now : Z) (ip : option string) (name : string)
    : option Z :=
  opt_or (locked t (user_key to_lowercase name) now) (k ← ip_key ip; locked t k now).
Definition login_failed (to_lowercase : string -> string) (t : Throttle) (now : Z) (ip : option string) (name : string)
    : Throttle :=
  let t := snd (fail t (user_key to_lowercase name) THROTTLE_USER_AFTER now) in
  match ip_key ip with Some k => snd (fail t k THROTTLE_IP_AFTER now) | None => t end.
Definition login_request (to_lowercase : string -> string) (db : Db) (t : Throttle) (instant now : Z)
    (setup_required origin_refused : bool) (ip : option string) (family_id secret name password : string)
    : LoginAnswer * Db * Throttle :=
  if setup_required then (SetupRequired, db, t)
  else if origin_refused then (OriginRefused, db, t)
  else
    match login_locked to_lowercase t instant ip name with
    | Some wait => (LoginThrottled (Z.max (wait / SECOND) 1), db, t)
    | None =>
        match login db now family_id secret name password with
        | (Ok tokens, db) =>
            let t := clear t (user_key to_lowercase name) in
            (LoggedIn tokens, db, match ip_key ip with Some k => clear t k | None => t end)
        | (Err _, db) => (BadCredentials, db, login_failed to_lowercase t instant ip name)
        end
    end.

End Login.
