(* ===== verification/AuthTheorems.v ===== *)
(** * What accounts and tokens guarantee

    A refresh family accepts its two newest tokens and dies for good when an
    older one comes back; a change of rights outlives every access token issued
    before it; an administrator is always left; the throttle holds its lockouts
    whatever else fails. And the spelling of a name that escapes it. *)
From S2P Require Import Prelude Text Auth.
#[local] Open Scope Z_scope.

Section Auth.
Context {crypto : Crypto}.

(** ** Histories *)

(** The tables, the token hashes issued to each family, newest first, every
    account id ever used (random ids are not drawn twice), and what logins have
    read and checked: the family of one may be inserted any time later. *)
Record World := mkWorld {
  db : Db;
  issued : gmap string (list string);
  ever : gset string;
  verified : list (string * User);
}.
Definition with_db (w : World) (d : Db) : World := mkWorld d (issued w) (ever w) (verified w).
Definition with_account (w : World) (id : string) (d : Db) : World :=
  mkWorld d (issued w) ({[id]} ∪ ever w) (verified w).
Definition token_hash (t : TokenPair) : string := sha256_hex (refresh_token t).
Definition with_issued (w : World) (d : Db) (family_id hash : string) : World :=
  mkWorld d (<[family_id := hash :: unwrap_or (issued w !! family_id) []]> (issued w)) (ever w) (verified w).

Inductive auth_step : World -> World -> Prop :=
| as_setup w id salt name password d' :
    id ∉ ever w -> complete_setup (db w) id salt name password = (Ok tt, d') -> auth_step w (with_account w id d')
| as_create w id salt name password admin d' :
    id ∉ ever w -> create_user (db w) id salt name password admin = (Ok id, d') -> auth_step w (with_account w id d')
| as_set_admin w id admin : auth_step w (with_db w (snd (set_admin (db w) id admin)))
| as_delete w id : auth_step w (with_db w (snd (delete_user (db w) id)))
| as_reset w now salt name password : auth_step w (with_db w (snd (reset_password (db w) now salt name password)))
| as_verified w name password id u :
    login_select (db w) name password = Ok (id, u) ->
    auth_step w (mkWorld (db w) (issued w) (ever w) ((id, u) :: verified w))
| as_login w now family_id secret id u t d' :
    (id, u) ∈ verified w -> issued w !! family_id = None ->
    issue_tokens (db w) now family_id secret id u = (Ok t, d') ->
    auth_step w (with_issued w d' family_id (token_hash t))
| as_refresh w now secret token family_id presented t d' :
    parse_refresh_token token = Some (family_id, presented) -> refresh (db w) now secret token = (Ok t, d') ->
    auth_step w (with_issued w d' family_id (token_hash t))
| as_refused w now secret token e d' : refresh (db w) now secret token = (Err e, d') -> auth_step w (with_db w d')
| as_logout w now id token : auth_step w (with_db w (logout (db w) now id token))
| as_prune w now : auth_step w (with_db w (prune_families (db w) now)).

Definition empty_world : World := mkWorld (mkDb ∅ ∅) ∅ ∅ [].

(** ** Families *)

(** What a statement does to one family: gone, or the row as it was, but for a
    revocation; only a rotation gives it new hashes. *)
Inductive family_after (f : option Family) : option Family -> Prop :=
| fa_same : family_after f f
| fa_gone : family_after f None
| fa_revoked g now : f = Some g -> family_after f (Some (revoke g now)).

Lemma insert_user_families d id u d' : insert_user d id u = Some d' -> families d' = families d.
Proof. unfold insert_user. destruct (_ || _); [done|]. by intros [= <-]. Qed.
Lemma setup_families d id salt name password : families (snd (complete_setup d id salt name password)) = families d.
Proof.
  unfold complete_setup. destruct (validate_credentials _ _); [|done]. destruct (negb _); [done|].
  destruct (insert_user _ _ _) eqn:E; [by apply insert_user_families in E|done].
Qed.
Lemma create_families d id salt name password admin :
  families (snd (create_user d id salt name password admin)) = families d.
Proof.
  unfold create_user. destruct (validate_credentials _ _); [|done].
  destruct (insert_user _ _ _) eqn:E; [by apply insert_user_families in E|done].
Qed.
Lemma set_admin_families d id admin : families (snd (set_admin d id admin)) = families d.
Proof. unfold set_admin. destruct (users d !! id); [|done]. destruct (eqb _ _); [done|]. by destruct (_ || _). Qed.

Lemma delete_family d id fid : family_after (families d !! fid) (families (snd (delete_user d id)) !! fid).
Proof.
  unfold delete_user. destruct (users d !! id) as [u|]; [|constructor]. destruct (_ || _); [|constructor]. simpl.
  destruct (families d !! fid) as [f|] eqn:E.
  - destruct (decide (user_id f = id)) as [He|Hne].
    + rewrite map_lookup_filter_None_2; [constructor|]. right. intros g Hg. simplify_eq. simpl. auto.
    + rewrite (map_lookup_filter_Some_2 _ _ _ f); [constructor|done|done].
  - rewrite map_lookup_filter_None_2; [constructor|by left].
Qed.
Lemma prune_family d now fid : family_after (families d !! fid) (families (prune_families d now) !! fid).
Proof.
  unfold prune_families. simpl. destruct (families d !! fid) as [f|] eqn:E.
  - destruct (Z.le_gt_cases now (expires_at f)).
    + rewrite (map_lookup_filter_Some_2 _ _ _ f); [constructor|done|done].
    + rewrite map_lookup_filter_None_2; [constructor|]. right. intros g Hg. simplify_eq. simpl. lia.
  - rewrite map_lookup_filter_None_2; [constructor|by left].
Qed.
Lemma reset_family d now salt name password fid :
  family_after (families d !! fid) (families (snd (reset_password d now salt name password)) !! fid).
Proof.
  unfold reset_password. destruct (validate_credentials _ _); [|constructor].
  destruct (find_user _ _) as [[id u]|]; [|constructor]. simpl. rewrite lookup_fmap.
  destruct (families d !! fid) as [f|] eqn:E; [|constructor]. simpl.
  destruct (user_id f =s id); [by eapply fa_revoked|constructor].
Qed.
Lemma logout_family d now id token fid : family_after (families d !! fid) (families (logout d now id token) !! fid).
Proof.
  unfold logout. destruct (parse_refresh_token token) as [[fid' h]|]; [|constructor].
  destruct (families d !! fid') as [f|] eqn:E; [|constructor]. destruct (_ && _ && _); [|constructor]. simpl.
  destruct (decide (fid' = fid)) as [->|]; [|rewrite lookup_insert_ne by done; constructor].
  rewrite lookup_insert_eq. by eapply fa_revoked.
Qed.
Lemma refused_family d now secret token e d' fid :
  refresh d now secret token = (Err e, d') -> family_after (families d !! fid) (families d' !! fid).
Proof.
  unfold refresh. destruct (parse_refresh_token token) as [[fid' h]|]; [|intros [= _ <-]; constructor].
  cbn [make_refresh_token]. destruct (families d !! fid') as [f|] eqn:E; [|intros [= _ <-]; constructor].
  destruct (_ && active f now).
  - destruct (hash_taken _ _ _); [intros [= _ <-]; constructor|].
    destruct (users d !! user_id f); [done|intros [= _ <-]; constructor].
  - destruct (_ && _); [|intros [= _ <-]; constructor]. intros [= _ <-]. simpl.
    destruct (decide (fid' = fid)) as [->|]; [|rewrite lookup_insert_ne by done; constructor].
    rewrite lookup_insert_eq. by eapply fa_revoked.
Qed.

Lemma refresh_Ok d now secret token t d' :
  refresh d now secret token = (Ok t, d') ->
  exists family_id presented f, parse_refresh_token token = Some (family_id, presented)
    /\ families d !! family_id = Some f /\ names_token f presented = true /\ active f now = true
    /\ is_Some (users d !! user_id f)
    /\ d' = with_families d (<[family_id := rotate f now (token_hash t)]> (families d)).
Proof.
  unfold refresh. destruct (parse_refresh_token token) as [[fid h]|]; [|done]. cbn [make_refresh_token].
  destruct (families d !! fid) as [f|] eqn:E; [|done]. destruct (names_token f h) eqn:Hn; simpl.
  - destruct (active f now) eqn:Ha; [|done]. destruct (hash_taken _ _ _); [done|].
    destruct (users d !! user_id f) as [u|] eqn:Hu; [|done]. intros [= <- <-]. exists fid, h, f. by split_and!.
  - by destruct (active f now).
Qed.
Lemma issue_Ok d now family_id secret id u t d' :
  issue_tokens d now family_id secret id u = (Ok t, d') ->
  families d !! family_id = None /\ is_Some (users d !! id)
  /\ d' = with_families d (<[family_id := mkFamily id (token_hash t) None (now + REFRESH_TTL_SECS) None]> (families d)).
Proof.
  unfold issue_tokens. cbn [make_refresh_token]. destruct (users d !! id); [|done].
  destruct (families d !! family_id); [done|]. simpl. destruct (hash_taken _ _ _); [done|]. by intros [= <- <-].
Qed.

(** The row of a family names the two newest hashes issued to it. *)
Definition families_inv (w : World) : Prop :=
  forall fid f, families (db w) !! fid = Some f ->
    exists rest, issued w !! fid = Some (current_token_hash f :: rest) /\ previous_token_hash f = head rest.

(** What a step that issues no token does to a family. *)
Lemma quiet_step w w' : auth_step w w' ->
  (issued w' = issued w /\ forall fid, family_after (families (db w) !! fid) (families (db w') !! fid))
  \/ exists now fid f t, w' = with_issued w (with_families (db w) (<[fid := f]> (families (db w)))) fid (token_hash t)
     /\ current_token_hash f = token_hash t
     /\ ((issued w !! fid = None /\ previous_token_hash f = None)
         \/ exists g, families (db w) !! fid = Some g /\ active g now = true
              /\ previous_token_hash f = Some (current_token_hash g)).
Proof.
  destruct 1 as [w id salt name pw d' _ H|w id salt name pw ad d' _ H|w id ad|w id|w now salt name pw
    |w name pw id u|w now fid secret id u t d' _ Hfresh H|w now secret token fid h t d' Hp H|w now secret token e d' H
    |w now id token|w now]; try (left; split; [done|]; intros fid; simpl).
  - pose proof (setup_families (db w) id salt name pw) as Hs. rewrite H in Hs. simpl in Hs. rewrite Hs. constructor.
  - pose proof (create_families (db w) id salt name pw ad) as Hs. rewrite H in Hs. simpl in Hs. rewrite Hs. constructor.
  - rewrite set_admin_families. constructor.
  - apply delete_family.
  - apply reset_family.
  - constructor.
  - right. apply issue_Ok in H as (_ & _ & ->). exists now. repeat eexists. by left.
  - right. apply refresh_Ok in H as (fid' & h' & f & Hp' & Hf & _ & Hac & _ & ->). simplify_eq.
    exists now. repeat eexists. right. by exists f.
  - by apply (refused_family _ _ _ _ _ _ _ H).
  - apply logout_family.
  - apply prune_family.
Qed.
Lemma auth_inv w w' : auth_step w w' -> families_inv w -> families_inv w'.
Proof.
  intros [[Hi Ha]|(now & fid & f & t & -> & Hc & Hcase)]%quiet_step Hinv fid' g Hg.
  - specialize (Ha fid'). rewrite Hg in Ha. rewrite Hi. inversion Ha as [He| |g' n He]; subst.
    + by apply Hinv.
    + by apply Hinv in He.
  - simpl in *. destruct (decide (fid = fid')) as [<-|].
    + rewrite lookup_insert_eq in Hg. rewrite lookup_insert_eq. injection Hg as <-. rewrite Hc.
      destruct Hcase as [[-> ->]|(g & Hg & _ & ->)]; [by exists []|].
      destruct (Hinv _ _ Hg) as (rest & -> & _). by eexists.
    + rewrite lookup_insert_ne in Hg by done. rewrite lookup_insert_ne by done. by apply Hinv.
Qed.
Lemma auth_reach w : rtc auth_step empty_world w -> families_inv w.
Proof.
  intros H. remember empty_world as w0 eqn:E. assert (families_inv w0) as Hi by (subst; by intros fid f).
  clear E. induction H as [|? ? ? Hs _ IH]; [done|]. by apply IH, (auth_inv _ _ Hs).
Qed.

(** A family that is revoked, or gone, stays so. *)
Definition dead (w : World) (fid : string) : Prop :=
  is_Some (issued w !! fid) /\ forall f, families (db w) !! fid = Some f -> revoked_at f <> None.
Lemma dead_step w w' fid : auth_step w w' -> dead w fid -> dead w' fid.
Proof.
  intros [[Hi Ha]|(now & fid' & f & t & -> & _ & Hcase)]%quiet_step [[l Hl] Hd].
  - split; [rewrite Hi; by exists l|]. intros f Hf. specialize (Ha fid). rewrite Hf in Ha.
    inversion Ha as [He| |g n Hg]; [|done]. apply Hd. by rewrite <- He.
  - assert (fid' <> fid) as Hne.
    { intros ->. destruct Hcase as [[Hn _]|(g & Hg & Hac & _)]; [congruence|]. apply Hd in Hg.
      unfold active in Hac. by destruct (revoked_at g). }
    split; simpl; [rewrite lookup_insert_ne by done; by exists l|]. by rewrite lookup_insert_ne.
Qed.
Lemma dead_refuses w fid now secret token h :
  dead w fid -> parse_refresh_token token = Some (fid, h) -> is_ok (fst (refresh (db w) now secret token)) = false.
Proof.
  intros [_ Hd] Hp. destruct (refresh (db w) now secret token) as [[t|e] d'] eqn:E; [|done].
  apply refresh_Ok in E as (fid' & h' & f & Hp' & Hf & _ & Hac & _). simplify_eq. apply Hd in Hf.
  unfold active in Hac. by destruct (revoked_at f).
Qed.

(** C31: Whatever logins, rotations, logouts, resets and deletions interleave, a
    refresh succeeds only with one of the two newest tokens issued to its
    family; and when an older token of an active family comes back, the refresh
    is refused and no token of that family is ever accepted again. *)
Theorem replayed_family_dies w now secret token fid h l :
  rtc auth_step empty_world w -> parse_refresh_token token = Some (fid, h) -> issued w !! fid = Some l ->
  (is_ok (fst (refresh (db w) now secret token)) = true -> h ∈ take 2 l)
  /\ (h ∉ take 2 l ->
      forall f, families (db w) !! fid = Some f -> active f now = true ->
      let w1 := with_db w (snd (refresh (db w) now secret token)) in
      auth_step w w1
      /\ forall w2 now2 secret2 token2 h2, rtc auth_step w1 w2 -> parse_refresh_token token2 = Some (fid, h2) ->
         is_ok (fst (refresh (db w2) now2 secret2 token2)) = false).
Proof.
  intros Hi%auth_reach Hp Hl.
  assert (Htwo : forall f, families (db w) !! fid = Some f -> names_token f h = true -> h ∈ take 2 l).
  { intros f Hf Hn. destruct (Hi _ _ Hf) as (rest & Hl' & Hpr). rewrite Hl in Hl'. injection Hl' as ->.
    unfold names_token in Hn. apply orb_true_iff in Hn as [->%String.eqb_eq|Hn]; [left|].
    apply bool_decide_eq_true in Hn. rewrite Hpr in Hn. destruct rest as [|h' rest]; [done|].
    injection Hn as ->. simpl. right. left. }
  split.
  - destruct (refresh (db w) now secret token) as [[t|e] d'] eqn:E; [|done]. intros _.
    apply refresh_Ok in E as (fid' & h' & f & Hp' & Hf & Hn & _). simplify_eq. eauto.
  - intros Hold f Hf Hac. cbv zeta. destruct (names_token f h) eqn:Hn; [by destruct Hold; eauto|].
    assert (refresh (db w) now secret token
            = (Err InvalidRefresh, with_families (db w) (<[fid := revoke f now]> (families (db w))))) as E.
    { unfold refresh. rewrite Hp. cbn [make_refresh_token]. by rewrite Hf, Hn, Hac. }
    rewrite E. simpl. split; [by apply (as_refused _ _ _ _ _ _ E)|].
    intros w2 now2 secret2 token2 h2 Hs Hp2. eapply dead_refuses; [|done].
    assert (dead (with_db w (with_families (db w) (<[fid := revoke f now]> (families (db w))))) fid)
      as Hd.
    { split; [by exists l|]. simpl. intros g Hg. rewrite lookup_insert_eq in Hg. by simplify_eq. }
    clear -Hs Hd. induction Hs as [|? ? ? Hs _ IH]; [done|]. by apply IH, (dead_step _ _ _ Hs).
Qed.

(** ** Accounts *)

(** What a step does to the accounts: nothing, one new account under a fresh id,
    one account rewritten a generation later, or one deleted. *)
Inductive users_after (w : World) (us : gmap string User) (ever' : gset string) : Prop :=
| ua_same : us = users (db w) -> users_after w us ever'
| ua_new id u : id ∉ ever w -> id ∈ ever' -> us = <[id := u]> (users (db w)) -> users (db w) !! id = None ->
    users_after w us ever'
| ua_next id u u' : users (db w) !! id = Some u -> us = <[id := u']> (users (db w)) ->
    auth_version u' = auth_version u + 1 ->
    (is_admin u = true -> is_admin u' = false -> (1 < admins (db w))%nat) -> users_after w us ever'
| ua_gone id u : users (db w) !! id = Some u -> us = delete id (users (db w)) ->
    (is_admin u = true -> (1 < admins (db w))%nat) -> users_after w us ever'.

Lemma find_user_Some d name id u : find_user d name = Some (id, u) -> users d !! id = Some u.
Proof. intros [Hin _]%find_some. by apply elem_of_map_to_list, list_elem_of_In. Qed.
Lemma insert_user_Some d id u d' :
  insert_user d id u = Some d' -> users d !! id = None /\ d' = with_users d (<[id := u]> (users d)).
Proof. unfold insert_user. destruct (users d !! id); [done|]. simpl. destruct (is_some _); [done|]. by intros [= <-]. Qed.
Lemma set_admin_users w id admin : users_after w (users (snd (set_admin (db w) id admin))) (ever w).
Proof.
  unfold set_admin. destruct (users (db w) !! id) as [u|] eqn:E; [|by apply ua_same].
  destruct (Bool.eqb (is_admin u) admin); [by apply ua_same|].
  destruct (admin || _) eqn:Ha; [|by apply ua_same]. simpl. eapply ua_next; [done..|]. intros _ Hf. simpl in Hf.
  subst admin. simpl in Ha. by apply Nat.ltb_lt.
Qed.
Lemma delete_users w id : users_after w (users (snd (delete_user (db w) id))) (ever w).
Proof.
  unfold delete_user. destruct (users (db w) !! id) as [u|] eqn:E; [|by apply ua_same].
  destruct (negb _ || _) eqn:Ha; [|by apply ua_same]. simpl. eapply ua_gone; [done..|]. intros Hu.
  rewrite Hu in Ha. simpl in Ha. by apply Nat.ltb_lt.
Qed.
Lemma reset_users w now salt name password : users_after w (users (snd (reset_password (db w) now salt name password))) (ever w).
Proof.
  unfold reset_password. destruct (validate_credentials _ _); [|by apply ua_same].
  destruct (find_user _ _) as [[id u]|] eqn:E; [|by apply ua_same]. apply find_user_Some in E.
  eapply ua_next; [done..|]. simpl. congruence.
Qed.
Lemma setup_users d id salt name password d' :
  complete_setup d id salt name password = (Ok tt, d') ->
  size (users d) = 0%nat /\ users d !! id = None /\ exists u, is_admin u = true /\ auth_version u = 1 /\ users d' = <[id := u]> (users d).
Proof.
  unfold complete_setup. destruct (validate_credentials _ _); [|done].
  destruct (size (users d) =? 0)%nat eqn:E; [|done]. simpl. destruct (insert_user _ _ _) eqn:Hi; [|done].
  apply insert_user_Some in Hi as [? ->]. intros [= <-]. apply Nat.eqb_eq in E. split_and!; [done..|]. by repeat eexists.
Qed.
Lemma create_users d id salt name password admin id' d' :
  create_user d id salt name password admin = (Ok id', d') ->
  users d !! id = None /\ exists u, is_admin u = admin /\ auth_version u = 1 /\ users d' = <[id := u]> (users d).
Proof.
  unfold create_user. destruct (validate_credentials _ _); [|done]. destruct (insert_user _ _ _) eqn:Hi; [|done].
  apply insert_user_Some in Hi as [? ->]. intros [= _ <-]. split; [done|]. by repeat eexists.
Qed.
Lemma users_step w w' : auth_step w w' -> users_after w (users (db w')) (ever w') /\ ever w ⊆ ever w'.
Proof.
  destruct 1 as [w id salt name pw d' Hid H|w id salt name pw ad d' Hid H|w id ad|w id|w now salt name pw
    |w name pw id u|w now fid secret id u t d' _ _ H|w now secret token fid h t d' _ H|w now secret token e d' H
    |w now id token|w now]; (split; [|simpl; set_solver]); simpl.
  - apply setup_users in H as (_ & Hn & u & _ & _ & Hu). eapply ua_new; [done|set_solver|done..].
  - apply create_users in H as (Hn & u & _ & _ & Hu). eapply ua_new; [done|set_solver|done..].
  - apply set_admin_users.
  - apply delete_users.
  - apply reset_users.
  - by apply ua_same.
  - apply ua_same. by apply issue_Ok in H as (_ & _ & ->).
  - apply ua_same. by apply refresh_Ok in H as (? & ? & ? & _ & _ & _ & _ & _ & ->).
  - apply ua_same. revert H. unfold refresh. destruct (parse_refresh_token token) as [[fid h]|]; [|by intros [= _ <-]].
    cbn [make_refresh_token]. destruct (families (db w) !! fid) as [f|]; [|by intros [= _ <-]].
    destruct (_ && _); [|destruct (_ && _); by intros [= _ <-]].
    destruct (hash_taken _ _ _); [by intros [= _ <-]|]. destruct (users (db w) !! user_id f); [done|by intros [= _ <-]].
  - apply ua_same. unfold logout. destruct (parse_refresh_token token) as [[fid h]|]; [|done].
    destruct (families (db w) !! fid); [|done]. by destruct (_ && _ && _).
  - by apply ua_same.
Qed.

(** *** Administrators *)

Definition b2n (b : bool) : nat := if b then 1%nat else 0%nat.
Definition count_admins (us : gmap string User) : nat :=
  length (List.filter (fun '(_, u) => is_admin u) (map_to_list us)).
Lemma filter_length_perm {A} (P : A -> bool) l l' :
  l ≡ₚ l' -> length (List.filter P l) = length (List.filter P l').
Proof.
  induction 1 as [|x l l' _ IH|x y l|l l' l'' _ IH _ IH']; simpl; [done| | |congruence].
  - by destruct (P x); simpl; rewrite IH.
  - by destruct (P x), (P y).
Qed.
Lemma count_new us id u :
  us !! id = None -> count_admins (<[id := u]> us) = (b2n (is_admin u) + count_admins us)%nat.
Proof.
  intros Hn. unfold count_admins. rewrite (filter_length_perm _ _ _ (map_to_list_insert _ _ _ Hn)). simpl.
  by destruct (is_admin u).
Qed.
Lemma count_old us id u :
  us !! id = Some u -> count_admins us = (b2n (is_admin u) + count_admins (delete id us))%nat.
Proof.
  intros Hu. rewrite <- (insert_delete_id us id u Hu) at 1. apply count_new. apply lookup_delete_eq.
Qed.
Lemma count_set us id u u' :
  us !! id = Some u -> (b2n (is_admin u) + count_admins (<[id := u']> us) = b2n (is_admin u') + count_admins us)%nat.
Proof.
  intros Hu. rewrite <- insert_delete_eq, (count_new _ _ _ (lookup_delete_eq _ _)), (count_old _ _ _ Hu). lia.
Qed.

Lemma admins_step w w' : auth_step w w' -> (0 < admins (db w))%nat -> (0 < admins (db w'))%nat.
Proof.
  intros [Hu _]%users_step Hpos. change (0 < count_admins (users (db w)))%nat in Hpos.
  change (0 < count_admins (users (db w')))%nat.
  destruct Hu as [->|id u _ _ -> Hn|id u u' Hl -> _ Hlast|id u Hl -> Hlast]; [done|..].
  - rewrite count_new by done. lia.
  - pose proof (count_set _ _ _ u' Hl). unfold admins in Hlast. fold (count_admins (users (db w))) in Hlast.
    destruct (is_admin u) eqn:E1, (is_admin u') eqn:E2; simpl in *; try lia; specialize (Hlast eq_refl eq_refl); lia.
  - pose proof (count_old _ _ _ Hl). unfold admins in Hlast. fold (count_admins (users (db w))) in Hlast.
    destruct (is_admin u) eqn:E1; simpl in *; [specialize (Hlast eq_refl)|]; lia.
Qed.
Lemma admins_keep w w' : rtc auth_step w w' -> (0 < admins (db w))%nat -> (0 < admins (db w'))%nat.
Proof. induction 1 as [|? ? ? Hs _ IH]; [done|]. intros H. by apply IH, (admins_step _ _ Hs). Qed.
Lemma admins_users d : (0 < admins d)%nat -> size (users d) <> 0%nat.
Proof. intros H Hz%map_size_empty_inv. unfold admins in H. rewrite Hz, map_to_list_empty in H. simpl in H. lia. Qed.

(** C32: Once setup has made its administrator, every history of account
    operations leaves at least one: setup never succeeds again, and a demotion
    or deletion is refused for the last administrator exactly when it would
    remove the only one. *)
Theorem administrator_remains w id salt name password d w' :
  complete_setup (db w) id salt name password = (Ok tt, d) -> rtc auth_step (with_account w id d) w' ->
  (0 < admins (db w'))%nat
  /\ (forall id salt name password d', complete_setup (db w') id salt name password <> (Ok tt, d'))
  /\ (forall id, fst (set_admin (db w') id false) = SetLastAdmin <->
        admins (db w') = 1%nat /\ exists u, users (db w') !! id = Some u /\ is_admin u = true)
  /\ (forall id, fst (delete_user (db w') id) = LastAdmin <->
        admins (db w') = 1%nat /\ exists u, users (db w') !! id = Some u /\ is_admin u = true).
Proof.
  intros Hset Hs. assert (0 < admins (db w'))%nat as Hpos.
  { apply (admins_keep _ _ Hs). apply setup_users in Hset as (_ & Hn & u & Ha & _ & Hu).
    change (0 < count_admins (users d))%nat. rewrite Hu, count_new, Ha by done. simpl. lia. }
  split_and!; [done|..].
  - intros id' salt' name' pw' d' (Hz & _)%setup_users. by apply admins_users in Hpos.
  - intros id'. unfold set_admin. destruct (users (db w') !! id') as [u|]; [|split; [done|by intros (_ & ? & ? & _)]].
    destruct (is_admin u) eqn:Hu; simpl.
    + destruct (1 <? admins (db w'))%nat eqn:E; simpl.
      * apply Nat.ltb_lt in E. split; [done|intros [? _]; lia].
      * apply Nat.ltb_ge in E. split; [|done]. intros _. split; [lia|]. by exists u.
    + split; [done|]. intros (_ & ? & ? & ?). congruence.
  - intros id'. unfold delete_user. destruct (users (db w') !! id') as [u|]; [|split; [done|by intros (_ & ? & ? & _)]].
    destruct (is_admin u) eqn:Hu; simpl.
    + destruct (1 <? admins (db w'))%nat eqn:E; simpl.
      * apply Nat.ltb_lt in E. split; [done|intros [? _]; lia].
      * apply Nat.ltb_ge in E. split; [|done]. intros _. split; [lia|]. by exists u.
    + split; [done|]. intros (_ & ? & ? & ?). congruence.
Qed.

(** *** Access tokens *)

Definition ever_inv (w : World) : Prop := forall id u, users (db w) !! id = Some u -> id ∈ ever w.
Lemma ever_step w w' : auth_step w w' -> ever_inv w -> ever_inv w'.
Proof.
  intros [Hu Hsub]%users_step Hi id u Hl.
  destruct Hu as [E|id' u' _ Hin E Hn|id' u' u'' Hl' E _ _|id' u' Hl' E _]; rewrite E in Hl.
  - apply Hsub. eauto.
  - destruct (decide (id' = id)) as [<-|]; [done|]. rewrite lookup_insert_ne in Hl by done. apply Hsub. eauto.
  - apply Hsub. destruct (decide (id' = id)) as [<-|]; [eauto|]. rewrite lookup_insert_ne in Hl by done. eauto.
  - apply lookup_delete_Some in Hl as [_ Hl]. apply Hsub. eauto.
Qed.
Lemma ever_reach w : rtc auth_step empty_world w -> ever_inv w.
Proof.
  intros H. remember empty_world as w0 eqn:E. assert (ever_inv w0) as Hi by (subst; by intros id u).
  clear E. induction H as [|? ? ? Hs _ IH]; [done|]. by apply IH, (ever_step _ _ Hs).
Qed.

(** Every generation of [id] up to [v] is past. *)
Definition past (w : World) (id : string) (v : Z) : Prop :=
  id ∈ ever w /\ forall u, users (db w) !! id = Some u -> v < auth_version u.
Lemma past_step w w' id v : auth_step w w' -> past w id v -> past w' id v.
Proof.
  intros [Hu Hsub]%users_step [Hin Hp]. split; [by apply Hsub|]. intros u Hl.
  destruct Hu as [E|id' u' Hnew _ E Hn|id' u' u'' Hl' E Hv _|id' u' Hl' E _]; rewrite E in Hl.
  - by apply Hp.
  - destruct (decide (id' = id)) as [<-|]; [done|]. rewrite lookup_insert_ne in Hl by done. by apply Hp.
  - destruct (decide (id' = id)) as [<-|].
    + rewrite lookup_insert_eq in Hl. injection Hl as <-. apply Hp in Hl'. lia.
    + rewrite lookup_insert_ne in Hl by done. by apply Hp.
  - apply lookup_delete_Some in Hl as [_ Hl]. by apply Hp.
Qed.
Lemma past_refuses w id v now bearer c :
  past w id v -> jwt_decode now bearer = Some c -> sub c = id -> cl_auth_version c <= v ->
  authenticate (db w) now bearer = Err Rejected.
Proof.
  intros [_ Hp] Hd <- Hv. unfold authenticate. rewrite Hd. destruct (token_type c =s _); [|done]. cbn [ensure].
  destruct (users (db w) !! sub c) as [u|] eqn:E; [|done]. cbn. pose proof (Hp _ eq_refl).
  replace (cl_auth_version c =? auth_version u) with false; [done|]. symmetry. apply Z.eqb_neq. lia.
Qed.

(** The three changes of an account that end its access tokens. *)
Inductive invalidates (w : World) (id : string) : Db -> Prop :=
| iv_role admin d : set_admin (db w) id admin = (Changed, d) -> invalidates w id d
| iv_deleted name d : delete_user (db w) id = (Deleted name, d) -> invalidates w id d
| iv_reset now salt name password u d :
    find_user (db w) (trim name) = Some (id, u) -> reset_password (db w) now salt name password = (Ok tt, d) ->
    invalidates w id d.
Lemma invalidates_past w id u d :
  ever_inv w -> users (db w) !! id = Some u -> invalidates w id d ->
  auth_step w (with_db w d) /\ past (with_db w d) id (auth_version u).
Proof.
  intros Hi Hl Hd. split.
  { destruct Hd as [admin d E|name d E|now salt name pw u' d _ E].
    - replace d with (snd (set_admin (db w) id admin)) by (by rewrite E). constructor.
    - replace d with (snd (delete_user (db w) id)) by (by rewrite E). constructor.
    - replace d with (snd (reset_password (db w) now salt name pw)) by (by rewrite E). constructor. }
  split; [by apply (Hi id u)|]. simpl. intros u2 H2.
  destruct Hd as [admin d E|name d E|now salt name pw u' d Hf E].
  - revert E. unfold set_admin. rewrite Hl. destruct (Bool.eqb _ _); [done|]. destruct (_ || _); [|done].
    intros [= <-]. simpl in H2. rewrite lookup_insert_eq in H2. injection H2 as <-. simpl. lia.
  - revert E. unfold delete_user. rewrite Hl. destruct (_ || _); [|done]. intros [= _ <-]. simpl in H2.
    by rewrite lookup_delete_eq in H2.
  - revert E. unfold reset_password, validate_credentials. destruct (trim name =s ""); [done|].
    destruct (_ <? _)%nat; [done|]. rewrite Hf. intros [= <-]. simpl in H2. rewrite lookup_insert_eq in H2.
    apply find_user_Some in Hf. rewrite Hl in Hf. injection Hf as <-. injection H2 as <-. simpl. lia.
Qed.

(** C33: From a change of an account's role, its deletion or the reset of its
    password on, whatever happens next, no access token of the generation it
    had (or an older one) is accepted for that account. *)
Theorem changed_account_ends_access w id u d w' now bearer c :
  rtc auth_step empty_world w -> users (db w) !! id = Some u -> invalidates w id d ->
  rtc auth_step (with_db w d) w' ->
  jwt_decode now bearer = Some c -> sub c = id -> cl_auth_version c <= auth_version u ->
  authenticate (db w') now bearer = Err Rejected.
Proof.
  intros Hi%ever_reach Hl Hd Hs. apply past_refuses.
  destruct (invalidates_past _ _ _ _ Hi Hl Hd) as [_ Hp]. clear Hd Hl Hi.
  induction Hs as [|? ? ? Hst _ IH]; [done|]. by apply IH, (past_step _ _ _ _ Hst).
Qed.

(** *** Round trip, and the login a reset does not see *)

Lemma lower_hex_no_dot s len : is_lower_hex s len = true -> str_mem_char dot s = false.
Proof.
  intros [_ H]%andb_true_iff. induction s as [|a s IH]; [done|]. cbn [str_all] in H. apply andb_true_iff in H as [Ha Hs].
  cbn [str_mem_char]. rewrite (IH Hs), orb_false_r. apply Ascii.eqb_neq. intros ->. by vm_compute in Ha.
Qed.
Lemma parse_made fid secret :
  is_lower_hex fid 32 = true -> is_lower_hex secret 64 = true ->
  parse_refresh_token (fst (make_refresh_token fid secret)) = Some (fid, snd (make_refresh_token fid secret)).
Proof.
  intros Hf Hs. unfold parse_refresh_token, make_refresh_token. cbn [fst snd].
  replace (split_char dot ("v1." +:+ fid +:+ "." +:+ secret)%string) with ["v1"%string; fid; secret].
  - by rewrite Hf, Hs.
  - change ("v1." +:+ fid +:+ "." +:+ secret)%string
      with ("v1" +:+ String dot (fid +:+ String dot secret))%string.
    rewrite (split_char_cut dot "v1") by done. rewrite split_char_cut by (by eapply lower_hex_no_dot).
    by rewrite split_char_fresh by (by eapply lower_hex_no_dot).
Qed.

Lemma hash_taken_mono d d' fid h :
  (forall k f', k <> fid -> families d' !! k = Some f' -> exists f, families d !! k = Some f /\ current_token_hash f = current_token_hash f') ->
  hash_taken d fid h = false -> hash_taken d' fid h = false.
Proof.
  intros Hk Hh. unfold hash_taken. apply not_true_iff_false. intros [[k g] [Hin Hb]]%existsb_exists.
  apply list_elem_of_In, elem_of_map_to_list in Hin. apply andb_true_iff in Hb as [Hne%negb_true_iff Hc].
  destruct (Hk k g) as (f & Hf & E); [by apply String.eqb_neq|done|].
  unfold hash_taken in Hh. apply not_true_iff_false in Hh. apply Hh, existsb_exists. exists (k, f).
  split; [by apply list_elem_of_In, elem_of_map_to_list|]. by rewrite Hne, E.
Qed.
(** C34: A login that has checked the old password while the password is reset
    inserts its family after the reset, which has revoked every family of the
    account there was: that family is live, and its refresh token buys access
    tokens of the new generation. The new family and its two tokens are ones no
    other family has, as random ones are. *)
Theorem login_outlives_reset w now salt name password d id u u' fid secret next now' :
  (id, u) ∈ verified w -> find_user (db w) (trim name) = Some (id, u') ->
  reset_password (db w) now salt name password = (Ok tt, d) ->
  issued w !! fid = None -> families (db w) !! fid = None ->
  is_lower_hex fid 32 = true -> is_lower_hex secret 64 = true ->
  hash_taken (db w) fid (snd (make_refresh_token fid secret)) = false ->
  hash_taken (db w) fid (snd (make_refresh_token fid next)) = false ->
  auth_step w (with_db w d)
  /\ (forall k f, families (db w) !! k = Some f -> user_id f = id ->
        exists f', families d !! k = Some f' /\ active f' now' = false)
  /\ exists t w2, auth_step (with_db w d) w2
     /\ (forall k, k <> fid -> families (db w2) !! k = families d !! k)
     /\ (exists f2, families (db w2) !! fid = Some f2 /\ user_id f2 = id /\ active f2 now' = true)
     /\ exists t' d3, refresh (db w2) now' next (refresh_token t) = (Ok t', d3)
        /\ access_token t' = issue_access_token now' id (username u') (is_admin u') (auth_version u' + 1).
Proof.
  intros Hv Hu Hr Hi Hf Hfid Hsec Hh1 Hh2. split.
  { replace d with (snd (reset_password (db w) now salt name password)) by (by rewrite Hr). constructor. }
  assert (families d = (fun f => if user_id f =s id then revoke f now else f) <$> families (db w) /\ users d !! id
    = Some (mkUser (username u') (argon2 salt password) (is_admin u') (auth_version u' + 1))) as [Hfd Hud].
  { revert Hr. unfold reset_password, validate_credentials. destruct (trim name =s ""); [done|].
    destruct (_ <? _)%nat; [done|]. rewrite Hu. intros [= <-]. split; [done|]. simpl. by rewrite lookup_insert_eq. }
  split.
  { intros k f Hk Hid. exists (revoke f now). rewrite Hfd, lookup_fmap, Hk. simpl. by rewrite Hid, String.eqb_refl. }
  assert (families d !! fid = None) as Hnew by (by rewrite Hfd, lookup_fmap, Hf).
  assert (forall h, hash_taken (db w) fid h = false -> hash_taken d fid h = false) as Hkeep.
  { intros h. apply hash_taken_mono. intros k f' _ Hk. rewrite Hfd, lookup_fmap in Hk.
    destruct (families (db w) !! k) as [f|]; [|done]. exists f. split; [done|]. simpl in Hk. injection Hk as <-. by destruct (_ =s _). }
  set (t := mkTokens (issue_access_token now' id (username u) (is_admin u) (auth_version u))
              (fst (make_refresh_token fid secret)) ACCESS_TTL_SECS).
  set (f := mkFamily id (token_hash t) None (now' + REFRESH_TTL_SECS) None).
  set (d2 := with_families d (<[fid := f]> (families d))).
  assert (issue_tokens d now' fid secret id u = (Ok t, d2)) as Hiss.
  { unfold issue_tokens. apply Hkeep in Hh1. cbn [make_refresh_token snd] in *. by rewrite Hud, Hnew, Hh1. }
  assert (active f now' = true) as Hlive.
  { unfold active, f. cbn [revoked_at expires_at is_none andb]. apply Z.leb_le. unfold REFRESH_TTL_SECS. lia. }
  exists t, (with_issued (with_db w d) d2 fid (token_hash t)). split_and!.
  - by apply (as_login _ now' fid secret id u t d2).
  - intros k Hk. simpl. by rewrite lookup_insert_ne.
  - exists f. simpl. by rewrite lookup_insert_eq.
  - assert (hash_taken d2 fid (snd (make_refresh_token fid next)) = false) as Hh3.
    { apply (hash_taken_mono d); [|by apply Hkeep]. intros k f' Hk. simpl. rewrite lookup_insert_ne by done. by exists f'. }
    unfold refresh. change (refresh_token t) with (fst (make_refresh_token fid secret)). rewrite parse_made by done.
    cbn [make_refresh_token snd] in *. simpl. rewrite lookup_insert_eq. unfold names_token. rewrite Hlive.
    change (current_token_hash f) with (snd (make_refresh_token fid secret)). unfold make_refresh_token. cbn [snd].
    rewrite String.eqb_refl. cbn [orb andb]. unfold d2 in *. rewrite Hh3. cbn [user_id f with_families users] in *.
    rewrite Hud. by repeat eexists.
Qed.
End Auth.

(** ** A hub of one account *)

Section Example_hub.
#[local] Instance toy : Crypto := {|
  sha256_hex s := s;
  argon2 _ password := password;
  verify_password password hash := password =s hash;
  jwt_encode c := String (Ascii.ascii_of_nat (Z.to_nat (cl_auth_version c))) (sub c);
  jwt_decode _ s :=
    match s with
    | String a id => Some (mkClaims id "" false (Z.of_nat (Ascii.nat_of_ascii a)) 0 ACCESS_TOKEN_ISSUER
                             ACCESS_TOKEN_AUDIENCE ACCESS_TOKEN_TYPE)
    | EmptyString => None
    end;
  chars_count := String.length;
|}.
Definition hex_of (c : string) (n : nat) : string := String.concat "" (replicate n c).
Definition family_a : string := hex_of "a" 32.
Definition secret_of (c : string) : string := hex_of c 64.
Definition token_of (c : string) : string := fst (make_refresh_token family_a (secret_of c)).
Definition access (generation : N) : string := String (byte generation) "u1".
Definition root : User := mkUser "root" "correct horse battery" true 1.
Definition hub1 : World :=
  with_account empty_world "u1" (snd (complete_setup (mkDb ∅ ∅) "u1" "" " root" "correct horse battery")).
Definition hub2 : World := mkWorld (db hub1) (issued hub1) (ever hub1) [("u1"%string, root)].
Definition hub3 : World :=
  with_issued hub2 (snd (issue_tokens (db hub2) 100 family_a (secret_of "1") "u1" root)) family_a (token_of "1").
Definition rotated (w : World) (now : Z) (was next : string) : World :=
  with_issued w (snd (refresh (db w) now (secret_of next) (token_of was))) family_a (token_of next).
Definition hub4 : World := rotated hub3 200 "1" "2".
Definition hub5 : World := rotated hub4 300 "2" "3".

Definition tokens_of (r : result AuthError TokenPair) : TokenPair :=
  match r with Ok t => t | Err _ => mkTokens "" "" 0 end.
Lemma step1 : auth_step empty_world hub1.
Proof.
  apply (as_setup empty_world "u1" "" " root" "correct horse battery"); [by apply (bool_decide_unpack _)|].
  vm_compute. reflexivity.
Qed.
Lemma step2 : auth_step hub1 hub2.
Proof. by apply (as_verified hub1 "root " "correct horse battery"). Qed.
Lemma step3 : auth_step hub2 hub3.
Proof.
  assert (token_of "1" = token_hash (tokens_of (fst (issue_tokens (db hub2) 100 family_a (secret_of "1") "u1" root)))) as E
    by (vm_compute; reflexivity).
  unfold hub3. rewrite E. apply (as_login hub2 100 family_a (secret_of "1") "u1" root); [left|done|].
  vm_compute. reflexivity.
Qed.
Lemma step_rotated w now was next h :
  fst (refresh (db w) now (secret_of next) (token_of was)) = Ok (tokens_of (fst (refresh (db w) now (secret_of next) (token_of was)))) ->
  parse_refresh_token (token_of was) = Some (family_a, h) ->
  token_hash (tokens_of (fst (refresh (db w) now (secret_of next) (token_of was)))) = token_of next ->
  auth_step w (rotated w now was next).
Proof.
  intros Ho Hp Ht. unfold rotated. rewrite <- Ht. apply (as_refresh w now (secret_of next) (token_of was) _ h); [done|].
  rewrite <- Ho. by destruct (refresh _ _ _ _).
Qed.
Lemma reach3 : rtc auth_step empty_world hub3.
Proof. eapply rtc_l; [apply step1|]. eapply rtc_l; [apply step2|]. apply rtc_once, step3. Qed.
Lemma reach5 : rtc auth_step empty_world hub5.
Proof.
  eapply rtc_r; [eapply rtc_r; [apply reach3|]|].
  - apply (step_rotated hub3 200 "1" "2" (token_of "1")); vm_compute; reflexivity.
  - apply (step_rotated hub4 300 "2" "3" (token_of "2")); vm_compute; reflexivity.
Qed.

Lemma replayed_family_dies_witness :
  is_ok (fst (refresh (db hub5) 400 (secret_of "4") (token_of "2"))) = true
  /\ is_ok (fst (refresh (db hub5) 400 (secret_of "4") (token_of "1"))) = false
  /\ let w1 := with_db hub5 (snd (refresh (db hub5) 400 (secret_of "4") (token_of "1"))) in
     auth_step hub5 w1 /\ is_ok (fst (refresh (db w1) 500 (secret_of "5") (token_of "3"))) = false.
Proof.
  split; [vm_compute; reflexivity|]. split; [vm_compute; reflexivity|]. cbv zeta.
  destruct (replayed_family_dies hub5 400 (secret_of "4") (token_of "1") family_a (token_of "1")
              [token_of "3"; token_of "2"; token_of "1"] reach5) as [_ H]; [vm_compute; reflexivity..|].
  destruct (H ltac:(apply (bool_decide_unpack _); vm_compute; exact I)
              (mkFamily "u1" (token_of "3") (Some (token_of "2")) (300 + REFRESH_TTL_SECS) None)) as [Hs Hd];
    [vm_compute; reflexivity..|].
  split; [exact Hs|]. apply (Hd _ 500 (secret_of "5") (token_of "3") (token_of "3")); [constructor|].
  vm_compute. reflexivity.
Defined.

Lemma administrator_remains_witness :
  (0 < admins (db hub1))%nat /\ fst (set_admin (db hub1) "u1" false) = SetLastAdmin.
Proof.
  destruct (administrator_remains empty_world "u1" "" " root" "correct horse battery" (db hub1) hub1) as (Hpos & _ & Hd & _).
  - vm_compute. reflexivity.
  - constructor.
  - split; [exact Hpos|]. apply Hd. split; [vm_compute; reflexivity|]. by exists root.
Defined.

Lemma changed_account_ends_access_witness :
  is_ok (authenticate (db hub3) 150 (access 1)) = true
  /\ let d := snd (reset_password (db hub3) 160 "" "root" "another password") in
     authenticate d 170 (access 1) = Err Rejected.
Proof.
  split; [vm_compute; reflexivity|]. cbv zeta.
  apply (changed_account_ends_access hub3 "u1" root (snd (reset_password (db hub3) 160 "" "root" "another password"))
           (with_db hub3 (snd (reset_password (db hub3) 160 "" "root" "another password"))) 170 (access 1)
           (mkClaims "u1" "" false 1 0 ACCESS_TOKEN_ISSUER ACCESS_TOKEN_AUDIENCE ACCESS_TOKEN_TYPE)).
  - exact reach3.
  - vm_compute. reflexivity.
  - apply (iv_reset _ _ 160 "" "root" "another password" root); vm_compute; reflexivity.
  - constructor.
  - reflexivity.
  - reflexivity.
  - vm_compute. discriminate.
Defined.

Definition family_b : string := hex_of "b" 32.
Lemma login_outlives_reset_witness :
  let d := snd (reset_password (db hub3) 160 "" "root" "another password") in
  auth_step hub3 (with_db hub3 d)
  /\ (exists f f', families (db hub3) !! family_a = Some f /\ active f 170 = true
        /\ families d !! family_a = Some f' /\ active f' 170 = false)
  /\ exists t w2, auth_step (with_db hub3 d) w2
     /\ exists t' d3, refresh (db w2) 170 (secret_of "5") (refresh_token t) = (Ok t', d3)
        /\ access_token t' = access 2.
Proof.
  cbv zeta.
  destruct (login_outlives_reset hub3 160 "" "root" "another password"
              (snd (reset_password (db hub3) 160 "" "root" "another password")) "u1" root root family_b (secret_of "4")
              (secret_of "5") 170) as (Hs & Hold & (t & w2 & Hs2 & _ & _ & t' & d3 & Hr & Ha)).
  - left.
  - vm_compute. reflexivity.
  - vm_compute. reflexivity.
  - vm_compute. reflexivity.
  - vm_compute. reflexivity.
  - vm_compute. reflexivity.
  - vm_compute. reflexivity.
  - vm_compute. reflexivity.
  - vm_compute. reflexivity.
  - split; [exact Hs|]. split.
    + assert (exists f, families (db hub3) !! family_a = Some f /\ user_id f = "u1" /\ active f 170 = true) as (f & Hf & Hid & Hl)
        by (vm_compute; by eexists).
      destruct (Hold family_a f Hf Hid) as (f' & Hf' & Hd). by exists f, f'.
    + exists t, w2. split; [exact Hs2|]. exists t', d3. split; [exact Hr|]. rewrite Ha. reflexivity.
Defined.
End Example_hub.

(** * What the login throttle guarantees

    A lockout stands whatever other keys fail, are pruned or cleared meanwhile,
    and never asks for more than a quarter of an hour; and the spelling of a name
    that gets round it. *)

(** ** Histories of the throttle *)

Inductive event := Tick (nanoseconds : nat) | Failed (key : string) | Cleared (key : string).
Definition throttle_step (th : string -> Z) (s : Z * Throttle) (e : event) : Z * Throttle :=
  let '(now, t) := s in
  match e with
  | Tick d => (now + Z.of_nat d, t)
  | Failed key => (now, snd (fail t key (th key) now))
  | Cleared key => (now, clear t key)
  end.
Definition throttle_run (th : string -> Z) (es : list event) (s : Z * Throttle) : Z * Throttle :=
  fold_left (throttle_step th) es s.

(** An entry's lock is the one its last failure set. *)
Definition entry_ok (threshold now bound : Z) (e : ThrottleEntry) : Prop :=
  0 <= fails e <= bound /\ last_fail e <= now
  /\ forall until, locked_until e = Some until ->
     threshold <= fails e /\ until = last_fail e + lock_secs (fails e) threshold * SECOND.
Definition throttle_inv (th : string -> Z) (bound : Z) (s : Z * Throttle) : Prop :=
  forall key e, snd s !! key = Some e -> entry_ok (th key) (fst s) bound e.

Lemma lock_secs_bounds n th : th <= n -> 0 <= lock_secs n th <= LOCK_CAP_SECS.
Proof.
  intros H. unfold lock_secs. split; [|apply Z.le_min_r]. apply Z.min_glb; [|done]. by apply Z.shiftl_nonneg.
Qed.
Lemma lock_secs_mono n m th : th <= n -> n <= m -> lock_secs n th <= lock_secs m th.
Proof.
  intros Hn Hm. unfold lock_secs. apply Z.min_le_compat_r. rewrite !Z.shiftl_mul_pow2 by lia.
  apply Z.mul_le_mono_nonneg_l; [done|]. apply Z.pow_le_mono_r; lia.
Qed.
Lemma prune_lookup t now key e : throttle_prune t now !! key = Some e -> t !! key = Some e.
Proof. unfold throttle_prune. destruct (_ <? _)%nat; [|done]. by intros [? _]%map_lookup_filter_Some. Qed.
Lemma prune_keeps t now key e :
  t !! key = Some e -> now - 3600 * SECOND < last_fail e -> throttle_prune t now !! key = Some e.
Proof.
  intros Hk Hl. unfold throttle_prune. destruct (_ <? _)%nat; [|done]. by apply map_lookup_filter_Some_2.
Qed.
Lemma fail_other t key th now k : key <> k -> snd (fail t key th now) !! k = throttle_prune t now !! k.
Proof. intros H. unfold fail. destruct (_ <=? _); simpl; by apply lookup_insert_ne. Qed.
Lemma fail_own t key th now :
  let e := unwrap_or (throttle_prune t now !! key) (mkEntry 0 None now) in
  0 <= fails e < 2 ^ 32 - 1 ->
  snd (fail t key th now) !! key
  = Some (mkEntry (fails e + 1)
            (if th <=? fails e + 1 then Some (now + lock_secs (fails e + 1) th * SECOND) else locked_until e) now).
Proof.
  cbv zeta. intros Hb. unfold fail, wrap. cbv zeta. rewrite Z.mod_small by lia.
  destruct (_ <=? _); simpl; by rewrite lookup_insert_eq.
Qed.

Lemma throttle_inv_step th bound s e :
  bound < 2 ^ 32 - 1 -> 0 <= bound -> throttle_inv th bound s -> throttle_inv th (bound + 1) (throttle_step th s e).
Proof.
  intros Hb H0 Hi. destruct s as [now t]. destruct e as [d|key|key]; intros k x Hx; simpl in *.
  - destruct (Hi _ _ Hx) as (? & ? & ?). simpl in *. split_and!; [lia..|done].
  - destruct (decide (key = k)) as [<-|Hne].
    + set (e0 := unwrap_or (throttle_prune t now !! key) (mkEntry 0 None now)) in *.
      assert (entry_ok (th key) now bound e0) as (Hf & Hl & Hu).
      { subst e0. destruct (throttle_prune t now !! key) as [e|] eqn:E; simpl.
        - apply prune_lookup in E. by apply (Hi _ _ E).
        - split_and!; simpl; [lia..|done]. }
      rewrite fail_own in Hx by (subst e0; lia). injection Hx as <-. fold e0. unfold entry_ok.
      cbn [fails last_fail locked_until fst]. split_and!; [lia..|]. intros u.
      destruct (Z.leb_spec (th key) (fails e0 + 1)); [by intros [= <-]|]. intros H'. apply Hu in H' as [? _]. lia.
    + rewrite fail_other in Hx by done. apply prune_lookup in Hx. destruct (Hi _ _ Hx) as (? & ? & ?). simpl in *.
      split_and!; simpl; [lia..|done].
  - unfold clear in Hx. apply lookup_delete_Some in Hx as [_ Hx]. destruct (Hi _ _ Hx) as (? & ? & ?). simpl in *. split_and!; simpl; [lia..|done].
Qed.
Lemma throttle_inv_run th es bound s :
  0 <= bound -> bound + Z.of_nat (length es) < 2 ^ 32 -> throttle_inv th bound s ->
  throttle_inv th (bound + Z.of_nat (length es)) (throttle_run th es s).
Proof.
  revert bound s. induction es as [|e es IH]; intros bound s H0 Hb Hi; cbn [length] in *.
  - by rewrite Z.add_0_r.
  - replace (bound + Z.of_nat (S (length es))) with ((bound + 1) + Z.of_nat (length es)) by lia.
    apply IH; [lia..|]. apply throttle_inv_step; [lia..|done].
Qed.

(** [key] is locked at least until [until]. *)
Definition locked_past (th : Z) (until : Z) (s : Z * Throttle) (key : string) : Prop :=
  exists e u, snd s !! key = Some e /\ locked_until e = Some u /\ until <= u.
Lemma locked_past_step th bound s e key until :
  bound < 2 ^ 32 - 1 -> throttle_inv th bound s -> e <> Cleared key -> fst s <= until ->
  locked_past (th key) until s key -> locked_past (th key) until (throttle_step th s e) key.
Proof.
  intros Hb Hi Hne Hnow (x & u & Hx & Hu & Hle). destruct s as [now t].
  destruct (Hi _ _ Hx) as (Hf & Hl & Hlk). destruct (Hlk _ Hu) as [Hth Hval]. simpl in *.
  destruct e as [d|k|k]; simpl.
  - by exists x, u.
  - assert (throttle_prune t now !! key = Some x) as Hp.
    { apply prune_keeps; [done|]. pose proof (lock_secs_bounds _ _ Hth). unfold LOCK_CAP_SECS, SECOND in *. lia. }
    destruct (decide (k = key)) as [->|Hk].
    + unfold locked_past. cbn [snd]. rewrite fail_own; rewrite Hp; cbn [unwrap_or]; [|lia].
      eexists _, _. split; [done|]. cbn [locked_until]. destruct (Z.leb_spec (th key) (fails x + 1)); [|lia].
      split; [done|]. pose proof (lock_secs_mono (fails x) (fails x + 1) (th key) Hth). unfold SECOND in *. lia.
    + exists x, u. unfold locked_past. cbn [snd]. by rewrite fail_other.
  - exists x, u. unfold locked_past. cbn [snd]. unfold clear. rewrite lookup_delete_ne; [done|congruence].
Qed.
Lemma throttle_now th es s : fst s <= fst (throttle_run th es s).
Proof.
  revert s. induction es as [|e es IH]; intros [now t]; [done|]. cbn [throttle_run fold_left].
  etrans; [|apply IH]. destruct e; simpl; lia.
Qed.
Lemma locked_past_run th es bound s key until :
  0 <= bound -> bound + Z.of_nat (length es) < 2 ^ 32 -> throttle_inv th bound s -> Cleared key ∉ es ->
  fst (throttle_run th es s) <= until -> locked_past (th key) until s key ->
  locked_past (th key) until (throttle_run th es s) key.
Proof.
  revert bound s. induction es as [|e es IH]; intros bound s H0 Hb Hi Hc Hend Hl; [done|].
  cbn [length throttle_run fold_left] in *. apply not_elem_of_cons in Hc as [Hne Hc].
  assert (throttle_inv th (bound + 1) (throttle_step th s e)) as Hi' by (apply throttle_inv_step; [lia..|done]).
  apply (IH (bound + 1)); [lia|lia|done..|].
  apply (locked_past_step _ bound); [lia|done|congruence| |done].
  pose proof (throttle_now th es (throttle_step th s e)). unfold throttle_run in *.
  destruct s, e; simpl in *; lia.
Qed.

(** A key is locked only after its threshold of consecutive failures, for at
    most fifteen minutes; and until then the lockout stands, however many other
    keys (or the same one) fail and whatever is pruned or cleared beside it. *)
Theorem lockout_holds th es more key d :
  let s0 := throttle_run th es (0, ∅) in
  let s1 := throttle_run th more s0 in
  Z.of_nat (length es + length more) < 2 ^ 32 ->
  locked (snd s0) key (fst s0) = Some d -> Cleared key ∉ more ->
  d <= LOCK_CAP_SECS * SECOND
  /\ (exists e, snd s0 !! key = Some e /\ th key <= fails e)
  /\ (fst s1 <= fst s0 + d -> exists d', locked (snd s1) key (fst s1) = Some d' /\ fst s0 + d <= fst s1 + d').
Proof.
  cbv zeta. intros Hb Hl Hc.
  assert (throttle_inv th (0 + Z.of_nat (length es)) (throttle_run th es (0, ∅))) as Hi.
  { apply throttle_inv_run; [lia..|]. intros k e He. done. }
  set (s0 := throttle_run th es (0, ∅)) in *. unfold locked in Hl.
  destruct (snd s0 !! key) as [e|] eqn:He; [|done]. simpl in Hl. destruct (locked_until e) as [u|] eqn:Hu; [|done].
  simpl in Hl. destruct (Z.leb_spec (fst s0) u) as [Hle|]; [|done]. injection Hl as <-.
  destruct (Hi _ _ He) as (Hf & Hlast & Hlk). destruct (Hlk _ Hu) as [Hth ->].
  pose proof (lock_secs_bounds _ _ Hth). split; [unfold SECOND, LOCK_CAP_SECS in *; lia|]. split; [by exists e|].
  intros Hend. destruct (locked_past_run th more (0 + Z.of_nat (length es)) s0 key
    (last_fail e + lock_secs (fails e) (th key) * SECOND)) as (x & u & Hx & Hxu & Hge); [lia|lia|done|done|lia|..].
  { exists e, (last_fail e + lock_secs (fails e) (th key) * SECOND). by split_and!. }
  unfold locked. rewrite Hx. simpl. rewrite Hxu. simpl. destruct (Z.leb_spec (fst (throttle_run th more s0)) u); [|lia].
  eexists. split; [done|]. lia.
Qed.

Definition th5 : string -> Z := fun _ => 5.
Lemma lockout_holds_witness :
  let s0 := throttle_run th5 (replicate 5 (Failed "u:root")) (0, ∅) in
  let s1 := throttle_run th5 [Failed "u:guest"; Cleared "u:guest"; Failed "u:root"; Tick 1000] s0 in
  locked (snd s0) "u:root" 0 = Some (30 * SECOND)
  /\ exists d', locked (snd s1) "u:root" (fst s1) = Some d' /\ 30 * SECOND <= fst s1 + d'.
Proof.
  split; [vm_compute; reflexivity|].
  destruct (lockout_holds th5 (replicate 5 (Failed "u:root"))
              [Failed "u:guest"; Cleared "u:guest"; Failed "u:root"; Tick 1000] "u:root" (30 * SECOND)) as (_ & _ & H).
  - vm_compute. reflexivity.
  - vm_compute. reflexivity.
  - intros Hin. repeat (apply elem_of_cons in Hin as [Hin|Hin]; [discriminate Hin|]). by apply elem_of_nil in Hin.
  - apply H. vm_compute. discriminate.
Defined.

(** ** Spellings of a name *)

Section Spellings.
Context {crypto : Crypto} (lower : string -> string).

Fixpoint pad (n : nat) (name : string) : string :=
  match n with O => name | S n => String (byte 32) (pad n name) end.
Lemma trim_pad n name : trim (pad n name) = trim name.
Proof.
  induction n as [|n IH]; [done|]. rewrite <- IH. unfold trim, trim_start. cbn [pad String.length trim_start_fuel].
  reflexivity.
Qed.
Lemma login_select_pad d n name password : login_select d (pad n name) password = login_select d name password.
Proof. unfold login_select. by rewrite trim_pad. Qed.

(** Guesses of one client, the [i]th under [i] more spaces, all at one instant. *)
Fixpoint guess (d : Db) (t : Throttle) (at_ now : Z) (name family secret : string) (i : nat) (guesses : list string)
    : list LoginAnswer * Throttle :=
  match guesses with
  | [] => ([], t)
  | password :: guesses =>
      let '(answer, _, t) := login_request lower d t at_ now false false None family secret (pad i name) password in
      let '(answers, t) := guess d t at_ now name family secret (S i) guesses in (answer :: answers, t)
  end.

Definition spelt (name : string) (i : nat) (t : Throttle) : Prop :=
  forall k e, t !! k = Some e -> exists j, (j < i)%nat /\ k = user_key lower (pad j name).
Lemma spelt_failed name i t at_ :
  spelt name i t -> spelt name (S i) (snd (fail t (user_key lower (pad i name)) THROTTLE_USER_AFTER at_)).
Proof.
  intros Hs k e He. destruct (decide (user_key lower (pad i name) = k)) as [<-|Hne]; [exists i; split; [lia|done]|].
  rewrite fail_other in He by done. apply prune_lookup in He. apply Hs in He as (j & Hj & ->). exists j. split; [lia|done].
Qed.

Section Unlimited.
Context (d : Db) (name : string) (id : string) (u : User).
Hypothesis Hdistinct : forall i j, lower (pad i name) = lower (pad j name) -> i = j.
Hypothesis Hname : find_user d (trim name) = Some (id, u).

Lemma spelt_unlocked i t at_ : spelt name i t -> login_locked lower t at_ None (pad i name) = None.
Proof.
  intros Hs. unfold login_locked. assert (locked t (user_key lower (pad i name)) at_ = None) as ->; [|done].
  unfold locked. destruct (t !! user_key lower (pad i name)) as [e|] eqn:E; [|done]. exfalso.
  apply Hs in E as (j & Hj & Heq). unfold user_key in Heq. injection Heq as Heq. apply Hdistinct in Heq. lia.
Qed.
Lemma guess_spec guesses t at_ now family secret i :
  (forall p, p ∈ guesses -> verify_password p (password_hash u) = false) -> spelt name i t ->
  let '(answers, t') := guess d t at_ now name family secret i guesses in
  answers = replicate (length guesses) BadCredentials /\ spelt name (i + length guesses) t'.
Proof.
  revert t i. induction guesses as [|p guesses IH]; intros t i Hp Hs; cbn [guess length].
  - by rewrite Nat.add_0_r.
  - unfold login_request. rewrite spelt_unlocked by done. unfold login. rewrite login_select_pad.
    unfold login_select. rewrite Hname, (Hp p) by left. cbn [login_failed ip_key]. unfold login_failed. simpl.
    specialize (IH (snd (fail t (user_key lower (pad i name)) THROTTLE_USER_AFTER at_)) (S i)).
    destruct (guess d _ _ _ _ _ _ (S i) guesses) as [answers t'].
    destruct IH as [-> Ht]; [intros q Hq; apply Hp; by right|by apply spelt_failed|].
    split; [done|]. by replace (i + S (length guesses))%nat with (S i + length guesses)%nat by lia.
Qed.

(** The throttle counts the name as it was sent and the login looks up the
    name without its spaces, so a client without a known address can try any
    number of passwords on one account at one instant, a space more each time:
    every wrong one is answered as wrong, none is throttled, and the right one
    at the end logs in. *)
Theorem spelling_unthrottled guesses password at_ now family secret t d' :
  (forall p, p ∈ guesses -> verify_password p (password_hash u) = false) ->
  login d now family secret name password = (Ok t, d') ->
  let '(answers, th) := guess d ∅ at_ now name family secret 0 guesses in
  answers = replicate (length guesses) BadCredentials
  /\ exists th', login_request lower d th at_ now false false None family secret (pad (length guesses) name) password
                 = (LoggedIn t, d', th').
Proof.
  intros Hp Hlogin. assert (spelt name 0 ∅) as Hs by (intros k e He; by rewrite lookup_empty in He).
  pose proof (guess_spec guesses ∅ at_ now family secret 0 Hp Hs) as H.
  destruct (guess d ∅ at_ now name family secret 0 guesses) as [answers th]. destruct H as [-> Ht]. split; [done|].
  unfold login_request. rewrite spelt_unlocked by done.
  assert (login d now family secret (pad (length guesses) name) password = (Ok t, d')) as ->.
  { rewrite <- Hlogin. unfold login. by rewrite login_select_pad. }
  by eexists.
Qed.
End Unlimited.
End Spellings.

#[local] Existing Instance toy.
Lemma lower_length s : String.length (to_ascii_lowercase s) = String.length s.
Proof. unfold to_ascii_lowercase. induction s as [|a s IH]; [done|]. simpl. by rewrite IH. Qed.
Lemma pad_length n s : String.length (pad n s) = (n + String.length s)%nat.
Proof. induction n as [|n IH]; [done|]. simpl. by rewrite IH. Qed.
Lemma lower_pad_inj name i j : to_ascii_lowercase (pad i name) = to_ascii_lowercase (pad j name) -> i = j.
Proof. intros H. apply (f_equal String.length) in H. rewrite !lower_length, !pad_length in H. lia. Qed.
Definition wrong_guesses : list string := replicate 30 "password"%string.
Definition right_login : result AuthError TokenPair * Db :=
  login (db hub1) 100 family_a (secret_of "1") "root" "correct horse battery".
Lemma spelling_unthrottled_witness :
  let '(answers, th) := guess to_ascii_lowercase (db hub1) ∅ 0 100 "root" family_a (secret_of "1") 0 wrong_guesses in
  answers = replicate 30 BadCredentials
  /\ exists th', login_request to_ascii_lowercase (db hub1) th 0 100 false false None family_a (secret_of "1")
                   (pad 30 "root") "correct horse battery"
                 = (LoggedIn (tokens_of (fst right_login)), snd right_login, th').
Proof.
  apply (spelling_unthrottled to_ascii_lowercase (db hub1) "root" "u1" root (lower_pad_inj "root")).
  - vm_compute. reflexivity.
  - intros p Hp. apply elem_of_replicate in Hp as [-> _]. vm_compute. reflexivity.
  - vm_compute. reflexivity.
Defined.
