(* ===== verification/Catalog.v ===== *)
(** * The source catalogue of a mediahost (kahawai-mediahost, src/catalog.rs, src/lib.rs)

    One collection of the catalogue database: the rows of the scanner, the
    replay log of one current record per entity, the leases of the local
    discovery, and what of it is sent over a link. Every operation is one
    transaction; the text of a stored probe is parsed by [MediaJson]; a payload
    is the message it encodes. *)
From S2P Require Import Prelude Media.
#[local] Open Scope Z_scope.

Class MediaJson := {
  media_of_json : string -> option MediaInfo;
  json_of_media : MediaInfo -> string;
  set_sidecar_revision : string -> string -> string;   (* json_set(_, '$.sidecar_revision', _) *)
}.

(** ** Records *)

(** A root token and a relative path. *)
Notation Source := (string * string)%type.
Definition NUL : Ascii.ascii := byte 0.
Definition source_key (root_token path_rel : string) : string := (root_token ++ String NUL path_rel)%string.

Record FileRecord := mkFileRecord {
  f_source : option Source;
  f_size : Z;
  f_mtime : Z;
  f_head : Z;
  f_tail : Z;
  f_oshash : Z;
  f_streams : string;
}.
(** One answer of an analyser about one file: a hash, a loudness, declared
    attachments, a keyframe interval, a geometry or the segments of an episode. *)
Record Answer := mkAnswer {
  a_source : option Source;
  a_size : Z;
  a_mtime : Z;
  a_error : string;
  a_body : string;
}.
Inductive Payload :=
| NoPayload
| FileUpsert (collection : string) (fs : list FileRecord)
| FileError (collection : string) (source : option Source) (text : string)
| FactOf (kind collection : string) (answers : list Answer).

Definition FILE : string := "file".
Definition FILE_ERROR : string := "file_error".
Definition HASHES : string := "file_hashes".
Definition LOUDNESS : string := "file_loudness".
Definition ATTACHMENTS : string := "file_attachments".
Definition KEYFRAME : string := "file_keyframe".
Definition GEOMETRY : string := "file_geometry".
Definition SEGMENTS : string := "file_segments".

Record Rec := mkRec { rc_version : Z; rc_payload : Payload; rc_deleted : bool }.
(** On the wire. *)
Record CatalogRecord := mkRecord {
  w_version : Z;
  w_kind : string;
  w_key : string;
  w_payload : Payload;
  w_deleted : bool;
}.
Definition wire (id : string * string) (r : Rec) : CatalogRecord :=
  mkRecord (rc_version r) (fst id) (snd id) (rc_payload r) (rc_deleted r).

Record FileRow := mkRow {
  r_size : Z;
  r_mtime : Z;
  r_head : Z;
  r_tail : Z;
  r_oshash : Z;
  r_streams : string;
  r_seen : Z;
  r_version : Z;
  r_error : string;
  r_music : Z;
  r_reprobe : bool;
}.
Inductive JobState := JobPending | JobRunning.
#[export] Instance job_state_dec : EqDecision JobState.
Proof. solve_decision. Defined.
Record Job := mkJob { j_size : Z; j_mtime : Z; j_source_version : Z; j_state : JobState }.

Record Catalog := mkCatalog {
  c_name : string;
  c_epoch : string;
  c_current : Z;
  c_oldest : Z;
  c_scan_generation : Z;
  c_scanning : bool;
  c_completed : Z;
  c_files : gmap Source FileRow;
  c_records : gmap (string * string) Rec;          (* kind and record key *)
  c_jobs : gmap (string * Source) Job;
  c_acks : gmap string (string * Z);
  c_published : Z;                                 (* what subscribers were told *)
  c_complete : bool;
}.
Definition with_current (c : Catalog) (v : Z) : Catalog :=
  mkCatalog (c_name c) (c_epoch c) v (c_oldest c) (c_scan_generation c) (c_scanning c) (c_completed c) (c_files c)
    (c_records c) (c_jobs c) (c_acks c) (c_published c) (c_complete c).
Definition with_scan (c : Catalog) (generation : Z) (scanning : bool) (completed : Z) : Catalog :=
  mkCatalog (c_name c) (c_epoch c) (c_current c) (c_oldest c) generation scanning completed (c_files c)
    (c_records c) (c_jobs c) (c_acks c) (c_published c) (c_complete c).
Definition with_files (c : Catalog) (m : gmap Source FileRow) : Catalog :=
  mkCatalog (c_name c) (c_epoch c) (c_current c) (c_oldest c) (c_scan_generation c) (c_scanning c) (c_completed c) m
    (c_records c) (c_jobs c) (c_acks c) (c_published c) (c_complete c).
Definition with_records (c : Catalog) (m : gmap (string * string) Rec) : Catalog :=
  mkCatalog (c_name c) (c_epoch c) (c_current c) (c_oldest c) (c_scan_generation c) (c_scanning c) (c_completed c)
    (c_files c) m (c_jobs c) (c_acks c) (c_published c) (c_complete c).
Definition with_jobs (c : Catalog) (m : gmap (string * Source) Job) : Catalog :=
  mkCatalog (c_name c) (c_epoch c) (c_current c) (c_oldest c) (c_scan_generation c) (c_scanning c) (c_completed c)
    (c_files c) (c_records c) m (c_acks c) (c_published c) (c_complete c).
Definition with_acks (c : Catalog) (m : gmap string (string * Z)) : Catalog :=
  mkCatalog (c_name c) (c_epoch c) (c_current c) (c_oldest c) (c_scan_generation c) (c_scanning c) (c_completed c)
    (c_files c) (c_records c) (c_jobs c) m (c_published c) (c_complete c).
Definition publish_version (c : Catalog) (version : Z) (complete : bool) : Catalog :=
  mkCatalog (c_name c) (c_epoch c) (c_current c) (c_oldest c) (c_scan_generation c) (c_scanning c) (c_completed c)
    (c_files c) (c_records c) (c_jobs c) (c_acks c) (Z.max (c_published c) version) (c_complete c || complete).

Definition insert_collection (name epoch : string) : Catalog :=
  mkCatalog name epoch 0 0 0 true 0 ∅ ∅ ∅ ∅ 0 false.

(** ** The replay log *)

Definition next_version (c : Catalog) : Z * Catalog := (c_current c + 1, with_current c (c_current c + 1)).
Definition put_record (c : Catalog) (kind key : string) (version : Z) (payload : Payload) (deleted : bool) : Catalog :=
  with_records c (<[(kind, key) := mkRec version payload deleted]> (c_records c)).
(** A fresh version for one record. *)
Definition put_next (c : Catalog) (kind key : string) (payload : Payload) (deleted : bool) : Z * Catalog :=
  let '(version, c) := next_version c in (version, put_record c kind key version payload deleted).

(** The live derived records of a key, in an order of the database's. *)
Definition derived_kinds (c : Catalog) (key : string) : list (string * Payload) :=
  omap (fun '((kind, k), r) => then_some ((k =s key) && negb (kind =s FILE) && negb (rc_deleted r)) (kind, rc_payload r))
    (map_to_list (c_records c)).
Definition tombstone_derived_records (c : Catalog) (key : string) : option Z * Catalog :=
  fold_left (fun '(_, c) '(kind, _) => let '(v, c) := put_next c kind key NoPayload true in (Some v, c))
    (derived_kinds c key) (None, c).
Definition reversion_derived_records (c : Catalog) (key : string) : option Z * Catalog :=
  fold_left (fun '(_, c) '(kind, payload) => let '(v, c) := put_next c kind key payload false in (Some v, c))
    (derived_kinds c key) (None, c).

(** ** Scanning *)

(** [u64 as i64]. *)
Definition as_i64 (z : Z) : Z := if z <? 2 ^ 63 then z else z - 2 ^ 64.
Definition begin_scan (c : Catalog) : Z * Catalog :=
  (c_scan_generation c + 1, with_scan c (c_scan_generation c + 1) true (c_completed c)).
Definition with_row_seen (row : FileRow) (generation music : Z) (reprobe : bool) : FileRow :=
  mkRow (r_size row) (r_mtime row) (r_head row) (r_tail row) (r_oshash row) (r_streams row) generation (r_version row)
    (r_error row) music reprobe.
Definition mark_seen (c : Catalog) (source : Source) (generation : Z) : Catalog :=
  with_files c (alter (fun row => with_row_seen row generation (r_music row) (r_reprobe row)) source (c_files c)).

(** The guarded identity of the bytes. *)
Definition same_bytes (row : FileRow) (file : FileRecord) : bool :=
  (r_error row =s "") && (r_size row =? as_i64 (f_size file)) && (r_mtime row =? f_mtime file)
  && (r_head row =? as_i64 (f_head file)) && (r_tail row =? as_i64 (f_tail file))
  && (r_oshash row =? as_i64 (f_oshash file)).
Definition settle_jobs (c : Catalog) (source : Source) : Catalog :=
  with_jobs c (filter (fun '((_, s), j) => s <> source \/ j_state j = JobRunning) (c_jobs c)).
Definition carry_jobs (c : Catalog) (source : Source) (was version : Z) : Catalog :=
  with_jobs c (map_imap (fun '(_, s) j =>
      Some (if (s ≟ source) && (j_state j ≟ JobRunning) && (j_source_version j =? was)
            then mkJob (j_size j) (j_mtime j) version JobRunning else j)) (c_jobs c)).
Definition upsert_file_inner (c : Catalog) (file : FileRecord) (generation music : Z) (probed : bool)
    : result string (option Z) * Catalog :=
  match f_source file with
  | None => (Err "catalogue file missing source", c)
  | Some source =>
      let previous := c_files c !! source in
      let key := source_key (fst source) (snd source) in
      let mapper_refresh := is_some_and (fun row => r_music row <? music) previous in
      if is_some_and (fun row => same_bytes row file && (r_streams row =s f_streams file)) previous
         && negb mapper_refresh
      then (Ok None,
            with_files c (alter (fun row => with_row_seen row generation (Z.max music (r_music row))
                                              (if probed then false else r_reprobe row)) source (c_files c)))
      else
        let revision_changed := is_none_or (fun row => negb (same_bytes row file)) previous in
        let '(version, c) := next_version c in
        let row := mkRow (as_i64 (f_size file)) (f_mtime file) (as_i64 (f_head file)) (as_i64 (f_tail file))
                     (as_i64 (f_oshash file)) (f_streams file) generation version ""
                     (map_or music (fun row => Z.max (r_music row) music) previous)
                     (if probed then false else map_or false r_reprobe previous) in
        let c := with_files c (<[source := row]> (c_files c)) in
        let c := put_record c FILE key version (FileUpsert (c_name c) [file]) false in
        let '(derived, c) :=
          if revision_changed then
            let '(derived, c) := tombstone_derived_records c key in (derived, settle_jobs c source)
          else
            reversion_derived_records
              (match previous with Some was => carry_jobs c source (r_version was) version | None => c end) key in
        (Ok (Some version), publish_version c (unwrap_or derived version) false)
  end.
Definition upsert_file (c : Catalog) (file : FileRecord) (generation : Z) : result string (option Z) * Catalog :=
  upsert_file_inner c file generation 0 false.
Definition upsert_file_with_music_tag_generation (c : Catalog) (file : FileRecord) (generation music : Z)
    : result string (option Z) * Catalog :=
  upsert_file_inner c file generation music true.

Definition record_error (c : Catalog) (source : Source) (text : string) (generation : Z) : Z * Catalog :=
  let previous := c_files c !! source in
  match opt_filter (fun row => r_error row =s text) previous with
  | Some row => (r_version row, mark_seen c source generation)
  | None =>
      let key := source_key (fst source) (snd source) in
      let c :=
        if is_some_and (fun row => r_error row =s "") previous then
          let '(_, c) := put_next c FILE key NoPayload true in
          let '(_, c) := tombstone_derived_records c key in
          settle_jobs c source
        else c in
      let '(version, c) := next_version c in
      let row :=
        match previous with
        | Some row => mkRow (r_size row) (r_mtime row) (r_head row) (r_tail row) (r_oshash row) (r_streams row)
                        generation version text (r_music row) (r_reprobe row)
        | None => mkRow 0 0 0 0 0 "{}" generation version text 0 false
        end in
      let c := with_files c (<[source := row]> (c_files c)) in
      let c := put_record c FILE_ERROR key version (FileError (c_name c) (Some source) text) false in
      (version, publish_version c version false)
  end.

Definition remove_file (c : Catalog) (source : Source) : Z * Catalog :=
  let key := source_key (fst source) (snd source) in
  let '(_, c) := tombstone_derived_records c key in
  let '(version, c) := next_version c in
  let c := with_files c (delete source (c_files c)) in
  (version, put_record c FILE key version NoPayload true).
(** The rows of a set of sources, each removed under its own version. *)
Definition remove_files (c : Catalog) (sources : list Source) : option Z * Catalog :=
  fold_left (fun '(_, c) source => let '(v, c) := remove_file c source in (Some v, c)) sources (None, c).
Definition reconcile_root (c : Catalog) (root : string) (present : list string) : Catalog :=
  let absent := List.filter (fun '(r, path) => (r =s root) && negb (str_mem path present))
                  (map fst (map_to_list (c_files c))) in
  match remove_files c absent with
  | (Some version, c) => publish_version c version false
  | (None, c) => c
  end.
Definition finish_scan (c : Catalog) (generation : Z) (retained_roots : list string) : Z * Catalog :=
  let stale := List.filter (fun '((root, _), row) => negb (r_seen row =? generation) && negb (str_mem root retained_roots))
                 (map_to_list (c_files c)) in
  let '(_, c) := remove_files c (map fst stale) in
  let c := with_scan c (c_scan_generation c) false generation in
  (c_current c, publish_version c (c_current c) true).

(** ** Local discovery *)

Section Discovery.
Context {json : MediaJson}.

Definition with_row_streams (row : FileRow) (streams : string) : FileRow :=
  mkRow (r_size row) (r_mtime row) (r_head row) (r_tail row) (r_oshash row) streams (r_seen row) (r_version row)
    (r_error row) (r_music row) (r_reprobe row).
Definition baseline_sidecars (c : Catalog) (root : string) (baselines : list (string * string)) : Catalog :=
  fold_left (fun c '(path, revision) =>
      with_files c (alter (fun row =>
        if (r_error row =s "") && is_some_and (fun m => is_none (sidecar_revision m)) (media_of_json (r_streams row))
        then with_row_streams row (set_sidecar_revision (r_streams row) revision) else row)
        (root, path) (c_files c))) baselines c.

Definition has_live_record (c : Catalog) (kind : string) (source : Source) : bool :=
  is_some_and (fun r => negb (rc_deleted r)) (c_records c !! (kind, source_key (fst source) (snd source))).
Definition job_running (c : Catalog) (kind : string) (source : Source) : bool :=
  is_some_and (fun j => j_state j ≟ JobRunning) (c_jobs c !! (kind, source)).
Definition running (c : Catalog) (kind : string) : nat :=
  length (List.filter (fun '((k, _), j) => (k =s kind) && (j_state j ≟ JobRunning)) (map_to_list (c_jobs c))).
Definition has_audio (streams : string) : bool :=
  is_some_and (fun m => negb (length (audio m) =? 0)%nat) (media_of_json streams).
Definition first_video (streams : string) : option VideoStream := m ← media_of_json streams; head (video m).
(** What a bounded retry of the discovery is for. *)
Definition lacks_cheap (media_type kind streams : string) : bool :=
  (if kind =s ATTACHMENTS then
     is_some_and (fun m => (is_some_and (fun c => (c =s "matroska") || (c =s "webm")) (container m))
                           && (is_none (attachments m) || is_none (chapters m))) (media_of_json streams)
     && str_mem media_type ["movies"; "series"; "anime"]
   else if kind =s KEYFRAME then is_some_and (fun v => is_none (v_max_keyframe_interval_ms v)) (first_video streams)
   else (kind =s GEOMETRY) && is_some (first_video streams)
        && is_some_and (fun m => negb (video_geometry_probed m)) (media_of_json streams)).
(** [ORDER BY mtime_unix DESC, root_token, path_rel]. *)
Definition newest_first (a b : Source * FileRow) : comparison :=
  cmp_then (Z.compare (r_mtime (snd b)) (r_mtime (snd a)))
    (cmp_then (String.compare (fst (fst a)) (fst (fst b))) (String.compare (snd (fst a)) (snd (fst b)))).
Definition candidates (c : Catalog) (wanted : FileRow -> bool) (kind : string) : list (Source * FileRow) :=
  sort_by newest_first
    (List.filter (fun '(source, row) => (r_error row =s "") && wanted row && negb (has_live_record c kind source))
       (map_to_list (c_files c))).
Definition wants_kind (kind : string) (row : FileRow) : bool :=
  negb (kind =s LOUDNESS) || has_audio (r_streams row).
Definition pending_sources (c : Catalog) (kind : string) (limit : nat) : list Source :=
  map fst (take limit (candidates c (wants_kind kind) kind)).
Definition claim_rows (c : Catalog) (kind : string) (rows : list (Source * FileRow)) : list Source * Catalog :=
  (map fst rows,
   fold_left (fun c '(source, row) =>
       with_jobs c (<[(kind, source) := mkJob (r_size row) (r_mtime row) (r_version row) JobRunning]> (c_jobs c)))
     rows c).
Definition claim_wanted (c : Catalog) (wanted : FileRow -> bool) (kind : string) (limit : nat) : list Source * Catalog :=
  let available := (limit - running c kind)%nat in
  if (available =? 0)%nat then ([], c)
  else claim_rows c kind
         (take available (List.filter (fun '(source, _) => negb (job_running c kind source)) (candidates c wanted kind))).
Definition claim_sources (c : Catalog) (kind : string) (limit : nat) : list Source * Catalog :=
  claim_wanted c (wants_kind kind) kind limit.
Definition claim_cheap_sources (c : Catalog) (media_type kind : string) (limit : nat)
    : result string (list Source) * Catalog :=
  if str_mem kind [ATTACHMENTS; KEYFRAME; GEOMETRY] then
    let '(sources, c) := claim_wanted c (fun row => lacks_cheap media_type kind (r_streams row)) kind limit in
    (Ok sources, c)
  else (Err "unknown cheap catalogue fact kind", c).

End Discovery.

Definition release_claims (c : Catalog) (kind : string) (sources : list Source) : Catalog :=
  fold_left (fun c source =>
      if job_running c kind source then with_jobs c (delete (kind, source) (c_jobs c)) else c) sources c.

Inductive StoreError := StaleSource | NoClaim | OldRevision | MissingSource.
Definition store_source_fact (c : Catalog) (kind : string) (source : Source) (payload : Payload)
    (expected_size expected_mtime : option Z) : result StoreError Z * Catalog :=
  let claim := j ← opt_filter (fun j => j_state j ≟ JobRunning) (c_jobs c !! (kind, source));
               Some (j_size j, j_mtime j, j_source_version j) in
  let current := row ← opt_filter (fun row => r_error row =s "") (c_files c !! source);
                 Some (r_size row, r_mtime row, r_version row) in
  let dropped := with_jobs c (delete (kind, source) (c_jobs c)) in
  match current with
  | None => (Err StaleSource, dropped)
  | Some (size, mtime, _) =>
      if negb (is_some claim && (claim ≟ current)) then
        (Err (if is_none claim then NoClaim else OldRevision), dropped)
      else if negb (is_none_or (fun e => e =? wrap 64 size) expected_size)
           || negb (is_none_or (fun e => e =? mtime) expected_mtime) then (Err OldRevision, dropped)
      else
        let '(version, c) := put_next dropped kind (source_key (fst source) (snd source)) payload false in
        (Ok version, publish_version c version false)
  end.
(** The answers of one message, each stored as a record of its own. *)
Inductive FactMessage :=
| FileHashes (answers : list Answer)
| FileFact (kind : string) (answer : Answer)          (* attachments, keyframe interval, geometry *)
| FileLoudness (answer : Answer)
| SegmentResult (answers : list (Answer * bool)).     (* and whether retryable *)
Definition store_answer (c : Catalog) (kind : string) (a : Answer) (size mtime : option Z) : option StoreError * Catalog :=
  match a_source a with
  | None => (Some MissingSource, c)
  | Some source =>
      match store_source_fact c kind source (FactOf kind (c_name c) [a]) size mtime with
      | (Ok _, c) => (None, c)
      | (Err e, c) => (Some e, c)
      end
  end.
Definition is_stale (e : StoreError) : bool := match e with MissingSource => false | _ => true end.
Fixpoint store_hashes (c : Catalog) (answers : list Answer) (failure : option StoreError) : option StoreError * Catalog :=
  match answers with
  | [] => (failure, c)
  | a :: answers =>
      match store_answer c HASHES a (then_some (a_error a =s "") (a_size a)) None with
      | (None, c) => store_hashes c answers failure
      | (Some e, c) =>
          if is_stale e then store_hashes c answers (opt_or failure (Some e)) else (Some e, c)
      end
  end.
Fixpoint store_segments (c : Catalog) (answers : list (Answer * bool)) : option StoreError * Catalog :=
  match answers with
  | [] => (None, c)
  | (a, retryable) :: answers =>
      if retryable then
        store_segments (match a_source a with Some s => release_claims c SEGMENTS [s] | None => c end) answers
      else
        match store_answer c SEGMENTS a (Some (a_size a)) (Some (a_mtime a)) with
        | (None, c) => store_segments c answers
        | (Some e, c) => if is_stale e then store_segments c answers else (Some e, c)
        end
  end.
Definition store_fact (c : Catalog) (m : FactMessage) : option StoreError * Catalog :=
  match m with
  | FileHashes answers => store_hashes c answers None
  | FileFact kind a => store_answer c kind a (Some (a_size a)) None
  | FileLoudness a => store_answer c LOUDNESS a (Some (a_size a)) (Some (a_mtime a))
  | SegmentResult answers => store_segments c answers
  end.

(** A new generation of the analyser of [kind] ends every answer of the old. *)
Definition ensure_discovery_generation (c : Catalog) (kind : string) (same : bool) : Catalog :=
  if same then c
  else
    let keys := omap (fun '((k, key), r) => then_some ((k =s kind) && negb (rc_deleted r)) key) (map_to_list (c_records c)) in
    let c := fold_left (fun c key => snd (put_next c kind key NoPayload true)) keys c in
    with_jobs c (filter (fun '((k, _), _) => k <> kind) (c_jobs c)).
(** Opening the catalogue again: no lease survives, every collection is to be scanned. *)
Definition reopen (c : Catalog) (same_loudness : bool) (same_segments : option bool) : Catalog :=
  let c := with_jobs c ((fun j => mkJob (j_size j) (j_mtime j) (j_source_version j) JobPending) <$> c_jobs c) in
  let c := ensure_discovery_generation c LOUDNESS same_loudness in
  let c := match same_segments with Some same => ensure_discovery_generation c SEGMENTS same | None => c end in
  mkCatalog (c_name c) (c_epoch c) (c_current c) (c_oldest c) (c_scan_generation c) true (c_completed c) (c_files c)
    (c_records c) (c_jobs c) (c_acks c) (c_current c) (0 <? c_completed c).

Definition acknowledge (c : Catalog) (hub epoch : string) (version : Z) : result string unit * Catalog :=
  if negb (c_epoch c =s epoch) then (Err "catalogue ACK has stale epoch", c)
  else if c_current c <? version then (Err "catalogue ACK is ahead of source", c)
  else
    (Ok tt, with_acks c (<[hub := match c_acks c !! hub with
                                  | Some (e, v) => (epoch, if e =s epoch then Z.max v version else version)
                                  | None => (epoch, version)
                                  end]> (c_acks c))).
