(* ===== verification/CatalogTheorems.v ===== *)
(** * The replay log of a mediahost

    Every operation appends to the log: fresh versions, one per record, records
    below the old current version as they were. And what the records of one
    file say together, whatever scans, discoveries and restarts happen. *)
From S2P Require Import Prelude Media Catalog.
#[local] Open Scope Z_scope.

(** ** Appending *)

Notation Entry := ((string * string) * Payload * bool)%type.
Definition entry_id (e : Entry) : string * string := fst (fst e).
Fixpoint log_all (v : Z) (m : gmap (string * string) Rec) (l : list Entry) : gmap (string * string) Rec :=
  match l with
  | [] => m
  | (id, p, d) :: l => log_all (v + 1) (<[id := mkRec (v + 1) p d]> m) l
  end.
Definition log (c : Catalog) (l : list Entry) : Catalog :=
  with_records (with_current c (c_current c + Z.of_nat (length l))) (log_all (c_current c) (c_records c) l).

Lemma log_all_app v m l l' : log_all v m (l ++ l') = log_all (v + Z.of_nat (length l)) (log_all v m l) l'.
Proof.
  revert v m. induction l as [|[[id p] d] l IH]; intros v m; simpl; [by rewrite Z.add_0_r|].
  rewrite IH. f_equal. lia.
Qed.
Lemma log_nil c : log c [] = c.
Proof. unfold log. simpl. rewrite Z.add_0_r. by destruct c. Qed.
Lemma log_log c l l' : log (log c l) l' = log c (l ++ l').
Proof.
  unfold log. simpl. rewrite log_all_app, length_app. unfold with_records, with_current. simpl. f_equal. lia.
Qed.
Lemma put_next_log c kind key p d : put_next c kind key p d = (c_current c + 1, log c [((kind, key), p, d)]).
Proof. reflexivity. Qed.

Lemma log_all_other v m l id : id ∉ map entry_id l -> log_all v m l !! id = m !! id.
Proof.
  revert v m. induction l as [|[[i p] d] l IH]; intros v m Hn; simpl; [done|]. simpl in Hn.
  apply not_elem_of_cons in Hn as [Hne Hn]. rewrite IH by done. by rewrite lookup_insert_ne.
Qed.
Lemma log_all_inv v m l id r :
  log_all v m l !! id = Some r ->
  (id ∉ map entry_id l /\ m !! id = Some r)
  \/ exists i p d, l !! i = Some (id, p, d) /\ r = mkRec (v + Z.of_nat i + 1) p d.
Proof.
  revert v m. induction l as [|[[j p] d] l IH]; intros v m Hr; simpl in Hr.
  - left. split; [apply not_elem_of_nil|done].
  - apply IH in Hr as [[Hn Hr]|(i & p' & d' & Hi & ->)].
    + destruct (decide (j = id)) as [->|Hne].
      * rewrite lookup_insert_eq in Hr. injection Hr as <-. right. exists 0%nat, p, d. split; [done|]. f_equal. lia.
      * rewrite lookup_insert_ne in Hr by done. left. split; [|done]. simpl. apply not_elem_of_cons. by split.
    + right. exists (S i), p', d'. split; [done|]. f_equal. lia.
Qed.
Lemma log_all_entry v m l i id p d :
  NoDup (map entry_id l) -> l !! i = Some (id, p, d) -> log_all v m l !! id = Some (mkRec (v + Z.of_nat i + 1) p d).
Proof.
  revert v m i. induction l as [|[[j p'] d'] l IH]; intros v m i Hnd Hi; [done|]. simpl in *.
  apply NoDup_cons in Hnd as [Hn Hnd]. destruct i as [|i]; simpl in Hi.
  - injection Hi as -> -> ->. rewrite log_all_other by done. rewrite lookup_insert_eq. f_equal. f_equal. lia.
  - rewrite (IH _ _ i) by done. f_equal. f_equal. lia.
Qed.

(** ** Evolution *)

(** What a later catalogue keeps of an earlier one. *)
Definition evolves (c c' : Catalog) : Prop :=
  c_name c' = c_name c /\ c_epoch c' = c_epoch c /\ c_oldest c' = c_oldest c /\ c_current c <= c_current c'
  /\ (forall id r, c_records c' !! id = Some r -> rc_version r <= c_current c -> c_records c !! id = Some r)
  /\ (forall id, is_Some (c_records c !! id) -> is_Some (c_records c' !! id)).
Lemma evolves_refl c : evolves c c.
Proof. split_and!; [done..|lia|done|done]. Qed.
Lemma evolves_trans c1 c2 c3 : evolves c1 c2 -> evolves c2 c3 -> evolves c1 c3.
Proof.
  intros (N1 & E1 & O1 & C1 & R1 & D1) (N2 & E2 & O2 & C2 & R2 & D2).
  split_and!; [congruence..|lia| |auto]. intros id r Hr Hv. apply R1; [|done]. apply R2; [done|lia].
Qed.
Lemma evolves_same c c' :
  c_name c' = c_name c -> c_epoch c' = c_epoch c -> c_oldest c' = c_oldest c -> c_current c' = c_current c ->
  c_records c' = c_records c -> evolves c c'.
Proof. intros N E O C R. unfold evolves. rewrite N, E, O, C, R. split_and!; [done..|lia|done|done]. Qed.
Lemma evolves_log c l : evolves c (log c l).
Proof.
  split_and!; [done..|simpl; lia| |].
  - simpl. intros id r Hr Hv. apply log_all_inv in Hr as [[_ Hr]|(i & p & d & _ & ->)]; [done|]. simpl in Hv. lia.
  - simpl. intros id. generalize (c_current c) (c_records c). induction l as [|[[j p] d] l IH]; intros v m Hm; simpl; [done|].
    apply IH. destruct (decide (j = id)) as [->|]; [rewrite lookup_insert_eq; by eexists|by rewrite lookup_insert_ne].
Qed.

(** ** Keys *)

Definition nul_free (s : string) : Prop := str_mem_char NUL s = false.
Lemma source_key_inj r p r' p' :
  nul_free r -> nul_free r' -> source_key r p = source_key r' p' -> r = r' /\ p = p'.
Proof.
  unfold nul_free, source_key. revert r'. induction r as [|a r IH]; intros [|a' r'] Hr Hr' H; simpl in *.
  - by injection H as <-.
  - injection H as <- _. by rewrite Ascii.eqb_refl in Hr'.
  - injection H as -> _. by rewrite Ascii.eqb_refl in Hr.
  - injection H as <- H. apply orb_false_iff in Hr as [_ Hr]. apply orb_false_iff in Hr' as [_ Hr'].
    destruct (IH r' Hr Hr' H) as [-> ->]. done.
Qed.
Definition key_of (s : Source) : string := source_key (fst s) (snd s).
Lemma key_of_inj s s' : nul_free (fst s) -> nul_free (fst s') -> key_of s = key_of s' -> s = s'.
Proof. destruct s, s'. unfold key_of. simpl. intros H H' E. by destruct (source_key_inj _ _ _ _ H H' E) as [-> ->]. Qed.

(** ** The records of one file *)

Definition rec_live (c : Catalog) (kind : string) (key : string) (r : Rec) : Prop :=
  c_records c !! (kind, key) = Some r /\ rc_deleted r = false.
Definition all_dead (c : Catalog) (key : string) : Prop :=
  forall kind r, c_records c !! (kind, key) = Some r -> rc_deleted r = true.

Record key_inv (c : Catalog) (s : Source) : Prop := {
  ki_fact : forall kind r, kind <> FILE -> kind <> FILE_ERROR -> rec_live c kind (key_of s) r ->
    exists f, rec_live c FILE (key_of s) f /\ rc_version f < rc_version r;
  ki_error : forall r f, rec_live c FILE_ERROR (key_of s) r -> c_records c !! (FILE, key_of s) = Some f ->
    rc_deleted f = true /\ rc_version f < rc_version r;
  ki_gone : forall kind r, c_records c !! (kind, key_of s) = Some r -> all_dead c (key_of s) ->
    exists f, c_records c !! (FILE, key_of s) = Some f /\ rc_version r <= rc_version f;
  ki_row : match c_files c !! s with
           | None => all_dead c (key_of s)
           | Some row =>
               if r_error row =s "" then
                 exists r f, rec_live c FILE (key_of s) r /\ rc_payload r = FileUpsert (c_name c) [f]
                   /\ f_source f = Some s /\ as_i64 (f_size f) = r_size row /\ f_mtime f = r_mtime row
               else exists r, rec_live c FILE_ERROR (key_of s) r
           end;
}.
Record cat_inv (c : Catalog) : Prop := {
  ci_current : 0 <= c_current c;
  ci_version : forall id r, c_records c !! id = Some r -> 1 <= rc_version r <= c_current c;
  ci_unique : forall id id' r r', c_records c !! id = Some r -> c_records c !! id' = Some r' ->
    rc_version r = rc_version r' -> id = id';
  ci_kind : forall kind key r, c_records c !! (kind, key) = Some r ->
    kind ∈ [FILE; FILE_ERROR; HASHES; LOUDNESS; ATTACHMENTS; KEYFRAME; GEOMETRY; SEGMENTS];
  ci_key : forall kind key r, c_records c !! (kind, key) = Some r -> exists s, nul_free (fst s) /\ key = key_of s;
  ci_root : forall s row, c_files c !! s = Some row -> nul_free (fst s);
  ci_file : forall s, nul_free (fst s) -> key_inv c s;
}.

(** An operation on one file: entries under its key, and its row. *)
Lemma inv_log c l files s :
  cat_inv c -> nul_free (fst s) ->
  (forall e, e ∈ l -> snd (entry_id e) = key_of s) ->
  (forall e, e ∈ l -> fst (entry_id e) ∈ [FILE; FILE_ERROR; HASHES; LOUDNESS; ATTACHMENTS; KEYFRAME; GEOMETRY; SEGMENTS]) ->
  NoDup (map entry_id l) -> (forall s', s' <> s -> files !! s' = c_files c !! s') ->
  key_inv (with_files (log c l) files) s -> cat_inv (with_files (log c l) files).
Proof.
  intros Hc Hs Hkey Hkind Hnd Hfiles Hk. split.
  - simpl. pose proof (ci_current _ Hc). lia.
  - simpl. intros id r Hr. apply log_all_inv in Hr as [[_ Hr]|(i & p & d & Hi & ->)].
    + apply (ci_version _ Hc) in Hr. lia.
    + apply lookup_lt_Some in Hi. simpl. pose proof (ci_current _ Hc). lia.
  - simpl. intros id id' r r' Hr Hr' Hv.
    apply log_all_inv in Hr as [[_ Hr]|(i & p & d & Hi & ->)]; apply log_all_inv in Hr' as [[_ Hr']|(i' & p' & d' & Hi' & ->)].
    + by apply (ci_unique _ Hc _ _ _ _ Hr Hr').
    + apply (ci_version _ Hc) in Hr. simpl in Hv. lia.
    + apply (ci_version _ Hc) in Hr'. simpl in Hv. lia.
    + simpl in Hv. assert (i = i') as -> by lia. rewrite Hi in Hi'. congruence.
  - simpl. intros kind key r Hr. apply log_all_inv in Hr as [[_ Hr]|(i & p & d & Hi & ->)].
    + by apply (ci_kind _ Hc) in Hr.
    + apply list_elem_of_lookup_2 in Hi. by apply (Hkind _ Hi).
  - simpl. intros kind key r Hr. apply log_all_inv in Hr as [[_ Hr]|(i & p & d & Hi & ->)].
    + by apply (ci_key _ Hc) in Hr.
    + apply list_elem_of_lookup_2 in Hi. exists s. split; [done|]. by apply (Hkey _ Hi).
  - simpl. intros s' row Hrow. destruct (decide (s' = s)) as [->|Hne]; [done|]. rewrite Hfiles in Hrow by done.
    by apply (ci_root _ Hc) in Hrow.
  - intros s' Hs'. destruct (decide (s' = s)) as [->|Hne]; [done|].
    assert (forall kind, c_records (with_files (log c l) files) !! (kind, key_of s') = c_records c !! (kind, key_of s')) as Hsame.
    { intros kind. simpl. apply log_all_other. intros Hin. apply list_elem_of_fmap in Hin as (e & He & Hin).
      apply Hkey in Hin. rewrite <- He in Hin. simpl in Hin. by apply key_of_inj in Hin. }
    destruct (ci_file _ Hc s' Hs') as [K1 K2 K3 K4]. unfold rec_live, all_dead in *. split.
    + intros kind r. unfold rec_live. rewrite !Hsame. intros H1 H2 H3. destruct (K1 kind r H1 H2 H3) as (f & Hf & ?). exists f.
      by rewrite ?Hsame.
    + intros r f. unfold rec_live. rewrite !Hsame. apply K2.
    + intros kind r. rewrite Hsame. intros H1 H2. destruct (K3 kind r H1) as (f & ? & ?); [|exists f; by rewrite ?Hsame].
      intros kind' r' Hr'. apply (H2 kind'). by rewrite ?Hsame.
    + simpl. rewrite Hfiles by done. destruct (c_files c !! s') as [row|].
      * unfold rec_live. destruct (r_error row =s ""); simpl in *.
        -- destruct K4 as (r & f & Hr & Hrest). exists r, f. rewrite ?Hsame. done.
        -- destruct K4 as (r & Hr). exists r. by rewrite ?Hsame.
      * intros kind r. simpl in Hsame. rewrite Hsame. apply K4.
Qed.

(** ** Operations as entries of the log *)

Definition tombs (key : string) (d : list (string * Payload)) : list Entry :=
  map (fun '(kind, _) => ((kind, key), NoPayload, true)) d.
Definition renewed (key : string) (d : list (string * Payload)) : list Entry :=
  map (fun '(kind, p) => ((kind, key), p, false)) d.
Definition last_version (c : Catalog) (d : list (string * Payload)) : option Z :=
  match d with [] => None | _ => Some (c_current c + Z.of_nat (length d)) end.

Lemma fold_put (mk : string * Payload -> Payload * bool) c key d o :
  fold_left (fun '(_, c) '(kind, p) => let '(v, c) := put_next c kind key (fst (mk (kind, p))) (snd (mk (kind, p))) in (Some v, c))
    d (o, c)
  = (match d with [] => o | _ => Some (c_current c + Z.of_nat (length d)) end,
     log c (map (fun '(kind, p) => ((kind, key), fst (mk (kind, p)), snd (mk (kind, p)))) d)).
Proof.
  revert c o. induction d as [|[kind p] d IH]; intros c o; cbn [fold_left map]; [by rewrite log_nil|].
  rewrite put_next_log. rewrite IH. rewrite log_log. f_equal.
  simpl. destruct d; f_equal; simpl length; lia.
Qed.
Lemma tombstone_log c key :
  tombstone_derived_records c key
  = (last_version c (derived_kinds c key), log c (tombs key (derived_kinds c key))).
Proof.
  unfold tombstone_derived_records. pose proof (fold_put (fun _ => (NoPayload, true)) c key (derived_kinds c key) None) as H.
  simpl in H. exact H.
Qed.
Lemma reversion_log c key :
  reversion_derived_records c key
  = (last_version c (derived_kinds c key), log c (renewed key (derived_kinds c key))).
Proof.
  unfold reversion_derived_records. pose proof (fold_put (fun '(_, p) => (p, false)) c key (derived_kinds c key) None) as H.
  simpl in H. exact H.
Qed.

Lemma derived_kinds_spec c key kind p :
  (kind, p) ∈ derived_kinds c key
  <-> kind <> FILE /\ exists r, rec_live c kind key r /\ rc_payload r = p.
Proof.
  unfold derived_kinds. rewrite list_elem_of_omap. split.
  - intros ([[k key'] r] & Hin & Hr). apply elem_of_map_to_list in Hin.
    destruct ((key' =s key) && negb (k =s FILE) && negb (rc_deleted r)) eqn:E; [|done].
    apply andb_true_iff in E as [[->%String.eqb_eq Hk]%andb_true_iff Hd]. cbn in Hr. injection Hr as <- <-.
    apply negb_true_iff, String.eqb_neq in Hk. apply negb_true_iff in Hd. split; [done|]. by exists r.
  - intros (Hk & r & [Hr Hd] & <-). exists ((kind, key), r). split; [by apply elem_of_map_to_list|].
    rewrite String.eqb_refl, Hd. apply String.eqb_neq in Hk. rewrite Hk. done.
Qed.
Lemma derived_kinds_nodup c key : NoDup (map fst (derived_kinds c key)).
Proof.
  unfold derived_kinds. pose proof (NoDup_fst_map_to_list (c_records c)) as Hnd.
  induction (map_to_list (c_records c)) as [|[[k key'] r] l IH]; [constructor|].
  cbn in Hnd. apply NoDup_cons in Hnd as [Hn Hnd]. specialize (IH Hnd). cbn [omap list_omap].
  destruct ((key' =s key) && _ && _) eqn:E; [|done]. cbn. apply NoDup_cons. split; [|done].
  apply andb_true_iff in E as [[->%String.eqb_eq _]%andb_true_iff _].
  intros Hin. apply list_elem_of_fmap in Hin as ([k' p'] & -> & Hin). apply Hn.
  apply list_elem_of_omap in Hin as ([[k2 key2] r2] & Hin2 & Hr2).
  destruct ((key2 =s key) && _ && _) eqn:E2; [|done]. cbn in Hr2. injection Hr2 as -> _.
  apply andb_true_iff in E2 as [[->%String.eqb_eq _]%andb_true_iff _].
  apply list_elem_of_fmap. by exists ((k', key), r2).
Qed.
Lemma tombs_ids key d : map entry_id (tombs key d) = map (fun k => (k, key)) (map fst d).
Proof. unfold tombs. rewrite !map_map. apply map_ext. by intros [k p]. Qed.
Lemma renewed_ids key d : map entry_id (renewed key d) = map (fun k => (k, key)) (map fst d).
Proof. unfold renewed. rewrite !map_map. apply map_ext. by intros [k p]. Qed.
(** The list of a key, in any order. *)
Definition derived_list (c : Catalog) (key : string) (d : list (string * Payload)) : Prop :=
  NoDup (map fst d)
  /\ forall kind p, (kind, p) ∈ d <-> kind <> FILE /\ exists r, rec_live c kind key r /\ rc_payload r = p.
Lemma derived_kinds_list c key : derived_list c key (derived_kinds c key).
Proof. split; [apply derived_kinds_nodup|]. intros kind p. apply derived_kinds_spec. Qed.
Lemma derived_list_ext c c' key d :
  (forall kind, kind <> FILE -> c_records c' !! (kind, key) = c_records c !! (kind, key)) ->
  derived_list c' key d -> derived_list c key d.
Proof.
  intros He [Hnd Hd]. split; [done|]. intros kind p. rewrite Hd. unfold rec_live.
  split; intros (Hk & r & Hr & Hp); (split; [done|]); exists r; [rewrite <- He by done|rewrite He by done]; done.
Qed.
Lemma derived_ids_nodup c key d : derived_list c key d -> NoDup (map (fun k => (k, key)) (map fst d)).
Proof. intros [Hnd _]. by apply (NoDup_fmap_2 (fun k : string => (k, key))). Qed.
Lemma in_ids (kind key : string) (ks : list string) : (kind, key) ∈ map (fun k => (k, key)) ks <-> kind ∈ ks.
Proof.
  split; [by intros (k & [= ->] & H)%list_elem_of_fmap|]. intros H. apply list_elem_of_fmap. by exists kind.
Qed.
Lemma file_not_derived c key d : derived_list c key d -> FILE ∉ map fst d.
Proof. intros [_ Hd] ([k p] & He & [Hk _]%Hd)%list_elem_of_fmap. by apply Hk. Qed.
Lemma live_derived c kind key r d :
  derived_list c key d -> kind <> FILE -> rec_live c kind key r -> kind ∈ map fst d.
Proof.
  intros [_ Hd] Hk Hr. apply list_elem_of_fmap. exists (kind, rc_payload r). split; [done|]. apply Hd.
  split; [done|]. by exists r.
Qed.
Lemma derived_known c kind key d :
  cat_inv c -> derived_list c key d -> kind ∈ map fst d ->
  kind ∈ [FILE; FILE_ERROR; HASHES; LOUDNESS; ATTACHMENTS; KEYFRAME; GEOMETRY; SEGMENTS].
Proof.
  intros Hc [_ Hd] ([k p] & -> & (_ & r & [Hr _] & _)%Hd)%list_elem_of_fmap. by apply (ci_kind _ Hc) in Hr.
Qed.

(** After tombstones for every live derived record, the other kinds are dead. *)
Lemma dead_after c key d pre post kind r files :
  derived_list c key d -> kind <> FILE -> (kind, key) ∉ map entry_id (pre ++ post) ->
  c_records (with_files (log c (pre ++ tombs key d ++ post)) files) !! (kind, key) = Some r ->
  rc_deleted r = true.
Proof.
  intros Hl Hk Hn Hr. simpl in Hr. rewrite map_app, not_elem_of_app in Hn. destruct Hn as [Hn1 Hn2].
  apply log_all_inv in Hr as [[Hni Hr]|(i & p & del & Hi & ->)].
  - destruct (rc_deleted r) eqn:E; [done|]. exfalso. apply Hni. rewrite !map_app, !elem_of_app. right. left.
    rewrite tombs_ids. apply in_ids. by apply (live_derived c kind key r d).
  - simpl. apply list_elem_of_lookup_2 in Hi. rewrite !elem_of_app in Hi. destruct Hi as [Hi|[Hi|Hi]].
    + exfalso. apply Hn1. apply list_elem_of_fmap. by exists ((kind, key), p, del).
    + apply list_elem_of_fmap in Hi as ([k q] & [= _ _ ->] & _). done.
    + exfalso. apply Hn2. apply list_elem_of_fmap. by exists ((kind, key), p, del).
Qed.

(** ** The invariant through each operation *)

Lemma inv_ext c c' :
  c_name c' = c_name c -> c_current c' = c_current c -> c_records c' = c_records c ->
  (forall s, match c_files c !! s, c_files c' !! s with
             | Some a, Some b => r_error b = r_error a /\ r_size b = r_size a /\ r_mtime b = r_mtime a
             | None, None => True
             | _, _ => False
             end) ->
  cat_inv c -> cat_inv c'.
Proof.
  intros Hn Hcur Hrec Hf [C1 C2 C3 C4 C5 C6 C7]. split; rewrite ?Hcur, ?Hrec; try done.
  - intros s row Hrow. specialize (Hf s). rewrite Hrow in Hf. destruct (c_files c !! s) as [a|] eqn:E; [|done].
    by apply (C6 s a).
  - intros s Hs. destruct (C7 s Hs) as [K1 K2 K3 K4]. unfold rec_live, all_dead in *. split; unfold rec_live, all_dead;
      rewrite ?Hrec; try done. specialize (Hf s). destruct (c_files c !! s) as [a|], (c_files c' !! s) as [b|]; try done.
    destruct Hf as (He & Hsz & Hm). rewrite He, Hn, Hsz, Hm. done.
Qed.
Lemma same_rows (m : gmap Source FileRow) s :
  match m !! s, m !! s with
  | Some a, Some b => r_error b = r_error a /\ r_size b = r_size a /\ r_mtime b = r_mtime a
  | None, None => True
  | _, _ => False
  end.
Proof. by destruct (m !! s). Qed.
Lemma altered_rows (m : gmap Source FileRow) (g : FileRow -> FileRow) s' s :
  (forall a, r_error (g a) = r_error a /\ r_size (g a) = r_size a /\ r_mtime (g a) = r_mtime a) ->
  match m !! s, alter g s' m !! s with
  | Some a, Some b => r_error b = r_error a /\ r_size b = r_size a /\ r_mtime b = r_mtime a
  | None, None => True
  | _, _ => False
  end.
Proof.
  intros Hg. destruct (decide (s' = s)) as [->|Hne].
  - rewrite lookup_alter_eq. destruct (m !! s); [apply Hg|done].
  - rewrite lookup_alter_ne by done. by destruct (m !! s).
Qed.

Lemma live_exclusive c s r f :
  key_inv c s -> rec_live c FILE_ERROR (key_of s) r -> rec_live c FILE (key_of s) f -> False.
Proof. intros Hk Hr [Hf Hd]. destruct (ki_error _ _ Hk _ _ Hr Hf). congruence. Qed.
Lemma row_live c s row :
  key_inv c s -> c_files c !! s = Some row -> (r_error row =s "") = true ->
  exists r f, rec_live c FILE (key_of s) r /\ rc_payload r = FileUpsert (c_name c) [f]
    /\ f_source f = Some s /\ as_i64 (f_size f) = r_size row /\ f_mtime f = r_mtime row.
Proof. intros Hk Hr He. pose proof (ki_row _ _ Hk) as H. by rewrite Hr, He in H. Qed.

(** A file with new bytes: its record first, then a tombstone for every answer. *)
Lemma inv_upsert_new c s f row ds :
  derived_list c (key_of s) ds -> cat_inv c -> nul_free (fst s) -> f_source f = Some s ->
  r_error row = "" -> r_size row = as_i64 (f_size f) -> r_mtime row = f_mtime f ->
  cat_inv (with_files
    (log c (((FILE, key_of s), FileUpsert (c_name c) [f], false) :: tombs (key_of s) ds))
    (<[s := row]> (c_files c))).
Proof.
  intros Hl Hc Hs Hf He Hsz Hm. set (u := ((FILE, key_of s), FileUpsert (c_name c) [f], false)).
  set (l := u :: tombs (key_of s) ds).
  assert (NoDup (map entry_id l)) as Hnd.
  { simpl. rewrite tombs_ids. apply NoDup_cons. split; [|by apply (derived_ids_nodup c)].
    intros H%in_ids. by apply (file_not_derived c _ _ Hl) in H. }
  assert (forall files, c_records (with_files (log c l) files) !! (FILE, key_of s)
                        = Some (mkRec (c_current c + 1) (FileUpsert (c_name c) [f]) false)) as Hfile.
  { intros files. simpl. rewrite log_all_other by (by simpl in Hnd; apply NoDup_cons in Hnd as [Hn _]).
    by rewrite lookup_insert_eq. }
  assert (forall files kind r, kind <> FILE ->
    c_records (with_files (log c l) files) !! (kind, key_of s) = Some r -> rc_deleted r = true) as Hdead.
  { intros files kind r Hk Hr. apply (dead_after c (key_of s) ds [u] [] kind r files); [done|done| |].
    - simpl. rewrite list_elem_of_singleton. intros H. apply (f_equal fst) in H. by apply Hk.
    - rewrite app_nil_r. exact Hr. }
  apply (inv_log c l _ s); [done|done| | |done| |].
  - intros e [->|He']%elem_of_cons; [done|]. by apply list_elem_of_fmap in He' as ([k p] & -> & _).
  - intros e [->|He']%elem_of_cons; [left|]. apply list_elem_of_fmap in He' as ([k p] & -> & Hin). simpl.
    apply (derived_known c k (key_of s) ds); [done|done|]. apply list_elem_of_fmap. by exists (k, p).
  - intros s' Hne. by rewrite lookup_insert_ne.
  - split.
    + intros kind r Hk _ [Hr Hd]. apply Hdead in Hr; [congruence|done].
    + intros r g [Hr Hd]. apply Hdead in Hr; [congruence|done].
    + intros kind r _ Hall. specialize (Hall FILE _ (Hfile _)). done.
    + cbn [c_files with_files]. rewrite lookup_insert_eq, He. cbn [String.eqb]. eexists _, f. split; [split; [apply Hfile|done]|].
      split_and!; [done|exact Hf|by rewrite Hsz|by rewrite Hm].
Qed.
(** The same bytes under new metadata: every answer again, after the record. *)
Lemma inv_upsert_meta c s f row was ds :
  derived_list c (key_of s) ds -> cat_inv c -> nul_free (fst s) -> f_source f = Some s -> c_files c !! s = Some was -> r_error was = "" ->
  r_error row = "" -> r_size row = as_i64 (f_size f) -> r_mtime row = f_mtime f ->
  cat_inv (with_files
    (log c (((FILE, key_of s), FileUpsert (c_name c) [f], false) :: renewed (key_of s) ds))
    (<[s := row]> (c_files c))).
Proof.
  intros Hl Hc Hs Hf Hwas Hwe He Hsz Hm. pose proof (ci_file _ Hc s Hs) as Hk.
  destruct (row_live c s was Hk Hwas ltac:(by rewrite Hwe)) as (r0 & f0 & Hr0 & _).
  set (u := ((FILE, key_of s), FileUpsert (c_name c) [f], false)).
  set (l := u :: renewed (key_of s) ds).
  assert (NoDup (map entry_id l)) as Hnd.
  { simpl. rewrite renewed_ids. apply NoDup_cons. split; [|by apply (derived_ids_nodup c)].
    intros H%in_ids. by apply (file_not_derived c _ _ Hl) in H. }
  assert (forall files, c_records (with_files (log c l) files) !! (FILE, key_of s)
                        = Some (mkRec (c_current c + 1) (FileUpsert (c_name c) [f]) false)) as Hfile.
  { intros files. simpl. rewrite log_all_other by (by simpl in Hnd; apply NoDup_cons in Hnd as [Hn _]).
    by rewrite lookup_insert_eq. }
  assert (forall files kind r, kind <> FILE -> rec_live (with_files (log c l) files) kind (key_of s) r ->
    kind <> FILE_ERROR /\ c_current c + 1 < rc_version r) as Hlive.
  { intros files kind r Hkd [Hr Hd]. simpl in Hr.
    change (log_all (c_current c) (c_records c) l !! (kind, key_of s) = Some r) in Hr.
    apply log_all_inv in Hr as [[Hni Hr]|(i & p & d & Hi & ->)].
    - exfalso. apply Hni. right. rewrite renewed_ids. apply in_ids. by apply (live_derived c kind (key_of s) r ds).
    - destruct i as [|i]; [simpl in Hi; by injection Hi as <- _ _|]. simpl in Hi. split; [|simpl; lia].
      intros ->. apply list_elem_of_lookup_2 in Hi. apply list_elem_of_fmap in Hi as ([k q] & [= <- _ _] & Hin).
      apply (proj2 Hl) in Hin as (_ & r & Hr & _). by apply (live_exclusive c s r r0). }
  apply (inv_log c l _ s); [done|done| | |done| |].
  - intros e [->|He']%elem_of_cons; [done|]. by apply list_elem_of_fmap in He' as ([k p] & -> & _).
  - intros e [->|He']%elem_of_cons; [left|]. apply list_elem_of_fmap in He' as ([k p] & -> & Hin). simpl.
    apply (derived_known c k (key_of s) ds); [done|done|]. apply list_elem_of_fmap. by exists (k, p).
  - intros s' Hne. by rewrite lookup_insert_ne.
  - split.
    + intros kind r Hkd _ Hr. apply Hlive in Hr as [_ Hv]; [|done]. eexists. split; [split; [apply Hfile|done]|]. done.
    + intros r g Hr. by apply Hlive in Hr as [[] _].
    + intros kind r _ Hall. specialize (Hall FILE _ (Hfile _)). done.
    + cbn [c_files with_files]. rewrite lookup_insert_eq, He. cbn [String.eqb]. eexists _, f. split; [split; [apply Hfile|done]|].
      split_and!; [done|exact Hf|by rewrite Hsz|by rewrite Hm].
Qed.

(** An inspection that fails for a source that was playable. *)
Lemma inv_error_live c s row was text ds :
  derived_list c (key_of s) ds -> cat_inv c -> nul_free (fst s) -> c_files c !! s = Some was -> r_error was = "" -> r_error row <> "" ->
  cat_inv (with_files
    (log c (((FILE, key_of s), NoPayload, true) :: tombs (key_of s) ds
            ++ [((FILE_ERROR, key_of s), FileError (c_name c) (Some s) text, false)]))
    (<[s := row]> (c_files c))).
Proof.
  intros Hl Hc Hs Hwas Hwe He. pose proof (ci_file _ Hc s Hs) as Hk.
  destruct (row_live c s was Hk Hwas ltac:(by rewrite Hwe)) as (r0 & f0 & Hr0 & _).
  set (u := ((FILE, key_of s), NoPayload, true)).
  set (x := ((FILE_ERROR, key_of s), FileError (c_name c) (Some s) text, false)).
  set (l := u :: tombs (key_of s) ds ++ [x]).
  assert (FILE_ERROR ∉ map fst ds) as Hnerr.
  { intros ([k p] & Hkk & (_ & r & Hr & _)%(proj2 Hl))%list_elem_of_fmap. simpl in Hkk. subst k.
    by apply (live_exclusive c s r r0). }
  assert (map entry_id l = (FILE, key_of s) :: map (fun k => (k, key_of s)) (map fst ds)
                           ++ [(FILE_ERROR, key_of s)]) as Hids.
  { unfold l. cbn [map]. rewrite map_app, tombs_ids. done. }
  assert (NoDup (map entry_id l)) as Hnd.
  { rewrite Hids. apply NoDup_cons. split.
    - rewrite elem_of_app, in_ids, list_elem_of_singleton. intros [H|H]; [by apply (file_not_derived c _ _ Hl) in H|done].
    - apply NoDup_app. split_and!; [by apply (derived_ids_nodup c)| |apply NoDup_singleton].
      intros i Hin Hi%list_elem_of_singleton. subst i. by apply in_ids in Hin. }
  assert (forall files, c_records (with_files (log c l) files) !! (FILE, key_of s)
                        = Some (mkRec (c_current c + 1) NoPayload true)) as Hfile.
  { intros files. simpl. rewrite log_all_other.
    - by rewrite lookup_insert_eq.
    - rewrite Hids in Hnd. apply NoDup_cons in Hnd as [Hn _]. by rewrite map_app, tombs_ids. }
  assert (forall files, exists v, c_records (with_files (log c l) files) !! (FILE_ERROR, key_of s)
                        = Some (mkRec v (FileError (c_name c) (Some s) text) false) /\ c_current c + 1 < v) as Herr.
  { intros files. eexists. split.
    - apply (log_all_entry _ _ l (S (length (tombs (key_of s) ds)))); [done|].
      simpl. rewrite lookup_app_r by lia. by rewrite Nat.sub_diag.
    - lia. }
  assert (forall files kind r, kind <> FILE -> kind <> FILE_ERROR ->
    c_records (with_files (log c l) files) !! (kind, key_of s) = Some r -> rc_deleted r = true) as Hdead.
  { intros files kind r Hk1 Hk2 Hr. apply (dead_after c (key_of s) ds [u] [x] kind r files); [done|done| |exact Hr].
    simpl. rewrite !not_elem_of_cons. split_and!; [| |apply not_elem_of_nil]; intros H; apply (f_equal fst) in H; by simpl in H. }
  apply (inv_log c l _ s); [done|done| | |done| |].
  - intros e He'. apply elem_of_cons in He' as [->|He']; [done|]. apply elem_of_app in He' as [He'|He'].
    + by apply list_elem_of_fmap in He' as ([k p] & -> & _).
    + by apply list_elem_of_singleton in He' as ->.
  - intros e He'. apply elem_of_cons in He' as [->|He']; [left|]. apply elem_of_app in He' as [He'|He'].
    + apply list_elem_of_fmap in He' as ([k p] & -> & Hin). simpl.
      apply (derived_known c k (key_of s) ds); [done|done|]. apply list_elem_of_fmap. by exists (k, p).
    + apply list_elem_of_singleton in He' as ->. right. left.
  - intros s' Hne. by rewrite lookup_insert_ne.
  - split.
    + intros kind r Hk1 Hk2 [Hr Hd]. apply Hdead in Hr; [congruence|done|done].
    + intros r g [Hr Hd] Hg. rewrite Hfile in Hg. injection Hg as <-. split; [done|].
      destruct (Herr (<[s := row]> (c_files c))) as (v & Hv & Hlt). rewrite Hv in Hr. injection Hr as <-. done.
    + intros kind r _ Hall. destruct (Herr (<[s := row]> (c_files c))) as (v & Hv & _). by specialize (Hall _ _ Hv).
    + cbn [c_files with_files]. rewrite lookup_insert_eq. apply String.eqb_neq in He. rewrite He.
      destruct (Herr (<[s := row]> (c_files c))) as (v & Hv & _). eexists. by split.
Qed.
(** One that fails for a source that was not: new, or known with another error. *)
Lemma inv_error_again c s row text :
  cat_inv c -> nul_free (fst s) ->
  match c_files c !! s with Some was => r_error was <> "" | None => True end -> r_error row <> "" ->
  cat_inv (with_files (log c [((FILE_ERROR, key_of s), FileError (c_name c) (Some s) text, false)])
                      (<[s := row]> (c_files c))).
Proof.
  intros Hc Hs Hwas He. pose proof (ci_file _ Hc s Hs) as Hk.
  assert (forall kind r, kind <> FILE_ERROR -> c_records c !! (kind, key_of s) = Some r -> rc_deleted r = true) as Hdead.
  { intros kind r Hne Hr. destruct (rc_deleted r) eqn:Hd; [done|]. pose proof (ki_row _ _ Hk) as Hrow.
    destruct (c_files c !! s) as [was|]; [|by rewrite (Hrow _ _ Hr) in Hd].
    apply String.eqb_neq in Hwas. rewrite Hwas in Hrow. destruct Hrow as (e & He').
    assert (exists f, rec_live c FILE (key_of s) f) as (f & Hf).
    { destruct (decide (kind = FILE)) as [->|Hnf]; [by exists r|].
      destruct (ki_fact _ _ Hk kind r Hnf Hne (conj Hr Hd)) as (f & Hf & _). by exists f. }
    by destruct (live_exclusive c s e f Hk He' Hf). }
  set (x := ((FILE_ERROR, key_of s), FileError (c_name c) (Some s) text, false)).
  assert (forall files kind, kind <> FILE_ERROR ->
    c_records (with_files (log c [x]) files) !! (kind, key_of s) = c_records c !! (kind, key_of s)) as Hother.
  { intros files kind Hne. simpl. rewrite lookup_insert_ne; [done|]. congruence. }
  assert (forall files, c_records (with_files (log c [x]) files) !! (FILE_ERROR, key_of s)
    = Some (mkRec (c_current c + 1) (FileError (c_name c) (Some s) text) false)) as Herr.
  { intros files. simpl. by rewrite lookup_insert_eq. }
  apply (inv_log c [x] _ s); [done|done| | | | |].
  - by intros e ->%list_elem_of_singleton.
  - intros e ->%list_elem_of_singleton. right. left.
  - apply NoDup_singleton.
  - intros s' Hne. by rewrite lookup_insert_ne.
  - split.
    + intros kind r Hk1 Hk2 [Hr Hd]. rewrite Hother in Hr by done. rewrite (Hdead _ _ Hk2 Hr) in Hd. done.
    + intros r g [Hr Hd] Hg. rewrite Hother in Hg by done. split; [by apply (Hdead FILE g)|].
      rewrite Herr in Hr. injection Hr as <-. apply (ci_version _ Hc) in Hg. simpl. lia.
    + intros kind r _ Hall. by specialize (Hall _ _ (Herr _)).
    + cbn [c_files with_files]. rewrite lookup_insert_eq. apply String.eqb_neq in He. rewrite He.
      eexists. split; [apply Herr|done].
Qed.
Lemma inv_removed c s ds :
  derived_list c (key_of s) ds -> cat_inv c -> nul_free (fst s) ->
  cat_inv (with_files (log c (tombs (key_of s) ds ++ [((FILE, key_of s), NoPayload, true)]))
                      (delete s (c_files c))).
Proof.
  intros Hl Hc Hs. set (x := ((FILE, key_of s), NoPayload, true)).
  set (l := tombs (key_of s) ds ++ [x]).
  assert (map entry_id l = map (fun k => (k, key_of s)) (map fst ds) ++ [(FILE, key_of s)]) as Hids.
  { unfold l. rewrite map_app, tombs_ids. done. }
  assert (NoDup (map entry_id l)) as Hnd.
  { rewrite Hids. apply NoDup_app. split_and!; [by apply (derived_ids_nodup c)| |apply NoDup_singleton].
    intros i Hin Hi%list_elem_of_singleton. subst i. apply in_ids in Hin. by apply (file_not_derived c _ _ Hl) in Hin. }
  assert (forall files, c_records (with_files (log c l) files) !! (FILE, key_of s)
    = Some (mkRec (c_current (log c l)) NoPayload true)) as Hfile.
  { intros files. change (c_records (with_files (log c l) files)) with (log_all (c_current c) (c_records c) l).
    rewrite (log_all_entry _ _ l (length (tombs (key_of s) ds)) (FILE, key_of s) NoPayload true);
      [|done|unfold l; rewrite lookup_app_r by lia; by rewrite Nat.sub_diag].
    do 2 f_equal. unfold log, l. simpl. rewrite length_app. simpl. lia. }
  assert (forall files, all_dead (with_files (log c l) files) (key_of s)) as Hdead.
  { intros files kind r Hr. destruct (decide (kind = FILE)) as [->|Hne]; [rewrite Hfile in Hr; by injection Hr as <-|].
    apply (dead_after c (key_of s) ds [] [x] kind r files); [done|done| |exact Hr]. simpl. rewrite list_elem_of_singleton.
    intros H. apply (f_equal fst) in H. by simpl in H. }
  assert (forall id r, c_records (log c l) !! id = Some r -> rc_version r <= c_current (log c l)) as Hmax.
  { intros id r Hr. simpl in *. apply log_all_inv in Hr as [[_ Hr]|(i & p & d & Hi & ->)].
    - apply (ci_version _ Hc) in Hr. lia.
    - apply lookup_lt_Some in Hi. simpl. lia. }
  apply (inv_log c l _ s); [done|done| | |done| |].
  - intros e He'. apply elem_of_app in He' as [He'|He'].
    + by apply list_elem_of_fmap in He' as ([k p] & -> & _).
    + by apply list_elem_of_singleton in He' as ->.
  - intros e He'. apply elem_of_app in He' as [He'|He'].
    + apply list_elem_of_fmap in He' as ([k p] & -> & Hin). simpl.
      apply (derived_known c k (key_of s) ds); [done|done|]. apply list_elem_of_fmap. by exists (k, p).
    + apply list_elem_of_singleton in He' as ->. left.
  - intros s' Hne. by rewrite lookup_delete_ne.
  - split.
    + intros kind r _ _ [Hr Hd]. by rewrite (Hdead _ _ _ Hr) in Hd.
    + intros r g [Hr Hd]. by rewrite (Hdead _ _ _ Hr) in Hd.
    + intros kind r Hr _. eexists. split; [apply Hfile|]. by apply (Hmax (kind, key_of s)).
    + cbn [c_files with_files]. rewrite lookup_delete_eq. apply Hdead.
Qed.
(** An answer about a playable source. *)
Lemma inv_stored c s row kind p :
  cat_inv c -> nul_free (fst s) -> c_files c !! s = Some row -> r_error row = "" ->
  kind ∈ [HASHES; LOUDNESS; ATTACHMENTS; KEYFRAME; GEOMETRY; SEGMENTS] ->
  cat_inv (log c [((kind, key_of s), p, false)]).
Proof.
  intros Hc Hs Hrow He Hkind. pose proof (ci_file _ Hc s Hs) as Hk.
  destruct (row_live c s row Hk Hrow ltac:(by rewrite He)) as (r0 & f0 & Hr0 & Hrest).
  assert (kind <> FILE /\ kind <> FILE_ERROR) as [Hn1 Hn2].
  { split; intros ->; by repeat (apply elem_of_cons in Hkind as [Hkind|Hkind]; [done|]);
      apply elem_of_nil in Hkind. }
  set (x := ((kind, key_of s), p, false)).
  assert (forall kind', kind' <> kind ->
    c_records (log c [x]) !! (kind', key_of s) = c_records c !! (kind', key_of s)) as Hother.
  { intros kind' Hne. simpl. rewrite lookup_insert_ne; [done|]. congruence. }
  assert (rec_live (log c [x]) FILE (key_of s) r0) as Hr0' by (unfold rec_live; rewrite Hother; [exact Hr0|congruence]).
  replace (log c [x]) with (with_files (log c [x]) (c_files c)) by (by destruct c).
  apply (inv_log c [x] _ s); [done|done| | | |done|].
  - by intros e ->%list_elem_of_singleton.
  - intros e ->%list_elem_of_singleton. right. right. exact Hkind.
  - apply NoDup_singleton.
  - replace (with_files (log c [x]) (c_files c)) with (log c [x]) by (by destruct c). split.
    + intros kind' r Hk1 Hk2 [Hr Hd]. destruct (decide (kind' = kind)) as [->|Hne].
      * exists r0. split; [done|]. simpl in Hr. rewrite lookup_insert_eq in Hr. injection Hr as <-.
        destruct Hr0 as [Hr0 _]. apply (ci_version _ Hc) in Hr0. simpl. lia.
      * rewrite Hother in Hr by done. destruct (ki_fact _ _ Hk kind' r Hk1 Hk2 (conj Hr Hd)) as (f & [Hf Hfd] & Hlt).
        exists f. split; [|done]. unfold rec_live. rewrite Hother by congruence. done.
    + intros r g [Hr Hd] Hg. rewrite Hother in Hr, Hg by congruence. by apply (ki_error _ _ Hk r g).
    + intros kind' r _ Hall. destruct Hr0' as [Hr0' Hd]. by rewrite (Hall _ _ Hr0') in Hd.
    + change (c_files (log c [x])) with (c_files c). rewrite Hrow, He. exists r0, f0. by split.
Qed.
(** An answer that no longer holds. *)
Lemma inv_retired c kind key r :
  cat_inv c -> kind <> FILE -> kind <> FILE_ERROR -> rec_live c kind key r ->
  cat_inv (log c [((kind, key), NoPayload, true)]).
Proof.
  intros Hc Hn1 Hn2 [Hr Hd]. destruct (ci_key _ Hc _ _ _ Hr) as (s & Hs & ->). pose proof (ci_file _ Hc s Hs) as Hk.
  destruct (ki_fact _ _ Hk kind r Hn1 Hn2 (conj Hr Hd)) as (r0 & Hr0 & _).
  set (x := ((kind, key_of s), NoPayload, true)).
  assert (forall kind', kind' <> kind ->
    c_records (log c [x]) !! (kind', key_of s) = c_records c !! (kind', key_of s)) as Hother.
  { intros kind' Hne. simpl. rewrite lookup_insert_ne; [done|]. congruence. }
  assert (forall kind' r', rec_live (log c [x]) kind' (key_of s) r' <-> kind' <> kind /\ rec_live c kind' (key_of s) r') as Hlive.
  { intros kind' r'. unfold rec_live. destruct (decide (kind' = kind)) as [->|Hne].
    - simpl. rewrite lookup_insert_eq. split; [by intros [[= <-] ?]|by intros [? _]].
    - rewrite Hother by done. tauto. }
  assert (rec_live (log c [x]) FILE (key_of s) r0) as Hr0' by (apply Hlive; split; [congruence|done]).
  replace (log c [x]) with (with_files (log c [x]) (c_files c)) by (by destruct c).
  apply (inv_log c [x] _ s); [done|done| | | |done|].
  - by intros e ->%list_elem_of_singleton.
  - intros e ->%list_elem_of_singleton. by apply (ci_kind _ Hc) in Hr.
  - apply NoDup_singleton.
  - replace (with_files (log c [x]) (c_files c)) with (log c [x]) by (by destruct c). split.
    + intros kind' r' Hk1 Hk2 [Hne Hr']%Hlive. destruct (ki_fact _ _ Hk kind' r' Hk1 Hk2 Hr') as (f & Hf & Hlt).
      exists f. split; [|done]. apply Hlive. split; [congruence|done].
    + intros r' g [Hne Hr']%Hlive Hg. rewrite Hother in Hg by congruence. by apply (ki_error _ _ Hk r' g).
    + intros kind' r' _ Hall. destruct Hr0' as [Hr0' Hd0]. by rewrite (Hall _ _ Hr0') in Hd0.
    + change (c_files (log c [x])) with (c_files c). pose proof (ki_row _ _ Hk) as Hrow.
      destruct (c_files c !! s) as [row|].
      * destruct (r_error row =s "").
        -- destruct Hrow as (r1 & f1 & Hr1 & Hrest). exists r1, f1. split; [|done]. apply Hlive. split; [congruence|done].
        -- destruct Hrow as (r1 & Hr1). exists r1. apply Hlive. split; [congruence|done].
      * destruct Hr0 as [Hr0 Hd0]. by rewrite (Hrow _ _ Hr0) in Hd0.
Qed.

(** *** What an operation leaves *)

(** All of a catalogue but the leases, acknowledgements and scan marks. *)
Definition core_eq (a b : Catalog) : Prop :=
  c_name b = c_name a /\ c_epoch b = c_epoch a /\ c_oldest b = c_oldest a /\ c_current b = c_current a
  /\ c_records b = c_records a /\ c_files b = c_files a.
Lemma inv_core a b : core_eq a b -> cat_inv a -> cat_inv b.
Proof.
  intros (N & _ & _ & C & R & F) H. apply (inv_ext a); [done..| |done]. intros s. rewrite F. apply same_rows.
Qed.
Lemma evolves_core c a b : core_eq a b -> evolves c a -> evolves c b.
Proof. intros (N & E & O & C & R & _). unfold evolves. by rewrite N, E, O, C, R. Qed.
(** Subscribers know the current version. *)
Definition told (c : Catalog) : Prop := c_published c = c_current c.
Definition good_step (c c' : Catalog) : Prop :=
  evolves c c' /\ (cat_inv c -> cat_inv c') /\ (told c -> told c').

Lemma good_core c c' :
  core_eq c c' -> c_published c' = c_published c -> good_step c c'.
Proof.
  intros H Hp. split_and!.
  - apply (evolves_core _ c); [done|apply evolves_refl].
  - by apply inv_core.
  - unfold told. destruct H as (_ & _ & _ & -> & _). congruence.
Qed.
Lemma good_trans c1 c2 c3 : good_step c1 c2 -> good_step c2 c3 -> good_step c1 c3.
Proof. intros (E1 & I1 & T1) (E2 & I2 & T2). split_and!; [by eapply evolves_trans|auto|auto]. Qed.
Lemma good_alter c g s :
  (forall a, r_error (g a) = r_error a /\ r_size (g a) = r_size a /\ r_mtime (g a) = r_mtime a) ->
  good_step c (with_files c (alter g s (c_files c))).
Proof.
  intros Hg. split_and!; [by apply evolves_same| |done].
  apply inv_ext; [done..|]. intros s'. simpl. by apply altered_rows.
Qed.

Lemma core_trans a b c : core_eq a b -> core_eq b c -> core_eq a c.
Proof. intros (? & ? & ? & ? & ? & ?) (? & ? & ? & ? & ? & ?). split_and!; congruence. Qed.
Lemma log_published c l : c_published (log c l) = c_published c.
Proof. done. Qed.
Lemma last_version_log c d : unwrap_or (last_version c d) (c_current c) = c_current c + Z.of_nat (length d).
Proof. unfold last_version. destruct d; simpl; lia. Qed.

Lemma upsert_good c f generation music probed s :
  f_source f = Some s -> nul_free (fst s) -> good_step c (snd (upsert_file_inner c f generation music probed)).
Proof.
  intros Hf Hs. unfold upsert_file_inner. rewrite Hf.
  destruct (is_some_and _ (c_files c !! s) && _) eqn:Hun; [by apply good_alter|].
  unfold next_version. cbv zeta. cbv beta iota. fold (key_of s).
  set (row := mkRow (as_i64 (f_size f)) _ _ _ _ _ _ (c_current c + 1) _ _ _).
  set (u := ((FILE, key_of s), FileUpsert (c_name c) [f], false)).
  set (c1 := put_record _ _ _ _ _ _).
  assert (c1 = with_files (log c [u]) (<[s := row]> (c_files c))) as Hc1 by reflexivity.
  assert (forall c2, core_eq c1 c2 -> derived_list c (key_of s) (derived_kinds c2 (key_of s))) as Hds.
  { intros c2 (_ & _ & _ & _ & HR & _). apply (derived_list_ext c c2); [|apply derived_kinds_list].
    intros kind Hk. rewrite HR, Hc1. simpl. rewrite lookup_insert_ne; [done|]. congruence. }
  destruct (is_none_or _ (c_files c !! s)) eqn:Hrev.
  - rewrite tombstone_log. set (ds := derived_kinds c1 (key_of s)).
    specialize (Hds c1 ltac:(by split_and!)). fold ds in Hds. cbn [snd].
    assert (core_eq (with_files (log c (u :: tombs (key_of s) ds)) (<[s := row]> (c_files c)))
              (publish_version (settle_jobs (log c1 (tombs (key_of s) ds)) s) (unwrap_or (last_version c1 ds) (c_current c + 1)) false))
      as Hcore.
    { rewrite Hc1. unfold core_eq. simpl. split_and!; try done. lia. }
    split_and!.
    + eapply evolves_core; [exact Hcore|]. apply (evolves_trans _ (log c (u :: tombs (key_of s) ds))); [apply evolves_log|].
      by apply evolves_same.
    + intros Hc. eapply inv_core; [exact Hcore|]. by apply inv_upsert_new.
    + unfold told. intros Ht. pose proof (last_version_log c1 ds) as Hlv. change (c_current c1) with (c_current c + 1) in Hlv.
      change (Z.max (c_published c) (unwrap_or (last_version c1 ds) (c_current c + 1))
              = c_current c + 1 + Z.of_nat (length (tombs (key_of s) ds))).
      unfold tombs. rewrite length_map, Hlv, Ht. lia.
  - destruct (c_files c !! s) as [was|] eqn:Hwas; [|done]. rewrite reversion_log.
    set (c2 := carry_jobs _ _ _ _). set (ds := derived_kinds c2 (key_of s)).
    assert (core_eq c1 c2) as Hc12 by by split_and!.
    specialize (Hds c2 Hc12). fold ds in Hds. cbn [snd].
    assert (core_eq (with_files (log c (u :: renewed (key_of s) ds)) (<[s := row]> (c_files c)))
              (publish_version (log c2 (renewed (key_of s) ds)) (unwrap_or (last_version c2 ds) (c_current c + 1)) false))
      as Hcore.
    { unfold core_eq. simpl. split_and!; try done. lia. }
    split_and!.
    + eapply evolves_core; [exact Hcore|]. apply (evolves_trans _ (log c (u :: renewed (key_of s) ds))); [apply evolves_log|].
      by apply evolves_same.
    + intros Hc. eapply inv_core; [exact Hcore|]. apply (inv_upsert_meta c s f row was); try done.
      apply negb_false_iff in Hrev. unfold same_bytes in Hrev.
      repeat (apply andb_true_iff in Hrev as [Hrev _]). by apply String.eqb_eq.
    + unfold told. intros Ht. pose proof (last_version_log c2 ds) as Hlv. change (c_current c2) with (c_current c + 1) in Hlv.
      change (Z.max (c_published c) (unwrap_or (last_version c2 ds) (c_current c + 1))
              = c_current c + 1 + Z.of_nat (length (renewed (key_of s) ds))).
      unfold renewed. rewrite length_map, Hlv, Ht. lia.
Qed.

Lemma record_error_good c s text generation :
  nul_free (fst s) -> text <> "" -> good_step c (snd (record_error c s text generation)).
Proof.
  intros Hs Htext. unfold record_error. fold (key_of s).
  destruct (opt_filter _ (c_files c !! s)) as [row|] eqn:Hsame; [by apply good_alter|].
  assert (match c_files c !! s with Some was => r_error was <> text | None => True end) as Hdiff.
  { destruct (c_files c !! s) as [was|] eqn:E; [|done]. simpl in Hsame.
    destruct (r_error was =s text) eqn:E2; [done|]. by apply String.eqb_neq. }
  clear Hsame.
  set (x := ((FILE_ERROR, key_of s), FileError (c_name c) (Some s) text, false)).
  destruct (is_some_and _ (c_files c !! s)) eqn:Hlive.
  - destruct (c_files c !! s) as [was|] eqn:Hwas; [|done]. simpl in Hlive. apply String.eqb_eq in Hlive.
    rewrite put_next_log. cbv beta iota zeta. rewrite tombstone_log. cbv beta iota zeta.
    set (u := ((FILE, key_of s), NoPayload, true)). set (c1 := log c [u]).
    set (ds := derived_kinds c1 (key_of s)).
    assert (derived_list c (key_of s) ds) as Hds.
    { apply (derived_list_ext c c1); [|apply derived_kinds_list]. intros kind Hk. simpl.
      rewrite lookup_insert_ne; [done|]. congruence. }
    unfold next_version. cbv beta iota zeta. cbn [snd].
    set (row := mkRow _ _ _ _ _ _ generation _ text _ _).
    match goal with |- good_step c ?c' =>
      assert (core_eq (with_files (log c (u :: tombs (key_of s) ds ++ [x])) (<[s := row]> (c_files c))) c') as Hcore end.
    { unfold core_eq. simpl. rewrite log_all_app. simpl. rewrite length_app. simpl.
      split_and!; try done; lia. }
    split_and!.
    + eapply evolves_core; [exact Hcore|]. apply (evolves_trans _ (log c (u :: tombs (key_of s) ds ++ [x]))); [apply evolves_log|].
      by apply evolves_same.
    + intros Hc. eapply inv_core; [exact Hcore|]. by apply (inv_error_live c s row was text).
    + unfold told. simpl. intros Ht. lia.
  - unfold next_version. cbv beta iota zeta. cbn [snd].
    assert (forall row : FileRow, r_error row = text -> good_step c
      (publish_version (put_record (with_files (with_current c (c_current c + 1)) (<[s := row]> (c_files (with_current c (c_current c + 1)))))
         FILE_ERROR (key_of s) (c_current c + 1) (FileError (c_name (with_files (with_current c (c_current c + 1)) (<[s := row]> (c_files (with_current c (c_current c + 1)))))) (Some s) text) false)
         (c_current c + 1) false)) as Hgen.
    { intros row Hrow.
      match goal with |- good_step c ?c' =>
        assert (core_eq (with_files (log c [x]) (<[s := row]> (c_files c))) c') as Hcore end.
      { unfold core_eq. simpl. split_and!; done. }
      split_and!.
      + eapply evolves_core; [exact Hcore|]. apply (evolves_trans _ (log c [x])); [apply evolves_log|]. by apply evolves_same.
      + intros Hc. eapply inv_core; [exact Hcore|]. apply (inv_error_again c s row text); [done|done| |congruence].
        destruct (c_files c !! s) as [was|]; [|done]. simpl in Hlive. by apply String.eqb_neq in Hlive.
      + unfold told. simpl. intros Ht. lia. }
    apply Hgen. by destruct (c_files c !! s).
Qed.

Lemma remove_file_log c s :
  exists ds, derived_list c (key_of s) ds
    /\ remove_file c s = (c_current (log c (tombs (key_of s) ds ++ [((FILE, key_of s), NoPayload, true)])),
        with_files (log c (tombs (key_of s) ds ++ [((FILE, key_of s), NoPayload, true)])) (delete s (c_files c))).
Proof.
  exists (derived_kinds c (key_of s)). split; [apply derived_kinds_list|]. unfold remove_file. fold (key_of s).
  rewrite tombstone_log. unfold next_version. cbv beta iota zeta.
  set (l := tombs (key_of s) (derived_kinds c (key_of s))).
  unfold log at 3 4, put_record, with_files, with_records, with_current. simpl.
  rewrite length_app, log_all_app. simpl. f_equal; [lia|]. f_equal. lia.
Qed.
Lemma remove_file_good c s :
  nul_free (fst s) ->
  evolves c (snd (remove_file c s)) /\ (cat_inv c -> cat_inv (snd (remove_file c s)))
  /\ c_published (snd (remove_file c s)) = c_published c /\ fst (remove_file c s) = c_current (snd (remove_file c s)).
Proof.
  intros Hs. destruct (remove_file_log c s) as (ds & Hds & ->). cbn [fst snd]. split_and!; [| |done|done].
  - eapply evolves_trans; [apply evolves_log|]. by apply evolves_same.
  - intros Hc. by apply inv_removed.
Qed.
Lemma remove_files_good c sources :
  (forall s, s ∈ sources -> nul_free (fst s)) ->
  let '(o, c') := remove_files c sources in
  evolves c c' /\ (cat_inv c -> cat_inv c') /\ c_published c' = c_published c
  /\ (o = None /\ c' = c \/ o = Some (c_current c')).
Proof.
  unfold remove_files. intros Hs.
  enough (forall o c0, (o = None \/ o = Some (c_current c0)) ->
    let '(o', c') := fold_left (fun '(_, c) source => let '(v, c) := remove_file c source in (Some v, c)) sources (o, c0) in
    evolves c0 c' /\ (cat_inv c0 -> cat_inv c') /\ c_published c' = c_published c0
    /\ (o' = o /\ c' = c0 \/ o' = Some (c_current c'))) as H.
  { specialize (H None c (or_introl eq_refl)). destruct (fold_left _ _ _) as [o c']. exact H. }
  induction sources as [|s sources IH]; intros o c0 Ho; cbn [fold_left].
  - split_and!; [apply evolves_refl|done|done|by left].
  - destruct (remove_file_good c0 s) as (He & Hi & Hp & Hv); [apply Hs; left|].
    destruct (remove_file c0 s) as [v c1]. cbn [fst snd] in *. subst v.
    specialize (IH ltac:(intros s' Hs'; apply Hs; by right) (Some (c_current c1)) c1 (or_intror eq_refl)).
    destruct (fold_left _ sources _) as [o' c']. destruct IH as (He' & Hi' & Hp' & Ho'). split_and!.
    + by eapply evolves_trans.
    + auto.
    + congruence.
    + right. destruct Ho' as [[Ha Hb]|Ha]; [by subst|done].
Qed.
(** A sweep under a version told to subscribers once it is done. *)
Lemma swept_good c sources :
  (cat_inv c -> forall s, s ∈ sources -> nul_free (fst s)) ->
  evolves c (snd (remove_files c sources)) /\ (cat_inv c -> cat_inv (snd (remove_files c sources)))
  /\ c_published (snd (remove_files c sources)) = c_published c
  /\ (fst (remove_files c sources) = None /\ snd (remove_files c sources) = c
      \/ fst (remove_files c sources) = Some (c_current (snd (remove_files c sources)))).
Proof.
  intros Hs. pose proof (remove_files_good c sources) as H.
  assert (forall ss o c0, let '(o', c') := fold_left (fun '(_, c) source => let '(v, c) := remove_file c source in (Some v, c)) ss (o, c0) in
    evolves c0 c' /\ c_published c' = c_published c0 /\ (o' = o /\ c' = c0 \/ o' = Some (c_current c'))) as Hgen.
  { intros ss. induction ss as [|s ss IH]; intros o c0; cbn [fold_left]; [split_and!; [apply evolves_refl|done|by left]|].
    destruct (remove_file_log c0 s) as (ds & _ & E). rewrite E. set (c1 := with_files _ _).
    specialize (IH (Some (c_current (log c0 (tombs (key_of s) ds ++ [(FILE, key_of s, NoPayload, true)])))) c1).
    destruct (fold_left _ ss _) as [o' c']. destruct IH as (He & Hp & Ho). split_and!.
    - eapply evolves_trans; [|exact He]. apply (evolves_trans _ (log c0 (tombs (key_of s) ds ++ [(FILE, key_of s, NoPayload, true)])));
        [apply evolves_log|by apply evolves_same].
    - by rewrite Hp.
    - right. destruct Ho as [[-> ->]|Ho]; [done|done]. }
  specialize (Hgen sources None c). unfold remove_files in *.
  destruct (fold_left _ sources (None, c)) as [o c']. cbn [fst snd]. destruct Hgen as (He & Hp & Ho).
  split_and!; [done| |done|done]. intros Hc. destruct (H (Hs Hc)) as (_ & Hi & _). auto.
Qed.
Lemma file_sources_nul_free c s : cat_inv c -> s ∈ map fst (map_to_list (c_files c)) -> nul_free (fst s).
Proof. intros Hc ([s' row] & -> & Hin%elem_of_map_to_list)%list_elem_of_fmap. by apply (ci_root _ Hc _ row). Qed.
Lemma filter_elem {A} (P : A -> bool) l x : x ∈ List.filter P l -> x ∈ l /\ P x = true.
Proof. intros H. apply list_elem_of_In, filter_In in H as [H ?]. by apply list_elem_of_In in H. Qed.

Lemma reconcile_good c root present : good_step c (reconcile_root c root present).
Proof.
  unfold reconcile_root. set (absent := List.filter _ _).
  destruct (swept_good c absent) as (He & Hi & Hp & Ho).
  { intros Hc s Hin. apply filter_elem in Hin as [Hin _]. by apply (file_sources_nul_free c). }
  destruct (remove_files c absent) as [o c']. cbn [fst snd] in *. destruct Ho as [[-> ->]| ->].
  - split_and!; [apply evolves_refl|done|done].
  - split_and!.
    + by apply (evolves_core _ c').
    + intros Hc. apply (inv_core c'); [done|auto].
    + unfold told. simpl. intros Ht. destruct He as (_ & _ & _ & Hcur & _). rewrite Hp, Ht. lia.
Qed.
Lemma finish_good c generation retained : good_step c (snd (finish_scan c generation retained)).
Proof.
  unfold finish_scan. set (stale := List.filter _ _). destruct (swept_good c (map fst stale)) as (He & Hi & Hp & _).
  { intros Hc s Hin. apply list_elem_of_fmap in Hin as (x & -> & Hin). apply filter_elem in Hin as [Hin _].
    apply (file_sources_nul_free c); [done|]. apply list_elem_of_fmap. by exists x. }
  destruct (remove_files c (map fst stale)) as [o c']. cbn [fst snd] in *. split_and!.
  - by apply (evolves_core _ c').
  - intros Hc. apply (inv_core c'); [done|auto].
  - unfold told. simpl. intros Ht. destruct He as (_ & _ & _ & Hcur & _). rewrite Hp, Ht. lia.
Qed.

Lemma store_source_good c kind s p size mtime :
  kind ∈ [HASHES; LOUDNESS; ATTACHMENTS; KEYFRAME; GEOMETRY; SEGMENTS] ->
  good_step c (snd (store_source_fact c kind s p size mtime)).
Proof.
  intros Hkind. unfold store_source_fact. cbv zeta.
  assert (good_step c (with_jobs c (delete (kind, s) (c_jobs c)))) as Hdrop by (apply good_core; [by split_and!|done]).
  destruct (c_files c !! s) as [row|] eqn:Hrow; [|done]. unfold mbind, option_bind. cbn [opt_filter].
  destruct (r_error row =s "") eqn:He; [|done]. apply String.eqb_eq in He.
  destruct (negb _); [done|]. destruct (_ || _); [done|].
  unfold put_next, next_version. cbn [snd]. fold (key_of s).
  match goal with |- good_step c ?c' => assert (core_eq (log c [((kind, key_of s), p, false)]) c') as Hcore by (by split_and!) end.
  split_and!.
  - eapply evolves_core; [exact Hcore|apply evolves_log].
  - intros Hc. eapply inv_core; [exact Hcore|]. apply (inv_stored c s row); try done. by apply (ci_root _ Hc s row).
  - unfold told. simpl. lia.
Qed.
Lemma good_refl c : good_step c c.
Proof. split_and!; [apply evolves_refl|done|done]. Qed.
Lemma store_answer_good c kind a size mtime :
  kind ∈ [HASHES; LOUDNESS; ATTACHMENTS; KEYFRAME; GEOMETRY; SEGMENTS] -> good_step c (snd (store_answer c kind a size mtime)).
Proof.
  intros Hkind. unfold store_answer. destruct (a_source a) as [s|]; [|apply good_refl].
  pose proof (store_source_good c kind s (FactOf kind (c_name c) [a]) size mtime Hkind).
  by destruct (store_source_fact _ _ _ _ _ _) as [[v|e] c'].
Qed.
Lemma release_good c kind sources : good_step c (release_claims c kind sources).
Proof.
  unfold release_claims. revert c. induction sources as [|s sources IH]; intros c; cbn [fold_left]; [apply good_refl|].
  destruct (job_running c kind s); [|apply IH]. eapply good_trans; [|apply IH]. apply good_core; [by split_and!|done].
Qed.
Definition fact_kind_ok (m : FactMessage) : Prop :=
  match m with FileFact kind _ => kind ∈ [ATTACHMENTS; KEYFRAME; GEOMETRY] | _ => True end.
Lemma store_fact_good c m : fact_kind_ok m -> good_step c (snd (store_fact c m)).
Proof.
  destruct m as [answers|kind a|a|answers]; intros Hm; cbn [store_fact].
  - clear Hm. generalize (None : option StoreError). revert c. induction answers as [|a answers IH]; intros c o; cbn [store_hashes]; [apply good_refl|].
    pose proof (store_answer_good c HASHES a (then_some (a_error a =s "") (a_size a)) None ltac:(left)) as Hg.
    destruct (store_answer _ _ _ _ _) as [[e|] c']; cbn [snd] in Hg; [|eapply good_trans; [done|apply IH]].
    destruct (is_stale e); [eapply good_trans; [done|apply IH]|done].
  - apply store_answer_good. cbn [fact_kind_ok] in Hm. right. right.
    apply (elem_of_app [ATTACHMENTS; KEYFRAME; GEOMETRY] [SEGMENTS]). by left.
  - apply store_answer_good. right. left.
  - clear Hm. revert c. induction answers as [|[a retryable] answers IH]; intros c; cbn [store_segments]; [apply good_refl|].
    destruct retryable.
    + eapply good_trans; [|apply IH]. destruct (a_source a); [apply release_good|apply good_refl].
    + pose proof (store_answer_good c SEGMENTS a (Some (a_size a)) (Some (a_mtime a)) ltac:(by do 5 right; left)) as Hg.
      destruct (store_answer _ _ _ _ _) as [[e|] c']; cbn [snd] in Hg; [|eapply good_trans; [done|apply IH]].
      destruct (is_stale e); [eapply good_trans; [done|apply IH]|done].
Qed.

Lemma generation_good c kind same :
  kind <> FILE -> kind <> FILE_ERROR ->
  evolves c (ensure_discovery_generation c kind same) /\ (cat_inv c -> cat_inv (ensure_discovery_generation c kind same)).
Proof.
  intros Hk1 Hk2. unfold ensure_discovery_generation. destruct same; [split; [apply evolves_refl|done]|]. cbv zeta.
  set (keys := omap _ _).
  assert (NoDup keys) as Hnd.
  { unfold keys. pose proof (NoDup_fst_map_to_list (c_records c)) as Hnd.
    induction (map_to_list (c_records c)) as [|[[k key] r] l IH]; [constructor|].
    cbn in Hnd. apply NoDup_cons in Hnd as [Hn Hnd]. specialize (IH Hnd). cbn [omap list_omap].
    destruct ((k =s kind) && _) eqn:E; [|done]. cbn. apply NoDup_cons. split; [|done].
    apply andb_true_iff in E as [->%String.eqb_eq _]. intros Hin. apply Hn.
    apply list_elem_of_omap in Hin as ([[k2 key2] r2] & Hin2 & Hr2).
    destruct ((k2 =s kind) && _) eqn:E2; [|done]. cbn in Hr2. injection Hr2 as ->.
    apply andb_true_iff in E2 as [->%String.eqb_eq _]. apply list_elem_of_fmap. by exists ((kind, key), r2). }
  assert (forall key, key ∈ keys -> exists r, rec_live c kind key r) as Hlive.
  { intros key Hin. unfold keys in Hin. apply list_elem_of_omap in Hin as ([[k2 key2] r2] & Hin & Hr).
    destruct ((k2 =s kind) && negb (rc_deleted r2)) eqn:E; [|done]. cbn in Hr. injection Hr as ->.
    apply andb_true_iff in E as [->%String.eqb_eq Hd%negb_true_iff]. exists r2. split; [|done]. by apply elem_of_map_to_list in Hin. }
  clearbody keys.
  assert (evolves c (fold_left (fun c key => snd (put_next c kind key NoPayload true)) keys c)
          /\ (cat_inv c -> cat_inv (fold_left (fun c key => snd (put_next c kind key NoPayload true)) keys c))) as [He Hi].
  { revert c Hlive. induction keys as [|key keys IH]; intros c Hlive; cbn [fold_left]; [split; [apply evolves_refl|done]|].
    apply NoDup_cons in Hnd as [Hn Hnd]. rewrite put_next_log. cbn [snd].
    destruct (IH Hnd (log c [((kind, key), NoPayload, true)])) as [He Hi].
    { intros key' Hin. destruct (Hlive key' ltac:(by right)) as (r & Hr & Hd). exists r. split; [|done]. simpl.
      rewrite lookup_insert_ne; [done|]. intros [= ->]. done. }
    split; [eapply evolves_trans; [apply evolves_log|exact He]|]. intros Hc. apply Hi.
    destruct (Hlive key ltac:(left)) as (r & Hr). by apply (inv_retired c kind key r). }
  split; [by eapply evolves_core; [|exact He]|]. intros Hc. by eapply inv_core; [|by apply Hi].
Qed.
Lemma reopen_good c same_loudness same_segments : good_step c (reopen c same_loudness same_segments).
Proof.
  unfold reopen. cbv zeta. set (c0 := with_jobs c _).
  assert (good_step c c0) as (E0 & I0 & _) by (apply good_core; [by split_and!|done]).
  destruct (generation_good c0 LOUDNESS same_loudness) as [E1 I1]; [done..|].
  set (c1 := ensure_discovery_generation c0 LOUDNESS same_loudness) in *.
  set (c2 := match same_segments with Some same => ensure_discovery_generation c1 SEGMENTS same | None => c1 end).
  assert (evolves c1 c2 /\ (cat_inv c1 -> cat_inv c2)) as [E2 I2].
  { subst c2. destruct same_segments as [same|]; [by apply generation_good|]. split; [apply evolves_refl|done]. }
  split_and!.
  - apply (evolves_core _ c2); [by split_and!|]. eapply evolves_trans; [exact E0|]. by eapply evolves_trans.
  - intros Hc. apply (inv_core c2); [by split_and!|auto].
  - done.
Qed.
Lemma baseline_good {json : MediaJson} c root baselines : good_step c (baseline_sidecars c root baselines).
Proof.
  unfold baseline_sidecars. revert c. induction baselines as [|[path revision] l IH]; intros c; cbn [fold_left]; [apply good_refl|].
  eapply good_trans; [|apply IH]. apply good_alter. intros a. by destruct (_ && _).
Qed.
Lemma claim_rows_good c kind rows : good_step c (snd (claim_rows c kind rows)).
Proof.
  unfold claim_rows. cbn [snd]. revert c. induction rows as [|[s row] rows IH]; intros c; cbn [fold_left]; [apply good_refl|].
  eapply good_trans; [|apply IH]. apply good_core; [by split_and!|done].
Qed.
Lemma claim_wanted_good c wanted kind limit : good_step c (snd (claim_wanted c wanted kind limit)).
Proof. unfold claim_wanted. cbv zeta. destruct (_ =? 0)%nat; [apply good_refl|apply claim_rows_good]. Qed.

(** ** Histories of a catalogue *)

Section Histories.
Context {json : MediaJson}.
Inductive catalog_step (c : Catalog) : Catalog -> Prop :=
| cs_begin : catalog_step c (snd (begin_scan c))
| cs_seen s generation : catalog_step c (mark_seen c s generation)
| cs_upsert f s generation music probed :
    f_source f = Some s -> nul_free (fst s) -> catalog_step c (snd (upsert_file_inner c f generation music probed))
| cs_error s text generation :
    nul_free (fst s) -> text <> "" -> catalog_step c (snd (record_error c s text generation))
| cs_baseline root baselines : catalog_step c (baseline_sidecars c root baselines)
| cs_reconcile root present : catalog_step c (reconcile_root c root present)
| cs_finish generation retained : catalog_step c (snd (finish_scan c generation retained))
| cs_claim kind limit : catalog_step c (snd (claim_sources c kind limit))
| cs_cheap media_type kind limit : catalog_step c (snd (claim_cheap_sources c media_type kind limit))
| cs_season rows : catalog_step c (snd (claim_rows c SEGMENTS rows))
| cs_release kind sources : catalog_step c (release_claims c kind sources)
| cs_store m : fact_kind_ok m -> catalog_step c (snd (store_fact c m))
| cs_reopen same_loudness same_segments : catalog_step c (reopen c same_loudness same_segments)
| cs_ack hub epoch version : catalog_step c (snd (acknowledge c hub epoch version)).

Lemma catalog_step_good c c' : catalog_step c c' -> good_step c c'.
Proof.
  destruct 1 as [|s g|f s g m p Hf Hs|s text g Hs Ht|root bs|root present|g ret|kind limit|mt kind limit|rows|kind ss|m Hm|a b|hub e v].
  - by apply good_core.
  - by apply good_alter.
  - by apply (upsert_good c f g m p s).
  - by apply record_error_good.
  - apply baseline_good.
  - apply reconcile_good.
  - apply finish_good.
  - apply claim_wanted_good.
  - unfold claim_cheap_sources. destruct (str_mem _ _); [|apply good_refl].
    pose proof (claim_wanted_good c (fun row => lacks_cheap mt kind (r_streams row)) kind limit).
    by destruct (claim_wanted _ _ _ _).
  - apply claim_rows_good.
  - apply release_good.
  - by apply store_fact_good.
  - apply reopen_good.
  - unfold acknowledge. destruct (negb _); [apply good_refl|]. destruct (_ <? _); [apply good_refl|].
    by apply good_core.
Qed.
Lemma insert_inv name epoch : cat_inv (insert_collection name epoch) /\ told (insert_collection name epoch).
Proof.
  split; [|done]. split; try done. intros s Hs. split; try done.
  - by intros kind r _ _ [Hr _].
  - change (c_files (insert_collection name epoch) !! s) with (None : option FileRow). by intros kind r Hr.
Qed.
End Histories.
