(* ===== verification/CatalogLink.v ===== *)
(** * What a mediahost sends of its catalogue (kahawai-mediahost, src/catalog.rs, src/lib.rs)

    The pages of one read transaction, the messages they are cut into, and the
    answer to a hub's cursor. *)
From S2P Require Import Prelude Media Catalog.
#[local] Open Scope Z_scope.

(** ** Offers *)

Record CollectionRoot := mkRoot { root_token : string; normalized_path : string }.
Record Offer := mkOffer {
  o_id : string;
  o_media_type : string;
  o_roots : list CollectionRoot;
  o_epoch : string;
  o_current : Z;
  o_oldest : Z;
  o_scanning : bool;
}.
Definition offer_of (media_type : string) (roots : list CollectionRoot) (c : Catalog) : Offer :=
  mkOffer (c_name c) media_type roots (c_epoch c) (c_current c) (c_oldest c) (c_scanning c).
(** An offer waits for a first complete manifest. *)
Definition offer_ready (c : Catalog) : bool := c_complete c.

(** ** Pages *)

Record Delta := mkDelta { d_epoch : string; d_current : Z; d_oldest : Z; d_records : list CatalogRecord; d_done : bool }.
Definition RECORDS_PER_PAGE : nat := 256.

(** [ORDER BY version, kind, record_key]; a snapshot orders its files by version and key. *)
Definition replay_order (a b : CatalogRecord) : comparison :=
  cmp_then (Z.compare (w_version a) (w_version b))
    (cmp_then (String.compare (w_kind a) (w_kind b)) (String.compare (w_key a) (w_key b))).
Definition file_order (a b : CatalogRecord) : comparison :=
  cmp_then (Z.compare (w_version a) (w_version b)) (String.compare (w_key a) (w_key b)).
Definition all_records (c : Catalog) : list CatalogRecord := map (fun '(id, r) => wire id r) (map_to_list (c_records c)).
Definition page_query (c : Catalog) (snapshot snapshot_files : bool) (after : Z) : list CatalogRecord :=
  if snapshot then
    if snapshot_files then
      sort_by file_order
        (List.filter (fun r => negb (w_deleted r) && (w_kind r =s FILE) && (after <? w_version r)) (all_records c))
    else
      sort_by replay_order
        (List.filter (fun r => negb (w_deleted r) && negb (w_kind r =s FILE) && (after <? w_version r)) (all_records c))
  else sort_by replay_order (List.filter (fun r => after <? w_version r) (all_records c)).
(** Each turn of the producer either sends a page or passes from the files of a
    snapshot to the rest: fuel for one turn per record and two more is enough. *)
Fixpoint produce (fuel : nat) (page : nat) (c : Catalog) (snapshot snapshot_files : bool) (after : Z) : list Delta :=
  match fuel with
  | O => []
  | S fuel =>
      let rows := take (S page) (page_query c snapshot snapshot_files after) in
      if snapshot && snapshot_files && (length rows =? 0)%nat then produce fuel page c snapshot false 0
      else
        let more := (page <? length rows)%nat in
        let records := take page rows in
        let done := negb more && (negb snapshot || negb snapshot_files) in
        mkDelta (c_epoch c) (c_current c) (c_oldest c) records done
        :: (if done then []
            else if more then produce fuel page c snapshot snapshot_files (map_or after w_version (last records))
            else produce fuel page c snapshot false 0)
  end.
Definition produce_fuel (c : Catalog) : nat := (size (c_records c) + 2)%nat.
Definition delta_pages (c : Catalog) (cursor : Z) (snapshot : bool) : option (list Delta) :=
  if snapshot || ((c_oldest c <=? cursor) && (cursor <=? c_current c))
  then Some (produce (produce_fuel c) RECORDS_PER_PAGE c snapshot snapshot (if snapshot then 0 else cursor))
  else None.

(** ** Messages *)

Record CatalogDelta := mkMessage {
  m_collection : string;
  m_epoch : string;
  m_records : list CatalogRecord;
  m_through : Z;
  m_snapshot : bool;
  m_done : bool;
}.
Definition RECORDS_PER_MESSAGE : nat := 256.
Definition PAYLOAD_BYTES_PER_MESSAGE : Z := 4 * 1024 * 1024.

Section Messages.
(** The length of a record in protobuf. *)
Context (encoded_len : CatalogRecord -> Z).

Fixpoint chunks_from (current : list CatalogRecord) (bytes : Z) (records : list CatalogRecord) : list (list CatalogRecord) :=
  match records with
  | [] => match current with [] => [] | _ => [rev current] end
  | r :: records =>
      let next := encoded_len r in
      match current with
      | [] => chunks_from [r] next records
      | _ =>
          if (length current <? RECORDS_PER_MESSAGE)%nat && (bytes + next <=? PAYLOAD_BYTES_PER_MESSAGE)
          then chunks_from (r :: current) (bytes + next) records
          else rev current :: chunks_from [r] next records
      end
  end.
Definition chunks (records : list CatalogRecord) : list (list CatalogRecord) := chunks_from [] 0 records.
Definition chunk_through (d : Delta) (snapshot_stream done : bool) (chunk : list CatalogRecord) : Z :=
  if done then d_current d else if snapshot_stream then 0 else map_or 0 w_version (last chunk).
Fixpoint send_chunks (collection : string) (d : Delta) (first_snapshot first snapshot_stream : bool)
    (cs : list (list CatalogRecord)) : list CatalogDelta :=
  match cs with
  | [] => []
  | chunk :: cs =>
      let done := d_done d && match cs with [] => true | _ => false end in
      mkMessage collection (d_epoch d) chunk (chunk_through d snapshot_stream done chunk) (first_snapshot && first) done
      :: send_chunks collection d first_snapshot false snapshot_stream cs
  end.
(** The messages of one page, unless a record is too long for any. *)
Definition send_catalog_delta (collection : string) (d : Delta) (first_snapshot snapshot_stream : bool)
    : option (list CatalogDelta) :=
  match d_records d with
  | [] =>
      let through := if d_done d then d_current d else if snapshot_stream then 0 else d_current d in
      Some [mkMessage collection (d_epoch d) [] through first_snapshot (d_done d)]
  | records =>
      if forallb (fun r => encoded_len r <=? PAYLOAD_BYTES_PER_MESSAGE) records
      then Some (send_chunks collection d first_snapshot true snapshot_stream (chunks records)) else None
  end.
(** What is sent of a list of pages, and whether all of it could be. *)
Fixpoint send_pages (collection : string) (snapshot first : bool) (pages : list Delta) : list CatalogDelta * bool :=
  match pages with
  | [] => ([], true)
  | d :: pages =>
      match send_catalog_delta collection d (snapshot && first) snapshot with
      | None => ([], false)
      | Some ms => let '(rest, ok) := send_pages collection snapshot false pages in (ms ++ rest, ok)
      end
  end.
(** The messages of one sync, and the version the link then takes as sent; none
    when the sync fails after those messages. *)
Definition send_catalog_pages (c : Catalog) (cursor : Z) (snapshot : bool) : list CatalogDelta * option Z :=
  match delta_pages c cursor snapshot with
  | None | Some [] => ([], None)
  | Some ((d :: _) as pages) =>
      if negb snapshot && d_done d && (length (d_records d) =? 0)%nat && (d_current d =? cursor) then ([], Some cursor)
      else
        let '(ms, ok) := send_pages (c_name c) snapshot true pages in
        (ms, then_some ok (map_or cursor m_through (last ms)))
  end.

(** The answer to a cursor of a hub: where to start from, and whether with a snapshot. *)
Record CatalogCursor := mkCursor { cu_collection : string; cu_epoch : string; cu_version : Z; cu_snapshot : bool }.
Definition sync_start (c : Catalog) (cursor : CatalogCursor) : Z * bool :=
  let snapshot := cu_snapshot cursor || negb (cu_epoch cursor =s c_epoch c) || (cu_version cursor <? c_oldest c)
                  || (c_current c <? cu_version cursor) in
  (if snapshot then 0 else cu_version cursor, snapshot).
Definition answer_cursor (c : Catalog) (cursor : CatalogCursor) : list CatalogDelta * option Z :=
  let '(start, snapshot) := sync_start c cursor in send_catalog_pages c start snapshot.
(** A live link sends what was published since, under the epoch it was told. *)
Definition update_due (c : Catalog) (epoch : string) (sent : Z) : bool := (c_epoch c =s epoch) && (sent <? c_published c).

End Messages.
