(* ===== verification/CatalogLinkTheorems.v ===== *)
(** * What reaches the link

    The pages of one read transaction hold exactly the records that are due, in
    the order of their versions, and their messages cut that list so that every
    cursor a message names is safe to keep. *)
From S2P Require Import Prelude Media Catalog CatalogTheorems CatalogLink.
#[local] Open Scope Z_scope.

(** ** The records of a catalogue, by version *)

Definition is_record (c : Catalog) (r : CatalogRecord) : Prop := exists id x, c_records c !! id = Some x /\ r = wire id x.
Definition version_lt (a b : CatalogRecord) : Prop := w_version a < w_version b.
Notation by_version := (StronglySorted version_lt).

Lemma is_record_unique c r r' : cat_inv c -> is_record c r -> is_record c r' -> w_version r = w_version r' -> r = r'.
Proof.
  intros Hc (id & x & Hx & ->) (id' & x' & Hx' & ->) Hv. simpl in Hv.
  pose proof (ci_unique _ Hc _ _ _ _ Hx Hx' Hv) as ->. congruence.
Qed.
Lemma is_record_version c r : cat_inv c -> is_record c r -> 1 <= w_version r <= c_current c.
Proof. intros Hc (id & x & Hx & ->). by apply (ci_version _ Hc id). Qed.
Lemma all_records_spec c r : r ∈ all_records c <-> is_record c r.
Proof.
  unfold all_records. rewrite list_elem_of_fmap. split.
  - intros ([id x] & -> & Hin%elem_of_map_to_list). by exists id, x.
  - intros (id & x & Hx & ->). exists (id, x). split; [done|]. by apply elem_of_map_to_list.
Qed.
Lemma wire_inj id x id' x' : wire id x = wire id' x' -> id = id' /\ x = x'.
Proof. destruct id, id', x, x'. unfold wire. simpl. by intros [= -> -> -> -> ->]. Qed.
Lemma all_records_nodup c : NoDup (all_records c).
Proof.
  unfold all_records. apply NoDup_fmap_2_strong; [|apply NoDup_map_to_list].
  intros [id x] [id' x'] _ _ H. by apply wire_inj in H as [-> ->].
Qed.

(** A list sorted by an order that compares versions first is strictly
    increasing in them, when no version occurs twice. *)
Lemma sorted_versions c (cmp : CatalogRecord -> CatalogRecord -> comparison) (P : CatalogRecord -> bool) :
  cat_inv c -> cmp_ok (fun _ => True) cmp ->
  (forall a b, cmp a b <> Gt -> w_version a <= w_version b) ->
  let l := sort_by cmp (List.filter P (all_records c)) in
  by_version l /\ forall r, r ∈ l <-> is_record c r /\ P r = true.
Proof.
  intros Hc Hcmp Hv l.
  assert (forall r, r ∈ l <-> is_record c r /\ P r = true) as Hin.
  { intros r. unfold l. rewrite sort_by_perm, list_elem_of_In, filter_In, <- list_elem_of_In, all_records_spec. done. }
  split; [|done].
  assert (NoDup l) as Hnd.
  { unfold l. rewrite sort_by_perm. apply NoDup_ListNoDup, List.NoDup_filter, NoDup_ListNoDup, all_records_nodup. }
  assert (StronglySorted (cmp_le cmp) l) as Hs.
  { apply (sort_by_ok (fun _ => True)); [done|]. by apply Forall_forall. }
  clearbody l. induction Hs as [|r l Hs IH Hr]; [constructor|]. apply NoDup_cons in Hnd as [Hn Hnd].
  assert (forall x, x ∈ l -> is_record c x) as Hall by (intros x Hx; by apply Hin; right).
  constructor.
  - clear IH Hr Hn. assert (forall x, x ∈ l -> is_record c x) as H by done. clear Hin Hall.
    induction Hs as [|a l Hs IH Ha]; [constructor|]. apply NoDup_cons in Hnd as [Hn Hnd]. constructor.
    + apply IH; [done|]. intros x Hx. apply H. by right.
    + apply Forall_forall. intros x Hx. rewrite Forall_forall in Ha.
      pose proof (Hv _ _ (Ha x Hx)). unfold version_lt. destruct (Z.eq_dec (w_version a) (w_version x)) as [E|]; [|lia].
      apply (is_record_unique c) in E; [by subst| done|apply H; left|apply H; by right].
  - apply Forall_forall. intros x Hx. rewrite Forall_forall in Hr. pose proof (Hv _ _ (Hr x Hx)).
    unfold version_lt. destruct (Z.eq_dec (w_version r) (w_version x)) as [E|]; [|lia].
    apply (is_record_unique c) in E; [by subst|done|apply Hin; left|by apply Hall].
Qed.
Lemma replay_order_ok : cmp_ok (fun _ => True) replay_order.
Proof.
  unfold replay_order. apply cmp_ok_then; [by apply (cmp_ok_on _ _ w_version _ (fun _ _ => I) z_cmp_ok)|].
  apply cmp_ok_then; [by apply (cmp_ok_on _ _ w_kind _ (fun _ _ => I) string_cmp_ok)|].
  by apply (cmp_ok_on _ _ w_key _ (fun _ _ => I) string_cmp_ok).
Qed.
Lemma file_order_ok : cmp_ok (fun _ => True) file_order.
Proof.
  unfold file_order. apply cmp_ok_then; [by apply (cmp_ok_on _ _ w_version _ (fun _ _ => I) z_cmp_ok)|].
  by apply (cmp_ok_on _ _ w_key _ (fun _ _ => I) string_cmp_ok).
Qed.
Lemma replay_version a b : replay_order a b <> Gt -> w_version a <= w_version b.
Proof. unfold replay_order. destruct (Z.compare_spec (w_version a) (w_version b)); simpl; try done; lia. Qed.
Lemma file_version a b : file_order a b <> Gt -> w_version a <= w_version b.
Proof. unfold file_order. destruct (Z.compare_spec (w_version a) (w_version b)); simpl; try done; lia. Qed.

(** Which records a query is about. *)
Definition query_wants (snapshot files : bool) (r : CatalogRecord) : bool :=
  if snapshot then negb (w_deleted r) && (if files then w_kind r =s FILE else negb (w_kind r =s FILE)) else true.
Lemma page_query_spec c snapshot files after :
  cat_inv c ->
  by_version (page_query c snapshot files after)
  /\ forall r, r ∈ page_query c snapshot files after
               <-> is_record c r /\ query_wants snapshot files r = true /\ after < w_version r.
Proof.
  intros Hc. unfold page_query, query_wants. destruct snapshot; [destruct files|].
  - destruct (sorted_versions c file_order
      (fun r => negb (w_deleted r) && (w_kind r =s FILE) && (after <? w_version r)) Hc file_order_ok file_version) as [Hs Hin].
    split; [done|]. intros r. rewrite Hin, !andb_true_iff, Z.ltb_lt. tauto.
  - destruct (sorted_versions c replay_order
      (fun r => negb (w_deleted r) && negb (w_kind r =s FILE) && (after <? w_version r)) Hc replay_order_ok replay_version) as [Hs Hin].
    split; [done|]. intros r. rewrite Hin, !andb_true_iff, Z.ltb_lt. tauto.
  - destruct (sorted_versions c replay_order (fun r => after <? w_version r) Hc replay_order_ok replay_version) as [Hs Hin].
    split; [done|]. intros r. rewrite Hin, Z.ltb_lt. tauto.
Qed.

(** ** Lists increasing in their versions *)

Lemma by_version_app a b : by_version (a ++ b) <-> by_version a /\ by_version b /\ forall x y, x ∈ a -> y ∈ b -> version_lt x y.
Proof.
  induction a as [|x a IH]; simpl.
  - split; [|tauto]. intros H. split_and!; [constructor|done|]. intros x y Hx. by apply elem_of_nil in Hx.
  - split.
    + intros H. apply StronglySorted_inv in H as [H Hx]. apply IH in H as (Ha & Hb & Hab). apply Forall_app in Hx as [Hxa Hxb].
      split_and!; [by constructor|done|]. intros x' y [->|Hx']%elem_of_cons Hy; [|by apply Hab]. rewrite Forall_forall in Hxb. auto.
    + intros (Ha & Hb & Hab). apply StronglySorted_inv in Ha as [Ha Hx]. constructor.
      * apply IH. split_and!; [done|done|]. intros x' y Hx' Hy. apply Hab; [by right|done].
      * apply Forall_app. split; [done|]. apply Forall_forall. intros y Hy. apply Hab; [left|done].
Qed.
Lemma by_version_eq l l' : by_version l -> by_version l' -> (forall r, r ∈ l <-> r ∈ l') -> l = l'.
Proof.
  intros Hl. revert l'. induction Hl as [|r l Hl IH Hr]; intros l' Hl' Hin.
  - destruct l' as [|r' l']; [done|]. exfalso. apply (not_elem_of_nil r'), Hin. left.
  - destruct Hl' as [|r' l' Hl' Hr']; [exfalso; apply (not_elem_of_nil r), Hin; left|].
    rewrite Forall_forall in Hr, Hr'.
    assert (r = r') as <-.
    { pose proof (proj1 (Hin r) ltac:(left)) as Hx. apply elem_of_cons in Hx as [Hx|Hx]; [done|].
      pose proof (proj2 (Hin r') ltac:(left)) as Hy. apply elem_of_cons in Hy as [Hy|Hy]; [done|].
      apply Hr' in Hx. apply Hr in Hy. unfold version_lt in *. lia. }
    f_equal. apply IH; [done|]. intros x. split; intros Hx.
    + pose proof (proj1 (Hin x) ltac:(by right)) as H. apply elem_of_cons in H as [->|H]; [|done].
      apply Hr in Hx. unfold version_lt in Hx. lia.
    + pose proof (proj2 (Hin x) ltac:(by right)) as H. apply elem_of_cons in H as [->|H]; [|done].
      apply Hr' in Hx. unfold version_lt in Hx. lia.
Qed.
Lemma last_version_max (a : list CatalogRecord) z x : by_version a -> last a = Some z -> x ∈ a -> w_version x <= w_version z.
Proof.
  intros Hs Hl Hx. apply last_Some in Hl as [a' ->]. apply elem_of_app in Hx as [Hx|Hx%list_elem_of_singleton]; [|subst; lia].
  apply by_version_app in Hs as (_ & _ & H). specialize (H x z Hx ltac:(by apply list_elem_of_singleton)).
  unfold version_lt in H. lia.
Qed.
Lemma query_rest c snapshot files after a b z :
  cat_inv c -> page_query c snapshot files after = a ++ b -> last a = Some z ->
  page_query c snapshot files (w_version z) = b.
Proof.
  intros Hc Hq Hz. destruct (page_query_spec c snapshot files after Hc) as [Hs Hin]. rewrite Hq in Hs, Hin.
  apply by_version_app in Hs as (Ha & Hb & Hab). destruct (page_query_spec c snapshot files (w_version z) Hc) as [Hs' Hin'].
  apply by_version_eq; [done|done|]. intros r. rewrite Hin'.
  assert (z ∈ a) as Hza by (apply last_Some in Hz as [a' ->]; apply elem_of_app; right; by apply list_elem_of_singleton).
  assert (after < w_version z) as Haft by (apply (Hin z), elem_of_app; by left).
  split.
  - intros (H1 & H2 & H3). assert (r ∈ a ++ b) as Hr by (apply Hin; split_and!; [done|done|lia]).
    apply elem_of_app in Hr as [Hr|Hr]; [|done]. pose proof (last_version_max a z r Ha Hz Hr). lia.
  - intros Hr. assert (r ∈ a ++ b) as Hr' by (apply elem_of_app; by right). apply Hin in Hr' as (H1 & H2 & _).
    split_and!; [done|done|]. by apply Hab.
Qed.

(** ** Pages *)

Definition page_of (c : Catalog) (d : Delta) : Prop := d_epoch d = c_epoch c /\ d_current d = c_current c.
(** Full pages, none of them the last, then the last. *)
Definition pages_shape (c : Catalog) (l : list CatalogRecord) (pages : list Delta) : Prop :=
  exists init d, pages = init ++ [d] /\ l = concat (map d_records init) ++ d_records d
    /\ d_done d = true /\ page_of c d
    /\ Forall (fun x => d_done x = false /\ d_records x <> [] /\ page_of c x) init.

Lemma shape_one c l d : d_records d = l -> d_done d = true -> page_of c d -> pages_shape c l [d].
Proof. intros <- Hd Hp. exists [], d. by split_and!. Qed.
Lemma shape_cons c a l d pages :
  d_records d = a -> a <> [] -> d_done d = false -> page_of c d -> pages_shape c l pages -> pages_shape c (a ++ l) (d :: pages).
Proof.
  intros <- Ha Hd Hp (init & last & -> & -> & H1 & H2 & H3). exists (d :: init), last. split_and!; try done.
  - simpl. by rewrite app_assoc.
  - by constructor.
Qed.
Lemma page_more (q : list CatalogRecord) n :
  (n <? length (take (S n) q))%nat = (n <? length q)%nat /\ take n (take (S n) q) = take n q.
Proof.
  split; [|rewrite take_take; f_equal; lia]. rewrite length_take.
  destruct (Nat.ltb_spec n (length q)), (Nat.ltb_spec n (S n `min` length q)); try done; lia.
Qed.
Lemma take_last_ne (q : list CatalogRecord) n : (0 < n)%nat -> (n < length q)%nat -> exists z, last (take n q) = Some z.
Proof.
  intros Hn Hq. destruct (last (take n q)) as [z|] eqn:E; [by exists z|]. apply last_None in E.
  apply (f_equal length) in E. rewrite length_take in E. simpl in E. lia.
Qed.

Section Produce.
Context (c : Catalog) (n : nat) (Hc : cat_inv c) (Hn : (0 < n)%nat).

Lemma produce_plain fuel snapshot files after :
  snapshot && files = false -> (length (page_query c snapshot files after) < fuel)%nat ->
  pages_shape c (page_query c snapshot files after) (produce fuel n c snapshot files after).
Proof.
  revert after. induction fuel as [|fuel IH]; intros after Hsf Hf; [lia|]. cbn [produce]. rewrite Hsf. cbn [andb].
  set (q := page_query c snapshot files after) in *. destruct (page_more q n) as [-> ->].
  assert (negb snapshot || negb files = true) as -> by (by destruct snapshot, files).
  destruct (Nat.ltb_spec n (length q)) as [Hlt|Hge]; cbn [negb andb].
  - destruct (take_last_ne q n Hn Hlt) as [z Hz]. rewrite Hz. cbn [map_or]. rewrite <- (take_drop n q) at 1.
    apply shape_cons; [done| |done|by split|].
    + intros E. by rewrite E in Hz.
    + pose proof (query_rest c snapshot files after (take n q) (drop n q) z Hc ltac:(by rewrite take_drop) Hz) as Hr.
      rewrite <- Hr. apply IH; [done|]. rewrite Hr, length_drop. lia.
  - apply shape_one; [|done|by split]. cbn [d_records]. by apply take_ge.
Qed.
Lemma produce_files fuel after :
  (length (page_query c true true after) + length (page_query c true false 0) + 1 < fuel)%nat ->
  pages_shape c (page_query c true true after ++ page_query c true false 0) (produce fuel n c true true after).
Proof.
  revert after. induction fuel as [|fuel IH]; intros after Hf; [lia|]. cbn [produce andb].
  set (q := page_query c true true after) in *.
  destruct (Nat.eqb_spec (length (take (S n) q)) 0) as [E|E].
  - rewrite length_take in E. assert (q = []) as Hq by (destruct q; [done|simpl in E; lia]).
    rewrite Hq. apply produce_plain; [done|]. lia.
  - destruct (page_more q n) as [-> ->]. cbn [negb orb]. rewrite andb_false_r.
    assert (q <> []) as Hq by (intros Hq; by rewrite Hq in E).
    destruct (Nat.ltb_spec n (length q)) as [Hlt|Hge].
    + destruct (take_last_ne q n Hn Hlt) as [z Hz]. rewrite Hz. cbn [map_or]. rewrite <- (take_drop n q) at 1.
      rewrite <- app_assoc. apply shape_cons; [done| |done|by split|].
      * intros E'. by rewrite E' in Hz.
      * pose proof (query_rest c true true after (take n q) (drop n q) z Hc ltac:(by rewrite take_drop) Hz) as Hr.
        rewrite <- Hr. apply IH. rewrite Hr, length_drop. lia.
    + apply shape_cons; [|done|done|by split|].
      * cbn [d_records]. by apply take_ge.
      * apply produce_plain; [done|]. assert (0 < length q)%nat by (destruct q; [done|simpl; lia]). lia.
Qed.
End Produce.

Lemma filter_length_le {A} (P : A -> bool) l : (length (List.filter P l) <= length l)%nat.
Proof. induction l as [|x l IH]; simpl; [lia|]. destruct (P x); simpl; lia. Qed.
Lemma filter_length_disjoint {A} (P Q : A -> bool) l :
  (forall x, P x = true -> Q x = false) -> (length (List.filter P l) + length (List.filter Q l) <= length l)%nat.
Proof.
  intros H. induction l as [|x l IH]; simpl; [lia|]. destruct (P x) eqn:E; [rewrite (H x E)|]; destruct (Q x); simpl; lia.
Qed.
Lemma all_records_length c : length (all_records c) = size (c_records c).
Proof. unfold all_records. by rewrite length_map, length_map_to_list. Qed.
(** What a sync is to send: every record past the cursor, or the live files and
    then the rest of what is live. *)
Definition due (c : Catalog) (cursor : Z) (snapshot : bool) : list CatalogRecord :=
  if snapshot then page_query c true true 0 ++ page_query c true false 0 else page_query c false false cursor.
Lemma delta_pages_shape c cursor snapshot pages :
  cat_inv c -> delta_pages c cursor snapshot = Some pages -> pages_shape c (due c cursor snapshot) pages.
Proof.
  intros Hc. unfold delta_pages. destruct (_ || _); [|done]. intros [= <-]. unfold due, produce_fuel. destruct snapshot.
  - apply produce_files; [done|unfold RECORDS_PER_PAGE; lia|]. unfold page_query. rewrite !sort_by_perm.
    rewrite <- all_records_length.
    pose proof (filter_length_disjoint (fun r => negb (w_deleted r) && (w_kind r =s FILE) && (0 <? w_version r))
      (fun r => negb (w_deleted r) && negb (w_kind r =s FILE) && (0 <? w_version r)) (all_records c)) as H.
    assert (forall x, negb (w_deleted x) && (w_kind x =s FILE) && (0 <? w_version x) = true ->
      negb (w_deleted x) && negb (w_kind x =s FILE) && (0 <? w_version x) = false) as Hd.
    { intros x. destruct (w_kind x =s FILE); [by rewrite andb_false_r|]. by rewrite andb_false_r. }
    specialize (H Hd). lia.
  - apply produce_plain; [done|unfold RECORDS_PER_PAGE; lia|done|]. unfold page_query. rewrite sort_by_perm.
    rewrite <- all_records_length. pose proof (filter_length_le (fun r => cursor <? w_version r) (all_records c)). lia.
Qed.

(** ** Messages *)

Section Messages.
Context (encoded_len : CatalogRecord -> Z).
Notation chunks := (chunks encoded_len).
Notation chunks_from := (chunks_from encoded_len).

Lemma chunks_from_spec current bytes l :
  concat (chunks_from current bytes l) = rev current ++ l /\ Forall (fun x => x <> []) (chunks_from current bytes l).
Proof.
  revert current bytes. induction l as [|r l IH]; intros current bytes; cbn [CatalogLink.chunks_from].
  - destruct current as [|x current]; [done|]. cbn [concat]. split; [by rewrite app_nil_r|]. constructor; [|done].
    intros E. apply (f_equal length) in E. rewrite length_rev in E. done.
  - destruct current as [|x current].
    + destruct (IH [r] (encoded_len r)) as [H1 H2]. by rewrite H1.
    + destruct (_ && _).
      * destruct (IH (r :: x :: current) (bytes + encoded_len r)) as [H1 H2]. rewrite H1. split; [|done].
        cbn [rev]. by rewrite <- !app_assoc.
      * destruct (IH [r] (encoded_len r)) as [H1 H2]. cbn [concat]. rewrite H1. split; [done|]. constructor; [|done].
        intros E. apply (f_equal length) in E. rewrite length_rev in E. done.
Qed.
Lemma chunks_spec l : concat (chunks l) = l /\ Forall (fun x => x <> []) (chunks l).
Proof. apply (chunks_from_spec [] 0 l). Qed.

Definition message_of (c : Catalog) (snapshot : bool) (m : CatalogDelta) : Prop :=
  m_collection m = c_name c /\ m_epoch m = c_epoch c /\ (snapshot = false -> m_snapshot m = false).
(** A message that does not end the sync. *)
Definition mid_message (c : Catalog) (snapshot : bool) (m : CatalogDelta) : Prop :=
  message_of c snapshot m /\ m_done m = false
  /\ exists z, last (m_records m) = Some z /\ m_through m = if snapshot then 0 else w_version z.
Definition messages_shape (c : Catalog) (snapshot : bool) (l : list CatalogRecord) (ms : list CatalogDelta) : Prop :=
  exists init m, ms = init ++ [m] /\ l = concat (map m_records init) ++ m_records m
    /\ m_done m = true /\ m_through m = c_current c /\ message_of c snapshot m /\ Forall (mid_message c snapshot) init.
Definition messages_prefix (c : Catalog) (snapshot : bool) (l : list CatalogRecord) (ms : list CatalogDelta) : Prop :=
  exists rest, l = concat (map m_records ms) ++ rest /\ Forall (mid_message c snapshot) ms.

Lemma last_ne {A} (l : list A) : l <> [] -> exists z, last l = Some z.
Proof. intros H. destruct (last l) eqn:E; [by eexists|]. by apply last_None in E. Qed.
Lemma send_chunks_mid c d first_snapshot first snapshot cs :
  page_of c d -> d_done d = false -> (snapshot = false -> first_snapshot = false) -> Forall (fun x => x <> []) cs ->
  let ms := send_chunks (c_name c) d first_snapshot first snapshot cs in
  Forall (mid_message c snapshot) ms /\ concat (map m_records ms) = concat cs.
Proof.
  intros [Hp1 Hp2] Hd Hfs. revert first. induction cs as [|chunk cs IH]; intros first Hne; [done|]. cbn [send_chunks].
  apply Forall_cons in Hne as [Hc Hne]. rewrite Hd. cbn [andb]. destruct (IH false Hne) as [H1 H2]. split.
  - constructor; [|exact H1]. destruct (last_ne chunk Hc) as [z Hz]. split_and!; try done.
    + unfold message_of. split_and!; [done|done|]. intros Hs. simpl. by rewrite (Hfs Hs).
    + exists z. split; [done|]. simpl. unfold chunk_through. destruct snapshot; [done|]. by rewrite Hz.
  - cbn [map concat]. by rewrite H2.
Qed.
Lemma send_chunks_last c d first_snapshot first snapshot cs :
  page_of c d -> d_done d = true -> (snapshot = false -> first_snapshot = false) -> Forall (fun x => x <> []) cs -> cs <> [] ->
  messages_shape c snapshot (concat cs) (send_chunks (c_name c) d first_snapshot first snapshot cs).
Proof.
  intros [Hp1 Hp2] Hd Hfs. revert first. induction cs as [|chunk cs IH]; intros first Hne Hcs; [done|]. cbn [send_chunks].
  apply Forall_cons in Hne as [Hc Hne]. rewrite Hd. cbn [andb]. destruct cs as [|chunk' cs].
  - exists [], (mkMessage (c_name c) (d_epoch d) chunk (chunk_through d snapshot true chunk) (first_snapshot && first) true).
    split_and!; try done; simpl.
    + by rewrite app_nil_r.
    + split_and!; [done|done|]. intros Hs. by rewrite (Hfs Hs).
  - destruct (IH false Hne ltac:(done)) as (init & m & -> & Hl & H1 & H2 & H3 & H4).
    eexists (_ :: init), m. split_and!; try done.
    + cbn [map concat m_records]. cbn [concat] in Hl. by rewrite <- app_assoc, <- Hl.
    + constructor; [|done]. destruct (last_ne chunk Hc) as [z Hz]. split_and!; try done.
      * unfold message_of. split_and!; [done|done|]. intros Hs. simpl. by rewrite (Hfs Hs).
      * exists z. split; [done|]. simpl. unfold chunk_through. destruct snapshot; [done|]. by rewrite Hz.
Qed.
Lemma send_page_mid c d first_snapshot snapshot ms :
  page_of c d -> d_done d = false -> d_records d <> [] -> (snapshot = false -> first_snapshot = false) ->
  send_catalog_delta encoded_len (c_name c) d first_snapshot snapshot = Some ms ->
  Forall (mid_message c snapshot) ms /\ concat (map m_records ms) = d_records d.
Proof.
  intros Hp Hd Hne Hfs. unfold send_catalog_delta. destruct (d_records d) as [|r l] eqn:E; [done|].
  destruct (forallb _ _); [|done]. intros [= <-]. destruct (chunks_spec (r :: l)) as [H1 H2].
  destruct (send_chunks_mid c d first_snapshot true snapshot (chunks (r :: l)) Hp Hd Hfs H2) as [H3 H4].
  split; [done|]. by rewrite H4, H1.
Qed.
Lemma send_page_last c d first_snapshot snapshot ms :
  page_of c d -> d_done d = true -> (snapshot = false -> first_snapshot = false) ->
  send_catalog_delta encoded_len (c_name c) d first_snapshot snapshot = Some ms ->
  messages_shape c snapshot (d_records d) ms.
Proof.
  intros [Hp1 Hp2] Hd Hfs. unfold send_catalog_delta. destruct (d_records d) as [|r l] eqn:E.
  - intros [= <-]. rewrite Hd. eexists [], _. by split_and!.
  - destruct (forallb _ _); [|done]. intros [= <-]. destruct (chunks_spec (r :: l)) as [H1 H2]. rewrite <- H1 at 1.
    apply send_chunks_last; try done. intros Hn. by rewrite Hn in H1.
Qed.
Lemma send_pages_shape c snapshot l first pages :
  pages_shape c l pages ->
  let '(ms, ok) := send_pages encoded_len (c_name c) snapshot first pages in
  if ok then messages_shape c snapshot l ms else messages_prefix c snapshot l ms.
Proof.
  intros (init & d & -> & -> & Hd & Hp & Hinit). revert first. induction Hinit as [|x init (Hx1 & Hx2 & Hx3) _ IH]; intros first;
    cbn [app send_pages].
  - destruct (send_catalog_delta _ _ _ _ _) as [ms|] eqn:E.
    + cbn [map concat app]. rewrite app_nil_r. apply (send_page_last c) in E; [done|done|done|]. intros ->. done.
    + exists (d_records d). by split.
  - destruct (send_catalog_delta _ _ _ _ _) as [ms|] eqn:E.
    + apply (send_page_mid c) in E as [H1 H2]; [|done|done|done|by intros ->]. specialize (IH false).
      destruct (send_pages _ _ _ _ _) as [rest ok]. destruct ok.
      * destruct IH as (init' & m & -> & Hl & H3 & H4 & H5 & H6). exists (ms ++ init'), m. split_and!; try done.
        -- by rewrite app_assoc.
        -- rewrite map_app, concat_app, H2. cbn [map concat]. by rewrite <- !app_assoc, Hl.
        -- by apply Forall_app.
      * destruct IH as (tail & Hl & H3). exists tail. split; [|by apply Forall_app].
        rewrite map_app, concat_app, H2. cbn [map concat]. by rewrite <- !app_assoc, Hl.
    + exists (concat (map d_records (x :: init)) ++ d_records d). by split.
Qed.
(** The messages of a sync: all of what is due, the last of them naming the
    version of the transaction; or a part of it, when a record is too long; or
    nothing, when nothing is due. *)
Lemma sync_shape c cursor snapshot :
  cat_inv c ->
  let '(ms, sent) := send_catalog_pages encoded_len c cursor snapshot in
  (exists through, sent = Some through /\ through = c_current c
     /\ (messages_shape c snapshot (due c cursor snapshot) ms \/ ms = [] /\ snapshot = false /\ cursor = c_current c))
  \/ sent = None /\ messages_prefix c snapshot (due c cursor snapshot) ms.
Proof.
  intros Hc. unfold send_catalog_pages. destruct (delta_pages c cursor snapshot) as [pages|] eqn:E.
  - apply (delta_pages_shape _ _ _ _ Hc) in E. destruct pages as [|d pages].
    { destruct E as (init & d & E & _). by destruct init. }
    destruct (negb snapshot && d_done d && (length (d_records d) =? 0)%nat && (d_current d =? cursor)) eqn:Hempty.
    + left. apply andb_true_iff in Hempty as [Hempty Hcur%Z.eqb_eq].
      apply andb_true_iff in Hempty as [[Hs%negb_true_iff _]%andb_true_iff _].
      assert (page_of c d) as [_ Hp].
      { destruct E as (init & d' & E & _ & _ & Hp & Hall). destruct init as [|x init]; [by injection E as ->|].
        injection E as -> _. by apply Forall_cons in Hall as [(_ & _ & Hx) _]. }
      exists cursor. split_and!; [done|congruence|]. right. split_and!; [done|done|congruence].
    + pose proof (send_pages_shape c snapshot _ true _ E) as H. destruct (send_pages _ _ _ _ _) as [ms ok]. destruct ok.
      * left. exists (c_current c). split_and!; [|done|by left]. destruct H as (init & m & -> & _ & _ & Ht & _).
        rewrite last_snoc. simpl. by rewrite Ht.
      * right. by split.
  - right. split; [done|]. exists (due c cursor snapshot). by split.
Qed.
End Messages.

(** ** What a message may hold *)

Section Bounds.
Context (encoded_len : CatalogRecord -> Z).
Definition encoded (l : list CatalogRecord) : Z := foldr (fun r n => encoded_len r + n) 0 l.
Lemma encoded_app a b : encoded (a ++ b) = encoded a + encoded b.
Proof. induction a as [|x a IH]; simpl; lia. Qed.
Lemma encoded_rev l : encoded (rev l) = encoded l.
Proof. induction l as [|x l IH]; simpl; [done|]. rewrite encoded_app, IH. simpl. lia. Qed.
Definition fits (l : list CatalogRecord) : Prop := (length l <= RECORDS_PER_MESSAGE)%nat /\ encoded l <= PAYLOAD_BYTES_PER_MESSAGE.
Lemma fits_nil : fits [].
Proof. unfold fits, RECORDS_PER_MESSAGE, PAYLOAD_BYTES_PER_MESSAGE. simpl. split; lia. Qed.
Lemma fits_rev l : fits l -> fits (rev l).
Proof. unfold fits. by rewrite length_rev, encoded_rev. Qed.
Lemma fits_one r : (encoded_len r <=? PAYLOAD_BYTES_PER_MESSAGE) = true -> fits [r].
Proof. intros H%Z.leb_le. unfold fits, RECORDS_PER_MESSAGE. simpl. split; lia. Qed.
Lemma chunks_fit current bytes l :
  fits current -> bytes = encoded current -> forallb (fun r => encoded_len r <=? PAYLOAD_BYTES_PER_MESSAGE) l = true ->
  Forall fits (chunks_from encoded_len current bytes l).
Proof.
  revert current bytes. induction l as [|r l IH]; intros current bytes Hf -> Hl; cbn [CatalogLink.chunks_from].
  - destruct current; constructor; [by apply fits_rev|constructor].
  - cbn [forallb] in Hl. apply andb_true_iff in Hl as [Hr Hl]. assert (encoded_len r = encoded [r]) as He by (simpl; lia).
    destruct current as [|x current]; [by apply IH; [apply fits_one| |]|].
    destruct (_ && _) eqn:E.
    + apply andb_true_iff in E as [E1%Nat.ltb_lt E2%Z.leb_le]. apply IH; [|simpl; lia|done].
      split; [cbn [length] in *; lia|]. simpl in *. lia.
    + constructor; [by apply fits_rev|]. by apply IH; [apply fits_one| |].
Qed.
Lemma send_chunks_fit collection d first_snapshot first snapshot cs :
  Forall fits cs -> Forall (fun m => fits (m_records m)) (send_chunks collection d first_snapshot first snapshot cs).
Proof.
  revert first. induction cs as [|chunk cs IH]; intros first Hf; cbn [send_chunks]; [constructor|].
  apply Forall_cons in Hf as [Hc Hf]. constructor; [done|by apply IH].
Qed.
Lemma send_pages_fit collection snapshot first pages :
  Forall (fun m => fits (m_records m)) (fst (send_pages encoded_len collection snapshot first pages)).
Proof.
  revert first. induction pages as [|d pages IH]; intros first; cbn [send_pages]; [constructor|].
  destruct (send_catalog_delta _ _ _ _ _) as [ms|] eqn:E; [|constructor]. specialize (IH false).
  destruct (send_pages _ _ _ _ _) as [rest ok]. apply Forall_app. split; [|done].
  unfold send_catalog_delta in E. destruct (d_records d) as [|r l].
  - injection E as <-. constructor; [|constructor]. apply fits_nil.
  - destruct (forallb _ _) eqn:Hl; [|done]. injection E as <-. apply send_chunks_fit, chunks_fit; [apply fits_nil|done|done].
Qed.
Lemma sync_fits c cursor snapshot m : m ∈ fst (send_catalog_pages encoded_len c cursor snapshot) -> fits (m_records m).
Proof.
  unfold send_catalog_pages. destruct (delta_pages c cursor snapshot) as [[|d pages]|]; try (intros H; by apply elem_of_nil in H).
  destruct (_ && _ && _ && _); [intros H; by apply elem_of_nil in H|].
  pose proof (send_pages_fit (c_name c) snapshot true (d :: pages)) as H. destruct (send_pages _ _ _ _ _) as [ms ok].
  cbn [fst] in *. rewrite Forall_forall in H. apply H.
Qed.
End Bounds.
