(* ===== verification/Replica.v ===== *)
(** * The replica of a catalogue at a hub (kahawai-mediadb, src/catalogue.rs)

    One collection of the media database as far as the catalogue of its
    mediahost is copied into it: the offer that opens a sync, and the messages
    of the sync, each applied in one transaction with the cursor. *)
From S2P Require Import Prelude Media Catalog CatalogLink.
#[local] Open Scope Z_scope.

(** ** Tables *)

(** What a file record sets; all of it is null before the first. *)
Record Base := mkBase {
  b_size : Z;
  b_mtime : Z;
  b_head : Z;
  b_tail : Z;
  b_oshash : Z;
  b_media : string;
}.
Record SourceFactRow := mkFact { sf_version : Z; sf_seen : Z; sf_payload : Payload }.
Record HubFile := mkHubFile {
  hf_version : Z;
  hf_seen : Z;
  hf_base : option Base;
  hf_facts : gmap string SourceFactRow;
}.
Record Hub := mkHub {
  hb_remote : string;
  hb_media_type : string;
  hb_epoch : string;
  hb_version : Z;
  hb_active : bool;                    (* a snapshot is under way *)
  hb_generation : Z;
  hb_snapshot_max : Z;
  hb_roots : gmap string (string * bool);   (* token to path, and whether active *)
  hb_files : gmap Source HubFile;
}.

(** ** Addresses *)

Definition SLASH : Ascii.ascii := byte 47.
Definition BACKSLASH : Ascii.ascii := byte 92.
Definition path_components (p : string) : list string :=
  List.filter (fun c => negb (c =s "") && negb (c =s ".")) (split_char SLASH p).
Definition is_absolute (p : string) : bool := starts_with "/" p.
(** [Path::starts_with]: whole components. *)
Fixpoint is_prefix (p q : list string) : bool :=
  match p, q with
  | [], _ => true
  | a :: p, b :: q => (a =s b) && is_prefix p q
  | _ :: _, [] => false
  end.
Definition path_starts_with (p base : string) : bool := is_prefix (path_components base) (path_components p).
(** The key of a record; UTF-8 apart, which the text of a path is. *)
Definition hub_source_key (key : string) : result string Source :=
  match split_once NUL key with
  | None => Err "missing exact catalogue source key"
  | Some (root, path) =>
      ensure (negb (root =s "") && negb (path =s "") && negb (str_mem_char NUL path) && negb (str_mem_char BACKSLASH path))
        "invalid source address" (
      ensure (forallb (fun part => negb (part =s "") && negb (part =s ".") && negb (part =s "..")) (split_char SLASH path))
        "source path is not normalized" (
      Ok (root, path)))
  end.
Definition validate_source (source : option Source) (at_ : Source) : bool := source ≟ Some at_.
(** [i64::try_from]. *)
Definition integer (n : Z) : result string Z :=
  ensure (n <=? i64_max) "catalogue integer exceeds database range" (Ok n).

(** ** Offers *)

Definition MEDIA_TYPES : list string := ["movies"; "series"; "anime"; "music"].
Fixpoint roots_disjoint (before roots : list CollectionRoot) : bool :=
  match roots with
  | [] => true
  | r :: roots =>
      forallb (fun o => negb (root_token r =s root_token o)
                        && negb (path_starts_with (normalized_path r) (normalized_path o))
                        && negb (path_starts_with (normalized_path o) (normalized_path r))) before
      && roots_disjoint (before ++ [r]) roots
  end.
Definition root_valid (r : CollectionRoot) : bool :=
  negb (root_token r =s "") && negb (str_mem_char NUL (root_token r)) && is_absolute (normalized_path r)
  && negb (existsb (fun c => c =s "..") (split_char SLASH (normalized_path r))).
(** Each root of the offer, with the path its token always had. *)
Fixpoint offer_roots (m : gmap string (string * bool)) (roots : list CollectionRoot)
    : result string (gmap string (string * bool)) :=
  match roots with
  | [] => Ok m
  | r :: roots =>
      ensure (is_none_or (fun '(p, _) => p =s normalized_path r) (m !! root_token r)) "root token changed path" (
      ensure (is_some (m !! root_token r)
              || negb (existsb (fun '(_, (p, _)) => p =s normalized_path r) (map_to_list m))) "root path taken" (
      offer_roots (<[root_token r := (normalized_path r, true)]> m) roots))
  end.
Definition forget_versions (f : HubFile) : HubFile :=
  mkHubFile 0 (hf_seen f) (hf_base f) ((fun x => mkFact 0 (sf_seen x) (sf_payload x)) <$> hf_facts f).
Definition needs_snapshot (h : Hub) (o : Offer) : bool :=
  negb (hb_epoch h =s o_epoch o) || hb_active h || (hb_version h =? 0) || (o_current o <? hb_version h)
  || (hb_version h <? o_oldest o).
Definition offer_collection (existing : option Hub) (o : Offer) : result string (Hub * CatalogCursor) :=
  ensure (str_mem (o_media_type o) MEDIA_TYPES) "unknown media type" (
  ensure (negb (o_id o =s "") && negb (o_epoch o =s "")) "empty collection identity" (
  ensure (o_oldest o <=? o_current o) "invalid replay interval" (
  let? _ := integer (o_current o) in
  ensure (forallb root_valid (o_roots o) && roots_disjoint [] (o_roots o)) "invalid, duplicate or overlapping roots" (
  ensure (is_none_or (fun h => hb_media_type h =s o_media_type o) existing) "collection type changed" (
  let '(version, snapshot, generation, changed, roots, files) :=
    match existing with
    | Some h =>
        let snapshot := needs_snapshot h o in
        (if snapshot then 0 else hb_version h, snapshot, hb_generation h + (if snapshot then 1 else 0),
         negb (hb_epoch h =s o_epoch o), hb_roots h, hb_files h)
    | None => (0, true, 1, false, ∅, ∅)
    end in
  let? roots := offer_roots ((fun '(p, _) => (p, false)) <$> roots) (o_roots o) in
  Ok (mkHub (o_id o) (o_media_type o) (o_epoch o) version snapshot generation 0 roots
        (if changed then forget_versions <$> files else files),
      mkCursor (o_id o) (o_epoch o) version snapshot)))))).
(** The offer of a host: every collection, and none that it does not name. *)
Fixpoint offer_catalogue_from (offered : list string) (hubs : gmap string Hub) (offers : list Offer)
    : result string (gmap string Hub * list CatalogCursor * list string) :=
  match offers with
  | [] => Ok (hubs, [], offered)
  | o :: offers =>
      ensure (negb (str_mem (o_id o) offered)) "duplicate collection ID" (
      ensure (negb (length (o_roots o) =? 0)%nat) "collection has no roots" (
      let? answer := offer_collection (hubs !! o_id o) o in
      let '(h, cursor) := answer in
      let? rest := offer_catalogue_from (o_id o :: offered) (<[o_id o := h]> hubs) offers in
      let '(hubs, cursors, offered) := rest in
      Ok (hubs, cursor :: cursors, offered)))
  end.
Definition offer_catalogue (host : string) (hubs : gmap string Hub) (offers : list Offer)
    : result string (gmap string Hub * list CatalogCursor) :=
  ensure (negb (host =s "")) "empty mediahost ID" (
  let? rest := offer_catalogue_from [] hubs offers in
  let '(hubs, cursors, offered) := rest in
  Ok (filter (fun '(id, _) => str_mem id offered) hubs, cursors)).

(** ** Messages *)

Definition FACT_KINDS : list string := [FILE_ERROR; HASHES; LOUDNESS; ATTACHMENTS; KEYFRAME; GEOMETRY; SEGMENTS].
(** [SourceFact::decode] and [identity]: collection, source, and what guards the
    revision of its file. *)
Definition identity (kind : string) (p : Payload) : result string (string * option Source * option Z * option Z) :=
  match p with
  | FileError collection source _ =>
      ensure (kind =s FILE_ERROR) "undecodable payload" (Ok (collection, source, None, None))
  | FactOf k collection answers =>
      ensure ((kind =s k) && negb (kind =s FILE_ERROR) && str_mem kind FACT_KINDS) "undecodable payload" (
      match answers with
      | [a] =>
          Ok (collection, a_source a, Some (a_size a),
              then_some ((kind =s LOUDNESS) || (kind =s SEGMENTS)) (a_mtime a))
      | _ => Err "record must contain one source"
      end)
  | _ => Err "undecodable payload"
  end.

Section Apply.
Context {json : MediaJson}.

Definition component_depth (v : VideoStream) : bool := is_none_or (fun d => (1 <=? d) && (d <=? 16)) (v_bit_depth v).
Definition media_of (f : FileRecord) : result string MediaInfo :=
  let? media := ok_or (media_of_json (f_streams f)) "invalid media" in
  ensure (forallb component_depth (video media)) "non-component video depth" (Ok media).
Definition base_with (f : FileRecord) (media : MediaInfo) : result string Base :=
  let? size := integer (f_size f) in
  Ok (mkBase size (f_mtime f) (f_head f) (f_tail f) (f_oshash f) (json_of_media media)).
Definition same_base (old : option Base) (b : Base) : bool :=
  is_some_and (fun o => (b_size o =? b_size b) && (b_mtime o =? b_mtime b) && (b_head o =? b_head b)
                        && (b_tail o =? b_tail b)) old.
(** What the statements of one live record do to the row of its file. *)
Definition apply_file (h : Hub) (snapshot : bool) (at_ : Source) (r : CatalogRecord) (row : HubFile)
    : result string HubFile :=
  match w_payload r with
  | FileUpsert collection [f] =>
      ensure (collection =s hb_remote h) "file record changed collection or count" (
      ensure (validate_source (f_source f) at_) "catalogue key and payload source differ" (
      let? media := media_of f in
      if negb snapshot && (w_version r <? hf_version row)
      then Ok (mkHubFile (hf_version row) (hb_generation h) (hf_base row) (hf_facts row))
      else
        let? b := base_with f media in
        Ok (mkHubFile (w_version r) (hb_generation h) (Some b)
              (if same_base (hf_base row) b then hf_facts row else ∅))))
  | FileUpsert _ _ => Err "file record changed collection or count"
  | _ => Err "undecodable payload"
  end.
Definition guard_holds (base : option Base) (size mtime : option Z) : bool :=
  is_none_or (fun s => is_some_and (fun b => (b_size b =? s) && is_none_or (fun m => m =? b_mtime b) mtime) base) size.
Definition apply_fact (h : Hub) (snapshot : bool) (at_ : Source) (r : CatalogRecord) (row : HubFile)
    : result string HubFile :=
  let? i := identity (w_kind r) (w_payload r) in
  let '(collection, source, size, mtime) := i in
  ensure (collection =s hb_remote h) "fact changed collection" (
  ensure (validate_source source at_) "catalogue key and payload source differ" (
  let? _ := match size with Some n => integer n | None => Ok 0 end in
  ensure (guard_holds (hf_base row) size mtime) "discovery fact has stale or missing source revision" (
  let row :=
    if w_kind r =s FILE_ERROR then
      if snapshot && negb (hf_seen row =? hb_generation h) then mkHubFile 0 (hb_generation h) None ∅
      else mkHubFile (hf_version row) (hb_generation h) (hf_base row) (hf_facts row)
    else row in
  let fact :=
    match hf_facts row !! w_kind r with
    | Some old =>
        if snapshot then mkFact (w_version r) (hb_generation h) (w_payload r)
        else mkFact (Z.max (sf_version old) (w_version r)) (hb_generation h)
               (if sf_version old <=? w_version r then w_payload r else sf_payload old)
    | None => mkFact (w_version r) (hb_generation h) (w_payload r)
    end in
  Ok (mkHubFile (hf_version row) (hf_seen row) (hf_base row) (<[w_kind r := fact]> (hf_facts row)))))).
Definition apply_row (h : Hub) (snapshot : bool) (at_ : Source) (r : CatalogRecord) (row : option HubFile)
    : result string (option HubFile) :=
  if w_deleted r then
    ensure (negb snapshot) "snapshot contains tombstone" (
    if w_kind r =s FILE then Ok None
    else
      ensure (str_mem (w_kind r) FACT_KINDS) "unsupported tombstone kind" (
      Ok ((fun row => mkHubFile (hf_version row) (hf_seen row) (hf_base row) (delete (w_kind r) (hf_facts row))) <$> row)))
  else
    ensure (is_some_and snd (hb_roots h !! fst at_)) "no such root" (
    let row := unwrap_or row (mkHubFile 0 0 None ∅) in
    let? row := if w_kind r =s FILE then apply_file h snapshot at_ r row else apply_fact h snapshot at_ r row in
    Ok (Some row)).
Definition set_row (files : gmap Source HubFile) (at_ : Source) (row : option HubFile) : gmap Source HubFile :=
  match row with Some row => <[at_ := row]> files | None => delete at_ files end.

(** The records of a message, in order: the rows, the version of the record
    before, and the greatest of the snapshot. *)
Fixpoint apply_records (h : Hub) (m : CatalogDelta) (files : gmap Source HubFile) (previous snapshot_max : Z)
    (records : list CatalogRecord) : result string (gmap Source HubFile * Z) :=
  match records with
  | [] => Ok (files, snapshot_max)
  | r :: records =>
      ensure (0 <? w_version r) "zero record version" (
      let? _ := integer (w_version r) in
      let snapshot_max := Z.max snapshot_max (w_version r) in
      ensure (hb_active h || ((previous <? w_version r) && (w_version r <=? m_through m)))
        "unordered catalogue chunk or unsafe cursor" (
      let previous := if hb_active h then previous else w_version r in
      if negb (hb_active h) && (w_version r <=? hb_version h)
      then apply_records h m files previous snapshot_max records
      else
        ensure (negb (hb_active h && m_done m) || (w_version r <=? m_through m)) "snapshot cursor precedes record" (
        let? at_ := hub_source_key (w_key r) in
        let? row := apply_row h (hb_active h) at_ r (files !! at_) in
        apply_records h m (set_row files at_ row) previous snapshot_max records)))
  end.
(** The end of a snapshot: what it did not name goes. *)
Definition keep_seen (generation : Z) (f : HubFile) : HubFile :=
  mkHubFile (hf_version f) (hf_seen f) (hf_base f) (filter (fun '(_, x) => sf_seen x = generation) (hf_facts f)).
Definition sweep (generation : Z) (files : gmap Source HubFile) : gmap Source HubFile :=
  filter (fun '(_, f) => hf_seen f = generation) (keep_seen generation <$> files).

Definition CatalogAck : Type := (string * Z)%type.      (* epoch and version *)
Definition apply_catalogue (h : Hub) (m : CatalogDelta) : result string (Hub * option CatalogAck) :=
  ensure (hb_remote h =s m_collection m) "no such collection" (
  ensure (hb_epoch h =s m_epoch m) "catalogue epoch mismatch" (
  let? _ := integer (m_through m) in
  if m_snapshot m && negb (hb_active h) then
    ensure (m_done m && (m_through m <=? hb_version h)) "unexpected snapshot chunk" (
    Ok (h, Some (m_epoch m, hb_version h)))
  else
    ensure (negb (hb_active h) || m_done m || (m_through m =? 0)) "unfinished snapshot advanced cursor" (
    let? applied := apply_records h m (hb_files h) 0 (hb_snapshot_max h) (m_records m) in
    let '(files, snapshot_max) := applied in
    let last := hb_active h && m_done m in
    ensure (negb last || (snapshot_max <=? m_through m)) "snapshot cursor precedes earlier chunk" (
    let files := if last then sweep (hb_generation h) files else files in
    (* files go with their root *)
    let roots := if last then filter (fun '(_, (_, active)) => active = true) (hb_roots h) else hb_roots h in
    let files := if last then filter (fun '(at_, _) => is_Some (roots !! fst at_)) files else files in
    let unfinished := hb_active h && negb (m_done m) in
    let version := if unfinished then 0 else Z.max (hb_version h) (m_through m) in
    Ok (mkHub (hb_remote h) (hb_media_type h) (hb_epoch h) version unfinished (hb_generation h)
          (if unfinished then snapshot_max else 0) roots files,
        then_some (m_done m) (m_epoch m, version)))))).

End Apply.
