(* ===== verification/ReplicaFacts.v ===== *)
(** * One message of a replayed log

    What the row of one file at the hub says of the records of its key, and how
    the records of a message bring it from one version of the log to the next. *)
From S2P Require Import Prelude Media Catalog CatalogTheorems CatalogLink CatalogLinkTheorems Replica.
#[local] Open Scope Z_scope.

(** ** Checks passed *)

Lemma ensure_inv {A} (b : bool) (e : string) (k : result string A) v : ensure b e k = Ok v -> b = true /\ k = Ok v.
Proof. by destruct b. Qed.
Lemma rbind_inv {A B} (r : result string A) (k : A -> result string B) v :
  rbind r k = Ok v -> exists a, r = Ok a /\ k a = Ok v.
Proof. destruct r as [a|e]; [|done]. intros H. by exists a. Qed.
(** Every check and every fallible step of an operation that succeeded. *)
Ltac unchain H :=
  repeat match type of H with
  | ensure _ _ _ = Ok _ => apply ensure_inv in H as [? H]
  | rbind _ _ = Ok _ => apply rbind_inv in H as (? & ? & H)
  end.

(** ** Addresses *)

Lemma split_once_spec c s l r : split_once c s = Some (l, r) -> s = (l ++ String c r)%string /\ str_mem_char c l = false.
Proof.
  revert l. induction s as [|a s IH]; intros l H; [done|]. cbn [split_once] in H.
  destruct (Ascii.eqb a c) eqn:E.
  - injection H as <- <-. apply Ascii.eqb_eq in E as ->. done.
  - destruct (split_once c s) as [[l' r']|]; [|done]. cbn in H. injection H as <- <-. destruct (IH l' eq_refl) as [-> H].
    split; [done|]. cbn [str_mem_char]. by rewrite E.
Qed.
Lemma split_once_key c l r : str_mem_char c l = false -> split_once c (l ++ String c r) = Some (l, r).
Proof.
  induction l as [|a l IH]; intros H; simpl.
  - by rewrite Ascii.eqb_refl.
  - simpl in H. apply orb_false_iff in H as [-> H]. by rewrite (IH H).
Qed.
Lemma hub_source_key_spec key at_ : hub_source_key key = Ok at_ -> key = key_of at_ /\ nul_free (fst at_).
Proof.
  unfold hub_source_key. destruct (split_once NUL key) as [[root path]|] eqn:E; [|done].
  apply split_once_spec in E as [-> E]. intros H. unchain H. injection H as <-. done.
Qed.

(** ** Rows *)

Definition row_base (row : option HubFile) : option Base := x ← row; hf_base x.
Definition row_fact (row : option HubFile) (kind : string) : option Payload :=
  x ← row; f ← hf_facts x !! kind; Some (sf_payload f).
Definition base_of {json : MediaJson} (f : FileRecord) : result string Base := let? media := media_of f in base_with f media.

(** The row of a file agrees with the records of its key up to a version. *)
Record synced {json : MediaJson} (c : Catalog) (t : Z) (s : Source) (row : option HubFile) : Prop := {
  sy_fact : forall kind r, kind <> FILE -> c_records c !! (kind, key_of s) = Some r -> rc_version r <= t ->
    row_fact row kind = if rc_deleted r then None else Some (rc_payload r);
  sy_nofact : forall kind, kind = FILE \/ c_records c !! (kind, key_of s) = None -> row_fact row kind = None;
  sy_file : forall r, c_records c !! (FILE, key_of s) = Some r -> rc_version r <= t ->
    if rc_deleted r then row_base row = None
    else exists f b, rc_payload r = FileUpsert (c_name c) [f] /\ f_source f = Some s /\ base_of f = Ok b /\ row_base row = Some b;
  sy_nofile : c_records c !! (FILE, key_of s) = None -> row_base row = None;
  sy_gone : (forall kind r, c_records c !! (kind, key_of s) = Some r -> rc_deleted r = true /\ rc_version r <= t) -> row = None;
  sy_version : forall x, row = Some x -> hf_version x <= t /\ forall kind f, hf_facts x !! kind = Some f -> sf_version f <= t;
}.
Record replica {json : MediaJson} (c : Catalog) (t : Z) (files : gmap Source HubFile) : Prop := {
  rp_root : forall s row, files !! s = Some row -> nul_free (fst s);
  rp_row : forall s, nul_free (fst s) -> synced c t s (files !! s);
}.

Section Rows.
Context {json : MediaJson}.

(** No record of the key between two versions. *)
Lemma synced_raise c t t' s row :
  t <= t' -> (forall kind r, c_records c !! (kind, key_of s) = Some r -> rc_version r <= t' -> rc_version r <= t) ->
  synced c t s row -> synced c t' s row.
Proof.
  intros Ht Hno [S1 S2 S3 S4 S5 S6]. split; try done.
  - intros kind r Hk Hr Hv. apply (S1 kind r Hk Hr). by apply (Hno kind).
  - intros r Hr Hv. apply (S3 r Hr). by apply (Hno FILE).
  - intros Hall. apply S5. intros kind r Hr. destruct (Hall kind r Hr) as [Hd Hv]. split; [done|]. by apply (Hno kind).
  - intros x Hx. destruct (S6 x Hx) as [H1 H2]. split; [lia|]. intros kind f Hf. specialize (H2 kind f Hf). lia.
Qed.
Lemma synced_evolves c c' t s row : evolves c c' -> t <= c_current c -> synced c t s row -> synced c' t s row.
Proof.
  intros (N & _ & _ & _ & R & D) Ht [S1 S2 S3 S4 S5 S6]. split.
  - intros kind r Hk Hr Hv. apply (S1 kind r Hk); [|done]. apply R; [done|lia].
  - intros kind [->|Hr]; [apply S2; by left|]. apply S2. right. destruct (c_records c !! (kind, key_of s)) eqn:E; [|done].
    destruct (D (kind, key_of s) ltac:(by eexists)) as [x Hx]. congruence.
  - intros r Hr Hv. rewrite N. apply (S3 r); [|done]. apply R; [done|lia].
  - intros Hr. apply S4. destruct (c_records c !! (FILE, key_of s)) eqn:E; [|done].
    destruct (D (FILE, key_of s) ltac:(by eexists)) as [x Hx]. congruence.
  - intros Hall. apply S5. intros kind r Hr. destruct (D (kind, key_of s) ltac:(by eexists)) as [x Hx].
    destruct (Hall kind x Hx) as [Hd Hv]. pose proof (R _ _ Hx ltac:(lia)) as Hx'. rewrite Hr in Hx'. by injection Hx' as ->.
  - done.
Qed.
Lemma replica_evolves c c' t files : evolves c c' -> t <= c_current c -> replica c t files -> replica c' t files.
Proof. intros He Ht [R1 R2]. split; [done|]. intros s Hs. by apply (synced_evolves c), R2. Qed.

(** Nothing derived is live that is older than the record of its file. *)
Lemma derived_after_file c s kind x f :
  key_inv c s -> kind <> FILE -> c_records c !! (kind, key_of s) = Some x -> c_records c !! (FILE, key_of s) = Some f ->
  rc_version x <= rc_version f -> rc_deleted x = true.
Proof.
  intros [K1 K2 _ _] Hk Hx Hf Hv. destruct (rc_deleted x) eqn:E; [done|]. exfalso.
  destruct (decide (kind = FILE_ERROR)) as [->|Hne].
  - destruct (K2 x f) as [_ H]; [by split|done|lia].
  - destruct (K1 kind x Hk Hne) as (f' & [Hf' _] & H); [by split|]. rewrite Hf in Hf'. injection Hf' as ->. lia.
Qed.
End Rows.

(** ** What a record does to the row of its file *)

Section Steps.
Context {json : MediaJson}.
Definition EMPTY : HubFile := mkHubFile 0 0 None ∅.
Definition fresh_for (snapshot : bool) (r : CatalogRecord) (row : option HubFile) : Prop :=
  snapshot = true \/ forall x, row = Some x -> hf_version x <= w_version r
                      /\ forall kind f, hf_facts x !! kind = Some f -> sf_version f <= w_version r.

Lemma tombstone_row h snapshot s r row row' :
  w_deleted r = true -> apply_row h snapshot s r row = Ok row' ->
  snapshot = false /\ row' = if w_kind r =s FILE then None
    else (fun x => mkHubFile (hf_version x) (hf_seen x) (hf_base x) (delete (w_kind r) (hf_facts x))) <$> row.
Proof.
  intros Hd H. unfold apply_row in H. rewrite Hd in H. unchain H. split; [by apply negb_true_iff|].
  destruct (w_kind r =s FILE); [by injection H|]. unchain H. by injection H.
Qed.
Lemma file_row h snapshot s r row row' :
  w_deleted r = false -> w_kind r = FILE -> 0 <= w_version r -> fresh_for snapshot r row ->
  apply_row h snapshot s r row = Ok row' ->
  is_some_and snd (hb_roots h !! fst s) = true
  /\ exists f b, w_payload r = FileUpsert (hb_remote h) [f] /\ f_source f = Some s /\ base_of f = Ok b
     /\ row' = Some (mkHubFile (w_version r) (hb_generation h) (Some b)
                       (if same_base (row_base row) b then hf_facts (default EMPTY row) else ∅)).
Proof.
  intros Hd Hk Hv Hfresh H. unfold apply_row in H. rewrite Hd, Hk in H. unchain H. split; [done|].
  cbn [String.eqb] in *. rewrite String.eqb_refl in *.
  match goal with H' : _ = Ok ?y, H : Ok (Some ?y) = Ok row' |- _ => rename H' into Ha; rename y into x end.
  injection H as <-. unfold apply_file in Ha. destruct (w_payload r) as [|col fs| |]; try done.
  destruct fs as [|f [|g fs]]; try done. unchain Ha.
  match goal with H' : (col =s _) = true |- _ => apply String.eqb_eq in H' as -> end.
  match goal with H' : validate_source _ _ = true |- _ => unfold validate_source in H'; apply bool_decide_eq_true in H' end.
  destruct (negb snapshot && (w_version r <? hf_version (unwrap_or row (mkHubFile 0 0 None ∅)))) eqn:Hskip.
  { exfalso. apply andb_true_iff in Hskip as [Hs%negb_true_iff Hlt%Z.ltb_lt]. destruct Hfresh as [->|Hfresh]; [done|].
    destruct row as [w|]; simpl in Hlt; [|lia]. destruct (Hfresh w eq_refl). lia. }
  unchain Ha. injection Ha as <-. do 2 eexists. split_and!; [done|done|unfold base_of|].
  - match goal with H : media_of f = Ok _ |- _ => rewrite H end. cbn [rbind]. done.
  - f_equal. f_equal. by destruct row.
Qed.
(** The row a fact goes into: an error clears a row its snapshot has not named. *)
Definition under_fact (h : Hub) (snapshot : bool) (kind : string) (row : HubFile) : HubFile :=
  if kind =s FILE_ERROR then
    if snapshot && negb (hf_seen row =? hb_generation h) then mkHubFile 0 (hb_generation h) None ∅
    else mkHubFile (hf_version row) (hb_generation h) (hf_base row) (hf_facts row)
  else row.
Lemma fact_row h snapshot s r row row' :
  w_deleted r = false -> w_kind r <> FILE -> 0 <= w_version r -> fresh_for snapshot r row ->
  apply_row h snapshot s r row = Ok row' ->
  is_some_and snd (hb_roots h !! fst s) = true
  /\ (w_kind r = FILE_ERROR \/ is_Some (row_base row))
  /\ let x := under_fact h snapshot (w_kind r) (default EMPTY row) in
     row' = Some (mkHubFile (hf_version x) (hf_seen x) (hf_base x)
                    (<[w_kind r := mkFact (w_version r) (hb_generation h) (w_payload r)]> (hf_facts x))).
Proof.
  intros Hd Hk%String.eqb_neq Hv Hfresh H. unfold apply_row in H. rewrite Hd, Hk in H. unchain H. split; [done|].
  match goal with H' : _ = Ok ?y, H : Ok (Some ?y) = Ok row' |- _ => rename H' into Ha; rename y into x end.
  injection H as <-. unfold apply_fact in Ha. apply rbind_inv in Ha as ([[[col src] sz] mt] & Hid & Ha). unchain Ha. injection Ha as <-.
  change (unwrap_or row (mkHubFile 0 0 None ∅)) with (default EMPTY row) in *. split.
  - unfold identity in Hid. destruct (w_payload r) as [| |c' src' text|k' c' answers]; try done; unchain Hid.
    + left. by apply String.eqb_eq.
    + right. destruct answers as [|a [|]]; try done. injection Hid as <- <- <- <-.
      match goal with H : guard_holds _ _ _ = true |- _ => cbn [guard_holds is_none_or] in H; apply is_some_and_spec in H as (b & Hb & _) end.
      destruct row as [w|]; [|done]. by exists b.
  - cbv zeta. fold (under_fact h snapshot (w_kind r) (default EMPTY row)). set (x := under_fact _ _ _ _).
    f_equal. f_equal. f_equal. destruct (hf_facts x !! w_kind r) as [old|] eqn:Eo; [|done]. destruct snapshot; [done|].
    assert (sf_version old <= w_version r) as Hold.
    { destruct Hfresh as [|Hf]; [done|]. destruct row as [w|].
      - destruct (Hf w eq_refl) as [_ H']. apply (H' (w_kind r)). subst x. unfold under_fact in Eo. cbn [default] in Eo.
        destruct (w_kind r =s FILE_ERROR); [|done]. exact Eo.
      - subst x. unfold under_fact in Eo. cbn [default andb] in Eo. destruct (w_kind r =s FILE_ERROR); by simpl in Eo. }
    rewrite Z.max_r by done. by apply Z.leb_le in Hold as ->.
Qed.
End Steps.

(** ** The next record of the log *)

Section Delta.
Context {json : MediaJson} (c : Catalog) (Hc : cat_inv c).

Lemma row_fact_some (row : option HubFile) x kind : row = Some x -> row_fact row kind = sf_payload <$> hf_facts x !! kind.
Proof. intros ->. unfold row_fact. simpl. by destruct (hf_facts x !! kind). Qed.

Section Step.
Context (t : Z) (s : Source) (h : Hub) (row : option HubFile) (kind : string) (x : Rec).
Context (Hs : nul_free (fst s)) (Hname : hb_remote h = c_name c) (Hx : c_records c !! (kind, key_of s) = Some x)
  (Ht : 0 <= t < rc_version x)
  (Hnext : forall id y, c_records c !! id = Some y -> t < rc_version y -> rc_version x <= rc_version y)
  (Hsync : synced c t s row).
#[local] Notation v := (rc_version x).
#[local] Notation r := (wire (kind, key_of s) x).

(** Up to the new version, the records of the key are the new one and older others. *)
Lemma step_records k y : c_records c !! (k, key_of s) = Some y -> rc_version y <= v -> k = kind /\ y = x \/ k <> kind /\ rc_version y <= t.
Proof.
  intros Hy Hv. destruct (decide (k = kind)) as [->|Hne]; [left; split; [done|congruence]|]. right. split; [done|].
  destruct (Z.le_gt_cases (rc_version y) t) as [|Hgt]; [done|]. pose proof (Hnext _ _ Hy ltac:(lia)).
  assert (rc_version y = v) as E by lia. apply (ci_unique _ Hc _ _ _ _ Hy Hx) in E. by injection E as ->.
Qed.
Lemma step_fresh : fresh_for false r row.
Proof.
  right. intros w Hw. destruct (sy_version _ _ _ _ Hsync w Hw) as [H1 H2]. simpl. split; [lia|].
  intros k f Hf. specialize (H2 k f Hf). lia.
Qed.
Lemma step_version w : row = Some w -> hf_version w <= v /\ forall k f, hf_facts w !! k = Some f -> sf_version f <= v.
Proof.
  intros Hw. destruct (sy_version _ _ _ _ Hsync w Hw) as [H1 H2]. split; [lia|]. intros k f Hf. specialize (H2 k f Hf). lia.
Qed.
Lemma step_tombstone_file : kind = FILE -> rc_deleted x = true -> synced c v s None.
Proof.
  intros Hk Hd. rewrite Hk in Hx. split; try done.
  - intros k y Hk' Hy Hv. cbn. by rewrite (derived_after_file c s k y x (ci_file _ Hc s Hs) Hk' Hy Hx Hv).
  - intros y Hy Hv. rewrite Hx in Hy. injection Hy as <-. by rewrite Hd.
Qed.
Lemma step_tombstone_fact : kind <> FILE -> rc_deleted x = true ->
  synced c v s ((fun w => mkHubFile (hf_version w) (hf_seen w) (hf_base w) (delete kind (hf_facts w))) <$> row).
Proof.
  intros Hk Hd.
  assert (forall k, row_fact ((fun w => mkHubFile (hf_version w) (hf_seen w) (hf_base w) (delete kind (hf_facts w))) <$> row) k
          = if decide (k = kind) then None else row_fact row k) as Hf.
  { intros k. destruct row as [w|]; cbn [fmap option_fmap option_map]; [|by destruct (decide _)].
    rewrite !(row_fact_some _ _ _ eq_refl). cbn [hf_facts].
    destruct (decide (k = kind)) as [->|]; [by rewrite lookup_delete_eq|]. by rewrite lookup_delete_ne. }
  assert (forall w, row_base ((fun w => mkHubFile (hf_version w) (hf_seen w) (hf_base w) (delete kind (hf_facts w))) <$> w) = row_base w) as Hb
    by (by intros [w|]).
  split; rewrite ?Hb.
  - intros k y Hk' Hy Hv. rewrite Hf. destruct (step_records k y Hy Hv) as [[-> ->]|[Hne Hle]].
    + by rewrite decide_True, Hd.
    + rewrite decide_False by done. by apply (sy_fact _ _ _ _ Hsync).
  - intros k Hn. rewrite Hf. destruct (decide _); [done|]. by apply (sy_nofact _ _ _ _ Hsync).
  - intros y Hy Hv. destruct (step_records FILE y Hy Hv) as [[E _]|[_ Hle]]; [by rewrite E in Hk|].
    by apply (sy_file _ _ _ _ Hsync).
  - apply (sy_nofile _ _ _ _ Hsync).
  - intros Hall. exfalso. destruct (ki_gone _ _ (ci_file _ Hc s Hs) kind x Hx) as (f & Hf' & Hle).
    { intros k y Hy. by destruct (Hall k y Hy). }
    destruct (Hall FILE f Hf') as [_ Hv]. destruct (step_records FILE f Hf' Hv) as [[E _]|[_ Hle']]; [by rewrite E in Hk|lia].
  - intros w Hw. pose proof step_version as Hsv. destruct row as [w0|]; [|done]. cbn in Hw. injection Hw as <-.
    destruct (Hsv w0 eq_refl) as [H1 H2]. split; [done|]. intros k f. cbn [hf_facts]. rewrite lookup_delete_Some. intros [_ Hk']. by apply (H2 k).
Qed.
Lemma step_live_gone : rc_deleted x = false ->
  ~ (forall k y, c_records c !! (k, key_of s) = Some y -> rc_deleted y = true /\ rc_version y <= v).
Proof. intros Hd Hall. destruct (Hall kind x Hx). congruence. Qed.
Lemma step_file f b : kind = FILE -> rc_deleted x = false -> rc_payload x = FileUpsert (hb_remote h) [f] ->
  f_source f = Some s -> base_of f = Ok b ->
  synced c v s (Some (mkHubFile v (hb_generation h) (Some b)
                        (if same_base (row_base row) b then hf_facts (default EMPTY row) else ∅))).
Proof.
  intros Hk Hd Hp Hsrc Hb. pose proof Hx as Hxf. rewrite Hk in Hxf. set (facts := if same_base _ _ then _ else _).
  assert (forall k, row_fact row k = None -> sf_payload <$> facts !! k = None) as Hfacts.
  { intros k. subst facts. destruct (same_base _ _); [|by rewrite lookup_empty]. destruct row as [w|]; cbn [default].
    - by rewrite (row_fact_some _ _ _ eq_refl).
    - simpl. by rewrite lookup_empty. }
  split; rewrite ?(row_fact_some _ _ _ eq_refl); cbn [hf_facts].
  - intros k y Hk' Hy Hv. rewrite (row_fact_some _ _ _ eq_refl). cbn [hf_facts].
    rewrite (derived_after_file c s k y x (ci_file _ Hc s Hs) Hk' Hy Hxf Hv). apply Hfacts.
    destruct (step_records k y Hy Hv) as [[E _]|[_ Hle]]; [by rewrite E in Hk'|].
    rewrite (sy_fact _ _ _ _ Hsync k y Hk' Hy Hle).
    by rewrite (derived_after_file c s k y x (ci_file _ Hc s Hs) Hk' Hy Hxf Hv).
  - intros k Hn. rewrite (row_fact_some _ _ _ eq_refl). cbn [hf_facts]. apply Hfacts. by apply (sy_nofact _ _ _ _ Hsync).
  - intros y Hy _. rewrite Hxf in Hy. injection Hy as <-. rewrite Hd. exists f, b. rewrite Hp, Hname. done.
  - intros Hn. congruence.
  - intros Hall. by destruct (step_live_gone Hd).
  - intros w Hw. injection Hw as <-. split; [done|]. intros k g. cbn [hf_facts]. subst facts.
    pose proof step_version as Hsv. destruct (same_base _ _); [|by rewrite lookup_empty].
    destruct row as [w0|]; [|simpl; by rewrite lookup_empty]. apply (Hsv w0 eq_refl).
Qed.
Lemma step_fact : kind <> FILE -> rc_deleted x = false ->
  let w := under_fact h false kind (default EMPTY row) in
  synced c v s (Some (mkHubFile (hf_version w) (hf_seen w) (hf_base w)
                        (<[kind := mkFact v (hb_generation h) (rc_payload x)]> (hf_facts w)))).
Proof.
  intros Hk Hd w.
  assert (hf_version w = hf_version (default EMPTY row) /\ hf_base w = row_base row
          /\ forall k, sf_payload <$> hf_facts w !! k = row_fact row k) as (Hwv & Hwb & Hwf).
  { subst w. unfold under_fact. cbn [andb]. destruct (kind =s FILE_ERROR); destruct row as [w0|]; cbn;
      rewrite ?(row_fact_some _ _ _ eq_refl); done. }
  assert (hf_facts w = hf_facts (default EMPTY row)) as Hwm.
  { subst w. unfold under_fact. cbn [andb]. by destruct (kind =s FILE_ERROR). }
  clearbody w. split.
  - intros k y Hk' Hy Hv. rewrite (row_fact_some _ _ _ eq_refl). cbn [hf_facts].
    destruct (step_records k y Hy Hv) as [[-> ->]|[Hne Hle]].
    + by rewrite lookup_insert_eq, Hd.
    + rewrite lookup_insert_ne by done. rewrite Hwf. by apply (sy_fact _ _ _ _ Hsync).
  - intros k Hn. rewrite (row_fact_some _ _ _ eq_refl). cbn [hf_facts].
    assert (k <> kind) as Hne by (destruct Hn as [->|Hn]; [done|congruence]).
    rewrite lookup_insert_ne by done. rewrite Hwf. by apply (sy_nofact _ _ _ _ Hsync).
  - intros y Hy Hv. cbn [row_base mbind option_bind hf_base]. rewrite Hwb.
    destruct (step_records FILE y Hy Hv) as [[E _]|[_ Hle]]; [by rewrite E in Hk|]. by apply (sy_file _ _ _ _ Hsync).
  - intros Hn. cbn [row_base mbind option_bind hf_base]. rewrite Hwb. by apply (sy_nofile _ _ _ _ Hsync).
  - intros Hall. by destruct (step_live_gone Hd).
  - intros w' Hw'. injection Hw' as <-. cbn [hf_version hf_facts]. rewrite Hwv, Hwm. pose proof step_version as Hsv.
    destruct row as [w0|]; cbn [default].
    + destruct (Hsv w0 eq_refl) as [H1 H2]. split; [done|]. intros k f. rewrite lookup_insert_Some.
      intros [[_ <-]|[_ Hf]]; [done|]. by apply (H2 k).
    + split; [simpl; lia|]. intros k f. rewrite lookup_insert_Some. intros [[_ <-]|[_ Hf]]; [done|]. simpl in Hf. by rewrite lookup_empty in Hf.
Qed.
Lemma delta_row row' : apply_row h false s r row = Ok row' -> synced c v s row'.
Proof.
  intros H. destruct (rc_deleted x) eqn:Hd.
  - apply tombstone_row in H as [_ ->]; [|done]. cbn [w_kind wire fst].
    destruct (String.eqb_spec kind FILE); [by apply step_tombstone_file|by apply step_tombstone_fact].
  - destruct (decide (kind = FILE)) as [E|Hk].
    + apply file_row in H as (_ & f & b & Hp & Hsrc & Hb & ->); [|done|done|simpl; lia|apply step_fresh].
      by apply (step_file f b).
    + apply fact_row in H as (_ & _ & ->); [|done|done|simpl; lia|apply step_fresh]. by apply step_fact.
Qed.
End Step.

Lemma set_row_lookup files s row s' : set_row files s row !! s' = if decide (s' = s) then row else files !! s'.
Proof.
  unfold set_row. destruct row as [w|]; case_decide as E; subst.
  - by rewrite lookup_insert_eq.
  - by rewrite lookup_insert_ne.
  - by rewrite lookup_delete_eq.
  - by rewrite lookup_delete_ne.
Qed.
(** One record of the log, the next by version. *)
Lemma delta_record t h files r at_ row :
  hb_remote h = c_name c -> 0 <= t < w_version r -> is_record c r ->
  (forall y, is_record c y -> t < w_version y -> w_version r <= w_version y) ->
  replica c t files -> hub_source_key (w_key r) = Ok at_ -> apply_row h false at_ r (files !! at_) = Ok row ->
  replica c (w_version r) (set_row files at_ row).
Proof.
  intros Hname Ht ([kind key] & x & Hx & ->) Hnext [R1 R2] Hkey Hrow. cbn [wire w_key w_version fst snd] in *.
  apply hub_source_key_spec in Hkey as [-> Hs].
  assert (forall id y, c_records c !! id = Some y -> t < rc_version y -> rc_version x <= rc_version y) as Hnext'.
  { intros id y Hy. apply (Hnext (wire id y)). by exists id, y. }
  split.
  - intros s w. rewrite set_row_lookup. case_decide as E; [by subst|]. apply R1.
  - intros s Hns. rewrite set_row_lookup. case_decide as E.
    + subst s. apply (delta_row t at_ h (files !! at_) kind x); try done. by apply R2.
    + apply (synced_raise c t); [lia| |by apply R2]. intros k y Hy Hv.
      destruct (Z.le_gt_cases (rc_version y) t) as [|Hgt]; [done|]. pose proof (Hnext' _ _ Hy ltac:(lia)).
      assert (rc_version y = rc_version x) as Ev by lia. apply (ci_unique _ Hc _ _ _ _ Hy Hx) in Ev.
      injection Ev as _ Ev. by apply key_of_inj in Ev.
Qed.
(** The records of a message between two versions, none of them left out. *)
Definition window (lo hi : Z) (l : list CatalogRecord) : Prop :=
  by_version l /\ forall r, r ∈ l <-> is_record c r /\ lo < w_version r <= hi.
Lemma window_cons lo hi r l :
  window lo hi (r :: l) ->
  is_record c r /\ lo < w_version r <= hi /\ window (w_version r) hi l
  /\ forall y, is_record c y -> lo < w_version y -> w_version r <= w_version y.
Proof.
  intros [Hs Hin]. destruct (proj1 (Hin r) ltac:(left)) as [Hr Hv]. apply StronglySorted_inv in Hs as [Hs Hlt].
  rewrite Forall_forall in Hlt.
  assert (forall y, is_record c y -> lo < w_version y -> w_version r <= w_version y) as Hle.
  { intros y Hy Hlo. destruct (Z.le_gt_cases (w_version y) hi) as [Hhi|]; [|lia].
    assert (y ∈ r :: l) as [->|Hl]%elem_of_cons by (apply Hin; by split); [lia|]. apply Hlt in Hl. unfold version_lt in Hl. lia. }
  split_and!; try done; try lia. split; [done|]. intros y. split.
  - intros Hy. pose proof (proj1 (Hin y) ltac:(by right)) as [Hy' Hv']. apply Hlt in Hy. unfold version_lt in Hy. split; [done|lia].
  - intros [Hy Hv']. assert (y ∈ r :: l) as [->|]%elem_of_cons by (apply Hin; split; [done|lia]); [lia|done].
Qed.
Lemma delta_records h m hi l : hb_remote h = c_name c -> hb_active h = false -> forall files t previous smax files' smax',
  hb_version h <= t -> 0 <= t <= hi -> window t hi l -> replica c t files ->
  apply_records h m files previous smax l = Ok (files', smax') -> replica c hi files'.
Proof.
  intros Hname Ha. induction l as [|r l IH]; intros files t previous smax files' smax' Hv Ht Hw Hrep Happ; cbn [apply_records] in Happ.
  - injection Happ as <- <-. destruct Hrep as [R1 R2]. split; [done|]. intros s Hs.
    apply (synced_raise c t); [lia| |by apply R2]. intros k y Hy Hle.
    destruct (Z.le_gt_cases (rc_version y) t) as [|Hgt]; [done|].
    assert (wire (k, key_of s) y ∈ []) as Hin.
    { apply Hw. split; [by exists (k, key_of s), y|simpl; lia]. }
    by apply elem_of_nil in Hin.
  - apply window_cons in Hw as (Hr & Hlo & Hw & Hnext). rewrite Ha in Happ. cbn [orb negb andb] in Happ. unchain Happ.
    destruct (w_version r <=? hb_version h) eqn:E; [zbool; lia|]. unchain Happ.
    eapply (IH _ (w_version r)); [lia|lia|done| |exact Happ]. eapply delta_record; try done; lia.
Qed.
End Delta.
