(* ===== verification/ReplicaSnapshot.v ===== *)
(** * A snapshot of a catalogue

    The files first and then what was found out about them: what the rows of the
    generation under way say of the records received so far, and that the sweep
    at its end leaves exactly the live records of the catalogue. *)
From S2P Require Import Prelude Media Catalog CatalogTheorems CatalogLink CatalogLinkTheorems Replica ReplicaFacts.
#[local] Open Scope Z_scope.

(** ** The records of a snapshot *)

Section Due.
Context (c : Catalog) (Hc : cat_inv c).
#[local] Notation L := (due c 0 true).

Lemma due_spec r : r ∈ L <-> is_record c r /\ w_deleted r = false.
Proof.
  unfold due. rewrite elem_of_app. destruct (page_query_spec c true true 0 Hc) as [_ H1].
  destruct (page_query_spec c true false 0 Hc) as [_ H2]. rewrite H1, H2. unfold query_wants. split.
  - intros [(Hr & Hq & _)|(Hr & Hq & _)]; apply andb_true_iff in Hq as [Hq%negb_true_iff _]; done.
  - intros [Hr Hd]. pose proof (is_record_version c r Hc Hr). rewrite Hd. cbn [negb andb].
    destruct (w_kind r =s FILE) eqn:E; [left|right]; (split_and!; [done|done|lia]).
Qed.
Lemma by_version_nodup l : by_version l -> NoDup l.
Proof.
  induction 1 as [|r l _ IH Hr]; constructor; [|done]. intros Hin. rewrite Forall_forall in Hr. specialize (Hr r Hin).
  unfold version_lt in Hr. lia.
Qed.
Lemma due_nodup : NoDup L.
Proof.
  destruct (page_query_spec c true true 0 Hc) as [S1 H1]. destruct (page_query_spec c true false 0 Hc) as [S2 H2].
  unfold due. apply NoDup_app. split_and!; [by apply by_version_nodup| |by apply by_version_nodup].
  intros r Hr1 Hr2. apply H1 in Hr1 as (_ & Hq1 & _). apply H2 in Hr2 as (_ & Hq2 & _). unfold query_wants in *.
  apply andb_true_iff in Hq1 as [_ Hq1]. apply andb_true_iff in Hq2 as [_ Hq2]. by rewrite Hq1 in Hq2.
Qed.
Lemma record_ids r r' : is_record c r -> is_record c r' -> w_kind r = w_kind r' -> w_key r = w_key r' -> r = r'.
Proof.
  intros ([k1 key1] & x & Hx & ->) ([k2 key2] & y & Hy & ->). cbn. intros -> ->. rewrite Hx in Hy. by injection Hy as ->.
Qed.
(** What precedes a record of a snapshot. *)
Lemma due_split P r rest :
  L = P ++ r :: rest ->
  (forall r', r' ∈ P -> r' ∈ L) /\ r ∈ L /\ (forall r', r' ∈ P -> w_kind r' = w_kind r -> w_key r' = w_key r -> False)
  /\ (if decide (w_kind r = FILE) then forall r', r' ∈ P -> w_kind r' = FILE
      else forall r', r' ∈ L -> w_kind r' = FILE -> r' ∈ P).
Proof.
  intros HL.
  assert (r ∈ L) as Hr by (rewrite HL, elem_of_app; right; left).
  assert (forall r', r' ∈ P -> r' ∈ L) as HP by (intros r' Hr'; rewrite HL, elem_of_app; by left).
  split_and!; try done.
  - intros r' Hr' Hk Hkey. pose proof due_nodup as Hnd. rewrite HL in Hnd. apply NoDup_app in Hnd as (_ & Hnd & _).
    apply (Hnd r' Hr'). assert (r' = r) as ->; [|left].
    apply record_ids; [by apply due_spec, HP|by apply due_spec|done|done].
  - unfold due in HL. destruct (page_query_spec c true true 0 Hc) as [_ H1]. destruct (page_query_spec c true false 0 Hc) as [_ H2].
    assert (forall x, x ∈ page_query c true true 0 -> w_kind x = FILE) as Hf.
    { intros x (_ & Hq & _)%H1. apply andb_true_iff in Hq as [_ Hq]. by apply String.eqb_eq. }
    assert (forall x, x ∈ page_query c true false 0 -> w_kind x <> FILE) as Hn.
    { intros x (_ & Hq & _)%H2. apply andb_true_iff in Hq as [_ Hq]. by apply negb_true_iff, String.eqb_neq in Hq. }
    apply app_eq_app in HL as (mid & [[E1 E2]|[E1 E2]]).
    + (* [r] among the files, or first of the rest *)
      destruct mid as [|y mid].
      * rewrite app_nil_r in E1. cbn [app] in E2. subst P. case_decide as Hk.
        -- exfalso. apply (Hn r); [|done]. rewrite <- E2. left.
        -- intros r' Hr' Hk'. unfold due in Hr'. apply elem_of_app in Hr' as [Hr'|Hr']; [done|]. by apply Hn in Hr'.
      * injection E2 as <- E2. rewrite decide_True.
        -- intros r' Hr'. apply Hf. rewrite E1, elem_of_app. by left.
        -- apply Hf. rewrite E1, elem_of_app. right. left.
    + rewrite decide_False.
      * intros r' Hr' Hk'. unfold due in Hr'. rewrite E1, elem_of_app. apply elem_of_app in Hr' as [Hr'|Hr']; [by left|].
        by apply Hn in Hr'.
      * apply Hn. rewrite E2, elem_of_app. right. left.
Qed.
Lemma live_record r s : r ∈ L -> w_key r = key_of s -> exists x, rec_live c (w_kind r) (key_of s) x /\ r = wire (w_kind r, key_of s) x.
Proof. intros ([[k key] [x [Hx ->]]] & Hd)%due_spec Hk. cbn in *. subst key. by exists x. Qed.
(** An error stands for a file that has no other record. *)
Lemma error_alone e r s :
  nul_free (fst s) -> e ∈ L -> r ∈ L -> w_key e = key_of s -> w_key r = key_of s -> w_kind e = FILE_ERROR -> w_kind r = FILE_ERROR.
Proof.
  intros Hs He Hr Hke Hkr Hk. destruct (ci_file _ Hc s Hs) as [K1 K2 _ _].
  destruct (live_record e s He Hke) as (x & Hx & _). destruct (live_record r s Hr Hkr) as (y & Hy & _). rewrite Hk in Hx.
  destruct (decide (w_kind r = FILE_ERROR)) as [|Hne]; [done|]. exfalso.
  assert (exists f, rec_live c FILE (key_of s) f) as (f & Hf & Hd).
  { destruct (decide (w_kind r = FILE)) as [E|Hnf]; [exists y; by rewrite E in Hy|].
    destruct (K1 _ y Hnf Hne Hy) as (f & Hf & _). by exists f. }
  destruct (K2 x f Hx Hf). congruence.
Qed.
Lemma fact_has_file r s :
  nul_free (fst s) -> r ∈ L -> w_key r = key_of s -> w_kind r <> FILE -> w_kind r <> FILE_ERROR ->
  exists f, f ∈ L /\ w_key f = key_of s /\ w_kind f = FILE.
Proof.
  intros Hs Hr Hk H1 H2. destruct (live_record r s Hr Hk) as (x & Hx & _). destruct (ki_fact _ _ (ci_file _ Hc s Hs) _ x H1 H2 Hx) as (f & [Hf Hd] & _).
  exists (wire (FILE, key_of s) f). split_and!; [|done|done]. apply due_spec. split; [by exists (FILE, key_of s), f|done].
Qed.
End Due.

(** ** The rows of the generation under way *)

Definition seen_fact (generation : Z) (row : option HubFile) (kind : string) : option SourceFactRow :=
  w ← row; opt_filter (fun f => sf_seen f =? generation) (hf_facts w !! kind).
Definition seen_row (generation : Z) (row : option HubFile) : option HubFile :=
  opt_filter (fun w => hf_seen w =? generation) row.

Record snap_row {json : MediaJson} (c : Catalog) (h : Hub) (P : list CatalogRecord) (s : Source) (row : option HubFile) : Prop := {
  sn_fact : forall r, r ∈ P -> w_key r = key_of s -> w_kind r <> FILE ->
    seen_fact (hb_generation h) row (w_kind r) = Some (mkFact (w_version r) (hb_generation h) (w_payload r));
  sn_nofact : forall kind f, seen_fact (hb_generation h) row kind = Some f ->
    exists r, r ∈ P /\ w_key r = key_of s /\ w_kind r = kind /\ kind <> FILE;
  sn_row : forall w, seen_row (hb_generation h) row = Some w ->
    exists r, r ∈ P /\ w_key r = key_of s /\ (w_kind r = FILE \/ w_kind r = FILE_ERROR);
  sn_file : forall r, r ∈ P -> w_key r = key_of s -> w_kind r = FILE ->
    exists f b w, w_payload r = FileUpsert (c_name c) [f] /\ f_source f = Some s /\ base_of f = Ok b
      /\ seen_row (hb_generation h) row = Some w /\ hf_base w = Some b /\ hf_version w = w_version r;
  sn_error : forall r, r ∈ P -> w_key r = key_of s -> w_kind r = FILE_ERROR ->
    exists w, seen_row (hb_generation h) row = Some w /\ hf_base w = None /\ hf_version w = 0;
  sn_active : forall w, seen_row (hb_generation h) row = Some w -> is_some_and snd (hb_roots h !! fst s) = true;
}.
Record snapshotting {json : MediaJson} (c : Catalog) (h : Hub) (P : list CatalogRecord) (files : gmap Source HubFile) : Prop := {
  sp_root : forall s row, files !! s = Some row -> nul_free (fst s);
  sp_row : forall s, nul_free (fst s) -> snap_row c h P s (files !! s);
}.

Section Step.
Context {json : MediaJson} (c : Catalog) (Hc : cat_inv c) (h : Hub) (Hname : hb_remote h = c_name c) (Hgen : 0 < hb_generation h).
#[local] Notation L := (due c 0 true).
#[local] Notation G := (hb_generation h).

Lemma unseen_empty : 0 =? G = false.
Proof. apply Z.eqb_neq. lia. Qed.
Lemma snap_other P r s row : w_key r <> key_of s -> snap_row c h P s row -> snap_row c h (P ++ [r]) s row.
Proof.
  intros Hne [N1 N2 N3 N4 N5 N6].
  assert (forall r', r' ∈ P ++ [r] -> w_key r' = key_of s -> r' ∈ P) as Hin.
  { intros r' Hr' Hk. apply elem_of_app in Hr' as [|Hr']; [done|]. apply list_elem_of_singleton in Hr' as ->. done. }
  assert (forall r', r' ∈ P -> r' ∈ P ++ [r]) as Hin' by (intros; apply elem_of_app; by left).
  split; try done.
  - intros r' Hr' Hk. apply N1; auto.
  - intros kind f Hf. destruct (N2 kind f Hf) as (r' & Hr' & H). exists r'. split; [auto|done].
  - intros w Hw. destruct (N3 w Hw) as (r' & Hr' & H). exists r'. split; [auto|done].
  - intros r' Hr' Hk. apply N4; auto.
  - intros r' Hr' Hk. apply N5; auto.
Qed.

Section Same.
Context (P : list CatalogRecord) (r : CatalogRecord) (rest : list CatalogRecord) (s : Source) (row : option HubFile).
Context (HL : L = P ++ r :: rest) (Hs : nul_free (fst s)) (Hkey : w_key r = key_of s) (Hrow : snap_row c h P s row)
  (Hact : is_some_and snd (hb_roots h !! fst s) = true).

Lemma snap_file f b facts :
  w_kind r = FILE -> w_payload r = FileUpsert (hb_remote h) [f] -> f_source f = Some s -> base_of f = Ok b ->
  facts = ∅ \/ facts = hf_facts (default EMPTY row) ->
  snap_row c h (P ++ [r]) s (Some (mkHubFile (w_version r) G (Some b) facts)).
Proof.
  intros Hk Hp Hsrc Hb Hfacts. destruct (due_split c Hc P r rest HL) as (HP & Hr & Huniq & Hfiles).
  rewrite decide_True in Hfiles by done.
  assert (forall kind, seen_fact G (Some (mkHubFile (w_version r) G (Some b) facts)) kind = None) as Hnone.
  { intros kind. destruct (seen_fact _ _ kind) as [g|] eqn:E; [|done]. exfalso.
    assert (seen_fact G row kind = Some g) as E'.
    { unfold seen_fact in *. cbn in E. destruct Hfacts as [->| ->]; [by rewrite lookup_empty in E|].
      destruct row as [w|]; [done|]. simpl in E. by rewrite lookup_empty in E. }
    destruct (sn_nofact _ _ _ _ _ Hrow kind g E') as (r' & Hr' & _ & <- & Hne). by apply Hne, Hfiles. }
  assert (forall r', r' ∈ P ++ [r] -> w_kind r' = FILE) as Hall.
  { intros r' [Hr'|Hr']%elem_of_app; [by apply Hfiles|]. by apply list_elem_of_singleton in Hr' as ->. }
  assert (seen_row G (Some (mkHubFile (w_version r) G (Some b) facts)) = Some (mkHubFile (w_version r) G (Some b) facts)) as Hseen.
  { unfold seen_row. cbn. by rewrite Z.eqb_refl. }
  split.
  - intros r' Hr' _ Hne. by apply Hall in Hr'.
  - intros kind g Hg. by rewrite Hnone in Hg.
  - intros w _. exists r. split_and!; [apply elem_of_app; right; by apply list_elem_of_singleton|done|by left].
  - intros r' [Hr'|Hr']%elem_of_app Hk' Hf; [|apply list_elem_of_singleton in Hr' as ->].
    + exfalso. apply (Huniq r' Hr'); congruence.
    + exists f, b. eexists. rewrite Hp, Hname. split_and!; done.
  - intros r' Hr' _ He. apply Hall in Hr'. by rewrite He in Hr'.
  - done.
Qed.
Lemma unseen_before_error : w_kind r = FILE_ERROR -> seen_row G row = None /\ forall r', r' ∈ P -> w_key r' <> key_of s.
Proof.
  intros Hk. destruct (due_split c Hc P r rest HL) as (HP & Hr & Huniq & _).
  assert (forall r', r' ∈ P -> w_key r' <> key_of s) as Hno.
  { intros r' Hr' Hk'. pose proof (error_alone c Hc r r' s Hs Hr (HP r' Hr') Hkey Hk' Hk) as He.
    apply (Huniq r' Hr'); congruence. }
  split; [|done]. destruct (seen_row G row) as [w|] eqn:E; [|done].
  destruct (sn_row _ _ _ _ _ Hrow w E) as (r' & Hr' & Hk' & _). by apply Hno in Hr'.
Qed.
Lemma snap_error :
  w_kind r = FILE_ERROR ->
  snap_row c h (P ++ [r]) s (Some (mkHubFile 0 G None (<[w_kind r := mkFact (w_version r) G (w_payload r)]> ∅))).
Proof.
  intros Hk. destruct (unseen_before_error Hk) as [_ Hno].
  assert (forall r', r' ∈ P ++ [r] -> w_key r' = key_of s -> r' = r) as Hin.
  { intros r' [Hr'|Hr']%elem_of_app Hk'; [by apply Hno in Hr'|by apply list_elem_of_singleton in Hr']. }
  assert (r ∈ P ++ [r]) as Hrin by (apply elem_of_app; right; by apply list_elem_of_singleton).
  split.
  - intros r' Hr' Hk' _. rewrite (Hin r' Hr' Hk'). unfold seen_fact. cbn. rewrite lookup_insert_eq. cbn. by rewrite Z.eqb_refl.
  - intros kind f Hf. exists r. unfold seen_fact in Hf. cbn in Hf. destruct (decide (kind = w_kind r)) as [->|Hne].
    + split_and!; [done|done|done|]. by rewrite Hk.
    + rewrite lookup_insert_ne, lookup_empty in Hf by done. done.
  - intros w _. exists r. split_and!; [done|done|by right].
  - intros r' Hr' Hk' Hf. rewrite (Hin r' Hr' Hk') in Hf. by rewrite Hk in Hf.
  - intros r' Hr' Hk' Hf. eexists. unfold seen_row. cbn. by rewrite Z.eqb_refl.
  - done.
Qed.
Lemma snap_fact w :
  w_kind r <> FILE -> w_kind r <> FILE_ERROR -> w = default EMPTY row ->
  snap_row c h (P ++ [r]) s
    (Some (mkHubFile (hf_version w) (hf_seen w) (hf_base w) (<[w_kind r := mkFact (w_version r) G (w_payload r)]> (hf_facts w)))).
Proof.
  intros H1 H2 Hw. destruct (due_split c Hc P r rest HL) as (HP & Hr & Huniq & _). destruct Hrow as [N1 N2 N3 N4 N5 N6].
  set (facts := <[_ := _]> _). set (row' := Some _).
  assert (forall kind, seen_fact G row' kind = if decide (kind = w_kind r) then Some (mkFact (w_version r) G (w_payload r)) else seen_fact G row kind) as Hfact.
  { intros kind. unfold seen_fact, row', facts. cbn. case_decide as E.
    - subst kind. rewrite lookup_insert_eq. cbn. by rewrite Z.eqb_refl.
    - rewrite lookup_insert_ne by done. rewrite Hw. destruct row; [done|]. simpl. by rewrite lookup_empty. }
  assert (seen_row G row' = (fun w => mkHubFile (hf_version w) (hf_seen w) (hf_base w) facts) <$> seen_row G row) as Hseen.
  { unfold seen_row, row', opt_filter. cbn. rewrite Hw. destruct row as [w0|].
    - cbn. by destruct (hf_seen w0 =? G).
    - change (hf_seen (default EMPTY None)) with 0. by rewrite unseen_empty. }
  assert (forall r', r' ∈ P ++ [r] -> r' = r \/ r' ∈ P /\ r' <> r) as Hin.
  { intros r' [Hr'|Hr']%elem_of_app; [right|left; by apply list_elem_of_singleton]. split; [done|]. intros ->. by apply (Huniq r Hr'). }
  assert (forall r', r' ∈ P -> r' ∈ P ++ [r]) as Hin' by (intros; apply elem_of_app; by left).
  clearbody row' facts. split.
  - intros r' [->|[Hr' Hne]]%Hin Hk' Hk.
    + rewrite Hfact. by rewrite decide_True.
    + rewrite Hfact. rewrite decide_False; [by apply N1|]. intros E. apply (Huniq r' Hr'); congruence.
  - intros kind f. rewrite Hfact. case_decide as E.
    + intros _. exists r. split_and!; [apply elem_of_app; right; by apply list_elem_of_singleton|done|done|by rewrite E].
    + intros Hf. destruct (N2 kind f Hf) as (r' & Hr' & H). exists r'. split; [auto|done].
  - intros w' Hw'. rewrite Hseen in Hw'. apply fmap_Some in Hw' as (w0 & Hw0 & _). destruct (N3 w0 Hw0) as (r' & Hr' & H).
    exists r'. split; [auto|done].
  - intros r' [->|[Hr' Hne]]%Hin Hk' Hk; [done|]. destruct (N4 r' Hr' Hk' Hk) as (f & b & w0 & Q1 & Q2 & Q3 & Q4 & Q5 & Q6).
    exists f, b. eexists. rewrite Hseen, Q4. split_and!; done.
  - intros r' [->|[Hr' Hne]]%Hin Hk' Hk; [done|]. destruct (N5 r' Hr' Hk' Hk) as (w0 & Q4 & Q5 & Q6).
    eexists. rewrite Hseen, Q4. split_and!; done.
  - done.
Qed.
Lemma snap_step row' : apply_row h true s r row = Ok row' -> snap_row c h (P ++ [r]) s row'.
Proof.
  intros H. destruct (due_split c Hc P r rest HL) as (_ & Hr & _ & _). apply (due_spec c Hc) in Hr as [Hr Hd].
  pose proof (is_record_version c r Hc Hr) as Hv. destruct (decide (w_kind r = FILE)) as [Hk|Hk].
  - apply file_row in H as (_ & f & b & Hp & Hsrc & Hb & ->); [|done|done|lia|by left].
    apply (snap_file f b); try done. destruct (same_base _ _); [by right|by left].
  - apply fact_row in H as (_ & _ & ->); [|done|done|lia|by left]. unfold under_fact.
    destruct (String.eqb_spec (w_kind r) FILE_ERROR) as [E|E].
    + destruct (unseen_before_error E) as [Hun _]. assert (hf_seen (default EMPTY row) =? G = false) as ->.
      { destruct row as [w|]; [|apply unseen_empty]. unfold seen_row in Hun. cbn in Hun. change (default EMPTY (Some w)) with w. by destruct (hf_seen w =? G). }
      by apply snap_error.
    + by apply snap_fact.
Qed.
End Same.
End Step.

(** ** The messages of a snapshot *)

(** No mark of a generation still to come. *)
Definition marks (generation : Z) (row : option HubFile) : Prop :=
  forall w, row = Some w -> hf_seen w <= generation /\ forall kind f, hf_facts w !! kind = Some f -> sf_seen f <= generation.
Definition marked (generation : Z) (files : gmap Source HubFile) : Prop :=
  forall s, marks generation (files !! s) /\ (is_Some (files !! s) -> nul_free (fst s)).

Section Marks.
Context {json : MediaJson}.
Lemma marks_insert g w kind f :
  marks g (Some w) -> sf_seen f <= g ->
  forall v b, marks g (Some (mkHubFile v (hf_seen w) b (<[kind := f]> (hf_facts w)))).
Proof.
  intros Hw Hf v b w' [= <-]. destruct (Hw w eq_refl) as [H1 H2]. split; [done|]. intros k f'. cbn [hf_facts].
  rewrite lookup_insert_Some. intros [[_ <-]|[_ H]]; [done|]. by apply (H2 k).
Qed.
Lemma apply_row_marks h snapshot s r row row' :
  0 <= hb_generation h -> marks (hb_generation h) row -> apply_row h snapshot s r row = Ok row' -> marks (hb_generation h) row'.
Proof.
  intros Hg Hm H. assert (marks (hb_generation h) (Some (unwrap_or row (mkHubFile 0 0 None ∅)))) as Hd.
  { intros w [= <-]. destruct row as [w|]; [by apply Hm|]. simpl. split; [done|]. intros k f. by rewrite lookup_empty. }
  unfold apply_row in H. destruct (w_deleted r).
  - unchain H. destruct (w_kind r =s FILE); [by injection H as <-|]. unchain H. injection H as <-.
    intros w Hw. destruct row as [w0|]; [|done]. cbn in Hw. injection Hw as <-. destruct (Hm w0 eq_refl) as [M1 M2].
    split; [done|]. intros k f. cbn [hf_facts]. rewrite lookup_delete_Some. intros [_ Hf]. by apply (M2 k).
  - unchain H. injection H as <-. set (w := unwrap_or _ _) in *. destruct (Hd w eq_refl) as [Hd1 Hd2].
    destruct (w_kind r =s FILE).
    + match goal with H : apply_file _ _ _ _ _ = _ |- _ => unfold apply_file in H; rename H into Ha end.
      destruct (w_payload r) as [|col [|f [|]]| |]; try done. unchain Ha. destruct (negb snapshot && _); [|unchain Ha]; injection Ha as <-.
      * intros w' [= <-]. by split.
      * intros w' [= <-]. split; [done|]. cbn [hf_facts]. intros k g. destruct (same_base _ _); [apply Hd2|by rewrite lookup_empty].
    + match goal with H : apply_fact _ _ _ _ _ = _ |- _ => unfold apply_fact in H; rename H into Ha end.
      apply rbind_inv in Ha as ([[[col src] sz] mt] & _ & Ha). unchain Ha. injection Ha as <-.
      fold (under_fact h snapshot (w_kind r) w). apply (marks_insert _ (under_fact h snapshot (w_kind r) w)).
      * intros w' [= <-]. unfold under_fact. destruct (w_kind r =s FILE_ERROR); [|by split]. destruct (snapshot && _); by split.
      * destruct (hf_facts (under_fact h snapshot (w_kind r) w) !! w_kind r); [|done]. by destruct snapshot.
Qed.
Lemma apply_records_marks h m l : 0 <= hb_generation h -> forall files previous smax files' smax',
  marked (hb_generation h) files -> apply_records h m files previous smax l = Ok (files', smax') -> marked (hb_generation h) files'.
Proof.
  intros Hg. induction l as [|r l IH]; intros files previous smax files' smax' Hm H; cbn [apply_records] in H.
  - by injection H as <- <-.
  - unchain H. destruct (negb (hb_active h) && _); [by eapply IH|]. unchain H. eapply IH; [|exact H].
    intros s. rewrite set_row_lookup. case_decide as E; [|apply Hm]. subst s.
    match goal with Hk : hub_source_key _ = Ok ?a, Hr : apply_row _ _ ?a _ _ = Ok _ |- _ =>
      apply hub_source_key_spec in Hk as [_ Hs]; apply apply_row_marks in Hr as Hr'; [|done|apply Hm] end.
    by split.
Qed.
End Marks.

Section Sweep.
Context {json : MediaJson} (c : Catalog) (Hc : cat_inv c) (h : Hub) (Hname : hb_remote h = c_name c) (Hgen : 0 < hb_generation h).
#[local] Notation L := (due c 0 true).
#[local] Notation G := (hb_generation h).

Lemma snap_begin files :
  (forall s, marks (G - 1) (files !! s) /\ (is_Some (files !! s) -> nul_free (fst s))) -> snapshotting c h [] files.
Proof.
  intros Hm. split.
  - intros s row Hrow. apply Hm. by eexists.
  - intros s _. destruct (Hm s) as [M _].
    assert (seen_row G (files !! s) = None) as Hrow.
    { unfold seen_row. destruct (files !! s) as [w|]; [|done]. destruct (M w eq_refl) as [M1 _]. cbn.
      destruct (Z.eqb_spec (hf_seen w) G); [lia|done]. }
    assert (forall kind, seen_fact G (files !! s) kind = None) as Hfact.
    { intros kind. unfold seen_fact. destruct (files !! s) as [w|]; [|done]. destruct (M w eq_refl) as [_ M2]. cbn.
      destruct (hf_facts w !! kind) as [f|] eqn:E; [|done]. specialize (M2 kind f E). cbn.
      destruct (Z.eqb_spec (sf_seen f) G); [lia|done]. }
    split; try (intros r Hr; by apply elem_of_nil in Hr).
    + intros kind f Hf. by rewrite Hfact in Hf.
    + intros w Hw. by rewrite Hrow in Hw.
    + intros w Hw. by rewrite Hrow in Hw.
Qed.
Lemma snap_record P r rest files at_ row :
  L = P ++ r :: rest -> snapshotting c h P files -> hub_source_key (w_key r) = Ok at_ ->
  apply_row h true at_ r (files !! at_) = Ok row -> snapshotting c h (P ++ [r]) (set_row files at_ row).
Proof.
  intros HL [R1 R2] Hkey Hrow. apply hub_source_key_spec in Hkey as [Hkey Hs].
  destruct (due_split c Hc P r rest HL) as (_ & Hr & _). apply (due_spec c Hc) in Hr as [_ Hd].
  assert (is_some_and snd (hb_roots h !! fst at_) = true) as Hact.
  { unfold apply_row in Hrow. rewrite Hd in Hrow. by apply ensure_inv in Hrow as [Hact _]. }
  split.
  - intros s w. rewrite set_row_lookup. case_decide as E; [by subst|]. apply R1.
  - intros s Hns. rewrite set_row_lookup. case_decide as E.
    + subst s. apply (snap_step c Hc h Hname Hgen P r rest at_ (files !! at_)); try done. by apply R2.
    + apply snap_other; [|by apply R2]. intros E'. rewrite Hkey in E'. by apply key_of_inj in E'.
Qed.
Lemma snap_records m l : hb_active h = true -> forall P rest files previous smax files' smax',
  L = P ++ l ++ rest -> snapshotting c h P files -> apply_records h m files previous smax l = Ok (files', smax') ->
  snapshotting c h (P ++ l) files'.
Proof.
  intros Ha. induction l as [|r l IH]; intros P rest files previous smax files' smax' HL Hsn H; cbn [apply_records] in H.
  - injection H as <- <-. by rewrite app_nil_r.
  - rewrite Ha in H. cbn [orb negb andb] in H. unchain H. rewrite cons_middle, app_assoc.
    eapply IH; [|eapply snap_record; [|exact Hsn|done|done]|exact H].
    + rewrite HL. cbn [app]. by rewrite <- app_assoc.
    + by rewrite HL.
Qed.

(** The sweep, seen at one address. *)
Definition swept (row : option HubFile) : option HubFile := keep_seen G <$> seen_row G row.
Lemma swept_fact row kind : row_fact (swept row) kind = match seen_row G row with Some _ => sf_payload <$> seen_fact G row kind | None => None end.
Proof.
  unfold swept, seen_row, seen_fact, row_fact. destruct row as [w|]; [|done]. cbn. destruct (hf_seen w =? G); [|done]. cbn.
  destruct (hf_facts w !! kind) as [f|] eqn:E; cbn.
  - destruct (Z.eqb_spec (sf_seen f) G) as [Ef|Ef].
    + assert (filter (fun '(_, x) => sf_seen x = G) (hf_facts w) !! kind = Some f) as ->; [|done]. by apply map_lookup_filter_Some.
    + assert (filter (fun '(_, x) => sf_seen x = G) (hf_facts w) !! kind = None) as ->; [|done].
      apply map_lookup_filter_None. right. intros x Hx. rewrite E in Hx. by injection Hx as <-.
  - assert (filter (fun '(_, x) => sf_seen x = G) (hf_facts w) !! kind = None) as ->; [|done].
    apply map_lookup_filter_None. by left.
Qed.
Lemma swept_base row : row_base (swept row) = w ← seen_row G row; hf_base w.
Proof. unfold swept. by destruct (seen_row G row). Qed.
Lemma sweep_lookup files s : sweep G files !! s = swept (files !! s).
Proof.
  unfold sweep, swept, seen_row. rewrite map_lookup_filter, lookup_fmap. destruct (files !! s) as [w|]; [|done]. cbn.
  destruct (Z.eqb_spec (hf_seen w) G) as [E|E]; cbn; case_guard as Hg; try done; by destruct E.
Qed.
Section Swept.
Context (s : Source) (row : option HubFile) (Hs : nul_free (fst s)) (Hrow : snap_row c h L s row).
Lemma snap_live kind x : c_records c !! (kind, key_of s) = Some x ->
  if rc_deleted x then forall r, r ∈ L -> w_key r = key_of s -> w_kind r <> kind else wire (kind, key_of s) x ∈ L.
Proof.
  intros Hx. destruct (rc_deleted x) eqn:Hd.
  - intros r Hr Hk <-. destruct (live_record c Hc r s Hr Hk) as (y & [Hy Hd'] & _). congruence.
  - apply (due_spec c Hc). split; [by exists (kind, key_of s), x|done].
Qed.
Lemma snap_absent kind : c_records c !! (kind, key_of s) = None -> forall r, r ∈ L -> w_key r = key_of s -> w_kind r <> kind.
Proof. intros Hx r Hr Hk <-. destruct (live_record c Hc r s Hr Hk) as (y & [Hy Hd'] & _). congruence. Qed.
Lemma fact_seen r : r ∈ L -> w_key r = key_of s -> w_kind r <> FILE -> is_Some (seen_row G row).
Proof.
  intros Hr Hk Hf. destruct (decide (w_kind r = FILE_ERROR)) as [He|He].
  - destruct (sn_error _ _ _ _ _ Hrow r Hr Hk He) as (w & -> & _). by eexists.
  - destruct (fact_has_file c Hc r s Hs Hr Hk Hf He) as (f & Hf' & Hkf & Hff).
    destruct (sn_file _ _ _ _ _ Hrow f Hf' Hkf Hff) as (? & ? & w & _ & _ & _ & -> & _). by eexists.
Qed.
Lemma swept_no_base : (forall r, r ∈ L -> w_key r = key_of s -> w_kind r <> FILE) -> row_base (swept row) = None.
Proof.
  intros Hno. rewrite swept_base. destruct (seen_row G row) as [w|] eqn:Hw; [|done]. cbn.
  destruct (sn_row _ _ _ _ _ Hrow w Hw) as (r & Hr & Hk & [Hf|He]); [by apply Hno in Hf|].
  destruct (sn_error _ _ _ _ _ Hrow r Hr Hk He) as (w' & Hw' & Hb & _). rewrite Hw in Hw'. by injection Hw' as ->.
Qed.
Lemma swept_no_fact kind :
  (forall r, r ∈ L -> w_key r = key_of s -> w_kind r <> FILE -> w_kind r <> kind) -> row_fact (swept row) kind = None.
Proof.
  intros Hno. rewrite swept_fact. destruct (seen_row G row); [|done]. destruct (seen_fact G row kind) as [f|] eqn:E; [|done].
  destruct (sn_nofact _ _ _ _ _ Hrow kind f E) as (r & Hr & Hk & <- & Hne). by destruct (Hno r Hr Hk).
Qed.
Lemma swept_versions w :
  swept row = Some w -> hf_version w <= c_current c /\ forall kind f, hf_facts w !! kind = Some f -> sf_version f <= c_current c.
Proof.
  assert (forall r, r ∈ L -> w_version r <= c_current c) as Hle.
  { intros r [Hr _]%(due_spec c Hc). by apply (is_record_version c r Hc). }
  pose proof (ci_current _ Hc). intros Hw. apply fmap_Some in Hw as (w0 & Hw0 & ->). cbn. split.
  - destruct (sn_row _ _ _ _ _ Hrow w0 Hw0) as (r & Hr & Hk & [Hf|He]).
    + destruct (sn_file _ _ _ _ _ Hrow r Hr Hk Hf) as (? & ? & w' & _ & _ & _ & Hw' & _ & Hv).
      rewrite Hw0 in Hw'. injection Hw' as <-. rewrite Hv. by apply Hle.
    + destruct (sn_error _ _ _ _ _ Hrow r Hr Hk He) as (w' & Hw' & _ & Hv). rewrite Hw0 in Hw'. injection Hw' as <-. by rewrite Hv.
  - intros kind f Hf. apply map_lookup_filter_Some in Hf as [Hf Hsf].
    assert (row = Some w0) as Hrow0.
    { unfold seen_row in Hw0. destruct row as [w1|]; [|done]. cbn in Hw0. destruct (hf_seen w1 =? G); [|done]. by injection Hw0 as ->. }
    assert (seen_fact G row kind = Some f) as Hsfact.
    { unfold seen_fact. rewrite Hrow0. cbn. rewrite Hf. cbn. by rewrite (proj2 (Z.eqb_eq _ _) Hsf). }
    destruct (sn_nofact _ _ _ _ _ Hrow kind f Hsfact) as (r & Hr & Hk & <- & Hne).
    rewrite (sn_fact _ _ _ _ _ Hrow r Hr Hk Hne) in Hsfact. injection Hsfact as <-. by apply Hle.
Qed.
Lemma swept_synced : synced c (c_current c) s (swept row).
Proof.
  split.
  - intros kind x Hk Hx _. pose proof (snap_live kind x Hx) as Hin. destruct (rc_deleted x) eqn:Hd.
    + apply swept_no_fact. intros r Hr Hkr _. by apply Hin.
    + rewrite swept_fact. destruct (fact_seen _ Hin eq_refl Hk) as [w ->].
      pose proof (sn_fact _ _ _ _ _ Hrow _ Hin eq_refl Hk) as E. cbn in E. by rewrite E.
  - intros kind [->|Hn]; apply swept_no_fact.
    + by intros r _ _ Hne.
    + intros r Hr Hk _. by apply (snap_absent kind Hn).
  - intros x Hx _. pose proof (snap_live FILE x Hx) as Hin. destruct (rc_deleted x) eqn:Hd; [by apply swept_no_base|].
    destruct (sn_file _ _ _ _ _ Hrow _ Hin eq_refl eq_refl) as (f & b & w & Hp & Hsrc & Hb & Hw & Hwb & _).
    exists f, b. rewrite swept_base, Hw. done.
  - intros Hn. apply swept_no_base. by apply (snap_absent FILE).
  - intros Hall. unfold swept. destruct (seen_row G row) as [w|] eqn:E; [|done]. exfalso.
    destruct (sn_row _ _ _ _ _ Hrow w E) as (r & Hr & Hk & _). destruct (live_record c Hc r s Hr Hk) as (y & [Hy Hd] & _).
    destruct (Hall _ y Hy). congruence.
  - apply swept_versions.
Qed.
End Swept.
Lemma snap_end files :
  snapshotting c h L files ->
  replica c (c_current c) (filter (fun '(s, _) => is_Some (filter (fun '(_, (_, active)) => active = true) (hb_roots h) !! fst s)) (sweep G files)).
Proof.
  intros [R1 R2]. set (kept := filter _ _).
  assert (forall s, nul_free (fst s) -> kept !! s = swept (files !! s)) as Hkept.
  { intros s Hs. unfold kept. rewrite map_lookup_filter, sweep_lookup. destruct (swept (files !! s)) as [w|] eqn:E; [|done]. cbn.
    case_guard as Hg; [done|]. destruct Hg. unfold swept in E. apply fmap_Some in E as (w0 & Hw0 & _).
    pose proof (sn_active _ _ _ _ _ (R2 s Hs) w0 Hw0) as Hact. apply is_some_and_spec in Hact as ([p a] & Hr & Ha).
    exists (p, a). apply map_lookup_filter_Some. by split. }
  split.
  - intros s w Hw. unfold kept in Hw. apply map_lookup_filter_Some in Hw as [Hw _]. rewrite sweep_lookup in Hw.
    apply fmap_Some in Hw as (w0 & Hw0 & _). apply (R1 s w0). unfold seen_row in Hw0. destruct (files !! s) as [w1|]; [|done].
    cbn in Hw0. destruct (hf_seen w1 =? G); [|done]. by injection Hw0 as ->.
  - intros s Hs. rewrite Hkept by done. apply swept_synced; [done|by apply R2].
Qed.
End Sweep.
