(* ===== verification/Replication.v ===== *)
(** * A catalogue, its replica and the link between them

    One collection of a mediahost and of the hub: the catalogue with whatever
    scans and discoveries do to it, the media database of the hub, and a link
    that keeps the order of its messages and can be cut at any point. *)
From S2P Require Import Prelude Media Catalog CatalogTheorems CatalogLink CatalogLinkTheorems Replica ReplicaFacts ReplicaSnapshot.
#[local] Open Scope Z_scope.

(** ** The system *)

Inductive Link :=
| Down
| Offered (o : Offer)                                        (* the offer is on its way to the hub *)
| Answered (cursor : CatalogCursor)                          (* the cursor is on its way to the mediahost *)
| Streaming (queue : list CatalogDelta) (sent : option Z).   (* and what the link takes as sent, unless a sync failed *)
Record System := mkSystem {
  y_catalog : Catalog;
  y_hub : option Hub;
  y_link : Link;
  y_acks : list CatalogAck;      (* on their way to the mediahost *)
  y_backup : option Hub;         (* a copy of the database of the hub *)
}.

Section System.
Context {json : MediaJson} (encoded_len : CatalogRecord -> Z) (media_type : string) (hub_id : string).

Inductive system_step : System -> System -> Prop :=
| ss_catalog c c' h l a b : catalog_step c c' -> system_step (mkSystem c h l a b) (mkSystem c' h l a b)
| ss_replaced c epoch h l a b :
    (* a catalogue that starts again takes an epoch of its own *)
    (forall x, h = Some x \/ b = Some x -> hb_epoch x <> epoch) ->
    system_step (mkSystem c h l a b) (mkSystem (insert_collection (c_name c) epoch) h Down [] b)
| ss_connect c roots h b :
    offer_ready c = true -> system_step (mkSystem c h Down [] b) (mkSystem c h (Offered (offer_of media_type roots c)) [] b)
| ss_offer c h h' o cursor a b :
    offer_collection h o = Ok (h', cursor) ->
    system_step (mkSystem c h (Offered o) a b) (mkSystem c (Some h') (Answered cursor) a b)
| ss_answer c h cursor a b :
    system_step (mkSystem c h (Answered cursor) a b)
      (let '(ms, sent) := answer_cursor encoded_len c cursor in mkSystem c h (Streaming ms sent) a b)
| ss_update c h queue sent a b :
    update_due c (c_epoch c) sent = true ->
    system_step (mkSystem c h (Streaming queue (Some sent)) a b)
      (let '(ms, sent) := send_catalog_pages encoded_len c sent false in mkSystem c h (Streaming (queue ++ ms) sent) a b)
| ss_deliver c h h' m queue sent a ack b :
    apply_catalogue h m = Ok (h', ack) ->
    system_step (mkSystem c (Some h) (Streaming (m :: queue) sent) a b)
      (mkSystem c (Some h') (Streaming queue sent) (a ++ match ack with Some x => [x] | None => [] end) b)
| ss_ack c c' h l epoch version a b :
    acknowledge c hub_id epoch version = (Ok tt, c') ->
    system_step (mkSystem c h l ((epoch, version) :: a) b) (mkSystem c' h l a b)
| ss_cut c h l a b : system_step (mkSystem c h l a b) (mkSystem c h Down [] b)
| ss_forget c h a b : system_step (mkSystem c h Down a b) (mkSystem c None Down a b)
| ss_backup c h l a b : system_step (mkSystem c h l a b) (mkSystem c h l a h)
| ss_restore c h a b : system_step (mkSystem c h Down a b) (mkSystem c b Down a b).

Inductive reachable (name epoch : string) : System -> Prop :=
| reach_start : reachable name epoch (mkSystem (insert_collection name epoch) None Down [] None)
| reach_step y y' : reachable name epoch y -> system_step y y' -> reachable name epoch y'.

(** ** What is in flight *)

(** The messages of a delta: each brings a replica of the catalogue from one
    version to the next, though the catalogue changes between them. *)
Definition segment (b : Catalog) (t : Z) (m : CatalogDelta) : Prop :=
  m_collection m = c_name b /\ m_epoch m = c_epoch b /\ m_snapshot m = false /\ window b t (m_through m) (m_records m)
  /\ t <= m_through m <= c_current b.
Inductive chain : Catalog -> Z -> list CatalogDelta -> option Z -> Catalog -> Prop :=
| chain_end b t c : evolves b c -> t <= c_current b -> chain b t [] (Some t) c
| chain_failed b t c : evolves b c -> chain b t [] None c
| chain_next b b' t m ms sent c :
    evolves b b' -> cat_inv b' -> t <= c_current b -> segment b' t m -> chain b' (m_through m) ms sent c ->
    chain b t (m :: ms) sent c.
(** The messages of a snapshot, and the deltas behind them. *)
Inductive snapshot_chain (b : Catalog) : list CatalogRecord -> list CatalogDelta -> option Z -> Catalog -> Prop :=
| sc_failed rest c : evolves b c -> snapshot_chain b rest [] None c
| sc_more m rest ms sent c :
    m_collection m = c_name b -> m_epoch m = c_epoch b -> m_done m = false -> m_through m = 0 ->
    snapshot_chain b rest ms sent c -> snapshot_chain b (m_records m ++ rest) (m :: ms) sent c
| sc_last m ms sent c :
    m_collection m = c_name b -> m_epoch m = c_epoch b -> m_done m = true -> m_through m = c_current b ->
    chain b (c_current b) ms sent c -> snapshot_chain b (m_records m) (m :: ms) sent c.

Lemma chain_evolved b t ms sent c : chain b t ms sent c -> evolves b c.
Proof. induction 1; [done|done|]. by eapply evolves_trans. Qed.
Lemma chain_evolves b t ms sent c c' : chain b t ms sent c -> evolves c c' -> chain b t ms sent c'.
Proof.
  induction 1 as [b t c He Ht|b t c He|b b' t m ms sent c He Hb Ht Hm _ IH]; intros He'.
  - constructor; [by eapply evolves_trans|done].
  - constructor. by eapply evolves_trans.
  - econstructor; try done. by apply IH.
Qed.
Lemma chain_app b t ms sent c ms' sent' :
  chain b t ms (Some sent) c ->
  (forall b0, evolves b0 c -> sent <= c_current b0 -> chain b0 sent ms' sent' c) -> chain b t (ms ++ ms') sent' c.
Proof.
  intros H Hmore. remember (Some sent) as o eqn:Ho. revert Ho.
  induction H as [b t c He Ht|b t c He|b b' t m ms o c He Hb Ht Hm _ IH]; intros Ho; [|done|].
  - injection Ho as ->. by apply Hmore.
  - cbn [app]. econstructor; try done. by apply IH.
Qed.
Lemma snapshot_chain_evolved b rest ms sent c : snapshot_chain b rest ms sent c -> evolves b c.
Proof. induction 1; [done|done|]. by eapply chain_evolved. Qed.
Lemma snapshot_chain_evolves b rest ms sent c c' : snapshot_chain b rest ms sent c -> evolves c c' -> snapshot_chain b rest ms sent c'.
Proof.
  induction 1; intros He.
  - constructor. by eapply evolves_trans.
  - constructor; try done. auto.
  - constructor; try done. by eapply chain_evolves.
Qed.
Lemma snapshot_chain_app b rest ms sent c ms' sent' :
  snapshot_chain b rest ms (Some sent) c ->
  (forall b0, evolves b0 c -> sent <= c_current b0 -> chain b0 sent ms' sent' c) -> snapshot_chain b rest (ms ++ ms') sent' c.
Proof.
  intros H Hmore. remember (Some sent) as o eqn:Ho. revert Ho. induction H; intros Ho; [done| |]; cbn [app].
  - constructor; auto.
  - constructor; try done. subst. by eapply chain_app.
Qed.
End System.

(** * A small collection and its replica

    One film, scanned, offered and sent, for the witnesses and the regression
    examples of the replication. *)

(** A probe of no streams; any other text is not a probe. *)
Definition no_streams : MediaInfo :=
  mkMediaInfo None None [] [] [] [] None None ∅ None None None ∅ None None false None.
#[export] Instance empty_probes : MediaJson := {|
  media_of_json := fun text => then_some (text =s "{}") no_streams;
  json_of_media := fun _ => "{}";
  set_sidecar_revision := fun text _ => text;
|}.

Definition FILM : Source := ("root", "film.mkv").
Definition film : FileRecord := mkFileRecord (Some FILM) 7000 1700000000 11 12 13 "{}".
Definition film_roots : list CollectionRoot := [mkRoot "root" "/srv/films"].
Definition one_kilobyte : CatalogRecord -> Z := fun _ => 1024.

(** A first scan that finds the film. *)
Definition unscanned : Catalog := insert_collection "films" "epoch-1".
Definition found : Catalog := snd (upsert_file_inner (snd (begin_scan unscanned)) film 1 0 false).
Definition scanned : Catalog := snd (finish_scan found 1 []).

Definition ok_or_else {A} (r : result string A) (a : A) : A := match r with Ok x => x | Err _ => a end.
Definition NO_HUB : Hub := mkHub "" "" "" 0 false 0 0 ∅ ∅.
Definition film_offer (c : Catalog) : Offer := offer_of "movies" film_roots c.
(** A hub that has never seen the collection takes the offer. *)
Definition new_hub (c : Catalog) : Hub := fst (ok_or_else (offer_collection None (film_offer c)) (NO_HUB, mkCursor "" "" 0 false)).
Definition cursor_of (h : Hub) : CatalogCursor := mkCursor (hb_remote h) (hb_epoch h) (hb_version h) (hb_active h).
Definition snapshot_of (c : Catalog) : list CatalogDelta := fst (answer_cursor one_kilobyte c (cursor_of (new_hub c))).
Definition applied (h : Hub) (m : CatalogDelta) : Hub := fst (ok_or_else (apply_catalogue h m) (NO_HUB, None)).
Definition replicated : Hub := fold_left applied (snapshot_of scanned) (new_hub scanned).

(** A hash of the film that could not be computed: the source and the error,
    every other field as a message leaves it. *)
Definition failed_hash : Answer := mkAnswer (Some FILM) 0 0 "permission denied" "".
Definition hashed : Catalog := snd (store_fact (snd (claim_sources scanned HASHES 1)) (FileHashes [failed_hash])).

Section Histories.
Notation step := (system_step one_kilobyte "movies" "hub").
Notation reachable := (reachable one_kilobyte "movies" "hub").

Lemma unscanned_reachable : reachable "films" "epoch-1" (mkSystem unscanned None Down [] None).
Proof. apply reach_start. Defined.
Lemma scanned_reachable : reachable "films" "epoch-1" (mkSystem scanned None Down [] None).
Proof.
  eapply reach_step; [eapply reach_step; [eapply reach_step; [apply unscanned_reachable|]|]|].
  - apply ss_catalog. apply cs_begin.
  - apply ss_catalog. apply (cs_upsert _ film FILM 1 0 false); reflexivity.
  - apply ss_catalog. apply cs_finish.
Defined.
Lemma offer_reachable : reachable "films" "epoch-1" (mkSystem scanned None (Offered (film_offer scanned)) [] None).
Proof. eapply reach_step; [apply scanned_reachable|]. apply ss_connect. vm_compute. reflexivity. Defined.
(** The snapshot is two messages: the films, and the end. *)
Definition message (i : nat) (c : Catalog) : CatalogDelta := nth i (snapshot_of c) (mkMessage "" "" [] 0 false false).
Lemma snapshot_begins : reachable "films" "epoch-1"
  (mkSystem scanned (Some (new_hub scanned)) (Streaming [message 0 scanned; message 1 scanned] (Some 1)) [] None).
Proof.
  assert (answer_cursor one_kilobyte scanned (cursor_of (new_hub scanned)) = ([message 0 scanned; message 1 scanned], Some 1)) as E
    by (vm_compute; reflexivity).
  pose proof (ss_answer one_kilobyte "movies" "hub" scanned (Some (new_hub scanned)) (cursor_of (new_hub scanned)) [] None) as H.
  rewrite E in H. eapply reach_step; [eapply reach_step; [apply offer_reachable|]|exact H].
  apply ss_offer. vm_compute. reflexivity.
Defined.
Lemma replicated_reachable :
  reachable "films" "epoch-1" (mkSystem scanned (Some replicated) (Streaming [] (Some 1)) [("epoch-1", 1)] None).
Proof.
  eapply reach_step; [eapply reach_step; [apply snapshot_begins|]|].
  - apply (ss_deliver _ _ _ scanned _ (applied (new_hub scanned) (message 0 scanned)) _ _ _ _ None). vm_compute. reflexivity.
  - apply (ss_deliver _ _ _ scanned _ replicated _ [] _ [] (Some ("epoch-1", 1))). vm_compute. reflexivity.
Defined.
End Histories.
