(* ===== verification/ReplicationFacts.v ===== *)
(** * What holds of a catalogue and its replica at every point

    The hub's rows agree with the log up to its cursor, whatever is in flight,
    or a snapshot is under way whose end will make them agree. *)
From S2P Require Import Prelude Media Catalog CatalogTheorems CatalogLink CatalogLinkTheorems Replica ReplicaFacts ReplicaSnapshot Replication.
#[local] Open Scope Z_scope.

(** ** Messages of one sync *)

Section Sent.
Context (c : Catalog) (Hc : cat_inv c).

Lemma window_due s : window c s (c_current c) (due c s false).
Proof.
  destruct (page_query_spec c false false s Hc) as [Hs Hin]. split; [done|]. intros r. rewrite Hin. unfold query_wants. split.
  - intros (Hr & _ & Hv). pose proof (is_record_version c r Hc Hr). split; [done|lia].
  - intros [Hr Hv]. split_and!; [done|done|lia].
Qed.
Lemma window_split lo hi a rest z : window c lo hi (a ++ rest) -> last a = Some z ->
  window c lo (w_version z) a /\ window c (w_version z) hi rest /\ lo < w_version z <= hi.
Proof.
  intros [Hs Hin] Hz. apply by_version_app in Hs as (Ha & Hrest & Hlt).
  assert (z ∈ a) as Hza by (apply last_Some in Hz as [a' ->]; apply elem_of_app; right; by apply list_elem_of_singleton).
  assert (is_record c z /\ lo < w_version z <= hi) as [Hzr Hzv] by (apply Hin, elem_of_app; by left).
  split_and!; try lia.
  - split; [done|]. intros r. split.
    + intros Hr. destruct (proj1 (Hin r) ltac:(apply elem_of_app; by left)) as [Hr' Hv].
      pose proof (last_version_max a z r Ha Hz Hr). split; [done|lia].
    + intros [Hr Hv]. assert (r ∈ a ++ rest) as [|Hr']%elem_of_app by (apply Hin; split; [done|lia]); [done|].
      specialize (Hlt z r Hza Hr'). unfold version_lt in Hlt. lia.
  - split; [done|]. intros r. split.
    + intros Hr. destruct (proj1 (Hin r) ltac:(apply elem_of_app; by right)) as [Hr' Hv].
      specialize (Hlt z r Hza Hr). unfold version_lt in Hlt. split; [done|lia].
    + intros [Hr Hv]. assert (r ∈ a ++ rest) as [Hr'|]%elem_of_app by (apply Hin; split; [done|lia]); [|done].
      pose proof (last_version_max a z r Ha Hz Hr'). lia.
Qed.
Lemma mid_segment lo rest m : mid_message c false m -> window c lo (c_current c) (m_records m ++ rest) ->
  segment c lo m /\ window c (m_through m) (c_current c) rest.
Proof.
  intros ((H1 & H2 & H3) & _ & z & Hz & Ht) Hw. destruct (window_split lo (c_current c) (m_records m) rest z Hw Hz) as (W1 & W2 & Hv).
  rewrite Ht. split; [|done]. unfold segment. rewrite Ht. split_and!; [done|done|by apply H3|done|lia|lia].
Qed.
Lemma chain_prefix lo ms rest b0 : window c lo (c_current c) (concat (map m_records ms) ++ rest) -> Forall (mid_message c false) ms ->
  evolves b0 c -> lo <= c_current b0 -> chain b0 lo ms None c.
Proof.
  revert lo b0. induction ms as [|m ms IH]; intros lo b0 Hw Hm He Hlo; [by constructor|].
  apply Forall_cons in Hm as [Hm Hms]. cbn [map concat] in Hw. rewrite <- app_assoc in Hw.
  destruct (mid_segment lo _ m Hm Hw) as [Hseg Hw']. econstructor; try done. apply IH; [done|done|apply evolves_refl|].
  destruct Hseg as (_ & _ & _ & _ & Hle). lia.
Qed.
Lemma chain_shape lo ms b0 : window c lo (c_current c) (due c lo false) -> messages_shape c false (due c lo false) ms ->
  evolves b0 c -> lo <= c_current b0 -> chain b0 lo ms (Some (c_current c)) c.
Proof.
  intros Hw (init & m & -> & HL & Hdone & Hthrough & (H1 & H2 & H3) & Hinit) He Hlo. rewrite HL in Hw. clear HL.
  revert lo b0 Hw He Hlo. induction init as [|x init IH]; intros lo b0 Hw He Hlo; cbn [app].
  - assert (lo <= c_current c) as Hle by (destruct He as (_ & _ & _ & Hcur & _); lia).
    apply (chain_next b0 c); try done.
    + unfold segment. rewrite Hthrough. split_and!; [done|done|by apply H3|done|lia|lia].
    + rewrite Hthrough. constructor; [apply evolves_refl|lia].
  - apply Forall_cons in Hinit as [Hx Hinit]. cbn [map concat] in Hw. rewrite <- app_assoc in Hw.
    destruct (mid_segment lo _ x Hx Hw) as [Hseg Hw']. econstructor; try done. apply IH; [done|done|apply evolves_refl|].
    destruct Hseg as (_ & _ & _ & _ & Hle). lia.
Qed.
Lemma snapshot_prefix ms rest : Forall (mid_message c true) ms -> snapshot_chain c (concat (map m_records ms) ++ rest) ms None c.
Proof.
  induction 1 as [|m ms ((H1 & H2 & _) & H3 & z & _ & H4) _ IH]; cbn [map concat].
  - constructor. apply evolves_refl.
  - rewrite <- app_assoc. by constructor.
Qed.
Lemma snapshot_shape L ms : messages_shape c true L ms -> snapshot_chain c L ms (Some (c_current c)) c.
Proof.
  intros (init & m & -> & -> & Hdone & Hthrough & (H1 & H2 & _) & Hinit).
  induction Hinit as [|x init ((X1 & X2 & _) & X3 & z & _ & X4) _ IH]; cbn [map concat app].
  - apply sc_last; try done. constructor; [apply evolves_refl|lia].
  - rewrite <- app_assoc. by constructor.
Qed.

Section Sync.
Context (encoded_len : CatalogRecord -> Z).
Lemma sent_chain s b0 :
  evolves b0 c -> s <= c_current b0 ->
  let '(ms, sent) := send_catalog_pages encoded_len c s false in chain b0 s ms sent c.
Proof.
  intros He Hs. pose proof (sync_shape encoded_len c s false Hc) as H. destruct (send_catalog_pages _ _ _ _) as [ms sent].
  pose proof (window_due s) as Hw. destruct H as [(through & -> & -> & [Hsh|(-> & _ & ->)])|(-> & rest & HL & Hms)].
  - by apply chain_shape.
  - by constructor.
  - apply (chain_prefix s ms rest); try done. by rewrite <- HL.
Qed.
Lemma sent_snapshot :
  let '(ms, sent) := send_catalog_pages encoded_len c 0 true in snapshot_chain c (due c 0 true) ms sent c.
Proof.
  pose proof (sync_shape encoded_len c 0 true Hc) as H. destruct (send_catalog_pages _ _ _ _) as [ms sent].
  destruct H as [(through & -> & -> & [Hsh|(_ & Hf & _)])|(-> & rest & HL & Hms)]; [|done|].
  - by apply snapshot_shape.
  - rewrite HL. by apply snapshot_prefix.
Qed.
End Sync.
End Sent.

(** ** The hub *)

Section Hub.
Context {json : MediaJson}.

Record hub_ok (c : Catalog) (h : Hub) : Prop := {
  ho_remote : hb_remote h = c_name c;
  ho_generation : 0 < hb_generation h;
  ho_marked : marked (hb_generation h) (hb_files h);
  ho_replica : hb_epoch h = c_epoch c -> hb_active h = false ->
    0 <= hb_version h <= c_current c /\ replica c (hb_version h) (hb_files h);
}.
Lemma hub_ok_evolves c c' h : evolves c c' -> hub_ok c h -> hub_ok c' h.
Proof.
  intros He [H1 H2 H3 H4]. pose proof He as (N & E & _ & Hcur & _). split; try done; [congruence|].
  rewrite E. intros Hep Ha. destruct (H4 Hep Ha) as [Hv Hr]. split; [lia|]. by apply (replica_evolves c); [|lia|].
Qed.
Lemma marked_mono g g' files : g <= g' -> marked g files -> marked g' files.
Proof.
  intros Hg Hm s. destruct (Hm s) as [M R]. split; [|done]. intros w Hw. destruct (M w Hw) as [M1 M2]. split; [lia|].
  intros kind f Hf. specialize (M2 kind f Hf). lia.
Qed.
Lemma marked_forgotten g files : marked g files -> marked g (forget_versions <$> files).
Proof.
  intros Hm s. destruct (Hm s) as [M R]. rewrite lookup_fmap. destruct (files !! s) as [w0|]; [|split; [done|]; by intros [? ?]].
  cbn. split; [|intros _; apply R; by eexists]. intros w [= <-]. destruct (M w0 eq_refl) as [M1 M2]. split; [done|].
  intros kind f. cbn. rewrite lookup_fmap. intros (f0 & Hf & ->)%fmap_Some. exact (M2 kind f0 Hf).
Qed.

(** What an offer answers: carry on from the cursor, or a new generation. *)
Lemma offer_spec existing o h' cu :
  offer_collection existing o = Ok (h', cu) ->
  hb_remote h' = o_id o /\ hb_epoch h' = o_epoch o /\ hb_snapshot_max h' = 0
  /\ cu = mkCursor (o_id o) (o_epoch o) (hb_version h') (hb_active h')
  /\ if hb_active h' then
       hb_version h' = 0
       /\ match existing with
          | None => hb_generation h' = 1 /\ hb_files h' = ∅
          | Some h => hb_generation h' = hb_generation h + 1
              /\ (hb_files h' = hb_files h \/ hb_files h' = forget_versions <$> hb_files h)
          end
     else exists h, existing = Some h /\ hb_active h = false /\ hb_epoch h = o_epoch o /\ o_oldest o <= hb_version h <= o_current o
            /\ hb_version h' = hb_version h /\ hb_generation h' = hb_generation h /\ hb_files h' = hb_files h.
Proof.
  unfold offer_collection. intros H. unchain H. destruct existing as [h|].
  - unchain H. injection H as <- <-. cbn [hb_remote hb_epoch hb_version hb_active hb_generation hb_files].
    split_and!; try done. destruct (needs_snapshot h o) eqn:En.
    + split_and!; [done|done|]. destruct (negb (hb_epoch h =s o_epoch o)); [by right|by left].
    + unfold needs_snapshot in En. bsplit. zbool. exists h.
      match goal with H : (hb_epoch h =s o_epoch o) = true |- _ => rename H into He end. rewrite He. cbn [negb].
      apply String.eqb_eq in He. split_and!; try done; lia.
  - unchain H. injection H as <- <-. done.
Qed.
Lemma apply_spec h m h' ack :
  m_snapshot m && negb (hb_active h) = false -> apply_catalogue h m = Ok (h', ack) ->
  exists files smax, apply_records h m (hb_files h) 0 (hb_snapshot_max h) (m_records m) = Ok (files, smax)
  /\ let last := hb_active h && m_done m in
     let unfinished := hb_active h && negb (m_done m) in
     let roots := if last then filter (fun '(_, (_, active)) => active = true) (hb_roots h) else hb_roots h in
     h' = mkHub (hb_remote h) (hb_media_type h) (hb_epoch h) (if unfinished then 0 else Z.max (hb_version h) (m_through m))
            unfinished (hb_generation h) (if unfinished then smax else 0) roots
            (if last then filter (fun '(at_, _) => is_Some (roots !! fst at_)) (sweep (hb_generation h) files) else files)
     /\ ack = then_some (m_done m) (m_epoch m, hb_version h').
Proof.
  intros Hs H. unfold apply_catalogue in H. unchain H. rewrite Hs in H. unchain H.
  match type of H with (let '(files, snapshot_max) := ?y in _) = _ => destruct y as [files smax] end. unchain H.
  exists files, smax. split; [done|]. injection H as <- <-. cbv zeta. cbn [hb_version]. by destruct (hb_active h && m_done m).
Qed.
Lemma sweep_marked h files (roots : gmap string (string * bool)) :
  marked (hb_generation h) files ->
  marked (hb_generation h) (filter (fun '(at_, _) => is_Some (roots !! fst at_)) (sweep (hb_generation h) files)).
Proof.
  intros Hm s. destruct (Hm s) as [M R].
  assert (forall w, filter (fun '(at_, _) => is_Some (roots !! fst at_)) (sweep (hb_generation h) files) !! s = Some w ->
            exists w0, files !! s = Some w0 /\ w = keep_seen (hb_generation h) w0) as Hw.
  { intros w [Hw _]%map_lookup_filter_Some. rewrite sweep_lookup in Hw. unfold swept, seen_row in Hw.
    destruct (files !! s) as [w0|]; [|done]. cbn in Hw. destruct (hf_seen w0 =? hb_generation h); [|done].
    cbn in Hw. injection Hw as <-. by exists w0. }
  split.
  - intros w Hfw. destruct (Hw w Hfw) as (w0 & Hw0 & ->). destruct (M w0 Hw0) as [M1 M2]. split; [done|]. intros kind f.
    cbn. intros [Hf _]%map_lookup_filter_Some. by apply (M2 kind).
  - intros [w Hfw]. destruct (Hw w Hfw) as (w0 & Hw0 & _). apply R. by eexists.
Qed.

(** A message of a delta. *)
Lemma apply_delta b t h m h' ack :
  cat_inv b -> hb_remote h = c_name b -> hb_active h = false -> hb_version h = t -> 0 <= t -> 0 < hb_generation h ->
  marked (hb_generation h) (hb_files h) -> replica b t (hb_files h) -> segment b t m -> apply_catalogue h m = Ok (h', ack) ->
  hb_remote h' = hb_remote h /\ hb_epoch h' = hb_epoch h /\ hb_active h' = false /\ hb_version h' = m_through m
  /\ hb_generation h' = hb_generation h /\ marked (hb_generation h') (hb_files h') /\ replica b (m_through m) (hb_files h')
  /\ ack = then_some (m_done m) (m_epoch m, m_through m).
Proof.
  intros Hb Hn Ha Ht H0 Hg Hm Hr (S1 & S2 & S3 & Hw & Hle) H.
  apply apply_spec in H as (files & smax & Happ & -> & ->); [|by rewrite S3].
  cbn [hb_remote hb_epoch hb_active hb_version hb_generation hb_files]. rewrite Ha. cbn [andb].
  assert (Z.max (hb_version h) (m_through m) = m_through m) as -> by lia. split_and!; try done.
  - by eapply apply_records_marks; [lia|exact Hm|exact Happ].
  - eapply (delta_records b Hb h m (m_through m) _ Hn Ha); [|split; [exact H0|]|exact Hw|exact Hr|exact Happ]; lia.
Qed.
(** A message of a snapshot, not its last and its last. *)
Lemma apply_part b P rest h m h' ack :
  cat_inv b -> hb_remote h = c_name b -> hb_active h = true -> 0 < hb_generation h ->
  marked (hb_generation h) (hb_files h) -> snapshotting b h P (hb_files h) -> due b 0 true = P ++ m_records m ++ rest ->
  m_done m = false -> apply_catalogue h m = Ok (h', ack) ->
  hb_remote h' = hb_remote h /\ hb_epoch h' = hb_epoch h /\ hb_active h' = true /\ hb_version h' = 0
  /\ hb_generation h' = hb_generation h /\ marked (hb_generation h') (hb_files h')
  /\ snapshotting b h' (P ++ m_records m) (hb_files h') /\ ack = None.
Proof.
  intros Hb Hn Ha Hg Hm Hsn HL Hd H. apply apply_spec in H as (files & smax & Happ & -> & ->); [|by rewrite Ha, andb_false_r].
  cbn [hb_remote hb_epoch hb_active hb_version hb_generation hb_files]. rewrite Ha, Hd. cbn [andb negb]. split_and!; try done.
  - by eapply apply_records_marks; [lia|exact Hm|exact Happ].
  - pose proof (snap_records b Hb h Hn Hg m _ Ha P rest _ _ _ _ _ HL Hsn Happ) as [R1 R2]. split; [exact R1|].
    intros s Hs. destruct (R2 s Hs) as [N1 N2 N3 N4 N5 N6]. by split.
Qed.
Lemma apply_last b P h m h' ack :
  cat_inv b -> hb_remote h = c_name b -> hb_active h = true -> hb_version h = 0 -> 0 < hb_generation h ->
  marked (hb_generation h) (hb_files h) -> snapshotting b h P (hb_files h) -> due b 0 true = P ++ m_records m ->
  m_done m = true -> m_through m = c_current b -> apply_catalogue h m = Ok (h', ack) ->
  hb_remote h' = hb_remote h /\ hb_epoch h' = hb_epoch h /\ hb_active h' = false /\ hb_version h' = c_current b
  /\ hb_generation h' = hb_generation h /\ marked (hb_generation h') (hb_files h') /\ replica b (c_current b) (hb_files h')
  /\ ack = Some (m_epoch m, c_current b).
Proof.
  intros Hb Hn Ha Hv Hg Hm Hsn HL Hd Ht H. apply apply_spec in H as (files & smax & Happ & -> & ->); [|by rewrite Ha, andb_false_r].
  cbn [hb_remote hb_epoch hb_active hb_version hb_generation hb_files]. rewrite Ha, Hd, Hv, Ht. cbn [andb negb].
  assert (Z.max 0 (c_current b) = c_current b) as -> by (pose proof (ci_current b Hb); lia).
  assert (marked (hb_generation h) files) as Hmf by (by eapply apply_records_marks; [lia|exact Hm|exact Happ]).
  split_and!; try done; [by apply sweep_marked|]. apply snap_end; [done|].
  rewrite HL. eapply (snap_records b Hb h Hn Hg m _ Ha P [] _ _ _ _ _ _ Hsn Happ). Unshelve. by rewrite app_nil_r.
Qed.
End Hub.

(** * The invariant of the system

    Preserved by every step of the system: a scan, a discovery, a restart, a
    catalogue begun anew, a message, an acknowledgement, a cut, a backup. *)

Section Invariant.
Context {json : MediaJson}.

(** The hub while messages are on their way to it. *)
Definition streaming (c : Catalog) (h : Hub) (queue : list CatalogDelta) (sent : option Z) : Prop :=
  exists b, cat_inv b /\ hb_remote h = c_name b /\ hb_epoch h = c_epoch b
  /\ if hb_active h then
       hb_version h = 0
       /\ exists P rest, due b 0 true = P ++ rest /\ snapshotting b h P (hb_files h) /\ snapshot_chain b rest queue sent c
     else 0 <= hb_version h <= c_current b /\ replica b (hb_version h) (hb_files h) /\ chain b (hb_version h) queue sent c.
Definition link_ok (c : Catalog) (hub : option Hub) (l : Link) : Prop :=
  match l with
  | Down => True
  | Offered o => o_id o = c_name c /\ o_epoch o = c_epoch c /\ o_oldest o = c_oldest c
  | Answered cursor =>
      exists h, hub = Some h /\ hb_epoch h = c_epoch c
      /\ cursor = mkCursor (c_name c) (c_epoch c) (hb_version h) (hb_active h)
      /\ (if hb_active h then hb_version h = 0 /\ marked (hb_generation h - 1) (hb_files h) else c_oldest c <= hb_version h)
  | Streaming queue sent => exists h, hub = Some h /\ streaming c h queue sent
  end.
Definition acks_ok (c : Catalog) (acks : list CatalogAck) : Prop :=
  Forall (fun '(epoch, version) => epoch = c_epoch c /\ version <= c_current c) acks.
Record sys_inv (y : System) : Prop := {
  si_catalog : cat_inv (y_catalog y);
  si_told : told (y_catalog y);
  si_hub : forall h, y_hub y = Some h -> hub_ok (y_catalog y) h;
  si_backup : forall h, y_backup y = Some h -> hub_ok (y_catalog y) h;
  si_link : link_ok (y_catalog y) (y_hub y) (y_link y);
  si_acks : acks_ok (y_catalog y) (y_acks y);
}.

Lemma streaming_evolves c c' h queue sent : evolves c c' -> streaming c h queue sent -> streaming c' h queue sent.
Proof.
  intros He (b & Hb & Hn & Hep & H). exists b. split_and!; try done. destruct (hb_active h).
  - destruct H as (Hv & P & rest & HL & Hsn & Hch). split; [done|]. exists P, rest. split_and!; try done.
    by eapply snapshot_chain_evolves.
  - destruct H as (Hv & Hr & Hch). split; [done|split; [done|]]. by eapply chain_evolves.
Qed.
Lemma streaming_evolved c h queue sent : streaming c h queue sent -> exists b, evolves b c /\ hb_epoch h = c_epoch b.
Proof.
  intros (b & Hb & Hn & Hep & H). exists b. split; [|done]. destruct (hb_active h).
  - destruct H as (_ & P & rest & _ & _ & Hch). by eapply snapshot_chain_evolved.
  - destruct H as (_ & _ & Hch). by eapply chain_evolved.
Qed.
Lemma link_evolves c c' hub l : evolves c c' -> link_ok c hub l -> link_ok c' hub l.
Proof.
  intros He. pose proof He as (N & E & O & _). destruct l as [|o|cu|q s]; cbn [link_ok].
  - done.
  - by rewrite N, E, O.
  - rewrite N, E, O. done.
  - intros (h & Hh & Hs). exists h. split; [done|]. by eapply streaming_evolves.
Qed.
Lemma acks_evolve c c' acks : evolves c c' -> acks_ok c acks -> acks_ok c' acks.
Proof.
  intros (_ & E & _ & Hcur & _). unfold acks_ok. rewrite !Forall_forall. intros H [e v] Hin. destruct (H _ Hin). split; [congruence|lia].
Qed.
(** A step of the catalogue alone. *)
Lemma inv_catalog c c' h l a b : good_step c c' -> sys_inv (mkSystem c h l a b) -> sys_inv (mkSystem c' h l a b).
Proof.
  intros (He & Hi & Ht) [S1 S2 S3 S4 S5 S6]. cbn in *. split; cbn.
  - by apply Hi.
  - by apply Ht.
  - intros x Hx. by eapply hub_ok_evolves, S3.
  - intros x Hx. by eapply hub_ok_evolves, S4.
  - by eapply link_evolves.
  - by eapply acks_evolve.
Qed.

(** ** Each step of the link *)

Lemma inv_replaced c epoch h b :
  (forall x, h = Some x \/ b = Some x -> hb_epoch x <> epoch) ->
  (forall x, h = Some x \/ b = Some x -> hub_ok c x) ->
  sys_inv (mkSystem (insert_collection (c_name c) epoch) h Down [] b).
Proof.
  intros Hne Hok. destruct (insert_inv (c_name c) epoch) as [Hi Ht].
  assert (forall x, h = Some x \/ b = Some x -> hub_ok (insert_collection (c_name c) epoch) x) as H.
  { intros x Hx. destruct (Hok x Hx) as [H1 H2 H3 _]. split; try done. intros E. by destruct (Hne x Hx). }
  split; cbn; try done.
  - intros x Hx. apply H. by left.
  - intros x Hx. apply H. by right.
  - constructor.
Qed.
Lemma inv_offer c h h' o cursor :
  (forall x, h = Some x -> hub_ok c x) -> link_ok c h (Offered o) -> offer_collection h o = Ok (h', cursor) ->
  hub_ok c h' /\ link_ok c (Some h') (Answered cursor).
Proof.
  intros Hok (L1 & L2 & L3) H. apply offer_spec in H as (H1 & H2 & _ & -> & Hif).
  destruct (hb_active h') eqn:Ha.
  - destruct Hif as [Hv Hg].
    assert (0 < hb_generation h' /\ marked (hb_generation h' - 1) (hb_files h')) as [Hpos Hm].
    { destruct h as [x|].
      - destruct Hg as [-> Hfiles]. destruct (Hok x eq_refl) as [_ P1 P2 _]. split; [lia|].
        replace (hb_generation x + 1 - 1) with (hb_generation x) by lia.
        destruct Hfiles as [->| ->]; [done|by apply marked_forgotten].
      - destruct Hg as [-> ->]. split; [lia|]. intros s. rewrite lookup_empty. split; [done|]. by intros []. }
    split.
    + split; [congruence|done|by apply (marked_mono (hb_generation h' - 1)); [lia|]|congruence].
    + exists h'. rewrite Ha. split_and!; [done|congruence|congruence|done|done].
  - destruct Hif as (x & -> & Hxa & Hxe & [Hold _] & Hv & Hg & Hf). destruct (Hok x eq_refl) as [P0 P1 P2 P3].
    split.
    + split; [congruence|lia|by rewrite Hg, Hf|]. intros Hep _. rewrite Hv, Hf. apply P3; [congruence|done].
    + exists h'. rewrite Ha. split_and!; [done|congruence|congruence|lia].
Qed.
Lemma inv_answer (encoded_len : CatalogRecord -> Z) c h cursor :
  cat_inv c -> (forall x, h = Some x -> hub_ok c x) -> link_ok c h (Answered cursor) ->
  let '(ms, sent) := answer_cursor encoded_len c cursor in link_ok c h (Streaming ms sent).
Proof.
  intros Hc Hok (x & Hx & Hep & -> & Hif). destruct (Hok x Hx) as [P0 P1 P2 P3].
  unfold answer_cursor, sync_start. cbn [cu_snapshot cu_epoch cu_version]. rewrite String.eqb_refl. cbn [negb]. rewrite orb_false_r.
  destruct (hb_active x) eqn:Ha; cbn [orb].
  - destruct Hif as [Hv Hm]. pose proof (sent_snapshot c Hc encoded_len) as Hs. destruct (send_catalog_pages _ _ _ _) as [ms sent].
    exists x. split; [done|]. exists c. rewrite Ha. split_and!; try done. exists [], (due c 0 true). split_and!; [done| |done].
    by apply snap_begin.
  - destruct (P3 Hep eq_refl) as [Hv Hr].
    assert ((hb_version x <? c_oldest c) || (c_current c <? hb_version x) = false) as ->.
    { apply orb_false_iff. split; apply Z.ltb_ge; lia. }
    pose proof (sent_chain c Hc encoded_len (hb_version x) c (evolves_refl c) ltac:(lia)) as Hs.
    destruct (send_catalog_pages _ _ _ _) as [ms sent]. exists x. split; [done|]. exists c. rewrite Ha. split_and!; try done; lia.
Qed.
Lemma inv_update (encoded_len : CatalogRecord -> Z) c h queue sent :
  cat_inv c -> link_ok c h (Streaming queue (Some sent)) ->
  let '(ms, sent) := send_catalog_pages encoded_len c sent false in link_ok c h (Streaming (queue ++ ms) sent).
Proof.
  intros Hc (x & Hx & b & Hb & Hn & Hep & H).
  pose proof (fun b0 He Hle => sent_chain c Hc encoded_len sent b0 He Hle) as Hs.
  destruct (send_catalog_pages _ _ _ _) as [ms sent']. exists x. split; [done|]. exists b. split_and!; try done.
  destruct (hb_active x).
  - destruct H as (Hv & P & rest & HL & Hsn & Hch). split; [done|]. exists P, rest. split_and!; try done.
    by eapply snapshot_chain_app.
  - destruct H as (Hv & Hr & Hch). split; [done|split; [done|]]. by eapply chain_app.
Qed.
(** A message of a delta reaches the hub. *)
Lemma inv_deliver_delta c h h' m queue sent ack :
  hub_ok c h -> hb_active h = false -> streaming c h (m :: queue) sent -> apply_catalogue h m = Ok (h', ack) ->
  hub_ok c h' /\ streaming c h' queue sent /\ acks_ok c (match ack with Some x => [x] | None => [] end).
Proof.
  intros Hok Ha Hst H. pose proof (streaming_evolved _ _ _ _ Hst) as Hev. destruct Hst as (b0 & Hb0 & Hn & Hep & Hst).
  rewrite Ha in Hst. destruct Hst as (Hv & Hr & Hch). destruct Hok as [P0 P1 P2 _].
  inversion Hch as [| |b0' b t m' ms s' c' He Hb Ht Hseg Hch']; subst.
  pose proof He as (N & E & _ & Hcur & _).
  destruct (apply_delta b (hb_version h) h m h' ack) as (Q1 & Q2 & Q3 & Q4 & Q5 & Q6 & Q7 & ->); try done; [congruence|lia| |].
  { by apply (replica_evolves b0). }
  pose proof (chain_evolved _ _ _ _ _ Hch') as He'. pose proof He' as (N' & E' & _ & Hcur' & _).
  destruct Hseg as (S1 & S2 & S3 & S4 & S5). split_and!.
  - split; [congruence|lia|done|]. intros _ _. rewrite Q4. split; [lia|]. apply (replica_evolves b); [done|lia|done].
  - exists b. rewrite Q3, Q4. split_and!; try done; [congruence|congruence|lia|lia].
  - destruct (m_done m); cbn; [|constructor]. constructor; [|constructor]. split; [congruence|lia].
Qed.
(** A message of a snapshot reaches the hub. *)
Lemma inv_deliver_snapshot c h h' m queue sent ack :
  hub_ok c h -> hb_active h = true -> streaming c h (m :: queue) sent -> apply_catalogue h m = Ok (h', ack) ->
  hub_ok c h' /\ streaming c h' queue sent /\ acks_ok c (match ack with Some x => [x] | None => [] end).
Proof.
  intros Hok Ha (b & Hb & Hn & Hep & Hst) H. rewrite Ha in Hst. destruct Hst as (Hv & P & rest & HL & Hsn & Hch).
  destruct Hok as [P0 P1 P2 _]. pose proof (snapshot_chain_evolved _ _ _ _ _ Hch) as (N & E & _ & Hcur & _).
  inversion Hch as [|m' rest' ms s' c' M1 M2 M3 M4 Hch'|m' ms s' c' M1 M2 M3 M4 Hch']; subst.
  - destruct (apply_part b P rest' h m h' ack) as (Q1 & Q2 & Q3 & Q4 & Q5 & Q6 & Q7 & ->); try done. split_and!.
    + split; [congruence|lia|done|]. intros _. by rewrite Q3.
    + exists b. rewrite Q3. split_and!; try done; [congruence..|]. exists (P ++ m_records m), rest'. split_and!; [|done|done].
      by rewrite <- app_assoc.
    + constructor.
  - destruct (apply_last b P h m h' ack) as (Q1 & Q2 & Q3 & Q4 & Q5 & Q6 & Q7 & ->); try done.
    pose proof (ci_current b Hb). pose proof (chain_evolved _ _ _ _ _ Hch') as He'. split_and!.
    + split; [congruence|lia|done|]. intros _ _. rewrite Q4. split; [lia|]. apply (replica_evolves b); [done|lia|done].
    + exists b. rewrite Q3, Q4. split_and!; try done; try congruence; lia.
    + constructor; [|constructor]. split; [congruence|done].
Qed.
End Invariant.
