(* ===== verification/ReplicationProgress.v ===== *)
(** * A sync that can complete does

    What a catalogue must be like for a hub to take all of it, and that its
    records are then all accepted, in a delta as in a snapshot. *)
From S2P Require Import Prelude Media Catalog CatalogTheorems CatalogLink CatalogLinkTheorems Replica ReplicaFacts ReplicaSnapshot Replication ReplicationFacts.
#[local] Open Scope Z_scope.

Section Ships.
Context {json : MediaJson}.

(** A record the hub can take: an address it accepts, a root it knows, and a
    payload of the record's own file, at the revision of its file record. *)
Definition fact_fits (kind : string) (a : Answer) (file : option Rec) : bool :=
  match file with
  | Some (mkRec _ (FileUpsert _ [f]) _) =>
      (a_size a =? f_size f) && (negb ((kind =s LOUDNESS) || (kind =s SEGMENTS)) || (a_mtime a =? f_mtime f))
  | _ => false
  end.
Definition payload_ships (c : Catalog) (s : Source) (r : CatalogRecord) : bool :=
  match w_payload r with
  | FileUpsert name [f] => (w_kind r =s FILE) && (name =s c_name c) && (f_source f ≟ Some s)
                           && match base_of f with Ok _ => true | Err _ => false end
  | FileError name source _ => (w_kind r =s FILE_ERROR) && (name =s c_name c) && (source ≟ Some s)
  | FactOf kind name [a] => negb (kind =s FILE) && negb (kind =s FILE_ERROR) && (w_kind r =s kind) && (name =s c_name c)
                            && (a_source a ≟ Some s) && fact_fits kind a (c_records c !! (FILE, w_key r))
  | _ => false
  end.
Definition ships (c : Catalog) (active : string -> bool) (r : CatalogRecord) : bool :=
  match hub_source_key (w_key r) with
  | Ok s => w_deleted r || (active (fst s) && payload_ships c s r)
  | Err _ => false
  end.
Definition shippable (c : Catalog) (active : string -> bool) : bool :=
  (c_current c <=? i64_max) && forallb (ships c active) (all_records c).
Definition active_root (h : Hub) (token : string) : bool := is_some_and snd (hb_roots h !! token).

Context (c : Catalog) (Hc : cat_inv c).

Lemma fact_kind_known r : is_record c r -> w_kind r <> FILE -> str_mem (w_kind r) FACT_KINDS = true.
Proof.
  intros ([kind key] & x & Hx & ->) Hk. apply str_mem_spec. apply (ci_kind c Hc) in Hx. by apply elem_of_cons in Hx as [|Hx].
Qed.
Lemma integer_inv n m : integer n = Ok m -> m = n /\ n <= i64_max.
Proof. unfold integer. intros H. unchain H. injection H as <-. split; [done|]. by zbool. Qed.
Lemma integer_ok n : n <= i64_max -> integer n = Ok n.
Proof. unfold integer. intros H. by rewrite (proj2 (Z.leb_le _ _) H). Qed.
Lemma base_of_inv f b : base_of f = Ok b ->
  exists media, media_of f = Ok media /\ base_with f media = Ok b /\ b_size b = f_size f /\ b_mtime b = f_mtime f /\ f_size f <= i64_max.
Proof.
  unfold base_of. intros H. apply rbind_inv in H as (media & Hm & H). exists media. split; [done|]. split; [done|].
  unfold base_with in H. apply rbind_inv in H as (size & Hs & H). apply integer_inv in Hs as [-> Hs]. by injection H as <-.
Qed.
#[local] Ltac checks :=
  repeat match goal with
  | H : _ && _ = true |- _ => apply andb_true_iff in H as [? ?]
  | H : negb (_ =s _) = true |- _ => apply negb_true_iff, String.eqb_neq in H
  | H : (_ =s _) = true |- _ => apply String.eqb_eq in H
  | H : bool_decide _ = true |- _ => apply bool_decide_eq_true in H
  end.
(** Nothing the hub checks of a record fails. *)
Section Accepted.
Context (h : Hub) (snapshot : bool) (s : Source) (r : CatalogRecord) (Hn : hb_remote h = c_name c).
Lemma source_valid : validate_source (Some s) s = true.
Proof. unfold validate_source. by apply bool_decide_true. Qed.
Lemma file_accepted w name f :
  w_payload r = FileUpsert name [f] -> payload_ships c s r = true ->
  w_kind r = FILE /\ exists w', apply_file h snapshot s r w = Ok w'.
Proof.
  intros Hp Hpay. unfold payload_ships in Hpay. rewrite Hp in Hpay. checks. split; [done|]. subst name.
  destruct (base_of f) as [b|] eqn:Hb; [|done]. apply base_of_inv in Hb as (media & Hm & Hbw & _).
  unfold apply_file. rewrite Hp, Hn, String.eqb_refl. cbn [ensure].
  match goal with H : f_source f = Some s |- _ => rewrite H end. rewrite source_valid. cbn [ensure]. rewrite Hm. cbn [rbind].
  destruct (negb snapshot && _); [by eexists|]. rewrite Hbw. cbn [rbind]. by eexists.
Qed.
Lemma error_accepted w name source text :
  w_payload r = FileError name source text -> payload_ships c s r = true ->
  w_kind r = FILE_ERROR /\ exists w', apply_fact h snapshot s r w = Ok w'.
Proof.
  intros Hp Hpay. unfold payload_ships in Hpay. rewrite Hp in Hpay. checks. split; [done|]. subst name source.
  unfold apply_fact. rewrite Hp. cbn [identity]. match goal with H : w_kind r = FILE_ERROR |- _ => rewrite H end.
  rewrite String.eqb_refl. cbn [ensure rbind]. rewrite Hn, String.eqb_refl, source_valid. cbn [ensure rbind guard_holds is_none_or].
  by eexists.
Qed.
Lemma fact_accepted w kind name answers :
  w_payload r = FactOf kind name answers -> payload_ships c s r = true -> is_record c r ->
  (forall x n f, c_records c !! (FILE, w_key r) = Some x -> rc_payload x = FileUpsert n [f] ->
     exists b, base_of f = Ok b /\ hf_base w = Some b) ->
  w_kind r <> FILE /\ w_kind r <> FILE_ERROR /\ exists w', apply_fact h snapshot s r w = Ok w'.
Proof.
  intros Hp Hpay Hr Hbase. unfold payload_ships in Hpay. rewrite Hp in Hpay. destruct answers as [|a [|]]; try done. checks.
  subst name kind. split; [done|split; [done|]].
  match goal with H : fact_fits _ _ _ = true |- _ => rename H into Hfit end. unfold fact_fits in Hfit.
  destruct (c_records c !! (FILE, w_key r)) as [[v p d]|] eqn:Hx; [|done].
  destruct p as [|n fs| |]; try done. destruct fs as [|f [|]]; try done.
  destruct (Hbase _ n f eq_refl eq_refl) as (b & Hb & Hw). apply base_of_inv in Hb as (_ & _ & _ & Hsize & Hmtime & Hmax).
  apply andb_true_iff in Hfit as [Hfit1%Z.eqb_eq Hfit2].
  unfold apply_fact. rewrite Hp. cbn [identity]. rewrite String.eqb_refl, (fact_kind_known r Hr) by done.
  rewrite (proj2 (String.eqb_neq (w_kind r) FILE_ERROR)) by done. cbn [negb andb ensure rbind]. rewrite Hn, String.eqb_refl. cbn [ensure].
  match goal with H : a_source a = Some s |- _ => rewrite H end. rewrite source_valid. cbn [ensure].
  rewrite Hfit1, integer_ok by done. cbn [rbind]. rewrite Hw. cbn [guard_holds is_none_or is_some_and].
  rewrite Hsize, Z.eqb_refl. cbn [andb].
  assert (is_none_or (fun m => m =? b_mtime b) (then_some ((w_kind r =s LOUDNESS) || (w_kind r =s SEGMENTS)) (a_mtime a)) = true) as ->.
  { destruct ((w_kind r =s LOUDNESS) || (w_kind r =s SEGMENTS)); [|done]. unfold then_some, is_none_or. by rewrite Hmtime. }
  cbn [ensure]. by eexists.
Qed.
Lemma row_accepted row :
  is_record c r -> ships c (active_root h) r = true -> hub_source_key (w_key r) = Ok s ->
  (snapshot = true -> w_deleted r = false) ->
  (w_deleted r = false -> w_kind r <> FILE -> w_kind r <> FILE_ERROR ->
   forall x n f, c_records c !! (FILE, w_key r) = Some x -> rc_payload x = FileUpsert n [f] ->
     exists b, base_of f = Ok b /\ row_base row = Some b) ->
  exists row', apply_row h snapshot s r row = Ok row'.
Proof.
  intros Hr Hship Hkey Hsnap Hbase. unfold ships in Hship. rewrite Hkey in Hship. unfold apply_row.
  destruct (w_deleted r) eqn:Hd.
  { destruct snapshot; [by specialize (Hsnap eq_refl)|]. cbn [negb ensure].
    destruct (String.eqb_spec (w_kind r) FILE) as [|Hk]; [by eexists|]. rewrite (fact_kind_known r Hr Hk). cbn [ensure]. by eexists. }
  cbn [orb] in Hship. apply andb_true_iff in Hship as [Hact Hpay]. unfold active_root in Hact. rewrite Hact. cbn [ensure].
  set (w := unwrap_or row (mkHubFile 0 0 None ∅)). assert (hf_base w = row_base row) as Hw by (by destruct row).
  destruct (w_payload r) as [|name fs|name source text|kind name answers] eqn:Hp.
  - unfold payload_ships in Hpay. by rewrite Hp in Hpay.
  - destruct fs as [|f [|]]; try (unfold payload_ships in Hpay; by rewrite Hp in Hpay).
    destruct (file_accepted w name f Hp Hpay) as [Hk [w' Hw']]. rewrite Hk, String.eqb_refl, Hw'. cbn [rbind]. by eexists.
  - destruct (error_accepted w name source text Hp Hpay) as [Hk [w' Hw']].
    assert (w_kind r =s FILE = false) as -> by (by rewrite Hk). rewrite Hw'. cbn [rbind]. by eexists.
  - assert (w_kind r <> FILE /\ w_kind r <> FILE_ERROR /\ exists w', apply_fact h snapshot s r w = Ok w') as (Hk & _ & w' & Hw').
    { assert (w_kind r <> FILE /\ w_kind r <> FILE_ERROR) as [K1 K2].
      { unfold payload_ships in Hpay. rewrite Hp in Hpay. destruct answers as [|a [|]]; try done. checks. by subst. }
      apply (fact_accepted w kind name answers Hp Hpay Hr). rewrite Hw. by apply Hbase. }
    rewrite (proj2 (String.eqb_neq _ _) Hk), Hw'. cbn [rbind]. by eexists.
Qed.
End Accepted.
End Ships.

(** ** Messages *)

Section Messages.
Context {json : MediaJson} (c : Catalog) (Hc : cat_inv c).

Definition all_ship (h : Hub) : Prop := c_current c <= i64_max /\ forall r, is_record c r -> ships c (active_root h) r = true.
Lemma shippable_all h : shippable c (active_root h) = true <-> all_ship h.
Proof.
  unfold shippable, all_ship. rewrite andb_true_iff, Z.leb_le, forallb_forall. split; intros [H1 H2]; (split; [done|]); intros r Hr.
  - by apply H2, list_elem_of_In, all_records_spec.
  - by apply H2, all_records_spec, list_elem_of_In.
Qed.
Lemma all_ship_roots h h' : (forall t, active_root h' t = active_root h t) -> all_ship h -> all_ship h'.
Proof.
  intros Ht [H1 H2]. split; [done|]. intros r Hr. rewrite <- (H2 r Hr). unfold ships. destruct (hub_source_key _); [|done]. by rewrite Ht.
Qed.
Lemma ships_key h r : all_ship h -> is_record c r -> exists s, hub_source_key (w_key r) = Ok s.
Proof. intros [_ H] Hr. specialize (H r Hr). unfold ships in H. destruct (hub_source_key _) as [s|]; [by exists s|done]. Qed.

Lemma delta_accepted_record t h files r :
  hb_remote h = c_name c -> all_ship h -> 0 <= t < w_version r -> is_record c r ->
  (forall y, is_record c y -> t < w_version y -> w_version r <= w_version y) -> replica c t files ->
  exists s row, hub_source_key (w_key r) = Ok s /\ apply_row h false s r (files !! s) = Ok row.
Proof.
  intros Hn Hship Ht Hr Hnext [_ Hrep]. destruct (ships_key h r Hship Hr) as [s Hs]. exists s.
  destruct (hub_source_key_spec _ _ Hs) as [Hk Hnul].
  destruct (row_accepted c Hc h false s r Hn (files !! s) Hr (proj2 Hship r Hr) Hs) as [row Hrow]; [done| |by exists row].
  intros Hd H1 H2 x n f Hx Hp. rewrite Hk in Hx. destruct Hr as ([kind key] & y & Hy & ->). cbn in *. subst key.
  destruct (ki_fact _ _ (ci_file _ Hc s Hnul) kind y H1 H2) as (x' & [Hx' Hxd] & Hlt); [by split|].
  rewrite Hx in Hx'. injection Hx' as <-.
  assert (rc_version x <= t) as Hxt.
  { destruct (Z.le_gt_cases (rc_version x) t) as [|Hgt]; [done|].
    specialize (Hnext (wire (FILE, key_of s) x) ltac:(by exists (FILE, key_of s), x) ltac:(simpl; lia)). simpl in Hnext. lia. }
  pose proof (sy_file _ _ _ _ (Hrep s Hnul) x Hx Hxt) as Hsy. rewrite Hxd in Hsy. destruct Hsy as (f' & b & Hp' & _ & Hb & Hrow).
  rewrite Hp in Hp'. injection Hp' as -> ->. by exists b.
Qed.
Lemma delta_accepted h m hi l : hb_remote h = c_name c -> hb_active h = false -> all_ship h -> m_through m = hi -> forall files t previous smax,
  hb_version h <= t -> previous <= t -> 0 <= t <= hi -> window c t hi l -> replica c t files ->
  exists files' smax', apply_records h m files previous smax l = Ok (files', smax').
Proof.
  intros Hn Ha Hship Hm. induction l as [|r l IH]; intros files t previous smax Hv Hp Ht Hw Hrep; cbn [apply_records]; [by do 2 eexists|].
  apply window_cons in Hw as (Hr & Hlo & Hw & Hnext). rewrite Ha. cbn [orb negb andb].
  pose proof (is_record_version c r Hc Hr) as Hrv. destruct Hship as [Hmax Hship].
  rewrite (proj2 (Z.ltb_lt 0 (w_version r))) by lia. cbn [ensure]. rewrite integer_ok by lia. cbn [rbind].
  rewrite (proj2 (Z.ltb_lt previous (w_version r))) by lia. rewrite (proj2 (Z.leb_le (w_version r) (m_through m))) by lia. cbn [andb ensure].
  rewrite (proj2 (Z.leb_gt (w_version r) (hb_version h))) by lia.
  destruct (delta_accepted_record t h files r Hn (conj Hmax Hship) ltac:(lia) Hr Hnext Hrep) as (s & row & Hs & Hrow).
  rewrite Hs. cbn [rbind]. rewrite Hrow. cbn [rbind]. apply (IH _ (w_version r)); try lia; [done|].
  eapply (delta_record c Hc t h files r s row Hn); try done; lia.
Qed.
Lemma delta_message_accepted t h m :
  hb_remote h = c_name c -> hb_epoch h = c_epoch c -> hb_active h = false -> hb_version h = t -> 0 <= t -> all_ship h ->
  replica c t (hb_files h) -> segment c t m -> exists h' ack, apply_catalogue h m = Ok (h', ack).
Proof.
  intros Hn He Ha Hv H0 Hship Hrep (S1 & S2 & S3 & Hw & Hle). unfold apply_catalogue.
  rewrite S1, Hn, String.eqb_refl, S2, He, String.eqb_refl, S3, Ha. cbn [ensure andb orb negb].
  rewrite integer_ok by (destruct Hship; lia). cbn [rbind].
  destruct (delta_accepted h m (m_through m) (m_records m) Hn Ha Hship eq_refl (hb_files h) t 0 (hb_snapshot_max h)) as (files & smax & Happ);
    try lia; try done.
  rewrite Happ. cbn [rbind]. by do 2 eexists.
Qed.

Lemma snapshot_accepted_record h P r rest files :
  hb_remote h = c_name c -> all_ship h -> due c 0 true = P ++ r :: rest -> snapshotting c h P files ->
  exists s row, hub_source_key (w_key r) = Ok s /\ apply_row h true s r (files !! s) = Ok row.
Proof.
  intros Hn Hship HL [_ Hsn]. destruct (due_split c Hc P r rest HL) as (_ & Hr & _ & Hfiles).
  pose proof (proj1 (due_spec c Hc r) Hr) as [Hrec Hd].
  destruct (ships_key h r Hship Hrec) as [s Hs]. exists s. destruct (hub_source_key_spec _ _ Hs) as [Hk Hnul].
  destruct (row_accepted c Hc h true s r Hn (files !! s) Hrec (proj2 Hship r Hrec) Hs) as [row Hrow]; [done| |by exists row].
  intros _ H1 H2 x n f Hx Hp. rewrite decide_False in Hfiles by done.
  destruct (fact_has_file c Hc r s Hnul Hr Hk H1 H2) as (g & Hg & Hgk & Hgf).
  destruct (sn_file _ _ _ _ _ (Hsn s Hnul) g (Hfiles g Hg Hgf) Hgk Hgf) as (f' & b & w & Hp' & _ & Hb & Hw & Hwb & _).
  destruct (live_record c Hc g s Hg Hgk) as (y & [Hy _] & Hge). rewrite Hgf in Hy. rewrite Hk in Hx. rewrite Hx in Hy. injection Hy as <-.
  rewrite Hge in Hp'. cbn in Hp'. rewrite Hp in Hp'. injection Hp' as -> ->. exists b. split; [done|]. unfold seen_row in Hw.
  destruct (files !! s) as [w'|]; [|done]. cbn in Hw. destruct (hf_seen w' =? hb_generation h); [|done]. by injection Hw as ->.
Qed.
Lemma snapshot_accepted h m l : hb_remote h = c_name c -> hb_active h = true -> 0 < hb_generation h -> all_ship h ->
  (m_done m = true -> m_through m = c_current c) -> forall P rest files previous smax,
  smax <= c_current c -> due c 0 true = P ++ l ++ rest -> snapshotting c h P files ->
  exists files' smax', apply_records h m files previous smax l = Ok (files', smax') /\ smax' <= c_current c.
Proof.
  intros Hn Ha Hg Hship Hdone. induction l as [|r l IH]; intros P rest files previous smax Hsm HL Hsn; cbn [apply_records]; [by do 2 eexists|].
  destruct (due_split c Hc P r (l ++ rest) HL) as (_ & Hr & _). apply (due_spec c Hc) in Hr as [Hr _].
  pose proof (is_record_version c r Hc Hr) as Hrv. rewrite Ha. cbn [orb negb andb ensure].
  rewrite (proj2 (Z.ltb_lt 0 (w_version r))) by lia. cbn [ensure]. rewrite integer_ok by (destruct Hship; lia). cbn [rbind].
  assert (negb (m_done m) || (w_version r <=? m_through m) = true) as ->.
  { destruct (m_done m); [|done]. rewrite Hdone by done. apply Z.leb_le. lia. }
  cbn [ensure]. destruct (snapshot_accepted_record h P r (l ++ rest) files Hn Hship HL Hsn) as (s & row & Hs & Hrow).
  rewrite Hs. cbn [rbind]. rewrite Hrow. cbn [rbind]. apply (IH (P ++ [r]) rest); [lia|by rewrite HL, <- app_assoc|].
  by eapply (snap_record c Hc h Hn Hg P r (l ++ rest)).
Qed.
Lemma snapshot_message_accepted h m P rest :
  hb_remote h = c_name c -> hb_epoch h = c_epoch c -> hb_active h = true -> 0 < hb_generation h -> all_ship h ->
  hb_snapshot_max h <= c_current c -> m_collection m = c_name c -> m_epoch m = c_epoch c ->
  (if m_done m then m_through m = c_current c else m_through m = 0) ->
  due c 0 true = P ++ m_records m ++ rest -> snapshotting c h P (hb_files h) ->
  exists h' ack, apply_catalogue h m = Ok (h', ack) /\ hb_snapshot_max h' <= c_current c
    /\ forall t, active_root h' t = active_root h t.
Proof.
  intros Hn He Ha Hg Hship Hsm M1 M2 M3 HL Hsn. unfold apply_catalogue. pose proof (ci_current c Hc) as Hcur.
  rewrite M1, Hn, String.eqb_refl, M2, He, String.eqb_refl, Ha. cbn [ensure andb orb negb]. rewrite andb_false_r.
  rewrite integer_ok by (destruct Hship, (m_done m); [lia|unfold i64_max; lia]). cbn [rbind].
  assert (m_done m || (m_through m =? 0) = true) as -> by (destruct (m_done m); [done|by apply Z.eqb_eq]). cbn [ensure].
  destruct (snapshot_accepted h m (m_records m) Hn Ha Hg Hship) with (P := P) (rest := rest) (files := hb_files h) (previous := 0)
    (smax := hb_snapshot_max h) as (files & smax & Happ & Hsmax); try done.
  { intros Hd. by rewrite Hd in M3. }
  rewrite Happ. cbn [rbind]. destruct (m_done m); cbn [negb orb andb].
  - rewrite M3. rewrite (proj2 (Z.leb_le smax (c_current c))) by done. cbn [ensure]. do 2 eexists. split; [done|]. split; [done|].
    intros t. unfold active_root. cbn [hb_roots]. rewrite map_lookup_filter. destruct (hb_roots h !! t) as [[p a]|]; [|done]. cbn.
    case_guard as G; cbn; [done|]. destruct a; [by destruct G|done].
  - cbn [ensure]. do 2 eexists. split; [done|]. split; done.
Qed.
End Messages.

(** ** Runs *)

Section Run.
Context {json : MediaJson} (encoded_len : CatalogRecord -> Z) (media_type hub_id : string) (c : Catalog) (Hc : cat_inv c).
Notation step := (system_step encoded_len media_type hub_id).

Definition short (l : list CatalogRecord) : bool := forallb (fun r => encoded_len r <=? PAYLOAD_BYTES_PER_MESSAGE) l.
Lemma send_pages_short snapshot pages first :
  (forall d, d ∈ pages -> short (d_records d) = true) -> snd (send_pages encoded_len (c_name c) snapshot first pages) = true.
Proof.
  revert first. induction pages as [|d pages IH]; intros first H; cbn [send_pages]; [done|].
  assert (exists ms, send_catalog_delta encoded_len (c_name c) d (snapshot && first) snapshot = Some ms) as [ms ->].
  { unfold send_catalog_delta. specialize (H d ltac:(left)). unfold short in H. destruct (d_records d); [by eexists|]. rewrite H. by eexists. }
  specialize (IH false ltac:(intros x Hx; apply H; by right)). by destruct (send_pages _ _ _ _ _).
Qed.
Lemma due_record cursor snapshot r : r ∈ due c cursor snapshot -> is_record c r.
Proof.
  unfold due. destruct snapshot.
  - intros [Hr|Hr]%elem_of_app; by apply (page_query_spec c true _ 0 Hc) in Hr as [Hr _].
  - intros Hr. by apply (page_query_spec c false false cursor Hc) in Hr as [Hr _].
Qed.
Lemma page_records l pages d r : pages_shape c l pages -> d ∈ pages -> r ∈ d_records d -> r ∈ l.
Proof.
  intros (init & x & -> & -> & _) [Hd|Hd]%elem_of_app Hr; apply elem_of_app.
  - left. apply list_elem_of_In, in_concat. exists (d_records d). split; [|by apply list_elem_of_In].
    by apply in_map, list_elem_of_In.
  - right. by apply list_elem_of_singleton in Hd as <-.
Qed.
Lemma sync_sent cursor snapshot :
  short (all_records c) = true -> snapshot = true \/ c_oldest c <= cursor <= c_current c ->
  snd (send_catalog_pages encoded_len c cursor snapshot) = Some (c_current c).
Proof.
  intros Hshort Hcur. pose proof (sync_shape encoded_len c cursor snapshot Hc) as H.
  destruct (send_catalog_pages encoded_len c cursor snapshot) as [ms sent] eqn:E. cbn [snd].
  destruct H as [(through & -> & -> & _)|[-> _]]; [done|]. exfalso. unfold send_catalog_pages in E.
  destruct (delta_pages c cursor snapshot) as [pages|] eqn:Ep.
  - apply (delta_pages_shape _ _ _ _ Hc) in Ep. destruct pages as [|d pages].
    { destruct Ep as (init & d & Ep & _). by destruct init. }
    destruct (_ && _ && _ && _); [done|].
    pose proof (send_pages_short snapshot (d :: pages) true) as Hok. destruct (send_pages _ _ _ _ _) as [ms' ok]. cbn [snd] in Hok.
    rewrite Hok in E; [done|]. intros d' Hd'. unfold short. apply forallb_forall. intros r Hr%list_elem_of_In.
    apply (proj1 (forallb_forall _ _) Hshort). apply list_elem_of_In, all_records_spec. eapply due_record, page_records; done.
  - unfold delta_pages in Ep. destruct Hcur as [->|[H1 H2]]; [done|].
    rewrite (proj2 (Z.leb_le _ _) H1), (proj2 (Z.leb_le _ _) H2), orb_true_r in Ep. done.
Qed.

(** The hub, ready for the next message of a delta, all of whose records ship. *)
Definition ready (t : Z) (h : Hub) : Prop :=
  hb_remote h = c_name c /\ hb_epoch h = c_epoch c /\ hb_active h = false /\ hb_version h = t /\ 0 < hb_generation h
  /\ marked (hb_generation h) (hb_files h) /\ replica c t (hb_files h) /\ all_ship c h.
Lemma alike_records b r : evolves b c -> evolves c b -> is_record b r <-> is_record c r.
Proof.
  intros (_ & _ & _ & L1 & R1 & D1) (_ & _ & _ & L2 & R2 & D2). split; intros (id & x & Hx & ->); exists id, x; (split; [|done]).
  - destruct (D1 id ltac:(by eexists)) as [y Hy].
    destruct (Z.le_gt_cases (rc_version y) (c_current b)) as [Hle|Hgt]; [pose proof (R1 id y Hy Hle); congruence|].
    pose proof (ci_version _ Hc id y Hy). lia.
  - pose proof (ci_version _ Hc id x Hx). destruct (D2 id ltac:(by eexists)) as [y Hy].
    destruct (Z.le_gt_cases (rc_version y) (c_current c)) as [Hle|Hgt]; [pose proof (R2 id y Hy Hle); congruence|].
    exfalso. pose proof (R1 id x Hx). assert (c_records b !! id = Some x) as Hb by (apply R1; [done|lia]).
    rewrite Hy in Hb. injection Hb as ->. lia.
Qed.
Lemma alike_segment b t m : evolves b c -> evolves c b -> segment b t m -> segment c t m.
Proof.
  intros H1 H2 (S1 & S2 & S3 & [S4 S5] & S6). pose proof H1 as (N & E & _ & L1 & _). pose proof H2 as (_ & _ & _ & L2 & _).
  split_and!; try done; [congruence|congruence| |lia|lia]. split; [done|]. intros r. rewrite S5. by rewrite (alike_records b r H1 H2).
Qed.
Lemma ready_message t h m h' ack :
  0 <= t -> ready t h -> segment c t m -> apply_catalogue h m = Ok (h', ack) -> ready (m_through m) h'.
Proof.
  intros H0 (Q1 & Q2 & Q3 & Q4 & Q5 & Q6 & Q7 & Q8) Hseg H.
  destruct (apply_delta c t h m h' ack) as (P1 & P2 & P3 & P4 & P5 & P6 & P7 & _); try done.
  split_and!; try done; try congruence. apply (all_ship_roots c h); [|done]. intros token.
  pose proof Hseg as (_ & _ & S3 & _). apply apply_spec in H as (files & smax & _ & -> & _); [|by rewrite S3].
  unfold active_root. cbn [hb_roots]. by rewrite Q3.
Qed.
Lemma chain_delivers b t q o :
  chain b t q o c -> evolves c b -> forall sent h a bk, o = Some sent -> 0 <= t -> ready t h ->
  exists h' a', rtc step (mkSystem c (Some h) (Streaming q o) a bk) (mkSystem c (Some h') (Streaming [] o) a' bk) /\ ready sent h'.
Proof.
  intros Hch. remember c as c' eqn:Hcc in Hch. induction Hch as [b t c' He Ht|b t c' He|b b' t m ms o c' He Hb Ht Hseg Hch IH]; intros Hcb sent h a bk Ho H0 Hr;
    [|done|]; subst c'.
  - injection Ho as ->. exists h, a. split; [apply rtc_refl|done].
  - pose proof (chain_evolved _ _ _ _ _ Hch) as Hb1. assert (evolves c b') as Hb2 by (by eapply evolves_trans).
    pose proof (alike_segment b' t m Hb1 Hb2 Hseg) as Hseg'. pose proof Hr as (Q1 & Q2 & Q3 & Q4 & Q5 & Q6 & Q7 & Q8).
    destruct (delta_message_accepted c Hc t h m Q1 Q2 Q3 Q4 H0 Q8 Q7 Hseg') as (h1 & ack & Happ).
    pose proof (ready_message t h m h1 ack H0 Hr Hseg' Happ) as Hr1. destruct Hseg' as (_ & _ & _ & _ & Hle).
    destruct (IH eq_refl Hb2 sent h1 (a ++ match ack with Some x => [x] | None => [] end) bk Ho ltac:(lia) Hr1) as (h' & a' & Hrun & Hr').
    exists h', a'. split; [|done]. eapply rtc_l; [|exact Hrun]. by constructor.
Qed.

(** The hub in a snapshot, the records so far behind it. *)
Definition ready_snapshot (P : list CatalogRecord) (h : Hub) : Prop :=
  hb_remote h = c_name c /\ hb_epoch h = c_epoch c /\ hb_active h = true /\ hb_version h = 0 /\ 0 < hb_generation h
  /\ marked (hb_generation h) (hb_files h) /\ snapshotting c h P (hb_files h) /\ all_ship c h /\ hb_snapshot_max h <= c_current c.
Lemma snapshot_delivers rest q o c' :
  snapshot_chain c rest q o c' -> c' = c -> forall sent P h a bk, o = Some sent -> due c 0 true = P ++ rest -> ready_snapshot P h ->
  exists h' a', rtc step (mkSystem c (Some h) (Streaming q o) a bk) (mkSystem c (Some h') (Streaming [] o) a' bk) /\ ready sent h'.
Proof.
  induction 1 as [rest c' He|m rest ms o c' M1 M2 M3 M4 Hch IH|m ms o c' M1 M2 M3 M4 Hch]; intros -> sent P h a bk Ho HL
    (Q1 & Q2 & Q3 & Q4 & Q5 & Q6 & Q7 & Q8 & Q9); [done| |].
  - destruct (snapshot_message_accepted c Hc h m P rest) as (h1 & ack & Happ & Hsm & Hroots); try done; [by rewrite M3|].
    destruct (apply_part c P rest h m h1 ack) as (P1 & P2 & P3 & P4 & P5 & P6 & P7 & _); try done.
    destruct (IH eq_refl sent (P ++ m_records m) h1 (a ++ match ack with Some x => [x] | None => [] end) bk Ho) as (h' & a' & Hrun & Hr').
    + by rewrite <- app_assoc.
    + split_and!; try done; try congruence. by apply (all_ship_roots c h).
    + exists h', a'. split; [|done]. eapply rtc_l; [|exact Hrun]. by constructor.
  - destruct (snapshot_message_accepted c Hc h m P []) as (h1 & ack & Happ & Hsm & Hroots); try done; [by rewrite M3|by rewrite app_nil_r|].
    destruct (apply_last c P h m h1 ack) as (P1 & P2 & P3 & P4 & P5 & P6 & P7 & _); try done.
    destruct (chain_delivers _ _ _ _ Hch (evolves_refl c) sent h1 (a ++ match ack with Some x => [x] | None => [] end) bk Ho) as (h' & a' & Hrun & Hr').
    + by apply ci_current.
    + split_and!; try done; try congruence. by apply (all_ship_roots c h).
    + exists h', a'. split; [|done]. eapply rtc_l; [|exact Hrun]. by constructor.
Qed.
Lemma offered_completes o h h' cursor a bk :
  (forall x, h = Some x -> hub_ok c x) -> link_ok c h (Offered o) -> offer_collection h o = Ok (h', cursor) ->
  all_ship c h' -> short (all_records c) = true ->
  exists h1 a1, rtc step (mkSystem c h (Offered o) a bk) (mkSystem c (Some h1) (Streaming [] (Some (c_current c))) a1 bk)
    /\ ready (c_current c) h1.
Proof.
  intros Hok Hl Ho Hship Hshort. destruct (inv_offer c h h' o cursor Hok Hl Ho) as [Hok' Hl'].
  pose proof (offer_spec _ _ _ _ Ho) as (_ & _ & Hsm & _). pose proof Hl' as (x & [= <-] & Hep & Hcu & Hif).
  assert (system_step encoded_len media_type hub_id (mkSystem c h (Offered o) a bk) (mkSystem c (Some h') (Answered cursor) a bk)) as Hs1 by (by constructor).
  pose proof (ss_answer encoded_len media_type hub_id c (Some h') cursor a bk) as Hs2.
  unfold answer_cursor, sync_start in Hs2. subst cursor. cbn [cu_snapshot cu_epoch cu_version] in Hs2.
  rewrite String.eqb_refl in Hs2. cbn [negb] in Hs2. rewrite orb_false_r in Hs2. destruct Hok' as [P0 P1 P2 P3].
  destruct (hb_active h') eqn:Ha; cbn [orb] in Hs2.
  - destruct Hif as [Hv Hm]. pose proof (sent_snapshot c Hc encoded_len) as Hch. pose proof (sync_sent 0 true Hshort ltac:(by left)) as Hsent.
    destruct (send_catalog_pages _ _ _ _) as [ms sent]. cbn [snd] in Hsent. subst sent.
    destruct (snapshot_delivers _ _ _ _ Hch eq_refl (c_current c) [] h' a bk eq_refl eq_refl) as (h1 & a1 & Hrun & Hr).
    + split_and!; try done; [by apply snap_begin|]. rewrite Hsm. by apply ci_current.
    + exists h1, a1. split; [|done]. eapply rtc_l; [exact Hs1|]. by eapply rtc_l.
  - destruct (P3 Hep eq_refl) as [Hv Hr].
    assert ((hb_version h' <? c_oldest c) || (c_current c <? hb_version h') = false) as E.
    { apply orb_false_iff. split; apply Z.ltb_ge; lia. }
    rewrite E in Hs2. pose proof (sent_chain c Hc encoded_len (hb_version h') c (evolves_refl c) ltac:(lia)) as Hch.
    pose proof (sync_sent (hb_version h') false Hshort ltac:(right; lia)) as Hsent.
    destruct (send_catalog_pages _ _ _ _) as [ms sent]. cbn [snd] in Hsent. subst sent.
    destruct (chain_delivers _ _ _ _ Hch (evolves_refl c) (c_current c) h' a bk eq_refl) as (h1 & a1 & Hrun & Hr'); [lia|by split_and!|].
    exists h1, a1. split; [|done]. eapply rtc_l; [exact Hs1|]. by eapply rtc_l.
Qed.
End Run.
