(* ===== verification/ReplicationTheorems.v ===== *)
(** * A hub lists what its mediahosts have scanned

    The claims about the copy of a catalogue at a hub. *)
From S2P Require Import Prelude Media Catalog CatalogTheorems CatalogLink CatalogLinkTheorems Replica ReplicaFacts ReplicaSnapshot Replication ReplicationFacts ReplicationProgress.
#[local] Open Scope Z_scope.

Section Reachable.
Context {json : MediaJson} (encoded_len : CatalogRecord -> Z) (media_type hub_id : string).
Notation step := (system_step encoded_len media_type hub_id).
Notation reachable := (reachable encoded_len media_type hub_id).

Lemma step_inv y y' : step y y' -> sys_inv y -> sys_inv y'.
Proof.
  destruct 1 as [c c' h l a b Hs|c epoch h l a b Hne|c roots h b _|c h h' o cu a b Ho|c h cu a b|c h q s a b _
                |c h h' m q s a ack b Hd|c c' h l e v a b Hk|c h l a b|c h a b|c h l a b|c h a b]; intros Hinv.
  - eapply inv_catalog; [by eapply catalog_step_good|done].
  - destruct Hinv as [S1 S2 S3 S4 _ _]. cbn [y_catalog y_hub y_link y_acks y_backup] in *. apply inv_replaced; [done|]. intros x [Hx|Hx]; auto.
  - destruct Hinv as [S1 S2 S3 S4 _ S6]. by split.
  - destruct Hinv as [S1 S2 S3 S4 S5 S6]. cbn [y_catalog y_hub y_link y_acks y_backup] in *. destruct (inv_offer c h h' o cu S3 S5 Ho) as [Hh Hl]. split; cbn; try done.
    by intros x [= <-].
  - destruct Hinv as [S1 S2 S3 S4 S5 S6]. cbn [y_catalog y_hub y_link y_acks y_backup] in *. pose proof (inv_answer encoded_len c h cu S1 S3 S5) as H.
    destruct (answer_cursor _ _ _). by split.
  - destruct Hinv as [S1 S2 S3 S4 S5 S6]. cbn [y_catalog y_hub y_link y_acks y_backup] in *. pose proof (inv_update encoded_len c h q s S1 S5) as H.
    destruct (send_catalog_pages _ _ _ _). by split.
  - destruct Hinv as [S1 S2 S3 S4 (x & [= <-] & Hst) S6]. cbn [y_catalog y_hub y_link y_acks y_backup] in *.
    assert (hub_ok c h' /\ streaming c h' q s /\ acks_ok c (match ack with Some x => [x] | None => [] end)) as (Hh & Hst' & Hack).
    { destruct (hb_active h) eqn:Ha; [by eapply inv_deliver_snapshot; [apply S3| | |]|by eapply inv_deliver_delta; [apply S3| | |]]. }
    split; cbn; try done; [by intros x [= <-]|by exists h'|by apply Forall_app].
  - assert (sys_inv (mkSystem c' h l ((e, v) :: a) b)) as [S1 S2 S3 S4 S5 S6].
    { eapply inv_catalog; [|exact Hinv]. apply catalog_step_good. replace c' with (snd (acknowledge c hub_id e v)) by (by rewrite Hk).
      constructor. }
    split; cbn in *; try done. by apply Forall_cons in S6 as [_ S6].
  - destruct Hinv as [S1 S2 S3 S4 _ _]. split; cbn; try done. constructor.
  - destruct Hinv as [S1 S2 S3 S4 S5 S6]. by split.
  - destruct Hinv as [S1 S2 S3 S4 S5 S6]. by split.
  - destruct Hinv as [S1 S2 S3 S4 S5 S6]. by split.
Qed.
Lemma reachable_inv name epoch y : reachable name epoch y -> sys_inv y.
Proof.
  induction 1 as [|y y' _ IH Hs]; [|by eapply step_inv].
  destruct (insert_inv name epoch) as [Hi Ht]. split; cbn; try done. constructor.
Qed.

(** The hub's row of a source beside the scanner's. *)
Definition same_file (row : FileRow) (hub : HubFile) : Prop :=
  if r_error row =s "" then exists b, hf_base hub = Some b /\ as_i64 (b_size b) = r_size row /\ b_mtime b = r_mtime row
  else hf_base hub = None /\ is_Some (hf_facts hub !! FILE_ERROR).
Lemma replica_lists c files s :
  cat_inv c -> nul_free (fst s) -> replica c (c_current c) files ->
  match c_files c !! s, files !! s with
  | Some row, Some hub => same_file row hub
  | None, None => True
  | _, _ => False
  end.
Proof.
  intros Hc Hs [_ Hrep]. destruct (Hrep s Hs) as [S1 S2 S3 S4 S5 S6]. destruct (ci_file _ Hc s Hs) as [K1 K2 K3 K4].
  assert (forall id r, c_records c !! id = Some r -> rc_version r <= c_current c) as Hle by (intros id r Hr; by apply (ci_version _ Hc id)).
  destruct (c_files c !! s) as [row|].
  - unfold same_file. destruct (r_error row =s "").
    + destruct K4 as (r & f & [Hr Hd] & Hp & Hsrc & Hsize & Hmt). pose proof (S3 r Hr (Hle _ _ Hr)) as H. rewrite Hd in H.
      destruct H as (f' & b & Hp' & _ & Hb & Hbase). rewrite Hp in Hp'. injection Hp' as <-.
      destruct (files !! s) as [hub|]; [|done]. exists b. apply base_of_inv in Hb as (_ & _ & _ & Hbs & Hbm & _).
      split_and!; [done|by rewrite Hbs|by rewrite Hbm].
    + destruct K4 as (r & [Hr Hd]). pose proof (S1 FILE_ERROR r ltac:(done) Hr (Hle _ _ Hr)) as H. rewrite Hd in H.
      destruct (files !! s) as [hub|]; [|done]. split.
      * change (row_base (Some hub) = None). destruct (c_records c !! (FILE, key_of s)) as [x|] eqn:Hx; [|by apply S4].
        destruct (K2 r x) as [Hxd _]; [by split|done|]. specialize (S3 x eq_refl (Hle _ _ Hx)). by rewrite Hxd in S3.
      * rewrite (row_fact_some _ hub _ eq_refl) in H. by destruct (hf_facts hub !! FILE_ERROR).
  - rewrite S5; [done|]. intros kind r Hr. split; [by apply (K4 kind)|by eapply Hle].
Qed.
Lemma replica_facts c files s kind p :
  cat_inv c -> nul_free (fst s) -> replica c (c_current c) files ->
  row_fact (files !! s) kind = Some p <-> kind <> FILE /\ exists r, rec_live c kind (key_of s) r /\ rc_payload r = p.
Proof.
  intros Hc Hs [_ Hrep]. destruct (Hrep s Hs) as [S1 S2 _ _ _ _]. split.
  - intros Hf. destruct (decide (kind = FILE)) as [->|Hk]; [by rewrite S2 in Hf; [|left]|]. split; [done|].
    destruct (c_records c !! (kind, key_of s)) as [r|] eqn:Hr; [|by rewrite S2 in Hf; [|right]].
    pose proof (ci_version _ Hc _ _ Hr). rewrite (S1 kind r Hk Hr) in Hf by lia. destruct (rc_deleted r) eqn:Hd; [done|].
    injection Hf as <-. by exists r.
  - intros (Hk & r & [Hr Hd] & <-). pose proof (ci_version _ Hc _ _ Hr). rewrite (S1 kind r Hk Hr) by lia. by rewrite Hd.
Qed.

(** C3: refinement of the catalogue by its replica, through every interleaving
    of scans, discoveries, restarts, catalogues begun anew, lost links, dropped
    collections and restored databases: whenever the cursor of the hub is the
    current version of the catalogue, and no snapshot is under way, the hub
    lists exactly the sources the mediahost has scanned, each with its size and
    modification time, or as an error with nothing playable; and what it knows
    of each is exactly what the live records of the catalogue say. *)
Theorem replica_faithful name epoch y h s kind p :
  reachable name epoch y -> y_hub y = Some h ->
  hb_epoch h = c_epoch (y_catalog y) -> hb_active h = false -> hb_version h = c_current (y_catalog y) -> nul_free (fst s) ->
  match c_files (y_catalog y) !! s, hb_files h !! s with
  | Some row, Some hub => same_file row hub
  | None, None => True
  | _, _ => False
  end
  /\ (row_fact (hb_files h !! s) kind = Some p
      <-> kind <> FILE /\ exists r, rec_live (y_catalog y) kind (key_of s) r /\ rc_payload r = p).
Proof.
  intros Hy Hh He Ha Hv Hs. apply reachable_inv in Hy as [Hc _ Hhub _ _ _].
  destruct (ho_replica _ _ (Hhub h Hh) He Ha) as [_ Hrep]. rewrite Hv in Hrep. split; [by apply replica_lists|by apply replica_facts].
Qed.

(** The cursor of the hub never runs ahead of the catalogue, so that the
    mediahost takes every acknowledgement that reaches it. *)
Theorem acks_accepted name epoch y e v :
  reachable name epoch y -> (e, v) ∈ y_acks y -> fst (acknowledge (y_catalog y) hub_id e v) = Ok tt.
Proof.
  intros Hy Hin. apply reachable_inv in Hy as [_ _ _ _ _ Hacks]. unfold acks_ok in Hacks. rewrite Forall_forall in Hacks.
  destruct (Hacks _ Hin) as [-> Hv]. unfold acknowledge. rewrite String.eqb_refl. cbn [negb]. by rewrite (proj2 (Z.ltb_ge _ _) Hv).
Qed.

(** C4: a sync ends. From any reachable state in which an offer the hub takes is
    on its way, and however stale the replica is, a catalogue whose records the
    hub can take and a message can hold is sent and applied to the last record,
    as a delta or as a snapshot, and the hub is then at the current version. *)
Theorem sync_completes name epoch c h o a b h' cursor :
  reachable name epoch (mkSystem c h (Offered o) a b) -> offer_collection h o = Ok (h', cursor) ->
  shippable c (active_root h') = true -> short encoded_len (all_records c) = true ->
  exists h1 a1, rtc step (mkSystem c h (Offered o) a b) (mkSystem c (Some h1) (Streaming [] (Some (c_current c))) a1 b)
    /\ hb_epoch h1 = c_epoch c /\ hb_active h1 = false /\ hb_version h1 = c_current c.
Proof.
  intros Hy Ho Hship Hshort. apply reachable_inv in Hy as [Hc _ Hhub _ Hl _]. cbn in *.
  destruct (offered_completes encoded_len media_type hub_id c Hc o h h' cursor a b) as (h1 & a1 & Hrun & Hr); try done.
  { by apply shippable_all. }
  exists h1, a1. destruct Hr as (_ & He & Ha & Hv & _). done.
Qed.
End Reachable.

(** ** The log and its messages *)

Section Log.
Context {json : MediaJson}.
Definition history (name epoch : string) (c : Catalog) : Prop := rtc catalog_step (insert_collection name epoch) c.
Lemma history_inv name epoch c : history name epoch c -> cat_inv c /\ told c.
Proof.
  unfold history. intros H. destruct (insert_inv name epoch) as [Hi Ht].
  induction H as [c|c c' c'' Hs _ IH]; [done|]. destruct (catalog_step_good _ _ Hs) as (_ & H1 & H2). auto.
Qed.

(** C12: the log of a mediahost tells one story of each file. After any sequence
    of scans, removals, discoveries and restarts: a source the scanner lists has
    a live file record of that size and modification time, no live error, and
    only facts found out about this revision, each logged after it; a source
    listed as an error has a live error record and no other; a source that is
    not listed has no live record; and subscribers have been told of the last
    version. *)
Theorem log_tells_one_story name epoch c s :
  history name epoch c -> nul_free (fst s) ->
  c_published c = c_current c
  /\ match c_files c !! s with
     | None => forall kind r, ~ rec_live c kind (key_of s) r
     | Some row =>
         if r_error row =s "" then
           exists r f, rec_live c FILE (key_of s) r /\ rc_payload r = FileUpsert (c_name c) [f] /\ f_source f = Some s
             /\ as_i64 (f_size f) = r_size row /\ f_mtime f = r_mtime row
             /\ forall kind x, kind <> FILE -> rec_live c kind (key_of s) x -> kind <> FILE_ERROR /\ rc_version r < rc_version x
         else exists r, rec_live c FILE_ERROR (key_of s) r /\ forall kind x, rec_live c kind (key_of s) x -> kind = FILE_ERROR
     end.
Proof.
  intros Hh Hs. destruct (history_inv _ _ _ Hh) as [Hc Ht]. split; [done|]. destruct (ci_file _ Hc s Hs) as [K1 K2 K3 K4].
  assert (forall e f, rec_live c FILE_ERROR (key_of s) e -> rec_live c FILE (key_of s) f -> False) as Hex.
  { intros e f He [Hf Hfd]. destruct (K2 e f He Hf). congruence. }
  destruct (c_files c !! s) as [row|].
  - destruct (r_error row =s "").
    + destruct K4 as (r & f & Hr & Hp & Hsrc & Hsize & Hm). exists r, f. split_and!; try done.
      intros kind x Hk Hx. destruct (decide (kind = FILE_ERROR)) as [->|Hne]; [by destruct (Hex x r)|]. split; [done|].
      destruct (K1 kind x Hk Hne Hx) as (f' & [Hf' _] & Hlt). destruct Hr as [Hr _]. rewrite Hr in Hf'. by injection Hf' as <-.
    + destruct K4 as (r & Hr). exists r. split; [done|]. intros kind x Hx. destruct (decide (kind = FILE_ERROR)) as [|Hne]; [done|].
      destruct (decide (kind = FILE)) as [->|Hk]; [by destruct (Hex r x)|].
      destruct (K1 kind x Hk Hne Hx) as (f & Hf & _). by destruct (Hex r f).
  - intros kind r [Hr Hd]. rewrite (K4 kind r Hr) in Hd. done.
Qed.

Lemma chain_through b t ms o c pre m post : chain b t ms o c -> ms = pre ++ m :: post -> t <= m_through m.
Proof.
  intros Hch. revert pre. induction Hch as [| |b b' t x ms o c He Hb Ht Hseg Hch IH]; intros pre E; [by destruct pre|by destruct pre|].
  destruct Hseg as (_ & _ & _ & _ & Hle). destruct pre as [|y pre]; [injection E as -> _; lia|injection E as -> ->].
  specialize (IH pre eq_refl). lia.
Qed.
Lemma chain_window c (Hc : cat_inv c) b t ms o pre m post r :
  chain b t ms o c -> evolves c b -> ms = pre ++ m :: post ->
  (exists m', m' ∈ pre ++ [m] /\ r ∈ m_records m') <-> is_record c r /\ t < w_version r <= m_through m.
Proof.
  intros Hch. revert pre. remember c as c' eqn:E in Hch. induction Hch as [b t c' _ _|b t c' _|b b' t x ms o c' He Hb Ht Hseg Hch IH];
    intros pre Hcb Hms; [by destruct pre|by destruct pre|]. subst c'.
  pose proof (chain_evolved _ _ _ _ _ Hch) as Hb1. assert (evolves c b') as Hb2 by (by eapply evolves_trans).
  pose proof (alike_segment c Hc b' t x Hb1 Hb2 Hseg) as (_ & _ & _ & [_ Hin] & Hle). destruct pre as [|y pre].
  - injection Hms as <- <-. cbn [app]. rewrite <- Hin. split; [by intros (m' & ->%list_elem_of_singleton & Hr)|].
    intros Hr. exists x. split; [left|done].
  - injection Hms as <- ->. specialize (IH eq_refl pre Hb2 eq_refl). split.
    + intros (m' & [->|Hm']%elem_of_cons & Hr).
      * apply Hin in Hr as [Hr Hv]. split; [done|]. pose proof (chain_through _ _ _ _ _ pre m post Hch eq_refl). lia.
      * destruct (proj1 IH (ex_intro _ m' (conj Hm' Hr))) as [Hrec Hv]. split; [done|lia].
    + intros [Hr Hv]. destruct (Z.le_gt_cases (w_version r) (m_through x)) as [Hx|Hx].
      * exists x. split; [left|]. apply Hin. split; [done|lia].
      * destruct (proj2 IH) as (m' & Hm' & Hrm); [split; [done|lia]|]. exists m'. split; [by right|done].
Qed.
(** C13: every message of a delta names a cursor that is safe to keep: up to it
    the messages so far hold exactly the records of the catalogue past the old
    cursor, whatever pages and messages they were cut into, each of at most 256
    records and four mebibytes. *)
Theorem cursor_safe (encoded_len : CatalogRecord -> Z) name epoch c cursor pre m post sent r :
  history name epoch c -> send_catalog_pages encoded_len c cursor false = (pre ++ m :: post, sent) ->
  ((exists m', m' ∈ pre ++ [m] /\ r ∈ m_records m') <-> is_record c r /\ cursor < w_version r <= m_through m)
  /\ (length (m_records m) <= 256)%nat /\ encoded encoded_len (m_records m) <= 4194304.
Proof.
  intros Hh Hsend. destruct (history_inv _ _ _ Hh) as [Hc _].
  assert (cursor <= c_current c) as Hcur.
  { unfold send_catalog_pages, delta_pages in Hsend. cbn [orb] in Hsend.
    destruct (c_oldest c <=? cursor) eqn:E1, (cursor <=? c_current c) eqn:E2; cbn [andb] in Hsend;
      [by zbool|by injection Hsend; destruct pre|by injection Hsend; destruct pre|by injection Hsend; destruct pre]. }
  split.
  - pose proof (sent_chain c Hc encoded_len cursor c (evolves_refl c) Hcur) as Hch. rewrite Hsend in Hch.
    by apply (chain_window c Hc c cursor _ _ pre m post r Hch (evolves_refl c)).
  - apply (sync_fits encoded_len c cursor false). rewrite Hsend. cbn [fst]. apply elem_of_app. right. left.
Qed.
End Log.

(** ** What a failed hash does *)

Section FailedHash.
Context {json : MediaJson}.

(** A fact of a row was taken against the row's own file. *)
Definition fact_fits (base : option Base) (kind : string) (p : Payload) : Prop :=
  forall collection source size mtime, identity kind p = Ok (collection, source, size, mtime) -> guard_holds base size mtime = true.
Definition fits_row (x : HubFile) : Prop :=
  forall kind f, hf_facts x !! kind = Some f -> fact_fits (hf_base x) kind (sf_payload f).
Definition fits_files (files : gmap Source HubFile) : Prop := forall s x, files !! s = Some x -> fits_row x.

Lemma fits_no_facts v g base : fits_row (mkHubFile v g base ∅).
Proof. intros kind f H. cbn [hf_facts] in H. by rewrite lookup_empty in H. Qed.
Lemma guard_same old b size mtime : same_base old b = true -> guard_holds old size mtime = guard_holds (Some b) size mtime.
Proof.
  unfold same_base. intros (o & -> & H)%is_some_and_spec. apply andb_true_iff in H as [H _]. apply andb_true_iff in H as [H _].
  apply andb_true_iff in H as [Hs%Z.eqb_eq Hm%Z.eqb_eq]. unfold guard_holds. destruct size as [n|]; [|done]. cbn [is_none_or is_some_and].
  rewrite Hs. by rewrite Hm.
Qed.
Lemma apply_file_fits h snapshot at_ r row row' : fits_row row -> apply_file h snapshot at_ r row = Ok row' -> fits_row row'.
Proof.
  intros Hrow H. unfold apply_file in H. destruct (w_payload r) as [|col fs| |]; try done. destruct fs as [|f [|g fs]]; try done.
  unchain H. destruct (negb snapshot && _); [by injection H as <-|]. unchain H. injection H as <-.
  destruct (same_base _ _) eqn:E; [|apply fits_no_facts]. intros kind g Hg col' src size mtime Hi. cbn [hf_facts hf_base] in *.
  rewrite <- (guard_same _ _ _ _ E). by eapply Hrow.
Qed.
Lemma apply_fact_fits h snapshot at_ r row row' : fits_row row -> apply_fact h snapshot at_ r row = Ok row' -> fits_row row'.
Proof.
  intros Hrow H. unfold apply_fact in H. apply rbind_inv in H as ([[[col src] sz] mt] & Hid & H). unchain H. injection H as <-.
  set (under := if w_kind r =s FILE_ERROR then _ else row).
  assert (fits_row under /\ fact_fits (hf_base under) (w_kind r) (w_payload r)) as [Hu Hnew].
  { subst under. unfold fact_fits. rewrite Hid. destruct (String.eqb_spec (w_kind r) FILE_ERROR) as [Ek|_].
    - assert (sz = None) as ->.
      { unfold identity in Hid. rewrite Ek in Hid. destruct (w_payload r); try done; unchain Hid; [by injection Hid|].
        match goal with H : _ && _ && _ = true |- _ => by rewrite andb_false_r in H end. }
      destruct (snapshot && _); (split; [first [apply fits_no_facts|exact Hrow]|]); by intros ? ? ? ? [= <- <- <- <-].
    - split; [done|]. by intros ? ? ? ? [= <- <- <- <-]. }
  clearbody under. intros kind f Hf. cbn [hf_facts hf_base] in *. apply lookup_insert_Some in Hf as [[<- <-]|[_ Hf]]; [|by apply Hu].
  destruct (hf_facts under !! w_kind r) as [old|] eqn:Eo; [|done]. destruct snapshot; [done|]. cbn [sf_payload].
  destruct (sf_version old <=? w_version r); [done|]. by apply Hu.
Qed.
Lemma apply_row_fits h snapshot at_ r row row' :
  (forall x, row = Some x -> fits_row x) -> apply_row h snapshot at_ r row = Ok row' -> forall x, row' = Some x -> fits_row x.
Proof.
  intros Hrow H x ->. unfold apply_row in H. destruct (w_deleted r).
  - unchain H. destruct (w_kind r =s FILE); [done|]. unchain H. destruct row as [w|]; [|done]. injection H as <-.
    intros kind f Hf. cbn [hf_facts hf_base] in *. apply lookup_delete_Some in Hf as [_ Hf]. by apply (Hrow w).
  - unchain H. assert (fits_row (unwrap_or row (mkHubFile 0 0 None ∅))) as Hw by (destruct row; [by apply Hrow|apply fits_no_facts]).
    injection H as ->. destruct (w_kind r =s FILE); [by eapply apply_file_fits|by eapply apply_fact_fits].
Qed.
Lemma apply_records_fits h m l : forall files previous smax files' smax',
  fits_files files -> apply_records h m files previous smax l = Ok (files', smax') -> fits_files files'.
Proof.
  induction l as [|r l IH]; intros files previous smax files' smax' Hf H; cbn [apply_records] in H; [by injection H as <- <-|].
  unchain H. destruct (negb (hb_active h) && _); [by eapply IH|]. unchain H. eapply IH; [|exact H].
  intros s w. rewrite set_row_lookup. case_decide; [|apply Hf].
  match goal with Hr : apply_row _ _ _ _ _ = Ok ?row |- ?row = _ -> _ => intros Hw; eapply (apply_row_fits _ _ _ _ _ _ (Hf _) Hr w Hw) end.
Qed.
Lemma apply_catalogue_fits h m h' ack : fits_files (hb_files h) -> apply_catalogue h m = Ok (h', ack) -> fits_files (hb_files h').
Proof.
  intros Hf H. unfold apply_catalogue in H. unchain H. destruct (m_snapshot m && _).
  - unchain H. by injection H as <- _.
  - apply ensure_inv in H as [_ H]. apply rbind_inv in H as ([files smax] & Happ & H). unchain H. injection H as <- _.
    apply apply_records_fits in Happ; [|done]. cbn [hb_files]. destruct (hb_active h && m_done m); [|done].
    intros s y [Hx _]%map_lookup_filter_Some. unfold sweep in Hx. apply map_lookup_filter_Some in Hx as [Hx _].
    rewrite lookup_fmap in Hx. destruct (files !! s) as [w|] eqn:Hw; [|done]. injection Hx as <-.
    intros kind f [Hk _]%map_lookup_filter_Some. by apply (Happ s w).
Qed.
Lemma offer_collection_fits h o h' cursor :
  (forall x, h = Some x -> fits_files (hb_files x)) -> offer_collection h o = Ok (h', cursor) -> fits_files (hb_files h').
Proof.
  intros Hf H. unfold offer_collection in H. do 6 (apply ensure_inv in H as [_ H] || apply rbind_inv in H as (? & _ & H)).
  assert (fits_files ∅) as H0 by (intros s w Hw; by rewrite lookup_empty in Hw).
  destruct h as [hub|]; apply rbind_inv in H as (roots & _ & H); injection H as <- _; cbn [hb_files]; [|done].
  destruct (negb _); [|by apply Hf]. intros s w Hw. rewrite lookup_fmap in Hw. destruct (hb_files hub !! s) as [v|] eqn:Hv; [|done].
  injection Hw as <-. intros kind f Hk. cbn [forget_versions hf_facts hf_base] in *. rewrite lookup_fmap in Hk.
  destruct (hf_facts v !! kind) as [g|] eqn:Hg; [|done]. injection Hk as <-. cbn [sf_payload]. by apply (Hf hub eq_refl s v).
Qed.

Context (encoded_len : CatalogRecord -> Z) (media_type hub_id : string).
Notation step := (system_step encoded_len media_type hub_id).
Notation reachable := (reachable encoded_len media_type hub_id).
Lemma reachable_fits name epoch y : reachable name epoch y ->
  (forall h, y_hub y = Some h -> fits_files (hb_files h)) /\ (forall h, y_backup y = Some h -> fits_files (hb_files h)).
Proof.
  induction 1 as [|y y' _ IH Hs]; [done|].
  destruct Hs as [c c' h l a b Hs|c epoch' h l a b Hne|c roots h b _|c h h' o cu a b Ho|c h cu a b|c h q s a b _
                |c h h' m q s a ack b Hd|c c' h l e v a b Hk|c h l a b|c h a b|c h l a b|c h a b];
    destruct IH as [IH1 IH2]; cbn [y_hub y_backup] in *; try by split.
  - split; [|done]. intros x [= <-]. eapply offer_collection_fits; [exact IH1|exact Ho].
  - destruct (answer_cursor _ _ _). by split.
  - destruct (send_catalog_pages _ _ _ _). by split.
  - split; [|done]. intros x [= <-]. eapply apply_catalogue_fits; [|exact Hd]. by apply IH1.
Qed.

(** A hash of a file that is listed, live in the log as an answer to another
    size than the file has. *)
Definition misfit (c : Catalog) (s : Source) (a : Answer) (version : Z) : Prop :=
  exists r row collection, rec_live c HASHES (key_of s) r /\ rc_version r = version /\ rc_payload r = FactOf HASHES collection [a]
    /\ c_files c !! s = Some row /\ as_i64 (a_size a) <> r_size row.
Lemma misfit_blocks name epoch y h s a version :
  reachable name epoch y -> nul_free (fst s) -> misfit (y_catalog y) s a version ->
  y_hub y = Some h -> hb_epoch h = c_epoch (y_catalog y) -> hb_active h = false -> hb_version h < version.
Proof.
  intros Hy Hs (r & row & col & [Hr Hd] & <- & Hp & Hrow & Hsize) Hh He Ha.
  destruct (reachable_fits _ _ _ Hy) as [Hfit _]. specialize (Hfit h Hh).
  apply reachable_inv in Hy as [Hc _ Hok _ _ _]. destruct (ho_replica _ _ (Hok h Hh) He Ha) as [_ [_ Hrep]].
  destruct (Hrep s Hs) as [S1 _ S3 _ _ _]. destruct (ci_file _ Hc s Hs) as [K1 K2 _ K4]. rewrite Hrow in K4.
  destruct (Z.lt_ge_cases (hb_version h) (rc_version r)) as [|Hle]; [done|exfalso].
  destruct (K1 HASHES r ltac:(done) ltac:(done) ltac:(by split)) as (f & [Hf Hfd] & Hlt).
  destruct (r_error row =s ""); cycle 1.
  { destruct K4 as (x & Hx). destruct (K2 x f Hx Hf). congruence. }
  destruct K4 as (f' & file & [Hf' _] & Hpf & _ & Hfs & _). rewrite Hf in Hf'. injection Hf' as <-.
  specialize (S1 HASHES r ltac:(done) Hr ltac:(lia)). rewrite Hd in S1.
  specialize (S3 f Hf ltac:(lia)). rewrite Hfd in S3. destruct S3 as (file' & b & Hpf' & _ & Hb & Hbase).
  rewrite Hpf in Hpf'. injection Hpf' as <-. apply base_of_inv in Hb as (_ & _ & _ & Hbs & _).
  destruct (hb_files h !! s) as [x|] eqn:Hx; [|done]. rewrite (row_fact_some _ x _ eq_refl) in S1.
  destruct (hf_facts x !! HASHES) as [g|] eqn:Hg; [|done]. injection S1 as S1.
  specialize (Hfit s x Hx HASHES g Hg col (a_source a) (Some (a_size a)) None). rewrite S1, Hp in Hfit. specialize (Hfit eq_refl).
  change (hf_base x = Some b) in Hbase. rewrite Hbase in Hfit. cbn [guard_holds is_none_or is_some_and] in Hfit.
  apply andb_true_iff in Hfit as [Hfit%Z.eqb_eq _]. apply Hsize. by rewrite <- Hfit, Hbs.
Qed.
Lemma failed_stored c a s row c1 :
  a_source a = Some s -> a_error a <> "" -> c_files c !! s = Some row -> as_i64 (a_size a) <> r_size row ->
  store_fact c (FileHashes [a]) = (None, c1) -> misfit c1 s a (c_current c1).
Proof.
  intros Hsrc He%String.eqb_neq Hrow Hsize H. cbn [store_fact store_hashes] in H. unfold store_answer in H. rewrite Hsrc, He in H.
  cbn [then_some] in H. unfold store_source_fact in H. rewrite Hrow in H. cbn [opt_filter] in H.
  destruct (r_error row =s ""); cbn [mbind option_bind] in H; [|done].
  destruct (negb (_ && _)); [by destruct (is_none _)|]. cbn [is_none_or negb orb] in H. rewrite put_next_log in H.
  injection H as <-. exists (mkRec (c_current c + 1) (FactOf HASHES (c_name c) [a]) false), row, (c_name c).
  split; [split; [|done]|done]. cbn. apply lookup_insert_eq.
Qed.

(** C14: a hash that could not be computed ends the replication of its
    collection. The mediahost stores such an answer without a check of the size
    it names, which a failed one leaves at zero, as a live record of its current
    version; and as long as the log holds a live hash for another size than that
    of its file, in every reachable state of the catalogue, its hub and their
    link, whatever was sent, restarted, offered again or taken as a snapshot,
    the cursor of a hub that is in no snapshot is still before that record: the
    hub refuses the message that carries it, of a delta and of a snapshot. *)
Theorem failed_hash_blocks name epoch y s a row c1 :
  reachable name epoch y -> nul_free (fst s) -> a_source a = Some s -> a_error a <> "" ->
  c_files (y_catalog y) !! s = Some row -> as_i64 (a_size a) <> r_size row ->
  store_fact (y_catalog y) (FileHashes [a]) = (None, c1) ->
  misfit c1 s a (c_current c1)
  /\ forall y' version h, rtc step (mkSystem c1 (y_hub y) (y_link y) (y_acks y) (y_backup y)) y' ->
     misfit (y_catalog y') s a version -> y_hub y' = Some h ->
     hb_epoch h = c_epoch (y_catalog y') -> hb_active h = false -> hb_version h < version.
Proof.
  intros Hy Hs Hsrc He Hrow Hsize Hstore. split; [by eapply failed_stored|]. intros y' version h Hrun Hmis Hh Hep Ha.
  assert (reachable name epoch (mkSystem c1 (y_hub y) (y_link y) (y_acks y) (y_backup y))) as Hy1.
  { destruct y as [c hub l acks b]. cbn [y_catalog y_hub y_link y_acks y_backup] in *. eapply reach_step; [exact Hy|]. apply ss_catalog.
    replace c1 with (snd (store_fact c (FileHashes [a]))) by (by rewrite Hstore). by apply cs_store. }
  assert (reachable name epoch y') as Hy' by (clear -Hrun Hy1; induction Hrun as [z|z z1 z2 Hz _ IH]; [done|]; apply IH; by eapply reach_step).
  by eapply misfit_blocks.
Qed.
End FailedHash.

(** ** Witnesses *)

Lemma replica_faithful_witness :
  match c_files scanned !! FILM, hb_files replicated !! FILM with
  | Some row, Some hub => same_file row hub
  | None, None => True
  | _, _ => False
  end
  /\ (row_fact (hb_files replicated !! FILM) HASHES = Some NoPayload
      <-> HASHES <> FILE /\ exists r, rec_live scanned HASHES (key_of FILM) r /\ rc_payload r = NoPayload).
Proof.
  apply (replica_faithful one_kilobyte "movies" "hub" "films" "epoch-1"
    (mkSystem scanned (Some replicated) (Streaming [] (Some 1)) [("epoch-1", 1)] None) replicated FILM HASHES NoPayload replicated_reachable);
    vm_compute; reflexivity.
Defined.
Lemma acks_accepted_witness : fst (acknowledge scanned "hub" "epoch-1" 1) = Ok tt.
Proof. apply (acks_accepted _ _ _ _ _ _ "epoch-1" 1 replicated_reachable). left. Defined.
Lemma sync_completes_witness :
  exists h1 a1, rtc (system_step one_kilobyte "movies" "hub")
      (mkSystem scanned None (Offered (film_offer scanned)) [] None)
      (mkSystem scanned (Some h1) (Streaming [] (Some 1)) a1 None)
    /\ hb_epoch h1 = "epoch-1" /\ hb_active h1 = false /\ hb_version h1 = 1.
Proof.
  apply (sync_completes one_kilobyte "movies" "hub" "films" "epoch-1" scanned None (film_offer scanned) [] None (new_hub scanned)
    (cursor_of (new_hub scanned)) offer_reachable); vm_compute; reflexivity.
Defined.
Lemma scanned_history : history "films" "epoch-1" scanned.
Proof.
  eapply rtc_l; [apply cs_begin|]. eapply rtc_l; [apply (cs_upsert _ film FILM 1 0 false); reflexivity|].
  apply rtc_once. apply cs_finish.
Qed.
Lemma log_tells_one_story_witness :
  c_published scanned = 1
  /\ exists r f, rec_live scanned FILE (key_of FILM) r /\ rc_payload r = FileUpsert "films" [f] /\ f_source f = Some FILM
       /\ as_i64 (f_size f) = 7000 /\ f_mtime f = 1700000000
       /\ forall kind x, kind <> FILE -> rec_live scanned kind (key_of FILM) x -> kind <> FILE_ERROR /\ rc_version r < rc_version x.
Proof. apply (log_tells_one_story "films" "epoch-1" scanned FILM scanned_history eq_refl). Defined.
Lemma cursor_safe_witness :
  ((exists m', m' ∈ [] ++ [mkMessage "films" "epoch-1" (all_records scanned) 1 false true]
      /\ wire (FILE, key_of FILM) (mkRec 1 (FileUpsert "films" [film]) false) ∈ m_records m')
   <-> is_record scanned (wire (FILE, key_of FILM) (mkRec 1 (FileUpsert "films" [film]) false)) /\ 0 < 1 <= 1)
  /\ (length (all_records scanned) <= 256)%nat /\ encoded one_kilobyte (all_records scanned) <= 4194304.
Proof.
  apply (cursor_safe one_kilobyte "films" "epoch-1" scanned 0 [] (mkMessage "films" "epoch-1" (all_records scanned) 1 false true) [] (Some 1)
    (wire (FILE, key_of FILM) (mkRec 1 (FileUpsert "films" [film]) false)) scanned_history).
  vm_compute. reflexivity.
Defined.

Fixpoint apply_all (h : Hub) (ms : list CatalogDelta) : result string Hub :=
  match ms with
  | [] => Ok h
  | m :: ms => let? applied := apply_catalogue h m in apply_all (fst applied) ms
  end.
Definition resumed (h : Hub) (c : Catalog) : Hub * CatalogCursor :=
  ok_or_else (offer_collection (Some h) (film_offer c)) (NO_HUB, mkCursor "" "" 0 false).
Definition claimed : Catalog := snd (claim_sources scanned HASHES 1).
Lemma claimed_reachable : reachable one_kilobyte "movies" "hub" "films" "epoch-1" (mkSystem claimed None Down [] None).
Proof. eapply reach_step; [apply scanned_reachable|]. apply ss_catalog, cs_claim. Defined.
(** The film of the fixture: a delta to a hub that was up to date and a snapshot
    to a new one fail alike, while the same catalogue without the record could
    be taken whole. *)
Example failed_film_refused :
  (let '(h, cursor) := resumed replicated hashed in
   apply_all h (fst (answer_cursor one_kilobyte hashed cursor)) = Err "discovery fact has stale or missing source revision")
  /\ apply_all (new_hub hashed) (snapshot_of hashed) = Err "discovery fact has stale or missing source revision"
  /\ shippable scanned (active_root (new_hub scanned)) = true.
Proof. split_and!; vm_compute; reflexivity. Qed.
Lemma failed_hash_blocks_witness :
  c_current hashed = 2 /\ misfit hashed FILM failed_hash 2
  /\ forall y' version h, rtc (system_step one_kilobyte "movies" "hub") (mkSystem hashed None Down [] None) y' ->
     misfit (y_catalog y') FILM failed_hash version -> y_hub y' = Some h ->
     hb_epoch h = c_epoch (y_catalog y') -> hb_active h = false -> hb_version h < version.
Proof.
  split; [vm_compute; reflexivity|].
  refine (failed_hash_blocks one_kilobyte "movies" "hub" "films" "epoch-1" (mkSystem claimed None Down [] None) FILM failed_hash
    (default (mkRow 0 0 0 0 0 "" 0 0 "" 0 false) (c_files claimed !! FILM)) hashed claimed_reachable eq_refl eq_refl _ _ _ _).
  - discriminate.
  - vm_compute. reflexivity.
  - vm_compute. discriminate.
  - vm_compute. reflexivity.
Defined.

(** A file whose name holds a backslash is never taken, nor is the message that
    carries it. *)
Definition backslashed : Catalog :=
  snd (upsert_file_inner (snd (begin_scan unscanned)) (mkFileRecord (Some ("root", "AC\DC.mkv")) 7000 1700000000 11 12 13 "{}") 1 0 false).
Example backslash_blocks : apply_all (new_hub backslashed) (snapshot_of backslashed) = Err "invalid source address".
Proof. vm_compute. reflexivity. Qed.
(** A root that left the configuration is not offered, while its records are
    live until a scan ends: a snapshot taken before that is refused. *)
Definition left_behind : Catalog :=
  snd (upsert_file_inner scanned (mkFileRecord (Some ("old", "film.mkv")) 7000 1700000000 11 12 13 "{}") 1 0 false).
Definition rescanned : Catalog := snd (finish_scan (mark_seen (snd (begin_scan left_behind)) FILM 2) 2 []).
Example dropped_root_blocks :
  apply_all (new_hub left_behind) (snapshot_of left_behind) = Err "no such root"
  /\ is_ok (apply_all (new_hub rescanned) (snapshot_of rescanned)) = true.
Proof. split; vm_compute; reflexivity. Qed.
