(* ===== verification/Scan.v ===== *)
(** * The scan of a collection (kahawai-mediahost, src/scan.rs, src/lib.rs; kahawai-core, src/media.rs)

    From the files under the roots of a collection to the rows of its catalogue:
    the walk, the companions of a file, its identity and inspection, the verdict
    on a file that is known, the scan itself, and the queue of what triggers one.
    A [Disk] is what the operating system and the media framework answer at one
    moment; a scan looks at many. A path is its components below [/], each its
    bytes; a relative path in the catalogue is text. *)
From S2P Require Import Prelude Floats Utf8 Text Media Scheduler Names Ebml Subindex Keyframes ImageSubs Catalog.
#[local] Open Scope Z_scope.

(** ** Paths *)

Definition Path : Type := list string.
Definition components (path : string) : Path := List.filter not_empty (split_char SLASH path).
Definition path_name (p : Path) : option string := last p.
Definition up (p : Path) : option Path := match p with [] => None | _ => Some (removelast p) end.
(** [Path::file_stem] and [Path::extension] of a name. *)
Definition stem_of_name (name : string) : string :=
  match rsplit_once DOT name with Some (before, _) => if before =s "" then name else before | None => name end.
Definition extension_of_name (name : string) : option string :=
  '(before, ext) ← rsplit_once DOT name; then_some (negb (before =s "")) ext.
Definition with_name (p : Path) (name : string) : Path := removelast p ++ [name].
Definition with_extension (p : Path) (ext : string) : Path :=
  match path_name p with Some name => with_name p (stem_of_name name ++ "." ++ ext)%string | None => p end.
Fixpoint strip_root (root p : Path) : option Path :=
  match root, p with
  | [], _ => Some p
  | a :: root, b :: p => if a =s b then strip_root root p else None
  | _ :: _, [] => None
  end.
(** [to_str] and [to_string_lossy]. *)
Definition to_str (s : string) : option string := then_some (valid_utf8 (bytes_of_string s)) s.
Definition to_string_lossy (s : string) : string := string_of_bytes (from_utf8_lossy (bytes_of_string s)).
(** A path below [/], or relative to what was stripped from it. *)
Definition absolute (p : Path) : string := ("/" ++ join "/" p)%string.
Definition relative (root p : Path) : string :=
  to_string_lossy (match strip_root root p with Some r => join "/" r | None => absolute p end).
Definition relative_str (root p : Path) : option string := r ← strip_root root p; to_str (join "/" r).
(** The order of paths: by components, each by its bytes. *)
Fixpoint path_cmp (a b : Path) : comparison :=
  match a, b with
  | [], [] => Eq
  | [], _ :: _ => Lt
  | _ :: _, [] => Gt
  | x :: a, y :: b => cmp_then (String.compare x y) (path_cmp a b)
  end.

(** ** The disk *)

(** What [fs::metadata] tells: the length, and the modification time as
    nanoseconds from the epoch where the system keeps one. *)
Record Stat := mkStat { st_len : Z; st_modified : result string Z }.
(** [duration_since(UNIX_EPOCH).ok()], and its whole seconds. *)
Definition since_epoch (t : Z) : option Z := then_some (0 <=? t) t.
Definition as_secs (t : Z) : Z := t / 10 ^ 9.

(** An opened media file: its length, its reads, its first bytes where there
    are twelve, and the turns the search for its [moov] is followed for. *)
Record Source_ := mkSource_ { so_len : Z; so_env : Env; so_magic : option bytes; so_turns : nat }.
Record Disk := mkDisk {
  dk_walk : Path -> list (result string (Path * bool));   (* walkdir: a path and whether it is a regular file *)
  dk_metadata : Path -> result string Stat;
  dk_is_file : Path -> bool;
  dk_read_dir : Path -> option (list string);
  dk_content : Path -> result string bytes;
  dk_open : Path -> option Source_;
  dk_discover : Path -> result string MediaInfo;
}.
Class Digests := {
  xxh3_64 : bytes -> Z;
  stamps_json : list (string * option (Z * option Z)) -> bytes;   (* serde_json::to_vec *)
}.

(** ** The walk *)

Definition AUDIO_EXTS : list string := ["flac"; "mp3"; "m4a"; "ogg"; "opus"; "wav"; "aac"; "wma"].
Definition MEDIA_EXTS : list string :=
  ["mkv"; "mp4"; "m4v"; "webm"; "avi"; "mov"; "ts"; "m2ts"; "ogv";
   "flac"; "mp3"; "ogg"; "oga"; "opus"; "m4a"; "aac"; "wav"].
Definition is_media (include_audio : bool) (p : Path) : bool :=
  is_some_and (fun e => let e := to_ascii_lowercase e in
                        str_mem e MEDIA_EXTS || (include_audio && str_mem e AUDIO_EXTS))
    (name ← path_name p; e ← extension_of_name name; to_str e).
(** [walk_interruptible]; a checkpoint that fails ends it like an entry that
    cannot be read. *)
Fixpoint walk_entries (include_audio : bool) (entries : list (result string (Path * bool))) : result string (list Path) :=
  match entries with
  | [] => Ok []
  | Err e :: _ => Err e
  | Ok (p, file) :: entries =>
      let? out := walk_entries include_audio entries in
      Ok (if file && is_media include_audio p then p :: out else out)
  end.
Definition walk (d : Disk) (include_audio : bool) (root : Path) : result string (list Path) :=
  let? out := walk_entries include_audio (dk_walk d root) in Ok (sort_by path_cmp out).

(** ** Companions of a file *)

(** [std::str::eq_ignore_ascii_case]. *)
Definition eq_ignore_ascii_case (a b : string) : bool := to_ascii_lowercase a =s to_ascii_lowercase b.

Definition season_dir (dir : Path) : option Z :=
  name ← path_name dir;
  name ← to_str name;
  let name := to_ascii_lowercase name in
  if name =s "specials" then Some 0
  else
    number ← opt_or (strip_prefix "season" name) (strip_prefix "s" name);
    let number := trim number in
    if (number =s "") || negb (str_all is_digit number) then None else parse_u32 number.

Definition IMAGE_EXTS : list string := ["jpg"; "jpeg"; "png"; "webp"].
Definition names_image (name ext file : string) : bool :=
  is_some_and (fun s => eq_ignore_ascii_case s name) (to_str (stem_of_name file))
  && is_some_and (fun e => eq_ignore_ascii_case e ext) (e ← extension_of_name file; to_str e).
Definition image_in (d : Disk) (root dir : Path) (names : list string) : option string :=
  files ← dk_read_dir d dir;
  let files := sort_by String.compare files in
  find_map (fun _ name =>
    find_map (fun _ ext =>
      file ← List.find (fun file => dk_is_file d (dir ++ [file]) && names_image name ext file) files;
      Some (dir ++ [file])) O IMAGE_EXTS) O names
  ≫= fun p => r ← strip_root root p; Some (to_string_lossy (join "/" r)).

Definition episode_of (root media : Path) : option EpisodeGuess := rel ← relative_str root media; parse_episode rel.
Definition title_artwork_dir (root media : Path) : option Path :=
  dir ← up media;
  if is_some_and (fun n => is_some_and (fun g => Names.season g ≟ Some n) (episode_of root media)) (season_dir dir)
  then up dir else Some dir.
Definition TITLE_IMAGES : list (string * list string) :=
  [("logo", ["clearlogo"; "logo"]); ("banner", ["banner"]); ("backdrop", ["fanart"; "backdrop"; "background"])].
Definition find_title_images (d : Disk) (root media : Path) : gmap string string :=
  match title_artwork_dir root media with
  | None => ∅
  | Some dir => list_to_map (omap (fun '(kind, names) => path ← image_in d root dir names; Some (kind, path)) TITLE_IMAGES)
  end.
Definition find_artwork (d : Disk) (root media : Path) : option string :=
  dir ← title_artwork_dir root media; image_in d root dir ["cover"; "folder"; "poster"; "front"].
Definition season_poster_names (number : Z) : list string :=
  if number =? 0 then ["season-specials-poster"; "season00-poster"; "season0-poster"]
  else [("season" ++ pad2 number ++ "-poster")%string; ("season" ++ show number ++ "-poster")%string].
Definition find_season_artwork (d : Disk) (root media : Path) : list LocalSeasonArtwork :=
  match (g ← episode_of root media; Names.season g), up media with
  | Some number, Some dir =>
      let in_season := season_dir dir ≟ Some number in
      let show_dir := if in_season then unwrap_or (up dir) dir else dir in
      let image := opt_or (image_in d root show_dir (season_poster_names number))
                     (if in_season then image_in d root dir ["poster"; "cover"; "folder"; "front"] else None) in
      map_or [] (fun path => [mkLocalSeasonArtwork number path]) image
  | _, _ => []
  end.
Definition find_nfo (d : Disk) (root media : Path) : option string :=
  dir ← up media;
  let beside := with_extension media "nfo" in
  if dk_is_file d beside then Some (relative root beside)
  else name ← List.find (fun name => dk_is_file d (dir ++ [name])) ["movie.nfo"; "tvshow.nfo"];
       Some (relative root (dir ++ [name])).

Definition SUBTITLE_EXTS : list (string * string) := [("srt", "srt"); ("ass", "ass"); ("ssa", "ass"); ("vtt", "vtt")].
Definition str_drop (n : nat) (s : string) : string := String.substring n (String.length s - n) s.

Section Companions.
Context {U : Unicode} {json : MediaJson} {digests : Digests}.

(** What lies between the stem and the extension of a sidecar's name. *)
Definition sidecar_middle (stem name ext : string) : option string :=
  if (slen stem <? slen name)%nat && starts_with stem name && starts_with "." (str_drop (slen stem) name) then
    let middle_end := (slen name - slen ext - 1)%nat in
    Some (if (slen stem + 1 <? middle_end)%nat
          then String.substring (slen stem + 1) (middle_end - (slen stem + 1)) name else ""%string)
  else None.
Definition sidecar_words (middle : string) : option string * list string :=
  match List.filter not_empty (split_char DOT middle) with
  | first :: rest =>
      if is_variant_word (str_lowercase first) then (None, first :: rest)
      else (then_some (slen first <=? 10)%nat first, rest)
  | [] => (None, [])
  end.
Definition sidecar_of (root dir : Path) (stem name : string) : option SidecarSubtitle :=
  ext ← extension_of_name name; ext ← to_str ext;
  name_str ← to_str name;
  '(_, format) ← List.find (fun '(e, _) => eq_ignore_ascii_case e ext) SUBTITLE_EXTS;
  middle ← sidecar_middle stem name_str ext;
  let '(language, rest) := sidecar_words middle in
  Some (mkSidecarSubtitle (relative root (dir ++ [name])) format (str_lowercase <$> language) None (from_words rest)).
(** One entry for each track of an [.idx] with its [.sub]. *)
Definition vobsub_of (d : Disk) (root dir : Path) (stem : string) : list SidecarSubtitle :=
  let idx := dir ++ [(stem ++ ".idx")%string] in
  if dk_is_file d idx && dk_is_file d (dir ++ [(stem ++ ".sub")%string]) then
    match dk_content d idx with
    | Ok bs =>
        if valid_utf8 bs then
          map (fun t => mkSidecarSubtitle (relative root idx) "vobsub" (language t) (Some (track_id t)) variant_default)
            (parse_idx str_lowercase (string_of_bytes bs))
        else []
    | Err _ => []
    end
  else [].
Definition opt_cmp (a b : option Z) : comparison :=
  match a, b with
  | None, None => Eq | None, Some _ => Lt | Some _, None => Gt
  | Some a, Some b => Z.compare a b
  end.
Definition sidecar_cmp (a b : SidecarSubtitle) : comparison :=
  cmp_then (String.compare (x_path_rel a) (x_path_rel b)) (opt_cmp (x_track a) (x_track b)).
Definition find_sidecars (d : Disk) (root media : Path) : list SidecarSubtitle :=
  match (name ← path_name media; to_str (stem_of_name name)), up media with
  | Some stem, Some dir =>
      match dk_read_dir d dir with
      | None => []
      | Some entries => sort_by sidecar_cmp (omap (sidecar_of root dir stem) entries ++ vobsub_of d root dir stem)
      end
  | _, _ => []
  end.

(** [Vec::dedup]. *)
Fixpoint dedup (l : list string) : list string :=
  match l with
  | a :: (b :: _) as rest => if a =s b then dedup rest else a :: dedup rest
  | _ => l
  end.
Definition HEX : list string := ["0"; "1"; "2"; "3"; "4"; "5"; "6"; "7"; "8"; "9"; "a"; "b"; "c"; "d"; "e"; "f"].
Fixpoint hex_digits (n : nat) (z : Z) : string :=
  match n with
  | O => ""
  | S n => (hex_digits n (Z.shiftr z 4) ++ nth (Z.to_nat (Z.land z 15)) HEX "0")%string
  end.
(** [Path::new(s).with_extension("sub")] of an index's path, which ends in
    [.idx] behind the stem of the media file. *)
Definition sub_beside (path : string) : string := (String.substring 0 (slen path - 4) path ++ ".sub")%string.
Definition companion_paths (info : MediaInfo) : list string :=
  let paths :=
    map x_path_rel (external_subtitles info) ++ option_list (artwork info)
    ++ map snd (sort_by (fun a b => String.compare (fst a) (fst b)) (map_to_list (artwork_images info)))
    ++ option_list (nfo info) ++ map art_path (default [] (season_artwork info)) in
  dedup (sort_by String.compare
    (paths ++ map sub_beside (List.filter (ends_with ".idx") (map x_path_rel (external_subtitles info))))).
(** The companions as the directory holds them now, with the digest of their
    lengths and times. *)
Definition with_companions (info : MediaInfo) (subs : list SidecarSubtitle) (art : option string)
    (images : gmap string string) (seasons : option (list LocalSeasonArtwork)) (n : option string)
    (revision : option string) : MediaInfo :=
  mkMediaInfo (container info) (duration_ms info) (video info) (audio info) (subtitles info) subs (replay_gain info)
    art images seasons n revision (tags info) (attachments info) (chapters info) (video_geometry_probed info)
    (video_geometry_error info).
Definition stamp (d : Disk) (root : Path) (rel : string) : string * option (Z * option Z) :=
  (rel, match dk_metadata d (root ++ components rel) with
        | Ok st => Some (st_len st, match st_modified st with Ok t => since_epoch t | Err _ => None end)
        | Err _ => None
        end).
Definition refresh_sidecars (d : Disk) (root path : Path) (info : MediaInfo) : MediaInfo :=
  let seasons := (fun _ => find_season_artwork d root path) <$> episode_of root path in
  let info := with_companions info (find_sidecars d root path) (find_artwork d root path) (find_title_images d root path)
                seasons (find_nfo d root path) None in
  let paths := companion_paths info in
  let revision :=
    match paths with
    | [] => None
    | _ => Some (hex_digits 16 (xxh3_64 (stamps_json (map (stamp d root) paths))))
    end in
  with_companions info (external_subtitles info) (artwork info) (artwork_images info) (season_artwork info) (nfo info) revision.

(** ** Identity *)

Definition CHUNK : Z := 64 * 1024.
Fixpoint chunks_fuel {A} (fuel n : nat) (l : list A) : list (list A) :=
  match fuel, l with
  | S fuel, _ :: _ => take n l :: chunks_fuel fuel n (drop n l)
  | _, _ => []
  end.
(** [slice::chunks]. *)
Definition chunks {A} (n : nat) (l : list A) : list (list A) := chunks_fuel (length l) n l.
Definition from_le_bytes (bs : bytes) : Z := fold_right (fun b acc => b + 256 * acc) 0 bs.
Definition sum_u64_le (bs : bytes) : Z := fold_left (fun acc c => wrap 64 (acc + from_le_bytes c)) (chunks 8 bs) 0.
(** [read_exact] at an offset. *)
Definition read_exact (content : bytes) (off n : Z) : result string bytes :=
  let bs := slice off n content in
  if len bs =? n then Ok bs else Err "failed to fill whole buffer"%string.
Definition identity_hashes (d : Disk) (path : Path) (size : Z) : result string (Z * Z * Z) :=
  let? content := dk_content d path in
  let? head := read_exact content 0 (Z.min size CHUNK) in
  let? tail := read_exact content (sat_sub size CHUNK) (Z.min size CHUNK) in
  Ok (xxh3_64 head, xxh3_64 tail, wrap 64 (wrap 64 (size + sum_u64_le head) + sum_u64_le tail)).

(** ** Inspection *)

(** [SubtitleVariant::from_title]. *)
Definition from_title (title : string) : SubtitleVariant :=
  let words := runs EmptyString (chars (str_lowercase title)) in
  let v := from_words words in
  mkSubtitleVariant (forced v)
    (hearing_impaired v || existsb (fun w => str_mem w ["hearing"; "caption"; "captions"; "captioned"]) words)
    (commentary v).
Definition declared_subtitle (stream : SubtitleStream) (track : DeclaredSubtitle) : SubtitleStream :=
  let title := opt_or (s_title stream) (ds_name track) in
  let flags := mkSubtitleVariant (ds_forced track) (ds_hearing_impaired track) (ds_commentary track) in
  mkSubtitleStream (s_format stream) (s_language stream) title
    (variant_union flags (map_or variant_default from_title title)).
Definition apply_declared_subtitles (streams : list SubtitleStream) (declared : list DeclaredSubtitle) : list SubtitleStream :=
  if (length streams =? length declared)%nat then zip_with declared_subtitle streams declared else streams.

Definition with_max_keyframe (v : VideoStream) (ms : option Z) : VideoStream :=
  mkVideoStream (v_codec v) (v_width v) (v_height v) (v_fps v) (v_bit_depth v) (v_interlaced v) (v_hdr v) (v_profile v)
    (v_level v) (v_bitrate_kbps v) ms (v_pixel_aspect_ratio v) (v_orientation v) (v_display_width v) (v_display_height v).
Definition with_streams (info : MediaInfo) (vs : list VideoStream) (subs : list SubtitleStream)
    (atts : option (list Attachment)) (chs : option (list Chapter)) : MediaInfo :=
  mkMediaInfo (container info) (duration_ms info) vs (audio info) subs (external_subtitles info) (replay_gain info)
    (artwork info) (artwork_images info) (season_artwork info) (nfo info) (sidecar_revision info) (tags info) atts chs
    (video_geometry_probed info) (video_geometry_error info).

(** A text for the log of failures, a panic of the thread that looks, or a walk
    that never returns. *)
Inductive Failure := Reported (text : string) | Crashed | Endless.
Definition or_report {A} (r : result string A) : result Failure A :=
  match r with Ok a => Ok a | Err e => Err (Reported e) end.
(** A measurement whose error is only logged. *)
Definition measured {A} (r : result Error A) (kept : MediaInfo) (f : A -> MediaInfo) (failed : MediaInfo) : result Failure MediaInfo :=
  match r with
  | Ok a => Ok (f a)
  | Err Panic => Err Crashed
  | Err Diverges => Err Endless
  | Err _ => Ok failed
  end.
Definition on_source {A} (d : Disk) (path : Path) (m : Source_ -> M A) : result Error A :=
  match dk_open d path with
  | None => Err Io
  | Some s => fst (m s (reader_new (so_len s)))
  end.
Definition measure_keyframes (d : Disk) (path : Path) (info : MediaInfo) : result Failure MediaInfo :=
  match video info with
  | [] => Ok info
  | v :: vs =>
      measured (on_source d path (fun s => max_keyframe_interval_ms (so_env s) (so_magic s) (so_turns s))) info
        (fun ms => with_streams info (with_max_keyframe v ms :: vs) (subtitles info) (attachments info) (chapters info)) info
  end.
Definition declare_header (d : Disk) (path : Path) (info : MediaInfo) : result Failure MediaInfo :=
  if is_some_and (fun c => str_mem c ["matroska"; "webm"]) (container info) then
    measured (on_source d path (fun s => declare (so_env s))) info
      (fun declared =>
        with_streams info (video info)
          (map_or (subtitles info) (apply_declared_subtitles (subtitles info)) (d_subtitles declared))
          (Some (d_attachments declared)) (Some (d_chapters declared)))
      (with_streams info (video info) (subtitles info) (attachments info) None)
  else Ok info.
Record Inspected := mkInspected { in_size : Z; in_mtime : Z; in_head : Z; in_tail : Z; in_oshash : Z; in_info : MediaInfo }.
(** Each look of an inspection has a moment of its own. *)
Definition inspect (d : nat -> Disk) (root path : Path) : result Failure Inspected :=
  let? meta := or_report (dk_metadata (d 0%nat) path) in
  let? modified := or_report (st_modified meta) in
  let mtime := map_or 0 as_secs (since_epoch modified) in
  let? hashes := or_report (identity_hashes (d 1%nat) path (st_len meta)) in
  let '(head_xxh3, tail_xxh3, oshash) := hashes in
  let? info := or_report (dk_discover (d 2%nat) path) in
  let info := refresh_sidecars (d 3%nat) root path info in
  let? info := measure_keyframes (d 4%nat) path info in
  let? info := declare_header (d 5%nat) path info in
  Ok (mkInspected (st_len meta) mtime head_xxh3 tail_xxh3 oshash info).

(** ** The verdict on a known file *)

Record KnownFile := mkKnown {
  kf_head : Z; kf_tail : Z; kf_oshash : Z; kf_size : Z; kf_mtime : Z; kf_streams : string; kf_music : Z; kf_reprobe : bool;
}.
Definition known_files (c : Catalog) : gmap Source KnownFile :=
  omap (fun row => then_some (r_error row =s "")
    (mkKnown (wrap 64 (r_head row)) (wrap 64 (r_tail row)) (wrap 64 (r_oshash row)) (wrap 64 (r_size row)) (r_mtime row)
       (r_streams row) (r_music row) (r_reprobe row))) (c_files c).

Inductive ScanAction :=
| Unchanged
| Baseline (revision : string)
| Sidecars (record : FileRecord)
| Probe (metadata_stale : bool).
Definition MUSIC_TAG_GENERATION : Z := 1.

(** The derived equality; a probe read from JSON holds no NaN. *)
#[export] Instance media_info_dec : EqDecision MediaInfo.
Proof.
  assert (EqDecision SidecarSubtitle) by solve_decision.
  assert (EqDecision LocalSeasonArtwork) by solve_decision.
  assert (EqDecision Chapter) by solve_decision.
  assert (EqDecision Attachment) by solve_decision.
  assert (EqDecision float) by solve_decision.
  assert (EqDecision ReplayGain) by solve_decision.
  assert (EqDecision VideoStream) by solve_decision.
  assert (EqDecision AudioStream) by solve_decision.
  assert (EqDecision SubtitleStream) by solve_decision.
  solve_decision.
Defined.

Definition stat_matches (st : Stat) (old : KnownFile) : bool :=
  (st_len st =? kf_size old)
  && match st_modified st with
     | Ok t => is_some_and (fun t => as_secs t =? kf_mtime old) (since_epoch t)
     | Err _ => false
     end.
Definition with_revision (info : MediaInfo) (revision : option string) : MediaInfo :=
  with_companions info (external_subtitles info) (artwork info) (artwork_images info) (season_artwork info) (nfo info) revision.
Definition classify_file (d : nat -> Disk) (root path : Path) (old : option KnownFile) (deep music : bool) : ScanAction :=
  let probe := Probe false in
  match old with
  | None => probe
  | Some old =>
      if deep || negb (match dk_metadata (d 0%nat) path with Ok st => stat_matches st old | Err _ => false end) then probe
      else if kf_reprobe old || (music && (kf_music old <? MUSIC_TAG_GENERATION)) then Probe true
      else
        match media_of_json (kf_streams old) with
        | None => probe
        | Some previous =>
            let info := refresh_sidecars (d 1%nat) root path previous in
            let changed := Sidecars (mkFileRecord None (kf_size old) (kf_mtime old) (kf_head old) (kf_tail old)
                                       (kf_oshash old) (json_of_media info)) in
            if info ≟ previous then Unchanged
            else
              match sidecar_revision previous, sidecar_revision info with
              | None, Some revision => if with_revision info None ≟ previous then Baseline revision else changed
              | _, _ => changed
              end
        end
  end.

(** ** The scan *)

(** [ScanCounts]; each counter is a [u32]. *)
Record Counts := mkCounts { n_scanned : Z; n_failed : Z; n_skipped : Z }.
Record Scan := mkScan {
  sn_catalog : Catalog;
  sn_now : nat;              (* looks and transactions so far *)
  sn_scanned : Z;
  sn_failed : Z;
  sn_skipped : Z;
  sn_refreshed : Z;
  sn_counts : Counts;        (* what the progress line shows *)
}.
Inductive Outcome (A : Type) := Done (a : A) | Stopped | Hung.
#[global] Arguments Done {A} _.
#[global] Arguments Stopped {A}.
#[global] Arguments Hung {A}.
Definition S_M (A : Type) : Type := Scan -> Outcome A * Scan.
Definition ret {A} (a : A) : S_M A := fun s => (Done a, s).
Definition bind {A B} (m : S_M A) (k : A -> S_M B) : S_M B := fun s =>
  match m s with
  | (Done a, s) => k a s
  | (Stopped, s) => (Stopped, s)
  | (Hung, s) => (Hung, s)
  end.
#[local] Notation "'let^' x := m 'in' k" := (bind m (fun x => k))
  (at level 10, x pattern, m at level 100, k at level 200).
Definition stop {A} : S_M A := fun s => (Stopped, s).
Definition hang {A} : S_M A := fun s => (Hung, s).
Fixpoint collect {A B} (f : A -> S_M B) (l : list A) : S_M (list B) :=
  match l with
  | [] => ret []
  | a :: l => let^ b := f a in let^ bs := collect f l in ret (b :: bs)
  end.
Definition each {A} (f : A -> S_M unit) (l : list A) : S_M unit := let^ _ := collect f l in ret tt.

Definition with_catalog (s : Scan) (n : nat) (c : Catalog) : Scan :=
  mkScan c (sn_now s + n) (sn_scanned s) (sn_failed s) (sn_skipped s) (sn_refreshed s) (sn_counts s).
Definition incr (z : Z) : Z := wrap 32 (z + 1).
Definition count_scanned : S_M unit := fun s =>
  (Done tt, mkScan (sn_catalog s) (sn_now s) (incr (sn_scanned s)) (sn_failed s) (sn_skipped s) (sn_refreshed s) (sn_counts s)).
Definition count_failed : S_M unit := fun s =>
  (Done tt, mkScan (sn_catalog s) (sn_now s) (sn_scanned s) (incr (sn_failed s)) (sn_skipped s) (sn_refreshed s) (sn_counts s)).
Definition count_skipped : S_M unit := fun s =>
  (Done tt, mkScan (sn_catalog s) (sn_now s) (sn_scanned s) (sn_failed s) (incr (sn_skipped s)) (sn_refreshed s) (sn_counts s)).
Definition count_refreshed : S_M unit := fun s =>
  (Done tt, mkScan (sn_catalog s) (sn_now s) (sn_scanned s) (sn_failed s) (sn_skipped s) (incr (sn_refreshed s)) (sn_counts s)).
Definition set_counts : S_M unit := fun s =>
  (Done tt, mkScan (sn_catalog s) (sn_now s) (sn_scanned s) (sn_failed s) (sn_skipped s) (sn_refreshed s)
     (mkCounts (wrap 32 (sn_scanned s + sn_refreshed s)) (sn_failed s) (sn_skipped s))).

Record ScanConfig := mkScanConfig { cf_media_type : string; cf_roots : list string }.

Section Running.
(** The disk at each look; the permit and the database, which can end the scan
    at any step; and the transactions of other tasks before each of its own. *)
Context (disk_at : nat -> Disk) (halted : nat -> bool) (others : nat -> Catalog -> Catalog).
Context (digest : string -> string).

Definition LOOKS : nat := 6.
Definition look {A} (f : (nat -> Disk) -> A) : S_M A := fun s =>
  if halted (sn_now s) then (Stopped, with_catalog s 1 (sn_catalog s))
  else (Done (f (fun i => disk_at (sn_now s + i)%nat)), with_catalog s LOOKS (sn_catalog s)).
Definition transaction {A} (f : Catalog -> A * Catalog) : S_M A := fun s =>
  let c := others (sn_now s) (sn_catalog s) in
  if halted (sn_now s) then (Stopped, with_catalog s 1 c)
  else let '(a, c) := f c in (Done a, with_catalog s 1 c).
(** A transaction that may be refused. *)
Definition upsert (f : Catalog -> result string (option Z) * Catalog) : S_M unit :=
  let^ r := transaction f in match r with Ok _ => ret tt | Err _ => stop end.

Definition with_source (record : FileRecord) (source : Source) : FileRecord :=
  mkFileRecord (Some source) (f_size record) (f_mtime record) (f_head record) (f_tail record) (f_oshash record) (f_streams record).

(** A root: its token and the files of its walk, if it could be walked. *)
Definition Inventory : Type := (string * Path * list Path)%type.
Definition scan_root (include_audio : bool) (configured : CollectionRoot) : S_M (option Inventory) :=
  let root := components (path configured) in
  let^ walked := look (fun d => walk (d O) include_audio root) in
  match walked with
  | Err _ => let^ _ := count_failed in ret None
  | Ok paths =>
      let^ _ := transaction (fun c => (tt, reconcile_root c (token configured) (map (relative root) paths))) in
      ret (Some (token configured, root, paths))
  end.
Definition verdict (known : gmap Source KnownFile) (changed_files : gset Path) (deep music : bool)
    (root_token : string) (root path : Path) : S_M (Path * string * ScanAction) :=
  let rel := relative root path in
  let^ action := look (fun d => classify_file d root path (known !! (root_token, rel))
                                  (deep || bool_decide (path ∈ changed_files)) music) in
  ret (path, rel, action).
(** What a verdict changes; the answer is a baseline to be learnt. *)
Definition settle (music : bool) (generation : Z) (root_token : string) (root : Path) (v : Path * string * ScanAction)
    : S_M (option (string * string)) :=
  let '(path, rel, action) := v in
  match action with
  | Unchanged => let^ _ := count_skipped in ret None
  | Baseline revision => let^ _ := count_skipped in ret (Some (rel, revision))
  | Sidecars record =>
      let^ _ := count_refreshed in
      let^ _ := upsert (fun c => upsert_file c (with_source record (root_token, rel)) generation) in
      ret None
  | Probe metadata_stale =>
      let^ inspected := look (fun d => inspect d root path) in
      match inspected with
      | Ok f =>
          let^ _ := count_scanned in
          let record := mkFileRecord (Some (root_token, rel)) (in_size f) (in_mtime f) (in_head f) (in_tail f)
                          (in_oshash f) (json_of_media (in_info f)) in
          let^ _ := upsert (fun c => upsert_file_with_music_tag_generation c record generation
                                       (if music then MUSIC_TAG_GENERATION else 0)) in
          ret None
      | Err (Reported text) =>
          let^ _ := count_failed in
          if metadata_stale then ret None
          else let^ _ := transaction (fun c => record_error c (root_token, rel) text generation) in ret None
      | Err Crashed => stop
      | Err Endless => hang
      end
  end.
Definition BATCH_SIZE : nat := 250.
Definition scan_batch (known : gmap Source KnownFile) (changed_files : gset Path) (deep music : bool) (generation : Z)
    (root_token : string) (root : Path) (batch : list Path) : S_M unit :=
  let^ verdicts := collect (verdict known changed_files deep music root_token root) batch in
  let^ baselines := collect (settle music generation root_token root) verdicts in
  let^ _ := match omap (fun b => b) baselines with
            | [] => ret tt
            | baselines => transaction (fun c => (tt, baseline_sidecars c root_token baselines))
            end in
  set_counts.
Definition scan_local_collection (cfg : ScanConfig) (changed_files : gset Path) (deep : bool) : S_M Z :=
  let^ generation := transaction begin_scan in
  let^ _ := fun s => (Done tt, mkScan (sn_catalog s) (sn_now s) 0 0 0 0 (mkCounts 0 0 0)) in
  let^ known := transaction (fun c => (known_files c, c)) in
  let music := cf_media_type cfg =s "music" in
  let roots := resolved_roots digest (cf_roots cfg) in
  let^ inventories := collect (scan_root music) roots in
  let^ _ := each (fun '(root_token, root, paths) =>
              each (scan_batch known changed_files deep music generation root_token root) (chunks BATCH_SIZE paths))
              (omap (fun i => i) inventories) in
  let^ _ := set_counts in
  transaction (fun c => finish_scan c generation (map token roots)).

End Running.
End Companions.

(** ** What triggers a scan *)

Record ScanTrigger := mkTrigger {
  tr_changed : gset Path;
  tr_force : gset Path;
  tr_initial : bool;
  tr_demand : bool;
  tr_deep : bool;
}.
Definition trigger_default : ScanTrigger := mkTrigger ∅ ∅ false false false.
(** What the orchestrator and the overflow slot take over of another trigger. *)
Definition extend (t more : ScanTrigger) : ScanTrigger :=
  mkTrigger (tr_changed t ∪ tr_changed more) (tr_force t ∪ tr_force more) (tr_initial t)
    (tr_demand t || tr_demand more) (tr_deep t || tr_deep more).

Definition QUEUE : nat := 8.
Inductive Orchestrator :=
| Waiting
| Draining (t : ScanTrigger)       (* [try_recv] until the queue is empty *)
| Taking (t : ScanTrigger)         (* about to take the overflow slot *)
| Scanning (t : ScanTrigger).      (* waits for its permit and scans *)
Record Sink := mkSink {
  k_queue : list ScanTrigger;
  k_overflow : option ScanTrigger;
  k_refused : list ScanTrigger;    (* sends that found the queue full, before they reach the slot *)
  k_waking : nat;                  (* sends between the slot and the trigger that wakes *)
  k_state : Orchestrator;
}.
(** What is left to do once nothing more is sent. *)
Inductive own_step : Sink -> Sink -> Prop :=
| ko_store q o r r' w st t :
    own_step (mkSink q o (r ++ t :: r') w st)
      (mkSink q (Some (extend (default trigger_default o) t)) (r ++ r') (S w) st)
| ko_wake q o r w st :
    own_step (mkSink q o r (S w) st)
      (mkSink (if (length q <? QUEUE)%nat then q ++ [trigger_default] else q) o r w st)
| ko_recv t q o r w : own_step (mkSink (t :: q) o r w Waiting) (mkSink q o r w (Draining t))
| ko_more more q o r w t : own_step (mkSink (more :: q) o r w (Draining t)) (mkSink q o r w (Draining (extend t more)))
| ko_drained o r w t : own_step (mkSink [] o r w (Draining t)) (mkSink [] o r w (Taking t))
| ko_take q o r w t :
    own_step (mkSink q o r w (Taking t)) (mkSink q None r w (Scanning (map_or t (extend t) o)))
| ko_scanned q o r w t : own_step (mkSink q o r w (Scanning t)) (mkSink q o r w Waiting).
Inductive sink_step : Sink -> Sink -> Prop :=
| ks_send q o r w st t :
    (length q < QUEUE)%nat -> sink_step (mkSink q o r w st) (mkSink (q ++ [t]) o r w st)
| ks_full q o r w st t :
    (QUEUE <= length q)%nat -> sink_step (mkSink q o r w st) (mkSink q o (t :: r) w st)
| ks_own y y' : own_step y y' -> sink_step y y'.
Definition sink_new : Sink := mkSink [] None [] 0 Waiting.
