(* ===== verification/ScanTheorems.v ===== *)
(** * A scan lists the disk

    What a scan leaves in the catalogue, whatever its roots answer and whatever
    is discovered meanwhile: exactly the files of the walks, each as it was seen
    during the scan; that a second scan of a disk that stands still writes
    nothing; that a panic in one file ends the scan of all; and that no trigger
    of a scan is lost. *)
From S2P Require Import Prelude Floats Utf8 Text Media Scheduler Names NamesKeys Ebml Subindex Mp4 Keyframes KeyframesTheorems ImageSubs Catalog CatalogTheorems CatalogLink CatalogLinkTheorems Replica ReplicaFacts ReplicaSnapshot Replication ReplicationFacts ReplicationTheorems Scan.
#[local] Open Scope Z_scope.

(** ** The rows of the catalogue's operations *)

(** The row a record of a scan leaves. *)
Definition upserted (previous : option FileRow) (file : FileRecord) (generation music : Z) (probed : bool) (version : Z) : FileRow :=
  match previous with
  | Some row =>
      if (same_bytes row file && (r_streams row =s f_streams file)) && negb (r_music row <? music)
      then with_row_seen row generation (Z.max music (r_music row)) (if probed then false else r_reprobe row)
      else mkRow (as_i64 (f_size file)) (f_mtime file) (as_i64 (f_head file)) (as_i64 (f_tail file)) (as_i64 (f_oshash file))
             (f_streams file) generation version "" (Z.max (r_music row) music) (if probed then false else r_reprobe row)
  | None => mkRow (as_i64 (f_size file)) (f_mtime file) (as_i64 (f_head file)) (as_i64 (f_tail file)) (as_i64 (f_oshash file))
              (f_streams file) generation version "" music false
  end.
Definition errored (previous : option FileRow) (text : string) (generation version : Z) : FileRow :=
  match previous with
  | Some row =>
      if r_error row =s text then with_row_seen row generation (r_music row) (r_reprobe row)
      else mkRow (r_size row) (r_mtime row) (r_head row) (r_tail row) (r_oshash row) (r_streams row)
             generation version text (r_music row) (r_reprobe row)
  | None => mkRow 0 0 0 0 0 "{}" generation version text 0 false
  end.
(** What a scan keeps until it finishes. *)
Definition frame (c : Catalog) : bool * Z * bool := (c_scanning c, c_scan_generation c, c_complete c).

Lemma frame_publish c v : frame (publish_version c v false) = frame c.
Proof. unfold frame. cbn. by rewrite orb_false_r. Qed.
Ltac framed := etransitivity; [apply frame_publish|reflexivity].
Lemma tombstone_files c key :
  c_files (snd (tombstone_derived_records c key)) = c_files c /\ frame (snd (tombstone_derived_records c key)) = frame c.
Proof. by rewrite tombstone_log. Qed.
Lemma alter_insert (m : gmap Source FileRow) g s row : m !! s = Some row -> alter g s m = <[s := g row]> m.
Proof.
  intros Hs. apply map_eq. intros s'. destruct (decide (s = s')) as [->|Hne].
  - by rewrite lookup_alter_eq, lookup_insert_eq, Hs.
  - by rewrite lookup_alter_ne, lookup_insert_ne.
Qed.
Lemma upsert_files c file s generation music probed :
  f_source file = Some s ->
  let c' := snd (upsert_file_inner c file generation music probed) in
  is_ok (fst (upsert_file_inner c file generation music probed)) = true /\ frame c' = frame c
  /\ c_files c' = <[s := upserted (c_files c !! s) file generation music probed (c_current c + 1)]> (c_files c).
Proof.
  intros Hs. unfold upsert_file_inner. rewrite Hs.
  destruct (c_files c !! s) as [row|] eqn:Hrow; cbn [is_some_and upserted].
  - destruct (same_bytes row file && (r_streams row =s f_streams file)); cbn [andb].
    + destruct (negb (r_music row <? music)); cbn [fst snd].
      { split_and!; [done|done|]. cbn [c_files with_files]. by rewrite (alter_insert _ _ _ row). }
      unfold next_version. cbv beta iota zeta. destruct (is_none_or _ _); cbn [map_or].
      * rewrite tombstone_log. split_and!; [done|framed|done].
      * rewrite reversion_log. split_and!; [done|framed|done].
    + unfold next_version. cbv beta iota zeta. destruct (is_none_or _ _); cbn [map_or].
      * rewrite tombstone_log. split_and!; [done|framed|done].
      * rewrite reversion_log. split_and!; [done|framed|done].
  - unfold next_version. cbv beta iota zeta. cbn [is_none_or andb map_or]. rewrite tombstone_log. split_and!; [done|framed|by destruct probed].
Qed.
Lemma error_files c s text generation :
  frame (snd (record_error c s text generation)) = frame c
  /\ exists version, c_files (snd (record_error c s text generation))
                     = <[s := errored (c_files c !! s) text generation version]> (c_files c).
Proof.
  unfold record_error. destruct (c_files c !! s) as [row|] eqn:Hrow; cbn [opt_filter is_some_and errored].
  - destruct (r_error row =s text) eqn:He.
    + split; [done|]. exists 0. cbn [snd mark_seen c_files with_files]. by rewrite (alter_insert _ _ _ row).
    + destruct (r_error row =s ""); [|split; [framed|by eexists]].
      rewrite put_next_log. cbv beta iota zeta. rewrite tombstone_log. cbv beta iota zeta.
      split; [framed|by eexists].
  - split; [framed|by eexists].
Qed.

(** ** Removals *)

Lemma remove_files_rows c l :
  frame (snd (remove_files c l)) = frame c
  /\ forall s, c_files (snd (remove_files c l)) !! s = if bool_decide (s ∈ l) then None else c_files c !! s.
Proof.
  unfold remove_files. generalize (None : option Z) as o. revert c.
  induction l as [|a l IH]; intros c o; cbn [fold_left]; [done|].
  destruct (remove_file_log c a) as (ds & _ & E). rewrite E.
  set (c1 := with_files _ _). destruct (IH c1 (Some (c_current (log c (tombs (key_of a) ds ++ [(FILE, key_of a, NoPayload, true)])))))
    as [Hf Hr].
  split; [by rewrite Hf|]. intros s. rewrite Hr. unfold c1. cbn [c_files with_files].
  destruct (decide (s = a)) as [->|Hne].
  - rewrite lookup_delete_eq. rewrite (bool_decide_eq_true_2 (a ∈ a :: l)) by left. by destruct (bool_decide _).
  - rewrite lookup_delete_ne by done. destruct (decide (s ∈ l)).
    + rewrite !bool_decide_eq_true_2; [done|by right|done].
    + rewrite !bool_decide_eq_false_2; [done| |done]. by intros [|]%elem_of_cons.
Qed.
Lemma filter_In_elem {A} (P : A -> bool) l x : x ∈ List.filter P l <-> x ∈ l /\ P x = true.
Proof. by rewrite !list_elem_of_In, filter_In. Qed.
Lemma file_key c s : s ∈ map fst (map_to_list (c_files c)) <-> is_Some (c_files c !! s).
Proof.
  rewrite list_elem_of_fmap. split.
  - intros ([s' row] & -> & H%elem_of_map_to_list). by eexists.
  - intros [row H]. exists (s, row). split; [done|]. by apply elem_of_map_to_list.
Qed.
Lemma reconcile_rows c root present :
  frame (reconcile_root c root present) = frame c
  /\ forall s, c_files (reconcile_root c root present) !! s
               = if bool_decide (fst s = root) && negb (str_mem (snd s) present) then None else c_files c !! s.
Proof.
  unfold reconcile_root. set (absent := List.filter _ _).
  destruct (remove_files_rows c absent) as [Hf Hr].
  assert (forall s, c_files (snd (remove_files c absent)) !! s
                    = if bool_decide (fst s = root) && negb (str_mem (snd s) present) then None else c_files c !! s) as Hrows.
  { intros s. rewrite Hr. destruct (decide (is_Some (c_files c !! s))) as [Hs|Hs%eq_None_not_Some].
    - destruct s as [r p]. cbn [fst snd].
      assert (bool_decide ((r, p) ∈ absent) = bool_decide (r = root) && negb (str_mem p present)) as ->; [|done].
      apply Bool.eq_iff_eq_true. unfold absent.
      rewrite andb_true_iff, !bool_decide_eq_true, filter_In_elem, file_key, andb_true_iff, String.eqb_eq. tauto.
    - rewrite Hs. by destruct (bool_decide _), (_ && _). }
  destruct (remove_files c absent) as [[v|] c'] eqn:E; cbn [snd] in *.
  - split; [rewrite frame_publish; exact Hf|done].
  - by split.
Qed.
Lemma finish_rows c generation retained :
  let c' := snd (finish_scan c generation retained) in
  (c_scanning c' = false /\ c_scan_generation c' = c_scan_generation c)
  /\ fst (finish_scan c generation retained) = c_current c'
  /\ forall s, c_files c' !! s = row ← c_files c !! s;
                                 then_some ((r_seen row =? generation) || str_mem (fst s) retained) row.
Proof.
  unfold finish_scan. set (stale := List.filter _ _). destruct (remove_files_rows c (map fst stale)) as [Hf Hr].
  destruct (remove_files c (map fst stale)) as [o c1] eqn:E. cbn [fst snd] in *. split_and!; [done|by injection Hf|done|].
  intros s. change (c_files c1 !! s = row ← c_files c !! s; then_some ((r_seen row =? generation) || str_mem (fst s) retained) row).
  rewrite Hr. destruct (c_files c !! s) as [row|] eqn:Hrow; [|by destruct (bool_decide _)]. cbn.
  assert (bool_decide (s ∈ map fst stale) = negb ((r_seen row =? generation) || str_mem (fst s) retained)) as ->.
  { apply Bool.eq_iff_eq_true. rewrite bool_decide_eq_true, list_elem_of_fmap, negb_orb, andb_true_iff. unfold stale. split.
    - intros ([[root p] row'] & -> & Hin%filter_In_elem). destruct Hin as [Hin%elem_of_map_to_list Hp]. cbn in *.
      rewrite Hrow in Hin. injection Hin as <-. by apply andb_true_iff.
    - intros Hp. exists (s, row). split; [done|]. apply filter_In_elem. split; [by apply elem_of_map_to_list|].
      destruct s. by apply andb_true_iff. }
  by destruct (_ || _).
Qed.

Section Rows.
Context {json : MediaJson}.

Definition rebased (row : FileRow) (revision : string) : FileRow :=
  if (r_error row =s "") && is_some_and (fun m => is_none (sidecar_revision m)) (media_of_json (r_streams row))
  then with_row_streams row (set_sidecar_revision (r_streams row) revision) else row.
Lemma baseline_rows c root baselines :
  NoDup (map fst baselines) ->
  frame (baseline_sidecars c root baselines) = frame c
  /\ (forall p revision, (p, revision) ∈ baselines ->
      c_files (baseline_sidecars c root baselines) !! (root, p) = (fun row => rebased row revision) <$> c_files c !! (root, p))
  /\ (forall s, ~ (fst s = root /\ snd s ∈ map fst baselines) -> c_files (baseline_sidecars c root baselines) !! s = c_files c !! s).
Proof.
  unfold baseline_sidecars. revert c. induction baselines as [|[p rev] bs IH]; intros c Hnd; cbn [fold_left].
  - split_and!; [done| |done]. by intros p rev ?%not_elem_of_nil.
  - apply NoDup_cons in Hnd as [Hp Hnd]. set (c1 := with_files c _). destruct (IH c1 Hnd) as (Hf & Hin & Hout). split_and!; [done| |].
    + intros p' rev' [[= -> ->]|Hin']%elem_of_cons.
      * rewrite Hout by (cbn; tauto). unfold c1. cbn [c_files with_files]. apply lookup_alter_eq.
      * rewrite (Hin p' rev') by done. unfold c1. cbn [c_files with_files]. rewrite lookup_alter_ne; [done|].
        intros [= ->]. apply Hp. apply list_elem_of_fmap. by exists (p', rev').
    + intros s Hs. cbn [map] in Hs. rewrite Hout.
      * unfold c1. cbn [c_files with_files]. apply lookup_alter_ne. intros <-. apply Hs. split; [done|]. left.
      * intros [He Hin']. apply Hs. split; [done|]. by right.
Qed.

(** ** What is discovered meanwhile *)

Inductive discovery_step (c : Catalog) : Catalog -> Prop :=
| ds_claim kind limit : discovery_step c (snd (claim_sources c kind limit))
| ds_cheap media_type kind limit : discovery_step c (snd (claim_cheap_sources c media_type kind limit))
| ds_season rows : discovery_step c (snd (claim_rows c SEGMENTS rows))
| ds_release kind sources : discovery_step c (release_claims c kind sources)
| ds_store m : fact_kind_ok m -> discovery_step c (snd (store_fact c m))
| ds_ack hub epoch version : discovery_step c (snd (acknowledge c hub epoch version)).

(** The rows of the scanner and the progress of its scan are its own. *)
Definition quiet (c c' : Catalog) : Prop := c_files c' = c_files c /\ frame c' = frame c.
Lemma quiet_refl c : quiet c c.
Proof. done. Qed.
Lemma quiet_trans a b c : quiet a b -> quiet b c -> quiet a c.
Proof. intros [H1 H2] [H3 H4]. split; congruence. Qed.
Lemma quiet_claim_rows c kind rows : quiet c (snd (claim_rows c kind rows)).
Proof.
  unfold claim_rows. cbn [snd]. revert c. induction rows as [|[s row] rows IH]; intros c; cbn [fold_left]; [done|].
  eapply quiet_trans; [|apply IH]. done.
Qed.
Lemma quiet_claim c wanted kind limit : quiet c (snd (claim_wanted c wanted kind limit)).
Proof. unfold claim_wanted. destruct (_ =? 0)%nat; [done|apply quiet_claim_rows]. Qed.
Lemma quiet_release c kind sources : quiet c (release_claims c kind sources).
Proof.
  unfold release_claims. revert c. induction sources as [|s ss IH]; intros c; cbn [fold_left]; [done|].
  eapply quiet_trans; [|apply IH]. by destruct (job_running c kind s).
Qed.
Lemma quiet_answer c kind a size mtime : quiet c (snd (store_answer c kind a size mtime)).
Proof.
  unfold store_answer. destruct (a_source a) as [s|]; [|done]. unfold store_source_fact. cbv zeta.
  destruct (mbind _ _) as [[[sz mt] v]|]; [|done].
  destruct (negb _); [by destruct (is_none _)|]. destruct (_ || _); [done|].
  unfold put_next, next_version. cbn [snd]. by split; [|framed].
Qed.
Lemma quiet_store c m : quiet c (snd (store_fact c m)).
Proof.
  destruct m as [answers|kind a|a|answers]; cbn [store_fact]; [|apply quiet_answer|apply quiet_answer|].
  - generalize (None : option StoreError) as o. revert c. induction answers as [|a l IH]; intros c o; [done|]. cbn [store_hashes].
    pose proof (quiet_answer c HASHES a (then_some (a_error a =s "") (a_size a)) None) as H.
    destruct (store_answer _ _ _ _ _) as [[e|] c1]; cbn [snd] in H; [destruct (is_stale e); [|done]|];
      (eapply quiet_trans; [exact H|apply IH]).
  - revert c. induction answers as [|[a retryable] l IH]; intros c; [done|]. cbn [store_segments]. destruct retryable.
    + eapply quiet_trans; [|apply IH]. destruct (a_source a); [apply quiet_release|done].
    + pose proof (quiet_answer c SEGMENTS a (Some (a_size a)) (Some (a_mtime a))) as H.
      destruct (store_answer _ _ _ _ _) as [[e|] c1]; cbn [snd] in H; [destruct (is_stale e); [|done]|];
        (eapply quiet_trans; [exact H|apply IH]).
Qed.
Lemma discovery_quiet c c' : discovery_step c c' -> catalog_step c c' /\ quiet c c'.
Proof.
  destruct 1 as [kind limit|mt kind limit|rows|kind ss|m Hm|hub e v]; (split; [by constructor|]).
  - apply quiet_claim.
  - unfold claim_cheap_sources. destruct (str_mem _ _); [|done].
    pose proof (quiet_claim c (fun row => lacks_cheap mt kind (r_streams row)) kind limit). by destruct (claim_wanted _ _ _ _).
  - apply quiet_claim_rows.
  - apply quiet_release.
  - apply quiet_store.
  - unfold acknowledge. destruct (negb _); [done|]. by destruct (_ <? _).
Qed.
Lemma discovery_run c c' : rtc discovery_step c c' -> rtc catalog_step c c' /\ quiet c c'.
Proof.
  induction 1 as [c|c c1 c2 Hs _ [IH1 IH2]]; [by split|]. apply discovery_quiet in Hs as [H1 H2]. split.
  - by eapply rtc_l.
  - by eapply quiet_trans.
Qed.
End Rows.

(** ** A scan is steps of the catalogue *)

(** No error is without a text. *)
Definition speaks (d : Disk) : Prop :=
  forall p, (forall e, dk_metadata d p = Err e -> e <> "")
    /\ (forall st e, dk_metadata d p = Ok st -> st_modified st = Err e -> e <> "")
    /\ (forall e, dk_content d p = Err e -> e <> "")
    /\ (forall e, dk_discover d p = Err e -> e <> "").

Section Running.
Context {U : Unicode} {json : MediaJson} {digests : Digests}.
Context (disk_at : nat -> Disk) (halted : nat -> bool) (others : nat -> Catalog -> Catalog) (digest : string -> string).
Notation look := (look disk_at halted).
Notation transaction := (transaction halted others).

Lemma measured_reported {A} (r : result Error A) kept f failed e : measured r kept f failed <> Err (Reported e).
Proof. by destruct r as [a|[]]. Qed.
Lemma inspect_reported d root p e : (forall i, speaks (d i)) -> inspect d root p = Err (Reported e) -> e <> "".
Proof.
  intros Hd. destruct (Hd 0%nat p) as (Hmeta & Hmod & _). destruct (Hd 1%nat p) as (_ & _ & Hcont & _).
  destruct (Hd 2%nat p) as (_ & _ & _ & Hdisc). unfold inspect.
  destruct (dk_metadata (d 0%nat) p) as [st|x] eqn:E0; cbn; [|intros [= ->]; by apply Hmeta].
  destruct (st_modified st) as [t|x] eqn:E1; cbn; [|intros [= ->]; by apply (Hmod st)].
  assert (forall x, identity_hashes (d 1%nat) p (st_len st) = Err x -> x <> "") as Hid.
  { unfold identity_hashes. intros x. destruct (dk_content (d 1%nat) p) as [bs|y] eqn:E2; cbn; [|intros [= ->]; by apply Hcont].
    unfold read_exact. cbv zeta. destruct (_ =? _); cbn; [|by intros [= <-]]. destruct (_ =? _); cbn; [done|by intros [= <-]]. }
  destruct (identity_hashes (d 1%nat) p (st_len st)) as [[[h t'] o]|x]; cbn; [|intros [= ->]; by apply Hid].
  destruct (dk_discover (d 2%nat) p) as [info|x] eqn:E3; cbn; [|intros [= ->]; by apply Hdisc].
  destruct (measure_keyframes _ _ _) as [i1|x] eqn:E4; cbn.
  - destruct (declare_header _ _ _) as [i2|x] eqn:E5; cbn; [done|]. intros [= ->]. exfalso. revert E5. unfold declare_header.
    destruct (is_some_and _ _); [apply measured_reported|done].
  - intros [= ->]. exfalso. revert E4. unfold measure_keyframes. destruct (video _); [done|apply measured_reported].
Qed.

Definition steps {A} (m : S_M A) : Prop := forall s, rtc catalog_step (sn_catalog s) (sn_catalog (snd (m s))).
Lemma steps_still {A} (m : S_M A) : (forall s, sn_catalog (snd (m s)) = sn_catalog s) -> steps m.
Proof. intros H s. by rewrite H. Qed.
Lemma steps_bind {A B} (m : S_M A) (k : A -> S_M B) : steps m -> (forall a, steps (k a)) -> steps (bind m k).
Proof.
  intros Hm Hk s. unfold bind. specialize (Hm s). destruct (m s) as [[a| |] s1]; cbn in *; [|done|done].
  etransitivity; [exact Hm|apply Hk].
Qed.
Definition yields {A} (R : A -> Prop) (m : S_M A) : Prop := forall s a s', m s = (Done a, s') -> R a.
Lemma yields_ret {A} (R : A -> Prop) a : R a -> yields R (ret a).
Proof. by intros HR s b s' [= <- <-]. Qed.
Lemma yields_bind {A B} (R : B -> Prop) (m : S_M A) (k : A -> S_M B) : (forall a, yields R (k a)) -> yields R (bind m k).
Proof. intros Hk s b s' H. unfold bind in H. destruct (m s) as [[a| |] s1]; [by eapply Hk|done|done]. Qed.
Lemma yields_collect {A B} (R : B -> Prop) (f : A -> S_M B) l :
  (forall a, a ∈ l -> yields R (f a)) -> yields (Forall R) (collect f l).
Proof.
  induction l as [|a l IH]; intros Hf; cbn [collect]; [by apply yields_ret|]. intros s bs s' H. unfold bind in H.
  destruct (f a s) as [[b| |] s1] eqn:E; [|done|done].
  destruct (collect f l s1) as [[bs'| |] s2] eqn:E2; [|done|done]. injection H as <- <-. constructor.
  - eapply (Hf a); [by left|exact E].
  - eapply IH; [|exact E2]. intros x Hx. apply Hf. by right.
Qed.
Lemma steps_bind_with {A B} (R : A -> Prop) (m : S_M A) (k : A -> S_M B) :
  yields R m -> steps m -> (forall a, R a -> steps (k a)) -> steps (bind m k).
Proof.
  intros Hy Hm Hk s. unfold bind. specialize (Hm s). specialize (Hy s). destruct (m s) as [[a| |] s1]; cbn in *; [|done|done].
  etransitivity; [exact Hm|apply Hk]. by eapply Hy.
Qed.
Lemma steps_collect_with {A B} (R : A -> Prop) (f : A -> S_M B) l :
  Forall R l -> (forall a, R a -> steps (f a)) -> steps (collect f l).
Proof.
  intros Hl Hf. induction Hl as [|a l Ha _ IH]; cbn [collect]; [by apply steps_still|].
  apply steps_bind; [by apply Hf|]. intros b. apply steps_bind; [done|]. intros bs. by apply steps_still.
Qed.
Lemma steps_collect {A B} (f : A -> S_M B) l : (forall a, steps (f a)) -> steps (collect f l).
Proof.
  intros Hf. induction l as [|a l IH]; cbn [collect]; [by apply steps_still|].
  apply steps_bind; [done|]. intros b. apply steps_bind; [done|]. intros bs. by apply steps_still.
Qed.
Lemma steps_each {A} (f : A -> S_M unit) l : (forall a, steps (f a)) -> steps (each f l).
Proof. intros Hf. unfold each. apply steps_bind; [by apply steps_collect|]. intros _. by apply steps_still. Qed.
Lemma steps_look {A B} (f : (nat -> Disk) -> A) (k : A -> S_M B) :
  (forall n, steps (k (f (fun i => disk_at (n + i)%nat)))) -> steps (bind (look f) k).
Proof.
  intros Hk s. unfold bind, Scan.look. destruct (halted (sn_now s)); cbn; [done|].
  exact (Hk (sn_now s) (with_catalog s LOOKS (sn_catalog s))).
Qed.

Hypothesis meanwhile : forall n c, rtc discovery_step c (others n c).

Lemma steps_transaction {A} (f : Catalog -> A * Catalog) :
  (forall c, rtc catalog_step c (snd (f c))) -> steps (transaction f).
Proof.
  intros Hf s. unfold Scan.transaction. pose proof (discovery_run _ _ (meanwhile (sn_now s) (sn_catalog s))) as [H _].
  destruct (halted (sn_now s)); cbn; [done|]. specialize (Hf (others (sn_now s) (sn_catalog s))).
  destruct (f _) as [a c]. cbn in *. by etransitivity.
Qed.
Lemma steps_upsert (f : Catalog -> result string (option Z) * Catalog) :
  (forall c, rtc catalog_step c (snd (f c))) -> steps (upsert halted others f).
Proof.
  intros Hf. apply steps_bind; [by apply steps_transaction|]. intros [o|e]; by apply steps_still.
Qed.

Section Steps.
Hypothesis spoken : forall n, speaks (disk_at n).
Hypothesis digest_text : forall s, nul_free (digest s).

Lemma steps_settle music generation tk root v : nul_free tk -> steps (settle disk_at halted others music generation tk root v).
Proof.
  intros Hn. destruct v as [[p rel] [|revision|record|stale]]; cbn [settle].
  - apply steps_bind; [by apply steps_still|]. intros _. by apply steps_still.
  - apply steps_bind; [by apply steps_still|]. intros _. by apply steps_still.
  - apply steps_bind; [by apply steps_still|]. intros _. apply steps_bind; [|intros _; by apply steps_still].
    apply steps_upsert. intros c. apply rtc_once. by apply (cs_upsert _ _ (tk, rel)).
  - apply steps_look. intros n. destruct (inspect _ root p) as [f|[e| |]] eqn:E; [| |by apply steps_still|by apply steps_still].
    + apply steps_bind; [by apply steps_still|]. intros _. apply steps_bind; [|intros _; by apply steps_still].
      apply steps_upsert. intros c. apply rtc_once. by apply (cs_upsert _ _ (tk, rel)).
    + apply steps_bind; [by apply steps_still|]. intros _. destruct stale; [by apply steps_still|].
      apply steps_bind; [|intros _; by apply steps_still]. apply steps_transaction. intros c. apply rtc_once.
      apply cs_error; [done|]. eapply inspect_reported; [|exact E]. intros i. apply spoken.
Qed.
Lemma steps_batch known changed deep music generation tk root batch :
  nul_free tk -> steps (scan_batch disk_at halted others known changed deep music generation tk root batch).
Proof.
  intros Hn. apply steps_bind; [apply steps_collect; intros p; apply steps_look; intros n; by apply steps_still|]. intros vs.
  apply steps_bind; [apply steps_collect; intros v; by apply steps_settle|]. intros bs.
  apply steps_bind; [|intros _; by apply steps_still].
  destruct (omap _ bs) as [|b l]; [by apply steps_still|]. apply steps_transaction. intros c. apply rtc_once. constructor.
Qed.
Lemma root_token_text p : nul_free (Scheduler.root_token digest p).
Proof.
  unfold Scheduler.root_token, nul_free. generalize ("kahawai-root-path-v1" ++ String (byte 0) p)%string as t. intros t.
  change (str_mem_char NUL (digest t) = false). apply digest_text.
Qed.
Lemma steps_scan cfg changed deep : steps (scan_local_collection disk_at halted others digest cfg changed deep).
Proof.
  unfold scan_local_collection. apply steps_bind; [apply steps_transaction; intros c; apply rtc_once; constructor|]. intros generation.
  apply steps_bind; [by apply steps_still|]. intros _. apply steps_bind; [by apply steps_transaction|]. intros known. cbv zeta.
  apply (steps_bind_with (Forall (fun o : option Inventory => match o with Some (tk, _, _) => nul_free tk | None => True end))).
  { apply yields_collect. intros r Hr. unfold scan_root. apply yields_bind. intros [ps|e]; apply yields_bind; intros _; apply yields_ret; [|done].
    apply list_elem_of_fmap in Hr as (p & -> & _). apply root_token_text. }
  { apply steps_collect. intros r. apply steps_look. intros n. destruct (walk _ _ _) as [ps|e].
    - apply steps_bind; [|intros _; by apply steps_still]. apply steps_transaction. intros c. apply rtc_once. constructor.
    - apply steps_bind; [by apply steps_still|intros _; by apply steps_still]. }
  intros invs Hinvs. apply steps_bind.
  { unfold each. apply steps_bind; [|intros _; by apply steps_still].
    apply (steps_collect_with (fun i : Inventory => nul_free (fst (fst i)))).
    - induction Hinvs as [|[[[tk root] ps]|] l Ho _ IH]; cbn; [done|by constructor|done].
    - intros [[tk root] ps] Hn. apply steps_each. intros batch. by apply steps_batch. }
  intros _. apply steps_bind; [by apply steps_still|]. intros _. apply steps_transaction. intros c. apply rtc_once. constructor.
Qed.
End Steps.

(** ** A logic for what a scan that completes has done *)

(** Assertions speak of the rows, of the progress of the scan and of how far it
    has looked: what is discovered meanwhile changes none of them. *)
Definition Assertion : Type := gmap Source FileRow -> bool * Z * bool -> nat -> Prop.
Definition sat {A} (P : Assertion) (m : S_M A) (Q : A -> Assertion) : Prop :=
  forall s, P (c_files (sn_catalog s)) (frame (sn_catalog s)) (sn_now s) ->
  forall a s', m s = (Done a, s') -> Q a (c_files (sn_catalog s')) (frame (sn_catalog s')) (sn_now s').

Lemma scan_sat_ret {A} (P : Assertion) (a : A) (Q : A -> Assertion) : (forall F fr n, P F fr n -> Q a F fr n) -> sat P (ret a) Q.
Proof. by intros H s Hs b s' [= <- <-]; apply H. Qed.
Lemma scan_sat_bind {A B} P (m : S_M A) R (k : A -> S_M B) Q : sat P m R -> (forall a, sat (R a) (k a) Q) -> sat P (bind m k) Q.
Proof.
  intros Hm Hk s Hs b s' H. unfold bind in H. specialize (Hm s Hs). destruct (m s) as [[a| |] s1]; [|done|done].
  eapply (Hk a s1); [by apply Hm|exact H].
Qed.
Lemma scan_sat_weaken {A} (P P' : Assertion) (m : S_M A) (Q Q' : A -> Assertion) :
  sat P' m Q' -> (forall F fr n, P F fr n -> P' F fr n) -> (forall a F fr n, Q' a F fr n -> Q a F fr n) -> sat P m Q.
Proof. intros Hm HP HQ s Hs a s' H. eapply HQ, Hm; [by apply HP|exact H]. Qed.
Lemma scan_sat_pre {A} (P P' : Assertion) (m : S_M A) Q : sat P' m Q -> (forall F fr n, P F fr n -> P' F fr n) -> sat P m Q.
Proof. intros Hm HP. by eapply scan_sat_weaken. Qed.
Lemma scan_sat_pure {A} (P : Assertion) (G : Prop) (m : S_M A) Q :
  (forall F fr n, P F fr n -> G) -> (G -> sat P m Q) -> sat P m Q.
Proof. intros HG Hm s Hs. apply Hm; [by eapply HG|done]. Qed.
Lemma sat_stop {A} P (Q : A -> Assertion) : sat P stop Q.
Proof. by intros s Hs a s' [=]. Qed.
Lemma sat_hang {A} P (Q : A -> Assertion) : sat P hang Q.
Proof. by intros s Hs a s' [=]. Qed.
(** A step that touches nothing an assertion speaks of. *)
Definition aside (m : S_M unit) : Prop :=
  forall s, exists s', m s = (Done tt, s') /\ sn_catalog s' = sn_catalog s /\ sn_now s' = sn_now s.
Lemma sat_aside {B} P (m : S_M unit) (k : S_M B) Q : aside m -> sat P k Q -> sat P (bind m (fun _ => k)) Q.
Proof.
  intros Hm Hk s Hs b s' H. unfold bind in H. destruct (Hm s) as (s1 & E & Hc & Hn). rewrite E in H.
  eapply (Hk s1); [by rewrite Hc, Hn|exact H].
Qed.
Lemma sat_look {A} (P : Assertion) (f : (nat -> Disk) -> A) (Q : A -> Assertion) :
  (forall F fr n, P F fr n -> Q (f (fun i => disk_at (n + i)%nat)) F fr (n + LOOKS)%nat) -> sat P (look f) Q.
Proof.
  intros H s Hs a s' E. unfold Scan.look in E. destruct (halted (sn_now s)); [done|]. injection E as <- <-. by apply H.
Qed.
Lemma sat_transaction {A} (P : Assertion) (f : Catalog -> A * Catalog) (Q : A -> Assertion) :
  (forall c n, P (c_files c) (frame c) n -> Q (fst (f c)) (c_files (snd (f c))) (frame (snd (f c))) (n + 1)%nat) ->
  sat P (transaction f) Q.
Proof.
  intros H s Hs a s' E. unfold Scan.transaction in E. destruct (discovery_run _ _ (meanwhile (sn_now s) (sn_catalog s))) as [_ [Hf Hfr]].
  destruct (halted (sn_now s)); [done|]. specialize (H (others (sn_now s) (sn_catalog s)) (sn_now s)). rewrite Hf, Hfr in H.
  specialize (H Hs). destruct (f _) as [b c]. injection E as <- <-. exact H.
Qed.
Lemma sat_collect {A B} (f : A -> S_M B) (l : list A) (I : list A -> list B -> Assertion) :
  (forall pre a post bs, l = pre ++ a :: post -> sat (I pre bs) (f a) (fun b => I (pre ++ [a]) (bs ++ [b]))) ->
  sat (I [] []) (collect f l) (fun bs => I l bs).
Proof.
  intros Hf. enough (forall post pre bs, l = pre ++ post ->
      sat (I pre bs) (collect f post) (fun bs' => I l (bs ++ bs'))) as H by apply (H l [] []), eq_refl.
  induction post as [|a post IH]; intros pre bs Hl; cbn [collect].
  - apply scan_sat_ret. intros F fr n HI. rewrite app_nil_r in *. by subst.
  - eapply scan_sat_bind; [by apply (Hf pre a post bs)|]. intros b. eapply scan_sat_bind.
    + apply (IH (pre ++ [a]) (bs ++ [b])). by rewrite <- app_assoc.
    + intros bs'. apply scan_sat_ret. intros F fr n HI. by rewrite <- app_assoc in HI.
Qed.
Lemma sat_each {A} (f : A -> S_M unit) (l : list A) (I : list A -> Assertion) :
  (forall pre a post, l = pre ++ a :: post -> sat (I pre) (f a) (fun _ => I (pre ++ [a]))) ->
  sat (I []) (each f l) (fun _ => I l).
Proof.
  intros Hf. unfold each. eapply scan_sat_bind; [apply (sat_collect f l (fun pre _ => I pre)); intros; by eapply Hf|].
  intros bs. apply scan_sat_ret. auto.
Qed.

(** Looking only goes forward. *)
Definition later {A} (m : S_M A) : Prop := forall s a s', m s = (Done a, s') -> (sn_now s <= sn_now s')%nat.
Lemma later_ret {A} (a : A) : later (ret a).
Proof. by intros s b s' [= _ <-]. Qed.
Lemma later_bind {A B} (m : S_M A) (k : A -> S_M B) : later m -> (forall a, later (k a)) -> later (bind m k).
Proof.
  intros Hm Hk s b s' H. unfold bind in H. specialize (Hm s). destruct (m s) as [[a| |] s1]; [|done|done].
  specialize (Hm a s1 eq_refl). specialize (Hk a _ _ _ H). lia.
Qed.
Lemma later_look {A} (f : (nat -> Disk) -> A) : later (look f).
Proof. intros s a s' H. unfold Scan.look in H. destruct (halted _); [done|]. injection H as _ <-. cbn. lia. Qed.
Lemma later_transaction {A} (f : Catalog -> A * Catalog) : later (transaction f).
Proof. intros s a s' H. unfold Scan.transaction in H. destruct (halted _); [done|]. destruct (f _). injection H as _ <-. cbn. lia. Qed.
Lemma later_aside m : aside m -> later m.
Proof. intros Hm s a s' H. destruct (Hm s) as (s1 & E & _ & Hn). rewrite E in H. injection H as _ <-. lia. Qed.
Lemma later_upsert f : later (upsert halted others f).
Proof. apply later_bind; [apply later_transaction|]. intros [o|e]; [apply later_ret|by intros s a s']. Qed.
Lemma later_settle music generation tk root v : later (settle disk_at halted others music generation tk root v).
Proof.
  destruct v as [[p rel] [|revision|record|stale]]; cbn [settle].
  1-2: apply later_bind; [by apply later_aside; eexists|intros _; apply later_ret].
  - apply later_bind; [by apply later_aside; eexists|]. intros _. apply later_bind; [apply later_upsert|intros _; apply later_ret].
  - apply later_bind; [apply later_look|]. intros [f|[text| |]]; [| |by intros s a s'|by intros s a s'].
    + apply later_bind; [by apply later_aside; eexists|]. intros _. apply later_bind; [apply later_upsert|intros _; apply later_ret].
    + apply later_bind; [by apply later_aside; eexists|]. intros _. destruct stale; [apply later_ret|].
      apply later_bind; [apply later_transaction|intros _; apply later_ret].
Qed.
Lemma sat_frame {A} (P : Assertion) (R : nat -> Prop) (m : S_M A) Q :
  later m -> (forall n n', (n <= n')%nat -> R n -> R n') -> sat P m Q ->
  sat (fun F fr n => P F fr n /\ R n) m (fun a F fr n => Q a F fr n /\ R n).
Proof.
  intros Hl HR Hm s [Hs Hn] a s' H. split; [by eapply Hm|]. eapply HR; [by eapply Hl|done].
Qed.

(** ** What becomes of a file *)

(** The disk as one operation sees it, from its [n]-th look on. *)
Definition seen (n : nat) : nat -> Disk := fun i => disk_at (n + i)%nat.
Definition known_of (row : FileRow) : KnownFile :=
  mkKnown (wrap 64 (r_head row)) (wrap 64 (r_tail row)) (wrap 64 (r_oshash row)) (wrap 64 (r_size row)) (r_mtime row)
    (r_streams row) (r_music row) (r_reprobe row).
Definition record_of (source : Source) (f : Inspected) : FileRecord :=
  mkFileRecord (Some source) (in_size f) (in_mtime f) (in_head f) (in_tail f) (in_oshash f) (json_of_media (in_info f)).
Definition music_generation (music : bool) : Z := if music then MUSIC_TAG_GENERATION else 0.
(** The row of a file of a walk after a scan that looked between [lo] and [hi]. *)
Inductive fate (lo hi : nat) (deep music : bool) (generation : Z) (root p : Path) : option FileRow -> FileRow -> Prop :=
| fate_unchanged n row :
    (lo <= n < hi)%nat -> r_error row = "" -> classify_file (seen n) root p (Some (known_of row)) deep music = Unchanged ->
    fate lo hi deep music generation root p (Some row) row
| fate_baseline n row revision :
    (lo <= n < hi)%nat -> r_error row = "" -> classify_file (seen n) root p (Some (known_of row)) deep music = Baseline revision ->
    fate lo hi deep music generation root p (Some row) (rebased row revision)
| fate_stale n m row text :
    (lo <= n < hi)%nat -> r_error row = "" -> classify_file (seen n) root p (Some (known_of row)) deep music = Probe true ->
    (lo <= m < hi)%nat -> inspect (seen m) root p = Err (Reported text) ->
    fate lo hi deep music generation root p (Some row) row
| fate_sidecars n row record source version :
    (lo <= n < hi)%nat -> r_error row = "" -> classify_file (seen n) root p (Some (known_of row)) deep music = Sidecars record ->
    fate lo hi deep music generation root p (Some row)
      (upserted (Some row) (with_source record source) generation 0 false version)
| fate_inspected m f source before version :
    (lo <= m < hi)%nat -> inspect (seen m) root p = Ok f ->
    fate lo hi deep music generation root p before
      (upserted before (record_of source f) generation (music_generation music) true version)
| fate_failed m text before version :
    (lo <= m < hi)%nat -> inspect (seen m) root p = Err (Reported text) ->
    fate lo hi deep music generation root p before (errored before text generation version).
Lemma fate_later lo hi hi' deep music generation root p before row :
  (hi <= hi')%nat -> fate lo hi deep music generation root p before row -> fate lo hi' deep music generation root p before row.
Proof.
  intros Hh. destruct 1 as [n row Hn|n row rev Hn|n m row t Hn He Hc Hm|n row r s v Hn|m f s b v Hm|m t b v Hm].
  - apply (fate_unchanged _ _ _ _ _ _ _ n); [lia|done|done].
  - apply (fate_baseline _ _ _ _ _ _ _ n); [lia|done|done].
  - apply (fate_stale _ _ _ _ _ _ _ n m _ t); [lia|done|done|lia|done].
  - apply (fate_sidecars _ _ _ _ _ _ _ n); [lia|done|done].
  - apply (fate_inspected _ _ _ _ _ _ _ m); [lia|done].
  - apply (fate_failed _ _ _ _ _ _ _ m); [lia|done].
Qed.
Lemma fate_sooner lo lo' hi deep music generation root p before row :
  (lo <= lo')%nat -> fate lo' hi deep music generation root p before row -> fate lo hi deep music generation root p before row.
Proof.
  intros Hh. destruct 1 as [n row Hn|n row rev Hn|n m row t Hn He Hc Hm|n row r s v Hn|m f s b v Hm|m t b v Hm].
  - apply (fate_unchanged _ _ _ _ _ _ _ n); [lia|done|done].
  - apply (fate_baseline _ _ _ _ _ _ _ n); [lia|done|done].
  - apply (fate_stale _ _ _ _ _ _ _ n m _ t); [lia|done|done|lia|done].
  - apply (fate_sidecars _ _ _ _ _ _ _ n); [lia|done|done].
  - apply (fate_inspected _ _ _ _ _ _ _ m); [lia|done].
  - apply (fate_failed _ _ _ _ _ _ _ m); [lia|done].
Qed.
Lemma known_lookup c s : known_files c !! s = row ← c_files c !! s; then_some (r_error row =s "") (known_of row).
Proof. unfold known_files. rewrite lookup_omap. by destruct (c_files c !! s). Qed.

Section Batches.
Context (F0 : gmap Source FileRow) (fr0 : bool * Z * bool) (lo : nat).
Context (known : gmap Source KnownFile) (changed : gset Path) (deep music : bool) (generation : Z).

(** A file to be settled: the token of its root, the root, its path. *)
Definition Task : Type := (string * Path * Path)%type.
Definition source_of (t : Task) : Source := let '(tk, root, p) := t in (tk, relative root p).
Definition deep_for (p : Path) : bool := deep || bool_decide (p ∈ changed).
Definition settled (n : nat) (F : gmap Source FileRow) (t : Task) : Prop :=
  let '(tk, root, p) := t in
  exists row, F !! source_of t = Some row /\ fate lo n (deep_for p) music generation root p (F0 !! source_of t) row.
(** The tasks that are done, and every other row as it was. *)
Definition progress (dn : list Task) : Assertion := fun F fr n =>
  (lo <= n)%nat /\ fr = fr0 /\ (forall s, s ∉ map source_of dn -> F !! s = F0 !! s) /\ (forall t, t ∈ dn -> settled n F t).
Definition knows (s : Source) : Prop := known !! s = row ← F0 !! s; then_some (r_error row =s "") (known_of row).

Lemma settled_later n n' F F' t : (n <= n')%nat -> F' !! source_of t = F !! source_of t -> settled n F t -> settled n' F' t.
Proof.
  intros Hn Hs. destruct t as [[tk root] p]. intros (row & Hr & Hf). exists row. split; [by rewrite Hs|]. by eapply fate_later.
Qed.

Section Batch.
Context (tk : string) (root : Path).
Notation Verdict := (Path * string * ScanAction)%type.
Definition task_of (v : Verdict) : Task := (tk, root, fst (fst v)).
Definition judged (n : nat) (v : Verdict) : Prop :=
  let '(p, rel, action) := v in
  rel = relative root p
  /\ exists m, (lo <= m < n)%nat /\ action = classify_file (seen m) root p (known !! (tk, rel)) (deep_for p) music.
Lemma sat_verdicts dn batch :
  sat (progress dn) (collect (verdict disk_at halted known changed deep music tk root) batch)
    (fun vs F fr n => progress dn F fr n /\ map (fun v => fst (fst v)) vs = batch /\ Forall (judged n) vs).
Proof.
  eapply scan_sat_weaken; [apply (sat_collect _ _ (fun pre vs F fr n =>
      progress dn F fr n /\ map (fun v => fst (fst v)) vs = pre /\ Forall (judged n) vs))| |done].
  - intros pre p post vs _. unfold verdict. eapply scan_sat_bind; [apply (sat_look _ _ (fun action F fr n =>
      progress dn F fr n /\ map (fun v => fst (fst v)) vs = pre /\ Forall (judged n) vs /\ judged n (p, relative root p, action)))|].
    + intros F fr n (Hp & Hmap & Hvs). pose proof Hp as (Hlo & Hfr & Hout & Hin). split; [|split; [done|split]].
      * split_and!; [unfold LOOKS; lia|done|done|]. intros t Ht. apply (settled_later n _ F); [unfold LOOKS; lia|done|by apply Hin].
      * eapply Forall_impl; [exact Hvs|]. intros [[p' rel'] a] (Hrel & m & Hm & Ha). split; [done|]. exists m. split; [unfold LOOKS; lia|done].
      * split; [done|]. exists n. split; [unfold LOOKS; lia|done].
    + intros action. apply scan_sat_ret. intros F fr n (Hp & Hmap & Hvs & Hj). split; [done|split].
      * by rewrite map_app, Hmap.
      * apply Forall_app. split; [done|by constructor].
  - intros F fr n Hp. by split; [|split].
Qed.

Definition pending (n : nat) (F : gmap Source FileRow) (v : Verdict) (b : option (string * string)) : Prop :=
  match b with
  | None => settled n F (task_of v)
  | Some (rel, revision) =>
      rel = snd (source_of (task_of v)) /\ F !! source_of (task_of v) = F0 !! source_of (task_of v)
      /\ exists row m, F0 !! source_of (task_of v) = Some row /\ r_error row = "" /\ (lo <= m < n)%nat
         /\ classify_file (seen m) root (fst (fst v)) (Some (known_of row)) (deep_for (fst (fst v))) music = Baseline revision
  end.
Definition settling (dn : list Task) (pre : list Verdict) (bs : list (option (string * string))) : Assertion := fun F fr n =>
  (lo <= n)%nat /\ fr = fr0 /\ (forall s, s ∉ map source_of dn ++ map (fun v => source_of (task_of v)) pre -> F !! s = F0 !! s)
  /\ (forall t, t ∈ dn -> settled n F t) /\ Forall2 (pending n F) pre bs.

Lemma pending_later n n' F F' v b :
  (n <= n')%nat -> F' !! source_of (task_of v) = F !! source_of (task_of v) -> pending n F v b -> pending n' F' v b.
Proof.
  intros Hn Hs. destruct b as [[rel rev]|]; cbn [pending].
  - intros (Hrel & HF & row & m & Hrow & He & Hm & Hc). split_and!; [done|by rewrite Hs|]. exists row, m. split_and!; try done; lia.
  - by apply settled_later.
Qed.
(** One more verdict: only its row may change. *)
Lemma settling_next dn pre bs v b F F' fr n n' :
  settling dn pre bs F fr n -> (n <= n')%nat ->
  source_of (task_of v) ∉ map source_of dn ++ map (fun v => source_of (task_of v)) pre ->
  (forall s, s <> source_of (task_of v) -> F' !! s = F !! s) -> pending n' F' v b ->
  settling dn (pre ++ [v]) (bs ++ [b]) F' fr n'.
Proof.
  intros (Hlo & Hfr & Hout & Hdn & Hpre) Hn Hv HF Hb. rewrite not_elem_of_app in Hv. destruct Hv as [Hv1 Hv2]. split_and!.
  - lia.
  - done.
  - intros s Hs. rewrite map_app, app_assoc in Hs. apply not_elem_of_app in Hs as [Hs1 Hs2]. rewrite HF.
    + by apply Hout.
    + intros ->. apply Hs2. cbn. left.
  - intros t Ht. apply (settled_later n _ F); [done| |by apply Hdn]. apply HF. intros E. apply Hv1. rewrite <- E.
    apply list_elem_of_fmap. by exists t.
  - apply Forall2_app; [|by constructor]. clear Hout Hdn. revert Hv2. induction Hpre as [|w c pre bs Hw _ IH]; intros Hv2; constructor.
    + apply (pending_later n _ F); [done| |done]. apply HF. intros E. apply Hv2. rewrite <- E. left.
    + apply IH. intros H. apply Hv2. by right.
Qed.

Lemma judged_known n v :
  judged n v -> knows (source_of (task_of v)) -> snd v <> Probe false ->
  exists row m, F0 !! source_of (task_of v) = Some row /\ r_error row = "" /\ (lo <= m < n)%nat
    /\ classify_file (seen m) root (fst (fst v)) (Some (known_of row)) (deep_for (fst (fst v))) music = snd v.
Proof.
  destruct v as [[p rel] action]. intros (-> & m & Hm & ->). unfold knows. cbn [task_of source_of fst snd]. intros Hk.
  rewrite Hk. destruct (F0 !! _) as [row|]; [|done]. cbn. destruct (r_error row =s "") eqn:He; [|done]. cbn.
  intros _. exists row, m. split_and!; [done|by apply String.eqb_eq|lia|lia|done].
Qed.
Lemma settling_row dn pre bs v F fr n :
  settling dn pre bs F fr n -> source_of (task_of v) ∉ map source_of dn ++ map (fun v => source_of (task_of v)) pre ->
  F !! source_of (task_of v) = F0 !! source_of (task_of v).
Proof. intros (_ & _ & Hout & _). apply Hout. Qed.
Lemma sat_settle dn pre bs v :
  source_of (task_of v) ∉ map source_of dn ++ map (fun v => source_of (task_of v)) pre -> knows (source_of (task_of v)) ->
  sat (fun F fr n => settling dn pre bs F fr n /\ judged n v) (settle disk_at halted others music generation tk root v)
    (fun b => settling dn (pre ++ [v]) (bs ++ [b])).
Proof.
  intros Hv Hknows. destruct v as [[p rel] action].
  set (v := (p, rel, action)) in *. set (src := source_of (task_of v)) in *.
  apply (scan_sat_pure _ (rel = relative root p)); [by intros F fr n (_ & Hr & _)|]. intros Hrel.
  assert (forall F fr n, settling dn pre bs F fr n -> F !! src = F0 !! src) as Hsame
    by (intros F fr n Hs; by apply (settling_row _ _ _ _ _ _ _ Hs Hv)).
  assert (forall n F row, F !! src = Some row -> fate lo n (deep_for p) music generation root p (F0 !! src) row -> pending n F v None)
    as Hnone by (intros n F row H1 H2; by exists row).
  assert ((tk, rel) = src) as Hsrc by (unfold src, v; cbn; by rewrite Hrel).
  destruct action as [|revision|record|stale]; unfold v at 2; cbn [settle]; rewrite ?Hsrc.
  - apply sat_aside; [by eexists|]. apply scan_sat_ret. intros F fr n [Hs Hj].
    destruct (judged_known n v Hj Hknows) as (row & m & Hrow & He & Hm & Hc); [done|].
    apply (settling_next _ _ _ _ _ F F fr n n); [done|done|done|done|].
    apply (Hnone _ _ row); [by rewrite (Hsame _ _ _ Hs)|]. fold src in Hrow. rewrite Hrow. by apply (fate_unchanged _ _ _ _ _ _ _ m).
  - apply sat_aside; [by eexists|]. apply scan_sat_ret. intros F fr n [Hs Hj].
    destruct (judged_known n v Hj Hknows) as (row & m & Hrow & He & Hm & Hc); [done|].
    apply (settling_next _ _ _ _ _ F F fr n n); [done|done|done|done|]. split_and!.
    + exact Hrel.
    + by apply (Hsame _ _ _ Hs).
    + exists row, m. split; [exact Hrow|]. split; [exact He|]. by split.
  - apply sat_aside; [by eexists|]. apply (scan_sat_bind _ _ (fun _ : unit => settling dn (pre ++ [v]) (bs ++ [None]))); [|intros _; by apply scan_sat_ret].
    eapply scan_sat_bind; [apply (sat_transaction _ _ (fun r => settling dn (pre ++ [v]) (bs ++ [None])))|].
    + intros c n [Hs Hj]. destruct (judged_known n v Hj Hknows) as (row & m & Hrow & He & Hm & Hc); [done|].
      destruct (upsert_files c (with_source record src) src generation 0 false eq_refl) as (_ & Hf & Hfiles).
      unfold upsert_file. rewrite Hf, Hfiles. apply (settling_next _ _ _ _ _ (c_files c) _ _ n); [done|lia|done| |].
      * intros s Hne. by rewrite lookup_insert_ne.
      * eapply Hnone; [apply lookup_insert_eq|]. rewrite (Hsame _ _ _ Hs). fold src in Hrow. rewrite Hrow.
        apply (fate_later lo n); [lia|]. by apply (fate_sidecars _ _ _ _ _ _ _ m).
    + intros [o|e]; [by apply scan_sat_ret|apply sat_stop].
  - eapply scan_sat_bind; [apply (sat_look _ _ (fun r F fr n => settling dn pre bs F fr n /\ judged n v
        /\ exists m, (lo <= m < n)%nat /\ r = inspect (seen m) root p))|].
    { intros F fr n [Hs Hj]. pose proof Hs as (Hlo & Hfr & Hout & Hdn & Hpre). split; [|split].
      - split_and!; [unfold LOOKS; lia|done|done| |].
        + intros t Ht. apply (settled_later n _ F); [unfold LOOKS; lia|done|by apply Hdn].
        + eapply Forall2_impl; [exact Hpre|]. intros w b Hw. apply (pending_later n _ F); [unfold LOOKS; lia|done|done].
      - destruct Hj as (Hr & m & Hm & Ha). split; [done|]. exists m. split; [unfold LOOKS; lia|done].
      - exists n. split; [unfold LOOKS; lia|done]. }
    intros [f|[text| |]]; [| |apply sat_stop|apply sat_hang].
    + apply sat_aside; [by eexists|]. apply (scan_sat_bind _ _ (fun _ : unit => settling dn (pre ++ [v]) (bs ++ [None]))); [|intros _; by apply scan_sat_ret].
      eapply scan_sat_bind; [apply (sat_transaction _ _ (fun r => settling dn (pre ++ [v]) (bs ++ [None])))|].
      * intros c n (Hs & _ & m & Hm & Hi). fold (music_generation music). fold (record_of src f).
        destruct (upsert_files c (record_of src f) src generation (music_generation music) true eq_refl) as (_ & Hf & Hfiles).
        unfold upsert_file_with_music_tag_generation. rewrite Hf, Hfiles.
        apply (settling_next _ _ _ _ _ (c_files c) _ _ n); [done|lia|done| |].
        -- intros s Hne. by rewrite lookup_insert_ne.
        -- eapply Hnone; [apply lookup_insert_eq|]. rewrite (Hsame _ _ _ Hs). apply (fate_later lo n); [lia|]. by apply (fate_inspected _ _ _ _ _ _ _ m).
      * intros [o|e]; [by apply scan_sat_ret|apply sat_stop].
    + apply sat_aside; [by eexists|]. destruct stale.
      * apply scan_sat_ret. intros F fr n (Hs & Hj & m & Hm & Hi).
        destruct (judged_known n v Hj Hknows) as (row & m' & Hrow & He & Hm' & Hc); [done|].
        apply (settling_next _ _ _ _ _ F F fr n n); [done|done|done|done|].
        apply (Hnone _ _ row); [by rewrite (Hsame _ _ _ Hs)|]. fold src in Hrow. rewrite Hrow. by apply (fate_stale _ _ _ _ _ _ _ m' m _ text).
      * apply (scan_sat_bind _ _ (fun _ : Z => settling dn (pre ++ [v]) (bs ++ [None]))); [|intros _; by apply scan_sat_ret]. apply sat_transaction. intros c n (Hs & _ & m & Hm & Hi).
        destruct (error_files c src text generation) as (Hf & version & Hfiles). rewrite Hf, Hfiles.
        apply (settling_next _ _ _ _ _ (c_files c) _ _ n); [done|lia|done| |].
        -- intros s Hne. by rewrite lookup_insert_ne.
        -- eapply Hnone; [apply lookup_insert_eq|]. rewrite (Hsame _ _ _ Hs). apply (fate_later lo n); [lia|]. by apply (fate_failed _ _ _ _ _ _ _ m).
Qed.

Definition baselines_of (bs : list (option (string * string))) : list (string * string) := omap (fun b => b) bs.
Lemma baselines_elem bs b : b ∈ baselines_of bs <-> exists i, bs !! i = Some (Some b).
Proof.
  unfold baselines_of. rewrite list_elem_of_omap. split.
  - intros (o & Ho & ->). by apply list_elem_of_lookup in Ho.
  - intros [i Hi]. exists (Some b). split; [|done]. by eapply list_elem_of_lookup_2.
Qed.
Lemma pending_source n F v rel rev : pending n F v (Some (rel, rev)) -> source_of (task_of v) = (tk, rel).
Proof. intros (Hrel & _). rewrite Hrel. by destruct v as [[p r] a]. Qed.
Lemma baselines_nodup n F vs bs :
  Forall2 (pending n F) vs bs -> NoDup (map (fun v => source_of (task_of v)) vs) -> NoDup (map fst (baselines_of bs)).
Proof.
  induction 1 as [|v b vs bs Hv Hvs IH]; intros Hnd; [constructor|]. apply NoDup_cons in Hnd as [Hn Hnd].
  destruct b as [[rel rev]|]; cbn; [|by apply IH]. apply NoDup_cons. split; [|by apply IH].
  intros Hin. apply Hn. apply list_elem_of_fmap in Hin as ([rel' rev'] & Heq & Hin). cbn in Heq. subst rel'.
  apply baselines_elem in Hin as [i Hi]. destruct (Forall2_lookup_r _ _ _ _ _ Hvs Hi) as (w & Hw & Hp).
  rewrite (pending_source _ _ _ _ _ Hv), <- (pending_source _ _ _ _ _ Hp). apply list_elem_of_fmap. exists w. split; [done|].
  by eapply list_elem_of_lookup_2.
Qed.
(** The baselines of a batch are learnt last. *)
Lemma settling_learnt dn vs bs c n n' :
  settling dn vs bs (c_files c) (frame c) n -> (n <= n')%nat ->
  NoDup (map source_of dn ++ map (fun v => source_of (task_of v)) vs) ->
  let c' := baseline_sidecars c tk (baselines_of bs) in
  progress (dn ++ map task_of vs) (c_files c') (frame c') n'.
Proof.
  intros (Hlo & Hfr & Hout & Hdn & Hvs) Hn Hnd. apply NoDup_app in Hnd as (_ & Hdisj & Hnd).
  destruct (baseline_rows c tk (baselines_of bs)) as (Hf & Hlearnt & Hsame); [by eapply baselines_nodup|].
  assert (forall s, (exists i rev, bs !! i = Some (Some (snd s, rev)) /\ fst s = tk) \/ c_files (baseline_sidecars c tk (baselines_of bs)) !! s = c_files c !! s)
    as Hcase.
  { intros [r p]. destruct (decide (r = tk /\ p ∈ map fst (baselines_of bs))) as [[-> Hp]|Hp]; [left|right; by apply Hsame].
    apply list_elem_of_fmap in Hp as ([q rev] & -> & Hin). apply baselines_elem in Hin as [i Hi]. by exists i, rev. }
  assert (forall s, s ∉ map (fun v => source_of (task_of v)) vs -> c_files (baseline_sidecars c tk (baselines_of bs)) !! s = c_files c !! s) as Hoff.
  { intros s Hs. destruct (Hcase s) as [(i & rev & Hi & Htk)|H]; [|done]. exfalso. apply Hs.
    destruct (Forall2_lookup_r _ _ _ _ _ Hvs Hi) as (w & Hw & Hp). apply list_elem_of_fmap. exists w.
    split; [|by eapply list_elem_of_lookup_2]. rewrite (pending_source _ _ _ _ _ Hp), <- Htk. by destruct s. }
  split_and!; [lia|by rewrite Hf| |].
  - intros s Hs. rewrite map_app, map_map in Hs. rewrite Hoff; [by apply Hout|]. by apply not_elem_of_app in Hs as [_ Hs].
  - intros t [Ht|Ht]%elem_of_app.
    + apply (settled_later n _ (c_files c)); [done| |by apply Hdn]. apply Hoff. intros H. eapply Hdisj; [|exact H].
      apply list_elem_of_fmap. by exists t.
    + apply list_elem_of_fmap in Ht as (v & -> & [i Hv]%list_elem_of_lookup).
      destruct (Forall2_lookup_l _ _ _ _ _ Hvs Hv) as ([[rel rev]|] & Hb & Hp).
      * pose proof (pending_source _ _ _ _ _ Hp) as Hsrc. destruct Hp as (_ & HF & row & m & Hrow & He & Hm & Hc).
        exists (rebased row rev). split.
        -- change (c_files (baseline_sidecars c tk (baselines_of bs)) !! source_of (task_of v) = Some (rebased row rev)).
           rewrite Hsrc, (Hlearnt rel rev) by (apply baselines_elem; by exists i). by rewrite <- Hsrc, HF, Hrow.
        -- change (fate lo n' (deep_for (fst (fst v))) music generation root (fst (fst v)) (F0 !! source_of (task_of v)) (rebased row rev)).
           rewrite Hrow. apply (fate_later lo n); [lia|]. by apply (fate_baseline _ _ _ _ _ _ _ m).
      * apply (settled_later n _ (c_files c)); [done| |done].
        destruct (Hcase (source_of (task_of v))) as [(j & rev & Hj & Htk)|H]; [exfalso|done].
        destruct (Forall2_lookup_r _ _ _ _ _ Hvs Hj) as (w & Hw & Hpw). pose proof (pending_source _ _ _ _ _ Hpw) as Hsrc.
        assert (i = j) as ->; [|congruence]. eapply (NoDup_lookup _ _ _ (source_of (task_of v)) Hnd).
        -- by rewrite list_lookup_fmap, Hv.
        -- rewrite list_lookup_fmap, Hw. cbn [fmap option_fmap option_map]. rewrite Hsrc, <- Htk. by destruct (source_of (task_of v)).
Qed.

Lemma judged_later n n' v : (n <= n')%nat -> judged n v -> judged n' v.
Proof. intros Hn. destruct v as [[p rel] a]. intros (Hr & m & Hm & Ha). split; [done|]. exists m. split; [lia|done]. Qed.
Lemma settling_plain dn vs bs F fr n :
  baselines_of bs = [] -> settling dn vs bs F fr n -> NoDup (map source_of dn ++ map (fun v => source_of (task_of v)) vs) ->
  progress (dn ++ map task_of vs) F fr n.
Proof.
  intros Hb Hs Hnd. destruct fr as [[scanning g] complete].
  pose proof (settling_learnt dn vs bs (mkCatalog "" "" 0 0 g scanning 0 F ∅ ∅ ∅ 0 complete) n n Hs) as H.
  rewrite Hb in H. by apply H.
Qed.
Definition tasks_of (ps : list Path) : list Task := map (fun p => (tk, root, p)) ps.
Lemma sat_batch dn batch :
  NoDup (map source_of (dn ++ tasks_of batch)) -> (forall p, p ∈ batch -> knows (tk, relative root p)) ->
  sat (progress dn) (scan_batch disk_at halted others known changed deep music generation tk root batch)
    (fun _ => progress (dn ++ tasks_of batch)).
Proof.
  intros Hnd Hk. unfold scan_batch. eapply scan_sat_bind; [apply sat_verdicts|]. intros vs.
  apply (scan_sat_pure _ (map (fun v => fst (fst v)) vs = batch)); [by intros F fr n (_ & H & _)|]. intros Hvs.
  assert (tasks_of batch = map task_of vs) as Htasks by (by rewrite <- Hvs; unfold tasks_of; rewrite map_map).
  rewrite Htasks, map_app, map_map in Hnd. rewrite Htasks.
  apply (scan_sat_bind _ _ (fun bs => settling dn vs bs)).
  { eapply scan_sat_weaken; [apply (sat_collect _ vs (fun pre bs F fr n => settling dn pre bs F fr n /\ Forall (judged n) vs))| |].
    - intros pre v post bs Hl. apply (scan_sat_pre _ (fun F fr n => (settling dn pre bs F fr n /\ judged n v) /\ Forall (judged n) vs)).
      2: { intros F fr n [Hs Hj]. split; [|done]. split; [done|]. rewrite Forall_forall in Hj. apply Hj. rewrite Hl. apply elem_of_app. right. left. }
      apply (sat_frame (fun F fr n => settling dn pre bs F fr n /\ judged n v) (fun n => Forall (judged n) vs)); [apply later_settle| |].
      + intros n n' Hn Hj. eapply Forall_impl; [exact Hj|]. intros w. by apply judged_later.
      + apply sat_settle.
        * rewrite Hl, map_app, app_assoc, NoDup_app in Hnd. destruct Hnd as (_ & Hdisj & _). intros H. apply (Hdisj _ H). left.
        * apply Hk. rewrite <- Hvs, Hl, map_app. apply elem_of_app. right. left.
    - intros F fr n ((Hlo & Hfr & Hout & Hin) & _ & Hj). split; [|done]. split_and!; [done|done| |done|constructor].
      intros s Hs. apply Hout. by rewrite app_nil_r in Hs.
    - by intros bs F fr n [H _]. }
  intros bs. apply (scan_sat_bind _ _ (fun _ : unit => progress (dn ++ map task_of vs))).
  - fold (baselines_of bs). destruct (baselines_of bs) as [|b l] eqn:Eb.
    + apply scan_sat_ret. intros F fr n Hs. by apply (settling_plain dn vs bs).
    + rewrite <- Eb. apply sat_transaction. intros c n Hs. cbn [fst snd]. apply (settling_learnt _ _ _ _ n); [done|lia|done].
  - intros _ s Hs a s' [= _ <-]. exact Hs.
Qed.
End Batch.

(** Every file of an inventory, in batches. *)
Lemma chunks_fuel_concat {A} fuel k (l : list A) : (length l <= fuel)%nat -> (0 < k)%nat -> mjoin (chunks_fuel fuel k l) = l.
Proof.
  revert l. induction fuel as [|fuel IH]; intros l Hl Hk; [by destruct l; [|cbn in Hl; lia]|].
  destruct l as [|a l]; [done|]. cbn [chunks_fuel mjoin list_join]. change (take k (a :: l) ++ mjoin (chunks_fuel fuel k (drop k (a :: l))) = a :: l).
  rewrite IH; [by rewrite take_drop| |done]. rewrite length_drop. cbn in *. lia.
Qed.
Definition inventory_tasks (i : Inventory) : list Task := let '(tk, root, ps) := i in tasks_of tk root ps.
Lemma sat_inventory dn tk root ps :
  NoDup (map source_of (dn ++ tasks_of tk root ps)) -> (forall p, p ∈ ps -> knows (tk, relative root p)) ->
  sat (progress dn) (each (scan_batch disk_at halted others known changed deep music generation tk root) (chunks BATCH_SIZE ps))
    (fun _ => progress (dn ++ tasks_of tk root ps)).
Proof.
  intros Hnd Hk. assert (mjoin (chunks BATCH_SIZE ps) = ps) as Hjoin by (apply chunks_fuel_concat; [done|unfold BATCH_SIZE; lia]).
  revert Hjoin. generalize (chunks BATCH_SIZE ps) as bs. intros bs Hjoin.
  eapply scan_sat_weaken; [apply (sat_each _ bs (fun pre => progress (dn ++ tasks_of tk root (mjoin pre))))| |].
  - intros pre b post Hl.
    assert (ps = mjoin pre ++ b ++ mjoin post) as Hps by (rewrite <- Hjoin, Hl, join_app; done).
    eapply scan_sat_weaken; [apply (sat_batch tk root (dn ++ tasks_of tk root (mjoin pre)) b)|done|].
    + revert Hnd. rewrite Hps. unfold tasks_of. rewrite !map_app, !app_assoc. intros Hnd. apply NoDup_app in Hnd as (Hnd & _).
      exact Hnd.
    + intros p Hp. apply Hk. rewrite Hps. set_solver.
    + intros u F fr n. unfold tasks_of. rewrite join_app, map_app, app_assoc. cbn [mjoin list_join]. by rewrite app_nil_r.
  - intros F fr n Hp. by rewrite app_nil_r.
  - intros u F fr n. by rewrite Hjoin.
Qed.
Lemma sat_inventories invs :
  NoDup (map source_of (mjoin (map inventory_tasks invs))) -> (forall t, t ∈ mjoin (map inventory_tasks invs) -> knows (source_of t)) ->
  sat (progress []) (each (fun '(root_token, root, paths) =>
        each (scan_batch disk_at halted others known changed deep music generation root_token root) (chunks BATCH_SIZE paths)) invs)
    (fun _ => progress (mjoin (map inventory_tasks invs))).
Proof.
  intros Hnd Hk. eapply scan_sat_weaken; [apply (sat_each _ invs (fun pre => progress (mjoin (map inventory_tasks pre))))|done|done].
  intros pre [[tk root] ps] post Hl.
  assert (mjoin (map inventory_tasks invs) = mjoin (map inventory_tasks pre) ++ tasks_of tk root ps ++ mjoin (map inventory_tasks post)) as E
    by (rewrite Hl, map_app, join_app; done).
  eapply scan_sat_weaken; [apply (sat_inventory (mjoin (map inventory_tasks pre)) tk root ps)|done|].
  - rewrite E, !map_app, app_assoc in Hnd. apply NoDup_app in Hnd as (Hnd & _). by rewrite map_app.
  - intros p Hp. apply (Hk (tk, root, p)). rewrite E. apply elem_of_app. right. apply elem_of_app. left. apply list_elem_of_fmap. by exists p.
  - intros u F fr n. rewrite map_app, join_app. cbn [map mjoin list_join inventory_tasks]. by rewrite app_nil_r.
Qed.
End Batches.

(** ** The walks of the roots *)

(** Every name a walk finds is told from the others by its text. *)
Definition distinct_names : Prop :=
  forall n audio root, match walk (disk_at n) audio root with Ok ps => NoDup (map (relative root) ps) | Err _ => True end.

Section Roots.
Context (F1 : gmap Source FileRow) (fr1 : bool * Z * bool) (lo : nat) (music : bool).
Definition names_of (i : Inventory) : list string := let '(_, root, ps) := i in map (relative root) ps.
Definition token_of (i : Inventory) : string := fst (fst i).
Definition root_seen (n : nat) (r : Scheduler.CollectionRoot) (o : option Inventory) : Prop :=
  exists m, (lo <= m < n)%nat
    /\ match walk (disk_at m) music (components (path r)) with
       | Ok ps => o = Some (token r, components (path r), ps)
       | Err _ => o = None
       end.
(** A row survives where no walk of its root misses it. *)
Definition survives (os : list (option Inventory)) (s : Source) : Prop :=
  forall i, Some i ∈ os -> token_of i = fst s -> snd s ∈ names_of i.
Definition walked (pre : list Scheduler.CollectionRoot) (os : list (option Inventory)) : Assertion := fun F fr n =>
  (lo <= n)%nat /\ fr = fr1 /\ (forall s row, F !! s = Some row <-> F1 !! s = Some row /\ survives os s) /\ Forall2 (root_seen n) pre os.
Lemma root_seen_later n n' r o : (n <= n')%nat -> root_seen n r o -> root_seen n' r o.
Proof. intros Hn (m & Hm & Hw). exists m. split; [lia|done]. Qed.
Lemma survives_app os o s : survives (os ++ [o]) s <-> survives os s /\ (forall i, o = Some i -> token_of i = fst s -> snd s ∈ names_of i).
Proof.
  unfold survives. split.
  - intros H. split; intros i Hi; apply H; apply elem_of_app; [by left|right; rewrite Hi; left].
  - intros [H1 H2] i [Hi|Hi]%elem_of_app; [by apply H1|]. apply list_elem_of_singleton in Hi. by apply H2.
Qed.
Lemma sat_root pre os r :
  sat (walked pre os) (scan_root disk_at halted others music r) (fun o => walked (pre ++ [r]) (os ++ [o])).
Proof.
  unfold scan_root. cbv zeta. eapply scan_sat_bind; [apply (sat_look _ _ (fun w F fr n => walked pre os F fr n
      /\ exists m, (lo <= m < n)%nat /\ walk (disk_at m) music (components (path r)) = w))|].
  { intros F fr n (Hlo & Hfr & Hrows & Hseen). split.
    - split_and!; [unfold LOOKS; lia|done|done|]. eapply Forall2_impl; [exact Hseen|]. intros x o. apply root_seen_later. unfold LOOKS. lia.
    - exists n. split; [unfold LOOKS; lia|]. by rewrite Nat.add_0_r. }
  intros [ps|e].
  - apply (scan_sat_bind _ _ (fun _ : unit => walked (pre ++ [r]) (os ++ [Some (token r, components (path r), ps)]))); [|intros u; by apply scan_sat_ret].
    apply sat_transaction. intros c n ((Hlo & Hfr & Hrows & Hseen) & m & Hm & Hw). cbn [fst snd].
    destruct (reconcile_rows c (token r) (map (relative (components (path r))) ps)) as [Hf Hr]. split_and!; [lia|by rewrite Hf| |].
    + intros s row. rewrite Hr, survives_app. cbn. destruct (decide (token r = fst s)) as [He|He].
      * rewrite bool_decide_eq_true_2 by done. cbn [andb]. destruct (str_mem (snd s) _) eqn:Hmem; cbn [negb].
        -- rewrite Hrows. apply str_mem_spec in Hmem. split; [|tauto]. intros [H1 H2]. split_and!; [done|done|]. by intros i [= <-] _.
        -- split; [done|]. intros (_ & _ & H). specialize (H _ eq_refl He). cbn in H. apply str_mem_spec in H. by rewrite H in Hmem.
      * rewrite bool_decide_eq_false_2 by done. cbn [andb]. rewrite Hrows. split; [|tauto].
        intros [H1 H2]. split_and!; [done|done|]. by intros i [= <-] ?.
    + apply Forall2_app.
      * eapply Forall2_impl; [exact Hseen|]. intros x o. apply root_seen_later. lia.
      * constructor; [|constructor]. exists m. split; [lia|]. by rewrite Hw.
  - apply sat_aside; [by eexists|]. apply scan_sat_ret. intros F fr n ((Hlo & Hfr & Hrows & Hseen) & m & Hm & Hw). split_and!; [done|done| |].
    + intros s row. rewrite Hrows, survives_app. split; [|tauto]. intros [H1 H2]. by split_and!.
    + apply Forall2_app; [done|]. constructor; [|constructor]. exists m. split; [done|]. by rewrite Hw.
Qed.
Lemma sat_roots roots :
  sat (walked [] []) (collect (scan_root disk_at halted others music) roots) (fun os => walked roots os).
Proof. apply (sat_collect _ roots walked). intros pre r post os _. apply sat_root. Qed.
End Roots.

(** ** The whole scan *)

Notation task_list os := (mjoin (map inventory_tasks (omap (fun i : option Inventory => i) os))).
Lemma task_elem (os : list (option Inventory)) (t : Task) :
  t ∈ task_list os <-> exists tk root ps p, Some (tk, root, ps) ∈ os /\ p ∈ ps /\ t = (tk, root, p).
Proof.
  split.
  - intros (ts & Ht & (i & -> & Hi)%list_elem_of_fmap)%list_elem_of_join.
    apply list_elem_of_omap in Hi as (o & Ho & ->). destruct i as [[tk root] ps].
    apply list_elem_of_fmap in Ht as (p & -> & Hp). by exists tk, root, ps, p.
  - intros (tk & root & ps & p & Ho & Hp & ->). apply list_elem_of_join. exists (tasks_of tk root ps). split.
    + apply list_elem_of_fmap. by exists p.
    + apply list_elem_of_fmap. exists (tk, root, ps). split; [done|]. apply list_elem_of_omap. by exists (Some (tk, root, ps)).
Qed.
Lemma seen_tokens lo music n roots os : Forall2 (root_seen lo music n) roots os -> forall o, Some o ∈ os -> exists r, r ∈ roots /\ token r = token_of o.
Proof.
  intros Hseen o [i Hi]%list_elem_of_lookup. destruct (Forall2_lookup_r _ _ _ _ _ Hseen Hi) as (r & Hr & m & Hm & Hw).
  exists r. split; [by eapply list_elem_of_lookup_2|]. destruct (walk _ _ _); [|done]. by injection Hw as ->.
Qed.
Section Whole.
Context (F1 : gmap Source FileRow) (lo : nat) (music : bool) (roots : list Scheduler.CollectionRoot).
Context (tokens : NoDup (map token roots)) (names : distinct_names).

Lemma seen_at n os j r o i :
  Forall2 (root_seen lo music n) roots os -> roots !! j = Some r -> os !! j = Some o -> Some i ∈ os -> token_of i = token r -> o = Some i.
Proof.
  intros Hseen Hj Ho [j' Hi]%list_elem_of_lookup Htk.
  destruct (Forall2_lookup_r _ _ _ _ _ Hseen Hi) as (r' & Hr' & m' & _ & Hw').
  destruct (walk (disk_at m') _ _); [|done]. injection Hw' as ->. cbn in Htk.
  assert (j = j') as <-; [|congruence].
  eapply (NoDup_lookup _ _ _ (token r) tokens); rewrite list_lookup_fmap; [by rewrite Hj|rewrite Hr'; cbn; by rewrite Htk].
Qed.
Lemma seen_unique n os o o' :
  Forall2 (root_seen lo music n) roots os -> Some o ∈ os -> Some o' ∈ os -> token_of o = token_of o' -> o = o'.
Proof.
  intros Hseen [i Hi]%list_elem_of_lookup [j Hj]%list_elem_of_lookup Htk.
  destruct (Forall2_lookup_r _ _ _ _ _ Hseen Hi) as (r & Hr & m & _ & Hw).
  destruct (Forall2_lookup_r _ _ _ _ _ Hseen Hj) as (r' & Hr' & m' & _ & Hw').
  destruct (walk (disk_at m) _ _); [|done]. destruct (walk (disk_at m') _ _); [|done]. injection Hw as ->. injection Hw' as ->. cbn in Htk.
  assert (i = j) as ->. { eapply (NoDup_lookup _ _ _ (token r) tokens); rewrite list_lookup_fmap; [by rewrite Hr|by rewrite Hr', Htk]. }
  congruence.
Qed.
Lemma tasks_nodup n os : Forall2 (root_seen lo music n) roots os -> NoDup (map source_of (task_list os)).
Proof.
  intros Hseen. revert tokens. induction Hseen as [|r o rs os (m & Hm & Hw) Hseen IH]; intros Htk; [constructor|].
  cbn in Htk. apply NoDup_cons in Htk as [Hr Htk]. specialize (IH Htk).
  pose proof (names m music (components (path r))) as Hnames. destruct (walk _ _ _) as [ps|e]; subst o; [|done].
  change (NoDup (map source_of (tasks_of (token r) (components (path r)) ps ++ task_list os))). rewrite map_app. apply NoDup_app. split_and!.
  - unfold tasks_of. rewrite map_map.
    change (NoDup (map (fun p => (token r, relative (components (path r)) p)) ps)).
    rewrite <- (map_map (relative (components (path r))) (pair (token r))). apply NoDup_fmap_2; [|done]. by intros x y [= ->].
  - intros s Hs Ho. apply list_elem_of_fmap in Hs as (t & -> & Ht). apply list_elem_of_fmap in Ht as (p & -> & _).
    apply list_elem_of_fmap in Ho as (t & Heq & Ht). apply task_elem in Ht as (tk & root & qs & q & Ho & _ & ->).
    destruct (seen_tokens _ _ _ _ _ Hseen _ Ho) as (r' & Hr' & Htk'). apply Hr. injection Heq as Heq _. cbn in Htk'.
    rewrite Heq, <- Htk'. by apply list_elem_of_fmap_2.
  - done.
Qed.
(** What a scan that finishes leaves of the rows [F1] it began with. *)
Definition listed (changed : gset Path) (deep : bool) (generation : Z) (n : nat) (F : gmap Source FileRow) (r : Scheduler.CollectionRoot) : Prop :=
  let root := components (path r) in
  exists m, (lo <= m < n)%nat
    /\ match walk (disk_at m) music root with
       | Ok ps =>
           (forall p, p ∈ ps -> exists row, F !! (token r, relative root p) = Some row
              /\ fate lo n (deep_for changed deep p) music generation root p (F1 !! (token r, relative root p)) row)
           /\ (forall q, q ∉ map (relative root) ps -> F !! (token r, q) = None)
       | Err _ => forall q, F !! (token r, q) = F1 !! (token r, q)
       end.
Lemma task_row os fr F0 n t :
  walked F1 fr lo music roots os F0 fr n -> t ∈ task_list os -> F0 !! source_of t = F1 !! source_of t.
Proof.
  intros (_ & _ & Hrows & Hseen) (tk & root & ps & p & Ho & Hp & ->)%task_elem. cbn [source_of].
  destruct (F1 !! _) as [row1|] eqn:H1.
  - apply Hrows. split; [done|]. intros i Hi Htk. cbn in Htk.
    rewrite <- (seen_unique _ _ (tk, root, ps) i Hseen Ho Hi) by done. cbn. by apply list_elem_of_fmap_2.
  - destruct (F0 !! _) as [row0|] eqn:H0; [|done]. apply Hrows in H0 as [H0 _]. congruence.
Qed.
Lemma listed_at_end os fr fr' changed deep generation F0 F n n1 :
  walked F1 fr lo music roots os F0 fr n1 -> progress F0 fr lo changed deep music generation (task_list os) F fr' n -> (n1 <= n)%nat ->
  (forall r, r ∈ roots -> listed changed deep generation n F r) /\ (forall s, fst s ∉ map token roots -> F !! s = F1 !! s).
Proof.
  intros Hwalked (_ & _ & Hout & Hin) Hn. pose proof Hwalked as (_ & _ & Hrows & Hseen). split.
  - intros r Hr. pose proof Hr as [j Hj]%list_elem_of_lookup. destruct (Forall2_lookup_l _ _ _ _ _ Hseen Hj) as (o & Ho & m & Hm & Hw).
    pose proof (fun i => seen_at n1 os j r o i Hseen Hj Ho) as Hat.
  apply list_elem_of_lookup_2 in Ho. exists m. split; [lia|]. destruct (walk (disk_at m) music (components (path r))) as [ps|e] eqn:E; subst o.
    + assert (forall q, (token r, q) ∈ map source_of (task_list os) <-> q ∈ map (relative (components (path r))) ps) as Htasks.
      { intros q. rewrite !list_elem_of_fmap. split.
        - intros (t & Heq & Ht). apply task_elem in Ht as (tk & root & qs & p & Ho' & Hp & ->). injection Heq as Htk ->.
          pose proof (seen_unique _ _ _ _ Hseen Ho' Ho (eq_sym Htk)) as Hi. injection Hi as -> -> ->. by exists p.
        - intros (p & -> & Hp). exists (token r, components (path r), p). split; [done|]. apply task_elem. by eexists _, _, _, _. }
      split.
      * intros p Hp. destruct (Hin (token r, components (path r), p)) as (row & Hrow & Hfate).
        { apply task_elem. by eexists _, _, _, _. }
        exists row. split; [exact Hrow|]. cbn [source_of] in Hfate.
        assert (F0 !! (token r, relative (components (path r)) p) = F1 !! (token r, relative (components (path r)) p)) as <-; [|done].
        apply (task_row os fr F0 n1 (token r, components (path r), p)); [done|]. apply task_elem. by eexists _, _, _, _.
      * intros q Hq. rewrite Hout by (by rewrite Htasks). destruct (F0 !! _) as [row0|] eqn:H0; [|done].
        apply Hrows in H0 as [_ H0]. exfalso. apply Hq. exact (H0 _ Ho eq_refl).
    + intros q. rewrite Hout.
      * destruct (F1 !! _) as [row1|] eqn:H1.
        -- apply Hrows. split; [done|]. intros i Hi Htk. by specialize (Hat i Hi Htk).
        -- destruct (F0 !! _) as [row0|] eqn:H0; [|done]. apply Hrows in H0 as [H0 _]. congruence.
      * intros (t & Heq & Ht)%list_elem_of_fmap. apply task_elem in Ht as (tk & root & qs & p & Hi & _ & ->). injection Heq as Htk _.
        by specialize (Hat (tk, root, qs) Hi (eq_sym Htk)).
  - intros s Hs. rewrite Hout.
    + destruct (F1 !! s) as [row1|] eqn:H1.
      * apply Hrows. split; [done|]. intros i Hi Htk. exfalso. apply Hs. rewrite <- Htk.
        destruct (seen_tokens _ _ _ _ _ Hseen _ Hi) as (r & Hr & <-). by apply list_elem_of_fmap_2.
      * destruct (F0 !! s) as [row0|] eqn:H0; [|done]. apply Hrows in H0 as [H0 _]. congruence.
    + intros (t & -> & Ht)%list_elem_of_fmap. apply Hs. apply task_elem in Ht as (tk & root & qs & q & Ho & _ & ->). cbn.
      destruct (seen_tokens _ _ _ _ _ Hseen _ Ho) as (r & Hr & Htk). cbn in Htk. rewrite <- Htk. by apply list_elem_of_fmap_2.
Qed.
End Whole.

Lemma sat_fix {A} (P : Assertion) (m : S_M A) Q :
  (forall F0 fr0 n0, P F0 fr0 n0 -> sat (fun F fr n => F = F0 /\ fr = fr0 /\ n = n0) m Q) -> sat P m Q.
Proof. intros H s Hs. by apply (H _ _ _ Hs). Qed.
(** Rows of earlier scans, and what a scan keeps of that. *)
Definition old_rows (F : gmap Source FileRow) (generation : Z) : Prop := forall s row, F !! s = Some row -> r_seen row <= generation.
Lemma fate_seen lo hi deep music generation root p before row :
  fate lo hi deep music generation root p before row -> (forall b, before = Some b -> r_seen b <= generation) -> r_seen row <= generation.
Proof.
  assert (forall b f m pr v, r_seen (upserted b f generation m pr v) = generation) as Hup
    by (intros [b|] f m pr v; cbn; [by destruct (_ && _)|done]).
  assert (forall b t v, r_seen (errored b t generation v) = generation) as Herr by (intros [b|] t v; cbn; [by destruct (_ =s _)|done]).
  destruct 1 as [n row|n row rev|n m row t|n row r s v|m f s b v|m t b v]; intros Hb; rewrite ?Hup, ?Herr; [by apply Hb| |by apply Hb|lia..].
  unfold rebased. destruct (_ && _); cbn; by apply Hb.
Qed.
Definition scan_result (F1 : gmap Source FileRow) (lo : nat) (music : bool) (roots : list Scheduler.CollectionRoot) (changed : gset Path)
    (deep : bool) (generation : Z) : Assertion := fun F fr n =>
  fst fr = (false, generation) /\ (forall r, r ∈ roots -> listed F1 lo music changed deep generation n F r)
  /\ (old_rows F1 (generation - 1) -> (forall s, fst s ∉ map token roots -> F !! s = None) /\ old_rows F generation).
Lemma scan_sat cfg changed deep F1 g lo :
  let roots := resolved_roots digest (cf_roots cfg) in
  let music := cf_media_type cfg =s "music" in
  NoDup (map token roots) -> distinct_names ->
  sat (fun F fr n => F = F1 /\ snd (fst fr) = g /\ n = lo) (scan_local_collection disk_at halted others digest cfg changed deep)
    (fun _ => scan_result F1 lo music roots changed deep (g + 1)).
Proof.
  intros roots music Htokens Hnames. unfold scan_local_collection. fold roots. fold music.
  apply (scan_sat_bind _ _ (fun gen F fr n => gen = g + 1 /\ F = F1 /\ fst fr = (true, g + 1) /\ (lo <= n)%nat)).
  { apply sat_transaction. intros c n (HF & Hg & ->). cbn in *. subst g. split_and!; [done|done|done|lia]. }
  intros gen. apply (scan_sat_pure _ (gen = g + 1)); [by intros F fr n [H _]|]. intros ->. apply sat_aside; [by eexists|].
  apply (scan_sat_bind _ _ (fun kn F fr n => (forall s, kn !! s = row ← F1 !! s; then_some (r_error row =s "") (known_of row))
           /\ F = F1 /\ fst fr = (true, g + 1) /\ (lo <= n)%nat)).
  { apply sat_transaction. intros c n (_ & HF & Hfr & Hn). cbn [fst snd]. split_and!; [|done|done|lia]. intros s. by rewrite known_lookup, HF. }
  intros kn. apply (scan_sat_pure _ (forall s, kn !! s = row ← F1 !! s; then_some (r_error row =s "") (known_of row))); [by intros F fr n [H _]|].
  intros Hkn. cbv zeta. apply sat_fix. intros F0 fr1 n0 (_ & -> & Hfr1 & Hn0).
  apply (scan_sat_bind _ _ (fun os => walked F1 fr1 lo music roots os)).
  { eapply scan_sat_pre; [apply sat_roots|]. intros F fr n (-> & -> & ->). split_and!; [done|done| |constructor].
    intros s row. split; [|by intros [? _]]. intros H. split; [done|]. by intros i Hi%not_elem_of_nil. }
  intros os. apply sat_fix. intros F2 fr2 n2 Hw. pose proof Hw as (Hlo & -> & _ & Hseen).
  apply (scan_sat_bind _ _ (fun _ => progress F2 fr1 n2 changed deep music (g + 1) (task_list os))).
  { eapply scan_sat_pre; [apply sat_inventories|].
    - by eapply tasks_nodup.
    - intros t Ht. unfold knows. rewrite Hkn. by rewrite (task_row _ _ _ _ Htokens _ _ _ _ _ Hw Ht).
    - intros F fr n (-> & -> & ->). split_and!; [done|done|done|]. by intros t ?%not_elem_of_nil. }
  intros u. apply sat_aside; [by eexists|]. apply sat_transaction. intros c n Hp.
  assert (progress F2 fr1 lo changed deep music (g + 1) (task_list os) (c_files c) (frame c) n /\ (n2 <= n)%nat) as [Hp' Hn].
  { destruct Hp as (Hn & Hfr & Hout & Hin). split; [|done]. split_and!; [lia|done|done|]. intros [[tk root] p] Ht.
    destruct (Hin _ Ht) as (row & Hr & Hf). exists row. split; [done|]. eapply fate_sooner; [exact Hlo|done]. }
  destruct (listed_at_end _ _ _ _ Htokens _ _ _ _ _ _ _ _ _ _ Hw Hp' Hn) as [Hl Hout].
  destruct Hp as (_ & Hfr & _).
  destruct (finish_rows c (g + 1) (map token roots)) as ([Hscan Hgen] & _ & Hrows).
  set (c' := snd (finish_scan c (g + 1) (map token roots))) in *. cbn [fst snd].
  assert (forall s, fst s ∈ map token roots -> c_files c' !! s = c_files c !! s) as Hkeep.
  { intros s Hs. rewrite Hrows. destruct (c_files c !! s) as [row|]; [|done]. cbn. apply str_mem_spec in Hs. by rewrite Hs, orb_true_r. }
  assert (forall r, r ∈ roots -> listed F1 lo music changed deep (g + 1) (n + 1) (c_files c') r) as Hlisted.
  { intros r Hr. pose proof (list_elem_of_fmap_2 token _ _ Hr) as Htk. destruct (Hl r Hr) as (m & Hm & H). exists m. split; [lia|].
    destruct (walk _ _ _) as [ps|e].
    - destruct H as [H1 H2]. split.
      + intros p Hp. destruct (H1 p Hp) as (row & Hrow & Hf). exists row. split; [by rewrite Hkeep|]. eapply fate_later; [|exact Hf]. lia.
      + intros q Hq. rewrite Hkeep by done. by apply H2.
    - intros q. rewrite Hkeep by done. apply H. }
  split; [|split; [exact Hlisted|]]; [|intros Hold; split].
  - unfold frame. cbn. rewrite Hscan, Hgen. f_equal. rewrite Hfr1 in Hfr || idtac. by rewrite <- Hfr in Hfr1; injection Hfr1.
  - intros s Hs. rewrite Hrows, Hout by done. destruct (F1 !! s) as [row|] eqn:H1; [|done]. cbn. apply Hold in H1.
    rewrite (proj2 (Z.eqb_neq _ _)) by lia. destruct (str_mem _ _) eqn:E; [by apply str_mem_spec in E|done].
  - intros s row Hs. destruct (decide (fst s ∈ map token roots)) as [Hin|Hin].
    + apply list_elem_of_fmap in Hin as (r & Htk & Hr). destruct (Hlisted r Hr) as (m & Hm & H). destruct s as [tk q]. cbn in Htk. subst tk.
      destruct (walk _ _ _) as [ps|e].
      * destruct H as [H1 H2]. destruct (decide (q ∈ map (relative (components (path r))) ps)) as [Hq|Hq]; [|by rewrite H2 in Hs].
        apply list_elem_of_fmap in Hq as (p & -> & Hp). destruct (H1 p Hp) as (row' & Hrow' & Hf). rewrite Hs in Hrow'. injection Hrow' as <-.
        eapply fate_seen; [exact Hf|]. intros b Hb. apply Hold in Hb. lia.
      * rewrite H in Hs. apply Hold in Hs. lia.
    + exfalso. rewrite Hrows, Hout in Hs by done. destruct (F1 !! s) as [row1|] eqn:H1; [|done]. cbn in Hs. apply Hold in H1.
      rewrite (proj2 (Z.eqb_neq _ _)) in Hs by lia. destruct (str_mem _ _) eqn:E; [by apply str_mem_spec in E|done].
Qed.
End Running.

(** ** What a completed scan leaves *)

Lemma upserted_fields before file generation music probed version :
  let row := upserted before file generation music probed version in
  r_size row = as_i64 (f_size file) /\ r_mtime row = f_mtime file /\ r_streams row = f_streams file /\ r_error row = ""
  /\ (probed = true -> r_reprobe row = false) /\ music <= r_music row
  /\ (forall was, before = Some was -> r_music was <= r_music row /\ (r_reprobe was = false -> r_reprobe row = false)).
Proof.
  destruct before as [was|]; cbn [upserted].
  - destruct (same_bytes was file && (r_streams was =s f_streams file)) eqn:Hs; cbn [andb].
    + apply andb_true_iff in Hs as [Hs Hst]. unfold same_bytes in Hs. rewrite !andb_true_iff, !Z.eqb_eq, !String.eqb_eq in *.
      destruct Hs as (((((He & Hsz) & Hm) & _) & _) & _).
      destruct (negb (r_music was <? music)); cbn; (split_and!; [done|done|done|done|by intros ->|lia|]);
        intros w [= <-]; (split; [lia|by destruct probed]).
    + cbn. split_and!; [done|done|done|done|by intros ->|lia|]. intros w [= <-]. split; [lia|by destruct probed].
  - cbn. split_and!; [done|done|done|done|done|lia|done].
Qed.
Lemma wrap_as_i64 z : wrap 64 (as_i64 z) = wrap 64 z.
Proof.
  unfold as_i64, wrap. destruct (z <? 2 ^ 63); [done|].
  replace (z - 2 ^ 64) with (z + -1 * 2 ^ 64) by lia. by rewrite Z.mod_add.
Qed.
Lemma wrap_wrap z : wrap 64 (wrap 64 z) = wrap 64 z.
Proof. unfold wrap. by rewrite Z.mod_mod. Qed.
Lemma wrap_u64 z : 0 <= z < 2 ^ 64 -> wrap 64 z = z.
Proof. intros. unfold wrap. by rewrite Z.mod_small. Qed.

(** The stat a row agrees with. *)
Definition stated (st : Stat) (row : FileRow) : Prop :=
  wrap 64 (r_size row) = st_len st
  /\ exists t, st_modified st = Ok t /\ r_mtime row = map_or 0 as_secs (since_epoch t).
(** Lengths are [u64]s. *)
Definition sane_stats (d : Disk) : Prop := forall p st, dk_metadata d p = Ok st -> 0 <= st_len st < 2 ^ 64.

Section Results.
Context {U : Unicode} {json : MediaJson} {digests : Digests}.

(** A verdict other than a new inspection looked at the file. *)
Lemma classify_stat (d : nat -> Disk) root p k deep music :
  classify_file d root p (Some k) deep music <> Probe false ->
  deep = false /\ exists st, dk_metadata (d 0%nat) p = Ok st /\ stat_matches st k = true.
Proof.
  unfold classify_file. destruct deep; cbn [orb]; [done|]. destruct (dk_metadata (d 0%nat) p) as [st|e]; cbn [negb]; [|done].
  destruct (stat_matches st k) eqn:E; cbn [negb]; [|done]. intros _. split; [done|]. by exists st.
Qed.
Lemma classify_kept (d : nat -> Disk) root p k deep music a :
  classify_file d root p (Some k) deep music = a -> (forall stale, a <> Probe stale) ->
  deep = false /\ (exists st, dk_metadata (d 0%nat) p = Ok st /\ stat_matches st k = true)
  /\ kf_reprobe k || (music && (kf_music k <? MUSIC_TAG_GENERATION)) = false
  /\ exists previous, media_of_json (kf_streams k) = Some previous
     /\ let info := refresh_sidecars (d 1%nat) root p previous in
        match a with
        | Unchanged => info = previous
        | Baseline revision => sidecar_revision info = Some revision /\ with_revision info None = previous
        | Sidecars r => r = mkFileRecord None (kf_size k) (kf_mtime k) (kf_head k) (kf_tail k) (kf_oshash k) (json_of_media info)
        | Probe _ => False
        end.
Proof.
  intros Ha Hk. assert (a <> Probe false) as Hp by done. rewrite <- Ha in Hp.
  destruct (classify_stat _ _ _ _ _ _ Hp) as (-> & st & Hst & Hm). split; [done|]. split; [by exists st|].
  unfold classify_file in Ha. rewrite Hst, Hm in Ha. cbn [orb negb] in Ha.
  destruct (_ || _); [by destruct (Hk true)|]. split; [done|]. destruct (media_of_json _) as [pr|]; [|by destruct (Hk false)].
  exists pr. split; [done|]. cbv zeta in *. destruct (bool_decide _) eqn:E; [subst a; by apply bool_decide_eq_true in E|].
  destruct (sidecar_revision pr); [by subst a|]. destruct (sidecar_revision (refresh_sidecars _ _ _ _)) as [rev|] eqn:Er; [|by subst a].
  destruct (bool_decide (with_revision _ _ = _)) eqn:E2; subst a; [|done]. by apply bool_decide_eq_true in E2.
Qed.
Lemma stat_matches_row st k row :
  stat_matches st k = true -> wrap 64 (r_size row) = kf_size k -> r_mtime row = kf_mtime k -> stated st row.
Proof.
  unfold stat_matches. intros [Hs Hm]%andb_true_iff Hsz Hmt. apply Z.eqb_eq in Hs. split; [by rewrite Hsz|].
  destruct (st_modified st) as [t|e]; [|done]. exists t. split; [done|]. destruct (since_epoch t) as [u|]; [|done]. cbn in *.
  apply Z.eqb_eq in Hm. by rewrite Hmt.
Qed.
Lemma inspect_stat d root p f :
  inspect d root p = Ok f -> exists st t, dk_metadata (d 0%nat) p = Ok st /\ st_modified st = Ok t
    /\ in_size f = st_len st /\ in_mtime f = map_or 0 as_secs (since_epoch t).
Proof.
  unfold inspect. destruct (dk_metadata (d 0%nat) p) as [st|e]; cbn; [|done]. destruct (st_modified st) as [t|e] eqn:Et; cbn; [|done].
  destruct (identity_hashes _ _ _) as [[[h tl] o]|e]; cbn; [|done]. destruct (dk_discover _ _) as [info|e]; cbn; [|done].
  destruct (measure_keyframes _ _ _) as [i1|e]; cbn; [|done]. destruct (declare_header _ _ _) as [i2|e]; cbn; [|done].
  intros [= <-]. by exists st, t.
Qed.
Section Fates.
Context (disk_at : nat -> Disk).
Lemma fate_stated lo hi deep music generation root p before row :
  (forall n, speaks (disk_at n)) -> (forall n, sane_stats (disk_at n)) ->
  fate disk_at lo hi deep music generation root p before row -> r_error row = "" ->
  exists n st, (lo <= n < hi)%nat /\ dk_metadata (disk_at n) p = Ok st /\ stated st row.
Proof.
  intros Hspeak Hsane Hf He.
  assert (forall n k r, (lo <= n < hi)%nat -> classify_file (seen disk_at n) root p (Some k) deep music <> Probe false ->
            wrap 64 (r_size r) = kf_size k -> r_mtime r = kf_mtime k ->
            exists n st, (lo <= n < hi)%nat /\ dk_metadata (disk_at n) p = Ok st /\ stated st r) as Hknown.
  { intros n k r Hn Hc Hs Hm. destruct (classify_stat _ _ _ _ _ _ Hc) as (_ & st & Hst & Hmatch). exists n, st. split; [done|].
    unfold seen in Hst. rewrite Nat.add_0_r in Hst. split; [done|]. by eapply stat_matches_row. }
  destruct Hf as [n row Hn _ Hc|n row rev Hn _ Hc|n m row t Hn _ Hc Hm _|n row r s v Hn _ Hc|m f s b v Hm Hi|m t b v Hm Hi].
  - apply (Hknown n (known_of row)); [done|by rewrite Hc|done|done].
  - apply (Hknown n (known_of row)); [done|by rewrite Hc| |]; unfold rebased; by destruct (_ && _).
  - apply (Hknown n (known_of row)); [done|by rewrite Hc|done|done].
  - destruct (upserted_fields (Some row) (with_source r s) generation 0 false v) as (Hs & Hm & _).
    assert (f_size r = kf_size (known_of row) /\ f_mtime r = kf_mtime (known_of row)) as [Hfs Hfm].
    { destruct (classify_kept _ _ _ _ _ _ _ Hc) as (_ & _ & _ & pr & _ & Hr); [done|]. by rewrite Hr. }
    apply (Hknown n (known_of row)); [done|by rewrite Hc| |].
    + rewrite Hs. cbn [with_source f_size]. rewrite wrap_as_i64, Hfs. apply wrap_wrap.
    + by rewrite Hm.
  - destruct (upserted_fields b (record_of s f) generation (music_generation music) true v) as (Hs & Hmt & _).
    destruct (inspect_stat _ _ _ _ Hi) as (st & t & Hst & Ht & Hsz & Hm2). unfold seen in Hst. rewrite Nat.add_0_r in Hst.
    exists m, st. split; [done|]. split; [done|]. split.
    + rewrite Hs. cbn [record_of f_size]. rewrite wrap_as_i64, Hsz. apply wrap_u64. by eapply Hsane.
    + exists t. split; [done|]. rewrite Hmt. exact Hm2.
  - exfalso. apply inspect_reported in Hi; [|intros i; apply Hspeak]. destruct b as [b|]; cbn in He; [|done].
    destruct (r_error b =s t) eqn:E; cbn in He; [|done]. apply String.eqb_eq in E. congruence.
Qed.
End Fates.
End Results.

(** ** The claims *)

Section Claims.
Context {U : Unicode} {json : MediaJson} {digests : Digests}.
Context (disk_at : nat -> Disk) (halted : nat -> bool) (others : nat -> Catalog -> Catalog) (digest : string -> string).
Context (cfg : ScanConfig) (changed : gset Path) (deep : bool).
Notation roots := (resolved_roots digest (cf_roots cfg)).
Notation music := (cf_media_type cfg =s "music").
Notation run := (scan_local_collection disk_at halted others digest cfg changed deep).

Lemma scan_run_result s v s' :
  (forall n c, rtc discovery_step c (others n c)) -> NoDup (map token roots) -> distinct_names disk_at ->
  run s = (Done v, s') ->
  scan_result disk_at (c_files (sn_catalog s)) (sn_now s) music roots changed deep (c_scan_generation (sn_catalog s) + 1)
    (c_files (sn_catalog s')) (frame (sn_catalog s')) (sn_now s').
Proof.
  intros Hm Htk Hn Hrun. eapply (scan_sat disk_at halted others digest Hm cfg changed deep _ _ (sn_now s) Htk Hn s); [|exact Hrun].
  by split_and!.
Qed.

(** C5: a scan that completes leaves the catalogue with exactly the disk. Of
    every root that could be walked it lists exactly the files of the walk, none
    for a file that has gone and one for each that is there, readable or not; of
    a root that could not, the rows are those it found; of any other root, none.
    The scan is no longer under way, and its rows are of its generation or
    before, so that the next can tell them. It holds whatever the disk answers,
    differently at each look, and whatever is discovered meanwhile. *)
Theorem scan_lists_disk s v s' :
  (forall n c, rtc discovery_step c (others n c)) -> NoDup (map token roots) -> distinct_names disk_at ->
  old_rows (c_files (sn_catalog s)) (c_scan_generation (sn_catalog s)) -> run s = (Done v, s') ->
  let c' := sn_catalog s' in
  (forall r, r ∈ roots -> exists n, (sn_now s <= n < sn_now s')%nat
     /\ match walk (disk_at n) music (components (path r)) with
        | Ok ps => forall q, is_Some (c_files c' !! (token r, q)) <-> q ∈ map (relative (components (path r))) ps
        | Err _ => forall q, c_files c' !! (token r, q) = c_files (sn_catalog s) !! (token r, q)
        end)
  /\ (forall src, fst src ∉ map token roots -> c_files c' !! src = None)
  /\ c_scanning c' = false /\ old_rows (c_files c') (c_scan_generation c').
Proof.
  intros Hm Htk Hn Hold Hrun. destruct (scan_run_result s v s' Hm Htk Hn Hrun) as (Hfr & Hl & Hrest). cbv zeta.
  destruct Hrest as [Hout Hnew]; [by rewrite Z.add_simpl_r|].
  injection Hfr as Hscan Hgen. split; [|split_and!; [done|done|by rewrite Hgen]].
  intros r Hr. destruct (Hl r Hr) as (n & Hb & H). exists n. split; [done|].
  destruct (walk _ _ _) as [ps|e]; [|done]. destruct H as [H1 H2]. intros q. split.
  - intros Hq. destruct (decide (q ∈ map (relative (components (path r))) ps)) as [|Hno]; [done|]. by rewrite H2 in Hq; [destruct Hq|].
  - intros (p & -> & Hp)%list_elem_of_fmap. destruct (H1 p Hp) as (row & -> & _). by eexists.
Qed.

(** C11: every row of a completed scan that is not an error tells the file as it
    was seen during that scan: at one of its looks the length and the time of
    modification the system gave for a file of that name were those of the row,
    also where the file was taken as unchanged, only its companions were read
    again, or its inspection failed and the last one was kept. Only where the
    walk of its root failed is a row not looked at: it is then the row the scan
    found. The roots have tokens of their own, no two files of a walk have one
    name, a failure has a text and a length is a u64. *)
Theorem rows_current s v s' r q row :
  (forall n c, rtc discovery_step c (others n c)) -> NoDup (map token roots) -> distinct_names disk_at ->
  (forall n, speaks (disk_at n)) -> (forall n, sane_stats (disk_at n)) ->
  run s = (Done v, s') -> r ∈ roots -> c_files (sn_catalog s') !! (token r, q) = Some row -> r_error row = "" ->
  (exists p n st, q = relative (components (path r)) p /\ (sn_now s <= n < sn_now s')%nat
    /\ dk_metadata (disk_at n) p = Ok st /\ stated st row)
  \/ (exists n, (sn_now s <= n < sn_now s')%nat /\ is_ok (walk (disk_at n) music (components (path r))) = false
       /\ c_files (sn_catalog s) !! (token r, q) = Some row).
Proof.
  intros Hm Htk Hn Hspeak Hsane Hrun Hr Hrow He.
  destruct (scan_run_result s v s' Hm Htk Hn Hrun) as (_ & Hl & _).
  destruct (Hl r Hr) as (m & Hb & H). destruct (walk _ _ _) as [ps|e] eqn:Hw; cycle 1.
  { right. exists m. by rewrite Hw, <- H. }
  left. destruct H as [H1 H2].
  destruct (decide (q ∈ map (relative (components (path r))) ps)) as [Hq|Hq]; [|by rewrite H2 in Hrow].
  apply list_elem_of_fmap in Hq as (p & -> & Hp). destruct (H1 p Hp) as (row' & Hrow' & Hf). rewrite Hrow in Hrow'. injection Hrow' as <-.
  destruct (fate_stated disk_at _ _ _ _ _ _ _ _ _ Hspeak Hsane Hf He) as (n & st & Hb' & Hst & Hs). by exists p, n, st.
Qed.

(** C6: from the disk to the hub. A scan is a run of the catalogue of a reachable
    system, so that whatever its hub and its link did before, once the replica
    is at the version the scan left it lists, for every root that could be
    walked, exactly the files of the walk. *)
Theorem hub_lists_disk encoded_len media_type hub_id name epoch s v s' h l a b y hub :
  (forall n c, rtc discovery_step c (others n c)) -> (forall x, nul_free (digest x)) -> NoDup (map token roots) ->
  distinct_names disk_at -> (forall n, speaks (disk_at n)) ->
  reachable encoded_len media_type hub_id name epoch (mkSystem (sn_catalog s) h l a b) -> run s = (Done v, s') ->
  rtc (system_step encoded_len media_type hub_id) (mkSystem (sn_catalog s') h l a b) y ->
  c_files (y_catalog y) = c_files (sn_catalog s') ->
  y_hub y = Some hub -> hb_epoch hub = c_epoch (y_catalog y) -> hb_active hub = false -> hb_version hub = c_current (y_catalog y) ->
  forall r, r ∈ roots -> exists n, (sn_now s <= n < sn_now s')%nat
    /\ forall ps, walk (disk_at n) music (components (path r)) = Ok ps ->
       forall q, is_Some (hb_files hub !! (token r, q)) <-> q ∈ map (relative (components (path r))) ps.
Proof.
  intros Hm Hdig Htk Hn Hspeak Hy Hrun Hsys Hfiles Hhub He Ha Hv r Hr.
  assert (reachable encoded_len media_type hub_id name epoch y) as Hy'.
  { assert (rtc catalog_step (sn_catalog s) (sn_catalog s')) as Hcat.
    { pose proof (steps_scan disk_at halted others digest Hm Hspeak Hdig cfg changed deep s) as H. by rewrite Hrun in H. }
    assert (reachable encoded_len media_type hub_id name epoch (mkSystem (sn_catalog s') h l a b)) as Hmid.
    { clear -Hy Hcat. induction Hcat as [c|c c1 c2 Hs _ IH]; [done|]. apply IH. eapply reach_step; [exact Hy|]. by constructor. }
    clear -Hmid Hsys. induction Hsys as [z|z z1 z2 Hs _ IH]; [done|]. apply IH. by eapply reach_step. }
  apply reachable_inv in Hy' as [Hc _ Hok _ _ _]. destruct (ho_replica _ _ (Hok hub Hhub) He Ha) as [_ Hrep]. rewrite Hv in Hrep.
  destruct (scan_run_result s v s' Hm Htk Hn Hrun) as (_ & Hl & _).
  destruct (Hl r Hr) as (n & Hb & H). exists n. split; [done|]. intros ps Hw q. rewrite Hw in H. destruct H as [H1 H2].
  assert (nul_free (token r)) as Hnul by (apply list_elem_of_fmap in Hr as (x & -> & _); by apply root_token_text).
  pose proof (replica_lists _ _ (token r, q) Hc Hnul Hrep) as Hlist. rewrite Hfiles in Hlist. split.
  - intros [hf Hhf]. rewrite Hhf in Hlist. destruct (c_files (sn_catalog s') !! (token r, q)) as [row|] eqn:Hrow; [|done].
    destruct (decide (q ∈ map (relative (components (path r))) ps)) as [|Hno]; [done|]. by rewrite H2 in Hrow.
  - intros (p & -> & Hp)%list_elem_of_fmap. destruct (H1 p Hp) as (row & Hrow & _). rewrite Hrow in Hlist.
    destruct (hb_files hub !! _); [by eexists|done].
Qed.
End Claims.

(** ** A disk that stands still *)

Section Still.
Context {U : Unicode} {json : MediaJson} {digests : Digests}.
Context (D : Disk).
Notation still := (fun _ : nat => D).

Lemma refresh_with d root p info a b c e f g :
  refresh_sidecars d root p (with_companions info a b c e f g) = refresh_sidecars d root p info.
Proof. reflexivity. Qed.
Lemma scan_refresh_idem d root p info : refresh_sidecars d root p (refresh_sidecars d root p info) = refresh_sidecars d root p info.
Proof. unfold refresh_sidecars at 2. cbv zeta. by rewrite !refresh_with. Qed.
Lemma refresh_streams d root p info vs ss atts chs :
  refresh_sidecars d root p (with_streams info vs ss atts chs) = with_streams (refresh_sidecars d root p info) vs ss atts chs.
Proof. reflexivity. Qed.
(** The companions of a probe are those of the disk. *)
Definition fresh (root p : Path) (info : MediaInfo) : Prop := refresh_sidecars D root p info = info.
Lemma fresh_streams root p info vs ss atts chs : fresh root p info -> fresh root p (with_streams info vs ss atts chs).
Proof. unfold fresh. intros H. by rewrite refresh_streams, H. Qed.
Lemma measured_fresh {A} root p (r : result Error A) kept f failed info :
  measured r kept f failed = Ok info -> (forall a, fresh root p (f a)) -> fresh root p failed -> fresh root p info.
Proof. destruct r as [a|[]]; cbn; intros [= <-] Hf Hx; [apply Hf|done|done]. Qed.
Lemma inspect_fresh root p f : inspect still root p = Ok f -> fresh root p (in_info f).
Proof.
  unfold inspect. destruct (dk_metadata D p) as [st|e]; cbn; [|done]. destruct (st_modified st) as [t|e]; cbn; [|done].
  destruct (identity_hashes _ _ _) as [[[h tl] o]|e]; cbn; [|done]. destruct (dk_discover _ _) as [info|e]; cbn; [|done].
  assert (fresh root p (refresh_sidecars D root p info)) as H0 by apply scan_refresh_idem.
  destruct (measure_keyframes _ _ _) as [i1|e] eqn:E1; cbn; [|done].
  assert (fresh root p i1) as H1.
  { revert E1. unfold measure_keyframes. destruct (video _); [by intros [= <-]|]. intros E. eapply measured_fresh; [exact E| |done].
    intros ms. by apply fresh_streams. }
  destruct (declare_header _ _ _) as [i2|e] eqn:E2; cbn; [|done]. intros [= <-]. cbn.
  revert E2. unfold declare_header. destruct (is_some_and _ _); [|by intros [= <-]]. intros E. eapply measured_fresh; [exact E| |].
  - intros d. by apply fresh_streams.
  - by apply fresh_streams.
Qed.

(** Setting a field of a JSON text sets the field of what is read of it. *)
Definition json_set_faithful : Prop :=
  forall text revision,
    media_of_json (set_sidecar_revision text revision) = (fun m => with_revision m (Some revision)) <$> media_of_json text.
(** What JSON keeps: not, for one, a gain that is not a number. *)
Definition reads_back (m : MediaInfo) : Prop := media_of_json (json_of_media m) = Some m.
(** A row the next scan has nothing to do for. *)
Definition unchanged (music : bool) (root p : Path) (row : FileRow) : Prop :=
  r_error row = "" /\ classify_file still root p (Some (known_of row)) false music = Unchanged.
Lemma unchanged_intro music root p row st info :
  r_error row = "" -> dk_metadata D p = Ok st -> stat_matches st (known_of row) = true -> r_reprobe row = false ->
  music && (r_music row <? MUSIC_TAG_GENERATION) = false -> media_of_json (r_streams row) = Some info -> fresh root p info ->
  unchanged music root p row.
Proof.
  intros He Hst Hm Hr Hmu Hj Hf. split; [done|]. unfold classify_file. rewrite Hst, Hm. cbn [orb negb known_of kf_reprobe kf_music kf_streams].
  rewrite Hr, Hmu, Hj. cbn [orb]. unfold fresh in Hf. rewrite Hf. cbv zeta. by rewrite bool_decide_eq_true_2.
Qed.
(** What the disk must be for a scan to leave nothing undone: the file can be
    inspected, JSON keeps what is found, also when only the companions of what
    was kept before are read again, and its time is not before the epoch. *)
Definition inspectable (root p : Path) : Prop :=
  (exists f, inspect still root p = Ok f /\ reads_back (in_info f))
  /\ (forall text m, media_of_json text = Some m -> reads_back (refresh_sidecars D root p m))
  /\ exists st t, dk_metadata D p = Ok st /\ st_modified st = Ok t /\ 0 <= t /\ 0 <= st_len st < 2 ^ 64.
Lemma stat_matches_again st row size mtime :
  stat_matches st (known_of row) = true -> size = as_i64 (kf_size (known_of row)) -> mtime = kf_mtime (known_of row) ->
  forall row', r_size row' = size -> r_mtime row' = mtime -> stat_matches st (known_of row') = true.
Proof.
  unfold stat_matches. intros H -> -> row' Hs Hm. cbn [known_of kf_size kf_mtime] in *. rewrite Hs, Hm, wrap_as_i64, wrap_wrap. done.
Qed.
Lemma fate_unchanged_next lo hi deep music generation root p before row :
  json_set_faithful -> inspectable root p -> fate still lo hi deep music generation root p before row -> unchanged music root p row.
Proof.
  intros Hset [[f0 [Hf0 Hback]] [Hagain (st0 & t0 & Hst0 & Ht0 & Hpos & Hlen)]] Hf.
  destruct Hf as [n row Hn He Hc|n row rev Hn He Hc|n m row t Hn He Hc Hm Hi|n row r s v Hn He Hc|m f s b v Hm Hi|m t b v Hm Hi].
  - destruct (classify_kept _ _ _ _ _ _ _ Hc) as (-> & _); [done|]. by split.
  - destruct (classify_kept _ _ _ _ _ _ _ Hc) as (_ & (st & Hst & Hmat) & Hre & pr & Hpr & Hrev & Hnone); [done|]. cbv zeta in *.
    apply orb_false_iff in Hre as [Hre Hmu]. cbn [known_of kf_streams kf_reprobe kf_music] in *. unfold seen in *.
    assert (sidecar_revision pr = None) as Hno by (by rewrite <- Hnone).
    assert (rebased row rev = with_row_streams row (set_sidecar_revision (r_streams row) rev)) as ->.
    { unfold rebased. rewrite He, Hpr. cbn [String.eqb andb is_some_and]. by rewrite Hno. }
    apply (unchanged_intro music root p _ st (with_revision pr (Some rev))); try done.
    + cbn [with_row_streams r_streams]. by rewrite Hset, Hpr.
    + unfold fresh. unfold with_revision at 1. rewrite refresh_with. rewrite <- Hnone at 2.
      destruct (refresh_sidecars D root p pr). cbn in *. by rewrite Hrev.
  - exfalso. unfold seen in Hi. rewrite Hf0 in Hi. done.
  - destruct (classify_kept _ _ _ _ _ _ _ Hc) as (_ & (st & Hst & Hmat) & Hre & pr & Hpr & Hr); [done|]. cbv zeta in Hr.
    apply orb_false_iff in Hre as [Hre Hmu]. cbn [known_of kf_streams kf_reprobe kf_music] in *. unfold seen in *.
    destruct (upserted_fields (Some row) (with_source r s) generation 0 false v) as (Us & Um & Ut & Ue & _ & _ & Uw).
    destruct (Uw row eq_refl) as [Uw1 Uw2]. set (row' := upserted _ _ _ _ _ _) in *. rewrite Hr in Us, Um, Ut. cbn [with_source f_size f_mtime f_streams] in *.
    apply (unchanged_intro music root p _ st (refresh_sidecars D root p pr)); try done.
    + by eapply stat_matches_again.
    + by apply Uw2.
    + destruct music; [|done]. cbn in *. apply Z.ltb_ge in Hmu. apply Z.ltb_ge. lia.
    + rewrite Ut. by eapply Hagain.
  - unfold seen in Hi. assert (f0 = f) as -> by congruence. destruct (upserted_fields b (record_of s f) generation (music_generation music) true v) as (Us & Um & Ut & Ue & Up & Umu & _).
    set (row' := upserted _ _ _ _ _ _) in *. destruct (inspect_stat _ _ _ _ Hi) as (st & t & Hst & Ht & Hsz & Hmt).
    rewrite Hst0 in Hst. injection Hst as <-. rewrite Ht0 in Ht. injection Ht as <-. cbn [record_of f_size f_mtime f_streams] in *.
    apply (unchanged_intro music root p _ st0 (in_info f)); try done.
    + unfold stat_matches, since_epoch in *. cbn [known_of kf_size kf_mtime]. rewrite Ht0, Us, Um, Hsz, Hmt, wrap_as_i64, wrap_u64 by done.
      rewrite (proj2 (Z.leb_le 0 t0)) by done. cbn. by rewrite !Z.eqb_refl.
    + by apply Up.
    + destruct music; [|done]. cbn in *. apply Z.ltb_ge. done.
    + by rewrite Ut.
    + by apply inspect_fresh.
  - exfalso. unfold seen in Hi. rewrite Hf0 in Hi. done.
Qed.

(** ** Nothing to do *)

Lemma filter_none {A} (P : A -> bool) l : (forall x, x ∈ l -> P x = false) -> List.filter P l = [].
Proof.
  intros H. destruct (List.filter P l) as [|x r] eqn:E; [done|]. assert (x ∈ List.filter P l) as Hx by (rewrite E; left).
  apply filter_In_elem in Hx as [Hx Hp]. by rewrite H in Hp.
Qed.
Lemma reconcile_none c root present :
  (forall q, is_Some (c_files c !! (root, q)) -> q ∈ present) -> reconcile_root c root present = c.
Proof.
  intros H. unfold reconcile_root. rewrite filter_none; [done|]. intros [r q] Hs%file_key.
  destruct (r =s root) eqn:E; [|done]. apply String.eqb_eq in E as ->. cbn. apply H, str_mem_spec in Hs. by rewrite Hs.
Qed.
Lemma finish_none c generation retained :
  (forall s, is_Some (c_files c !! s) -> fst s ∈ retained) ->
  finish_scan c generation retained
  = (c_current c, publish_version (with_scan c (c_scan_generation c) false generation) (c_current c) true).
Proof.
  intros H. unfold finish_scan. rewrite filter_none; [done|]. intros [[root p] row] Hs%elem_of_map_to_list.
  assert (root ∈ retained) as Hr by (apply (H (root, p)); by eexists). apply str_mem_spec in Hr. by rewrite Hr, andb_false_r.
Qed.

Section Rescan.
Context (digest : string -> string) (c : Catalog).
Notation never := (fun _ : nat => false).
Notation nobody := (fun (_ : nat) (x : Catalog) => x).
(** A step that ends and leaves the catalogue as it was. *)
Definition idle {A} (m : S_M A) (R : A -> Prop) : Prop :=
  forall s, sn_catalog s = c -> exists a s', m s = (Done a, s') /\ sn_catalog s' = c /\ R a.
Lemma idle_ret {A} (a : A) (R : A -> Prop) : R a -> idle (ret a) R.
Proof. intros HR s Hs. by exists a, s. Qed.
Lemma idle_bind {A B} (m : S_M A) (k : A -> S_M B) R Q : idle m R -> (forall a, R a -> idle (k a) Q) -> idle (bind m k) Q.
Proof.
  intros Hm Hk s Hs. destruct (Hm s Hs) as (a & s1 & E & Hs1 & HR). destruct (Hk a HR s1 Hs1) as (b & s2 & E2 & Hs2 & HQ).
  exists b, s2. unfold bind. by rewrite E.
Qed.
Lemma idle_aside m : aside m -> idle m (fun _ => True).
Proof. intros Hm s Hs. destruct (Hm s) as (s' & E & Hc & _). exists tt, s'. by rewrite Hc. Qed.
Lemma idle_look {A} (f : (nat -> Disk) -> A) (R : A -> Prop) : R (f still) -> idle (look still never f) R.
Proof. intros HR s Hs. by eexists _, _. Qed.
Lemma idle_transaction {A} (f : Catalog -> A * Catalog) (R : A -> Prop) :
  snd (f c) = c -> R (fst (f c)) -> idle (transaction never nobody f) R.
Proof.
  intros Hf HR s Hs. unfold transaction. rewrite Hs. destruct (f c) as [a c1]. cbn in *. subst c1. by eexists _, _.
Qed.
Lemma idle_collect {A B} (f : A -> S_M B) (l : list A) (R : A -> B -> Prop) :
  (forall a, a ∈ l -> idle (f a) (R a)) -> idle (collect f l) (Forall2 R l).
Proof.
  induction l as [|a l IH]; intros Hf; cbn [collect]; [by apply idle_ret|].
  eapply idle_bind; [apply Hf; left|]. intros b Hb. eapply idle_bind; [apply IH; intros x Hx; apply Hf; by right|].
  intros bs Hbs. apply idle_ret. by constructor.
Qed.
Lemma idle_each {A} (f : A -> S_M unit) (l : list A) : (forall a, a ∈ l -> idle (f a) (fun _ => True)) -> idle (each f l) (fun _ => True).
Proof. intros Hf. eapply idle_bind; [by apply (idle_collect f l (fun _ _ => True))|]. intros bs _. by apply idle_ret. Qed.

Definition all_unchanged (music : bool) (roots : list Scheduler.CollectionRoot) : Prop :=
  forall r, r ∈ roots -> exists ps, walk D music (components (path r)) = Ok ps
    /\ (forall p, p ∈ ps -> exists row, c_files c !! (token r, relative (components (path r)) p) = Some row
                             /\ unchanged music (components (path r)) p row)
    /\ (forall q, is_Some (c_files c !! (token r, q)) -> q ∈ map (relative (components (path r))) ps).
Lemma idle_batch music generation tk root batch :
  (forall p, p ∈ batch -> exists row, c_files c !! (tk, relative root p) = Some row /\ unchanged music root p row) ->
  idle (scan_batch still never nobody (known_files c) ∅ false music generation tk root batch) (fun _ => True).
Proof.
  intros Hb. unfold scan_batch.
  eapply idle_bind; [apply (idle_collect _ batch (fun p v => snd v = Unchanged))|].
  { intros p Hp. destruct (Hb p Hp) as (row & Hrow & He & Hc). unfold verdict. cbv zeta.
    eapply idle_bind; [apply (idle_look _ (fun a => a = Unchanged))|intros a ->; by apply idle_ret].
    rewrite known_lookup, Hrow. cbn. rewrite He. exact Hc. }
  intros vs Hvs. eapply idle_bind; [apply (idle_collect _ vs (fun _ b => b = None))|].
  { intros [[p rel] a] Hv. assert (a = Unchanged) as ->.
    { apply list_elem_of_lookup in Hv as [i Hi]. destruct (Forall2_lookup_r _ _ _ _ _ Hvs Hi) as (x & _ & H). exact H. }
    cbn [settle]. eapply idle_bind; [apply idle_aside; by eexists|]. intros _ _. by apply idle_ret. }
  intros bs Hbs. assert (omap (fun b => b) bs = []) as ->.
  { clear -Hbs. induction Hbs as [|v b vs bs -> _ IH]; [done|]. cbn. exact IH. }
  eapply idle_bind; [by apply (idle_ret tt (fun _ => True))|]. intros _ _. apply idle_aside. by eexists.
Qed.
Lemma idle_then {A B} (m : S_M A) (k : A -> S_M B) R (Post : B -> Scan -> Prop) :
  idle m R -> (forall a s, R a -> sn_catalog s = c -> exists b s', k a s = (Done b, s') /\ Post b s') ->
  forall s, sn_catalog s = c -> exists b s', bind m k s = (Done b, s') /\ Post b s'.
Proof.
  intros Hm Hk s Hs. destruct (Hm s Hs) as (a & s1 & E & Hs1 & HR). destruct (Hk a s1 HR Hs1) as (b & s2 & E2 & HP).
  exists b, s2. unfold bind. by rewrite E.
Qed.
(** What follows the start of the generation. *)
Lemma idle_rest cfg generation :
  let roots := resolved_roots digest (cf_roots cfg) in
  let music := cf_media_type cfg =s "music" in
  all_unchanged music roots -> (forall src, is_Some (c_files c !! src) -> fst src ∈ map token roots) ->
  forall s, sn_catalog s = c -> exists v s',
    bind (transaction never nobody (fun c => (known_files c, c))) (fun known =>
      bind (collect (scan_root still never nobody music) roots) (fun inventories =>
        bind (each (fun '(root_token, root, paths) =>
                each (scan_batch still never nobody known ∅ false music generation root_token root) (chunks BATCH_SIZE paths))
                (omap (fun i => i) inventories)) (fun _ =>
          bind set_counts (fun _ => transaction never nobody (fun c => finish_scan c generation (map token roots)))))) s = (Done v, s')
    /\ v = c_current c /\ sn_catalog s' = publish_version (with_scan c (c_scan_generation c) false generation) (c_current c) true.
Proof.
  intros roots music Hall Hin. eapply idle_then; [by apply (idle_transaction _ (fun k => k = known_files c))|]. intros kn s -> Hs. revert s Hs.
  eapply idle_then; [apply (idle_collect _ roots (fun r o => exists ps, walk D music (components (path r)) = Ok ps
      /\ o = Some (token r, components (path r), ps)))|].
  { intros r Hr. destruct (Hall r Hr) as (ps & Hw & Hps & Hq). unfold scan_root. cbv zeta.
    eapply idle_bind; [by apply (idle_look _ (fun w => w = Ok ps))|]. intros w ->.
    eapply idle_bind; [apply (idle_transaction _ (fun _ => True)); [|done]|intros _ _; apply idle_ret; by exists ps].
    cbn [snd]. by apply reconcile_none. }
  intros os s Hos Hs. revert s Hs. eapply idle_then; [apply idle_each|].
  { intros [[tk root] ps] Hi. apply list_elem_of_omap in Hi as (o & Ho & ->). apply list_elem_of_lookup in Ho as [j Hj].
    destruct (Forall2_lookup_r _ _ _ _ _ Hos Hj) as (r & Hr & ps' & Hw & [= -> -> ->]). apply list_elem_of_lookup_2 in Hr.
    destruct (Hall r Hr) as (ps2 & Hw2 & Hps & _). rewrite Hw in Hw2. injection Hw2 as <-.
    apply idle_each. intros batch Hb. apply idle_batch. intros p Hp. apply Hps.
    rewrite <- (chunks_fuel_concat (length ps') BATCH_SIZE ps') by (unfold BATCH_SIZE; lia).
    apply list_elem_of_join. by exists batch. }
  intros u s _ Hs. revert s Hs. eapply idle_then; [apply idle_aside; by eexists|]. intros _ s _ Hs.
  unfold transaction. rewrite Hs, finish_none by done. by eexists _, _.
Qed.
End Rescan.

Lemma rescan_runs digest cfg s :
  let c := sn_catalog s in
  let roots := resolved_roots digest (cf_roots cfg) in
  all_unchanged c (cf_media_type cfg =s "music") roots -> (forall src, is_Some (c_files c !! src) -> fst src ∈ map token roots) ->
  exists s', scan_local_collection still (fun _ => false) (fun _ x => x) digest cfg ∅ false s = (Done (c_current c), s')
    /\ sn_catalog s' = publish_version (with_scan c (c_scan_generation c + 1) false (c_scan_generation c + 1)) (c_current c) true.
Proof.
  intros c roots Hall Hin.
  set (s1 := mkScan (snd (begin_scan c)) (sn_now s + 1) 0 0 0 0 (mkCounts 0 0 0)).
  destruct (idle_rest digest (snd (begin_scan c)) cfg (c_scan_generation c + 1)) with (s := s1) as (v & s' & E & -> & Hs'); [exact Hall|exact Hin|done|].
  exists s'. split; [exact E|exact Hs'].
Qed.
End Still.

Section Twice.
Context {U : Unicode} {json : MediaJson} {digests : Digests}.
(** C8: a second scan of a disk that stands still writes no row and no record.
    Whatever the first one found in the catalogue, and whatever was discovered
    during it: if every root can be walked, every file of its walks can be
    inspected, JSON keeps what was found, and none is dated before the epoch,
    the next scan takes every one of them as unchanged, and beside the two
    writes that open and close it leaves the rows, the log, its version and the
    leases as they were. *)
Theorem rescan_silent D halted others digest cfg changed deep s v s1 s2 :
  (forall n c, rtc discovery_step c (others n c)) -> NoDup (map token (resolved_roots digest (cf_roots cfg))) ->
  distinct_names (fun _ => D) -> old_rows (c_files (sn_catalog s)) (c_scan_generation (sn_catalog s)) -> json_set_faithful ->
  (forall r, r ∈ resolved_roots digest (cf_roots cfg) -> exists ps, walk D (cf_media_type cfg =s "music") (components (path r)) = Ok ps
     /\ forall p, p ∈ ps -> inspectable D (components (path r)) p) ->
  scan_local_collection (fun _ => D) halted others digest cfg changed deep s = (Done v, s1) ->
  sn_catalog s2 = sn_catalog s1 ->
  let c1 := sn_catalog s1 in
  exists s3, scan_local_collection (fun _ => D) (fun _ => false) (fun _ x => x) digest cfg ∅ false s2 = (Done (c_current c1), s3)
    /\ sn_catalog s3 = publish_version (with_scan c1 (c_scan_generation c1 + 1) false (c_scan_generation c1 + 1)) (c_current c1) true.
Proof.
  intros Hm Htk Hn Hold Hj Hdisk Hrun Hs2 c1.
  destruct (scan_run_result _ _ _ _ _ _ _ s v s1 Hm Htk Hn Hrun) as (_ & Hl & Hrest).
  destruct Hrest as [Hout _]; [by rewrite Z.add_simpl_r|]. fold c1 in Hl, Hout.
  assert (forall src, is_Some (c_files c1 !! src) -> fst src ∈ map token (resolved_roots digest (cf_roots cfg))) as Hin.
  { intros src [row Hrow]. destruct (decide (fst src ∈ map token (resolved_roots digest (cf_roots cfg)))) as [|Hno]; [done|].
    by rewrite Hout in Hrow. }
  pose proof (rescan_runs D digest cfg s2) as Hagain. cbv zeta in Hagain. rewrite Hs2 in Hagain. apply Hagain; [|exact Hin]. intros r Hr. destruct (Hdisk r Hr) as (ps & Hw & Hps). exists ps. split; [done|].
  destruct (Hl r Hr) as (n & _ & H). rewrite Hw in H. destruct H as [H1 H2]. split.
  - intros p Hp. destruct (H1 p Hp) as (row & Hrow & Hf). exists row. split; [done|]. eapply fate_unchanged_next; [done|by apply Hps|exact Hf].
  - intros q [row Hq]. destruct (decide (q ∈ map (relative (components (path r))) ps)) as [|Hno]; [done|]. fold c1 in Hq. by rewrite H2 in Hq.
Qed.
End Twice.

(** ** A file whose inspection never returns *)

Section Crash.
Context {U : Unicode} {json : MediaJson} {digests : Digests}.
Context (disk_at : nat -> Disk) (halted : nat -> bool) (others : nat -> Catalog -> Catalog) (digest : string -> string).
Context (cfg : ScanConfig) (changed : gset Path) (deep : bool) (r : Scheduler.CollectionRoot) (p : Path).
Notation roots := (resolved_roots digest (cf_roots cfg)).
Notation music := (cf_media_type cfg =s "music").
Notation src := (token r, relative (components (path r)) p).
Context (meanwhile : forall n c, rtc discovery_step c (others n c)) (tokens : NoDup (map token roots)) (names : distinct_names disk_at).
Context (of_root : r ∈ roots) (walked_to : forall n, exists ps, walk (disk_at n) music (components (path r)) = Ok ps /\ p ∈ ps).
Context (crashes : forall n, inspect (seen disk_at n) (components (path r)) p = Err Crashed
                             \/ inspect (seen disk_at n) (components (path r)) p = Err Endless).

(** No answer about the file, and no manifest before. *)
Definition untold (c : Catalog) : Prop :=
  (forall row, c_files c !! src = Some row -> r_error row <> "") /\ c_complete c = false.
Definition spares {A} (m : S_M A) : Prop := forall s, untold (sn_catalog s) -> untold (sn_catalog (snd (m s))).
Lemma untold_same c c' : (forall row, c_files c' !! src = Some row -> c_files c !! src = Some row) -> c_complete c' = c_complete c -> untold c -> untold c'.
Proof. intros Hf Hc [H1 H2]. split; [|by rewrite Hc]. intros row Hr. by apply H1, Hf. Qed.
Lemma spares_still {A} (m : S_M A) : (forall s, sn_catalog (snd (m s)) = sn_catalog s) -> spares m.
Proof. intros H s Hs. by rewrite H. Qed.
Lemma spares_bind_with {A B} (R : A -> Prop) (m : S_M A) (k : A -> S_M B) :
  yields R m -> spares m -> (forall a, R a -> spares (k a)) -> spares (bind m k).
Proof.
  intros Hy Hm Hk s Hs. unfold bind. specialize (Hm s Hs). specialize (Hy s). destruct (m s) as [[a| |] s1]; cbn in *; [|done|done].
  apply Hk; [by eapply Hy|done].
Qed.
Lemma spares_bind {A B} (m : S_M A) (k : A -> S_M B) : spares m -> (forall a, spares (k a)) -> spares (bind m k).
Proof. intros Hm Hk. by apply (spares_bind_with (fun _ => True)). Qed.
Lemma spares_collect {A B} (f : A -> S_M B) l : (forall a, a ∈ l -> spares (f a)) -> spares (collect f l).
Proof.
  induction l as [|a l IH]; intros Hf; cbn [collect]; [by apply spares_still|].
  apply spares_bind; [apply Hf; left|]. intros b. apply spares_bind; [apply IH; intros x Hx; apply Hf; by right|]. intros bs. by apply spares_still.
Qed.
Lemma spares_look {A B} (f : (nat -> Disk) -> A) (k : A -> S_M B) :
  (forall n, spares (k (f (seen disk_at n)))) -> spares (bind (look disk_at halted f) k).
Proof.
  intros Hk s Hs. unfold bind, look. destruct (halted (sn_now s)); cbn; [done|]. by apply (Hk (sn_now s) (with_catalog s LOOKS (sn_catalog s))).
Qed.
Lemma quiet_untold n c : untold c -> untold (others n c).
Proof.
  destruct (discovery_run _ _ (meanwhile n c)) as [_ [Hf Hfr]]. apply untold_same; [by rewrite Hf|]. by injection Hfr.
Qed.
Lemma spares_transaction {A} (f : Catalog -> A * Catalog) :
  (forall c, untold c -> untold (snd (f c))) -> spares (transaction halted others f).
Proof.
  intros Hf s Hs. unfold transaction. apply (quiet_untold (sn_now s)) in Hs. destruct (halted (sn_now s)); cbn; [done|].
  specialize (Hf _ Hs). by destruct (f _).
Qed.
Lemma spares_known {B} (k : gmap Source KnownFile -> S_M B) :
  (forall kn, kn !! src = None -> spares (k kn)) -> spares (bind (transaction halted others (fun c => (known_files c, c))) k).
Proof.
  intros Hk s Hs. unfold bind, transaction. apply (quiet_untold (sn_now s)) in Hs. destruct (halted (sn_now s)); cbn; [done|].
  apply Hk; [|done]. rewrite known_lookup. destruct Hs as [Hs _]. destruct (c_files _ !! src) as [row|]; [|done]. cbn.
  destruct (r_error row =s "") eqn:E; [|done]. apply String.eqb_eq in E. by destruct (Hs row).
Qed.
Lemma yields_look {A B} (R : B -> Prop) (f : (nat -> Disk) -> A) (k : A -> S_M B) :
  (forall n, yields R (k (f (seen disk_at n)))) -> yields R (bind (look disk_at halted f) k).
Proof.
  intros Hk s b s' H. unfold bind, look in H. destruct (halted (sn_now s)); [done|]. by eapply (Hk (sn_now s)).
Qed.
Lemma frame_complete c c' : frame c' = frame c -> c_complete c' = c_complete c.
Proof. by intros [=]. Qed.
Lemma inserted_other c c' s row : s <> src -> frame c' = frame c -> c_files c' = <[s := row]> (c_files c) -> untold c -> untold c'.
Proof. intros Hs Hf Hc. apply untold_same; [|by apply frame_complete]. intros w. rewrite Hc. by rewrite lookup_insert_ne. Qed.

(** The verdict on the file is to inspect it. *)
Definition condemned (tk : string) (root : Path) (v : Path * string * ScanAction) : Prop :=
  (tk, snd (fst v)) = src -> root = components (path r) /\ fst (fst v) = p /\ snd v = Probe false.
Lemma spares_settle generation tk root v : condemned tk root v -> spares (settle disk_at halted others music generation tk root v).
Proof.
  destruct v as [[p' rel] action]. intros Hv. destruct (decide ((tk, rel) = src)) as [He|Hne].
  - destruct (Hv He) as (-> & Hp & Ha). cbn in Hp, Ha. subst p' action. cbn [settle]. apply spares_look. intros n.
    destruct (crashes n) as [-> | ->]; by apply spares_still.
  - destruct action as [|revision|record|stale]; cbn [settle].
    + apply spares_bind; [by apply spares_still|]. intros u. by apply spares_still.
    + apply spares_bind; [by apply spares_still|]. intros u. by apply spares_still.
    + apply spares_bind; [by apply spares_still|]. intros u. apply spares_bind; [|intros u'; by apply spares_still].
      apply spares_bind; [|intros [o|e]; by apply spares_still]. apply spares_transaction. intros c.
      destruct (upsert_files c (with_source record (tk, rel)) (tk, rel) generation 0 false eq_refl) as (_ & Hf & Hc).
      by eapply inserted_other.
    + apply spares_look. intros n. destruct (inspect _ root p') as [f|[e| |]]; [| |by apply spares_still|by apply spares_still].
      * apply spares_bind; [by apply spares_still|]. intros u. apply spares_bind; [|intros u'; by apply spares_still].
        apply spares_bind; [|intros [o|e]; by apply spares_still]. apply spares_transaction. intros c.
        fold (music_generation music). fold (record_of (tk, rel) f).
        destruct (upsert_files c (record_of (tk, rel) f) (tk, rel) generation (music_generation music) true eq_refl) as (_ & Hf & Hc).
        by eapply inserted_other.
      * apply spares_bind; [by apply spares_still|]. intros u. destruct stale; [by apply spares_still|].
        apply spares_bind; [|intros v; by apply spares_still]. apply spares_transaction. intros c.
        destruct (error_files c (tk, rel) e generation) as (Hf & version & Hc). by eapply inserted_other.
Qed.
Lemma baseline_untold c tk bs : untold c -> untold (baseline_sidecars c tk bs).
Proof.
  unfold baseline_sidecars. revert c. induction bs as [|[q rev] bs IH]; intros c Hc; cbn [fold_left]; [done|]. apply IH.
  destruct Hc as [H1 H2]. split; [|done]. intros row. cbn [c_files with_files].
  destruct (decide ((tk, q) = src)) as [He|Hne]; [|rewrite lookup_alter_ne by done; apply H1].
  rewrite He, lookup_alter_eq. destruct (c_files c !! src) as [was|] eqn:E; [|done]. intros [= <-]. specialize (H1 was eq_refl).
  by destruct (_ && _).
Qed.
Definition right_inventory (i : Inventory) : Prop :=
  token_of i = token r -> let '(_, root, ps) := i in root = components (path r) /\ NoDup (map (relative root) ps) /\ p ∈ ps.
Lemma spares_batch kn generation tk root ps batch :
  kn !! src = None -> right_inventory (tk, root, ps) -> (forall q, q ∈ batch -> q ∈ ps) ->
  spares (scan_batch disk_at halted others kn changed deep music generation tk root batch).
Proof.
  intros Hkn Hi Hb. unfold scan_batch. apply (spares_bind_with (Forall (condemned tk root))).
  - apply yields_collect. intros q Hq. unfold verdict. cbv zeta. apply yields_look. intros n. apply yields_ret.
    intros He. cbn [fst snd] in *. injection He as Htk Hrel. destruct (Hi Htk) as (-> & Hnd & Hp). split; [done|].
    rewrite Htk, Hrel, Hkn. split; [|done].
    apply Hb, list_elem_of_lookup in Hq as [i Hq]. apply list_elem_of_lookup in Hp as [j Hp].
    assert (i = j) as ->; [|congruence]. eapply (NoDup_lookup _ _ _ (relative (components (path r)) p) Hnd);
      rewrite list_lookup_fmap; [by rewrite Hq, <- Hrel|by rewrite Hp].
  - apply spares_collect. intros q _. unfold verdict. cbv zeta. apply spares_look. intros n. by apply spares_still.
  - intros vs Hvs. apply spares_bind.
    + apply spares_collect. intros v Hv. apply spares_settle. rewrite Forall_forall in Hvs. by apply Hvs.
    + intros bs. apply spares_bind; [|intros u; by apply spares_still]. destruct (omap _ bs) as [|b l]; [by apply spares_still|].
      apply spares_transaction. intros c. apply baseline_untold.
Qed.
Lemma spares_roots : spares (collect (scan_root disk_at halted others music) roots).
Proof.
  apply spares_collect. intros r' _. unfold scan_root. cbv zeta. apply spares_look. intros n. destruct (walk _ _ _) as [ps|e].
  - apply spares_bind; [|intros u; by apply spares_still]. apply spares_transaction. intros c Hc. cbn [snd].
    destruct (reconcile_rows c (token r') (map (relative (components (path r'))) ps)) as [Hf Hr].
    revert Hc. apply untold_same; [|by apply frame_complete]. intros row. rewrite Hr. by destruct (_ && _).
  - apply spares_bind; [by apply spares_still|]. intros u. by apply spares_still.
Qed.
Lemma yields_roots :
  yields (Forall (fun o : option Inventory => match o with Some i => right_inventory i | None => True end))
    (collect (scan_root disk_at halted others music) roots).
Proof.
  apply yields_collect. intros r' Hr'. unfold scan_root. cbv zeta. apply yields_look. intros n.
  unfold seen. rewrite Nat.add_0_r. destruct (walk (disk_at n) music (components (path r'))) as [ps|e] eqn:E;
    apply yields_bind; intros u; apply yields_ret; [|done].
  intros Htk. cbn in Htk. assert (r' = r) as ->.
  { apply list_elem_of_lookup in Hr' as [i Hi]. apply list_elem_of_lookup in of_root as [j Hj].
    assert (i = j) as ->; [|congruence]. eapply (NoDup_lookup _ _ _ (token r) tokens); rewrite list_lookup_fmap; [by rewrite Hi, <- Htk|by rewrite Hj]. }
  split; [done|]. pose proof (names n music (components (path r))) as Hn. destruct (walked_to n) as (qs & Hq & Hp).
  rewrite E in Hn, Hq. injection Hq as <-. by split.
Qed.

(** A scan that does not complete. *)
Definition ends {A} (m : S_M A) : Prop :=
  forall s, untold (sn_catalog s) -> (forall v, fst (m s) <> Done v) -> untold (sn_catalog (snd (m s))).
Lemma scan_ends_bind {A B} (R : A -> Prop) (m : S_M A) (k : A -> S_M B) :
  yields R m -> spares m -> (forall a, R a -> ends (k a)) -> ends (bind m k).
Proof.
  intros Hy Hm Hk s Hs Hnot. unfold bind in *. specialize (Hm s Hs). specialize (Hy s). destruct (m s) as [[a| |] s1]; cbn in *; [|done|done].
  apply Hk; [by eapply Hy|done|done].
Qed.
Lemma ends_known {B} (k : gmap Source KnownFile -> S_M B) :
  (forall kn, kn !! src = None -> ends (k kn)) -> ends (bind (transaction halted others (fun c => (known_files c, c))) k).
Proof.
  intros Hk s Hs Hnot. unfold bind, transaction in *. apply (quiet_untold (sn_now s)) in Hs. destruct (halted (sn_now s)); cbn in *; [done|].
  apply Hk; [|done|done]. rewrite known_lookup. destruct Hs as [Hs _]. destruct (c_files _ !! src) as [row|]; [|done]. cbn.
  destruct (r_error row =s "") eqn:E; [|done]. apply String.eqb_eq in E. by destruct (Hs row).
Qed.
Lemma ends_transaction {A} (f : Catalog -> A * Catalog) : ends (transaction halted others f).
Proof.
  intros s Hs Hnot. unfold transaction in *. apply (quiet_untold (sn_now s)) in Hs. destruct (halted (sn_now s)); cbn in *; [done|].
  destruct (f _) as [a c]. by destruct (Hnot a).
Qed.
Lemma yields_any {A} (m : S_M A) : yields (fun _ => True) m.
Proof. done. Qed.
Lemma ends_scan : ends (scan_local_collection disk_at halted others digest cfg changed deep).
Proof.
  unfold scan_local_collection. eapply scan_ends_bind; [apply yields_any|apply spares_transaction; intros c; by apply untold_same|]. intros generation _.
  eapply scan_ends_bind; [apply yields_any|by apply spares_still|]. intros u _. apply ends_known. intros kn Hkn. cbv zeta.
  eapply scan_ends_bind; [apply yields_roots|apply spares_roots|]. intros os Hos.
  eapply scan_ends_bind; [apply yields_any| |].
  - unfold each. apply spares_bind; [|intros us; by apply spares_still]. apply spares_collect. intros [[tk root] ps] Hi.
    assert (right_inventory (tk, root, ps)) as Hright.
    { apply list_elem_of_omap in Hi as (o & Ho & ->). rewrite Forall_forall in Hos. exact (Hos _ Ho). }
    apply spares_bind; [|intros us; by apply spares_still]. apply spares_collect. intros batch Hb.
    eapply spares_batch; [done|exact Hright|]. intros q Hq.
    rewrite <- (chunks_fuel_concat (length ps) BATCH_SIZE ps) by (unfold BATCH_SIZE; lia). apply list_elem_of_join. by exists batch.
  - intros us _. eapply scan_ends_bind; [apply yields_any|by apply spares_still|]. intros u2 _. apply ends_transaction.
Qed.

(** C9: one file whose inspection does not return, because its measuring panics
    or goes round for ever, keeps its whole collection from ever being
    listed: the panic of the blocking thread is taken as the failure of the scan,
    not as that of the file. While the disk has the file and nothing is known of
    it, no scan completes, whatever else the disk answers; a collection that had
    no complete manifest before is not offered after, and the file is as unknown
    to the next scan. *)
Theorem crash_stops_scan s :
  untold (sn_catalog s) ->
  let '(o, s') := scan_local_collection disk_at halted others digest cfg changed deep s in
  (forall v, o <> Done v) /\ offer_ready (sn_catalog s') = false /\ untold (sn_catalog s').
Proof.
  intros Hs. destruct (scan_local_collection disk_at halted others digest cfg changed deep s) as [o s'] eqn:Hrun.
  assert (forall v, o <> Done v) as Hnot.
  { intros v ->. destruct (scan_run_result _ _ _ _ _ _ _ s v s' meanwhile tokens names Hrun) as (_ & Hl & _).
    destruct (Hl r of_root) as (n & _ & H). destruct (walked_to n) as (ps & Hw & Hp). rewrite Hw in H. destruct H as [H _].
    destruct (H p Hp) as (row & _ & Hf). destruct Hs as [Hs _]. revert Hs Hf. generalize (c_files (sn_catalog s) !! src) as before.
    intros before Hs Hf. destruct Hf as [m w Hm He|m w rev Hm He|m m' w t Hm He|m w rec so ver Hm He|m f so b ver Hm Hi|m t b ver Hm Hi];
      try (by destruct (Hs w eq_refl)); destruct (crashes m); congruence. }
  enough (untold (sn_catalog s')) as Hu by (split; [done|]; split; [apply Hu|done]).
  revert Hnot. replace o with (fst (scan_local_collection disk_at halted others digest cfg changed deep s)) by (by rewrite Hrun).
  replace s' with (snd (scan_local_collection disk_at halted others digest cfg changed deep s)) by (by rewrite Hrun).
  clear Hrun o s'. revert s Hs.
  apply ends_scan.
Qed.
End Crash.

(** ** Triggers *)

(** Whatever one trigger asks for, the other does. *)
Definition carries (t x : ScanTrigger) : Prop :=
  tr_changed t ⊆ tr_changed x /\ tr_force t ⊆ tr_force x
  /\ (tr_demand t = true -> tr_demand x = true) /\ (tr_deep t = true -> tr_deep x = true).
Lemma carries_refl t : carries t t.
Proof. by split_and!. Qed.
Lemma carries_extend t x more : carries t x -> carries t (extend x more).
Proof.
  intros (H1 & H2 & H3 & H4). split_and!; cbn; [set_solver|set_solver| |]; intros H; apply orb_true_iff; left; auto.
Qed.
Lemma carries_more t x more : carries t more -> carries t (extend x more).
Proof.
  intros (H1 & H2 & H3 & H4). split_and!; cbn; [set_solver|set_solver| |]; intros H; apply orb_true_iff; right; auto.
Qed.
(** A trigger waits: in the queue, in the slot, at its sender, in the hand of
    the orchestrator. *)
Definition waits (y : Sink) (t : ScanTrigger) : Prop :=
  exists x, carries t x
    /\ (x ∈ k_queue y \/ k_overflow y = Some x \/ x ∈ k_refused y \/ k_state y = Draining x \/ k_state y = Taking x).
Definition begun (y : Sink) (t : ScanTrigger) : Prop := exists x, k_state y = Scanning x /\ carries t x.
(** Whoever stores into the slot still wakes the orchestrator, or the queue does. *)
Definition woken (y : Sink) : Prop :=
  is_Some (k_overflow y) ->
  k_queue y <> [] \/ (0 < k_waking y)%nat \/ (exists x, k_state y = Draining x) \/ (exists x, k_state y = Taking x).
Lemma step_woken y y' : sink_step y y' -> woken y -> woken y'.
Proof.
  destruct 1 as [q o r w st t Hq|q o r w st t Hq|y y' Hs]; unfold woken; cbn.
  - intros H Ho. left. by destruct q.
  - auto.
  - destruct Hs as [q o r r' w st t|q o r w st|t q o r w|more q o r w t|o r w t|q o r w t|q o r w t]; cbn; intros H Ho.
    + right. left. lia.
    + left. destruct q as [|a q]; [done|]. match goal with |- (if ?b then _ else _) <> _ => by destruct b end.
    + right. right. left. by eexists.
    + right. right. left. by eexists.
    + right. right. right. by eexists.
    + by destruct Ho.
    + destruct (H Ho) as [H1|[H1|[[x H1]|[x H1]]]]; [by left|by right; left|done|done].
Qed.
Lemma step_waits y y' t : sink_step y y' -> waits y t -> waits y' t \/ begun y' t.
Proof.
  destruct 1 as [q o r w st x0 Hq|q o r w st x0 Hq|y y' Hs].
  - intros (x & Hc & H). left. exists x. split; [done|]. cbn in *. destruct H as [H|H]; [left; set_solver|by right].
  - intros (x & Hc & H). left. exists x. split; [done|]. cbn in *. destruct H as [H|[H|[H|H]]]; [by left|by right; left| |by right; right; right].
    right. right. left. by right.
  - destruct Hs as [q o r r' w st x0|q o r w st|x0 q o r w|more q o r w x0|o r w x0|q o r w x0|q o r w x0]; intros (x & Hc & H); cbn in H.
    + left. destruct H as [H|[H|[H|H]]].
      * exists x. split; [done|by left].
      * exists (extend x x0). subst o. split; [by apply carries_extend|by right; left].
      * apply elem_of_app in H as [H|[->|H]%elem_of_cons].
        -- exists x. split; [done|]. right. right. left. cbn. set_solver.
        -- exists (extend (default trigger_default o) x0). split; [by apply carries_more|by right; left].
        -- exists x. split; [done|]. right. right. left. cbn. set_solver.
      * exists x. split; [done|]. by right; right; right.
    + left. exists x. split; [done|]. cbn. destruct H as [H|H]; [left|by right]. match goal with |- x ∈ (if ?b then _ else _) => destruct b end; set_solver.
    + left. destruct H as [[->|H]%elem_of_cons|[H|[H|[H|H]]]]; try done.
      * exists x0. split; [done|]. by right; right; right; left.
      * exists x. split; [done|by left].
      * exists x. split; [done|by right; left].
      * exists x. split; [done|by right; right; left].
    + left. destruct H as [[->|H]%elem_of_cons|[H|[H|[H|H]]]]; try done.
      * exists (extend x0 more). split; [by apply carries_more|]. by right; right; right; left.
      * exists x. split; [done|by left].
      * exists x. split; [done|by right; left].
      * exists x. split; [done|by right; right; left].
      * injection H as ->. exists (extend x more). split; [by apply carries_extend|]. by right; right; right; left.
    + left. destruct H as [H|[H|[H|[H|H]]]]; try done; [by apply not_elem_of_nil in H| | |].
      * exists x. split; [done|by right; left].
      * exists x. split; [done|by right; right; left].
      * injection H as ->. exists x. split; [done|]. by right; right; right; right.
    + destruct H as [H|[H|[H|[H|H]]]]; try done.
      * left. exists x. split; [done|by left].
      * right. subst o. eexists. split; [done|]. by apply carries_more.
      * left. exists x. split; [done|by right; right; left].
      * right. injection H as ->. eexists. split; [done|]. destruct o; cbn; [by apply carries_extend|done].
    + left. destruct H as [H|[H|[H|[H|H]]]]; try done; exists x; (split; [done|]); [by left|by right; left|by right; right; left].
Qed.
(** From draining on, the orchestrator scans for all of the queue and the slot. *)
Lemma drains q o r w t0 :
  exists x, rtc own_step (mkSink q o r w (Draining t0)) (mkSink [] None r w (Scanning x))
    /\ (forall t, carries t t0 \/ (exists m, m ∈ q /\ carries t m) \/ (exists m, o = Some m /\ carries t m) -> carries t x).
Proof.
  revert t0. induction q as [|more q IH]; intros t0.
  - exists (map_or t0 (extend t0) o). split.
    + eapply rtc_l; [constructor|]. eapply rtc_l; [constructor|]. done.
    + intros t [H|[(m & Hm & _)|(m & -> & H)]]; [|by apply not_elem_of_nil in Hm|by apply carries_more].
      destruct o; cbn; [by apply carries_extend|done].
  - destruct (IH (extend t0 more)) as (x & Hr & Hx). exists x. split; [eapply rtc_l; [constructor|exact Hr]|].
    intros t [H|[(m & [->|Hm]%elem_of_cons & H)|H]]; apply Hx.
    + left. by apply carries_extend.
    + left. by apply carries_more.
    + right. left. by exists m.
    + by right; right.
Qed.
Lemma received q o r w t :
  (exists m, m ∈ q /\ carries t m) \/ q <> [] /\ (exists m, o = Some m /\ carries t m) ->
  exists y', rtc own_step (mkSink q o r w Waiting) y' /\ begun y' t.
Proof.
  intros H. destruct q as [|t0 q]; [destruct H as [(m & Hm & _)|[? _]]; [by apply not_elem_of_nil in Hm|done]|].
  destruct (drains q o r w t0) as (x & Hr & Hx). eexists. split; [eapply rtc_l; [constructor|exact Hr]|]. exists x. split; [done|]. apply Hx.
  destruct H as [(m & [->|Hm]%elem_of_cons & H)|[_ H]]; [by left|right; left; by exists m|by right; right].
Qed.
Lemma awaited q o r w t :
  woken (mkSink q o r w Waiting) -> (exists m, m ∈ q /\ carries t m) \/ (exists m, o = Some m /\ carries t m) ->
  exists y', rtc own_step (mkSink q o r w Waiting) y' /\ begun y' t.
Proof.
  intros Hw [H|(m & -> & H)]; [apply received; by left|]. destruct q as [|t0 q]; [|apply received; right; split; [done|by exists m]].
  destruct Hw as [Hw|[Hw|[[x Hw]|[x Hw]]]]; [by eexists|done| |done|done]. cbn in Hw. destruct w as [|w]; [lia|].
  destruct (received [trigger_default] (Some m) r w t) as (y' & Hr & Hb); [right; split; [done|by exists m]|].
  exists y'. split; [|done]. eapply rtc_l; [apply ko_wake|exact Hr].
Qed.

(** C10: no trigger of a scan is lost. A trigger that has been sent waits until a
    scan begins that carries all it asked for: the changed files, the demand,
    the deep probe. Nothing the senders or the orchestrator do drops it, also
    when the queue is full and sends race for the slot of the overflow, and
    without another send the orchestrator comes to it. *)
Theorem triggers_kept y t :
  rtc sink_step sink_new y -> waits y t ->
  (forall y', sink_step y y' -> waits y' t \/ begun y' t) /\ exists y', rtc own_step y y' /\ begun y' t.
Proof.
  intros Hy Hwait. split; [intros y' Hs; by eapply step_waits|].
  assert (woken y) as Hw.
  { clear Hwait. assert (woken sink_new) as H0 by by intros [? ?]. revert H0. induction Hy as [y|y y1 y2 Hs _ IH]; [done|].
    intros H0. apply IH. by eapply step_woken. }
  clear Hy.
  enough (forall y, woken y -> (exists x, carries t x /\ (x ∈ k_queue y \/ k_overflow y = Some x \/ k_state y = Draining x \/ k_state y = Taking x)) ->
            exists y', rtc own_step y y' /\ begun y' t) as Hgo.
  { destruct Hwait as (x & Hc & [H|[H|[H|H]]]); [apply Hgo; [done|exists x; auto]|apply Hgo; [done|exists x; auto]| |apply Hgo; [done|exists x; auto]].
    destruct y as [q o r w st]. cbn in H. apply list_elem_of_split in H as (r1 & r2 & ->).
    destruct (Hgo (mkSink q (Some (extend (default trigger_default o) x)) (r1 ++ r2) (S w) st)) as (y' & Hr & Hb).
    - intros _. right. left. cbn. lia.
    - eexists. split; [|right; left; reflexivity]. by apply carries_more.
    - exists y'. split; [|done]. eapply rtc_l; [constructor|exact Hr]. }
  clear y Hw Hwait. intros [q o r w st] Hw (x & Hc & H). cbn in H. destruct st as [|t0|t0|t0].
  - apply awaited; [done|]. destruct H as [H|[H|[H|H]]]; [left; by exists x|right; by exists x|done|done].
  - destruct (drains q o r w t0) as (z & Hr & Hz). eexists. split; [exact Hr|]. exists z. split; [done|]. apply Hz.
    destruct H as [H|[H|[H|H]]]; [right; left; by exists x|right; right; by exists x|injection H as ->; by left|done].
  - destruct H as [H|[->|[H|H]]]; [| |done|].
    + destruct (awaited q None r w t) as (y' & Hr & Hb); [by intros [? ?]|left; by exists x|]. exists y'. split; [|done].
      eapply rtc_l; [apply ko_take|]. eapply rtc_l; [apply ko_scanned|exact Hr].
    + eexists. split; [eapply rtc_once, ko_take|]. eexists. split; [done|]. by apply carries_more.
    + injection H as ->. eexists. split; [eapply rtc_once, ko_take|]. eexists. split; [done|]. destruct o; cbn; [by apply carries_extend|done].
  - destruct (awaited q o r w t) as (y' & Hr & Hb).
    + intros Ho. destruct (Hw Ho) as [H'|[H'|[[z H']|[z H']]]]; [by left|by right; left|done|done].
    + destruct H as [H|[H|[H|H]]]; [left; by exists x|right; by exists x|done|done].
    + exists y'. split; [|done]. eapply rtc_l; [apply ko_scanned|exact Hr].
Qed.

(** ** A root of one film *)

Section Film.
Notation root := ["srv"; "films"].
Notation film_path := (root ++ ["Film.mkv"]).
Notation tk := "root-sha256-d".
(** Sixteen bytes, and a framework that finds what it is told. *)
Definition film_disk (open : option Source_) (found_in : MediaInfo) : Disk := {|
  dk_walk := fun p => if decide (p = root) then [Ok (film_path, true); Ok (root ++ ["notes.txt"], true)] else [];
  dk_metadata := fun p => if decide (p = film_path) then Ok (mkStat 16 (Ok (1700000000 * 10 ^ 9))) else Err "no such file";
  dk_is_file := fun p => bool_decide (p = film_path);
  dk_read_dir := fun p => if decide (p = root) then Some ["Film.mkv"; "notes.txt"] else None;
  dk_content := fun p => if decide (p = film_path) then Ok (repeat 1 16) else Err "no such file";
  dk_open := fun _ => open;
  dk_discover := fun _ => Ok found_in |}.
Definition plain_digests : Digests := {| xxh3_64 := fun bs => wrap 64 (fold_left Z.add bs 0); stamps_json := fun _ => [] |}.
(** JSON as far as this film goes: a revision of its companions, or none. *)
Definition film_json : MediaJson := {|
  media_of_json := fun text =>
    if text =s "{}" then Some no_streams else (fun rev => with_revision no_streams (Some rev)) <$> strip_prefix "r" text;
  json_of_media := fun m => match sidecar_revision m with Some rev => ("r" ++ rev)%string | None => "{}" end;
  set_sidecar_revision := fun text rev =>
    if (text =s "{}") || is_some_and (fun _ => true) (strip_prefix "r" text) then ("r" ++ rev)%string else "" |}.
Definition films : ScanConfig := mkScanConfig "movies" ["/srv/films"].
Definition plain : Disk := film_disk None no_streams.
Definition first_start : Scan := mkScan unscanned 0 0 0 0 0 (mkCounts 0 0 0).
Notation film_scan d s := (scan_local_collection (U := ascii_tables) (json := film_json) (digests := plain_digests)
  (fun _ => d) (fun _ => false) (fun _ c => c) (fun _ => "d"%string) films ∅ false s).
Definition after_first : Scan := snd (film_scan plain first_start).

Lemma film_disk_names open found_in : distinct_names (fun _ => film_disk open found_in).
Proof.
  intros _ audio p. unfold walk. cbn [film_disk dk_walk]. destruct (decide (p = root)) as [->|]; [|constructor].
  assert (sort_by path_cmp [film_path] = [film_path]) as E by reflexivity.
  destruct audio; vm_compute; apply NoDup_singleton.
Qed.
Lemma film_disk_speaks open found_in : speaks (film_disk open found_in).
Proof.
  intros p. cbn [film_disk dk_metadata dk_content dk_discover].
  destruct (decide (p = film_path)); split_and!; intros; simplify_eq; cbn in *; simplify_eq; try done.
Qed.
Lemma film_disk_sane open found_in : sane_stats (film_disk open found_in).
Proof. intros p st. cbn [film_disk dk_metadata]. destruct (decide (p = film_path)); intros; simplify_eq; cbn. done. Qed.
Lemma film_tokens : NoDup (map token (resolved_roots (fun _ => "d"%string) (cf_roots films))).
Proof. vm_compute. apply NoDup_singleton. Qed.
Lemma film_first : film_scan plain first_start = (Done 1, after_first).
Proof. vm_compute. reflexivity. Qed.
Lemma unscanned_old generation : old_rows (c_files unscanned) generation.
Proof. intros s row H. by vm_compute in H. Qed.

Lemma scan_lists_disk_witness :
  fst (film_scan plain first_start) = Done 1
  /\ forall q, is_Some (c_files (sn_catalog after_first) !! (tk, q)) <-> q = "Film.mkv".
Proof.
  split; [by rewrite film_first|].
  assert (forall r, r ∈ resolved_roots (fun _ => "d"%string) (cf_roots films) -> exists n, (0 <= n < sn_now after_first)%nat
     /\ forall q, is_Some (c_files (sn_catalog after_first) !! (token r, q)) <-> q ∈ ["Film.mkv"]) as H.
  { intros r Hr.
    edestruct (scan_lists_disk (U := ascii_tables) (json := film_json) (digests := plain_digests)) as [H _];
      [| | | |exact film_first|].
    - intros n c. apply rtc_refl.
    - apply film_tokens.
    - apply film_disk_names.
    - apply unscanned_old.
    - destruct (H r Hr) as (n & Hn & Hq). exists n. split; [exact Hn|].
      change (resolved_roots _ _) with [Scheduler.mkRoot tk "/srv/films"] in Hr. apply list_elem_of_singleton in Hr as ->. exact Hq. }
  destruct (H (Scheduler.mkRoot tk "/srv/films")) as (n & _ & Hq); [left|]. intros q. rewrite (Hq q). apply list_elem_of_singleton.
Defined.

Lemma rows_current_witness :
  exists row, c_files (sn_catalog after_first) !! (tk, "Film.mkv") = Some row
    /\ exists p n st, "Film.mkv" = relative (components "/srv/films") p /\ (0 <= n < sn_now after_first)%nat
         /\ dk_metadata plain p = Ok st /\ stated st row.
Proof.
  set (found_row := c_files (sn_catalog after_first) !! (tk, "Film.mkv")).
  assert (exists row, found_row = Some row /\ r_error row = "") as (row & Hrow & He) by (by vm_compute; eexists).
  exists row. split; [done|].
  edestruct (rows_current (U := ascii_tables) (json := film_json) (digests := plain_digests)
      (fun _ => plain) (fun _ => false) (fun _ c => c) (fun _ => "d"%string) films ∅ false first_start 1 after_first
      (Scheduler.mkRoot tk "/srv/films")) as [H|(n & _ & Hw & _)]; [| | | | | | |exact Hrow|exact He|exact H|discriminate Hw].
  - intros n c. apply rtc_refl.
  - apply film_tokens.
  - apply film_disk_names.
  - intros n. apply film_disk_speaks.
  - intros n. apply film_disk_sane.
  - apply film_first.
  - left.
Defined.

Lemma film_inspectable : inspectable (U := ascii_tables) (json := film_json) (digests := plain_digests) plain root film_path.
Proof.
  split; [|split].
  - eexists. split; [vm_compute; reflexivity|reflexivity].
  - intros text m. unfold media_of_json, film_json. destruct (text =s "{}"); [by intros [= <-]|].
    destruct (strip_prefix "r" text); [|done]. by intros [= <-].
  - by eexists (mkStat 16 _), _.
Qed.
Lemma film_json_faithful : json_set_faithful (json := film_json).
Proof.
  intros text revision. unfold media_of_json, set_sidecar_revision, film_json.
  destruct (text =s "{}") eqn:E; cbn [orb].
  - done.
  - destruct (strip_prefix "r" text) as [rest|] eqn:Er; done.
Qed.
Lemma rescan_silent_witness :
  let c1 := sn_catalog after_first in
  exists s3, film_scan plain after_first = (Done (c_current c1), s3)
    /\ sn_catalog s3 = publish_version (with_scan c1 (c_scan_generation c1 + 1) false (c_scan_generation c1 + 1)) (c_current c1) true.
Proof.
  apply (rescan_silent (U := ascii_tables) (json := film_json) (digests := plain_digests)
      plain (fun _ => false) (fun _ c => c) (fun _ => "d"%string) films ∅ false first_start 1 after_first after_first).
  - intros n c. apply rtc_refl.
  - apply film_tokens.
  - apply film_disk_names.
  - apply unscanned_old.
  - apply film_json_faithful.
  - intros r Hr. change (resolved_roots _ _) with [Scheduler.mkRoot tk "/srv/films"] in Hr. apply list_elem_of_singleton in Hr as ->.
    exists [film_path]. split; [reflexivity|]. intros p ->%list_elem_of_singleton. apply film_inspectable.
  - apply film_first.
  - reflexivity.
Defined.

(** A film whose only key frame is declared behind no duration. *)
Definition short_film : bytes :=
  box "ftyp" (kind "isom") ++ box "moov" (box "trak" (box "mdia"
    (box "hdlr" (repeat 0 8 ++ kind "vide" ++ repeat 0 12) ++ box "mdhd" (repeat 0 8)
     ++ box "minf" (box "stbl" (box "stss" (to_be_bytes 8 1 ++ to_be_bytes 4 1)
                                ++ box "stts" (to_be_bytes 8 1 ++ to_be_bytes 4 2 ++ to_be_bytes 4 1500)))))).
Definition one_picture : MediaInfo :=
  with_streams no_streams [mkVideoStream "h264" 1920 1080 None None false None None None None None None None None None] [] None None.
Definition broken : Disk :=
  film_disk (Some (mkSource_ (len short_film) (file_env 50 short_film) (Some (take 12 short_film)) 8)) one_picture.
Lemma crash_stops_scan_witness :
  let '(o, s') := film_scan broken first_start in
  (forall v, o <> Done v) /\ offer_ready (sn_catalog s') = false
  /\ untold (Scheduler.mkRoot tk "/srv/films") film_path (sn_catalog s').
Proof.
  apply (crash_stops_scan (U := ascii_tables) (json := film_json) (digests := plain_digests)
      (fun _ => broken) (fun _ => false) (fun _ c => c) (fun _ => "d"%string) films ∅ false (Scheduler.mkRoot tk "/srv/films") film_path).
  - intros n c. apply rtc_refl.
  - apply film_tokens.
  - apply film_disk_names.
  - left.
  - intros n. exists [film_path]. split; [reflexivity|left].
  - intros n. left. vm_compute. reflexivity.
  - split; [|reflexivity]. intros row H. by vm_compute in H.
Defined.

Lemma triggers_kept_witness :
  let t := mkTrigger {[film_path]} ∅ false false false in
  exists y, rtc sink_step sink_new y /\ k_refused y = [t] /\ exists y', rtc own_step y y' /\ begun y' t.
Proof.
  set (t := mkTrigger {[film_path]} ∅ false false false). exists (mkSink (repeat trigger_default 8) None [t] 0 Waiting).
  assert (rtc sink_step sink_new (mkSink (repeat trigger_default 8) None [t] 0 Waiting)) as Hy.
  { unfold sink_new. do 8 (eapply rtc_l; [apply (ks_send _ _ _ _ _ trigger_default); unfold QUEUE; cbn; lia|cbn [app]]).
    eapply rtc_l; [apply (ks_full _ _ _ _ _ t); unfold QUEUE; cbn; lia|]. apply rtc_refl. }
  split; [exact Hy|]. split; [reflexivity|].
  apply (triggers_kept _ t Hy). exists t. split; [by split_and!|]. right. right. left. left.
Defined.

(** The catalogue of the first scan, offered and sent to a hub. *)
Definition film_catalog : Catalog := sn_catalog after_first.
Definition disk_offer : Offer := offer_of "movies" [mkRoot tk "/srv/films"] film_catalog.
Definition hub_before : Hub := fst (ok_or_else (offer_collection None disk_offer) (NO_HUB, mkCursor "" "" 0 false)).
Definition two_messages : list CatalogDelta := fst (answer_cursor one_kilobyte film_catalog (cursor_of hub_before)).
Definition hub_after : Hub := fold_left applied two_messages hub_before.
Notation film_step := (system_step (json := film_json) one_kilobyte "movies" "hub").
Lemma film_sent :
  rtc film_step (mkSystem film_catalog None Down [] None) (mkSystem film_catalog (Some hub_after) (Streaming [] (Some 1)) [("epoch-1", 1)] None).
Proof.
  set (m i := nth i two_messages (mkMessage "" "" [] 0 false false)).
  assert (answer_cursor one_kilobyte film_catalog (cursor_of hub_before) = ([m 0%nat; m 1%nat], Some 1)) as E by (vm_compute; reflexivity).
  pose proof (ss_answer (json := film_json) one_kilobyte "movies" "hub" film_catalog (Some hub_before) (cursor_of hub_before) [] None) as Ha.
  rewrite E in Ha.
  eapply rtc_l; [apply (ss_connect _ _ _ _ [mkRoot tk "/srv/films"]); vm_compute; reflexivity|].
  eapply rtc_l; [apply (ss_offer _ _ _ _ _ hub_before _ (cursor_of hub_before)); vm_compute; reflexivity|].
  eapply rtc_l; [exact Ha|].
  eapply rtc_l; [apply (ss_deliver _ _ _ film_catalog _ (applied hub_before (m 0%nat)) _ _ _ _ None); vm_compute; reflexivity|].
  apply rtc_once, (ss_deliver _ _ _ film_catalog _ hub_after _ [] _ [] (Some ("epoch-1", 1))). vm_compute. reflexivity.
Qed.
Lemma hub_lists_disk_witness :
  rtc film_step (mkSystem film_catalog None Down [] None) (mkSystem film_catalog (Some hub_after) (Streaming [] (Some 1)) [("epoch-1", 1)] None)
  /\ forall q, is_Some (hb_files hub_after !! (tk, q)) <-> q = "Film.mkv".
Proof.
  split; [exact film_sent|]. pose (y := mkSystem film_catalog (Some hub_after) (Streaming [] (Some 1)) [("epoch-1", 1)] None).
  destruct (hub_lists_disk (U := ascii_tables) (json := film_json) (digests := plain_digests)
      (fun _ => plain) (fun _ => false) (fun _ c => c) (fun _ => "d"%string) films ∅ false one_kilobyte "movies" "hub" "films" "epoch-1"
      first_start 1 after_first None Down [] None y hub_after) with (r := Scheduler.mkRoot tk "/srv/films") as (n & _ & H).
  - intros n c. apply rtc_refl.
  - intros x. reflexivity.
  - apply film_tokens.
  - apply film_disk_names.
  - intros n. apply film_disk_speaks.
  - apply reach_start.
  - exact film_first.
  - exact film_sent.
  - reflexivity.
  - reflexivity.
  - vm_compute. reflexivity.
  - vm_compute. reflexivity.
  - vm_compute. reflexivity.
  - left.
  - intros q. rewrite (H [film_path] eq_refl q). apply list_elem_of_singleton.
Defined.

(** A file dated before 1970 is inspected at every scan, whatever is known of it. *)
Lemma before_epoch_probed {U : Unicode} {json : MediaJson} {digests : Digests} (d : nat -> Disk) root p old music st t :
  dk_metadata (d O) p = Ok st -> st_modified st = Ok t -> t < 0 -> classify_file d root p old false music = Probe false.
Proof.
  intros Hst Ht Hneg. destruct old as [old|]; [|done]. unfold classify_file, stat_matches, since_epoch. rewrite Hst, Ht.
  rewrite (proj2 (Z.leb_gt 0 t)) by done. cbn. by rewrite andb_false_r.
Qed.
End Film.
